(* ===== verification/_CoqProject ===== *)
-Q . S2P
Prelude.v
SessionDescription.v
Vectors.v
Candidates.v
RoundAttempt.v
Round.v
RoundFacts.v
AttemptSafety.v
RoundMerge.v
SessionState.v
SessionFacts.v
SessionSafety.v
ReceivedBlock.v
ReceiverSource.v
BlockGraph.v
BlockGraphFacts.v
BlockInitialize.v
BlockDelivery.v
Catchain.v
BlockValidation.v
CatchainCore.v
CatchainUpdate.v
CatchainRun.v
CatchainSteps.v
Cache.v
Slashing.v
VectorHash.v
Actions.v
SessionProcessor.v
SessionChecks.v
SessionBlocks.v
SessionFrames.v
SessionActions.v
SessionRun.v
SessionReports.v
SessionInvariant.v
BlockId.v
BlockMeta.v
Package.v
ArchiveSlice.v
ArchiveFacts.v
EntryId.v
FileMaps.v
ArchiveManager.v
ArchiveRun.v
ArchiveGc.v
InternalDb.v
DbSafety.v
HandleStorage.v
BlockIndex.v
CellDb.v
ShardStateDb.v
ShardStateMachine.v
ShardStateSafety.v
StateGcResolver.v
ExtMessages.v
Neighbours.v
Awaiters.v
Limits.v
Checks.v
Signatures.v
BlockHeader.v
BlockProof.v
TopBlockDescr.v
ShardBlocks.v
ShardUpdates.v
Concrete.v
SessionTheorems.v
RoundTheorems.v
SupportTheorems.v
CatchainTheorems.v
CoreTheorems.v
ProcessorTheorems.v
StorageTheorems.v
ArchiveTheorems.v
DatabaseTheorems.v
NodeTheorems.v
ProofTheorems.v
ShardTheorems.v
