(* ===== verification/Prelude.v ===== *)
(** * A verification library for a TON node

    The node agrees on blocks in _validator sessions_: validators exchange the
    actions of a Byzantine consensus protocol inside a block DAG (the _catchain_),
    and every DAG block carries the session state that results from its actions
    after merging the states of its predecessors.  The blocks and states the node
    agrees on are kept in its _storage_: package files for blocks, and databases of
    cells for states, with a collector.  Around them the _node_ checks proofs of
    blocks, keeps pools of messages and of shard blocks for its collators, and
    chooses the peers it asks.  This library models the session
    ([validator-session/src]), the catchain ([catchain/src]), the storage
    ([storage/src]) and the parts of the node ([src/src]) that have logic of their
    own.

    ** Parts and files

    - [Prelude] (this file): panics as an error monad ([outcome]), machine
      integers with their wrap-around, loops that may panic, generic list facts
      and the tactic [run] that steps through monadic code.

    _Session_
    - [SessionDescription] ([session_description.rs]): validators with their
      weights, the two-thirds cutoff, producer priorities, delays, attempt numbers
      and signature checks.  The class [External] collects what other crates
      provide: public keys, the hash of a candidate, signature verification, and
      the comparison of shared pointers.
    - [Vectors] ([vector.rs], [utils.rs]): persistent vectors, sorted vectors
      (binary search, insertion, merge) and their optional wrappers.  Merge,
      partial equality and sorting predicates are type classes as they are traits
      in the code.
    - [Candidates] ([sent_block.rs], [block_candidate.rs], [vote_candidate.rs]):
      blocks, approvals with signatures, votes.
    - [RoundAttempt] ([round_attempt.rs]): votes, precommits and proposals of one
      attempt.  An attempt calls back into its round through the record
      [RoundStateOps].
    - [Round] ([round.rs]): candidates, approvals, attempts, locks and commit
      signatures of the current round; [RoundFacts] has its invariant [round_ok],
      [AttemptSafety] the facts about quorums inside an attempt and [RoundMerge]
      the merge of two states of a round.
    - [SessionState] ([old_round.rs], [session_state.rs]): finished rounds, and
      the whole state with its message handler [apply_action], the implicit
      actions [make_one] and [make_all], and [merge].  [SessionFacts] has the
      invariant [session_ok]; [SessionSafety] the commit certificates, the step
      relation [session_step], [reachable] states and that decided blocks stay
      decided; [Actions] the messages a validator creates.
    - [Cache] ([cache.rs] and the cache of [session_description.rs]), [Slashing]
      (counters of [slashing.rs]), [VectorHash] (flag packing of [vector.rs]).
    - [SessionProcessor], [SessionChecks], [SessionBlocks]
      ([session_processor.rs]): the processor that answers the catchain, the
      listener and the network, its slots (generation, approval, signature,
      action, proposal), round changes with their reports, and the blocks it
      receives and creates, as one step function on requests.  [SessionFrames],
      [SessionActions], [SessionReports] and [SessionInvariant] prove its
      invariant, which [SessionRun] states with its runs.

    _Catchain_
    - [ReceivedBlock] and [ReceiverSource] ([receiver_source.rs]): the record of a
      block; blocks of one source by height, contiguous received and delivered
      heights, forks and blame.
    - [BlockGraph] ([received_block.rs], [receiver.rs]): blocks are cells that
      refer to each other.  The heap of cells is part of the state and a borrow
      that is already taken is a panic, as with [RefCell].  [CatchainExternal]
      collects hashes, signatures and TL formats.
    - [BlockGraphFacts], [BlockInitialize], [BlockDelivery]: the invariant
      [graph_inv] and that creating, refusing, writing and delivering blocks keep
      it; [Catchain]: the steps of a receiver and its reachable states;
      [BlockValidation]: what validation accepts.
    - [CatchainCore] ([catchain.rs], [block.rs]): the processor between receiver
      and session, which hands blocks over in causal order and chooses the
      dependencies of new blocks; [CatchainUpdate], [CatchainRun] and
      [CatchainSteps] have its invariant and that every request keeps it.

    _Storage_
    - [BlockId] (byte strings, [traits.rs]), [BlockMeta] ([types/block_meta.rs],
      [types/block_handle.rs]): formats, flags and references of blocks.
    - [Package] ([archives/package_entry.rs], [archives/package.rs]) and
      [ArchiveSlice] ([archives/archive_slice.rs]): append-only files with their
      index; [ArchiveFacts] has the invariant [slice_ok] and what is on disk after
      a crash, and the life of a slice.
    - [EntryId] ([archives/package_entry_id.rs]), [FileMaps]
      ([archives/file_maps.rs], [package_index_db.rs]) and [ArchiveManager]
      ([archives/archive_manager.rs]): names of entries, the slices of a kind of
      archive, and the movement of files into them, each with its invariant;
      [ArchiveRun]: archiving in order, [ArchiveGc]: serving and collecting
      archives.
    - [InternalDb] ([src/internal_db/mod.rs]): block data, proofs and links over
      the archive manager, with its steps and the abstract map of files;
      [DbSafety] has the refinement.
    - [HandleStorage] ([block_handle_db.rs]): handles as shared objects with a
      cache of weak references, a storing task and calls that are in progress, each
      access to cache, queue or database a step; [BlockIndex]
      ([block_index_db.rs]): blocks by number, logical time and time.
    - [CellDb] ([db/memorydb.rs], [types/storage_cell.rs], [dynamic_boc_db.rs])
      and [ShardStateDb] ([shardstate_db.rs]): collections with transactions,
      trees of cells stored by hash, and states with a collector that marks and
      sweeps one of two databases, with the facts about saving, marking and
      sweeping; [ShardStateMachine] has the single steps of writers (the index, the
      count, each cell, the commit, the entry) and of the collector in any order,
      [ShardStateSafety] their invariant.
    - [StateGcResolver] ([internal_db/state_gc_resolver.rs]): which states may be
      collected.

    _Node_
    - [Checks]: the monads of checks that fail, stop the thread or keep flags.
      [Signatures] ([validator/validator_utils.rs]), [BlockHeader] ([block.rs])
      and [BlockProof] ([block_proof.rs]): weights of signatures, previous blocks
      of a header, proofs of blocks and what an accepted proof means.
    - [TopBlockDescr] ([types/top_block_descr.rs]): chains of proofs of shard
      blocks and their validation against a masterchain state; [ShardBlocks]
      ([shard_blocks.rs]): the pool of them as concurrent tasks.
    - [ShardUpdates] ([validating_utils.rs]): checks of a new shard block and
      updates of the shard configuration.
    - [ExtMessages] ([ext_messages.rs]): the pool of external messages.
    - [Limits] ([types/limits.rs]): the size of a block.
    - [Neighbours] ([network/neighbours.rs]): the peers of an overlay and the
      choice among them.
    - [Awaiters] ([types/awaiters_pool.rs]): operations done once and awaited by
      many, as concurrent callers.

    [Concrete] has an instance of [External] with four validators and a complete
    round computed by the model, and a concrete session processor.
    [SessionTheorems], [RoundTheorems], [SupportTheorems], [CatchainTheorems],
    [CoreTheorems], [ProcessorTheorems], [StorageTheorems], [ArchiveTheorems],
    [DatabaseTheorems], [NodeTheorems], [ProofTheorems] and [ShardTheorems] have the
    properties, each with a concrete instance.

    ** How the code is read

    A Rust method is a function of the same name, prefixed by its type where names
    would clash ([RoundState_apply_action] is [RoundStateImpl::apply_action_dispatch],
    whose caller [apply_action] adds tracing).  [assert!], [unwrap], [unreachable!] and
    indexing return [Panic] when they fail; the error of a [Result] is [None] (or
    [Err]); loops with an early exit are structural recursions over the list
    they traverse; [u32] and [u64] values are [N] with additions taken modulo the
    width, [i32] heights are [Z], bytes are [N] below 256, [f64] values are
    [spec_float].  Session objects are immutable in the code, so a [PoolPtr] is its
    value and the object hash is not kept; pointer equality ([==] on pointers) is an
    arbitrary sound test, so every theorem holds whatever the caches share.
    Durations are counted in milliseconds.  Hash maps and databases iterate in an
    arbitrary order, which is an argument of the functions that depend on it; so are
    the clock and random numbers.  Tasks that share lock-free maps, flags and
    channels are programs whose atomic steps interleave in any order.

    ** What is shown

    - _Session_ (C1-C8).  From every state that satisfies [session_ok] no message
      of a member makes the handler panic, and the invariant is kept (C1);
      likewise for merges whose precommitted blocks agree (C2).  Reachable states
      carry valid commit certificates of more than two thirds of the weight (C3,
      C5), finished rounds never change (C4), two states cannot finish a round
      with different blocks unless validators with more than a third of the weight
      signed both (C6), who are exposed by their signatures on different hashes (C7;
      the empty block has no signatures to expose anyone).  The implicit actions stop after at most four changes
      (C8).
    - _Session processor_ (C9-C12, C39).  The listener is told every finished
      round once and in order (C9), the node commits to no other block than the
      one reported (C10), others who replay its blocks get its state (C11), and
      the creation of messages ends (C12); C39 is a clock that steps back, with
      which it does not.
    - _Catchain_ (C13-C19).  Blocks are delivered once and after everything they
      depend on (C13), by counters that are exact (C14); what can be delivered is
      delivered when the scheduler is done (C15), which it is after a bounded
      number of turns (C16).  The processor above never panics on legal requests
      (C17), gives the session a causal order (C18), and its blocks refer to what
      was chosen, once (C19).
    - _Proofs and shards_ (C20-C24, C38).  What an accepted proof (C20) and a
      validated description (C21) certify: who the validators are, and which known
      blocks the chain continues, at both ends of a merged shard.  The pool of
      descriptions holds what was validated against an applied state (C22), updates
      of the shard configuration are exact (C23) and new blocks are near the
      masterchain, in each of the three cases of its shards (C24).  C38: repeated
      signatures are counted.
    - _Storage_ (C25-C30, C37, C40).  Whatever the order of the steps of writers and
      collector, every state that is recorded and not given up loads completely
      (C25) and nothing else is stored than states and what a put is about to record
      (C26); [uncounted_put_breaks_state] is the run outside the assumption that
      collections start in time.  Files of blocks are loaded as stored, before and
      after they are archived (C27), the proof link of a block with a proof apart,
      which archiving loses ([archived_link_lost]), and through the collection of
      old archives (C28); the handle storage implements a map in calm runs (C29;
      [interrupted_load_is_stale] is the other kind) and the index finds the blocks
      that were added (C30); packages are read back as written (C37).  C40 is a
      collection that is interrupted and breaks a state that is put later.
    - _Node_ (C31-C36).  Awaited operations are exclusive and wake-ups are not
      lost (C31, C32); neighbours are chosen fairly (C33) from a cache that is
      consistent and whose calls fail in one case only (C34); cells are counted once (C35); messages are postponed three
      times at most (C36).

    Theorems without a number state more of this kind: the exactness of the
    early-exit weight loops, the lock rule, merges of attempts and rounds, sorted
    vectors as maps, fork heights, validation of blocks, archive slices through
    crashes, and the behaviours that the findings of the manifest describe.

    Fuel: [SessionState_make_all] takes the number of iterations (five suffice, C8:
    a node can at most advance its clock, record its first attempt, vote and
    precommit); [action_loop] needs four turns (C12); [binary_search] gets the
    length of the vector and [search_shard] that of the shard, which bound the
    halvings; [advance_height] gets one more than the number of known blocks, since
    each iteration passes a different known height; [run_scheduler] needs as many
    turns as blocks are queued or can still be queued (C16); [update_fuel] bounds the
    walk over the parents of a block, which end in a processor (C17), and
    [choose_blocks] is a recursion over the number of top blocks; [set_ill_loop] and
    [get_pending_deps] get the number of cells; marking and sweeping get one more
    than the number of cells of the database, reading a package one more than its
    bytes (C37), loading a tree its depth (C25); [next_for_ping] needs one turn when
    there are two neighbours.

    Hypotheses: [desc_ok] (weights without overflow, at least one source; a
    consequence of the constructor), [is_node] (the source index is that of a
    member) and [round_room] (the round number does not reach [2^32]);
    [cfg_max_deps cfg + 1 < two64]; legal requests to the catchain processor (known
    dependencies, a block only when one was asked for); runs of the session processor
    in which merged states agree on what is decided; [addable] (a file is not empty,
    its name is UTF-8 and its package does not reach [2^64] bytes) and archiving in
    the order of the masterchain, with nothing new for a block that is archived;
    [universe] (the hashes of the cells in use do not collide, a cell has at most
    four references); collections of states that start when every put on its way to
    the database is counted ([all_counted]), each state put once, restarts while
    nothing is put or collected; calm runs of the handle storage ([hs_step true]: no
    store overtakes a load of its block); [distinct_signers] (no node has two
    entries among the signatures of a block, which the code does not check, C38).

    ** Not modelled

    Logging, metrics, [Display] and [dump]; the movement of objects between pools
    (identity on values); the [f64] aggregation of [slashing.rs]; threads, timers,
    queues and the network of [session.rs], [catchain.rs] and [receiver.rs], whose
    requests are steps; RocksDB and the file system, behind the collections and maps
    of files of the model; the cache of loaded cells; Kafka.  The collator, the
    validation of blocks, the validator manager, the engine, boot and
    synchronisation, the control server and the network clients are orchestration of
    types and calls of external crates ([ton_block], [ton_executor], [adnl],
    [overlay], [dht]): a model would be one of those crates, whose sources are not in
    the repository.  Their parts with logic of their own are the files under _Node_. *)

From stdpp Require Export base list option gmap sets numbers.
From stdpp Require Export tactics.
From Stdlib Require Export ZArith NArith Lia.

#[global] Open Scope N_scope.

(** ** Outcome of a computation that may panic

    [assert!], [unwrap], slice indexing and [unreachable!] abort the Rust
    thread.  [Panic] is that abort; [Done a] is a normal return. *)
Inductive outcome (A : Type) : Type :=
| Done (a : A)
| Panic.
Arguments Done {A} a.
Arguments Panic {A}.

#[global] Instance outcome_ret : MRet outcome := λ A a, Done a.
#[global] Instance outcome_bind : MBind outcome := λ A B f m,
  match m with Done a => f a | Panic => Panic end.
#[global] Instance outcome_fmap : FMap outcome := λ A B f m,
  match m with Done a => Done (f a) | Panic => Panic end.
#[global] Instance outcome_eq_dec `{EqDecision A} : EqDecision (outcome A).
Proof. solve_decision. Defined.

(** [assert!(b)] *)
Definition assert_that (b : bool) : outcome unit := if b then Done () else Panic.

(** [Option::unwrap] *)
Definition unwrap {A} (o : option A) : outcome A :=
  match o with Some a => Done a | None => Panic end.

(** [slice[index]] *)
Definition index {A} (l : list A) (i : N) : outcome A := unwrap (l !! N.to_nat i).

(** [slice[index] = value] *)
Definition set_index {A} (l : list A) (i : N) (x : A) : outcome (list A) :=
  if decide (N.to_nat i < length l)%nat then Done (<[N.to_nat i := x]> l) else Panic.

(** A [for] loop with an accumulator whose body may panic. *)
Fixpoint mfoldl {A B} (f : B → A → outcome B) (acc : B) (l : list A) : outcome B :=
  match l with
  | [] => Done acc
  | x :: l' => acc' ← f acc x; mfoldl f acc' l'
  end.

(** A [for] loop that returns at the first element for which the test holds. *)
Fixpoint mfind {A} (p : A → outcome bool) (l : list A) : outcome (option A) :=
  match l with
  | [] => Done None
  | x :: l' => b ← p x; if (b : bool) then Done (Some x) else mfind p l'
  end.

(** [l.iter().filter(p).collect()] with a test that may panic. *)
Fixpoint mfilter {A} (p : A → outcome bool) (l : list A) : outcome (list A) :=
  match l with
  | [] => Done []
  | x :: l' => b ← p x; r ← mfilter p l'; Done (if (b : bool) then x :: r else r)
  end.

(** [l.iter().map(f).collect()] with a body that may panic. *)
Fixpoint mmap {A B} (f : A → outcome B) (l : list A) : outcome (list B) :=
  match l with
  | [] => Done []
  | x :: l' => y ← f x; ys ← mmap f l'; Done (y :: ys)
  end.

(** ** Machine integers: unsigned values are [N], wrapped as in release builds *)
Definition two32 : N := 4294967296.
Definition two64 : N := 18446744073709551616.
Definition u32_max : N := 4294967295.
Definition u32_add (a b : N) : N := (a + b) mod two32.
Definition u32_sub (a b : N) : N := (a + two32 - b) mod two32.
Definition u32_mul (a b : N) : N := (a * b) mod two32.
Definition u64_add (a b : N) : N := (a + b) mod two64.
Definition u64_mul (a b : N) : N := (a * b) mod two64.

(** [x as i32] of a [u32], and [x as u32] of an [i32]. *)
Definition u32_as_i32 (x : N) : Z :=
  if x <? 2147483648 then Z.of_N x else (Z.of_N x - 4294967296)%Z.
Definition i32_as_u32 (z : Z) : N := Z.to_N (z mod 4294967296)%Z.

(** Lexicographic order on byte strings ([Vec<u8> < Vec<u8>]). *)
Fixpoint bytes_lt (a b : list N) : bool :=
  match a, b with
  | _, [] => false
  | [], _ :: _ => true
  | x :: a', y :: b' => if x <? y then true else if y <? x then false else bytes_lt a' b'
  end.

(** ** Notation

    [f ≤ᶠ g]: every flag set in [f] is set in [g] (a node that voted, approved or
    signed keeps doing so). *)
Declare Scope session_scope.
Delimit Scope session_scope with session.
Notation "f ≤ᶠ g" := (Forall2 (λ b1 b2 : bool, b1 → b2) f g) (at level 70, no associativity) : session_scope.
#[global] Open Scope session_scope.

(** ** Tactics and hints *)

(** Facts about states that only grow (reflexivity and transitivity). *)
Create HintDb session.

(** Run one bind of the panic monad. *)
Tactic Notation "run" := cbn [mbind outcome_bind].
Tactic Notation "run" "in" hyp(H) := cbn [mbind outcome_bind] in H.

(** Turn boolean comparisons into propositions. *)
Ltac breflect :=
  repeat match goal with
  | H : (_ <? _) = true |- _ => apply N.ltb_lt in H
  | H : (_ <? _) = false |- _ => apply N.ltb_ge in H
  | H : (_ <=? _) = true |- _ => apply N.leb_le in H
  | H : (_ <=? _) = false |- _ => apply N.leb_gt in H
  | H : (_ =? _) = true |- _ => apply N.eqb_eq in H
  | H : (_ =? _) = false |- _ => apply N.eqb_neq in H
  | H : (_ && _) = true |- _ => apply andb_true_iff in H; destruct H
  | H : (_ || _) = false |- _ => apply orb_false_iff in H; destruct H
  | H : negb _ = true |- _ => apply negb_true_iff in H
  | H : negb _ = false |- _ => apply negb_false_iff in H
  end.

(** ** Laws of [outcome] *)
Section outcome_laws.
Context {A B C : Type}.
Implicit Types (m : outcome A) (f : A → outcome B) (g : B → outcome C).

Lemma bind_Done_inv m f b : m ≫= f = Done b ↔ ∃ a, m = Done a ∧ f a = Done b.
Proof.
  destruct m as [a|]; simpl; split.
  - eauto.
  - by intros (a' & [= <-] & H).
  - done.
  - by intros (a' & ? & _).
Qed.

Lemma bind_assoc m f g : (m ≫= f) ≫= g = m ≫= (λ a, f a ≫= g).
Proof. by destruct m. Qed.

Lemma bind_ret m : m ≫= Done = m.
Proof. by destruct m. Qed.
End outcome_laws.

(** Split an equation [m ≫= f = Done b] into the run of [m] and the run of [f]. *)
Ltac outcome_step H :=
  match type of H with
  | (mbind ?f ?m = Done _) =>
      let a := fresh "a" in let E := fresh "E" in
      apply bind_Done_inv in H; destruct H as (a & E & H)
  | (Done _ = Done _) => injection H as H; subst
  end.

(** ** Slice access *)
Section slices.
Context {A : Type}.
Implicit Types (l : list A).

Lemma index_Some l i x : l !! N.to_nat i = Some x → index l i = Done x.
Proof. unfold index. by intros ->. Qed.

Lemma index_nat l (i : nat) x : l !! i = Some x → index l (N.of_nat i) = Done x.
Proof. intros H. apply index_Some. by rewrite Nat2N.id. Qed.

Lemma index_inv l i x : index l i = Done x → l !! N.to_nat i = Some x.
Proof. unfold index. by destruct (l !! N.to_nat i); intros [=->]. Qed.

Lemma index_lt l i : (N.to_nat i < length l)%nat → ∃ x, index l i = Done x ∧ l !! N.to_nat i = Some x.
Proof. intros [x Hx]%lookup_lt_is_Some_2. exists x. eauto using index_Some. Qed.

Lemma set_index_lt l i x :
  (N.to_nat i < length l)%nat → set_index l i x = Done (<[N.to_nat i := x]> l).
Proof. intros H. unfold set_index. by rewrite decide_True. Qed.
End slices.

(** ** Loops with pure bodies *)
Section loops.
Context {A B : Type}.
Implicit Types (l : list A).

Lemma mfind_pure (p : A → outcome bool) (q : A → bool) l :
  (∀ x, x ∈ l → p x = Done (q x)) → mfind p l = Done (find q l).
Proof.
  induction l as [|x l IH]; intros Hp; simpl; [done|].
  rewrite Hp by set_solver. simpl. destruct (q x); [done|]. apply IH. set_solver.
Qed.

Lemma mfilter_pure (p : A → outcome bool) (q : A → bool) l :
  (∀ x, x ∈ l → p x = Done (q x)) → mfilter p l = Done (List.filter q l).
Proof.
  induction l as [|x l IH]; intros Hp; simpl; [done|].
  rewrite Hp by set_solver. simpl. rewrite IH by set_solver. done.
Qed.

Lemma find_Some_elem (q : A → bool) l x : find q l = Some x → x ∈ l ∧ q x = true.
Proof. intros [? ?]%find_some. split; [by apply list_elem_of_In | done]. Qed.

Lemma find_is_Some (q : A → bool) l x : x ∈ l → q x = true → is_Some (find q l).
Proof.
  intros Hx Hq. destruct (find q l) as [y|] eqn:E; [eauto|].
  rewrite (find_none _ _ E x) in Hq; [done|]. by apply list_elem_of_In.
Qed.

Lemma find_None_elem (q : A → bool) l x : find q l = None → x ∈ l → q x = false.
Proof. intros Hf Hx. eapply find_none; [done|]. by apply list_elem_of_In. Qed.

(** A loop whose body keeps an invariant and never panics never panics. *)
Lemma mfoldl_inv (f : B → A → outcome B) (P : B → Prop) acc l :
  P acc → (∀ acc x, P acc → x ∈ l → ∃ acc', f acc x = Done acc' ∧ P acc') →
  ∃ acc', mfoldl f acc l = Done acc' ∧ P acc'.
Proof.
  revert acc. induction l as [|x l IH]; intros acc Hacc Hf; simpl; [eauto|].
  destruct (Hf acc x Hacc) as (acc' & -> & Hacc'); [set_solver|]. simpl.
  apply IH; [done|]. intros; apply Hf; set_solver.
Qed.
End loops.
