(* ===== verification/SessionDescription.v ===== *)
(** * Validator session description: options, sources, weights, priorities

    Models [validator-session/src/session_description.rs] and the types of
    [validator-session/src/lib.rs] it uses: the validator list with its
    weights, the 2/3 cutoff, the rotation of block producers and of vote-for
    authors, the time slots of attempts, and the interface to the code that is
    not part of the repository (hashing, signatures, object identity). *)

From S2P Require Import Prelude.

(** ** Interface to external code

    [ext_same_address] is the comparison of two [Rc] pointers: an arbitrary
    test that may only say [true] for equal objects (objects are immutable, and
    the direct-mapped cache may or may not share two equal ones).
    [ext_candidate_hash] is the hash of the TL-serialised [CandidateId];
    [ext_verify_block] and [ext_verify_approve] are [PublicKey::verify] on the
    TL-serialised [BlockId] and [BlockIdApprove]. *)
Class External := {
  PublicKey : Type;
  public_key_id : PublicKey → N;
  ext_candidate_hash : N → N → N → N → N;
  ext_verify_block : PublicKey → N → N → list N → bool;
  ext_verify_approve : PublicKey → N → N → list N → bool;
  ext_same_address : ∀ (T : Type), EqDecision T → T → T → bool;
  ext_same_address_sound : ∀ T (E : EqDecision T) (x y : T),
    ext_same_address T E x y = true → x = y;
}.

(** Validator session options; durations are in milliseconds. *)
Record SessionOptions := {
  catchain_idle_timeout : N;
  catchain_max_deps : N;
  catchain_skip_processed_blocks : bool;
  round_candidates : N;
  next_candidate_delay : N;
  round_attempt_duration : N;
  max_round_attempts : N;
  max_block_size : N;
  max_collated_data_size : N;
  new_catchain_ids : bool;
}.

Definition SessionOptions_default : SessionOptions := {|
  catchain_idle_timeout := 16000;
  catchain_max_deps := 4;
  catchain_skip_processed_blocks := false;
  round_candidates := 3;
  next_candidate_delay := 2000;
  round_attempt_duration := 16000;
  max_round_attempts := 4;
  max_block_size := N.shiftl 4 20;
  max_collated_data_size := N.shiftl 4 20;
  new_catchain_ids := false;
|}.

Section description.
Context {X : External}.

Record SessionNode := {
  node_adnl_id : N;
  node_public_key : PublicKey;
  node_weight : N;
}.

Record Source := {
  source_id : N;
  source_public_key : PublicKey;
  source_adnl_id : N;
  source_weight : N;
}.

Record SessionDescription := {
  options : SessionOptions;
  sources : list Source;
  rev_sources : gmap N N;
  cutoff_weight : N;
  total_weight : N;
  self_idx : N;
}.

(** [get_source]: the assert and the slice access. *)
Definition get_source (d : SessionDescription) (src_idx : N) : outcome Source :=
  _ ← assert_that (bool_decide (N.to_nat src_idx < length (sources d))%nat);
  index (sources d) src_idx.

Definition get_source_public_key_hash (d : SessionDescription) (src_idx : N) : outcome N :=
  s ← get_source d src_idx; Done (source_id s).

Definition get_source_public_key (d : SessionDescription) (src_idx : N) : outcome PublicKey :=
  s ← get_source d src_idx; Done (source_public_key s).

Definition get_source_adnl_id (d : SessionDescription) (src_idx : N) : outcome N :=
  s ← get_source d src_idx; Done (source_adnl_id s).

Definition get_source_index (d : SessionDescription) (public_key_hash : N) : outcome N :=
  unwrap (rev_sources d !! public_key_hash).

Definition get_node_weight (d : SessionDescription) (src_idx : N) : outcome N :=
  s ← get_source d src_idx; Done (source_weight s).

Definition get_total_nodes (d : SessionDescription) : N :=
  N.of_nat (length (sources d)) mod two32.

Definition export_nodes (d : SessionDescription) : list N := source_id <$> sources d.

Definition export_full_nodes (d : SessionDescription) : list PublicKey :=
  source_public_key <$> sources d.

Definition export_catchain_nodes (d : SessionDescription) : list (PublicKey * N) :=
  (λ s, (source_public_key s, source_adnl_id s)) <$> sources d.

(** Weights and priorities *)
Definition get_node_priority (d : SessionDescription) (src_idx round : N) : outcome Z :=
  let n := get_total_nodes d in
  if n =? 0 then Panic else
  let round := round mod n in
  let src_idx := if src_idx <? round then u32_add src_idx n else src_idx in
  if u32_sub src_idx round <? round_candidates (options d)
  then Done (u32_as_i32 (u32_sub src_idx round))
  else Done (-1)%Z.

Definition get_max_priority (d : SessionDescription) : N :=
  u32_sub (round_candidates (options d)) 1.

Definition get_vote_for_author (d : SessionDescription) (attempt : N) : outcome N :=
  let n := get_total_nodes d in
  if n =? 0 then Panic else Done (attempt mod n).

(** Time management: a timestamp is seconds in the high 32 bits and the
    fraction in the low 32 bits. *)
Definition get_unixtime (ts : N) : N := N.shiftr ts 32 mod two32.

Definition get_attempt_sequence_number (d : SessionDescription) (ts : N) : outcome N :=
  let round_attempt_duration_in_secs := (round_attempt_duration (options d) / 1000) mod two32 in
  if round_attempt_duration_in_secs =? 0 then Panic
  else Done (get_unixtime ts / round_attempt_duration_in_secs).

Definition get_delay (d : SessionDescription) (priority : N) : N :=
  let priority := if (length (sources d) <? 5)%nat then u32_add priority 1 else priority in
  priority * next_candidate_delay (options d).

Definition get_empty_block_delay (d : SessionDescription) : N :=
  let delay := get_delay d (u32_add (get_max_priority d) 1) in
  if delay <? 1000 then 1000 else delay.

(** Offset from the UNIX epoch, in milliseconds. *)
Definition get_attempt_start_at (d : SessionDescription) (attempt : N) : N :=
  attempt * round_attempt_duration (options d).

(** Signatures *)
Definition candidate_id (d : SessionDescription) (src_idx root_hash file_hash collated_data_file_hash : N)
  : outcome N :=
  src ← get_source_public_key_hash d src_idx;
  Done (ext_candidate_hash src root_hash file_hash collated_data_file_hash).

Definition check_signature (d : SessionDescription) (root_hash file_hash src_idx : N) (signature : list N)
  : outcome bool :=
  s ← index (sources d) src_idx;
  Done (ext_verify_block (source_public_key s) root_hash file_hash signature).

Definition check_approve_signature (d : SessionDescription) (root_hash file_hash src_idx : N)
  (signature : list N) : outcome bool :=
  s ← index (sources d) src_idx;
  Done (ext_verify_approve (source_public_key s) root_hash file_hash signature).

(** [SessionDescriptionImpl::new]: the loop over the nodes, then the cutoff. *)
Definition new_step (acc : list Source * gmap N N * N * N) (node : SessionNode)
  : list Source * gmap N N * N * N :=
  let '(srcs, rev, total, node_index) := acc in
  let source := {| source_id := public_key_id (node_public_key node);
                   source_public_key := node_public_key node;
                   source_adnl_id := node_adnl_id node;
                   source_weight := node_weight node |} in
  (srcs ++ [source], <[source_id source := node_index]> rev,
   u64_add total (node_weight node), u32_add node_index 1).

Definition SessionDescription_new (opts : SessionOptions) (nodes : list SessionNode) (local_id : N)
  : outcome SessionDescription :=
  let '(srcs, rev, total, _) := foldl new_step ([], ∅, 0, 0) nodes in
  let cutoff := u64_add (u64_mul total 2 / 3) 1 in
  self ← unwrap (rev !! local_id);
  Done {| options := opts; sources := srcs; rev_sources := rev;
          cutoff_weight := cutoff; total_weight := total; self_idx := self |}.

End description.
Arguments SessionDescription {X}.
Arguments SessionNode {X}.
Arguments Source {X}.

(** ** Loops that accumulate weight up to the cutoff

    Four methods of the state objects run this loop (approvals, votes,
    precommits, signatures): add the weight of each flagged node and stop as
    soon as the cutoff is reached. *)
Section weights.
Context {X : External}.
Implicit Types (d : SessionDescription).

(** [0..desc.get_total_nodes()] *)
Definition node_range d : list N := N.of_nat <$> seq 0 (N.to_nat (get_total_nodes d)).

Fixpoint weight_loop d (flag : N → outcome bool) (nodes : list N) (weight : N) : outcome bool :=
  match nodes with
  | [] => Done false
  | i :: nodes' =>
      b ← flag i;
      if (b : bool) then
        w ← get_node_weight d i;
        let weight := u64_add weight w in
        if cutoff_weight d <=? weight then Done true else weight_loop d flag nodes' weight
      else weight_loop d flag nodes' weight
  end.

(** The weight of a set of nodes given by its characteristic vector. *)
Fixpoint flag_weight (srcs : list Source) (flags : list bool) : N :=
  match srcs, flags with
  | s :: srcs', b :: flags' => (if b then source_weight s else 0) + flag_weight srcs' flags'
  | _, _ => 0
  end.

Definition sum_weight (srcs : list Source) : N := foldr (λ s acc, source_weight s + acc) 0 srcs.

(** What [SessionDescription_new] establishes when the total stake is below
    [2^63] and there are fewer than [2^31] validators, plus the configuration
    requirement that a round has at least one block producer. *)
Record desc_ok d : Prop := {
  desc_nodes : (0 < length (sources d))%nat ∧ N.of_nat (length (sources d)) < 2147483648;
  desc_total : total_weight d = sum_weight (sources d);
  desc_bound : total_weight d * 2 < two64;
  desc_cutoff : cutoff_weight d = total_weight d * 2 / 3 + 1;
  desc_candidates : 0 < round_candidates (options d) < 2147483646;
}.

Lemma total_nodes_ok d : desc_ok d → get_total_nodes d = N.of_nat (length (sources d)).
Proof.
  intros [[_ ?] _ _ _ _]. unfold get_total_nodes. apply N.mod_small. unfold two32. lia.
Qed.

Lemma total_nodes_bounds d : desc_ok d → 0 < get_total_nodes d < 2147483648.
Proof. intros H. rewrite total_nodes_ok by done. destruct H as [[??] _ _ _ _]. lia. Qed.

Lemma node_range_ok d :
  desc_ok d → node_range d = N.of_nat <$> seq 0 (length (sources d)).
Proof. intros H. unfold node_range. rewrite total_nodes_ok by done. by rewrite Nat2N.id. Qed.

Lemma flag_weight_le srcs flags : flag_weight srcs flags ≤ sum_weight srcs.
Proof.
  revert flags; induction srcs as [|s srcs IH]; intros [|[] flags]; simpl; try lia;
    specialize (IH flags); lia.
Qed.

Lemma flag_weight_app s1 s2 f1 f2 :
  length s1 = length f1 → flag_weight (s1 ++ s2) (f1 ++ f2) = flag_weight s1 f1 + flag_weight s2 f2.
Proof.
  revert f1; induction s1 as [|s s1 IH]; intros [|b f1]; simpl; try done; intros [=].
  rewrite IH by done. lia.
Qed.

Lemma sum_weight_app s1 s2 : sum_weight (s1 ++ s2) = sum_weight s1 + sum_weight s2.
Proof. induction s1; simpl; lia. Qed.

(** Flags may only grow: a superset weighs at least as much. *)
Lemma flag_weight_mono srcs f1 f2 :
  f1 ≤ᶠ f2 → flag_weight srcs f1 ≤ flag_weight srcs f2.
Proof.
  intros H. revert srcs. induction H as [|b1 b2 f1 f2 Hb H IH]; intros [|s srcs]; simpl; try lia.
  specialize (IH srcs). destruct b1, b2; simpl in *; tauto || lia.
Qed.

(** Inclusion-exclusion on weights. *)
Lemma flag_weight_inter srcs f1 f2 :
  length f1 = length srcs → length f2 = length srcs →
  flag_weight srcs f1 + flag_weight srcs f2
  ≤ sum_weight srcs + flag_weight srcs (zip_with andb f1 f2).
Proof.
  revert f1 f2; induction srcs as [|s srcs IH]; intros [|b1 f1] [|b2 f2]; simpl; try done.
  intros [= H1] [= H2]. specialize (IH _ _ H1 H2). destruct b1, b2; simpl; lia.
Qed.

Lemma flag_weight_in_both srcs f1 f2 :
  0 < flag_weight srcs (zip_with andb f1 f2) →
  ∃ i : nat, f1 !! i = Some true ∧ f2 !! i = Some true.
Proof.
  revert f1 f2; induction srcs as [|s srcs IH]; intros [|b1 f1] [|b2 f2]; simpl; try lia.
  destruct b1, b2; simpl; intros H.
  1: by exists 0%nat.
  all: destruct (IH f1 f2) as (i & ? & ?); [lia|]; by exists (S i).
Qed.

Lemma get_node_weight_lookup d i s :
  sources d !! i = Some s → get_node_weight d (N.of_nat i) = Done (source_weight s).
Proof.
  intros H. pose proof (lookup_lt_Some _ _ _ H).
  unfold get_node_weight, get_source, index. rewrite Nat2N.id.
  rewrite bool_decide_eq_true_2 by done. simpl. by rewrite H.
Qed.

(** The loop over the last nodes, started with the weight of the first ones,
    decides whether the whole weight reaches the cutoff. *)
Lemma weight_loop_suffix d flags k :
  desc_ok d → length flags = length (sources d) → (k ≤ length (sources d))%nat →
  flag_weight (take k (sources d)) (take k flags) < cutoff_weight d →
  weight_loop d (index flags) (N.of_nat <$> seq k (length (sources d) - k))
    (flag_weight (take k (sources d)) (take k flags))
  = Done (cutoff_weight d <=? flag_weight (sources d) flags).
Proof.
  intros Hd Hlen. remember (length (sources d) - k)%nat as m eqn:Em. revert k Em.
  induction m as [|m IH]; intros k Em Hk Hlt; simpl.
  - rewrite !take_ge in Hlt by lia. f_equal. symmetry. by apply N.leb_gt.
  - destruct (lookup_lt_is_Some_2 flags k) as [b Hb]; [lia|].
    destruct (lookup_lt_is_Some_2 (sources d) k) as [s Hs]; [lia|].
    assert (Hstep : flag_weight (take (S k) (sources d)) (take (S k) flags)
      = flag_weight (take k (sources d)) (take k flags) + (if b then source_weight s else 0)).
    { rewrite (take_S_r _ _ _ Hs), (take_S_r _ _ _ Hb), flag_weight_app.
      - simpl. lia.
      - rewrite !length_take. lia. }
    rewrite (index_nat _ _ _ Hb). simpl. destruct b.
    + rewrite (get_node_weight_lookup _ _ _ Hs). simpl.
      assert (Hle : flag_weight (take (S k) (sources d)) (take (S k) flags) ≤ flag_weight (sources d) flags).
      { rewrite <- (take_drop (S k) (sources d)) at 2. rewrite <- (take_drop (S k) flags) at 2.
        rewrite flag_weight_app by (rewrite !length_take; lia). lia. }
      pose proof (flag_weight_le (sources d) flags) as Htot.
      pose proof (desc_total d Hd) as Ht. pose proof (desc_bound d Hd) as Hb2.
      assert (Hadd : u64_add (flag_weight (take k (sources d)) (take k flags)) (source_weight s)
        = flag_weight (take (S k) (sources d)) (take (S k) flags)).
      { unfold u64_add. rewrite Hstep. apply N.mod_small. lia. }
      rewrite Hadd. destruct (cutoff_weight d <=? flag_weight (take (S k) _) _) eqn:Hc; breflect.
      * f_equal. symmetry. apply N.leb_le. lia.
      * apply IH; lia.
    + rewrite <- (IH (S k)); [|lia..]. f_equal. lia.
Qed.

Lemma weight_loop_ok d flags :
  desc_ok d → length flags = length (sources d) →
  weight_loop d (index flags) (node_range d) 0
  = Done (cutoff_weight d <=? flag_weight (sources d) flags).
Proof.
  intros Hd Hlen. rewrite node_range_ok by done.
  pose proof (weight_loop_suffix d flags 0 Hd Hlen (Nat.le_0_l _)) as H.
  simpl in H. rewrite Nat.sub_0_r in H. apply H.
  rewrite (desc_cutoff d Hd). apply N.add_pos_r. lia.
Qed.

(** Two sets that both reach the cutoff share more than a third of the weight. *)
Lemma quorum_intersection d f1 f2 :
  desc_ok d → length f1 = length (sources d) → length f2 = length (sources d) →
  cutoff_weight d ≤ flag_weight (sources d) f1 →
  cutoff_weight d ≤ flag_weight (sources d) f2 →
  total_weight d < 3 * flag_weight (sources d) (zip_with andb f1 f2).
Proof.
  intros [_ Ht _ Hc _] H1 H2 Hq1 Hq2.
  pose proof (flag_weight_inter _ _ _ H1 H2). rewrite <- Ht in H.
  pose proof (N.mul_succ_div_gt (total_weight d * 2) 3). lia.
Qed.

End weights.

(** ** Facts: priorities and authors *)
Section priorities.
Context {X : External}.
Implicit Types (d : SessionDescription).

(** The place of a node in the rotation of a round. *)
Definition rotation d (src_idx round : N) : N :=
  (src_idx + get_total_nodes d - round mod get_total_nodes d) mod get_total_nodes d.

Lemma get_node_priority_rotation d src_idx round :
  desc_ok d → src_idx < get_total_nodes d →
  get_node_priority d src_idx round = Done
    (if rotation d src_idx round <? round_candidates (options d)
     then Z.of_N (rotation d src_idx round) else (-1)%Z).
Proof.
  intros Hd Hs. pose proof (total_nodes_bounds d Hd) as [Hn0 Hn].
  unfold get_node_priority, rotation. set (n := get_total_nodes d) in *.
  destruct (n =? 0) eqn:E; breflect; [lia|].
  pose proof (N.mod_lt round n ltac:(lia)) as Hr. set (q := round mod n) in *.
  assert (Hk : u32_sub (if src_idx <? q then u32_add src_idx n else src_idx) q = (src_idx + n - q) mod n).
  { unfold u32_sub, u32_add, two32. destruct (src_idx <? q) eqn:E1; breflect.
    - rewrite (N.mod_small (src_idx + n)) by lia. rewrite (N.mod_small (src_idx + n - q)) by lia.
      replace (src_idx + n + 4294967296 - q) with ((src_idx + n - q) + 1 * 4294967296) by lia.
      rewrite N.Div0.mod_add. apply N.mod_small. lia.
    - replace (src_idx + n - q) with ((src_idx - q) + 1 * n) by lia. rewrite N.Div0.mod_add.
      rewrite (N.mod_small (src_idx - q)) by lia.
      replace (src_idx + 4294967296 - q) with ((src_idx - q) + 1 * 4294967296) by lia.
      rewrite N.Div0.mod_add. apply N.mod_small. lia. }
  rewrite !Hk. pose proof (N.mod_lt (src_idx + n - q) n ltac:(lia)).
  destruct (_ <? round_candidates _) eqn:Ec; [|done]. f_equal.
  unfold u32_as_i32. destruct (_ <? 2147483648) eqn:Ei; breflect; [done|lia].
Qed.

Lemma get_max_priority_ok d : desc_ok d → get_max_priority d = round_candidates (options d) - 1.
Proof.
  intros Hd. pose proof (desc_candidates d Hd). unfold get_max_priority, u32_sub, two32.
  replace (round_candidates (options d) + 4294967296 - 1)
    with ((round_candidates (options d) - 1) + 1 * 4294967296) by lia.
  rewrite N.Div0.mod_add. apply N.mod_small. lia.
Qed.

Lemma get_node_priority_bound d src_idx round p :
  desc_ok d → src_idx < get_total_nodes d → get_node_priority d src_idx round = Done p →
  (-1 ≤ p ≤ Z.of_N (get_max_priority d))%Z.
Proof.
  intros Hd Hs. rewrite get_node_priority_rotation by done. intros [= <-].
  rewrite get_max_priority_ok by done. pose proof (desc_candidates d Hd).
  destruct (_ <? _) eqn:E; breflect; lia.
Qed.

Lemma get_vote_for_author_ok d attempt :
  desc_ok d → get_vote_for_author d attempt = Done (attempt mod get_total_nodes d).
Proof.
  intros Hd. pose proof (total_nodes_bounds d Hd). unfold get_vote_for_author.
  destruct (_ =? 0) eqn:E; breflect; [lia|done].
Qed.

Lemma node_index_nat d (i : N) :
  desc_ok d → i < get_total_nodes d ↔ (N.to_nat i < length (sources d))%nat.
Proof. intros Hd. rewrite total_nodes_ok by done. lia. Qed.
End priorities.

(** ** Creation of a description *)
Section creation.
Context {X : External}.

Definition source_of_node (node : SessionNode) : Source :=
  {| source_id := public_key_id (node_public_key node); source_public_key := node_public_key node;
     source_adnl_id := node_adnl_id node; source_weight := node_weight node |}.

Definition sum_node_weight (nodes : list SessionNode) : N := foldr (λ n acc, node_weight n + acc) 0 nodes.

Lemma sum_weight_nodes nodes : sum_weight (source_of_node <$> nodes) = sum_node_weight nodes.
Proof. induction nodes as [|n nodes IH]; [done|]. simpl. f_equal. exact IH. Qed.

(** The loop of [SessionDescriptionImpl::new]. *)
Lemma new_loop_ok nodes srcs (rev : gmap N N) total n :
  total + sum_node_weight nodes < two64 → n + N.of_nat (length nodes) < two32 →
  ∃ rev', foldl new_step (srcs, rev, total, n) nodes
    = (srcs ++ (source_of_node <$> nodes), rev', total + sum_node_weight nodes, n + N.of_nat (length nodes)) ∧
    (∀ k, is_Some (rev !! k) → is_Some (rev' !! k)) ∧
    (∀ node, node ∈ nodes → is_Some (rev' !! public_key_id (node_public_key node))) ∧
    (∀ k i, rev' !! k = Some i → rev !! k = Some i ∨ ∃ node, n ≤ i ∧ nodes !! N.to_nat (i - n) = Some node ∧
       public_key_id (node_public_key node) = k).
Proof.
  revert srcs rev total n. induction nodes as [|node nodes IH]; intros srcs rev total n Ht Hn; simpl in *.
  - exists rev. rewrite app_nil_r, !N.add_0_r. split; [done|]. split; [done|]. split; [set_solver|eauto].
  - set (pk := public_key_id (node_public_key node)).
    destruct (IH (srcs ++ [source_of_node node]) (<[pk := n]> rev) (total + node_weight node) (n + 1))
      as (rev' & Hf & Hmono & Hin & Hrange); [lia|lia|].
    exists rev'. unfold u64_add, u32_add. rewrite !N.mod_small by lia. fold pk.
    change {| source_id := pk; source_public_key := _; source_adnl_id := _; source_weight := _ |} with (source_of_node node).
    rewrite Hf. split; [rewrite <- app_assoc; simpl; f_equal; [f_equal|]; lia|].
    split; [|split].
    + intros k Hk. apply Hmono. destruct (decide (k = pk)) as [->|Hne]; [rewrite lookup_insert_eq; eauto|by rewrite lookup_insert_ne].
    + intros x [->|Hx]%elem_of_cons; [|auto]. apply Hmono. fold pk. rewrite lookup_insert_eq. eauto.
    + intros k i Hk. destruct (Hrange k i Hk) as [Hr|(x & Hle & Hx & Hpk)].
      * apply lookup_insert_Some in Hr as [[<- <-]|[_ Hr]]; [|by left].
        right. exists node. rewrite N.sub_diag. split; [lia|done].
      * right. exists x. split; [lia|]. split; [|done].
        replace (N.to_nat (i - n)) with (S (N.to_nat (i - (n + 1)))) by lia. done.
Qed.

Lemma new_ok opts nodes local_id :
  (∃ node, node ∈ nodes ∧ public_key_id (node_public_key node) = local_id) →
  N.of_nat (length nodes) < 2147483648 → sum_node_weight nodes * 2 < two64 →
  0 < round_candidates opts < 2147483646 →
  ∃ d, SessionDescription_new opts nodes local_id = Done d ∧ desc_ok d ∧
    options d = opts ∧ sources d = source_of_node <$> nodes ∧
    (∃ s, sources d !! N.to_nat (self_idx d) = Some s ∧ source_id s = local_id) ∧
    (∀ k i, get_source_index d k = Done i → get_source_public_key_hash d i = Done k).
Proof.
  intros (me & Hme & Hid) Hn Hw Hc. unfold SessionDescription_new.
  destruct (new_loop_ok nodes [] ∅ 0 0) as (rev & Hf & _ & Hin & Hrange); [unfold two64 in *; lia|unfold two32; lia|].
  rewrite Hf. rewrite !N.add_0_l, app_nil_l in *. destruct (Hin me Hme) as [i Hi]. rewrite Hid in Hi. rewrite Hi. simpl.
  assert (Hsrc : ∀ k j, rev !! k = Some j → ∃ s, (source_of_node <$> nodes) !! N.to_nat j = Some s ∧ source_id s = k).
  { intros k j Hk. destruct (Hrange k j Hk) as [?|(x & _ & Hx & <-)]; [done|]. rewrite N.sub_0_r in Hx.
    exists (source_of_node x). by rewrite list_lookup_fmap, Hx. }
  eexists. split; [done|]. split; [|split; [done|split; [done|split; [by apply Hsrc|]]]].
  - split; simpl; try done.
    + rewrite length_fmap. split; [|done]. destruct nodes; [set_solver|simpl; lia].
    + by rewrite sum_weight_nodes.
    + unfold u64_add, u64_mul. rewrite (N.mod_small (_ * 2)) by done. apply N.mod_small.
      assert (sum_node_weight nodes * 2 / 3 ≤ sum_node_weight nodes * 2) by (apply N.Div0.div_le_upper_bound; lia).
      assert (sum_node_weight nodes * 2 / 3 ≤ sum_node_weight nodes).
      { apply N.Div0.div_le_upper_bound. lia. }
      unfold two64 in *. lia.
  - intros k j Hk. unfold get_source_index in Hk. simpl in Hk. destruct (rev !! k) as [j'|] eqn:E; [|done].
    injection Hk as ->. destruct (Hsrc k j E) as (s & Hs & Hsk).
    unfold get_source_public_key_hash, get_source. simpl. pose proof (lookup_lt_Some _ _ _ Hs).
    rewrite bool_decide_eq_true_2 by done. simpl. rewrite (index_Some _ _ s) by done. simpl. by rewrite Hsk.
Qed.
End creation.

(** ** The rotation is a permutation of the nodes *)
Section rotation_facts.
Context {X : External}.
Implicit Types (d : SessionDescription).

Lemma rotation_inj d round i j :
  desc_ok d → i < get_total_nodes d → j < get_total_nodes d → rotation d i round = rotation d j round → i = j.
Proof.
  intros Hd Hi Hj. pose proof (total_nodes_bounds d Hd) as [Hn _]. unfold rotation.
  set (n := get_total_nodes d) in *. pose proof (N.mod_lt round n ltac:(lia)) as Hr. set (r := round mod n) in *.
  intros He.
  assert (Hmod : ∀ x, x < n → (x + n - r) mod n = if r <=? x then x - r else x + n - r).
  { intros x Hx. destruct (r <=? x) eqn:E; breflect.
    - replace (x + n - r) with ((x - r) + 1 * n) by lia. rewrite N.Div0.mod_add. apply N.mod_small. lia.
    - apply N.mod_small. lia. }
  rewrite !Hmod in He by done. destruct (r <=? i) eqn:Ei, (r <=? j) eqn:Ej; breflect; lia.
Qed.

Lemma rotation_surj d round p :
  desc_ok d → p < get_total_nodes d → ∃ i, i < get_total_nodes d ∧ rotation d i round = p.
Proof.
  intros Hd Hp. pose proof (total_nodes_bounds d Hd) as [Hn _]. unfold rotation.
  set (n := get_total_nodes d) in *. pose proof (N.mod_lt round n ltac:(lia)) as Hr. set (r := round mod n) in *.
  exists (if p + r <? n then p + r else p + r - n). destruct (p + r <? n) eqn:E; breflect; (split; [lia|]).
  - replace (p + r + n - r) with (p + 1 * n) by lia. rewrite N.Div0.mod_add. by apply N.mod_small.
  - replace (p + r - n + n - r) with p by lia. by apply N.mod_small.
Qed.
End rotation_facts.
