(* ===== verification/Vectors.v ===== *)
(** * Persistent vectors of the session state

    Models [validator-session/src/vector.rs], the [Merge]/[VectorMerge]
    implementations of [validator-session/src/utils.rs] and the traits of
    [validator-session/src/lib.rs] behind them.  A [Vector] is its data; the
    [...Wrapper] traits are implemented for [Option<PoolPtr<...>>], so a wrapped
    vector is an [option (list T)].  Rust traits are type classes here. *)

From Stdlib Require Import Sorted.
From S2P Require Import Prelude SessionDescription.

(** ** Traits *)

(** [std::cmp::PartialEq]: structural on scalars, by address on pool objects. *)
Class PartialEq (T : Type) := partial_eq : T → T → bool.
Class PartialEqSound (T : Type) `{PartialEq T} :=
  partial_eq_sound : ∀ x y : T, partial_eq x y = true → x = y.

(** [Merge]: the join of two states, which may hit an [assert!]. *)
Class Merge {X : External} (T : Type) := merge : SessionDescription → T → T → outcome T.

(** [SortingPredicate]: every predicate of the session compares a numeric key
    (a block identifier or an attempt number). *)
Class SortingPredicate (T : Type) := {
  less : T → T → bool;
  sort_key : T → N;
  less_key : ∀ x y, less x y = (sort_key x <? sort_key y);
}.

#[global] Instance bool_partial_eq : PartialEq bool := Bool.eqb.
#[global] Instance u32_partial_eq : PartialEq N := N.eqb.
#[global] Instance option_partial_eq `{PartialEq T} : PartialEq (option T) := λ x y,
  match x, y with
  | Some a, Some b => partial_eq a b
  | None, None => true
  | _, _ => false
  end.

#[global] Instance bool_partial_eq_sound : PartialEqSound bool.
Proof. intros x y. apply Bool.eqb_prop. Qed.
#[global] Instance u32_partial_eq_sound : PartialEqSound N.
Proof. intros x y. apply N.eqb_eq. Qed.
#[global] Instance option_partial_eq_sound `{PartialEqSound T} : PartialEqSound (option T).
Proof. intros [x|] [y|]; simpl; try done. intros Hxy. f_equal. by apply partial_eq_sound. Qed.

(** Comparison of pool pointers. *)
Definition pool_ptr_eq {X : External} {T} `{EqDecision T} (x y : T) : bool :=
  ext_same_address T _ x y.

Section vector.
Context {T : Type}.

(** [VectorImpl::at] *)
Definition Vector_at (data : list T) (i : N) : outcome T :=
  _ ← assert_that (i <=? N.of_nat (length data));
  index data i.

(** [VectorImpl::push] *)
Definition Vector_push (data : list T) (value : T) : list T := data ++ [value].

(** [VectorImpl::change] *)
Definition Vector_change (data : list T) (i : N) (value : T) : outcome (list T) :=
  _ ← assert_that (i <=? N.of_nat (length data));
  set_index data i value.

(** [VectorImpl::modify] *)
Definition Vector_modify (data : list T) (modifier : T → T) : list T := modifier <$> data.

(** [VectorWrapper for Option<PoolPtr<dyn Vector<T>>>] *)
Definition VectorWrapper_len (v : option (list T)) : N :=
  match v with Some data => N.of_nat (length data) | None => 0 end.

Definition VectorWrapper_at (v : option (list T)) (i : N) : outcome T :=
  data ← unwrap v; Vector_at data i.

Definition VectorWrapper_iter (v : option (list T)) : list T :=
  match v with Some data => data | None => [] end.

Definition VectorWrapper_push (v : option (list T)) (value : T) : option (list T) :=
  Some (match v with Some data => Vector_push data value | None => Vector_push [] value end).

Definition VectorWrapper_change (v : option (list T)) (i : N) (value : T) : outcome (option (list T)) :=
  match v with
  | Some data => data' ← Vector_change data i value; Done (Some data')
  | None => Done None
  end.

Definition VectorWrapper_modify (v : option (list T)) (modifier : T → T) : option (list T) :=
  match v with Some data => Some (Vector_modify data modifier) | None => None end.

(** [VectorImpl::create_wrapper] *)
Definition Vector_create_wrapper (data : list T) : option (list T) :=
  if (length data =? 0)%nat then None else Some data.

Context `{PartialEq T}.

(** [VectorMerge::merge_impl] for [Vector]: the scan that decides whether one
    of the arguments already is the result ([ret_left], [ret_right]) ... *)
Fixpoint Vector_merge_scan (left right : list T) : bool * bool :=
  match left, right with
  | [], [] => (true, true)
  | [], _ :: _ => (false, true)
  | _ :: _, [] => (true, false)
  | x :: left', y :: right' =>
      if partial_eq x y then Vector_merge_scan left' right' else (false, false)
  end.

Section merge_fn.
Context (merge_fn : T → T → outcome T).

(** ... the items of the longer argument beyond the end of the shorter one ... *)
Definition Vector_merge_rest (merge_all : bool) (rest : list T) : outcome (list T) :=
  mmap (λ x, if merge_all then merge_fn x x else Done x) rest.

(** ... the merge of all items ... *)
Fixpoint Vector_merge_items (merge_all : bool) (left right : list T) : outcome (list T) :=
  match left, right with
  | [], _ => Vector_merge_rest merge_all right
  | _, [] => Vector_merge_rest merge_all left
  | x :: left', y :: right' =>
      item ← merge_fn x y;
      items ← Vector_merge_items merge_all left' right';
      Done (item :: items)
  end.

(** ... and the whole method. *)
Definition Vector_merge_impl (merge_all : bool) (left right : list T) : outcome (list T) :=
  if merge_all then Vector_merge_items merge_all left right else
  let '(ret_left, ret_right) := Vector_merge_scan left right in
  if (ret_left : bool) then Done left else if (ret_right : bool) then Done right else
  Vector_merge_items merge_all left right.

(** [VectorMerge for Option<PoolPtr<dyn Vector<T>>>]; [same] is the comparison
    of the two wrapped pointers. *)
Definition VectorWrapper_merge_impl (same : list T → list T → bool) (merge_all : bool)
  (left right : option (list T)) : outcome (option (list T)) :=
  match merge_all, left, right with
  | false, None, _ => Done right
  | false, _, None => Done left
  | _, _, _ =>
      if negb merge_all && from_option (λ l, from_option (same l) false right) false left
      then Done left else
      l ← unwrap left;
      r ← unwrap right;
      m ← Vector_merge_impl merge_all l r;
      Done (Some m)
  end.
End merge_fn.
End vector.

(** [Merge for Option<T>] *)
Definition Option_merge {X : External} {T} `{PartialEq T, !Merge T} (d : SessionDescription)
  (left right : option T) : outcome (option T) :=
  match left, right with
  | None, _ => Done right
  | _, None => Done left
  | Some l, Some r => if partial_eq l r then Done left else m ← merge d l r; Done (Some m)
  end.

(** [Merge for bool] *)
#[global] Instance bool_merge {X : External} : Merge bool := λ _ left right, Done (left || right).

(** ** Sorted vectors *)
Section sorted_vector.
Context {T : Type} `{SortingPredicate T} `{PartialEq T}.

(** The binary search shared by [SortedVectorWrapper::push] and
    [RoundStateImpl::get_attempt]: [lt]/[gt] tell on which side of the searched
    key an item lies.  Returns the index of a match or the final [right]. *)
Fixpoint binary_search (fuel : nat) (lt gt : T → bool) (data : list T) (left right : Z)
  : outcome (N + Z) :=
  if (right - left <=? 1)%Z then Done (inr right) else
  match fuel with
  | O => Panic
  | S fuel' =>
      let middle := ((right + left) / 2)%Z in
      middle_value ← index data (Z.to_N middle);
      if lt middle_value then binary_search fuel' lt gt data middle right
      else if gt middle_value then binary_search fuel' lt gt data left middle
      else Done (inl (Z.to_N middle))
  end.

(** [SortedVectorWrapper::push]; the loop shrinks [right - left] at every step,
    so as many steps as there are items are enough. *)
Definition SortedVector_push (v : option (list T)) (value : T) : outcome (option (list T)) :=
  match v with
  | Some data =>
      found ← binary_search (length data) (λ m, less m value) (λ m, less value m) data
                (-1) (Z.of_nat (length data));
      match found with
      | inl middle =>
          middle_value ← index data middle;
          if partial_eq middle_value value then Done v else
          data' ← set_index data middle value;
          Done (Some data')
      | inr pos =>
          let pos := Z.to_nat pos in
          Done (Some (take pos data ++ [value] ++
                      (if (pos <? length data)%nat then drop pos data else [])))
      end
  | None => Done (Some [value])
  end.

(** [VectorMerge::merge_impl] for [SortedVector]: the scan, the merge of all
    items and the method (its [merge_all] argument is ignored). *)
Fixpoint SortedVector_merge_scan (left : list T) : list T → bool * bool :=
  fix scan (right : list T) : bool * bool :=
  match left, right with
  | [], [] => (true, true)
  | [], _ :: _ => (false, true)
  | _ :: _, [] => (true, false)
  | x :: left', y :: right' =>
      if less x y then (fst (SortedVector_merge_scan left' right), false)
      else if less y x then (false, snd (scan right'))
      else if partial_eq x y then SortedVector_merge_scan left' right'
      else (false, false)
  end.

Context (merge_fn : T → T → outcome T).

Fixpoint SortedVector_merge_items (left : list T) : list T → outcome (list T) :=
  fix go (right : list T) : outcome (list T) :=
  match left, right with
  | [], _ => Done right
  | x :: left', [] => Done left
  | x :: left', y :: right' =>
      if less x y then
        items ← SortedVector_merge_items left' right; Done (x :: items)
      else if less y x then
        items ← go right'; Done (y :: items)
      else
        item ← merge_fn x y;
        items ← SortedVector_merge_items left' right';
        Done (item :: items)
  end.

Definition SortedVector_merge_impl (left right : list T) : outcome (list T) :=
  let '(ret_left, ret_right) := SortedVector_merge_scan left right in
  if (ret_left : bool) then Done left else if (ret_right : bool) then Done right else
  SortedVector_merge_items left right.

(** [VectorMerge for Option<PoolPtr<dyn SortedVector<..>>>], as called by
    [merge] (with [merge_all = false]). *)
Definition SortedVectorWrapper_merge (same : list T → list T → bool)
  (left right : option (list T)) : outcome (option (list T)) :=
  match left, right with
  | None, _ => Done right
  | _, None => Done left
  | Some l, Some r =>
      if same l r then Done left else
      m ← SortedVector_merge_impl l r; Done (Some m)
  end.
End sorted_vector.

(** ** Facts: access and update *)
Section vector_facts.
Context {T : Type}.
Implicit Types (data l r m : list T).

Lemma Vector_at_lt data i :
  (N.to_nat i < length data)%nat → ∃ x, Vector_at data i = Done x ∧ data !! N.to_nat i = Some x.
Proof.
  intros Hi. destruct (index_lt data i Hi) as (x & Hx & Hl). exists x. split; [|done].
  unfold Vector_at. replace (i <=? N.of_nat (length data)) with true; [done|].
  symmetry. apply N.leb_le. lia.
Qed.

Lemma Vector_at_index data i : Vector_at data i = index data i.
Proof.
  unfold Vector_at, index. destruct (i <=? N.of_nat (length data)) eqn:E; [done|]. breflect.
  rewrite lookup_ge_None_2 by lia. done.
Qed.

Lemma Vector_change_lt data i x :
  (N.to_nat i < length data)%nat → Vector_change data i x = Done (<[N.to_nat i := x]> data).
Proof.
  intros Hi. unfold Vector_change. replace (i <=? N.of_nat (length data)) with true.
  - simpl. by apply set_index_lt.
  - symmetry. apply N.leb_le. lia.
Qed.

Lemma VectorWrapper_at_Some data i : VectorWrapper_at (Some data) i = Vector_at data i.
Proof. done. Qed.

Lemma mmap_Done {B} (f : T → outcome B) (g : T → B) l :
  (∀ x, x ∈ l → f x = Done (g x)) → mmap f l = Done (g <$> l).
Proof.
  induction l as [|x l IH]; intros Hf; simpl; [done|].
  rewrite Hf by set_solver. simpl. rewrite IH by set_solver. done.
Qed.

Lemma mmap_id (f : T → outcome T) l : (∀ x, x ∈ l → f x = Done x) → mmap f l = Done l.
Proof. intros Hf. rewrite (mmap_Done f id) by done. by rewrite list_fmap_id. Qed.

Context `{PartialEqSound T}.

(** The pre-check of [merge_impl] only returns what the merge would compute,
    whenever merging an item with itself is the identity. *)
Lemma Vector_merge_scan_ok f l r :
  (∀ x, x ∈ l → f x x = Done x) →
  (fst (Vector_merge_scan l r) = true → Vector_merge_items f false l r = Done l) ∧
  (snd (Vector_merge_scan l r) = true → Vector_merge_items f false l r = Done r).
Proof.
  revert r; induction l as [|x l IH]; intros [|y r] Hid; simpl;
    unfold Vector_merge_rest; rewrite ?mmap_id by done; try done.
  destruct (partial_eq x y) eqn:E; [|done].
  apply partial_eq_sound in E as <-. rewrite Hid by set_solver.
  destruct (IH r) as [IH1 IH2]; [set_solver|]. simpl.
  split; intros Hs; [rewrite IH1 by done | rewrite IH2 by done]; done.
Qed.

Lemma Vector_merge_impl_items f all l r :
  (∀ x, x ∈ l → f x x = Done x) → Vector_merge_impl f all l r = Vector_merge_items f all l r.
Proof.
  intros Hid. unfold Vector_merge_impl. destruct all; [done|].
  destruct (Vector_merge_scan_ok f l r Hid) as [H1 H2].
  destruct (Vector_merge_scan l r) as [[] []]; simpl in *; try done; symmetry; auto.
Qed.

(** Merging vectors of the same length is item-wise. *)
Lemma Vector_merge_items_lookup f all l r m :
  length l = length r → Vector_merge_items f all l r = Done m →
  length m = length l ∧
  ∀ i x y, l !! i = Some x → r !! i = Some y → ∃ z, m !! i = Some z ∧ f x y = Done z.
Proof.
  revert r m; induction l as [|a l IH]; intros [|b r] m; simpl; try done.
  - intros _ [= <-]. split; [done|]. by intros i x y ?.
  - intros [= Hlen] Hm. repeat outcome_step Hm.
    destruct (IH _ _ Hlen E0) as [Hl IHm]. simpl. split; [lia|].
    intros [|i] x y; simpl; [intros [= <-] [= <-]; eauto | apply IHm].
Qed.

Lemma Vector_merge_items_total f all l r :
  length l = length r →
  (∀ i x y, l !! i = Some x → r !! i = Some y → ∃ z, f x y = Done z) →
  ∃ m, Vector_merge_items f all l r = Done m.
Proof.
  revert r; induction l as [|a l IH]; intros [|b r]; simpl; try done.
  - intros _ _. by exists [].
  - intros [= Hlen] Hf. destruct (Hf 0%nat a b) as [z Hz]; try done.
    destruct (IH r Hlen) as [m Hm]; [intros i x y; apply (Hf (S i))|].
    exists (z :: m). rewrite Hz. simpl. by rewrite Hm.
Qed.

Lemma Vector_merge_items_pure f (g : T → T → T) all l r :
  (∀ x y, f x y = Done (g x y)) → length l = length r →
  Vector_merge_items f all l r = Done (zip_with g l r).
Proof.
  intros Hf. revert r; induction l as [|a l IH]; intros [|b r]; simpl; try done.
  intros [= Hlen]. rewrite Hf, IH by done. done.
Qed.
End vector_facts.

(** ** Facts: sorted vectors *)
Section sorted_facts.
Context {T : Type} `{SortingPredicate T}.
Implicit Types (l r m data : list T) (x y v : T) (k : N).

Definition key_sorted l : Prop := StronglySorted (λ x y, sort_key x < sort_key y) l.

(** Reference definitions: the item with a given key, and insertion of an item
    in its place (replacing the item with the same key). *)
Fixpoint find_key k l : option T :=
  match l with
  | [] => None
  | y :: l' => if sort_key y =? k then Some y else find_key k l'
  end.

Fixpoint sorted_insert v l : list T :=
  match l with
  | [] => [v]
  | y :: l' =>
      if sort_key y <? sort_key v then y :: sorted_insert v l'
      else if sort_key v <? sort_key y then v :: l
      else v :: l'
  end.

Lemma key_sorted_lookup l i j x y :
  key_sorted l → l !! i = Some x → l !! j = Some y → (i < j)%nat → sort_key x < sort_key y.
Proof.
  intros Hs. revert i j. induction Hs as [|z l Hs IH Hz]; intros i j; [done|].
  destruct i as [|i], j as [|j]; simpl; try lia.
  - intros [= ->] Hj _. rewrite Forall_forall in Hz.
    apply Hz. apply list_elem_of_In, list_elem_of_lookup. eauto.
  - intros Hi Hj Hlt. eapply IH; eauto. lia.
Qed.

Lemma key_sorted_cons_inv x l :
  key_sorted (x :: l) → key_sorted l ∧ (∀ y, y ∈ l → sort_key x < sort_key y).
Proof.
  intros Hs. inversion Hs as [|? ? Hl Hx]; subst. split; [done|].
  intros y Hy. rewrite Forall_forall in Hx. apply Hx. by apply list_elem_of_In.
Qed.

Lemma key_sorted_cons x l :
  key_sorted l → (∀ y, y ∈ l → sort_key x < sort_key y) → key_sorted (x :: l).
Proof.
  intros Hl Hx. constructor; [done|]. apply Forall_forall. intros y Hy.
  apply Hx. by apply list_elem_of_In.
Qed.

Lemma find_key_Some k l x : find_key k l = Some x → x ∈ l ∧ sort_key x = k.
Proof.
  induction l as [|y l IH]; simpl; [done|]. destruct (sort_key y =? k) eqn:E; breflect.
  - intros [= ->]. split; [set_solver | done].
  - intros [? ?]%IH. split; [set_solver | done].
Qed.

Lemma find_key_None k l : find_key k l = None ↔ ∀ x, x ∈ l → sort_key x ≠ k.
Proof.
  induction l as [|y l IH]; simpl; [set_solver|]. destruct (sort_key y =? k) eqn:E; breflect.
  - split; [done|]. intros Hn. by destruct (Hn y); [set_solver|].
  - rewrite IH. set_solver.
Qed.

Lemma find_key_elem l x : key_sorted l → x ∈ l → find_key (sort_key x) l = Some x.
Proof.
  induction l as [|y l IH]; intros Hs Hx; [set_solver|]. simpl.
  apply key_sorted_cons_inv in Hs as [Hs Hy]. apply elem_of_cons in Hx as [->|Hx].
  - by rewrite N.eqb_refl.
  - specialize (Hy _ Hx). destruct (sort_key y =? sort_key x) eqn:E; breflect; [lia|]. auto.
Qed.

Lemma elem_of_find_key l x : key_sorted l → x ∈ l ↔ find_key (sort_key x) l = Some x.
Proof. intros Hs. split; [by apply find_key_elem | by intros [? _]%find_key_Some]. Qed.

Lemma elem_of_sorted_insert v l x :
  x ∈ sorted_insert v l → x = v ∨ x ∈ l.
Proof.
  induction l as [|y l IH]; simpl; [set_solver|].
  destruct (_ <? _); [|destruct (_ <? _)]; set_solver.
Qed.

Lemma sorted_insert_sorted v l : key_sorted l → key_sorted (sorted_insert v l).
Proof.
  induction l as [|y l IH]; simpl; intros Hs; [repeat constructor|].
  pose proof (key_sorted_cons_inv _ _ Hs) as [Hl Hy].
  destruct (sort_key y <? sort_key v) eqn:E1; breflect.
  - apply key_sorted_cons; [auto|]. intros z [->|Hz]%elem_of_sorted_insert; auto.
  - destruct (sort_key v <? sort_key y) eqn:E2; breflect.
    + apply key_sorted_cons; [done|]. intros z [->|Hz]%elem_of_cons; [done|].
      specialize (Hy _ Hz). lia.
    + assert (sort_key v = sort_key y) as Ek by lia.
      apply key_sorted_cons; [done|]. rewrite Ek. done.
Qed.

Lemma find_key_sorted_insert k v l :
  key_sorted l →
  find_key k (sorted_insert v l) = if sort_key v =? k then Some v else find_key k l.
Proof.
  induction l as [|y l IH]; simpl; intros Hs; [done|].
  pose proof (key_sorted_cons_inv _ _ Hs) as [Hl Hy].
  destruct (sort_key y <? sort_key v) eqn:E1; breflect; simpl.
  - rewrite IH by done. destruct (sort_key y =? k) eqn:E2; breflect; [|done].
    destruct (sort_key v =? k) eqn:E3; breflect; [lia|done].
  - destruct (sort_key v <? sort_key y) eqn:E2; breflect; simpl; [done|].
    destruct (sort_key v =? k) eqn:E3; breflect; [done|].
    destruct (sort_key y =? k) eqn:E4; breflect; [lia|done].
Qed.

Lemma elem_of_sorted_insert_self v l : v ∈ sorted_insert v l.
Proof. induction l as [|y l IH]; simpl; repeat case_match; set_solver. Qed.

Lemma elem_of_sorted_insert_other v l x :
  x ∈ l → sort_key x ≠ sort_key v → x ∈ sorted_insert v l.
Proof.
  induction l as [|y l IH]; simpl; [set_solver|]. intros [->|Hx]%elem_of_cons Hk.
  - destruct (sort_key y <? sort_key v) eqn:E1; breflect; [set_solver|].
    destruct (sort_key v <? sort_key y) eqn:E2; breflect; [set_solver|lia].
  - repeat case_match; set_solver.
Qed.

Lemma sorted_insert_split v l1 l2 :
  (∀ x, x ∈ l1 → sort_key x < sort_key v) →
  (∀ x, x ∈ l2 → sort_key v < sort_key x) →
  sorted_insert v (l1 ++ l2) = l1 ++ v :: l2.
Proof.
  induction l1 as [|y l1 IH]; simpl; intros H1 H2.
  - destruct l2 as [|z l2]; simpl; [done|]. specialize (H2 z ltac:(set_solver)).
    destruct (sort_key z <? sort_key v) eqn:E; breflect; [lia|].
    destruct (sort_key v <? sort_key z) eqn:E'; breflect; [done|lia].
  - destruct (sort_key y <? sort_key v) eqn:E; breflect.
    + f_equal. apply IH; set_solver.
    + specialize (H1 y ltac:(set_solver)). lia.
Qed.

Lemma sorted_insert_replace v y l1 l2 :
  (∀ x, x ∈ l1 → sort_key x < sort_key v) → sort_key y = sort_key v →
  sorted_insert v (l1 ++ y :: l2) = l1 ++ v :: l2.
Proof.
  intros H1 Hy. induction l1 as [|z l1 IH]; simpl.
  - destruct (sort_key y <? sort_key v) eqn:E; breflect; [lia|].
    destruct (sort_key v <? sort_key y) eqn:E'; breflect; [lia|done].
  - destruct (sort_key z <? sort_key v) eqn:E; breflect.
    + f_equal. apply IH. set_solver.
    + specialize (H1 z ltac:(set_solver)). lia.
Qed.

Lemma sorted_insert_id v l : key_sorted l → v ∈ l → sorted_insert v l = l.
Proof.
  intros Hs (l1 & l2 & ->)%list_elem_of_split.
  apply sorted_insert_replace; [|done]. revert Hs. induction l1 as [|z l1 IH]; simpl.
  - set_solver.
  - intros [Hs Hz]%key_sorted_cons_inv x [->|Hx]%elem_of_cons; [apply Hz; set_solver|auto].
Qed.

(** The binary search finds the key, or the place of the key, on sorted data;
    [right - left - 1] steps suffice. *)
Definition key_before k data (p : Z) : Prop :=
  ∀ (i : nat) x, data !! i = Some x → (Z.of_nat i < p)%Z → sort_key x < k.
Definition key_after k data (p : Z) : Prop :=
  ∀ (i : nat) x, data !! i = Some x → (p ≤ Z.of_nat i)%Z → k < sort_key x.

Lemma binary_search_ok fuel k data left right :
  key_sorted data →
  (-1 ≤ left)%Z → (left < right)%Z → (right ≤ Z.of_nat (length data))%Z →
  (right - left - 1 ≤ Z.of_nat fuel)%Z →
  key_before k data (left + 1) → key_after k data right →
  (∃ (i : nat) x, binary_search fuel (λ z, sort_key z <? k) (λ z, k <? sort_key z) data left right
      = Done (inl (N.of_nat i)) ∧ data !! i = Some x ∧ sort_key x = k) ∨
  (∃ p, binary_search fuel (λ z, sort_key z <? k) (λ z, k <? sort_key z) data left right
      = Done (inr p) ∧ (0 ≤ p ≤ Z.of_nat (length data))%Z ∧ key_before k data p ∧ key_after k data p).
Proof.
  intros Hs. revert left right.
  induction fuel as [|fuel IH]; intros left right Hl Hlr Hr Hf Hb Ha; simpl;
    destruct (right - left <=? 1)%Z eqn:E; try (apply Z.leb_le in E); try (apply Z.leb_gt in E).
  - right. exists right. replace (left + 1)%Z with right in Hb by lia. repeat split; [lia..|done|done].
  - lia.
  - right. exists right. replace (left + 1)%Z with right in Hb by lia. repeat split; [lia..|done|done].
  - set (mid := ((right + left) / 2)%Z).
    assert (left < mid < right)%Z as Hmid by (unfold mid; pose proof (Z.div_mod (right + left) 2);
      pose proof (Z.mod_pos_bound (right + left) 2); lia).
    destruct (lookup_lt_is_Some_2 data (Z.to_nat mid)) as [x Hx]; [lia|].
    rewrite (index_Some _ _ x) by (by rewrite Z_N_nat). run.
    destruct (sort_key x <? k) eqn:E1; breflect; [|destruct (k <? sort_key x) eqn:E2; breflect].
    + apply IH; [lia..| |done]. intros i y Hy Hi.
      destruct (decide (i = Z.to_nat mid)) as [->|]; [by simplify_eq|].
      pose proof (key_sorted_lookup _ _ _ _ _ Hs Hy Hx). lia.
    + apply IH; [lia..|done|]. intros i y Hy Hi.
      destruct (decide (i = Z.to_nat mid)) as [->|]; [by simplify_eq|].
      pose proof (key_sorted_lookup _ _ _ _ _ Hs Hx Hy). lia.
    + left. exists (Z.to_nat mid), x. repeat split; [|done|lia]. f_equal. f_equal. lia.
Qed.
End sorted_facts.

(** ** Facts: push, search and merge on sorted vectors *)
Section sorted_ops.
Context {T : Type} `{SortingPredicate T} `{PartialEqSound T}.
Implicit Types (l r data : list T) (x y z v : T) (k : N).

Lemma key_before_take k data p :
  key_before k data p → ∀ x, x ∈ take (Z.to_nat p) data → sort_key x < k.
Proof.
  intros Hb x (i & Hi)%list_elem_of_lookup. apply lookup_take_Some in Hi as [Hi Hlt].
  eapply Hb; [done|lia].
Qed.

Lemma key_after_drop k data p :
  (0 ≤ p)%Z → key_after k data p → ∀ x, x ∈ drop (Z.to_nat p) data → k < sort_key x.
Proof.
  intros Hp Ha x (i & Hi)%list_elem_of_lookup. rewrite lookup_drop in Hi.
  eapply Ha; [done|lia].
Qed.

Lemma binary_search_whole k data :
  key_sorted data →
  (∃ (i : nat) x, binary_search (length data) (λ z, sort_key z <? k) (λ z, k <? sort_key z) data
      (-1) (Z.of_nat (length data)) = Done (inl (N.of_nat i)) ∧ data !! i = Some x ∧ sort_key x = k) ∨
  (∃ p, binary_search (length data) (λ z, sort_key z <? k) (λ z, k <? sort_key z) data
      (-1) (Z.of_nat (length data)) = Done (inr p) ∧ (0 ≤ p ≤ Z.of_nat (length data))%Z ∧
      key_before k data p ∧ key_after k data p).
Proof.
  intros Hs. apply binary_search_ok; try lia; try done.
  - intros i x _ ?. lia.
  - intros i x ?%lookup_lt_Some ?. lia.
Qed.

Lemma binary_search_ext fuel (lt lt' gt gt' : T → bool) data left right :
  (∀ z, lt z = lt' z) → (∀ z, gt z = gt' z) →
  binary_search fuel lt gt data left right = binary_search fuel lt' gt' data left right.
Proof.
  intros Hl Hg. revert left right. induction fuel as [|fuel IH]; intros left right; [done|].
  simpl. destruct (_ <=? _)%Z; [done|]. destruct (index _ _) as [z|]; [|done]. run.
  by rewrite Hl, Hg, !IH.
Qed.

(** The search loop of [get_attempt] returns the item with the searched key. *)
Lemma binary_search_find k data :
  key_sorted data →
  match binary_search (length data) (λ z, sort_key z <? k) (λ z, k <? sort_key z) data
          (-1) (Z.of_nat (length data)) with
  | Done (inl i) => index data i = unwrap (find_key k data) ∧ is_Some (find_key k data)
  | Done (inr _) => find_key k data = None
  | Panic => False
  end.
Proof.
  intros Hs. destruct (binary_search_whole k data Hs) as [(i & x & -> & Hi & <-)|(p & -> & Hp & Hb & Ha)].
  - rewrite (find_key_elem data x); [|done|apply list_elem_of_lookup; eauto].
    split; [by apply index_nat | eauto].
  - apply find_key_None. intros x [i Hi]%list_elem_of_lookup Hk.
    destruct (decide (Z.of_nat i < p)%Z) as [Hlt|Hge].
    + specialize (Hb _ _ Hi Hlt). lia.
    + specialize (Ha _ _ Hi ltac:(lia)). lia.
Qed.

(** [push] is insertion in place, for every comparison of pointers. *)
Lemma SortedVector_push_insert data v :
  key_sorted data → SortedVector_push (Some data) v = Done (Some (sorted_insert v data)).
Proof.
  intros Hs. unfold SortedVector_push.
  rewrite (binary_search_ext _ _ (λ z, sort_key z <? sort_key v) _ (λ z, sort_key v <? sort_key z))
    by (intros; apply less_key).
  destruct (binary_search_whole (sort_key v) data Hs) as [(i & y & -> & Hi & Hk)|(p & -> & Hp & Hb & Ha)];
    run.
  - rewrite (index_nat _ _ _ Hi). run.
    pose proof (lookup_lt_Some _ _ _ Hi) as Hlt. destruct (partial_eq y v) eqn:E.
    + apply partial_eq_sound in E as <-. rewrite sorted_insert_id; [done..|].
      apply list_elem_of_lookup. eauto.
    + rewrite set_index_lt by lia. rewrite Nat2N.id. simpl. do 2 f_equal.
      rewrite <- (take_drop_middle _ _ _ Hi) at 2. rewrite sorted_insert_replace; [|..|done].
      * by apply insert_take_drop.
      * intros x [j Hj]%list_elem_of_lookup. apply lookup_take_Some in Hj as [Hj Hji]. rewrite <- Hk.
        eapply key_sorted_lookup; eauto.
  - do 2 f_equal. rewrite <- (take_drop (Z.to_nat p) data) at 4.
    rewrite sorted_insert_split; [|by apply key_before_take|apply key_after_drop; [lia|done]].
    simpl. f_equal. f_equal. destruct (_ <? _)%nat eqn:E; [done|].
    apply Nat.ltb_ge in E. by rewrite drop_ge.
Qed.

Lemma SortedVector_push_ok (w : option (list T)) v :
  key_sorted (default [] w) →
  SortedVector_push w v = Done (Some (sorted_insert v (default [] w))).
Proof. destruct w as [data|]; simpl; [apply SortedVector_push_insert | done]. Qed.

(** *** Merge *)
Context (f : T → T → outcome T).

Lemma merge_items_nil_l r : SortedVector_merge_items f [] r = Done r.
Proof. by destruct r. Qed.
Lemma merge_items_nil_r l : SortedVector_merge_items f l [] = Done l.
Proof. by destruct l. Qed.
Lemma merge_items_cons x l y r :
  SortedVector_merge_items f (x :: l) (y :: r) =
  if sort_key x <? sort_key y then items ← SortedVector_merge_items f l (y :: r); Done (x :: items)
  else if sort_key y <? sort_key x then items ← SortedVector_merge_items f (x :: l) r; Done (y :: items)
  else item ← f x y; items ← SortedVector_merge_items f l r; Done (item :: items).
Proof. simpl. by rewrite !less_key. Qed.

(** Induction on the two arguments the way the merge loop consumes them. *)
Lemma merge_ind (P : list T → list T → Prop) :
  (∀ r, P [] r) → (∀ x l, P (x :: l) []) →
  (∀ x l y r, (sort_key x < sort_key y → P l (y :: r)) →
     (sort_key y < sort_key x → P (x :: l) r) →
     (sort_key x = sort_key y → P l r) → P (x :: l) (y :: r)) →
  ∀ l r, P l r.
Proof.
  intros Hnil Hnil' Hcons l. induction l as [|x l IHl]; [done|]. intros r.
  induction r as [|y r IHr]; [done|]. apply Hcons; auto.
Qed.

(** What merging means for the item of one key. *)
Inductive merged_key : option T → option T → option T → Prop :=
| merged_none : merged_key None None None
| merged_left x : merged_key (Some x) None (Some x)
| merged_right y : merged_key None (Some y) (Some y)
| merged_both x y z : f x y = Done z → merged_key (Some x) (Some y) (Some z).

Definition keeps_key : Prop := ∀ x y z, f x y = Done z → sort_key x = sort_key y → sort_key z = sort_key x.

Lemma merge_items_elem l r m z :
  keeps_key → SortedVector_merge_items f l r = Done m → z ∈ m →
  (∃ x, x ∈ l ∧ sort_key x = sort_key z) ∨ (∃ y, y ∈ r ∧ sort_key y = sort_key z).
Proof.
  intros Hk. revert m. pattern l, r. revert l r.
  apply merge_ind; [intros r m|intros x l m|intros x l y r IH1 IH2 IH3 m].
  - rewrite merge_items_nil_l. intros [= ->]. eauto.
  - rewrite merge_items_nil_r. intros [= <-]. eauto.
  - rewrite merge_items_cons.
    destruct (sort_key x <? sort_key y) eqn:E1; breflect; [|destruct (sort_key y <? sort_key x) eqn:E2; breflect];
      intros Hm; repeat outcome_step Hm; intros [->|Hz]%elem_of_cons.
    + left. exists x. set_solver.
    + specialize (IH1 E1 _ E Hz). set_solver.
    + right. exists y. set_solver.
    + specialize (IH2 E2 _ E Hz). set_solver.
    + left. exists x. split; [set_solver|]. symmetry. eapply Hk; [done|lia].
    + specialize (IH3 ltac:(lia) _ E0 Hz). set_solver.
Qed.

Lemma merge_items_sorted l r m :
  keeps_key → key_sorted l → key_sorted r → SortedVector_merge_items f l r = Done m → key_sorted m.
Proof.
  intros Hk. revert m. pattern l, r. revert l r.
  apply merge_ind; [intros r m|intros x l m|intros x l y r IH1 IH2 IH3 m]; intros Hl Hr.
  - rewrite merge_items_nil_l. by intros [= <-].
  - rewrite merge_items_nil_r. by intros [= <-].
  - pose proof (key_sorted_cons_inv _ _ Hl) as [Hl' Hx]. pose proof (key_sorted_cons_inv _ _ Hr) as [Hr' Hy].
    rewrite merge_items_cons.
    destruct (sort_key x <? sort_key y) eqn:E1; breflect; [|destruct (sort_key y <? sort_key x) eqn:E2; breflect];
      intros Hm; repeat outcome_step Hm; apply key_sorted_cons; eauto; try (apply IH3; [lia|done..]);
      intros z Hz.
    + destruct (merge_items_elem _ _ _ _ Hk E Hz) as [(w & Hw & <-)|(w & Hw & <-)]; [auto|].
      apply elem_of_cons in Hw as [->|Hw]; [done|]. specialize (Hy _ Hw). lia.
    + destruct (merge_items_elem _ _ _ _ Hk E Hz) as [(w & Hw & <-)|(w & Hw & <-)]; [|auto].
      apply elem_of_cons in Hw as [->|Hw]; [done|]. specialize (Hx _ Hw). lia.
    + rewrite (Hk _ _ _ E ltac:(lia)).
      destruct (merge_items_elem _ _ _ _ Hk E0 Hz) as [(w & Hw & <-)|(w & Hw & <-)]; [auto|].
      specialize (Hy _ Hw). lia.
Qed.
End sorted_ops.

Section sorted_merge.
Context {T : Type} `{SortingPredicate T} `{PartialEqSound T}.
Context (f : T → T → outcome T).
Implicit Types (l r data : list T) (x y z v : T) (k : N).

Lemma find_key_below k x l :
  k < sort_key x → (∀ y, y ∈ l → sort_key x < sort_key y) → find_key k (x :: l) = None.
Proof.
  intros Hk Hx. apply find_key_None. intros y [->|Hy]%elem_of_cons; [lia|].
  specialize (Hx _ Hy). lia.
Qed.

(** Merging two sorted vectors joins, key by key, what they hold. *)
Lemma merge_items_find l r m k :
  keeps_key f → key_sorted l → key_sorted r → SortedVector_merge_items f l r = Done m →
  merged_key f (find_key k l) (find_key k r) (find_key k m).
Proof.
  intros Hk. revert m. pattern l, r. revert l r.
  apply merge_ind; [intros r m|intros x l m|intros x l y r IH1 IH2 IH3 m]; intros Hl Hr.
  - rewrite merge_items_nil_l. intros [= <-]. simpl. destruct (find_key k r); constructor.
  - rewrite merge_items_nil_r. intros [= <-]. destruct (find_key k (x :: l)); simpl; constructor.
  - pose proof (key_sorted_cons_inv _ _ Hl) as [Hl' Hx]. pose proof (key_sorted_cons_inv _ _ Hr) as [Hr' Hy].
    rewrite merge_items_cons.
    destruct (sort_key x <? sort_key y) eqn:E1; breflect; [|destruct (sort_key y <? sort_key x) eqn:E2; breflect];
      intros Hm; repeat outcome_step Hm.
    + specialize (IH1 E1 _ Hl' Hr E). cbn [find_key]. destruct (sort_key x =? k) eqn:Ex; breflect; [|done].
      subst k. change (if sort_key y =? _ then _ else _) with (find_key (sort_key x) (y :: r)).
      rewrite (find_key_below _ y r) by done. constructor.
    + specialize (IH2 E2 _ Hl Hr' E). cbn [find_key]. destruct (sort_key y =? k) eqn:Ex; breflect; [|done].
      subst k. change (if sort_key x =? _ then _ else _) with (find_key (sort_key y) (x :: l)).
      rewrite (find_key_below _ x l) by done. constructor.
    + assert (sort_key x = sort_key y) as Exy by lia. specialize (IH3 Exy _ Hl' Hr' E0). simpl.
      rewrite (Hk _ _ _ E Exy), <- Exy. destruct (sort_key x =? k); [by constructor|done].
Qed.

Lemma merge_items_total l r :
  (∀ x y, x ∈ l → y ∈ r → sort_key x = sort_key y → ∃ z, f x y = Done z) →
  ∃ m, SortedVector_merge_items f l r = Done m.
Proof.
  pattern l, r. revert l r.
  apply merge_ind; [intros r|intros x l|intros x l y r IH1 IH2 IH3]; intros Hf.
  - rewrite merge_items_nil_l. eauto.
  - rewrite merge_items_nil_r. eauto.
  - rewrite merge_items_cons.
    destruct (sort_key x <? sort_key y) eqn:E1; breflect; [|destruct (sort_key y <? sort_key x) eqn:E2; breflect].
    + destruct (IH1 E1) as [m ->]; [set_solver|]. eauto.
    + destruct (IH2 E2) as [m ->]; [set_solver|]. eauto.
    + destruct (Hf x y) as [z ->]; [set_solver|set_solver|lia|]. run.
      destruct IH3 as [m ->]; [lia|set_solver|]. eauto.
Qed.

Lemma merge_scan_cons x l y r :
  SortedVector_merge_scan (x :: l) (y :: r) =
  if sort_key x <? sort_key y then (fst (SortedVector_merge_scan l (y :: r)), false)
  else if sort_key y <? sort_key x then (false, snd (SortedVector_merge_scan (x :: l) r))
  else if partial_eq x y then SortedVector_merge_scan l r else (false, false).
Proof. simpl. by rewrite !less_key. Qed.

(** The pre-check is transparent: whatever the pointer comparison answers, the
    method returns the item-wise merge. *)
Lemma SortedVector_merge_impl_items l r :
  (∀ x, x ∈ l → f x x = Done x) →
  SortedVector_merge_impl f l r = SortedVector_merge_items f l r.
Proof.
  intros Hid.
  assert (Hscan : (fst (SortedVector_merge_scan l r) = true → SortedVector_merge_items f l r = Done l) ∧
    (snd (SortedVector_merge_scan l r) = true → SortedVector_merge_items f l r = Done r)).
  { revert Hid. pattern l, r. revert l r.
    apply merge_ind; [intros r|intros x l|intros x l y r IH1 IH2 IH3]; intros Hid.
    - rewrite merge_items_nil_l. by destruct r.
    - rewrite merge_items_nil_r. done.
    - rewrite merge_items_cons, merge_scan_cons.
      destruct (sort_key x <? sort_key y) eqn:E1; breflect; [|destruct (sort_key y <? sort_key x) eqn:E2; breflect].
      + split; cbn [fst snd]; [|done]. intros Hf. destruct (IH1 E1) as [-> _]; [set_solver|done|done].
      + split; cbn [fst snd]; [done|]. intros Hf. destruct (IH2 E2) as [_ ->]; [set_solver|done|done].
      + destruct (partial_eq x y) eqn:Exy; [|done]. apply partial_eq_sound in Exy as <-.
        rewrite Hid by set_solver. run. destruct IH3 as [IHl IHr]; [lia|set_solver|].
        split; intros Hf; [rewrite IHl by done | rewrite IHr by done]; done. }
  unfold SortedVector_merge_impl.
  destruct (SortedVector_merge_scan l r) as [[] []]; simpl in *; try done; symmetry; tauto.
Qed.

Lemma SortedVectorWrapper_merge_items same (wl wr : option (list T)) :
  (∀ l r, same l r = true → l = r) →
  (∀ x, x ∈ default [] wl → f x x = Done x) →
  (λ m, default [] m) <$> SortedVectorWrapper_merge f same wl wr
  = SortedVector_merge_items f (default [] wl) (default [] wr).
Proof.
  intros Hsame Hid. destruct wl as [l|], wr as [r|]; simpl.
  - destruct (same l r) eqn:E.
    + apply Hsame in E as <-. simpl in *.
      rewrite <- SortedVector_merge_impl_items by done. unfold SortedVector_merge_impl.
      assert (Hi : SortedVector_merge_items f l l = Done l).
      { clear -Hid. induction l as [|x l IH]; [done|]. rewrite merge_items_cons, N.ltb_irrefl.
        rewrite Hid by set_solver. run. rewrite IH by set_solver. done. }
      destruct (SortedVector_merge_scan l l) as [[] []]; done.
    + rewrite SortedVector_merge_impl_items by done. by destruct (SortedVector_merge_items f l r).
  - by rewrite merge_items_nil_r.
  - by destruct r.
  - done.
Qed.

Lemma find_key_ext l r :
  key_sorted l → key_sorted r → (∀ k, find_key k l = find_key k r) → l = r.
Proof.
  revert r. induction l as [|x l IH]; intros r Hl Hr He.
  - destruct r as [|y r]; [done|]. specialize (He (sort_key y)). simpl in He.
    by rewrite N.eqb_refl in He.
  - pose proof (key_sorted_cons_inv _ _ Hl) as [Hl' Hx].
    destruct r as [|y r]; [specialize (He (sort_key x)); simpl in He; by rewrite N.eqb_refl in He|].
    pose proof (key_sorted_cons_inv _ _ Hr) as [Hr' Hy].
    assert (sort_key x = sort_key y) as Exy.
    { destruct (N.lt_total (sort_key x) (sort_key y)) as [Hlt|[?|Hlt]]; [|done|].
      - pose proof (He (sort_key x)) as He'. rewrite (find_key_below _ y r) in He' by done.
        simpl in He'. by rewrite N.eqb_refl in He'.
      - pose proof (He (sort_key y)) as He'. rewrite (find_key_below _ x l) in He' by done.
        simpl in He'. by rewrite N.eqb_refl in He'. }
    pose proof (He (sort_key x)) as He'. simpl in He'. rewrite <- Exy, N.eqb_refl in He'.
    injection He' as <-. f_equal. apply IH; [done..|]. intros k. specialize (He k). simpl in He.
    destruct (sort_key x =? k) eqn:Ek; [|done]. breflect. subst k.
    assert (∀ l0, (∀ y, y ∈ l0 → sort_key x < sort_key y) → find_key (sort_key x) l0 = None) as Hn.
    { intros l0 H0'. apply find_key_None. intros z Hz. specialize (H0' z Hz). lia. }
    by rewrite !Hn.
Qed.
End sorted_merge.

(** Merging sorted vectors is commutative when the merge of items is. *)
Lemma merge_items_comm {T} `{SortingPredicate T} (f : T → T → outcome T) (l r : list T) :
  (∀ x y, sort_key x = sort_key y → f x y = f y x) →
  SortedVector_merge_items f l r = SortedVector_merge_items f r l.
Proof.
  intros Hf. pattern l, r. revert l r.
  apply merge_ind; [intros r|intros x l|intros x l y r IH1 IH2 IH3].
  - by rewrite merge_items_nil_l, merge_items_nil_r.
  - by rewrite merge_items_nil_l, merge_items_nil_r.
  - rewrite !merge_items_cons.
    destruct (sort_key x <? sort_key y) eqn:E1; destruct (sort_key y <? sort_key x) eqn:E2; breflect;
      [lia|by rewrite IH1|by rewrite IH2|].
    rewrite Hf by lia. by rewrite IH3 by lia.
Qed.
