(* ===== verification/Candidates.v ===== *)
(** * Sent blocks, approval candidates and vote candidates

    Models [validator-session/src/sent_block.rs], [block_candidate.rs] and
    [vote_candidate.rs].  The cached [hash], the allocation [pool], the instance
    counters and the creation times kept for statistics are not part of the
    records: [create] computes the hash from the fields kept here, and nothing
    in the state machine reads the others. *)

From S2P Require Import Prelude SessionDescription Vectors.

(** ** Sent blocks *)
Record SentBlock := {
  sb_candidate_id : N;
  sb_source_id : N;
  sb_root_hash : N;
  sb_file_hash : N;
  sb_collated_data_file_hash : N;
}.
Abbreviation SentBlockPtr := (option SentBlock).

(** [UInt256::default()] *)
Definition SKIP_ROUND_CANDIDATE_BLOCKID : N := 0.
Definition DEFAULT_BLOCKID : N := 0.

#[global] Instance SentBlock_eq_dec : EqDecision SentBlock.
Proof. solve_decision. Defined.
#[global] Instance SentBlock_partial_eq {X : External} : PartialEq SentBlock := pool_ptr_eq.
#[global] Instance SentBlock_partial_eq_sound {X : External} : PartialEqSound SentBlock.
Proof. intros x y. apply ext_same_address_sound. Qed.

(** [SentBlockWrapper::get_id]: the skip candidate has the zero identifier. *)
Definition SentBlock_get_id (b : SentBlockPtr) : N :=
  match b with Some block => sb_candidate_id block | None => SKIP_ROUND_CANDIDATE_BLOCKID end.

(** [Merge for Option<PoolPtr<dyn SentBlock>>] *)
#[global] Instance SentBlock_merge {X : External} : Merge SentBlockPtr := λ _ left right,
  match left, right with
  | Some _, _ => Done left
  | None, Some _ => Done right
  | None, None => Done None
  end.

Definition SentBlock_create {X : External} (d : SessionDescription)
  (source_id root_hash file_hash collated_data_file_hash : N) : outcome SentBlockPtr :=
  id ← candidate_id d source_id root_hash file_hash collated_data_file_hash;
  Done (Some {| sb_candidate_id := id; sb_source_id := source_id; sb_root_hash := root_hash;
                sb_file_hash := file_hash; sb_collated_data_file_hash := collated_data_file_hash |}).

Definition SentBlock_create_empty {X : External} (d : SessionDescription) : outcome SentBlockPtr :=
  SentBlock_create d 0 0 0 0.

(** ** Signatures of block candidates *)
Record BlockCandidateSignature := { bcs_signature : list N }.
Abbreviation BlockCandidateSignaturePtr := (option BlockCandidateSignature).
Abbreviation BlockCandidateSignatureVectorPtr := (list BlockCandidateSignaturePtr).

#[global] Instance BlockCandidateSignature_eq_dec : EqDecision BlockCandidateSignature.
Proof. solve_decision. Defined.
#[global] Instance BlockCandidateSignature_partial_eq {X : External} :
  PartialEq BlockCandidateSignature := pool_ptr_eq.
#[global] Instance BlockCandidateSignature_partial_eq_sound {X : External} :
  PartialEqSound BlockCandidateSignature.
Proof. intros x y. apply ext_same_address_sound. Qed.

#[global] Instance BlockCandidateSignature_merge {X : External} : Merge BlockCandidateSignature :=
  λ _ left right, Done (if bytes_lt (bcs_signature left) (bcs_signature right) then left else right).

Definition BlockCandidateSignature_create (signature : list N) : BlockCandidateSignaturePtr :=
  Some {| bcs_signature := signature |}.

(** The merge of two signature vectors, as [VectorMerge::merge] calls it. *)
Definition signatures_merge {X : External} (d : SessionDescription)
  (left right : BlockCandidateSignatureVectorPtr) : outcome BlockCandidateSignatureVectorPtr :=
  Vector_merge_impl (Option_merge d) false left right.

(** The merge of two vectors of flags. *)
Definition flags_merge {X : External} (d : SessionDescription) (left right : list bool) : outcome (list bool) :=
  Vector_merge_impl (merge d) false left right.

(** ** Block candidates: a sent block and its approvals *)
Record BlockCandidate := {
  bc_block : SentBlockPtr;
  approved_by : BlockCandidateSignatureVectorPtr;
}.

#[global] Instance BlockCandidate_eq_dec : EqDecision BlockCandidate.
Proof. solve_decision. Defined.
#[global] Instance BlockCandidate_partial_eq {X : External} : PartialEq BlockCandidate := pool_ptr_eq.
#[global] Instance BlockCandidate_partial_eq_sound {X : External} : PartialEqSound BlockCandidate.
Proof. intros x y. apply ext_same_address_sound. Qed.

Definition BlockCandidate_get_id (c : BlockCandidate) : N :=
  match bc_block c with Some block => sb_candidate_id block | None => DEFAULT_BLOCKID end.

Definition BlockCandidate_get_source_index (c : BlockCandidate) : N :=
  match bc_block c with Some block => sb_source_id block | None => u32_max end.

Definition BlockCandidate_check_block_is_approved_by (c : BlockCandidate) (source_index : N) : outcome bool :=
  s ← Vector_at (approved_by c) source_index; Done (bool_decide (is_Some s)).

Section block_candidate.
Context {X : External} (d : SessionDescription).

Definition BlockCandidate_check_block_is_approved (c : BlockCandidate) : outcome bool :=
  weight_loop d (BlockCandidate_check_block_is_approved_by c) (node_range d) 0.

Definition BlockCandidate_create_unapproved (block : SentBlockPtr) : BlockCandidate :=
  {| bc_block := block; approved_by := replicate (N.to_nat (get_total_nodes d)) None |}.

#[global] Instance BlockCandidate_merge : Merge BlockCandidate := λ d left right,
  _ ← assert_that (BlockCandidate_get_id left =? BlockCandidate_get_id right);
  approved ← signatures_merge d (approved_by left) (approved_by right);
  Done {| bc_block := bc_block left; approved_by := approved |}.

Definition BlockCandidate_push (c : BlockCandidate) (src_idx : N) (signature : BlockCandidateSignaturePtr)
  : outcome BlockCandidate :=
  s ← Vector_at (approved_by c) src_idx;
  match s with
  | Some _ => Done c
  | None =>
      approved ← Vector_change (approved_by c) src_idx signature;
      Done {| bc_block := bc_block c; approved_by := approved |}
  end.
End block_candidate.

(** ** Vote candidates: a sent block and its votes *)
Record VoteCandidate := {
  vc_block : SentBlockPtr;
  voted_by : list bool;
}.

#[global] Instance VoteCandidate_eq_dec : EqDecision VoteCandidate.
Proof. solve_decision. Defined.
#[global] Instance VoteCandidate_partial_eq {X : External} : PartialEq VoteCandidate := pool_ptr_eq.
#[global] Instance VoteCandidate_partial_eq_sound {X : External} : PartialEqSound VoteCandidate.
Proof. intros x y. apply ext_same_address_sound. Qed.

Definition VoteCandidate_get_id (c : VoteCandidate) : N := SentBlock_get_id (vc_block c).

Definition VoteCandidate_get_source_index (c : VoteCandidate) : N :=
  match vc_block c with Some block => sb_source_id block | None => u32_max end.

Definition VoteCandidate_check_block_is_voted_by (c : VoteCandidate) (src_idx : N) : outcome bool :=
  Vector_at (voted_by c) src_idx.

Section vote_candidate.
Context {X : External} (d : SessionDescription).

Definition VoteCandidate_check_block_is_voted (c : VoteCandidate) : outcome bool :=
  weight_loop d (VoteCandidate_check_block_is_voted_by c) (node_range d) 0.

Definition VoteCandidate_create_unvoted (block : SentBlockPtr) : VoteCandidate :=
  {| vc_block := block; voted_by := replicate (N.to_nat (get_total_nodes d)) false |}.

#[global] Instance VoteCandidate_merge : Merge VoteCandidate := λ d left right,
  _ ← assert_that (VoteCandidate_get_id left =? VoteCandidate_get_id right);
  voted ← flags_merge d (voted_by left) (voted_by right);
  Done {| vc_block := vc_block left; voted_by := voted |}.

Definition VoteCandidate_push (c : VoteCandidate) (src_idx : N) : outcome VoteCandidate :=
  b ← Vector_at (voted_by c) src_idx;
  if (b : bool) then Done c else
  voted ← Vector_change (voted_by c) src_idx true;
  Done {| vc_block := vc_block c; voted_by := voted |}.
End vote_candidate.

(** [VoteCandidateComparator] and [BlockCandidateSortingPredicate] *)
#[global, refine] Instance VoteCandidateComparator : SortingPredicate VoteCandidate := {|
  less := λ first second, VoteCandidate_get_id first <? VoteCandidate_get_id second;
  sort_key := VoteCandidate_get_id |}.
Proof. done. Defined.

#[global, refine] Instance BlockCandidateSortingPredicate : SortingPredicate BlockCandidate := {|
  less := λ first second, BlockCandidate_get_id first <? BlockCandidate_get_id second;
  sort_key := BlockCandidate_get_id |}.
Proof. done. Defined.

(** ** Facts *)

(** Lexicographic order on byte strings is a strict total order. *)
Lemma bytes_lt_irrefl a : bytes_lt a a = false.
Proof. induction a as [|x a IH]; simpl; [done|]. by rewrite N.ltb_irrefl. Qed.

Lemma bytes_lt_trans a b c : bytes_lt a b = true → bytes_lt b c = true → bytes_lt a c = true.
Proof.
  revert b c. induction a as [|x a IH]; intros [|y b] [|z c]; simpl; try done.
  destruct (x <? y) eqn:E1; destruct (y <? x) eqn:E2; destruct (y <? z) eqn:E3; destruct (z <? y) eqn:E4;
    destruct (x <? z) eqn:E5; destruct (z <? x) eqn:E6; breflect; try done; try lia. apply IH.
Qed.

Lemma bytes_lt_total a b : bytes_lt a b = false → bytes_lt b a = false → a = b.
Proof.
  revert b. induction a as [|x a IH]; intros [|y b]; simpl; try done.
  destruct (x <? y) eqn:E1; destruct (y <? x) eqn:E2; breflect; try done.
  intros. f_equal; [lia|auto].
Qed.

Lemma bytes_lt_asym a b : bytes_lt a b = true → bytes_lt b a = false.
Proof.
  intros Hab. destruct (bytes_lt b a) eqn:Hba; [|done].
  pose proof (bytes_lt_trans _ _ _ Hab Hba) as Ha. by rewrite bytes_lt_irrefl in Ha.
Qed.

(** Reference join of two optional signatures: the smaller one. *)
Definition sig_join (a b : BlockCandidateSignaturePtr) : BlockCandidateSignaturePtr :=
  match a, b with
  | None, _ => b
  | _, None => a
  | Some x, Some y => Some (if bytes_lt (bcs_signature x) (bcs_signature y) then x else y)
  end.

Lemma sig_join_idem a : sig_join a a = a.
Proof. destruct a as [x|]; simpl; [|done]. by rewrite bytes_lt_irrefl. Qed.

Lemma sig_join_comm a b : sig_join a b = sig_join b a.
Proof.
  destruct a as [[x]|], b as [[y]|]; simpl; try done. do 2 f_equal.
  destruct (bytes_lt x y) eqn:E1.
  - by rewrite (bytes_lt_asym _ _ E1).
  - destruct (bytes_lt y x) eqn:E2; [done|]. by rewrite (bytes_lt_total _ _ E1 E2).
Qed.

Lemma sig_join_assoc a b c : sig_join a (sig_join b c) = sig_join (sig_join a b) c.
Proof.
  destruct a as [[x]|], b as [[y]|], c as [[z]|]; simpl; try done.
  destruct (bytes_lt y z) eqn:Eyz, (bytes_lt x y) eqn:Exy; simpl; rewrite ?Exy, ?Eyz; try done.
  - by rewrite (bytes_lt_trans _ _ _ Exy Eyz).
  - destruct (bytes_lt x z) eqn:Exz; [|done].
    destruct (bytes_lt z y) eqn:Ezy.
    + by rewrite (bytes_lt_trans _ _ _ Exz Ezy) in Exy.
    + rewrite (bytes_lt_total _ _ Eyz Ezy) in Exy. congruence.
Qed.

Definition is_present (s : BlockCandidateSignaturePtr) : bool := bool_decide (is_Some s).
Definition approved_flags (c : BlockCandidate) : list bool := is_present <$> approved_by c.

Lemma sig_join_present a b : is_present (sig_join a b) = is_present a || is_present b.
Proof. by destruct a, b. Qed.

Section facts.
Context {X : External}.
Implicit Types (d : SessionDescription) (c : BlockCandidate) (v : VoteCandidate).

Lemma signature_option_merge d a b : Option_merge d a b = Done (sig_join a b).
Proof.
  destruct a as [x|], b as [y|]; simpl; try done. unfold Option_merge.
  destruct (partial_eq x y) eqn:E; [|done]. apply partial_eq_sound in E as <-.
  by rewrite bytes_lt_irrefl.
Qed.

Lemma signatures_merge_ok d l r :
  length l = length r → signatures_merge d l r = Done (zip_with sig_join l r).
Proof.
  intros Hlen. unfold signatures_merge. rewrite Vector_merge_impl_items.
  - apply Vector_merge_items_pure; [|done]. intros. apply signature_option_merge.
  - intros x _. by rewrite signature_option_merge, sig_join_idem.
Qed.

Lemma flags_merge_ok d l r : length l = length r → flags_merge d l r = Done (zip_with orb l r).
Proof.
  intros Hlen. unfold flags_merge. rewrite Vector_merge_impl_items.
  - by apply Vector_merge_items_pure.
  - intros [] _; done.
Qed.

Lemma weight_loop_ext d f g nodes w :
  (∀ i, f i = g i) → weight_loop d f nodes w = weight_loop d g nodes w.
Proof.
  intros He. revert w. induction nodes as [|i nodes IH]; intros w; simpl; [done|].
  rewrite He. destruct (g i) as [[]|]; simpl; auto.
  destruct (get_node_weight d i); simpl; [|done]. by destruct (_ <=? _).
Qed.

Lemma approved_by_index c i :
  BlockCandidate_check_block_is_approved_by c i = index (approved_flags c) i.
Proof.
  unfold BlockCandidate_check_block_is_approved_by, approved_flags. rewrite Vector_at_index.
  unfold index. rewrite list_lookup_fmap. by destruct (approved_by c !! _).
Qed.

Lemma voted_by_index v i : VoteCandidate_check_block_is_voted_by v i = index (voted_by v) i.
Proof. apply Vector_at_index. Qed.

(** The approval and vote checks compare the exact weight with the cutoff. *)
Lemma check_block_is_approved_ok d c :
  desc_ok d → length (approved_by c) = length (sources d) →
  BlockCandidate_check_block_is_approved d c
  = Done (cutoff_weight d <=? flag_weight (sources d) (approved_flags c)).
Proof.
  intros Hd Hlen. unfold BlockCandidate_check_block_is_approved.
  rewrite (weight_loop_ext _ _ (index (approved_flags c))) by apply approved_by_index.
  apply weight_loop_ok; [done|]. unfold approved_flags. by rewrite length_fmap.
Qed.

Lemma check_block_is_voted_ok d v :
  desc_ok d → length (voted_by v) = length (sources d) →
  VoteCandidate_check_block_is_voted d v
  = Done (cutoff_weight d <=? flag_weight (sources d) (voted_by v)).
Proof.
  intros Hd Hlen. unfold VoteCandidate_check_block_is_voted.
  rewrite (weight_loop_ext _ _ (index (voted_by v))) by apply voted_by_index.
  by apply weight_loop_ok.
Qed.

(** [BlockCandidate_push] records the first signature of a node and keeps the
    others. *)
Lemma BlockCandidate_push_ok c (i : N) s :
  (N.to_nat i < length (approved_by c))%nat →
  BlockCandidate_push c i s = Done
    (if decide (is_Some (approved_by c !! N.to_nat i ≫= id)) then c
     else {| bc_block := bc_block c; approved_by := <[N.to_nat i := s]> (approved_by c) |}).
Proof.
  intros Hi. unfold BlockCandidate_push.
  destruct (Vector_at_lt (approved_by c) i Hi) as (a & -> & Ha). rewrite Ha. simpl.
  destruct a as [a|]; destruct (decide _) as [Hs|Hs]; try done.
  - destruct Hs. by exists a.
  - by rewrite Vector_change_lt.
Qed.

Lemma VoteCandidate_push_ok v (i : N) :
  (N.to_nat i < length (voted_by v))%nat →
  VoteCandidate_push v i = Done {| vc_block := vc_block v; voted_by := <[N.to_nat i := true]> (voted_by v) |}.
Proof.
  intros Hi. unfold VoteCandidate_push.
  destruct (Vector_at_lt (voted_by v) i Hi) as (b & -> & Hb). simpl. destruct b.
  - rewrite list_insert_id by done. by destruct v.
  - by rewrite Vector_change_lt.
Qed.

Lemma VoteCandidate_merge_ok d v1 v2 :
  VoteCandidate_get_id v1 = VoteCandidate_get_id v2 → length (voted_by v1) = length (voted_by v2) →
  merge d v1 v2 = Done {| vc_block := vc_block v1; voted_by := zip_with orb (voted_by v1) (voted_by v2) |}.
Proof.
  intros Hid Hlen. unfold merge, VoteCandidate_merge. rewrite Hid, N.eqb_refl. simpl.
  by rewrite flags_merge_ok.
Qed.

Lemma BlockCandidate_merge_ok d c1 c2 :
  BlockCandidate_get_id c1 = BlockCandidate_get_id c2 → length (approved_by c1) = length (approved_by c2) →
  merge d c1 c2 = Done {| bc_block := bc_block c1;
                          approved_by := zip_with sig_join (approved_by c1) (approved_by c2) |}.
Proof.
  intros Hid Hlen. unfold merge, BlockCandidate_merge. rewrite Hid, N.eqb_refl. simpl.
  by rewrite signatures_merge_ok.
Qed.
End facts.

Lemma zip_with_comm' {A B} (f : A → A → B) (a b : list A) :
  (∀ x y, f x y = f y x) → zip_with f a b = zip_with f b a.
Proof. intros Hf. revert b. induction a as [|x a IH]; intros [|y b]; simpl; [done..|]. by rewrite Hf, IH. Qed.

Lemma zip_with_sig_join_assoc a b c :
  zip_with sig_join (zip_with sig_join a b) c = zip_with sig_join a (zip_with sig_join b c).
Proof.
  revert b c. induction a as [|x a IH]; intros [|y b] [|z c]; simpl; try done.
  by rewrite sig_join_assoc, IH.
Qed.
