(* ===== verification/RoundAttempt.v ===== *)
(** * Voting attempts of a round

    Models [validator-session/src/round_attempt.rs]: votes, precommits and the
    vote-for proposal of one attempt, the handlers of incoming messages, the
    implicit actions of [make_one], the generation of the next own action and
    the merge of two attempts.  Log messages have no effect on the state and
    are left out; [dump], hashing and pool management are not modelled. *)

From S2P Require Import Prelude SessionDescription Vectors Candidates.

(** ** Protocol messages ([ton::Message]); TL integers are signed. *)
Inductive Message :=
| SubmittedBlock (round : Z) (root_hash file_hash collated_data_file_hash : N)
| ApprovedBlock (round : Z) (candidate : N) (signature : list N)
| RejectedBlock (round : Z) (candidate : N) (reason : list N)
| Commit (round : Z) (candidate : N) (signature : list N)
| Vote (round attempt : Z) (candidate : N)
| VoteFor (round attempt : Z) (candidate : N)
| Precommit (round attempt : Z) (candidate : N)
| Empty (round attempt : Z).

#[global] Instance Message_eq_dec : EqDecision Message.
Proof. solve_decision. Defined.

Record RoundAttemptState := {
  ra_sequence_number : N;
  votes : option (list VoteCandidate);
  precommitted : list bool;
  vote_for : option SentBlockPtr;
}.

#[global] Instance RoundAttemptState_eq_dec : EqDecision RoundAttemptState.
Proof. solve_decision. Defined.
#[global] Instance RoundAttemptState_partial_eq {X : External} : PartialEq RoundAttemptState := pool_ptr_eq.
#[global] Instance RoundAttemptState_partial_eq_sound {X : External} : PartialEqSound RoundAttemptState.
Proof. intros x y. apply ext_same_address_sound. Qed.

(** [AttemptSortingPredicate] *)
#[global, refine] Instance AttemptSortingPredicate : SortingPredicate RoundAttemptState := {|
  less := λ first second, ra_sequence_number first <? ra_sequence_number second;
  sort_key := ra_sequence_number |}.
Proof. done. Defined.

(** The methods of the [RoundState] trait that an attempt calls on its round. *)
Record RoundStateOps {X : External} := {
  op_get_sequence_number : N;
  op_get_first_attempt : N → outcome N;
  op_get_block : N → option BlockCandidate;
  op_choose_block_to_vote : SessionDescription → N → N → option SentBlockPtr →
    outcome (option SentBlockPtr);
}.

Section round_attempt.
Context {X : External}.
Implicit Types (d : SessionDescription) (self : RoundAttemptState) (round_state : RoundStateOps).

(** [for vote in self.votes.get_iter()] with an early return. *)
Definition RoundAttemptState_get_voted_block d self : outcome (option SentBlockPtr) :=
  match votes self with
  | None => Done None
  | Some _ =>
      vote ← mfind (VoteCandidate_check_block_is_voted d) (VectorWrapper_iter (votes self));
      Done (option_map vc_block vote)
  end.

Definition RoundAttemptState_check_vote_received_from self (src_idx : N) : outcome bool :=
  match votes self with
  | None => Done false
  | Some _ =>
      vote ← mfind (λ vote, VoteCandidate_check_block_is_voted_by vote src_idx)
                   (VectorWrapper_iter (votes self));
      Done (bool_decide (is_Some vote))
  end.

Definition RoundAttemptState_check_attempt_is_precommitted d self : outcome bool :=
  weight_loop d (Vector_at (precommitted self)) (node_range d) 0.

Definition RoundAttemptState_check_precommit_received_from self (src_idx : N) : outcome bool :=
  Vector_at (precommitted self) src_idx.

Definition RoundAttemptState_create_action d self round_state (src_idx attempt_id : N)
  : outcome (option Message) :=
  let round := u32_as_i32 (op_get_sequence_number round_state) in
  let attempt := u32_as_i32 (ra_sequence_number self) in
  voted ← RoundAttemptState_check_vote_received_from self src_idx;
  block_to_vote ←
    (if (voted : bool) then Done None
     else op_choose_block_to_vote round_state d src_idx attempt_id (vote_for self));
  match block_to_vote with
  | Some block => Done (Some (Vote round attempt (SentBlock_get_id block)))
  | None =>
      has_precommit ← RoundAttemptState_check_precommit_received_from self src_idx;
      voted_block ←
        (if (has_precommit : bool) then Done None else RoundAttemptState_get_voted_block d self);
      match voted_block with
      | Some block => Done (Some (Precommit round attempt (SentBlock_get_id block)))
      | None => Done (Some (Empty round attempt))
      end
  end.

(** [RoundAttemptStateImpl::get_candidate] *)
Definition RoundAttemptState_get_candidate (vs : option (list VoteCandidate)) (block_id : N)
  : option VoteCandidate :=
  snd <$> list_find (λ candidate, VoteCandidate_get_id candidate = block_id) (VectorWrapper_iter vs).

Definition RoundAttemptState_apply_vote_for_action d self (src_idx attempt_id candidate : N) round_state
  : outcome RoundAttemptState :=
  if bool_decide (is_Some (vote_for self)) then Done self else
  author ← get_vote_for_author d attempt_id;
  if negb (src_idx =? author) then Done self else
  first_attempt ← op_get_first_attempt round_state src_idx;
  let max_attempts := max_round_attempts (options d) in
  if (first_attempt =? 0) && (0 <? max_attempts) then Done self else
  if (attempt_id <? u32_add first_attempt max_attempts) && (max_attempts =? 0) then Done self else
  match op_get_block round_state candidate with
  | None => Done self
  | Some vote_for_block =>
      approved ← BlockCandidate_check_block_is_approved d vote_for_block;
      if negb approved then Done self else
      Done {| ra_sequence_number := ra_sequence_number self;
              votes := votes self;
              precommitted := precommitted self;
              vote_for := Some (bc_block vote_for_block) |}
  end.

Definition RoundAttemptState_try_vote d self (src_idx attempt_id : N) round_state
  : outcome (RoundAttemptState * bool) :=
  received ← RoundAttemptState_check_vote_received_from self src_idx;
  if (received : bool) then Done (self, false) else
  block_to_vote ← op_choose_block_to_vote round_state d src_idx attempt_id (vote_for self);
  match block_to_vote with
  | None => Done (self, false)
  | Some block_to_vote =>
      let vote_candidate :=
        match RoundAttemptState_get_candidate (votes self) (SentBlock_get_id block_to_vote) with
        | Some vote_candidate => vote_candidate
        | None => VoteCandidate_create_unvoted d block_to_vote
        end in
      vote_candidate ← VoteCandidate_push vote_candidate src_idx;
      votes' ← SortedVector_push (votes self) vote_candidate;
      Done ({| ra_sequence_number := ra_sequence_number self;
               votes := votes';
               precommitted := precommitted self;
               vote_for := vote_for self |}, true)
  end.

Definition RoundAttemptState_try_precommit d self (src_idx : N) : outcome (RoundAttemptState * bool) :=
  received ← RoundAttemptState_check_precommit_received_from self src_idx;
  if (received : bool) then Done (self, false) else
  voted_block ← RoundAttemptState_get_voted_block d self;
  match voted_block with
  | None => Done (self, false)
  | Some _ =>
      precommitted' ← Vector_change (precommitted self) src_idx true;
      Done ({| ra_sequence_number := ra_sequence_number self;
               votes := votes self;
               precommitted := precommitted';
               vote_for := vote_for self |}, true)
  end.

(** The message only decides which warning is logged. *)
Definition RoundAttemptState_apply_default_action d self (src_idx attempt_id : N) round_state
  : outcome (RoundAttemptState * bool) :=
  vote_result ← RoundAttemptState_try_vote d self src_idx attempt_id round_state;
  if (snd vote_result : bool) then Done vote_result else
  precommit_result ← RoundAttemptState_try_precommit d self src_idx;
  if (snd precommit_result : bool) then Done precommit_result else
  Done (self, false).

(** [apply_action] and [apply_action_dispatch] *)
Definition RoundAttemptState_apply_action d self (src_idx attempt_id : N) (message : Message) round_state
  : outcome RoundAttemptState :=
  match message with
  | VoteFor _ _ candidate =>
      RoundAttemptState_apply_vote_for_action d self src_idx attempt_id candidate round_state
  | Vote _ _ _ | Precommit _ _ _ | Empty _ _ =>
      res ← RoundAttemptState_apply_default_action d self src_idx attempt_id round_state;
      Done (fst res)
  | _ => Panic
  end.

Definition RoundAttemptState_make_one d self (src_idx attempt_id : N) round_state
  : outcome (RoundAttemptState * bool) :=
  RoundAttemptState_apply_default_action d self src_idx attempt_id round_state.

(** The choice of the vote-for block when two attempts are merged. *)
Definition RoundAttemptState_merge_vote_for (left right : option SentBlockPtr) : option SentBlockPtr :=
  match left, right with
  | None, _ => right
  | _, None => left
  | Some l, Some r =>
      if partial_eq left right then left
      else if SentBlock_get_id l <? SentBlock_get_id r then left else right
  end.

#[global] Instance RoundAttemptState_merge : Merge RoundAttemptState := λ d left right,
  _ ← assert_that (ra_sequence_number left =? ra_sequence_number right);
  let vote_for' := RoundAttemptState_merge_vote_for (vote_for left) (vote_for right) in
  precommitted' ← flags_merge d (precommitted left) (precommitted right);
  votes' ← SortedVectorWrapper_merge (merge d) pool_ptr_eq (votes left) (votes right);
  Done {| ra_sequence_number := ra_sequence_number left;
          votes := votes';
          precommitted := precommitted';
          vote_for := vote_for' |}.

Definition RoundAttemptState_create_empty d (sequence_number : N) : RoundAttemptState :=
  {| ra_sequence_number := sequence_number;
     votes := None;
     precommitted := replicate (N.to_nat (get_total_nodes d)) false;
     vote_for := None |}.
End round_attempt.

(** ** Facts: well-formed attempts *)
Section attempt_facts.
Context {X : External}.
Implicit Types (d : SessionDescription) (a : RoundAttemptState) (v : VoteCandidate).

Definition vote_list a : list VoteCandidate := VectorWrapper_iter (votes a).

Definition is_voted d v : bool := cutoff_weight d <=? flag_weight (sources d) (voted_by v).

(** The block of the first candidate that reached the cutoff. *)
Definition voted_block d a : option SentBlockPtr := option_map vc_block (find (is_voted d) (vote_list a)).

(** An attempt of [d]'s session whose votes and proposal are for blocks with an
    identifier in [ids], and which has a voted block once a node precommitted. *)
Record attempt_ok d (ids : N → Prop) a : Prop := {
  att_seqno : 0 < ra_sequence_number a;
  att_sorted : key_sorted (vote_list a);
  att_voted_len v : v ∈ vote_list a → length (voted_by v) = length (sources d);
  att_vote_ids v : v ∈ vote_list a → ids (VoteCandidate_get_id v);
  att_precommit_len : length (precommitted a) = length (sources d);
  att_vote_for b : vote_for a = Some b → ids (SentBlock_get_id b);
  att_precommit_voted i : precommitted a !! i = Some true → is_Some (voted_block d a);
}.

Lemma attempt_ok_mono d (ids ids' : N → Prop) a :
  (∀ k, ids k → ids' k) → attempt_ok d ids a → attempt_ok d ids' a.
Proof. intros Hids []. split; eauto. Qed.

Lemma get_voted_block_ok d ids a :
  desc_ok d → attempt_ok d ids a → RoundAttemptState_get_voted_block d a = Done (voted_block d a).
Proof.
  intros Hd Ha. unfold RoundAttemptState_get_voted_block, voted_block, vote_list.
  destruct (votes a) as [vs|] eqn:E; [|done]. simpl.
  rewrite (mfind_pure _ (is_voted d)); [done|]. intros v Hv. apply check_block_is_voted_ok; [done|].
  apply (att_voted_len _ _ _ Ha). unfold vote_list. by rewrite E.
Qed.

(** The vote of node [i] recorded in an attempt. *)
Definition voted_for (i : nat) v : bool := default false (voted_by v !! i).

Lemma check_vote_received_from_ok d ids a (i : N) :
  attempt_ok d ids a → (N.to_nat i < length (sources d))%nat →
  RoundAttemptState_check_vote_received_from a i
  = Done (bool_decide (is_Some (find (voted_for (N.to_nat i)) (vote_list a)))).
Proof.
  intros Ha Hi. unfold RoundAttemptState_check_vote_received_from, vote_list.
  destruct (votes a) as [vs|] eqn:E; [|done]. cbn [VectorWrapper_iter].
  rewrite (mfind_pure _ (voted_for (N.to_nat i))); [done|]. intros v Hv.
  rewrite voted_by_index. unfold voted_for.
  destruct (index_lt (voted_by v) i) as (b & -> & ->); [|done].
  rewrite (att_voted_len _ _ _ Ha); [done|]. unfold vote_list. by rewrite E.
Qed.

Lemma check_attempt_is_precommitted_ok d ids a :
  desc_ok d → attempt_ok d ids a →
  RoundAttemptState_check_attempt_is_precommitted d a
  = Done (cutoff_weight d <=? flag_weight (sources d) (precommitted a)).
Proof.
  intros Hd Ha. unfold RoundAttemptState_check_attempt_is_precommitted.
  rewrite (weight_loop_ext _ _ (index (precommitted a))) by apply Vector_at_index.
  apply weight_loop_ok; [done|]. by apply (att_precommit_len _ _ _ Ha).
Qed.

Lemma flag_weight_pos srcs flags :
  0 < flag_weight srcs flags → ∃ i : nat, flags !! i = Some true.
Proof.
  revert flags. induction srcs as [|s srcs IH]; intros [|[] flags]; simpl; try lia.
  - intros _. by exists 0%nat.
  - intros (i & Hi)%IH. by exists (S i).
Qed.

Lemma cutoff_pos d : desc_ok d → 0 < cutoff_weight d.
Proof. intros Hd. rewrite (desc_cutoff _ Hd). apply N.add_pos_r. lia. Qed.

(** A precommitted attempt has a voted block: the [assert!]s on it hold. *)
Lemma precommitted_voted d ids a :
  desc_ok d → attempt_ok d ids a →
  cutoff_weight d ≤ flag_weight (sources d) (precommitted a) → is_Some (voted_block d a).
Proof.
  intros Hd Ha Hc. pose proof (cutoff_pos d Hd).
  destruct (flag_weight_pos (sources d) (precommitted a)) as [i Hi]; [lia|].
  by eapply (att_precommit_voted _ _ _ Ha).
Qed.

Lemma voted_block_ids d ids a b :
  attempt_ok d ids a → voted_block d a = Some b → ids (SentBlock_get_id b).
Proof.
  unfold voted_block. intros Ha Hb. destruct (find _ _) as [v|] eqn:E; [|done].
  injection Hb as <-. apply find_Some_elem in E as [Hv _]. by apply (att_vote_ids _ _ _ Ha).
Qed.

(** Reference: the candidate for identifier [k] with the vote of node [i] added. *)
Definition add_vote d a (b : SentBlockPtr) (i : nat) : VoteCandidate :=
  let c := default (VoteCandidate_create_unvoted d b)
             (find_key (SentBlock_get_id b) (vote_list a)) in
  {| vc_block := vc_block c; voted_by := <[i := true]> (voted_by c) |}.

Lemma list_find_find_key {T} `{SortingPredicate T} (l : list T) k :
  snd <$> list_find (λ x, sort_key x = k) l = find_key k l.
Proof.
  induction l as [|x l IH]; simpl; [done|].
  destruct (sort_key x =? k) eqn:E; breflect.
  - by rewrite decide_True.
  - rewrite decide_False by done. rewrite <- IH. by destruct (list_find _ l) as [[??]|].
Qed.

Lemma get_candidate_find a k : RoundAttemptState_get_candidate (votes a) k = find_key k (vote_list a).
Proof. rewrite <- list_find_find_key. done. Qed.

Lemma add_vote_id d a b i : VoteCandidate_get_id (add_vote d a b i) = SentBlock_get_id b.
Proof.
  unfold add_vote, VoteCandidate_get_id. simpl.
  destruct (find_key _ _) as [c|] eqn:E; simpl; [|done].
  apply find_key_Some in E as [_ E]. done.
Qed.

Lemma add_vote_len d ids a b i :
  desc_ok d → attempt_ok d ids a → length (voted_by (add_vote d a b i)) = length (sources d).
Proof.
  intros Hd Ha. unfold add_vote. simpl. rewrite length_insert.
  destruct (find_key _ _) as [c|] eqn:E; simpl.
  - apply find_key_Some in E as [? _]. by apply (att_voted_len _ _ _ Ha).
  - rewrite length_replicate, total_nodes_ok by done. by rewrite Nat2N.id.
Qed.

Definition with_vote d a (b : SentBlockPtr) (i : nat) : RoundAttemptState :=
  {| ra_sequence_number := ra_sequence_number a;
     votes := Some (sorted_insert (add_vote d a b i) (vote_list a));
     precommitted := precommitted a; vote_for := vote_for a |}.

Definition with_precommit a (i : nat) : RoundAttemptState :=
  {| ra_sequence_number := ra_sequence_number a; votes := votes a;
     precommitted := <[i := true]> (precommitted a); vote_for := vote_for a |}.

Lemma vote_list_default a : vote_list a = default [] (votes a).
Proof. by destruct a as [? []]. Qed.

(** [try_vote]: exactly the three outcomes of the code. *)
Lemma try_vote_ok d ids a (i att : N) ops choice :
  desc_ok d → attempt_ok d ids a → (N.to_nat i < length (sources d))%nat →
  op_choose_block_to_vote ops d i att (vote_for a) = Done choice →
  RoundAttemptState_try_vote d a i att ops = Done
    (match find (voted_for (N.to_nat i)) (vote_list a), choice with
     | None, Some b => (with_vote d a b (N.to_nat i), true)
     | _, _ => (a, false)
     end).
Proof.
  intros Hd Ha Hi Hc. unfold RoundAttemptState_try_vote.
  rewrite (check_vote_received_from_ok d ids) by done. run.
  destruct (find (voted_for (N.to_nat i)) (vote_list a)) as [v|]; [done|].
  rewrite bool_decide_eq_false_2 by (by intros [??]). rewrite Hc. run.
  destruct choice as [b|]; [|done]. rewrite get_candidate_find.
  change (match find_key (SentBlock_get_id b) (vote_list a) with
          | Some c => c | None => VoteCandidate_create_unvoted d b end)
    with (default (VoteCandidate_create_unvoted d b) (find_key (SentBlock_get_id b) (vote_list a))).
  pose proof (add_vote_len d ids a b (N.to_nat i) Hd Ha) as Hlen. unfold add_vote in Hlen.
  simpl in Hlen. rewrite length_insert in Hlen.
  rewrite VoteCandidate_push_ok by lia. run.
  rewrite SortedVector_push_ok.
  - rewrite <- vote_list_default. done.
  - rewrite <- vote_list_default. apply (att_sorted _ _ _ Ha).
Qed.

Lemma try_precommit_ok d ids a (i : N) :
  desc_ok d → attempt_ok d ids a → (N.to_nat i < length (sources d))%nat →
  RoundAttemptState_try_precommit d a i = Done
    (if default false (precommitted a !! N.to_nat i) then (a, false)
     else match voted_block d a with
          | None => (a, false)
          | Some _ => (with_precommit a (N.to_nat i), true)
          end).
Proof.
  intros Hd Ha Hi. unfold RoundAttemptState_try_precommit, RoundAttemptState_check_precommit_received_from.
  pose proof (att_precommit_len _ _ _ Ha) as Hlen.
  destruct (Vector_at_lt (precommitted a) i) as (b & -> & Hb); [lia|]. rewrite Hb. run.
  destruct b; simpl; [done|]. rewrite (get_voted_block_ok d ids) by done. run.
  destruct (voted_block d a); [|done]. rewrite Vector_change_lt by lia. done.
Qed.
End attempt_facts.

(** ** Facts: the operations keep attempts well formed and never lose votes *)
Lemma Forall2_imp_refl (flags : list bool) : flags ≤ᶠ flags.
Proof. induction flags; constructor; auto. Qed.

#[export] Hint Resolve Forall2_imp_refl : session.

Lemma Forall2_imp_trans (a b c : list bool) :
  a ≤ᶠ b → b ≤ᶠ c →
  a ≤ᶠ c.
Proof.
  intros Hab. revert c. induction Hab; intros c Hbc; inversion Hbc; subst; constructor; auto.
Qed.

Lemma flags_insert_le (flags : list bool) i :
  flags ≤ᶠ (<[i := true]> flags).
Proof.
  revert i. induction flags as [|b flags IH]; intros [|i]; simpl; try constructor; try done; auto.
  apply Forall2_imp_refl.
Qed.

Lemma flags_orb_le_l (l r : list bool) :
  length l = length r → l ≤ᶠ (zip_with orb l r).
Proof.
  revert r. induction l as [|b l IH]; intros [|c r]; simpl; try done.
  intros [= Hlen]. constructor; [by destruct b|auto].
Qed.

Lemma flags_orb_le_r (l r : list bool) :
  length l = length r → r ≤ᶠ (zip_with orb l r).
Proof.
  revert r. induction l as [|b l IH]; intros [|c r]; simpl; try done.
  intros [= Hlen]. constructor; [by destruct b, c|auto].
Qed.

Section attempt_preserve.
Context {X : External}.
Implicit Types (d : SessionDescription) (a : RoundAttemptState) (v : VoteCandidate).

(** [a'] has at least the votes of [a]. *)
Definition votes_grow a a' : Prop :=
  ∀ v, v ∈ vote_list a → ∃ v', v' ∈ vote_list a' ∧ VoteCandidate_get_id v' = VoteCandidate_get_id v ∧
    (voted_by v) ≤ᶠ (voted_by v').

Lemma votes_grow_refl a : votes_grow a a.
Proof. intros v Hv. exists v. auto with session. Qed.

#[local] Hint Resolve votes_grow_refl : session.

Lemma votes_grow_voted d a a' :
  votes_grow a a' → is_Some (voted_block d a) → is_Some (voted_block d a').
Proof.
  unfold voted_block. intros Hg [b Hb]. destruct (find (is_voted d) (vote_list a)) as [v|] eqn:E; [|done].
  apply find_Some_elem in E as [Hv Hw]. destruct (Hg v Hv) as (v' & Hv' & _ & Hle).
  destruct (find_is_Some (is_voted d) (vote_list a') v') as [u ->]; [done| |by eexists].
  unfold is_voted in *. apply N.leb_le in Hw. apply N.leb_le.
  pose proof (flag_weight_mono (sources d) _ _ Hle). lia.
Qed.

Lemma with_vote_grow d ids a b i : attempt_ok d ids a → votes_grow a (with_vote d a b i).
Proof.
  intros Ha v Hv. unfold with_vote, vote_list at 1. simpl.
  destruct (decide (VoteCandidate_get_id v = SentBlock_get_id b)) as [Hid|Hid].
  - exists (add_vote d a b i). split; [apply elem_of_sorted_insert_self|].
    split; [by rewrite add_vote_id|]. unfold add_vote. rewrite <- Hid.
    pose proof (find_key_elem (vote_list a) v (att_sorted _ _ _ Ha) Hv) as Hf. simpl in Hf.
    rewrite Hf. simpl. apply flags_insert_le.
  - exists v. split; [|auto with session]. apply elem_of_sorted_insert_other; [done|].
    simpl. by rewrite add_vote_id.
Qed.

Lemma with_vote_ok d (ids : N → Prop) a b i :
  desc_ok d → attempt_ok d ids a → ids (SentBlock_get_id b) → attempt_ok d ids (with_vote d a b i).
Proof.
  intros Hd Ha Hb. pose proof (with_vote_grow d ids a b i Ha) as Hg.
  split; unfold vote_list, with_vote in *; simpl in *.
  - apply (att_seqno _ _ _ Ha).
  - apply sorted_insert_sorted, (att_sorted _ _ _ Ha).
  - intros v [->|Hv]%elem_of_sorted_insert; [by eapply add_vote_len|by apply (att_voted_len _ _ _ Ha)].
  - intros v [->|Hv]%elem_of_sorted_insert; [by rewrite add_vote_id|by apply (att_vote_ids _ _ _ Ha)].
  - apply (att_precommit_len _ _ _ Ha).
  - apply (att_vote_for _ _ _ Ha).
  - intros j Hj. eapply votes_grow_voted; [done|]. by eapply (att_precommit_voted _ _ _ Ha).
Qed.

Lemma with_precommit_ok d ids a i :
  attempt_ok d ids a → is_Some (voted_block d a) → attempt_ok d ids (with_precommit a i).
Proof.
  intros [] Hv. split; unfold with_precommit; simpl; try done. by rewrite length_insert.
Qed.

(** The three results of the default action (vote, precommit, nothing). *)
Lemma apply_default_action_ok d (ids : N → Prop) a (i att : N) ops choice :
  desc_ok d → attempt_ok d ids a → (N.to_nat i < length (sources d))%nat →
  op_choose_block_to_vote ops d i att (vote_for a) = Done choice →
  (∀ b, choice = Some b → ids (SentBlock_get_id b)) →
  ∃ a' made, RoundAttemptState_apply_default_action d a i att ops = Done (a', made) ∧
    attempt_ok d ids a' ∧ ra_sequence_number a' = ra_sequence_number a ∧ votes_grow a a' ∧
    (made = false → a' = a).
Proof.
  intros Hd Ha Hi Hc Hids. unfold RoundAttemptState_apply_default_action.
  rewrite (try_vote_ok d ids a i att ops choice) by done. run.
  assert (Hp : ∃ a' made, (precommit_result ← RoundAttemptState_try_precommit d a i;
      if (snd precommit_result : bool) then Done precommit_result else Done (a, false)) = Done (a', made) ∧
      attempt_ok d ids a' ∧ ra_sequence_number a' = ra_sequence_number a ∧ votes_grow a a' ∧
      (made = false → a' = a)).
  { rewrite (try_precommit_ok d ids) by done. run.
    destruct (default false _); simpl; [eauto 10 with session|].
    destruct (voted_block d a) eqn:Ev; simpl; [|eauto 10 with session].
    exists (with_precommit a (N.to_nat i)), true. split; [done|]. split; [|split; [done|]].
    - apply with_precommit_ok; eauto.
    - split; [exact (votes_grow_refl a)|done]. }
  destruct (find _ _) as [v|]; simpl; [done|]. destruct choice as [b|]; simpl; [|done].
  exists (with_vote d a b (N.to_nat i)), true. split; [done|].
  split; [apply with_vote_ok; auto|]. split; [done|]. split; [by eapply with_vote_grow|done].
Qed.

(** A vote-for proposal is stored only for an approved block of the round. *)
Lemma apply_vote_for_action_ok d (ids : N → Prop) a (i att cand : N) ops first :
  desc_ok d → attempt_ok d ids a → (N.to_nat i < length (sources d))%nat →
  op_get_first_attempt ops i = Done first →
  (∀ c, op_get_block ops cand = Some c →
     length (approved_by c) = length (sources d) ∧ ids (SentBlock_get_id (bc_block c))) →
  ∃ a', RoundAttemptState_apply_vote_for_action d a i att cand ops = Done a' ∧
    attempt_ok d ids a' ∧ ra_sequence_number a' = ra_sequence_number a ∧ votes_grow a a'.
Proof.
  intros Hd Ha Hi Hf Hb. unfold RoundAttemptState_apply_vote_for_action, get_vote_for_author.
  pose proof (total_nodes_bounds d Hd). destruct (get_total_nodes d =? 0) eqn:En; breflect; [lia|].
  rewrite Hf. run.
  destruct (op_get_block ops cand) as [c|] eqn:Ec.
  - destruct (Hb c eq_refl) as [Hlen Hid].
    rewrite (check_block_is_approved_ok d c Hd Hlen). run.
    repeat case_match; eauto 10 with session. eexists. split; [done|].
    split; [|split; [done|exact (votes_grow_refl a)]].
    destruct Ha. split; simpl; try done. by intros b [= <-].
  - repeat case_match; eauto 10 with session.
Qed.
End attempt_preserve.
#[export] Hint Resolve votes_grow_refl : session.

(** ** Facts: merging attempts *)
Section attempt_merge.
Context {X : External}.
Implicit Types (d : SessionDescription) (a l r : RoundAttemptState) (v : VoteCandidate).

Lemma zip_with_orb_idem (flags : list bool) : zip_with orb flags flags = flags.
Proof. induction flags as [|[] flags IH]; simpl; by rewrite ?IH. Qed.

Lemma VoteCandidate_merge_idem d v : merge d v v = Done v.
Proof. rewrite VoteCandidate_merge_ok by done. rewrite zip_with_orb_idem. by destruct v. Qed.

Lemma VoteCandidate_merge_keeps_key d : keeps_key (merge (T := VoteCandidate) d).
Proof.
  intros x y z Hm _. unfold merge, VoteCandidate_merge in Hm. repeat outcome_step Hm. done.
Qed.

Lemma pool_ptr_eq_sound {T} `{EqDecision T} (x y : T) : pool_ptr_eq x y = true → x = y.
Proof. apply ext_same_address_sound. Qed.

(** The merged wrapper holds the merged items. *)
Lemma wrapper_merge_inv {T} `{SortingPredicate T} `{PartialEqSound T} `{EqDecision T} f (wl wr : option (list T)) m :
  (∀ x, x ∈ default [] wl → f x x = Done x) →
  SortedVector_merge_items f (default [] wl) (default [] wr) = Done m →
  ∃ w, SortedVectorWrapper_merge f pool_ptr_eq wl wr = Done w ∧ default [] w = m.
Proof.
  intros Hid Hm. rewrite <- (SortedVectorWrapper_merge_items f pool_ptr_eq wl wr) in Hm; [|apply pool_ptr_eq_sound|done].
  destruct (SortedVectorWrapper_merge f pool_ptr_eq wl wr) as [w|]; [|done]. injection Hm as <-. eauto.
Qed.

(** Merging the votes of two attempts: total, sorted, nothing is lost, and
    every merged candidate comes from the candidates with its identifier. *)
Lemma votes_merge_ok d (idsl idsr : N → Prop) l r :
  attempt_ok d idsl l → attempt_ok d idsr r →
  ∃ w, SortedVectorWrapper_merge (merge d) pool_ptr_eq (votes l) (votes r) = Done w ∧
    key_sorted (default [] w) ∧
    (∀ k, merged_key (merge d) (find_key k (vote_list l)) (find_key k (vote_list r)) (find_key k (default [] w))).
Proof.
  intros Hl Hr.
  destruct (merge_items_total (merge d) (vote_list l) (vote_list r)) as [m Hm].
  { intros x y Hx Hy Hk. eexists. apply VoteCandidate_merge_ok; [done|].
    by rewrite (att_voted_len _ _ _ Hl x Hx), (att_voted_len _ _ _ Hr y Hy). }
  rewrite !vote_list_default in Hm |- *.
  destruct (wrapper_merge_inv (merge d) (votes l) (votes r) m) as (w & -> & <-); [|done|].
  { intros. apply VoteCandidate_merge_idem. }
  pose proof (att_sorted _ _ _ Hl) as Hsl. pose proof (att_sorted _ _ _ Hr) as Hsr.
  rewrite vote_list_default in Hsl, Hsr.
  exists w. split; [done|]. split.
  - eapply merge_items_sorted; [..|exact Hm]; [apply VoteCandidate_merge_keeps_key|done..].
  - intros k. eapply merge_items_find; [..|exact Hm]; [apply VoteCandidate_merge_keeps_key|done..].
Qed.

(** What a merged vote candidate is made of. *)
Lemma merged_vote d (idsl idsr : N → Prop) l r k v :
  attempt_ok d idsl l → attempt_ok d idsr r →
  merged_key (merge d) (find_key k (vote_list l)) (find_key k (vote_list r)) (Some v) →
  length (voted_by v) = length (sources d) ∧ VoteCandidate_get_id v = k ∧ (idsl k ∨ idsr k) ∧
  (∀ u, find_key k (vote_list l) = Some u → (voted_by u) ≤ᶠ (voted_by v)) ∧
  (∀ u, find_key k (vote_list r) = Some u → (voted_by u) ≤ᶠ (voted_by v)).
Proof.
  intros Hl Hr Hm. inversion Hm as [|x Hx Hy|y Hx Hy|x y z Hf Hx Hy]; subst.
  - pose proof (find_key_Some _ _ _ (eq_sym Hx)) as [Hin <-].
    split; [by apply (att_voted_len _ _ _ Hl)|]. split; [done|].
    split; [left; by apply (att_vote_ids _ _ _ Hl)|]. split; [|done].
    intros u [= <-]. apply Forall2_imp_refl.
  - pose proof (find_key_Some _ _ _ (eq_sym Hy)) as [Hin <-].
    split; [by apply (att_voted_len _ _ _ Hr)|]. split; [done|].
    split; [right; by apply (att_vote_ids _ _ _ Hr)|]. split; [done|].
    intros u [= <-]. apply Forall2_imp_refl.
  - pose proof (find_key_Some _ _ _ (eq_sym Hx)) as [Hinx Hkx].
    pose proof (find_key_Some _ _ _ (eq_sym Hy)) as [Hiny Hky].
    pose proof (att_voted_len _ _ _ Hl _ Hinx) as Hlx. pose proof (att_voted_len _ _ _ Hr _ Hiny) as Hly.
    rewrite VoteCandidate_merge_ok in Hf; [|by simpl in *; congruence|congruence].
    injection Hf as <-. simpl. split; [rewrite length_zip_with; lia|]. split; [done|].
    split; [left; rewrite <- Hkx; by apply (att_vote_ids _ _ _ Hl)|].
    split; intros u [= <-]; [apply flags_orb_le_l | apply flags_orb_le_r]; congruence.
Qed.

Lemma merge_vote_for_cases (l r : option SentBlockPtr) b :
  RoundAttemptState_merge_vote_for l r = Some b → l = Some b ∨ r = Some b.
Proof. unfold RoundAttemptState_merge_vote_for. repeat case_match; naive_solver. Qed.

Lemma attempt_merge_ok d (idsl idsr : N → Prop) l r :
  desc_ok d → attempt_ok d idsl l → attempt_ok d idsr r →
  ra_sequence_number l = ra_sequence_number r →
  ∃ m, merge d l r = Done m ∧ attempt_ok d (λ k, idsl k ∨ idsr k) m ∧
    ra_sequence_number m = ra_sequence_number l ∧ votes_grow l m ∧ votes_grow r m.
Proof.
  intros Hd Hl Hr Hs. unfold merge, RoundAttemptState_merge. rewrite Hs, N.eqb_refl. cbn [assert_that mbind outcome_bind].
  pose proof (att_precommit_len _ _ _ Hl) as Hpl. pose proof (att_precommit_len _ _ _ Hr) as Hpr.
  rewrite flags_merge_ok by congruence. run.
  destruct (votes_merge_ok d idsl idsr l r Hl Hr) as (w & -> & Hsw & Hw). run.
  set (m := {| ra_sequence_number := _; votes := w; precommitted := _; vote_for := _ |}).
  assert (Hvm : vote_list m = default [] w) by apply vote_list_default.
  assert (Hall : ∀ v, v ∈ vote_list m → merged_key (merge d) (find_key (VoteCandidate_get_id v) (vote_list l))
    (find_key (VoteCandidate_get_id v) (vote_list r)) (Some v)).
  { intros v Hv. rewrite Hvm in Hv. specialize (Hw (VoteCandidate_get_id v)).
    pose proof (find_key_elem (default [] w) v Hsw Hv) as Hf. simpl in Hf. by rewrite Hf in Hw. }
  assert (Hgrow : ∀ k u, find_key k (vote_list l) = Some u ∨ find_key k (vote_list r) = Some u →
    ∃ v', v' ∈ vote_list m ∧ VoteCandidate_get_id v' = k ∧
      (voted_by u) ≤ᶠ (voted_by v')).
  { intros k u Hu. specialize (Hw k). destruct (find_key k (default [] w)) as [v'|] eqn:Ev.
    - pose proof (find_key_Some _ _ _ Ev) as [Hin Hk]. destruct (merged_vote d idsl idsr l r k v' Hl Hr Hw) as (_ & _ & _ & H1 & H2).
      exists v'. rewrite Hvm. split; [done|]. split; [done|]. destruct Hu; auto.
    - inversion Hw; destruct Hu; congruence. }
  assert (Hgl : votes_grow l m).
  { intros u Hu. apply (find_key_elem (vote_list l) u (att_sorted _ _ _ Hl)) in Hu. simpl in Hu. eauto. }
  assert (Hgr : votes_grow r m).
  { intros u Hu. apply (find_key_elem (vote_list r) u (att_sorted _ _ _ Hr)) in Hu. simpl in Hu. eauto. }
  exists m. split; [done|]. split; [|done]. split.
  - apply (att_seqno _ _ _ Hr).
  - by rewrite Hvm.
  - intros v Hv. by destruct (merged_vote d idsl idsr l r _ _ Hl Hr (Hall v Hv)) as (? & _).
  - intros v Hv. by destruct (merged_vote d idsl idsr l r _ _ Hl Hr (Hall v Hv)) as (_ & _ & ? & _).
  - simpl. rewrite length_zip_with. lia.
  - intros b [Hb|Hb]%merge_vote_for_cases; [left; by apply (att_vote_for _ _ _ Hl)|right; by apply (att_vote_for _ _ _ Hr)].
  - simpl. intros i Hi. apply lookup_zip_with_Some in Hi as (b1 & b2 & Hb & H1 & H2).
    destruct b1, b2; try done; [eapply votes_grow_voted; [apply Hgl|]..|eapply votes_grow_voted; [apply Hgr|]];
      by (eapply (att_precommit_voted _ _ _ Hl) || eapply (att_precommit_voted _ _ _ Hr)).
Qed.
End attempt_merge.

(** ** Facts: a node votes and precommits at most once in an attempt *)
Section attempt_progress.
Context {X : External}.
Implicit Types (d : SessionDescription) (a : RoundAttemptState) (v : VoteCandidate).

Definition has_vote a (i : nat) : bool := bool_decide (is_Some (find (voted_for i) (vote_list a))).
Definition has_precommit a (i : nat) : bool := default false (precommitted a !! i).

(** What node [i] may still do in the attempt. *)
Definition attempt_todo a (i : nat) : nat :=
  (if has_vote a i then 0 else 1) + (if has_precommit a i then 0 else 1).

Lemma has_vote_elem a i v : v ∈ vote_list a → voted_for i v = true → has_vote a i = true.
Proof. intros. apply bool_decide_eq_true_2. by eapply find_is_Some. Qed.

Lemma with_vote_has_vote d ids a b i :
  desc_ok d → attempt_ok d ids a → (i < length (sources d))%nat → has_vote (with_vote d a b i) i = true.
Proof.
  intros Hd Ha Hi. apply (has_vote_elem _ _ (add_vote d a b i)); [apply elem_of_sorted_insert_self|].
  unfold voted_for, add_vote. simpl. rewrite list_lookup_insert_eq; [done|].
  pose proof (add_vote_len d ids a b i Hd Ha) as Hl. unfold add_vote in Hl. simpl in Hl.
  rewrite length_insert in Hl. lia.
Qed.

Lemma with_precommit_has_precommit a i :
  (i < length (precommitted a))%nat → has_precommit (with_precommit a i) i = true.
Proof. intros Hi. unfold has_precommit. simpl. by rewrite list_lookup_insert_eq. Qed.

(** Every change made by the default action uses up one of the two. *)
Lemma apply_default_action_todo d (ids : N → Prop) a (i att : N) ops choice a' :
  desc_ok d → attempt_ok d ids a → (N.to_nat i < length (sources d))%nat →
  op_choose_block_to_vote ops d i att (vote_for a) = Done choice →
  RoundAttemptState_apply_default_action d a i att ops = Done (a', true) →
  (attempt_todo a' (N.to_nat i) < attempt_todo a (N.to_nat i))%nat.
Proof.
  intros Hd Ha Hi Hc. unfold RoundAttemptState_apply_default_action.
  rewrite (try_vote_ok d ids a i att ops choice) by done. run.
  pose proof (att_precommit_len _ _ _ Ha) as Hlen.
  assert (Hp : (precommit_result ← RoundAttemptState_try_precommit d a i;
      if (snd precommit_result : bool) then Done precommit_result else Done (a, false)) = Done (a', true) →
      (attempt_todo a' (N.to_nat i) < attempt_todo a (N.to_nat i))%nat).
  { rewrite (try_precommit_ok d ids) by done. run.
    destruct (default false _) eqn:E; simpl; [done|]. destruct (voted_block d a); simpl; [|done].
    intros [= <-]. unfold attempt_todo. rewrite with_precommit_has_precommit by lia.
    change (has_vote (with_precommit a (N.to_nat i))) with (has_vote a).
    unfold has_precommit. rewrite E. lia. }
  destruct (find _ _) as [v|] eqn:Ef; simpl; [done|]. destruct choice as [b|]; simpl; [|done].
  intros [= <-]. unfold attempt_todo. rewrite (with_vote_has_vote d ids) by done.
  change (has_precommit (with_vote d a b (N.to_nat i))) with (has_precommit a).
  unfold has_vote. rewrite Ef. simpl. lia.
Qed.
End attempt_progress.
