(* ===== verification/Round.v ===== *)
(** * The current round of a validator session

    Models [validator-session/src/round.rs]: the candidates sent for approval,
    the attempts, the precommitted block and its commit signatures, the choice
    of blocks to approve, vote for and sign, the handlers of incoming messages,
    the implicit actions of [make_one] and the merge of two round states. *)

From S2P Require Import Prelude SessionDescription Vectors Candidates RoundAttempt.

Record RoundState := {
  precommitted_block : option SentBlockPtr;
  rs_sequence_number : N;
  first_attempt : option (list N);
  last_precommit : option (list N);
  sent_blocks : option (list BlockCandidate);
  rs_signatures : BlockCandidateSignatureVectorPtr;
  attempts : option (list RoundAttemptState);
}.

#[global] Instance RoundState_eq_dec : EqDecision RoundState.
Proof. solve_decision. Defined.

(** Field updates, one per field [Self::create] is called with a new value for. *)
Definition with_first_attempt (r : RoundState) v := {|
  precommitted_block := precommitted_block r; rs_sequence_number := rs_sequence_number r;
  first_attempt := v; last_precommit := last_precommit r; sent_blocks := sent_blocks r;
  rs_signatures := rs_signatures r; attempts := attempts r |}.
Definition with_sent_blocks (r : RoundState) v := {|
  precommitted_block := precommitted_block r; rs_sequence_number := rs_sequence_number r;
  first_attempt := first_attempt r; last_precommit := last_precommit r; sent_blocks := v;
  rs_signatures := rs_signatures r; attempts := attempts r |}.
Definition with_signatures (r : RoundState) v := {|
  precommitted_block := precommitted_block r; rs_sequence_number := rs_sequence_number r;
  first_attempt := first_attempt r; last_precommit := last_precommit r; sent_blocks := sent_blocks r;
  rs_signatures := v; attempts := attempts r |}.
Definition with_attempts (r : RoundState) v := {|
  precommitted_block := precommitted_block r; rs_sequence_number := rs_sequence_number r;
  first_attempt := first_attempt r; last_precommit := last_precommit r; sent_blocks := sent_blocks r;
  rs_signatures := rs_signatures r; attempts := v |}.

Section round.
Context {X : External}.
Implicit Types (d : SessionDescription) (self : RoundState).

(** ** Accessors *)
Definition RoundState_get_first_attempt self (src_idx : N) : outcome N :=
  VectorWrapper_at (first_attempt self) src_idx.

Definition RoundState_get_last_precommit self (src_idx : N) : outcome N :=
  VectorWrapper_at (last_precommit self) src_idx.

(** [get_candidate] and [get_block] *)
Definition RoundState_get_candidate self (block_id : N) : option BlockCandidate :=
  candidates ← sent_blocks self;
  snd <$> list_find (λ block_candidate, BlockCandidate_get_id block_candidate = block_id) candidates.

Definition RoundState_get_block self (block_id : N) : option BlockCandidate :=
  match sent_blocks self with
  | Some _ => RoundState_get_candidate self block_id
  | None => None
  end.

Definition RoundState_check_block_is_sent_by self (src_idx : N) : bool :=
  match sent_blocks self with
  | None => false
  | Some candidates =>
      existsb (λ block_candidate,
        match bc_block block_candidate with
        | Some sent_block => sb_source_id sent_block =? src_idx
        | None => false
        end) candidates
  end.

(** [RoundStateImpl::get_attempt]: binary search on the attempt number. *)
Definition RoundState_get_attempt (attempts_opt : option (list RoundAttemptState)) (attempt_id : N)
  : outcome (option RoundAttemptState) :=
  match attempts_opt with
  | None => Done None
  | Some attempts =>
      found ← binary_search (length attempts)
                (λ current, ra_sequence_number current <? attempt_id)
                (λ current, attempt_id <? ra_sequence_number current)
                attempts (-1) (Z.of_nat (length attempts));
      match found with
      | inl middle => current_attempt ← index attempts middle; Done (Some current_attempt)
      | inr _ => Done None
      end
  end.

(** ** Approval *)
Definition RoundState_get_block_approvers d self (block_id : N) : outcome (list N) :=
  match RoundState_get_candidate self block_id with
  | None => Done []
  | Some block => mfilter (BlockCandidate_check_block_is_approved_by block) (node_range d)
  end.

Definition RoundState_get_blocks_approved_by self (src_idx : N) : outcome (list SentBlockPtr) :=
  match sent_blocks self with
  | None => Done []
  | Some candidates =>
      approved ← mfilter (λ c, BlockCandidate_check_block_is_approved_by c src_idx) candidates;
      Done (map bc_block approved)
  end.

Definition RoundState_check_block_is_approved_by self (src_idx block_id : N) : outcome bool :=
  match sent_blocks self with
  | None => Done false
  | Some candidates =>
      match snd <$> list_find (λ c, BlockCandidate_get_id c = block_id) candidates with
      | Some block_candidate => BlockCandidate_check_block_is_approved_by block_candidate src_idx
      | None => Done false
      end
  end.

(** One iteration of the ranking loop of [choose_blocks_to_approve]: the ranked
    candidates, the sources already seen, and the [was_empty] flag. *)
Definition RoundState_rank_candidate d self (src_idx : N)
  (acc : list (option BlockCandidate) * gset N * bool) (block_candidate : BlockCandidate)
  : outcome (list (option BlockCandidate) * gset N * bool) :=
  let '(block_candidates, sources_proposal_set, was_empty) := acc in
  match bc_block block_candidate with
  | None =>
      approved ← BlockCandidate_check_block_is_approved_by block_candidate src_idx;
      Done (block_candidates, sources_proposal_set, approved)
  | Some _ =>
      let block_source_index := BlockCandidate_get_source_index block_candidate in
      priority ← get_node_priority d block_source_index (rs_sequence_number self);
      _ ← assert_that (0 <=? priority)%Z;
      let priority := Z.to_N priority in
      if bool_decide (block_source_index ∈ sources_proposal_set) then
        ranked ← set_index block_candidates priority None;
        Done (ranked, sources_proposal_set, was_empty)
      else
        let seen := {[block_source_index]} ∪ sources_proposal_set in
        approved ← BlockCandidate_check_block_is_approved_by block_candidate src_idx;
        if (approved : bool) then Done (block_candidates, seen, was_empty) else
        ranked ← set_index block_candidates priority (Some block_candidate);
        Done (ranked, seen, was_empty)
  end.

Definition RoundState_choose_blocks_to_approve d self (src_idx : N) : outcome (list SentBlockPtr) :=
  match sent_blocks self with
  | None => Done [None]
  | Some candidates =>
      res ← mfoldl (RoundState_rank_candidate d self src_idx)
              (replicate (N.to_nat (u32_add (get_max_priority d) 2)) None, ∅, false) candidates;
      let '(block_candidates, _, was_empty) := res in
      let blocks := bc_block <$> omap id block_candidates in
      Done (if (was_empty : bool) then blocks else blocks ++ [None])
  end.

(** ** Voting *)
Definition RoundState_check_need_generate_vote_for d self (src_idx attempt_id : N) : outcome bool :=
  author ← get_vote_for_author d attempt_id;
  if negb (src_idx =? author) then Done false else
  if bool_decide (is_Some (precommitted_block self)) then Done false else
  first ← RoundState_get_first_attempt self src_idx;
  let max_attempts := max_round_attempts (options d) in
  if (first =? 0) && (0 <? max_attempts) then Done false else
  if (attempt_id <? u32_add first max_attempts) && (0 <? max_attempts) then Done false else
  attempt ← RoundState_get_attempt (attempts self) attempt_id;
  if bool_decide (is_Some (match attempt with Some a => vote_for a | None => None end))
  then Done false else
  match sent_blocks self with
  | None => Done false
  | Some candidates =>
      block ← mfind (BlockCandidate_check_block_is_approved d) candidates;
      Done (bool_decide (is_Some block))
  end.

(** One iteration of the search for the approved block with minimal priority. *)
Definition RoundState_min_priority_step d self (acc : Z * option SentBlockPtr)
  (block_candidate : BlockCandidate) : outcome (Z * option SentBlockPtr) :=
  let '(min_priority, block) := acc in
  approved ← BlockCandidate_check_block_is_approved d block_candidate;
  if negb approved then Done acc else
  priority ←
    match bc_block block_candidate with
    | Some _ => get_node_priority d (BlockCandidate_get_source_index block_candidate) (rs_sequence_number self)
    | None => Done (u32_as_i32 (u32_add (get_max_priority d) 1))
    end;
  _ ← assert_that (0 <=? priority)%Z;
  if (priority <? min_priority)%Z then Done (priority, Some (bc_block block_candidate)) else Done acc.

(** The voted block of the newest attempt that has one. *)
Fixpoint RoundState_last_voted_block d (newest_first : list RoundAttemptState)
  : outcome (option SentBlockPtr) :=
  match newest_first with
  | [] => Done None
  | attempt :: rest =>
      block ← RoundAttemptState_get_voted_block d attempt;
      match block with
      | Some b => Done (Some b)
      | None => RoundState_last_voted_block d rest
      end
  end.

Definition RoundState_choose_block_to_vote d self (src_idx attempt_id : N) (vote_for : option SentBlockPtr)
  : outcome (option SentBlockPtr) :=
  match sent_blocks self with
  | None => Done None
  | Some candidates =>
      last_precommit_attempt_id ← VectorWrapper_at (last_precommit self) src_idx;
      if 0 <? last_precommit_attempt_id then
        attempt ← RoundState_get_attempt (attempts self) last_precommit_attempt_id;
        attempt ← unwrap attempt;
        block ← RoundAttemptState_get_voted_block d attempt;
        _ ← assert_that (bool_decide (is_Some block));
        Done block
      else
        first_attempt_id ← VectorWrapper_at (first_attempt self) src_idx;
        let max_attempts := max_round_attempts (options d) in
        let slow_mode := ((0 <? first_attempt_id) && (u32_add first_attempt_id max_attempts <=? attempt_id))
                         || (max_attempts =? 0) in
        if slow_mode then Done vote_for else
        voted ← RoundState_last_voted_block d (rev (VectorWrapper_iter (attempts self)));
        match voted with
        | Some block => Done (Some block)
        | None =>
            let max_priority := u32_as_i32 (u32_add (get_max_priority d) 2) in
            res ← mfoldl (RoundState_min_priority_step d self) (max_priority, None) candidates;
            if (max_priority <=? fst res)%Z then Done None else Done (snd res)
        end
  end.

(** [random] is the value drawn from the thread's generator. *)
Definition RoundState_generate_vote_for d self (src_idx attempt_id random : N) : outcome Message :=
  author ← get_vote_for_author d attempt_id;
  _ ← assert_that (src_idx =? author);
  approved ← mfilter (BlockCandidate_check_block_is_approved d) (VectorWrapper_iter (sent_blocks self));
  let candidate_block_ids := BlockCandidate_get_id <$> approved in
  _ ← assert_that (0 <? N.of_nat (length candidate_block_ids));
  candidate ← index candidate_block_ids (random mod N.of_nat (length candidate_block_ids));
  Done (VoteFor (u32_as_i32 (rs_sequence_number self)) (u32_as_i32 attempt_id) candidate).

(** The round as the trait object its attempts call back into. *)
Definition RoundState_ops self : RoundStateOps := {|
  op_get_sequence_number := rs_sequence_number self;
  op_get_first_attempt := RoundState_get_first_attempt self;
  op_get_block := RoundState_get_block self;
  op_choose_block_to_vote := λ d, RoundState_choose_block_to_vote d self |}.

(** ** Commit *)
Definition RoundState_check_block_is_signed d self : outcome bool :=
  weight_loop d (λ i, s ← Vector_at (rs_signatures self) i; Done (bool_decide (is_Some s))) (node_range d) 0.

Definition RoundState_check_block_is_signed_by self (src_idx : N) : outcome bool :=
  s ← Vector_at (rs_signatures self) src_idx; Done (bool_decide (is_Some s)).

Definition RoundState_choose_block_to_sign self : option SentBlockPtr := precommitted_block self.

(** ** Generation of the next own action *)
Definition RoundState_create_action d self (src_idx attempt_id : N) : outcome (option Message) :=
  let round := u32_as_i32 (rs_sequence_number self) in
  let attempt_no := u32_as_i32 attempt_id in
  if bool_decide (is_Some (precommitted_block self)) then Done (Some (Empty round attempt_no)) else
  attempt ← RoundState_get_attempt (attempts self) attempt_id;
  match attempt with
  | Some attempt => RoundAttemptState_create_action d attempt (RoundState_ops self) src_idx attempt_id
  | None =>
      vote_candidate ← RoundState_choose_block_to_vote d self src_idx attempt_id None;
      match vote_candidate with
      | Some block => Done (Some (Vote round attempt_no (SentBlock_get_id block)))
      | None => Done (Some (Empty round attempt_no))
      end
  end.
End round.

(** ** Message handlers *)
Section handlers.
Context {X : External}.
Implicit Types (d : SessionDescription) (self : RoundState).

Definition RoundState_apply_submitted_block_action d self (src_idx : N)
  (root_hash file_hash collated_data_file_hash : N) : outcome RoundState :=
  priority ← get_node_priority d src_idx (rs_sequence_number self);
  if (priority <? 0)%Z then Done self else
  if RoundState_check_block_is_sent_by self src_idx then Done self else
  sent_block ← SentBlock_create d src_idx root_hash file_hash collated_data_file_hash;
  let block_candidate := BlockCandidate_create_unapproved d sent_block in
  new_sent_blocks ← SortedVector_push (sent_blocks self) block_candidate;
  Done (with_sent_blocks self new_sent_blocks).

(** The check of an approval signature: the skip candidate is unsigned. *)
Definition RoundState_check_approval d (candidate : N) (sent_block : option BlockCandidate)
  (src_idx : N) (signature : list N) : outcome bool :=
  if negb (candidate =? SKIP_ROUND_CANDIDATE_BLOCKID) then
    candidate_ptr ← unwrap sent_block;
    block ← unwrap (bc_block candidate_ptr);
    check_approve_signature d (sb_root_hash block) (sb_file_hash block) src_idx signature
  else Done (length signature =? 0)%nat.

(** A candidate of the same source already approved by [src_idx]. *)
Definition RoundState_same_source_approved self (source_index src_idx : N) : outcome bool :=
  found ← mfind (λ c, if BlockCandidate_get_source_index c =? source_index
                      then BlockCandidate_check_block_is_approved_by c src_idx else Done false)
                (VectorWrapper_iter (sent_blocks self));
  Done (bool_decide (is_Some found)).

Definition RoundState_apply_approved_block_action d self (src_idx candidate : N) (signature : list N)
  : outcome RoundState :=
  let sent_block := RoundState_get_block self candidate in
  if negb (candidate =? SKIP_ROUND_CANDIDATE_BLOCKID) && bool_decide (sent_block = None) then Done self else
  duplicate ← match sent_block with
              | Some c => BlockCandidate_check_block_is_approved_by c src_idx
              | None => Done false
              end;
  if (duplicate : bool) then Done self else
  conflict ← (if negb (candidate =? SKIP_ROUND_CANDIDATE_BLOCKID) then
                c ← unwrap sent_block;
                RoundState_same_source_approved self (BlockCandidate_get_source_index c) src_idx
              else Done false);
  if (conflict : bool) then Done self else
  valid ← RoundState_check_approval d candidate sent_block src_idx signature;
  if negb valid then Done self else
  block_candidate ← match sent_block with
                    | Some c => Done c
                    | None =>
                        _ ← assert_that (candidate =? SKIP_ROUND_CANDIDATE_BLOCKID);
                        Done (BlockCandidate_create_unapproved d None)
                    end;
  block_candidate ← BlockCandidate_push block_candidate src_idx (BlockCandidateSignature_create signature);
  new_sent_blocks ← SortedVector_push (sent_blocks self) block_candidate;
  Done (with_sent_blocks self new_sent_blocks).

Definition RoundState_apply_rejected_block_action self : RoundState := self.

Definition RoundState_apply_committed_block_action d self (src_idx candidate : N) (signature : list N)
  : outcome RoundState :=
  match precommitted_block self with
  | None => Done self
  | Some block =>
      if negb (SentBlock_get_id block =? candidate) then Done self else
      existing ← Vector_at (rs_signatures self) src_idx;
      if bool_decide (is_Some existing) then Done self else
      valid ← (if candidate =? SKIP_ROUND_CANDIDATE_BLOCKID then Done (length signature =? 0)%nat
               else
                 b ← unwrap block;
                 check_signature d (sb_root_hash b) (sb_file_hash b) src_idx signature);
      if negb valid then Done self else
      new_signatures ← Vector_change (rs_signatures self) src_idx (BlockCandidateSignature_create signature);
      Done (with_signatures self new_signatures)
  end.

(** The closure of [apply_action_on_attempt] that computes
    [(new_voted_block_appears, new_last_precommit)]. *)
Definition RoundState_refresh_last_precommit d self (attempt_id max_precommit_attempt_id : N)
  (voted_block : option SentBlockPtr) : outcome (bool * option (list N)) :=
  match voted_block with
  | None => Done (false, last_precommit self)
  | Some voted_block =>
      if max_precommit_attempt_id =? 0 then Done (false, last_precommit self) else
      last_precommit_attempt ← RoundState_get_attempt (attempts self) max_precommit_attempt_id;
      last_precommit_attempt ← unwrap last_precommit_attempt;
      last_precommit_voted_block ← RoundAttemptState_get_voted_block d last_precommit_attempt;
      last_precommit_voted_block ← unwrap last_precommit_voted_block;
      if SentBlock_get_id last_precommit_voted_block =? SentBlock_get_id voted_block
      then Done (false, last_precommit self)
      else Done (true, VectorWrapper_modify (last_precommit self)
                   (λ attempt_id_iter, if attempt_id <? attempt_id_iter then attempt_id_iter else 0))
  end.

Definition RoundState_apply_action_on_attempt d self (src_idx attempt_id : N) (message : Message)
  : outcome RoundState :=
  if bool_decide (is_Some (precommitted_block self)) then Done self else
  attempt ← RoundState_get_attempt (attempts self) attempt_id;
  let attempt := default (RoundAttemptState_create_empty d attempt_id) attempt in
  _ ← RoundAttemptState_get_voted_block d attempt;
  attempt ← RoundAttemptState_apply_action d attempt src_idx attempt_id message (RoundState_ops self);
  voted_block ← RoundAttemptState_get_voted_block d attempt;
  is_precommitted ← RoundAttemptState_check_attempt_is_precommitted d attempt;
  new_precommitted_block ←
    (if (is_precommitted : bool) then block ← unwrap voted_block; Done (Some block)
     else Done (precommitted_block self));
  let max_precommit_attempt_id := foldl N.max 0 (VectorWrapper_iter (last_precommit self)) in
  refreshed ← RoundState_refresh_last_precommit d self attempt_id max_precommit_attempt_id voted_block;
  let '(new_voted_block_appears, new_last_precommit) := refreshed in
  received ← RoundAttemptState_check_precommit_received_from attempt src_idx;
  current ← (if (received : bool) then VectorWrapper_at new_last_precommit src_idx else Done attempt_id);
  new_last_precommit ←
    (if (received : bool) && (current <? attempt_id)
        && ((max_precommit_attempt_id <? attempt_id) || negb new_voted_block_appears) then
       _ ← assert_that (bool_decide (is_Some voted_block));
       VectorWrapper_change new_last_precommit src_idx attempt_id
     else Done new_last_precommit);
  new_attempts ← SortedVector_push (attempts self) attempt;
  Done {| precommitted_block := new_precommitted_block;
          rs_sequence_number := rs_sequence_number self;
          first_attempt := first_attempt self;
          last_precommit := new_last_precommit;
          sent_blocks := sent_blocks self;
          rs_signatures := rs_signatures self;
          attempts := new_attempts |}.

(** The new first attempt of a node, in [apply_action_dispatch] and in
    [make_one_impl]; the flag tells whether the state changed. *)
Definition RoundState_update_first_attempt self (src_idx attempt_id : N) : outcome (RoundState * bool) :=
  first ← VectorWrapper_at (first_attempt self) src_idx;
  if (first =? 0) || (attempt_id <? first) then
    fa ← VectorWrapper_change (first_attempt self) src_idx attempt_id;
    Done (with_first_attempt self fa, true)
  else Done (self, false).

(** [apply_action] and [apply_action_dispatch] *)
Definition RoundState_apply_action d self (src_idx attempt_id : N) (message : Message) : outcome RoundState :=
  updated ← RoundState_update_first_attempt self src_idx attempt_id;
  let state := fst updated in
  match message with
  | SubmittedBlock _ root_hash file_hash collated_data_file_hash =>
      RoundState_apply_submitted_block_action d state src_idx root_hash file_hash collated_data_file_hash
  | ApprovedBlock _ candidate signature =>
      RoundState_apply_approved_block_action d state src_idx candidate signature
  | RejectedBlock _ _ _ => Done (RoundState_apply_rejected_block_action state)
  | Commit _ candidate signature =>
      RoundState_apply_committed_block_action d state src_idx candidate signature
  | _ => RoundState_apply_action_on_attempt d state src_idx attempt_id message
  end.

(** [make_one] and [make_one_impl] *)
Definition RoundState_make_one d self (src_idx attempt_id : N) : outcome (RoundState * bool) :=
  updated ← RoundState_update_first_attempt self src_idx attempt_id;
  let '(state, made_changes) := updated in
  if bool_decide (is_Some (precommitted_block state)) then Done (state, made_changes) else
  attempt ← RoundState_get_attempt (attempts state) attempt_id;
  let attempt := default (RoundAttemptState_create_empty d attempt_id) attempt in
  res ← RoundAttemptState_make_one d attempt src_idx attempt_id (RoundState_ops state);
  let '(attempt, attempt_made_changes) := res in
  if negb attempt_made_changes then Done (state, made_changes) else
  attempts' ← SortedVector_push (attempts state) attempt;
  Done (with_attempts state attempts', true).

(** ** Merge *)

(** The variables of the search loop: the (at most two) diverging voted blocks
    and their attempts, how many were found, and the precommitted block. *)
Record DiversedScan := {
  diversed_voted_block_0 : SentBlockPtr;
  diversed_voted_block_1 : SentBlockPtr;
  diversed_voted_attempt_0 : N;
  diversed_voted_attempt_1 : N;
  diversed_voted_attempts_count : N;
  scan_precommitted_block : option SentBlockPtr;
}.

(** First part of the loop body: remember a newly found diverging voted block. *)
Definition RoundState_scan_voted (s : DiversedScan) (attempt : RoundAttemptState)
  (voted : option SentBlockPtr) : DiversedScan :=
  match voted with
  | None => s
  | Some voted_block =>
      if diversed_voted_attempts_count s =? 0 then
        {| diversed_voted_block_0 := voted_block; diversed_voted_block_1 := diversed_voted_block_1 s;
           diversed_voted_attempt_0 := ra_sequence_number attempt;
           diversed_voted_attempt_1 := diversed_voted_attempt_1 s;
           diversed_voted_attempts_count := 1;
           scan_precommitted_block := scan_precommitted_block s |}
      else if SentBlock_get_id (diversed_voted_block_0 s) =? SentBlock_get_id voted_block then s
      else
        {| diversed_voted_block_0 := diversed_voted_block_0 s; diversed_voted_block_1 := voted_block;
           diversed_voted_attempt_0 := diversed_voted_attempt_0 s;
           diversed_voted_attempt_1 := ra_sequence_number attempt;
           diversed_voted_attempts_count := 2;
           scan_precommitted_block := scan_precommitted_block s |}
  end.

(** Second part: take the precommitted block from the newest precommitted attempt. *)
Definition RoundState_scan_precommitted d (s : DiversedScan) (attempt : RoundAttemptState)
  : outcome DiversedScan :=
  if bool_decide (is_Some (scan_precommitted_block s)) then Done s else
  is_precommitted ← RoundAttemptState_check_attempt_is_precommitted d attempt;
  if negb is_precommitted then Done s else
  voted ← RoundAttemptState_get_voted_block d attempt;
  block ← unwrap voted;
  Done {| diversed_voted_block_0 := diversed_voted_block_0 s;
          diversed_voted_block_1 := diversed_voted_block_1 s;
          diversed_voted_attempt_0 := diversed_voted_attempt_0 s;
          diversed_voted_attempt_1 := diversed_voted_attempt_1 s;
          diversed_voted_attempts_count := diversed_voted_attempts_count s;
          scan_precommitted_block := Some block |}.

(** The loop over the merged attempts, newest first, with its [break]. *)
Fixpoint RoundState_merge_scan d (newest_first : list RoundAttemptState) (s : DiversedScan)
  : outcome DiversedScan :=
  match newest_first with
  | [] => Done s
  | attempt :: rest =>
      s ← (if diversed_voted_attempts_count s <=? 1 then
             voted ← RoundAttemptState_get_voted_block d attempt;
             Done (RoundState_scan_voted s attempt voted)
           else Done s);
      s ← RoundState_scan_precommitted d s attempt;
      if bool_decide (is_Some (scan_precommitted_block s)) && (diversed_voted_attempts_count s =? 2)
      then Done s
      else RoundState_merge_scan d rest s
  end.

Definition merge_first_attempt_item (left right : N) : outcome N :=
  Done (if left =? 0 then right else if right =? 0 then left else N.min left right).

Definition merge_last_precommit_item (s : DiversedScan) (left right : N) : outcome N :=
  let last_precommit_attempt_sequence_number := N.max left right in
  if diversed_voted_attempts_count s =? 0 then
    _ ← assert_that (last_precommit_attempt_sequence_number =? 0);
    Done last_precommit_attempt_sequence_number
  else if diversed_voted_attempt_1 s <? last_precommit_attempt_sequence_number
  then Done last_precommit_attempt_sequence_number else Done 0.

(** The assert on the precommitted blocks of the two states. *)
Definition RoundState_precommits_agree (left right : option SentBlockPtr) : bool :=
  match left, right with
  | Some l, Some r => SentBlock_get_id l =? SentBlock_get_id r
  | _, _ => true
  end.

#[global] Instance RoundState_merge : Merge RoundState := λ d left right,
  _ ← assert_that (rs_sequence_number left =? rs_sequence_number right);
  first_attempt' ← VectorWrapper_merge_impl merge_first_attempt_item pool_ptr_eq false
                     (first_attempt left) (first_attempt right);
  attempts' ← SortedVectorWrapper_merge (merge d) pool_ptr_eq (attempts left) (attempts right);
  _ ← assert_that (RoundState_precommits_agree (precommitted_block left) (precommitted_block right));
  precommitted ← Option_merge d (precommitted_block left) (precommitted_block right);
  s ← RoundState_merge_scan d (rev (VectorWrapper_iter attempts'))
        {| diversed_voted_block_0 := None; diversed_voted_block_1 := None;
           diversed_voted_attempt_0 := 0; diversed_voted_attempt_1 := 0;
           diversed_voted_attempts_count := 0; scan_precommitted_block := precommitted |};
  _ ← assert_that ((diversed_voted_attempts_count s =? 0)
                   || (diversed_voted_attempt_1 s <? diversed_voted_attempt_0 s));
  last_precommit' ← VectorWrapper_merge_impl (merge_last_precommit_item s) pool_ptr_eq true
                      (last_precommit left) (last_precommit right);
  signatures' ← signatures_merge d (rs_signatures left) (rs_signatures right);
  sent_blocks' ← SortedVectorWrapper_merge (merge d) pool_ptr_eq (sent_blocks left) (sent_blocks right);
  Done {| precommitted_block := scan_precommitted_block s;
          rs_sequence_number := rs_sequence_number left;
          first_attempt := first_attempt';
          last_precommit := last_precommit';
          sent_blocks := sent_blocks';
          rs_signatures := signatures';
          attempts := attempts' |}.

Definition RoundState_create_current_round d (sequence_number : N) : RoundState :=
  let n := N.to_nat (get_total_nodes d) in
  {| precommitted_block := None;
     rs_sequence_number := sequence_number;
     first_attempt := Vector_create_wrapper (replicate n 0);
     last_precommit := Vector_create_wrapper (replicate n 0);
     sent_blocks := None;
     rs_signatures := replicate n None;
     attempts := None |}.
End handlers.
