(* ===== verification/RoundFacts.v ===== *)
(** * Round invariant: message handlers never panic and keep it

    [round_ok] states what the [assert!]s, [unwrap]s and slice accesses of
    [round.rs] rely on.  Every handler of [Round.v] returns normally from a
    well-formed round and gives a well-formed round. *)

From S2P Require Import Prelude SessionDescription Vectors Candidates RoundAttempt Round.

Section round_facts.
Context {X : External}.
Implicit Types (d : SessionDescription) (r : RoundState) (c : BlockCandidate).

Definition sent_list r : list BlockCandidate := VectorWrapper_iter (sent_blocks r).
Definition attempt_list r : list RoundAttemptState := VectorWrapper_iter (attempts r).

(** The identifiers of the candidates of a round. *)
Definition sent_id r (k : N) : Prop := ∃ c, c ∈ sent_list r ∧ BlockCandidate_get_id c = k.

(** A candidate has one approval slot per node, and its author may propose
    blocks in round [seqno]. *)
Record candidate_ok d (seqno : N) c : Prop := {
  cand_len : length (approved_by c) = length (sources d);
  cand_author b : bc_block c = Some b →
    sb_source_id b < get_total_nodes d ∧
    ∃ p, get_node_priority d (sb_source_id b) seqno = Done p ∧ (0 ≤ p)%Z;
}.

Record round_ok d r : Prop := {
  rok_first : ∃ fa, first_attempt r = Some fa ∧ length fa = length (sources d);
  rok_last : ∃ lp, last_precommit r = Some lp ∧ length lp = length (sources d) ∧
    ∀ (i : nat) k, lp !! i = Some k → 0 < k →
      ∃ a, find_key k (attempt_list r) = Some a ∧ is_Some (voted_block d a);
  rok_sigs : length (rs_signatures r) = length (sources d);
  rok_sent_sorted : key_sorted (sent_list r);
  rok_sent c : c ∈ sent_list r → candidate_ok d (rs_sequence_number r) c;
  rok_att_sorted : key_sorted (attempt_list r);
  rok_att a : a ∈ attempt_list r → attempt_ok d (sent_id r) a;
  rok_precommitted b : precommitted_block r = Some b → sent_id r (SentBlock_get_id b);
  rok_unsigned : precommitted_block r = None → ∀ s, s ∈ rs_signatures r → s = None;
}.

Lemma BlockCandidate_id_block c : BlockCandidate_get_id c = SentBlock_get_id (bc_block c).
Proof. by destruct c as [[] ?]. Qed.

Lemma sent_list_default r : sent_list r = default [] (sent_blocks r).
Proof. unfold sent_list. by destruct (sent_blocks r). Qed.
Lemma attempt_list_default r : attempt_list r = default [] (attempts r).
Proof. unfold attempt_list. by destruct (attempts r). Qed.

(** [get_block] and [get_attempt] are lookups by key. *)
Lemma get_block_find r k : RoundState_get_block r k = find_key k (sent_list r).
Proof.
  unfold RoundState_get_block, RoundState_get_candidate, sent_list.
  destruct (sent_blocks r) as [cs|]; [|done]. simpl. rewrite <- list_find_find_key. done.
Qed.

Lemma get_attempt_find (w : option (list RoundAttemptState)) k :
  key_sorted (default [] w) → RoundState_get_attempt w k = Done (find_key k (default [] w)).
Proof.
  intros Hs. destruct w as [l|]; [|done]. simpl in *.
  pose proof (binary_search_find k l Hs) as Hb. simpl in Hb.
  destruct (binary_search _ _ _ l _ _) as [[i|p]|]; [|simpl; by rewrite Hb|done]. simpl.
  destruct Hb as [-> [a ->]]. done.
Qed.

Lemma round_get_attempt d r k :
  round_ok d r → RoundState_get_attempt (attempts r) k = Done (find_key k (attempt_list r)).
Proof.
  intros Hr. rewrite attempt_list_default. apply get_attempt_find.
  rewrite <- attempt_list_default. apply (rok_att_sorted _ _ Hr).
Qed.

Lemma round_get_block_ok d r k c :
  round_ok d r → RoundState_get_block r k = Some c →
  c ∈ sent_list r ∧ BlockCandidate_get_id c = k ∧ candidate_ok d (rs_sequence_number r) c.
Proof.
  intros Hr. rewrite get_block_find. intros [Hc Hk]%find_key_Some.
  split; [done|]. split; [done|]. by apply (rok_sent _ _ Hr).
Qed.

Lemma round_attempt_ok d r k a :
  round_ok d r → find_key k (attempt_list r) = Some a →
  attempt_ok d (sent_id r) a ∧ ra_sequence_number a = k.
Proof. intros Hr [Ha Hk]%find_key_Some. split; [by apply (rok_att _ _ Hr)|done]. Qed.

(** Access to the per-node slots. *)
Lemma round_first_attempt d r (i : N) :
  round_ok d r → (N.to_nat i < length (sources d))%nat →
  ∃ k, VectorWrapper_at (first_attempt r) i = Done k.
Proof.
  intros Hr Hi. destruct (rok_first _ _ Hr) as (fa & -> & Hlen). rewrite VectorWrapper_at_Some.
  destruct (Vector_at_lt fa i) as (k & -> & _); [lia|]. eauto.
Qed.

(** The signature check compares the weight of the signers with the cutoff. *)
Lemma check_block_is_signed_ok d r :
  desc_ok d → length (rs_signatures r) = length (sources d) →
  RoundState_check_block_is_signed d r
  = Done (cutoff_weight d <=? flag_weight (sources d) (is_present <$> rs_signatures r)).
Proof.
  intros Hd Hlen. unfold RoundState_check_block_is_signed.
  rewrite (weight_loop_ext _ _ (index (is_present <$> rs_signatures r))).
  - apply weight_loop_ok; [done|]. by rewrite length_fmap.
  - intros i. rewrite Vector_at_index. unfold index. rewrite list_lookup_fmap.
    by destruct (rs_signatures r !! _).
Qed.

(** ** Choosing a block to vote for *)
Lemma last_voted_block_ok d (ids : N → Prop) l :
  desc_ok d → (∀ a, a ∈ l → attempt_ok d ids a) →
  ∃ o, RoundState_last_voted_block d l = Done o ∧ (∀ b, o = Some b → ids (SentBlock_get_id b)).
Proof.
  intros Hd. induction l as [|a l IH]; intros Hl; cbn [RoundState_last_voted_block]; [by exists None|].
  rewrite (get_voted_block_ok d ids) by (auto; apply Hl; set_solver). run.
  destruct (voted_block d a) as [b|] eqn:E; [|apply IH; set_solver].
  eexists. split; [done|]. intros b' [= <-]. eapply voted_block_ids; [|done]. apply Hl. set_solver.
Qed.

Lemma min_priority_loop_ok d r max_priority :
  desc_ok d → round_ok d r →
  ∃ p o, mfoldl (RoundState_min_priority_step d r) (max_priority, None) (sent_list r) = Done (p, o) ∧
    ∀ b, o = Some b → sent_id r (SentBlock_get_id b).
Proof.
  intros Hd Hr.
  destruct (mfoldl_inv (RoundState_min_priority_step d r)
    (λ acc, ∀ b, snd acc = Some b → sent_id r (SentBlock_get_id b)) (max_priority, None) (sent_list r))
    as ([p o] & Hf & Ho); [done| |by exists p, o].
  intros [p o] c Hacc Hc. pose proof (rok_sent _ _ Hr c Hc) as Hok. unfold RoundState_min_priority_step.
  rewrite check_block_is_approved_ok by (done || apply (cand_len _ _ _ Hok)). run.
  destruct (negb _); [eauto|].
  assert (Hp : ∃ q, (match bc_block c with
      | Some _ => get_node_priority d (BlockCandidate_get_source_index c) (rs_sequence_number r)
      | None => Done (u32_as_i32 (u32_add (get_max_priority d) 1)) end) = Done q ∧ (0 ≤ q)%Z).
  { unfold BlockCandidate_get_source_index. destruct (bc_block c) as [b|] eqn:Eb.
    - by destruct (cand_author _ _ _ Hok b Eb) as [_ ?].
    - eexists. split; [done|]. rewrite get_max_priority_ok by done. pose proof (desc_candidates d Hd).
      unfold u32_add, two32. rewrite N.mod_small by lia. unfold u32_as_i32.
      destruct (_ <? _) eqn:E; breflect; lia. }
  destruct Hp as (q & -> & Hq). run.
  replace (0 <=? q)%Z with true by (symmetry; by apply Z.leb_le). cbn [assert_that mbind outcome_bind].
  destruct (q <? p)%Z; [|eauto]. eexists. split; [done|]. intros b [= <-].
  exists c. split; [done|]. apply BlockCandidate_id_block.
Qed.

Lemma choose_block_to_vote_ok d r (i att : N) vf :
  desc_ok d → round_ok d r → (N.to_nat i < length (sources d))%nat →
  (∀ b, vf = Some b → sent_id r (SentBlock_get_id b)) →
  ∃ o, RoundState_choose_block_to_vote d r i att vf = Done o ∧
    ∀ b, o = Some b → sent_id r (SentBlock_get_id b).
Proof.
  intros Hd Hr Hi Hvf. unfold RoundState_choose_block_to_vote.
  destruct (sent_blocks r) as [cs|] eqn:Ecs; [|by exists None].
  destruct (rok_last _ _ Hr) as (lp & -> & Hlen & Hlp). rewrite VectorWrapper_at_Some.
  destruct (Vector_at_lt lp i) as (k & -> & Hk); [lia|]. run.
  destruct (0 <? k) eqn:E; breflect.
  - destruct (Hlp _ _ Hk E) as (a & Ha & [b Hb]).
    rewrite (round_get_attempt d) by done. rewrite Ha. cbn [mbind outcome_bind unwrap].
    destruct (round_attempt_ok _ _ _ _ Hr Ha) as [Hok _].
    rewrite (get_voted_block_ok d (sent_id r)) by done. rewrite Hb. run.
    eexists. split; [done|]. intros b' [= <-]. by eapply voted_block_ids.
  - destruct (round_first_attempt d r i Hr Hi) as [fa ->]. run.
    destruct (_ || _); [eauto|].
    destruct (last_voted_block_ok d (sent_id r) (rev (attempt_list r))) as (o & Ho & Hids); [done| |].
    { intros a Ha. apply (rok_att _ _ Hr). apply list_elem_of_In. rewrite in_rev. by apply list_elem_of_In. }
    change (VectorWrapper_iter (attempts r)) with (attempt_list r). rewrite Ho. run.
    destruct o as [b|]; [eauto|].
    destruct (min_priority_loop_ok d r (u32_as_i32 (u32_add (get_max_priority d) 2)) Hd Hr) as (p & o & Hf & Hids').
    unfold sent_list in Hf. rewrite Ecs in Hf. simpl in Hf. rewrite Hf. cbn [mbind outcome_bind fst snd].
    destruct (_ <=? p)%Z; [by exists None|eauto].
Qed.
End round_facts.

(** ** Message handlers *)
Section round_handlers.
Context {X : External}.
Implicit Types (d : SessionDescription) (r : RoundState) (c : BlockCandidate) (a : RoundAttemptState).

Lemma with_first_attempt_ok d r fa :
  round_ok d r → length fa = length (sources d) → round_ok d (with_first_attempt r (Some fa)).
Proof. intros [] Hlen. split; unfold with_first_attempt; simpl; eauto. Qed.

Lemma update_first_attempt_ok d r (i att : N) :
  round_ok d r → (N.to_nat i < length (sources d))%nat →
  ∃ fa made, RoundState_update_first_attempt r i att = Done (with_first_attempt r (Some fa), made) ∧
    round_ok d (with_first_attempt r (Some fa)) ∧
    (∃ k, fa !! N.to_nat i = Some k ∧ (0 < att → 0 < k ≤ att)) ∧
    (made = false → with_first_attempt r (Some fa) = r).
Proof.
  intros Hr Hi. destruct (rok_first _ _ Hr) as (fa & Hfa & Hlen).
  unfold RoundState_update_first_attempt. rewrite Hfa, VectorWrapper_at_Some.
  destruct (Vector_at_lt fa i) as (k & -> & Hk); [lia|]. run.
  destruct ((k =? 0) || (att <? k)) eqn:E.
  - exists (<[N.to_nat i := att]> fa), true. unfold VectorWrapper_change.
    rewrite Vector_change_lt by lia. split; [done|].
    split; [apply with_first_attempt_ok; [done|by rewrite length_insert]|]. split; [|done].
    exists att. split; [apply list_lookup_insert_eq; lia|lia].
  - exists fa, false. replace (with_first_attempt r (Some fa)) with r by (rewrite <- Hfa; by destruct r).
    split; [done|]. split; [done|]. split; [|done]. breflect. exists k. split; [done|lia].
Qed.

(** *** Candidates *)
Lemma sent_id_insert r c k :
  sent_id r k → sent_id (with_sent_blocks r (Some (sorted_insert c (sent_list r)))) k.
Proof.
  intros (x & Hx & <-). unfold sent_id, sent_list. simpl.
  destruct (decide (BlockCandidate_get_id x = BlockCandidate_get_id c)) as [He|He].
  - exists c. split; [apply elem_of_sorted_insert_self|done].
  - exists x. split; [by apply elem_of_sorted_insert_other|done].
Qed.

Lemma with_candidate_ok d r c :
  round_ok d r → candidate_ok d (rs_sequence_number r) c →
  round_ok d (with_sent_blocks r (Some (sorted_insert c (sent_list r)))).
Proof.
  intros Hr Hc. pose proof (sent_id_insert r c) as Hids. destruct Hr. split; try done; simpl.
  - unfold sent_list at 1. by apply sorted_insert_sorted.
  - unfold sent_list at 1. simpl. intros x [->|Hx]%elem_of_sorted_insert; auto.
  - intros a Ha. eapply attempt_ok_mono; eauto.
  - eauto.
Qed.

Lemma push_candidate_ok d r c :
  round_ok d r → candidate_ok d (rs_sequence_number r) c →
  ∃ w, SortedVector_push (sent_blocks r) c = Done w ∧ round_ok d (with_sent_blocks r w).
Proof.
  intros Hr Hc. exists (Some (sorted_insert c (sent_list r))). split; [|by apply with_candidate_ok].
  rewrite SortedVector_push_ok; rewrite <- sent_list_default; [done|apply (rok_sent_sorted _ _ Hr)].
Qed.

Lemma unapproved_candidate_ok d seqno block :
  desc_ok d →
  (∀ b, block = Some b → sb_source_id b < get_total_nodes d ∧
     ∃ p, get_node_priority d (sb_source_id b) seqno = Done p ∧ (0 ≤ p)%Z) →
  candidate_ok d seqno (BlockCandidate_create_unapproved d block).
Proof.
  intros Hd Hb. split; [|done]. simpl. rewrite length_replicate, total_nodes_ok by done. lia.
Qed.

Lemma get_source_public_key_hash_ok d (i : N) :
  (N.to_nat i < length (sources d))%nat → ∃ h, get_source_public_key_hash d i = Done h.
Proof.
  intros Hi. unfold get_source_public_key_hash, get_source.
  rewrite bool_decide_eq_true_2 by done. cbn [assert_that mbind outcome_bind].
  destruct (index_lt (sources d) i Hi) as (s & -> & _). simpl. eauto.
Qed.

Lemma apply_submitted_block_ok d r (i root file coll : N) :
  desc_ok d → round_ok d r → (N.to_nat i < length (sources d))%nat →
  ∃ r', RoundState_apply_submitted_block_action d r i root file coll = Done r' ∧ round_ok d r' ∧
    rs_sequence_number r' = rs_sequence_number r.
Proof.
  intros Hd Hr Hi. unfold RoundState_apply_submitted_block_action.
  assert (Hi' : i < get_total_nodes d) by by apply node_index_nat.
  destruct (get_node_priority d i (rs_sequence_number r)) as [p|] eqn:Hp;
    [|by rewrite get_node_priority_rotation in Hp].
  run. destruct (p <? 0)%Z eqn:E; [eauto|]. apply Z.ltb_ge in E.
  destruct (RoundState_check_block_is_sent_by r i); [eauto|].
  unfold SentBlock_create, candidate_id.
  destruct (get_source_public_key_hash_ok d i Hi) as [h ->]. run.
  set (block := Some _).
  destruct (push_candidate_ok d r (BlockCandidate_create_unapproved d block) Hr) as (w & -> & Hw).
  - apply unapproved_candidate_ok; [done|]. intros b [= <-]. simpl. eauto.
  - simpl. eauto.
Qed.

Lemma approved_by_total c (i : N) :
  (N.to_nat i < length (approved_by c))%nat → ∃ b, BlockCandidate_check_block_is_approved_by c i = Done b.
Proof.
  intros Hi. rewrite approved_by_index. unfold approved_flags.
  destruct (index_lt (is_present <$> approved_by c) i) as (b & -> & _); [by rewrite length_fmap|eauto].
Qed.

Lemma same_source_approved_ok d r (src i : N) :
  round_ok d r → (N.to_nat i < length (sources d))%nat →
  ∃ b, RoundState_same_source_approved r src i = Done b.
Proof.
  intros Hr Hi. unfold RoundState_same_source_approved.
  change (VectorWrapper_iter (sent_blocks r)) with (sent_list r).
  rewrite (mfind_pure _ (λ c, (BlockCandidate_get_source_index c =? src)
    && default false (approved_flags c !! N.to_nat i))); [simpl; eauto|].
  intros c Hc. destruct (_ =? _); [|done]. rewrite approved_by_index.
  destruct (index_lt (approved_flags c) i) as (b & -> & ->); [|done].
  unfold approved_flags. rewrite length_fmap. rewrite (cand_len _ _ _ (rok_sent _ _ Hr c Hc)). done.
Qed.

Lemma check_approve_signature_total d root file (i : N) sig :
  (N.to_nat i < length (sources d))%nat → ∃ b, check_approve_signature d root file i sig = Done b.
Proof.
  intros Hi. unfold check_approve_signature. destruct (index_lt (sources d) i Hi) as (s & -> & _).
  simpl. eauto.
Qed.

Lemma check_signature_total d root file (i : N) sig :
  (N.to_nat i < length (sources d))%nat → ∃ b, check_signature d root file i sig = Done b.
Proof.
  intros Hi. unfold check_signature. destruct (index_lt (sources d) i Hi) as (s & -> & _). simpl. eauto.
Qed.

Lemma check_approval_total d cand o (i : N) sig :
  (N.to_nat i < length (sources d))%nat →
  (cand ≠ 0 → ∃ c b, o = Some c ∧ bc_block c = Some b) →
  ∃ b, RoundState_check_approval d cand o i sig = Done b.
Proof.
  intros Hi Ho. unfold RoundState_check_approval, SKIP_ROUND_CANDIDATE_BLOCKID.
  destruct (cand =? 0) eqn:E; breflect; simpl; [eauto|].
  destruct (Ho E) as (c & b & -> & Hb). simpl. rewrite Hb. simpl. by apply check_approve_signature_total.
Qed.

Lemma pushed_candidate_ok d seqno c (i : N) sig :
  (N.to_nat i < length (sources d))%nat → candidate_ok d seqno c →
  ∃ c', BlockCandidate_push c i sig = Done c' ∧ candidate_ok d seqno c' ∧ bc_block c' = bc_block c.
Proof.
  intros Hi Hc. rewrite BlockCandidate_push_ok by (by rewrite (cand_len _ _ _ Hc)).
  eexists. split; [done|]. case_decide; [done|]. split; [|done].
  destruct Hc. split; simpl; [by rewrite length_insert|done].
Qed.

Lemma nonzero_id_block c k :
  BlockCandidate_get_id c = k → k ≠ 0 → ∃ b, bc_block c = Some b.
Proof. unfold BlockCandidate_get_id. destruct (bc_block c); [eauto|]. by intros <-. Qed.

Lemma apply_approved_block_ok d r (i cand : N) sig :
  desc_ok d → round_ok d r → (N.to_nat i < length (sources d))%nat →
  ∃ r', RoundState_apply_approved_block_action d r i cand sig = Done r' ∧ round_ok d r' ∧
    rs_sequence_number r' = rs_sequence_number r.
Proof.
  intros Hd Hr Hi. unfold RoundState_apply_approved_block_action.
  destruct (RoundState_get_block r cand) as [c|] eqn:Ec.
  - destruct (round_get_block_ok _ _ _ _ Hr Ec) as (Hc & Hk & Hok).
    rewrite (bool_decide_eq_false_2 (Some c = None)) by done. rewrite andb_false_r.
    destruct (approved_by_total c i) as [dup ->]; [by rewrite (cand_len _ _ _ Hok)|].
    cbn [mbind outcome_bind unwrap]. destruct dup; [eauto|].
    destruct (same_source_approved_ok d r (BlockCandidate_get_source_index c) i Hr Hi) as [cf ->].
    assert (∃ cf', (if negb (cand =? SKIP_ROUND_CANDIDATE_BLOCKID) then Done cf else Done false) = Done cf') as [cf' ->]
      by (destruct (negb _); eauto).
    run. destruct cf'; [eauto|].
    destruct (check_approval_total d cand (Some c) i sig Hi) as [v ->].
    { intros Hne. destruct (nonzero_id_block c cand Hk Hne) as [b Hb]. eauto. }
    run. destruct v; simpl; [|eauto].
    destruct (pushed_candidate_ok d (rs_sequence_number r) c i (BlockCandidateSignature_create sig) Hi Hok)
      as (c' & -> & Hok' & _). run.
    destruct (push_candidate_ok d r c' Hr Hok') as (w & -> & Hw). simpl. eauto.
  - rewrite bool_decide_eq_true_2 by done. rewrite andb_true_r.
    unfold RoundState_check_approval, SKIP_ROUND_CANDIDATE_BLOCKID.
    destruct (cand =? 0) eqn:E; simpl; [|eauto]. destruct (length sig =? 0)%nat; simpl; [|eauto].
    destruct (pushed_candidate_ok d (rs_sequence_number r) (BlockCandidate_create_unapproved d None) i
      (BlockCandidateSignature_create sig) Hi) as (c' & -> & Hok' & _).
    { by apply unapproved_candidate_ok. }
    run. destruct (push_candidate_ok d r c' Hr Hok') as (w & -> & Hw). simpl. eauto.
Qed.

Lemma apply_committed_block_ok d r (i cand : N) sig :
  desc_ok d → round_ok d r → (N.to_nat i < length (sources d))%nat →
  ∃ r', RoundState_apply_committed_block_action d r i cand sig = Done r' ∧ round_ok d r' ∧
    rs_sequence_number r' = rs_sequence_number r.
Proof.
  intros Hd Hr Hi. unfold RoundState_apply_committed_block_action.
  destruct (precommitted_block r) as [block|] eqn:Ep; [|eauto].
  destruct (SentBlock_get_id block =? cand) eqn:Ek; breflect; cbn [negb]; [|eauto].
  pose proof (rok_sigs _ _ Hr) as Hlen.
  destruct (Vector_at_lt (rs_signatures r) i) as (s & -> & Hs); [lia|]. run.
  destruct (bool_decide (is_Some s)); [eauto|].
  assert (∃ v, (if cand =? SKIP_ROUND_CANDIDATE_BLOCKID then Done (length sig =? 0)%nat
    else b ← unwrap block; check_signature d (sb_root_hash b) (sb_file_hash b) i sig) = Done v) as [v ->].
  { unfold SKIP_ROUND_CANDIDATE_BLOCKID. destruct (cand =? 0) eqn:E; breflect; [eauto|].
    destruct block as [b|]; [|done]. simpl. by apply check_signature_total. }
  run. destruct v; simpl; [|eauto].
  rewrite Vector_change_lt by lia. simpl. eexists. split; [done|]. split; [|done].
  destruct Hr. split; try done; simpl; [by rewrite length_insert|]. by rewrite Ep.
Qed.
End round_handlers.

(** ** Attempts *)
Section round_attempts.
Context {X : External}.
Implicit Types (d : SessionDescription) (r : RoundState) (a : RoundAttemptState).

(** A lock on attempt [k] points to an attempt with a voted block. *)
Definition locked d (l : list RoundAttemptState) (k : N) : Prop :=
  ∃ a, find_key k l = Some a ∧ is_Some (voted_block d a).

Definition locks_ok d (l : list RoundAttemptState) (lp : list N) : Prop :=
  ∀ (i : nat) k, lp !! i = Some k → 0 < k → locked d l k.

Lemma empty_attempt_ok d (ids : N → Prop) k :
  desc_ok d → 0 < k → attempt_ok d ids (RoundAttemptState_create_empty d k).
Proof.
  intros Hd Hk. split; try done; simpl.
  - constructor.
  - set_solver.
  - set_solver.
  - rewrite length_replicate, total_nodes_ok by done. lia.
  - intros i Hi. apply lookup_replicate in Hi as [? _]. done.
Qed.

(** The attempt a handler works on: the stored one or a new one. *)
Lemma current_attempt_ok d r (k : N) :
  desc_ok d → round_ok d r → 0 < k →
  let a := default (RoundAttemptState_create_empty d k) (find_key k (attempt_list r)) in
  attempt_ok d (sent_id r) a ∧ ra_sequence_number a = k.
Proof.
  intros Hd Hr Hk. simpl. destruct (find_key k (attempt_list r)) as [a|] eqn:E; simpl.
  - by apply round_attempt_ok.
  - split; [by apply empty_attempt_ok|done].
Qed.

(** Locks survive the insertion of an attempt that keeps the votes of the one
    it replaces. *)
Lemma locked_insert d (l : list RoundAttemptState) a' k :
  key_sorted l →
  (∀ a, find_key (ra_sequence_number a') l = Some a → votes_grow a a') →
  locked d l k → locked d (sorted_insert a' l) k.
Proof.
  intros Hs Hg (a & Ha & Hv). unfold locked. rewrite find_key_sorted_insert by done. simpl.
  destruct (ra_sequence_number a' =? k) eqn:E; breflect; [|by exists a].
  exists a'. split; [done|]. eapply votes_grow_voted; [|done]. apply Hg. by subst.
Qed.

Lemma with_attempt_ok d r a' pb lp :
  round_ok d r → attempt_ok d (sent_id r) a' →
  (∀ a, find_key (ra_sequence_number a') (attempt_list r) = Some a → votes_grow a a') →
  length lp = length (sources d) →
  locks_ok d (sorted_insert a' (attempt_list r)) lp →
  (∀ b, pb = Some b → sent_id r (SentBlock_get_id b)) →
  (pb = None → precommitted_block r = None) →
  round_ok d {| precommitted_block := pb; rs_sequence_number := rs_sequence_number r;
                first_attempt := first_attempt r; last_precommit := Some lp;
                sent_blocks := sent_blocks r; rs_signatures := rs_signatures r;
                attempts := Some (sorted_insert a' (attempt_list r)) |}.
Proof.
  intros Hr Ha Hg Hlen Hlp Hpb Hn. destruct Hr. split; try done; unfold attempt_list in *; simpl in *.
  - exists lp. split; [done|]. split; [done|]. exact Hlp.
  - by apply sorted_insert_sorted.
  - intros x [->|Hx]%elem_of_sorted_insert; [done|]. by apply rok_att0.
  - intros ->. auto.
Qed.

Lemma push_attempt_done d r a' :
  round_ok d r → SortedVector_push (attempts r) a' = Done (Some (sorted_insert a' (attempt_list r))).
Proof.
  intros Hr. rewrite SortedVector_push_ok; rewrite <- attempt_list_default; [done|].
  apply (rok_att_sorted _ _ Hr).
Qed.

(** What an attempt may ask its round for. *)
Lemma round_choice_ok d r a (i att : N) :
  desc_ok d → round_ok d r → attempt_ok d (sent_id r) a → (N.to_nat i < length (sources d))%nat →
  ∃ o, op_choose_block_to_vote (RoundState_ops r) d i att (vote_for a) = Done o ∧
    ∀ b, o = Some b → sent_id r (SentBlock_get_id b).
Proof. intros Hd Hr Ha Hi. apply choose_block_to_vote_ok; try done. apply (att_vote_for _ _ _ Ha). Qed.

Lemma attempt_default_action_ok d r a (i att : N) :
  desc_ok d → round_ok d r → attempt_ok d (sent_id r) a → (N.to_nat i < length (sources d))%nat →
  ∃ a' made, RoundAttemptState_apply_default_action d a i att (RoundState_ops r) = Done (a', made) ∧
    attempt_ok d (sent_id r) a' ∧ ra_sequence_number a' = ra_sequence_number a ∧ votes_grow a a' ∧
    (made = false → a' = a).
Proof.
  intros Hd Hr Ha Hi. destruct (round_choice_ok d r a i att Hd Hr Ha Hi) as (o & Ho & Hids).
  by eapply apply_default_action_ok.
Qed.

(** The messages that [RoundAttemptState_apply_action] accepts. *)
Definition is_attempt_message (m : Message) : bool :=
  match m with Vote _ _ _ | VoteFor _ _ _ | Precommit _ _ _ | Empty _ _ => true | _ => false end.

Lemma attempt_apply_action_ok d r a (i att : N) m :
  desc_ok d → round_ok d r → attempt_ok d (sent_id r) a → (N.to_nat i < length (sources d))%nat →
  is_attempt_message m = true →
  ∃ a', RoundAttemptState_apply_action d a i att m (RoundState_ops r) = Done a' ∧
    attempt_ok d (sent_id r) a' ∧ ra_sequence_number a' = ra_sequence_number a ∧ votes_grow a a'.
Proof.
  intros Hd Hr Ha Hi Hm.
  destruct (attempt_default_action_ok d r a i att Hd Hr Ha Hi) as (a' & made & Hda & ? & ? & ? & _).
  destruct m; try done; simpl; rewrite ?Hda; try (exists a'; done).
  destruct (round_first_attempt d r i Hr Hi) as [fa Hfa].
  apply (apply_vote_for_action_ok d (sent_id r) a i att candidate (RoundState_ops r) fa); try done.
  intros c Hc. destruct (round_get_block_ok _ _ _ _ Hr Hc) as (Hin & Hk & Hok).
  split; [apply (cand_len _ _ _ Hok)|]. exists c. by rewrite BlockCandidate_id_block.
Qed.

Lemma foldl_max_init (l : list N) n : n ≤ foldl N.max n l.
Proof. revert n. induction l as [|y l IH]; intros n; simpl; [lia|]. specialize (IH (N.max n y)). lia. Qed.

Lemma foldl_max_elem (l : list N) n : n < foldl N.max n l → foldl N.max n l ∈ l.
Proof.
  revert n. induction l as [|y l IH]; intros n; simpl; [lia|]. intros Hlt.
  destruct (decide (N.max n y < foldl N.max (N.max n y) l)) as [H|H].
  - set_solver.
  - pose proof (foldl_max_init l (N.max n y)).
    assert (foldl N.max (N.max n y) l = y) as -> by lia. set_solver.
Qed.

(** The locks after a voted block appeared: they are kept, or those up to the
    attempt are cleared when the newest lock is on another block. *)
Lemma refresh_last_precommit_ok d r (att : N) lp voted :
  desc_ok d → round_ok d r → last_precommit r = Some lp →
  ∃ appears lp', RoundState_refresh_last_precommit d r att (foldl N.max 0 lp) voted
    = Done (appears, Some lp') ∧ length lp' = length lp ∧
    (∀ (i : nat) k, lp' !! i = Some k → 0 < k → lp !! i = Some k) ∧
    (appears = false → lp' = lp).
Proof.
  intros Hd Hr Elp. unfold RoundState_refresh_last_precommit. rewrite Elp.
  destruct voted as [b|]; [|by exists false, lp].
  destruct (foldl N.max 0 lp =? 0) eqn:E; breflect; [by exists false, lp|].
  destruct (rok_last _ _ Hr) as (lp0 & Elp0 & _ & Hlp). rewrite Elp in Elp0. injection Elp0 as <-.
  assert (Hmax : foldl N.max 0 lp ∈ lp) by (apply foldl_max_elem; lia).
  apply list_elem_of_lookup in Hmax as [j Hj].
  destruct (Hlp _ _ Hj) as (a & Ha & [vb Hvb]); [lia|].
  rewrite (round_get_attempt d) by done. rewrite Ha. cbn [mbind outcome_bind unwrap].
  rewrite (get_voted_block_ok d (sent_id r)) by (done || by eapply round_attempt_ok).
  rewrite Hvb. cbn [mbind outcome_bind unwrap].
  destruct (_ =? _); [by exists false, lp|]. eexists true, _. split; [done|].
  split; [apply length_fmap|]. split; [|done].
  intros i k. unfold Vector_modify. rewrite list_lookup_fmap. destruct (lp !! i) as [x|]; simpl; [|done].
  intros [= <-]. destruct (att <? x); [done|lia].
Qed.

(** The block precommitted by the attempt, if any. *)
Lemma new_precommitted_block_ok d r a :
  desc_ok d → attempt_ok d (sent_id r) a →
  ∃ pb, (if cutoff_weight d <=? flag_weight (sources d) (precommitted a)
    then block ← unwrap (voted_block d a); Done (Some block) else Done None) = Done pb ∧
    ∀ b, pb = Some b → sent_id r (SentBlock_get_id b).
Proof.
  intros Hd Ha. destruct (_ <=? _) eqn:E; breflect; [|by exists None].
  destruct (precommitted_voted d (sent_id r) a Hd Ha E) as [vb Hvb]. rewrite Hvb. simpl.
  eexists. split; [done|]. intros b [= <-]. by eapply voted_block_ids.
Qed.

(** The lock a precommit of node [i] creates. *)
Lemma new_lock_ok d (ids : N → Prop) (l : list RoundAttemptState) a (i att : N) lp (rcv guard : bool) :
  key_sorted l → attempt_ok d ids a → ra_sequence_number a = att → precommitted a !! N.to_nat i = Some rcv →
  (N.to_nat i < length lp)%nat → locks_ok d (sorted_insert a l) lp →
  ∃ lp', (if rcv && guard
    then _ ← assert_that (bool_decide (is_Some (voted_block d a)));
         VectorWrapper_change (Some lp) i att else Done (Some lp)) = Done (Some lp') ∧
    length lp' = length lp ∧ locks_ok d (sorted_insert a l) lp'.
Proof.
  intros Hs Ha <- Hrcv Hi Hlocks. destruct rcv; simpl; [|by exists lp]. destruct guard; [|by exists lp].
  pose proof (att_precommit_voted _ _ _ Ha _ Hrcv) as Hv.
  rewrite bool_decide_eq_true_2 by done. simpl. rewrite Vector_change_lt by lia. simpl.
  eexists. split; [done|]. split; [by rewrite length_insert|]. intros j k Hj Hk.
  apply list_lookup_insert_Some in Hj as [(_ & <- & _)|[_ Hj]]; [|by eapply Hlocks].
  exists a. rewrite find_key_sorted_insert by done. simpl. by rewrite N.eqb_refl.
Qed.

Lemma apply_action_on_attempt_ok d r (i att : N) m :
  desc_ok d → round_ok d r → (N.to_nat i < length (sources d))%nat → 0 < att →
  is_attempt_message m = true →
  ∃ r', RoundState_apply_action_on_attempt d r i att m = Done r' ∧ round_ok d r' ∧
    rs_sequence_number r' = rs_sequence_number r.
Proof.
  intros Hd Hr Hi Hatt Hm. unfold RoundState_apply_action_on_attempt.
  destruct (precommitted_block r) eqn:Epb; simpl; [by exists r|].
  rewrite (round_get_attempt d) by done. run.
  destruct (current_attempt_ok d r att Hd Hr Hatt) as [Ha Hseq].
  assert (Hold : ∀ a, find_key att (attempt_list r) = Some a →
    default (RoundAttemptState_create_empty d att) (find_key att (attempt_list r)) = a) by by intros ? ->.
  revert Ha Hseq Hold. generalize (default (RoundAttemptState_create_empty d att) (find_key att (attempt_list r))).
  intros a Ha Hseq Hold.
  rewrite (get_voted_block_ok d (sent_id r)) by done. run.
  destruct (attempt_apply_action_ok d r a i att m Hd Hr Ha Hi Hm) as (a' & -> & Ha' & Hseq' & Hg).
  run.
  rewrite (get_voted_block_ok d (sent_id r)) by done. run.
  rewrite (check_attempt_is_precommitted_ok d (sent_id r)) by done. run.
  destruct (new_precommitted_block_ok d r a' Hd Ha') as (pb & -> & Hpb). run.
  destruct (rok_last _ _ Hr) as (lp & Elp & Hlen & Hlp). rewrite Elp. cbn [VectorWrapper_iter].
  destruct (refresh_last_precommit_ok d r att lp (voted_block d a') Hd Hr Elp)
    as (appears & lp' & -> & Hlen' & Hsub & _). run.
  unfold RoundAttemptState_check_precommit_received_from.
  pose proof (att_precommit_len _ _ _ Ha') as Hpl.
  destruct (Vector_at_lt (precommitted a') i) as (rcv & -> & Hrcv); [lia|]. run.
  destruct (Vector_at_lt lp' i) as (cur & Hcur & _); [lia|].
  assert (∃ c, (if rcv then VectorWrapper_at (Some lp') i else Done att) = Done c) as [c ->]
    by (rewrite VectorWrapper_at_Some, Hcur; destruct rcv; eauto).
  run.
  assert (Hg' : ∀ x, find_key (ra_sequence_number a') (attempt_list r) = Some x → votes_grow x a').
  { intros x. rewrite Hseq', Hseq. intros Hx. by rewrite <- (Hold x Hx). }
  assert (Hlocks : locks_ok d (sorted_insert a' (attempt_list r)) lp').
  { intros j k Hj Hk. apply locked_insert; [apply (rok_att_sorted _ _ Hr)|done|]. apply (Hlp j); auto. }
  rewrite <- andb_assoc.
  destruct (new_lock_ok d (sent_id r) (attempt_list r) a' i att lp' rcv
    ((c <? att) && ((foldl N.max 0 lp <? att) || negb appears))) as (lp'' & -> & Hl & Hlk);
    [apply (rok_att_sorted _ _ Hr)|done|congruence|done|lia|done|].
run.
  rewrite (push_attempt_done d) by done. run.
  eexists. split; [done|]. split; [|done]. apply with_attempt_ok; (done || lia).
Qed.
End round_attempts.

(** ** Whole handlers *)
Section round_steps.
Context {X : External}.
Implicit Types (d : SessionDescription) (r : RoundState) (a : RoundAttemptState).

Lemma round_apply_action_ok d r (i att : N) m :
  desc_ok d → round_ok d r → (N.to_nat i < length (sources d))%nat → 0 < att →
  ∃ r', RoundState_apply_action d r i att m = Done r' ∧ round_ok d r' ∧
    rs_sequence_number r' = rs_sequence_number r.
Proof.
  intros Hd Hr Hi Hatt. unfold RoundState_apply_action.
  destruct (update_first_attempt_ok d r i att Hr Hi) as (fa & made & -> & Hr' & _).
  cbn [mbind outcome_bind fst].
  change (rs_sequence_number r) with (rs_sequence_number (with_first_attempt r (Some fa))).
  destruct m; [apply apply_submitted_block_ok|apply apply_approved_block_ok|
    by eexists|apply apply_committed_block_ok|..]; try done;
    by apply (apply_action_on_attempt_ok d (with_first_attempt r (Some fa))).
Qed.

(** What node [i] may still do implicitly at attempt [att]. *)
Definition first_todo r (i att : N) : nat :=
  match VectorWrapper_at (first_attempt r) i with
  | Done first => if (first =? 0) || (att <? first) then 1 else 0
  | Panic => 0
  end.

Definition round_todo d r (i att : N) : nat :=
  first_todo r i att +
  attempt_todo (default (RoundAttemptState_create_empty d att) (find_key att (attempt_list r))) (N.to_nat i).

Lemma update_first_attempt_todo d r (i att : N) r' made :
  round_ok d r → (N.to_nat i < length (sources d))%nat → 0 < att →
  RoundState_update_first_attempt r i att = Done (r', made) →
  first_todo r' i att = 0%nat ∧ (made = true → first_todo r i att = 1%nat) ∧
  attempts r' = attempts r.
Proof.
  intros Hr Hi Hatt. destruct (rok_first _ _ Hr) as (fa & Hfa & Hlen).
  unfold RoundState_update_first_attempt, first_todo. rewrite Hfa, VectorWrapper_at_Some.
  destruct (Vector_at_lt fa i) as (k & -> & Hk); [lia|]. run.
  destruct ((k =? 0) || (att <? k)) eqn:E.
  - unfold VectorWrapper_change. rewrite Vector_change_lt by lia. run.
    intros [= <- <-]. unfold with_first_attempt. cbn [first_attempt attempts]. rewrite VectorWrapper_at_Some.
    destruct (Vector_at_lt (<[N.to_nat i := att]> fa) i) as (k' & -> & Hk'); [rewrite length_insert; lia|].
    rewrite list_lookup_insert_eq in Hk' by lia. injection Hk' as <-.
    rewrite N.ltb_irrefl. destruct (att =? 0) eqn:E0; breflect; [lia|done].
  - intros [= <- <-]. rewrite Hfa, VectorWrapper_at_Some.
    destruct (Vector_at_lt fa i) as (k' & -> & Hk'); [lia|]. rewrite Hk in Hk'. injection Hk' as <-.
    rewrite E. done.
Qed.

Lemma round_make_one_ok d r (i att : N) :
  desc_ok d → round_ok d r → (N.to_nat i < length (sources d))%nat → 0 < att →
  ∃ r' made, RoundState_make_one d r i att = Done (r', made) ∧ round_ok d r' ∧
    rs_sequence_number r' = rs_sequence_number r ∧ rs_signatures r' = rs_signatures r ∧
    (made = true → (round_todo d r' i att < round_todo d r i att)%nat) ∧
    (made = false → r' = r).
Proof.
  intros Hd Hr Hi Hatt. unfold RoundState_make_one.
  destruct (update_first_attempt_ok d r i att Hr Hi) as (fa & made & Hup & Hr' & _ & Hsame).
  rewrite Hup. run.
  pose proof (update_first_attempt_todo d r i att _ _ Hr Hi Hatt Hup) as (Hf0 & Hf1 & _).
  set (r1 := with_first_attempt r (Some fa)) in *.
  assert (Htodo : made = true → (round_todo d r1 i att < round_todo d r i att)%nat).
  { intros Hmade. unfold round_todo. rewrite Hf0, (Hf1 Hmade). unfold attempt_list, r1. simpl. lia. }
  destruct (bool_decide (is_Some (precommitted_block r1))) eqn:Epb.
  { exists r1, made. done. }
  rewrite (round_get_attempt d) by done. run.
  destruct (current_attempt_ok d r1 att Hd Hr' Hatt) as [Ha Hseq].
  set (a := default _ _) in *.
  destruct (attempt_default_action_ok d r1 a i att Hd Hr' Ha Hi) as (a' & amade & Hda & Ha' & Hseq' & Hg & _).
  unfold RoundAttemptState_make_one. rewrite Hda. run. destruct amade; cbn [negb].
  2: { exists r1, made. done. }
  rewrite (push_attempt_done d) by done. run.
  destruct (rok_last _ _ Hr') as (lp & Elp & Hlen & Hlp).
  eexists _, true. split; [done|]. split; [|split; [done|split; [done|split; [|done]]]].
  - unfold with_attempts. rewrite Elp.
    assert (Hg' : ∀ x, find_key (ra_sequence_number a') (attempt_list r1) = Some x → votes_grow x a').
    { intros x. rewrite Hseq', Hseq. intros Hx. unfold a in Hg. by rewrite Hx in Hg. }
    apply with_attempt_ok; try done.
    + intros j k Hj Hk. apply locked_insert; [apply (rok_att_sorted _ _ Hr')|done|]. by apply (Hlp j).
    + apply (rok_precommitted _ _ Hr').
  - intros _. destruct (round_choice_ok d r1 a i att Hd Hr' Ha Hi) as (o & Ho & _).
    pose proof (apply_default_action_todo d _ a i att _ o a' Hd Ha Hi Ho Hda) as Hlt.
    assert (first_todo (with_attempts r1 (Some (sorted_insert a' (attempt_list r1)))) i att = 0%nat) as Hf0' by exact Hf0.
    unfold round_todo at 1. rewrite Hf0'. unfold attempt_list at 1. simpl.
    rewrite find_key_sorted_insert by apply (rok_att_sorted _ _ Hr'). simpl.
    rewrite Hseq', Hseq, N.eqb_refl. simpl. unfold round_todo.
    change (attempt_list r) with (attempt_list r1). fold a. lia.
Qed.

Lemma current_round_ok d seqno : desc_ok d → round_ok d (RoundState_create_current_round d seqno).
Proof.
  intros Hd. pose proof (total_nodes_ok d Hd) as Hn. pose proof (total_nodes_bounds d Hd).
  assert (Hlen : ∀ A (x : A), length (replicate (N.to_nat (get_total_nodes d)) x) = length (sources d)).
  { intros. rewrite length_replicate. lia. }
  assert (Hw : Vector_create_wrapper (replicate (N.to_nat (get_total_nodes d)) 0)
    = Some (replicate (N.to_nat (get_total_nodes d)) 0)).
  { unfold Vector_create_wrapper. rewrite length_replicate. by destruct (Nat.eqb_spec (N.to_nat (get_total_nodes d)) 0); [lia|]. }
  split; unfold RoundState_create_current_round; simpl; rewrite ?Hw; try done.
  - eauto.
  - eexists. split; [done|]. split; [done|]. intros i k Hk. apply lookup_replicate in Hk as [-> _]. lia.
  - constructor.
  - set_solver.
  - constructor.
  - set_solver.
  - intros _ s Hs. by apply elem_of_replicate in Hs as [-> _].
Qed.
End round_steps.
