(* ===== verification/AttemptSafety.v ===== *)
(** * Safety inside one round: votes, locks and vote-for proposals

    A node votes for one block in an attempt, two blocks with a quorum of votes
    in the same attempt expose double voters, a locked node votes for the block
    it is locked on, and the proposals and votes a node generates are accepted
    by the handlers. *)

From S2P Require Import Prelude SessionDescription Vectors Candidates RoundAttempt Round RoundFacts.

(** ** Unique votes *)
Section unique_votes.
Context {X : External}.
Implicit Types (d : SessionDescription) (a : RoundAttemptState) (v : VoteCandidate).

(** Every node has voted for at most one candidate of the attempt. *)
Definition single_votes a : Prop :=
  ∀ (i : nat) v1 v2, v1 ∈ vote_list a → v2 ∈ vote_list a →
    voted_for i v1 = true → voted_for i v2 = true → v1 = v2.

Lemma add_vote_other d a b (i j : nat) :
  voted_for j (add_vote d a b i) = true → j = i ∨
  ∃ v, v ∈ vote_list a ∧ VoteCandidate_get_id v = SentBlock_get_id b ∧ voted_for j v = true.
Proof.
  unfold voted_for, add_vote. simpl. destruct (decide (j = i)) as [->|Hne]; [by left|].
  rewrite list_lookup_insert_ne by done. right.
  destruct (find_key (SentBlock_get_id b) (vote_list a)) as [v|] eqn:E; simpl in *.
  - apply find_key_Some in E as [? ?]. exists v. auto.
  - destruct (replicate _ false !! j) as [x|] eqn:Er; simpl in *; [|done].
    apply lookup_replicate in Er as [-> _]. done.
Qed.

Lemma with_vote_single d ids a b (i : nat) :
  desc_ok d → attempt_ok d ids a → single_votes a → find (voted_for i) (vote_list a) = None →
  single_votes (with_vote d a b i).
Proof.
  intros Hd Ha Hs Hnone. set (x := add_vote d a b i).
  assert (Hsort : key_sorted (sorted_insert x (vote_list a))) by apply sorted_insert_sorted, (att_sorted _ _ _ Ha).
  assert (Hx : ∀ j y, y ∈ sorted_insert x (vote_list a) → voted_for j x = true → voted_for j y = true → x = y).
  { intros j y Hy Hjx Hjy. pose proof (elem_of_sorted_insert _ _ _ Hy) as [->|Hyl]; [done|].
    destruct (add_vote_other d a b i j Hjx) as [->|(v & Hv & Hid & Hjv)].
    - by rewrite (find_None_elem _ _ _ Hnone Hyl) in Hjy.
    - rewrite (Hs j v y Hv Hyl Hjv Hjy) in Hid.
      pose proof (find_key_elem _ _ Hsort Hy) as Hfy.
      pose proof (find_key_elem _ _ Hsort (elem_of_sorted_insert_self x (vote_list a))) as Hfx.
      simpl in Hfx, Hfy. unfold x at 1 in Hfx. rewrite add_vote_id, <- Hid, Hfy in Hfx. by injection Hfx as ->. }
  intros j v1 v2 H1 H2 Hv1 Hv2. change (v1 ∈ sorted_insert x (vote_list a)) in H1.
  change (v2 ∈ sorted_insert x (vote_list a)) in H2.
  pose proof (elem_of_sorted_insert _ _ _ H1) as [->|H1']; [by eapply Hx|].
  pose proof (elem_of_sorted_insert _ _ _ H2) as [->|H2']; [symmetry; by eapply Hx|by eapply Hs].
Qed.

Lemma default_action_single d (ids : N → Prop) a (i att : N) ops choice a' made :
  desc_ok d → attempt_ok d ids a → (N.to_nat i < length (sources d))%nat →
  op_choose_block_to_vote ops d i att (vote_for a) = Done choice → single_votes a →
  RoundAttemptState_apply_default_action d a i att ops = Done (a', made) → single_votes a'.
Proof.
  intros Hd Ha Hi Hc Hs. unfold RoundAttemptState_apply_default_action.
  rewrite (try_vote_ok d ids a i att ops choice) by done. run.
  destruct (find (voted_for (N.to_nat i)) (vote_list a)) as [v|] eqn:Ef; [|destruct choice as [b|]]; cbn [snd].
  2: { intros [= <- <-]. by eapply with_vote_single. }
  all: rewrite (try_precommit_ok d ids) by done; run;
    destruct (default false _); cbn [snd]; [by intros [= <- <-]|];
    destruct (voted_block d a); cbn [snd]; by intros [= <- <-].
Qed.

(** Two voted blocks of one attempt share voters with more than a third of the
    weight ... *)
Lemma two_voted_blocks d ids a v1 v2 :
  desc_ok d → attempt_ok d ids a → v1 ∈ vote_list a → v2 ∈ vote_list a →
  is_voted d v1 = true → is_voted d v2 = true →
  total_weight d < 3 * flag_weight (sources d) (zip_with andb (voted_by v1) (voted_by v2)).
Proof.
  intros Hd Ha H1 H2 Hv1 Hv2. unfold is_voted in *. breflect.
  apply quorum_intersection; try done; by apply (att_voted_len _ _ _ Ha).
Qed.

(** ... so there is one when nobody votes twice. *)
Lemma single_voted_block d ids a v1 v2 :
  desc_ok d → attempt_ok d ids a → single_votes a → v1 ∈ vote_list a → v2 ∈ vote_list a →
  is_voted d v1 = true → is_voted d v2 = true → v1 = v2.
Proof.
  intros Hd Ha Hs H1 H2 Hv1 Hv2. pose proof (two_voted_blocks d ids a v1 v2 Hd Ha H1 H2 Hv1 Hv2) as Hw.
  destruct (flag_weight_in_both (sources d) (voted_by v1) (voted_by v2)) as (i & Hi1 & Hi2); [lia|].
  apply (Hs i); try done; unfold voted_for; by rewrite ?Hi1, ?Hi2.
Qed.
End unique_votes.

(** ** Locks *)
Section locks.
Context {X : External}.
Implicit Types (d : SessionDescription) (r : RoundState) (a : RoundAttemptState).

Lemma locked_choice d r (i att : N) vf lp k :
  desc_ok d → round_ok d r → sent_blocks r ≠ None →
  last_precommit r = Some lp → lp !! N.to_nat i = Some k → 0 < k →
  ∃ a b, find_key k (attempt_list r) = Some a ∧ voted_block d a = Some b ∧
    RoundState_choose_block_to_vote d r i att vf = Done (Some b).
Proof.
  intros Hd Hr Hsb Elp Hk Hk0. destruct (rok_last _ _ Hr) as (lp' & Elp' & Hlen & Hlp).
  rewrite Elp in Elp'. injection Elp' as <-.
  destruct (Hlp _ _ Hk Hk0) as (a & Ha & [b Hb]). exists a, b. split; [done|]. split; [done|].
  unfold RoundState_choose_block_to_vote. destruct (sent_blocks r) as [cs|]; [|done].
  rewrite Elp, VectorWrapper_at_Some. destruct (Vector_at_lt lp i) as (k' & -> & Hk').
  { by eapply lookup_lt_Some. }
  rewrite Hk in Hk'. injection Hk' as <-. run.
  rewrite (proj2 (N.ltb_lt _ _) Hk0). rewrite (round_get_attempt d) by done. rewrite Ha.
  cbn [mbind outcome_bind unwrap]. destruct (round_attempt_ok _ _ _ _ Hr Ha) as [Hok _].
  rewrite (get_voted_block_ok d (sent_id r)) by done. rewrite Hb. done.
Qed.
End locks.

(** ** Generated messages are accepted *)
Section generated.
Context {X : External}.
Implicit Types (d : SessionDescription) (r : RoundState) (a : RoundAttemptState) (c : BlockCandidate).

Lemma filter_approved d (cs : list BlockCandidate) :
  desc_ok d → (∀ c, c ∈ cs → length (approved_by c) = length (sources d)) →
  mfilter (BlockCandidate_check_block_is_approved d) cs
  = Done (List.filter (λ c, cutoff_weight d <=? flag_weight (sources d) (approved_flags c)) cs).
Proof. intros Hd Hl. apply mfilter_pure. intros c Hc. apply check_block_is_approved_ok; auto. Qed.

Lemma find_approved d (cs : list BlockCandidate) :
  desc_ok d → (∀ c, c ∈ cs → length (approved_by c) = length (sources d)) →
  mfind (BlockCandidate_check_block_is_approved d) cs
  = Done (find (λ c, cutoff_weight d <=? flag_weight (sources d) (approved_flags c)) cs).
Proof. intros Hd Hl. apply mfind_pure. intros c Hc. apply check_block_is_approved_ok; auto. Qed.

(** The random choice of [generate_vote_for] is an approved candidate. *)
Lemma generate_vote_for_ok d r (i att random : N) :
  desc_ok d → round_ok d r → RoundState_check_need_generate_vote_for d r i att = Done true →
  ∃ c, RoundState_generate_vote_for d r i att random
      = Done (VoteFor (u32_as_i32 (rs_sequence_number r)) (u32_as_i32 att) (BlockCandidate_get_id c)) ∧
    c ∈ sent_list r ∧ cutoff_weight d ≤ flag_weight (sources d) (approved_flags c).
Proof.
  intros Hd Hr H. unfold RoundState_check_need_generate_vote_for in H.
  rewrite get_vote_for_author_ok in H by done. run in H.
  destruct (i =? att mod get_total_nodes d) eqn:Ei; cbn [negb] in H; [|done].
  destruct (bool_decide (is_Some (precommitted_block r))); [done|]. outcome_step H.
  destruct ((a =? 0) && _); [done|]. destruct ((att <? _) && _); [done|]. outcome_step H.
  destruct (bool_decide _); [done|]. destruct (sent_blocks r) as [cs|] eqn:Ecs; [|done].
  assert (Hcs : sent_list r = cs) by (unfold sent_list; by rewrite Ecs).
  assert (Hlen : ∀ c, c ∈ cs → length (approved_by c) = length (sources d)).
  { intros c Hc. apply (cand_len d (rs_sequence_number r)), (rok_sent _ _ Hr). by rewrite Hcs. }
  rewrite find_approved in H by done. run in H.
  unfold RoundState_generate_vote_for. rewrite get_vote_for_author_ok by done. run.
  rewrite Ei. cbn [assert_that mbind outcome_bind]. rewrite Ecs. cbn [VectorWrapper_iter].
  rewrite filter_approved by done. run.
  set (ok := λ c : BlockCandidate, cutoff_weight d <=? flag_weight (sources d) (approved_flags c)) in *.
  destruct (find ok cs) as [c0|] eqn:Ef; [|done]. apply find_Some_elem in Ef as [Hc0 Hok0].
  assert (Hne : List.filter ok cs ≠ []).
  { intros He. assert (In c0 (List.filter ok cs)) as Hin by (apply filter_In; split; [by apply list_elem_of_In|done]).
    by rewrite He in Hin. }
  assert (Hpos : (0 < length (List.filter ok cs))%nat) by (destruct (List.filter ok cs); [done|simpl; lia]).
  rewrite length_fmap. replace (0 <? N.of_nat (length (List.filter ok cs))) with true by (symmetry; apply N.ltb_lt; lia).
  cbn [assert_that mbind outcome_bind].
  set (n := N.of_nat (length (List.filter ok cs))).
  assert (Hlt : (N.to_nat (random mod n) < length (List.filter ok cs))%nat).
  { pose proof (N.mod_lt random n). lia. }
  destruct (lookup_lt_is_Some_2 _ _ Hlt) as [c Hc].
  rewrite (index_Some _ _ (BlockCandidate_get_id c)) by (rewrite list_lookup_fmap, Hc; done).
  run. exists c. split; [done|].
  apply list_elem_of_lookup_2, list_elem_of_In, filter_In in Hc as [Hin Hok].
  rewrite Hcs. split; [by apply list_elem_of_In|]. unfold ok in Hok. by breflect.
Qed.

(** The proposal is stored by a node that has none for the attempt yet. *)
Lemma vote_for_accepted d r a c (i att first : N) :
  desc_ok d → round_ok d r → c ∈ sent_list r →
  cutoff_weight d ≤ flag_weight (sources d) (approved_flags c) →
  vote_for a = None → i = att mod get_total_nodes d →
  RoundState_get_first_attempt r i = Done first → first ≠ 0 → 0 < max_round_attempts (options d) →
  RoundAttemptState_apply_vote_for_action d a i att (BlockCandidate_get_id c) (RoundState_ops r)
  = Done {| ra_sequence_number := ra_sequence_number a; votes := votes a;
            precommitted := precommitted a; vote_for := Some (bc_block c) |}.
Proof.
  intros Hd Hr Hc Hw Hvf -> Hfirst Hne Hmax. unfold RoundAttemptState_apply_vote_for_action. rewrite Hvf.
  rewrite bool_decide_eq_false_2 by (by intros [??]). rewrite get_vote_for_author_ok by done.
  run. rewrite N.eqb_refl. cbn [negb op_get_first_attempt RoundState_ops].
  rewrite Hfirst. run.
  replace (first =? 0) with false by (symmetry; by apply N.eqb_neq). cbn [andb].
  replace (max_round_attempts (options d) =? 0) with false by (symmetry; apply N.eqb_neq; lia). rewrite andb_false_r.
  cbn [op_get_block RoundState_ops]. rewrite get_block_find.
  pose proof (find_key_elem _ _ (rok_sent_sorted _ _ Hr) Hc) as Hf. simpl in Hf. rewrite Hf.
  rewrite check_block_is_approved_ok by (done || apply (cand_len d (rs_sequence_number r)), (rok_sent _ _ Hr); done).
  run. by rewrite (proj2 (N.leb_le _ _) Hw).
Qed.
End generated.
