(* ===== verification/RoundMerge.v ===== *)
(** * Merging two states of the current round

    [RoundState_merge] returns normally from two well-formed states of the same
    round whose precommitted blocks agree, and gives a well-formed state that
    keeps the candidates, the votes and the locks of both. *)

From stdpp Require Import sorting.
From S2P Require Import Prelude SessionDescription Vectors Candidates RoundAttempt Round RoundFacts.

(** ** Merging a value with itself *)
Section merge_self.
Context {X : External}.
Implicit Types (d : SessionDescription).

Lemma wrapper_merge_self {T} `{SortingPredicate T} `{PartialEqSound T} `{EqDecision T} f (w : option (list T)) :
  (∀ x, x ∈ default [] w → f x x = Done x) → SortedVectorWrapper_merge f pool_ptr_eq w w = Done w.
Proof.
  intros Hid. destruct w as [l|]; [|done]. simpl in *. destruct (pool_ptr_eq l l); [done|].
  rewrite SortedVector_merge_impl_items by done.
  assert (SortedVector_merge_items f l l = Done l) as ->; [|done].
  induction l as [|x l IH]; [done|]. rewrite merge_items_cons, N.ltb_irrefl.
  rewrite Hid by set_solver. run. rewrite IH by set_solver. done.
Qed.

Lemma zip_with_sig_join_idem l : zip_with sig_join l l = l.
Proof. induction l as [|s l IH]; simpl; [done|]. by rewrite sig_join_idem, IH. Qed.

Lemma BlockCandidate_merge_idem d (c : BlockCandidate) : merge d c c = Done c.
Proof. rewrite BlockCandidate_merge_ok by done. rewrite zip_with_sig_join_idem. by destruct c. Qed.

Lemma merge_vote_for_idem (v : option SentBlockPtr) : RoundAttemptState_merge_vote_for v v = v.
Proof. destruct v as [b|]; simpl; [|done]. by repeat case_match. Qed.

Lemma RoundAttemptState_merge_idem d (a : RoundAttemptState) : merge d a a = Done a.
Proof.
  unfold merge, RoundAttemptState_merge. rewrite N.eqb_refl. cbn [assert_that mbind outcome_bind].
  rewrite flags_merge_ok by done. run. rewrite wrapper_merge_self.
  - run. rewrite zip_with_orb_idem, merge_vote_for_idem. by destruct a.
  - intros. apply VoteCandidate_merge_idem.
Qed.

Lemma BlockCandidate_merge_keeps_key d : keeps_key (merge (T := BlockCandidate) d).
Proof.
  intros x y z Hm _. unfold merge, BlockCandidate_merge in Hm. repeat outcome_step Hm. done.
Qed.

Lemma RoundAttemptState_merge_keeps_key d : keeps_key (merge (T := RoundAttemptState) d).
Proof.
  intros x y z Hm _. unfold merge, RoundAttemptState_merge in Hm. repeat outcome_step Hm. done.
Qed.

(** Merging sorted wrappers of items for which equal keys can be merged. *)
Lemma sorted_wrapper_merge_ok {T} `{SortingPredicate T} `{PartialEqSound T} `{EqDecision T} f
  (wl wr : option (list T)) :
  keeps_key f → (∀ x, f x x = Done x) →
  key_sorted (default [] wl) → key_sorted (default [] wr) →
  (∀ x y, x ∈ default [] wl → y ∈ default [] wr → sort_key x = sort_key y → ∃ z, f x y = Done z) →
  ∃ w, SortedVectorWrapper_merge f pool_ptr_eq wl wr = Done w ∧ key_sorted (default [] w) ∧
    ∀ k, merged_key f (find_key k (default [] wl)) (find_key k (default [] wr)) (find_key k (default [] w)).
Proof.
  intros Hk Hid Hl Hr Ht. destruct (merge_items_total f _ _ Ht) as [m Hm].
  destruct (wrapper_merge_inv f wl wr m) as (w & Hw & <-); [auto|done|].
  exists w. split; [done|]. split.
  - exact (merge_items_sorted f _ _ _ Hk Hl Hr Hm).
  - intros k. exact (merge_items_find f _ _ _ k Hk Hl Hr Hm).
Qed.

(** Merging per-node slots. *)
Lemma VectorWrapper_merge_pure {T} `{PartialEqSound T} `{EqDecision T} f (g : T → T → T) (l r : list T) :
  (∀ x y, f x y = Done (g x y)) → (∀ x, g x x = x) → length l = length r →
  VectorWrapper_merge_impl f pool_ptr_eq false (Some l) (Some r) = Done (Some (zip_with g l r)).
Proof.
  intros Hf Hg Hlen. unfold VectorWrapper_merge_impl. cbn [negb andb from_option].
  destruct (pool_ptr_eq l r) eqn:E.
  - apply pool_ptr_eq_sound in E as ->. f_equal. f_equal. clear Hlen.
    induction r as [|x r IH]; simpl; [done|]. by rewrite Hg, <- IH.
  - cbn [unwrap mbind outcome_bind]. rewrite Vector_merge_impl_items by (intros; by rewrite Hf, Hg).
    by rewrite (Vector_merge_items_pure f g).
Qed.
End merge_self.

(** ** Merging candidates and attempts *)
Section merge_parts.
Context {X : External}.
Implicit Types (d : SessionDescription) (l r : RoundState).

Lemma merged_candidate_ok d seqno k (x y : option BlockCandidate) c :
  (∀ u, x = Some u → candidate_ok d seqno u ∧ BlockCandidate_get_id u = k) →
  (∀ u, y = Some u → candidate_ok d seqno u ∧ BlockCandidate_get_id u = k) →
  merged_key (merge d) x y (Some c) → candidate_ok d seqno c.
Proof.
  intros Hx Hy Hm. inversion Hm as [| | |u v z Hf]; subst; [by apply Hx|by apply Hy|].
  destruct (Hx u eq_refl) as [[Hlu Hau] Hku], (Hy v eq_refl) as [[Hlv Hav] Hkv].
  rewrite BlockCandidate_merge_ok in Hf by congruence. injection Hf as <-.
  split; simpl; [rewrite length_zip_with; lia|done].
Qed.

Lemma sent_blocks_merge_ok d l r :
  round_ok d l → round_ok d r → rs_sequence_number l = rs_sequence_number r →
  ∃ w, SortedVectorWrapper_merge (merge d) pool_ptr_eq (sent_blocks l) (sent_blocks r) = Done w ∧
    key_sorted (default [] w) ∧
    (∀ c, c ∈ default [] w → candidate_ok d (rs_sequence_number l) c) ∧
    (∀ k, sent_id l k ∨ sent_id r k → ∃ c, c ∈ default [] w ∧ BlockCandidate_get_id c = k).
Proof.
  intros Hl Hr Hseq. pose proof (rok_sent_sorted _ _ Hl) as Hsl. pose proof (rok_sent_sorted _ _ Hr) as Hsr.
  pose proof (rok_sent _ _ Hl) as Hcl. pose proof (rok_sent _ _ Hr) as Hcr. rewrite <- Hseq in Hcr.
  unfold sent_id. rewrite sent_list_default in Hsl, Hsr, Hcl, Hcr. rewrite !sent_list_default.
  destruct (sorted_wrapper_merge_ok (merge d) (sent_blocks l) (sent_blocks r)) as (w & -> & Hs & Hw); try done.
  { apply BlockCandidate_merge_keeps_key. }
  { apply BlockCandidate_merge_idem. }
  { intros x y Hx Hy Hk. eexists. apply BlockCandidate_merge_ok; [done|].
    by rewrite (cand_len _ _ _ (Hcl x Hx)), (cand_len _ _ _ (Hcr y Hy)). }
  exists w. split; [done|]. split; [done|]. split.
  - intros c Hc. specialize (Hw (BlockCandidate_get_id c)).
    pose proof (find_key_elem _ _ Hs Hc) as Hf. simpl in Hf. rewrite Hf in Hw.
    eapply merged_candidate_ok; [..|exact Hw]; intros u [Hu Hk]%find_key_Some; eauto.
  - intros k Hk. specialize (Hw k). destruct (find_key k (default [] w)) as [c|] eqn:Ec.
    + apply find_key_Some in Ec as [? ?]. eauto.
    + inversion Hw as [Hn1 Hn2| | |]. symmetry in Hn1, Hn2.
      destruct Hk as [(c & Hc & <-)|(c & Hc & <-)].
      * by destruct (proj1 (find_key_None _ _) Hn1 c Hc).
      * by destruct (proj1 (find_key_None _ _) Hn2 c Hc).
Qed.

(** The merged attempts: well formed, and every attempt of either side is
    covered by one with the same number and at least its votes. *)
Lemma attempts_merge_ok d l r :
  desc_ok d → round_ok d l → round_ok d r →
  ∃ w, SortedVectorWrapper_merge (merge d) pool_ptr_eq (attempts l) (attempts r) = Done w ∧
    key_sorted (default [] w) ∧
    (∀ a, a ∈ default [] w → attempt_ok d (λ k, sent_id l k ∨ sent_id r k) a) ∧
    (∀ k a, find_key k (attempt_list l) = Some a ∨ find_key k (attempt_list r) = Some a →
       ∃ m, find_key k (default [] w) = Some m ∧ votes_grow a m).
Proof.
  intros Hd Hl Hr. pose proof (rok_att_sorted _ _ Hl) as Hsl. pose proof (rok_att_sorted _ _ Hr) as Hsr.
  pose proof (rok_att _ _ Hl) as Hal. pose proof (rok_att _ _ Hr) as Har.
  rewrite attempt_list_default in Hsl, Hsr, Hal, Har. rewrite !attempt_list_default.
  assert (Hboth : ∀ x y, x ∈ default [] (attempts l) → y ∈ default [] (attempts r) →
    ra_sequence_number x = ra_sequence_number y →
    ∃ m, merge d x y = Done m ∧ attempt_ok d (λ k, sent_id l k ∨ sent_id r k) m ∧
      ra_sequence_number m = ra_sequence_number x ∧ votes_grow x m ∧ votes_grow y m).
  { intros x y Hx Hy Hk. apply attempt_merge_ok; auto. }
  destruct (sorted_wrapper_merge_ok (merge d) (attempts l) (attempts r)) as (w & -> & Hs & Hw); try done.
  { apply RoundAttemptState_merge_keeps_key. }
  { apply RoundAttemptState_merge_idem. }
  { intros x y Hx Hy Hk. destruct (Hboth x y Hx Hy Hk) as (m & Hm & _). eauto. }
  exists w. split; [done|]. split; [done|]. split.
  - intros a Ha. specialize (Hw (ra_sequence_number a)).
    pose proof (find_key_elem _ _ Hs Ha) as Hf. simpl in Hf. rewrite Hf in Hw.
    inversion Hw as [|x Hx Hy|y Hx Hy|x y z Hm Hx Hy]; subst.
    + symmetry in Hx. apply find_key_Some in Hx as [Hx _]. eapply attempt_ok_mono; [|by apply Hal]. auto.
    + symmetry in Hy. apply find_key_Some in Hy as [Hy _]. eapply attempt_ok_mono; [|by apply Har]. auto.
    + symmetry in Hx, Hy. apply find_key_Some in Hx as [Hx Hkx]. apply find_key_Some in Hy as [Hy Hky].
      destruct (Hboth x y Hx Hy) as (m & Hm' & Hok & _); [by simpl in *; congruence|]. congruence.
  - intros k a Ha. specialize (Hw k). destruct (find_key k (default [] w)) as [m|] eqn:Em.
    + exists m. split; [done|]. inversion Hw as [|x Hx Hy|y Hx Hy|x y z Hm Hx Hy]; subst.
      * rewrite <- Hx, <- Hy in Ha. destruct Ha as [[= <-]|?]; [apply votes_grow_refl|done].
      * rewrite <- Hx, <- Hy in Ha. destruct Ha as [?|[= <-]]; [done|apply votes_grow_refl].
      * rewrite <- Hx, <- Hy in Ha. symmetry in Hx, Hy.
        apply find_key_Some in Hx as [Hx Hkx]. apply find_key_Some in Hy as [Hy Hky].
        destruct (Hboth x y Hx Hy) as (m' & Hm' & _ & _ & Hg1 & Hg2); [by simpl in *; congruence|].
        assert (m' = m) as -> by congruence. destruct Ha as [[= <-]|[= <-]]; done.
    + inversion Hw as [Hn1 Hn2| | |]. destruct Ha; congruence.
Qed.
End merge_parts.

(** ** The search for diverging voted blocks *)
Section merge_scan.
Context {X : External}.
Implicit Types (d : SessionDescription) (l : list RoundAttemptState) (s : DiversedScan).

Definition newest_first l : Prop :=
  StronglySorted (λ x y : RoundAttemptState, ra_sequence_number y < ra_sequence_number x) l.

Lemma rev_newest_first l : key_sorted l → newest_first (rev l).
Proof.
  induction l as [|x l IH]; intros Hs; simpl; [constructor|].
  apply key_sorted_cons_inv in Hs as [Hs Hx]. apply StronglySorted_app_2; [|by apply IH|repeat constructor].
  intros y z Hy ->%list_elem_of_singleton. apply Hx. apply list_elem_of_In, in_rev. by apply list_elem_of_In.
Qed.

(** The two remembered attempts are ordered, the first one being newer than the
    attempts still to be visited. *)
Definition scan_inv s l : Prop :=
  (diversed_voted_attempts_count s = 0 ∧ diversed_voted_attempt_1 s = 0) ∨
  (diversed_voted_attempts_count s ≠ 0 ∧ diversed_voted_attempt_1 s < diversed_voted_attempt_0 s ∧
   ∀ a, a ∈ l → ra_sequence_number a < diversed_voted_attempt_0 s).

Lemma scan_voted_inv s a l voted :
  0 < ra_sequence_number a → newest_first (a :: l) → scan_inv s (a :: l) →
  scan_inv (RoundState_scan_voted s a voted) l ∧
  scan_precommitted_block (RoundState_scan_voted s a voted) = scan_precommitted_block s ∧
  (diversed_voted_attempts_count (RoundState_scan_voted s a voted) = 0 →
   voted = None ∧ diversed_voted_attempts_count s = 0).
Proof.
  intros Ha [Hs Hlt]%StronglySorted_inv Hinv. rewrite Forall_forall in Hlt.
  assert (Hweak : scan_inv s l).
  { destruct Hinv as [?|(? & ? & H)]; [by left|right]. split; [done|]. split; [done|]. intros; apply H. set_solver. }
  destruct voted as [b|]; simpl; [|done].
  destruct (diversed_voted_attempts_count s =? 0) eqn:E; breflect; simpl.
  - destruct Hinv as [[_ H1]|[? _]]; [|done]. split; [right|done]. simpl. rewrite H1.
    split; [lia|]. split; [done|]. intros x Hx. apply Hlt. by apply list_elem_of_In.
  - destruct Hinv as [[? _]|(_ & H01 & Hl)]; [done|].
    destruct (_ =? _); [done|]. split; [right|done]. simpl.
    split; [done|]. split; [apply Hl; set_solver|]. intros; apply Hl; set_solver.
Qed.

Lemma scan_precommitted_ok d (ids : N → Prop) s a :
  desc_ok d → attempt_ok d ids a →
  (∀ b, scan_precommitted_block s = Some b → ids (SentBlock_get_id b)) →
  ∃ s', RoundState_scan_precommitted d s a = Done s' ∧
    diversed_voted_attempts_count s' = diversed_voted_attempts_count s ∧
    diversed_voted_attempt_0 s' = diversed_voted_attempt_0 s ∧
    diversed_voted_attempt_1 s' = diversed_voted_attempt_1 s ∧
    (∀ b, scan_precommitted_block s' = Some b → ids (SentBlock_get_id b)) ∧
    (∀ b, scan_precommitted_block s = Some b → scan_precommitted_block s' = Some b).
Proof.
  intros Hd Ha Hpb. unfold RoundState_scan_precommitted.
  destruct (bool_decide (is_Some (scan_precommitted_block s))) eqn:E.
  { exists s. eauto 10. }
  assert (Hnone : scan_precommitted_block s = None).
  { apply bool_decide_eq_false in E. destruct (scan_precommitted_block s); [|done]. destruct E; eauto. }
  rewrite (check_attempt_is_precommitted_ok d ids) by done. run.
  destruct (cutoff_weight d <=? _) eqn:Ec; breflect; cbn [negb]; [|by exists s].
  rewrite (get_voted_block_ok d ids) by done. run.
  destruct (precommitted_voted d ids a Hd Ha Ec) as [b Hb]. rewrite Hb. cbn [mbind outcome_bind unwrap].
  eexists. split; [done|]. simpl. do 3 (split; [done|]). split.
  - intros ? [= <-]. by eapply voted_block_ids.
  - congruence.
Qed.

Lemma merge_scan_ok d (ids : N → Prop) l s :
  desc_ok d → (∀ a, a ∈ l → attempt_ok d ids a) → newest_first l → scan_inv s l →
  (∀ b, scan_precommitted_block s = Some b → ids (SentBlock_get_id b)) →
  ∃ s', RoundState_merge_scan d l s = Done s' ∧ scan_inv s' [] ∧
    (diversed_voted_attempts_count s' = 0 →
       diversed_voted_attempts_count s = 0 ∧ ∀ a, a ∈ l → voted_block d a = None) ∧
    (∀ b, scan_precommitted_block s' = Some b → ids (SentBlock_get_id b)) ∧
    (∀ b, scan_precommitted_block s = Some b → scan_precommitted_block s' = Some b).
Proof.
  intros Hd. revert s. induction l as [|a l IH]; intros s Hok Hs Hinv Hpb.
  { exists s. split; [done|]. split; [done|]. set_solver. }
  cbn [RoundState_merge_scan]. assert (Ha : attempt_ok d ids a) by (apply Hok; set_solver).
  rewrite (get_voted_block_ok d ids) by done. run.
  assert (Hfirst : ∃ s1, (if diversed_voted_attempts_count s <=? 1
      then Done (RoundState_scan_voted s a (voted_block d a)) else Done s) = Done s1 ∧
      scan_inv s1 l ∧ scan_precommitted_block s1 = scan_precommitted_block s ∧
      (diversed_voted_attempts_count s1 = 0 → voted_block d a = None ∧ diversed_voted_attempts_count s = 0)).
  { destruct (scan_voted_inv s a l (voted_block d a) (att_seqno _ _ _ Ha) Hs Hinv) as (? & ? & ?).
    destruct (_ <=? 1) eqn:E; breflect; [eauto|]. exists s. split; [done|].
    split; [|split; [done|lia]]. destruct Hinv as [[? _]|(? & ? & Hlt)]; [lia|right]. set_solver. }
  destruct Hfirst as (s1 & -> & Hinv1 & Hpb1 & Hc1). run.
  destruct (scan_precommitted_ok d ids s1 a Hd Ha) as (s2 & -> & Hc2 & H0 & H1 & Hids2 & Hkeep2).
  { by rewrite Hpb1. }
  assert (Hinv2 : scan_inv s2 l) by (unfold scan_inv in *; by rewrite Hc2, H0, H1).
  run. rewrite Hpb1 in Hkeep2.
  destruct (bool_decide (is_Some (scan_precommitted_block s2)) && _) eqn:Ebreak.
  - breflect. exists s2. split; [done|]. split; [|split; [lia|done]].
    destruct Hinv2 as [[? _]|(? & ? & _)]; [lia|right]. set_solver.
  - apply StronglySorted_inv in Hs as [Hs _].
    destruct (IH s2) as (s' & -> & Hinv' & Hc' & Hids' & Hkeep'); [set_solver|done..|].
    exists s'. split; [done|]. split; [done|]. split; [|split; [done|auto]].
    intros Hz. destruct (Hc' Hz) as [Hz2 Hl]. destruct Hc1 as [Hva Hz0]; [congruence|].
    split; [done|]. by intros x [->|Hx]%elem_of_cons; [|auto].
Qed.
End merge_scan.

(** ** The whole merge *)
Section round_merge.
Context {X : External}.
Implicit Types (d : SessionDescription) (l r m : RoundState).

(** Reference merge of two first attempts: the smaller one that is set. *)
Definition first_join (x y : N) : N := if x =? 0 then y else if y =? 0 then x else N.min x y.

Lemma first_attempt_merge_ok d l r :
  round_ok d l → round_ok d r →
  ∃ fa, VectorWrapper_merge_impl merge_first_attempt_item pool_ptr_eq false (first_attempt l) (first_attempt r)
    = Done (Some fa) ∧ length fa = length (sources d).
Proof.
  intros Hl Hr. destruct (rok_first _ _ Hl) as (fl & -> & Hfl), (rok_first _ _ Hr) as (fr & -> & Hfr).
  rewrite (VectorWrapper_merge_pure _ first_join); [|done| |congruence].
  - eexists. split; [done|]. rewrite length_zip_with. lia.
  - intros x. unfold first_join. destruct (x =? 0); [done|]. lia.
Qed.

(** A merged lock is a lock of one of the sides. *)
Lemma merge_last_precommit_item_ok s x y :
  (diversed_voted_attempts_count s = 0 → x = 0 ∧ y = 0) →
  ∃ z, merge_last_precommit_item s x y = Done z ∧ (0 < z → z = x ∨ z = y).
Proof.
  intros Hz. unfold merge_last_precommit_item.
  destruct (_ =? 0) eqn:E; breflect.
  - destruct (Hz E) as [-> ->]. simpl. eexists. split; [done|lia].
  - destruct (_ <? _); eexists; (split; [done|lia]).
Qed.

Lemma last_precommit_merge_ok d s (lw : list RoundAttemptState) l r :
  round_ok d l → round_ok d r →
  (∀ k, locked d (attempt_list l) k ∨ locked d (attempt_list r) k → locked d lw k) →
  (diversed_voted_attempts_count s = 0 → ∀ k, ~ locked d lw k) →
  ∃ lp, VectorWrapper_merge_impl (merge_last_precommit_item s) pool_ptr_eq true
      (last_precommit l) (last_precommit r) = Done (Some lp) ∧
    length lp = length (sources d) ∧ locks_ok d lw lp.
Proof.
  intros Hl Hr Hlock Hnone.
  destruct (rok_last _ _ Hl) as (pl & -> & Hpl & Hll), (rok_last _ _ Hr) as (pr & -> & Hpr & Hlr).
  assert (Hitem : ∀ (i : nat) x y, pl !! i = Some x → pr !! i = Some y →
    ∃ z, merge_last_precommit_item s x y = Done z ∧ (0 < z → z = x ∨ z = y)).
  { intros i x y Hx Hy. apply merge_last_precommit_item_ok. intros Hc.
    pose proof (λ k, Hnone Hc k) as Hno. split; destruct (decide (0 < x)), (decide (0 < y)); try lia.
    1,2: destruct (Hno x); apply Hlock; left; by eapply Hll.
    all: destruct (Hno y); apply Hlock; right; by eapply Hlr. }
  assert (Hlen : length pl = length pr) by congruence.
  destruct (Vector_merge_items_total (merge_last_precommit_item s) true pl pr Hlen) as [lp Hlp].
  { intros i x y Hx Hy. destruct (Hitem i x y Hx Hy) as (z & Hz & _). eauto. }
  exists lp. unfold VectorWrapper_merge_impl, Vector_merge_impl. cbn [negb andb unwrap mbind outcome_bind].
  rewrite Hlp. split; [done|].
  destruct (Vector_merge_items_lookup _ _ _ _ _ Hlen Hlp) as [Hl' Hz]. split; [congruence|].
  intros i k Hk Hk0. assert (i < length lp)%nat by by eapply lookup_lt_Some.
  destruct (lookup_lt_is_Some_2 pl i) as [x Hx]; [lia|].
  destruct (lookup_lt_is_Some_2 pr i) as [y Hy]; [lia|].
  destruct (Hz i x y Hx Hy) as (z & Hzi & Hf). rewrite Hk in Hzi. injection Hzi as <-.
  destruct (Hitem i x y Hx Hy) as (z' & Hf' & Hor). rewrite Hf in Hf'. injection Hf' as <-.
  apply Hlock. destruct (Hor Hk0) as [->| ->]; [left; by eapply Hll|right; by eapply Hlr].
Qed.

Lemma precommitted_merge_ok d l r :
  round_ok d l → round_ok d r →
  ∃ p, Option_merge d (precommitted_block l) (precommitted_block r) = Done p ∧
    (∀ b, p = Some b → sent_id l (SentBlock_get_id b) ∨ sent_id r (SentBlock_get_id b)) ∧
    (p = None → precommitted_block l = None ∧ precommitted_block r = None).
Proof.
  intros Hl Hr. pose proof (rok_precommitted _ _ Hl) as Hpl. pose proof (rok_precommitted _ _ Hr) as Hpr.
  destruct (precommitted_block l) as [bl|], (precommitted_block r) as [br|]; simpl.
  - destruct (partial_eq bl br); [eexists; split; [done|]; naive_solver|].
    destruct bl as [bl|], br as [br|]; simpl; eexists; (split; [done|]); naive_solver.
  - eexists; split; [done|]; naive_solver.
  - eexists; split; [done|]; naive_solver.
  - eexists; split; [done|]; naive_solver.
Qed.

Lemma zip_with_sig_join_None (a b : list BlockCandidateSignaturePtr) s :
  (∀ x, x ∈ a → x = None) → (∀ x, x ∈ b → x = None) → s ∈ zip_with sig_join a b → s = None.
Proof.
  intros Ha Hb (i & Hi)%list_elem_of_lookup. apply lookup_zip_with_Some in Hi as (x & y & -> & Hx & Hy).
  rewrite (Ha x), (Hb y); [done|by eapply list_elem_of_lookup_2..].
Qed.

Lemma round_merge_ok d l r :
  desc_ok d → round_ok d l → round_ok d r →
  rs_sequence_number l = rs_sequence_number r →
  RoundState_precommits_agree (precommitted_block l) (precommitted_block r) = true →
  ∃ m, merge d l r = Done m ∧ round_ok d m ∧ rs_sequence_number m = rs_sequence_number l ∧
    rs_signatures m = zip_with sig_join (rs_signatures l) (rs_signatures r) ∧
    (∀ b, Option_merge d (precommitted_block l) (precommitted_block r) = Done (Some b) →
       precommitted_block m = Some b).
Proof.
  intros Hd Hl Hr Hseq Hagree. unfold merge, RoundState_merge. rewrite Hseq, N.eqb_refl, Hagree.
  cbn [assert_that mbind outcome_bind].
  destruct (first_attempt_merge_ok d l r Hl Hr) as (fa & -> & Hfa). run.
  destruct (attempts_merge_ok d l r Hd Hl Hr) as (wa & -> & Hsa & Hoka & Hcov). run.
  destruct (precommitted_merge_ok d l r Hl Hr) as (p & Hpm & Hp & Hpn). rewrite Hpm. run.
  assert (Hwa : VectorWrapper_iter wa = default [] wa) by by destruct wa.
  match goal with |- context [RoundState_merge_scan d _ ?s0] =>
    destruct (merge_scan_ok d (λ k, sent_id l k ∨ sent_id r k) (rev (VectorWrapper_iter wa)) s0)
      as (s & -> & Hinv & Hnone & Hids & Hkeep) end; [done|..|run].
  { intros a Ha. apply Hoka. rewrite <- Hwa. apply list_elem_of_In. rewrite in_rev. by apply list_elem_of_In. }
  { apply rev_newest_first. by rewrite Hwa. }
  { by left. }
  { done. }
  assert (Hassert : (diversed_voted_attempts_count s =? 0)
    || (diversed_voted_attempt_1 s <? diversed_voted_attempt_0 s) = true).
  { apply orb_true_iff. destruct Hinv as [[? _]|(_ & ? & _)]; [left; by apply N.eqb_eq|right; by apply N.ltb_lt]. }
  rewrite Hassert. cbn [assert_that mbind outcome_bind].
  destruct (last_precommit_merge_ok d s (default [] wa) l r Hl Hr) as (lp & -> & Hlp & Hlk).
  { intros k [(a & Ha & Hv)|(a & Ha & Hv)]; destruct (Hcov k a) as (m & Hm & Hg); auto;
      exists m; eauto using votes_grow_voted. }
  { intros Hc k (a & Ha & [b Hb]). destruct (Hnone Hc) as [_ Hno].
    apply find_key_Some in Ha as [Ha _]. rewrite (Hno a) in Hb; [done|].
    apply list_elem_of_In, in_rev. rewrite rev_involutive. apply list_elem_of_In. by rewrite Hwa. }
  run. pose proof (rok_sigs _ _ Hl) as Hsl. pose proof (rok_sigs _ _ Hr) as Hsr.
  rewrite signatures_merge_ok by congruence. run.
  destruct (sent_blocks_merge_ok d l r Hl Hr Hseq) as (ws & -> & Hss & Hcand & Hsent). run.
  eexists. split; [done|]. split; [|split; [done|split; [done|intros b [= ->]; by apply Hkeep]]].
  assert (Hsid : ∀ k, sent_id l k ∨ sent_id r k → ∃ c, c ∈ VectorWrapper_iter ws ∧ BlockCandidate_get_id c = k).
  { intros k Hk. destruct (Hsent k Hk) as (c & Hc & ?). exists c. split; [|done]. by destruct ws. }
  split; simpl; try done; rewrite ?attempt_list_default, ?sent_list_default; simpl; try done.
  - eauto.
  - exists lp. auto.
  - rewrite length_zip_with. lia.
  - by rewrite <- Hseq.
  - intros a Ha. eapply attempt_ok_mono; [|by apply Hoka]. done.
  - intros b Hb. by apply Hsid, Hids.
  - intros Hn. destruct p as [b|]; [by rewrite (Hkeep b eq_refl) in Hn|].
    destruct (Hpn eq_refl) as [Hnl Hnr]. intros s' Hs'.
    eapply zip_with_sig_join_None; [..|exact Hs']; [by apply (rok_unsigned _ _ Hl)|by apply (rok_unsigned _ _ Hr)].
Qed.
End round_merge.
