(* ===== verification/SessionState.v ===== *)
(** * Session states

    Finished rounds, then the whole session state.  First part: models [validator-session/src/old_round.rs]: a finished round keeps its
    committed block, the commit signatures and the approve signatures; late
    approvals and commits of the same block are still collected. *)

From S2P Require Import Prelude SessionDescription Vectors Candidates RoundAttempt Round.

Record OldRoundState := {
  or_sequence_number : N;
  or_block : SentBlockPtr;
  or_signatures : BlockCandidateSignatureVectorPtr;
  or_approve_signatures : BlockCandidateSignatureVectorPtr;
}.

#[global] Instance OldRoundState_eq_dec : EqDecision OldRoundState.
Proof. solve_decision. Defined.
#[global] Instance OldRoundState_partial_eq {X : External} : PartialEq OldRoundState := pool_ptr_eq.
#[global] Instance OldRoundState_partial_eq_sound {X : External} : PartialEqSound OldRoundState.
Proof. intros x y. apply ext_same_address_sound. Qed.

Section old_round.
Context {X : External}.
Implicit Types (d : SessionDescription) (self : OldRoundState).

Definition OldRoundState_get_block_id self : N := SentBlock_get_id (or_block self).

Definition OldRoundState_check_block_is_approved_by self (src_idx : N) : outcome bool :=
  s ← Vector_at (or_approve_signatures self) src_idx; Done (bool_decide (is_Some s)).

Definition OldRoundState_check_block_is_signed_by self (src_idx : N) : outcome bool :=
  s ← Vector_at (or_signatures self) src_idx; Done (bool_decide (is_Some s)).

(** [merge_round]: a late current round is merged into the finished one. *)
Definition OldRoundState_merge_round d self (right : RoundState) : outcome OldRoundState :=
  _ ← assert_that (or_sequence_number self =? rs_sequence_number right);
  let signed_block := RoundState_get_block right (OldRoundState_get_block_id self) in
  signatures ← signatures_merge d (or_signatures self) (rs_signatures right);
  approve_signatures ←
    match signed_block with
    | Some signed_block => signatures_merge d (or_approve_signatures self) (approved_by signed_block)
    | None => Done (or_approve_signatures self)
    end;
  Done {| or_sequence_number := or_sequence_number self; or_block := or_block self;
          or_signatures := signatures; or_approve_signatures := approve_signatures |}.

#[global] Instance OldRoundState_merge : Merge OldRoundState := λ d left right,
  _ ← assert_that (or_sequence_number left =? or_sequence_number right);
  signatures ← signatures_merge d (or_signatures left) (or_signatures right);
  approve_signatures ← signatures_merge d (or_approve_signatures left) (or_approve_signatures right);
  Done {| or_sequence_number := or_sequence_number left; or_block := or_block left;
          or_signatures := signatures; or_approve_signatures := approve_signatures |}.

(** A signature on the committed block, checked by [check]; the skip candidate
    must be unsigned. *)
Definition OldRoundState_check self (candidate : N) (signature : list N)
  (check : SentBlock → outcome bool) : outcome bool :=
  if negb (candidate =? SKIP_ROUND_CANDIDATE_BLOCKID) then
    committed_block ← unwrap (or_block self); check committed_block
  else Done (length signature =? 0)%nat.

Definition OldRoundState_apply_approved_block_action d self (src_idx candidate : N) (signature : list N)
  : outcome OldRoundState :=
  if negb (candidate =? OldRoundState_get_block_id self) then Done self else
  existing ← Vector_at (or_approve_signatures self) src_idx;
  if bool_decide (is_Some existing) then Done self else
  valid ← OldRoundState_check self candidate signature
            (λ b, check_approve_signature d (sb_root_hash b) (sb_file_hash b) src_idx signature);
  if negb valid then Done self else
  approve_signatures ← Vector_change (or_approve_signatures self) src_idx
                         (BlockCandidateSignature_create signature);
  Done {| or_sequence_number := or_sequence_number self; or_block := or_block self;
          or_signatures := or_signatures self; or_approve_signatures := approve_signatures |}.

Definition OldRoundState_apply_committed_block_action d self (src_idx candidate : N) (signature : list N)
  : outcome OldRoundState :=
  if negb (candidate =? OldRoundState_get_block_id self) then Done self else
  valid ← OldRoundState_check self candidate signature
            (λ b, check_signature d (sb_root_hash b) (sb_file_hash b) src_idx signature);
  if negb valid then Done self else
  signed ← OldRoundState_check_block_is_signed_by self src_idx;
  if (signed : bool) then Done self else
  commit_signatures ← Vector_change (or_signatures self) src_idx (BlockCandidateSignature_create signature);
  Done {| or_sequence_number := or_sequence_number self; or_block := or_block self;
          or_signatures := commit_signatures; or_approve_signatures := or_approve_signatures self |}.

(** [apply_action] and [apply_action_dispatch] *)
Definition OldRoundState_apply_action d self (src_idx : N) (message : Message) : outcome OldRoundState :=
  match message with
  | ApprovedBlock _ candidate signature =>
      OldRoundState_apply_approved_block_action d self src_idx candidate signature
  | Commit _ candidate signature =>
      OldRoundState_apply_committed_block_action d self src_idx candidate signature
  | _ => Done self
  end.

Definition OldRoundState_create_from_round d (round : RoundState) : outcome OldRoundState :=
  block ← unwrap (precommitted_block round);
  signed ← RoundState_check_block_is_signed d round;
  _ ← assert_that signed;
  block_candidate ← unwrap (RoundState_get_block round (SentBlock_get_id block));
  Done {| or_sequence_number := rs_sequence_number round; or_block := block;
          or_signatures := rs_signatures round;
          or_approve_signatures := approved_by block_candidate |}.
End old_round.

(** ** The replicated session state

    Models [validator-session/src/session_state.rs]: the attempt clock of each
    validator, the finished rounds and the current round; the handler of an
    incoming message, the fixpoint of implicit actions ([make_all]) and the
    merge of the states of two validators. *)

Definition MIN_ATTEMPT_ID : N := 1024.

Record SessionState := {
  attempt_ids : list N;
  current_round : RoundState;
  old_rounds : option (list OldRoundState);
}.

#[global] Instance SessionState_eq_dec : EqDecision SessionState.
Proof. solve_decision. Defined.

Definition get_round_id (message : Message) : N :=
  i32_as_u32
    match message with
    | ApprovedBlock round _ _ | Commit round _ _ | Empty round _ | Precommit round _ _
    | RejectedBlock round _ _ | SubmittedBlock round _ _ _ | Vote round _ _ | VoteFor round _ _ => round
    end.

Section session_state.
Context {X : External}.
Implicit Types (d : SessionDescription) (self : SessionState).

(** ** Accessors *)
Definition SessionState_get_ts self (src_idx : N) : outcome N := Vector_at (attempt_ids self) src_idx.

Definition SessionState_get_block self (block_id : N) : option SentBlockPtr :=
  bc_block <$> RoundState_get_block (current_round self) block_id.

(** Access to a finished round by sequence number. *)
Definition SessionState_get_old_round self (sequence_number : N) : outcome (option OldRoundState) :=
  if sequence_number <? VectorWrapper_len (old_rounds self) then
    r ← VectorWrapper_at (old_rounds self) sequence_number; Done (Some r)
  else Done None.

Definition SessionState_get_committed_block_approve_signatures self (sequence_number : N)
  : outcome (option BlockCandidateSignatureVectorPtr) :=
  r ← SessionState_get_old_round self sequence_number; Done (option_map or_approve_signatures r).

Definition SessionState_get_committed_block_signatures self (sequence_number : N)
  : outcome (option BlockCandidateSignatureVectorPtr) :=
  r ← SessionState_get_old_round self sequence_number; Done (option_map or_signatures r).

Definition SessionState_get_committed_block self (round_seqno : N) : outcome (option SentBlockPtr) :=
  r ← SessionState_get_old_round self round_seqno; Done (option_map or_block r).

Definition SessionState_check_block_is_approved_by self (src_idx block_id : N) : outcome bool :=
  match RoundState_get_block (current_round self) block_id with
  | None => Done false
  | Some block_candidate => BlockCandidate_check_block_is_approved_by block_candidate src_idx
  end.

Definition SessionState_choose_block_to_sign self (src_idx : N) : outcome (option SentBlockPtr) :=
  signed ← RoundState_check_block_is_signed_by (current_round self) src_idx;
  if (signed : bool) then Done None else Done (RoundState_choose_block_to_sign (current_round self)).

(** ** Incremental updates *)

(** The attempt number of a message may neither go back nor be too small. *)
Definition clamp_attempt_id (current attempt_id : N) : N :=
  let attempt_id := if attempt_id <? current then current else attempt_id in
  if attempt_id <? MIN_ATTEMPT_ID then MIN_ATTEMPT_ID else attempt_id.

(** Close a signed round: it becomes an old round and a new one is created. *)
Definition SessionState_close_round d (round : RoundState) (olds : option (list OldRoundState))
  : outcome (RoundState * option (list OldRoundState)) :=
  old_round ← OldRoundState_create_from_round d round;
  _ ← assert_that (VectorWrapper_len olds mod two32 =? or_sequence_number old_round);
  Done (RoundState_create_current_round d (u32_add (rs_sequence_number round) 1),
        VectorWrapper_push olds old_round).

Definition SessionState_apply_action d self (src_idx attempt_id : N) (message : Message)
  : outcome SessionState :=
  current_attempt_id_for_node ← Vector_at (attempt_ids self) src_idx;
  let attempt_id := clamp_attempt_id current_attempt_id_for_node attempt_id in
  new_attempt_ids ← Vector_change (attempt_ids self) src_idx attempt_id;
  let round_id := get_round_id message in
  let current_round_id := rs_sequence_number (current_round self) in
  if current_round_id <? round_id then
    Done {| attempt_ids := new_attempt_ids; current_round := current_round self;
            old_rounds := old_rounds self |}
  else if round_id =? current_round_id then
    new_current_round ← RoundState_apply_action d (current_round self) src_idx attempt_id message;
    signed ← RoundState_check_block_is_signed d new_current_round;
    res ← (if (signed : bool) then SessionState_close_round d new_current_round (old_rounds self)
           else Done (new_current_round, old_rounds self));
    Done {| attempt_ids := new_attempt_ids; current_round := fst res; old_rounds := snd res |}
  else
    old_round ← VectorWrapper_at (old_rounds self) round_id;
    new_old_round ← OldRoundState_apply_action d old_round src_idx message;
    new_old_rounds ← VectorWrapper_change (old_rounds self) round_id new_old_round;
    Done {| attempt_ids := new_attempt_ids; current_round := current_round self;
            old_rounds := new_old_rounds |}.

Definition SessionState_create_action d self (src_idx attempt_id : N) : outcome (option Message) :=
  RoundState_create_action d (current_round self) src_idx attempt_id.

Definition SessionState_make_one d self (src_idx attempt_id : N) : outcome (SessionState * bool) :=
  current_attempt_id_for_node ← Vector_at (attempt_ids self) src_idx;
  let attempt_id := clamp_attempt_id current_attempt_id_for_node attempt_id in
  let time_updated := current_attempt_id_for_node <? attempt_id in
  attempt_ids' ← (if (time_updated : bool) then Vector_change (attempt_ids self) src_idx attempt_id
                  else Done (attempt_ids self));
  res ← RoundState_make_one d (current_round self) src_idx attempt_id;
  let '(round, made_changes) := res in
  if negb made_changes && negb time_updated then Done (self, false) else
  signed ← RoundState_check_block_is_signed d round;
  _ ← assert_that (negb signed);
  Done ({| attempt_ids := attempt_ids'; current_round := round; old_rounds := old_rounds self |}, true).

(** [make_all]: repeat [make_one] until it makes no change; [None] when the
    fuel runs out. *)
Fixpoint SessionState_make_all (fuel : nat) d self (src_idx attempt_id : N) : option (outcome SessionState) :=
  match fuel with
  | O => None
  | S fuel' =>
      match SessionState_make_one d self src_idx attempt_id with
      | Panic => Some Panic
      | Done (state, made) =>
          if made then SessionState_make_all fuel' d state src_idx attempt_id else Some (Done state)
      end
  end.

(** ** Merge *)

(** The choice of the current round: the later of the two, the other being
    merged into the finished rounds, or the merge of the two. *)
Definition SessionState_merge_rounds d (left right : RoundState) (olds : option (list OldRoundState))
  : outcome (RoundState * option (list OldRoundState)) :=
  let left_sequence_number := rs_sequence_number left in
  let right_sequence_number := rs_sequence_number right in
  if left_sequence_number <? right_sequence_number then
    old_round ← VectorWrapper_at olds left_sequence_number;
    old_round ← OldRoundState_merge_round d old_round left;
    olds' ← VectorWrapper_change olds left_sequence_number old_round;
    Done (right, olds')
  else if right_sequence_number <? left_sequence_number then
    old_round ← VectorWrapper_at olds right_sequence_number;
    old_round ← OldRoundState_merge_round d old_round right;
    olds' ← VectorWrapper_change olds right_sequence_number old_round;
    Done (left, olds')
  else
    round ← merge d left right; Done (round, olds).

#[global] Instance SessionState_merge : Merge SessionState := λ d left right,
  _ ← assert_that (N.of_nat (length (attempt_ids left)) =? get_total_nodes d);
  _ ← assert_that (N.of_nat (length (attempt_ids right)) =? get_total_nodes d);
  attempt_ids' ← Vector_merge_impl (λ l r, Done (N.max l r)) false (attempt_ids left) (attempt_ids right);
  olds ← VectorWrapper_merge_impl (merge d) pool_ptr_eq false (old_rounds left) (old_rounds right);
  res ← SessionState_merge_rounds d (current_round left) (current_round right) olds;
  let '(round, olds) := res in
  signed ← RoundState_check_block_is_signed d round;
  res ← (if (signed : bool) then
           _ ← assert_that (rs_sequence_number round =? VectorWrapper_len olds);
           SessionState_close_round d round olds
         else Done (round, olds));
  Done {| attempt_ids := attempt_ids'; current_round := fst res; old_rounds := snd res |}.

Definition SessionState_create_empty d : SessionState :=
  {| attempt_ids := replicate (N.to_nat (get_total_nodes d)) 0;
     current_round := RoundState_create_current_round d 0;
     old_rounds := None |}.
End session_state.
