(* ===== verification/SessionFacts.v ===== *)
(** * Session invariant: messages, implicit actions and merges

    [session_ok] is the invariant of the replicated session state.  The handler
    of incoming messages, the implicit actions and the merge of two states
    return normally from states that satisfy it, keep it, and never change the
    block of a finished round. *)

From S2P Require Import Prelude SessionDescription Vectors Candidates RoundAttempt Round RoundFacts RoundMerge SessionState.

(** ** Finished rounds *)
Section old_round_facts.
Context {X : External}.
Implicit Types (d : SessionDescription) (o : OldRoundState) (r : RoundState).

Definition sig_flags (sigs : BlockCandidateSignatureVectorPtr) : list bool := is_present <$> sigs.

(** Round [k] is finished with a commit certificate: the signers of its block
    weigh at least the cutoff. *)
Record old_ok d (k : N) o : Prop := {
  old_seqno : or_sequence_number o = k;
  old_sigs_len : length (or_signatures o) = length (sources d);
  old_approve_len : length (or_approve_signatures o) = length (sources d);
  old_cert : cutoff_weight d ≤ flag_weight (sources d) (sig_flags (or_signatures o));
}.

(** A finished round only ever gains signatures. *)
Record old_grows o o' : Prop := {
  grows_seqno : or_sequence_number o' = or_sequence_number o;
  grows_block : or_block o' = or_block o;
  grows_sigs : (sig_flags (or_signatures o)) ≤ᶠ (sig_flags (or_signatures o'));
  grows_approve : (sig_flags (or_approve_signatures o)) ≤ᶠ (sig_flags (or_approve_signatures o'));
}.

Lemma old_grows_refl o : old_grows o o.
Proof. split; auto with session. Qed.
#[local] Hint Resolve old_grows_refl : session.

Lemma sig_flags_insert (sigs : BlockCandidateSignatureVectorPtr) i s :
  (sig_flags sigs) ≤ᶠ (sig_flags (<[i := Some s]> sigs)).
Proof.
  unfold sig_flags. rewrite list_fmap_insert. apply flags_insert_le.
Qed.

Lemma sig_flags_join (a b : BlockCandidateSignatureVectorPtr) :
  length a = length b → sig_flags (zip_with sig_join a b) = zip_with orb (sig_flags a) (sig_flags b).
Proof.
  revert b. induction a as [|x a IH]; intros [|y b]; simpl; try done. intros [= Hlen].
  unfold sig_flags in *. simpl. by rewrite sig_join_present, IH.
Qed.

Lemma sig_flags_length sigs : length (sig_flags sigs) = length sigs.
Proof. apply length_fmap. Qed.

Lemma sig_flags_join_l (a b : BlockCandidateSignatureVectorPtr) :
  length a = length b → (sig_flags a) ≤ᶠ (sig_flags (zip_with sig_join a b)).
Proof. intros Hlen. rewrite sig_flags_join by done. apply flags_orb_le_l. by rewrite !sig_flags_length. Qed.

Lemma old_grows_ok d k o o' : old_ok d k o → old_grows o o' → old_ok d k o'.
Proof.
  intros [] []. pose proof (Forall2_length grows_sigs0) as H1.
  pose proof (Forall2_length grows_approve0) as H2. rewrite !sig_flags_length in H1, H2.
  split; [congruence..|]. pose proof (flag_weight_mono (sources d) _ _ grows_sigs0). lia.
Qed.

(** The block of a non-skip identifier is there to be checked. *)
Lemma old_check_total o cand sig chk :
  cand = OldRoundState_get_block_id o → (∀ b, ∃ v, chk b = Done v) →
  ∃ v, OldRoundState_check o cand sig chk = Done v.
Proof.
  intros -> Hchk. unfold OldRoundState_check, OldRoundState_get_block_id, SKIP_ROUND_CANDIDATE_BLOCKID.
  destruct (or_block o) as [b|]; simpl; [|eauto].
  destruct (negb _); [apply Hchk|eauto].
Qed.

Lemma old_apply_action_ok d k o (i : N) msg :
  old_ok d k o → (N.to_nat i < length (sources d))%nat →
  ∃ o', OldRoundState_apply_action d o i msg = Done o' ∧ old_grows o o'.
Proof.
  intros Ho Hi. pose proof (old_sigs_len _ _ _ Ho) as Hs. pose proof (old_approve_len _ _ _ Ho) as Ha.
  destruct msg; simpl; eauto with session.
  - unfold OldRoundState_apply_approved_block_action.
    destruct (candidate =? _) eqn:E; breflect; cbn [negb]; [|eauto with session].
    destruct (Vector_at_lt (or_approve_signatures o) i) as (s & -> & _); [lia|]. run.
    destruct (bool_decide _); [eauto with session|].
    edestruct (old_check_total o candidate signature) as [v Hv]; [exact E| |rewrite Hv].
    { intros b. by apply check_approve_signature_total. }
    run. destruct v; cbn [negb]; [|eauto with session].
    rewrite Vector_change_lt by lia. run. eexists. split; [done|].
    split; simpl; [done|done|apply Forall2_imp_refl|apply sig_flags_insert].
  - unfold OldRoundState_apply_committed_block_action.
    destruct (candidate =? _) eqn:E; breflect; cbn [negb]; [|eauto with session].
    edestruct (old_check_total o candidate signature) as [v Hv]; [exact E| |rewrite Hv].
    { intros b. by apply check_signature_total. }
    run. destruct v; cbn [negb]; [|eauto with session].
    unfold OldRoundState_check_block_is_signed_by.
    destruct (Vector_at_lt (or_signatures o) i) as (s & -> & _); [lia|]. run.
    destruct (bool_decide _); [eauto with session|].
    rewrite Vector_change_lt by lia. run. eexists. split; [done|].
    split; simpl; [done|done|apply sig_flags_insert|apply Forall2_imp_refl].
Qed.

Lemma old_merge_ok d k o1 o2 :
  old_ok d k o1 → old_ok d k o2 → ∃ o, merge d o1 o2 = Done o ∧ old_grows o1 o.
Proof.
  intros [] []. unfold merge, OldRoundState_merge. rewrite old_seqno0, old_seqno1, N.eqb_refl.
  cbn [assert_that mbind outcome_bind]. rewrite !signatures_merge_ok by congruence.
  run. eexists. split; [done|].
  split; simpl; [congruence|done|apply sig_flags_join_l; congruence..].
Qed.

Lemma old_merge_idem d o : merge d o o = Done o.
Proof.
  unfold merge, OldRoundState_merge. rewrite N.eqb_refl. cbn [assert_that mbind outcome_bind].
  rewrite !signatures_merge_ok by done. run. rewrite !zip_with_sig_join_idem. by destruct o.
Qed.

Lemma old_merge_round_ok d o r :
  old_ok d (rs_sequence_number r) o → round_ok d r →
  ∃ o', OldRoundState_merge_round d o r = Done o' ∧ old_grows o o'.
Proof.
  intros [] Hr. unfold OldRoundState_merge_round. rewrite old_seqno0, N.eqb_refl.
  cbn [assert_that mbind outcome_bind]. pose proof (rok_sigs _ _ Hr) as Hs.
  rewrite signatures_merge_ok by congruence. run.
  destruct (RoundState_get_block r (OldRoundState_get_block_id o)) as [c|] eqn:Ec.
  - destruct (round_get_block_ok _ _ _ _ Hr Ec) as (_ & _ & Hc). pose proof (cand_len _ _ _ Hc) as Hcl.
    rewrite signatures_merge_ok by congruence. run. eexists. split; [done|].
    split; simpl; [congruence|done|apply sig_flags_join_l; congruence..].
  - run. eexists. split; [done|].
    split; simpl; [congruence|done|apply sig_flags_join_l; congruence|apply Forall2_imp_refl].
Qed.

(** A signed round has a precommitted block, which is one of its candidates. *)
Lemma create_from_round_ok d r :
  desc_ok d → round_ok d r → cutoff_weight d ≤ flag_weight (sources d) (sig_flags (rs_signatures r)) →
  ∃ o, OldRoundState_create_from_round d r = Done o ∧ old_ok d (rs_sequence_number r) o ∧
    precommitted_block r = Some (or_block o) ∧ or_signatures o = rs_signatures r.
Proof.
  intros Hd Hr Hw. unfold OldRoundState_create_from_round. pose proof (cutoff_pos d Hd).
  pose proof (rok_sigs _ _ Hr) as Hs.
  destruct (precommitted_block r) as [b|] eqn:Eb.
  - cbn [mbind outcome_bind unwrap]. rewrite check_block_is_signed_ok by done. run.
    fold (sig_flags (rs_signatures r)). rewrite (proj2 (N.leb_le _ _) Hw). cbn [assert_that mbind outcome_bind].
    rewrite get_block_find. destruct (rok_precommitted _ _ Hr b Eb) as (c & Hc & Hk).
    pose proof (find_key_elem _ _ (rok_sent_sorted _ _ Hr) Hc) as Hf. simpl in Hf. rewrite Hk in Hf.
    rewrite Hf. cbn [mbind outcome_bind unwrap]. eexists. split; [done|]. split; [|done].
    split; simpl; try done. apply (cand_len _ _ _ (rok_sent _ _ Hr c Hc)).
  - destruct (flag_weight_pos (sources d) (sig_flags (rs_signatures r))) as [i Hi]; [lia|].
    unfold sig_flags in Hi. rewrite list_lookup_fmap in Hi.
    destruct (rs_signatures r !! i) as [s|] eqn:Es; [|done].
    rewrite (rok_unsigned _ _ Hr Eb s) in Hi; [done|]. by eapply list_elem_of_lookup_2.
Qed.
End old_round_facts.
#[export] Hint Resolve old_grows_refl : session.

(** ** The session state *)
Section session_facts.
Context {X : External}.
Implicit Types (d : SessionDescription) (s : SessionState) (r : RoundState) (o : OldRoundState).

Definition old_list s : list OldRoundState := VectorWrapper_iter (old_rounds s).

Record session_ok d s : Prop := {
  sok_ids : length (attempt_ids s) = length (sources d);
  sok_round : round_ok d (current_round s);
  sok_unsigned : flag_weight (sources d) (sig_flags (rs_signatures (current_round s))) < cutoff_weight d;
  sok_count : rs_sequence_number (current_round s) = N.of_nat (length (old_list s));
  sok_old (k : nat) o : old_list s !! k = Some o → old_ok d (N.of_nat k) o;
}.

(** No finished round is lost or changes its block. *)
Definition history_grows (l l' : list OldRoundState) : Prop :=
  ∀ (k : nat) o, l !! k = Some o → ∃ o', l' !! k = Some o' ∧ old_grows o o'.

Lemma history_grows_refl l : history_grows l l.
Proof. intros k o Hk. exists o. auto with session. Qed.
#[local] Hint Resolve history_grows_refl : session.

Lemma history_grows_app l o : history_grows l (l ++ [o]).
Proof. intros k x Hk. exists x. split; [by apply lookup_app_l_Some|apply old_grows_refl]. Qed.

Lemma history_grows_insert l (k : nat) o o' :
  l !! k = Some o → old_grows o o' → history_grows l (<[k := o']> l).
Proof.
  intros Hk Hg j x Hj. destruct (decide (j = k)) as [->|Hne].
  - exists o'. rewrite list_lookup_insert_eq by by eapply lookup_lt_Some.
    split; [done|]. by simplify_eq.
  - exists x. rewrite list_lookup_insert_ne by done. split; [done|apply old_grows_refl].
Qed.

Lemma VectorWrapper_at_iter {T} (w : option (list T)) i : VectorWrapper_at w i = index (VectorWrapper_iter w) i.
Proof. destruct w as [l|]; [by rewrite VectorWrapper_at_Some, Vector_at_index|]. unfold index. by destruct (N.to_nat i). Qed.

Lemma VectorWrapper_change_iter {T} (w : option (list T)) (i : N) x :
  (N.to_nat i < length (VectorWrapper_iter w))%nat →
  VectorWrapper_change w i x = Done (Some (<[N.to_nat i := x]> (VectorWrapper_iter w))).
Proof.
  destruct w as [l|]; simpl; [|lia]. intros Hi. by rewrite Vector_change_lt.
Qed.

Lemma clamp_attempt_id_bounds cur att :
  let att' := clamp_attempt_id cur att in
  cur ≤ att' ∧ MIN_ATTEMPT_ID ≤ att' ∧ att ≤ att'.
Proof.
  unfold clamp_attempt_id, MIN_ATTEMPT_ID. simpl.
  destruct (att <? cur) eqn:E1; breflect;
    match goal with |- context [if ?b then _ else _] => destruct b eqn:E2 end; breflect; lia.
Qed.

Lemma clamp_attempt_id_pos cur att : 0 < clamp_attempt_id cur att.
Proof. pose proof (clamp_attempt_id_bounds cur att) as (_ & H & _). unfold MIN_ATTEMPT_ID in H. simpl in H. lia. Qed.

(** Closing a signed round. *)
Lemma close_round_ok d r (olds : option (list OldRoundState)) :
  desc_ok d → round_ok d r → cutoff_weight d ≤ flag_weight (sources d) (sig_flags (rs_signatures r)) →
  rs_sequence_number r = N.of_nat (length (VectorWrapper_iter olds)) → rs_sequence_number r + 1 < two32 →
  ∃ o, SessionState_close_round d r olds
    = Done (RoundState_create_current_round d (rs_sequence_number r + 1), Some (VectorWrapper_iter olds ++ [o])) ∧
    old_ok d (rs_sequence_number r) o ∧ precommitted_block r = Some (or_block o) ∧
    or_signatures o = rs_signatures r.
Proof.
  intros Hd Hr Hw Hlen Hb. unfold SessionState_close_round.
  destruct (create_from_round_ok d r Hd Hr Hw) as (o & -> & Ho & Hpb & Hsigs). run.
  replace (VectorWrapper_len olds) with (N.of_nat (length (VectorWrapper_iter olds))) by by destruct olds.
  rewrite <- Hlen, (old_seqno _ _ _ Ho), N.mod_small, N.eqb_refl by lia. cbn [assert_that mbind outcome_bind].
  exists o. split; [|done]. unfold u32_add. rewrite N.mod_small by done. by destruct olds.
Qed.

(** The new round and the history after a round was updated. *)
Lemma advance_round_ok d r (olds : option (list OldRoundState)) ids :
  desc_ok d → length ids = length (sources d) → round_ok d r →
  rs_sequence_number r = N.of_nat (length (VectorWrapper_iter olds)) → rs_sequence_number r + 1 < two32 →
  (∀ (k : nat) o, VectorWrapper_iter olds !! k = Some o → old_ok d (N.of_nat k) o) →
  ∃ res, (signed ← RoundState_check_block_is_signed d r;
     if (signed : bool) then SessionState_close_round d r olds else Done (r, olds)) = Done res ∧
    session_ok d {| attempt_ids := ids; current_round := fst res; old_rounds := snd res |} ∧
    history_grows (VectorWrapper_iter olds) (VectorWrapper_iter (snd res)).
Proof.
  intros Hd Hids Hr Hlen Hb Hold. rewrite check_block_is_signed_ok by (done || apply (rok_sigs _ _ Hr)).
  run. fold (sig_flags (rs_signatures r)).
  destruct (_ <=? _) eqn:E; breflect.
  - destruct (close_round_ok d r olds Hd Hr E Hlen Hb) as (o & -> & Ho & _).
    eexists. split; [done|]. split; [|apply history_grows_app]. cbn [fst snd]. split; simpl; try done.
    + by apply current_round_ok.
    + pose proof (cutoff_pos d Hd). unfold sig_flags. rewrite fmap_replicate.
      destruct (decide (0 < flag_weight (sources d) (replicate (N.to_nat (get_total_nodes d)) (is_present None))))
        as [Hp|]; [|lia].
      apply flag_weight_pos in Hp as [i Hi]. apply lookup_replicate in Hi as [? _]. done.
    + unfold old_list. simpl. rewrite length_app. simpl. lia.
    + unfold old_list. simpl. intros k x Hk. apply lookup_app_Some in Hk as [Hk|[Hge Hk]]; [by apply Hold|].
      apply list_lookup_singleton_Some in Hk as [Hk <-]. replace (N.of_nat k) with (rs_sequence_number r) by lia. done.
  - eexists. split; [done|]. split; [|apply history_grows_refl]. by split.
Qed.

Lemma session_apply_action_ok d s (i att : N) msg :
  desc_ok d → session_ok d s → (N.to_nat i < length (sources d))%nat →
  rs_sequence_number (current_round s) + 1 < two32 →
  ∃ s', SessionState_apply_action d s i att msg = Done s' ∧ session_ok d s' ∧
    history_grows (old_list s) (old_list s') ∧
    ∃ cur, attempt_ids s !! N.to_nat i = Some cur ∧
      attempt_ids s' = <[N.to_nat i := clamp_attempt_id cur att]> (attempt_ids s).
Proof.
  intros Hd Hs Hi Hb. unfold SessionState_apply_action. pose proof (sok_ids _ _ Hs) as Hids.
  destruct (Vector_at_lt (attempt_ids s) i) as (cur & -> & Hcur); [lia|]. run.
  set (att' := clamp_attempt_id cur att).
  rewrite Vector_change_lt by lia. run.
  assert (Hids' : length (<[N.to_nat i := att']> (attempt_ids s)) = length (sources d)) by by rewrite length_insert.
  destruct (_ <? get_round_id msg) eqn:E1; breflect.
  { eexists. split; [done|]. split; [|split; [apply history_grows_refl|eauto]]. by destruct Hs. }
  destruct (get_round_id msg =? _) eqn:E2; breflect.
  - destruct (round_apply_action_ok d (current_round s) i att' msg) as (r' & -> & Hr' & Hseq');
      [done|apply (sok_round _ _ Hs)|done|apply clamp_attempt_id_pos|]. run.
    destruct (advance_round_ok d r' (old_rounds s) (<[N.to_nat i := att']> (attempt_ids s)) Hd Hids' Hr')
      as (res & Hres & Hok & Hgrow).
    { rewrite Hseq'. apply (sok_count _ _ Hs). }
    { by rewrite Hseq'. }
    { apply (sok_old _ _ Hs). }
    apply bind_Done_inv in Hres as (signed & -> & Hres). run. rewrite Hres.
    run. eexists. split; [done|]. split; [done|]. split; [done|eauto].
  - pose proof (sok_count _ _ Hs) as Hlen.
    assert (Hk : (N.to_nat (get_round_id msg) < length (old_list s))%nat) by lia.
    rewrite VectorWrapper_at_iter. destruct (index_lt _ _ Hk) as (o & Ho & Hok). unfold old_list in Ho. rewrite Ho.
    run. pose proof (sok_old _ _ Hs _ _ Hok) as Hoo.
    destruct (old_apply_action_ok d _ o i msg Hoo Hi) as (o' & -> & Hg). run.
    rewrite VectorWrapper_change_iter by done. run. eexists. split; [done|].
    split; [|split; [by eapply history_grows_insert|eauto]].
    destruct Hs. split; unfold old_list in *; simpl; try done; [by rewrite length_insert|].
    intros k x Hx. apply list_lookup_insert_Some in Hx as [(<- & <- & _)|[_ Hx]]; [|auto].
    by eapply old_grows_ok.
Qed.
End session_facts.
#[export] Hint Resolve history_grows_refl : session.

(** ** Implicit actions *)
Section session_make.
Context {X : External}.
Implicit Types (d : SessionDescription) (s : SessionState).

Lemma clamp_attempt_id_idem cur att : clamp_attempt_id (clamp_attempt_id cur att) att = clamp_attempt_id cur att.
Proof.
  pose proof (clamp_attempt_id_bounds cur att) as (_ & H2 & H3). cbn zeta in *.
  unfold clamp_attempt_id at 1. unfold MIN_ATTEMPT_ID in *.
  destruct (att <? clamp_attempt_id cur att) eqn:E1; breflect;
    match goal with |- context [if ?b then _ else _] => destruct b eqn:E2 end; breflect; lia.
Qed.

(** What [make_all] may still do for node [i]. *)
Definition session_todo d s (i att : N) : nat :=
  match attempt_ids s !! N.to_nat i with
  | None => 0
  | Some cur =>
      let att' := clamp_attempt_id cur att in
      (if cur <? att' then 1 else 0) + round_todo d (current_round s) i att'
  end.

Lemma session_todo_bound d s i att : (session_todo d s i att ≤ 4)%nat.
Proof.
  unfold session_todo, round_todo, first_todo, attempt_todo.
  repeat (case_match; try lia).
Qed.

Lemma session_make_one_ok d s (i att : N) :
  desc_ok d → session_ok d s → (N.to_nat i < length (sources d))%nat →
  ∃ s' made, SessionState_make_one d s i att = Done (s', made) ∧ session_ok d s' ∧
    old_rounds s' = old_rounds s ∧
    rs_sequence_number (current_round s') = rs_sequence_number (current_round s) ∧
    (made = false → s' = s) ∧
    (made = true → (session_todo d s' i att < session_todo d s i att)%nat).
Proof.
  intros Hd Hs Hi. unfold SessionState_make_one, session_todo. pose proof (sok_ids _ _ Hs) as Hids.
  destruct (Vector_at_lt (attempt_ids s) i) as (cur & -> & Hcur); [lia|]. run.
  rewrite Hcur. set (att' := clamp_attempt_id cur att).
  assert (Hnew : ∃ ids, (if cur <? att' then Vector_change (attempt_ids s) i att' else Done (attempt_ids s)) = Done ids ∧
    length ids = length (sources d) ∧ ids !! N.to_nat i = Some att').
  { pose proof (clamp_attempt_id_bounds cur att) as (Hle & _). fold att' in Hle.
    destruct (cur <? att') eqn:E; breflect.
    - rewrite Vector_change_lt by lia. eexists. split; [done|]. rewrite length_insert.
      split; [done|]. apply list_lookup_insert_eq. lia.
    - exists (attempt_ids s). split; [done|]. split; [done|]. by replace att' with cur by lia. }
  destruct Hnew as (ids & -> & Hlen & Hat). run.
  destruct (round_make_one_ok d (current_round s) i att' Hd (sok_round _ _ Hs) Hi (clamp_attempt_id_pos cur att))
    as (r' & made & -> & Hr' & Hseq & Hsigs & Htodo & Hsame). run.
  destruct (negb made && negb (cur <? att')) eqn:E.
  { exists s, false. done. }
  rewrite check_block_is_signed_ok by (done || apply (rok_sigs _ _ Hr')). run.
  pose proof (sok_unsigned _ _ Hs) as Hun. rewrite Hsigs. fold (sig_flags (rs_signatures (current_round s))).
  rewrite (proj2 (N.leb_gt _ _) Hun). cbn [negb assert_that mbind outcome_bind].
  eexists _, true. split; [done|]. split; [|split; [done|split; [done|split; [done|]]]].
  - destruct Hs. split; simpl; try done; [by rewrite Hsigs|by rewrite Hseq].
  - intros _. simpl. rewrite Hat. fold att'. unfold att' at 1 2 3. rewrite clamp_attempt_id_idem. fold att'.
    rewrite N.ltb_irrefl. destruct made.
    + specialize (Htodo eq_refl). lia.
    + rewrite (Hsame eq_refl). destruct (cur <? att'); [lia|done].
Qed.

(** [make_all] returns once the fuel exceeds what is left to do. *)
Lemma session_make_all_ok fuel d s (i att : N) :
  desc_ok d → session_ok d s → (N.to_nat i < length (sources d))%nat →
  (session_todo d s i att < fuel)%nat →
  ∃ s', SessionState_make_all fuel d s i att = Some (Done s') ∧ session_ok d s' ∧
    old_rounds s' = old_rounds s ∧
    rs_sequence_number (current_round s') = rs_sequence_number (current_round s) ∧
    SessionState_make_one d s' i att = Done (s', false).
Proof.
  intros Hd. revert s. induction fuel as [|fuel IH]; intros s Hs Hi Hlt; [lia|].
  cbn [SessionState_make_all].
  destruct (session_make_one_ok d s i att Hd Hs Hi) as (s1 & made & Hm & Hs1 & Hold & Hseq & Hsame & Htodo).
  rewrite Hm. destruct made.
  - specialize (Htodo eq_refl). destruct (IH s1 Hs1 Hi) as (s' & -> & Hs' & Hold' & Hseq' & Hfix); [lia|].
    exists s'. split; [done|]. split; [done|]. split; [congruence|]. split; [congruence|done].
  - rewrite (Hsame eq_refl) in *. eauto 10.
Qed.

Lemma session_empty_ok d : desc_ok d → session_ok d (SessionState_create_empty d).
Proof.
  intros Hd. pose proof (total_nodes_ok d Hd). split; simpl; try done.
  - rewrite length_replicate. lia.
  - by apply current_round_ok.
  - pose proof (cutoff_pos d Hd). unfold sig_flags. rewrite fmap_replicate.
    destruct (decide (0 < flag_weight (sources d) (replicate (N.to_nat (get_total_nodes d)) (is_present None))))
      as [Hp|]; [|lia].
    apply flag_weight_pos in Hp as [i Hi]. apply lookup_replicate in Hi as [? _]. done.
Qed.
End session_make.

(** ** Merge *)
Section session_merge.
Context {X : External}.
Implicit Types (d : SessionDescription) (l r s : SessionState) (o : OldRoundState).

(** The condition checked by the [assert!] of the round merge: when both states
    are in the same round, their precommitted blocks have the same identifier. *)
Definition precommits_check l r : bool :=
  negb (rs_sequence_number (current_round l) =? rs_sequence_number (current_round r))
  || RoundState_precommits_agree (precommitted_block (current_round l)) (precommitted_block (current_round r)).

(** The same condition, stated on the blocks. *)
Definition precommits_agree l r : Prop :=
  ∀ bl br, rs_sequence_number (current_round l) = rs_sequence_number (current_round r) →
    precommitted_block (current_round l) = Some bl → precommitted_block (current_round r) = Some br →
    SentBlock_get_id bl = SentBlock_get_id br.

Lemma precommits_agree_check l r : precommits_agree l r ↔ precommits_check l r = true.
Proof.
  unfold precommits_agree, precommits_check, RoundState_precommits_agree.
  rewrite orb_true_iff, negb_true_iff, N.eqb_neq.
  destruct (precommitted_block (current_round l)) as [bl|], (precommitted_block (current_round r)) as [br|];
    [|naive_solver..].
  rewrite N.eqb_eq. destruct (decide (rs_sequence_number (current_round l) = rs_sequence_number (current_round r)));
    naive_solver.
Qed.

Lemma mmap_rest {T} (f : T → T → outcome T) (l : list T) : Vector_merge_rest f false l = Done l.
Proof. by apply mmap_id. Qed.

Lemma merge_items_rest_l {T} (f : T → T → outcome T) (l : list T) : Vector_merge_items f false l [] = Done l.
Proof. destruct l; apply mmap_rest. Qed.
Lemma merge_items_rest_r {T} (f : T → T → outcome T) (l : list T) : Vector_merge_items f false [] l = Done l.
Proof. apply mmap_rest. Qed.

(** The merged history: rounds present on the left keep their block, the others
    come from the right. *)
Lemma old_items_merge_ok d (base : nat) (ol or : list OldRoundState) :
  (∀ (k : nat) o, ol !! k = Some o → old_ok d (N.of_nat (base + k)) o) →
  (∀ (k : nat) o, or !! k = Some o → old_ok d (N.of_nat (base + k)) o) →
  ∃ m, Vector_merge_items (merge d) false ol or = Done m ∧ length m = (length ol `max` length or)%nat ∧
    (∀ (k : nat) o, m !! k = Some o → old_ok d (N.of_nat (base + k)) o) ∧ history_grows ol m ∧
    (∀ (k : nat) o, ol !! k = None → or !! k = Some o → m !! k = Some o).
Proof.
  revert base or. induction ol as [|x ol IH]; intros base or Hl Hr.
  { exists or. cbn [Vector_merge_items]. rewrite mmap_rest.
    split; [done|]. split; [done|]. split; [done|]. split; [intros k o; by rewrite lookup_nil|done]. }
  destruct or as [|y or].
  { exists (x :: ol). cbn [Vector_merge_items]. rewrite mmap_rest. split; [done|]. split; [simpl; lia|].
    split; [done|]. split; [apply history_grows_refl|]. intros [|k] o; simpl; done. }
  cbn [Vector_merge_items].
  pose proof (Hl 0%nat x eq_refl) as Hx. pose proof (Hr 0%nat y eq_refl) as Hy.
  destruct (old_merge_ok d _ x y Hx Hy) as (z & -> & Hz). run.
  destruct (IH (S base) or) as (m & -> & Hlen & Hok & Hg & Hrest).
  { intros k o Hk. specialize (Hl (S k) o Hk). by rewrite Nat.add_succ_r in Hl. }
  { intros k o Hk. specialize (Hr (S k) o Hk). by rewrite Nat.add_succ_r in Hr. }
  exists (z :: m). run. split; [done|]. split; [simpl; lia|]. split; [|split].
  - intros [|k] o; simpl; [|intros Hk; rewrite Nat.add_succ_r; by apply Hok].
    intros [= <-]. exact (old_grows_ok _ _ _ _ Hx Hz).
  - intros [|k] o; simpl; [|apply Hg]. intros [= <-]. eauto.
  - intros [|k] o; simpl; [done|apply Hrest].
Qed.

Lemma old_rounds_merge_ok d l r :
  session_ok d l → session_ok d r →
  ∃ w, VectorWrapper_merge_impl (merge d) pool_ptr_eq false (old_rounds l) (old_rounds r) = Done w ∧
    length (VectorWrapper_iter w) = (length (old_list l) `max` length (old_list r))%nat ∧
    (∀ (k : nat) o, VectorWrapper_iter w !! k = Some o → old_ok d (N.of_nat k) o) ∧
    history_grows (old_list l) (VectorWrapper_iter w) ∧
    (∀ (k : nat) o, old_list l !! k = None → old_list r !! k = Some o → VectorWrapper_iter w !! k = Some o).
Proof.
  intros Hl Hr.
  destruct (old_items_merge_ok d 0 (old_list l) (old_list r) (sok_old _ _ Hl) (sok_old _ _ Hr)) as (m & Hm & Hrest).
  enough (∃ w, VectorWrapper_merge_impl (merge d) pool_ptr_eq false (old_rounds l) (old_rounds r) = Done w ∧
    VectorWrapper_iter w = m) as (w & -> & <-) by eauto.
  unfold old_list in Hm. destruct (old_rounds l) as [ol|], (old_rounds r) as [or|]; cbn [VectorWrapper_iter] in Hm; cbn [VectorWrapper_merge_impl].
  - cbn [negb andb from_option]. destruct (pool_ptr_eq ol or) eqn:E.
    + apply pool_ptr_eq_sound in E as ->. exists (Some or). split; [done|].
      enough (Vector_merge_items (merge d) false or or = Done or) by (simpl; congruence).
      clear. induction or as [|x or IH]; simpl; [done|]. rewrite old_merge_idem. run. by rewrite IH.
    + cbn [unwrap mbind outcome_bind]. rewrite Vector_merge_impl_items by (intros; apply old_merge_idem).
      rewrite Hm. run. by eexists.
  - exists (Some ol). rewrite merge_items_rest_l in Hm. by injection Hm as <-.
  - exists (Some or). rewrite merge_items_rest_r in Hm. by injection Hm as <-.
  - exists None. by injection Hm as <-.
Qed.
End session_merge.

Section session_merge_whole.
Context {X : External}.
Implicit Types (d : SessionDescription) (l r s : SessionState) (o : OldRoundState).

(** Merging a late round into the history of the other side. *)
Lemma merge_late_round_ok d (w : option (list OldRoundState)) (late : RoundState) :
  (∀ (k : nat) o, VectorWrapper_iter w !! k = Some o → old_ok d (N.of_nat k) o) →
  round_ok d late → (N.to_nat (rs_sequence_number late) < length (VectorWrapper_iter w))%nat →
  ∃ w', (old_round ← VectorWrapper_at w (rs_sequence_number late);
         old_round ← OldRoundState_merge_round d old_round late;
         VectorWrapper_change w (rs_sequence_number late) old_round) = Done w' ∧
    length (VectorWrapper_iter w') = length (VectorWrapper_iter w) ∧
    (∀ (k : nat) o, VectorWrapper_iter w' !! k = Some o → old_ok d (N.of_nat k) o) ∧
    history_grows (VectorWrapper_iter w) (VectorWrapper_iter w').
Proof.
  intros Hw Hlate Hk. rewrite VectorWrapper_at_iter.
  destruct (index_lt _ _ Hk) as (o & -> & Ho). run.
  pose proof (Hw _ _ Ho) as Hoo. rewrite N2Nat.id in Hoo.
  destruct (old_merge_round_ok d o late Hoo Hlate) as (o' & -> & Hg). run.
  rewrite VectorWrapper_change_iter by done. eexists. split; [done|]. cbn [VectorWrapper_iter].
  split; [by rewrite length_insert|]. split; [|by eapply history_grows_insert].
  intros k x Hx. apply list_lookup_insert_Some in Hx as [(<- & <- & _)|[_ Hx]]; [|auto].
  rewrite N2Nat.id. by eapply old_grows_ok.
Qed.

Lemma history_grows_trans a b c : history_grows a b → history_grows b c → history_grows a c.
Proof.
  intros Hab Hbc k o Hk. destruct (Hab k o Hk) as (o1 & H1 & G1). destruct (Hbc k o1 H1) as (o2 & H2 & G2).
  exists o2. split; [done|]. destruct G1, G2. split; [congruence..| |]; by eapply Forall2_imp_trans.
Qed.

Lemma merge_rounds_ok d l r (w : option (list OldRoundState)) :
  desc_ok d → session_ok d l → session_ok d r → precommits_check l r = true →
  length (VectorWrapper_iter w) = (length (old_list l) `max` length (old_list r))%nat →
  (∀ (k : nat) o, VectorWrapper_iter w !! k = Some o → old_ok d (N.of_nat k) o) →
  ∃ cr w', SessionState_merge_rounds d (current_round l) (current_round r) w = Done (cr, w') ∧
    round_ok d cr ∧ rs_sequence_number cr = N.of_nat (length (VectorWrapper_iter w)) ∧
    length (VectorWrapper_iter w') = length (VectorWrapper_iter w) ∧
    (∀ (k : nat) o, VectorWrapper_iter w' !! k = Some o → old_ok d (N.of_nat k) o) ∧
    history_grows (VectorWrapper_iter w) (VectorWrapper_iter w').
Proof.
  intros Hd Hl Hr Hagree Hlen Hw. unfold SessionState_merge_rounds.
  pose proof (sok_count _ _ Hl) as Hcl. pose proof (sok_count _ _ Hr) as Hcr.
  destruct (_ <? _) eqn:E1; breflect; [|destruct (rs_sequence_number (current_round r) <? _) eqn:E2; breflect].
  - destruct (merge_late_round_ok d w (current_round l) Hw (sok_round _ _ Hl)) as (w' & Hm & Hlen' & Hok & Hg); [lia|].
    apply bind_Done_inv in Hm as (o1 & -> & Hm). run.
    apply bind_Done_inv in Hm as (o2 & -> & Hm). run. rewrite Hm. run.
    eexists _, w'. split; [done|]. split; [apply (sok_round _ _ Hr)|]. split; [lia|done].
  - destruct (merge_late_round_ok d w (current_round r) Hw (sok_round _ _ Hr)) as (w' & Hm & Hlen' & Hok & Hg); [lia|].
    apply bind_Done_inv in Hm as (o1 & -> & Hm). run.
    apply bind_Done_inv in Hm as (o2 & -> & Hm). run. rewrite Hm. run.
    eexists _, w'. split; [done|]. split; [apply (sok_round _ _ Hl)|]. split; [lia|done].
  - assert (Heq : rs_sequence_number (current_round l) = rs_sequence_number (current_round r)) by lia.
    unfold precommits_check in Hagree. rewrite Heq, N.eqb_refl in Hagree. simpl in Hagree.
    destruct (round_merge_ok d (current_round l) (current_round r) Hd (sok_round _ _ Hl) (sok_round _ _ Hr) Heq Hagree)
      as (m & -> & Hm & Hseq & _). run.
    eexists m, w. split; [done|]. split; [done|]. split; [lia|]. split; [done|]. split; [done|apply history_grows_refl].
Qed.

Lemma session_merge_ok d l r :
  desc_ok d → session_ok d l → session_ok d r → precommits_check l r = true →
  rs_sequence_number (current_round l) + 1 < two32 → rs_sequence_number (current_round r) + 1 < two32 →
  ∃ m, merge d l r = Done m ∧ session_ok d m ∧
    history_grows (old_list l) (old_list m) ∧
    (∀ (k : nat) o, old_list l !! k = None → old_list r !! k = Some o →
       ∃ o', old_list m !! k = Some o' ∧ old_grows o o') ∧
    attempt_ids m = zip_with N.max (attempt_ids l) (attempt_ids r).
Proof.
  intros Hd Hl Hr Hagree Hbl Hbr. unfold merge, SessionState_merge.
  pose proof (total_nodes_ok d Hd) as Hn. pose proof (sok_ids _ _ Hl) as Hil. pose proof (sok_ids _ _ Hr) as Hir.
  rewrite Hil, Hir, Hn, N.eqb_refl. cbn [assert_that mbind outcome_bind].
  rewrite Vector_merge_impl_items by (intros; by rewrite N.max_id).
  rewrite (Vector_merge_items_pure _ N.max) by congruence. run.
  destruct (old_rounds_merge_ok d l r Hl Hr) as (w & -> & Hlen & Hok & Hg & Hgr). run.
  destruct (merge_rounds_ok d l r w Hd Hl Hr Hagree Hlen Hok) as (cr & w' & -> & Hcr & Hseq & Hlen' & Hok' & Hg').
  run. pose proof (sok_count _ _ Hl) as Hcl. pose proof (sok_count _ _ Hr) as Hcrr.
  destruct (advance_round_ok d cr w' (zip_with N.max (attempt_ids l) (attempt_ids r)) Hd)
    as (res & Hres & Hsok & Hgrow); [rewrite length_zip_with; lia|done|congruence|lia|done|].
  apply bind_Done_inv in Hres as (signed & -> & Hres). run.
  replace (VectorWrapper_len w') with (N.of_nat (length (VectorWrapper_iter w'))) by by destruct w'.
  rewrite Hseq, Hlen', N.eqb_refl. cbn [assert_that mbind outcome_bind].
  replace (if signed then SessionState_close_round d cr w' else Done (cr, w')) with (Done res) by by destruct signed.
  run. eexists. split; [done|]. split; [done|].
  assert (Hgw : history_grows (VectorWrapper_iter w) (VectorWrapper_iter (snd res))) by by eapply history_grows_trans.
  split; [by eapply history_grows_trans|]. split; [|done].
  intros k o Hkl Hkr. apply Hgw. by apply Hgr.
Qed.
End session_merge_whole.
