(* ===== verification/SessionSafety.v ===== *)
(** * Safety of commits

    The commit certificate of a finished round holds only valid signatures of
    its block, finished rounds are final, and two different blocks committed in
    the same round expose validators with more than a third of the weight. *)

From S2P Require Import Prelude SessionDescription Vectors Candidates RoundAttempt Round RoundFacts RoundMerge SessionState SessionFacts.

(** ** Valid certificates *)
Section certificates.
Context {X : External}.
Implicit Types (d : SessionDescription) (r : RoundState) (o : OldRoundState) (s : SessionState).

(** A commit signature of node [i] on [block]; the skip block is committed
    without a signature. *)
Definition valid_commit d (block : SentBlockPtr) (i : N) (sig : list N) : Prop :=
  if SentBlock_get_id block =? SKIP_ROUND_CANDIDATE_BLOCKID then sig = []
  else ∃ b, block = Some b ∧ check_signature d (sb_root_hash b) (sb_file_hash b) i sig = Done true.

(** One key signed two different contents (root hash, file hash). *)
Definition double_signed (key : PublicKey) (s1 s2 : N * N * list N) : Prop :=
  s1.1 ≠ s2.1 ∧ ext_verify_block key s1.1.1 s1.1.2 s1.2 = true ∧ ext_verify_block key s2.1.1 s2.1.2 s2.2 = true.

Lemma valid_commit_verifies d b (i : nat) sig :
  SentBlock_get_id (Some b) ≠ SKIP_ROUND_CANDIDATE_BLOCKID → valid_commit d (Some b) (N.of_nat i) sig →
  ∃ src, sources d !! i = Some src ∧
    ext_verify_block (source_public_key src) (sb_root_hash b) (sb_file_hash b) sig = true.
Proof.
  intros Hn. unfold valid_commit. destruct (_ =? _) eqn:E; breflect; [done|].
  intros (b' & [= <-] & H). unfold check_signature, index in H. outcome_step H. injection H as H.
  destruct (sources d !! N.to_nat (N.of_nat i)) as [src|] eqn:Es; [|done]. injection E0 as <-.
  rewrite Nat2N.id in Es. eauto.
Qed.

Definition cert_ok d (block : SentBlockPtr) (sigs : BlockCandidateSignatureVectorPtr) : Prop :=
  ∀ (i : nat) sig, sigs !! i = Some (Some sig) → valid_commit d block (N.of_nat i) (bcs_signature sig).

Definition round_cert d r : Prop :=
  ∀ b, precommitted_block r = Some b → cert_ok d b (rs_signatures r).

Record session_certs d s : Prop := {
  scert_round : round_cert d (current_round s);
  scert_old o : o ∈ old_list s → cert_ok d (or_block o) (or_signatures o);
}.

Lemma cert_ok_insert d block sigs (i : N) sig :
  cert_ok d block sigs → valid_commit d block i sig →
  cert_ok d block (<[N.to_nat i := BlockCandidateSignature_create sig]> sigs).
Proof.
  intros Hc Hv j s Hj. apply list_lookup_insert_Some in Hj as [(<- & Hs & _)|[_ Hj]]; [|by apply Hc].
  injection Hs as <-. by rewrite N2Nat.id.
Qed.

Lemma cert_ok_join d block (s1 s2 : BlockCandidateSignatureVectorPtr) :
  cert_ok d block s1 → cert_ok d block s2 → cert_ok d block (zip_with sig_join s1 s2).
Proof.
  intros H1 H2 i s Hi. apply lookup_zip_with_Some in Hi as (x & y & Hxy & Hx & Hy).
  destruct x as [x|], y as [y|]; simpl in Hxy; try done; injection Hxy as Hs; subst.
  - destruct (bytes_lt _ _); [by apply (H1 i)|by apply (H2 i)].
  - by apply (H1 i).
  - by apply (H2 i).
Qed.

(** *** The commit handlers check every signature they store *)
Lemma vector_change_inv {T} (l : list T) (i : N) x l' :
  Vector_change l i x = Done l' → l' = <[N.to_nat i := x]> l.
Proof.
  unfold Vector_change, set_index. intros H. outcome_step H. destruct (decide _); [|done]. by injection H as <-.
Qed.

Lemma committed_block_cert d r (i cand : N) sig r' :
  round_cert d r → RoundState_apply_committed_block_action d r i cand sig = Done r' → round_cert d r'.
Proof.
  intros Hc. unfold RoundState_apply_committed_block_action.
  destruct (precommitted_block r) as [block|] eqn:Ep; [|by intros [= <-]].
  destruct (negb (SentBlock_get_id block =? cand)) eqn:Ek; breflect; [by intros [= <-]|].
  intros H. outcome_step H. destruct (bool_decide (is_Some a)); [by injection H as <-|].
  outcome_step H. destruct a0; simpl in H; [|by injection H as <-].
  outcome_step H. injection H as <-. apply vector_change_inv in E1 as ->.
  intros b Hb. simpl in *. rewrite Ep in Hb. injection Hb as <-. apply cert_ok_insert; [by apply Hc|].
  unfold valid_commit. rewrite Ek.
  destruct (cand =? SKIP_ROUND_CANDIDATE_BLOCKID) eqn:Es; [|outcome_step E0].
  - injection E0 as E0. by destruct sig.
  - destruct block as [b|]; [|done]. injection E1 as <-. eauto.
Qed.

(** The other handlers do not touch the signatures, nor a precommitted block. *)
Definition keeps_commit r r' : Prop :=
  rs_signatures r' = rs_signatures r ∧ (is_Some (precommitted_block r) → precommitted_block r' = precommitted_block r).

Lemma keeps_commit_cert d r r' : round_ok d r → round_cert d r → keeps_commit r r' → round_cert d r'.
Proof.
  intros Hr Hc [Hs Hp] b Hb. rewrite Hs. destruct (precommitted_block r) as [b'|] eqn:E.
  - rewrite Hp in Hb by eauto. injection Hb as <-. by apply Hc.
  - intros i s Hi. apply list_elem_of_lookup_2 in Hi. by pose proof (rok_unsigned _ _ Hr E _ Hi).
Qed.

Ltac frame_solve H :=
  repeat first
    [ outcome_step H
    | match type of H with
      | (if ?b then _ else _) = _ => destruct b; [first [done | injection H as H; subst; done | idtac]|]
      | match ?x with _ => _ end = _ => destruct x
      end ]; try done.

Lemma update_first_attempt_frame r (i att : N) r' made :
  RoundState_update_first_attempt r i att = Done (r', made) → keeps_commit r r'.
Proof. unfold RoundState_update_first_attempt. intros H. frame_solve H. Qed.

Lemma submitted_block_frame d r (i root file coll : N) r' :
  RoundState_apply_submitted_block_action d r i root file coll = Done r' → keeps_commit r r'.
Proof. unfold RoundState_apply_submitted_block_action. intros H. frame_solve H. Qed.

Lemma approved_block_frame d r (i cand : N) sig r' :
  RoundState_apply_approved_block_action d r i cand sig = Done r' → keeps_commit r r'.
Proof. unfold RoundState_apply_approved_block_action. intros H. frame_solve H. Qed.

Lemma action_on_attempt_frame d r (i att : N) m r' :
  RoundState_apply_action_on_attempt d r i att m = Done r' → keeps_commit r r'.
Proof.
  unfold RoundState_apply_action_on_attempt. intros H.
  destruct (bool_decide (is_Some (precommitted_block r))) eqn:E; [by injection H as <-|].
  apply bool_decide_eq_false in E. unfold keeps_commit.
  do 7 outcome_step H. destruct a5 as [appears lp]. repeat outcome_step H. done.
Qed.

Lemma round_apply_action_cert d r (i att : N) m r' :
  round_ok d r → round_cert d r → (N.to_nat i < length (sources d))%nat →
  RoundState_apply_action d r i att m = Done r' → round_cert d r'.
Proof.
  intros Hr Hc Hi H. unfold RoundState_apply_action in H.
  destruct (update_first_attempt_ok d r i att Hr Hi) as (fa & made & Hup & Hr1 & _).
  rewrite Hup in H. cbn [mbind outcome_bind fst] in H.
  assert (Hc1 : round_cert d (with_first_attempt r (Some fa))).
  { eapply (keeps_commit_cert d r); [done|done|]. by eapply update_first_attempt_frame. }
  destruct m; try (eapply keeps_commit_cert; [exact Hr1|exact Hc1|]; by eapply action_on_attempt_frame).
  - eapply keeps_commit_cert; [exact Hr1|exact Hc1|]. by eapply submitted_block_frame.
  - eapply keeps_commit_cert; [exact Hr1|exact Hc1|]. by eapply approved_block_frame.
  - by injection H as <-.
  - by eapply committed_block_cert.
Qed.

Lemma old_apply_action_cert d o (i : N) m o' :
  cert_ok d (or_block o) (or_signatures o) → OldRoundState_apply_action d o i m = Done o' →
  cert_ok d (or_block o') (or_signatures o').
Proof.
  intros Hc H. destruct m; simpl in H; try (by injection H as <-).
  - unfold OldRoundState_apply_approved_block_action in H. frame_solve H.
  - unfold OldRoundState_apply_committed_block_action in H.
    destruct (negb (candidate =? _)) eqn:E; breflect; [by injection H as <-|]. outcome_step H.
    destruct a; simpl in H; [|by injection H as <-]. outcome_step H.
    destruct a; [by injection H as <-|]. outcome_step H. injection H as <-.
    apply vector_change_inv in E2 as ->. simpl. apply cert_ok_insert; [done|].
    unfold OldRoundState_check in E0. unfold valid_commit.
    unfold OldRoundState_get_block_id in E. rewrite <- E.
    destruct (candidate =? SKIP_ROUND_CANDIDATE_BLOCKID) eqn:Es; simpl in E0.
    + injection E0 as E0. by destruct signature.
    + outcome_step E0. destruct (or_block o) as [b|]; [|done]. injection E2 as <-. eauto.
Qed.
End certificates.

(** ** Certificates through messages, implicit actions and merges *)
Section session_certificates.
Context {X : External}.
Implicit Types (d : SessionDescription) (r : RoundState) (o : OldRoundState).

Lemma new_round_cert d seqno : round_cert d (RoundState_create_current_round d seqno).
Proof. intros b Hb. done. Qed.

Lemma VectorWrapper_push_iter {T} (w : option (list T)) x :
  VectorWrapper_iter (VectorWrapper_push w x) = VectorWrapper_iter w ++ [x].
Proof. by destruct w. Qed.

(** After a round was updated, it is kept or closed. *)
Lemma advance_round_certs d r (olds : option (list OldRoundState)) ids res signed :
  round_cert d r → (∀ o, o ∈ VectorWrapper_iter olds → cert_ok d (or_block o) (or_signatures o)) →
  (if (signed : bool) then SessionState_close_round d r olds else Done (r, olds)) = Done res →
  session_certs d {| attempt_ids := ids; current_round := fst res; old_rounds := snd res |}.
Proof.
  intros Hr Ho H. destruct signed; [|by injection H as <-].
  unfold SessionState_close_round in H. outcome_step H.
  unfold OldRoundState_create_from_round in E. repeat outcome_step E. repeat outcome_step H.
  split; [apply new_round_cert|]. unfold old_list. cbn [fst snd old_rounds]. rewrite VectorWrapper_push_iter.
  intros o [Hin|Hin]%elem_of_app; [by apply Ho|].
  apply list_elem_of_singleton in Hin as ->. simpl. apply Hr. by destruct (precommitted_block r); simplify_eq/=.
Qed.

Lemma session_apply_action_certs d (s : SessionState) (i att : N) msg s' :
  session_ok d s → session_certs d s → (N.to_nat i < length (sources d))%nat →
  SessionState_apply_action d s i att msg = Done s' → session_certs d s'.
Proof.
  intros Hs [Hr Ho] Hi H. unfold SessionState_apply_action in H. do 2 outcome_step H.
  destruct (_ <? get_round_id msg); [by injection H as <-|].
  destruct (get_round_id msg =? _) eqn:Eq.
  - do 3 outcome_step H. injection H as <-.
    eapply advance_round_certs; [|exact Ho|exact E3].
    eapply round_apply_action_cert; [apply (sok_round _ _ Hs)|exact Hr|exact Hi|exact E1].
  - do 3 outcome_step H. injection H as <-. split; [done|].
    rewrite VectorWrapper_at_iter in E1. apply index_inv in E1.
    assert (Hk : (N.to_nat (get_round_id msg) < length (VectorWrapper_iter (old_rounds s)))%nat)
      by by eapply lookup_lt_Some.
    rewrite VectorWrapper_change_iter in E3 by done. injection E3 as <-.
    unfold old_list. simpl. intros o (k & Hk')%list_elem_of_lookup.
    apply list_lookup_insert_Some in Hk' as [(_ & <- & _)|[_ Hk']].
    + eapply old_apply_action_cert; [|exact E2]. apply Ho. by eapply list_elem_of_lookup_2.
    + apply Ho. by eapply list_elem_of_lookup_2.
Qed.

Lemma round_make_one_frame d r (i att : N) r' made :
  RoundState_make_one d r i att = Done (r', made) → keeps_commit r r'.
Proof.
  unfold RoundState_make_one. intros H. outcome_step H. destruct a as [r1 made1].
  pose proof (update_first_attempt_frame _ _ _ _ _ E) as Hk.
  destruct (bool_decide _); [by injection H as <- <-|]. do 2 outcome_step H. destruct a0 as [a' am].
  destruct am; simpl in H; [|by injection H as <- <-]. outcome_step H. by injection H as <- <-.
Qed.

Lemma session_make_one_certs d (s : SessionState) (i att : N) s' made :
  session_ok d s → session_certs d s → SessionState_make_one d s i att = Done (s', made) → session_certs d s'.
Proof.
  intros Hs [Hr Ho] H. unfold SessionState_make_one in H. do 3 outcome_step H. destruct a1 as [r' m].
  destruct (_ && _); [by injection H as <- <-|]. do 2 outcome_step H. injection H as <- <-.
  split; [|done]. simpl. eapply keeps_commit_cert; [apply (sok_round _ _ Hs)|done|].
  by eapply round_make_one_frame.
Qed.

Lemma session_make_all_certs d fuel (s : SessionState) (i att : N) s' :
  desc_ok d → session_ok d s → session_certs d s → (N.to_nat i < length (sources d))%nat →
  SessionState_make_all fuel d s i att = Some (Done s') → session_certs d s'.
Proof.
  intros Hd. revert s. induction fuel as [|fuel IH]; intros s Hs Hc Hi H; [done|].
  cbn [SessionState_make_all] in H.
  destruct (session_make_one_ok d s i att Hd Hs Hi) as (s1 & made & Hm & Hs1 & _ & _ & Hsame & _).
  rewrite Hm in H. pose proof (session_make_one_certs d s i att s1 made Hs Hc Hm) as Hc1.
  destruct made; [by eapply IH|]. by injection H as <-.
Qed.

(** *** Agreement on decided blocks *)

(** The block a state has decided for round [k]: committed, or precommitted in
    the current round. *)
Definition decided (s : SessionState) (k : nat) : option SentBlockPtr :=
  match old_list s !! k with
  | Some o => Some (or_block o)
  | None => if N.of_nat k =? rs_sequence_number (current_round s) then precommitted_block (current_round s) else None
  end.

Definition decisions_agree (l r : SessionState) : Prop :=
  ∀ k bl br, decided l k = Some bl → decided r k = Some br → bl = br.

Lemma decided_old (s : SessionState) (k : nat) o : old_list s !! k = Some o → decided s k = Some (or_block o).
Proof. unfold decided. by intros ->. Qed.

Lemma decided_current d (s : SessionState) :
  session_ok d s →
  decided s (length (old_list s)) = precommitted_block (current_round s).
Proof.
  intros Hs. unfold decided. rewrite lookup_ge_None_2 by lia. by rewrite (sok_count _ _ Hs), N.eqb_refl.
Qed.

Lemma decisions_agree_precommits d (l r : SessionState) :
  session_ok d l → session_ok d r → decisions_agree l r → precommits_check l r = true.
Proof.
  intros Hl Hr Ha. unfold precommits_check.
  destruct (_ =? _) eqn:E; breflect; simpl; [|done].
  pose proof (decided_current d l Hl) as Hdl. pose proof (decided_current d r Hr) as Hdr.
  assert (length (old_list l) = length (old_list r)) as Hlen.
  { pose proof (sok_count _ _ Hl). pose proof (sok_count _ _ Hr). lia. }
  unfold RoundState_precommits_agree.
  destruct (precommitted_block (current_round l)) as [bl|]; [|done].
  destruct (precommitted_block (current_round r)) as [br|]; [|done].
  rewrite <- Hlen in Hdr. rewrite (Ha _ _ _ Hdl Hdr). apply N.eqb_refl.
Qed.

(** A finished round merged with a round or a finished round that decided the
    same block. *)
Lemma old_merge_cert d k o1 o2 o :
  old_ok d k o1 → old_ok d k o2 → or_block o1 = or_block o2 →
  cert_ok d (or_block o1) (or_signatures o1) → cert_ok d (or_block o2) (or_signatures o2) →
  merge d o1 o2 = Done o → cert_ok d (or_block o) (or_signatures o).
Proof.
  intros [] [] Hb H1 H2 H. unfold merge, OldRoundState_merge in H. outcome_step H.
  rewrite !signatures_merge_ok in H by congruence. repeat outcome_step H. simpl.
  injection E0 as <-. apply cert_ok_join; [done|]. by rewrite Hb.
Qed.

Lemma old_merge_round_cert d o r o' :
  old_ok d (rs_sequence_number r) o → round_ok d r →
  (∀ b, precommitted_block r = Some b → b = or_block o) →
  cert_ok d (or_block o) (or_signatures o) → round_cert d r →
  OldRoundState_merge_round d o r = Done o' → cert_ok d (or_block o') (or_signatures o').
Proof.
  intros [] Hr Hb Ho Hrc H. unfold OldRoundState_merge_round in H. outcome_step H.
  pose proof (rok_sigs _ _ Hr) as Hs. rewrite signatures_merge_ok in H by congruence.
  outcome_step H. injection E0 as <-. outcome_step H. injection H as <-. simpl.
  apply cert_ok_join; [done|]. destruct (precommitted_block r) as [b|] eqn:Ep.
  - rewrite <- (Hb b eq_refl). by apply Hrc.
  - intros i s Hi. apply list_elem_of_lookup_2 in Hi. by pose proof (rok_unsigned _ _ Hr Ep _ Hi).
Qed.

Lemma round_merge_cert d l r m :
  desc_ok d → round_ok d l → round_ok d r → rs_sequence_number l = rs_sequence_number r →
  (∀ bl br, precommitted_block l = Some bl → precommitted_block r = Some br → bl = br) →
  round_cert d l → round_cert d r → merge d l r = Done m → round_cert d m.
Proof.
  intros Hd Hl Hr Hseq Hag Hcl Hcr Hm.
  destruct (round_merge_ok d l r Hd Hl Hr Hseq) as (m' & Hm' & Hmok & _ & Hsig & Hpb).
  { unfold RoundState_precommits_agree. destruct (precommitted_block l), (precommitted_block r); try done.
    rewrite (Hag _ _ eq_refl eq_refl). apply N.eqb_refl. }
  rewrite Hm in Hm'. injection Hm' as <-. intros b Hb. rewrite Hsig.
  assert (Hnone : ∀ x, round_ok d x → precommitted_block x = None → cert_ok d b (rs_signatures x)).
  { intros x Hx Hn i s Hi. apply list_elem_of_lookup_2 in Hi. by pose proof (rok_unsigned _ _ Hx Hn _ Hi). }
  unfold round_cert in Hcl, Hcr.
  destruct (precommitted_block l) as [bl|] eqn:El, (precommitted_block r) as [br|] eqn:Er.
  - rewrite <- (Hag _ _ eq_refl eq_refl) in *. assert (precommitted_block m = Some bl) as Hmb.
    { apply Hpb. simpl. destruct (partial_eq bl bl); [done|]. by destruct bl. }
    rewrite Hmb in Hb. injection Hb as <-. apply cert_ok_join; auto.
  - rewrite (Hpb bl eq_refl) in Hb. injection Hb as <-. apply cert_ok_join; auto.
  - rewrite (Hpb br eq_refl) in Hb. injection Hb as <-. apply cert_ok_join; auto.
  - apply cert_ok_join; auto.
Qed.
End session_certificates.

(** ** Merging states that agree on their decisions *)
Section merge_certificates.
Context {X : External}.
Implicit Types (d : SessionDescription) (l r s m : SessionState) (o : OldRoundState).

Definition certs d (olds : list OldRoundState) : Prop :=
  ∀ (k : nat) o, olds !! k = Some o → cert_ok d (or_block o) (or_signatures o).

Lemma certs_elem d olds : certs d olds ↔ ∀ o, o ∈ olds → cert_ok d (or_block o) (or_signatures o).
Proof.
  split.
  - intros Hc o (k & Hk)%list_elem_of_lookup. by apply (Hc k).
  - intros Hc k o Hk. apply Hc. by eapply list_elem_of_lookup_2.
Qed.

Lemma old_items_merge_certs d (base : nat) (ol or res : list OldRoundState) :
  (∀ (k : nat) o, ol !! k = Some o → old_ok d (N.of_nat (base + k)) o) →
  (∀ (k : nat) o, or !! k = Some o → old_ok d (N.of_nat (base + k)) o) →
  (∀ (k : nat) o1 o2, ol !! k = Some o1 → or !! k = Some o2 → or_block o1 = or_block o2) →
  certs d ol → certs d or → Vector_merge_items (merge d) false ol or = Done res →
  certs d res ∧ ∀ (k : nat) o, res !! k = Some o →
    (∃ o1, ol !! k = Some o1 ∧ or_block o = or_block o1) ∨ (∃ o2, or !! k = Some o2 ∧ or_block o = or_block o2).
Proof.
  revert base or res. induction ol as [|x ol IH]; intros base or res Hl Hr Hag Hcl Hcr H.
  { rewrite merge_items_rest_r in H. injection H as <-. eauto. }
  destruct or as [|y or].
  { rewrite merge_items_rest_l in H. injection H as <-. eauto. }
  cbn [Vector_merge_items] in H. do 2 outcome_step H. injection H as <-.
  pose proof (Hl 0%nat x eq_refl) as Hx. pose proof (Hr 0%nat y eq_refl) as Hy.
  destruct (IH (S base) or a0) as [Hc Hsrc].
  { intros k o Hk. specialize (Hl (S k) o Hk). by rewrite Nat.add_succ_r in Hl. }
  { intros k o Hk. specialize (Hr (S k) o Hk). by rewrite Nat.add_succ_r in Hr. }
  { intros k o1 o2. apply (Hag (S k)). }
  { intros k o Hk. by apply (Hcl (S k)). }
  { intros k o Hk. by apply (Hcr (S k)). }
  { done. }
  split.
  - intros [|k] o; simpl; [|apply Hc]. intros [= <-].
    eapply (old_merge_cert d _ x y a Hx Hy); [by apply (Hag 0%nat)|by apply (Hcl 0%nat)|by apply (Hcr 0%nat)|done].
  - intros [|k] o; simpl; [|apply Hsrc]. intros [= <-]. left. exists x. split; [done|].
    destruct (old_merge_ok d _ x y Hx Hy) as (z & Hz & Hg). rewrite Hz in E. injection E as ->. apply (grows_block _ _ Hg).
Qed.

Lemma old_rounds_merge_certs d l r w :
  session_ok d l → session_ok d r → decisions_agree l r → session_certs d l → session_certs d r →
  VectorWrapper_merge_impl (merge d) pool_ptr_eq false (old_rounds l) (old_rounds r) = Done w →
  certs d (VectorWrapper_iter w) ∧ ∀ (k : nat) o, VectorWrapper_iter w !! k = Some o →
    decided l k = Some (or_block o) ∨ decided r k = Some (or_block o).
Proof.
  intros Hl Hr Hag [_ Hcl] [_ Hcr] H. rewrite <- certs_elem in Hcl, Hcr.
  assert (Hm : Vector_merge_items (merge d) false (old_list l) (old_list r) = Done (VectorWrapper_iter w)).
  { unfold old_list. destruct (old_rounds l) as [ol|], (old_rounds r) as [or|]; cbn [VectorWrapper_iter].
    - cbn [VectorWrapper_merge_impl negb andb from_option] in H. destruct (pool_ptr_eq ol or) eqn:E.
      + apply pool_ptr_eq_sound in E as ->. injection H as <-. simpl.
        clear. induction or as [|x or IH]; simpl; [done|]. rewrite old_merge_idem. run. by rewrite IH.
      + cbn [unwrap mbind outcome_bind] in H. rewrite Vector_merge_impl_items in H by (intros; apply old_merge_idem).
        destruct (Vector_merge_items _ _ _ _); [|done]. by injection H as <-.
    - rewrite merge_items_rest_l. by injection H as <-.
    - rewrite merge_items_rest_r. by injection H as <-.
    - by injection H as <-. }
  destruct (old_items_merge_certs d 0 _ _ (VectorWrapper_iter w) (sok_old _ _ Hl) (sok_old _ _ Hr))
    as [Hc Hsrc]; try done.
  { intros k o1 o2 H1 H2. apply (Hag k); by apply decided_old. }
  split; [done|]. intros k o Hk. destruct (Hsrc k o Hk) as [(o1 & H1 & ->)|(o2 & H2 & ->)].
  - left. by apply decided_old.
  - right. by apply decided_old.
Qed.

(** The late round [s] decided no other block than the finished one. *)
Lemma merge_late_round_cert d s (w : option (list OldRoundState)) o' w' :
  session_ok d s → round_cert d (current_round s) → certs d (VectorWrapper_iter w) →
  (∀ (k : nat) o, VectorWrapper_iter w !! k = Some o → old_ok d (N.of_nat k) o) →
  (∀ (k : nat) o b, VectorWrapper_iter w !! k = Some o → decided s k = Some b → b = or_block o) →
  (old_round ← VectorWrapper_at w (rs_sequence_number (current_round s));
   OldRoundState_merge_round d old_round (current_round s)) = Done o' →
  VectorWrapper_change w (rs_sequence_number (current_round s)) o' = Done w' → certs d (VectorWrapper_iter w').
Proof.
  intros Hs Hrc Hc Hok Hdec H Hch. outcome_step H. rewrite VectorWrapper_at_iter in E. apply index_inv in E.
  rewrite VectorWrapper_change_iter in Hch by by eapply lookup_lt_Some. injection Hch as <-. simpl.
  intros k o Hk. apply list_lookup_insert_Some in Hk as [(_ & <- & _)|[_ Hk]]; [|by apply (Hc k)].
  pose proof (Hok _ _ E) as Ha. rewrite N2Nat.id in Ha.
  eapply (old_merge_round_cert d a (current_round s)); [done|apply (sok_round _ _ Hs)| |by eapply Hc|done|done].
  intros b Hb. eapply Hdec; [exact E|].
  rewrite (sok_count _ _ Hs), Nat2N.id. by rewrite (decided_current d).
Qed.

Lemma merge_rounds_certs d l r w cr w' :
  desc_ok d → session_ok d l → session_ok d r → decisions_agree l r → session_certs d l → session_certs d r →
  (∀ (k : nat) o, VectorWrapper_iter w !! k = Some o → old_ok d (N.of_nat k) o) →
  certs d (VectorWrapper_iter w) →
  (∀ (k : nat) o b, VectorWrapper_iter w !! k = Some o → decided l k = Some b ∨ decided r k = Some b → b = or_block o) →
  SessionState_merge_rounds d (current_round l) (current_round r) w = Done (cr, w') →
  round_cert d cr ∧ certs d (VectorWrapper_iter w').
Proof.
  intros Hd Hl Hr Hag [Hcl _] [Hcr _] Hok Hc Hdec H. unfold SessionState_merge_rounds in H.
  destruct (_ <? _) eqn:E1; breflect; [|destruct (rs_sequence_number (current_round r) <? _) eqn:E2; breflect].
  - do 3 outcome_step H. injection H as <- <-. split; [done|].
    eapply (merge_late_round_cert d l w a0); try done; [eauto|]. rewrite E. done.
  - do 3 outcome_step H. injection H as <- <-. split; [done|].
    eapply (merge_late_round_cert d r w a0); try done; [eauto|]. rewrite E. done.
  - outcome_step H. injection H as <- <-. split; [|done].
    assert (Heq : rs_sequence_number (current_round l) = rs_sequence_number (current_round r)) by lia.
    eapply round_merge_cert; [done|apply (sok_round _ _ Hl)|apply (sok_round _ _ Hr)|done| |done|done|done].
    intros bl br Hbl Hbr. rewrite <- (decided_current d) in Hbl, Hbr by done.
    pose proof (sok_count _ _ Hl). pose proof (sok_count _ _ Hr).
    replace (length (old_list r)) with (length (old_list l)) in Hbr by lia. by eapply Hag.
Qed.

Lemma session_merge_certs d l r m :
  desc_ok d → session_ok d l → session_ok d r → decisions_agree l r →
  session_certs d l → session_certs d r → merge d l r = Done m → session_certs d m.
Proof.
  intros Hd Hl Hr Hag Hcl Hcr H. unfold merge, SessionState_merge in H. do 5 outcome_step H.
  destruct (old_rounds_merge_ok d l r Hl Hr) as (w & Hw & _ & Hok & Hg & Hgr). rewrite Hw in E2. injection E2 as <-.
  destruct (old_rounds_merge_certs d l r w Hl Hr Hag Hcl Hcr Hw) as [Hc Hsrc].
  destruct a3 as [cr w']. do 2 outcome_step H. injection H as <-.
  destruct (merge_rounds_certs d l r w cr w' Hd Hl Hr Hag Hcl Hcr Hok Hc) as [Hrc Hc']; [|done|].
  { intros k o b Hk [Hb|Hb]; destruct (Hsrc k o Hk) as [Ho|Ho].
    - congruence.
    - by eapply Hag.
    - symmetry. by eapply Hag.
    - congruence. }
  eapply advance_round_certs; [exact Hrc|by apply certs_elem|].
  instantiate (1 := a2). destruct a2; [|done]. by outcome_step E4.
Qed.
End merge_certificates.

(** ** Reachable states *)
Section reachability.
Context {X : External}.
Implicit Types (d : SessionDescription) (l r s m : SessionState) (o : OldRoundState).

(** A node of the session, and a round number that can still be incremented. *)
Definition is_node d (i : N) : Prop := (N.to_nat i < length (sources d))%nat.
Definition round_room s : Prop := rs_sequence_number (current_round s) + 1 < two32.

(** One step of a validator: a message, the implicit actions, or the merge of
    the state of another branch that agrees on the decided blocks. *)
Inductive session_step d (other : SessionState → Prop) : SessionState → SessionState → Prop :=
| step_action s i att msg s' :
    is_node d i → round_room s →
    SessionState_apply_action d s i att msg = Done s' → session_step d other s s'
| step_make_all fuel s i att s' :
    is_node d i → SessionState_make_all fuel d s i att = Some (Done s') → session_step d other s s'
| step_merge l r m :
    other r → decisions_agree l r → round_room l → round_room r →
    merge d l r = Done m → session_step d other l m.

Inductive reachable d : SessionState → Prop :=
| reach_empty : reachable d (SessionState_create_empty d)
| reach_action s i att msg s' :
    reachable d s → is_node d i → round_room s →
    SessionState_apply_action d s i att msg = Done s' → reachable d s'
| reach_make_all fuel s i att s' :
    reachable d s → is_node d i →
    SessionState_make_all fuel d s i att = Some (Done s') → reachable d s'
| reach_merge l r m :
    reachable d l → reachable d r → decisions_agree l r → round_room l → round_room r →
    merge d l r = Done m → reachable d m.

Lemma make_all_done d fuel s i att s' :
  desc_ok d → session_ok d s → is_node d i → SessionState_make_all fuel d s i att = Some (Done s') →
  session_ok d s' ∧ old_rounds s' = old_rounds s.
Proof.
  intros Hd. revert s. induction fuel as [|fuel IH]; intros s Hs Hi H; [done|]. cbn [SessionState_make_all] in H.
  destruct (session_make_one_ok d s i att Hd Hs Hi) as (s1 & made & Hm & Hs1 & Hold & _). rewrite Hm in H.
  destruct made; [|by injection H as <-]. destruct (IH s1 Hs1 Hi H) as [? ?]. split; [done|congruence].
Qed.

(** Every step from good states gives a good state and keeps the history. *)
Lemma session_step_ok d other s s' :
  desc_ok d → (∀ x, other x → session_ok d x ∧ session_certs d x) →
  session_ok d s → session_certs d s → session_step d other s s' →
  session_ok d s' ∧ session_certs d s' ∧ history_grows (old_list s) (old_list s').
Proof.
  intros Hd Hoth Hs Hc Hstep. destruct Hstep as [s i att msg s' Hi Hb H|fuel s i att s' Hi H|l r m Hr Hag Hbl Hbr H].
  - destruct (session_apply_action_ok d s i att msg Hd Hs Hi Hb) as (s1 & H1 & Hok & Hg & _).
    rewrite H in H1. injection H1 as <-. split; [done|]. split; [|done].
    exact (session_apply_action_certs d s i att msg s' Hs Hc Hi H).
  - destruct (make_all_done d fuel s i att s' Hd Hs Hi H) as [Hok Hold]. split; [done|].
    split; [exact (session_make_all_certs d fuel s i att s' Hd Hs Hc Hi H)|]. unfold old_list. rewrite Hold. apply history_grows_refl.
  - destruct (Hoth r Hr) as [Hrok Hrc].
    destruct (session_merge_ok d l r Hd Hs Hrok) as (m' & Hm & Hok & Hg & _); try done.
    { by eapply decisions_agree_precommits. }
    rewrite H in Hm. injection Hm as <-. split; [done|]. split; [|done]. by eapply (session_merge_certs d l r).
Qed.

Lemma reachable_good d s : desc_ok d → reachable d s → session_ok d s ∧ session_certs d s.
Proof.
  intros Hd. induction 1 as [|s i att msg s' _ [Hs Hc] Hi Hb H|fuel s i att s' _ [Hs Hc] Hi H
    |l r m _ [Hl Hcl] _ [Hr Hcr] Hag Hbl Hbr H].
  - split; [by apply session_empty_ok|]. split; [apply new_round_cert|]. intros o Ho. simpl in Ho. set_solver.
  - destruct (session_step_ok d (λ _, False) s s' Hd) as (? & ? & _); try done. by econstructor.
  - destruct (session_step_ok d (λ _, False) s s' Hd) as (? & ? & _); try done. by eapply step_make_all.
  - destruct (session_step_ok d (λ x, x = r) l m Hd) as (? & ? & _); try done.
    + by intros x ->.
    + by eapply step_merge.
Qed.

(** The nodes that signed both certificates weigh more than a third. *)
Lemma double_signers d k o1 o2 :
  desc_ok d → old_ok d k o1 → old_ok d k o2 →
  total_weight d < 3 * flag_weight (sources d) (zip_with andb (sig_flags (or_signatures o1)) (sig_flags (or_signatures o2))).
Proof.
  intros Hd H1 H2. apply quorum_intersection; rewrite ?sig_flags_length; try done;
    try apply old_sigs_len with k; try done; by eapply old_cert.
Qed.

(** A flagged node has a stored signature. *)
Lemma sig_flags_lookup (sigs : BlockCandidateSignatureVectorPtr) (i : nat) :
  sig_flags sigs !! i = Some true → ∃ sig, sigs !! i = Some (Some sig).
Proof.
  unfold sig_flags. rewrite list_lookup_fmap. destruct (sigs !! i) as [[sig|]|]; simpl; try done. eauto.
Qed.
End reachability.

(** Reading a finished round. *)
Lemma get_committed_block_old {X : External} (s : SessionState) (k : nat) o :
  old_list s !! k = Some o → SessionState_get_committed_block s (N.of_nat k) = Done (Some (or_block o)).
Proof.
  intros Hk. unfold SessionState_get_committed_block, SessionState_get_old_round.
  assert (Hlen : VectorWrapper_len (old_rounds s) = N.of_nat (length (old_list s))) by by (unfold old_list; destruct (old_rounds s)).
  rewrite Hlen. pose proof (lookup_lt_Some _ _ _ Hk). rewrite (proj2 (N.ltb_lt _ _)) by lia.
  rewrite VectorWrapper_at_iter. rewrite (index_nat _ _ o) by done. done.
Qed.

(** ** Faulty weight and disagreement *)
Section safety_lemmas.
Context {X : External}.
Implicit Types (d : SessionDescription) (l r : SessionState) (o : OldRoundState).

(** A set of nodes is heavier than another only if it is not contained in it. *)
Lemma flag_weight_outside srcs (f1 f2 : list bool) :
  length f1 = length f2 → flag_weight srcs f2 < flag_weight srcs f1 →
  ∃ i : nat, f1 !! i = Some true ∧ f2 !! i = Some false.
Proof.
  revert f1 f2. induction srcs as [|s srcs IH]; intros [|b1 f1] [|b2 f2]; simpl; try lia.
  intros [= Hlen] Hlt. destruct b1, b2; try (by exists 0%nat);
    (destruct (IH f1 f2 Hlen) as (i & ? & ?); [lia|by exists (S i)]).
Qed.

Lemma honest_double_signer d k o1 o2 (faulty : list bool) :
  desc_ok d → old_ok d k o1 → old_ok d k o2 →
  length faulty = length (sources d) → 3 * flag_weight (sources d) faulty ≤ total_weight d →
  ∃ (i : nat) sig1 sig2, faulty !! i = Some false ∧
    or_signatures o1 !! i = Some (Some sig1) ∧ or_signatures o2 !! i = Some (Some sig2).
Proof.
  intros Hd H1 H2 Hlen Hw. pose proof (double_signers d k o1 o2 Hd H1 H2) as Hq.
  pose proof (old_sigs_len _ _ _ H1) as Hl1. pose proof (old_sigs_len _ _ _ H2) as Hl2.
  destruct (flag_weight_outside (sources d)
    (zip_with andb (sig_flags (or_signatures o1)) (sig_flags (or_signatures o2))) faulty) as (i & Hi & Hf).
  - rewrite length_zip_with, !sig_flags_length. lia.
  - lia.
  - apply lookup_zip_with_Some in Hi as (b1 & b2 & Hb & Hi1 & Hi2). destruct b1, b2; try done.
    apply sig_flags_lookup in Hi1 as [sig1 ?]. apply sig_flags_lookup in Hi2 as [sig2 ?]. exists i, sig1, sig2. done.
Qed.

(** Rounds that precommitted different blocks cannot be merged. *)
Lemma round_merge_panics d (rl rr : RoundState) :
  desc_ok d → round_ok d rl → round_ok d rr → rs_sequence_number rl = rs_sequence_number rr →
  RoundState_precommits_agree (precommitted_block rl) (precommitted_block rr) = false →
  merge d rl rr = Panic.
Proof.
  intros Hd Hl Hr Hseq Ha. unfold merge, RoundState_merge. rewrite Hseq, N.eqb_refl, Ha.
  cbn [assert_that mbind outcome_bind].
  destruct (first_attempt_merge_ok d rl rr Hl Hr) as (fa & -> & _). run.
  destruct (attempts_merge_ok d rl rr Hd Hl Hr) as (w & -> & _). done.
Qed.

Lemma session_merge_panics d l r :
  desc_ok d → session_ok d l → session_ok d r → precommits_check l r = false → merge d l r = Panic.
Proof.
  intros Hd Hl Hr Ha. unfold precommits_check in Ha. apply orb_false_iff in Ha as [Hs Ha].
  apply negb_false_iff, N.eqb_eq in Hs. unfold merge, SessionState_merge.
  pose proof (total_nodes_ok d Hd) as Hn. pose proof (sok_ids _ _ Hl) as Hil. pose proof (sok_ids _ _ Hr) as Hir.
  rewrite Hil, Hir, Hn, N.eqb_refl. cbn [assert_that mbind outcome_bind].
  rewrite Vector_merge_impl_items by (intros; by rewrite N.max_id).
  rewrite (Vector_merge_items_pure _ N.max) by congruence. run.
  destruct (old_rounds_merge_ok d l r Hl Hr) as (w & -> & _). run.
  unfold SessionState_merge_rounds. rewrite Hs, N.ltb_irrefl.
  rewrite round_merge_panics; [done|done|apply (sok_round _ _ Hl)|apply (sok_round _ _ Hr)|done|done].
Qed.

(** The check of a commit signature of a finished round. *)
Lemma old_check_commit d o (i : N) sig :
  (N.to_nat i < length (sources d))%nat →
  ∃ v, OldRoundState_check o (OldRoundState_get_block_id o) sig
      (λ b, check_signature d (sb_root_hash b) (sb_file_hash b) i sig) = Done v ∧
    (v = true ↔ valid_commit d (or_block o) i sig).
Proof.
  intros Hi. unfold OldRoundState_check, valid_commit, OldRoundState_get_block_id.
  destruct (SentBlock_get_id (or_block o) =? SKIP_ROUND_CANDIDATE_BLOCKID) eqn:E; simpl.
  - eexists. split; [done|]. by destruct sig.
  - destruct (or_block o) as [b|]; simpl in *; [|done].
    destruct (check_signature_total d (sb_root_hash b) (sb_file_hash b) i sig Hi) as [v Hv]. rewrite Hv.
    exists v. split; [done|]. split; [intros ->; eauto|]. intros (b' & [= <-] & Hb'). congruence.
Qed.
End safety_lemmas.

(** ** Decisions are kept

    A block that a state has decided for a round (committed, or precommitted in the
    current round) stays decided when messages are applied to the state and when the
    state of another branch that agrees is merged into it. *)

Section decided.
Context {X : External}.
Implicit Types (d : SessionDescription) (r : RoundState) (s : SessionState) (o : OldRoundState) (b : SentBlockPtr).

Definition decisions_kept s s' : Prop := ∀ k b, decided s k = Some b → decided s' k = Some b.

Lemma decided_cases d s k b : session_ok d s → decided s k = Some b →
  (∃ o, old_list s !! k = Some o ∧ or_block o = b) ∨ k = length (old_list s) ∧ precommitted_block (current_round s) = Some b.
Proof.
  intros Hs. unfold decided. destruct (old_list s !! k) as [o|] eqn:E; [intros [= <-]; left; by exists o|].
  destruct (_ =? _) eqn:Ek; [|done]. breflect. rewrite (sok_count _ _ Hs) in Ek. intros H. right. split; [lia|done].
Qed.

Lemma create_from_round_block d r o : OldRoundState_create_from_round d r = Done o → precommitted_block r = Some (or_block o).
Proof.
  unfold OldRoundState_create_from_round. intros H. repeat outcome_step H. simpl. by destruct (precommitted_block r); simplify_eq/=.
Qed.

(** A round that is kept or closed decides its precommitted block. *)
Lemma advance_decided d r (olds : option (list OldRoundState)) ids res (signed : bool) b :
  rs_sequence_number r = N.of_nat (length (VectorWrapper_iter olds)) → precommitted_block r = Some b →
  (if signed then SessionState_close_round d r olds else Done (r, olds)) = Done res →
  decided {| attempt_ids := ids; current_round := fst res; old_rounds := snd res |} (length (VectorWrapper_iter olds)) = Some b.
Proof.
  intros Hseq Hb H. unfold decided, old_list. simpl. destruct signed.
  - unfold SessionState_close_round in H. apply bind_Done_inv in H as (o & Ho & H). apply create_from_round_block in Ho.
    apply bind_Done_inv in H as (u & _ & H). injection H as <-. cbn [fst snd]. rewrite VectorWrapper_push_iter, list_lookup_middle by done. congruence.
  - injection H as <-. simpl. rewrite lookup_ge_None_2 by lia. by rewrite Hseq, N.eqb_refl.
Qed.

(** ** Messages *)
Lemma round_apply_action_precommit d r (i att : N) m r' b : round_ok d r → is_node d i →
  RoundState_apply_action d r i att m = Done r' → precommitted_block r = Some b → precommitted_block r' = Some b.
Proof.
  intros Hr Hi H Hb. unfold RoundState_apply_action in H. apply bind_Done_inv in H as ([r1 made] & Hup & H). simpl in H.
  assert (precommitted_block r1 = Some b) as Hb1.
  { destruct (update_first_attempt_frame _ _ _ _ _ Hup) as [_ Hk]. rewrite Hk by eauto. done. }
  assert (keeps_commit r1 r' → precommitted_block r' = Some b) as K by (intros [_ Hk]; rewrite Hk by eauto; done).
  destruct m; try (apply K; by eapply action_on_attempt_frame).
  - apply K. by eapply submitted_block_frame.
  - apply K. by eapply approved_block_frame.
  - by injection H as <-.
  - unfold RoundState_apply_committed_block_action in H. rewrite Hb1 in H. destruct (negb _); [by injection H as <-|].
    apply bind_Done_inv in H as (x & _ & H). destruct (bool_decide _); [by injection H as <-|]. apply bind_Done_inv in H as (v & _ & H).
    destruct v; simpl in H; [|by injection H as <-]. apply bind_Done_inv in H as (w & _ & H). injection H as <-. done.
Qed.

Lemma apply_action_decided d s (i att : N) m s' : desc_ok d → session_ok d s → is_node d i → round_room s →
  SessionState_apply_action d s i att m = Done s' → decisions_kept s s'.
Proof.
  intros Hd Hs Hi Hroom H k b Hk.
  destruct (session_apply_action_ok d s i att m Hd Hs Hi Hroom) as (s1 & H1 & Hs' & Hg & _). rewrite H in H1. injection H1 as <-.
  destruct (decided_cases d s k b Hs Hk) as [(o & Ho & <-)|[-> Hb]].
  { destruct (Hg k o Ho) as (o' & Ho' & G). rewrite (decided_old _ _ _ Ho'). by rewrite (grows_block _ _ G). }
  unfold SessionState_apply_action in H. apply bind_Done_inv in H as (cur & _ & H). apply bind_Done_inv in H as (ids & _ & H).
  pose proof (sok_count _ _ Hs) as Hc.
  destruct (_ <? get_round_id m).
  { injection H as <-. unfold decided, old_list. simpl. unfold old_list in Hc. rewrite lookup_ge_None_2 by lia. by rewrite Hc, N.eqb_refl. }
  destruct (get_round_id m =? _).
  - apply bind_Done_inv in H as (r' & Hr' & H). apply bind_Done_inv in H as (signed & _ & H). apply bind_Done_inv in H as (res & Hres & H). injection H as <-.
    destruct (round_apply_action_ok d (current_round s) i (clamp_attempt_id cur att) m Hd (sok_round _ _ Hs) Hi (clamp_attempt_id_pos cur att)) as (r'' & E & _ & Hseq).
    rewrite Hr' in E. injection E as <-. unfold old_list. eapply advance_decided; [| |exact Hres].
    + rewrite Hseq. exact Hc.
    + eapply round_apply_action_precommit; [apply (sok_round _ _ Hs)|exact Hi|exact Hr'|exact Hb].
  - apply bind_Done_inv in H as (o & _ & H). apply bind_Done_inv in H as (o' & _ & H). apply bind_Done_inv in H as (olds & Ho & H). injection H as <-.
    assert (length (VectorWrapper_iter olds) = length (old_list s)) as Hl.
    { pose proof (sok_count _ _ Hs') as Hc'. unfold old_list in Hc' at 1. simpl in Hc'. lia. }
    unfold decided, old_list. simpl. unfold old_list in *. rewrite lookup_ge_None_2 by lia. by rewrite Hc, N.eqb_refl.
Qed.

(** ** Merges *)
Lemma merge_current d (l r m : SessionState) : desc_ok d → session_ok d l → session_ok d r → decisions_agree l r → merge d l r = Done m →
  rs_sequence_number (current_round r) ≤ rs_sequence_number (current_round l) → ∀ b, precommitted_block (current_round l) = Some b →
  decided m (length (old_list l)) = Some b.
Proof.
  intros Hd Hl Hr Hag H Hle b Hb. unfold merge, SessionState_merge in H. do 2 apply bind_Done_inv in H as (? & _ & H).
  apply bind_Done_inv in H as (ids & _ & H). apply bind_Done_inv in H as (w & Hw & H).
  destruct (old_rounds_merge_ok d l r Hl Hr) as (w0 & Hw0 & Hlen & Hok & _). rewrite Hw0 in Hw. injection Hw as <-.
  apply bind_Done_inv in H as ([cr w'] & Hm & H). apply bind_Done_inv in H as (signed & _ & H). apply bind_Done_inv in H as (res & Hres & H). injection H as <-.
  pose proof (sok_count _ _ Hl) as Hcl. pose proof (sok_count _ _ Hr) as Hcr.
  destruct (merge_rounds_ok d l r w0 Hd Hl Hr (decisions_agree_precommits d l r Hl Hr Hag) Hlen Hok) as (cr0 & w0' & Hm0 & _ & Hseq & Hlen' & _).
  rewrite Hm in Hm0. injection Hm0 as <- <-.
  replace (length (old_list l)) with (length (VectorWrapper_iter w')) by lia. apply (advance_decided d cr w' ids res signed).
  - congruence.
  - unfold SessionState_merge_rounds in Hm. rewrite (proj2 (N.ltb_ge _ _)) in Hm by lia. destruct (_ <? _) eqn:E; breflect.
    + do 3 apply bind_Done_inv in Hm as (? & _ & Hm). by injection Hm as <- <-.
    + apply bind_Done_inv in Hm as (m & Hm & Heq). injection Heq as <- _.
      assert (rs_sequence_number (current_round l) = rs_sequence_number (current_round r)) as Hs by lia.
      destruct (round_merge_ok d (current_round l) (current_round r) Hd (sok_round _ _ Hl) (sok_round _ _ Hr) Hs) as (m' & Hm' & _ & _ & _ & Hp).
      { pose proof (decisions_agree_precommits d l r Hl Hr Hag) as Hc. unfold precommits_check in Hc. rewrite Hs, N.eqb_refl in Hc. done. }
      rewrite Hm in Hm'. injection Hm' as <-. apply Hp. rewrite Hb. unfold Option_merge.
      destruct (precommitted_block (current_round r)) as [br|] eqn:Hbr; [|done].
      assert (b = br) as <-.
      { apply (Hag (length (old_list l))); [by rewrite (decided_current d)|]. replace (length (old_list l)) with (length (old_list r)) by lia. by rewrite (decided_current d). }
      destruct (partial_eq b b); [done|]. by destruct b.
  - destruct signed; [|done]. by apply bind_Done_inv in Hres as (u & _ & Hres).
Qed.

Lemma merge_decided d (l r m : SessionState) : desc_ok d → session_ok d l → session_ok d r → decisions_agree l r → round_room l → round_room r →
  merge d l r = Done m → decisions_kept l m.
Proof.
  intros Hd Hl Hr Hag Hbl Hbr H k b Hk.
  destruct (session_merge_ok d l r Hd Hl Hr (decisions_agree_precommits d l r Hl Hr Hag) Hbl Hbr) as (m' & Hm & _ & Hg & Hgr & _).
  rewrite H in Hm. injection Hm as <-. destruct (decided_cases d l k b Hl Hk) as [(o & Ho & <-)|[-> Hb]].
  { destruct (Hg k o Ho) as (o' & Ho' & G). rewrite (decided_old _ _ _ Ho'). by rewrite (grows_block _ _ G). }
  pose proof (sok_count _ _ Hl) as Hcl. pose proof (sok_count _ _ Hr) as Hcr.
  destruct (decide (rs_sequence_number (current_round r) ≤ rs_sequence_number (current_round l))) as [Hle|Hgt]; [by eapply merge_current|].
  assert (is_Some (old_list r !! length (old_list l))) as [o Ho] by (apply lookup_lt_is_Some; lia).
  destruct (Hgr (length (old_list l)) o) as (o' & Ho' & G); [apply lookup_ge_None_2; lia|done|].
  rewrite (decided_old _ _ _ Ho'), (grows_block _ _ G). f_equal. symmetry.
  apply (Hag (length (old_list l))); [by rewrite (decided_current d)|by apply decided_old].
Qed.
End decided.
