(* ===== verification/ReceivedBlock.v ===== *)
(** * Catchain: received blocks as data

    The state of a received block ([ReceivedBlockImpl] of
    [catchain/src/received_block.rs]) and its accessors.  Blocks are shared cells
    ([Rc<RefCell<ReceivedBlockImpl>>]): the links between blocks ([prev], [next],
    dependencies and reverse dependencies) are references into a heap of cells.
    The throttling times, the serialisation cache and the instance counter are
    left out. *)

From S2P Require Import Prelude.

Inductive ReceivedBlockState := Null | Ill | Initialized | Delivered.

#[global] Instance ReceivedBlockState_eq_dec : EqDecision ReceivedBlockState.
Proof. solve_decision. Defined.

(** [BlockHeight] is an [i32]; additions wrap in release builds. *)
Abbreviation BlockHeight := Z.
Definition i32_wrap (z : Z) : Z := ((z + 2147483648) mod 4294967296 - 2147483648)%Z.
Definition i32_add (a b : Z) : Z := i32_wrap (a + b).
Definition i32_max : Z := 2147483647.

(** [catchain.block.dep] and [catchain.block]. *)
Record BlockDep := {
  dep_src : Z;
  dep_data_hash : N;
  dep_height : Z;
  dep_signature : list N;
}.

Record Block := {
  blk_incarnation : N;
  blk_src : Z;
  blk_height : Z;
  blk_prev : BlockDep;
  blk_deps : list BlockDep;
  blk_signature : list N;
}.

Record ReceivedBlock := {
  rb_state : ReceivedBlockState;
  rb_height : BlockHeight;
  rb_incarnation : N;
  rb_hash : N;
  rb_data_hash : N;
  rb_source_id : N;
  rb_fork_id : N;
  rb_prev : option N;
  rb_next : option N;
  rb_signature : list N;
  rb_payload : list N;
  rb_block_deps : list N;
  rb_rev_deps : list N;
  rb_forks_dep_heights : list BlockHeight;
  rb_pending_deps : N;
  rb_in_db : bool;
  rb_is_custom : bool;
  rb_get_pending_deps_call_id : N;
}.

#[global] Instance BlockDep_eq_dec : EqDecision BlockDep.
Proof. solve_decision. Defined.
#[global] Instance ReceivedBlock_eq_dec : EqDecision ReceivedBlock.
Proof. solve_decision. Defined.

(** The shared cells, by reference. *)
Abbreviation BlockHeap := (gmap N ReceivedBlock).

(** ** Assignments of one field *)
Definition set_state (v : ReceivedBlockState) (b : ReceivedBlock) : ReceivedBlock :=
  {| rb_state := v; rb_height := rb_height b; rb_incarnation := rb_incarnation b; rb_hash := rb_hash b;
     rb_data_hash := rb_data_hash b; rb_source_id := rb_source_id b; rb_fork_id := rb_fork_id b;
     rb_prev := rb_prev b; rb_next := rb_next b; rb_signature := rb_signature b; rb_payload := rb_payload b;
     rb_block_deps := rb_block_deps b; rb_rev_deps := rb_rev_deps b;
     rb_forks_dep_heights := rb_forks_dep_heights b; rb_pending_deps := rb_pending_deps b;
     rb_in_db := rb_in_db b; rb_is_custom := rb_is_custom b;
     rb_get_pending_deps_call_id := rb_get_pending_deps_call_id b |}.

Definition set_fork_id (v : N) (b : ReceivedBlock) : ReceivedBlock :=
  {| rb_state := rb_state b; rb_height := rb_height b; rb_incarnation := rb_incarnation b;
     rb_hash := rb_hash b; rb_data_hash := rb_data_hash b; rb_source_id := rb_source_id b; rb_fork_id := v;
     rb_prev := rb_prev b; rb_next := rb_next b; rb_signature := rb_signature b; rb_payload := rb_payload b;
     rb_block_deps := rb_block_deps b; rb_rev_deps := rb_rev_deps b;
     rb_forks_dep_heights := rb_forks_dep_heights b; rb_pending_deps := rb_pending_deps b;
     rb_in_db := rb_in_db b; rb_is_custom := rb_is_custom b;
     rb_get_pending_deps_call_id := rb_get_pending_deps_call_id b |}.

Definition set_prev (v : option N) (b : ReceivedBlock) : ReceivedBlock :=
  {| rb_state := rb_state b; rb_height := rb_height b; rb_incarnation := rb_incarnation b;
     rb_hash := rb_hash b; rb_data_hash := rb_data_hash b; rb_source_id := rb_source_id b;
     rb_fork_id := rb_fork_id b; rb_prev := v; rb_next := rb_next b; rb_signature := rb_signature b;
     rb_payload := rb_payload b; rb_block_deps := rb_block_deps b; rb_rev_deps := rb_rev_deps b;
     rb_forks_dep_heights := rb_forks_dep_heights b; rb_pending_deps := rb_pending_deps b;
     rb_in_db := rb_in_db b; rb_is_custom := rb_is_custom b;
     rb_get_pending_deps_call_id := rb_get_pending_deps_call_id b |}.

Definition set_next (v : option N) (b : ReceivedBlock) : ReceivedBlock :=
  {| rb_state := rb_state b; rb_height := rb_height b; rb_incarnation := rb_incarnation b;
     rb_hash := rb_hash b; rb_data_hash := rb_data_hash b; rb_source_id := rb_source_id b;
     rb_fork_id := rb_fork_id b; rb_prev := rb_prev b; rb_next := v; rb_signature := rb_signature b;
     rb_payload := rb_payload b; rb_block_deps := rb_block_deps b; rb_rev_deps := rb_rev_deps b;
     rb_forks_dep_heights := rb_forks_dep_heights b; rb_pending_deps := rb_pending_deps b;
     rb_in_db := rb_in_db b; rb_is_custom := rb_is_custom b;
     rb_get_pending_deps_call_id := rb_get_pending_deps_call_id b |}.

Definition set_signature (v : list N) (b : ReceivedBlock) : ReceivedBlock :=
  {| rb_state := rb_state b; rb_height := rb_height b; rb_incarnation := rb_incarnation b;
     rb_hash := rb_hash b; rb_data_hash := rb_data_hash b; rb_source_id := rb_source_id b;
     rb_fork_id := rb_fork_id b; rb_prev := rb_prev b; rb_next := rb_next b; rb_signature := v;
     rb_payload := rb_payload b; rb_block_deps := rb_block_deps b; rb_rev_deps := rb_rev_deps b;
     rb_forks_dep_heights := rb_forks_dep_heights b; rb_pending_deps := rb_pending_deps b;
     rb_in_db := rb_in_db b; rb_is_custom := rb_is_custom b;
     rb_get_pending_deps_call_id := rb_get_pending_deps_call_id b |}.

Definition set_payload (v : list N) (b : ReceivedBlock) : ReceivedBlock :=
  {| rb_state := rb_state b; rb_height := rb_height b; rb_incarnation := rb_incarnation b;
     rb_hash := rb_hash b; rb_data_hash := rb_data_hash b; rb_source_id := rb_source_id b;
     rb_fork_id := rb_fork_id b; rb_prev := rb_prev b; rb_next := rb_next b; rb_signature := rb_signature b;
     rb_payload := v; rb_block_deps := rb_block_deps b; rb_rev_deps := rb_rev_deps b;
     rb_forks_dep_heights := rb_forks_dep_heights b; rb_pending_deps := rb_pending_deps b;
     rb_in_db := rb_in_db b; rb_is_custom := rb_is_custom b;
     rb_get_pending_deps_call_id := rb_get_pending_deps_call_id b |}.

Definition set_block_deps (v : list N) (b : ReceivedBlock) : ReceivedBlock :=
  {| rb_state := rb_state b; rb_height := rb_height b; rb_incarnation := rb_incarnation b;
     rb_hash := rb_hash b; rb_data_hash := rb_data_hash b; rb_source_id := rb_source_id b;
     rb_fork_id := rb_fork_id b; rb_prev := rb_prev b; rb_next := rb_next b; rb_signature := rb_signature b;
     rb_payload := rb_payload b; rb_block_deps := v; rb_rev_deps := rb_rev_deps b;
     rb_forks_dep_heights := rb_forks_dep_heights b; rb_pending_deps := rb_pending_deps b;
     rb_in_db := rb_in_db b; rb_is_custom := rb_is_custom b;
     rb_get_pending_deps_call_id := rb_get_pending_deps_call_id b |}.

Definition set_rev_deps (v : list N) (b : ReceivedBlock) : ReceivedBlock :=
  {| rb_state := rb_state b; rb_height := rb_height b; rb_incarnation := rb_incarnation b;
     rb_hash := rb_hash b; rb_data_hash := rb_data_hash b; rb_source_id := rb_source_id b;
     rb_fork_id := rb_fork_id b; rb_prev := rb_prev b; rb_next := rb_next b; rb_signature := rb_signature b;
     rb_payload := rb_payload b; rb_block_deps := rb_block_deps b; rb_rev_deps := v;
     rb_forks_dep_heights := rb_forks_dep_heights b; rb_pending_deps := rb_pending_deps b;
     rb_in_db := rb_in_db b; rb_is_custom := rb_is_custom b;
     rb_get_pending_deps_call_id := rb_get_pending_deps_call_id b |}.

Definition set_forks_dep_heights (v : list BlockHeight) (b : ReceivedBlock) : ReceivedBlock :=
  {| rb_state := rb_state b; rb_height := rb_height b; rb_incarnation := rb_incarnation b;
     rb_hash := rb_hash b; rb_data_hash := rb_data_hash b; rb_source_id := rb_source_id b;
     rb_fork_id := rb_fork_id b; rb_prev := rb_prev b; rb_next := rb_next b; rb_signature := rb_signature b;
     rb_payload := rb_payload b; rb_block_deps := rb_block_deps b; rb_rev_deps := rb_rev_deps b;
     rb_forks_dep_heights := v; rb_pending_deps := rb_pending_deps b; rb_in_db := rb_in_db b;
     rb_is_custom := rb_is_custom b; rb_get_pending_deps_call_id := rb_get_pending_deps_call_id b |}.

Definition set_pending_deps (v : N) (b : ReceivedBlock) : ReceivedBlock :=
  {| rb_state := rb_state b; rb_height := rb_height b; rb_incarnation := rb_incarnation b;
     rb_hash := rb_hash b; rb_data_hash := rb_data_hash b; rb_source_id := rb_source_id b;
     rb_fork_id := rb_fork_id b; rb_prev := rb_prev b; rb_next := rb_next b; rb_signature := rb_signature b;
     rb_payload := rb_payload b; rb_block_deps := rb_block_deps b; rb_rev_deps := rb_rev_deps b;
     rb_forks_dep_heights := rb_forks_dep_heights b; rb_pending_deps := v; rb_in_db := rb_in_db b;
     rb_is_custom := rb_is_custom b; rb_get_pending_deps_call_id := rb_get_pending_deps_call_id b |}.

Definition set_in_db (v : bool) (b : ReceivedBlock) : ReceivedBlock :=
  {| rb_state := rb_state b; rb_height := rb_height b; rb_incarnation := rb_incarnation b;
     rb_hash := rb_hash b; rb_data_hash := rb_data_hash b; rb_source_id := rb_source_id b;
     rb_fork_id := rb_fork_id b; rb_prev := rb_prev b; rb_next := rb_next b; rb_signature := rb_signature b;
     rb_payload := rb_payload b; rb_block_deps := rb_block_deps b; rb_rev_deps := rb_rev_deps b;
     rb_forks_dep_heights := rb_forks_dep_heights b; rb_pending_deps := rb_pending_deps b; rb_in_db := v;
     rb_is_custom := rb_is_custom b; rb_get_pending_deps_call_id := rb_get_pending_deps_call_id b |}.

Definition set_is_custom (v : bool) (b : ReceivedBlock) : ReceivedBlock :=
  {| rb_state := rb_state b; rb_height := rb_height b; rb_incarnation := rb_incarnation b;
     rb_hash := rb_hash b; rb_data_hash := rb_data_hash b; rb_source_id := rb_source_id b;
     rb_fork_id := rb_fork_id b; rb_prev := rb_prev b; rb_next := rb_next b; rb_signature := rb_signature b;
     rb_payload := rb_payload b; rb_block_deps := rb_block_deps b; rb_rev_deps := rb_rev_deps b;
     rb_forks_dep_heights := rb_forks_dep_heights b; rb_pending_deps := rb_pending_deps b;
     rb_in_db := rb_in_db b; rb_is_custom := v;
     rb_get_pending_deps_call_id := rb_get_pending_deps_call_id b |}.

Definition set_get_pending_deps_call_id (v : N) (b : ReceivedBlock) : ReceivedBlock :=
  {| rb_state := rb_state b; rb_height := rb_height b; rb_incarnation := rb_incarnation b;
     rb_hash := rb_hash b; rb_data_hash := rb_data_hash b; rb_source_id := rb_source_id b;
     rb_fork_id := rb_fork_id b; rb_prev := rb_prev b; rb_next := rb_next b; rb_signature := rb_signature b;
     rb_payload := rb_payload b; rb_block_deps := rb_block_deps b; rb_rev_deps := rb_rev_deps b;
     rb_forks_dep_heights := rb_forks_dep_heights b; rb_pending_deps := rb_pending_deps b;
     rb_in_db := rb_in_db b; rb_is_custom := rb_is_custom b; rb_get_pending_deps_call_id := v |}.

(** ** Accessors *)
Definition ReceivedBlock_is_initialized (b : ReceivedBlock) : bool :=
  match rb_state b with Initialized | Delivered => true | _ => false end.

Definition ReceivedBlock_is_delivered (b : ReceivedBlock) : bool :=
  bool_decide (rb_state b = Delivered).

Definition ReceivedBlock_export_tl_dep (b : ReceivedBlock) : BlockDep :=
  {| dep_src := i32_wrap (Z.of_N (rb_source_id b)); dep_data_hash := rb_data_hash b;
     dep_height := rb_height b; dep_signature := rb_signature b |}.

(** [ReceivedBlockImpl::new] *)
Definition ReceivedBlock_new : ReceivedBlock :=
  {| rb_state := Null; rb_height := 0; rb_incarnation := 0; rb_hash := 0; rb_data_hash := 0; rb_source_id := 0;
     rb_fork_id := 0; rb_prev := None; rb_next := None; rb_signature := []; rb_payload := []; rb_block_deps := [];
     rb_rev_deps := []; rb_forks_dep_heights := []; rb_pending_deps := 0; rb_in_db := false; rb_is_custom := false;
     rb_get_pending_deps_call_id := 0 |}.

(** The cell that [create], [create_with_payload] and [create_root] start from. *)
Definition ReceivedBlock_with_id (state : ReceivedBlockState) (incarnation hash data_hash source_id : N)
  (height : BlockHeight) (signature : list N) : ReceivedBlock :=
  {| rb_state := state; rb_height := height; rb_incarnation := incarnation; rb_hash := hash;
     rb_data_hash := data_hash; rb_source_id := source_id;
     rb_fork_id := rb_fork_id ReceivedBlock_new; rb_prev := rb_prev ReceivedBlock_new;
     rb_next := rb_next ReceivedBlock_new; rb_signature := signature; rb_payload := rb_payload ReceivedBlock_new;
     rb_block_deps := rb_block_deps ReceivedBlock_new; rb_rev_deps := rb_rev_deps ReceivedBlock_new;
     rb_forks_dep_heights := rb_forks_dep_heights ReceivedBlock_new;
     rb_pending_deps := rb_pending_deps ReceivedBlock_new; rb_in_db := rb_in_db ReceivedBlock_new;
     rb_is_custom := rb_is_custom ReceivedBlock_new;
     rb_get_pending_deps_call_id := rb_get_pending_deps_call_id ReceivedBlock_new |}.

(** [Vec::resize(n, 0)] when the vector is shorter. *)
Definition resize_heights (l : list BlockHeight) (n : nat) : list BlockHeight :=
  l ++ replicate (n - length l) 0%Z.

(** The loop of [update_forks_dependency_heights], on vectors of which the
    first is at least as long as the second. *)
Fixpoint raise_heights (heights actual : list BlockHeight) : list BlockHeight :=
  match heights, actual with
  | h :: heights', a :: actual' => (if (h <? a)%Z then a else h) :: raise_heights heights' actual'
  | _, _ => heights
  end.

Definition update_forks_dependency_heights (heights actual : list BlockHeight) : list BlockHeight :=
  let heights := if (length heights <? length actual)%nat then resize_heights heights (length actual) else heights in
  raise_heights heights actual.
