(* ===== verification/ReceiverSource.v ===== *)
(** * Catchain: what a validator knows about another validator

    Models [catchain/src/receiver_source.rs] (the chain of blocks received from
    one source, the received and delivered heights, forks and blame) and the
    methods of [catchain/src/receiver.rs] it calls ([add_fork], [blame],
    [add_fork_proof]).  Received blocks are shared cells whose state changes
    outside of the source: [blocks] keeps references into a [BlockHeap] that
    the operations read.  Statistics, keys and logging are not modelled. *)

From S2P Require Import Prelude ReceivedBlock.

(** ** The part of the receiver that a source changes *)
Record PendingBlock := { pb_payload : list N; pb_dep_hashes : list N }.

Record Receiver := {
  total_forks : N;
  blame_notifications : list N;   (* calls of the listener's [on_blame] *)
  pending_blocks : list PendingBlock;
}.

Definition Receiver_add_fork (receiver : Receiver) : Receiver * N :=
  let fork_id := u64_add (total_forks receiver) 1 in
  ({| total_forks := fork_id; blame_notifications := blame_notifications receiver;
      pending_blocks := pending_blocks receiver |}, fork_id).

Definition Receiver_blame (receiver : Receiver) (source_id : N) : Receiver :=
  {| total_forks := total_forks receiver;
     blame_notifications := blame_notifications receiver ++ [source_id];
     pending_blocks := pending_blocks receiver |}.

Definition Receiver_add_fork_proof (receiver : Receiver) (fork_proof : list N) : Receiver :=
  {| total_forks := total_forks receiver; blame_notifications := blame_notifications receiver;
     pending_blocks := pending_blocks receiver ++ [{| pb_payload := fork_proof; pb_dep_hashes := [] |}] |}.

(** ** The source *)
Record ReceiverSource := {
  rsrc_id : N;
  blamed : bool;
  blocks : gmap Z N;
  delivered_height : BlockHeight;
  received_height : BlockHeight;
  fork_proof : option (BlockDep * BlockDep);
  fork_proof_serialized : option (list N);
  fork_ids : list N;
  blamed_heights : list BlockHeight;
}.

Section source.
(** TL serialisation of [catchain.block.data.fork]. *)
Context (serialize_fork : BlockDep * BlockDep → list N).
Implicit Types (self : ReceiverSource) (heap : BlockHeap) (receiver : Receiver).

Definition ReceiverSource_new (id : N) : ReceiverSource :=
  {| rsrc_id := id; blamed := false; blocks := ∅; delivered_height := 0; received_height := 0;
     fork_proof := None; fork_proof_serialized := None; fork_ids := []; blamed_heights := [] |}.

Definition ReceiverSource_is_fork_found self : bool := bool_decide (is_Some (fork_proof self)).

(** [get_block]: the referenced cell is alive, so it is in the heap. *)
Definition ReceiverSource_get_block heap self (height : BlockHeight) : option ReceivedBlock :=
  ref ← blocks self !! height; heap !! ref.

Definition ReceiverSource_mark_as_blamed self receiver : ReceiverSource * Receiver :=
  if blamed self then (self, receiver) else
  ({| rsrc_id := rsrc_id self; blamed := true; blocks := ∅; delivered_height := 0;
      received_height := received_height self; fork_proof := fork_proof self;
      fork_proof_serialized := fork_proof_serialized self; fork_ids := fork_ids self;
      blamed_heights := blamed_heights self |},
   Receiver_blame receiver (rsrc_id self)).

Definition ReceiverSource_set_fork_proof self (proof : BlockDep * BlockDep) : ReceiverSource :=
  if ReceiverSource_is_fork_found self then self else
  {| rsrc_id := rsrc_id self; blamed := blamed self; blocks := blocks self;
     delivered_height := delivered_height self; received_height := received_height self;
     fork_proof := Some proof; fork_proof_serialized := Some (serialize_fork proof);
     fork_ids := fork_ids self; blamed_heights := blamed_heights self |}.

Definition ReceiverSource_process_new_block heap self (block_cell : N) receiver
  : outcome (ReceiverSource * Receiver) :=
  if ReceiverSource_is_fork_found self then Done (self, receiver) else
  block ← unwrap (heap !! block_cell);
  _ ← assert_that (rb_source_id block =? rsrc_id self);
  match ReceiverSource_get_block heap self (rb_height block) with
  | Some existing_block =>
      _ ← assert_that (negb (rb_hash block =? rb_hash existing_block));
      let fork := (ReceivedBlock_export_tl_dep block, ReceivedBlock_export_tl_dep existing_block) in
      let self := ReceiverSource_set_fork_proof self fork in
      serialized ← unwrap (fork_proof_serialized self);
      let receiver := Receiver_add_fork_proof receiver serialized in
      Done (ReceiverSource_mark_as_blamed self receiver)
  | None =>
      Done ({| rsrc_id := rsrc_id self; blamed := blamed self;
               blocks := <[rb_height block := block_cell]> (blocks self);
               delivered_height := delivered_height self; received_height := received_height self;
               fork_proof := fork_proof self; fork_proof_serialized := fork_proof_serialized self;
               fork_ids := fork_ids self; blamed_heights := blamed_heights self |}, receiver)
  end.

Definition ReceiverSource_add_fork self receiver : outcome (ReceiverSource * Receiver * N) :=
  let '(self, receiver) :=
    if (0 <? length (fork_ids self))%nat then ReceiverSource_mark_as_blamed self receiver else (self, receiver) in
  let '(receiver, fork_id) := Receiver_add_fork receiver in
  _ ← assert_that (0 <? fork_id);
  let self := {| rsrc_id := rsrc_id self; blamed := blamed self; blocks := blocks self;
                 delivered_height := delivered_height self; received_height := received_height self;
                 fork_proof := fork_proof self; fork_proof_serialized := fork_proof_serialized self;
                 fork_ids := fork_ids self ++ [fork_id]; blamed_heights := blamed_heights self |} in
  _ ← (if (1 <? length (fork_ids self))%nat then assert_that (blamed self) else Done ());
  Done (self, receiver, fork_id).

Definition ReceiverSource_blame self (fork : N) (height : BlockHeight) receiver
  : outcome (ReceiverSource * Receiver) :=
  let '(self, receiver) := ReceiverSource_mark_as_blamed self receiver in
  let heights := if (length (blamed_heights self) <=? N.to_nat fork)%nat
                 then resize_heights (blamed_heights self) (N.to_nat fork + 1) else blamed_heights self in
  current ← index heights fork;
  heights ← (if (current =? 0)%Z || (height <? current)%Z then set_index heights fork height else Done heights);
  Done ({| rsrc_id := rsrc_id self; blamed := blamed self; blocks := blocks self;
           delivered_height := delivered_height self; received_height := received_height self;
           fork_proof := fork_proof self; fork_proof_serialized := fork_proof_serialized self;
           fork_ids := fork_ids self; blamed_heights := heights |}, receiver).

(** ** Received and delivered heights *)

(** The largest key of the height map ([BTreeMap::iter().next_back()]). *)
Definition last_height (m : gmap Z N) : option Z :=
  foldr (λ h acc, match acc with Some a => Some (Z.max h a) | None => Some h end) None (map_to_list m).*1.

Definition ReceiverSource_has_unreceived heap self : outcome bool :=
  if blamed self then Done true else
  match last_height (blocks self) with
  | None => Done false
  | Some h =>
      last_received_block ← unwrap (ReceiverSource_get_block heap self h);
      let last_received_block_height := rb_height last_received_block in
      _ ← assert_that (received_height self <=? last_received_block_height)%Z;
      Done (received_height self <? last_received_block_height)%Z
  end.

Definition ReceiverSource_has_undelivered self : bool := (delivered_height self <? received_height self)%Z.

(** The loop of [block_received] and [block_delivered]: advance over the blocks
    for which [ready] holds; [None] when the fuel runs out. *)
Fixpoint advance_height (fuel : nat) heap self (ready : ReceivedBlock → bool) (height : BlockHeight)
  : option BlockHeight :=
  match fuel with
  | O => None
  | S fuel' =>
      match ReceiverSource_get_block heap self (i32_add height 1) with
      | None => Some height
      | Some block => if ready block then advance_height fuel' heap self ready (i32_add height 1) else Some height
      end
  end.

Definition ReceiverSource_block_received (fuel : nat) heap self (height : BlockHeight) : option ReceiverSource :=
  if blamed self then Some self else
  let start := if (i32_add (received_height self) 1 =? height)%Z then height else received_height self in
  h ← advance_height fuel heap self ReceivedBlock_is_initialized start;
  Some {| rsrc_id := rsrc_id self; blamed := blamed self; blocks := blocks self;
          delivered_height := delivered_height self; received_height := h;
          fork_proof := fork_proof self; fork_proof_serialized := fork_proof_serialized self;
          fork_ids := fork_ids self; blamed_heights := blamed_heights self |}.

Definition ReceiverSource_block_delivered (fuel : nat) heap self (height : BlockHeight) : option ReceiverSource :=
  if blamed self then Some self else
  let start := if (i32_add (delivered_height self) 1 =? height)%Z then height else delivered_height self in
  h ← advance_height fuel heap self ReceivedBlock_is_delivered start;
  Some {| rsrc_id := rsrc_id self; blamed := blamed self; blocks := blocks self;
          delivered_height := h; received_height := received_height self;
          fork_proof := fork_proof self; fork_proof_serialized := fork_proof_serialized self;
          fork_ids := fork_ids self; blamed_heights := blamed_heights self |}.
End source.

(** ** Facts *)
Section source_facts.
Context (serialize_fork : BlockDep * BlockDep → list N).
Implicit Types (self : ReceiverSource) (heap : BlockHeap) (receiver : Receiver) (ready : ReceivedBlock → bool).

Lemma i32_add_small a b : (- 2147483648 ≤ a + b ≤ i32_max)%Z → i32_add a b = (a + b)%Z.
Proof. unfold i32_add, i32_wrap, i32_max. intros H. rewrite Z.mod_small by lia. lia. Qed.

(** The keys are heights of blocks of this source, found in the heap. *)
Record source_ok heap self : Prop := {
  src_blocks h ref : blocks self !! h = Some ref →
    ∃ b, heap !! ref = Some b ∧ rb_height b = h ∧ rb_source_id b = rsrc_id self;
  src_heights h : is_Some (blocks self !! h) → (0 ≤ h ≤ i32_max)%Z;
  src_received : (0 ≤ received_height self ≤ i32_max)%Z;
  src_delivered : (0 ≤ delivered_height self ≤ i32_max)%Z;
  src_received_block : blamed self = false → (0 < received_height self)%Z →
    is_Some (blocks self !! received_height self);
  src_forks : (1 < length (fork_ids self))%nat → blamed self = true;
  src_proof l r : fork_proof self = Some (l, r) →
    dep_src l = dep_src r ∧ dep_height l = dep_height r ∧ dep_data_hash l ≠ dep_data_hash r ∧
    blamed self = true;
}.

(** The hash of a block is that of its source, height and payload hash. *)
Definition heap_hashes heap : Prop :=
  ∀ r1 r2 b1 b2, heap !! r1 = Some b1 → heap !! r2 = Some b2 →
    rb_source_id b1 = rb_source_id b2 → rb_height b1 = rb_height b2 → rb_data_hash b1 = rb_data_hash b2 →
    rb_hash b1 = rb_hash b2.

Definition ready_at heap self ready (h : Z) : Prop :=
  ∃ b, ReceiverSource_get_block heap self h = Some b ∧ ready b = true.

Definition heights_above self (h : Z) : gset Z := filter (λ x, h < x)%Z (dom (blocks self)).

Lemma heights_above_lt self h :
  is_Some (blocks self !! (h + 1)%Z) → (size (heights_above self (h + 1)) < size (heights_above self h))%nat.
Proof.
  intros Hk. apply subset_size. split.
  - intros x. unfold heights_above. rewrite !elem_of_filter. intros [? ?]. split; [lia|done].
  - intros Hsub. specialize (Hsub (h + 1)%Z). unfold heights_above in Hsub. rewrite !elem_of_filter, elem_of_dom in Hsub.
    destruct Hsub; [|lia]. split; [lia|done].
Qed.

(** The loop stops before the first height that is not ready. *)
Lemma advance_height_ok fuel heap self ready h :
  (∀ k, is_Some (blocks self !! k) → (0 ≤ k ≤ i32_max)%Z) → (0 ≤ h ≤ i32_max)%Z →
  (size (heights_above self h) < fuel)%nat →
  ∃ h', advance_height fuel heap self ready h = Some h' ∧ (h ≤ h' ≤ i32_max)%Z ∧
    (∀ x, (h < x ≤ h')%Z → ready_at heap self ready x) ∧ ~ ready_at heap self ready (h' + 1).
Proof.
  intros Hkeys. revert h. induction fuel as [|fuel IH]; intros h Hh Hf; [lia|]. cbn [advance_height].
  destruct (decide (h = i32_max)) as [->|Hne].
  - assert (Hno : ∀ k, (k < 0 ∨ i32_max < k)%Z → ReceiverSource_get_block heap self k = None).
    { intros k Hk. unfold ReceiverSource_get_block. destruct (blocks self !! k) as [ref|] eqn:E; [|done].
      specialize (Hkeys k (ex_intro _ ref E)). lia. }
    rewrite Hno by (left; vm_compute; done). exists i32_max. split; [done|]. split; [lia|]. split; [lia|].
    intros (b & Hb & _). rewrite Hno in Hb; [done|lia].
  - rewrite i32_add_small by lia.
    destruct (ReceiverSource_get_block heap self (h + 1)) as [b|] eqn:Eb; [destruct (ready b) eqn:Er|].
    + assert (Hk : is_Some (blocks self !! (h + 1)%Z)).
      { unfold ReceiverSource_get_block in Eb. destruct (blocks self !! (h + 1)%Z); [eauto|done]. }
      pose proof (heights_above_lt self h Hk).
      destruct (IH (h + 1)%Z) as (h' & -> & Hb' & Hall & Hstop); [lia|lia|].
      exists h'. split; [done|]. split; [lia|]. split; [|done].
      intros x Hx. destruct (decide (x = h + 1)%Z) as [->|?]; [by exists b|]. apply Hall. lia.
    + exists h. split; [done|]. split; [lia|]. split; [lia|]. intros (b' & Hb' & Hr'). congruence.
    + exists h. split; [done|]. split; [lia|]. split; [lia|]. intros (b' & Hb' & Hr'). congruence.
Qed.

Lemma heights_above_size self h : (size (heights_above self h) ≤ size (blocks self))%nat.
Proof. rewrite <- (size_dom (D := gset Z)). apply subseteq_size. unfold heights_above. set_solver. Qed.

Lemma get_block_ready heap self ready h : ready_at heap self ready h → is_Some (blocks self !! h).
Proof.
  intros (b & Hb & _). unfold ReceiverSource_get_block in Hb. destruct (blocks self !! h); [eauto|done].
Qed.

Lemma block_received_ok heap self (height : Z) :
  source_ok heap self → blamed self = false → is_Some (blocks self !! height) →
  ∃ self', ReceiverSource_block_received (S (size (blocks self))) heap self height = Some self' ∧
    source_ok heap self' ∧ (received_height self ≤ received_height self')%Z ∧
    (∀ x, (received_height self < x ≤ received_height self')%Z →
       x = height ∨ ready_at heap self ReceivedBlock_is_initialized x) ∧
    ~ ready_at heap self ReceivedBlock_is_initialized (received_height self' + 1).
Proof.
  intros Hs Hb Hin. pose proof (src_heights _ _ Hs _ Hin) as Hh. pose proof (src_received _ _ Hs) as Hr.
  unfold ReceiverSource_block_received. rewrite Hb.
  set (start := if (i32_add (received_height self) 1 =? height)%Z then height else received_height self).
  assert (Hstart : (received_height self ≤ start ≤ i32_max)%Z ∧
    (start = received_height self ∨ (start = height ∧ start = received_height self + 1)%Z)).
  { unfold start. destruct (Z.eqb_spec (i32_add (received_height self) 1) height) as [E|E]; [|lia].
    destruct (decide (received_height self = i32_max)) as [Em|Em].
    - rewrite Em in E. vm_compute in E. lia.
    - rewrite i32_add_small in E by lia. lia. }
  destruct Hstart as [Hstart Hcase]. pose proof (heights_above_size self start).
  destruct (advance_height_ok (S (size (blocks self))) heap self ReceivedBlock_is_initialized start)
    as (h' & -> & Hh' & Hall & Hstop); [apply (src_heights _ _ Hs)|lia|lia|]. simpl.
  eexists. split; [done|]. split; [|split; [simpl; lia|split; [|done]]].
  - destruct Hs. split; simpl; rewrite <- ?Hb; try assumption; [lia|]. intros _ Hpos.
    destruct (decide (h' = start)) as [->|]; [|by eapply get_block_ready, Hall; lia].
    destruct Hcase as [->|[-> _]]; [|done]. apply src_received_block0; [done|lia].
  - simpl. intros x Hx. destruct (decide (x ≤ start)%Z); [left; lia|right; apply Hall; lia].
Qed.

Lemma block_delivered_ok heap self (height : Z) :
  source_ok heap self → blamed self = false → (0 ≤ height ≤ i32_max)%Z →
  ∃ self', ReceiverSource_block_delivered (S (size (blocks self))) heap self height = Some self' ∧
    source_ok heap self' ∧ (delivered_height self ≤ delivered_height self')%Z ∧
    (∀ x, (delivered_height self < x ≤ delivered_height self')%Z →
       x = height ∨ ready_at heap self ReceivedBlock_is_delivered x) ∧
    ~ ready_at heap self ReceivedBlock_is_delivered (delivered_height self' + 1).
Proof.
  intros Hs Hb Hh. pose proof (src_delivered _ _ Hs) as Hr.
  unfold ReceiverSource_block_delivered. rewrite Hb.
  set (start := if (i32_add (delivered_height self) 1 =? height)%Z then height else delivered_height self).
  assert (Hstart : (delivered_height self ≤ start ≤ i32_max)%Z ∧
    (start = delivered_height self ∨ (start = height ∧ start = delivered_height self + 1)%Z)).
  { unfold start. destruct (Z.eqb_spec (i32_add (delivered_height self) 1) height) as [E|E]; [|lia].
    destruct (decide (delivered_height self = i32_max)) as [Em|Em].
    - rewrite Em in E. vm_compute in E. lia.
    - rewrite i32_add_small in E by lia. lia. }
  destruct Hstart as [Hstart Hcase]. pose proof (heights_above_size self start).
  destruct (advance_height_ok (S (size (blocks self))) heap self ReceivedBlock_is_delivered start)
    as (h' & -> & Hh' & Hall & Hstop); [apply (src_heights _ _ Hs)|lia|lia|]. simpl.
  eexists. split; [done|]. split; [|split; [simpl; lia|split; [|done]]].
  - destruct Hs. split; simpl; rewrite <- ?Hb; try assumption; [lia|auto].
  - simpl. intros x Hx. destruct (decide (x ≤ start)%Z); [left; lia|right; apply Hall; lia].
Qed.

Lemma mark_as_blamed_ok heap self receiver :
  source_ok heap self →
  let '(self', receiver') := ReceiverSource_mark_as_blamed self receiver in
  source_ok heap self' ∧ blamed self' = true ∧ fork_ids self' = fork_ids self ∧
  fork_proof self' = fork_proof self ∧ rsrc_id self' = rsrc_id self ∧ blamed_heights self' = blamed_heights self ∧
  blame_notifications receiver' = blame_notifications receiver ++ (if blamed self then [] else [rsrc_id self]) ∧
  total_forks receiver' = total_forks receiver.
Proof.
  intros Hs. unfold ReceiverSource_mark_as_blamed. destruct (blamed self) eqn:Eb.
  - rewrite app_nil_r. auto 10.
  - simpl. split; [|auto 10]. destruct Hs. split; simpl; try done.
    + intros h [x Hx]. by rewrite lookup_empty in Hx.
    + intros l r Hp. destruct (src_proof0 l r Hp) as (? & ? & ? & ?). auto.
Qed.

Lemma process_new_block_ok heap self (ref : N) block receiver :
  source_ok heap self → heap_hashes heap → heap !! ref = Some block → rb_source_id block = rsrc_id self →
  (0 ≤ rb_height block ≤ i32_max)%Z →
  (∀ b, ReceiverSource_get_block heap self (rb_height block) = Some b → rb_hash b ≠ rb_hash block) →
  ∃ self' receiver',
    ReceiverSource_process_new_block serialize_fork heap self ref receiver = Done (self', receiver') ∧
    source_ok heap self' ∧
    (fork_proof self = None → ReceiverSource_get_block heap self (rb_height block) = None →
       ReceiverSource_get_block heap self' (rb_height block) = Some block ∧ blamed self' = blamed self) ∧
    (fork_proof self = None → ∀ b, ReceiverSource_get_block heap self (rb_height block) = Some b →
       blamed self' = true ∧
       fork_proof self' = Some (ReceivedBlock_export_tl_dep block, ReceivedBlock_export_tl_dep b) ∧
       pending_blocks receiver' = pending_blocks receiver ++
         [{| pb_payload := serialize_fork (ReceivedBlock_export_tl_dep block, ReceivedBlock_export_tl_dep b);
             pb_dep_hashes := [] |}]).
Proof.
  intros Hs Hhash Href Hsrc Hheight Hnew. unfold ReceiverSource_process_new_block, ReceiverSource_is_fork_found.
  destruct (fork_proof self) as [proof|] eqn:Ep.
  { simpl. exists self, receiver. split; [done|]. split; [done|]. by split. }
  simpl. rewrite Href. cbn [mbind outcome_bind unwrap]. rewrite Hsrc, N.eqb_refl. cbn [assert_that mbind outcome_bind].
  destruct (ReceiverSource_get_block heap self (rb_height block)) as [b|] eqn:Eb.
  - specialize (Hnew b eq_refl). replace (rb_hash block =? rb_hash b) with false by (symmetry; apply N.eqb_neq; auto).
    cbn [negb assert_that mbind outcome_bind].
    unfold ReceiverSource_set_fork_proof, ReceiverSource_is_fork_found. rewrite Ep.
    rewrite bool_decide_eq_false_2 by (by intros [??]). cbn [fork_proof_serialized unwrap mbind outcome_bind].
    unfold ReceiverSource_get_block in Eb. destruct (blocks self !! rb_height block) as [ref'|] eqn:Er; [|done].
    simpl in Eb. destruct (src_blocks _ _ Hs _ _ Er) as (b' & Hb' & Hh' & Hs'). rewrite Eb in Hb'. injection Hb' as <-.
    assert (Hdh : rb_data_hash block ≠ rb_data_hash b).
    { intros He. apply Hnew. symmetry. eapply Hhash; [exact Href|exact Eb|congruence|congruence|done]. }
    unfold ReceiverSource_mark_as_blamed. cbn [blamed]. destruct (blamed self) eqn:Ebl.
    + eexists _, _. split; [done|]. split; [|split; [done|by intros _ ? [= <-]]].
      destruct Hs. split; simpl; try assumption; try done.
      intros l r [= <- <-]. simpl. rewrite Hsrc, Hs', Hh'. done.
    + eexists _, _. split; [done|]. split; [|split; [done|by intros _ ? [= <-]]].
      destruct Hs. split; simpl; try done.
      * intros h [x Hx]. by rewrite lookup_empty in Hx.
      * intros l r [= <- <-]. simpl. rewrite Hsrc, Hs', Hh'. done.
  - eexists _, _. split; [done|]. split; [|split; [|by intros _ b ?]].
    + destruct Hs. split; simpl; try assumption.
      * intros h x [[<- <-]|[_ Hx]]%lookup_insert_Some; eauto.
      * intros h [x [[<- _]|[_ Hx]]%lookup_insert_Some]; [done|eauto].
      * intros Hb Hr. destruct (decide (rb_height block = received_height self)) as [->|Hne].
        -- rewrite lookup_insert_eq. eauto.
        -- rewrite lookup_insert_ne by done. auto.
      * done.
    + intros _ _. unfold ReceiverSource_get_block. simpl. by rewrite lookup_insert_eq.
Qed.
End source_facts.

(** ** Forks and blame *)
Section fork_facts.
Implicit Types (self : ReceiverSource) (heap : BlockHeap) (receiver : Receiver).

Lemma add_fork_ok heap self receiver :
  source_ok heap self → total_forks receiver + 1 < two64 →
  ∃ self' receiver', ReceiverSource_add_fork self receiver = Done (self', receiver', total_forks receiver + 1) ∧
    source_ok heap self' ∧ fork_ids self' = fork_ids self ++ [total_forks receiver + 1] ∧
    total_forks receiver' = total_forks receiver + 1 ∧
    (fork_ids self ≠ [] → blamed self' = true) ∧ (fork_ids self = [] → blamed self' = blamed self).
Proof.
  intros Hs Hb. unfold ReceiverSource_add_fork.
  pose proof (mark_as_blamed_ok heap self receiver Hs) as Hm.
  assert (Hstart : ∃ self1 receiver1,
    (if (0 <? length (fork_ids self))%nat then ReceiverSource_mark_as_blamed self receiver else (self, receiver))
      = (self1, receiver1) ∧ source_ok heap self1 ∧ fork_ids self1 = fork_ids self ∧
    total_forks receiver1 = total_forks receiver ∧
    (fork_ids self ≠ [] → blamed self1 = true) ∧ (fork_ids self = [] → blamed self1 = blamed self)).
  { destruct (fork_ids self) as [|f l] eqn:Ef; simpl.
    - exists self, receiver. by split_and!.
    - destruct (ReceiverSource_mark_as_blamed self receiver) as [self1 receiver1].
      destruct Hm as (Hok & Hbl & Hf & _ & _ & _ & _ & Ht). exists self1, receiver1. by split_and!. }
  destruct Hstart as (self1 & receiver1 & -> & Hok & Hf & Ht & Hne & He).
  unfold Receiver_add_fork, u64_add. rewrite Ht, N.mod_small by done.
  rewrite (proj2 (N.ltb_lt 0 _)) by lia. cbn [assert_that mbind outcome_bind fork_ids].
  assert (Hassert : (if (1 <? length (fork_ids self1 ++ [(total_forks receiver + 1)%N]))%nat
    then assert_that (blamed self1) else Done ()) = Done ()).
  { destruct (Nat.ltb_spec 1 (length (fork_ids self1 ++ [total_forks receiver + 1]))) as [Hl|]; [|done].
    rewrite length_app, Hf in Hl. simpl in Hl. rewrite Hne; [done|]. intros Hz. rewrite Hz in Hl. simpl in Hl. lia. }
  cbn [blamed]. rewrite Hassert. run.
  eexists _, _. split; [done|]. simpl. split; [|rewrite Hf; auto].
  destruct Hok. split; simpl; try assumption. rewrite length_app, Hf. simpl. intros Hl. apply Hne.
  intros Hz. rewrite Hz in Hl. simpl in Hl. lia.
Qed.

(** Reference: the blamed height of a fork is the smallest one reported. *)
Definition blame_min (current height : Z) : Z :=
  if (current =? 0)%Z || (height <? current)%Z then height else current.

Definition blamed_at self (fork : nat) : Z := default 0%Z (blamed_heights self !! fork).

Lemma resize_heights_lookup (l : list Z) n (j : nat) :
  default 0%Z (resize_heights l n !! j) = default 0%Z (l !! j).
Proof.
  unfold resize_heights. destruct (decide (j < length l)%nat).
  - by rewrite lookup_app_l.
  - rewrite lookup_app_r, (lookup_ge_None_2 l) by lia.
    destruct (replicate _ _ !! _) eqn:E; [|done]. by apply lookup_replicate in E as [-> _].
Qed.

Lemma blame_ok heap self (fork : N) (height : Z) receiver :
  source_ok heap self →
  ∃ self' receiver', ReceiverSource_blame self fork height receiver = Done (self', receiver') ∧
    source_ok heap self' ∧ blamed self' = true ∧
    blamed_at self' (N.to_nat fork) = blame_min (blamed_at self (N.to_nat fork)) height ∧
    (∀ j : nat, j ≠ N.to_nat fork → blamed_at self' j = blamed_at self j).
Proof.
  intros Hs. pose proof (mark_as_blamed_ok heap self receiver Hs) as Hm. unfold ReceiverSource_blame.
  destruct (ReceiverSource_mark_as_blamed self receiver) as [self1 receiver1].
  destruct Hm as (Hok & Hbl & _ & _ & _ & Hbh & _). rewrite Hbh.
  set (heights := if (_ <=? _)%nat then _ else _).
  assert (Hh : (N.to_nat fork < length heights)%nat ∧
    ∀ j, default 0%Z (heights !! j) = default 0%Z (blamed_heights self !! j)).
  { unfold heights. destruct (Nat.leb_spec (length (blamed_heights self)) (N.to_nat fork)); [|auto].
    split; [unfold resize_heights; rewrite length_app, length_replicate; lia|]. intros. apply resize_heights_lookup. }
  destruct Hh as [Hlt Hsame]. destruct (index_lt heights fork Hlt) as (cur & -> & Hcur). run.
  assert (Hnew : (if (cur =? 0)%Z || (height <? cur)%Z then set_index heights fork height else Done heights)
    = Done (<[N.to_nat fork := blame_min cur height]> heights)).
  { unfold blame_min. destruct (_ || _); [by rewrite set_index_lt|]. by rewrite list_insert_id. }
  rewrite Hnew. run. eexists _, _. split; [done|].
  split; [destruct Hok; by split|]. split; [done|]. unfold blamed_at. simpl.
  rewrite list_lookup_insert_eq by done. split.
  - rewrite <- Hsame, Hcur. done.
  - intros j Hj. by rewrite list_lookup_insert_ne.
Qed.

(** The largest key. *)
Lemma last_height_ok (m : gmap Z N) h :
  last_height m = Some h → is_Some (m !! h) ∧ ∀ k, is_Some (m !! k) → (k ≤ h)%Z.
Proof.
  unfold last_height. intros Hl.
  assert (Hspec : ∀ (l : list Z) x,
    foldr (λ h acc, match acc with Some a => Some (Z.max h a) | None => Some h end) None l = Some x →
    x ∈ l ∧ ∀ k, k ∈ l → (k ≤ x)%Z).
  { induction l as [|y l IH]; intros x Hx; [done|]. simpl in Hx.
    destruct (foldr _ None l) as [z|] eqn:E.
    - destruct (IH z eq_refl) as [Hz Hmax]. injection Hx as <-. split.
      + destruct (Z.max_spec y z) as [[_ ->]|[_ ->]]; set_solver.
      + intros k [->|Hk]%elem_of_cons; [lia|]. specialize (Hmax k Hk). lia.
    - injection Hx as <-. assert (l = []) as ->.
      { destruct l as [|w l]; [done|]. simpl in E. by destruct (foldr _ None l). }
      split; [set_solver|]. intros k Hk%list_elem_of_singleton. lia. }
  destruct (Hspec _ _ Hl) as [Hin Hmax].
  assert (Hdom : ∀ k, k ∈ (map_to_list m).*1 ↔ is_Some (m !! k)).
  { intros k. rewrite list_elem_of_fmap. split.
    - intros ([k' v] & -> & Hkv%elem_of_map_to_list). eauto.
    - intros [v Hv]. exists (k, v). by rewrite elem_of_map_to_list. }
  split; [by apply Hdom|]. intros k Hk. apply Hmax. by apply Hdom.
Qed.

Lemma has_unreceived_ok heap self :
  source_ok heap self → blamed self = false →
  ∃ b, ReceiverSource_has_unreceived heap self = Done b ∧
    (b = true ↔ ∃ h, is_Some (blocks self !! h) ∧ (received_height self < h)%Z).
Proof.
  intros Hs Hb. unfold ReceiverSource_has_unreceived. rewrite Hb.
  destruct (last_height (blocks self)) as [h|] eqn:El.
  - destruct (last_height_ok _ _ El) as [[ref Href] Hmax].
    destruct (src_blocks _ _ Hs _ _ Href) as (b & Hblk & Hh & _).
    assert (Hget : ReceiverSource_get_block heap self h = Some b).
    { unfold ReceiverSource_get_block. rewrite Href. exact Hblk. }
    rewrite Hget. cbn [unwrap mbind outcome_bind]. rewrite Hh.
    assert (Hle : (received_height self ≤ h)%Z).
    { pose proof (src_received _ _ Hs). pose proof (src_heights _ _ Hs h ltac:(eauto)).
      destruct (decide (0 < received_height self)%Z) as [Hp|]; [|lia].
      apply Hmax, (src_received_block _ _ Hs Hb Hp). }
    rewrite (proj2 (Z.leb_le _ _) Hle). cbn [assert_that mbind outcome_bind].
    eexists. split; [done|]. rewrite Z.ltb_lt. split; [eauto|].
    intros (k & Hk & Hlt). specialize (Hmax k Hk). lia.
  - exists false. split; [done|]. split; [done|]. intros (h & [ref Hr] & _).
    unfold last_height in El. assert (Hin : (h, ref) ∈ map_to_list (blocks self)) by by apply elem_of_map_to_list.
    destruct (map_to_list (blocks self)) as [|x l]; [set_solver|]. simpl in El. by destruct (foldr _ None _).
Qed.
End fork_facts.
