(* ===== verification/BlockGraph.v ===== *)
(** * Catchain: the graph of received blocks

    Models [catchain/src/received_block.rs] and the block handling of
    [catchain/src/receiver.rs]: validation of incoming blocks, creation and
    initialisation of blocks and of their unknown dependencies, the queue of
    blocks whose dependencies are resolved, delivery to the listener, ill blocks
    and fork proofs.

    Blocks are cells of a heap, sources are cells of a vector.  The dynamic borrow
    checks of [RefCell] are part of the behaviour: [Borrows] are the borrows that
    are alive when a function is called, and borrowing a cell against them panics.
    A block method is called through [borrow_mut], so its own cell is among them.
    Not modelled: the database (writing a block is the separate operation
    [block_written_to_db]), the overlay network, statistics and logging, except
    that a warning whose arguments borrow a cell may panic ([cfg_warn_enabled]). *)

From S2P Require Import Prelude ReceivedBlock ReceiverSource.

(** ** Code of other crates *)

(** The identifier of a block ([catchain.block.id]). *)
Record BlockId := {
  bid_incarnation : N;
  bid_src : N;
  bid_height : Z;
  bid_data_hash : N;
}.

(** The payloads that [pre_deliver] distinguishes ([catchain.block.inner.Data]). *)
Inductive Data :=
| DataFork (left right : BlockDep)
| DataNop
| DataBadBlock
| DataOther.

(** Hashes, signatures and TL (de)serialisation.  [read_data] is the
    deserialisation of a payload, [None] when it fails. *)
Class CatchainExternal := {
  CatchainKey : Type;
  key_id : CatchainKey → N;
  get_hash_of_bytes : list N → N;
  get_block_id_hash : BlockId → N;
  verify_block_id : CatchainKey → BlockId → list N → bool;
  sign_block_id : BlockId → option (list N);
  read_data : list N → option Data;
  serialize_fork : BlockDep * BlockDep → list N;
}.

(** ** State *)

(** The part of [ReceiverImpl] that does not change. *)
Record ReceiverConfig {X : CatchainExternal} := {
  cfg_incarnation : N;
  cfg_max_deps : N;
  cfg_source_keys : list CatchainKey;
  cfg_local_idx : N;
  cfg_allow_unsafe_self_blocks_resync : bool;
  cfg_warn_enabled : bool;
}.

(** The arguments of the listener's [on_new_block]. *)
Record NewBlock := {
  nb_source_id : N;
  nb_fork_id : N;
  nb_hash : N;
  nb_height : BlockHeight;
  nb_prev : N;
  nb_deps : list N;
  nb_forks_dep_heights : list BlockHeight;
  nb_payload : list N;
}.

(** The part that does; [rw_heap] are all block cells and [rw_new_blocks] the
    blocks delivered to the listener. *)
Record ReceiverWorld := {
  rw_heap : BlockHeap;
  rw_next_cell : N;
  rw_blocks : gmap N N;
  rw_blocks_to_run : list N;
  rw_root_block : N;
  rw_last_sent_block : N;
  rw_active_send : bool;
  rw_sources : list ReceiverSource;
  rw_receiver : Receiver;
  rw_started : bool;
  rw_get_pending_deps_call_id : N;
  rw_new_blocks : list NewBlock;
}.

Definition with_heap (h : BlockHeap) (w : ReceiverWorld) : ReceiverWorld :=
  {| rw_heap := h; rw_next_cell := rw_next_cell w; rw_blocks := rw_blocks w;
     rw_blocks_to_run := rw_blocks_to_run w; rw_root_block := rw_root_block w;
     rw_last_sent_block := rw_last_sent_block w; rw_active_send := rw_active_send w;
     rw_sources := rw_sources w; rw_receiver := rw_receiver w; rw_started := rw_started w;
     rw_get_pending_deps_call_id := rw_get_pending_deps_call_id w; rw_new_blocks := rw_new_blocks w |}.

Definition with_blocks (m : gmap N N) (w : ReceiverWorld) : ReceiverWorld :=
  {| rw_heap := rw_heap w; rw_next_cell := rw_next_cell w; rw_blocks := m;
     rw_blocks_to_run := rw_blocks_to_run w; rw_root_block := rw_root_block w;
     rw_last_sent_block := rw_last_sent_block w; rw_active_send := rw_active_send w;
     rw_sources := rw_sources w; rw_receiver := rw_receiver w; rw_started := rw_started w;
     rw_get_pending_deps_call_id := rw_get_pending_deps_call_id w; rw_new_blocks := rw_new_blocks w |}.

Definition with_blocks_to_run (q : list N) (w : ReceiverWorld) : ReceiverWorld :=
  {| rw_heap := rw_heap w; rw_next_cell := rw_next_cell w; rw_blocks := rw_blocks w;
     rw_blocks_to_run := q; rw_root_block := rw_root_block w;
     rw_last_sent_block := rw_last_sent_block w; rw_active_send := rw_active_send w;
     rw_sources := rw_sources w; rw_receiver := rw_receiver w; rw_started := rw_started w;
     rw_get_pending_deps_call_id := rw_get_pending_deps_call_id w; rw_new_blocks := rw_new_blocks w |}.

Definition with_sources (l : list ReceiverSource) (r : Receiver) (w : ReceiverWorld) : ReceiverWorld :=
  {| rw_heap := rw_heap w; rw_next_cell := rw_next_cell w; rw_blocks := rw_blocks w;
     rw_blocks_to_run := rw_blocks_to_run w; rw_root_block := rw_root_block w;
     rw_last_sent_block := rw_last_sent_block w; rw_active_send := rw_active_send w;
     rw_sources := l; rw_receiver := r; rw_started := rw_started w;
     rw_get_pending_deps_call_id := rw_get_pending_deps_call_id w; rw_new_blocks := rw_new_blocks w |}.

Definition with_new_blocks (l : list NewBlock) (w : ReceiverWorld) : ReceiverWorld :=
  {| rw_heap := rw_heap w; rw_next_cell := rw_next_cell w; rw_blocks := rw_blocks w;
     rw_blocks_to_run := rw_blocks_to_run w; rw_root_block := rw_root_block w;
     rw_last_sent_block := rw_last_sent_block w; rw_active_send := rw_active_send w;
     rw_sources := rw_sources w; rw_receiver := rw_receiver w; rw_started := rw_started w;
     rw_get_pending_deps_call_id := rw_get_pending_deps_call_id w; rw_new_blocks := l |}.

Definition with_sending (last : N) (active : bool) (w : ReceiverWorld) : ReceiverWorld :=
  {| rw_heap := rw_heap w; rw_next_cell := rw_next_cell w; rw_blocks := rw_blocks w;
     rw_blocks_to_run := rw_blocks_to_run w; rw_root_block := rw_root_block w;
     rw_last_sent_block := last; rw_active_send := active;
     rw_sources := rw_sources w; rw_receiver := rw_receiver w; rw_started := rw_started w;
     rw_get_pending_deps_call_id := rw_get_pending_deps_call_id w; rw_new_blocks := rw_new_blocks w |}.

(** [Rc::new(RefCell::new(body))] *)
Definition alloc_block (b : ReceivedBlock) (w : ReceiverWorld) : N * ReceiverWorld :=
  let ref := rw_next_cell w in
  (ref, {| rw_heap := <[ref := b]> (rw_heap w); rw_next_cell := ref + 1; rw_blocks := rw_blocks w;
           rw_blocks_to_run := rw_blocks_to_run w; rw_root_block := rw_root_block w;
           rw_last_sent_block := rw_last_sent_block w; rw_active_send := rw_active_send w;
           rw_sources := rw_sources w; rw_receiver := rw_receiver w; rw_started := rw_started w;
           rw_get_pending_deps_call_id := rw_get_pending_deps_call_id w; rw_new_blocks := rw_new_blocks w |}).

Definition update_block (ref : N) (f : ReceivedBlock → ReceivedBlock) (w : ReceiverWorld) : ReceiverWorld :=
  with_heap (alter f ref (rw_heap w)) w.

(** ** Borrows *)
Record Borrows := {
  mut_blocks : gset N;
  shared_blocks : gset N;
  mut_sources : gset N;
}.

Definition no_borrows : Borrows := {| mut_blocks := ∅; shared_blocks := ∅; mut_sources := ∅ |}.
Definition hold_block_mut (ref : N) (B : Borrows) : Borrows :=
  {| mut_blocks := {[ref]} ∪ mut_blocks B; shared_blocks := shared_blocks B; mut_sources := mut_sources B |}.
Definition hold_block (ref : N) (B : Borrows) : Borrows :=
  {| mut_blocks := mut_blocks B; shared_blocks := {[ref]} ∪ shared_blocks B; mut_sources := mut_sources B |}.
Definition hold_source_mut (id : N) (B : Borrows) : Borrows :=
  {| mut_blocks := mut_blocks B; shared_blocks := shared_blocks B; mut_sources := {[id]} ∪ mut_sources B |}.

(** The cell of a method's [self]. *)
Definition self_block (w : ReceiverWorld) (self : N) : outcome ReceivedBlock := unwrap (rw_heap w !! self).

(** [block.borrow()] and [block.borrow_mut()] *)
Definition borrow_block (B : Borrows) (w : ReceiverWorld) (ref : N) : outcome ReceivedBlock :=
  _ ← assert_that (bool_decide (ref ∉ mut_blocks B));
  self_block w ref.

Definition borrow_block_mut (B : Borrows) (w : ReceiverWorld) (ref : N) : outcome ReceivedBlock :=
  _ ← assert_that (bool_decide (ref ∉ mut_blocks B) && bool_decide (ref ∉ shared_blocks B));
  self_block w ref.

(** [receiver.get_source(id).borrow_mut()] and a call on it *)
Definition borrow_source_mut (B : Borrows) (w : ReceiverWorld) (id : N) : outcome ReceiverSource :=
  source ← index (rw_sources w) id;
  _ ← assert_that (bool_decide (id ∉ mut_sources B));
  Done source.

Definition call_source (B : Borrows) (w : ReceiverWorld) (id : N)
  (op : ReceiverSource → Receiver → outcome (ReceiverSource * Receiver)) : outcome ReceiverWorld :=
  source ← borrow_source_mut B w id;
  res ← op source (rw_receiver w);
  sources ← set_index (rw_sources w) id (fst res);
  Done (with_sources sources (snd res) w).

(** [src as usize] of an [i32] *)
Definition src_index (src : Z) : N := Z.to_N (src mod 18446744073709551616)%Z.

Inductive Result (A : Type) := Ok (a : A) | Err.
Arguments Ok {A} a.
Arguments Err {A}.

Section graph.
Context {X : CatchainExternal} (cfg : ReceiverConfig).
Implicit Types (w : ReceiverWorld) (B : Borrows) (self ref : N) (b : ReceivedBlock).

(** ** Sources and block identifiers *)
Definition get_sources_count : N := N.of_nat (length (cfg_source_keys cfg)).

Definition Receiver_get_source_public_key_hash (source_id : N) : outcome N :=
  key ← index (cfg_source_keys cfg) source_id; Done (key_id key).

(** [public_key_hash_to_source]: later nodes replace earlier ones of the same
    key. *)
Definition public_key_hash_to_source : gmap N N :=
  foldl (λ m p, <[key_id p.2 := p.1]> m) ∅ (imap (λ i key, (N.of_nat i, key)) (cfg_source_keys cfg)).

(** [utils::get_block_id] *)
Definition get_block_id (incarnation source_hash : N) (height : Z) (payload : list N) : BlockId :=
  {| bid_incarnation := incarnation; bid_src := source_hash; bid_height := height;
     bid_data_hash := get_hash_of_bytes payload |}.

(** [ReceiverImpl::get_block_id] *)
Definition Receiver_get_block_id (block : Block) (payload : list N) : outcome BlockId :=
  source_hash ← Receiver_get_source_public_key_hash (src_index (blk_src block));
  Done (get_block_id (blk_incarnation block) source_hash (blk_height block) payload).

Definition get_block_dependency_id (dep : BlockDep) : outcome BlockId :=
  source_hash ← Receiver_get_source_public_key_hash (src_index (dep_src dep));
  Done {| bid_incarnation := cfg_incarnation cfg; bid_src := source_hash; bid_height := dep_height dep;
          bid_data_hash := dep_data_hash dep |}.

(** ** Validation *)
Definition pre_validate_block_dependency (dep : BlockDep) : bool :=
  if (dep_height dep <? 0)%Z then false
  else if (0 <? dep_height dep)%Z then
    negb ((dep_src dep <? 0)%Z || (get_sources_count <=? src_index (dep_src dep)))
  else
    negb ((dep_src dep <? 0)%Z || negb (src_index (dep_src dep) =? get_sources_count)) &&
    negb (negb (dep_data_hash dep =? cfg_incarnation cfg) || negb (length (dep_signature dep) =? 0)%nat).

Definition validate_signature w (id : BlockId) (signature : list N) : outcome bool :=
  if bool_decide (is_Some (rw_blocks w !! get_block_id_hash id)) then Done true else
  source ← unwrap (public_key_hash_to_source !! bid_src id);
  key ← index (cfg_source_keys cfg) source;
  Done (verify_block_id key id signature).

Definition validate_block_dependency w (dep : BlockDep) : outcome bool :=
  if negb (pre_validate_block_dependency dep) then Done false else
  if (dep_height dep <=? 0)%Z then Done true else
  id ← get_block_dependency_id dep;
  validate_signature w id (dep_signature dep).

(** The loop over the dependencies that fills the set [used]. *)
Fixpoint distinct_sources (used : gset Z) (deps : list BlockDep) : bool :=
  match deps with
  | [] => true
  | dep :: deps' =>
      if bool_decide (dep_src dep ∈ used) then false else distinct_sources ({[dep_src dep]} ∪ used) deps'
  end.

(** The loop over the dependencies with [?]. *)
Fixpoint validate_all w (deps : list BlockDep) : outcome bool :=
  match deps with
  | [] => Done true
  | dep :: deps' =>
      valid ← validate_block_dependency w dep;
      if (valid : bool) then validate_all w deps' else Done false
  end.

Definition pre_validate_block w (block : Block) (payload : list N) : outcome bool :=
  let prev := blk_prev block in
  if negb (blk_incarnation block =? cfg_incarnation cfg) then Done false else
  if (blk_height block <=? 0)%Z then Done false else
  if (blk_src block <? 0)%Z || (get_sources_count <=? src_index (blk_src block)) then Done false else
  if (dep_src prev <? 0)%Z then Done false else
  if cfg_max_deps cfg <? N.of_nat (length (blk_deps block)) then Done false else
  let prev_src := src_index (dep_src prev) in
  if (if (1 <? blk_height block)%Z then negb (prev_src =? src_index (blk_src block))
      else negb (prev_src =? get_sources_count)) then Done false else
  if negb (i32_add (dep_height prev) 1 =? blk_height block)%Z then Done false else
  if negb (distinct_sources {[blk_src block]} (blk_deps block)) then Done false else
  prev_valid ← validate_block_dependency w prev;
  if negb prev_valid then Done false else
  deps_valid ← validate_all w (blk_deps block);
  if negb deps_valid then Done false else
  Done (negb (length payload =? 0)%nat).

Definition validate_block_with_payload w (block : Block) (payload : list N) : outcome bool :=
  valid ← pre_validate_block w block payload;
  if negb valid then Done false else
  if (blk_height block <=? 0)%Z then Done true else
  id ← Receiver_get_block_id block payload;
  validate_signature w id (blk_signature block).

(** ** Ill blocks *)

(** The recursion borrows every cell on its path, so its depth is bounded by the
    number of cells: [set_ill_fuel] is never used up (see [set_ill_fuel_enough]). *)
Fixpoint set_ill_loop (fuel : nat) B w self : outcome ReceiverWorld :=
  match fuel with
  | O => Panic
  | S fuel' =>
      b ← self_block w self;
      if bool_decide (rb_state b = Ill) then Done w else
      w ← call_source B w (rb_source_id b) (λ s r, Done (ReceiverSource_mark_as_blamed s r));
      let w := update_block self (set_state Ill) w in
      mfoldl (λ w rev_dep, _ ← borrow_block_mut B w rev_dep; set_ill_loop fuel' (hold_block_mut rev_dep B) w rev_dep)
        w (rb_rev_deps b)
  end.

Definition set_ill_fuel w : nat := S (size (rw_heap w)).
Definition ReceivedBlock_set_ill B w self : outcome ReceiverWorld := set_ill_loop (set_ill_fuel w) B w self.

(** ** Creation *)

(** [ReceivedBlockImpl::create] *)
Definition ReceivedBlock_create B w (dep : BlockDep) : outcome (N * ReceiverWorld) :=
  id ← get_block_dependency_id dep;
  let '(new_block, w) :=
    alloc_block (ReceivedBlock_with_id Null (cfg_incarnation cfg) (get_block_id_hash id) (dep_data_hash dep)
                   (src_index (dep_src dep)) (dep_height dep) (dep_signature dep)) w in
  w ← call_source B w (src_index (dep_src dep))
        (λ s r, ReceiverSource_process_new_block serialize_fork (rw_heap w) s new_block r);
  Done (new_block, w).

Definition add_received_block B w ref : outcome ReceiverWorld :=
  b ← borrow_block B w ref;
  Done (with_blocks (<[rb_hash b := ref]> (rw_blocks w)) w).

Definition Receiver_create_block B w (dep : BlockDep) : outcome (N * ReceiverWorld) :=
  if (dep_height dep =? 0)%Z then Done (rw_root_block w, w) else
  id ← get_block_dependency_id dep;
  match rw_blocks w !! get_block_id_hash id with
  | Some block => Done (block, w)
  | None =>
      res ← ReceivedBlock_create B w dep;
      w ← add_received_block B (snd res) (fst res);
      Done (fst res, w)
  end.

(** ** Initialisation *)

(** [schedule] and [run_block] *)
Definition run_block ref w : ReceiverWorld := with_blocks_to_run (rw_blocks_to_run w ++ [ref]) w.

(** A dependency that is not delivered is waited for; the heights of a delivered
    one are taken over. *)
Definition add_parent B self (acc : N * ReceiverWorld) (parent : N) : outcome (N * ReceiverWorld) :=
  let '(pending_deps, w) := acc in
  p ← borrow_block B w parent;
  if ReceivedBlock_is_delivered p then
    Done (pending_deps,
          update_block self (λ b, set_forks_dep_heights
            (update_forks_dependency_heights (rb_forks_dep_heights b) (rb_forks_dep_heights p)) b) w)
  else
    _ ← borrow_block_mut B w parent;
    Done (u64_add pending_deps 1, update_block parent (λ p, set_rev_deps (rb_rev_deps p ++ [self]) p) w).

Definition push_dep B self w (dep : BlockDep) : outcome ReceiverWorld :=
  res ← Receiver_create_block B w dep;
  Done (update_block self (λ b, set_block_deps (rb_block_deps b ++ [fst res]) b) (snd res)).

Definition ReceivedBlock_initialize B w self (block : Block) (payload : list N)
  : outcome (Result unit * ReceiverWorld) :=
  b ← self_block w self;
  if negb (bool_decide (rb_state b = Null)) then Done (Ok (), w) else
  _ ← assert_that (negb (length payload =? 0)%nat);
  let w := update_block self (set_payload payload) w in
  res ← Receiver_create_block B w (blk_prev block);
  let '(prev, w) := res in
  let w := update_block self (set_prev (Some prev)) w in
  w ← mfoldl (push_dep B self) w (blk_deps block);
  let w := update_block self (λ b, set_state Initialized (set_signature (blk_signature block) b)) w in
  p ← borrow_block B w prev;
  if bool_decide (rb_state p = Ill) then w ← ReceivedBlock_set_ill B w self; Done (Err, w) else
  b ← self_block w self;
  ill ← mfind (λ dep, d ← borrow_block B w dep; Done (bool_decide (rb_state d = Ill))) (rb_block_deps b);
  if bool_decide (is_Some ill) then w ← ReceivedBlock_set_ill B w self; Done (Err, w) else
  res ← mfoldl (add_parent B self) (0, w) (prev :: rb_block_deps b);
  let '(pending_deps, w) := res in
  let w := update_block self (set_pending_deps pending_deps) w in
  let w := if (pending_deps =? 0) && rb_in_db b then run_block self w else w in
  w ← call_source B w (rb_source_id b)
        (λ s r, s ← unwrap (ReceiverSource_block_received (S (size (blocks s))) (rw_heap w) s (rb_height b));
                Done (s, r));
  Done (Ok (), w).

(** [ReceivedBlockImpl::create_with_payload] *)
Definition ReceivedBlock_create_with_payload B w (block : Block) (payload : list N)
  : outcome (Result N * ReceiverWorld) :=
  let source_id := src_index (blk_src block) in
  source_hash ← Receiver_get_source_public_key_hash source_id;
  let id := get_block_id (cfg_incarnation cfg) source_hash (blk_height block) payload in
  let '(new_block, w) :=
    alloc_block (ReceivedBlock_with_id Null (cfg_incarnation cfg) (get_block_id_hash id) (get_hash_of_bytes payload)
                   source_id (blk_height block) (blk_signature block)) w in
  w ← call_source B w source_id
        (λ s r, ReceiverSource_process_new_block serialize_fork (rw_heap w) s new_block r);
  res ← ReceivedBlock_initialize (hold_block_mut new_block B) w new_block block payload;
  match res with
  | (Ok _, w) => Done (Ok new_block, w)
  | (Err, w) => Done (Err, w)
  end.

Definition create_block_with_payload B w (block : Block) (payload : list N)
  : outcome (Result N * ReceiverWorld) :=
  if (blk_height block =? 0)%Z then Done (Ok (rw_root_block w), w) else
  id ← Receiver_get_block_id block payload;
  match rw_blocks w !! get_block_id_hash id with
  | Some existing_block =>
      b ← borrow_block B w existing_block;
      if ReceivedBlock_is_initialized b then Done (Ok existing_block, w) else
      _ ← borrow_block_mut B w existing_block;
      res ← ReceivedBlock_initialize (hold_block_mut existing_block B) w existing_block block payload;
      match res with
      | (Ok _, w) => Done (Ok existing_block, w)
      | (Err, w) => Done (Err, w)
      end
  | None =>
      res ← ReceivedBlock_create_with_payload B w block payload;
      match res with
      | (Ok new_block, w) => w ← add_received_block B w new_block; Done (Ok new_block, w)
      | (Err, w) => Done (Err, w)
      end
  end.

(** ** Delivery *)

(** [Vec::resize] and the assignment of the height of the block's own fork. *)
Definition set_own_height (heights : list BlockHeight) (fork_id : N) (height : BlockHeight)
  : outcome (list BlockHeight) :=
  let heights := if (length heights <? N.to_nat fork_id + 1)%nat
                 then resize_heights heights (N.to_nat fork_id + 1) else heights in
  current ← index heights fork_id;
  _ ← assert_that (current <? height)%Z;
  set_index heights fork_id height.

(** [source.borrow_mut().add_fork(receiver)] *)
Definition call_add_fork B w (id : N) : outcome (N * ReceiverWorld) :=
  source ← borrow_source_mut B w id;
  res ← ReceiverSource_add_fork source (rw_receiver w);
  let '(source, receiver, fork_id) := res in
  sources ← set_index (rw_sources w) id source;
  Done (fork_id, with_sources sources receiver w).

Definition ReceivedBlock_initialize_fork B w self : outcome ReceiverWorld :=
  b ← self_block w self;
  _ ← assert_that (bool_decide (rb_state b = Initialized));
  _ ← assert_that (rb_fork_id b =? 0);
  res ←
    (if (rb_height b =? 1)%Z then call_add_fork B w (rb_source_id b)
     else
       prev ← unwrap (rb_prev b);
       p ← borrow_block B w prev;
       if bool_decide (is_Some (rb_next p)) then call_add_fork B w (rb_source_id b)
       else
         _ ← borrow_block_mut B w prev;
         Done (rb_fork_id p, update_block prev (set_next (Some self)) w));
  let '(fork_id, w) := res in
  heights ← set_own_height (rb_forks_dep_heights b) fork_id (rb_height b);
  Done (update_block self (λ b, set_forks_dep_heights heights (set_fork_id fork_id b)) w).

(** [warn!] with [prev.borrow()] among its arguments, while [prev] is mutably
    borrowed. *)
Definition warn_with_prev B prev : outcome unit :=
  if cfg_warn_enabled cfg then assert_that (bool_decide (prev ∉ mut_blocks B)) else Done ().

(** The reasons to refuse a dependency, in the order of the checks: an older
    block of a fork that [prev] already depends on, another fork of a blamed
    source that [prev] depends on, or a blame of the source that [prev] knows. *)
Inductive BadDependency := OlderThanPrev | OtherFork | KnownBlame.

Definition other_fork (prev_heights : list BlockHeight) (dep_fork_id : N) (fork_id : N) : bool :=
  negb ((fork_id =? dep_fork_id)
        || (length prev_heights <=? N.to_nat fork_id)%nat
        || (default 0%Z (prev_heights !! N.to_nat fork_id) =? 0)%Z).

Definition known_blame (blamed_height prev_height : BlockHeight) : bool :=
  negb ((blamed_height =? 0)%Z || (prev_height <? blamed_height)%Z).

Definition check_dependency (prev_heights : list BlockHeight) (dep : ReceivedBlock) (dep_source : ReceiverSource)
  : option BadDependency :=
  if (N.to_nat (rb_fork_id dep) <? length prev_heights)%nat
     && (rb_height dep <=? default 0%Z (prev_heights !! N.to_nat (rb_fork_id dep)))%Z
  then Some OlderThanPrev
  else if negb (blamed dep_source) then None
  else if existsb (other_fork prev_heights (rb_fork_id dep)) (fork_ids dep_source) then Some OtherFork
  else if existsb (λ p, known_blame p.1 p.2) (zip (blamed_heights dep_source) prev_heights) then Some KnownBlame
  else None.

(** The loop over the dependencies of a block; [true] when it returned early with
    the block ill. *)
Fixpoint check_dependencies B w self prev (deps : list N) : outcome (bool * ReceiverWorld) :=
  match deps with
  | [] => Done (false, w)
  | dep :: deps' =>
      b ← self_block w self;
      p ← self_block w prev;
      d ← borrow_block B w dep;
      dep_source ← borrow_source_mut B w (rb_source_id d);
      let held := hold_source_mut (rb_source_id d) (hold_block dep B) in
      match check_dependency (rb_forks_dep_heights p) d dep_source with
      | None => check_dependencies B w self prev deps'
      | Some OlderThanPrev =>
          _ ← warn_with_prev B prev;
          w ← ReceivedBlock_set_ill held w self;
          Done (true, w)
      | Some _ =>
          _ ← warn_with_prev B prev;
          w ← call_source held w (rb_source_id b)
                (λ s r, ReceiverSource_blame s (rb_fork_id b) (rb_height b) r);
          w ← ReceivedBlock_set_ill held w self;
          Done (true, w)
      end
  end.

(** The fork proof carried by a payload. *)
Definition accept_fork B w self (left right : BlockDep) : outcome ReceiverWorld :=
  left_valid ← validate_block_dependency w left;
  if negb left_valid then ReceivedBlock_set_ill B w self else
  right_valid ← validate_block_dependency w right;
  if negb right_valid then ReceivedBlock_set_ill B w self else
  if negb (dep_height left =? dep_height right)%Z || negb (dep_src left =? dep_src right)%Z
     || (dep_data_hash left =? dep_data_hash right)
  then ReceivedBlock_set_ill B w self else
  call_source B w (src_index (dep_src left))
    (λ s r, Done (ReceiverSource_mark_as_blamed (ReceiverSource_set_fork_proof serialize_fork s (left, right)) r)).

Definition ReceivedBlock_pre_deliver B w self : outcome ReceiverWorld :=
  b ← self_block w self;
  if bool_decide (rb_state b = Ill) then Done w else
  _ ← assert_that (bool_decide (rb_state b = Initialized));
  _ ← assert_that (rb_pending_deps b =? 0);
  _ ← assert_that (rb_in_db b);
  _ ← index (rw_sources w) (rb_source_id b);
  res ←
    match rb_prev b with
    | None => Done (false, w)
    | Some prev =>
        _ ← borrow_block_mut B w prev;
        check_dependencies (hold_block_mut prev B) w self prev (rb_block_deps b)
    end;
  let '(returned, w) := res in
  if (returned : bool) then Done w else
  match read_data (rb_payload b) with
  | Some (DataFork l r) => accept_fork B w self l r
  | Some DataNop | Some DataBadBlock => Done w
  | Some DataOther | None => Done (update_block self (set_is_custom true) w)
  end.

(** [deliver_block]: the listener's [on_new_block]; the block is then sent to the
    neighbours. *)
Definition Receiver_deliver_block B w self : outcome ReceiverWorld :=
  b ← self_block w self;
  prev ← match rb_prev b with
         | Some prev => p ← borrow_block B w prev; Done (rb_hash p)
         | None => Done 0
         end;
  deps ← mmap (λ dep, d ← borrow_block B w dep; Done (rb_hash d)) (rb_block_deps b);
  Done (with_new_blocks (rw_new_blocks w ++
    [{| nb_source_id := rb_source_id b; nb_fork_id := rb_fork_id b; nb_hash := rb_hash b; nb_height := rb_height b;
        nb_prev := prev; nb_deps := deps; nb_forks_dep_heights := rb_forks_dep_heights b;
        nb_payload := if rb_is_custom b then rb_payload b else [] |}]) w).

Definition usize_pred (x : N) : N := (x + two64 - 1) mod two64.

Definition dependency_delivered self (heights : list BlockHeight) (state : ReceivedBlockState) w
  : outcome ReceiverWorld :=
  b ← self_block w self;
  if bool_decide (rb_state b = Ill) then Done w else
  _ ← assert_that (negb (bool_decide (state = Ill)));
  let pending_deps := usize_pred (rb_pending_deps b) in
  let w := update_block self (λ b, set_pending_deps pending_deps (set_forks_dep_heights
             (update_forks_dependency_heights (rb_forks_dep_heights b) heights) b)) w in
  Done (if (pending_deps =? 0) && rb_in_db b then run_block self w else w).

Definition ReceivedBlock_deliver B w self : outcome ReceiverWorld :=
  b ← self_block w self;
  if bool_decide (rb_state b = Ill) then Done w else
  _ ← assert_that (bool_decide (rb_state b = Initialized));
  _ ← assert_that (rb_pending_deps b =? 0);
  _ ← assert_that (rb_in_db b);
  w ← Receiver_deliver_block B w self;
  let w := update_block self (set_state Delivered) w in
  w ← mfoldl (λ w rev_dep, _ ← borrow_block_mut B w rev_dep;
                dependency_delivered rev_dep (rb_forks_dep_heights b) Delivered w) w (rb_rev_deps b);
  let w := update_block self (set_rev_deps []) w in
  call_source B w (rb_source_id b)
    (λ s r, s ← unwrap (ReceiverSource_block_delivered (S (size (blocks s))) (rw_heap w) s (rb_height b));
            Done (s, r)).

Definition ReceivedBlock_process B w self : outcome ReceiverWorld :=
  b ← self_block w self;
  match rb_state b with
  | Null | Delivered | Ill => Done w
  | Initialized =>
      _ ← assert_that (rb_pending_deps b =? 0);
      _ ← assert_that (rb_in_db b);
      w ← ReceivedBlock_initialize_fork B w self;
      w ← ReceivedBlock_pre_deliver B w self;
      ReceivedBlock_deliver B w self
  end.

Definition ReceivedBlock_written w self : outcome ReceiverWorld :=
  b ← self_block w self;
  if rb_in_db b then Done w else
  let w := update_block self (set_in_db true) w in
  Done (if rb_pending_deps b =? 0 then run_block self w else w).

(** The loop of [run_scheduler]; [None] when the fuel runs out. *)
Fixpoint run_scheduler (fuel : nat) w : option (outcome ReceiverWorld) :=
  match rw_blocks_to_run w with
  | [] => Some (Done w)
  | ref :: rest =>
      match fuel with
      | O => None
      | S fuel' =>
          let w := with_blocks_to_run rest w in
          match (_ ← borrow_block_mut no_borrows w ref; ReceivedBlock_process (hold_block_mut ref no_borrows) w ref) with
          | Done w => run_scheduler fuel' w
          | Panic => Some Panic
          end
      end
  end.

(** [ReceiverImpl::process] *)
Definition Receiver_process (fuel : nat) w : option (outcome ReceiverWorld) :=
  if (0 <? length (rw_blocks_to_run w))%nat then run_scheduler fuel w else Some (Done w).

(** The part of [block_written_to_db] before the scheduler runs. *)
Definition mark_block_written w (hash : N) : outcome ReceiverWorld :=
  ref ← unwrap (rw_blocks w !! hash);
  _ ← borrow_block_mut no_borrows w ref;
  ReceivedBlock_written w ref.

Definition block_written_to_db (fuel : nat) w (id : BlockId) : option (outcome ReceiverWorld) :=
  match mark_block_written w (get_block_id_hash id) with
  | Done w => run_scheduler fuel w
  | Panic => Some Panic
  end.

(** ** Receiving blocks *)

(** [receive_block] up to the write to the database. *)
Definition receive_block w (block : Block) (payload : list N) : outcome (Result N * ReceiverWorld) :=
  id ← Receiver_get_block_id block payload;
  known ← match rw_blocks w !! get_block_id_hash id with
          | Some ref => b ← borrow_block no_borrows w ref;
                        Done (if ReceivedBlock_is_initialized b then Some ref else None)
          | None => Done None
          end;
  match known with
  | Some ref => Done (Ok ref, w)
  | None =>
      if negb (blk_incarnation block =? cfg_incarnation cfg) then Done (Err, w) else
      valid ← validate_block_with_payload w block payload;
      if negb valid then Done (Err, w) else
      _ ← (if (src_index (blk_src block) =? cfg_local_idx cfg)
              && (negb (cfg_allow_unsafe_self_blocks_resync cfg) || rw_started w)
           then Panic else Done ());
      create_block_with_payload no_borrows w block payload
  end.

(** [got_fork_proof] *)
Definition got_fork_proof w (left right : BlockDep) : outcome ReceiverWorld :=
  left_valid ← validate_block_dependency w left;
  if negb left_valid then Done w else
  right_valid ← validate_block_dependency w right;
  if negb right_valid then Done w else
  if negb (dep_height left =? dep_height right)%Z || negb (dep_src left =? dep_src right)%Z
     || (dep_data_hash left =? dep_data_hash right)
  then Done w else
  call_source no_borrows w (src_index (dep_src left))
    (λ s r, Done (ReceiverSource_mark_as_blamed (ReceiverSource_set_fork_proof serialize_fork s (left, right)) r)).

(** ** Own blocks *)

(** [add_block_impl] up to the write to the database: the signed block, or
    [None] when signing failed ([active_send] stays set). *)
Definition add_block_impl w (payload : list N) (deps : list N) : outcome (option Block * ReceiverWorld) :=
  let w := with_sending (rw_last_sent_block w) true w in
  local_id ← Receiver_get_source_public_key_hash (cfg_local_idx cfg);
  source ← unwrap (public_key_hash_to_source !! local_id);
  _ ← assert_that (source =? cfg_local_idx cfg);
  prev ← borrow_block no_borrows w (rw_last_sent_block w);
  dep_tls ← mmap (λ dep, ref ← unwrap (rw_blocks w !! dep);
                   d ← borrow_block no_borrows w ref;
                   Done (ReceivedBlock_export_tl_dep d)) deps;
  let block := {| blk_incarnation := cfg_incarnation cfg; blk_src := i32_wrap (Z.of_N (cfg_local_idx cfg));
                  blk_height := i32_add (rb_height prev) 1; blk_prev := ReceivedBlock_export_tl_dep prev;
                  blk_deps := dep_tls; blk_signature := [] |} in
  id ← Receiver_get_block_id block payload;
  match sign_block_id id with
  | None => Done (None, w)
  | Some signature =>
      Done (Some {| blk_incarnation := blk_incarnation block; blk_src := blk_src block;
                    blk_height := blk_height block; blk_prev := blk_prev block; blk_deps := blk_deps block;
                    blk_signature := signature |}, w)
  end.

Definition add_block w (payload : list N) (deps : list N) : outcome (option Block * ReceiverWorld) :=
  if rw_active_send w then
    Done (None, with_sources (rw_sources w)
      {| total_forks := total_forks (rw_receiver w); blame_notifications := blame_notifications (rw_receiver w);
         pending_blocks := pending_blocks (rw_receiver w) ++ [{| pb_payload := payload; pb_dep_hashes := deps |}] |} w)
  else add_block_impl w payload deps.

(** The closure that [add_block_impl] posts: the own block is created and marked
    as written, before the scheduler runs ... *)
Definition add_block_written w (block : Block) (payload : list N) : outcome ReceiverWorld :=
  res ← create_block_with_payload no_borrows w block payload;
  match res with
  | (Ok ref, w) =>
      let w := with_sending ref (rw_active_send w) w in
      _ ← borrow_block_mut no_borrows w ref;
      ReceivedBlock_written w ref
  | (Err, w) => Done w
  end.

(** ... and after: the next pending block, if any, is added. *)
Definition send_next_block w : outcome (option Block * ReceiverWorld) :=
  let w := with_sending (rw_last_sent_block w) false w in
  match pending_blocks (rw_receiver w) with
  | [] => Done (None, w)
  | p :: rest =>
      let w := with_sources (rw_sources w)
        {| total_forks := total_forks (rw_receiver w); blame_notifications := blame_notifications (rw_receiver w);
           pending_blocks := rest |} w in
      add_block w (pb_payload p) (pb_dep_hashes p)
  end.

(** ** Unknown dependencies *)

(** [get_pending_deps]: the recursion borrows every cell on its path, as in
    [set_ill]. *)
Fixpoint get_pending_deps (fuel : nat) B w self (call_id max_deps_count : N) (dep_hashes : list N)
  : outcome (list N * ReceiverWorld) :=
  match fuel with
  | O => Panic
  | S fuel' =>
      b ← self_block w self;
      if rb_get_pending_deps_call_id b =? call_id then Done (dep_hashes, w) else
      let w := update_block self (set_get_pending_deps_call_id call_id) w in
      if (rb_height b =? 0)%Z || bool_decide (rb_state b = Ill) || ReceivedBlock_is_delivered b
         || (N.of_nat (length dep_hashes) =? max_deps_count)
      then Done (dep_hashes, w) else
      if negb (ReceivedBlock_is_initialized b) then Done (dep_hashes ++ [rb_hash b], w) else
      mfoldl (λ acc parent,
                _ ← borrow_block_mut B (snd acc) parent;
                get_pending_deps fuel' (hold_block_mut parent B) (snd acc) parent call_id max_deps_count (fst acc))
        (dep_hashes, w) (match rb_prev b with Some prev => prev :: rb_block_deps b | None => rb_block_deps b end)
  end.

(** The part of [synchronize_with] that collects the hashes of the blocks to
    request for the first undelivered block of a source. *)
Definition MAX_PENDING_DEPS_COUNT : N := 16.

Definition synchronize_pending_deps w (source_id : N) : outcome (list N * ReceiverWorld) :=
  source ← index (rw_sources w) source_id;
  _ ← assert_that (negb (blamed source));
  if (received_height source <=? delivered_height source)%Z then Done ([], w) else
  match blocks source !! i32_add (delivered_height source) 1 with
  | None => Done ([], w)
  | Some first_block =>
      let call_id := u64_add (rw_get_pending_deps_call_id w) 1 in
      let w := {| rw_heap := rw_heap w; rw_next_cell := rw_next_cell w; rw_blocks := rw_blocks w;
                  rw_blocks_to_run := rw_blocks_to_run w; rw_root_block := rw_root_block w;
                  rw_last_sent_block := rw_last_sent_block w; rw_active_send := rw_active_send w;
                  rw_sources := rw_sources w; rw_receiver := rw_receiver w; rw_started := rw_started w;
                  rw_get_pending_deps_call_id := call_id; rw_new_blocks := rw_new_blocks w |} in
      _ ← borrow_block_mut no_borrows w first_block;
      get_pending_deps (S (size (rw_heap w))) (hold_block_mut first_block no_borrows) w first_block call_id
        MAX_PENDING_DEPS_COUNT []
  end.

(** ** The initial state ([ReceiverImpl::new]) *)
Definition Receiver_new : ReceiverWorld :=
  let root_id := {| bid_incarnation := cfg_incarnation cfg; bid_src := cfg_incarnation cfg; bid_height := 0;
                    bid_data_hash := cfg_incarnation cfg |} in
  let root := ReceivedBlock_with_id Delivered (cfg_incarnation cfg) (get_block_id_hash root_id)
                (cfg_incarnation cfg) get_sources_count 0 [] in
  {| rw_heap := {[0 := root]}; rw_next_cell := 1; rw_blocks := {[rb_hash root := 0]};
     rw_blocks_to_run := []; rw_root_block := 0; rw_last_sent_block := 0; rw_active_send := false;
     rw_sources := (λ i, ReceiverSource_new (N.of_nat i)) <$> seq 0 (length (cfg_source_keys cfg));
     rw_receiver := {| total_forks := 0; blame_notifications := []; pending_blocks := [] |};
     rw_started := false; rw_get_pending_deps_call_id := 0; rw_new_blocks := [] |}.
End graph.
