(* ===== verification/BlockGraphFacts.v ===== *)
(** * Catchain: the invariant of the block graph

    Facts about [BlockGraph]: what every operation keeps true of the cells.  A
    block waits for its undelivered parents and is known to each of them, a
    delivered block has only delivered parents, its vector of fork heights is the
    maximum over its ancestors, and every block that could run is queued. *)

From S2P Require Import Prelude ReceivedBlock ReceiverSource BlockGraph.

(** ** Views of the heap *)
Definition parents (b : ReceivedBlock) : list N :=
  match rb_prev b with Some p => p :: rb_block_deps b | None => rb_block_deps b end.

Definition delivered_at (h : BlockHeap) (x : N) : bool :=
  match h !! x with Some b => ReceivedBlock_is_delivered b | None => false end.

Definition rev_at (h : BlockHeap) (x : N) : list N :=
  match h !! x with Some b => rb_rev_deps b | None => [] end.

(** The height of fork [j] that a block depends on. *)
Definition clock (b : ReceivedBlock) (j : nat) : Z := default 0%Z (rb_forks_dep_heights b !! j).

Definition clock_at (h : BlockHeap) (x : N) (j : nat) : Z :=
  match h !! x with Some b => if ReceivedBlock_is_delivered b then clock b j else 0%Z | None => 0%Z end.

Definition own_clock (b : ReceivedBlock) (j : nat) : Z :=
  if decide (N.to_nat (rb_fork_id b) = j) then rb_height b else 0%Z.

(** Number of occurrences. *)
Definition occ (x : N) (l : list N) : nat := length (filter (λ y, y = x) l).

(** Number of parents that are not delivered, and the maximum of the clocks of
    those that are. *)
Definition waiting (h : BlockHeap) (l : list N) : nat := length (filter (λ x, delivered_at h x = false) l).

Fixpoint max_clock (h : BlockHeap) (l : list N) (j : nat) : Z :=
  match l with [] => 0%Z | x :: l' => Z.max (clock_at h x j) (max_clock h l' j) end.

(** ** Lists and clocks *)
Section counting.
Implicit Types (x y : N) (l : list N) (h : BlockHeap).

Lemma occ_app x l1 l2 : occ x (l1 ++ l2) = (occ x l1 + occ x l2)%nat.
Proof. unfold occ. by rewrite list.filter_app, length_app. Qed.

Lemma occ_singleton x y : occ x [y] = if decide (y = x) then 1%nat else 0%nat.
Proof. unfold occ. rewrite list.filter_cons. by destruct (decide (y = x)). Qed.

Lemma occ_cons x y l : occ x (y :: l) = ((if decide (y = x) then 1 else 0) + occ x l)%nat.
Proof. unfold occ. rewrite list.filter_cons. by destruct (decide (y = x)). Qed.

Lemma occ_0 x l : occ x l = 0%nat ↔ x ∉ l.
Proof.
  unfold occ. rewrite length_zero_iff_nil. split.
  - intros Hf Hx. assert (x ∈ filter (λ y, y = x) l) as Hin by (by apply list_elem_of_filter).
    rewrite Hf in Hin. set_solver.
  - intros Hx. apply elem_of_nil_inv. intros y [-> Hy]%list_elem_of_filter. done.
Qed.

Lemma occ_pos x l : (0 < occ x l)%nat ↔ x ∈ l.
Proof. destruct (decide (x ∈ l)) as [H|H]; [|apply occ_0 in H as Hz; naive_solver lia].
  split; [done|]. intros _. destruct (occ x l) eqn:E; [by apply occ_0 in E|lia]. Qed.

Lemma waiting_0 h l : waiting h l = 0%nat ↔ ∀ x, x ∈ l → delivered_at h x = true.
Proof.
  unfold waiting. rewrite length_zero_iff_nil. split.
  - intros Hf x Hx. destruct (delivered_at h x) eqn:E; [done|].
    assert (x ∈ filter (λ x, delivered_at h x = false) l) as Hin by (by apply list_elem_of_filter).
    rewrite Hf in Hin. set_solver.
  - intros Ha. apply elem_of_nil_inv. intros x [Hd Hx]%list_elem_of_filter. rewrite Ha in Hd by done. done.
Qed.

Lemma waiting_app h l1 l2 : waiting h (l1 ++ l2) = (waiting h l1 + waiting h l2)%nat.
Proof. unfold waiting. by rewrite list.filter_app, length_app. Qed.

Lemma waiting_cons h x l :
  waiting h (x :: l) = ((if delivered_at h x then 0 else 1) + waiting h l)%nat.
Proof. unfold waiting. rewrite list.filter_cons. by destruct (delivered_at h x). Qed.

Lemma waiting_le h l : (waiting h l ≤ length l)%nat.
Proof. unfold waiting. apply length_filter. Qed.

Lemma waiting_ext h h' l :
  (∀ x, x ∈ l → delivered_at h' x = delivered_at h x) → waiting h' l = waiting h l.
Proof.
  induction l as [|x l IH]; intros Hd; [done|]. rewrite !waiting_cons, IH, Hd; set_solver.
Qed.

(** One more delivered block. *)
Lemma waiting_deliver h h' self l :
  delivered_at h self = false → delivered_at h' self = true →
  (∀ x, x ≠ self → delivered_at h' x = delivered_at h x) →
  (waiting h' l + occ self l)%nat = waiting h l.
Proof.
  intros H0 H1 Hx. induction l as [|x l IH]; [done|]. rewrite !waiting_cons, occ_cons.
  destruct (decide (x = self)) as [->|Hne]; [rewrite H0, H1|rewrite Hx by done]; lia.
Qed.

Lemma max_clock_ext h h' l j :
  (∀ x, x ∈ l → clock_at h' x j = clock_at h x j) → max_clock h' l j = max_clock h l j.
Proof. induction l as [|x l IH]; intros Hc; simpl; [done|]. rewrite IH, Hc; set_solver. Qed.

Lemma max_clock_app h l1 l2 j : max_clock h (l1 ++ l2) j = Z.max (max_clock h l1 j) (max_clock h l2 j) ∨
  (max_clock h l2 j < 0)%Z.
Proof. induction l1 as [|x l IH]; simpl; lia. Qed.

Lemma max_clock_nonneg h l j : (0 ≤ max_clock h l j)%Z.
Proof. induction l; simpl; lia. Qed.

Lemma max_clock_snoc h l x j : max_clock h (l ++ [x]) j = Z.max (max_clock h l j) (clock_at h x j) ∨
  (clock_at h x j < 0)%Z.
Proof. destruct (max_clock_app h l [x] j); simpl in *; pose proof (max_clock_nonneg h l j); lia. Qed.

Lemma max_clock_elem h l x j : x ∈ l → (clock_at h x j ≤ max_clock h l j)%Z.
Proof. induction l as [|y l IH]; [set_solver|]. intros [->|Hx]%elem_of_cons; simpl; [lia|]. specialize (IH Hx). lia. Qed.

Lemma max_clock_deliver h h' self l j c :
  clock_at h self j = 0%Z → clock_at h' self j = c → (0 ≤ c)%Z →
  (∀ x, x ≠ self → clock_at h' x j = clock_at h x j) →
  max_clock h' l j = Z.max (max_clock h l j) (if decide (self ∈ l) then c else 0%Z).
Proof.
  intros H0 H1 Hc Hx. induction l as [|x l IH]; simpl; [done|]. rewrite IH.
  pose proof (max_clock_nonneg h l j).
  destruct (decide (x = self)) as [->|Hne].
  - rewrite (decide_True (P := self ∈ self :: l)) by set_solver. rewrite H0, H1. destruct (decide _); lia.
  - rewrite Hx by done. destruct (decide (self ∈ l)).
    + rewrite decide_True by set_solver. lia.
    + rewrite decide_False by set_solver. lia.
Qed.
End counting.

(** The maximum of two vectors of heights. *)
Lemma raise_heights_lookup l1 l2 (j : nat) :
  (length l2 ≤ length l1)%nat → (∀ k, 0 ≤ default 0%Z (l1 !! k))%Z →
  default 0%Z (raise_heights l1 l2 !! j) = Z.max (default 0%Z (l1 !! j)) (default 0%Z (l2 !! j)).
Proof.
  revert l2 j. induction l1 as [|a l1 IH]; intros [|c l2] j Hl H1; simpl in *; try lia.
  - specialize (H1 j). lia.
  - destruct j as [|j]; simpl.
    + destruct (Z.ltb_spec a c); lia.
    + apply IH; [lia|]. intros k. apply (H1 (S k)).
Qed.

Lemma update_heights_lookup l1 l2 (j : nat) :
  (∀ k, 0 ≤ default 0%Z (l1 !! k))%Z →
  default 0%Z (update_forks_dependency_heights l1 l2 !! j) = Z.max (default 0%Z (l1 !! j)) (default 0%Z (l2 !! j)).
Proof.
  intros H1. unfold update_forks_dependency_heights.
  destruct (Nat.ltb_spec (length l1) (length l2)).
  - rewrite raise_heights_lookup, resize_heights_lookup; [done| |].
    + unfold resize_heights. rewrite length_app, length_replicate. lia.
    + intros k. rewrite resize_heights_lookup. apply H1.
  - by apply raise_heights_lookup.
Qed.

(** ** The invariant *)

(** [rem] are the blocks that still have to hear of a delivery with clock [clk]. *)
Definition cell_ok (clk : nat → Z) (rem : list N) (root : N) (h : BlockHeap) (r : N) (b : ReceivedBlock) : Prop :=
  match rb_state b with
  | Null => rb_prev b = None ∧ rb_block_deps b = [] ∧ rb_pending_deps b = 0 ∧ rb_forks_dep_heights b = [] ∧
            rb_fork_id b = 0
  | Ill => True
  | Initialized =>
      is_Some (rb_prev b) ∧ rb_pending_deps b < two64 ∧
      rb_pending_deps b = N.of_nat (waiting h (parents b) + occ r rem) ∧
      (∀ x, delivered_at h x = false → occ r (rev_at h x) = occ x (parents b)) ∧
      (∀ j, Z.max (clock b j) (if decide (r ∈ rem) then clk j else 0%Z) = max_clock h (parents b) j)
  | Delivered =>
      r = root ∨ is_Some (rb_prev b) ∧ (∀ x, x ∈ parents b → delivered_at h x = true) ∧
                 ∀ j, clock b j = Z.max (own_clock b j) (max_clock h (parents b) j)
  end.

(** [E] are cells that are being changed, [F] delivered cells whose reverse
    dependencies are still to be cleared. *)
Record graph_inv (E F : gset N) (clk : nat → Z) (rem : list N) (root : N) (h : BlockHeap) (next : N)
  (known : gmap N N) (queue : list N) : Prop := {
  gr_fresh r b : h !! r = Some b → r < next;
  gr_root : ∃ b, h !! root = Some b ∧ rb_state b = Delivered ∧ parents b = [] ∧ rb_forks_dep_heights b = [];
  gr_closed r b x : h !! r = Some b → x ∈ parents b → is_Some (h !! x);
  gr_known k r : known !! k = Some r → ∃ b, h !! r = Some b ∧ rb_hash b = k;
  gr_rev x r : r ∈ rev_at h x → ∃ b, h !! r = Some b ∧ (rb_state b = Initialized ∨ rb_state b = Ill);
  gr_rev_delivered x : x ∉ F → delivered_at h x = true → rev_at h x = [];
  gr_clock r b j : h !! r = Some b → (0 ≤ clock b j)%Z;
  gr_cell r b : r ∉ E → h !! r = Some b → cell_ok clk rem root h r b;
  gr_ready r b : r ∉ E → h !! r = Some b → rb_state b = Initialized → rb_pending_deps b = 0 →
    rb_in_db b = true → r ∈ queue;
  gr_queue r : r ∈ queue → ∃ b, h !! r = Some b ∧ rb_state b ≠ Null ∧
    (r ∉ E → rb_state b = Initialized → rb_pending_deps b = 0 ∧ rb_in_db b = true);
}.

Definition graph_inv_of (E F : gset N) (clk : nat → Z) (rem : list N) (w : ReceiverWorld) : Prop :=
  graph_inv E F clk rem (rw_root_block w) (rw_heap w) (rw_next_cell w) (rw_blocks w) (rw_blocks_to_run w).

(** The invariant between two operations, and while the cells of [E] change. *)
Abbreviation graph_ok_but E := (graph_inv_of E ∅ (λ _, 0%Z) []).
Abbreviation graph_ok := (graph_ok_but ∅).

(** ** Changing one cell *)
Section cells.
Implicit Types (h : BlockHeap) (r x : N) (b : ReceivedBlock) (f : ReceivedBlock → ReceivedBlock).

Lemma delivered_at_alter f r h x :
  (∀ b, h !! r = Some b → ReceivedBlock_is_delivered (f b) = ReceivedBlock_is_delivered b) →
  delivered_at (alter f r h) x = delivered_at h x.
Proof.
  intros Hf. unfold delivered_at. destruct (decide (x = r)) as [->|Hne].
  - rewrite lookup_alter_eq. destruct (h !! r) eqn:E; simpl; [by apply Hf|done].
  - by rewrite lookup_alter_ne.
Qed.

Lemma rev_at_alter f r h x :
  (∀ b, h !! r = Some b → rb_rev_deps (f b) = rb_rev_deps b) → rev_at (alter f r h) x = rev_at h x.
Proof.
  intros Hf. unfold rev_at. destruct (decide (x = r)) as [->|Hne].
  - rewrite lookup_alter_eq. destruct (h !! r) eqn:E; simpl; [by apply Hf|done].
  - by rewrite lookup_alter_ne.
Qed.

Lemma clock_at_alter f r h x j :
  (∀ b, h !! r = Some b → ReceivedBlock_is_delivered (f b) = ReceivedBlock_is_delivered b ∧
     (ReceivedBlock_is_delivered b = true → rb_forks_dep_heights (f b) = rb_forks_dep_heights b)) →
  clock_at (alter f r h) x j = clock_at h x j.
Proof.
  intros Hf. unfold clock_at. destruct (decide (x = r)) as [->|Hne].
  - rewrite lookup_alter_eq. destruct (h !! r) as [b|] eqn:E; simpl; [|done].
    destruct (Hf b eq_refl) as [-> Hc]. destruct (ReceivedBlock_is_delivered b); [|done]. unfold clock. by rewrite Hc.
  - by rewrite lookup_alter_ne.
Qed.

Lemma cell_ok_ext clk rem root h h' r b :
  (∀ x, delivered_at h' x = delivered_at h x) → (∀ x j, clock_at h' x j = clock_at h x j) →
  (∀ x, occ r (rev_at h' x) = occ r (rev_at h x)) → cell_ok clk rem root h r b → cell_ok clk rem root h' r b.
Proof.
  intros Hd Hc Hr. unfold cell_ok. destruct (rb_state b); try done.
  - intros (? & ? & Hp & Ho & Hk). split_and!; try done.
    + rewrite Hp. f_equal. f_equal. symmetry. by apply waiting_ext.
    + intros x. rewrite Hd, Hr. apply Ho.
    + intros j. rewrite Hk. symmetry. by apply max_clock_ext.
  - intros [?|(? & Ha & Hk)]; [by left|right]. split_and!; try done.
    + intros x. rewrite Hd. apply Ha.
    + intros j. rewrite Hk. f_equal. symmetry. by apply max_clock_ext.
Qed.

(** What a change of a cell that is being initialised or delivered may do. *)
Record tame b b' : Prop := {
  tame_hash : rb_hash b' = rb_hash b;
  tame_delivered : ReceivedBlock_is_delivered b' = ReceivedBlock_is_delivered b;
  tame_frozen : ReceivedBlock_is_delivered b = true →
    rb_forks_dep_heights b' = rb_forks_dep_heights b ∧ parents b' = parents b;
  tame_rev : rb_rev_deps b' = rb_rev_deps b;
  tame_null : rb_state b ≠ Null → rb_state b' ≠ Null;
}.

Lemma tame_active b b' :
  tame b b' → rb_state b = Initialized ∨ rb_state b = Ill → rb_state b' = Initialized ∨ rb_state b' = Ill.
Proof.
  intros [_ Hd _ _ Hn] Hs. unfold ReceivedBlock_is_delivered in Hd.
  rewrite (bool_decide_eq_false_2 (rb_state b = Delivered)) in Hd by (destruct Hs; congruence).
  apply bool_decide_eq_false in Hd. destruct (rb_state b'); try naive_solver; destruct Hn; destruct Hs; congruence.
Qed.

Lemma delivered_true b : ReceivedBlock_is_delivered b = true ↔ rb_state b = Delivered.
Proof. unfold ReceivedBlock_is_delivered. by rewrite bool_decide_eq_true. Qed.

Lemma delivered_false b : ReceivedBlock_is_delivered b = false ↔ rb_state b ≠ Delivered.
Proof. unfold ReceivedBlock_is_delivered. by rewrite bool_decide_eq_false. Qed.

Lemma delivered_at_Some h x : delivered_at h x = true ↔ ∃ b, h !! x = Some b ∧ rb_state b = Delivered.
Proof.
  unfold delivered_at. destruct (h !! x) as [b|]; [|naive_solver]. rewrite delivered_true. naive_solver.
Qed.

Lemma clock_at_undelivered h x j : delivered_at h x = false → clock_at h x j = 0%Z.
Proof. unfold delivered_at, clock_at. destruct (h !! x); [|done]. by intros ->. Qed.

Section update.
Context (E F : gset N) (clk : nat → Z) (rem : list N) (root : N) (h : BlockHeap) (next : N)
  (known : gmap N N) (queue : list N).
Hypothesis HI : graph_inv E F clk rem root h next known queue.

Lemma graph_inv_weaken E' F' : E ⊆ E' → F ⊆ F' → graph_inv E' F' clk rem root h next known queue.
Proof.
  intros HE HF. destruct HI. split; try done.
  - intros x Hx. apply gr_rev_delivered0. set_solver.
  - intros r b Hr. apply gr_cell0. set_solver.
  - intros r b Hr. apply gr_ready0. set_solver.
  - intros r Hr. destruct (gr_queue0 r Hr) as (b & ? & ? & Hq). exists b. split_and!; [done..|]. intros ?. apply Hq.
    set_solver.
Qed.

Lemma graph_inv_update f r b :
  h !! r = Some b → tame b (f b) → (∀ x, x ∈ parents (f b) → is_Some (h !! x)) → (∀ j, 0 ≤ clock (f b) j)%Z →
  graph_inv (E ∪ {[r]}) F clk rem root (alter f r h) next known queue.
Proof.
  intros Hb Ht Hp Hc. destruct HI.
  assert (Hdel : ∀ x, delivered_at (alter f r h) x = delivered_at h x).
  { intros x. apply delivered_at_alter. intros ? [= <-]%(eq_trans (eq_sym Hb)). apply Ht. }
  assert (Hrev : ∀ x, rev_at (alter f r h) x = rev_at h x).
  { intros x. apply rev_at_alter. intros ? [= <-]%(eq_trans (eq_sym Hb)). apply Ht. }
  assert (Hclk : ∀ x j, clock_at (alter f r h) x j = clock_at h x j).
  { intros x j. apply clock_at_alter. intros ? [= <-]%(eq_trans (eq_sym Hb)). split; [apply Ht|]. intros Hd.
    by destruct (tame_frozen _ _ Ht Hd). }
  assert (Hdom : ∀ x, is_Some (alter f r h !! x) ↔ is_Some (h !! x)).
  { intros x. destruct (decide (x = r)) as [->|]; [rewrite lookup_alter_eq, Hb|rewrite lookup_alter_ne by done]; simpl.
    - split; eauto.
    - done. }
  split.
  - intros x c [[-> (b' & Hx & _)]|[_ Hx]]%lookup_alter_Some; eauto.
  - destruct gr_root0 as (b0 & H0 & Hs & Hpa & Hfa). destruct (decide (r = root)) as [->|Hne].
    + exists (f b). rewrite lookup_alter_eq, Hb. rewrite H0 in Hb. injection Hb as ->. split; [done|].
      rewrite <- delivered_true in Hs |- *. rewrite (tame_delivered _ _ Ht). split; [done|].
      destruct (tame_frozen _ _ Ht Hs) as [-> ->]. done.
    + exists b0. by rewrite lookup_alter_ne.
  - intros x c y [[-> (b' & Hx & ->)]|[_ Hx]]%lookup_alter_Some Hy; rewrite Hdom; [|eauto].
    rewrite Hb in Hx. injection Hx as <-. eauto.
  - intros k x Hk. destruct (gr_known0 k x Hk) as (c & Hx & Hh). destruct (decide (x = r)) as [->|].
    + exists (f b). rewrite lookup_alter_eq, Hb. split; [done|]. rewrite (tame_hash _ _ Ht). congruence.
    + exists c. by rewrite lookup_alter_ne.
  - intros x y. rewrite Hrev. intros (c & Hy & Hs)%gr_rev0. destruct (decide (y = r)) as [->|].
    + exists (f b). rewrite lookup_alter_eq, Hb. split; [done|]. apply (tame_active _ _ Ht). congruence.
    + exists c. by rewrite lookup_alter_ne.
  - intros x Hx. rewrite Hdel, Hrev. by apply gr_rev_delivered0.
  - intros x c j [[-> (b' & Hx & ->)]|[_ Hx]]%lookup_alter_Some; [|eauto].
    rewrite Hb in Hx. by injection Hx as <-.
  - intros x c Hx [[-> (b' & Hy & ->)]|[_ Hy]]%lookup_alter_Some; [set_solver|].
    apply (cell_ok_ext clk rem root h); try done; [intros; by rewrite Hrev|]. apply gr_cell0; [set_solver|done].
  - intros x c Hx [[-> (b' & Hy & ->)]|[_ Hy]]%lookup_alter_Some; [set_solver|]. apply gr_ready0; [set_solver|done].
  - intros x Hx. destruct (gr_queue0 x Hx) as (c & Hy & Hn & Hq). destruct (decide (x = r)) as [->|].
    + exists (f b). rewrite lookup_alter_eq, Hb. split; [done|]. split; [|set_solver]. apply (tame_null _ _ Ht). congruence.
    + exists c. rewrite lookup_alter_ne by done. split_and!; [done..|]. intros ?. apply Hq. set_solver.
Qed.

(** A cell that satisfies the invariant again is no longer exempt. *)
Lemma graph_inv_restore r b :
  h !! r = Some b → cell_ok clk rem root h r b →
  (rb_state b = Initialized → rb_pending_deps b = 0 ∧ rb_in_db b = true ↔ r ∈ queue) →
  graph_inv (E ∖ {[r]}) F clk rem root h next known queue.
Proof.
  intros Hb Hok Hq. destruct HI. split; try done.
  - intros x c Hx Hc. destruct (decide (x = r)) as [->|]; [by simplify_eq|]. apply gr_cell0; [set_solver|done].
  - intros x c Hx Hc ???. destruct (decide (x = r)) as [->|]; [simplify_eq; by apply Hq|].
    apply (gr_ready0 x c); [set_solver|done..].
  - intros x Hx. destruct (gr_queue0 x Hx) as (c & Hy & Hn & Hi). exists c. split_and!; [done..|]. intros Hx' Hs.
    destruct (decide (x = r)) as [->|]; [simplify_eq; by apply Hq|]. apply Hi; [set_solver|done].
Qed.

(** Fields that the invariant does not mention may change at any time. *)
Definition inert_view b :=
  (rb_state b, rb_hash b, rb_prev b, rb_block_deps b, rb_rev_deps b, rb_forks_dep_heights b, rb_pending_deps b,
   (rb_height b, rb_fork_id b, rb_in_db b)).

Lemma graph_inv_inert f r :
  (∀ b, inert_view (f b) = inert_view b) → graph_inv E F clk rem root (alter f r h) next known queue.
Proof.
  intros Hf. destruct (h !! r) as [b|] eqn:Hb.
  2:{ replace (alter f r h) with h; [done|]. apply map_eq. intros x. destruct (decide (x = r)) as [->|].
      - by rewrite lookup_alter_eq, Hb.
      - by rewrite lookup_alter_ne. }
  pose proof (Hf b) as Hv. unfold inert_view in Hv.
  injection Hv as Es Eh Ep Ed Er Ef Epe Ehe Efk Edb.
  assert (Hpar : parents (f b) = parents b) by (unfold parents; by rewrite Ep, Ed).
  assert (Ht : tame b (f b)).
  { split; unfold ReceivedBlock_is_delivered; rewrite ?Es; done. }
  pose proof (graph_inv_update f r b Hb Ht) as Hu.
  assert (Hu' : graph_inv (E ∪ {[r]}) F clk rem root (alter f r h) next known queue).
  { apply Hu.
    - intros x. rewrite Hpar. by eapply gr_closed.
    - intros j. unfold clock. rewrite Ef. eapply gr_clock; [exact HI|done]. }
  assert (Hdel : ∀ x, delivered_at (alter f r h) x = delivered_at h x).
  { intros x. apply delivered_at_alter. intros ? [= <-]%(eq_trans (eq_sym Hb)). apply Ht. }
  assert (Hclk : ∀ x j, clock_at (alter f r h) x j = clock_at h x j).
  { intros x j. apply clock_at_alter. intros ? [= <-]%(eq_trans (eq_sym Hb)). split; [apply Ht|]. intros Hd.
    by destruct (tame_frozen _ _ Ht Hd). }
  assert (Hrev : ∀ x, rev_at (alter f r h) x = rev_at h x).
  { intros x. apply rev_at_alter. intros ? [= <-]%(eq_trans (eq_sym Hb)). apply Ht. }
  assert (Hcell : ∀ c, cell_ok clk rem root h r b → c = f b → cell_ok clk rem root (alter f r h) r c).
  { intros c Hc ->. eapply cell_ok_ext; [exact Hdel|exact Hclk|intros; by rewrite Hrev|]. revert Hc. unfold cell_ok.
    unfold clock, own_clock. rewrite Hpar. by rewrite Es, Ep, Ed, Ef, Epe, Ehe, Efk. }
  destruct HI, Hu'. split; try done.
  - intros x c Hx Hc. destruct (decide (x = r)) as [->|]; [|apply gr_cell1; [set_solver|done]].
    rewrite lookup_alter_eq, Hb in Hc. injection Hc as <-. apply Hcell; [|done]. by apply gr_cell0.
  - intros x c Hx Hc. destruct (decide (x = r)) as [->|]; [|apply gr_ready1; [set_solver|done]].
    rewrite lookup_alter_eq, Hb in Hc. injection Hc as <-. rewrite Es, Epe, Edb. by apply gr_ready0.
  - intros x Hx. destruct (gr_queue0 x Hx) as (c & Hy & Hn & Hq). destruct (decide (x = r)) as [->|].
    + exists (f b). rewrite lookup_alter_eq, Hb. rewrite Hb in Hy. injection Hy as <-. by rewrite Es, Epe, Edb.
    + exists c. by rewrite lookup_alter_ne.
Qed.

(** A new cell. *)
Lemma graph_inv_alloc b :
  rb_state b = Null → parents b = [] → rb_rev_deps b = [] → rb_forks_dep_heights b = [] → rb_pending_deps b = 0 →
  rb_fork_id b = 0 →
  graph_inv E F clk rem root (<[next := b]> h) (next + 1) known queue.
Proof.
  intros Hs Hp Hr Hf Hpe Hfk. assert (Hnone : h !! next = None).
  { destruct (h !! next) eqn:Hx; [|done]. apply (gr_fresh _ _ _ _ _ _ _ _ _ HI) in Hx. lia. }
  assert (Hdel : ∀ x, delivered_at (<[next := b]> h) x = delivered_at h x).
  { intros x. unfold delivered_at. destruct (decide (x = next)) as [->|].
    - rewrite lookup_insert_eq, Hnone. apply delivered_false. congruence.
    - by rewrite lookup_insert_ne. }
  assert (Hrev : ∀ x, rev_at (<[next := b]> h) x = rev_at h x).
  { intros x. unfold rev_at. destruct (decide (x = next)) as [->|].
    - by rewrite lookup_insert_eq, Hnone.
    - by rewrite lookup_insert_ne. }
  assert (Hclk : ∀ x j, clock_at (<[next := b]> h) x j = clock_at h x j).
  { intros x j. unfold clock_at. destruct (decide (x = next)) as [->|].
    - rewrite lookup_insert_eq, Hnone. by rewrite (proj2 (delivered_false b)) by congruence.
    - by rewrite lookup_insert_ne. }
  assert (Hold : ∀ x c, h !! x = Some c → <[next := b]> h !! x = Some c).
  { intros x c Hx. rewrite lookup_insert_ne; [done|]. intros <-. congruence. }
  destruct HI. split.
  - intros x c [[<- <-]|[_ Hx]]%lookup_insert_Some; [lia|]. specialize (gr_fresh0 _ _ Hx). lia.
  - destruct gr_root0 as (b0 & ? & ?). exists b0. eauto.
  - intros x c y [[<- <-]|[_ Hx]]%lookup_insert_Some Hy; [rewrite Hp in Hy; set_solver|].
    destruct (gr_closed0 _ _ _ Hx Hy). eauto.
  - intros k x Hk. destruct (gr_known0 _ _ Hk) as (c & ? & ?). eauto.
  - intros x y. rewrite Hrev. intros (c & ? & ?)%gr_rev0. eauto.
  - intros x Hx. rewrite Hdel, Hrev. by apply gr_rev_delivered0.
  - intros x c j [[<- <-]|[_ Hx]]%lookup_insert_Some; [|eauto]. unfold clock. by rewrite Hf.
  - intros x c Hx Hc. eapply cell_ok_ext; [done..|intros; by rewrite Hrev|].
    apply lookup_insert_Some in Hc as [[<- <-]|[_ Hc]]; [|by apply gr_cell0]. unfold cell_ok. rewrite Hs.
    unfold parents in Hp. by destruct (rb_prev b).
  - intros x c Hx [[<- <-]|[_ Hc]]%lookup_insert_Some; [congruence|eauto].
  - intros x Hx. destruct (gr_queue0 x Hx) as (c & Hc & ?). eauto.
Qed.
End update.
End cells.

(** ** Steps that deliver nothing *)
Definition delivery_view (b : ReceivedBlock) :=
  (rb_fork_id b, rb_prev b, rb_block_deps b, rb_forks_dep_heights b, rb_payload b, rb_is_custom b).

Record same_block (b b' : ReceivedBlock) : Prop := {
  sb_hash : rb_hash b' = rb_hash b;
  sb_source : rb_source_id b' = rb_source_id b;
  sb_height : rb_height b' = rb_height b;
  sb_delivered : ReceivedBlock_is_delivered b' = ReceivedBlock_is_delivered b;
  sb_view : ReceivedBlock_is_delivered b = true → delivery_view b' = delivery_view b;
}.

Record quiet (w w' : ReceiverWorld) : Prop := {
  q_cells x b : rw_heap w !! x = Some b → ∃ b', rw_heap w' !! x = Some b' ∧ same_block b b';
  q_new x b : rw_heap w !! x = None → rw_heap w' !! x = Some b → rb_state b ≠ Delivered;
  q_log : rw_new_blocks w' = rw_new_blocks w;
  q_root : rw_root_block w' = rw_root_block w;
}.

#[global] Instance same_block_refl : Reflexive same_block.
Proof. by split. Qed.

#[global] Instance same_block_trans : Transitive same_block.
Proof.
  intros b1 b2 b3 [] []. split; try congruence. intros Hd. rewrite <- sb_view0 by done. apply sb_view1. congruence.
Qed.

#[global] Instance quiet_refl : Reflexive quiet.
Proof. split; try done; [eauto using same_block_refl|congruence]. Qed.

#[global] Instance quiet_trans : Transitive quiet.
Proof.
  intros w1 w2 w3 [H1 H1' ? ?] [H2 H2' ? ?]. split; try congruence.
  - intros x b Hx. destruct (H1 x b Hx) as (b' & Hb' & ?). destruct (H2 x b' Hb') as (b'' & ? & ?).
    exists b''. split; [done|]. by etrans.
  - intros x b Hx Hb. destruct (rw_heap w2 !! x) as [b'|] eqn:E; [|eauto].
    specialize (H1' x b' Hx E). destruct (H2 x b' E) as (b'' & Hb'' & Hsb). simplify_eq.
    apply delivered_false. rewrite (sb_delivered _ _ Hsb). by apply delivered_false.
Qed.

Lemma quiet_heap w w' :
  rw_heap w' = rw_heap w → rw_new_blocks w' = rw_new_blocks w → rw_root_block w' = rw_root_block w → quiet w w'.
Proof. intros Hh. split; try done; rewrite Hh; [eauto using same_block_refl|congruence]. Qed.

Lemma quiet_update w r f :
  (∀ b, rw_heap w !! r = Some b → same_block b (f b)) → quiet w (update_block r f w).
Proof.
  intros Hf. split; simpl; try done.
  - intros x b Hx. destruct (decide (x = r)) as [->|].
    + exists (f b). rewrite lookup_alter_eq, Hx. split; [done|]. by apply Hf.
    + exists b. rewrite lookup_alter_ne by done. split; [done|reflexivity].
  - intros x b Hx [[-> (b' & Hb & _)]|[_ Hb]]%lookup_alter_Some; congruence.
Qed.

(** New cells only. *)
Record grows (w w' : ReceiverWorld) : Prop := {
  gw_cells x b : rw_heap w !! x = Some b → rw_heap w' !! x = Some b;
  gw_new x b : rw_heap w !! x = None → rw_heap w' !! x = Some b → rb_state b = Null ∧ rb_in_db b = false;
  gw_queue : rw_blocks_to_run w' = rw_blocks_to_run w;
  gw_log : rw_new_blocks w' = rw_new_blocks w;
  gw_root : rw_root_block w' = rw_root_block w;
}.

Lemma grows_quiet w w' : grows w w' → quiet w w'.
Proof.
  intros []. split; try done; [eauto using same_block_refl|]. intros x b Hx Hb.
  destruct (gw_new0 x b Hx Hb) as [-> _]. done.
Qed.

Lemma grows_refl w : grows w w.
Proof. split; try done. congruence. Qed.

Section operations.
Context {X : CatchainExternal} (cfg : ReceiverConfig).
Implicit Types (w : ReceiverWorld) (B : Borrows) (self ref : N) (b : ReceivedBlock).

Lemma call_source_inv B w id op w' : call_source B w id op = Done w' → ∃ l r, w' = with_sources l r w.
Proof. unfold call_source. intros H. outcome_step H. outcome_step H. outcome_step H. injection H as <-. eauto. Qed.

Lemma self_block_inv w self b : self_block w self = Done b → rw_heap w !! self = Some b.
Proof. unfold self_block, unwrap. by destruct (rw_heap w !! self); intros [= ->]. Qed.

Lemma borrow_block_inv B w ref b :
  borrow_block B w ref = Done b → ref ∉ mut_blocks B ∧ rw_heap w !! ref = Some b.
Proof.
  unfold borrow_block, assert_that. destruct (bool_decide _) eqn:E; [|done]. run.
  intros H%self_block_inv. by apply bool_decide_eq_true in E.
Qed.

Lemma borrow_block_mut_inv B w ref b :
  borrow_block_mut B w ref = Done b → ref ∉ mut_blocks B ∧ rw_heap w !! ref = Some b.
Proof.
  unfold borrow_block_mut, assert_that. destruct (bool_decide (ref ∉ mut_blocks B)) eqn:E; [|done].
  destruct (bool_decide (ref ∉ shared_blocks B)); [|done]. run.
  intros H%self_block_inv. by apply bool_decide_eq_true in E.
Qed.

Section invariant.
Context (E F : gset N) (clk : nat → Z) (rem : list N).
Local Abbreviation Inv := (graph_inv_of E F clk rem).

Lemma Receiver_create_block_inv B w dep r w' :
  Inv w → Receiver_create_block cfg B w dep = Done (r, w') →
  Inv w' ∧ is_Some (rw_heap w' !! r) ∧ grows w w'.
Proof.
  intros HI. unfold Receiver_create_block. destruct (dep_height dep =? 0)%Z.
  { intros [= <- <-]. split_and!; [done| |apply grows_refl]. destruct (gr_root _ _ _ _ _ _ _ _ _ HI) as (b & ? & _).
    eauto. }
  intros H. outcome_step H. rename a into id, E0 into Eid.
  destruct (rw_blocks w !! get_block_id_hash id) as [c|] eqn:Ek.
  { injection H as <- <-. split_and!; [done| |apply grows_refl].
    destruct (gr_known _ _ _ _ _ _ _ _ _ HI _ _ Ek) as (b & ? & _). eauto. }
  outcome_step H. outcome_step H. injection H as <- <-. rename a0 into w2, E0 into Hc, E1 into Ha.
  unfold ReceivedBlock_create in Hc. rewrite Eid in Hc. run in Hc. unfold alloc_block in Hc. cbn beta iota zeta in Hc.
  outcome_step Hc. injection Hc as <-. apply call_source_inv in E0 as (l & rc & ->).
  set (blank := ReceivedBlock_with_id _ _ _ _ _ _ _) in *.
  unfold add_received_block in Ha. outcome_step Ha. injection Ha as <-.
  apply borrow_block_inv in E0 as [_ Hb]. simpl in Hb. rewrite lookup_insert_eq in Hb. injection Hb as <-.
  pose proof (graph_inv_alloc _ _ _ _ _ _ _ _ _ HI blank eq_refl eq_refl eq_refl eq_refl eq_refl eq_refl) as HI'.
  split_and!.
  - unfold graph_inv_of. simpl. destruct HI'. split; try done.
    intros k x [[<- <-]|[_ Hx]]%lookup_insert_Some; [|eauto]. exists blank. by rewrite lookup_insert_eq.
  - simpl. rewrite lookup_insert_eq. eauto.
  - assert (Hnone : rw_heap w !! rw_next_cell w = None).
    { destruct (rw_heap w !! rw_next_cell w) eqn:Hx; [|done]. apply (gr_fresh _ _ _ _ _ _ _ _ _ HI) in Hx. lia. }
    split; simpl; try done.
    + intros x b Hx. rewrite lookup_insert_ne; [done|]. intros <-. congruence.
    + intros x b Hx [[<- <-]|[_ Hb]]%lookup_insert_Some; [done|congruence].
Qed.

(** *** Ill blocks *)

(** Some cells became ill. *)
Record ills (w w' : ReceiverWorld) : Prop := {
  il_cells x b : rw_heap w !! x = Some b →
    rw_heap w' !! x = Some b ∨ rb_state b ≠ Delivered ∧ rw_heap w' !! x = Some (set_state Ill b);
  il_new x : rw_heap w !! x = None → rw_heap w' !! x = None;
  il_queue : rw_blocks_to_run w' = rw_blocks_to_run w;
  il_log : rw_new_blocks w' = rw_new_blocks w;
  il_root : rw_root_block w' = rw_root_block w;
}.

Lemma ills_refl w : ills w w.
Proof. split; auto. Qed.

Lemma ills_trans w1 w2 w3 : ills w1 w2 → ills w2 w3 → ills w1 w3.
Proof.
  intros [H1 N1 ? ? ?] [H2 N2 ? ? ?]. split; try congruence; [|auto]. intros x b Hx.
  destruct (H1 x b Hx) as [Hb|[Hs Hb]]; [by apply H2|]. right. split; [done|].
  destruct (H2 _ _ Hb) as [?|[_ ?]]; done.
Qed.

Lemma ills_quiet w w' : ills w w' → quiet w w'.
Proof.
  intros []. split; try done; [|intros x b Hx Hb; rewrite il_new0 in Hb; done].
  intros x b Hx. destruct (il_cells0 x b Hx) as [Hb|[Hs Hb]]; [exists b; split; [done|reflexivity]|].
  eexists. split; [done|]. apply delivered_false in Hs. split; try done; simpl; congruence.
Qed.

Lemma ills_undelivered w w' x b :
  ills w w' → rw_heap w !! x = Some b → rb_state b ≠ Delivered →
  ∃ b', rw_heap w' !! x = Some b' ∧ rb_state b' ≠ Delivered.
Proof. intros Hi Hx Hs. destruct (il_cells _ _ Hi x b Hx) as [?|[_ ?]]; eauto. Qed.

(** The body of a loop over cells only turns cells ill. *)
Lemma mfoldl_ills E' F' clk' rem' (f : ReceiverWorld → N → outcome ReceiverWorld) l w w' :
  graph_inv_of E' F' clk' rem' w → Forall (λ r, ∃ b, rw_heap w !! r = Some b ∧ rb_state b ≠ Delivered) l →
  (∀ r w w', graph_inv_of E' F' clk' rem' w → (∃ b, rw_heap w !! r = Some b ∧ rb_state b ≠ Delivered) →
     f w r = Done w' → graph_inv_of E' F' clk' rem' w' ∧ ills w w') →
  mfoldl f w l = Done w' → graph_inv_of E' F' clk' rem' w' ∧ ills w w'.
Proof.
  intros HI Hl Hf. revert w HI Hl. induction l as [|r l IH]; intros w HI Hl H; simpl in H.
  { injection H as <-. split; [done|apply ills_refl]. }
  outcome_step H. apply Forall_cons_1 in Hl as [Hr Hl]. destruct (Hf _ _ _ HI Hr E0) as [HI' Hi].
  destruct (IH _ HI') as [? ?]; [|done|split; [done|by eapply ills_trans]].
  eapply list.Forall_impl; [exact Hl|]. intros y (b & Hy & Hs). by apply (ills_undelivered w a y b).
Qed.
End invariant.

Lemma set_ill_loop_inv E F clk rem fuel B w self w' :
  graph_inv_of E F clk rem w → (∃ b, rw_heap w !! self = Some b ∧ rb_state b ≠ Delivered) →
  set_ill_loop fuel B w self = Done w' →
  graph_inv_of (E ∖ {[self]}) F clk rem w' ∧ ills w w' ∧ (∃ b, rw_heap w' !! self = Some b ∧ rb_state b = Ill).
Proof.
  revert E B w self w'. induction fuel as [|fuel IH]; intros E B w self w' HI (b & Hb & Hs) H; [done|].
  cbn [set_ill_loop] in H. outcome_step H. apply self_block_inv in E0. rewrite Hb in E0. injection E0 as <-.
  destruct (bool_decide_reflect (rb_state b = Ill)) as [Hill|Hill].
  { injection H as <-. split_and!; [|apply ills_refl|eauto].
    eapply graph_inv_restore; [exact HI|exact Hb| |congruence]. unfold cell_ok. by rewrite Hill. }
  outcome_step H. apply call_source_inv in E0 as (l & rc & ->).
  set (w1 := update_block self (set_state Ill) (with_sources l rc w)) in *.
  assert (Hb1 : rw_heap w1 !! self = Some (set_state Ill b)) by (simpl; by rewrite lookup_alter_eq, Hb).
  assert (Hi1 : ills w w1).
  { split; simpl; try done; intros x.
    - intros c Hx. destruct (decide (x = self)) as [->|]; [|left; by rewrite lookup_alter_ne].
      rewrite Hb in Hx. injection Hx as <-. right. split; [done|]. by rewrite lookup_alter_eq, Hb.
    - intros Hx. destruct (decide (x = self)) as [->|]; [congruence|by rewrite lookup_alter_ne]. }
  assert (HI1 : graph_inv_of (E ∖ {[self]}) F clk rem w1).
  { assert (Hu : graph_inv_of (E ∪ {[self]}) F clk rem w1).
    { apply (graph_inv_update _ _ _ _ _ _ _ _ _ HI (set_state Ill) self b Hb).
      - apply delivered_false in Hs. split; simpl; try done; congruence.
      - intros x. change (parents (set_state Ill b)) with (parents b). by eapply (gr_closed _ _ _ _ _ _ _ _ _ HI).
      - intros j. exact (gr_clock _ _ _ _ _ _ _ _ _ HI self b j Hb). }
    apply (graph_inv_weaken ((E ∪ {[self]}) ∖ {[self]}) F); [|set_solver|done].
    by apply (graph_inv_restore _ _ _ _ _ _ _ _ _ Hu self _ Hb1). }
  apply mfoldl_ills with (E' := E ∖ {[self]}) (F' := F) (clk' := clk) (rem' := rem) in H as [HI' Hi'].
  - split_and!; [done|by eapply ills_trans|]. destruct (il_cells _ _ Hi' _ _ Hb1) as [?|[_ ?]]; eauto.
  - done.
  - apply list.Forall_forall. intros r Hr.
    assert (Hrev : r ∈ rev_at (rw_heap w) self) by (unfold rev_at; by rewrite Hb).
    destruct (gr_rev _ _ _ _ _ _ _ _ _ HI _ _ Hrev) as (c & Hc & Hst).
    apply (ills_undelivered w w1 r c); [done..|]. destruct Hst; congruence.
  - intros r w2 w3 HI2 Hr H2. outcome_step H2. destruct (IH _ _ _ _ _ HI2 Hr H2) as (HI3 & Hi3 & _).
    split; [|done]. eapply graph_inv_weaken; [exact HI3|set_solver|done].
Qed.

Lemma set_ill_inv E F clk rem B w self w' :
  graph_inv_of E F clk rem w → (∃ b, rw_heap w !! self = Some b ∧ rb_state b ≠ Delivered) →
  ReceivedBlock_set_ill B w self = Done w' →
  graph_inv_of (E ∖ {[self]}) F clk rem w' ∧ ills w w' ∧ (∃ b, rw_heap w' !! self = Some b ∧ rb_state b = Ill).
Proof. apply set_ill_loop_inv. Qed.
End operations.
