(* ===== verification/BlockInitialize.v ===== *)
(** * Catchain: a received block is initialised

    [ReceivedBlock_initialize] and the operations that create blocks keep the
    invariant of the block graph. *)

From S2P Require Import Prelude ReceivedBlock ReceiverSource BlockGraph BlockGraphFacts.

Section initialize.
Context {X : CatchainExternal} (cfg : ReceiverConfig).
Implicit Types (w : ReceiverWorld) (B : Borrows) (self ref : N) (b : ReceivedBlock).

(** A block that is not initialised is no reverse dependency and is not queued. *)
Lemma null_not_rev E F clk rem w self b :
  graph_inv_of E F clk rem w → rw_heap w !! self = Some b → rb_state b = Null →
  (∀ x, self ∉ rev_at (rw_heap w) x) ∧ self ∉ rw_blocks_to_run w.
Proof.
  intros HI Hb Hs. split.
  - intros x Hx. destruct (gr_rev _ _ _ _ _ _ _ _ _ HI _ _ Hx) as (c & Hc & Hst). simplify_eq. destruct Hst; congruence.
  - intros Hq. destruct (gr_queue _ _ _ _ _ _ _ _ _ HI _ Hq) as (c & Hc & Hn & _). simplify_eq.
Qed.

(** ** The parents are linked *)

(** The cell while [initialize] fills it. *)
Record building (b0 b : ReceivedBlock) : Prop := {
  bu_state : rb_state b = Null;
  bu_heights : rb_forks_dep_heights b = [];
  bu_in_db : rb_in_db b = rb_in_db b0;
  bu_hash : rb_hash b = rb_hash b0;
  bu_height : rb_height b = rb_height b0;
  bu_source : rb_source_id b = rb_source_id b0;
  bu_fork : rb_fork_id b = 0;
}.

Lemma building_same b0 b : rb_state b0 = Null → building b0 b → same_block b0 b.
Proof.
  intros H0 []. split; try done; unfold ReceivedBlock_is_delivered; rewrite H0; [by rewrite bu_state0|done].
Qed.

Lemma building_clock b0 b j : building b0 b → clock b j = 0%Z.
Proof. intros []. unfold clock. by rewrite bu_heights0. Qed.

(** The state of the world while the parents are created. *)
Definition linking self b0 (ps : list N) w : Prop :=
  graph_ok_but {[self]} w ∧ ∃ b, rw_heap w !! self = Some b ∧ building b0 b ∧ parents b = ps.

Lemma push_dep_inv B self b0 p ds w dep w' :
  graph_ok_but {[self]} w →
  (∃ b, rw_heap w !! self = Some b ∧ building b0 b ∧ rb_prev b = Some p ∧ rb_block_deps b = ds) →
  push_dep cfg B self w dep = Done w' →
  graph_ok_but {[self]} w' ∧ quiet w w' ∧ rw_blocks_to_run w' = rw_blocks_to_run w ∧
  ∃ b d, rw_heap w' !! self = Some b ∧ building b0 b ∧ rb_prev b = Some p ∧ rb_block_deps b = ds ++ [d].
Proof.
  intros HI (b & Hb & Hbu & Hp & Hd) H. unfold push_dep in H. outcome_step H. destruct a as [d w1]. simpl in H.
  injection H as <-. destruct (Receiver_create_block_inv cfg _ _ _ _ _ _ _ _ _ HI E) as (HI1 & Hd1 & Hg).
  pose proof (gw_cells _ _ Hg _ _ Hb) as Hb1. set (f := λ b, set_block_deps (rb_block_deps b ++ [d]) b).
  assert (Hbu' : building b0 (f b)) by (by destruct Hbu).
  assert (Hsb : same_block b (f b)).
  { destruct Hbu as [Hs]. split; try done; unfold ReceivedBlock_is_delivered; simpl; by rewrite Hs. }
  split_and!.
  - apply (graph_inv_weaken ({[self]} ∪ {[self]}) ∅); [|set_solver|done].
    apply (graph_inv_update _ _ _ _ _ _ _ _ _ HI1 f self b Hb1).
    + destruct Hbu as [Hs]. split; simpl; try done; [unfold ReceivedBlock_is_delivered; by rewrite Hs].
    + intros x. unfold parents, f. simpl. rewrite Hp. intros [->|[Hx|Hx]%elem_of_app]%elem_of_cons.
      * eapply (gr_closed _ _ _ _ _ _ _ _ _ HI1 _ _ _ Hb1). unfold parents. rewrite Hp. set_solver.
      * eapply (gr_closed _ _ _ _ _ _ _ _ _ HI1 _ _ _ Hb1). unfold parents. rewrite Hp. set_solver.
      * by apply list_elem_of_singleton in Hx as ->.
    + intros j. rewrite (building_clock b0) by done. lia.
  - etrans; [by apply grows_quiet|]. apply quiet_update. intros c Hc. by simplify_eq.
  - simpl. apply (gw_queue _ _ Hg).
  - exists (f b), d. simpl. rewrite lookup_alter_eq, Hb1. split_and!; try done. simpl. by rewrite Hd.
Qed.

Lemma push_deps_inv B self b0 p ds w deps w' :
  graph_ok_but {[self]} w →
  (∃ b, rw_heap w !! self = Some b ∧ building b0 b ∧ rb_prev b = Some p ∧ rb_block_deps b = ds) →
  mfoldl (push_dep cfg B self) w deps = Done w' →
  graph_ok_but {[self]} w' ∧ quiet w w' ∧ rw_blocks_to_run w' = rw_blocks_to_run w ∧
  ∃ b ds', rw_heap w' !! self = Some b ∧ building b0 b ∧ rb_prev b = Some p ∧ rb_block_deps b = ds ++ ds' ∧
    length ds' = length deps.
Proof.
  revert w ds. induction deps as [|dep deps IH]; intros w ds HI Hb H; simpl in H.
  { injection H as <-. split_and!; try done. destruct Hb as (b & ? & ? & ? & ?). exists b, [].
    by rewrite app_nil_r. }
  outcome_step H. destruct (push_dep_inv _ _ _ _ _ _ _ _ HI Hb E) as (HI1 & Hq1 & Hr1 & b1 & d & H1 & H2 & H3 & H4).
  destruct (IH _ _ HI1 (ex_intro _ b1 (conj H1 (conj H2 (conj H3 H4)))) H) as (HI2 & Hq2 & Hr2 & b2 & ds' & K1 & K2 & K3 & K4 & K5).
  split_and!; [done|by etrans|congruence|]. exists b2, (d :: ds'). rewrite K4, <- app_assoc. simpl.
  split_and!; try done. by rewrite K5.
Qed.

(** ** The parents are asked *)
Record asked self (all done : list N) (pending : N) b0 (w0 w : ReceiverWorld) : Prop := {
  as_inv : graph_ok_but {[self]} w;
  as_quiet : quiet w0 w;
  as_queue : rw_blocks_to_run w = rw_blocks_to_run w0;
  as_pending : pending = N.of_nat (waiting (rw_heap w) done);
  as_rev x : delivered_at (rw_heap w) x = false → occ self (rev_at (rw_heap w) x) = occ x done;
  as_block : ∃ b, rw_heap w !! self = Some b ∧ rb_state b = Initialized ∧ parents b = all ∧
    is_Some (rb_prev b) ∧ rb_in_db b = rb_in_db b0 ∧ rb_fork_id b = 0 ∧ ∀ j, clock b j = max_clock (rw_heap w) done j;
}.

Lemma graph_inv_push_rev E F clk rem root h next known queue self b parent :
  graph_inv E F clk rem root h next known queue → self ∈ E → h !! self = Some b → rb_state b = Initialized →
  delivered_at h parent = false →
  graph_inv E F clk rem root (alter (λ p, set_rev_deps (rb_rev_deps p ++ [self]) p) parent h) next known queue.
Proof.
  intros HI HE Hb Hs Hp. set (f := λ p, set_rev_deps (rb_rev_deps p ++ [self]) p).
  assert (Hdel : ∀ x, delivered_at (alter f parent h) x = delivered_at h x) by (intros; by apply delivered_at_alter).
  assert (Hclk : ∀ x j, clock_at (alter f parent h) x j = clock_at h x j) by (intros; by apply clock_at_alter).
  assert (Hrev : ∀ x, rev_at (alter f parent h) x = rev_at h x ++ (if decide (x = parent ∧ is_Some (h !! x)) then [self] else [])).
  { intros x. unfold rev_at. destruct (decide (x = parent)) as [->|Hne].
    - rewrite lookup_alter_eq. destruct (h !! parent); simpl; [by rewrite decide_True by eauto|].
      by rewrite decide_False by (by intros [_ [? ?]]).
    - rewrite lookup_alter_ne by done. rewrite decide_False by naive_solver. by rewrite app_nil_r. }
  assert (Hlook : ∀ x c', alter f parent h !! x = Some c' → ∃ c, h !! x = Some c ∧ c' = set_rev_deps (rb_rev_deps c') c).
  { intros x c' [[-> (c & Hc & ->)]|[_ Hc]]%lookup_alter_Some; [by exists c|]. exists c'. split; [done|]. by destruct c'. }
  assert (Hlook' : ∀ x c, h !! x = Some c → ∃ l, alter f parent h !! x = Some (set_rev_deps l c)).
  { intros x c Hc. destruct (decide (x = parent)) as [->|]; [rewrite lookup_alter_eq, Hc; simpl; by eexists|].
    rewrite lookup_alter_ne, Hc by done. exists (rb_rev_deps c). by destruct c. }
  destruct HI as [gr_fresh0 gr_root0 gr_closed0 gr_known0 gr_rev0 gr_rev_delivered0 gr_clock0 gr_cell0 gr_ready0 gr_queue0].
  split.
  - intros x c (c0 & Hc & _)%Hlook. eauto.
  - destruct gr_root0 as (c & Hc & ? & ?). destruct (Hlook' _ _ Hc) as (l & ->). by eexists.
  - intros x c y (c0 & Hc & ->)%Hlook Hy. destruct (gr_closed0 _ _ _ Hc Hy) as [d Hd].
    destruct (Hlook' _ _ Hd) as (l & ->). by eexists.
  - intros k x (c & Hc & ?)%gr_known0. destruct (Hlook' _ _ Hc) as (l & ->). by eexists.
  - intros x r. rewrite Hrev. intros [Hr|Hr]%elem_of_app.
    + destruct (gr_rev0 _ _ Hr) as (c & Hc & ?). destruct (Hlook' _ _ Hc) as (l & ->). by eexists.
    + destruct (decide _); [|set_solver]. apply list_elem_of_singleton in Hr as ->.
      destruct (Hlook' _ _ Hb) as (l & ->). eexists. split; [done|]. by left.
  - intros x Hx. rewrite Hdel. intros Hd. rewrite Hrev, gr_rev_delivered0 by done.
    rewrite decide_False; [done|]. intros [-> _]. congruence.
  - intros x c j (c0 & Hc & ->)%Hlook. exact (gr_clock0 _ _ j Hc).
  - intros x c Hx (c0 & Hc & ->)%Hlook. eapply (cell_ok_ext _ _ _ h); [done..| |exact (gr_cell0 _ _ Hx Hc)].
    intros y. rewrite Hrev, occ_app. destruct (decide _); [|unfold occ at 2; simpl; lia]. rewrite occ_singleton.
    rewrite decide_False; [lia|]. intros <-. done.
  - intros x c Hx (c0 & Hc & ->)%Hlook. exact (gr_ready0 _ _ Hx Hc).
  - intros x (c & Hc & ? & Hq)%gr_queue0. destruct (Hlook' _ _ Hc) as (l & ->). eexists. split; [done|]. by split.
Qed.

Lemma add_parent_inv B self all ps p pending pending' b0 w0 w w' :
  asked self all ps pending b0 w0 w → (length ps < length all)%nat → N.of_nat (length all) < two64 → p ∈ all →
  add_parent B self (pending, w) p = Done (pending', w') → asked self all (ps ++ [p]) pending' b0 w0 w'.
Proof.
  intros [HI Hq Hqu Hpe Hrev (b & Hb & Hs & Hall & Hprev & Hdb & Hfk & Hck)] Hlen Htwo Hin H. unfold add_parent in H.
  outcome_step H. apply borrow_block_inv in E as [_ Ha].
  assert (Hself : delivered_at (rw_heap w) self = false).
  { unfold delivered_at. rewrite Hb. apply delivered_false. congruence. }
  destruct (ReceivedBlock_is_delivered a) eqn:Ed.
  - injection H as <- <-.
    set (f := λ b, set_forks_dep_heights (update_forks_dependency_heights (rb_forks_dep_heights b) (rb_forks_dep_heights a)) b).
    assert (Hdb' : ReceivedBlock_is_delivered b = false) by (apply delivered_false; congruence).
    assert (Hck' : ∀ j, clock (f b) j = Z.max (clock b j) (clock a j)).
    { intros j. apply update_heights_lookup. intros k. exact (gr_clock _ _ _ _ _ _ _ _ _ HI _ _ k Hb). }
    assert (Hdel : ∀ x, delivered_at (alter f self (rw_heap w)) x = delivered_at (rw_heap w) x)
      by (intros; by apply delivered_at_alter).
    assert (Hclk : ∀ x j, clock_at (alter f self (rw_heap w)) x j = clock_at (rw_heap w) x j).
    { intros. apply clock_at_alter. intros c Hc. simplify_eq. split; [done|congruence]. }
    assert (Hrv : ∀ x, rev_at (alter f self (rw_heap w)) x = rev_at (rw_heap w) x) by (intros; by apply rev_at_alter).
    assert (Hp : delivered_at (rw_heap w) p = true) by (unfold delivered_at; by rewrite Ha).
    split; simpl.
    + apply (graph_inv_weaken ({[self]} ∪ {[self]}) ∅); [|set_solver|done].
      apply (graph_inv_update _ _ _ _ _ _ _ _ _ HI f self b Hb).
      * split; try done. congruence.
      * intros x Hx. exact (gr_closed _ _ _ _ _ _ _ _ _ HI _ _ x Hb Hx).
      * intros j. rewrite Hck'. pose proof (gr_clock _ _ _ _ _ _ _ _ _ HI _ _ j Hb). lia.
    + etrans; [exact Hq|]. apply quiet_update. intros c Hc. simplify_eq. split; try done. congruence.
    + done.
    + rewrite Hpe, (waiting_ext (rw_heap w) (alter f self (rw_heap w))) by (intros; apply Hdel).
      rewrite waiting_app, waiting_cons, Hp. f_equal. unfold waiting at 3. simpl. lia.
    + intros x. rewrite Hdel, Hrv. intros Hx. rewrite Hrev, occ_app, occ_singleton by done.
      rewrite decide_False; [lia|]. intros <-. congruence.
    + exists (f b). rewrite lookup_alter_eq, Hb. split_and!; try done. intros j. rewrite Hck', Hck.
      rewrite (max_clock_ext (rw_heap w) (alter f self (rw_heap w))) by (intros; apply Hclk).
      destruct (max_clock_snoc (rw_heap w) ps p j) as [->|Hneg]; unfold clock_at in *; rewrite Ha, Ed in *; [done|].
      pose proof (gr_clock _ _ _ _ _ _ _ _ _ HI _ _ j Ha). lia.
  - outcome_step H. injection H as <- <-. apply borrow_block_mut_inv in E as [_ Ha']. simplify_eq.
    set (f := λ p, set_rev_deps (rb_rev_deps p ++ [self]) p).
    assert (Hp : delivered_at (rw_heap w) p = false) by (unfold delivered_at; by rewrite Ha).
    assert (Hdel : ∀ x, delivered_at (alter f p (rw_heap w)) x = delivered_at (rw_heap w) x)
      by (intros; by apply delivered_at_alter).
    assert (Hclk : ∀ x j, clock_at (alter f p (rw_heap w)) x j = clock_at (rw_heap w) x j)
      by (intros; by apply clock_at_alter).
    assert (Hw : waiting (alter f p (rw_heap w)) (ps ++ [p]) = S (waiting (rw_heap w) ps)).
    { rewrite (waiting_ext (rw_heap w) (alter f p (rw_heap w))) by (intros; apply Hdel). rewrite waiting_app, waiting_cons, Hp. unfold waiting at 2. simpl. lia. }
    pose proof (waiting_le (rw_heap w) ps).
    split; simpl.
    + by eapply graph_inv_push_rev; [exact HI|set_solver|..].
    + etrans; [exact Hq|]. apply quiet_update. intros c Hc. by split.
    + done.
    + rewrite Hw. unfold u64_add. rewrite N.mod_small by lia. lia.
    + intros x. rewrite Hdel. intros Hx. rewrite occ_app, occ_singleton, <- (Hrev x Hx). unfold rev_at.
      destruct (decide (x = p)) as [->|Hne].
      * rewrite decide_True by done. rewrite lookup_alter_eq, Ha. simpl. rewrite occ_app, occ_singleton, decide_True by done.
        done.
      * rewrite decide_False by done. rewrite lookup_alter_ne by done. lia.
    + destruct (decide (self = p)) as [->|Hne].
      * exists (f b). rewrite lookup_alter_eq, Hb. split_and!; try done. intros j. change (clock (f b) j) with (clock b j).
        rewrite Hck, (max_clock_ext (rw_heap w) (alter f p (rw_heap w))) by (intros; apply Hclk).
        destruct (max_clock_snoc (rw_heap w) ps p j) as [->|Hneg]; rewrite clock_at_undelivered in * by done; [|lia].
        pose proof (max_clock_nonneg (rw_heap w) ps j). lia.
      * exists b. rewrite lookup_alter_ne, Hb by done. split_and!; try done. intros j.
        rewrite Hck, (max_clock_ext (rw_heap w) (alter f p (rw_heap w))) by (intros; apply Hclk).
        destruct (max_clock_snoc (rw_heap w) ps p j) as [->|Hneg]; rewrite clock_at_undelivered in * by done; [|lia].
        pose proof (max_clock_nonneg (rw_heap w) ps j). lia.
Qed.

Lemma add_parents_inv B self all rest ps pending pending' b0 w0 w w' :
  asked self all ps pending b0 w0 w → all = ps ++ rest → N.of_nat (length all) < two64 →
  mfoldl (add_parent B self) (pending, w) rest = Done (pending', w') → asked self all all pending' b0 w0 w'.
Proof.
  revert ps pending w. induction rest as [|p rest IH]; intros ps pending w Ha Hall Hlen H; simpl in H.
  { injection H as <- <-. rewrite app_nil_r in Hall. by subst. }
  outcome_step H. destruct a as [pending1 w1].
  assert (Ha1 : asked self all (ps ++ [p]) pending1 b0 w0 w1).
  { eapply add_parent_inv; [exact Ha| |done| |exact E]; rewrite Hall; [rewrite length_app; simpl; lia|set_solver]. }
  eapply (IH (ps ++ [p])); [exact Ha1|by rewrite Hall, <- app_assoc|done|exact H].
Qed.

Lemma graph_inv_enqueue E F clk rem root h next known queue r b :
  graph_inv E F clk rem root h next known queue → h !! r = Some b → rb_state b ≠ Null →
  (r ∉ E → rb_state b = Initialized → rb_pending_deps b = 0 ∧ rb_in_db b = true) →
  graph_inv E F clk rem root h next known (queue ++ [r]).
Proof.
  intros [] Hb Hn Hr. split; try done.
  - intros x c ?????. apply elem_of_app. left. eauto.
  - intros x [Hx|Hx]%elem_of_app; [eauto|]. apply list_elem_of_singleton in Hx as ->. eauto.
Qed.

(** The cell satisfies the invariant once all parents are asked. *)
Lemma asked_ok self all pending b0 w0 w (queued : bool) :
  asked self all all pending b0 w0 w → N.of_nat (length all) < two64 → self ∉ rw_blocks_to_run w →
  queued = (pending =? 0) && rb_in_db b0 →
  let w' := update_block self (set_pending_deps pending) w in
  graph_ok (if queued then run_block self w' else w') ∧ quiet w (if queued then run_block self w' else w') ∧
  ∃ b, rw_heap w' !! self = Some b ∧ rb_state b = Initialized.
Proof.
  intros [HI Hq Hqu Hpe Hrev (b & Hb & Hs & Hall & Hprev & Hdb & Hfk & Hck)] Hlen Hnq Hqd w'.
  assert (Hb' : rw_heap w' !! self = Some (set_pending_deps pending b)) by (simpl; by rewrite lookup_alter_eq, Hb).
  assert (HI' : graph_ok_but {[self]} w').
  { apply (graph_inv_weaken ({[self]} ∪ {[self]}) ∅); [|set_solver|done].
    apply (graph_inv_update _ _ _ _ _ _ _ _ _ HI (set_pending_deps pending) self b Hb); [by split| |].
    - intros x Hx. exact (gr_closed _ _ _ _ _ _ _ _ _ HI _ _ x Hb Hx).
    - intros j. exact (gr_clock _ _ _ _ _ _ _ _ _ HI _ _ j Hb). }
  assert (Hok : cell_ok (λ _, 0%Z) [] (rw_root_block w') (rw_heap w') self (set_pending_deps pending b)).
  { unfold cell_ok. cbn [rb_state rb_prev rb_pending_deps set_pending_deps]. rewrite Hs. unfold w'.
    cbn [update_block with_heap rw_heap]. change (parents (set_pending_deps pending b)) with (parents b). rewrite Hall.
    rewrite (waiting_ext (rw_heap w) (alter _ self (rw_heap w))) by (intros; by apply delivered_at_alter).
    pose proof (waiting_le (rw_heap w) all). split_and!; [done|lia|rewrite Hpe; f_equal; unfold occ; simpl; lia| |].
    - intros x. rewrite delivered_at_alter, rev_at_alter by done. apply Hrev.
    - intros j. rewrite (max_clock_ext (rw_heap w)) by (intros; by apply clock_at_alter).
      change (clock _ j) with (clock b j). rewrite Hck, decide_False by set_solver.
      pose proof (max_clock_nonneg (rw_heap w) all j). lia. }
  assert (Hqw : quiet w w') by (apply quiet_update; intros; by split).
  split_and!; [| |eauto].
  - destruct queued.
    + apply (graph_inv_weaken ({[self]} ∖ {[self]}) ∅); [|set_solver|done].
      eapply graph_inv_restore; [eapply graph_inv_enqueue; [exact HI'|exact Hb'|simpl; congruence|set_solver]
        |exact Hb'|exact Hok|].
      intros _. simpl. split; [set_solver|]. intros _. symmetry in Hqd. apply andb_true_iff in Hqd as [?%N.eqb_eq ?].
      split; [done|congruence].
    + apply (graph_inv_weaken ({[self]} ∖ {[self]}) ∅); [|set_solver|done]. eapply graph_inv_restore; [exact HI'|exact Hb'|exact Hok|].
      intros _. simpl. split; [|done]. intros [-> Hd]. rewrite Hdb in Hd. rewrite Hd in Hqd. done.
  - destruct queued; [|done]. etrans; [exact Hqw|]. by apply quiet_heap.
Qed.

Lemma initialize_inv B w self block payload b res w' :
  graph_ok w → N.of_nat (length (blk_deps block)) + 1 < two64 → rw_heap w !! self = Some b →
  ReceivedBlock_initialize cfg B w self block payload = Done (res, w') →
  graph_ok w' ∧ quiet w w' ∧ ∃ b', rw_heap w' !! self = Some b' ∧ rb_state b' ≠ Null ∧ (res = Err → rb_state b' = Ill).
Proof.
  intros HI Hlen Hb H. unfold ReceivedBlock_initialize in H. outcome_step H. apply self_block_inv in E.
  rewrite Hb in E. injection E as <-. destruct (bool_decide_reflect (rb_state b = Null)) as [Hnull|Hnull]; cbn [negb] in H.
  2:{ injection H as <- <-. split_and!; [done..|]. by exists b. }
  outcome_step H. clear E a.
  set (w1 := update_block self (set_payload payload) w) in *.
  assert (HI1 : graph_ok w1) by (by apply (graph_inv_inert _ _ _ _ _ _ _ _ _ HI)).
  assert (Hb1 : rw_heap w1 !! self = Some (set_payload payload b)) by (simpl; by rewrite lookup_alter_eq, Hb).
  assert (Hq1 : quiet w w1).
  { apply quiet_update. intros c Hc. simplify_eq. split; try done. unfold ReceivedBlock_is_delivered. by rewrite Hnull. }
  outcome_step H. destruct a as [prev w2].
  destruct (Receiver_create_block_inv cfg _ _ _ _ _ _ _ _ _ HI1 E) as (HI2 & Hp2 & Hg2).
  pose proof (gw_cells _ _ Hg2 _ _ Hb1) as Hb2. set (b1 := set_payload payload b) in *.
  set (w3 := update_block self (set_prev (Some prev)) w2) in *.
  pose proof (gr_cell _ _ _ _ _ _ _ _ _ HI2 self b1 ltac:(set_solver) Hb2) as Hc1.
  unfold cell_ok in Hc1. simpl in Hc1. rewrite Hnull in Hc1. destruct Hc1 as (_ & Hd1 & _ & Hf1 & Hfk1).
  assert (Hb3 : rw_heap w3 !! self = Some (set_prev (Some prev) b1)) by (simpl; by rewrite lookup_alter_eq, Hb2).
  assert (HI3 : graph_ok_but {[self]} w3).
  { apply (graph_inv_weaken (∅ ∪ {[self]}) ∅); [|set_solver|done].
    apply (graph_inv_update _ _ _ _ _ _ _ _ _ HI2 (set_prev (Some prev)) self b1 Hb2).
    - split; simpl; try done. unfold ReceivedBlock_is_delivered. simpl. by rewrite Hnull.
    - intros x. unfold parents. simpl. rewrite Hd1. intros ->%list_elem_of_singleton. done.
    - intros j. unfold clock. simpl. by rewrite Hf1. }
  assert (Hq3 : quiet w w3).
  { etrans; [exact Hq1|]. etrans; [by apply grows_quiet|]. apply quiet_update. intros c Hc. simplify_eq.
    split; try done. unfold ReceivedBlock_is_delivered. simpl. by rewrite Hnull. }
  assert (Hbu3 : building b (set_prev (Some prev) b1)) by (by split).
  outcome_step H. rename a into w4.
  destruct (push_deps_inv _ _ _ prev [] _ _ _ HI3 (ex_intro _ _ (conj Hb3 (conj Hbu3 (conj eq_refl Hd1)))) E0)
    as (HI4 & Hq4 & Hr4 & b4 & ds & Hb4 & Hbu4 & Hp4 & Hd4 & Hl4). simpl in Hd4.
  set (f := λ b, set_state Initialized (set_signature (blk_signature block) b)) in *.
  set (w5 := update_block self f w4) in *.
  assert (Hb5 : rw_heap w5 !! self = Some (f b4)) by (simpl; by rewrite lookup_alter_eq, Hb4).
  assert (Hnd4 : ReceivedBlock_is_delivered b4 = false).
  { apply delivered_false. rewrite (bu_state _ _ Hbu4). done. }
  assert (HI5 : graph_ok_but {[self]} w5).
  { apply (graph_inv_weaken ({[self]} ∪ {[self]}) ∅); [|set_solver|done].
    apply (graph_inv_update _ _ _ _ _ _ _ _ _ HI4 f self b4 Hb4).
    - split; simpl; done || congruence.
    - intros x Hx. exact (gr_closed _ _ _ _ _ _ _ _ _ HI4 _ _ x Hb4 Hx).
    - intros j. exact (gr_clock _ _ _ _ _ _ _ _ _ HI4 _ _ j Hb4). }
  assert (Hq5 : quiet w w5).
  { etrans; [exact Hq3|]. etrans; [exact Hq4|]. apply quiet_update. intros c Hc. simplify_eq. split; done || congruence. }
  outcome_step H. clear E1.
  assert (Hill : ∀ r w6, (w ← ReceivedBlock_set_ill B w5 self; Done (@Err unit, w)) = Done (r, w6) →
    graph_ok w6 ∧ quiet w w6 ∧ ∃ b', rw_heap w6 !! self = Some b' ∧ rb_state b' ≠ Null ∧ (r = Err → rb_state b' = Ill)).
  { intros r w6 H6. outcome_step H6. injection H6 as <- <-.
    assert (Hund : ∃ b, rw_heap w5 !! self = Some b ∧ rb_state b ≠ Delivered) by (by exists (f b4)).
    destruct (set_ill_inv _ _ _ _ _ _ _ _ HI5 Hund E1) as (HI6 & Hi6 & b' & Hb' & Hs').
    split_and!; [|etrans; [exact Hq5|by apply ills_quiet]|exists b'; split_and!; [done|congruence|done]].
    eapply graph_inv_weaken; [exact HI6|set_solver|done]. }
  destruct (bool_decide (rb_state a = Ill)); [by eapply Hill|].
  outcome_step H. apply self_block_inv in E1. rewrite Hb5 in E1. injection E1 as <-.
  outcome_step H. clear E1. destruct (bool_decide (is_Some a0)); [by eapply Hill|]. clear Hill.
  outcome_step H. destruct a1 as [pending w6].
  outcome_step H. injection H as <- <-. apply call_source_inv in E2 as (l & rc & ->).
  destruct (null_not_rev _ _ _ _ _ _ _ HI4 Hb4 (bu_state _ _ Hbu4)) as [Hnr Hnq].
  assert (Hpar : parents (f b4) = prev :: ds) by (unfold parents; simpl; by rewrite Hp4, Hd4).
  assert (Hask : asked self (prev :: ds) [] 0 b w5 w5).
  { split; try done.
    - intros x _. simpl. rewrite rev_at_alter by done. by rewrite (proj2 (occ_0 _ _)).
    - exists (f b4). split_and!; [done|done|done|by exists prev|apply (bu_in_db _ _ Hbu4)|apply (bu_fork _ _ Hbu4)|].
      intros j. exact (building_clock b b4 j Hbu4). }
  assert (Hln : N.of_nat (length (prev :: ds)) < two64) by (simpl; rewrite Hl4; lia).
  change (rb_block_deps (f b4)) with (rb_block_deps b4) in E1. rewrite Hd4 in E1.
  pose proof (add_parents_inv B self (prev :: ds) (prev :: ds) [] 0 pending b w5 w5 w6 Hask eq_refl Hln E1) as Hask6.
  assert (Hnq6 : self ∉ rw_blocks_to_run w6) by (rewrite (as_queue _ _ _ _ _ _ _ Hask6); done).
  destruct (asked_ok self (prev :: ds) pending b w5 w6 _ Hask6 Hln Hnq6 eq_refl) as (HI7 & Hq7 & b7 & Hb7 & Hs7).
  simpl in HI7, Hq7 |- *. rewrite (bu_in_db _ _ Hbu4).
  destruct ((pending =? 0) && rb_in_db b); split_and!; try exact HI7.
  all: try (etrans; [exact Hq5|]; etrans; [exact (as_quiet _ _ _ _ _ _ _ Hask6)|];
    etrans; [exact Hq7|]; by apply quiet_heap).
  all: exists b7; split_and!; [done|congruence|done].
Qed.

(** ** Creation *)
Lemma alloc_quiet E F clk rem w b :
  graph_inv_of E F clk rem w → rb_state b = Null → quiet w (snd (alloc_block b w)).
Proof.
  intros HI Hs. assert (Hnone : rw_heap w !! rw_next_cell w = None).
  { destruct (rw_heap w !! rw_next_cell w) eqn:Hx; [|done]. apply (gr_fresh _ _ _ _ _ _ _ _ _ HI) in Hx. lia. }
  split; simpl; try done.
  - intros x c Hx. exists c. rewrite lookup_insert_ne; [by split|]. intros <-. congruence.
  - intros x c Hx [[<- <-]|[_ Hc]]%lookup_insert_Some; congruence.
Qed.

Lemma add_received_block_inv E F clk rem B w ref w' :
  graph_inv_of E F clk rem w → add_received_block B w ref = Done w' → graph_inv_of E F clk rem w' ∧ quiet w w'.
Proof.
  intros HI H. unfold add_received_block in H. outcome_step H. injection H as <-. apply borrow_block_inv in E0 as [_ Hb].
  split; [|by apply quiet_heap]. destruct HI as [? ? ? Hk]. split; simpl; try done.
  intros k x [[<- <-]|[_ Hx]]%lookup_insert_Some; eauto.
Qed.

Lemma create_with_payload_inv B w block payload res w' :
  graph_ok w → N.of_nat (length (blk_deps block)) + 1 < two64 →
  ReceivedBlock_create_with_payload cfg B w block payload = Done (res, w') →
  graph_ok w' ∧ quiet w w' ∧ ∀ r, res = Ok r → ∃ b, rw_heap w' !! r = Some b ∧ rb_state b ≠ Null.
Proof.
  intros HI Hlen H. unfold ReceivedBlock_create_with_payload in H. outcome_step H. unfold alloc_block in H.
  cbn beta iota zeta in H. set (blank := ReceivedBlock_with_id _ _ _ _ _ _ _) in *.
  outcome_step H. apply call_source_inv in E0 as (l & rc & ->). outcome_step H. destruct a0 as [r1 w2].
  pose proof (graph_inv_alloc _ _ _ _ _ _ _ _ _ HI blank eq_refl eq_refl eq_refl eq_refl eq_refl eq_refl) as HI1.
  pose proof (alloc_quiet _ _ _ _ _ blank HI eq_refl) as Hq1. simpl in Hq1.
  eapply (initialize_inv _ _ _ _ _ blank) in E0 as (HI2 & Hq2 & b & Hb & Hn & He).
  - assert (Hq : quiet w w2). { etrans; [exact Hq1|]. etrans; [|exact Hq2]. by apply quiet_heap. }
    destruct r1; injection H as <- <-; split_and!; try done. intros r [= <-]. eauto.
  - exact HI1.
  - done.
  - simpl. apply lookup_insert_eq.
Qed.

Lemma create_block_with_payload_inv B w block payload res w' :
  graph_ok w → N.of_nat (length (blk_deps block)) + 1 < two64 →
  create_block_with_payload cfg B w block payload = Done (res, w') →
  graph_ok w' ∧ quiet w w' ∧ ∀ r, res = Ok r → ∃ b, rw_heap w' !! r = Some b ∧ rb_state b ≠ Null.
Proof.
  intros HI Hlen H. unfold create_block_with_payload in H. destruct (blk_height block =? 0)%Z.
  { injection H as <- <-. split_and!; [done..|]. intros r [= <-].
    destruct (gr_root _ _ _ _ _ _ _ _ _ HI) as (b & Hb & Hs & _). exists b. split; [done|congruence]. }
  outcome_step H. destruct (rw_blocks w !! get_block_id_hash a) as [r0|].
  - outcome_step H. apply borrow_block_inv in E0 as [_ Hb]. destruct (ReceivedBlock_is_initialized a0) eqn:Ei.
    { injection H as <- <-. split_and!; [done..|]. intros r [= <-]. exists a0. split; [done|].
      unfold ReceivedBlock_is_initialized in Ei. by destruct (rb_state a0). }
    outcome_step H. clear E0. outcome_step H. destruct a2 as [r1 w2].
    destruct (initialize_inv _ _ _ _ _ _ _ _ HI Hlen Hb E0) as (HI2 & Hq2 & b & Hb2 & Hn & _).
    destruct r1; injection H as <- <-; split_and!; try done. intros r [= <-]. eauto.
  - outcome_step H. destruct a0 as [r1 w2].
    destruct (create_with_payload_inv _ _ _ _ _ _ HI Hlen E0) as (HI2 & Hq2 & Hr).
    destruct r1 as [r1|]; [|by injection H as <- <-]. outcome_step H. injection H as <- <-.
    destruct (add_received_block_inv _ _ _ _ _ _ _ _ HI2 E1) as [HI3 Hq3].
    split_and!; [done|by etrans|]. intros r [= <-]. destruct (Hr r1 eq_refl) as (b & Hb & Hn).
    unfold add_received_block in E1. outcome_step E1. injection E1 as <-. eauto.
Qed.

(** ** Validation *)
Lemma pre_validate_deps w block payload :
  pre_validate_block cfg w block payload = Done true → N.of_nat (length (blk_deps block)) <= cfg_max_deps cfg.
Proof.
  unfold pre_validate_block. intros H. do 4 (destruct (_ : bool); [done|]).
  destruct (cfg_max_deps cfg <? N.of_nat (length (blk_deps block))) eqn:E; [done|]. by apply N.ltb_ge in E.
Qed.

Lemma receive_block_inv w block payload res w' :
  cfg_max_deps cfg + 1 < two64 → graph_ok w → receive_block cfg w block payload = Done (res, w') →
  graph_ok w' ∧ quiet w w' ∧ ∀ r, res = Ok r → ∃ b, rw_heap w' !! r = Some b ∧ rb_state b ≠ Null.
Proof.
  intros Hmax HI H. unfold receive_block in H. outcome_step H. outcome_step H.
  destruct a0 as [r0|].
  { injection H as <- <-. split_and!; [done..|]. intros r [= <-].
    destruct (rw_blocks w !! get_block_id_hash a); [|done]. outcome_step E0. apply borrow_block_inv in E1 as [_ Hb].
    destruct (ReceivedBlock_is_initialized a0) eqn:Ei; [|done]. injection E0 as ->. exists a0. split; [done|].
    unfold ReceivedBlock_is_initialized in Ei. by destruct (rb_state a0). }
  destruct (negb _); [by injection H as <- <-|]. outcome_step H. destruct a0; cbn [negb] in H; [|by injection H as <- <-].
  outcome_step H. apply create_block_with_payload_inv in H; [done..|].
  unfold validate_block_with_payload in E1. outcome_step E1. destruct a1; [|done].
  apply pre_validate_deps in E3. lia.
Qed.

Lemma written_inv w self w' :
  graph_ok w → (∃ b, rw_heap w !! self = Some b ∧ rb_state b ≠ Null) → ReceivedBlock_written w self = Done w' →
  graph_ok w' ∧ quiet w w'.
Proof.
  intros HI (b & Hb & Hn) H. unfold ReceivedBlock_written in H. outcome_step H. apply self_block_inv in E.
  rewrite Hb in E. injection E as <-. destruct (rb_in_db b) eqn:Edb; [by injection H as <-|]. injection H as <-.
  set (w1 := update_block self (set_in_db true) w).
  assert (Hb1 : rw_heap w1 !! self = Some (set_in_db true b)) by (simpl; by rewrite lookup_alter_eq, Hb).
  assert (Hq : quiet w w1) by (apply quiet_update; by split).
  assert (HI1 : graph_ok_but {[self]} w1).
  { apply (graph_inv_weaken (∅ ∪ {[self]}) ∅); [|set_solver|done].
    apply (graph_inv_update _ _ _ _ _ _ _ _ _ HI (set_in_db true) self b Hb); [by split| |].
    - intros x Hx. exact (gr_closed _ _ _ _ _ _ _ _ _ HI _ _ x Hb Hx).
    - intros j. exact (gr_clock _ _ _ _ _ _ _ _ _ HI _ _ j Hb). }
  assert (Hok : cell_ok (λ _, 0%Z) [] (rw_root_block w1) (rw_heap w1) self (set_in_db true b)).
  { eapply (cell_ok_ext _ _ _ (rw_heap w)); intros; [by apply delivered_at_alter|by apply clock_at_alter
      |f_equal; by apply rev_at_alter|]. exact (gr_cell _ _ _ _ _ _ _ _ _ HI self b ltac:(set_solver) Hb). }
  split; [|destruct (_ =? _); [etrans; [exact Hq|by apply quiet_heap]|done]].
  apply (graph_inv_weaken ({[self]} ∖ {[self]}) ∅); [|set_solver|done].
  destruct (N.eqb_spec (rb_pending_deps b) 0) as [Hp|Hp].
  - eapply graph_inv_restore; [eapply graph_inv_enqueue; [exact HI1|exact Hb1|done|set_solver]|exact Hb1|exact Hok|].
    intros _. simpl. split; [set_solver|done].
  - eapply graph_inv_restore; [exact HI1|exact Hb1|exact Hok|]. intros Hs. simpl in *. split; [naive_solver|].
    intros Hin. destruct (gr_queue _ _ _ _ _ _ _ _ _ HI self Hin) as (c & Hc & _ & Hq'). simplify_eq.
    destruct (Hq' ltac:(set_solver) Hs). congruence.
Qed.
End initialize.
