(* ===== verification/BlockDelivery.v ===== *)
(** * Catchain: blocks are delivered

    [ReceivedBlock_process] and the scheduler keep the invariant of the block
    graph and extend the log of delivered blocks in a causal order. *)

From S2P Require Import Prelude ReceivedBlock ReceiverSource BlockGraph BlockGraphFacts BlockInitialize.

(** ** The log of delivered blocks *)
Definition hash_at (h : BlockHeap) (hash : N) (x : N) : Prop := ∃ b, h !! x = Some b ∧ rb_hash b = hash.

(** The event reports the block of cell [r]. *)
Record event_of (h : BlockHeap) (r : N) (e : NewBlock) : Prop := {
  ev_block : ∃ b, h !! r = Some b ∧ nb_hash e = rb_hash b ∧ nb_source_id e = rb_source_id b ∧
    nb_fork_id e = rb_fork_id b ∧ nb_height e = rb_height b ∧ nb_forks_dep_heights e = rb_forks_dep_heights b ∧
    nb_payload e = (if rb_is_custom b then rb_payload b else []) ∧
    (∃ p, rb_prev b = Some p ∧ hash_at h (nb_prev e) p) ∧ Forall2 (hash_at h) (nb_deps e) (rb_block_deps b);
}.

(** [order] are the delivered cells in the order of their events: every block once
    and after its parents. *)
Record delivery_log (root : N) (h : BlockHeap) (log : list NewBlock) (order : list N) : Prop := {
  dl_once : NoDup order;
  dl_all r : r ∈ order ↔ r ≠ root ∧ delivered_at h r = true;
  dl_events : Forall2 (event_of h) order log;
  dl_causal i r b x : order !! i = Some r → h !! r = Some b → x ∈ parents b →
    x = root ∨ ∃ j, (j < i)%nat ∧ order !! j = Some x;
}.

Definition log_ok (w : ReceiverWorld) : Prop :=
  ∃ order, delivery_log (rw_root_block w) (rw_heap w) (rw_new_blocks w) order.

Lemma quiet_delivered w w' x : quiet w w' → delivered_at (rw_heap w') x = delivered_at (rw_heap w) x.
Proof.
  intros []. unfold delivered_at. destruct (rw_heap w !! x) as [b|] eqn:Hx.
  - destruct (q_cells x b Hx) as (b' & -> & Hs). apply (sb_delivered _ _ Hs).
  - destruct (rw_heap w' !! x) as [b'|] eqn:Hx'; [|done]. apply delivered_false. eauto.
Qed.

Lemma quiet_hash w w' hash x : quiet w w' → hash_at (rw_heap w) hash x → hash_at (rw_heap w') hash x.
Proof. intros [] (b & Hx & <-). destruct (q_cells x b Hx) as (b' & Hb' & Hs). exists b'. split; [done|]. apply Hs. Qed.

Lemma quiet_event w w' r e :
  quiet w w' → delivered_at (rw_heap w) r = true → event_of (rw_heap w) r e → event_of (rw_heap w') r e.
Proof.
  intros Hq Hd [(b & Hb & H1 & H2 & H3 & H4 & H5 & H6 & (p & Hp & Hh) & Hds)].
  destruct (q_cells _ _ Hq r b Hb) as (b' & Hb' & Hs). unfold delivered_at in Hd. rewrite Hb in Hd.
  pose proof (sb_view _ _ Hs Hd) as Hv. injection Hv as Ef Ep Ed Eh Epl Ec. destruct Hs.
  split. exists b'. rewrite Ef, Ep, Ed, Eh, Epl, Ec. split_and!; try congruence.
  - exists p. split; [done|]. by eapply quiet_hash.
  - eapply list.Forall2_impl; [exact Hds|]. intros. by eapply quiet_hash.
Qed.

Lemma quiet_log w w' : quiet w w' → log_ok w → log_ok w'.
Proof.
  intros Hq (order & [H1 H2 H3 H4]). exists order. rewrite (q_log _ _ Hq), (q_root _ _ Hq). split; [done|..].
  - intros r. rewrite (quiet_delivered w w') by done. apply H2.
  - apply Forall2_same_length_lookup in H3 as [Hl H3]. apply Forall2_same_length_lookup. split; [done|].
    intros i r e Hr He. eapply quiet_event; [done| |by eapply H3]. apply H2. by eapply list_elem_of_lookup_2.
  - intros i r b x Hr Hb Hx. assert (Hd : delivered_at (rw_heap w) r = true) by (apply H2; by eapply list_elem_of_lookup_2).
    apply delivered_at_Some in Hd as (b0 & Hb0 & Hd0). destruct (q_cells _ _ Hq r b0 Hb0) as (b' & Hb' & Hs).
    simplify_eq. apply (H4 i r b0 x Hr Hb0). rewrite <- delivered_true in Hd0. pose proof (sb_view _ _ Hs Hd0) as Hv.
    injection Hv as _ Ep Ed _ _ _. unfold parents in *. by rewrite Ep, Ed in Hx.
Qed.

(** ** The fork of a block *)
Lemma set_own_height_ok heights fork height heights' :
  set_own_height heights fork height = Done heights' →
  (default 0%Z (heights !! N.to_nat fork) < height)%Z ∧
  ∀ j : nat, default 0%Z (heights' !! j) = if decide (N.to_nat fork = j) then height else default 0%Z (heights !! j).
Proof.
  unfold set_own_height. intros H.
  set (l := if (length heights <? N.to_nat fork + 1)%nat then _ else _) in H.
  assert (Hl : ∀ j : nat, default 0%Z (l !! j) = default 0%Z (heights !! j)).
  { intros j. unfold l. destruct (_ <? _)%nat; [apply resize_heights_lookup|done]. }
  outcome_step H. apply index_inv in E. outcome_step H. rename E0 into Ha. unfold assert_that in Ha.
  destruct (a <? height)%Z eqn:Hlt; [|done]. apply Z.ltb_lt in Hlt.
  rewrite <- Hl, E. split; [done|]. intros j. rewrite <- Hl.
  pose proof (lookup_lt_Some _ _ _ E) as Hb. rewrite set_index_lt in H by done. injection H as <-.
  destruct (decide (N.to_nat fork = j)) as [<-|]; [by rewrite list_lookup_insert_eq|by rewrite list_lookup_insert_ne].
Qed.

Section delivery.
Context {X : CatchainExternal} (cfg : ReceiverConfig).
Implicit Types (w : ReceiverWorld) (B : Borrows) (self ref : N) (b : ReceivedBlock).

(** A block with all parents delivered, taken from the queue. *)
Definition runnable (own : bool) self b w : Prop :=
  rw_heap w !! self = Some b ∧ rb_state b = Initialized ∧ rb_pending_deps b = 0 ∧ rb_in_db b = true ∧
  is_Some (rb_prev b) ∧ (∀ x, x ∈ parents b → delivered_at (rw_heap w) x = true) ∧
  ∀ j, clock b j = Z.max (if own then own_clock b j else 0%Z) (max_clock (rw_heap w) (parents b) j).

Record prepared (own : bool) self w : Prop := {
  pr_inv : graph_ok_but {[self]} w;
  pr_not_rev x : self ∉ rev_at (rw_heap w) x;
  pr_block : ∃ b, runnable own self b w;
}.

Lemma pop_prepared w self rest b :
  graph_ok w → rw_blocks_to_run w = self :: rest → rw_heap w !! self = Some b → rb_state b = Initialized →
  prepared false self (with_blocks_to_run rest w).
Proof.
  intros HI Hq Hb Hs.
  destruct (gr_queue _ _ _ _ _ _ _ _ _ HI self) as (c & Hc & _ & Hr); [rewrite Hq; set_solver|]. simplify_eq.
  destruct (Hr ltac:(set_solver) Hs) as [Hp Hdb].
  pose proof (gr_cell _ _ _ _ _ _ _ _ _ HI self b ltac:(set_solver) Hb) as Hok. unfold cell_ok in Hok. rewrite Hs in Hok.
  destruct Hok as (Hprev & _ & Hpe & Hrev & Hck).
  assert (Hw : waiting (rw_heap w) (parents b) = 0%nat) by lia. pose proof (proj1 (waiting_0 _ _) Hw) as Hall.
  split.
  - pose proof (graph_inv_weaken _ _ _ _ _ _ _ _ _ HI {[self]} ∅ ltac:(set_solver) ltac:(done)) as HI'.
    destruct HI' as [? ? ? ? ? ? ? ? Hready Hqueue]. split; try done.
    + intros r c Hr' Hc ???. assert (r ∈ self :: rest) as [->|]%elem_of_cons by (rewrite <- Hq; eauto); [set_solver|done].
    + intros r Hr'. apply Hqueue. rewrite Hq. set_solver.
  - intros x Hx. simpl in Hx. destruct (delivered_at (rw_heap w) x) eqn:Ex.
    + rewrite (gr_rev_delivered _ _ _ _ _ _ _ _ _ HI x) in Hx by (done || set_solver). set_solver.
    + apply occ_pos in Hx. rewrite (Hrev x Ex) in Hx. apply occ_pos in Hx. apply Hall in Hx. congruence.
  - exists b. split_and!; try done. intros j. specialize (Hck j). rewrite decide_False in Hck by set_solver.
    pose proof (gr_clock _ _ _ _ _ _ _ _ _ HI _ _ j Hb). simpl. pose proof (max_clock_nonneg (rw_heap w) (parents b) j). lia.
Qed.

(** ** The work left for the scheduler

    Every iteration takes a block from the queue; a block is put there when it
    stops waiting. *)
Definition is_stuck b : bool := bool_decide (rb_state b = Initialized) && negb (rb_pending_deps b =? 0).
Definition stuck (h : BlockHeap) : gset N := dom (filter (λ kv, is_stuck kv.2 = true) h).
Definition load w : nat := (length (rw_blocks_to_run w) + size (stuck (rw_heap w)))%nat.

Lemma elem_of_stuck h x : x ∈ stuck h ↔ ∃ b, h !! x = Some b ∧ is_stuck b = true.
Proof.
  unfold stuck. rewrite elem_of_dom. split.
  - intros [b [Hb Hs]%map_lookup_filter_Some]. eauto.
  - intros (b & Hb & Hs). exists b. by apply map_lookup_filter_Some.
Qed.

Lemma stuck_update h r f :
  (∀ b, h !! r = Some b → is_stuck (f b) = true → is_stuck b = true) → stuck (alter f r h) ⊆ stuck h.
Proof.
  intros Hf x. rewrite !elem_of_stuck. intros (b & [[-> (c & Hc & ->)]|[_ Hb]]%lookup_alter_Some & Hs); eauto.
Qed.

Lemma load_update w r f :
  (∀ b, rw_heap w !! r = Some b → is_stuck (f b) = true → is_stuck b = true) → (load (update_block r f w) ≤ load w)%nat.
Proof. intros Hf%stuck_update. unfold load. simpl. apply subseteq_size in Hf. lia. Qed.

Lemma load_ills w w' : ills w w' → (load w' ≤ load w)%nat.
Proof.
  intros Hi. unfold load. rewrite (il_queue _ _ Hi). apply Nat.add_le_mono_l. apply subseteq_size. intros x.
  rewrite !elem_of_stuck. intros (b' & Hb' & Hs).
  destruct (rw_heap w !! x) as [b|] eqn:Hb; [|rewrite (il_new _ _ Hi) in Hb'; done].
  destruct (il_cells _ _ Hi x b Hb) as [Hc|[_ Hc]]; simplify_eq; eauto.
Qed.

Lemma load_stuck_size w : (size (stuck (rw_heap w)) ≤ size (rw_heap w))%nat.
Proof.
  rewrite <- (size_dom (D := gset N) (rw_heap w)). apply subseteq_size. intros x. rewrite elem_of_stuck, elem_of_dom.
  intros (b & ? & _). eauto.
Qed.

(** ** [initialize_fork] *)
Lemma prepared_sources own self w l rc : prepared own self w → prepared own self (with_sources l rc w).
Proof. intros []. by split. Qed.


(** Views after a change that keeps deliveries and reverse dependencies. *)
Lemma prepared_self (own own' : bool) self w f b :
  prepared own self w → rw_heap w !! self = Some b → tame b (f b) → rb_state (f b) = Initialized →
  (rb_pending_deps (f b), rb_in_db (f b), rb_prev (f b), rb_block_deps (f b)) =
  (rb_pending_deps b, rb_in_db b, rb_prev b, rb_block_deps b) →
  (∀ j, clock (f b) j = Z.max (if own' then own_clock (f b) j else 0%Z) (max_clock (rw_heap w) (parents b) j)) →
  prepared own' self (update_block self f w).
Proof.
  intros [HI Hnr (b' & Hb' & Hs & Hp & Hdb & Hprev & Hall & Hck)] Hb Ht Hst Heq Hck'.
  rewrite Hb in Hb'. injection Hb' as <-. injection Heq as E1 E2 E3 E4.
  assert (Hd : ∀ c, rw_heap w !! self = Some c → ReceivedBlock_is_delivered (f c) = ReceivedBlock_is_delivered c ∧
    (ReceivedBlock_is_delivered c = true → rb_forks_dep_heights (f c) = rb_forks_dep_heights c)).
  { intros c Hc. simplify_eq. split; [apply Ht|]. intros ?. by apply (tame_frozen _ _ Ht). }
  assert (Hpar : parents (f b) = parents b) by (unfold parents; by rewrite E3, E4).
  split.
  - apply (graph_inv_weaken ({[self]} ∪ {[self]}) ∅); [|set_solver|done].
    apply (graph_inv_update _ _ _ _ _ _ _ _ _ HI f self b Hb); [done| |].
    + intros x. rewrite Hpar. exact (gr_closed _ _ _ _ _ _ _ _ _ HI _ _ x Hb).
    + intros j. rewrite Hck'. pose proof (max_clock_nonneg (rw_heap w) (parents b) j). lia.
  - intros x. simpl. rewrite rev_at_alter; [apply Hnr|]. intros c Hc. simplify_eq. apply Ht.
  - exists (f b). split; [simpl; by rewrite lookup_alter_eq, Hb|]. rewrite Hpar. split_and!; try congruence.
    + intros x Hx. simpl. rewrite delivered_at_alter; [by apply Hall|]. intros. by apply Hd.
    + intros j. rewrite Hck'. f_equal. symmetry. apply max_clock_ext. intros. by apply clock_at_alter.
Qed.

Lemma prepared_inert own self w r f :
  prepared own self w → (∀ b, inert_view (f b) = inert_view b) → prepared own self (update_block r f w).
Proof.
  intros [HI Hnr (b & Hb & Hs & Hp & Hdb & Hprev & Hall & Hck)] Hf.
  assert (Hd : ∀ c, ReceivedBlock_is_delivered (f c) = ReceivedBlock_is_delivered c ∧
    rb_forks_dep_heights (f c) = rb_forks_dep_heights c ∧ rb_rev_deps (f c) = rb_rev_deps c).
  { intros c. specialize (Hf c). injection Hf as E1 E2 E3 E4 E5 E6 E7 E8 E9 E10.
    unfold ReceivedBlock_is_delivered. by rewrite E1. }
  assert (Hdel : ∀ x, delivered_at (alter f r (rw_heap w)) x = delivered_at (rw_heap w) x).
  { intros. apply delivered_at_alter. intros. by apply Hd. }
  assert (Hclk : ∀ x j, clock_at (alter f r (rw_heap w)) x j = clock_at (rw_heap w) x j).
  { intros. apply clock_at_alter. intros c _. destruct (Hd c) as (? & ? & ?). done. }
  split.
  - by apply (graph_inv_inert _ _ _ _ _ _ _ _ _ HI).
  - intros x. simpl. rewrite rev_at_alter; [apply Hnr|]. intros. by apply Hd.
  - assert (Hex : ∃ b', alter f r (rw_heap w) !! self = Some b' ∧ inert_view b' = inert_view b).
    { destruct (decide (self = r)) as [->|]; [exists (f b)|exists b].
      - by rewrite lookup_alter_eq, Hb.
      - by rewrite lookup_alter_ne. }
    destruct Hex as (b' & Hb' & Hv). injection Hv as E1 E2 E3 E4 E5 E6 E7 E8 E9 E10.
    exists b'. split; [done|]. simpl. unfold clock, own_clock, parents in *.
    rewrite E1, E3, E4, E6, E7, E8, E9, E10. split_and!; try done.
    + intros x. rewrite Hdel. apply Hall.
    + intros j. rewrite Hck. f_equal. symmetry. by apply max_clock_ext.
Qed.

Lemma call_add_fork_inv B w id fork w' :
  call_add_fork B w id = Done (fork, w') → ∃ l rc, w' = with_sources l rc w.
Proof.
  unfold call_add_fork. intros H. outcome_step H. outcome_step H. destruct a0 as [[s rc] f]. outcome_step H.
  injection H as <- <-. eauto.
Qed.

Lemma initialize_fork_inv B w self w' :
  prepared false self w → ReceivedBlock_initialize_fork B w self = Done w' →
  prepared true self w' ∧ quiet w w' ∧ (load w' ≤ load w)%nat.
Proof.
  intros Hpr H. destruct (pr_block _ _ _ Hpr) as (b & Hb & Hs & _). unfold ReceivedBlock_initialize_fork in H.
  outcome_step H. apply self_block_inv in E. rewrite Hb in E. injection E as <-.
  outcome_step H. clear E. outcome_step H. clear E. outcome_step H. destruct a1 as [fork w1].
  assert (Hres : prepared false self w1 ∧ quiet w w1 ∧ (load w1 ≤ load w)%nat ∧
    ∃ nx, rw_heap w1 !! self = Some (set_next nx b)).
  { assert (Hsrc : ∀ l rc, prepared false self (with_sources l rc w) ∧ quiet w (with_sources l rc w) ∧
      (load (with_sources l rc w) ≤ load w)%nat ∧ ∃ nx, rw_heap (with_sources l rc w) !! self = Some (set_next nx b)).
    { intros l rc. split_and!; [by apply prepared_sources|by apply quiet_heap|done|].
      exists (rb_next b). simpl. rewrite Hb. by destruct b. }
    destruct (rb_height b =? 1)%Z; [by apply call_add_fork_inv in E as (l & rc & ->)|].
    outcome_step E. outcome_step E. destruct (bool_decide _); [by apply call_add_fork_inv in E as (l & rc & ->)|].
    outcome_step E. injection E as <- <-. split_and!.
    - by apply prepared_inert.
    - apply quiet_update. by split.
    - by apply load_update.
    - simpl. destruct (decide (a1 = self)) as [->|].
      + rewrite lookup_alter_eq, Hb. by eexists.
      + rewrite lookup_alter_ne by done. exists (rb_next b). rewrite Hb. by destruct b. }
  destruct Hres as (Hpr1 & Hq1 & Hl1 & nx & Hb1). outcome_step H. injection H as <-.
  apply set_own_height_ok in E0 as [Hlt Hheights].
  set (f := λ b, set_forks_dep_heights a1 (set_fork_id fork b)).
  assert (Hnd : ReceivedBlock_is_delivered (set_next nx b) = false) by (apply delivered_false; simpl; congruence).
  split_and!.
  - apply (prepared_self false true _ _ f (set_next nx b)); try done.
    + split; done || congruence.
    + intros j. destruct (pr_block _ _ _ Hpr1) as (b' & Hb' & _ & _ & _ & _ & _ & Hck). simplify_eq.
      specialize (Hck j). unfold clock, own_clock, f in *. simpl in *. rewrite Hheights.
      pose proof (max_clock_nonneg (rw_heap w1) (parents (set_next nx b)) j).
      destruct (decide (N.to_nat fork = j)) as [<-|]; lia.
  - etrans; [exact Hq1|]. apply quiet_update. intros c Hc. simplify_eq. split; done || congruence.
  - etrans; [|exact Hl1]. by apply load_update.
Qed.

(** ** [pre_deliver] *)
Definition ended_ill self w w' : Prop :=
  graph_ok w' ∧ quiet w w' ∧ (load w' ≤ load w)%nat ∧ ∃ b, rw_heap w' !! self = Some b ∧ rb_state b = Ill.

Lemma set_ill_ended own B self w w' :
  prepared own self w → ReceivedBlock_set_ill B w self = Done w' → ended_ill self w w'.
Proof.
  intros [HI _ (b & Hb & Hs & _)] H.
  assert (Hund : ∃ b, rw_heap w !! self = Some b ∧ rb_state b ≠ Delivered) by (exists b; split; [done|congruence]).
  destruct (set_ill_inv _ _ _ _ _ _ _ _ HI Hund H) as (HI' & Hi & Hill).
  split_and!; [|by apply ills_quiet|by apply load_ills|done]. eapply graph_inv_weaken; [exact HI'|set_solver|done].
Qed.

Lemma set_ill_ended_sources own B self w l rc w' :
  prepared own self w → ReceivedBlock_set_ill B (with_sources l rc w) self = Done w' → ended_ill self w w'.
Proof.
  intros Hp%(prepared_sources _ _ _ l rc) H. destruct (set_ill_ended _ _ _ _ _ Hp H) as (? & Hq & Hl & ?).
  split_and!; [done| |done..]. etrans; [|exact Hq]. by apply quiet_heap.
Qed.

Lemma check_dependencies_inv own B w self prev deps ret w' :
  prepared own self w → check_dependencies cfg B w self prev deps = Done (ret, w') →
  if (ret : bool) then ended_ill self w w' else w' = w.
Proof.
  intros Hp. revert ret w'. induction deps as [|dep deps IH]; intros ret w' H; cbn [check_dependencies] in H.
  { by injection H as <- <-. }
  do 4 outcome_step H. destruct (check_dependency _ _ _) as [[]|]; [| | |by apply IH].
  - outcome_step H. outcome_step H. injection H as <- <-. by eapply set_ill_ended.
  - outcome_step H. outcome_step H. outcome_step H. injection H as <- <-. apply call_source_inv in E4 as (l & rc & ->).
    by eapply set_ill_ended_sources.
  - outcome_step H. outcome_step H. outcome_step H. injection H as <- <-. apply call_source_inv in E4 as (l & rc & ->).
    by eapply set_ill_ended_sources.
Qed.

Lemma accept_fork_inv own B w self left right w' :
  prepared own self w → accept_fork cfg B w self left right = Done w' →
  ended_ill self w w' ∨ ∃ l rc, w' = with_sources l rc w.
Proof.
  intros Hp H. unfold accept_fork in H. outcome_step H. destruct (negb a); [left; by eapply set_ill_ended|].
  outcome_step H. destruct (negb a0); [left; by eapply set_ill_ended|].
  destruct (_ || _); [left; by eapply set_ill_ended|]. right. by apply call_source_inv in H.
Qed.

Lemma pre_deliver_inv B w self w' :
  prepared true self w → ReceivedBlock_pre_deliver cfg B w self = Done w' →
  ended_ill self w w' ∨ prepared true self w' ∧ quiet w w' ∧ (load w' ≤ load w)%nat.
Proof.
  intros Hp H. destruct (pr_block _ _ _ Hp) as (b & Hb & Hs & _). unfold ReceivedBlock_pre_deliver in H.
  outcome_step H. apply self_block_inv in E. rewrite Hb in E. injection E as <-.
  rewrite bool_decide_eq_false_2 in H by congruence. do 4 (outcome_step H; clear E). outcome_step H. destruct a3 as [ret w1].
  assert (Hret : if (ret : bool) then ended_ill self w w1 else w1 = w).
  { destruct (rb_prev b); [|by injection E as <- <-]. outcome_step E. by eapply check_dependencies_inv. }
  destruct ret; [injection H as <-; by left|]. subst w1.
  assert (Hcustom : prepared true self (update_block self (set_is_custom true) w) ∧
    quiet w (update_block self (set_is_custom true) w) ∧ (load (update_block self (set_is_custom true) w) ≤ load w)%nat).
  { split_and!; [by apply prepared_inert| |by apply load_update]. apply quiet_update. intros c Hc. simplify_eq.
    split; try done. rewrite delivered_true. congruence. }
  destruct (read_data (rb_payload b)) as [[| | |]|]; try (injection H as <-; by right).
  eapply accept_fork_inv in H as [?|(ls & rc & ->)]; [by left| |done]. right.
  split_and!; [by apply prepared_sources|by apply quiet_heap|done].
Qed.

(** ** [deliver] *)
Lemma graph_inv_deliver w self b h' :
  prepared true self w → rw_heap w !! self = Some b → h' = alter (set_state Delivered) self (rw_heap w) →
  graph_inv ∅ {[self]} (clock b) (rb_rev_deps b) (rw_root_block w) h' (rw_next_cell w) (rw_blocks w) (rw_blocks_to_run w).
Proof.
  intros [HI Hnr (b' & Hb & Hs & Hp & Hdb & Hprev & Hall & Hck)] Hb' ->.
  rewrite Hb' in Hb. injection Hb as <-. rename Hb' into Hb.
  unfold graph_inv_of in HI. set (h := rw_heap w) in *. set (h' := alter (set_state Delivered) self h).
  assert (Hself : h' !! self = Some (set_state Delivered b)) by (unfold h'; by rewrite lookup_alter_eq, Hb).
  assert (Hother : ∀ x, x ≠ self → h' !! x = h !! x) by (intros; by apply lookup_alter_ne).
  assert (Hd0 : delivered_at h self = false) by (unfold delivered_at; rewrite Hb; apply delivered_false; congruence).
  assert (Hd1 : delivered_at h' self = true) by (unfold delivered_at; by rewrite Hself).
  assert (Hdel : ∀ x, x ≠ self → delivered_at h' x = delivered_at h x).
  { intros x Hx. unfold delivered_at. by rewrite Hother. }
  assert (Hclk : ∀ x j, x ≠ self → clock_at h' x j = clock_at h x j).
  { intros x j Hx. unfold clock_at. by rewrite Hother. }
  assert (Hclk1 : ∀ j, clock_at h' self j = clock b j) by (intros j; unfold clock_at; by rewrite Hself).
  assert (Hrev : ∀ x, rev_at h' x = rev_at h x) by (intros; by apply rev_at_alter).
  assert (Hpos : ∀ j, (0 ≤ clock b j)%Z) by (intros j; exact (gr_clock _ _ _ _ _ _ _ _ _ HI _ _ j Hb)).
  assert (Hmono : ∀ x, delivered_at h x = true → delivered_at h' x = true).
  { intros x Hx. destruct (decide (x = self)) as [->|]; [done|by rewrite Hdel]. }
  assert (Hkeep : ∀ l j, (∀ x, x ∈ l → delivered_at h x = true) → max_clock h' l j = max_clock h l j).
  { intros l j Hl. apply max_clock_ext. intros x Hx. apply Hclk. intros ->. apply Hl in Hx. congruence. }
  assert (Hdom : ∀ x, is_Some (h !! x) → is_Some (h' !! x)).
  { intros x Hx. destruct (decide (x = self)) as [->|]; [rewrite Hself; eauto|by rewrite Hother]. }
  destruct HI as [Hfresh Hroot Hclosed Hknown Hgrev Hgrd Hgc Hcell Hready Hqueue]. split.
  - intros x c Hx. destruct (decide (x = self)) as [->|]; [by eapply Hfresh|rewrite Hother in Hx by done; eauto].
  - destruct Hroot as (c & Hc & Hsc & Hpc). exists c. rewrite Hother; [done|]. intros Heq. rewrite Heq in Hc. congruence.
  - intros x c y Hx Hy. apply Hdom. destruct (decide (x = self)) as [->|].
    + rewrite Hself in Hx. injection Hx as <-. by eapply (Hclosed self b).
    + rewrite Hother in Hx by done. eauto.
  - intros k x Hk. destruct (Hknown k x Hk) as (c & Hc & Hh). destruct (decide (x = self)) as [->|].
    + exists (set_state Delivered b). simplify_eq. done.
    + exists c. by rewrite Hother.
  - intros x r. rewrite Hrev. intros Hr. destruct (Hgrev x r Hr) as (c & Hc & ?). exists c. rewrite Hother; [done|].
    intros ->. by apply (Hnr x).
  - intros x Hx. rewrite Hrev, Hdel by set_solver. apply Hgrd. set_solver.
  - intros x c j Hx. destruct (decide (x = self)) as [->|]; [|rewrite Hother in Hx by done; eauto].
    rewrite Hself in Hx. injection Hx as <-. apply Hpos.
  - intros x c _ Hx. destruct (decide (x = self)) as [->|Hne].
    + rewrite Hself in Hx. injection Hx as <-. right. change (parents (set_state Delivered b)) with (parents b).
      split_and!; [done|auto|]. intros j. rewrite Hkeep by done. apply Hck.
    + rewrite Hother in Hx by done. specialize (Hcell x c ltac:(set_solver) Hx). unfold cell_ok in *.
      destruct (rb_state c); try done.
      * destruct Hcell as (H1 & H2 & H3 & H4 & H5).
        assert (Hocc : occ x (rb_rev_deps b) = occ self (parents c)).
        { rewrite <- (H4 self Hd0). unfold rev_at. by rewrite Hb. }
        split_and!; [done|done| | |].
        -- rewrite H3, Hocc. f_equal. rewrite (waiting_deliver h h') by done. unfold occ. simpl. lia.
        -- intros y Hy. rewrite Hrev. apply H4. rewrite <- Hdel; [done|]. intros ->. congruence.
        -- intros j. rewrite (max_clock_deliver h h' self _ j (clock b j)); auto using clock_at_undelivered.
           rewrite <- H5, (decide_False (P := x ∈ [])) by set_solver.
           pose proof (Hgc x c j Hx). destruct (decide (self ∈ parents c)) as [Hin|Hin].
           ++ rewrite decide_True; [lia|]. apply occ_pos. rewrite Hocc. by apply occ_pos.
           ++ rewrite decide_False; [lia|]. rewrite <- occ_0, Hocc. by apply occ_0.
      * destruct Hcell as [->|(H1 & H2 & H3)]; [by left|right]. split_and!; [done|auto|]. intros j. by rewrite Hkeep.
  - intros x c _ Hx ???. destruct (decide (x = self)) as [->|]; [rewrite Hself in Hx; by injection Hx as <-|].
    rewrite Hother in Hx by done. apply (Hready x c); [set_solver|done..].
  - intros x Hx. destruct (Hqueue x Hx) as (c & Hc & Hn & Hr). destruct (decide (x = self)) as [->|].
    + eexists. split; [exact Hself|]. done.
    + exists c. rewrite Hother by done. split_and!; [done..|]. intros _. apply Hr. set_solver.
Qed.

(** A block that is being changed has heard of the delivery. *)
Lemma graph_inv_heard E F clk r rem root h next known queue :
  graph_inv E F clk (r :: rem) root h next known queue → r ∈ E → graph_inv E F clk rem root h next known queue.
Proof.
  intros [] Hr. split; try done. intros x b Hx Hb. specialize (gr_cell x b Hx Hb). unfold cell_ok in *.
  assert (Hne : r ≠ x) by (intros ->; done). destruct (rb_state b); try done.
  destruct gr_cell as (H1 & H2 & H3 & H4 & H5). split_and!; try done.
  - rewrite H3, occ_cons, decide_False by done. done.
  - intros j. rewrite <- H5. by rewrite (decide_ext (x ∈ rem) (x ∈ r :: rem)) by set_solver.
Qed.

Lemma graph_inv_clk E F clk clk' root h next known queue :
  graph_inv E F clk [] root h next known queue → graph_inv E F clk' [] root h next known queue.
Proof. intros []. by split. Qed.

(** What a delivery keeps of the other cells. *)
Definition told (self : N) w w' : Prop :=
  quiet w w' ∧ (load w' ≤ load w)%nat ∧ rw_heap w' !! self = rw_heap w !! self.

Lemma told_refl self w : told self w w.
Proof. by split_and!. Qed.

Lemma told_trans self w1 w2 w3 : told self w1 w2 → told self w2 w3 → told self w1 w3.
Proof. intros (? & ? & ?) (? & ? & ?). split_and!; [by etrans|lia|congruence]. Qed.

Lemma dependency_delivered_inv self heights clk r rem w w' :
  graph_inv_of ∅ {[self]} clk (r :: rem) w → (∀ j : nat, clk j = default 0%Z (heights !! j)) → (∀ j, 0 ≤ clk j)%Z →
  delivered_at (rw_heap w) self = true → r ∈ rev_at (rw_heap w) self →
  dependency_delivered r heights Delivered w = Done w' →
  graph_inv_of ∅ {[self]} clk rem w' ∧ told self w w'.
Proof.
  intros HI Hh Hpos Hdel Hr H. unfold dependency_delivered in H. outcome_step H. apply self_block_inv in E. rename a into b.
  assert (Hne : r ≠ self).
  { intros ->. destruct (gr_rev _ _ _ _ _ _ _ _ _ HI _ _ Hr) as (c & Hc & Hs). apply delivered_at_Some in Hdel as (d & Hd & ?).
    destruct Hs; congruence. }
  destruct (bool_decide_reflect (rb_state b = Ill)) as [Hill|Hill].
  { injection H as <-. split; [|apply told_refl].
    apply (graph_inv_weaken ({[r]} ∖ {[r]}) {[self]}); [|set_solver|done].
    eapply graph_inv_restore; [|exact E|unfold cell_ok; by rewrite Hill|congruence].
    apply (graph_inv_heard _ _ _ r); [|set_solver]. eapply graph_inv_weaken; [exact HI|set_solver|done]. }
  destruct (gr_rev _ _ _ _ _ _ _ _ _ HI _ _ Hr) as (c & Hc & Hs). simplify_eq. destruct Hs as [Hs|?]; [|done].
  pose proof (gr_cell _ _ _ _ _ _ _ _ _ HI r b ltac:(set_solver) E) as Hok. unfold cell_ok in Hok. rewrite Hs in Hok.
  destruct Hok as (Hprev & Hlt & Hpe & Hrev & Hck). rewrite occ_cons, decide_True in Hpe by done.
  assert (Hpred : usize_pred (rb_pending_deps b) = N.of_nat (waiting (rw_heap w) (parents b) + occ r rem)).
  { unfold usize_pred. rewrite (N.add_comm _ two64), <- N.add_sub_assoc by lia.
    rewrite <- (N.Div0.add_mod_idemp_l two64), N.Div0.mod_same, N.add_0_l, N.mod_small by lia. lia. }
  run in H. set (pending := usize_pred (rb_pending_deps b)) in *.
  set (f := λ b, set_pending_deps pending (set_forks_dep_heights
    (update_forks_dependency_heights (rb_forks_dep_heights b) heights) b)) in *.
  set (w1 := update_block r f w) in *. injection H as <-.
  assert (Hnd : ReceivedBlock_is_delivered b = false) by (apply delivered_false; congruence).
  assert (Hclkb : ∀ j, clock (f b) j = Z.max (clock b j) (clk j)).
  { intros j. rewrite Hh. apply update_heights_lookup. intros k. exact (gr_clock _ _ _ _ _ _ _ _ _ HI _ _ k E). }
  assert (Hb1 : rw_heap w1 !! r = Some (f b)) by (simpl; by rewrite lookup_alter_eq, E).
  assert (HI1 : graph_inv_of {[r]} {[self]} clk rem w1).
  { apply (graph_inv_heard _ _ _ r); [|set_solver].
    apply (graph_inv_weaken (∅ ∪ {[r]}) {[self]}); [|set_solver|done].
    apply (graph_inv_update _ _ _ _ _ _ _ _ _ HI f r b E).
    - split; done || congruence.
    - intros x. exact (gr_closed _ _ _ _ _ _ _ _ _ HI _ _ x E).
    - intros j. rewrite Hclkb. pose proof (Hpos j). lia. }
  assert (Hok1 : cell_ok clk rem (rw_root_block w1) (rw_heap w1) r (f b)).
  { eapply (cell_ok_ext _ _ _ (rw_heap w)); simpl.
    - intros. apply delivered_at_alter. intros. by simplify_eq.
    - intros. apply clock_at_alter. intros. simplify_eq. split; [done|congruence].
    - intros. f_equal. apply rev_at_alter. intros. by simplify_eq.
    - unfold cell_ok. change (rb_state (f b)) with (rb_state b). rewrite Hs.
      change (parents (f b)) with (parents b). change (rb_pending_deps (f b)) with pending.
      split_and!; [done|lia|done|done|]. intros j. rewrite Hclkb, <- Hck.
      rewrite (decide_True (P := r ∈ r :: rem)) by set_solver. destruct (decide (r ∈ rem)); [|pose proof (Hpos j)]; [lia|].
      pose proof (gr_clock _ _ _ _ _ _ _ _ _ HI _ _ j E). lia. }
  assert (Hq1 : quiet w w1) by (apply quiet_update; intros; simplify_eq; split; done || congruence).
  assert (Hsub : stuck (rw_heap w1) ⊆ stuck (rw_heap w)).
  { apply stuck_update. intros c Hc _. simplify_eq. unfold is_stuck. rewrite bool_decide_eq_true_2 by done. simpl.
    apply negb_true_iff, N.eqb_neq. lia. }
  assert (Hin : r ∈ stuck (rw_heap w)).
  { apply elem_of_stuck. exists b. split; [done|]. unfold is_stuck. rewrite bool_decide_eq_true_2 by done. simpl.
    apply negb_true_iff, N.eqb_neq. lia. }
  assert (Hself : rw_heap w1 !! self = rw_heap w !! self) by (by apply lookup_alter_ne).
  pose proof (subseteq_size _ _ Hsub) as Hsize.
  destruct ((pending =? 0) && rb_in_db b) eqn:Epush.
  - apply andb_true_iff in Epush as [Hp0%N.eqb_eq Hdb]. split.
    + apply (graph_inv_weaken ({[r]} ∖ {[r]}) {[self]}); [|set_solver|done].
      eapply graph_inv_restore; [eapply graph_inv_enqueue; [exact HI1|exact Hb1|simpl; congruence|set_solver]
        |exact Hb1|exact Hok1|]. intros _. split; [set_solver|]. intros _. by split.
    + split_and!; [etrans; [exact Hq1|by apply quiet_heap]| |done].
      assert (Hnin : r ∉ stuck (rw_heap w1)).
      { rewrite elem_of_stuck. intros (c & Hc & Hst). rewrite Hb1 in Hc. injection Hc as <-. unfold is_stuck in Hst.
        change (rb_pending_deps (f b)) with pending in Hst. rewrite Hp0 in Hst. by destruct (bool_decide _). }
      assert (Hlt' : (size (stuck (rw_heap w1)) < size (stuck (rw_heap w)))%nat) by (apply subset_size; set_solver).
      unfold load. change (rw_heap (run_block r w1)) with (rw_heap w1). simpl. rewrite length_app. simpl in *. lia.
  - split.
    + apply (graph_inv_weaken ({[r]} ∖ {[r]}) {[self]}); [|set_solver|done].
      eapply graph_inv_restore; [exact HI1|exact Hb1|exact Hok1|]. intros _. split.
      * intros [Hp0 Hdb]. change (rb_pending_deps (f b)) with pending in Hp0. change (rb_in_db (f b)) with (rb_in_db b) in Hdb.
        rewrite Hp0, Hdb in Epush. done.
      * intros Hq. destruct (gr_queue _ _ _ _ _ _ _ _ _ HI r Hq) as (c & Hc & _ & Hz). simplify_eq.
        destruct (Hz ltac:(set_solver) Hs). lia.
    + split_and!; [done| |done]. unfold load. simpl in *. lia.
Qed.

Lemma dependencies_delivered_inv B self heights clk rem w w' :
  graph_inv_of ∅ {[self]} clk rem w → (∀ j : nat, clk j = default 0%Z (heights !! j)) → (∀ j, 0 ≤ clk j)%Z →
  delivered_at (rw_heap w) self = true → (∀ r, r ∈ rem → r ∈ rev_at (rw_heap w) self) →
  mfoldl (λ w rev_dep, _ ← borrow_block_mut B w rev_dep; dependency_delivered rev_dep heights Delivered w) w rem = Done w' →
  graph_inv_of ∅ {[self]} clk [] w' ∧ told self w w'.
Proof.
  intros HI Hh Hpos. revert w HI. induction rem as [|r rem IH]; intros w HI Hdel Hr H; simpl in H.
  { injection H as <-. split; [done|apply told_refl]. }
  outcome_step H. outcome_step E.
  destruct (dependency_delivered_inv _ _ _ _ _ _ _ HI Hh Hpos Hdel (Hr r ltac:(set_solver)) E) as [HI1 Ht1].
  destruct Ht1 as (Hq1 & Hl1 & Hs1). destruct (IH a HI1) as [HI2 Ht2].
  - by rewrite (quiet_delivered w a).
  - intros y Hy. unfold rev_at. rewrite Hs1. apply Hr. set_solver.
  - done.
  - split; [done|]. eapply told_trans; [|exact Ht2]. done.
Qed.

Lemma graph_inv_clear clk self w :
  graph_inv_of ∅ {[self]} clk [] w → delivered_at (rw_heap w) self = true →
  graph_ok (update_block self (set_rev_deps []) w).
Proof.
  intros HI Hd. unfold graph_inv_of in *. simpl. set (h := rw_heap w) in *. set (h' := alter (set_rev_deps []) self h).
  assert (Hdel : ∀ x, delivered_at h' x = delivered_at h x) by (intros; by apply delivered_at_alter).
  assert (Hclk : ∀ x j, clock_at h' x j = clock_at h x j) by (intros; by apply clock_at_alter).
  assert (Hrev : ∀ x, rev_at h' x = if decide (x = self) then [] else rev_at h x).
  { intros x. unfold rev_at. destruct (decide (x = self)) as [->|]; [|unfold h'; by rewrite lookup_alter_ne].
    unfold h'. rewrite lookup_alter_eq. by destruct (h !! self). }
  assert (Hlook : ∀ x c', h' !! x = Some c' → ∃ c, h !! x = Some c ∧ c' = set_rev_deps (rb_rev_deps c') c).
  { intros x c' [[-> (c & Hc & ->)]|[_ Hc]]%lookup_alter_Some; [by exists c|]. exists c'. split; [done|]. by destruct c'. }
  assert (Hlook' : ∀ x c, h !! x = Some c → ∃ l, h' !! x = Some (set_rev_deps l c)).
  { intros x c Hc. unfold h'. destruct (decide (x = self)) as [->|]; [rewrite lookup_alter_eq, Hc; simpl; by eexists|].
    rewrite lookup_alter_ne, Hc by done. exists (rb_rev_deps c). by destruct c. }
  apply (graph_inv_clk _ _ clk). destruct HI as [Hfresh Hroot Hclosed Hknown Hgrev Hgrd Hgc Hcell Hready Hqueue]. split.
  - intros x c (c0 & Hc & _)%Hlook. eauto.
  - destruct Hroot as (c & Hc & ? & ?). destruct (Hlook' _ _ Hc) as (l & ->). by eexists.
  - intros x c y (c0 & Hc & ->)%Hlook Hy. destruct (Hclosed _ _ _ Hc Hy) as [d Hd'].
    destruct (Hlook' _ _ Hd') as (l & ->). by eexists.
  - intros k x (c & Hc & ?)%Hknown. destruct (Hlook' _ _ Hc) as (l & ->). by eexists.
  - intros x r. rewrite Hrev. destruct (decide (x = self)); [set_solver|]. intros (c & Hc & ?)%Hgrev.
    destruct (Hlook' _ _ Hc) as (l & ->). by eexists.
  - intros x _. rewrite Hdel, Hrev. intros Hx. destruct (decide (x = self)); [done|]. apply Hgrd; [set_solver|done].
  - intros x c j (c0 & Hc & ->)%Hlook. exact (Hgc _ _ j Hc).
  - intros x c Hx (c0 & Hc & ->)%Hlook. specialize (Hcell _ _ Hx Hc). unfold cell_ok in *. simpl rb_state.
    change (parents (set_rev_deps (rb_rev_deps c) c0)) with (parents c0). destruct (rb_state c0); try done.
    + destruct Hcell as (H1 & H2 & H3 & H4 & H5). split_and!; try done.
      * rewrite (waiting_ext h h') by done. done.
      * intros y. rewrite Hdel, Hrev. intros Hy. rewrite decide_False by (intros ->; congruence). by apply H4.
      * intros j. rewrite (max_clock_ext h h') by done. apply H5.
    + destruct Hcell as [->|(H1 & H2 & H3)]; [by left|right]. split_and!; [done| |].
      * intros y Hy. rewrite Hdel. by apply H2.
      * intros j. rewrite (max_clock_ext h h') by done. apply H3.
  - intros x c Hx (c0 & Hc & ->)%Hlook. exact (Hready _ _ Hx Hc).
  - intros x (c & Hc & ? & Hq)%Hqueue. destruct (Hlook' _ _ Hc) as (l & ->). eexists. split; [done|]. by split.
Qed.

(** The event of the listener reports the block. *)
Lemma mmap_hashes B w deps hashes :
  mmap (λ dep, d ← borrow_block B w dep; Done (rb_hash d)) deps = Done hashes →
  Forall2 (hash_at (rw_heap w)) hashes deps.
Proof.
  revert hashes. induction deps as [|dep deps IH]; intros hashes H; simpl in H; [injection H as <-; constructor|].
  outcome_step H. outcome_step H. injection H as <-. outcome_step E. injection E as <-.
  apply borrow_block_inv in E1 as [_ Hd]. constructor; [by eexists|auto].
Qed.

Lemma deliver_block_event B w self b w' :
  rw_heap w !! self = Some b → is_Some (rb_prev b) → Receiver_deliver_block B w self = Done w' →
  ∃ e, w' = with_new_blocks (rw_new_blocks w ++ [e]) w ∧ event_of (rw_heap w) self e.
Proof.
  intros Hb [p Hp] H. unfold Receiver_deliver_block in H. outcome_step H. apply self_block_inv in E.
  rewrite Hb in E. injection E as <-. outcome_step H. outcome_step H. injection H as <-. rewrite Hp in E.
  outcome_step E. injection E as <-. apply borrow_block_inv in E1 as [_ Hpb]. apply mmap_hashes in E0.
  eexists. split; [reflexivity|]. split. exists b. split_and!; try done. exists p. split; [done|]. by eexists.
Qed.

(** The block is appended to the log. *)
Lemma log_deliver w self b e h' :
  log_ok w → rw_heap w !! self = Some b → rb_state b ≠ Delivered → self ≠ rw_root_block w →
  (∀ x, x ∈ parents b → delivered_at (rw_heap w) x = true) → event_of (rw_heap w) self e →
  h' = alter (set_state Delivered) self (rw_heap w) →
  log_ok (with_heap h' (with_new_blocks (rw_new_blocks w ++ [e]) w)).
Proof.
  intros (order & [H1 H2 H3 H4]) Hb Hs Hroot Hall He ->. set (h := rw_heap w) in *.
  set (h' := alter (set_state Delivered) self h).
  assert (Hother : ∀ x, x ≠ self → h' !! x = h !! x) by (intros; by apply lookup_alter_ne).
  assert (Hself : h' !! self = Some (set_state Delivered b)) by (unfold h'; by rewrite lookup_alter_eq, Hb).
  assert (Hd0 : delivered_at h self = false) by (unfold delivered_at; rewrite Hb; by apply delivered_false).
  assert (Hnin : self ∉ order) by (intros [_ Hd]%H2; congruence).
  assert (Hhash : ∀ k x, hash_at h k x → hash_at h' k x).
  { intros k x (c & Hc & <-). destruct (decide (x = self)) as [->|]; [|exists c; by rewrite Hother].
    rewrite Hb in Hc. injection Hc as <-. eexists. split; [exact Hself|done]. }
  assert (Hev : ∀ r e c c', h !! r = Some c → h' !! r = Some c' → (c' = c ∨ c' = set_state Delivered c) →
    event_of h r e → event_of h' r e).
  { intros r e' c c' Hc Hc' Heq [(d & Hd & E1 & E2 & E3 & E4 & E5 & E6 & (p & Hp & Hh) & Hds)]. simplify_eq.
    split. exists c'. split; [done|]. destruct Heq as [->| ->]; split_and!; try done.
    all: try (exists p; split; [done|]; by apply Hhash).
    all: eapply list.Forall2_impl; [exact Hds|]; intros; by apply Hhash. }
  exists (order ++ [self]). split; simpl.
  - apply list.NoDup_app. split_and!; [done|by intros x Hx ->%list_elem_of_singleton|apply NoDup_singleton].
  - intros r. rewrite elem_of_app, list_elem_of_singleton, H2. unfold delivered_at.
    destruct (decide (r = self)) as [->|Hne]; [rewrite Hself; naive_solver|]. rewrite Hother by done. naive_solver.
  - apply Forall2_app; [|constructor; [|constructor]].
    + apply Forall2_same_length_lookup in H3 as [Hl H3]. apply Forall2_same_length_lookup. split; [done|].
      intros i r e' Hr He'. pose proof (H3 i r e' Hr He') as Hold. destruct (ev_block _ _ _ Hold) as (c & Hc & _).
      assert (r ≠ self) by (intros ->; apply Hnin; by eapply list_elem_of_lookup_2).
      apply (Hev r e' c c); [done|by rewrite Hother|by left|done].
    + apply (Hev self e b (set_state Delivered b)); auto.
  - intros i r c x Hr Hc Hx. apply lookup_app_Some in Hr as [Hr|[Hi Hr]].
    + assert (r ≠ self) by (intros ->; apply Hnin; by eapply list_elem_of_lookup_2). rewrite Hother in Hc by done.
      destruct (H4 i r c x Hr Hc Hx) as [?|(j & Hj & Hx')]; [by left|right]. exists j. split; [done|].
      by apply lookup_app_l_Some.
    + apply list_lookup_singleton_Some in Hr as [Hi' <-]. rewrite Hself in Hc. injection Hc as <-.
      change (parents (set_state Delivered b)) with (parents b) in Hx.
      destruct (decide (x = rw_root_block w)) as [->|Hne]; [by left|right].
      assert (x ∈ order) as [j Hj]%list_elem_of_lookup by (apply H2; auto).
      exists j. pose proof (lookup_lt_Some _ _ _ Hj). split; [lia|by apply lookup_app_l_Some].
Qed.

Lemma deliver_inv B w self w' :
  prepared true self w → log_ok w → ReceivedBlock_deliver B w self = Done w' →
  graph_ok w' ∧ log_ok w' ∧ (load w' ≤ load w)%nat ∧ rw_new_blocks w `prefix_of` rw_new_blocks w'.
Proof.
  intros Hp Hlog H. destruct (pr_block _ _ _ Hp) as (b & Hb & Hs & Hp0 & Hdb & Hprev & Hall & Hck).
  unfold ReceivedBlock_deliver in H. outcome_step H. apply self_block_inv in E. rewrite Hb in E. injection E as <-.
  rewrite bool_decide_eq_false_2 in H by congruence. do 3 (outcome_step H; clear E). clear a a0 a1.
  outcome_step H. apply (deliver_block_event _ _ _ b) in E as (e & -> & He); [|done..].
  outcome_step H. rename a into w3.
  set (w2 := update_block self (set_state Delivered) (with_new_blocks (rw_new_blocks w ++ [e]) w)) in *.
  pose proof (graph_inv_deliver w self b (rw_heap w2) Hp Hb eq_refl) as HI2.
  assert (Hroot : self ≠ rw_root_block w).
  { intros ->. destruct (gr_root _ _ _ _ _ _ _ _ _ (pr_inv _ _ _ Hp)) as (c & Hc & Hsc & _). congruence. }
  assert (Hlog2 : log_ok w2) by (by eapply log_deliver; [exact Hlog|exact Hb|congruence|..]).
  assert (Hb2 : rw_heap w2 !! self = Some (set_state Delivered b)) by (simpl; by rewrite lookup_alter_eq, Hb).
  assert (Hd2 : delivered_at (rw_heap w2) self = true) by (unfold delivered_at; by rewrite Hb2).
  assert (Hl2 : (load w2 ≤ load w)%nat) by (apply (load_update (with_new_blocks _ w)); done).
  assert (Hpos : ∀ j, (0 ≤ clock b j)%Z) by (intros j; exact (gr_clock _ _ _ _ _ _ _ _ _ (pr_inv _ _ _ Hp) _ _ j Hb)).
  destruct (dependencies_delivered_inv B self (rb_forks_dep_heights b) (clock b) (rb_rev_deps b) w2 w3) as [HI3 (Hq3 & Hl3 & Hs3)];
    [exact HI2|done|exact Hpos|done|unfold rev_at; by rewrite Hb2|exact E|].
  assert (Hd3 : delivered_at (rw_heap w3) self = true) by (by rewrite (quiet_delivered w2)).
  pose proof (graph_inv_clear _ _ _ HI3 Hd3) as HI4. apply call_source_inv in H as (l & rc & ->). split_and!.
  - exact HI4.
  - eapply quiet_log; [|exact Hlog2]. etrans; [exact Hq3|].
    etrans; [apply (quiet_update w3 self (set_rev_deps [])); by split|by apply quiet_heap].
  - change (load (update_block self (set_rev_deps []) w3) ≤ load w)%nat.
    pose proof (load_update w3 self (set_rev_deps []) ltac:(done)). lia.
  - simpl. rewrite (q_log _ _ Hq3). simpl. by apply prefix_app_r.
Qed.

(** ** The scheduler *)
Lemma pop_other w self rest :
  graph_ok w → rw_blocks_to_run w = self :: rest →
  (∀ b, rw_heap w !! self = Some b → rb_state b ≠ Initialized) → graph_ok (with_blocks_to_run rest w).
Proof.
  intros [? ? ? ? ? ? ? ? Hready Hqueue] Hq Hs. split; try done.
  - intros r b Hr Hb ???. assert (r ∈ self :: rest) as [->|]%elem_of_cons by (rewrite <- Hq; eauto); [|done].
    by destruct (Hs b Hb).
  - intros r Hr. apply Hqueue. rewrite Hq. set_solver.
Qed.

Lemma process_inv B w self rest w' :
  graph_ok w → log_ok w → rw_blocks_to_run w = self :: rest →
  ReceivedBlock_process cfg B (with_blocks_to_run rest w) self = Done w' →
  graph_ok w' ∧ log_ok w' ∧ (load w' < load w)%nat ∧ rw_new_blocks w `prefix_of` rw_new_blocks w'.
Proof.
  intros HI Hlog Hq H. unfold ReceivedBlock_process in H. outcome_step H. apply self_block_inv in E. simpl in E.
  set (w0 := with_blocks_to_run rest w) in *.
  assert (Hlog0 : log_ok w0) by (eapply quiet_log; [by apply quiet_heap|exact Hlog]).
  assert (Hload : (load w0 < load w)%nat) by (unfold load; simpl; rewrite Hq; simpl; lia).
  assert (Hidle : rb_state a ≠ Initialized → Done w0 = Done w' →
    graph_ok w' ∧ log_ok w' ∧ (load w' < load w)%nat ∧ rw_new_blocks w `prefix_of` rw_new_blocks w').
  { intros Hs [= <-]. split_and!; [|done|done|done]. apply (pop_other w self rest); [done..|]. intros b Hb. by simplify_eq. }
  destruct (rb_state a) eqn:Es; [by apply Hidle|by apply Hidle| |by apply Hidle]. clear Hidle.
  pose proof (pop_prepared w self rest a HI Hq E Es) as Hp0. fold w0 in Hp0.
  do 2 (outcome_step H; clear E0). clear a0 a1. outcome_step H. rename a0 into w1.
  destruct (initialize_fork_inv _ _ _ _ Hp0 E0) as (Hp1 & Hq1 & Hl1). outcome_step H. rename a0 into w2.
  assert (Hlog1 : log_ok w1) by (by eapply quiet_log).
  destruct (pre_deliver_inv _ _ _ _ Hp1 E1) as [(HI2 & Hq2 & Hl2 & b2 & Hb2 & Hs2)|(Hp2 & Hq2 & Hl2)].
  - unfold ReceivedBlock_deliver, self_block in H. rewrite Hb2 in H.
    cbn [unwrap mbind outcome_bind] in H. rewrite bool_decide_eq_true_2 in H by done.
    injection H as <-. split_and!; [done|by eapply quiet_log|lia|].
    by rewrite (q_log _ _ Hq2), (q_log _ _ Hq1).
  - assert (Hlog2 : log_ok w2) by (by eapply quiet_log).
    destruct (deliver_inv _ _ _ _ Hp2 Hlog2 H) as (HI3 & Hlog3 & Hl3 & Hpre). split_and!; [done|done|lia|].
    by rewrite (q_log _ _ Hq2), (q_log _ _ Hq1) in Hpre.
Qed.

(** The load bounds the number of iterations. *)
Lemma run_scheduler_inv fuel w :
  graph_ok w → log_ok w → (load w ≤ fuel)%nat →
  ∃ o, run_scheduler cfg fuel w = Some o ∧
    ∀ w', o = Done w' → graph_ok w' ∧ log_ok w' ∧ rw_blocks_to_run w' = [] ∧ rw_new_blocks w `prefix_of` rw_new_blocks w'.
Proof.
  revert w. induction fuel as [|fuel IH]; intros w HI Hlog Hl; cbn [run_scheduler];
    destruct (rw_blocks_to_run w) as [|self rest] eqn:Hq.
  1, 3: eexists; split; [done|]; by intros w' [= <-].
  { unfold load in Hl. rewrite Hq in Hl. simpl in Hl. lia. }
  destruct (_ ← borrow_block_mut _ _ _; _) as [w1|] eqn:E; [|by eexists].
  outcome_step E. destruct (process_inv _ _ _ _ _ HI Hlog Hq E) as (HI1 & Hlog1 & Hl1 & Hpre1).
  destruct (IH w1 HI1 Hlog1 ltac:(lia)) as (o & -> & Ho). exists o. split; [done|]. intros w' Hw'.
  destruct (Ho w' Hw') as (? & ? & ? & Hpre). split_and!; try done. by etrans.
Qed.

(** With an empty queue every block that is written waits for a parent. *)
Lemma idle_waits w r b :
  graph_ok w → rw_blocks_to_run w = [] → rw_heap w !! r = Some b → rb_state b = Initialized → rb_in_db b = true →
  ∃ x, x ∈ parents b ∧ delivered_at (rw_heap w) x = false.
Proof.
  intros HI Hq Hb Hs Hdb. pose proof (gr_cell _ _ _ _ _ _ _ _ _ HI r b ltac:(set_solver) Hb) as Hok.
  unfold cell_ok in Hok. rewrite Hs in Hok. destruct Hok as (_ & _ & Hpe & _).
  destruct (decide (Exists (λ x, delivered_at (rw_heap w) x = false) (parents b))) as [Hex|Hex].
  { by apply list.Exists_exists in Hex. }
  assert (Hz : waiting (rw_heap w) (parents b) = 0%nat).
  { apply waiting_0. intros x Hx. destruct (delivered_at (rw_heap w) x) eqn:E; [done|]. destruct Hex.
    apply list.Exists_exists. eauto. }
  rewrite Hz in Hpe. assert (r ∈ rw_blocks_to_run w) as Hin by (eapply gr_ready; [exact HI|set_solver|done..]).
  rewrite Hq in Hin. set_solver.
Qed.

(** ** The initial state *)
Lemma Receiver_new_inv : graph_ok (Receiver_new cfg) ∧ log_ok (Receiver_new cfg).
Proof.
  unfold Receiver_new. set (root := ReceivedBlock_with_id _ _ _ _ _ _ _).
  assert (Hcell : ∀ x b, ({[0 := root]} : BlockHeap) !! x = Some b → x = 0 ∧ b = root).
  { intros x b Hx. by apply lookup_singleton_Some in Hx as [<- <-]. }
  assert (Hrev : ∀ x, rev_at {[0 := root]} x = []).
  { intros x. unfold rev_at. destruct (({[0 := root]} : BlockHeap) !! x) eqn:E; [|done]. by apply Hcell in E as [_ ->]. }
  split.
  - split; simpl.
    + intros r b [-> _]%Hcell. lia.
    + exists root. by rewrite lookup_singleton_eq.
    + intros r b x [-> ->]%Hcell. set_solver.
    + intros k r [<- <-]%lookup_singleton_Some. exists root. by rewrite lookup_singleton_eq.
    + intros x r. rewrite Hrev. set_solver.
    + intros. apply Hrev.
    + intros r b j [-> ->]%Hcell. done.
    + intros r b _ [-> ->]%Hcell. by left.
    + intros r b _ [-> ->]%Hcell. done.
    + set_solver.
  - exists []. split; simpl; [constructor| |constructor|by intros ? ? ? ?].
    intros r. split; [set_solver|]. intros [Hr Hd]. apply delivered_at_Some in Hd as (b & [-> _]%Hcell & _). done.
Qed.
End delivery.
