(* ===== verification/Catchain.v ===== *)
(** * Catchain: reachable states of the receiver

    The operations of the receiver as a step relation, and the invariant of the
    block graph in every reachable state. *)

From S2P Require Import Prelude ReceivedBlock ReceiverSource BlockGraph BlockGraphFacts BlockInitialize BlockDelivery.

Section catchain.
Context {X : CatchainExternal} (cfg : ReceiverConfig).
Implicit Types (w : ReceiverWorld) (B : Borrows) (self ref : N) (b : ReceivedBlock).

(** One call that returns: a block from the network, a completed write, a fork
    proof, a block of the node itself (requested, written, and the next pending
    one), the synchronisation with a source, and the scheduler. *)
Inductive catchain_step w : ReceiverWorld → Prop :=
| step_receive_block block payload res w' :
    receive_block cfg w block payload = Done (res, w') → catchain_step w w'
| step_block_written fuel id ref b w' :
    rw_blocks w !! get_block_id_hash id = Some ref → rw_heap w !! ref = Some b → rb_state b ≠ Null →
    block_written_to_db cfg fuel w id = Some (Done w') → catchain_step w w'
| step_got_fork_proof left right w' :
    got_fork_proof cfg w left right = Done w' → catchain_step w w'
| step_add_block payload deps res w' :
    add_block cfg w payload deps = Done (res, w') → catchain_step w w'
| step_add_block_written block payload w' :
    N.of_nat (length (blk_deps block)) + 1 < two64 →
    add_block_written cfg w block payload = Done w' → catchain_step w w'
| step_send_next_block res w' :
    send_next_block cfg w = Done (res, w') → catchain_step w w'
| step_synchronize source_id res w' :
    synchronize_pending_deps w source_id = Done (res, w') → catchain_step w w'
| step_process fuel w' :
    Receiver_process cfg fuel w = Some (Done w') → catchain_step w w'.

Inductive catchain_reachable : ReceiverWorld → Prop :=
| catchain_init : catchain_reachable (Receiver_new cfg)
| catchain_next w w' : catchain_reachable w → catchain_step w w' → catchain_reachable w'.

(** ** Unknown dependencies *)
Definition unknown_hash (h : BlockHeap) (hash : N) : Prop :=
  ∃ r b, h !! r = Some b ∧ rb_state b = Null ∧ rb_hash b = hash.

(** What the traversal changes: the marks of the call. *)
Record marks w w' : Prop := {
  mk_inv : graph_ok w → graph_ok w';
  mk_quiet : quiet w w';
  mk_queue : rw_blocks_to_run w' = rw_blocks_to_run w;
  mk_unknown hash : unknown_hash (rw_heap w) hash ↔ unknown_hash (rw_heap w') hash;
}.

Lemma marks_refl w : marks w w.
Proof. by split. Qed.

Lemma marks_trans w1 w2 w3 : marks w1 w2 → marks w2 w3 → marks w1 w3.
Proof. intros [? ? ? H1] [? ? ? H2]. split; [auto|by etrans|congruence|]. intros hash. by rewrite H1, H2. Qed.

Lemma marks_update w self call_id : marks w (update_block self (set_get_pending_deps_call_id call_id) w).
Proof.
  split; [|by apply quiet_update; split|done|].
  - intros HI. by apply (graph_inv_inert _ _ _ _ _ _ _ _ _ HI).
  - intros hash. unfold unknown_hash. simpl. split.
    + intros (r & b & Hb & Hs & Hh). destruct (decide (r = self)) as [->|].
      * eexists self, _. rewrite lookup_alter_eq, Hb. by split_and!.
      * exists r, b. by rewrite lookup_alter_ne.
    + intros (r & b & [[-> (c & Hc & ->)]|[_ Hb]]%lookup_alter_Some & Hs & Hh); [by eexists _, c|by exists r, b].
Qed.

Lemma get_pending_deps_inv fuel B w self call_id max hashes hashes' w' :
  get_pending_deps fuel B w self call_id max hashes = Done (hashes', w') →
  N.of_nat (length hashes) <= max → Forall (unknown_hash (rw_heap w)) hashes →
  marks w w' ∧ N.of_nat (length hashes') <= max ∧ Forall (unknown_hash (rw_heap w')) hashes' ∧ hashes `prefix_of` hashes'.
Proof.
  revert B w self hashes hashes' w'. induction fuel as [|fuel IH]; intros B w self hashes hashes' w' H Hlen Hall; [done|].
  cbn [get_pending_deps] in H. outcome_step H. apply self_block_inv in E. rename a into b.
  destruct (_ =? _); [injection H as <- <-; split_and!; [apply marks_refl|done..]|].
  set (w1 := update_block self (set_get_pending_deps_call_id call_id) w) in *.
  pose proof (marks_update w self call_id) as Hm. fold w1 in Hm.
  assert (Hall1 : Forall (unknown_hash (rw_heap w1)) hashes).
  { eapply list.Forall_impl; [exact Hall|]. intros hash. apply Hm. }
  destruct (_ || _) eqn:Estop; [injection H as <- <-; by split_and!|].
  apply orb_false_iff in Estop as [Estop Emax]. apply N.eqb_neq in Emax.
  apply orb_false_iff in Estop as [Estop Edel]. apply orb_false_iff in Estop as [_ Eill].
  destruct (ReceivedBlock_is_initialized b) eqn:Einit; cbn [negb] in H.
  - assert (Hloop : ∀ l acc r, N.of_nat (length acc.1) <= max → Forall (unknown_hash (rw_heap acc.2)) acc.1 →
      mfoldl (λ acc parent, _ ← borrow_block_mut B (snd acc) parent;
        get_pending_deps fuel (hold_block_mut parent B) (snd acc) parent call_id max (fst acc)) acc l = Done r →
      marks acc.2 r.2 ∧ N.of_nat (length r.1) <= max ∧ Forall (unknown_hash (rw_heap r.2)) r.1 ∧ acc.1 `prefix_of` r.1).
    { induction l as [|p l IHl]; intros acc r Hl Ha Hf; simpl in Hf.
      { injection Hf as <-. split_and!; [apply marks_refl|done..]. }
      outcome_step Hf. outcome_step E0. destruct a as [hs wa].
      destruct (IH _ _ _ _ _ _ E0 Hl Ha) as (Hm1 & Hl1 & Ha1 & Hp1).
      destruct (IHl (hs, wa) r Hl1 Ha1 Hf) as (Hm2 & Hl2 & Ha2 & Hp2).
      split_and!; [by eapply marks_trans|done|done|by etrans]. }
    destruct (Hloop _ (hashes, w1) (hashes', w') Hlen Hall1 H) as (Hm2 & ? & ? & ?).
    split_and!; [by eapply marks_trans|done..].
  - injection H as <- <-. split_and!; [done|rewrite length_app; simpl; lia| |by apply prefix_app_r].
    apply Forall_app_2; [done|]. apply Forall_singleton. exists self.
    eexists. simpl. rewrite lookup_alter_eq, E. split; [done|]. split; [|done]. simpl.
    apply bool_decide_eq_false in Eill. apply delivered_false in Edel.
    unfold ReceivedBlock_is_initialized in Einit. by destruct (rb_state b).
Qed.

Lemma synchronize_inv w source_id hashes w' :
  synchronize_pending_deps w source_id = Done (hashes, w') →
  (graph_ok w → graph_ok w') ∧ quiet w w' ∧ (length hashes ≤ 16)%nat ∧ Forall (unknown_hash (rw_heap w')) hashes.
Proof.
  unfold synchronize_pending_deps. intros H. outcome_step H. outcome_step H. destruct (_ <=? _)%Z.
  { injection H as <- <-. split_and!; [done..|simpl; lia|constructor]. }
  destruct (blocks a !! _) as [first|].
  2:{ injection H as <- <-. split_and!; [done..|simpl; lia|constructor]. }
  outcome_step H. apply get_pending_deps_inv in H as ([Hi Hq _ _] & Hl & Ha & _); [|done|constructor].
  split_and!; [exact Hi| |unfold MAX_PENDING_DEPS_COUNT in Hl; lia|done]. etrans; [|exact Hq]. by apply quiet_heap.
Qed.

(** ** Every step *)
Lemma add_block_inv w payload deps res w' :
  add_block cfg w payload deps = Done (res, w') → (graph_ok w → graph_ok w') ∧ quiet w w'.
Proof.
  unfold add_block. destruct (rw_active_send w); [intros [= <- <-]; split; [done|by apply quiet_heap]|].
  unfold add_block_impl. intros H. do 6 outcome_step H.
  destruct (sign_block_id _); injection H as <- <-; (split; [done|by apply quiet_heap]).
Qed.

Lemma add_block_written_inv w block payload w' :
  N.of_nat (length (blk_deps block)) + 1 < two64 → graph_ok w → add_block_written cfg w block payload = Done w' →
  graph_ok w' ∧ quiet w w'.
Proof.
  intros Hlen HI H. unfold add_block_written in H. outcome_step H. destruct a as [[ref|] w1].
  - destruct (create_block_with_payload_inv cfg _ _ _ _ _ _ HI Hlen E) as (HI1 & Hq1 & Hr). outcome_step H.
    set (w2 := with_sending ref (rw_active_send w1) w1) in *. assert (HI2 : graph_ok w2) by exact HI1.
    destruct (written_inv w2 ref w' HI2 (Hr ref eq_refl) H) as [? Hq2]. split; [done|]. etrans; [exact Hq1|].
    etrans; [|exact Hq2]. by apply quiet_heap.
  - injection H as <-. by destruct (create_block_with_payload_inv cfg _ _ _ _ _ _ HI Hlen E) as (? & ? & _).
Qed.

Lemma got_fork_proof_inv w left right w' :
  got_fork_proof cfg w left right = Done w' → (graph_ok w → graph_ok w') ∧ quiet w w'.
Proof.
  unfold got_fork_proof. intros H. outcome_step H. destruct (negb a); [by injection H as <-|].
  outcome_step H. destruct (negb a0); [by injection H as <-|]. destruct (_ || _); [by injection H as <-|].
  apply call_source_inv in H as (l & rc & ->). split; [done|by apply quiet_heap].
Qed.

(** A run that returned with some fuel returned the same with more. *)
Lemma run_scheduler_mono fuel fuel' w o :
  run_scheduler cfg fuel w = Some o → (fuel ≤ fuel')%nat → run_scheduler cfg fuel' w = Some o.
Proof.
  revert fuel' w. induction fuel as [|fuel IH]; intros fuel' w H Hle.
  - cbn [run_scheduler] in H. destruct (rw_blocks_to_run w) eqn:Hq; [|done]. destruct fuel'; cbn [run_scheduler]; by rewrite Hq.
  - cbn [run_scheduler] in H. destruct fuel' as [|fuel']; [lia|]. cbn [run_scheduler].
    destruct (rw_blocks_to_run w); [done|]. destruct (_ ← borrow_block_mut _ _ _; _); [|done]. apply IH; [done|lia].
Qed.

Lemma run_scheduler_done fuel w w' :
  graph_ok w → log_ok w → run_scheduler cfg fuel w = Some (Done w') →
  graph_ok w' ∧ log_ok w' ∧ rw_blocks_to_run w' = [] ∧ rw_new_blocks w `prefix_of` rw_new_blocks w'.
Proof.
  intros HI Hlog H. destruct (run_scheduler_inv cfg (fuel + load w) w HI Hlog ltac:(lia)) as (o & Ho & Hpost).
  apply (run_scheduler_mono _ (fuel + load w)) in H; [|lia]. rewrite H in Ho. injection Ho as <-. by apply Hpost.
Qed.

Lemma mark_block_written_inv w hash ref b w' :
  graph_ok w → rw_blocks w !! hash = Some ref → rw_heap w !! ref = Some b → rb_state b ≠ Null →
  mark_block_written w hash = Done w' → graph_ok w' ∧ quiet w w'.
Proof.
  intros HI Hk Hb Hn H. unfold mark_block_written in H. rewrite Hk in H. cbn [unwrap mbind outcome_bind] in H.
  outcome_step H. apply (written_inv w ref); [done|by exists b|done].
Qed.

Lemma catchain_step_ok w w' :
  cfg_max_deps cfg + 1 < two64 → graph_ok w → log_ok w → catchain_step w w' →
  graph_ok w' ∧ log_ok w' ∧ rw_new_blocks w `prefix_of` rw_new_blocks w'.
Proof.
  intros Hmax HI Hlog Hstep.
  assert (Hquiet : graph_ok w' → quiet w w' → graph_ok w' ∧ log_ok w' ∧ rw_new_blocks w `prefix_of` rw_new_blocks w').
  { intros HI' Hq. split_and!; [done|by eapply quiet_log|]. by rewrite (q_log _ _ Hq). }
  destruct Hstep.
  - destruct (receive_block_inv cfg _ _ _ _ _ Hmax HI H) as (? & ? & _). auto.
  - unfold block_written_to_db in H2. destruct (mark_block_written w _) as [w1|] eqn:E; [|done].
    destruct (mark_block_written_inv _ _ _ _ _ HI H H0 H1 E) as [HI1 Hq1].
    destruct (run_scheduler_done _ _ _ HI1 (quiet_log _ _ Hq1 Hlog) H2) as (? & ? & _ & Hpre).
    rewrite (q_log _ _ Hq1) in Hpre. by split_and!.
  - apply got_fork_proof_inv in H as []. auto.
  - apply add_block_inv in H as []. auto.
  - destruct (add_block_written_inv _ _ _ _ H HI H0). auto.
  - unfold send_next_block in H. destruct (pending_blocks _).
    + injection H as <- <-. apply Hquiet; [done|by apply quiet_heap].
    + apply add_block_inv in H as [Hi Hq]. apply Hquiet; [by apply Hi|]. etrans; [|exact Hq]. by apply quiet_heap.
  - apply synchronize_inv in H as (? & ? & _). auto.
  - unfold Receiver_process in H. destruct (_ <? _)%nat.
    + by destruct (run_scheduler_done _ _ _ HI Hlog H) as (? & ? & _ & ?).
    + injection H as <-. by split_and!.
Qed.

Lemma catchain_reachable_ok w :
  cfg_max_deps cfg + 1 < two64 → catchain_reachable w → graph_ok w ∧ log_ok w.
Proof.
  intros Hmax. induction 1 as [|w w' _ [HI Hlog] Hstep]; [apply Receiver_new_inv|].
  by destruct (catchain_step_ok w w' Hmax HI Hlog Hstep) as (? & ? & _).
Qed.

(** ** Fork heights of delivered blocks *)
Inductive ancestor (h : BlockHeap) : N → N → Prop :=
| anc_refl x : ancestor h x x
| anc_parent x y z b : h !! x = Some b → y ∈ parents b → ancestor h y z → ancestor h x z.

Lemma delivered_cell w r b :
  graph_ok w → rw_heap w !! r = Some b → rb_state b = Delivered →
  r = rw_root_block w ∧ parents b = [] ∨ r ≠ rw_root_block w ∧ is_Some (rb_prev b) ∧
  (∀ x, x ∈ parents b → delivered_at (rw_heap w) x = true) ∧
  ∀ j, clock b j = Z.max (own_clock b j) (max_clock (rw_heap w) (parents b) j).
Proof.
  intros HI Hb Hs. destruct (gr_root _ _ _ _ _ _ _ _ _ HI) as (c & Hc & _ & Hp & _).
  destruct (decide (r = rw_root_block w)) as [->|Hne]; [left; by simplify_eq|right]. split; [done|].
  pose proof (gr_cell _ _ _ _ _ _ _ _ _ HI r b ltac:(set_solver) Hb) as Hok. unfold cell_ok in Hok. rewrite Hs in Hok.
  by destruct Hok as [?|?].
Qed.

Lemma ancestor_delivered w r a :
  graph_ok w → ancestor (rw_heap w) r a → delivered_at (rw_heap w) r = true →
  delivered_at (rw_heap w) a = true ∧ ∀ j, (clock_at (rw_heap w) a j ≤ clock_at (rw_heap w) r j)%Z.
Proof.
  intros HI. induction 1 as [x|x y z b Hb Hy _ IH]; intros Hd; [done|].
  apply delivered_at_Some in Hd as (b' & Hb' & Hs). rewrite Hb in Hb'. injection Hb' as <-.
  destruct (delivered_cell w x b HI Hb Hs) as [[_ Hp]|(_ & _ & Hall & Hck)]; [rewrite Hp in Hy; set_solver|].
  destruct (IH (Hall y Hy)) as [Hd Hle]. split; [done|]. intros j. etrans; [apply Hle|].
  unfold clock_at at 2. rewrite Hb, (proj2 (delivered_true b)) by done. rewrite Hck.
  pose proof (max_clock_elem (rw_heap w) (parents b) y j Hy). lia.
Qed.

Lemma max_clock_attained h l j :
  (0 < max_clock h l j)%Z → ∃ x, x ∈ l ∧ clock_at h x j = max_clock h l j.
Proof.
  induction l as [|x l IH]; simpl; [lia|]. intros Hpos.
  destruct (Z.max_spec (clock_at h x j) (max_clock h l j)) as [[_ E]|[_ E]]; rewrite E in *.
  - destruct (IH Hpos) as (y & ? & ?). exists y. set_solver.
  - exists x. set_solver.
Qed.

Lemma clock_attained w order i r j :
  graph_ok w → delivery_log (rw_root_block w) (rw_heap w) (rw_new_blocks w) order → order !! i = Some r →
  (0 < clock_at (rw_heap w) r j)%Z →
  ∃ a b, ancestor (rw_heap w) r a ∧ rw_heap w !! a = Some b ∧ N.to_nat (rb_fork_id b) = j ∧
    rb_height b = clock_at (rw_heap w) r j ∧ rb_state b = Delivered.
Proof.
  intros HI Hlog. revert r. induction (lt_wf i) as [i _ IH]. intros r Hi Hpos.
  assert (Hr : r ∈ order) by (by eapply list_elem_of_lookup_2). apply (dl_all _ _ _ _ Hlog) in Hr as [Hne Hd].
  apply delivered_at_Some in Hd as (b & Hb & Hs).
  destruct (delivered_cell w r b HI Hb Hs) as [[? _]|(_ & _ & Hall & Hck)]; [done|].
  assert (Hc : clock_at (rw_heap w) r j = clock b j).
  { unfold clock_at. by rewrite Hb, (proj2 (delivered_true b)). }
  rewrite Hc in *. rewrite Hck in *. unfold own_clock in *.
  destruct (Z.max_spec (if decide (N.to_nat (rb_fork_id b) = j) then rb_height b else 0%Z)
    (max_clock (rw_heap w) (parents b) j)) as [[_ E]|[_ E]]; rewrite E in *.
  - destruct (max_clock_attained _ _ _ Hpos) as (x & Hx & Hxc).
    destruct (dl_causal _ _ _ _ Hlog i r b x Hi Hb Hx) as [->|(k & Hk & Hxk)].
    + destruct (gr_root _ _ _ _ _ _ _ _ _ HI) as (c & Hrc & Hrs & _ & Hrf). unfold clock_at in Hxc.
      rewrite Hrc in Hxc. unfold clock in Hxc. rewrite Hrf in Hxc. destruct (ReceivedBlock_is_delivered c); simpl in Hxc; lia.
    + destruct (IH k Hk x Hxk) as (a & c & Ha & Hac & Hf & Hh & Hsc); [lia|]. exists a, c.
      split_and!; [by eapply anc_parent|done|done|lia|done].
  - destruct (decide (N.to_nat (rb_fork_id b) = j)) as [Hj|]; [|lia]. exists r, b. split_and!; try done. constructor.
Qed.
End catchain.
