(* ===== verification/BlockValidation.v ===== *)
(** * Catchain: which blocks are valid

    [validate_block_with_payload] against a declarative description of valid
    blocks. *)

From S2P Require Import Prelude ReceivedBlock ReceiverSource BlockGraph.

Section validation.
Context {X : CatchainExternal} (cfg : ReceiverConfig).
Implicit Types (w : ReceiverWorld) (block : Block) (dep : BlockDep).

(** The heights and source numbers of a message are [i32]s. *)
Definition i32 (z : Z) : Prop := (- 2147483648 ≤ z ≤ i32_max)%Z.
Definition dep_i32 dep : Prop := i32 (dep_src dep) ∧ i32 (dep_height dep).
Definition block_i32 block : Prop :=
  i32 (blk_src block) ∧ i32 (blk_height block) ∧ dep_i32 (blk_prev block) ∧ Forall dep_i32 (blk_deps block).

Definition sources_count : Z := Z.of_nat (length (cfg_source_keys cfg)).

(** A block of source [src] is signed when it is known already or its identifier
    is signed by the source. *)
Definition signed w (src height : Z) (data_hash : N) (signature : list N) : Prop :=
  ∃ key, cfg_source_keys cfg !! Z.to_nat src = Some key ∧
    let id := {| bid_incarnation := cfg_incarnation cfg; bid_src := key_id key; bid_height := height;
                 bid_data_hash := data_hash |} in
    is_Some (rw_blocks w !! get_block_id_hash id) ∨ verify_block_id key id signature = true.

(** A dependency is the root or a signed block of one of the sources. *)
Definition valid_dep w dep : Prop :=
  (dep_height dep = 0 ∧ dep_src dep = sources_count ∧ dep_data_hash dep = cfg_incarnation cfg ∧ dep_signature dep = [] ∨
   0 < dep_height dep ∧ 0 ≤ dep_src dep < sources_count ∧
   signed w (dep_src dep) (dep_height dep) (dep_data_hash dep) (dep_signature dep))%Z.

(** A block continues the chain of its source, from the root on, and depends on at
    most one block of every other source. *)
Definition valid_content w block (payload : list N) : Prop :=
  blk_incarnation block = cfg_incarnation cfg ∧ (0 < blk_height block)%Z ∧ (0 ≤ blk_src block < sources_count)%Z ∧
  N.of_nat (length (blk_deps block)) <= cfg_max_deps cfg ∧
  dep_src (blk_prev block) = (if decide (blk_height block = 1%Z) then sources_count else blk_src block) ∧
  (dep_height (blk_prev block) + 1 = blk_height block)%Z ∧
  NoDup (blk_src block :: (dep_src <$> blk_deps block)) ∧
  valid_dep w (blk_prev block) ∧ Forall (valid_dep w) (blk_deps block) ∧ payload ≠ [].

Definition valid_block w block (payload : list N) : Prop :=
  valid_content w block payload ∧
  signed w (blk_src block) (blk_height block) (get_hash_of_bytes payload) (blk_signature block).

(** ** The table of keys *)
Lemma key_table_other (l : list (N * CatchainKey)) (m : gmap N N) k :
  k ∉ ((λ p, key_id p.2) <$> l) → foldl (λ m p, <[key_id p.2 := p.1]> m) m l !! k = m !! k.
Proof.
  revert m. induction l as [|p l IH]; intros m Hk; [done|]. simpl. rewrite IH by set_solver.
  apply lookup_insert_ne. set_solver.
Qed.

Lemma key_table_lookup (l : list (N * CatchainKey)) (m : gmap N N) i key :
  NoDup ((λ p, key_id p.2) <$> l) → (i, key) ∈ l → foldl (λ m p, <[key_id p.2 := p.1]> m) m l !! key_id key = Some i.
Proof.
  revert m. induction l as [|p l IH]; intros m Hnd Hin; [set_solver|]. simpl in *. apply list.NoDup_cons in Hnd as [Hp Hnd].
  apply elem_of_cons in Hin as [<-|Hin]; [|by apply IH]. rewrite key_table_other by done. simpl. apply lookup_insert_eq.
Qed.

Hypothesis Hkeys : NoDup (key_id <$> cfg_source_keys cfg).

Lemma public_key_source (i : nat) key :
  cfg_source_keys cfg !! i = Some key → public_key_hash_to_source cfg !! key_id key = Some (N.of_nat i).
Proof.
  intros Hi. unfold public_key_hash_to_source. apply key_table_lookup.
  - enough (((λ p : N * CatchainKey, key_id p.2) <$> imap (λ i key, (N.of_nat i, key)) (cfg_source_keys cfg))
      = key_id <$> cfg_source_keys cfg) as -> by done.
    rewrite fmap_imap. apply list_eq. intros k. rewrite list_lookup_imap, list_lookup_fmap.
    by destruct (cfg_source_keys cfg !! k).
  - apply list_elem_of_lookup. exists i. by rewrite list_lookup_imap, Hi.
Qed.

Lemma src_index_pos (src : Z) : (0 ≤ src)%Z → i32 src → src_index src = Z.to_N src.
Proof. unfold src_index, i32, i32_max. intros. by rewrite Z.mod_small by lia. Qed.

(** ** Signatures *)
Lemma validate_signature_spec w (src height : Z) data_hash signature key :
  (0 ≤ src)%Z → cfg_source_keys cfg !! Z.to_nat src = Some key →
  ∃ v, validate_signature cfg w {| bid_incarnation := cfg_incarnation cfg; bid_src := key_id key; bid_height := height;
         bid_data_hash := data_hash |} signature = Done v ∧ (v = true ↔ signed w src height data_hash signature).
Proof.
  intros Hsrc Hkey. unfold validate_signature. set (id := {| bid_src := _ |}).
  assert (Hiff : ∀ v : bool, (v = true ↔ is_Some (rw_blocks w !! get_block_id_hash id) ∨ verify_block_id key id signature = true) →
    v = true ↔ signed w src height data_hash signature).
  { intros v ->. split; [intros H; by exists key|]. intros (key' & Hk' & H). rewrite Hkey in Hk'. by injection Hk' as <-. }
  case_bool_decide as Hk; [exists true; split; [done|apply Hiff; naive_solver]|].
  cbn [bid_src id]. rewrite (public_key_source _ _ Hkey). cbn [unwrap mbind outcome_bind].
  rewrite (index_nat _ _ _ Hkey). run. eexists. split; [done|]. apply Hiff. naive_solver.
Qed.

Lemma source_key_lookup (src : Z) : (0 ≤ src < sources_count)%Z → ∃ key, cfg_source_keys cfg !! Z.to_nat src = Some key.
Proof. intros Hs. apply lookup_lt_is_Some_2. unfold sources_count in Hs. lia. Qed.

Lemma source_hash_spec (src : Z) key :
  (0 ≤ src)%Z → i32 src → cfg_source_keys cfg !! Z.to_nat src = Some key →
  Receiver_get_source_public_key_hash cfg (src_index src) = Done (key_id key).
Proof.
  intros Hs Hi Hk. unfold Receiver_get_source_public_key_hash. rewrite src_index_pos by done.
  rewrite (index_Some _ _ key); [done|]. by rewrite Z_N_nat.
Qed.

Lemma count_le (src : Z) :
  (0 ≤ src)%Z → i32 src → (get_sources_count cfg <=? src_index src) = bool_decide (sources_count ≤ src)%Z ∧
    (src_index src =? get_sources_count cfg) = bool_decide (src = sources_count).
Proof.
  intros Hs Hi. rewrite src_index_pos by done. unfold get_sources_count, sources_count. split.
  - case_bool_decide; [apply N.leb_le|apply N.leb_gt]; lia.
  - case_bool_decide; [apply N.eqb_eq|apply N.eqb_neq]; lia.
Qed.

Lemma validate_dep_spec w dep :
  dep_i32 dep → ∃ v, validate_block_dependency cfg w dep = Done v ∧ (v = true ↔ valid_dep w dep).
Proof.
  intros [Hsrc Hh]. unfold validate_block_dependency, pre_validate_block_dependency, valid_dep.
  destruct (Z.ltb_spec (dep_height dep) 0) as [Hneg|Hneg]; simpl; [exists false; split; [done|naive_solver lia]|].
  destruct (Z.ltb_spec (dep_src dep) 0) as [Hsn|Hsn]; simpl.
  { exists false. destruct (0 <? dep_height dep)%Z; (split; [done|]; unfold sources_count; naive_solver lia). }
  destruct (count_le (dep_src dep) Hsn Hsrc) as [Hle Heq].
  destruct (Z.ltb_spec 0 (dep_height dep)) as [Hpos|Hpos].
  - rewrite Hle. destruct (bool_decide_reflect (sources_count ≤ dep_src dep)%Z) as [Hc|Hc]; simpl;
      [exists false; split; [done|naive_solver lia]|].
    rewrite (proj2 (Z.leb_gt (dep_height dep) 0)) by lia.
    destruct (source_key_lookup (dep_src dep)) as [key Hkey]; [lia|]. unfold get_block_dependency_id.
    rewrite (source_hash_spec _ _ Hsn Hsrc Hkey). run.
    destruct (validate_signature_spec w (dep_src dep) (dep_height dep) (dep_data_hash dep) (dep_signature dep) key Hsn Hkey)
      as (v & -> & Hv). exists v. split; [done|]. rewrite Hv. naive_solver lia.
  - rewrite Heq. destruct (bool_decide_reflect (dep_src dep = sources_count)) as [Hc|Hc]; simpl; [|exists false; split; [done|naive_solver lia]].
    destruct (N.eqb_spec (dep_data_hash dep) (cfg_incarnation cfg)) as [Hd|Hd]; simpl.
    2:{ exists false. split; [done|naive_solver lia]. }
    destruct (dep_signature dep) eqn:Esig; simpl; [|exists false; split; [done|naive_solver lia]].
    rewrite (proj2 (Z.leb_le (dep_height dep) 0)) by lia. exists true. split; [done|]. split; [|done]. left.
    split_and!; [lia|done..].
Qed.

Lemma validate_all_spec w deps :
  Forall dep_i32 deps → ∃ v, validate_all cfg w deps = Done v ∧ (v = true ↔ Forall (valid_dep w) deps).
Proof.
  induction deps as [|dep deps IH]; intros Hd; cbn [validate_all]; [exists true; split; [done|by split; [constructor|]]|].
  apply Forall_cons_1 in Hd as [Hdep Hd]. destruct (validate_dep_spec w dep Hdep) as (v & -> & Hv). run.
  destruct (IH Hd) as (v' & -> & Hv').
  destruct v; [exists v'|exists false]; (split; [done|]); rewrite list.Forall_cons; naive_solver.
Qed.

Lemma distinct_sources_spec (used : gset Z) deps :
  distinct_sources used deps = true ↔ NoDup (dep_src <$> deps) ∧ ∀ d, d ∈ deps → dep_src d ∉ used.
Proof.
  revert used. induction deps as [|dep deps IH]; intros used; simpl; [split; [split; [constructor|set_solver]|done]|].
  case_bool_decide as Hin; [split; [done|intros [_ Hn]; exfalso; set_solver]|]. rewrite IH, list.NoDup_cons. split.
  - intros [Hnd Hn]. split_and!; [|done|set_solver].
    intros (d & Hd & Hdin)%list_elem_of_fmap. specialize (Hn d Hdin). set_solver.
  - intros [[Hnin Hnd] Hn]. split; [done|]. intros d Hd. apply not_elem_of_union. split; [|set_solver].
    apply not_elem_of_singleton. intros He. apply Hnin, list_elem_of_fmap. eauto.
Qed.

(** Split a goal [∃ v, (if b then Done false else k) = Done v ∧ (v = true ↔ P)]
    into [b = false] for valid blocks, and the rest. *)
Lemma guard_spec (b : bool) (k : outcome bool) (P : Prop) :
  (P → b = false) → (b = false → ∃ v, k = Done v ∧ (v = true ↔ P)) →
  ∃ v, (if b then Done false else k) = Done v ∧ (v = true ↔ P).
Proof. destruct b; intros HP Hk; [exists false; split; [done|]|by apply Hk]. split; [done|]. intros H. by specialize (HP H). Qed.

Lemma prev_source_spec block :
  i32 (blk_src block) → i32 (dep_src (blk_prev block)) → (0 < blk_height block)%Z → (0 ≤ blk_src block)%Z →
  (0 ≤ dep_src (blk_prev block))%Z →
  (if (1 <? blk_height block)%Z
   then negb (src_index (dep_src (blk_prev block)) =? src_index (blk_src block))
   else negb (src_index (dep_src (blk_prev block)) =? get_sources_count cfg)) = false ↔
  dep_src (blk_prev block) = if decide (blk_height block = 1%Z) then sources_count else blk_src block.
Proof.
  intros Hs Hp Hh H0 Hp0. rewrite (proj2 (count_le _ Hp0 Hp)). rewrite !src_index_pos by done.
  destruct (Z.ltb_spec 1 (blk_height block)).
  - rewrite decide_False by lia. rewrite negb_false_iff, N.eqb_eq. lia.
  - rewrite decide_True by lia. by rewrite negb_false_iff, bool_decide_eq_true.
Qed.

Lemma prev_height_spec (prev height : Z) :
  i32 prev → i32 height → (0 < height)%Z → (negb (i32_add prev 1 =? height)%Z = false ↔ (prev + 1 = height)%Z).
Proof.
  unfold i32. intros Hp Hh Hpos. rewrite negb_false_iff, Z.eqb_eq. destruct (decide (prev = i32_max)) as [->|].
  - vm_compute i32_add. unfold i32_max in *. lia.
  - rewrite i32_add_small by lia. done.
Qed.

Lemma pre_validate_spec w block payload :
  block_i32 block → ∃ v, pre_validate_block cfg w block payload = Done v ∧ (v = true ↔ valid_content w block payload).
Proof.
  intros (Hsrc & Hh & [Hps Hph] & Hds). unfold pre_validate_block, valid_content. cbv zeta.
  apply guard_spec; [intros (-> & _); by rewrite N.eqb_refl|]. intros Hinc.
  apply guard_spec; [intros (_ & ? & _); apply Z.leb_gt; lia|]. intros Hpos%Z.leb_gt.
  apply guard_spec.
  { intros (_ & _ & Hs & _). destruct (Z.ltb_spec (blk_src block) 0); [lia|].
    rewrite (proj1 (count_le _ (proj1 Hs) Hsrc)). simpl. apply bool_decide_eq_false. lia. }
  intros [Hneg Hle]%orb_false_iff. apply Z.ltb_ge in Hneg. rewrite (proj1 (count_le _ Hneg Hsrc)) in Hle.
  apply bool_decide_eq_false in Hle.
  apply guard_spec.
  { intros (_ & _ & Hs & _ & Hp & _). apply Z.ltb_ge. rewrite Hp. destruct (decide _); lia. }
  intros Hpneg%Z.ltb_ge. apply guard_spec; [intros (_ & _ & _ & ? & _); apply N.ltb_ge; lia|]. intros Hmax%N.ltb_ge.
  apply guard_spec; [intros (_ & _ & _ & _ & Hp & _); by rewrite prev_source_spec|].
  rewrite prev_source_spec by done. intros Hprev.
  apply guard_spec; [intros (_ & _ & _ & _ & _ & Hp & _); by rewrite prev_height_spec|].
  rewrite prev_height_spec by done. intros Hheight.
  assert (Hdist : distinct_sources {[blk_src block]} (blk_deps block) = true ↔
    NoDup (blk_src block :: (dep_src <$> blk_deps block))).
  { rewrite distinct_sources_spec, list.NoDup_cons, list_elem_of_fmap. set_solver. }
  apply guard_spec.
  { intros (_ & _ & _ & _ & _ & _ & Hnd & _). apply negb_false_iff. by apply Hdist. }
  rewrite negb_false_iff, Hdist. intros Hnd.
  destruct (validate_dep_spec w (blk_prev block) (conj Hps Hph)) as (v1 & -> & Hv1). run.
  apply guard_spec.
  { intros (_ & _ & _ & _ & _ & _ & _ & Hp & _). apply negb_false_iff. by apply Hv1. }
  rewrite negb_false_iff, Hv1. intros Hvp.
  destruct (validate_all_spec w (blk_deps block) Hds) as (v2 & -> & Hv2). run.
  apply guard_spec.
  { intros (_ & _ & _ & _ & _ & _ & _ & _ & Hp & _). apply negb_false_iff. by apply Hv2. }
  rewrite negb_false_iff, Hv2. intros Hvd. apply negb_false_iff, N.eqb_eq in Hinc.
  eexists. split; [done|]. rewrite negb_true_iff, Nat.eqb_neq. split.
  2:{ intros (_ & _ & _ & _ & _ & _ & _ & _ & _ & Hne) Hl. by apply Hne, nil_length_inv. }
  intros Hlen. split_and!; try done; [lia|]. by intros ->.
Qed.

Lemma validate_spec w block payload :
  block_i32 block →
  ∃ v, validate_block_with_payload cfg w block payload = Done v ∧ (v = true ↔ valid_block w block payload).
Proof.
  intros Hi. unfold validate_block_with_payload, valid_block.
  destruct (pre_validate_spec w block payload Hi) as (v & -> & Hv). run.
  apply guard_spec; [intros [Hc _]; apply negb_false_iff; by apply Hv|]. rewrite negb_false_iff, Hv. intros Hc.
  destruct Hc as (Hinc & Hpos & Hs & Hrest). rewrite (proj2 (Z.leb_gt _ _)) by done.
  destruct (source_key_lookup _ Hs) as [key Hkey]. unfold Receiver_get_block_id.
  rewrite (source_hash_spec _ _ (proj1 Hs) (proj1 Hi) Hkey). run. unfold get_block_id. rewrite Hinc.
  destruct (validate_signature_spec w (blk_src block) (blk_height block) (get_hash_of_bytes payload) (blk_signature block)
    key (proj1 Hs) Hkey) as (v' & -> & Hv'). exists v'. split; [done|]. rewrite Hv'. unfold valid_content. tauto.
Qed.
End validation.
