(* ===== verification/CatchainCore.v ===== *)
(** * Catchain: the processor

    Models [CatchainProcessor] of [catchain/src/catchain.rs] and [BlockImpl] of
    [catchain/src/block.rs]: blocks delivered by the receiver are handed to the
    session in causal order, and new blocks are started on top of the blocks that
    nobody refers to yet.  A block owns its predecessor and its dependencies
    ([Arc], never changed), so blocks are trees; descriptions are shared cells under
    the hash of their block.  The listener and the receiver are called through the
    log [cp_events]; the clock and the draws of the random generator are arguments.
    Threads, queues, overlays, metrics and log replay are not modelled. *)

From S2P Require Import Prelude ReceivedBlock.

(** ** Blocks *)
Inductive CatchainBlock := BlockImpl {
  cb_source_id : N;
  cb_fork_id : N;
  cb_height : BlockHeight;
  cb_hash : N;
  cb_payload : list N;
  cb_prev : option CatchainBlock;
  cb_deps : list CatchainBlock;
  cb_forks_dep_heights : list BlockHeight;
  cb_extra_id : N;
}.

(** [is_descendant_of] *)
Definition is_descendant_of (self block : CatchainBlock) : bool :=
  match cb_forks_dep_heights self !! N.to_nat (cb_fork_id block) with
  | None => false
  | Some h => (cb_height block <=? h)%Z
  end.

Record BlockDesc := { bd_preprocessed : bool; bd_processed : bool }.

(** What the processor tells its listener and the receiver. *)
Inductive CatchainEvent :=
| PreprocessBlock (block : CatchainBlock)
| ProcessBlocks (blocks : list CatchainBlock)
| FinishedProcessing
| Started
| AddBlock (payload : list N) (deps : list N).

Record CatchainOptions := { co_idle_timeout : N; co_max_deps : N; co_skip_processed_blocks : bool }.

Definition CatchainOptions_default : CatchainOptions := {| co_idle_timeout := 16000; co_max_deps := 4; co_skip_processed_blocks := false |}.

Record CatchainProcessor := {
  cp_options : CatchainOptions;
  cp_receiver_started : bool;
  cp_next_block_generation_time : N;
  cp_blocks : gmap N CatchainBlock;
  cp_block_descs : gmap N BlockDesc;
  cp_top_blocks : gmap N CatchainBlock;
  cp_top_source_blocks : list (option CatchainBlock);
  cp_sources : list N;
  cp_blamed_sources : list bool;
  cp_process_deps : list N;
  cp_local_idx : N;
  cp_force_process : bool;
  cp_active_process : bool;
  cp_current_extra_id : N;
  cp_events : list CatchainEvent;
}.
Implicit Types (self : CatchainProcessor) (block : CatchainBlock) (now time : N).

(** ** Assignments *)
Definition set_descs self (descs : gmap N BlockDesc) : CatchainProcessor :=
  {| cp_options := cp_options self; cp_receiver_started := cp_receiver_started self;
     cp_next_block_generation_time := cp_next_block_generation_time self; cp_blocks := cp_blocks self; cp_block_descs := descs;
     cp_top_blocks := cp_top_blocks self; cp_top_source_blocks := cp_top_source_blocks self; cp_sources := cp_sources self;
     cp_blamed_sources := cp_blamed_sources self; cp_process_deps := cp_process_deps self; cp_local_idx := cp_local_idx self;
     cp_force_process := cp_force_process self; cp_active_process := cp_active_process self;
     cp_current_extra_id := cp_current_extra_id self; cp_events := cp_events self |}.
Definition add_event self (e : CatchainEvent) : CatchainProcessor :=
  {| cp_options := cp_options self; cp_receiver_started := cp_receiver_started self;
     cp_next_block_generation_time := cp_next_block_generation_time self; cp_blocks := cp_blocks self; cp_block_descs := cp_block_descs self;
     cp_top_blocks := cp_top_blocks self; cp_top_source_blocks := cp_top_source_blocks self; cp_sources := cp_sources self;
     cp_blamed_sources := cp_blamed_sources self; cp_process_deps := cp_process_deps self; cp_local_idx := cp_local_idx self;
     cp_force_process := cp_force_process self; cp_active_process := cp_active_process self;
     cp_current_extra_id := cp_current_extra_id self; cp_events := cp_events self ++ [e] |}.
Definition set_tops self (tops : gmap N CatchainBlock) (sources : list (option CatchainBlock)) : CatchainProcessor :=
  {| cp_options := cp_options self; cp_receiver_started := cp_receiver_started self;
     cp_next_block_generation_time := cp_next_block_generation_time self; cp_blocks := cp_blocks self; cp_block_descs := cp_block_descs self;
     cp_top_blocks := tops; cp_top_source_blocks := sources; cp_sources := cp_sources self;
     cp_blamed_sources := cp_blamed_sources self; cp_process_deps := cp_process_deps self; cp_local_idx := cp_local_idx self;
     cp_force_process := cp_force_process self; cp_active_process := cp_active_process self;
     cp_current_extra_id := cp_current_extra_id self; cp_events := cp_events self |}.
Definition set_top_blocks self (tops : gmap N CatchainBlock) : CatchainProcessor := set_tops self tops (cp_top_source_blocks self).
Definition set_flow self (started : bool) (time : N) (deps : list N) (force active : bool) : CatchainProcessor :=
  {| cp_options := cp_options self; cp_receiver_started := started;
     cp_next_block_generation_time := time; cp_blocks := cp_blocks self; cp_block_descs := cp_block_descs self;
     cp_top_blocks := cp_top_blocks self; cp_top_source_blocks := cp_top_source_blocks self; cp_sources := cp_sources self;
     cp_blamed_sources := cp_blamed_sources self; cp_process_deps := deps; cp_local_idx := cp_local_idx self;
     cp_force_process := force; cp_active_process := active;
     cp_current_extra_id := cp_current_extra_id self; cp_events := cp_events self |}.
Definition set_generation_time self (time : N) : CatchainProcessor :=
  set_flow self (cp_receiver_started self) time (cp_process_deps self) (cp_force_process self) (cp_active_process self).
Definition set_process_deps self (deps : list N) : CatchainProcessor :=
  set_flow self (cp_receiver_started self) (cp_next_block_generation_time self) deps (cp_force_process self) (cp_active_process self).
Definition set_force self (force : bool) : CatchainProcessor :=
  set_flow self (cp_receiver_started self) (cp_next_block_generation_time self) (cp_process_deps self) force (cp_active_process self).
Definition set_active self (active : bool) : CatchainProcessor :=
  set_flow self (cp_receiver_started self) (cp_next_block_generation_time self) (cp_process_deps self) (cp_force_process self) active.
Definition set_started self : CatchainProcessor :=
  set_flow self true (cp_next_block_generation_time self) (cp_process_deps self) (cp_force_process self) (cp_active_process self).
Definition set_blamed self (blamed : list bool) : CatchainProcessor :=
  {| cp_options := cp_options self; cp_receiver_started := cp_receiver_started self;
     cp_next_block_generation_time := cp_next_block_generation_time self; cp_blocks := cp_blocks self; cp_block_descs := cp_block_descs self;
     cp_top_blocks := cp_top_blocks self; cp_top_source_blocks := cp_top_source_blocks self; cp_sources := cp_sources self;
     cp_blamed_sources := blamed; cp_process_deps := cp_process_deps self; cp_local_idx := cp_local_idx self;
     cp_force_process := cp_force_process self; cp_active_process := cp_active_process self;
     cp_current_extra_id := cp_current_extra_id self; cp_events := cp_events self |}.
(** A block is registered. *)
Definition register_block self block (extra_id : N) : CatchainProcessor :=
  {| cp_options := cp_options self; cp_receiver_started := cp_receiver_started self;
     cp_next_block_generation_time := cp_next_block_generation_time self; cp_blocks := <[cb_hash block := block]> (cp_blocks self);
     cp_block_descs := <[cb_hash block := {| bd_preprocessed := false; bd_processed := false |}]> (cp_block_descs self);
     cp_top_blocks := cp_top_blocks self; cp_top_source_blocks := cp_top_source_blocks self; cp_sources := cp_sources self;
     cp_blamed_sources := cp_blamed_sources self; cp_process_deps := cp_process_deps self; cp_local_idx := cp_local_idx self;
     cp_force_process := cp_force_process self; cp_active_process := cp_active_process self;
     cp_current_extra_id := extra_id; cp_events := cp_events self |}.

(** ** Blocks management *)
Definition processor_get_block self (hash : N) : option CatchainBlock := cp_blocks self !! hash.
Definition get_block_desc self block : option BlockDesc := cp_block_descs self !! cb_hash block.
Definition is_processed self block : bool := match get_block_desc self block with Some desc => bd_processed desc | None => false end.

(** ** Updates in causal order *)
Definition option_blocks (o : option CatchainBlock) : list CatchainBlock := match o with Some b => [b] | None => [] end.

(** The predecessor and the dependencies, in the order in which they are taken. *)
Definition parents block : list CatchainBlock := option_blocks (cb_prev block) ++ cb_deps block.

Section update.
Context (pred : BlockDesc → bool) (update : CatchainProcessor → CatchainBlock → CatchainProcessor).

(** The parents that are left to do; one without description is a panic. *)
Fixpoint pending self (blocks : list CatchainBlock) : outcome (list CatchainBlock) :=
  match blocks with
  | [] => Done []
  | block :: blocks' =>
      desc ← unwrap (get_block_desc self block);
      rest ← pending self blocks';
      Done (if pred desc then rest else block :: rest)
  end.

(** The loop of [recursive_blocks_update] with its stack, the top first; [None] when
    the fuel ends. *)
Fixpoint update_loop (fuel : nat) self block (stack : list CatchainBlock) : option (outcome CatchainProcessor) :=
  match fuel with
  | O => None
  | S fuel' =>
      let pop self stack :=
        match stack with [] => Some (Done self) | next :: stack => update_loop fuel' self next stack end in
      match get_block_desc self block with
      | None => Some Panic
      | Some desc =>
          if pred desc then pop self stack else
          match pending self (parents block) with
          | Panic => Some Panic
          | Done [] => pop (update self block) stack
          | Done todo => pop self (todo ++ block :: stack)
          end
      end
  end.
End update.

(** Every block is visited at most once with and once without pending parents. *)
Definition block_cost block : N := 2 + N.of_nat (length (parents block)).
Definition update_fuel self : nat := S (N.to_nat (foldr (λ p n, block_cost (snd p) + n) 0 (map_to_list (cp_blocks self)))).

Definition recursive_blocks_update (pred : BlockDesc → bool) (update : CatchainProcessor → CatchainBlock → CatchainProcessor) self block
  : outcome CatchainProcessor :=
  match update_loop pred update (update_fuel self) self block [] with Some r => r | None => Panic end.

Definition mark_preprocessed (desc : BlockDesc) : BlockDesc := {| bd_preprocessed := true; bd_processed := bd_processed desc |}.
Definition mark_processed (desc : BlockDesc) : BlockDesc := {| bd_preprocessed := bd_preprocessed desc; bd_processed := true |}.

Definition preprocess_update self block : CatchainProcessor :=
  add_event (set_descs self (alter mark_preprocessed (cb_hash block) (cp_block_descs self))) (PreprocessBlock block).
Definition processed_update self block : CatchainProcessor :=
  set_descs self (alter mark_processed (cb_hash block) (cp_block_descs self)).

Definition send_preprocess self block : outcome CatchainProcessor := recursive_blocks_update bd_preprocessed preprocess_update self block.
Definition set_processed self block : outcome CatchainProcessor := recursive_blocks_update bd_processed processed_update self block.

(** ** Starting new blocks *)

(** The draws of the random generator. *)
Class RandomDraws := {
  draw : N → gmap N CatchainBlock → option N;
  draw_ok n m : m ≠ ∅ → ∃ hash, draw n m = Some hash ∧ is_Some (m !! hash);
}.

Section flow.
Context {R : RandomDraws}.

Definition remove_random_top_block (n : N) self : outcome (CatchainBlock * CatchainProcessor) :=
  hash ← unwrap (draw n (cp_top_blocks self));
  block ← unwrap (cp_top_blocks self !! hash);
  Done (block, set_top_blocks self (delete hash (cp_top_blocks self))).

(** The [while] loop of [send_process]; the number of top blocks is enough fuel. *)
Fixpoint choose_blocks (fuel : nat) (n : N) self (blocks : list CatchainBlock) : outcome (list CatchainBlock * CatchainProcessor) :=
  match fuel with
  | O => Done (blocks, self)
  | S fuel' =>
      if bool_decide (cp_top_blocks self = ∅) || negb (N.of_nat (length blocks) <? co_max_deps (cp_options self)) then Done (blocks, self) else
      '(block, self) ← remove_random_top_block n self;
      let source_id := cb_source_id block in
      good ← (if source_id =? N.of_nat (length (cp_sources self)) then Done true
              else blamed ← unwrap (cp_blamed_sources self !! N.to_nat source_id); Done (negb blamed));
      if good : bool then
        self ← set_processed self block;
        choose_blocks fuel' (n + 1) self (blocks ++ [block])
      else choose_blocks fuel' (n + 1) self blocks
  end.

Definition send_process (n : N) self : outcome CatchainProcessor :=
  _ ← assert_that (cp_receiver_started self);
  '(blocks, self) ← choose_blocks (size (cp_top_blocks self)) n self [];
  let self := set_process_deps self (cb_hash <$> blocks) in
  Done (add_event self (ProcessBlocks blocks)).

Definition set_next_block_generation_time self now time : CatchainProcessor :=
  let time := N.max time now in
  if (now <? cp_next_block_generation_time self) && (cp_next_block_generation_time self <=? time) then self
  else set_generation_time self time.

Definition send_process_attempt (n : N) self : outcome CatchainProcessor :=
  if cp_active_process self then Done self else send_process n (set_active self true).

Definition request_new_block self now time : CatchainProcessor :=
  if negb (cp_receiver_started self) then self else
  let self := set_force self true in
  if cp_active_process self then self else set_next_block_generation_time self now time.

Definition processed_block (n : N) self now (payload : list N) : outcome CatchainProcessor :=
  _ ← assert_that (cp_receiver_started self);
  let self := if co_skip_processed_blocks (cp_options self) then self
              else set_process_deps (add_event self (AddBlock payload (cp_process_deps self))) [] in
  _ ← assert_that (cp_active_process self);
  if negb (bool_decide (cp_top_blocks self = ∅)) || cp_force_process self then send_process n (set_force self false)
  else
    let self := add_event (set_active self false) FinishedProcessing in
    Done (set_generation_time self (now + co_idle_timeout (cp_options self))).

(** The part of the main loop that starts a block when its time has come. *)
Definition INFINITE_SEND_PROCESS_TIMEOUT : N := 315360000000.
Definition generate_new_block (n : N) self now : outcome CatchainProcessor :=
  if cp_receiver_started self && (cp_next_block_generation_time self <=? now) then
    send_process_attempt n (set_next_block_generation_time self now (now + INFINITE_SEND_PROCESS_TIMEOUT))
  else Done self.

(** ** Events of the receiver *)
Definition on_started (n : N) self : outcome CatchainProcessor :=
  let self := set_started (add_event self Started) in
  _ ← assert_that (negb (cp_active_process self));
  send_process_attempt n self.

Definition u64_max : N := 18446744073709551615.

(** The loop over the dependencies of a new block. *)
Fixpoint take_deps self (blamed : bool) (deps : list N) (block_deps : list CatchainBlock) : outcome (list CatchainBlock * CatchainProcessor) :=
  match deps with
  | [] => Done (block_deps, self)
  | dep :: deps' =>
      let self := if negb blamed then set_top_blocks self (delete dep (cp_top_blocks self)) else self in
      block_dep ← unwrap (processor_get_block self dep);
      take_deps self blamed deps' (block_deps ++ [block_dep])
  end.

Definition idle_if_no_tops self now : CatchainProcessor :=
  if bool_decide (cp_top_blocks self = ∅) && negb (cp_active_process self) && cp_receiver_started self
  then set_next_block_generation_time self now (now + co_idle_timeout (cp_options self)) else self.

Definition on_new_block self now (source_id fork_id hash : N) (height : BlockHeight) (prev : N) (deps : list N)
    (forks_dep_heights : list BlockHeight) (payload : list N) : outcome CatchainProcessor :=
  let self := idle_if_no_tops self now in
  let '(prev_block, self) :=
    if prev =? 0 then (None, self)
    else (processor_get_block self prev, set_top_blocks self (delete prev (cp_top_blocks self))) in
  blamed ← (match deps with [] => Done false | _ => unwrap (cp_blamed_sources self !! N.to_nat source_id) end);
  '(block_deps, self) ← take_deps self blamed deps [];
  _ ← assert_that (source_id <? N.of_nat (length (cp_sources self)));
  _ ← assert_that (cp_current_extra_id self <? u64_max);
  let block := BlockImpl source_id fork_id height hash payload prev_block block_deps forks_dep_heights (cp_current_extra_id self) in
  let self := register_block self block (cp_current_extra_id self + 1) in
  blamed ← unwrap (cp_blamed_sources self !! N.to_nat source_id);
  if blamed : bool then Done self else
  self ← send_preprocess self block;
  _ ← unwrap (cp_top_source_blocks self !! N.to_nat source_id);
  let self := set_tops self (cp_top_blocks self) (<[N.to_nat source_id := Some block]> (cp_top_source_blocks self)) in
  let self := if negb (source_id =? cp_local_idx self) then set_top_blocks self (<[hash := block]> (cp_top_blocks self)) else self in
  Done (idle_if_no_tops self now).

(** ** Blame *)

(** A top block of another source refers to [parent_block] of source [i]. *)
Definition referred self (i : nat) (parent_block : CatchainBlock) : bool :=
  existsb (λ j, negb (j =? i)%nat &&
    match cp_blamed_sources self !! j, cp_top_source_blocks self !! j with
    | Some false, Some (Some block) => is_descendant_of block parent_block
    | _, _ => false
    end) (seq 0 (length (cp_sources self))).

Definition recompute_top self (i : nat) : CatchainProcessor :=
  match cp_blamed_sources self !! i, cp_top_source_blocks self !! i with
  | Some false, Some (Some parent_block) =>
      if (N.of_nat i =? cp_local_idx self) || is_processed self parent_block || referred self i parent_block then self
      else set_top_blocks self (<[cb_hash parent_block := parent_block]> (cp_top_blocks self))
  | _, _ => self
  end.

Definition on_blame self (source_id : N) : outcome CatchainProcessor :=
  blamed ← unwrap (cp_blamed_sources self !! N.to_nat source_id);
  if blamed : bool then Done self else
  let self := set_blamed self (<[N.to_nat source_id := true]> (cp_blamed_sources self)) in
  _ ← unwrap (cp_top_source_blocks self !! N.to_nat source_id);
  let self := set_tops self ∅ (<[N.to_nat source_id := None]> (cp_top_source_blocks self)) in
  Done (foldl recompute_top self (seq 0 (length (cp_sources self)))).
End flow.

(** ** Creation *)
Definition find_local_idx (sources : list N) (local_id : N) : outcome N :=
  let local_idx := foldl (λ acc p, if snd p =? local_id then N.of_nat (fst p) else acc) (N.of_nat (length sources)) (zip (seq 0 (length sources)) sources) in
  _ ← assert_that (local_idx <? N.of_nat (length sources));
  Done local_idx.

Definition CatchainProcessor_create (options : CatchainOptions) (now : N) (sources : list N) (local_id : N) : outcome CatchainProcessor :=
  local_idx ← find_local_idx sources local_id;
  Done {| cp_options := options; cp_receiver_started := false; cp_next_block_generation_time := now; cp_blocks := ∅; cp_block_descs := ∅;
          cp_top_blocks := ∅; cp_top_source_blocks := replicate (length sources) None; cp_sources := sources;
          cp_blamed_sources := replicate (length sources) false; cp_process_deps := []; cp_local_idx := local_idx; cp_force_process := false;
          cp_active_process := false; cp_current_extra_id := 0; cp_events := [] |}.
