(* ===== verification/CatchainUpdate.v ===== *)
(** * Catchain: updates in causal order

    [recursive_blocks_update] on processors whose blocks refer to older registered
    blocks: it ends within [update_fuel], without a panic, and what it does is a legal
    sequence of single updates - each block after its predecessor and its
    dependencies, no block twice ([updates]). *)

From S2P Require Import Prelude ReceivedBlock CatchainCore.

Implicit Types (self : CatchainProcessor) (block b p x : CatchainBlock) (l stack todo : list CatchainBlock).

(** ** Registered blocks *)

(** Blocks are registered under their hash with a description; a block refers to
    registered blocks with smaller numbers. *)
Record registry_wf (blocks : gmap N CatchainBlock) (descs : gmap N BlockDesc) : Prop := {
  bw_known h b : blocks !! h = Some b → cb_hash b = h;
  bw_desc h : is_Some (descs !! h) ↔ is_Some (blocks !! h);
  bw_parents h b p : blocks !! h = Some b → p ∈ parents b → blocks !! cb_hash p = Some p ∧ cb_extra_id p < cb_extra_id b;
}.
Definition blocks_wf self : Prop := registry_wf (cp_blocks self) (cp_block_descs self).

Definition known self b : Prop := cp_blocks self !! cb_hash b = Some b.

(** [x] is [b] or one of the blocks below it. *)
Definition below (x b : CatchainBlock) : Prop := rtc (λ x y, x ∈ parents y) x b.

Lemma below_refl b : below b b.
Proof. apply rtc_refl. Qed.
Lemma below_parent x p b : below x p → p ∈ parents b → below x b.
Proof. intros Hx Hp. by eapply rtc_r. Qed.

(** ** Sums over registered blocks *)
Definition total (f : CatchainBlock → N) (l : list (N * CatchainBlock)) : N := foldr (λ kb n, f (snd kb) + n) 0 l.

Lemma total_le f g (l : list (N * CatchainBlock)) : (∀ b, f b <= g b) → total f l <= total g l.
Proof. intros H. induction l as [|[h b] l IH]; [done|]. unfold total in *. simpl. specialize (H b). lia. Qed.

Lemma total_ext f g (l : list (N * CatchainBlock)) : (∀ k x, (k, x) ∈ l → f x = g x) → total f l = total g l.
Proof.
  induction l as [|[k x] l IH]; intros H; [done|]. unfold total in *. simpl. rewrite IH.
  - by rewrite (H k x (list_elem_of_here _ _)).
  - intros. by eapply H, list_elem_of_further.
Qed.

Lemma total_change f g (l : list (N * CatchainBlock)) h b c :
  NoDup l.*1 → (h, b) ∈ l → f b = g b + c → (∀ k x, (k, x) ∈ l → k ≠ h → f x = g x) → total f l = total g l + c.
Proof.
  induction l as [|[k x] l IH]; intros ND Hin Hb Hx; [by apply elem_of_nil in Hin|].
  apply list.NoDup_cons in ND as [Nk ND]. simpl in Nk.
  assert (∀ j y, (j, y) ∈ l → j ≠ k) as Nj.
  { intros j y Hy ->. apply Nk, list_elem_of_fmap. by exists (k, y). }
  apply elem_of_cons in Hin as [E|Hin].
  - injection E as <- <-. change (f b + total f l = g b + total g l + c). rewrite (total_ext f g l); [lia|].
    intros j y Hy. eapply Hx; [by apply list_elem_of_further|by eapply Nj].
  - change (f x + total f l = g x + total g l + c).
    rewrite (IH ND Hin Hb); [|intros; eapply Hx; [by apply list_elem_of_further|done]].
    rewrite (Hx k x); [lia|apply list_elem_of_here|]. intros ->. by apply (Nj h b).
Qed.

Section update.
Context (pred : BlockDesc → bool) (update : CatchainProcessor → CatchainBlock → CatchainProcessor) (mark : BlockDesc → BlockDesc).

(** An update marks its block and leaves the registered blocks alone. *)
Class MarkingUpdate : Prop := {
  mu_blocks self b : cp_blocks (update self b) = cp_blocks self;
  mu_descs self b : cp_block_descs (update self b) = alter mark (cb_hash b) (cp_block_descs self);
  mu_mark desc : pred (mark desc) = true;
}.
Context {M : MarkingUpdate}.

Definition marked self b : bool := match get_block_desc self b with Some desc => pred desc | None => false end.

(** Legal sequences of updates. *)
Inductive updates : CatchainProcessor → list CatchainBlock → CatchainProcessor → Prop :=
| updates_nil self : updates self [] self
| updates_cons self x l self' :
    known self x → marked self x = false → (∀ p, p ∈ parents x → marked self p = true) →
    updates (update self x) l self' → updates self (x :: l) self'.

Lemma updates_one self x :
  known self x → marked self x = false → (∀ p, p ∈ parents x → marked self p = true) → updates self [x] (update self x).
Proof. intros. by repeat constructor. Qed.

Lemma updates_app self l1 self1 l2 self2 : updates self l1 self1 → updates self1 l2 self2 → updates self (l1 ++ l2) self2.
Proof. induction 1; intros; [done|]. constructor; auto. Qed.

Lemma updates_foldl self l self' : updates self l self' → self' = foldl update self l.
Proof. by induction 1. Qed.

(** ** One update *)
Lemma update_wf self b : blocks_wf self → blocks_wf (update self b).
Proof.
  intros [W1 W2 W3]. split; rewrite ?mu_blocks; [done| |done].
  intros h. by rewrite <- W2, mu_descs, lookup_alter_is_Some.
Qed.

Lemma known_desc self b : blocks_wf self → known self b → ∃ desc, get_block_desc self b = Some desc.
Proof. intros W K. apply (bw_desc _ _ W (cb_hash b)). unfold known in K. rewrite K. by eexists. Qed.

Lemma update_known self b x : known (update self b) x ↔ known self x.
Proof. unfold known. by rewrite mu_blocks. Qed.

Lemma update_marked self b x : blocks_wf self → known self b →
  marked (update self b) x = if decide (cb_hash x = cb_hash b) then true else marked self x.
Proof.
  intros W K. unfold marked, get_block_desc. rewrite mu_descs. case_decide as E.
  - rewrite E, lookup_alter_eq. destruct (known_desc _ _ W K) as [desc D]. unfold get_block_desc in D. rewrite D. simpl. apply mu_mark.
  - by rewrite lookup_alter_ne.
Qed.

(** ** Sequences *)
Lemma updates_wf self l self' : updates self l self' → blocks_wf self → blocks_wf self'.
Proof. induction 1; auto using update_wf. Qed.

Lemma updates_known self l self' x : updates self l self' → known self' x ↔ known self x.
Proof. induction 1 as [|self y l self' _ _ _ _ IH]; [done|]. by rewrite IH, update_known. Qed.

Lemma updates_blocks self l self' : updates self l self' → cp_blocks self' = cp_blocks self.
Proof. induction 1 as [|self y l self' _ _ _ _ IH]; [done|]. by rewrite IH, mu_blocks. Qed.

Lemma updates_marked self l self' x : updates self l self' → blocks_wf self →
  marked self' x = marked self x || bool_decide (cb_hash x ∈ cb_hash <$> l).
Proof.
  induction 1 as [self|self y l self' K U P _ IH]; intros W.
  - rewrite bool_decide_false; [by rewrite orb_false_r|]. simpl. apply not_elem_of_nil.
  - rewrite (IH (update_wf _ _ W)), update_marked by done. destruct (decide (cb_hash x = cb_hash y)) as [E|E].
    + rewrite (bool_decide_true (cb_hash x ∈ cb_hash <$> y :: l)); [by rewrite orb_true_r|]. rewrite E. apply list_elem_of_here.
    + f_equal. apply bool_decide_ext. rewrite fmap_cons, elem_of_cons. naive_solver.
Qed.

Lemma updates_mono self l self' x : updates self l self' → blocks_wf self → marked self x = true → marked self' x = true.
Proof. intros U W H. by rewrite (updates_marked _ _ _ _ U W), H. Qed.

(** No block twice, none that was marked before. *)
Lemma updates_fresh self l self' : updates self l self' → blocks_wf self →
  NoDup (cb_hash <$> l) ∧ ∀ x, x ∈ l → known self x ∧ marked self x = false.
Proof.
  induction 1 as [self|self y l self' K U P H IH]; intros W.
  - split; [constructor|]. intros x Hx. by apply elem_of_nil in Hx.
  - destruct (IH (update_wf _ _ W)) as [ND F].
    assert (∀ x, x ∈ l → cb_hash x ≠ cb_hash y ∧ known self x ∧ marked self x = false) as F'.
    { intros x Hx. destruct (F x Hx) as [Kx Ux]. rewrite update_known in Kx. rewrite update_marked in Ux by done. by case_decide. }
    split.
    + simpl. constructor; [|done]. intros Hin. apply list_elem_of_fmap in Hin as (x & E & Hx). destruct (F' x Hx) as [N _]. by apply N.
    + intros x [->|Hx]%elem_of_cons; [done|]. destruct (F' x Hx) as (_ & ? & ?). done.
Qed.

(** Every block comes after its parents. *)
Lemma updates_order self l self' l1 x l2 p : updates self l self' → blocks_wf self → l = l1 ++ x :: l2 → p ∈ parents x →
  marked self p = true ∨ p ∈ l1.
Proof.
  intros U. revert l1. induction U as [self|self y l self' K U P H IH]; intros l1 W E Hp.
  - by destruct l1.
  - destruct l1 as [|z l1]; simplify_eq/=; [left; by apply P|].
    destruct (IH l1 (update_wf _ _ W) eq_refl Hp) as [Hm|Hm]; [|right; by apply elem_of_cons; right].
    rewrite update_marked in Hm by done. case_decide as E; [|by left]. right. apply elem_of_cons. left.
    destruct (updates_fresh _ _ _ H (update_wf _ _ W)) as [_ F].
    destruct (F x) as [Kx _]; [apply elem_of_app; right; apply elem_of_cons; by left|]. rewrite update_known in Kx.
    destruct (bw_parents _ _ W _ _ _ Kx Hp) as [Kp _]. unfold known in K. rewrite E in Kp. congruence.
Qed.

(** ** The loop *)

(** The work that is left: the cost of the blocks that are not marked. *)
Definition work self : N := total (λ b, if marked self b then 0 else block_cost b) (map_to_list (cp_blocks self)).

Lemma update_work self b : blocks_wf self → known self b → marked self b = false →
  work self = work (update self b) + block_cost b.
Proof.
  intros W K U. unfold work. rewrite mu_blocks. apply (total_change _ _ _ (cb_hash b) b).
  - apply NoDup_fst_map_to_list.
  - by apply elem_of_map_to_list.
  - rewrite U, update_marked, decide_True by done. lia.
  - intros k x Hx N. apply elem_of_map_to_list in Hx. pose proof (bw_known _ _ W _ _ Hx) as E.
    rewrite update_marked, decide_False by congruence. done.
Qed.

Lemma pending_spec self l : blocks_wf self → (∀ p, p ∈ l → known self p) →
  pending pred self l = Done (filter (λ p, marked self p = false) l).
Proof.
  intros W. induction l as [|x l IH]; intros K; simpl; [done|].
  destruct (known_desc self x W) as [desc D]; [apply K, list_elem_of_here|]. rewrite D. run.
  rewrite IH by (intros; by apply K, list_elem_of_further). simpl.
  assert (marked self x = pred desc) as Ex by (unfold marked; by rewrite D).
  destruct (pred desc); [by rewrite filter_cons_False by congruence|by rewrite filter_cons_True].
Qed.

(** What follows the turns spent on a block. *)
Definition next (fuel : nat) self stack : option (outcome CatchainProcessor) :=
  match stack with [] => Some (Done self) | b :: stack => update_loop pred update fuel self b stack end.

(** [n] turns take [self] to [self'] by legal updates of blocks below [b]s. *)
Definition turns (n : nat) self (bs : list CatchainBlock) self' : Prop :=
  ∃ l, updates self l self' ∧ (∀ b, b ∈ bs → marked self' b = true) ∧ (∀ x, x ∈ l → ∃ b, b ∈ bs ∧ below x b)
    ∧ N.of_nat n + work self' <= N.of_nat (length bs) + work self.

Definition block_turns self b : Prop :=
  ∃ n self', turns n self [b] self' ∧ ∀ fuel stack, update_loop pred update (n + fuel) self b stack = next fuel self' stack.

Lemma stack_turns todo self : blocks_wf self → (∀ p, p ∈ todo → known self p) →
  (∀ p self', p ∈ todo → blocks_wf self' → known self' p → block_turns self' p) →
  ∃ n self', turns n self todo self' ∧ ∀ fuel stack, next (n + fuel) self (todo ++ stack) = next fuel self' stack.
Proof.
  revert self. induction todo as [|p todo IH]; intros self W K Hb.
  - exists O, self. split; [|done]. exists []. split_and!; [constructor| | |simpl; lia]; intros x Hx; by apply elem_of_nil in Hx.
  - destruct (Hb p self (list_elem_of_here _ _) W (K _ (list_elem_of_here _ _))) as (n1 & self1 & (l1 & U1 & M1 & B1 & C1) & R1).
    destruct (IH self1) as (n2 & self2 & (l2 & U2 & M2 & B2 & C2) & R2).
    { by eapply updates_wf. }
    { intros x Hx. rewrite updates_known by done. by apply K, list_elem_of_further. }
    { intros. apply Hb; try done. by apply list_elem_of_further. }
    exists (n1 + n2)%nat, self2. split; [exists (l1 ++ l2); split_and!|].
    + by eapply updates_app.
    + intros x [->|Hx]%elem_of_cons; [|by apply M2]. eapply updates_mono; [done|by eapply updates_wf|]. apply M1, list_elem_of_here.
    + intros x [Hx|Hx]%elem_of_app.
      * destruct (B1 x Hx) as (b & ->%list_elem_of_singleton & ?). exists p. split; [apply list_elem_of_here|done].
      * destruct (B2 x Hx) as (b & ? & ?). exists b. split; [by apply list_elem_of_further|done].
    + simpl in *. lia.
    + intros fuel stack. simpl. rewrite <- Nat.add_assoc, R1. apply R2.
Qed.

Lemma below_rank self x b : blocks_wf self → known self b → below x b → known self x ∧ cb_extra_id x <= cb_extra_id b.
Proof.
  intros W K H. induction H as [b|x y b Hy Hb IH]; [split; [done|lia]|].
  destruct (IH K) as [Ky Ly]. destruct (bw_parents _ _ W _ _ _ Ky Hy). split; [done|lia].
Qed.

Lemma loop_turn self b fuel stack : blocks_wf self → known self b →
  update_loop pred update (S fuel) self b stack =
    if marked self b then next fuel self stack else
    match filter (λ p, marked self p = false) (parents b) with
    | [] => next fuel (update self b) stack
    | todo => next fuel self (todo ++ b :: stack)
    end.
Proof.
  intros W K. destruct (known_desc _ _ W K) as [desc D]. simpl. rewrite D. unfold marked at 1. rewrite D.
  destruct (pred desc); [done|].
  rewrite pending_spec by (done || intros p Hp; by apply (bw_parents _ _ W _ _ _ K)). by destruct (filter _ _).
Qed.

Lemma nothing_pending self b : (∀ p, p ∈ parents b → marked self p = true) → filter (λ p, marked self p = false) (parents b) = [].
Proof.
  intros H. destruct (filter _ _) as [|p l] eqn:E; [done|]. exfalso. pose proof (list_elem_of_here p l) as Hp.
  rewrite <- E in Hp. apply list_elem_of_filter in Hp as [? Hp%H]. congruence.
Qed.

(** A block is updated when its parents are marked, at the cost of one turn. *)
Lemma ready_turns self l self1 b : blocks_wf self → known self b → updates self l self1 → marked self1 b = false →
  (∀ p, p ∈ parents b → marked self1 p = true) → (∀ x, x ∈ l → below x b) →
  (∀ fuel stack, update_loop pred update (1 + fuel) self1 b stack = next fuel (update self1 b) stack)
  ∧ ∀ n, N.of_nat n + work self1 <= 3 + N.of_nat (length (parents b)) + work self → turns n self [b] (update self1 b).
Proof.
  intros W K U V P B. pose proof (updates_wf _ _ _ U W) as W1.
  assert (known self1 b) as K1 by by rewrite updates_known. split.
  - intros fuel stack. change (1 + fuel)%nat with (S fuel). by rewrite loop_turn, V, nothing_pending.
  - intros n Hn. pose proof (update_work _ _ W1 K1 V) as C. unfold block_cost in C. exists (l ++ [b]). split_and!.
    + eapply updates_app; [done|by apply updates_one].
    + intros x ->%list_elem_of_singleton. by rewrite update_marked, decide_True.
    + intros x [Hx| ->%list_elem_of_singleton]%elem_of_app; exists b; (split; [apply list_elem_of_here|]); [by auto|apply below_refl].
    + simpl. lia.
Qed.

(** A block waits for its parents: after them it is still not marked. *)
Lemma waiting self l self1 b todo : blocks_wf self → known self b → marked self b = false → updates self l self1 →
  (∀ p, p ∈ todo → p ∈ parents b) → (∀ x, x ∈ l → ∃ p, p ∈ todo ∧ below x p) →
  marked self1 b = false ∧ ∀ x, x ∈ l → below x b.
Proof.
  intros W K U U1 Ht B. split.
  - rewrite (updates_marked _ _ _ _ U1 W), U, bool_decide_false; [done|]. intros (x & E & Hx)%list_elem_of_fmap.
    destruct (B x Hx) as (p & Hp & Hb). destruct (bw_parents _ _ W _ _ _ K (Ht p Hp)) as [Kp Lp].
    destruct (below_rank _ _ _ W Kp Hb) as [Kx Lx]. unfold known in *. rewrite <- E, K in Kx. simplify_eq. lia.
  - intros x Hx. destruct (B x Hx) as (p & Hp & Hb). by eapply below_parent, Ht.
Qed.

Lemma waiting_turns self b todo : blocks_wf self → known self b → marked self b = false →
  filter (λ p, marked self p = false) (parents b) = todo → todo ≠ [] →
  (∀ p self', p ∈ parents b → blocks_wf self' → known self' p → block_turns self' p) → block_turns self b.
Proof.
  intros W K U Etodo Ne IH.
  assert (∀ p, p ∈ todo → p ∈ parents b) as Ht by (rewrite <- Etodo; intros p [_ Hp]%list_elem_of_filter; done).
  assert (length todo <= length (parents b))%nat as Len by (rewrite <- Etodo; apply length_filter).
  destruct (stack_turns todo self W) as (n & self1 & (l & U1 & M1 & B1 & C1) & R1); [|by auto|].
  { intros p Hp. by apply (bw_parents _ _ W _ _ _ K), Ht. }
  destruct (waiting _ _ _ _ _ W K U U1 Ht B1) as [V B].
  destruct (ready_turns self l self1 b W K U1 V) as [R T]; [|done|].
  { intros p Hp. destruct (marked self p) eqn:E; [by eapply updates_mono|]. apply M1. rewrite <- Etodo. by apply list_elem_of_filter. }
  exists (1 + (n + 1))%nat, (update self1 b). split; [apply T; lia|]. intros fuel stack.
  change (1 + (n + 1) + fuel)%nat with (S (n + 1 + fuel)). rewrite loop_turn, U, Etodo by done.
  destruct todo as [|p todo]; [done|]. rewrite <- Nat.add_assoc, R1. apply R.
Qed.

Lemma loop_block_turns self b : blocks_wf self → known self b → block_turns self b.
Proof.
  remember (cb_extra_id b) as r eqn:Er. revert self b Er.
  induction (N.lt_wf_0 r) as [r _ IH]. intros self b -> W K. destruct (marked self b) eqn:U.
  - exists 1%nat, self. split; [|intros fuel stack; change (1 + fuel)%nat with (S fuel); by rewrite loop_turn, U].
    exists []. split_and!; [constructor| | |simpl; lia]; [by intros x ->%list_elem_of_singleton|]. intros x Hx. by apply elem_of_nil in Hx.
  - assert (∀ p, p ∈ parents b → cb_extra_id p < cb_extra_id b) as P by (intros p Hp; by apply (bw_parents _ _ W _ _ _ K)).
    destruct (filter (λ p, marked self p = false) (parents b)) as [|p todo] eqn:E.
    + destruct (ready_turns self [] self b W K (updates_nil _) U) as [R T].
      { intros p Hp. destruct (marked self p) eqn:Ep; [done|]. exfalso. apply (elem_of_nil p). rewrite <- E. by apply list_elem_of_filter. }
      { intros x Hx. by apply elem_of_nil in Hx. }
      exists 1%nat, (update self b). split; [apply T; lia|done].
    + eapply waiting_turns; [done..|]. intros q self' Hq W' K'. by eapply IH; [by apply P| | |].
Qed.

(** The loop ends within its fuel, and is a legal sequence of updates of blocks below
    the block it was called for. *)
Lemma recursive_update_spec self b : blocks_wf self → known self b →
  ∃ l self', recursive_blocks_update pred update self b = Done self' ∧ updates self l self' ∧ marked self' b = true
    ∧ ∀ x, x ∈ l → below x b.
Proof.
  intros W K. destruct (loop_block_turns self b W K) as (n & self' & (l & U & M' & B & C) & R).
  exists l, self'. split_and!; [|done|apply M', list_elem_of_here|].
  - unfold recursive_blocks_update.
    assert (n <= update_fuel self)%nat as Hn.
    { unfold update_fuel. enough (work self <= total block_cost (map_to_list (cp_blocks self))) by (unfold total in *; simpl in C; lia).
      apply total_le. intros x. destruct (marked self x); lia. }
    replace (update_fuel self) with (n + (update_fuel self - n))%nat by lia. by rewrite R.
  - intros x Hx. by destruct (B x Hx) as (y & ->%list_elem_of_singleton & ?).
Qed.

(** Marks are kept below marked blocks. *)
Definition marks_closed self : Prop := ∀ b p, known self b → marked self b = true → p ∈ parents b → marked self p = true.

Lemma updates_closed self l self' : updates self l self' → blocks_wf self → marks_closed self → marks_closed self'.
Proof.
  induction 1 as [|self y l self' K U P _ IH]; intros W C; [done|]. apply IH; [by apply update_wf|].
  intros b p Kb Mb Hp. rewrite update_known in Kb. rewrite update_marked in * by done.
  destruct (decide (cb_hash p = cb_hash y)); [done|]. destruct (decide (cb_hash b = cb_hash y)) as [E|E]; [|by eapply C].
  assert (b = y) as -> by (unfold known in *; congruence). by apply P.
Qed.

Lemma closed_below self b x : blocks_wf self → marks_closed self → known self b → marked self b = true → below x b → marked self x = true.
Proof.
  intros W C K Mb H. revert K Mb. induction H as [b|x y b Hy Hb IH]; [done|]. intros K Mb.
  eapply C; [|by apply IH|done]. by eapply below_rank.
Qed.

(** Exactly the blocks below [b] that were not marked are updated. *)
Lemma updates_exact self b l self' x : blocks_wf self → marks_closed self → known self b → updates self l self' → marked self' b = true →
  (∀ y, y ∈ l → below y b) → x ∈ l ↔ below x b ∧ marked self x = false.
Proof.
  intros W C K U Mb B. split.
  - intros Hx. split; [by apply B|]. by eapply updates_fresh.
  - intros [Hx Ux]. pose proof (updates_wf _ _ _ U W) as W'. pose proof (updates_closed _ _ _ U W C) as C'.
    assert (marked self' x = true) as Hm.
    { eapply closed_below; [done..| |done|done]. by rewrite updates_known. }
    rewrite (updates_marked _ _ _ _ U W), Ux in Hm. apply bool_decide_eq_true, list_elem_of_fmap in Hm as (y & E & Hy).
    destruct (updates_fresh _ _ _ U W) as [_ F]. destruct (F y Hy) as [Ky _]. destruct (below_rank _ _ _ W K Hx) as [Kx _].
    unfold known in *. rewrite E in Kx. by replace x with y by congruence.
Qed.
End update.
