(* ===== verification/CatchainRun.v ===== *)
(** * Catchain: runs of the processor

    The requests of the receiver and of the session as steps, the invariant of the
    processor and its preservation by the parts of the operations: registering a block,
    preprocessing it, marking blocks as processed. *)

From S2P Require Import Prelude ReceivedBlock CatchainCore CatchainUpdate.

Implicit Types (self : CatchainProcessor) (block b p x : CatchainBlock) (l : list CatchainBlock) (now time : N).

(** ** Requests *)
Inductive Request :=
| OnNewBlock (now source_id fork_id hash : N) (height : BlockHeight) (prev : N) (deps : list N) (forks_dep_heights : list BlockHeight) (payload : list N)
| OnBlame (source_id : N)
| OnStarted (n : N)
| OnProcessedBlock (n now : N) (payload : list N)
| OnRequestNewBlock (now time : N)
| OnAwake (n now : N).

Definition handle `{RandomDraws} self (r : Request) : outcome CatchainProcessor :=
  match r with
  | OnNewBlock now source_id fork_id hash height prev deps heights payload =>
      on_new_block self now source_id fork_id hash height prev deps heights payload
  | OnBlame source_id => on_blame self source_id
  | OnStarted n => on_started n self
  | OnProcessedBlock n now payload => processed_block n self now payload
  | OnRequestNewBlock now time => Done (request_new_block self now time)
  | OnAwake n now => generate_new_block n self now
  end.

(** What the receiver and the session promise: a delivered block is new, comes from a
    source of the chain and its dependencies have been delivered; the chain starts
    once; a block is created only when one is asked for. *)
Definition legal self (r : Request) : Prop :=
  match r with
  | OnNewBlock _ source_id _ hash _ _ deps _ _ =>
      cp_blocks self !! hash = None ∧ source_id < N.of_nat (length (cp_sources self))
      ∧ (∀ dep, dep ∈ deps → is_Some (cp_blocks self !! dep)) ∧ cp_current_extra_id self < u64_max
  | OnBlame source_id => source_id < N.of_nat (length (cp_sources self))
  | OnStarted _ => cp_receiver_started self = false
  | OnProcessedBlock _ _ _ => cp_receiver_started self = true ∧ cp_active_process self = true
  | OnRequestNewBlock _ _ | OnAwake _ _ => True
  end.

(** ** The log *)
Definition event_preprocessed (e : CatchainEvent) : list CatchainBlock := match e with PreprocessBlock b => [b] | _ => [] end.
Definition event_chosen (e : CatchainEvent) : list CatchainBlock := match e with ProcessBlocks bs => bs | _ => [] end.
Definition event_added (e : CatchainEvent) : list N := match e with AddBlock _ deps => deps | _ => [] end.
Definition preprocessed_log (events : list CatchainEvent) : list CatchainBlock := events ≫= event_preprocessed.
Definition chosen_log (events : list CatchainEvent) : list CatchainBlock := events ≫= event_chosen.
Definition added_log (events : list CatchainEvent) : list N := events ≫= event_added.

Notation preprocessed := (marked bd_preprocessed).
Notation processed := (marked bd_processed).

#[global] Instance preprocess_marking : MarkingUpdate bd_preprocessed preprocess_update mark_preprocessed.
Proof. by split. Qed.
#[global] Instance processed_marking : MarkingUpdate bd_processed processed_update mark_processed.
Proof. by split. Qed.

(** ** The invariant *)
Record registered_inv self : Prop := {
  ri_wf : blocks_wf self;
  ri_extra h b : cp_blocks self !! h = Some b → cb_extra_id b < cp_current_extra_id self;
  ri_source h b : cp_blocks self !! h = Some b → cb_source_id b < N.of_nat (length (cp_sources self));
  ri_preprocessed : marks_closed bd_preprocessed self;
  ri_processed : marks_closed bd_processed self;
}.

Record tops_inv self : Prop := {
  ti_blamed : length (cp_blamed_sources self) = length (cp_sources self);
  ti_sources : length (cp_top_source_blocks self) = length (cp_sources self);
  ti_tops h b : cp_top_blocks self !! h = Some b → cp_blocks self !! h = Some b ∧ preprocessed self b = true ∧ cb_source_id b ≠ cp_local_idx self;
  ti_source i b : cp_top_source_blocks self !! i = Some (Some b) → known self b ∧ preprocessed self b = true ∧ cb_source_id b = N.of_nat i;
}.

(** Blocks are preprocessed in causal order, once. *)
Record causal_log (log : list CatchainBlock) : Prop := {
  cl_once : NoDup (cb_hash <$> log);
  cl_order l1 x l2 p : log = l1 ++ x :: l2 → p ∈ parents x → p ∈ l1;
}.

(** Blocks are chosen after they were preprocessed. *)
Definition chosen_after (events : list CatchainEvent) : Prop :=
  ∀ e1 bs e2 x, events = e1 ++ ProcessBlocks bs :: e2 → x ∈ bs → x ∈ preprocessed_log e1.

Record log_inv self : Prop := {
  li_causal : causal_log (preprocessed_log (cp_events self));
  li_preprocessed x : x ∈ preprocessed_log (cp_events self) ↔ known self x ∧ preprocessed self x = true;
  li_chosen_once : NoDup (cb_hash <$> chosen_log (cp_events self));
  li_chosen x : x ∈ chosen_log (cp_events self) → known self x ∧ processed self x = true ∧ cp_top_blocks self !! cb_hash x = None;
  li_after : chosen_after (cp_events self);
}.

Record flow_inv self : Prop := {
  fi_started : cp_active_process self = true → cp_receiver_started self = true;
  fi_idle : co_skip_processed_blocks (cp_options self) = false → cp_active_process self = false → cp_process_deps self = [];
  fi_deps : co_skip_processed_blocks (cp_options self) = false →
    added_log (cp_events self) ++ cp_process_deps self = cb_hash <$> chosen_log (cp_events self);
}.

Record core_inv self : Prop := {
  ci_registered : registered_inv self;
  ci_tops : tops_inv self;
  ci_log : log_inv self;
  ci_flow : flow_inv self;
}.

(** Assignments to the other fields. *)
Lemma core_time self time : core_inv self → core_inv (set_generation_time self time).
Proof. intros [[] [] [] []]. split; split; assumption. Qed.

(** ** Registering a block *)
Section register.
Context (self : CatchainProcessor) (block : CatchainBlock).
Context (I : core_inv self) (Fresh : cp_blocks self !! cb_hash block = None).
Context (Parents : ∀ p, p ∈ parents block → known self p) (Extra : cb_extra_id block = cp_current_extra_id self).
Context (Source : cb_source_id block < N.of_nat (length (cp_sources self))).
Let self' : CatchainProcessor := register_block self block (cp_current_extra_id self + 1).

Lemma fresh_ne x : known self x → cb_hash x ≠ cb_hash block.
Proof. unfold known. intros K E. rewrite E in K. congruence. Qed.

Lemma register_known x : known self' x ↔ x = block ∨ known self x.
Proof using Fresh.
  unfold known. simpl. split.
  - destruct (decide (cb_hash block = cb_hash x)) as [E|N].
    + rewrite E, lookup_insert_eq. intros [= <-]. by left.
    + rewrite lookup_insert_ne by done. by right.
  - intros [->|K]; [by rewrite lookup_insert_eq|]. rewrite lookup_insert_ne; [done|]. apply not_eq_sym, fresh_ne, K.
Qed.

Lemma register_marked pred x : known self x → marked pred self' x = marked pred self x.
Proof.
  intros K. unfold marked, get_block_desc. simpl. rewrite lookup_insert_ne; [done|]. apply not_eq_sym, fresh_ne, K.
Qed.

Lemma register_unmarked : preprocessed self' block = false ∧ processed self' block = false.
Proof. unfold marked, get_block_desc. simpl. by rewrite lookup_insert_eq. Qed.

Lemma register_lookup h b : cp_blocks self' !! h = Some b ↔ h = cb_hash block ∧ b = block ∨ cp_blocks self !! h = Some b.
Proof using Fresh.
  simpl. destruct (decide (cb_hash block = h)) as [<-|N].
  - rewrite lookup_insert_eq, Fresh. split; [intros [= <-]; by left|]. by intros [[_ ->]|?].
  - rewrite lookup_insert_ne by done. split; [by right|]. by intros [[E _]|?]; [destruct N|].
Qed.

Lemma register_wf : blocks_wf self'.
Proof.
  destruct (ri_wf _ (ci_registered _ I)) as [W1 W2 W3]. split.
  - intros h b [[-> ->]|H]%register_lookup; [done|by apply W1].
  - intros h. simpl. rewrite !lookup_insert_is_Some, W2. done.
  - intros h b p [[-> ->]|H]%register_lookup Hp.
    + split; [apply register_lookup; right; by apply Parents|]. rewrite Extra.
      by apply (ri_extra _ (ci_registered _ I) (cb_hash p)), Parents.
    + destruct (W3 _ _ _ H Hp). split; [|done]. apply register_lookup. by right.
Qed.

Lemma register_closed pred : marked pred self' block = false → marks_closed pred self → marks_closed pred self'.
Proof.
  intros U C b p [->|K]%register_known Mb Hp; [congruence|]. rewrite register_marked in Mb by done.
  rewrite register_marked; [by eapply C|]. by apply (bw_parents _ _ (ri_wf _ (ci_registered _ I)) _ _ _ K).
Qed.

Lemma register_inv : core_inv self'.
Proof.
  destruct register_unmarked as [U1 U2]. destruct I as [R T L F]. split.
  - split; [apply register_wf| | |apply register_closed, R; done|apply register_closed, R; done].
    + intros h b [[-> ->]|H]%register_lookup; simpl; [lia|]. pose proof (ri_extra _ R _ _ H). lia.
    + intros h b [[-> ->]|H]%register_lookup; simpl; [done|]. by apply (ri_source _ R _ _ H).
  - split; [apply T|apply T| |].
    + intros h b H. destruct (ti_tops _ T _ _ H) as (K & P & S). pose proof (bw_known _ _ (ri_wf _ R) _ _ K) as <-.
      split_and!; [apply register_lookup; by right|by rewrite register_marked|done].
    + intros i b H. destruct (ti_source _ T _ _ H) as (K & P & S).
      split_and!; [apply register_known; by right|by rewrite register_marked|done].
  - split; [apply L| |apply L| |apply L].
    + intros x. etransitivity; [apply (li_preprocessed _ L)|]. rewrite register_known. split.
      * intros [K P]. split; [by right|by rewrite register_marked].
      * intros [[->|K] P]; [congruence|]. by rewrite register_marked in P.
    + intros x H. destruct (li_chosen _ L _ H) as (K & P & N). split_and!; [apply register_known; by right|by rewrite register_marked|done].
  - destruct F. split; assumption.
Qed.
End register.

(** ** Preprocessing and marking as processed *)
Lemma preprocessed_log_app e1 e2 : preprocessed_log (e1 ++ e2) = preprocessed_log e1 ++ preprocessed_log e2.
Proof. apply bind_app. Qed.
Lemma chosen_log_app e1 e2 : chosen_log (e1 ++ e2) = chosen_log e1 ++ chosen_log e2.
Proof. apply bind_app. Qed.
Lemma added_log_app e1 e2 : added_log (e1 ++ e2) = added_log e1 ++ added_log e2.
Proof. apply bind_app. Qed.

(** The other marks are kept. *)
Lemma preprocess_processed self b x : processed (preprocess_update self b) x = processed self x.
Proof.
  unfold marked, get_block_desc. simpl. destruct (decide (cb_hash b = cb_hash x)) as [->|N].
  - rewrite lookup_alter_eq. by destruct (_ !! _).
  - by rewrite lookup_alter_ne.
Qed.
Lemma processed_preprocessed self b x : preprocessed (processed_update self b) x = preprocessed self x.
Proof.
  unfold marked, get_block_desc. simpl. destruct (decide (cb_hash b = cb_hash x)) as [->|N].
  - rewrite lookup_alter_eq. by destruct (_ !! _).
  - by rewrite lookup_alter_ne.
Qed.

Lemma snoc_split {A} (l l1 l2 : list A) (x y : A) : l ++ [x] = l1 ++ y :: l2 → l2 = [] ∧ l = l1 ∧ x = y ∨ ∃ rest, l = l1 ++ y :: rest.
Proof.
  intros E. destruct l2 as [|z l2 _] using rev_ind.
  - apply app_inj_tail in E as [-> ->]. by left.
  - rewrite app_comm_cons, app_assoc in E. apply app_inj_tail in E as [-> ->]. right. by exists l2.
Qed.

Lemma causal_log_snoc log x : causal_log log → (∀ y, y ∈ log → cb_hash y ≠ cb_hash x) → (∀ p, p ∈ parents x → p ∈ log) → causal_log (log ++ [x]).
Proof.
  intros [O C] N P. split.
  - rewrite fmap_app. apply list.NoDup_app. split_and!; [done| |apply NoDup_singleton].
    intros h (y & -> & Hy)%list_elem_of_fmap H%list_elem_of_singleton. by apply (N y).
  - intros l1 y l2 p E Hp. apply snoc_split in E as [(_ & -> & ->)|[l3 E]]; [by apply P|by eapply C].
Qed.

Lemma chosen_after_snoc events e : chosen_after events → (∀ x, x ∈ event_chosen e → x ∈ preprocessed_log events) → chosen_after (events ++ [e]).
Proof. intros A H e1 bs e2 x E Hx. apply snoc_split in E as [(_ & -> & ->)|[e3 E]]; [by apply H|by eapply A]. Qed.

Lemma preprocess_marked self b x : blocks_wf self → known self b →
  preprocessed (preprocess_update self b) x = if decide (cb_hash x = cb_hash b) then true else preprocessed self x.
Proof. apply (update_marked _ _ mark_preprocessed). Qed.
Lemma processed_marked self b x : blocks_wf self → known self b →
  processed (processed_update self b) x = if decide (cb_hash x = cb_hash b) then true else processed self x.
Proof. apply (update_marked _ _ mark_processed). Qed.

(** One step of [send_preprocess]. *)
Lemma preprocess_update_inv self x : core_inv self → known self x → preprocessed self x = false →
  (∀ p, p ∈ parents x → preprocessed self p = true) → core_inv (preprocess_update self x).
Proof.
  intros [R T L F] K U P. pose proof (ri_wf _ R) as W.
  assert (∀ y, preprocessed self y = true → preprocessed (preprocess_update self x) y = true) as Mono.
  { intros y Hy. rewrite preprocess_marked by done. by case_decide. }
  assert (∀ p, p ∈ parents x → known self p) as Kp by (intros p Hp; by apply (bw_parents _ _ W _ _ _ K)).
  split.
  - split; [by apply (update_wf _ _ _ (M := preprocess_marking))|apply R|apply R| |].
    + eapply (updates_closed bd_preprocessed preprocess_update mark_preprocessed); [by apply updates_one|done|apply R].
    + intros b p Kb. rewrite !preprocess_processed. by apply (ri_processed _ R).
  - split; [apply T|apply T| |].
    + intros h b H. destruct (ti_tops _ T _ _ H) as (? & ? & ?). auto.
    + intros i b H. destruct (ti_source _ T _ _ H) as (? & ? & ?). auto.
  - split; simpl; rewrite ?preprocessed_log_app, ?chosen_log_app, ?app_nil_r.
    + apply causal_log_snoc; [apply L| |].
      * intros y [Ky Py]%(li_preprocessed _ L) E. unfold known in *. rewrite E in Ky. congruence.
      * intros p Hp. apply (li_preprocessed _ L). auto.
    + intros y. rewrite elem_of_app, (li_preprocessed _ L), preprocess_marked by done. change (known (preprocess_update self x) y) with (known self y).
      change (preprocessed_log [PreprocessBlock x]) with [x]. rewrite list_elem_of_singleton. destruct (decide (cb_hash y = cb_hash x)) as [E|E]; [|naive_solver]. unfold known in *. split; [naive_solver|]. intros [Ky _]. right. congruence.
    + apply L.
    + intros y Hy. destruct (li_chosen _ L _ Hy) as (? & ? & ?). by rewrite preprocess_processed.
    + apply chosen_after_snoc; [apply L|]. intros y Hy. by apply elem_of_nil in Hy.
  - destruct F. split; simpl; rewrite ?added_log_app, ?chosen_log_app, ?app_nil_r; assumption.
Qed.

(** One step of [set_processed]. *)
Lemma processed_update_inv self x : core_inv self → known self x → processed self x = false →
  (∀ p, p ∈ parents x → processed self p = true) → core_inv (processed_update self x).
Proof.
  intros [R T L F] K U P. pose proof (ri_wf _ R) as W. split.
  - split; [by apply (update_wf _ _ _ (M := processed_marking))|apply R|apply R| |].
    + intros b p Kb. rewrite !processed_preprocessed. by apply (ri_preprocessed _ R).
    + eapply (updates_closed bd_processed processed_update mark_processed); [by apply updates_one|done|apply R].
  - split; [apply T|apply T| |].
    + intros h b H. rewrite processed_preprocessed. by apply (ti_tops _ T).
    + intros i b H. rewrite processed_preprocessed. by apply (ti_source _ T).
  - split; [apply L| |apply L| |apply L].
    + intros y. rewrite processed_preprocessed. apply (li_preprocessed _ L).
    + intros y Hy. destruct (li_chosen _ L _ Hy) as (? & ? & ?). split_and!; [done| |done]. rewrite processed_marked by done. by case_decide.
  - destruct F. split; assumption.
Qed.

Lemma preprocess_updates_inv self l self' : updates bd_preprocessed preprocess_update self l self' → core_inv self → core_inv self'.
Proof. induction 1; intros; [done|]. auto using preprocess_update_inv. Qed.
Lemma processed_updates_inv self l self' : updates bd_processed processed_update self l self' → core_inv self → core_inv self'.
Proof. induction 1; intros; [done|]. auto using processed_update_inv. Qed.
