(* ===== verification/CatchainSteps.v ===== *)
(** * Catchain: the operations of the processor

    Every legal request succeeds and keeps the invariant of [CatchainRun]; what the
    operations do to the log and to the top blocks. *)

From S2P Require Import Prelude ReceivedBlock CatchainCore CatchainUpdate CatchainRun.

Implicit Types (self : CatchainProcessor) (block b p x : CatchainBlock) (l : list CatchainBlock) (now time : N).

(** ** Frames *)
Definition with_log self (descs : gmap N BlockDesc) (events : list CatchainEvent) : CatchainProcessor :=
  {| cp_options := cp_options self; cp_receiver_started := cp_receiver_started self;
     cp_next_block_generation_time := cp_next_block_generation_time self; cp_blocks := cp_blocks self; cp_block_descs := descs;
     cp_top_blocks := cp_top_blocks self; cp_top_source_blocks := cp_top_source_blocks self; cp_sources := cp_sources self;
     cp_blamed_sources := cp_blamed_sources self; cp_process_deps := cp_process_deps self; cp_local_idx := cp_local_idx self;
     cp_force_process := cp_force_process self; cp_active_process := cp_active_process self;
     cp_current_extra_id := cp_current_extra_id self; cp_events := events |}.

Lemma with_log_same self : self = with_log self (cp_block_descs self) (cp_events self).
Proof. by destruct self. Qed.

Lemma preprocess_frame self l self' : updates bd_preprocessed preprocess_update self l self' →
  self' = with_log self (cp_block_descs self') (cp_events self ++ (PreprocessBlock <$> l)).
Proof.
  induction 1 as [self|self x l self' _ _ _ _ IH]; [rewrite app_nil_r; apply with_log_same|].
  rewrite IH at 1. unfold with_log, preprocess_update. simpl. by rewrite <- app_assoc.
Qed.

Lemma processed_frame self l self' : updates bd_processed processed_update self l self' → self' = set_descs self (cp_block_descs self').
Proof.
  induction 1 as [self|self x l self' _ _ _ _ IH]; [by destruct self|]. rewrite IH at 1. done.
Qed.

Lemma processed_updates_preprocessed self l self' x : updates bd_processed processed_update self l self' → preprocessed self' x = preprocessed self x.
Proof. induction 1 as [self|self y l self' _ _ _ _ IH]; [done|]. by rewrite IH, processed_preprocessed. Qed.

Lemma set_top_blocks_same self : set_top_blocks self (cp_top_blocks self) = self.
Proof. by destruct self. Qed.

Lemma core_fewer_tops self tops : core_inv self → tops ⊆ cp_top_blocks self → core_inv (set_top_blocks self tops).
Proof.
  intros [R T L F] S. split.
  - destruct R. split; assumption.
  - split; [apply T|apply T| |apply T]. intros h b H. apply (ti_tops _ T). by eapply lookup_weaken.
  - split; [apply L|apply L|apply L| |apply L]. intros x Hx. destruct (li_chosen _ L _ Hx) as (? & ? & N). split_and!; [done..|].
    by eapply lookup_weaken_None.
  - destruct F. split; assumption.
Qed.

Lemma core_next_time self now time : core_inv self → core_inv (set_next_block_generation_time self now time).
Proof. intros I. unfold set_next_block_generation_time. destruct (_ && _); [done|by apply core_time]. Qed.

Lemma core_idle self now : core_inv self → core_inv (idle_if_no_tops self now).
Proof. intros I. unfold idle_if_no_tops. destruct (_ && _); [by apply core_next_time|done]. Qed.

Lemma core_force self force : core_inv self → core_inv (set_force self force).
Proof. intros [[] [] [] []]. split; split; assumption. Qed.

(** ** New blocks *)
Lemma send_preprocess_spec self block : core_inv self → known self block →
  ∃ l self', send_preprocess self block = Done self' ∧ core_inv self' ∧ preprocessed self' block = true
    ∧ self' = with_log self (cp_block_descs self') (cp_events self ++ (PreprocessBlock <$> l))
    ∧ ∀ x, x ∈ l ↔ below x block ∧ preprocessed self x = false.
Proof.
  intros I K. pose proof (ri_wf _ (ci_registered _ I)) as W.
  destruct (recursive_update_spec bd_preprocessed preprocess_update mark_preprocessed self block W K) as (l & self' & E & U & M & B).
  exists l, self'. split_and!; [done|by eapply preprocess_updates_inv|done|by apply preprocess_frame|].
  intros x. eapply (updates_exact _ _ mark_preprocessed); [done|apply I|done..].
Qed.

Lemma take_deps_spec deps self blamed acc : (∀ dep, dep ∈ deps → is_Some (cp_blocks self !! dep)) →
  ∃ bs tops, take_deps self blamed deps acc = Done (acc ++ bs, set_top_blocks self tops) ∧ tops ⊆ cp_top_blocks self
    ∧ Forall2 (λ dep b, cp_blocks self !! dep = Some b) deps bs
    ∧ ∀ h, tops !! h = if blamed : bool then cp_top_blocks self !! h else if decide (h ∈ deps) then None else cp_top_blocks self !! h.
Proof.
  revert self acc. induction deps as [|dep deps IH]; intros self acc K.
  - exists [], (cp_top_blocks self). simpl. rewrite app_nil_r, set_top_blocks_same. split_and!; [done|done|constructor|]. intros h. by destruct blamed.
  - destruct (K dep (list_elem_of_here _ _)) as [b Hb]. simpl.
    set (self1 := if negb blamed then set_top_blocks self (delete dep (cp_top_blocks self)) else self).
    assert (cp_blocks self1 = cp_blocks self) as E1 by (unfold self1; by destruct blamed).
    destruct (IH self1 (acc ++ [b])) as (bs & tops & E & S & D & T).
    { intros d Hd. rewrite E1. by apply K, list_elem_of_further. }
    exists (b :: bs), tops. unfold processor_get_block. rewrite E1, Hb. simpl. rewrite E, <- app_assoc. rewrite E1 in D. split_and!.
    + by unfold self1; destruct blamed.
    + etransitivity; [done|]. unfold self1. destruct blamed; [done|]. apply delete_subseteq.
    + by constructor.
    + intros h. rewrite T. unfold self1. destruct blamed; [done|]. simpl.
      destruct (decide (h ∈ deps)), (decide (h ∈ dep :: deps)) as [Hd|Hd]; try done.
      * exfalso. apply Hd. by apply list_elem_of_further.
      * apply elem_of_cons in Hd as [->|?]; [by rewrite lookup_delete_eq|done].
      * rewrite lookup_delete_ne; [done|]. intros ->. apply Hd, list_elem_of_here.
Qed.

(** The top blocks after a delivery. *)
Definition tops_after self (blamed : bool) (source_id hash prev : N) (deps : list N) block (h : N) : option CatchainBlock :=
  if negb blamed && negb (source_id =? cp_local_idx self) && (h =? hash) then Some block
  else if negb (prev =? 0) && (h =? prev) || negb blamed && bool_decide (h ∈ deps) then None
  else cp_top_blocks self !! h.

Lemma preprocess_chosen l : chosen_log (PreprocessBlock <$> l) = [].
Proof. by induction l. Qed.

(** The last part of [on_new_block]: the block enters the top blocks. *)
Lemma core_new_top self block : core_inv self → known self block → preprocessed self block = true →
  cb_hash block ∉ cb_hash <$> chosen_log (cp_events self) →
  let self' := set_tops self (cp_top_blocks self) (<[N.to_nat (cb_source_id block) := Some block]> (cp_top_source_blocks self)) in
  core_inv (if negb (cb_source_id block =? cp_local_idx self) then set_top_blocks self' (<[cb_hash block := block]> (cp_top_blocks self)) else self').
Proof.
  intros [R T L F] K P N self'.
  assert (tops_inv self') as T'.
  { split; [apply T|simpl; rewrite length_insert; apply T|apply T|]. intros i b H. simpl in H.
    destruct (decide (N.to_nat (cb_source_id block) = i)) as [<-|Ni].
    - assert (N.to_nat (cb_source_id block) < length (cp_top_source_blocks self))%nat as Hl.
      { rewrite <- (length_insert _ (N.to_nat (cb_source_id block)) (Some block)). by eapply lookup_lt_Some. }
      rewrite list_lookup_insert_eq in H by done. injection H as <-. split_and!; [done..|]. lia.
    - rewrite list_lookup_insert_ne in H by done. by apply (ti_source _ T). }
  assert (core_inv self') as I' by (split; [destruct R|done|destruct L|destruct F]; split; assumption).
  destruct (negb _) eqn:El; [|done]. breflect. split.
  - destruct R. split; assumption.
  - split; [apply T'|apply T'| |apply T']. intros h b H. simpl in H. apply lookup_insert_Some in H as [[<- <-]|[_ H]]; [done|].
    by apply (ti_tops _ T).
  - split; [apply L|apply L|apply L| |apply L]. intros x Hx. destruct (li_chosen _ L _ Hx) as (? & ? & Nx). split_and!; [done..|].
    simpl. rewrite lookup_insert_ne; [done|]. intros E. apply N. rewrite E. by apply list_elem_of_fmap_2.
  - destruct F. split; assumption.
Qed.

(** The state after the predecessor and the dependencies are taken. *)
Lemma blamed_lookup self source_id : core_inv self → source_id < N.of_nat (length (cp_sources self)) →
  ∃ blamed, cp_blamed_sources self !! N.to_nat source_id = Some blamed.
Proof. intros I H. apply lookup_lt_is_Some. rewrite (ti_blamed _ (ci_tops _ I)). lia. Qed.

Lemma idle_frame self now : ∃ time, idle_if_no_tops self now = set_generation_time self time.
Proof.
  unfold idle_if_no_tops, set_next_block_generation_time.
  assert (self = set_generation_time self (cp_next_block_generation_time self)) as E by by destruct self.
  destruct (_ && _); [destruct (_ && _)|]; eauto.
Qed.

Section on_new_block.
Context (self : CatchainProcessor) (now source_id fork_id hash : N) (height : BlockHeight) (prev : N).
Context (deps : list N) (heights : list BlockHeight) (payload : list N).
Context (I : core_inv self) (G : legal self (OnNewBlock now source_id fork_id hash height prev deps heights payload)).

(** The block that is made. *)
Definition new_block (deps : list CatchainBlock) : CatchainBlock :=
  BlockImpl source_id fork_id height hash payload (if prev =? 0 then None else cp_blocks self !! prev) deps heights (cp_current_extra_id self).

(** What [on_new_block] does once the block is registered. *)
Definition new_block_end (blamed : bool) self block : outcome CatchainProcessor :=
  if blamed then Done self else
  self ← send_preprocess self block;
  _ ← unwrap (cp_top_source_blocks self !! N.to_nat source_id);
  let self := set_tops self (cp_top_blocks self) (<[N.to_nat source_id := Some block]> (cp_top_source_blocks self)) in
  let self := if negb (source_id =? cp_local_idx self) then set_top_blocks self (<[hash := block]> (cp_top_blocks self)) else self in
  Done (idle_if_no_tops self now).

Lemma on_new_block_begin blamed : cp_blamed_sources self !! N.to_nat source_id = Some blamed →
  ∃ bs time tops, let block := new_block bs in
    let self1 := set_top_blocks (set_generation_time self time) tops in
    on_new_block self now source_id fork_id hash height prev deps heights payload
      = new_block_end blamed (register_block self1 block (cp_current_extra_id self1 + 1)) block
    ∧ core_inv self1 ∧ Forall2 (λ dep b, cp_blocks self !! dep = Some b) deps bs
    ∧ ∀ h, tops !! h = if negb (prev =? 0) && (h =? prev) || negb blamed && bool_decide (h ∈ deps) then None else cp_top_blocks self !! h.
Proof.
  intros Hb. destruct G as (Fresh & Hs & Hd & Hx). destruct (idle_frame self now) as [time Ei].
  set (tops0 := if prev =? 0 then cp_top_blocks self else delete prev (cp_top_blocks self)).
  set (self0 := set_top_blocks (set_generation_time self time) tops0).
  destruct (take_deps_spec deps self0 blamed []) as (bs & tops & Et & St & Ft & Lt); [done|].
  exists bs, time, tops. split_and!; [|apply core_fewer_tops; [by apply core_time|]|done|].
  - unfold on_new_block. rewrite Ei. cbv zeta.
    replace (if prev =? 0 then _ else _) with (if prev =? 0 then None else cp_blocks self !! prev, self0)
      by (unfold self0, tops0; by destruct (prev =? 0)).
    cbv iota beta.
    assert ((match deps with [] => Done false | _ :: _ => unwrap (cp_blamed_sources self0 !! N.to_nat source_id) end ≫=
      λ blamed, take_deps self0 blamed deps []) = Done (bs, set_top_blocks self0 tops)) as Ed.
    { destruct deps as [|d ds]; simpl in *; [by simplify_eq|]. rewrite Hb. done. }
    rewrite <- bind_assoc, Ed. run.
    change (cp_sources (set_top_blocks self0 tops)) with (cp_sources self).
    change (cp_current_extra_id (set_top_blocks self0 tops)) with (cp_current_extra_id self).
    apply N.ltb_lt in Hs, Hx. rewrite Hs, Hx. unfold assert_that. run.
    change (cp_blamed_sources (register_block _ _ _)) with (cp_blamed_sources self). rewrite Hb. done.
  - etransitivity; [done|]. unfold self0, tops0. destruct (prev =? 0); [done|]. apply delete_subseteq.
  - intros h. rewrite Lt. unfold self0, tops0. simpl. destruct (prev =? 0) eqn:Ep, blamed; simpl.
    + done.
    + by rewrite bool_decide_decide; destruct (decide _).
    + rewrite orb_false_r. destruct (h =? prev) eqn:E; breflect; [subst; apply lookup_delete_eq|by rewrite lookup_delete_ne].
    + rewrite bool_decide_decide. destruct (decide _); [by rewrite orb_true_r|]. rewrite orb_false_r.
      destruct (h =? prev) eqn:E; breflect; [subst; apply lookup_delete_eq|by rewrite lookup_delete_ne].
Qed.

Lemma new_block_parents bs p : Forall2 (λ dep b, cp_blocks self !! dep = Some b) deps bs → p ∈ parents (new_block bs) → known self p.
Proof.
  intros F Hp. pose proof (ri_wf _ (ci_registered _ I)) as W. unfold parents, new_block in Hp. simpl in Hp.
  assert (∀ h, cp_blocks self !! h = Some p → known self p) as K.
  { intros h H. unfold known. by rewrite (bw_known _ _ W _ _ H). }
  apply elem_of_app in Hp as [Hp|Hp].
  - destruct (prev =? 0); [by apply elem_of_nil in Hp|]. destruct (cp_blocks self !! prev) as [b|] eqn:E; simpl in Hp; [|by apply elem_of_nil in Hp].
    apply list_elem_of_singleton in Hp as ->. by eapply K.
  - apply list_elem_of_lookup_1 in Hp as [i Hi]. destruct (Forall2_lookup_r _ _ _ _ _ F Hi) as (d & _ & Hd). by eapply K.
Qed.

(** [on_new_block] succeeds; the block is registered, preprocessed after the blocks
    below it unless its source is blamed, and replaces its parents among the top blocks. *)
Lemma on_new_block_spec blamed : cp_blamed_sources self !! N.to_nat source_id = Some blamed →
  ∃ self' bs, let block := new_block bs in
    on_new_block self now source_id fork_id hash height prev deps heights payload = Done self' ∧ core_inv self'
    ∧ Forall2 (λ dep b, cp_blocks self !! dep = Some b) deps bs
    ∧ cp_blocks self' = <[hash := block]> (cp_blocks self)
    ∧ (∀ h, cp_top_blocks self' !! h = tops_after self blamed source_id hash prev deps block h)
    ∧ ∃ l, cp_events self' = cp_events self ++ (PreprocessBlock <$> l)
      ∧ ∀ x, x ∈ l ↔ blamed = false ∧ below x block ∧ preprocessed self x = false.
Proof.
  intros Hb. destruct (on_new_block_begin blamed Hb) as (bs & time & tops & -> & I1 & F & Lt).
  destruct G as (Fresh & Hs & _ & _). set (block := new_block bs).
  set (self1 := set_top_blocks (set_generation_time self time) tops) in *.
  set (self2 := register_block self1 block (cp_current_extra_id self1 + 1)).
  assert (∀ p, p ∈ parents block → known self1 p) as P by (intros p Hp; by apply (new_block_parents bs p F)).
  assert (core_inv self2) as I2 by by apply register_inv.
  destruct blamed.
  { exists self2, bs. cbv zeta. fold block. split_and!; [done|done|done|done| |].
    - intros h. simpl. rewrite Lt. unfold tops_after. simpl. done.
    - exists []. simpl. rewrite app_nil_r. split; [done|]. intros x. split; [intros Hx; by apply elem_of_nil in Hx|naive_solver]. }
  destruct (send_preprocess_spec self2 block I2) as (l & self3 & E3 & I3 & P3 & Fr & X).
  { apply (register_known self1 block Fresh). by left. }
  assert (preprocessed self block = false) as U0.
  { unfold marked, get_block_desc. simpl. destruct (cp_block_descs self !! hash) as [d|] eqn:Ed; [|done].
    assert (is_Some (cp_blocks self !! hash)) as [b ?] by (apply (bw_desc _ _ (ri_wf _ (ci_registered _ I))); by rewrite Ed). congruence. }
  assert (∀ x, below x block → preprocessed self2 x = preprocessed self x) as Same.
  { intros x Hx. apply rtc_inv_r in Hx as [->|(p & Hr & Hp)].
    - rewrite U0. by apply register_unmarked.
    - apply (register_marked self1 block Fresh). by eapply (below_rank _ _ _ (ri_wf _ (ci_registered _ I1))); [apply P|]. }
  unfold new_block_end. rewrite E3. run.
  assert (is_Some (cp_top_source_blocks self3 !! N.to_nat source_id)) as [t Et].
  { apply lookup_lt_is_Some. rewrite Fr. simpl. rewrite (ti_sources _ (ci_tops _ I)). lia. }
  rewrite Et. simpl unwrap. run. eexists _, bs. cbv zeta. fold block. split_and!; [done| |done| | |].
  - apply core_idle. apply (core_new_top self3 block); [done| |done|].
    + rewrite Fr. apply (register_known self1 block Fresh). by left.
    + rewrite Fr. simpl. rewrite chosen_log_app, fmap_app, elem_of_app. intros [Hc|Hc].
      * apply list_elem_of_fmap in Hc as (x & Ex & Hx). destruct (li_chosen _ (ci_log _ I) _ Hx) as (Kx & _). unfold known in Kx.
        rewrite <- Ex in Kx. simpl in Kx. congruence.
      * rewrite preprocess_chosen in Hc. by apply elem_of_nil in Hc.
  - edestruct idle_frame as [t' ->]. rewrite Fr. by destruct (source_id =? _).
  - intros h. edestruct idle_frame as [t' ->]. unfold tops_after. rewrite <- Lt, Fr.
    destruct (source_id =? _), (h =? hash) eqn:Eh; breflect; simpl; subst; try done; [by rewrite lookup_insert_eq|by rewrite lookup_insert_ne].
  - exists l. split; [edestruct idle_frame as [t' ->]; rewrite Fr; by destruct (source_id =? _)|].
    intros x. rewrite X. split; intros H; destruct_and?; rewrite ?Same in * by done; by rewrite ?Same by done.
Qed.
End on_new_block.

(** ** Choosing the dependencies of a new block *)
Lemma set_processed_spec self block : core_inv self → known self block →
  ∃ self', set_processed self block = Done self' ∧ core_inv self' ∧ self' = set_descs self (cp_block_descs self')
    ∧ (∀ x, preprocessed self' x = preprocessed self x)
    ∧ ∀ x, known self x → processed self' x = true ↔ processed self x = true ∨ below x block.
Proof.
  intros I K. pose proof (ri_wf _ (ci_registered _ I)) as W. pose proof (ri_processed _ (ci_registered _ I)) as C.
  destruct (recursive_update_spec bd_processed processed_update mark_processed self block W K) as (l & self' & E & U & M & B).
  exists self'. split_and!; [done|by eapply processed_updates_inv|by eapply processed_frame|intros; by eapply processed_updates_preprocessed|].
  intros x Kx. rewrite (updates_marked _ _ mark_processed _ _ _ _ U W), orb_true_iff, bool_decide_eq_true. split.
  - intros [H|(y & Ey & Hy)%list_elem_of_fmap]; [by left|right].
    destruct (updates_fresh _ _ mark_processed _ _ _ U W) as [_ F]. destruct (F y Hy) as [Ky _]. unfold known in *. rewrite Ey in Kx.
    replace x with y by congruence. by apply B.
  - intros [H|H]; [by left|]. destruct (processed self x) eqn:Ux; [by left|right]. apply list_elem_of_fmap_2.
    by apply (updates_exact _ _ mark_processed _ _ _ _ _ W C K U M B).
Qed.

Section choose.
Context {R : RandomDraws}.

(** The blocks that the loop of [send_process] has chosen so far. *)
Record choice self (bs : list CatchainBlock) self' : Prop := {
  ch_inv : core_inv self';
  ch_frame : self' = set_descs (set_top_blocks self (cp_top_blocks self')) (cp_block_descs self');
  ch_tops : cp_top_blocks self' ⊆ cp_top_blocks self;
  ch_once : NoDup (cb_hash <$> bs);
  ch_chosen b : b ∈ bs → cp_top_blocks self !! cb_hash b = Some b ∧ cp_top_blocks self' !! cb_hash b = None ∧ cp_blamed_sources self !! N.to_nat (cb_source_id b) = Some false;
  ch_left h b : cp_top_blocks self !! h = Some b →
    cp_top_blocks self' !! h = Some b ∨ b ∈ bs ∨ cp_blamed_sources self !! N.to_nat (cb_source_id b) = Some true;
  ch_preprocessed x : preprocessed self' x = preprocessed self x;
  ch_processed x : known self x → processed self' x = true ↔ processed self x = true ∨ ∃ b, b ∈ bs ∧ below x b;
}.

Lemma choice_nil self : core_inv self → choice self [] self.
Proof.
  intros I. split; try done.
  - by destruct self.
  - constructor.
  - intros b Hb. by apply elem_of_nil in Hb.
  - by left.
  - intros x K. split; [by left|]. intros [?|(b & Hb & _)]; [done|by apply elem_of_nil in Hb].
Qed.

Lemma top_known self h b : core_inv self → cp_top_blocks self !! h = Some b → known self b ∧ cb_hash b = h.
Proof.
  intros I H. destruct (ti_tops _ (ci_tops _ I) _ _ H) as (K & _). pose proof (bw_known _ _ (ri_wf _ (ci_registered _ I)) _ _ K) as <-. done.
Qed.

Lemma choice_skip self h b bs self' : core_inv self → cp_top_blocks self !! h = Some b → cp_blamed_sources self !! N.to_nat (cb_source_id b) = Some true →
  choice (set_top_blocks self (delete h (cp_top_blocks self))) bs self' → choice self bs self'.
Proof.
  intros I Hb Bl [C1 C2 C3 C4 C5 C6 C7 C8]. split; try done.
  - etransitivity; [done|]. apply delete_subseteq.
  - intros x Hx. destruct (C5 x Hx) as (T & ? & ?). simpl in T. apply lookup_delete_Some in T as [_ T]. done.
  - intros k x Hx. destruct (decide (k = h)) as [->|N]; [right; right; congruence|]. apply C6. simpl. by apply lookup_delete_Some.
Qed.

Lemma choice_cons self h b self1 bs self' : core_inv self → cp_top_blocks self !! h = Some b → cp_blamed_sources self !! N.to_nat (cb_source_id b) = Some false →
  set_processed (set_top_blocks self (delete h (cp_top_blocks self))) b = Done self1 → choice self1 bs self' → choice self (b :: bs) self'.
Proof.
  intros I Hb Bl E [C1 C2 C3 C4 C5 C6 C7 C8]. destruct (top_known _ _ _ I Hb) as [K <-].
  set (self0 := set_top_blocks self (delete (cb_hash b) (cp_top_blocks self))) in *.
  destruct (set_processed_spec self0 b) as (self1' & E' & I1 & F1 & P1 & X1).
  { apply core_fewer_tops; [done|apply delete_subseteq]. }
  { done. }
  rewrite E in E'. injection E' as <-.
  assert (cp_top_blocks self1 = delete (cb_hash b) (cp_top_blocks self)) as T1 by by rewrite F1.
  split.
  - done.
  - rewrite C2 at 1. rewrite F1. done.
  - etransitivity; [done|]. rewrite T1. apply delete_subseteq.
  - simpl. constructor; [|done]. intros (x & Ex & Hx)%list_elem_of_fmap. destruct (C5 x Hx) as (T & _). rewrite T1, Ex, lookup_delete_eq in T. done.
  - intros x [->|Hx]%elem_of_cons.
    + split_and!; [done| |done]. eapply lookup_weaken_None; [|done]. by rewrite T1, lookup_delete_eq.
    + destruct (C5 x Hx) as (T & ? & Hbl). rewrite T1 in T. apply lookup_delete_Some in T as [_ T]. rewrite F1 in Hbl. done.
  - intros k x Hx. destruct (decide (k = cb_hash b)) as [->|N].
    + right; left. replace x with b by congruence. apply list_elem_of_here.
    + destruct (C6 k x) as [?|[?|Hbl]]; [rewrite T1; by apply lookup_delete_Some|by left|right; left; by apply list_elem_of_further|].
      right; right. by rewrite F1 in Hbl.
  - intros x. by rewrite C7, P1.
  - intros x Kx. rewrite C8, X1 by (done || by rewrite F1). setoid_rewrite elem_of_cons. naive_solver.
Qed.

Lemma remove_random_spec n self : cp_top_blocks self ≠ ∅ →
  ∃ h b, cp_top_blocks self !! h = Some b ∧ remove_random_top_block n self = Done (b, set_top_blocks self (delete h (cp_top_blocks self))).
Proof.
  intros Ne. destruct (draw_ok n _ Ne) as (h & E & [b Hb]). exists h, b. split; [done|].
  unfold remove_random_top_block. rewrite E. simpl. by rewrite Hb.
Qed.

Lemma good_source self h b (blamed : bool) : core_inv self → cp_blocks self !! h = Some b → cp_blamed_sources self !! N.to_nat (cb_source_id b) = Some blamed →
  (if cb_source_id b =? N.of_nat (length (cp_sources self)) then Done true
   else blamed ← unwrap (cp_blamed_sources self !! N.to_nat (cb_source_id b)); Done (negb blamed)) = Done (negb blamed).
Proof.
  intros I K Hb. pose proof (ri_source _ (ci_registered _ I) _ _ K) as Hs.
  destruct (N.eqb_spec (cb_source_id b) (N.of_nat (length (cp_sources self)))); [lia|]. by rewrite Hb.
Qed.

Lemma choose_blocks_spec fuel n self acc : core_inv self → (size (cp_top_blocks self) <= fuel)%nat →
  ∃ bs self', choose_blocks fuel n self acc = Done (acc ++ bs, self') ∧ choice self bs self'
    ∧ (N.of_nat (length acc) <= co_max_deps (cp_options self) → N.of_nat (length (acc ++ bs)) <= co_max_deps (cp_options self))
    ∧ (cp_top_blocks self' = ∅ ∨ co_max_deps (cp_options self) <= N.of_nat (length (acc ++ bs))).
Proof.
  revert n self acc. induction fuel as [|fuel IH]; intros n self acc I Hf; simpl.
  - exists [], self. rewrite app_nil_r. split_and!; [done|by apply choice_nil|done|]. left. apply map_size_empty_iff. lia.
  - destruct (bool_decide _ || _) eqn:Stop.
    { exists [], self. rewrite app_nil_r. split_and!; [done|by apply choice_nil|done|].
      apply orb_true_iff in Stop as [?%bool_decide_eq_true|?]; [by left|right]. breflect. lia. }
    breflect. apply bool_decide_eq_false in H. destruct (remove_random_spec n self H) as (h & b & Hb & ->). run.
    set (self0 := set_top_blocks self (delete h (cp_top_blocks self))).
    assert (core_inv self0) as I0 by (apply core_fewer_tops; [done|apply delete_subseteq]).
    assert (size (cp_top_blocks self0) <= fuel)%nat as Hf0 by (simpl; rewrite map_size_delete_Some by (by rewrite Hb); lia).
    destruct (ti_tops _ (ci_tops _ I) _ _ Hb) as (Kb & _).
    destruct (blamed_lookup self (cb_source_id b) I (ri_source _ (ci_registered _ I) _ _ Kb)) as [blamed Bl].
    rewrite (good_source self0 h b blamed I0 Kb Bl). run. destruct blamed; simpl negb; cbv iota.
    + destruct (IH (n + 1) self0 acc I0 Hf0) as (bs & self' & E & C & L1 & L2). exists bs, self'. split_and!; [done| |done|done].
      by eapply choice_skip.
    + destruct (top_known _ _ _ I Hb) as [Kb' Eh]. destruct (set_processed_spec self0 b I0 Kb') as (self1 & E1 & I1 & F1 & _).
      rewrite E1. run. assert (cp_top_blocks self1 = cp_top_blocks self0) as T1 by by rewrite F1.
      assert (cp_options self1 = cp_options self) as O1 by by rewrite F1.
      destruct (IH (n + 1) self1 (acc ++ [b]) I1) as (bs & self' & E & C & L1 & L2); [by rewrite T1|].
      rewrite <- app_assoc, O1 in *. exists (b :: bs), self'. split_and!; [done|by eapply choice_cons| |done].
      intros _. apply L1. rewrite length_app. simpl. lia.
Qed.

(** The state in which blocks are chosen: the chain runs, and the dependencies of the
    last block have been used. *)
Definition may_choose self : Prop :=
  cp_receiver_started self = true ∧ cp_active_process self = true ∧ (co_skip_processed_blocks (cp_options self) = false → cp_process_deps self = []).

Definition chosen self1 (bs : list CatchainBlock) : CatchainProcessor := add_event (set_process_deps self1 (cb_hash <$> bs)) (ProcessBlocks bs).

Lemma choice_processed self bs self1 b : core_inv self → choice self bs self1 → b ∈ bs → known self b ∧ processed self1 b = true.
Proof.
  intros I C Hb. destruct (ch_chosen _ _ _ C _ Hb) as (T & _). destruct (top_known _ _ _ I T) as [K _]. split; [done|].
  apply (ch_processed _ _ _ C); [done|]. right. exists b. split; [done|apply below_refl].
Qed.

Lemma core_chosen self bs self1 : core_inv self → may_choose self → choice self bs self1 → core_inv (chosen self1 bs).
Proof.
  intros I (St & Ac & De) C. destruct (ch_inv _ _ _ C) as [R1 T1 L1 F1]. pose proof (ch_frame _ _ _ C) as Fr.
  assert (cp_events self1 = cp_events self) as Ev by by rewrite Fr.
  split.
  - destruct R1. split; assumption.
  - destruct T1. split; assumption.
  - split; simpl; rewrite ?preprocessed_log_app, ?chosen_log_app, ?app_nil_r; [apply L1|apply L1| | |].
    + simpl. rewrite app_nil_r, fmap_app. apply list.NoDup_app. split_and!; [apply L1| |apply C].
      rewrite Ev. intros h (x & -> & Hx)%list_elem_of_fmap (y & E & Hy)%list_elem_of_fmap.
      destruct (li_chosen _ (ci_log _ I) _ Hx) as (_ & _ & N). destruct (ch_chosen _ _ _ C _ Hy) as (T & _). rewrite <- E in T. congruence.
    + simpl. rewrite app_nil_r. intros x [Hx|Hx]%elem_of_app; [by apply L1|].
      destruct (choice_processed _ _ _ _ I C Hx) as [K P]. destruct (ch_chosen _ _ _ C _ Hx) as (_ & N & _). split_and!; [|done|done].
      unfold known. simpl. by rewrite Fr.
    + apply chosen_after_snoc; [apply L1|]. intros x Hx. simpl in Hx. destruct (ch_chosen _ _ _ C _ Hx) as (T & _).
      rewrite Ev. apply (li_preprocessed _ (ci_log _ I)). destruct (top_known _ _ _ I T) as [K _]. split; [done|]. by apply (ti_tops _ (ci_tops _ I) _ _ T).
  - assert (cp_receiver_started self1 = true ∧ cp_active_process self1 = true ∧ cp_options self1 = cp_options self ∧ cp_process_deps self1 = cp_process_deps self)
      as (S1 & A1 & O1 & D1) by by rewrite Fr.
    split; simpl; [by rewrite S1|congruence|]. rewrite added_log_app, chosen_log_app, O1. simpl. intros Hs.
    pose proof (fi_deps _ F1) as D. rewrite O1, D1 in D. rewrite (De Hs), app_nil_r in D. rewrite !app_nil_r, fmap_app, D by done. done.
Qed.

Lemma send_process_spec n self : core_inv self → may_choose self →
  ∃ bs self1, send_process n self = Done (chosen self1 bs) ∧ core_inv (chosen self1 bs) ∧ choice self bs self1
    ∧ N.of_nat (length bs) <= co_max_deps (cp_options self)
    ∧ (cp_top_blocks self1 = ∅ ∨ N.of_nat (length bs) = co_max_deps (cp_options self)).
Proof.
  intros I M. destruct (choose_blocks_spec (size (cp_top_blocks self)) n self [] I) as (bs & self1 & E & C & L1 & L2); [done|].
  exists bs, self1. unfold send_process. destruct (M) as (-> & _). simpl assert_that. run. rewrite E. simpl in *. specialize (L1 ltac:(lia)).
  split_and!; [done|by eapply core_chosen|done|done|]. destruct L2; [by left|right; lia].
Qed.
End choose.

(** ** Blame *)

(** Block [b] of source [i] is to be among the top blocks: it is the last block of a good
    source that is not this node, not processed, and no other good source refers to it. *)
Definition is_top self (i : nat) b : Prop :=
  cp_blamed_sources self !! i = Some false ∧ cp_top_source_blocks self !! i = Some (Some b) ∧ N.of_nat i ≠ cp_local_idx self
  ∧ processed self b = false ∧ referred self i b = false.

Lemma is_top_tops self tops i b : is_top (set_top_blocks self tops) i b ↔ is_top self i b.
Proof. done. Qed.

Lemma recompute_top_spec self i :
  (∃ b, is_top self i b ∧ recompute_top self i = set_top_blocks self (<[cb_hash b := b]> (cp_top_blocks self)))
  ∨ (∀ b, ¬ is_top self i b) ∧ recompute_top self i = self.
Proof.
  unfold recompute_top, is_top. destruct (cp_blamed_sources self !! i) as [[]|] eqn:B; [right; naive_solver| |right; naive_solver].
  destruct (cp_top_source_blocks self !! i) as [[b|]|] eqn:T; [|right; naive_solver..].
  change (is_processed self b) with (processed self b).
  destruct (N.of_nat i =? cp_local_idx self) eqn:El, (processed self b) eqn:P, (referred self i b) eqn:Rf; simpl; breflect;
    try (right; split; [|done]; intros ? (? & ? & ? & ? & ?); simplify_eq; congruence).
  left. exists b. done.
Qed.

Lemma recompute_fold (l : list nat) self : core_inv (set_top_blocks self ∅) →
  (∀ h b, cp_top_blocks self !! h = Some b → cp_blocks self !! h = Some b) →
  ∃ tops, foldl recompute_top self l = set_top_blocks self tops
    ∧ ∀ h b, tops !! h = Some b ↔ cp_top_blocks self !! h = Some b ∨ ∃ i, i ∈ l ∧ is_top self i b ∧ cb_hash b = h.
Proof.
  intros I. revert self I. induction l as [|i l IH]; intros self I K; simpl.
  { exists (cp_top_blocks self). rewrite set_top_blocks_same. split; [done|]. intros h b. split; [by left|]. intros [?|(i & Hi & _)]; [done|].
    by apply elem_of_nil in Hi. }
  destruct (recompute_top_spec self i) as [(c & Tc & ->)|[Nt ->]].
  - assert (known self c) as Kc by (apply (ti_source _ (ci_tops _ I) i); apply Tc).
    destruct (IH (set_top_blocks self (<[cb_hash c := c]> (cp_top_blocks self)))) as (tops & E & X); [done| |].
    { simpl. intros h b [[<- <-]|[_ H]]%lookup_insert_Some; [done|by apply K]. }
    exists tops. split; [done|]. intros h b. rewrite X. simpl. setoid_rewrite elem_of_cons. setoid_rewrite is_top_tops.
    rewrite lookup_insert_Some. split.
    + intros [[[<- <-]|[_ H]]|(j & Hj & ?)]; [right; exists i; by auto|by left|right; exists j; by auto].
    + intros [H|(j & [->|Hj] & Tj & <-)].
      * destruct (decide (cb_hash c = h)) as [<-|N]; [|by left; right]. left; left. split; [done|]. apply K in H. unfold known in Kc. congruence.
      * left; left. destruct Tc as (_ & Tc & _), Tj as (_ & Tj & _). naive_solver.
      * right. exists j. done.
  - destruct (IH self I K) as (tops & E & X). exists tops. split; [done|]. intros h b. rewrite X. setoid_rewrite elem_of_cons.
    split; [naive_solver|]. intros [?|(j & [->|?] & Tj & ?)]; [by left|by destruct (Nt b)|right; eauto].
Qed.

Lemma core_blame self i : core_inv self →
  core_inv (set_tops (set_blamed self (<[i := true]> (cp_blamed_sources self))) ∅ (<[i := None]> (cp_top_source_blocks self))).
Proof.
  intros [R T L F]. split.
  - destruct R. split; assumption.
  - split; simpl; rewrite ?length_insert; [apply T|apply T| |].
    + intros h b H. by rewrite lookup_empty in H.
    + intros j b H. apply list_lookup_insert_Some in H as [(_ & ? & _)|[_ H]]; [done|]. by apply (ti_source _ T).
  - split; [apply L|apply L|apply L| |apply L]. intros x Hx. destruct (li_chosen _ L _ Hx) as (? & ? & _). split_and!; [done..|].
    simpl. apply lookup_empty.
  - destruct F. split; assumption.
Qed.

Lemma core_recomputed self tops (l : list nat) : core_inv (set_top_blocks self ∅) →
  (∀ h b, tops !! h = Some b → ∃ i, i ∈ l ∧ is_top self i b ∧ cb_hash b = h) → core_inv (set_top_blocks self tops).
Proof.
  intros [R T L F] H. split.
  - destruct R. split; assumption.
  - split; [apply T|apply T| |apply T]. intros h b Hb. destruct (H h b Hb) as (i & _ & (? & Hi & Hl & _) & <-).
    destruct (ti_source _ T i b Hi) as (? & ? & Es). split_and!; [done..|]. rewrite Es. done.
  - split; [apply L|apply L|apply L| |apply L]. intros x Hx. destruct (li_chosen _ L _ Hx) as (Kx & Px & _). split_and!; [done..|].
    simpl. destruct (tops !! cb_hash x) as [b|] eqn:E; [|done]. exfalso. destruct (H _ _ E) as (i & _ & (? & Hi & Hl & Pb & _) & Eh).
    destruct (ti_source _ T i b Hi) as (Kb & _). assert (b = x) as -> by (unfold known in *; simpl in *; congruence).
    change (processed (set_top_blocks self ∅) x) with (processed self x) in Px. congruence.
  - destruct F. split; assumption.
Qed.

Lemma on_blame_spec self source_id blamed : core_inv self → cp_blamed_sources self !! N.to_nat source_id = Some blamed →
  ∃ self', on_blame self source_id = Done self' ∧ core_inv self' ∧ (blamed = true → self' = self)
    ∧ (blamed = false → cp_blamed_sources self' = <[N.to_nat source_id := true]> (cp_blamed_sources self)
        ∧ cp_events self' = cp_events self
        ∧ ∀ h b, cp_top_blocks self' !! h = Some b ↔ ∃ i, is_top self' i b ∧ cb_hash b = h).
Proof.
  intros I Hb. unfold on_blame. rewrite Hb. simpl. destruct blamed; [exists self; done|].
  assert (is_Some (cp_top_source_blocks self !! N.to_nat source_id)) as [t ->].
  { apply lookup_lt_is_Some. rewrite (ti_sources _ (ci_tops _ I)), <- (ti_blamed _ (ci_tops _ I)). by eapply lookup_lt_Some. }
  simpl. set (self1 := set_tops _ _ _). pose proof (core_blame self (N.to_nat source_id) I) as I1. fold self1 in I1.
  destruct (recompute_fold (seq 0 (length (cp_sources self))) self1) as (tops & -> & X); [done| |].
  { intros h b H. simpl in H. by rewrite lookup_empty in H. }
  assert (∀ h b, tops !! h = Some b → ∃ i, i ∈ seq 0 (length (cp_sources self)) ∧ is_top self1 i b ∧ cb_hash b = h) as Y.
  { intros h b [H|H]%X; [simpl in H; by rewrite lookup_empty in H|done]. }
  eexists. split_and!; [done|by eapply core_recomputed|done|]. intros _. split_and!; [done..|]. intros h b. split.
  - intros H. destruct (Y _ _ H) as (i & _ & ?). by exists i.
  - intros (i & Ti & <-). apply X. right. exists i. split_and!; [|done|done]. apply elem_of_seq. split; [lia|].
    destruct Ti as (Hi & _). apply lookup_lt_Some in Hi. pose proof (ti_blamed _ (ci_tops _ I1)). simpl in *. lia.
Qed.

(** ** All requests *)
Section requests.
Context {R : RandomDraws}.

Lemma attempt_spec n self : core_inv self → cp_receiver_started self = true →
  ∃ self', send_process_attempt n self = Done self' ∧ core_inv self' ∧
    if cp_active_process self then self' = self else
    ∃ bs self1, self' = chosen self1 bs ∧ choice (set_active self true) bs self1
      ∧ N.of_nat (length bs) <= co_max_deps (cp_options self) ∧ (cp_top_blocks self1 = ∅ ∨ N.of_nat (length bs) = co_max_deps (cp_options self)).
Proof.
  intros I St. unfold send_process_attempt. destruct (cp_active_process self) eqn:A; [by exists self|].
  assert (core_inv (set_active self true)) as I1.
  { destruct I as [[] [] [] []]. split; split; try assumption; done. }
  destruct (send_process_spec n (set_active self true) I1) as (bs & self1 & E & I2 & C & L1 & L2).
  { split_and!; [done..|]. intros Hs. by apply (fi_idle _ (ci_flow _ I)). }
  exists (chosen self1 bs). split_and!; [done|done|]. exists bs, self1. done.
Qed.

Lemma core_event self e : core_inv self → event_preprocessed e = [] → event_chosen e = [] → event_added e = [] → core_inv (add_event self e).
Proof.
  intros [R0 T L F] E1 E2 E3.
  assert (preprocessed_log (cp_events self ++ [e]) = preprocessed_log (cp_events self)) as P1 by (rewrite preprocessed_log_app; simpl; by rewrite E1, !app_nil_r).
  assert (chosen_log (cp_events self ++ [e]) = chosen_log (cp_events self)) as P2 by (rewrite chosen_log_app; simpl; by rewrite E2, !app_nil_r).
  assert (added_log (cp_events self ++ [e]) = added_log (cp_events self)) as P3 by (rewrite added_log_app; simpl; by rewrite E3, !app_nil_r).
  split.
  - destruct R0. split; assumption.
  - destruct T. split; assumption.
  - split; simpl; rewrite ?P1, ?P2; [apply L..|]. apply chosen_after_snoc; [apply L|]. rewrite E2. intros x Hx. by apply elem_of_nil in Hx.
  - destruct F. split; simpl; rewrite ?P2, ?P3; assumption.
Qed.

(** A created block uses the dependencies that were chosen for it. *)
Lemma core_added self payload : core_inv self → cp_active_process self = true → co_skip_processed_blocks (cp_options self) = false →
  core_inv (set_process_deps (add_event self (AddBlock payload (cp_process_deps self))) []).
Proof.
  intros [R0 T L F] A S. split.
  - destruct R0. split; assumption.
  - destruct T. split; assumption.
  - split; simpl; rewrite ?preprocessed_log_app, ?chosen_log_app, ?app_nil_r; [apply L..|].
    apply chosen_after_snoc; [apply L|]. intros x Hx. by apply elem_of_nil in Hx.
  - split; simpl; [apply F|done|]. rewrite added_log_app, chosen_log_app. simpl. rewrite !app_nil_r. apply F.
Qed.

Lemma core_finished self : core_inv self → (co_skip_processed_blocks (cp_options self) = false → cp_process_deps self = []) → core_inv (set_active self false).
Proof. intros [[] [] [] []] S. split; split; try assumption; simpl; [done|]. intros. by apply S. Qed.

(** The state of [processed_block] once the block is handed to the receiver. *)
Definition block_added self (payload : list N) : CatchainProcessor :=
  if co_skip_processed_blocks (cp_options self) then self
  else set_process_deps (add_event self (AddBlock payload (cp_process_deps self))) [].

Lemma processed_block_spec n self now payload : core_inv self → cp_receiver_started self = true → cp_active_process self = true →
  ∃ self', processed_block n self now payload = Done self' ∧ core_inv self' ∧
    let self0 := block_added self payload in
    if negb (bool_decide (cp_top_blocks self = ∅)) || cp_force_process self then
      ∃ bs self1, self' = chosen self1 bs ∧ choice (set_force self0 false) bs self1
        ∧ N.of_nat (length bs) <= co_max_deps (cp_options self) ∧ (cp_top_blocks self1 = ∅ ∨ N.of_nat (length bs) = co_max_deps (cp_options self))
    else self' = set_generation_time (add_event (set_active self0 false) FinishedProcessing) (now + co_idle_timeout (cp_options self)).
Proof.
  intros I St Ac. unfold processed_block. rewrite St. simpl assert_that. run. cbv zeta. fold (block_added self payload). set (self0 := block_added self payload).
  assert (core_inv self0) as I0.
  { unfold self0, block_added. destruct (co_skip_processed_blocks _) eqn:S; [done|by apply core_added]. }
  assert (cp_active_process self0 = true ∧ cp_receiver_started self0 = true ∧ cp_top_blocks self0 = cp_top_blocks self
    ∧ cp_options self0 = cp_options self ∧ cp_force_process self0 = cp_force_process self) as (A0 & S0 & T0 & O0 & F0).
  { unfold self0, block_added. by destruct (co_skip_processed_blocks _). }
  assert (co_skip_processed_blocks (cp_options self0) = false → cp_process_deps self0 = []) as D0.
  { rewrite O0. unfold self0, block_added. by intros ->. }
  rewrite A0, T0, F0. simpl assert_that. run. destruct (negb _ || _).
  - destruct (send_process_spec n (set_force self0 false)) as (bs & self1 & E & I2 & C & L1 & L2); [by apply core_force|done|].
    simpl in L1, L2. rewrite O0 in L1, L2. eexists. split_and!; [done|done|]. exists bs, self1. done.
  - eexists. split_and!; [done| |by rewrite <- O0]. apply core_time, core_event; [by apply core_finished|done..].
Qed.

Lemma core_started self : core_inv self → core_inv (set_started (add_event self Started)).
Proof. intros I. destruct (core_event self Started I eq_refl eq_refl eq_refl) as [[] [] [] []]. split; split; try assumption; done. Qed.

Lemma handle_spec self r : core_inv self → legal self r → ∃ self', handle self r = Done self' ∧ core_inv self'.
Proof.
  intros I G. destruct r as [now s f h ht prev deps hs pl|s|n|n now pl|now time|n now]; simpl.
  - destruct (blamed_lookup self s I) as [blamed B]; [apply G|].
    destruct (on_new_block_spec self now s f h ht prev deps hs pl I G blamed B) as (self' & _ & E & I' & _). by exists self'.
  - destruct (blamed_lookup self s I G) as [blamed B]. destruct (on_blame_spec self s blamed I B) as (self' & E & I' & _). by exists self'.
  - simpl in G. unfold on_started. cbv zeta.
    assert (cp_active_process self = false) as A.
    { destruct (cp_active_process self) eqn:A; [|done]. apply (fi_started _ (ci_flow _ I)) in A. congruence. }
    simpl. rewrite A. simpl. destruct (attempt_spec n (set_started (add_event self Started))) as (self' & E & I' & _); [by apply core_started|done|].
    by exists self'.
  - destruct G as [St Ac]. destruct (processed_block_spec n self now pl I St Ac) as (self' & E & I' & _). by exists self'.
  - eexists. split; [done|]. unfold request_new_block. destruct (negb _); [done|]. simpl. destruct (cp_active_process self); [by apply core_force|].
    by apply core_next_time, core_force.
  - unfold generate_new_block. destruct (cp_receiver_started self) eqn:St; simpl; [|by exists self]. destruct (_ <=? _); [|by exists self].
    destruct (attempt_spec n (set_next_block_generation_time self now (now + INFINITE_SEND_PROCESS_TIMEOUT))) as (self' & E & I' & _); [by apply core_next_time| |by exists self'].
    unfold set_next_block_generation_time. by destruct (_ && _).
Qed.
End requests.

(** ** Reachable processors *)
Inductive reach `{RandomDraws} (options : CatchainOptions) (sources : list N) : CatchainProcessor → Prop :=
| reach_create now local_id self : CatchainProcessor_create options now sources local_id = Done self → reach options sources self
| reach_handle self r self' : reach options sources self → legal self r → handle self r = Done self' → reach options sources self'.

Lemma create_inv options now sources local_id self : CatchainProcessor_create options now sources local_id = Done self → core_inv self.
Proof.
  unfold CatchainProcessor_create. intros H. apply bind_Done_inv in H as (idx & _ & H). injection H as <-. split.
  - split; [split|..]; simpl; try done. intros h. by rewrite !lookup_empty.
  - split; simpl; rewrite ?length_replicate; try done. intros i b [Hi _]%lookup_replicate. done.
  - split; simpl.
    + split; [constructor|]. by intros [] x l2 p Hl.
    + intros x. split; [intros Hx; by apply elem_of_nil in Hx|]. unfold known. simpl. intros [Hx _]. by rewrite lookup_empty in Hx.
    + constructor.
    + intros x Hx. by apply elem_of_nil in Hx.
    + by intros [] bs e2 x Hl.
  - split; done.
Qed.

Lemma reach_inv `{RandomDraws} options sources self : reach options sources self → core_inv self.
Proof.
  induction 1 as [now local_id self E|self r self' _ I G E]; [by eapply create_inv|].
  destruct (handle_spec self r I G) as (self'' & E' & I'). congruence.
Qed.
