(* ===== verification/Cache.v ===== *)
(** * Object caches of a validator session

    Models [validator-session/src/cache.rs] and the [SessionCache]
    implementation of [session_description.rs]: two direct-mapped caches
    (persistent and temporary) through which every state object is created, and
    the [FifoCache] of candidate blocks.  Reuse counters and instance counters
    only feed metrics and are left out. *)

From S2P Require Import Prelude.

Inductive SessionPool := Persistent | Temp.
#[global] Instance SessionPool_eq_dec : EqDecision SessionPool.
Proof. solve_decision. Defined.

Definition PERSISTENT_CACHE_SIZE : N := 10000000.
Definition TEMP_CACHE_SIZE : N := 10000.

(** The object types stored in the caches: a tag per Rust type (the downcast
    from [Rc<dyn Any>] compares it), the value without its pool, its hash and
    the comparison of [CacheObject]. *)
Class CacheObject := {
  Kind : Type;
  kind_eq_dec :: EqDecision Kind;
  Obj : Kind → Type;
  get_hash : ∀ k, Obj k → N;
  compare : ∀ k, Obj k → Obj k → bool;
  compare_sound : ∀ k (x y : Obj k), compare k x y = true → x = y;
  compare_refl : ∀ k (x : Obj k), compare k x x = true;
}.

Section cache.
Context `{CO : CacheObject}.

(** A pooled object: value and pool. *)
Record PoolPtr (k : Kind) := { ptr_value : Obj k; ptr_pool : SessionPool }.
Arguments ptr_value {k} _.
Arguments ptr_pool {k} _.

Definition CacheEntry : Type := { k : Kind & PoolPtr k }.

(** The vectors of slots, as finite maps from slot number to entry. *)
Record SessionCache := {
  persistent_objects_cache : gmap N CacheEntry;
  temp_objects_cache : gmap N CacheEntry;
}.

Definition get_cache_entry_by_hash (cache : SessionCache) (hash : N) (allow_temp : bool) : option CacheEntry :=
  match persistent_objects_cache cache !! (hash mod PERSISTENT_CACHE_SIZE) with
  | Some entry => Some entry
  | None =>
      if negb allow_temp then None
      else temp_objects_cache cache !! (hash mod TEMP_CACHE_SIZE)
  end.

Definition add_cache_entry (cache : SessionCache) (hash : N) (entry : CacheEntry) (pool : SessionPool) : SessionCache :=
  match pool with
  | Persistent =>
      {| persistent_objects_cache := <[hash mod PERSISTENT_CACHE_SIZE := entry]> (persistent_objects_cache cache);
         temp_objects_cache := temp_objects_cache cache |}
  | Temp =>
      {| persistent_objects_cache := persistent_objects_cache cache;
         temp_objects_cache := <[hash mod TEMP_CACHE_SIZE := entry]> (temp_objects_cache cache) |}
  end.

Definition clear_temp_memory (cache : SessionCache) : SessionCache :=
  {| persistent_objects_cache := persistent_objects_cache cache; temp_objects_cache := ∅ |}.

(** [unwrap_cache_entry]: the downcast. *)
Definition unwrap_cache_entry (k : Kind) (entry : CacheEntry) : option (PoolPtr k) :=
  match decide (projT1 entry = k) with
  | left Heq => Some (eq_rect _ PoolPtr (projT2 entry) _ Heq)
  | right _ => None
  end.

Definition create_object (k : Kind) (value : Obj k) (pool : SessionPool) (cache : SessionCache)
  : outcome (PoolPtr k * SessionCache) :=
  let hash := get_hash k value in
  let allow_temp := bool_decide (pool = Temp) in
  let create :=
    let result := {| ptr_value := value; ptr_pool := pool |} in
    Done (result, add_cache_entry cache hash (existT k result) pool) in
  match get_cache_entry_by_hash cache hash allow_temp ≫= unwrap_cache_entry k with
  | Some ptr =>
      if compare k (ptr_value ptr) value then
        _ ← assert_that (bool_decide (pool = ptr_pool ptr) || bool_decide (ptr_pool ptr = Persistent));
        Done (ptr, cache)
      else create
  | None => create
  end.

Definition create_temp_object (k : Kind) (value : Obj k) (cache : SessionCache) := create_object k value Temp cache.

Definition create_persistent_object (k : Kind) (value : Obj k) (cache : SessionCache)
  : outcome (PoolPtr k * SessionCache) :=
  res ← create_object k value Persistent cache;
  _ ← assert_that (bool_decide (ptr_pool (fst res) = Persistent));
  Done res.

(** ** Facts *)

(** Entries live in the cache of their pool, in the slot of their hash. *)
Definition entry_pool (e : CacheEntry) : SessionPool := ptr_pool (projT2 e).
Definition entry_hash (e : CacheEntry) : N := get_hash (projT1 e) (ptr_value (projT2 e)).

Record cache_ok (cache : SessionCache) : Prop := {
  cache_persistent i e : persistent_objects_cache cache !! i = Some e →
    entry_pool e = Persistent ∧ entry_hash e mod PERSISTENT_CACHE_SIZE = i;
  cache_temp i e : temp_objects_cache cache !! i = Some e →
    entry_pool e = Temp ∧ entry_hash e mod TEMP_CACHE_SIZE = i;
}.

Lemma unwrap_cache_entry_Some k e ptr : unwrap_cache_entry k e = Some ptr → e = existT k ptr.
Proof.
  destruct e as [k' p]. unfold unwrap_cache_entry. simpl. destruct (decide (k' = k)) as [->|]; [|done].
  by intros [= <-].
Qed.

Lemma unwrap_cache_entry_self k (ptr : PoolPtr k) : unwrap_cache_entry k (existT k ptr) = Some ptr.
Proof.
  unfold unwrap_cache_entry. simpl. destruct (decide (k = k)) as [Heq|]; [|done].
  f_equal. rewrite (Eqdep_dec.UIP_dec (λ x y : Kind, decide (x = y)) Heq eq_refl). done.
Qed.

(** Whatever a lookup returns has an acceptable pool. *)
Lemma cache_lookup_pool cache hash allow_temp e :
  cache_ok cache → get_cache_entry_by_hash cache hash allow_temp = Some e →
  entry_pool e = Persistent ∨ (allow_temp = true ∧ entry_pool e = Temp).
Proof.
  intros [Hp Ht]. unfold get_cache_entry_by_hash.
  destruct (persistent_objects_cache cache !! _) as [e'|] eqn:E.
  - intros [= <-]. left. by eapply Hp.
  - destruct allow_temp; simpl; [|done]. intros He. right. split; [done|]. by eapply Ht.
Qed.

Lemma add_cache_entry_ok cache (k : Kind) (v : Obj k) pool :
  cache_ok cache →
  cache_ok (add_cache_entry cache (get_hash k v) (existT k {| ptr_value := v; ptr_pool := pool |}) pool).
Proof.
  intros [Hp Ht]. destruct pool; split; simpl; try done; intros i e; intros [[<- <-]|[_ He]]%lookup_insert_Some; eauto.
Qed.

Lemma create_object_ok cache k value pool :
  cache_ok cache →
  ∃ ptr cache', create_object k value pool cache = Done (ptr, cache') ∧ cache_ok cache' ∧
    ptr_value ptr = value ∧ (ptr_pool ptr = pool ∨ ptr_pool ptr = Persistent).
Proof.
  intros Hc. unfold create_object.
  assert (Hnew : ∃ ptr cache', Done ({| ptr_value := value; ptr_pool := pool |},
      add_cache_entry cache (get_hash k value) (existT k {| ptr_value := value; ptr_pool := pool |}) pool)
      = Done (ptr, cache') ∧ cache_ok cache' ∧ ptr_value ptr = value ∧ (ptr_pool ptr = pool ∨ ptr_pool ptr = Persistent)).
  { eexists _, _. split; [done|]. split; [by apply add_cache_entry_ok|]. auto. }
  destruct (get_cache_entry_by_hash cache _ _) as [e|] eqn:Eg; simpl; [|done].
  destruct (unwrap_cache_entry k e) as [ptr|] eqn:Eu; [|done].
  destruct (compare k (ptr_value ptr) value) eqn:Ec; [|done].
  apply unwrap_cache_entry_Some in Eu as ->. apply compare_sound in Ec.
  assert (Hpool : ptr_pool ptr = pool ∨ ptr_pool ptr = Persistent).
  { destruct (cache_lookup_pool _ _ _ _ Hc Eg) as [Hp|[Ha Hp]]; [by right|left].
    apply bool_decide_eq_true in Ha. unfold entry_pool in Hp. simpl in Hp. congruence. }
  assert (bool_decide (pool = ptr_pool ptr) || bool_decide (ptr_pool ptr = Persistent) = true) as ->.
  { apply orb_true_iff. destruct Hpool as [<-|Hp]; [left|right]; by apply bool_decide_eq_true. }
  simpl. exists ptr, cache. auto.
Qed.

(** A persistent object is shared: creating it again returns the same object
    and leaves the caches unchanged. *)
Lemma create_persistent_shared cache k value ptr cache' :
  cache_ok cache → create_object k value Persistent cache = Done (ptr, cache') →
  ∀ pool, create_object k value pool cache' = Done (ptr, cache').
Proof.
  intros Hc H pool.
  assert (Hslot : persistent_objects_cache cache' !! (get_hash k value mod PERSISTENT_CACHE_SIZE) = Some (existT k ptr : CacheEntry)
    ∧ ptr_value ptr = value ∧ ptr_pool ptr = Persistent).
  { destruct (create_object_ok cache k value Persistent Hc) as (p & c & H' & _ & Hv & Hp).
    rewrite H in H'. injection H' as <- <-.
    assert (Hpp : ptr_pool ptr = Persistent) by tauto. split; [|done].
    unfold create_object in H. rewrite bool_decide_eq_false_2 in H by done.
    destruct (get_cache_entry_by_hash cache (get_hash k value) false) as [e|] eqn:Eg; simpl in H.
    2: { injection H as <- <-. simpl. by rewrite lookup_insert_eq. }
    destruct (unwrap_cache_entry k e) as [q|] eqn:Eu.
    2: { injection H as <- <-. simpl. by rewrite lookup_insert_eq. }
    destruct (compare k (ptr_value q) value).
    2: { injection H as <- <-. simpl. by rewrite lookup_insert_eq. }
    outcome_step H. injection H as <- <-. apply unwrap_cache_entry_Some in Eu as ->.
    unfold get_cache_entry_by_hash in Eg. destruct (persistent_objects_cache cache !! _); [by injection Eg as ->|done]. }
  destruct Hslot as (Hslot & Hv & Hp). unfold create_object, get_cache_entry_by_hash. cbn zeta. rewrite Hslot. simpl.
  rewrite unwrap_cache_entry_self. rewrite Hv, compare_refl, Hp.
  rewrite (bool_decide_eq_true_2 (Persistent = Persistent)) by done. rewrite orb_true_r. done.
Qed.
End cache.
Arguments PoolPtr {CO} k.
Arguments SessionCache {CO}.
Arguments CacheEntry {CO}.

(** ** FIFO cache of candidates *)
Section fifo.
Context {Key : Type} `{Countable Key} {Value : Type}.

(** Times and durations are in nanoseconds; [now] is [SystemTime::now()]. *)
Record FifoCache := {
  items : gmap Key (Value * N);
  min_flush_size : N;
  expiration_time : N;
}.

Definition FifoCache_new_with_params (min_size expiration : N) : FifoCache :=
  {| items := ∅; min_flush_size := min_size; expiration_time := expiration |}.

Definition with_items (self : FifoCache) (m : gmap Key (Value * N)) : FifoCache :=
  {| items := m; min_flush_size := min_flush_size self; expiration_time := expiration_time self |}.

Definition FifoCache_get (self : FifoCache) (now : N) (key : Key) : option Value * FifoCache :=
  match items self !! key with
  | Some item => (Some (fst item), with_items self (<[key := (fst item, now)]> (items self)))
  | None => (None, self)
  end.

Definition FifoCache_insert (self : FifoCache) (now : N) (key : Key) (value : Value) : FifoCache :=
  with_items self (<[key := (value, now)]> (items self)).

(** [SystemTime::elapsed] fails when the clock went back. *)
Definition elapsed (now since : N) : option N := if since <=? now then Some (now - since) else None.

(** The loop over the items, in the iteration order of the hash map. *)
Fixpoint FifoCache_collect (self : FifoCache) (now : N) (order : list (Key * (Value * N)))
  (items_to_remove : list Key) : list Key :=
  match order with
  | [] => items_to_remove
  | (key, item) :: rest =>
      match elapsed now (snd item) with
      | Some last_accessed =>
          if expiration_time self <=? last_accessed then
            let items_to_remove := items_to_remove ++ [key] in
            if N.of_nat (size (items self)) - N.of_nat (length items_to_remove) <? min_flush_size self
            then items_to_remove
            else FifoCache_collect self now rest items_to_remove
          else FifoCache_collect self now rest items_to_remove
      | None => FifoCache_collect self now rest items_to_remove
      end
  end.

Definition FifoCache_flush (self : FifoCache) (now : N) (order : list (Key * (Value * N))) : FifoCache :=
  with_items self (foldl (λ m k, delete k m) (items self) (FifoCache_collect self now order [])).

(** *** Facts *)
Implicit Types (self : FifoCache) (order : list (Key * (Value * N))).

Definition expired self (now : N) (item : Value * N) : Prop :=
  snd item ≤ now ∧ expiration_time self ≤ now - snd item.

Lemma collect_spec self now order acc :
  ∃ removed, FifoCache_collect self now order acc = acc ++ removed ∧
    removed `sublist_of` order.*1 ∧
    (∀ k, k ∈ removed → ∃ item, (k, item) ∈ order ∧ expired self now item) ∧
    (removed = [] ∨ min_flush_size self ≤ N.of_nat (size (items self)) - N.of_nat (length acc + length removed) + 1
      ∨ length removed = 1%nat).
Proof.
  revert acc. induction order as [|[k item] order IH]; intros acc; simpl.
  { exists []. rewrite app_nil_r. split; [done|]. split; [constructor|]. split; [set_solver|by left]. }
  assert (Hskip : ∃ removed, FifoCache_collect self now order acc = acc ++ removed ∧
    removed `sublist_of` k :: order.*1 ∧
    (∀ k0, k0 ∈ removed → ∃ item0, (k0, item0) ∈ (k, item) :: order ∧ expired self now item0) ∧
    (removed = [] ∨ min_flush_size self ≤ N.of_nat (size (items self)) - N.of_nat (length acc + length removed) + 1
      ∨ length removed = 1%nat)).
  { destruct (IH acc) as (rm & -> & Hsub & Hexp & Hmin). exists rm. split; [done|].
    split; [by apply sublist_cons|]. split; [|done]. intros x Hx. destruct (Hexp x Hx) as (it & ? & ?).
    exists it. set_solver. }
  unfold elapsed. destruct (snd item <=? now) eqn:Et; [|done].
  destruct (expiration_time self <=? now - snd item) eqn:Ee; [|done]. breflect.
  assert (Hk : ∃ it, (k, it) ∈ (k, item) :: order ∧ expired self now it) by (exists item; split; [set_solver|done]).
  destruct (_ <? min_flush_size self) eqn:Em; breflect.
  - exists [k]. split; [done|]. split; [apply sublist_skip, sublist_nil_l|].
    split; [by intros x ->%list_elem_of_singleton|]. right. by right.
  - destruct (IH (acc ++ [k])) as (rm & -> & Hsub & Hexp & Hmin). exists (k :: rm).
    rewrite length_app in *. simpl in *.
    split; [by rewrite <- app_assoc|]. split; [by apply sublist_skip|]. split.
    + intros x [->|Hx]%elem_of_cons; [done|]. destruct (Hexp x Hx) as (it & ? & ?). exists it. set_solver.
    + right. left. destruct Hmin as [->|[Hm|Hm]]; simpl; [lia| |].
      * replace (length acc + S (length rm))%nat with (length acc + 1 + length rm)%nat by lia. done.
      * rewrite Hm. lia.
Qed.

Lemma foldl_delete_lookup (m : gmap Key (Value * N)) (ks : list Key) k :
  foldl (λ m k, delete k m) m ks !! k = if decide (k ∈ ks) then None else m !! k.
Proof.
  revert m. induction ks as [|k' ks IH]; intros m; cbn [foldl]; [case_decide; [set_solver|done]|].
  rewrite IH. destruct (decide (k ∈ ks)); [by rewrite decide_True by set_solver|].
  destruct (decide (k = k')) as [->|Hne].
  - rewrite decide_True by set_solver. apply lookup_delete_eq.
  - rewrite decide_False by set_solver. by apply lookup_delete_ne.
Qed.

Lemma foldl_delete_size (m : gmap Key (Value * N)) (ks : list Key) :
  (size m ≤ size (foldl (λ m k, delete k m) m ks) + length ks)%nat.
Proof.
  revert m. induction ks as [|k ks IH]; intros m; simpl; [lia|]. specialize (IH (delete k m)).
  enough (size m ≤ size (delete k m) + 1)%nat by lia.
  destruct (m !! k) as [v|] eqn:E; [rewrite map_size_delete_Some by eauto; lia|rewrite delete_id by done; lia].
Qed.

(** [flush] only drops expired items, and stops once fewer than
    [min_flush_size] are left. *)
Lemma flush_ok self now order :
  order ≡ₚ map_to_list (items self) →
  let self' := FifoCache_flush self now order in
  (∀ k item, items self' !! k = Some item → items self !! k = Some item) ∧
  (∀ k item, items self !! k = Some item → items self' !! k = None → expired self now item) ∧
  (min_flush_size self ≤ N.of_nat (size (items self')) + 1 ∨ (size (items self) ≤ size (items self') + 1)%nat).
Proof.
  intros Hord. cbn zeta. unfold FifoCache_flush. cbn [items with_items].
  destruct (collect_spec self now order []) as (rm & -> & _ & Hexp & Hmin). rewrite app_nil_l.
  pose proof (foldl_delete_size (items self) rm) as Hsz. split; [|split].
  - intros k item. rewrite foldl_delete_lookup. by destruct (decide _).
  - intros k item Hk. rewrite foldl_delete_lookup. destruct (decide (k ∈ rm)) as [Hin|]; [|congruence].
    intros _. destruct (Hexp k Hin) as (it & Hit & He). rewrite Hord in Hit.
    apply elem_of_map_to_list in Hit. congruence.
  - simpl in Hmin. destruct Hmin as [->|[Hm|Hm]]; simpl in *; [right; lia|left; lia|right; lia].
Qed.
End fifo.
