(* ===== verification/Slashing.v ===== *)
(** * Validator statistics for slashing

    Models the counters of [validator-session/src/slashing.rs]: the metrics of
    a validator and the per-validator statistics, with their merge.  The
    aggregation into scores uses [f64] arithmetic and is not modelled. *)

From S2P Require Import Prelude.

Inductive Metric :=
| TotalRoundsCount
| TotalCollationRoundsCount
| CollationsCount
| ApprovalsCount
| CommitsCount
| ApplyLevelTotalBlocksCount
| ApplyLevelCollationsCount
| ApplyLevelCommitsCount
| MetricsCount.

#[global] Instance Metric_eq_dec : EqDecision Metric.
Proof. solve_decision. Defined.

(** [metric as usize]; [MetricsCount as usize] is the length of the array. *)
Definition Metric_index (m : Metric) : N :=
  match m with
  | TotalRoundsCount => 0
  | TotalCollationRoundsCount => 1
  | CollationsCount => 2
  | ApprovalsCount => 3
  | CommitsCount => 4
  | ApplyLevelTotalBlocksCount => 5
  | ApplyLevelCollationsCount => 6
  | ApplyLevelCommitsCount => 7
  | MetricsCount => 8
  end.
Definition metrics_len : nat := N.to_nat (Metric_index MetricsCount).

Section slashing.
Context {PublicKey : Type}.

Record Node := {
  sn_public_key : PublicKey;
  metrics : list N;
}.

Definition Node_new (public_key : PublicKey) : Node :=
  {| sn_public_key := public_key; metrics := replicate metrics_len 0 |}.

Definition Node_reset (self : Node) : Node :=
  {| sn_public_key := sn_public_key self; metrics := (λ _, 0) <$> metrics self |}.

(** [*dst_it += *src_it] over [entry.metrics.iter().zip(self.metrics.iter_mut())];
    the arrays have the same length. *)
Definition Node_merge (self entry : Node) : Node :=
  {| sn_public_key := sn_public_key self; metrics := zip_with u64_add (metrics self) (metrics entry) |}.

Definition Node_increment (self : Node) (metric_id : Metric) (value : N) : outcome Node :=
  current ← index (metrics self) (Metric_index metric_id);
  ms ← set_index (metrics self) (Metric_index metric_id) (u64_add current value);
  Done {| sn_public_key := sn_public_key self; metrics := ms |}.

(** Statistics by public key hash. *)
Abbreviation ValidatorStat := (gmap N Node).

Definition ValidatorStat_reset (self : ValidatorStat) : ValidatorStat := Node_reset <$> self.

Definition ValidatorStat_merge_entry (self : ValidatorStat) (pub_key_hash : N) (stat : Node) : ValidatorStat :=
  match self !! pub_key_hash with
  | Some self_stat => <[pub_key_hash := Node_merge self_stat stat]> self
  | None => <[pub_key_hash := stat]> self
  end.

(** The loop runs over the other map in its iteration order. *)
Definition ValidatorStat_merge (self : ValidatorStat) (order : list (N * Node)) : ValidatorStat :=
  foldl (λ acc kv, ValidatorStat_merge_entry acc kv.1 kv.2) self order.

(** ** Facts *)
Definition node_ok (n : Node) : Prop := length (metrics n) = metrics_len.
Definition metric_of (n : Node) (m : Metric) : N := default 0 (metrics n !! N.to_nat (Metric_index m)).

Lemma Metric_index_lt m : m ≠ MetricsCount → (N.to_nat (Metric_index m) < metrics_len)%nat.
Proof. intros Hm. destruct m; unfold metrics_len; simpl; try lia. done. Qed.

Lemma Metric_index_inj m1 m2 : Metric_index m1 = Metric_index m2 → m1 = m2.
Proof. by destruct m1, m2. Qed.

Lemma Node_increment_ok n m v :
  node_ok n → m ≠ MetricsCount →
  ∃ n', Node_increment n m v = Done n' ∧ node_ok n' ∧ metric_of n' m = u64_add (metric_of n m) v ∧
    ∀ m', m' ≠ m → metric_of n' m' = metric_of n m'.
Proof.
  intros Hn Hm. pose proof (Metric_index_lt m Hm) as Hlt. unfold node_ok in Hn. unfold Node_increment.
  destruct (index_lt (metrics n) (Metric_index m)) as (cur & -> & Hcur); [lia|]. run.
  rewrite set_index_lt by lia. run. eexists. split; [done|].
  unfold node_ok, metric_of. simpl. rewrite length_insert, Hcur. split; [done|]. split.
  - by rewrite list_lookup_insert_eq by lia.
  - intros m' Hne. rewrite list_lookup_insert_ne; [done|]. intros He. apply Hne, Metric_index_inj. lia.
Qed.

Lemma Node_merge_metric n1 n2 m :
  node_ok n1 → node_ok n2 → node_ok (Node_merge n1 n2) ∧
  metric_of (Node_merge n1 n2) m = u64_add (metric_of n1 m) (metric_of n2 m).
Proof.
  unfold node_ok, metric_of, Node_merge. intros H1 H2. simpl.
  split; [rewrite length_zip_with; lia|].
  destruct (decide (m = MetricsCount)) as [->|Hm].
  { rewrite !lookup_ge_None_2; rewrite ?length_zip_with, ?H1, ?H2; unfold metrics_len; simpl; try done; lia. }
  pose proof (Metric_index_lt m Hm).
  destruct (lookup_lt_is_Some_2 (metrics n1) (N.to_nat (Metric_index m))) as [x Hx]; [lia|].
  destruct (lookup_lt_is_Some_2 (metrics n2) (N.to_nat (Metric_index m))) as [y Hy]; [lia|].
  rewrite lookup_zip_with, Hx, Hy. done.
Qed.

(** Reference: the union of the two maps, common entries merged. *)
Definition stat_union (self other : ValidatorStat) : ValidatorStat :=
  union_with (λ a b, Some (Node_merge a b)) self other.

Lemma merge_entry_lookup self k n k' :
  ValidatorStat_merge_entry self k n !! k' =
  if decide (k' = k) then Some (match self !! k with Some s => Node_merge s n | None => n end) else self !! k'.
Proof.
  unfold ValidatorStat_merge_entry. destruct (decide (k' = k)) as [->|Hne]; destruct (self !! k);
    by rewrite ?lookup_insert_eq, ?lookup_insert_ne.
Qed.

(** Whatever the iteration order, the merge is the union of the statistics. *)
Lemma ValidatorStat_merge_union self other order :
  order ≡ₚ map_to_list other → ValidatorStat_merge self order = stat_union self other.
Proof.
  intros Hord. apply map_eq. intros k. unfold stat_union. rewrite lookup_union_with.
  assert (Hother : other !! k = (snd <$> list_find (λ kv, kv.1 = k) order) ≫= (λ kv, Some kv.2)).
  { destruct (list_find (λ kv, kv.1 = k) order) as [[i [k' n]]|] eqn:E; simpl.
    - apply list_find_Some in E as (Hi & Hk & _). simpl in Hk. subst.
      apply elem_of_map_to_list. rewrite <- Hord. by eapply list_elem_of_lookup_2.
    - apply list_find_None in E. destruct (other !! k) as [n|] eqn:En; [|done].
      apply elem_of_map_to_list in En. rewrite <- Hord in En. rewrite Forall_forall in E.
      apply list_elem_of_In in En. by specialize (E _ En). }
  rewrite Hother. clear Hother.
  assert (Hnd : NoDup order.*1) by (rewrite Hord; apply NoDup_fst_map_to_list). clear Hord.
  revert self. induction order as [|[k' n] order IH]; intros self; simpl in *.
  { by destruct (self !! k). }
  inversion_clear Hnd as [|? ? Hk' Hnd']. unfold ValidatorStat_merge in *. simpl. rewrite IH by done.
  rewrite merge_entry_lookup. destruct (decide (k' = k)) as [->|Hne].
  - rewrite decide_True by done. simpl.
    destruct (list_find (λ kv, kv.1 = k) order) as [[i [k'' n']]|] eqn:E; simpl.
    + apply list_find_Some in E as (Hi & Hk & _). simpl in Hk. subst. destruct Hk'.
      apply list_elem_of_fmap. exists (k, n'). split; [done|]. by eapply list_elem_of_lookup_2.
    + by destruct (self !! k).
  - rewrite decide_False by done. by destruct (list_find (λ kv, kv.1 = k) order) as [[i [k'' n']]|].
Qed.
End slashing.
