(* ===== verification/VectorHash.v ===== *)
(** * Packing of flag vectors for hashing

    Models [compute_bool_vector_hash] of [validator-session/src/vector.rs]: the
    flags are packed into bytes, least significant bit first, in a buffer padded
    to 32 bits, whose CRC is the hash of the vector ([compute_hash_from_buffer]
    calls the [crc32c] crate, a parameter here). *)

From S2P Require Import Prelude.

(** [data.len() rounded up to 32] *)
Definition bool_elements_count (len : N) : N :=
  if len mod 32 =? 0 then len else len - len mod 32 + 32.

(** One iteration of the loop. *)
Definition pack_bool (buffer : list N) (i : N) (item : bool) : outcome (list N) :=
  let idx := i / 8 in
  let mask := N.shiftl 1 (i mod 8) in
  byte ← index buffer idx;
  set_index buffer idx (if item then N.lor byte mask else N.land byte (N.lxor 255 mask)).

Fixpoint pack_bools (buffer : list N) (i : N) (data : list bool) : outcome (list N) :=
  match data with
  | [] => Done buffer
  | item :: data' => buffer' ← pack_bool buffer i item; pack_bools buffer' (i + 1) data'
  end.

Definition bool_vector_buffer (data : list bool) : outcome (list N) :=
  pack_bools (replicate (N.to_nat (bool_elements_count (N.of_nat (length data)) / 32 * 4)) 0) 0 data.

Definition compute_bool_vector_hash (crc32c : list N → N) (data : list bool) : outcome N :=
  buffer ← bool_vector_buffer data; Done (crc32c buffer).

(** ** Facts *)

(** The bit of flag [i] in a packed buffer. *)
Definition packed_bit (buffer : list N) (i : N) : bool :=
  N.testbit (default 0 (buffer !! N.to_nat (i / 8))) (i mod 8).

Lemma bool_elements_count_ok len : let n := bool_elements_count len in
  n mod 32 = 0 ∧ len ≤ n ∧ n < len + 32.
Proof.
  unfold bool_elements_count. pose proof (N.mod_lt len 32 ltac:(lia)). pose proof (N.Div0.div_mod len 32).
  destruct (len mod 32 =? 0) eqn:E; breflect; cbn zeta; [lia|].
  replace (len - len mod 32 + 32) with ((len / 32 + 1) * 32) by lia. rewrite N.Div0.mod_mul.
  generalize dependent (len / 32). generalize dependent (len mod 32). intros r Hr Hne q Hq. split; [done|]. lia.
Qed.

Lemma testbit_mask i j : N.testbit (N.shiftl 1 i) j = (j =? i).
Proof.
  rewrite N.shiftl_1_l, N.pow2_bits_eqb. by rewrite N.eqb_sym.
Qed.

Lemma pack_bool_ok buffer i item :
  (N.to_nat (i / 8) < length buffer)%nat →
  ∃ buffer', pack_bool buffer i item = Done buffer' ∧ length buffer' = length buffer ∧
    packed_bit buffer' i = item ∧ ∀ j, j ≠ i → packed_bit buffer' j = packed_bit buffer j.
Proof.
  intros Hi. unfold pack_bool. destruct (index_lt buffer (i / 8) Hi) as (byte & -> & Hb). run.
  rewrite set_index_lt by done. eexists. split; [done|]. split; [apply length_insert|].
  assert (Hbit : ∀ k, k < 8 → N.testbit (if item then N.lor byte (N.shiftl 1 (i mod 8))
      else N.land byte (N.lxor 255 (N.shiftl 1 (i mod 8)))) k = if k =? i mod 8 then item else N.testbit byte k).
  { intros k Hk. pose proof (N.mod_lt i 8 ltac:(lia)). destruct item.
    - rewrite N.lor_spec, testbit_mask. destruct (k =? i mod 8); [apply orb_true_r|apply orb_false_r].
    - rewrite N.land_spec, N.lxor_spec, testbit_mask.
      assert (N.testbit 255 k = true) as ->.
      { change 255 with (N.ones 8). by apply N.ones_spec_low. }
      destruct (k =? i mod 8); simpl; [apply andb_false_r|apply andb_true_r]. }
  unfold packed_bit. split.
  - rewrite list_lookup_insert_eq by done. simpl. rewrite Hbit by (apply N.mod_lt; lia). by rewrite N.eqb_refl.
  - intros j Hj. destruct (decide (N.to_nat (i / 8) = N.to_nat (j / 8))) as [He|Hne].
    + rewrite <- He, list_lookup_insert_eq, Hb by done. simpl. rewrite Hbit by (apply N.mod_lt; lia).
      destruct (j mod 8 =? i mod 8) eqn:E; [|done]. breflect. destruct Hj.
      rewrite (N.Div0.div_mod j 8), (N.Div0.div_mod i 8). lia.
    + by rewrite list_lookup_insert_ne.
Qed.

Lemma pack_bools_ok buffer i data :
  (∀ k : nat, (k < length data)%nat → (N.to_nat ((i + N.of_nat k) / 8) < length buffer)%nat) →
  ∃ buffer', pack_bools buffer i data = Done buffer' ∧ length buffer' = length buffer ∧
    (∀ k b, data !! k = Some b → packed_bit buffer' (i + N.of_nat k) = b) ∧
    (∀ j, j < i ∨ i + N.of_nat (length data) ≤ j → packed_bit buffer' j = packed_bit buffer j).
Proof.
  revert buffer i. induction data as [|b data IH]; intros buffer i Hlen; simpl.
  { exists buffer. done. }
  destruct (pack_bool_ok buffer i b) as (b1 & -> & Hl1 & Hi & Hother).
  { specialize (Hlen 0%nat). rewrite N.add_0_r in Hlen. apply Hlen. simpl. lia. }
  run. destruct (IH b1 (i + 1)) as (b2 & -> & Hl2 & Hdata & Hout).
  { intros k Hk. rewrite Hl1. specialize (Hlen (S k)). replace (i + 1 + N.of_nat k) with (i + N.of_nat (S k)) by lia.
    apply Hlen. simpl. lia. }
  exists b2. split; [done|]. split; [lia|]. split.
  - intros [|k] x Hk.
    + injection Hk as <-. rewrite N.add_0_r. rewrite Hout by lia. done.
    + replace (i + N.of_nat (S k)) with (i + 1 + N.of_nat k) by lia. by apply Hdata.
  - intros j Hj. rewrite Hout by lia. apply Hother. lia.
Qed.

(** The buffer has the padded size and holds every flag at its bit, zeros after. *)
Lemma bool_vector_buffer_ok data :
  ∃ buffer, bool_vector_buffer data = Done buffer ∧
    N.of_nat (length buffer) * 8 = bool_elements_count (N.of_nat (length data)) ∧
    (∀ k b, data !! k = Some b → packed_bit buffer (N.of_nat k) = b) ∧
    (∀ j, N.of_nat (length data) ≤ j → packed_bit buffer j = false).
Proof.
  unfold bool_vector_buffer. pose proof (bool_elements_count_ok (N.of_nat (length data))) as (Hm & Hle & _).
  set (n := bool_elements_count (N.of_nat (length data))) in *.
  pose proof (N.Div0.div_mod n 32) as Hn. rewrite Hm, N.add_0_r in Hn.
  assert (Hlen : length (replicate (N.to_nat (n / 32 * 4)) 0) = N.to_nat (n / 32 * 4)) by apply length_replicate.
  destruct (pack_bools_ok (replicate (N.to_nat (n / 32 * 4)) 0) 0 data) as (buf & -> & Hl & Hdata & Hout).
  { intros k Hk. rewrite Hlen, N.add_0_l.
    assert (N.of_nat k / 8 < n / 32 * 4) by (apply N.Div0.div_lt_upper_bound; lia). lia. }
  exists buf. split; [done|]. split; [rewrite Hl, Hlen; lia|]. split; [exact Hdata|].
  intros j Hj. rewrite Hout by lia. unfold packed_bit. destruct (replicate _ _ !! _) as [x|] eqn:E; simpl.
  - apply lookup_replicate in E as [-> _]. by destruct (j mod 8).
  - by destruct (j mod 8).
Qed.

(** Different vectors of the same length are packed differently. *)
Lemma bool_vector_buffer_inj d1 d2 b :
  length d1 = length d2 → bool_vector_buffer d1 = Done b → bool_vector_buffer d2 = Done b → d1 = d2.
Proof.
  intros Hlen H1 H2. destruct (bool_vector_buffer_ok d1) as (b1 & E1 & _ & Hd1 & _).
  destruct (bool_vector_buffer_ok d2) as (b2 & E2 & _ & Hd2 & _).
  rewrite H1 in E1. rewrite H2 in E2. injection E1 as <-. injection E2 as <-.
  apply list_eq_same_length with (length d1); [done|done|]. intros i x y Hi Hx Hy.
  by rewrite <- (Hd1 _ _ Hx), <- (Hd2 _ _ Hy).
Qed.
