(* ===== verification/Actions.v ===== *)
(** * The actions a validator generates

    Facts about [create_action] (the next message of the local validator) and
    [choose_blocks_to_approve] (the candidates it validates next): the created
    message announces exactly what its application does, and the ranking loop
    selects exactly the candidates that are alone from their source and not yet
    approved, by producer priority. *)

From stdpp Require Import sorting.
From S2P Require Import Prelude SessionDescription Vectors Candidates RoundAttempt Round RoundFacts SessionState.

Section created_actions.
Context {X : External}.
Implicit Types (d : SessionDescription) (a : RoundAttemptState) (r : RoundState).

Lemma default_action_cases d (ids : N → Prop) a (i att : N) ops choice :
  desc_ok d → attempt_ok d ids a → (N.to_nat i < length (sources d))%nat →
  op_choose_block_to_vote ops d i att (vote_for a) = Done choice →
  RoundAttemptState_apply_default_action d a i att ops = Done
    (match has_vote a (N.to_nat i), choice with
     | false, Some b => (with_vote d a b (N.to_nat i), true)
     | _, _ =>
         match has_precommit a (N.to_nat i), voted_block d a with
         | false, Some _ => (with_precommit a (N.to_nat i), true)
         | _, _ => (a, false)
         end
     end).
Proof.
  intros Hd Ha Hi Hc. unfold RoundAttemptState_apply_default_action, has_vote, has_precommit.
  rewrite (try_vote_ok d ids a i att ops choice) by done. run.
  destruct (find (voted_for (N.to_nat i)) (vote_list a)) as [v|]; simpl; [|destruct choice as [b|]; simpl; [done|]];
    rewrite (try_precommit_ok d ids) by done; simpl;
    destruct (default false _); simpl; try done; by destruct (voted_block d a).
Qed.

(** The message of an attempt, by the same cases. *)
Definition announced d (round attempt : Z) a (i : nat) (choice : option SentBlockPtr) : Message :=
  match has_vote a i, choice with
  | false, Some b => Vote round attempt (SentBlock_get_id b)
  | _, _ =>
      match has_precommit a i, voted_block d a with
      | false, Some b => Precommit round attempt (SentBlock_get_id b)
      | _, _ => Empty round attempt
      end
  end.

Lemma attempt_create_action_ok d (ids : N → Prop) a (i att : N) ops choice :
  desc_ok d → attempt_ok d ids a → (N.to_nat i < length (sources d))%nat →
  op_choose_block_to_vote ops d i att (vote_for a) = Done choice →
  RoundAttemptState_create_action d a ops i att = Done (Some
    (announced d (u32_as_i32 (op_get_sequence_number ops)) (u32_as_i32 (ra_sequence_number a)) a (N.to_nat i) choice)).
Proof.
  intros Hd Ha Hi Hc. unfold RoundAttemptState_create_action, announced, has_vote.
  rewrite (check_vote_received_from_ok d ids) by done. run. rewrite Hc.
  assert (Hpre : RoundAttemptState_check_precommit_received_from a i = Done (has_precommit a (N.to_nat i))).
  { unfold RoundAttemptState_check_precommit_received_from, has_precommit.
    destruct (Vector_at_lt (precommitted a) i) as (b & -> & ->); [|done]. by rewrite (att_precommit_len _ _ _ Ha). }
  destruct (find (voted_for (N.to_nat i)) (vote_list a)) as [v|]; simpl; [|destruct choice as [b|]; simpl; [done|]];
    rewrite Hpre, (get_voted_block_ok d ids) by done; run;
    destruct (has_precommit a (N.to_nat i)); simpl; try done; by destruct (voted_block d a).
Qed.

Lemma round_create_action_ok d r (i att : N) :
  desc_ok d → round_ok d r → (N.to_nat i < length (sources d))%nat → 0 < att → precommitted_block r = None →
  let a := default (RoundAttemptState_create_empty d att) (find_key att (attempt_list r)) in
  ∃ choice, op_choose_block_to_vote (RoundState_ops r) d i att (vote_for a) = Done choice ∧
    RoundState_create_action d r i att
    = Done (Some (announced d (u32_as_i32 (rs_sequence_number r)) (u32_as_i32 att) a (N.to_nat i) choice)).
Proof.
  intros Hd Hr Hi Hatt Hp. cbn zeta. destruct (current_attempt_ok d r att Hd Hr Hatt) as [Ha Hseq].
  destruct (round_choice_ok d r _ i att Hd Hr Ha Hi) as (choice & Hc & _). exists choice. split; [done|].
  unfold RoundState_create_action. rewrite Hp. simpl (bool_decide _). cbn iota.
  rewrite (round_get_attempt d) by done. run.
  destruct (find_key att (attempt_list r)) as [a|]; simpl default in *.
  - rewrite (attempt_create_action_ok d (sent_id r) a i att (RoundState_ops r) choice) by done. by rewrite Hseq.
  - simpl in Hc. rewrite Hc. run. unfold announced. simpl.
    destruct choice as [b|]; [done|]. by destruct (has_precommit _ _).
Qed.

Lemma u32_i32_roundtrip (x : N) : x < two32 → i32_as_u32 (u32_as_i32 x) = x.
Proof.
  unfold i32_as_u32, u32_as_i32, two32. intros Hx. destruct (_ <? _) eqn:E; breflect.
  - rewrite Z.mod_small by lia. lia.
  - replace (Z.of_N x - 4294967296)%Z with (Z.of_N x + (-1) * 4294967296)%Z by lia.
    rewrite Z.mod_add, Z.mod_small by lia. lia.
Qed.
End created_actions.

(** ** Candidates to approve *)
Section approvals.
Context {X : External}.
Implicit Types (d : SessionDescription) (r : RoundState) (c : BlockCandidate).

(** The producer priority of the author of a candidate. *)
Definition candidate_priority d r c : Z :=
  match get_node_priority d (BlockCandidate_get_source_index c) (rs_sequence_number r) with
  | Done p => p
  | Panic => -1
  end.

(** Candidates with a block, not approved by node [i], alone from their source
    among [l]. *)
Definition approvable (i : nat) (l : list BlockCandidate) c : Prop :=
  c ∈ l ∧ is_Some (bc_block c) ∧ approved_flags c !! i = Some false ∧
  ∀ c', c' ∈ l → is_Some (bc_block c') →
    BlockCandidate_get_source_index c' = BlockCandidate_get_source_index c → c' = c.

(** The ranking loop after the candidates [l]. *)
Record ranked_ok d r (i : nat) (l : list BlockCandidate)
    (acc : list (option BlockCandidate) * gset N * bool) : Prop := {
  ranked_len : length acc.1.1 = N.to_nat (get_max_priority d + 2);
  ranked_slot (p : nat) c :
    acc.1.1 !! p = Some (Some c) ↔ approvable i l c ∧ candidate_priority d r c = Z.of_nat p;
  ranked_seen s :
    s ∈ acc.1.2 ↔ ∃ c, c ∈ l ∧ is_Some (bc_block c) ∧ BlockCandidate_get_source_index c = s;
  ranked_empty :
    acc.2 = true ↔ ∃ c, c ∈ l ∧ bc_block c = None ∧ approved_flags c !! i = Some true;
}.

Lemma candidate_priority_ok d r c :
  desc_ok d → candidate_ok d (rs_sequence_number r) c → is_Some (bc_block c) →
  get_node_priority d (BlockCandidate_get_source_index c) (rs_sequence_number r)
  = Done (candidate_priority d r c) ∧
  (0 ≤ candidate_priority d r c ≤ Z.of_N (get_max_priority d))%Z.
Proof.
  intros Hd Hc [b Hb]. destruct (cand_author _ _ _ Hc b Hb) as (Hlt & p & Hp & Hp0).
  unfold candidate_priority, BlockCandidate_get_source_index in *. rewrite Hb, Hp. split; [done|].
  pose proof (get_node_priority_bound d _ _ p Hd Hlt Hp). lia.
Qed.

Lemma candidate_priority_inj d r c c' :
  desc_ok d → candidate_ok d (rs_sequence_number r) c → candidate_ok d (rs_sequence_number r) c' →
  is_Some (bc_block c) → is_Some (bc_block c') → candidate_priority d r c = candidate_priority d r c' →
  BlockCandidate_get_source_index c = BlockCandidate_get_source_index c'.
Proof.
  intros Hd Hc Hc' Hb Hb' He.
  destruct (candidate_priority_ok d r c Hd Hc Hb) as [Hp H0], (candidate_priority_ok d r c' Hd Hc' Hb') as [Hp' H0'].
  destruct Hb as [b Hb], Hb' as [b' Hb'].
  destruct (cand_author _ _ _ Hc b Hb) as [Hlt _], (cand_author _ _ _ Hc' b' Hb') as [Hlt' _].
  revert Hp Hp' He H0 H0'. generalize (candidate_priority d r c) (candidate_priority d r c').
  unfold BlockCandidate_get_source_index. rewrite Hb, Hb'. intros p p' Hp Hp' <- H0 H0'.
  rewrite get_node_priority_rotation in Hp, Hp' by done. injection Hp as Hp. injection Hp' as Hp'.
  eapply (rotation_inj d (rs_sequence_number r)); [done..|]. repeat case_match; lia.
Qed.

(** How the set of approvable candidates changes when one more is seen. *)
Lemma approvable_skip (i : nat) l c x : bc_block c = None → approvable i (l ++ [c]) x ↔ approvable i l x.
Proof.
  intros Hc. unfold approvable. setoid_rewrite elem_of_app. setoid_rewrite list_elem_of_singleton. split.
  - intros ([Hx| ->] & Hb & Hf & Hu); [|rewrite Hc in Hb; by destruct Hb]. naive_solver.
  - intros (Hx & Hb & Hf & Hu). split_and!; [by left|done|done|]. intros c' [Hc'| ->] Hb' Hs; [by apply Hu|].
    rewrite Hc in Hb'. by destruct Hb'.
Qed.

Lemma approvable_second (i : nat) l c x :
  c ∉ l → is_Some (bc_block c) →
  (∃ c', c' ∈ l ∧ is_Some (bc_block c') ∧ BlockCandidate_get_source_index c' = BlockCandidate_get_source_index c) →
  approvable i (l ++ [c]) x ↔
  approvable i l x ∧ BlockCandidate_get_source_index x ≠ BlockCandidate_get_source_index c.
Proof.
  intros Hn Hc (c0 & Hc0 & Hb0 & Hs0). unfold approvable. setoid_rewrite elem_of_app.
  setoid_rewrite list_elem_of_singleton. split.
  - intros ([Hx| ->] & Hb & Hf & Hu).
    + split; [naive_solver|]. intros Hs. apply Hn. rewrite (Hu c); [done|by right|done|done].
    + destruct Hn. rewrite <- (Hu c0); [done|by left|done|done].
  - intros [(Hx & Hb & Hf & Hu) Hs]. split_and!; [by left|done|done|]. intros c' [Hc'| ->] Hb' Hs'; [by apply Hu|].
    by destruct Hs.
Qed.

Lemma approvable_first (i : nat) l c x :
  is_Some (bc_block c) →
  (∀ c', c' ∈ l → is_Some (bc_block c') → BlockCandidate_get_source_index c' ≠ BlockCandidate_get_source_index c) →
  approvable i (l ++ [c]) x ↔ approvable i l x ∨ (x = c ∧ approved_flags c !! i = Some false).
Proof.
  intros Hc Hfirst. unfold approvable. setoid_rewrite elem_of_app. setoid_rewrite list_elem_of_singleton. split.
  - intros ([Hx| ->] & Hb & Hf & Hu); [|by right]. left. naive_solver.
  - intros [(Hx & Hb & Hf & Hu)|[-> Hf]].
    + split_and!; [by left|done|done|]. intros c' [Hc'| ->] Hb' Hs; [by apply Hu|]. by destruct (Hfirst x Hx Hb).
    + split_and!; [by right|done|done|]. intros c' [Hc'| ->] Hb' Hs; [|done]. by destruct (Hfirst c' Hc' Hb').
Qed.

Lemma same_source_priority d r c c' :
  BlockCandidate_get_source_index c = BlockCandidate_get_source_index c' →
  candidate_priority d r c = candidate_priority d r c'.
Proof. unfold candidate_priority. by intros ->. Qed.

Section rank_step.
Context d r (i : nat) (l : list BlockCandidate) c (ranked : list (option BlockCandidate)) (seen : gset N) (we : bool).
Hypothesis Hd : desc_ok d.
Hypothesis Hok : ∀ c', c' ∈ l ++ [c] → candidate_ok d (rs_sequence_number r) c'.
Hypothesis Hnew : ∀ c', c' ∈ l → BlockCandidate_get_id c' ≠ BlockCandidate_get_id c.
Hypothesis Hacc : ranked_ok d r i l (ranked, seen, we).

Lemma rank_new_id : c ∉ l.
Proof. intros Hc. by destruct (Hnew c Hc). Qed.

Lemma rank_same_slot x p :
  x ∈ l → is_Some (bc_block x) → is_Some (bc_block c) →
  candidate_priority d r x = p → candidate_priority d r c = p →
  BlockCandidate_get_source_index x = BlockCandidate_get_source_index c.
Proof. intros Hx Hb Hc <- He. apply (candidate_priority_inj d r); try done; apply Hok; set_solver. Qed.

Lemma rank_seen_app : is_Some (bc_block c) →
  ∀ s, s ∈ {[BlockCandidate_get_source_index c]} ∪ seen ↔
    ∃ c', c' ∈ l ++ [c] ∧ is_Some (bc_block c') ∧ BlockCandidate_get_source_index c' = s.
Proof.
  intros Hc s. pose proof (ranked_seen _ _ _ _ _ Hacc s) as Hs. simpl in Hs. rewrite elem_of_union, elem_of_singleton, Hs.
  setoid_rewrite elem_of_app. setoid_rewrite list_elem_of_singleton. naive_solver.
Qed.

Lemma rank_empty_app : is_Some (bc_block c) →
  we = true ↔ ∃ c', c' ∈ l ++ [c] ∧ bc_block c' = None ∧ approved_flags c' !! i = Some true.
Proof.
  intros [b Hb]. pose proof (ranked_empty _ _ _ _ _ Hacc) as He. simpl in He. rewrite He.
  setoid_rewrite elem_of_app. setoid_rewrite list_elem_of_singleton. naive_solver congruence.
Qed.

Lemma rank_skip_ok (ap : bool) :
  bc_block c = None → approved_flags c !! i = Some ap → ranked_ok d r i (l ++ [c]) (ranked, seen, ap).
Proof.
  intros Hc Hap. split; simpl.
  - apply (ranked_len _ _ _ _ _ Hacc).
  - intros p x. rewrite approvable_skip by done. apply (ranked_slot _ _ _ _ _ Hacc).
  - intros s. pose proof (ranked_seen _ _ _ _ _ Hacc s) as Hs. simpl in Hs. rewrite Hs.
    setoid_rewrite elem_of_app. setoid_rewrite list_elem_of_singleton. split; [naive_solver|].
    intros (c' & [?| ->] & Hb & ?); [by exists c'|]. rewrite Hc in Hb. by destruct Hb.
  - split.
    + intros ->. exists c. split; [set_solver|done].
    + intros (c' & [Hc'| ->%list_elem_of_singleton]%elem_of_app & Hb & Hf); [|congruence].
      destruct (Hnew c' Hc'). by rewrite !BlockCandidate_id_block, Hb, Hc.
Qed.

Lemma rank_second_ok (p : nat) :
  is_Some (bc_block c) → BlockCandidate_get_source_index c ∈ seen → candidate_priority d r c = Z.of_nat p →
  ranked_ok d r i (l ++ [c]) (<[p := None]> ranked, seen, we).
Proof.
  intros Hc Hseen Hp. pose proof (ranked_seen _ _ _ _ _ Hacc) as Hs. simpl in Hs.
  pose proof (proj1 (Hs _) Hseen) as Hother. split; simpl.
  - rewrite length_insert. apply (ranked_len _ _ _ _ _ Hacc).
  - intros q x. rewrite approvable_second by (done || apply rank_new_id).
    pose proof (ranked_slot _ _ _ _ _ Hacc q x) as Hslot. simpl in Hslot.
    destruct (decide (q = p)) as [->|Hne].
    + split; [rewrite list_lookup_insert_Some; naive_solver|].
      intros [[(Hx & Hb & _) Hsx] Hpx]. destruct Hsx. by apply (rank_same_slot x (Z.of_nat p)).
    + rewrite list_lookup_insert_ne by done. rewrite Hslot. split; [|naive_solver]. intros [Ha Hq].
      split; [|done]. split; [done|]. intros He%(same_source_priority d r). lia.
  - intros s. rewrite <- rank_seen_app by done. set_solver.
  - by apply rank_empty_app.
Qed.

Lemma rank_first_ok (p : nat) (ap : bool) :
  is_Some (bc_block c) → BlockCandidate_get_source_index c ∉ seen → candidate_priority d r c = Z.of_nat p →
  (p < length ranked)%nat → approved_flags c !! i = Some ap →
  ranked_ok d r i (l ++ [c])
    (if ap then ranked else <[p := Some c]> ranked, {[BlockCandidate_get_source_index c]} ∪ seen, we).
Proof.
  intros Hc Hseen Hp Hlt Hap. pose proof (ranked_seen _ _ _ _ _ Hacc) as Hs. simpl in Hs.
  assert (Hfirst : ∀ c', c' ∈ l → is_Some (bc_block c') →
    BlockCandidate_get_source_index c' ≠ BlockCandidate_get_source_index c).
  { intros c' Hc' Hb He. apply Hseen, Hs. by exists c'. }
  split; simpl.
  - destruct ap; rewrite ?length_insert; apply (ranked_len _ _ _ _ _ Hacc).
  - intros q x. rewrite approvable_first by done. rewrite Hap.
    pose proof (ranked_slot _ _ _ _ _ Hacc q x) as Hslot. simpl in Hslot.
    destruct ap; [rewrite Hslot; naive_solver|].
    destruct (decide (q = p)) as [->|Hne].
    + rewrite list_lookup_insert_eq by done. split; [intros [= <-]; auto|].
      intros [[(Hx & Hb & _)|[-> _]] Hpx]; [|done].
      destruct (Hfirst x Hx Hb). by apply (rank_same_slot x (Z.of_nat p)).
    + rewrite list_lookup_insert_ne by done. rewrite Hslot. split; [naive_solver|].
      intros [[?|[-> _]] ?]; [done|lia].
  - by apply rank_seen_app.
  - by apply rank_empty_app.
Qed.
End rank_step.

Lemma rank_candidate_ok d r (i : N) (l : list BlockCandidate) c acc :
  desc_ok d → (N.to_nat i < length (sources d))%nat →
  (∀ c', c' ∈ l ++ [c] → candidate_ok d (rs_sequence_number r) c') →
  (∀ c', c' ∈ l → BlockCandidate_get_id c' ≠ BlockCandidate_get_id c) →
  ranked_ok d r (N.to_nat i) l acc →
  ∃ acc', RoundState_rank_candidate d r i acc c = Done acc' ∧ ranked_ok d r (N.to_nat i) (l ++ [c]) acc'.
Proof.
  intros Hd Hi Hok Hnew Hacc. destruct acc as [[ranked seen] we]. unfold RoundState_rank_candidate.
  pose proof (Hok c ltac:(set_solver)) as Hc.
  assert (∃ ap, BlockCandidate_check_block_is_approved_by c i = Done ap ∧ approved_flags c !! N.to_nat i = Some ap)
    as (ap & Hap & Hfl).
  { rewrite approved_by_index. apply index_lt. unfold approved_flags. rewrite length_fmap. by rewrite (cand_len _ _ _ Hc). }
  rewrite Hap. destruct (bc_block c) as [b|] eqn:Eb.
  2: { run. eexists. split; [done|]. by eapply rank_skip_ok. }
  assert (Hb : is_Some (bc_block c)) by (rewrite Eb; eauto).
  destruct (candidate_priority_ok d r c Hd Hc Hb) as [-> [H0 Hmax]]. run.
  rewrite (proj2 (Z.leb_le _ _) H0). cbn [assert_that mbind outcome_bind].
  pose proof (ranked_len _ _ _ _ _ Hacc) as Hlen. simpl in Hlen.
  assert (Hp : candidate_priority d r c = Z.of_nat (N.to_nat (Z.to_N (candidate_priority d r c)))) by lia.
  destruct (bool_decide (BlockCandidate_get_source_index c ∈ seen)) eqn:Es.
  - apply bool_decide_eq_true in Es. rewrite set_index_lt by lia. run. eexists. split; [done|].
    by eapply rank_second_ok.
  - apply bool_decide_eq_false in Es.
    pose proof (rank_first_ok d r (N.to_nat i) l c ranked seen we Hd Hok Hnew Hacc _ ap Hb Es Hp) as H.
    specialize (H ltac:(lia) Hfl). destruct ap; [eauto|]. rewrite set_index_lt by lia. run. eauto.
Qed.

Lemma rank_loop_ok d r (i : N) (l1 l2 : list BlockCandidate) acc :
  desc_ok d → (N.to_nat i < length (sources d))%nat → round_ok d r → sent_list r = l1 ++ l2 →
  ranked_ok d r (N.to_nat i) l1 acc →
  ∃ acc', mfoldl (RoundState_rank_candidate d r i) acc l2 = Done acc' ∧
    ranked_ok d r (N.to_nat i) (sent_list r) acc'.
Proof.
  intros Hd Hi Hr. revert l1 acc. induction l2 as [|c l2 IH]; intros l1 acc Hl Hacc; simpl.
  { rewrite app_nil_r in Hl. exists acc. by rewrite Hl. }
  destruct (rank_candidate_ok d r i l1 c acc) as (acc' & -> & Hacc'); [done|done| | |done|].
  - intros c' Hc'. apply (rok_sent _ _ Hr). rewrite Hl. set_solver.
  - intros c' Hc'. pose proof (rok_sent_sorted _ _ Hr) as Hs. rewrite Hl in Hs.
    apply (StronglySorted_app_1_elem_of _ _ _ c' c) in Hs; [|set_solver..]. simpl in Hs. lia.
  - run. apply (IH (l1 ++ [c])); [|done]. by rewrite <- app_assoc.
Qed.

(** Slots are read in the order of priorities. *)
Lemma omap_slots_sorted (prio : BlockCandidate → Z) (k : nat) (ranked : list (option BlockCandidate)) :
  (∀ p c, ranked !! p = Some (Some c) → prio c = Z.of_nat (k + p)) →
  StronglySorted (λ c1 c2, prio c1 < prio c2)%Z (omap id ranked).
Proof.
  revert k. induction ranked as [|o ranked IH]; intros k Hk; simpl; [constructor|].
  assert (Hrest : StronglySorted (λ c1 c2, prio c1 < prio c2)%Z (omap id ranked)).
  { apply (IH (S k)). intros p c Hp. rewrite (Hk (S p) c Hp). lia. }
  destruct o as [c|]; [|done]. simpl. constructor; [done|]. apply Forall_forall. intros c' Hc'.
  apply list_elem_of_In, list_elem_of_omap in Hc' as (o & Ho & Heq). simpl in Heq. subst o.
  apply list_elem_of_lookup in Ho as [p Hp]. rewrite (Hk 0%nat c eq_refl), (Hk (S p) c' Hp). lia.
Qed.

Lemma choose_blocks_to_approve_ok d r (i : N) :
  desc_ok d → round_ok d r → (N.to_nat i < length (sources d))%nat →
  ∃ chosen (skip : bool),
    RoundState_choose_blocks_to_approve d r i = Done ((bc_block <$> chosen) ++ if skip then [None] else []) ∧
    (∀ c, c ∈ chosen ↔ approvable (N.to_nat i) (sent_list r) c) ∧
    StronglySorted (λ c1 c2, candidate_priority d r c1 < candidate_priority d r c2)%Z chosen ∧
    (skip = false ↔ ∃ c, c ∈ sent_list r ∧ bc_block c = None ∧ approved_flags c !! N.to_nat i = Some true).
Proof.
  intros Hd Hr Hi. unfold RoundState_choose_blocks_to_approve.
  destruct (sent_blocks r) as [cs|] eqn:Ecs.
  2: { exists [], true. unfold approvable, sent_list. rewrite Ecs. simpl. split; [done|].
       split; [set_solver|]. split; [constructor|]. set_solver. }
  assert (Hsl : sent_list r = cs) by (unfold sent_list; by rewrite Ecs).
  assert (Hm : u32_add (get_max_priority d) 2 = get_max_priority d + 2).
  { rewrite get_max_priority_ok by done. pose proof (desc_candidates d Hd). unfold u32_add, two32.
    apply N.mod_small. lia. }
  destruct (rank_loop_ok d r i [] cs (replicate (N.to_nat (u32_add (get_max_priority d) 2)) None, ∅, false))
    as ([[ranked seen] we] & -> & Hacc); [done..| |].
  { rewrite Hm. split; simpl; [by rewrite length_replicate| | |].
    - intros p c. rewrite lookup_replicate. split; [by intros [??]|]. intros [[Hc _] _]. by apply not_elem_of_nil in Hc.
    - set_solver.
    - split; [done|]. by intros (c & Hc%not_elem_of_nil & _). }
  run. exists (omap id ranked), (negb we). split; [by destruct we; rewrite ?app_nil_r|].
  pose proof (ranked_slot _ _ _ _ _ Hacc) as Hslot. simpl in Hslot. split_and!.
  - intros c. rewrite list_elem_of_omap. split.
    + intros (o & Ho & Heq). simpl in Heq. subst o. apply list_elem_of_lookup in Ho as [p Hp].
      by apply Hslot in Hp as [??].
    + intros Hc. exists (Some c). split; [|done].
      destruct (candidate_priority_ok d r c Hd) as [_ [H0 _]]; [apply (rok_sent _ _ Hr), Hc|apply Hc|].
      apply (list_elem_of_lookup_2 _ (Z.to_nat (candidate_priority d r c))), Hslot. split; [done|lia].
  - apply (omap_slots_sorted _ 0). intros p c Hp. by apply Hslot in Hp as [??].
  - rewrite <- (ranked_empty _ _ _ _ _ Hacc). simpl. by destruct we.
Qed.
End approvals.
