(* ===== verification/SessionProcessor.v ===== *)
(** * The session processor: data and notifications

    Models the state of [validator-session/src/session_processor.rs] and what it calls:
    the catchain, the session listener and the session states.  The fields of
    [SessionProcessorImpl] are grouped by purpose; calls to the catchain and to the
    listener are events in the order in which they are made, answers of the listener
    and of the network are requests of their own.  The session description never
    changes.  One reading of the clock is used for a whole request; random numbers are
    a sequence.  The caches of merged and updated states are off in the code
    ([TELEGRAM_NODE_COMPATIBILITY_HASHES_BUG]), as are its debugging options. *)

From S2P Require Import Prelude SessionDescription Vectors Candidates RoundAttempt Round SessionState ReceivedBlock CatchainCore Slashing.

(** ** Messages *)

(** [validator_session.Candidate], [BlockUpdate] and [DownloadCandidate] *)
Record Candidate := { cd_src : N; cd_round : Z; cd_root_hash : N; cd_data : list N; cd_collated_data : list N }.
Record BlockUpdate := { bu_ts : N; bu_actions : list Message; bu_state : N }.
Record CandidateQuery := { cq_round : N; cq_src : N; cq_root_hash : N; cq_file_hash : N; cq_collated_data_file_hash : N }.

(** The clock in milliseconds, and the same time as seconds with a binary fraction. *)
Record Clock := { clk_now : N; clk_ts : N }.

(** What other crates provide: TL formats, file hashes, signatures with the key of the
    node, random numbers ([ext_wait] is the exponentially distributed delay made from
    one), the order in which a hash map is iterated; and the hash of a state, which is
    only announced. *)
Class SessionExternal {X : External} := {
  ext_parse_update : list N → option BlockUpdate;
  ext_parse_candidate : list N → option Candidate;
  ext_parse_query : list N → option CandidateQuery;
  ext_file_hash : list N → N;
  ext_sign_block : N → N → option (list N);
  ext_sign_approve : N → N → option (list N);
  ext_random : N → N;
  ext_wait : N → N → N;
  ext_map_order : gmap N (list N) → list (N * list N);
  ext_map_order_ok m : ext_map_order m ≡ₚ map_to_list m;
  ext_state_hash : SessionState → N;
}.

(** ** State *)
Abbreviation SlashingStat := (gmap N (@Node PublicKey)).
Inductive SessionEvent {X : External} :=
| RequestNewBlock (time : N)
| ProcessedBlock (update : BlockUpdate)
| SendBroadcast (candidate : Candidate)
| SendQuery (adnl_id : N) (query : CandidateQuery) (timeout : N)
| NotifyCandidate (round : N) (source : PublicKey) (root_hash : N) (data collated_data : list N) (hash file_hash : N)
| NotifyGenerateSlot (round : N)
| NotifyBlockCommitted (round : N) (source : PublicKey) (root_hash file_hash : N) (data : list N) (signatures approve_signatures : list (N * list N))
| NotifyBlockSkipped (round : N)
| NotifySlashing (round : N) (stat : SlashingStat)
| NotifyGetApproved (source : PublicKey) (root_hash file_hash collated_data_file_hash : N).

(** The calls that make session states, with their results: a record for the theorems
    about runs, not a field of the code. *)
Inductive StateCall :=
| MergeCall (left right result : SessionState)
| ActionCall (state result : SessionState).

Record States := {
  st_block_to_state_map : list (option SessionState);
  st_real_state : SessionState;
  st_virtual_state : SessionState;
  st_calls : list StateCall;
}.
Record Timing := {
  tm_requested_new_block : bool;
  tm_requested_new_block_now : bool;
  tm_next_awake_time : N;
  tm_round_started_at : N;
  tm_round_debug_at : N;
  tm_draws : N;
}.
Record Generation := { gn_pending_generate : bool; gn_generated : bool; gn_sent_generated : bool; gn_generated_block : N }.
Record Approval := {
  ap_pending_approve : gset N;
  ap_pending_reject : gmap N (list N);
  ap_rejected : gset N;
  ap_approved : gmap N (N * list N);
  ap_active_requests : gset N;
}.
Record Signing := { sg_pending_sign : bool; sg_signed : bool; sg_signed_block : N; sg_signature : list N }.

Record SessionProcessor {X : External} := {
  sp_catchain_started : bool;
  sp_states : States;
  sp_current_round : N;
  sp_timing : Timing;
  sp_generation : Generation;
  sp_approval : Approval;
  sp_signing : Signing;
  sp_blocks : gmap N (gmap N Candidate);
  sp_slashing_stat : SlashingStat;
  sp_events : list SessionEvent;
}.

Section assignments.
Context {X : External}.
Implicit Types (self : SessionProcessor).

Definition put_states (v : States) self : SessionProcessor :=
  {| sp_catchain_started := sp_catchain_started self; sp_states := v; sp_current_round := sp_current_round self; sp_timing := sp_timing self;
     sp_generation := sp_generation self; sp_approval := sp_approval self; sp_signing := sp_signing self; sp_blocks := sp_blocks self;
     sp_slashing_stat := sp_slashing_stat self; sp_events := sp_events self |}.
Definition put_timing (v : Timing) self : SessionProcessor :=
  {| sp_catchain_started := sp_catchain_started self; sp_states := sp_states self; sp_current_round := sp_current_round self; sp_timing := v;
     sp_generation := sp_generation self; sp_approval := sp_approval self; sp_signing := sp_signing self; sp_blocks := sp_blocks self;
     sp_slashing_stat := sp_slashing_stat self; sp_events := sp_events self |}.
Definition put_generation (v : Generation) self : SessionProcessor :=
  {| sp_catchain_started := sp_catchain_started self; sp_states := sp_states self; sp_current_round := sp_current_round self; sp_timing := sp_timing self;
     sp_generation := v; sp_approval := sp_approval self; sp_signing := sp_signing self; sp_blocks := sp_blocks self;
     sp_slashing_stat := sp_slashing_stat self; sp_events := sp_events self |}.
Definition put_approval (v : Approval) self : SessionProcessor :=
  {| sp_catchain_started := sp_catchain_started self; sp_states := sp_states self; sp_current_round := sp_current_round self; sp_timing := sp_timing self;
     sp_generation := sp_generation self; sp_approval := v; sp_signing := sp_signing self; sp_blocks := sp_blocks self;
     sp_slashing_stat := sp_slashing_stat self; sp_events := sp_events self |}.
Definition put_signing (v : Signing) self : SessionProcessor :=
  {| sp_catchain_started := sp_catchain_started self; sp_states := sp_states self; sp_current_round := sp_current_round self; sp_timing := sp_timing self;
     sp_generation := sp_generation self; sp_approval := sp_approval self; sp_signing := v; sp_blocks := sp_blocks self;
     sp_slashing_stat := sp_slashing_stat self; sp_events := sp_events self |}.
Definition put_blocks (v : gmap N (gmap N Candidate)) self : SessionProcessor :=
  {| sp_catchain_started := sp_catchain_started self; sp_states := sp_states self; sp_current_round := sp_current_round self; sp_timing := sp_timing self;
     sp_generation := sp_generation self; sp_approval := sp_approval self; sp_signing := sp_signing self; sp_blocks := v;
     sp_slashing_stat := sp_slashing_stat self; sp_events := sp_events self |}.
Definition put_started self : SessionProcessor :=
  {| sp_catchain_started := true; sp_states := sp_states self; sp_current_round := sp_current_round self; sp_timing := sp_timing self;
     sp_generation := sp_generation self; sp_approval := sp_approval self; sp_signing := sp_signing self; sp_blocks := sp_blocks self;
     sp_slashing_stat := sp_slashing_stat self; sp_events := sp_events self |}.
(** The round is over: its number, its candidates and its statistics change together. *)
Definition put_round (round : N) (blocks : gmap N (gmap N Candidate)) (stat : SlashingStat) self : SessionProcessor :=
  {| sp_catchain_started := sp_catchain_started self; sp_states := sp_states self; sp_current_round := round; sp_timing := sp_timing self;
     sp_generation := sp_generation self; sp_approval := sp_approval self; sp_signing := sp_signing self; sp_blocks := blocks;
     sp_slashing_stat := stat; sp_events := sp_events self |}.
Definition post (e : SessionEvent) self : SessionProcessor :=
  {| sp_catchain_started := sp_catchain_started self; sp_states := sp_states self; sp_current_round := sp_current_round self; sp_timing := sp_timing self;
     sp_generation := sp_generation self; sp_approval := sp_approval self; sp_signing := sp_signing self; sp_blocks := sp_blocks self;
     sp_slashing_stat := sp_slashing_stat self; sp_events := sp_events self ++ [e] |}.

Definition real_state self : SessionState := st_real_state (sp_states self).
Definition virtual_state self : SessionState := st_virtual_state (sp_states self).
Definition get_current_round_sequence_number (s : SessionState) : N := rs_sequence_number (current_round s).

Definition put_real (s : SessionState) self : SessionProcessor :=
  let v := sp_states self in
  put_states {| st_block_to_state_map := st_block_to_state_map v; st_real_state := s; st_virtual_state := st_virtual_state v; st_calls := st_calls v |} self.
Definition put_virtual (s : SessionState) self : SessionProcessor :=
  let v := sp_states self in
  put_states {| st_block_to_state_map := st_block_to_state_map v; st_real_state := st_real_state v; st_virtual_state := s; st_calls := st_calls v |} self.
Definition put_map (m : list (option SessionState)) self : SessionProcessor :=
  let v := sp_states self in
  put_states {| st_block_to_state_map := m; st_real_state := st_real_state v; st_virtual_state := st_virtual_state v; st_calls := st_calls v |} self.
Definition log_call (c : StateCall) self : SessionProcessor :=
  let v := sp_states self in
  put_states {| st_block_to_state_map := st_block_to_state_map v; st_real_state := st_real_state v; st_virtual_state := st_virtual_state v;
                st_calls := st_calls v ++ [c] |} self.
End assignments.

(** ** Time *)
Section timing.
Context {X : External} {E : SessionExternal}.
Implicit Types (self : SessionProcessor) (d : SessionDescription) (now time : N).

Definition put_awake time self : SessionProcessor :=
  let t := sp_timing self in
  put_timing {| tm_requested_new_block := tm_requested_new_block t; tm_requested_new_block_now := tm_requested_new_block_now t; tm_next_awake_time := time;
                tm_round_started_at := tm_round_started_at t; tm_round_debug_at := tm_round_debug_at t; tm_draws := tm_draws t |} self.

Definition set_next_awake_time now time self : SessionProcessor :=
  let time := if time <? now then now else time in
  if tm_next_awake_time (sp_timing self) <=? time then self else put_awake time self.

Definition reset_next_awake_time d now self : SessionProcessor := put_awake (now + catchain_idle_timeout (options d)) self.

Definition put_requested (requested now_flag : bool) (draws : N) self : SessionProcessor :=
  let t := sp_timing self in
  put_timing {| tm_requested_new_block := requested; tm_requested_new_block_now := now_flag; tm_next_awake_time := tm_next_awake_time t;
                tm_round_started_at := tm_round_started_at t; tm_round_debug_at := tm_round_debug_at t; tm_draws := draws |} self.

Definition put_round_times (started debug : N) self : SessionProcessor :=
  let t := sp_timing self in
  put_timing {| tm_requested_new_block := tm_requested_new_block t; tm_requested_new_block_now := tm_requested_new_block_now t;
                tm_next_awake_time := tm_next_awake_time t; tm_round_started_at := started; tm_round_debug_at := debug; tm_draws := tm_draws t |} self.

(** A random number is drawn. *)
Definition generate_random_usize self : N * SessionProcessor :=
  let t := sp_timing self in
  (ext_random (tm_draws t), put_requested (tm_requested_new_block t) (tm_requested_new_block_now t) (tm_draws t + 1) self).

Definition MAX_NEXT_BLOCK_WAIT_DELAY : N := 500.

Definition request_block d now (immediately : bool) self : SessionProcessor :=
  let t := sp_timing self in
  if tm_requested_new_block_now t then self else
  if negb immediately && tm_requested_new_block t then self else
  let self := put_requested true (tm_requested_new_block_now t) (tm_draws t) self in
  if immediately then post (RequestNewBlock now) (put_requested true true (tm_draws t) self)
  else
    let '(random, self) := generate_random_usize self in
    post (RequestNewBlock (now + N.min (ext_wait (get_total_nodes d) random) MAX_NEXT_BLOCK_WAIT_DELAY)) self.
End timing.
