(* ===== verification/SessionChecks.v ===== *)
(** * The session processor: candidates, approvals, signatures and rounds

    Models the slots that [check_all] goes through (signature, approval, generation,
    action, vote-for), the answers to what they ask for, and the change of the round
    ([new_round]) with the commits it reports. *)

From S2P Require Import Prelude SessionDescription Vectors Candidates RoundAttempt Round SessionState ReceivedBlock CatchainCore Slashing SessionProcessor.

Section checks.
Context {X : External} {E : SessionExternal} (d : SessionDescription).
Implicit Types (self : SessionProcessor) (now time round : N).

Definition get_local_idx : N := self_idx d.

(** ** Candidates *)
Definition insert_signed_block_for_round round (block_id : N) (data : Candidate) self : SessionProcessor :=
  put_blocks (<[round := <[block_id := data]> (default ∅ (sp_blocks self !! round))]> (sp_blocks self)) self.

Definition get_signed_block_for_round self round (block_id : N) : option Candidate :=
  blocks ← sp_blocks self !! round; blocks !! block_id.

(** ** Generation *)
Definition check_generate_slot now self : outcome SessionProcessor :=
  let g := sp_generation self in
  if negb (sp_catchain_started self) then Done self else
  if gn_generated g || gn_pending_generate g then Done self else
  if RoundState_check_block_is_sent_by (current_round (real_state self)) get_local_idx then
    Done (put_generation {| gn_pending_generate := gn_pending_generate g; gn_generated := true; gn_sent_generated := true;
                            gn_generated_block := gn_generated_block g |} self) else
  priority ← get_node_priority d get_local_idx (sp_current_round self);
  if (priority <? 0)%Z then Done self else
  let block_generation_time := tm_round_started_at (sp_timing self) + get_delay d (i32_as_u32 priority) in
  if now <? block_generation_time then Done (set_next_awake_time now block_generation_time self) else
  let self := put_generation {| gn_pending_generate := true; gn_generated := gn_generated g; gn_sent_generated := gn_sent_generated g;
                                gn_generated_block := gn_generated_block g |} self in
  Done (post (NotifyGenerateSlot (sp_current_round self)) self).

Definition too_big (data collated_data : list N) : bool :=
  (max_block_size (options d) <? N.of_nat (length data)) || (max_collated_data_size (options d) <? N.of_nat (length collated_data)).

Definition generated_block now round (root_hash : N) (data collated_data : list N) self : outcome SessionProcessor :=
  if negb (round =? sp_current_round self) then Done self else
  if too_big data collated_data then Done self else
  src ← get_source_public_key_hash d get_local_idx;
  let candidate := {| cd_src := src; cd_round := u32_as_i32 round; cd_root_hash := root_hash; cd_data := data; cd_collated_data := collated_data |} in
  block_id ← candidate_id d get_local_idx root_hash (ext_file_hash data) (ext_file_hash collated_data);
  let self := post (SendBroadcast candidate) self in
  let self := insert_signed_block_for_round (sp_current_round self) block_id candidate self in
  let g := sp_generation self in
  let self := put_generation {| gn_pending_generate := false; gn_generated := true; gn_sent_generated := gn_sent_generated g; gn_generated_block := block_id |} self in
  Done (request_block d now true self).

(** ** Approval *)
Definition put_approved (block_id : N) (v : N * list N) self : SessionProcessor :=
  let a := sp_approval self in
  put_approval {| ap_pending_approve := ap_pending_approve a ∖ {[block_id]}; ap_pending_reject := ap_pending_reject a; ap_rejected := ap_rejected a;
                  ap_approved := <[block_id := v]> (ap_approved a); ap_active_requests := ap_active_requests a |} self.
Definition put_empty_approved (block_id : N) self : SessionProcessor :=
  let a := sp_approval self in
  put_approval {| ap_pending_approve := ap_pending_approve a; ap_pending_reject := ap_pending_reject a; ap_rejected := ap_rejected a;
                  ap_approved := <[block_id := (0, [])]> (ap_approved a); ap_active_requests := ap_active_requests a |} self.
Definition put_pending (block_id : N) self : SessionProcessor :=
  let a := sp_approval self in
  put_approval {| ap_pending_approve := {[block_id]} ∪ ap_pending_approve a; ap_pending_reject := ap_pending_reject a; ap_rejected := ap_rejected a;
                  ap_approved := ap_approved a; ap_active_requests := ap_active_requests a |} self.
Definition put_active (active : gset N) self : SessionProcessor :=
  let a := sp_approval self in
  put_approval {| ap_pending_approve := ap_pending_approve a; ap_pending_reject := ap_pending_reject a; ap_rejected := ap_rejected a;
                  ap_approved := ap_approved a; ap_active_requests := active |} self.

Definition BLOCK_VALIDATION_TIMEOUT : N := 2000.
Definition DOWNLOAD_TIMEOUT : N := 2000.

(** The earliest time at which a block may be proposed. *)
Definition proposal_delay self (block : SentBlockPtr) : outcome N :=
  match block with
  | Some block => priority ← get_node_priority d (sb_source_id block) (sp_current_round self); Done (get_delay d (i32_as_u32 priority))
  | None => Done (get_empty_block_delay d)
  end.

(** A candidate that has arrived is validated. *)
Definition validate_candidate (block : SentBlock) (tl_block : Candidate) self : outcome SessionProcessor :=
  let self := put_pending (sb_candidate_id block) self in
  _ ← assert_that (sp_current_round self =? i32_as_u32 (cd_round tl_block));
  source ← get_source_public_key d (sb_source_id block);
  Done (post (NotifyCandidate (sp_current_round self) source (cd_root_hash tl_block) (cd_data tl_block) (cd_collated_data tl_block)
                (sb_candidate_id block) (sb_file_hash block)) self).

(** [get_broadcast_p2p] *)
Definition get_broadcast_p2p now (node_adnl_id : N) (query : CandidateQuery) timeout (block_id : N) self : SessionProcessor :=
  if timeout <? now then put_active (ap_active_requests (sp_approval self) ∖ {[block_id]}) self
  else post (SendQuery node_adnl_id query timeout) self.

(** A candidate that has not arrived is requested from one of those who approved it. *)
Definition request_candidate now (block : SentBlock) self : outcome SessionProcessor :=
  let block_id := sb_candidate_id block in
  if bool_decide (block_id ∈ ap_active_requests (sp_approval self)) then Done self else
  approvers ← RoundState_get_block_approvers d (current_round (virtual_state self)) block_id;
  if (length approvers =? 0)%nat then Done self else
  let '(random, self) := generate_random_usize self in
  node ← index approvers (random mod N.of_nat (length approvers));
  node_adnl_id ← get_source_adnl_id d node;
  source_id ← get_source_public_key_hash d (sb_source_id block);
  let self := put_active ({[block_id]} ∪ ap_active_requests (sp_approval self)) self in
  let query := {| cq_round := sp_current_round self; cq_src := source_id; cq_root_hash := sb_root_hash block; cq_file_hash := sb_file_hash block;
                  cq_collated_data_file_hash := sb_collated_data_file_hash block |} in
  Done (get_broadcast_p2p now node_adnl_id query (now + DOWNLOAD_TIMEOUT) block_id self).

Definition try_approve_block now self (block : SentBlockPtr) : outcome SessionProcessor :=
  let block_id := SentBlock_get_id block in
  let a := sp_approval self in
  match ap_approved a !! block_id with
  | Some (approve_time, _) =>
      Done (if approve_time <=? now then request_block d now false self else set_next_awake_time now approve_time self)
  | None =>
      if bool_decide (block_id ∈ ap_pending_approve a) || bool_decide (block_id ∈ ap_rejected a) then Done self else
      delay ← proposal_delay self block;
      let block_proposal_time := tm_round_started_at (sp_timing self) + delay in
      if now <? block_proposal_time then Done (set_next_awake_time now block_proposal_time self) else
      match block with
      | None => Done (request_block d now false (put_empty_approved block_id self))
      | Some block =>
          let block_proposal_time := tm_round_started_at (sp_timing self) + get_delay d (sb_source_id block) + BLOCK_VALIDATION_TIMEOUT in
          match get_signed_block_for_round self (sp_current_round self) block_id with
          | Some tl_block => validate_candidate block tl_block self
          | None =>
              if block_proposal_time <? now then request_candidate now block self
              else Done (set_next_awake_time now block_proposal_time self)
          end
      end
  end.

Definition check_approve now self : outcome SessionProcessor :=
  if negb (sp_catchain_started self) then Done self else
  to_approve ← RoundState_choose_blocks_to_approve d (current_round (virtual_state self)) get_local_idx;
  mfoldl (try_approve_block now) self to_approve.

(** The answers of the listener. *)
Definition candidate_approved_signed now (hash validity_start_time : N) (signature : list N) self : SessionProcessor :=
  let self := put_approved hash (validity_start_time, signature) self in
  if validity_start_time <=? now then request_block d now false self else set_next_awake_time now validity_start_time self.

Definition candidate_decision_ok now round (hash root_hash file_hash validity_start_time : N) self : SessionProcessor :=
  if negb (round =? sp_current_round self) then self else
  match ext_sign_approve root_hash file_hash with
  | None => self
  | Some signature => candidate_approved_signed now hash validity_start_time signature self
  end.

Definition candidate_decision_fail round (hash : N) (reason : list N) self : SessionProcessor :=
  if negb (round =? sp_current_round self) then self else
  let a := sp_approval self in
  put_approval {| ap_pending_approve := ap_pending_approve a ∖ {[hash]}; ap_pending_reject := <[hash := reason]> (ap_pending_reject a);
                  ap_rejected := {[hash]} ∪ ap_rejected a; ap_approved := ap_approved a; ap_active_requests := ap_active_requests a |} self.

(** ** Actions and votes *)
Definition is_empty_action (m : Message) : bool := match m with Empty _ _ => true | _ => false end.

Definition check_action now (attempt : N) self : outcome SessionProcessor :=
  if negb (sp_catchain_started self) then Done self else
  if tm_requested_new_block (sp_timing self) then Done self else
  action ← SessionState_create_action d (virtual_state self) get_local_idx attempt;
  match action with
  | Some action => Done (if is_empty_action action then self else request_block d now false self)
  | None => Done self
  end.

Definition check_vote_for_slot now (attempt : N) self : outcome SessionProcessor :=
  if negb (sp_catchain_started self) then Done self else
  need ← RoundState_check_need_generate_vote_for d (current_round (virtual_state self)) get_local_idx attempt;
  Done (if (need : bool) then request_block d now false self else self).

(** ** Signatures *)
Definition signed_block now round (hash : N) (signature : list N) self : SessionProcessor :=
  if negb (round =? sp_current_round self) then self else
  request_block d now false
    (put_signing {| sg_pending_sign := false; sg_signed := true; sg_signed_block := hash; sg_signature := signature |} self).

Definition check_sign_slot now self : outcome SessionProcessor :=
  let g := sp_signing self in
  if negb (sp_catchain_started self) then Done self else
  if sg_pending_sign g then Done self else
  signed ← RoundState_check_block_is_signed_by (current_round (real_state self)) get_local_idx;
  if (signed : bool) then
    Done (put_signing {| sg_pending_sign := sg_pending_sign g; sg_signed := true; sg_signed_block := sg_signed_block g; sg_signature := sg_signature g |} self) else
  if sg_signed g then Done (request_block d now false self) else
  commit_candidate ← SessionState_choose_block_to_sign (virtual_state self) get_local_idx;
  match commit_candidate with
  | None => Done self
  | Some None =>
      Done (request_block d now false
        (put_signing {| sg_pending_sign := sg_pending_sign g; sg_signed := true; sg_signed_block := SKIP_ROUND_CANDIDATE_BLOCKID;
                        sg_signature := sg_signature g |} self))
  | Some (Some block) =>
      let self := put_signing {| sg_pending_sign := true; sg_signed := sg_signed g; sg_signed_block := sg_signed_block g; sg_signature := sg_signature g |} self in
      match ext_sign_block (sb_root_hash block) (sb_file_hash block) with
      | None => Done self
      | Some signature => Done (signed_block now (sp_current_round self) (sb_candidate_id block) signature self)
      end
  end.

(** ** All slots *)
Definition ROUND_DEBUG_PERIOD : N := 15000.

Definition check_all (c : Clock) self : outcome SessionProcessor :=
  let now := clk_now c in
  if negb (sp_catchain_started self) then Done self else
  if negb (get_current_round_sequence_number (virtual_state self) =? sp_current_round self) then Done (request_block d now false self) else
  let t := sp_timing self in
  let self := if tm_round_debug_at t <? now then put_round_times (tm_round_started_at t) (now + ROUND_DEBUG_PERIOD) self else self in
  attempt_seqno ← get_attempt_sequence_number d (clk_ts c);
  self ← check_sign_slot now self;
  self ← check_approve now self;
  self ← check_generate_slot now self;
  self ← check_action now attempt_seqno self;
  self ← check_vote_for_slot now attempt_seqno self;
  let self := set_next_awake_time now (tm_round_debug_at (sp_timing self)) self in
  Done (set_next_awake_time now (get_attempt_start_at d (u32_add attempt_seqno 1)) self).

(** ** Rounds *)

(** What a new round starts with. *)
Definition reset_round self : SessionProcessor :=
  let self := put_generation {| gn_pending_generate := false; gn_generated := false; gn_sent_generated := false;
                                gn_generated_block := gn_generated_block (sp_generation self) |} self in
  let self := put_approval {| ap_pending_approve := ∅; ap_pending_reject := ∅; ap_rejected := ∅; ap_approved := ∅; ap_active_requests := ∅ |} self in
  put_signing {| sg_pending_sign := false; sg_signed := false; sg_signed_block := DEFAULT_BLOCKID; sg_signature := [] |} self.

Definition export_signature (signatures : BlockCandidateSignatureVectorPtr) (i : N) : outcome (option (N * list N)) :=
  signature ← Vector_at signatures i;
  match signature with
  | Some signature => hash ← get_source_public_key_hash d i; Done (Some (hash, bcs_signature signature))
  | None => Done None
  end.
Definition export_signatures (signatures : BlockCandidateSignatureVectorPtr) : outcome (list (N * list N)) :=
  mmap (export_signature signatures) (node_range d) ≫= λ exported : list (option (N * list N)), Done (omap id exported).

(** The counters of one validator for a finished round. *)
Definition increment_if (b : bool) (metric : Metric) (node : @Node PublicKey) : outcome (@Node PublicKey) :=
  if b then Node_increment node metric 1 else Done node.

Definition count_validator round (signed_block : SentBlockPtr) (signatures approve_signatures : BlockCandidateSignatureVectorPtr)
    (stat : SlashingStat) (i : N) : outcome SlashingStat :=
  hash ← get_source_public_key_hash d i;
  node ← unwrap (stat !! hash);
  node ← Node_increment node TotalRoundsCount 1;
  priority ← get_node_priority d i round;
  node ← increment_if (0 <=? priority)%Z TotalCollationRoundsCount node;
  node ← increment_if (match signed_block with Some block => sb_source_id block =? i | None => false end) CollationsCount node;
  signature ← Vector_at signatures i;
  node ← increment_if (bool_decide (is_Some signature)) CommitsCount node;
  approval ← Vector_at approve_signatures i;
  node ← increment_if (bool_decide (is_Some approval)) ApprovalsCount node;
  Done (<[hash := node]> stat).

(** The report of a finished round. *)
Definition report_round round (signed_block : SentBlockPtr) (signatures approve_signatures : list (N * list N)) self : outcome SessionProcessor :=
  match signed_block with
  | Some block =>
      source ← get_source_public_key d (sb_source_id block);
      let data := match get_signed_block_for_round self round (sb_candidate_id block) with Some tl_block => cd_data tl_block | None => [] end in
      Done (post (NotifyBlockCommitted round source (sb_root_hash block) (sb_file_hash block) data signatures approve_signatures) self)
  | None => Done (post (NotifyBlockSkipped round) self)
  end.

(** One turn of the loop of [new_round]. *)
Definition finish_round self : outcome SessionProcessor :=
  let round := sp_current_round self in
  signed_block ← SessionState_get_committed_block (real_state self) round;
  src_signatures ← SessionState_get_committed_block_signatures (real_state self) round;
  src_approve_signatures ← SessionState_get_committed_block_approve_signatures (real_state self) round;
  src_signatures ← unwrap src_signatures;
  src_approve_signatures ← unwrap src_approve_signatures;
  signatures ← export_signatures src_signatures;
  approve_signatures ← export_signatures src_approve_signatures;
  signed_block ← unwrap signed_block;
  self ← report_round round signed_block signatures approve_signatures self;
  stat ← mfoldl (count_validator round signed_block src_signatures src_approve_signatures)
           (ValidatorStat_reset (sp_slashing_stat self)) (node_range d);
  let self := post (NotifySlashing round stat) self in
  Done (put_round (u32_add round 1) (delete round (sp_blocks self)) stat self).

Fixpoint finish_rounds (n : nat) self : outcome SessionProcessor :=
  match n with O => Done self | S n => self ← finish_round self; finish_rounds n self end.

Definition new_round (c : Clock) round self : outcome SessionProcessor :=
  self ← (if round =? 0 then Done self else
          _ ← assert_that (sp_current_round self <? round); Done (reset_round self));
  self ← finish_rounds (N.to_nat (round - sp_current_round self)) self;
  check_all c (put_round_times (clk_now c) (clk_now c + ROUND_DEBUG_PERIOD) self).
End checks.
