(* ===== verification/SessionBlocks.v ===== *)
(** * The session processor: blocks and network messages

    Models what [session_processor.rs] does with catchain blocks ([preprocess_block],
    [process_blocks]), with broadcasts and queries, its creation, and the requests it
    serves as one step function. *)

From S2P Require Import Prelude SessionDescription Vectors Candidates RoundAttempt Round SessionState ReceivedBlock CatchainCore Slashing SessionProcessor SessionChecks.

Section blocks.
Context {X : External} {E : SessionExternal} (d : SessionDescription).
Implicit Types (self : SessionProcessor) (c : Clock) (block : CatchainBlock).

(** ** States of blocks *)
Definition merge_states (left right : SessionState) self : outcome (SessionState * SessionProcessor) :=
  state ← merge d left right; Done (state, log_call (MergeCall left right state) self).

Definition apply_state_action (state : SessionState) (src_idx attempt_id : N) (message : Message) self
  : outcome (SessionState * SessionProcessor) :=
  state' ← SessionState_apply_action d state src_idx attempt_id message; Done (state', log_call (ActionCall state state') self).

(** [make_all]; five turns are always enough. *)
Definition make_all_state (state : SessionState) (src_idx attempt_id : N) : outcome SessionState :=
  match SessionState_make_all 5 d state src_idx attempt_id with Some r => r | None => Panic end.

Definition find_state_of self block : option SessionState :=
  match st_block_to_state_map (sp_states self) !! N.to_nat (cb_extra_id block) with Some (Some state) => Some state | _ => None end.

Definition get_state self block : outcome SessionState := unwrap (find_state_of self block).

Definition set_state_of self block (state : SessionState) : SessionProcessor :=
  let m := st_block_to_state_map (sp_states self) in
  let n := N.to_nat (cb_extra_id block) in
  let m := if (length m <=? n)%nat then m ++ replicate (S n - length m) None else m in
  put_map (<[n := Some state]> m) self.

(** ** Preprocessing *)
Fixpoint merge_deps (state : SessionState) (deps : list CatchainBlock) self : outcome (SessionState * SessionProcessor) :=
  match deps with
  | [] => Done (state, self)
  | dep :: deps' =>
      dep_state ← get_state self dep;
      '(state, self) ← merge_states state dep_state self;
      merge_deps state deps' self
  end.

Fixpoint apply_actions (state : SessionState) (src_idx attempt_id : N) (actions : list Message) self : outcome (SessionState * SessionProcessor) :=
  match actions with
  | [] => Done (state, self)
  | msg :: actions' =>
      '(state, self) ← apply_state_action state src_idx attempt_id msg self;
      apply_actions state src_idx attempt_id actions' self
  end.

(** The state of a block: the states of its parents merged, its actions applied and
    the implicit actions of its source.  Blocks without payload and dependencies only
    pass the state of their predecessor on. *)
Definition compute_state block self : outcome (SessionState * SessionProcessor) :=
  state ← (match cb_prev block with Some prev => get_state self prev | None => Done (SessionState_create_empty d) end);
  '(state, self) ← merge_deps state (cb_deps block) self;
  if (length (cb_payload block) =? 0)%nat && (length (cb_deps block) =? 0)%nat then Done (state, self) else
  let node_source_id := cb_source_id block mod two32 in
  _ ← get_source_public_key_hash d node_source_id;
  match ext_parse_update (cb_payload block) with
  | Some block_update =>
      attempt_id ← get_attempt_sequence_number d (bu_ts block_update);
      '(state, self) ← apply_actions state node_source_id attempt_id (bu_actions block_update) self;
      state ← make_all_state state node_source_id attempt_id;
      Done (state, self)
  | None =>
      attempt_id ← SessionState_get_ts state node_source_id;
      state ← make_all_state state node_source_id attempt_id;
      Done (state, self)
  end.

Definition preprocess_block c block self : outcome SessionProcessor :=
  '(state, self) ← compute_state block self;
  let self := set_state_of self block state in
  let self := if (cb_source_id block mod two32 =? get_local_idx d) && negb (sp_catchain_started self) then put_real state self else self in
  '(virtual, self) ← merge_states (virtual_state self) state self;
  let self := put_virtual virtual self in
  let state_round := get_current_round_sequence_number (real_state self) in
  self ← (if negb (state_round =? sp_current_round self) then new_round d c state_round self else Done self);
  check_all d c self.

(** ** Processing: a new block of this node *)
Fixpoint merge_blocks (blocks : list CatchainBlock) self : outcome SessionProcessor :=
  match blocks with
  | [] => Done self
  | block :: blocks' =>
      block_state ← get_state self block;
      '(state, self) ← merge_states (real_state self) block_state self;
      merge_blocks blocks' (put_real state self)
  end.

Definition i32_round self : Z := u32_as_i32 (sp_current_round self).

(** The announcement of an own candidate. *)
Definition submitted_messages self : outcome (list Message * SessionProcessor) :=
  let g := sp_generation self in
  if gn_generated g && negb (gn_sent_generated g) then
    candidate ← unwrap (get_signed_block_for_round self (sp_current_round self) (gn_generated_block g));
    Done ([SubmittedBlock (i32_round self) (cd_root_hash candidate) (ext_file_hash (cd_data candidate)) (ext_file_hash (cd_collated_data candidate))],
          put_generation {| gn_pending_generate := gn_pending_generate g; gn_generated := gn_generated g; gn_sent_generated := true;
                            gn_generated_block := gn_generated_block g |} self)
  else Done ([], self).

Definition approval_message (now : N) self (block : SentBlockPtr) : option Message :=
  match ap_approved (sp_approval self) !! SentBlock_get_id block with
  | Some (time, signature) => if time <=? now then Some (ApprovedBlock (i32_round self) (SentBlock_get_id block) signature) else None
  | None => None
  end.

Definition reject_messages self : list Message :=
  (λ kv, RejectedBlock (i32_round self) kv.1 kv.2) <$> ext_map_order (ap_pending_reject (sp_approval self)).

Definition clear_pending_reject self : SessionProcessor :=
  let a := sp_approval self in
  put_approval {| ap_pending_approve := ap_pending_approve a; ap_pending_reject := ∅; ap_rejected := ap_rejected a; ap_approved := ap_approved a;
                  ap_active_requests := ap_active_requests a |} self.

Definition commit_messages self : outcome (list Message) :=
  let g := sp_signing self in
  if negb (sg_signed g) then Done [] else
  block ← SessionState_choose_block_to_sign (real_state self) (get_local_idx d);
  match block with
  | Some block =>
      _ ← assert_that (SentBlock_get_id block =? sg_signed_block g);
      Done [Commit (i32_round self) (sg_signed_block g) (sg_signature g)]
  | None => Done []
  end.

Definition gather_messages c self : outcome (list Message * SessionProcessor) :=
  '(submitted, self) ← submitted_messages self;
  to_approve ← RoundState_choose_blocks_to_approve d (current_round (real_state self)) (get_local_idx d);
  let approvals := omap (approval_message (clk_now c) self) to_approve in
  let rejects := reject_messages self in
  let self := clear_pending_reject self in
  commits ← commit_messages self;
  Done (submitted ++ approvals ++ rejects ++ commits, self).

(** The proposal of the coordinator of the attempt. *)
Definition vote_for_messages (attempt : N) self : outcome (list Message * SessionProcessor) :=
  let real := real_state self in
  need ← RoundState_check_need_generate_vote_for d (current_round real) (get_local_idx d) attempt;
  if (need : bool) then
    let '(random, self) := generate_random_usize self in
    msg ← RoundState_generate_vote_for d (current_round real) (get_local_idx d) attempt random;
    '(state, self) ← apply_state_action real (get_local_idx d) attempt msg self;
    Done ([msg], put_real state self)
  else Done ([], self).

(** The loop that creates actions until an empty one; [None] when the fuel ends. *)
Fixpoint action_loop (fuel : nat) (state : SessionState) (attempt : N) (messages : list Message) self
  : option (outcome (SessionState * list Message * SessionProcessor)) :=
  match fuel with
  | O => None
  | S fuel' =>
      match SessionState_create_action d state (get_local_idx d) attempt with
      | Done (Some msg) =>
          match apply_state_action state (get_local_idx d) attempt msg self with
          | Done (state', self') =>
              if is_empty_action msg then Some (Done (state', messages ++ [msg], self'))
              else action_loop fuel' state' attempt (messages ++ [msg]) self'
          | Panic => Some Panic
          end
      | _ => Some Panic
      end
  end.

(** What is done up to the loop: the messages so far and the attempt. *)
Definition process_begin c (blocks : list CatchainBlock) self : outcome (list Message * N * SessionProcessor) :=
  let self := put_requested false false (tm_draws (sp_timing self)) self in
  self ← merge_blocks blocks self;
  let round := get_current_round_sequence_number (real_state self) in
  self ← (if negb (round =? sp_current_round self) then new_round d c round self else Done self);
  attempt ← get_attempt_sequence_number d (clk_ts c);
  '(messages, self) ← gather_messages c self;
  '(state, self) ← apply_actions (real_state self) (get_local_idx d) attempt messages self;
  let self := put_real state self in
  '(vote_for, self) ← vote_for_messages attempt self;
  Done (messages ++ vote_for, attempt, self).

(** What is done after it: the block is handed to the catchain. *)
Definition process_end c (messages : list Message) self : outcome SessionProcessor :=
  let real := real_state self in
  let self := post (ProcessedBlock {| bu_ts := clk_ts c; bu_actions := messages; bu_state := ext_state_hash real |}) self in
  let round := get_current_round_sequence_number real in
  self ← (if sp_current_round self <? round then new_round d c round self else Done self);
  '(virtual, self) ← merge_states (virtual_state self) (real_state self) self;
  Done (put_virtual virtual self).

Definition process_blocks (fuel : nat) c (blocks : list CatchainBlock) self : option (outcome SessionProcessor) :=
  match process_begin c blocks self with
  | Panic => Some Panic
  | Done (messages, attempt, self) =>
      match action_loop fuel (real_state self) attempt messages self with
      | None => None
      | Some Panic => Some Panic
      | Some (Done (state, messages, self)) => Some (process_end c messages (put_real state self))
      end
  end.

Definition finished_catchain_processing c self : outcome SessionProcessor := check_all d c (put_virtual (real_state self) self).

(** ** Start *)
Definition ask_approved self (block : SentBlockPtr) : outcome SessionProcessor :=
  match block with
  | None => Done self
  | Some block =>
      source ← get_source_public_key d (sb_source_id block);
      _ ← get_source_public_key_hash d (sb_source_id block);
      Done (post (NotifyGetApproved source (sb_root_hash block) (sb_file_hash block) (sb_collated_data_file_hash block)) self)
  end.

Definition on_catchain_started c self : outcome SessionProcessor :=
  let self := put_started self in
  approved ← RoundState_get_blocks_approved_by (current_round (virtual_state self)) (get_local_idx d);
  self ← mfoldl ask_approved self approved;
  check_all d c self.

(** ** Network messages *)
Definition process_broadcast c (source_id : N) (data : list N) self : outcome SessionProcessor :=
  src_idx ← get_source_index d source_id;
  match ext_parse_candidate data with
  | None => Done self
  | Some candidate =>
      if negb (cd_src candidate =? source_id) then Done self else
      if too_big d (cd_data candidate) (cd_collated_data candidate) then Done self else
      let block_round := i32_as_u32 (cd_round candidate) in
      block_id ← candidate_id d src_idx (cd_root_hash candidate) (ext_file_hash (cd_data candidate)) (ext_file_hash (cd_collated_data candidate));
      if block_round <? sp_current_round self then Done self else
      if bool_decide (is_Some (get_signed_block_for_round self block_round block_id)) then Done self else
      priority ← get_node_priority d src_idx block_round;
      if (priority <? 0)%Z then Done self else
      let self := insert_signed_block_for_round block_round block_id candidate self in
      if negb (block_round =? sp_current_round self) then Done self else
      let a := sp_approval self in
      _ ← assert_that (negb (bool_decide (block_id ∈ ap_pending_approve a)));
      _ ← assert_that (bool_decide (ap_approved a !! block_id = None));
      _ ← assert_that (bool_decide (ap_pending_reject a !! block_id = None));
      _ ← assert_that (negb (bool_decide (block_id ∈ ap_rejected a)));
      blocks ← RoundState_choose_blocks_to_approve d (current_round (virtual_state self)) (get_local_idx d);
      match List.find (λ b, SentBlock_get_id b =? block_id) blocks with
      | Some block => try_approve_block d (clk_now c) self block
      | None => Done self
      end
  end.

(** The answer to a download: the request is over, the candidate is a broadcast. *)
Definition candidate_downloaded c (round block_id source_id : N) (result : option (list N)) self : outcome SessionProcessor :=
  let self := if sp_current_round self =? round then put_active (ap_active_requests (sp_approval self) ∖ {[block_id]}) self else self in
  match result with
  | None => Done self
  | Some data => process_broadcast c source_id data self
  end.

(** The error answers of [process_query], or the block that is asked for. *)
Definition process_query (data : list N) self : outcome (option SentBlock * SessionProcessor) :=
  match ext_parse_query data with
  | None => Done (None, self)
  | Some query =>
      let round_id := cq_round query in
      let real_round := get_current_round_sequence_number (real_state self) in
      if real_round <? round_id then Done (None, self) else
      src ← get_source_index d (cq_src query);
      id ← candidate_id d src (cq_root_hash query) (cq_file_hash query) (cq_collated_data_file_hash query);
      found ← (if round_id <? real_round then
                 block ← SessionState_get_committed_block (real_state self) round_id;
                 match block with
                 | None => Done None
                 | Some block => if negb (SentBlock_get_id block =? id) then Done None else block ← unwrap block; Done (Some block)
                 end
               else
                 match SessionState_get_block (real_state self) id with
                 | Some (Some block) =>
                     approved ← SessionState_check_block_is_approved_by (real_state self) (get_local_idx d) id;
                     Done (if (approved : bool) then Some block else None)
                 | _ => Done None
                 end);
      match found with
      | None => Done (None, self)
      | Some block =>
          source ← get_source_public_key d (sb_source_id block);
          Done (Some block, post (NotifyGetApproved source (cq_root_hash query) (cq_file_hash query) (cq_collated_data_file_hash query)) self)
      end
  end.

(** ** Creation *)
Definition SessionProcessor_create c (ids : list SessionNode) : outcome SessionProcessor :=
  let now := clk_now c in
  let stat := foldl (λ m node, <[public_key_id (node_public_key node) := Node_new (node_public_key node)]> m) ∅ ids in
  let initial_state := SessionState_create_empty d in
  check_all d c
    {| sp_catchain_started := false;
       sp_states := {| st_block_to_state_map := []; st_real_state := initial_state; st_virtual_state := initial_state; st_calls := [] |};
       sp_current_round := 0;
       sp_timing := {| tm_requested_new_block := false; tm_requested_new_block_now := false; tm_next_awake_time := now; tm_round_started_at := now;
                       tm_round_debug_at := now; tm_draws := 0 |};
       sp_generation := {| gn_pending_generate := false; gn_generated := false; gn_sent_generated := false; gn_generated_block := DEFAULT_BLOCKID |};
       sp_approval := {| ap_pending_approve := ∅; ap_pending_reject := ∅; ap_rejected := ∅; ap_approved := ∅; ap_active_requests := ∅ |};
       sp_signing := {| sg_pending_sign := false; sg_signed := false; sg_signed_block := DEFAULT_BLOCKID; sg_signature := [] |};
       sp_blocks := ∅; sp_slashing_stat := stat; sp_events := [] |}.
End blocks.
