(* ===== verification/SessionFrames.v ===== *)
(** * The session processor: what its slots leave alone

    [quiet] relates processors that differ only in timers, in the work of the current
    round and in requests to the catchain and the listener: every slot and every answer
    is quiet, so the states, the round and the reports of the session are changed only
    by blocks and by [new_round]. *)

From S2P Require Import Prelude SessionDescription Vectors Candidates RoundAttempt Round SessionState ReceivedBlock CatchainCore Slashing SessionProcessor SessionChecks SessionBlocks.

(** Events that ask for something, as opposed to the reports and blocks of the session. *)
Definition asks {X : External} (e : SessionEvent) : bool :=
  match e with
  | ProcessedBlock _ | NotifyBlockCommitted _ _ _ _ _ _ _ | NotifyBlockSkipped _ | NotifySlashing _ _ => false
  | _ => true
  end.

Section frames.
Context {X : External} {E : SessionExternal} (d : SessionDescription).
Implicit Types (self : SessionProcessor) (now : N).

Record quiet self self' : Prop := {
  qt_started : sp_catchain_started self' = sp_catchain_started self;
  qt_states : sp_states self' = sp_states self;
  qt_round : sp_current_round self' = sp_current_round self;
  qt_stat : sp_slashing_stat self' = sp_slashing_stat self;
  qt_events : ∃ es, sp_events self' = sp_events self ++ es ∧ forallb asks es = true;
}.

Lemma quiet_refl self : quiet self self.
Proof. split; try done. exists []. by rewrite app_nil_r. Qed.

Lemma quiet_trans self1 self2 self3 : quiet self1 self2 → quiet self2 self3 → quiet self1 self3.
Proof.
  intros [A1 A2 A3 A4 (es1 & A5 & A6)] [B1 B2 B3 B4 (es2 & B5 & B6)]. split; try congruence.
  exists (es1 ++ es2). rewrite B5, A5, <- app_assoc, forallb_app, A6, B6. done.
Qed.

Lemma quiet_post e self : asks e = true → quiet self (post e self).
Proof. intros H. split; try done. exists [e]. simpl. by rewrite H. Qed.

Lemma quiet_fields self self' : sp_catchain_started self' = sp_catchain_started self → sp_states self' = sp_states self →
  sp_current_round self' = sp_current_round self → sp_slashing_stat self' = sp_slashing_stat self → sp_events self' = sp_events self → quiet self self'.
Proof. intros. split; try done. exists []. by rewrite app_nil_r. Qed.
End frames.

Create HintDb quiet.
#[export] Hint Resolve quiet_refl quiet_post : quiet.
#[export] Hint Extern 1 (quiet ?s (put_timing _ ?s)) => (apply quiet_fields; reflexivity) : quiet.

(** Solve a goal [quiet self self'] for a chain of assignments and posts. *)
Ltac quiet_chain :=
  repeat match goal with
  | |- quiet ?s ?s => apply quiet_refl
  | |- quiet _ (post ?e ?s) => apply (quiet_trans _ s); [|apply quiet_post; reflexivity]
  | |- quiet _ (put_timing ?v ?s) => apply (quiet_trans _ s); [|apply quiet_fields; reflexivity]
  | |- quiet _ (put_generation ?v ?s) => apply (quiet_trans _ s); [|apply quiet_fields; reflexivity]
  | |- quiet _ (put_approval ?v ?s) => apply (quiet_trans _ s); [|apply quiet_fields; reflexivity]
  | |- quiet _ (put_signing ?v ?s) => apply (quiet_trans _ s); [|apply quiet_fields; reflexivity]
  | |- quiet _ (put_blocks ?v ?s) => apply (quiet_trans _ s); [|apply quiet_fields; reflexivity]
  end; try assumption.

Section slots.
Context {X : External} {E : SessionExternal} (d : SessionDescription).
Implicit Types (self : SessionProcessor) (now : N).

Lemma quiet_awake now time self : quiet self (set_next_awake_time now time self).
Proof. unfold set_next_awake_time. cbv zeta. destruct (_ <=? _); unfold put_awake; quiet_chain. Qed.

Lemma quiet_request now b self : quiet self (request_block d now b self).
Proof.
  unfold request_block, generate_random_usize, put_requested. cbv zeta. destruct (tm_requested_new_block_now _); [quiet_chain|].
  destruct (negb b && _); [quiet_chain|]. destruct b; quiet_chain.
Qed.

Lemma quiet_random self : quiet self (generate_random_usize self).2.
Proof. unfold generate_random_usize, put_requested. simpl. quiet_chain. Qed.

Lemma quiet_generate_slot now self self' : check_generate_slot d now self = Done self' → quiet self self'.
Proof.
  unfold check_generate_slot. intros H. destruct (negb _); [injection H as <-; quiet_chain|].
  destruct (_ || _); [injection H as <-; quiet_chain|]. destruct (RoundState_check_block_is_sent_by _ _); [injection H as <-; quiet_chain|].
  apply bind_Done_inv in H as (p & _ & H). destruct (_ <? _)%Z; [injection H as <-; quiet_chain|].
  destruct (_ <? _); injection H as <-; [apply quiet_awake|quiet_chain].
Qed.

Lemma quiet_generated now round root data coll self self' : generated_block d now round root data coll self = Done self' → quiet self self'.
Proof.
  unfold generated_block. intros H. destruct (negb _); [injection H as <-; quiet_chain|]. destruct (too_big _ _ _); [injection H as <-; quiet_chain|].
  apply bind_Done_inv in H as (src & _ & H). apply bind_Done_inv in H as (id & _ & H). injection H as <-.
  eapply quiet_trans; [|apply quiet_request]. unfold insert_signed_block_for_round. quiet_chain.
Qed.

Lemma quiet_request_candidate now block self self' : request_candidate d now block self = Done self' → quiet self self'.
Proof.
  unfold request_candidate. intros H. destruct (bool_decide _); [injection H as <-; quiet_chain|].
  apply bind_Done_inv in H as (l & _ & H). destruct (_ =? _)%nat; [injection H as <-; quiet_chain|].
  destruct (generate_random_usize self) as [r self1] eqn:Er.
  assert (quiet self self1) as Q1 by (pose proof (quiet_random self) as Q; by rewrite Er in Q).
  apply bind_Done_inv in H as (n & _ & H). apply bind_Done_inv in H as (a & _ & H). apply bind_Done_inv in H as (s & _ & H). injection H as <-.
  unfold get_broadcast_p2p, put_active. destruct (_ <? _); quiet_chain.
Qed.

Lemma quiet_try_approve now self block self' : try_approve_block d now self block = Done self' → quiet self self'.
Proof.
  unfold try_approve_block. intros H. destruct (ap_approved _ !! _) as [[t s]|].
  { injection H as <-. destruct (_ <=? _); [apply quiet_request|apply quiet_awake]. }
  destruct (_ || _); [injection H as <-; quiet_chain|]. apply bind_Done_inv in H as (delay & _ & H).
  destruct (now <? _); [injection H as <-; apply quiet_awake|]. destruct block as [block|].
  - destruct (get_signed_block_for_round _ _ _) as [tl|].
    + unfold validate_candidate in H. apply bind_Done_inv in H as (u & _ & H). apply bind_Done_inv in H as (src & _ & H). injection H as <-.
      unfold put_pending. quiet_chain.
    + destruct (_ <? _); [by eapply quiet_request_candidate|injection H as <-; apply quiet_awake].
  - injection H as <-. eapply quiet_trans; [|apply quiet_request]. unfold put_empty_approved. quiet_chain.
Qed.

Lemma quiet_approve now self self' : check_approve d now self = Done self' → quiet self self'.
Proof.
  unfold check_approve. intros H. destruct (negb _); [injection H as <-; quiet_chain|]. apply bind_Done_inv in H as (l & _ & H).
  revert self H. induction l as [|b l IH]; intros self H; simpl in H; [injection H as <-; quiet_chain|].
  apply bind_Done_inv in H as (self1 & H1 & H). eapply quiet_trans; [by eapply quiet_try_approve|by apply IH].
Qed.

Lemma quiet_action now att self self' : check_action d now att self = Done self' → quiet self self'.
Proof.
  unfold check_action. intros H. destruct (negb _); [injection H as <-; quiet_chain|]. destruct (tm_requested_new_block _); [injection H as <-; quiet_chain|].
  apply bind_Done_inv in H as (a & _ & H). destruct a as [a|]; [|injection H as <-; quiet_chain].
  injection H as <-. destruct (is_empty_action a); [quiet_chain|apply quiet_request].
Qed.

Lemma quiet_vote_for now att self self' : check_vote_for_slot d now att self = Done self' → quiet self self'.
Proof.
  unfold check_vote_for_slot. intros H. destruct (negb _); [injection H as <-; quiet_chain|].
  apply bind_Done_inv in H as (b & _ & H). injection H as <-. destruct b; [apply quiet_request|quiet_chain].
Qed.

Lemma quiet_signed_block now round hash sig self : quiet self (signed_block d now round hash sig self).
Proof. unfold signed_block. destruct (negb _); [quiet_chain|]. eapply quiet_trans; [|apply quiet_request]. quiet_chain. Qed.

Lemma quiet_sign now self self' : check_sign_slot d now self = Done self' → quiet self self'.
Proof.
  unfold check_sign_slot. intros H. destruct (negb _); [injection H as <-; quiet_chain|]. destruct (sg_pending_sign _); [injection H as <-; quiet_chain|].
  apply bind_Done_inv in H as (s & _ & H). destruct s; [injection H as <-; quiet_chain|].
  destruct (sg_signed _); [injection H as <-; apply quiet_request|]. apply bind_Done_inv in H as (c & _ & H).
  destruct c as [[block|]|].
  - destruct (ext_sign_block _ _); injection H as <-; [|quiet_chain]. eapply quiet_trans; [|apply quiet_signed_block]. quiet_chain.
  - injection H as <-. eapply quiet_trans; [|apply quiet_request]. quiet_chain.
  - injection H as <-. quiet_chain.
Qed.

Lemma quiet_check_all c self self' : check_all d c self = Done self' → quiet self self'.
Proof.
  unfold check_all. intros H. destruct (negb _); [injection H as <-; quiet_chain|]. destruct (negb _); [injection H as <-; apply quiet_request|].
  apply bind_Done_inv in H as (att & _ & H). apply bind_Done_inv in H as (s1 & H1 & H). apply bind_Done_inv in H as (s2 & H2 & H).
  apply bind_Done_inv in H as (s3 & H3 & H). apply bind_Done_inv in H as (s4 & H4 & H). apply bind_Done_inv in H as (s5 & H5 & H). injection H as <-.
  apply quiet_sign in H1. apply quiet_approve in H2. apply quiet_generate_slot in H3. apply quiet_action in H4. apply quiet_vote_for in H5.
  eapply quiet_trans; [|apply quiet_awake]. eapply quiet_trans; [|apply quiet_awake].
  eapply quiet_trans; [|exact H5]. eapply quiet_trans; [|exact H4]. eapply quiet_trans; [|exact H3]. eapply quiet_trans; [|exact H2].
  eapply quiet_trans; [|exact H1]. destruct (_ <? _); unfold put_round_times; quiet_chain.
Qed.

Lemma quiet_decision_ok now round hash root file validity self : quiet self (candidate_decision_ok d now round hash root file validity self).
Proof.
  unfold candidate_decision_ok, candidate_approved_signed. destruct (negb _); [quiet_chain|]. destruct (ext_sign_approve _ _); [|quiet_chain].
  cbv zeta. destruct (_ <=? _); (eapply quiet_trans; [|apply quiet_request || apply quiet_awake]); unfold put_approved; quiet_chain.
Qed.

Lemma quiet_decision_fail round hash reason self : quiet self (candidate_decision_fail round hash reason self).
Proof. unfold candidate_decision_fail. destruct (negb _); quiet_chain. Qed.

Lemma quiet_broadcast c source data self self' : process_broadcast d c source data self = Done self' → quiet self self'.
Proof.
  unfold process_broadcast. intros H. apply bind_Done_inv in H as (src & _ & H). destruct (ext_parse_candidate data) as [cd|]; [|injection H as <-; quiet_chain].
  destruct (negb _); [injection H as <-; quiet_chain|]. destruct (too_big _ _ _); [injection H as <-; quiet_chain|].
  apply bind_Done_inv in H as (id & _ & H). destruct (_ <? _); [injection H as <-; quiet_chain|].
  destruct (bool_decide _); [injection H as <-; quiet_chain|]. apply bind_Done_inv in H as (p & _ & H).
  destruct (_ <? _)%Z; [injection H as <-; quiet_chain|]. destruct (negb _); [injection H as <-; unfold insert_signed_block_for_round; quiet_chain|].
  do 4 apply bind_Done_inv in H as (? & _ & H). apply bind_Done_inv in H as (l & _ & H). destruct (List.find _ l) as [b|].
  - eapply quiet_trans; [|by eapply quiet_try_approve]. unfold insert_signed_block_for_round. quiet_chain.
  - injection H as <-. unfold insert_signed_block_for_round. quiet_chain.
Qed.

Lemma quiet_downloaded c round id source result self self' : candidate_downloaded d c round id source result self = Done self' → quiet self self'.
Proof.
  unfold candidate_downloaded, put_active. cbv zeta. intros H. destruct result as [data|].
  - apply quiet_broadcast in H. eapply quiet_trans; [|exact H]. destruct (_ =? _); quiet_chain.
  - injection H as <-. destruct (_ =? _); quiet_chain.
Qed.

Lemma quiet_query data self answer self' : process_query d data self = Done (answer, self') → quiet self self'.
Proof.
  unfold process_query. intros H. destruct (ext_parse_query data) as [q|]; [|injection H as <- <-; quiet_chain].
  destruct (_ <? _); [injection H as <- <-; quiet_chain|]. do 2 apply bind_Done_inv in H as (? & _ & H).
  apply bind_Done_inv in H as (found & _ & H). destruct found as [b|]; [|injection H as <- <-; quiet_chain].
  apply bind_Done_inv in H as (src & _ & H). injection H as <- <-. quiet_chain.
Qed.
End slots.
