(* ===== verification/SessionActions.v ===== *)
(** * The session processor: the loop that creates actions

    [action_loop] creates and applies messages of the node until an empty one.  With an
    attempt that is not behind the clock of the node in the state, every message that
    is not empty uses up one of at most three things to do, so the loop ends; when the
    clock is behind, the messages are created for one attempt and applied to another,
    and the loop can go on forever. *)

From S2P Require Import Prelude SessionDescription Vectors Candidates RoundAttempt Round RoundFacts SessionState SessionFacts SessionSafety ReceivedBlock CatchainCore Slashing Actions SessionProcessor SessionChecks SessionBlocks.

Section actions.
Context {X : External}.
Implicit Types (d : SessionDescription) (r : RoundState) (s : SessionState) (a : RoundAttemptState).

(** The messages that are created by the loop. *)
Definition is_default_message (m : Message) : bool :=
  match m with Vote _ _ _ | Precommit _ _ _ | Empty _ _ => true | _ => false end.

Definition attempt_of d r (att : N) : RoundAttemptState := default (RoundAttemptState_create_empty d att) (find_key att (attempt_list r)).

(** A default message: the first attempt is recorded, then the default action of the
    attempt is done. *)
Lemma default_message_round d r (i att : N) m :
  desc_ok d → round_ok d r → is_node d i → 0 < att → is_default_message m = true → precommitted_block r = None →
  ∃ r' r1 fmade a' made, RoundState_apply_action d r i att m = Done r' ∧ round_ok d r' ∧ rs_sequence_number r' = rs_sequence_number r
    ∧ RoundState_update_first_attempt r i att = Done (r1, fmade)
    ∧ RoundAttemptState_apply_default_action d (attempt_of d r att) i att (RoundState_ops r1) = Done (a', made)
    ∧ attempt_of d r' att = a' ∧ first_attempt r' = first_attempt r1 ∧ rs_signatures r' = rs_signatures r.
Proof.
  intros Hd Hr Hi Hatt Hm Hp.
  destruct (round_apply_action_ok d r i att m Hd Hr Hi Hatt) as (r' & E & Hr' & Hseq).
  destruct (update_first_attempt_ok d r i att Hr Hi) as (fa & fmade & Hup & Hr1 & _).
  set (r1 := with_first_attempt r (Some fa)) in *.
  destruct (current_attempt_ok d r1 att Hd Hr1 Hatt) as [Ha Hs].
  destruct (attempt_default_action_ok d r1 (attempt_of d r att) i att Hd Hr1 Ha Hi) as (a' & made & Hda & Ha' & Hsa & _).
  exists r', r1, fmade, a', made. split; [done|]. split; [done|]. split; [done|]. split; [done|]. split; [done|].
  unfold RoundState_apply_action in E. rewrite Hup in E. cbn [mbind outcome_bind fst] in E.
  assert (RoundState_apply_action_on_attempt d r1 i att m = Done r') as E1 by by destruct m. clear E.
  unfold RoundState_apply_action_on_attempt in E1. change (precommitted_block r1) with (precommitted_block r) in E1. rewrite Hp in E1.
  simpl (bool_decide _) in E1. cbv iota in E1. rewrite (round_get_attempt d) in E1 by done. run in E1.
  change (default (RoundAttemptState_create_empty d att) (find_key att (attempt_list r1))) with (attempt_of d r att) in E1.
  apply bind_Done_inv in E1 as (v & _ & E1).
  assert (RoundAttemptState_apply_action d (attempt_of d r att) i att m (RoundState_ops r1) = Done a') as Hap.
  { destruct m; try done; simpl; by rewrite Hda. }
  rewrite Hap in E1. run in E1.
  apply bind_Done_inv in E1 as (v1 & _ & E1). apply bind_Done_inv in E1 as (v2 & _ & E1). apply bind_Done_inv in E1 as (v3 & _ & E1).
  apply bind_Done_inv in E1 as ([ap lp] & _ & E1). apply bind_Done_inv in E1 as (v4 & _ & E1). apply bind_Done_inv in E1 as (v5 & _ & E1).
  apply bind_Done_inv in E1 as (v6 & _ & E1). rewrite (push_attempt_done d) in E1 by done. run in E1. injection E1 as <-.
  unfold attempt_of, attempt_list. simpl. rewrite find_key_sorted_insert by apply (rok_att_sorted _ _ Hr1). simpl.
  fold (attempt_of d r att) in Hs. change (ra_sequence_number (attempt_of d r att) = att) in Hs. by rewrite Hsa, Hs, N.eqb_refl.
Qed.

(** What is left to do of the node at an attempt goes down with every message that is
    not empty. *)
Lemma created_message_round d r (i att : N) :
  desc_ok d → round_ok d r → is_node d i → 0 < att → rs_sequence_number r < two32 →
  ∃ m, RoundState_create_action d r i att = Done (Some m) ∧ is_default_message m = true ∧ get_round_id m = rs_sequence_number r
    ∧ ∀ r', RoundState_apply_action d r i att m = Done r' →
        rs_signatures r' = rs_signatures r
        ∧ (is_empty_action m = false → (round_todo d r' i att < round_todo d r i att)%nat).
Proof.
  intros Hd Hr Hi Hatt Hseq. destruct (precommitted_block r) as [b|] eqn:Hp.
  { unfold RoundState_create_action. rewrite Hp. eexists. split; [done|]. split; [done|]. split; [by apply u32_i32_roundtrip|].
    intros r' E. split; [|done]. unfold RoundState_apply_action in E. apply bind_Done_inv in E as ([r1 fm] & E1 & E). simpl in E.
    destruct (update_first_attempt_ok d r i att Hr Hi) as (fa & fmade & Hup & _). rewrite Hup in E1. injection E1 as <- <-.
    unfold RoundState_apply_action_on_attempt in E. simpl in E. rewrite Hp in E. simpl in E. by injection E as <-. }
  destruct (round_create_action_ok d r i att Hd Hr Hi Hatt Hp) as (choice & Hc & Hact). cbv zeta in Hc, Hact. fold (attempt_of d r att) in Hc, Hact.
  set (m := announced d _ _ _ _ _) in Hact. exists m.
  assert (is_default_message m = true ∧ get_round_id m = rs_sequence_number r) as [Hm Hid].
  { unfold m, announced. repeat case_match; (split; [done|]); by apply u32_i32_roundtrip. }
  split; [done|]. split; [done|]. split; [done|]. intros r' E.
  destruct (default_message_round d r i att m Hd Hr Hi Hatt Hm Hp) as (r'' & r1 & fmade & a' & made & E' & Hr' & _ & Hup & Hda & Ha' & Hfa & Hsig).
  rewrite E in E'. injection E' as <-. split; [done|]. intros Hne. unfold round_todo. fold (attempt_of d r' att) (attempt_of d r att). rewrite Ha'.
  destruct (update_first_attempt_todo d r i att _ _ Hr Hi Hatt Hup) as (F0 & F1 & _).
  assert (first_todo r' i att = 0%nat) as -> by (unfold first_todo in *; by rewrite Hfa).
  destruct (update_first_attempt_ok d r i att Hr Hi) as (fa & fmade' & Hup' & Hr1 & _ & Hsame). rewrite Hup in Hup'. injection Hup' as -> ->.
  destruct (current_attempt_ok d _ att Hd Hr1 Hatt) as [Ha _].
  destruct (round_choice_ok d _ (attempt_of d r att) i att Hd Hr1 Ha Hi) as (o & Ho & _).
  assert (made = true → (attempt_todo a' (N.to_nat i) < attempt_todo (attempt_of d r att) (N.to_nat i))%nat) as Lt.
  { intros ->. eapply apply_default_action_todo; [done|exact Ha|done|exact Ho|exact Hda]. }
  assert (made = false → a' = attempt_of d r att) as Eq.
  { intros ->. destruct (attempt_default_action_ok d _ (attempt_of d r att) i att Hd Hr1 Ha Hi) as (x & y & Hx & _ & _ & _ & Hy).
    rewrite Hda in Hx. injection Hx as <- <-. by apply Hy. }
  destruct fmade'.
  - rewrite (F1 eq_refl). destruct made; [specialize (Lt eq_refl); lia|rewrite (Eq eq_refl); lia].
  - rewrite (Hsame eq_refl) in *. destruct made; [specialize (Lt eq_refl); lia|]. exfalso.
    pose proof (default_action_cases d (sent_id r) (attempt_of d r att) i att _ choice Hd Ha Hi Hc) as Hx. rewrite Hda in Hx.
    revert Hx Hne. unfold m, announced.
    repeat case_match; done.
Qed.

(** The attempt is not behind the clock that the state has for the node. *)
Definition in_time s (i att : N) : Prop := ∃ cur, attempt_ids s !! N.to_nat i = Some cur ∧ cur ≤ att ∧ MIN_ATTEMPT_ID ≤ att.

Lemma clamp_in_time cur att : cur ≤ att → MIN_ATTEMPT_ID ≤ att → clamp_attempt_id cur att = att.
Proof.
  intros H1 H2. unfold clamp_attempt_id. rewrite (proj2 (N.ltb_ge att cur)) by lia. by rewrite (proj2 (N.ltb_ge att MIN_ATTEMPT_ID)) by lia.
Qed.

Definition state_todo d s (i att : N) : nat := round_todo d (current_round s) i att.

Lemma state_todo_bound d s (i att : N) : (state_todo d s i att ≤ 3)%nat.
Proof. unfold state_todo, round_todo, first_todo, attempt_todo. repeat (case_match; try lia). Qed.

(** The created message applied to the state: the round is not closed. *)
Lemma created_message_state d s (i att : N) :
  desc_ok d → session_ok d s → is_node d i → round_room s → in_time s i att →
  ∃ m s', SessionState_create_action d s i att = Done (Some m) ∧ SessionState_apply_action d s i att m = Done s'
    ∧ session_ok d s' ∧ round_room s' ∧ in_time s' i att ∧ old_rounds s' = old_rounds s
    ∧ (is_empty_action m = false → (state_todo d s' i att < state_todo d s i att)%nat).
Proof.
  intros Hd Hs Hi Hroom (cur & Hcur & Hle & Hmin). unfold round_room in *.
  assert (0 < att) as Hatt by (unfold MIN_ATTEMPT_ID in Hmin; lia).
  pose proof (sok_round _ _ Hs) as Hr.
  destruct (created_message_round d (current_round s) i att Hd Hr Hi Hatt) as (m & Hc & Hm & Hid & Hap); [lia|].
  destruct (round_apply_action_ok d (current_round s) i att m Hd Hr Hi Hatt) as (r' & Hr' & Hok' & Hseq).
  destruct (Hap r' Hr') as [Hsig Htodo]. exists m.
  set (s' := {| attempt_ids := <[N.to_nat i := att]> (attempt_ids s); current_round := r'; old_rounds := old_rounds s |}).
  exists s'. split; [done|]. split; [|split; [|split; [|split; [|split]]]].
  - unfold SessionState_apply_action. rewrite Vector_at_index, (index_Some _ _ _ Hcur). run. rewrite clamp_in_time by done.
    rewrite Vector_change_lt by (by eapply lookup_lt_Some). run. rewrite Hid, N.ltb_irrefl, N.eqb_refl, Hr'. run.
    rewrite check_block_is_signed_ok by (done || apply (rok_sigs _ _ Hok')). run. rewrite Hsig. fold (sig_flags (rs_signatures (current_round s))).
    rewrite (proj2 (N.leb_gt _ _) (sok_unsigned _ _ Hs)). done.
  - destruct Hs. split; simpl; try done; [by rewrite length_insert|by rewrite Hsig|by rewrite Hseq].
  - simpl. by rewrite Hseq.
  - exists att. split; [|done]. simpl. apply list_lookup_insert_eq. by eapply lookup_lt_Some.
  - done.
  - done.
Qed.

Context {E : SessionExternal}.

(** Applying a list of messages to a state, without the processor. *)
Fixpoint apply_all d (i att : N) (ms : list Message) s : outcome SessionState :=
  match ms with [] => Done s | m :: ms => s ← SessionState_apply_action d s i att m; apply_all d i att ms s end.

Lemma apply_all_app d i att ms1 ms2 s : apply_all d i att (ms1 ++ ms2) s = (apply_all d i att ms1 s ≫= apply_all d i att ms2).
Proof. revert s. induction ms1 as [|m ms1 IH]; intros s; simpl; [done|]. destruct (SessionState_apply_action d s i att m); simpl; [apply IH|done]. Qed.

(** Calls are only added to the log. *)
Definition logged (self self' : SessionProcessor) : Prop := ∃ calls, self' = put_states
  {| st_block_to_state_map := st_block_to_state_map (sp_states self); st_real_state := real_state self; st_virtual_state := virtual_state self;
     st_calls := st_calls (sp_states self) ++ calls |} self.

Lemma logged_refl (self : SessionProcessor) : logged self self.
Proof. exists []. rewrite app_nil_r. by destruct self as [? []]. Qed.
Lemma logged_call (self : SessionProcessor) call self' : logged (log_call call self) self' → logged self self'.
Proof. intros [calls ->]. exists (call :: calls). unfold log_call, put_states. simpl. by rewrite <- app_assoc. Qed.

(** The loop ends: the fuel need only exceed what is left to do. *)
Lemma action_loop_ends d fuel s (att : N) messages (self : SessionProcessor) :
  desc_ok d → session_ok d s → is_node d (self_idx d) → round_room s → in_time s (self_idx d) att → (state_todo d s (self_idx d) att < fuel)%nat →
  ∃ s' ms self', action_loop d fuel s att messages self = Some (Done (s', messages ++ ms, self')) ∧ logged self self'
    ∧ apply_all d (self_idx d) att ms s = Done s' ∧ session_ok d s' ∧ round_room s' ∧ old_rounds s' = old_rounds s
    ∧ ∃ m0 (n k : Z), ms = m0 ++ [Empty n k] ∧ forallb (λ m, negb (is_empty_action m)) m0 = true ∧ (length ms ≤ S (state_todo d s (self_idx d) att))%nat.
Proof.
  intros Hd. revert s messages self. induction fuel as [|fuel IH]; intros s messages self Hs Hi Hroom Ht Hf; [lia|].
  destruct (created_message_state d s (self_idx d) att Hd Hs Hi Hroom Ht) as (m & s1 & Hc & Ha & Hs1 & Hroom1 & Ht1 & Hold & Hlt).
  cbn [action_loop]. unfold get_local_idx, apply_state_action. rewrite Hc, Ha. run. destruct (is_empty_action m) eqn:Em.
  - exists s1, [m], (log_call (ActionCall s s1) self). split; [done|]. split; [eapply logged_call, logged_refl|]. simpl. rewrite Ha. run.
    split; [done|]. split; [done|]. split; [done|]. split; [done|]. destruct m; try done. exists []. eexists _, _. split; [done|]. split; [done|]. simpl. lia.
  - specialize (Hlt eq_refl).
    destruct (IH s1 (messages ++ [m]) (log_call (ActionCall s s1) self) Hs1 Hi Hroom1 Ht1) as (s' & ms & self' & Hl & Hlog & Hap & Hs' & Hr' & Ho' & m0 & n & k & -> & Hne & Hlen); [lia|].
    exists s', (m :: m0 ++ [Empty n k]), self'. rewrite Hl, <- app_assoc. split; [done|]. split; [by eapply logged_call|]. simpl. rewrite Ha. run.
    split; [done|]. split; [done|]. split; [done|]. split; [congruence|]. exists (m :: m0), n, k. split; [done|]. simpl. rewrite Em. split; [done|].
    simpl in *. lia.
Qed.

(** A message that is not empty and does not change the state is created forever. *)
Lemma action_loop_forever d s (att : N) m :
  SessionState_create_action d s (self_idx d) att = Done (Some m) → is_empty_action m = false →
  SessionState_apply_action d s (self_idx d) att m = Done s → ∀ fuel messages (self : SessionProcessor), action_loop d fuel s att messages self = None.
Proof.
  intros Hc Hm Ha fuel. induction fuel as [|fuel IH]; intros messages self; [done|].
  cbn [action_loop]. unfold get_local_idx, apply_state_action. rewrite Hc, Ha. run. rewrite Hm. apply IH.
Qed.
End actions.
