(* ===== verification/SessionRun.v ===== *)
(** * The session processor: runs

    The requests of the catchain, the listener and the network as steps; the invariant
    of the processor: its states satisfy the invariant of the session, the round is that
    of its real state, the reports to the listener are the finished rounds of that state
    in order, and its commits are for the decided blocks. *)

From S2P Require Import Prelude SessionDescription Vectors Candidates RoundAttempt Round RoundFacts SessionState SessionFacts SessionSafety ReceivedBlock CatchainCore Slashing Actions SessionProcessor SessionChecks SessionBlocks SessionFrames SessionActions.

Section run.
Context {X : External} {E : SessionExternal} (d : SessionDescription) (Hd : desc_ok d).
Implicit Types (self : SessionProcessor) (s l r m : SessionState) (c : Clock) (block : CatchainBlock).

(** ** Requests *)
Inductive SessionRequest :=
| ReqPreprocess (c : Clock) (block : CatchainBlock)
| ReqProcess (c : Clock) (blocks : list CatchainBlock)
| ReqFinished (c : Clock)
| ReqStarted (c : Clock)
| ReqAwake (c : Clock)
| ReqGenerated (now round root_hash : N) (data collated_data : list N)
| ReqDecisionOk (now round hash root_hash file_hash validity_start_time : N)
| ReqDecisionFail (round hash : N) (reason : list N)
| ReqBroadcast (c : Clock) (source_id : N) (data : list N)
| ReqDownloaded (c : Clock) (round block_id source_id : N) (result : option (list N))
| ReqQuery (data : list N).

Definition serve (fuel : nat) self (req : SessionRequest) : option (outcome SessionProcessor) :=
  match req with
  | ReqPreprocess c block => Some (preprocess_block d c block self)
  | ReqProcess c blocks => process_blocks d fuel c blocks self
  | ReqFinished c => Some (finished_catchain_processing d c self)
  | ReqStarted c => Some (on_catchain_started d c self)
  | ReqAwake c => Some (check_all d c self)
  | ReqGenerated now round root data collated => Some (generated_block d now round root data collated self)
  | ReqDecisionOk now round hash root file time => Some (Done (candidate_decision_ok d now round hash root file time self))
  | ReqDecisionFail round hash reason => Some (Done (candidate_decision_fail round hash reason self))
  | ReqBroadcast c source data => Some (process_broadcast d c source data self)
  | ReqDownloaded c round id source result => Some (candidate_downloaded d c round id source result self)
  | ReqQuery data => Some (snd <$> process_query d data self)
  end.

(** What the catchain and the listener promise.  Blocks come from members of the
    session; before the start this node's own blocks come one after the other; blocks
    are asked for after the start; the listener decides about candidates it was given. *)
Definition own_block self block : bool := (cb_source_id block mod two32 =? self_idx d) && negb (sp_catchain_started self).

Definition allowed self (req : SessionRequest) : Prop :=
  match req with
  | ReqPreprocess _ block =>
      is_node d (cb_source_id block mod two32) ∧
      (own_block self block = true →
       match cb_prev block with
       | Some prev => find_state_of self prev = Some (real_state self)
       | None => real_state self = SessionState_create_empty d
       end)
  | ReqProcess _ _ => sp_catchain_started self = true
  | ReqDecisionOk _ round hash _ _ _ | ReqDecisionFail round hash _ =>
      ∃ source root data collated file, NotifyCandidate round source root data collated hash file ∈ sp_events self
  | _ => True
  end.

(** ** States that are made *)
Definition good s : Prop := session_ok d s ∧ session_certs d s ∧ round_room s.
Definition advances s s' : Prop := decisions_kept s s' ∧ history_grows (old_list s) (old_list s').

Definition call_ok (call : StateCall) : Prop :=
  match call with
  | MergeCall l r m => decisions_agree l r ∧ round_room l ∧ round_room r ∧ round_room m
  | ActionCall s s' => round_room s ∧ round_room s'
  end.
Definition calm self : Prop := Forall call_ok (st_calls (sp_states self)).

Lemma advances_refl s : advances s s.
Proof. split; [intros k b H; exact H|apply history_grows_refl]. Qed.
Lemma advances_trans s1 s2 s3 : advances s1 s2 → advances s2 s3 → advances s1 s3.
Proof. intros [A1 A2] [B1 B2]. split; [intros k b H; by apply B1, A1|by eapply history_grows_trans]. Qed.

Lemma good_merge l r m : good l → good r → call_ok (MergeCall l r m) → merge d l r = Done m → good m ∧ advances l m.
Proof using Hd.
  intros (Hl & Cl & _) (Hr & Cr & _) (Ha & Bl & Br & Bm) H.
  destruct (session_merge_ok d l r Hd Hl Hr (decisions_agree_precommits d l r Hl Hr Ha) Bl Br) as (m' & Hm & Hok & Hg & _).
  rewrite H in Hm. injection Hm as <-. split.
  - split; [done|]. split; [by eapply (session_merge_certs d l r)|done].
  - split; [exact (merge_decided d l r m Hd Hl Hr Ha Bl Br H)|done].
Qed.

Lemma good_action s (i att : N) msg s' : good s → is_node d i → call_ok (ActionCall s s') → SessionState_apply_action d s i att msg = Done s' → good s' ∧ advances s s'.
Proof using Hd.
  intros (Hs & Cs & _) Hi (B & B') H. destruct (session_apply_action_ok d s i att msg Hd Hs Hi B) as (s1 & H1 & Hok & Hg & _).
  rewrite H in H1. injection H1 as <-. split.
  - split; [done|]. split; [exact (session_apply_action_certs d s i att msg s' Hs Cs Hi H)|done].
  - split; [exact (apply_action_decided d s i att msg s' Hd Hs Hi B H)|done].
Qed.

Lemma good_make_all s (i att : N) s' : good s → is_node d i → make_all_state d s i att = Done s' → good s' ∧ old_rounds s' = old_rounds s.
Proof using Hd.
  intros (Hs & Cs & B) Hi H. unfold make_all_state in H. pose proof (session_todo_bound d s i att).
  destruct (session_make_all_ok 5 d s i att Hd Hs Hi) as (s1 & H1 & Hok & Ho & Hseq & _); [lia|]. rewrite H1 in H. injection H as ->.
  split; [|done]. split; [done|]. split; [exact (session_make_all_certs d 5 s i att s' Hd Hs Cs Hi H1)|]. unfold round_room in *. lia.
Qed.

(** ** Calls made on the way *)
Lemma calm_logged self self' : logged self self' → calm self' → calm self.
Proof. intros [calls ->]. unfold calm. simpl. intros H. by apply Forall_app in H as [? _]. Qed.

Lemma logged_trans self1 self2 self3 : logged self1 self2 → logged self2 self3 → logged self1 self3.
Proof. intros [c1 ->] [c2 ->]. exists (c1 ++ c2). unfold put_states, real_state, virtual_state. simpl. by rewrite app_assoc. Qed.

Lemma logged_fields self self' : logged self self' →
  st_block_to_state_map (sp_states self') = st_block_to_state_map (sp_states self) ∧ real_state self' = real_state self ∧ virtual_state self' = virtual_state self
  ∧ sp_catchain_started self' = sp_catchain_started self ∧ sp_current_round self' = sp_current_round self ∧ sp_events self' = sp_events self.
Proof. by intros [calls ->]. Qed.

Definition map_good self : Prop := ∀ i s, st_block_to_state_map (sp_states self) !! i = Some (Some s) → good s.

Lemma get_state_good self block s : map_good self → get_state self block = Done s → good s.
Proof.
  intros M H. unfold get_state, find_state_of in H. destruct (_ !! _) as [[s0|]|] eqn:Hx; simpl in H; try done. injection H as <-. by eapply M.
Qed.

Lemma merge_states_spec l r m self self' : merge_states d l r self = Done (m, self') → logged self self' ∧ (calm self' → good l → good r → good m ∧ advances l m).
Proof using Hd.
  unfold merge_states. intros H. apply bind_Done_inv in H as (m' & Hm & H). injection H as <- <-. split; [eapply logged_call, logged_refl|].
  intros C Hl Hr. apply (good_merge l r); [done|done| |done]. unfold calm in C. simpl in C. apply Forall_app in C as [_ C]. by apply Forall_inv in C.
Qed.

Lemma merge_deps_spec deps s self s' self' : merge_deps d s deps self = Done (s', self') →
  logged self self' ∧ (calm self' → map_good self → good s → good s' ∧ advances s s').
Proof using Hd.
  revert s self. induction deps as [|dep deps IH]; intros s self H; simpl in H.
  { injection H as <- <-. split; [apply logged_refl|]. intros _ _ G. split; [done|apply advances_refl]. }
  apply bind_Done_inv in H as (ds & Hds & H). apply bind_Done_inv in H as ([s1 self1] & H1 & H).
  destruct (merge_states_spec _ _ _ _ _ H1) as [L1 G1]. destruct (IH _ _ H) as [L2 G2]. split; [by eapply logged_trans|].
  intros C M G. pose proof (calm_logged _ _ L2 C) as C1. destruct (G1 C1 G (get_state_good _ _ _ M Hds)) as [Gs1 Gr1].
  destruct (G2 C) as [Gs' Gr2]; [|done|].
  - intros i x Hx. apply (M i). by destruct (logged_fields _ _ L1) as (<- & _).
  - split; [done|by eapply advances_trans].
Qed.

Lemma apply_actions_spec ms s (i att : N) self s' self' : apply_actions d s i att ms self = Done (s', self') →
  logged self self' ∧ apply_all d i att ms s = Done s' ∧ (calm self' → is_node d i → good s → good s' ∧ advances s s').
Proof using Hd.
  revert s self. induction ms as [|msg ms IH]; intros s self H; simpl in H.
  { injection H as <- <-. split; [apply logged_refl|]. split; [done|]. intros _ _ G. split; [done|apply advances_refl]. }
  apply bind_Done_inv in H as ([s1 self1] & H1 & H). unfold apply_state_action in H1. apply bind_Done_inv in H1 as (s1' & H1 & Heq). injection Heq as <- <-.
  destruct (IH _ _ H) as (L2 & A2 & G2). split; [by eapply logged_call|]. split; [simpl; by rewrite H1|].
  intros C Hi G. pose proof (calm_logged _ _ L2 C) as C1. unfold calm in C1. simpl in C1. apply Forall_app in C1 as [_ C1]. apply Forall_inv in C1.
  destruct (good_action s i att msg s1' G Hi C1 H1) as [Gs1 Gr1]. destruct (G2 C Hi Gs1) as [? ?]. split; [done|by eapply advances_trans].
Qed.
End run.
