(* ===== verification/SessionReports.v ===== *)
(** * The session processor: reports and commits

    The reports to the listener are the finished rounds of the real state, in order and
    once each, and the commits in the blocks of this node are for the blocks its real
    state has decided.  [moved] relates processors with the same blocks, round and
    reports: all that is done between two changes of the round. *)

From S2P Require Import Prelude SessionDescription Vectors Candidates RoundAttempt Round RoundFacts SessionState SessionFacts SessionSafety ReceivedBlock CatchainCore Slashing Actions SessionProcessor SessionChecks SessionBlocks SessionFrames SessionActions SessionRun.

Section events.
Context {X : External}.
Implicit Types (e : SessionEvent) (es : list SessionEvent).

(** The round that a report is about, with the hashes of the committed block. *)
Definition reported e : option (N * option (N * N)) :=
  match e with
  | NotifyBlockCommitted round _ root file _ _ _ => Some (round, Some (root, file))
  | NotifyBlockSkipped round => Some (round, None)
  | _ => None
  end.
Definition reports es : list (N * option (N * N)) := omap reported es.

Definition processed e : option BlockUpdate := match e with ProcessedBlock u => Some u | _ => None end.
Definition own_updates es : list BlockUpdate := omap processed es.

Definition finished_round (k : nat) (o : OldRoundState) : N * option (N * N) :=
  (N.of_nat k, (λ b, (sb_root_hash b, sb_file_hash b)) <$> or_block o).
Definition finished (s : SessionState) : list (N * option (N * N)) := imap finished_round (old_list s).

Lemma reports_app es1 es2 : reports (es1 ++ es2) = reports es1 ++ reports es2.
Proof. apply omap_app. Qed.
Lemma own_updates_app es1 es2 : own_updates (es1 ++ es2) = own_updates es1 ++ own_updates es2.
Proof. apply omap_app. Qed.

Lemma asks_silent es : forallb asks es = true → reports es = [] ∧ own_updates es = [].
Proof.
  induction es as [|e es IH]; simpl; [done|]. intros H. apply andb_true_iff in H as [He H]. destruct (IH H) as [Hr Hu]. by destruct e.
Qed.

Lemma finished_length s : length (finished s) = length (old_list s).
Proof. apply length_imap. Qed.

Lemma finished_grows s s' : history_grows (old_list s) (old_list s') →
  (length (old_list s) ≤ length (old_list s'))%nat ∧ take (length (old_list s)) (finished s') = finished s.
Proof.
  intros H. assert (length (old_list s) ≤ length (old_list s'))%nat as Hl.
  { destruct (old_list s) as [|x l] eqn:El using rev_ind; [simpl; lia|]. clear IHl.
    destruct (H (length l) x) as (o & Ho & _); [by rewrite list_lookup_middle|]. apply lookup_lt_Some in Ho. rewrite length_app. simpl. lia. }
  split; [done|]. apply list_eq. intros k. destruct (decide (k < length (old_list s))%nat) as [Hk|Hk].
  - rewrite lookup_take_lt by done. unfold finished. rewrite !list_lookup_imap.
    destruct (lookup_lt_is_Some_2 _ _ Hk) as [o Ho]. destruct (H k o Ho) as (o' & Ho' & G). rewrite Ho, Ho'. simpl. unfold finished_round. by rewrite (grows_block _ _ G).
  - rewrite lookup_take_ge by lia. symmetry. apply lookup_ge_None_2. rewrite finished_length. lia.
Qed.
End events.

Section moved.
Context {X : External} {E : SessionExternal} (d : SessionDescription) (Hd : desc_ok d) (Hi : is_node d (self_idx d)).
Implicit Types (self : SessionProcessor) (s : SessionState) (c : Clock) (block : CatchainBlock).

Record moved self self' : Prop := {
  mv_started : sp_catchain_started self' = sp_catchain_started self;
  mv_map : st_block_to_state_map (sp_states self') = st_block_to_state_map (sp_states self);
  mv_virtual : virtual_state self' = virtual_state self;
  mv_round : sp_current_round self' = sp_current_round self;
  mv_calls : ∃ calls, st_calls (sp_states self') = st_calls (sp_states self) ++ calls;
  mv_reports : reports (sp_events self') = reports (sp_events self);
  mv_updates : own_updates (sp_events self') = own_updates (sp_events self);
}.

Lemma moved_refl self : moved self self.
Proof. split; try done. exists []. by rewrite app_nil_r. Qed.

Lemma moved_trans self1 self2 self3 : moved self1 self2 → moved self2 self3 → moved self1 self3.
Proof.
  intros [A1 A2 A3 A4 [c1 A5] A6 A7] [B1 B2 B3 B4 [c2 B5] B6 B7]. split; try congruence. exists (c1 ++ c2). by rewrite B5, A5, app_assoc.
Qed.

Lemma quiet_moved self self' : quiet self self' → moved self self' ∧ real_state self' = real_state self.
Proof.
  intros [A1 A2 A3 A4 (es & A5 & A6)]. destruct (asks_silent es A6) as [Hr Hu]. split; [|unfold real_state; by rewrite A2].
  split; unfold virtual_state; rewrite ?A2, ?A5, ?reports_app, ?own_updates_app, ?Hr, ?Hu, ?app_nil_r; try done. exists []. by rewrite app_nil_r.
Qed.

Lemma logged_moved self self' : logged self self' → moved self self' ∧ real_state self' = real_state self.
Proof. intros [calls ->]. split; [|done]. split; try done. by exists calls. Qed.

Lemma moved_put_real s self : moved self (put_real s self).
Proof. split; try done. exists []. simpl. by rewrite app_nil_r. Qed.

Lemma calm_calls self self' : (∃ calls, st_calls (sp_states self') = st_calls (sp_states self) ++ calls) → calm self' → calm self.
Proof. intros [calls Hc]. unfold calm. rewrite Hc. intros H. by apply Forall_app in H as [? _]. Qed.

Lemma moved_map_good self self' : moved self self' → map_good d self → map_good d self'.
Proof. intros M G i s. rewrite (mv_map _ _ M). apply G. Qed.

(** ** Merging blocks into the real state *)
Lemma merge_blocks_spec blocks self self' : merge_blocks d blocks self = Done self' →
  moved self self' ∧ (calm self' → map_good d self → good d (real_state self) → good d (real_state self') ∧ advances (real_state self) (real_state self')).
Proof using Hd.
  revert self. induction blocks as [|b blocks IH]; intros self H; simpl in H.
  { injection H as <-. split; [apply moved_refl|]. intros _ _ G. split; [done|apply advances_refl]. }
  apply bind_Done_inv in H as (bs & Hb & H). apply bind_Done_inv in H as ([s1 self1] & H1 & H).
  destruct (merge_states_spec d Hd _ _ _ _ _ H1) as [L1 G1]. destruct (logged_moved _ _ L1) as [M1 R1]. destruct (IH _ H) as [M2 G2].
  assert (moved self (put_real s1 self1)) as M by (eapply moved_trans; [exact M1|apply moved_put_real]).
  split; [by eapply moved_trans|]. intros C Mg G. pose proof (calm_calls _ _ (mv_calls _ _ M2) C) as C1.
  destruct (G1 C1 G (get_state_good _ _ _ _ Mg Hb)) as [Gs Gr]. destruct (G2 C) as [Gs' Gr']; [by eapply moved_map_good|done|].
  split; [done|by eapply advances_trans].
Qed.

(** ** Changing the round *)
Definition reports_ok self : Prop :=
  (N.to_nat (sp_current_round self) ≤ length (old_list (real_state self)))%nat
  ∧ reports (sp_events self) = take (N.to_nat (sp_current_round self)) (finished (real_state self)).

(** The round ends: what is the same, and that calls are unchanged. *)
Record rounded self self' : Prop := {
  rd_started : sp_catchain_started self' = sp_catchain_started self;
  rd_states : sp_states self' = sp_states self;
  rd_updates : own_updates (sp_events self') = own_updates (sp_events self);
}.

Lemma rounded_trans self1 self2 self3 : rounded self1 self2 → rounded self2 self3 → rounded self1 self3.
Proof. intros [] []. split; congruence. Qed.

Lemma quiet_rounded self self' : quiet self self' → rounded self self' ∧ sp_current_round self' = sp_current_round self ∧ reports (sp_events self') = reports (sp_events self).
Proof. intros Q. destruct (quiet_moved _ _ Q) as [M _]. split; [|split; apply M]. split; [apply Q|apply Q|apply M]. Qed.

(** One turn: the report of the round and of the statistics. *)
Lemma finish_round_event self self' : finish_round d self = Done self' → ∃ e (signed : SentBlockPtr) stat,
  SessionState_get_committed_block (real_state self) (sp_current_round self) = Done (Some signed)
  ∧ reported e = Some (sp_current_round self, (λ b, (sb_root_hash b, sb_file_hash b)) <$> signed) ∧ processed e = None
  ∧ self' = put_round (u32_add (sp_current_round self) 1) (delete (sp_current_round self) (sp_blocks self)) stat
      (post (NotifySlashing (sp_current_round self) stat) (post e self)).
Proof.
  unfold finish_round. intros H. apply bind_Done_inv in H as (o & Ho & H).
  do 6 apply bind_Done_inv in H as (? & _ & H). apply bind_Done_inv in H as (signed & Hb & H).
  destruct o as [o|]; simpl in Hb; [injection Hb as ->|done].
  apply bind_Done_inv in H as (self1 & H1 & H). apply bind_Done_inv in H as (stat & _ & H). injection H as <-.
  unfold report_round in H1. destruct signed as [b|].
  - apply bind_Done_inv in H1 as (src & _ & H1). injection H1 as <-. eexists _, _, _. split; [exact Ho|]. split; [|split; [|reflexivity]]; done.
  - injection H1 as <-. eexists _, _, _. split; [exact Ho|]. split; [|split; [|reflexivity]]; done.
Qed.

Lemma finish_round_frame self self' : finish_round d self = Done self' → rounded self self'.
Proof.
  intros H. destruct (finish_round_event _ _ H) as (e & signed & stat & _ & _ & Hp & ->). split; try done. cbn [sp_events put_round post].
  rewrite !own_updates_app. unfold own_updates. cbn [omap list_omap processed]. by rewrite Hp, !app_nil_r.
Qed.

Lemma finish_rounds_frame n self self' : finish_rounds d n self = Done self' → rounded self self'.
Proof.
  revert self. induction n as [|n IH]; intros self H; simpl in H; [by injection H as <-|].
  apply bind_Done_inv in H as (self1 & H1 & H). eapply rounded_trans; [by eapply finish_round_frame|by apply IH].
Qed.

Lemma reset_quiet round self self1 :
  (if round =? 0 then Done self else _ ← assert_that (sp_current_round self <? round); Done (reset_round self)) = Done self1 → quiet self self1.
Proof.
  destruct (round =? 0); intros H1; [injection H1 as <-; apply quiet_refl|]. apply bind_Done_inv in H1 as (u & _ & H1). injection H1 as <-. unfold reset_round. quiet_chain.
Qed.

Lemma started_round_quiet c self self' : check_all d c (put_round_times (clk_now c) (clk_now c + ROUND_DEBUG_PERIOD) self) = Done self' → quiet self self'.
Proof. intros H. eapply quiet_trans; [|eapply quiet_check_all; exact H]. unfold put_round_times. quiet_chain. Qed.

Lemma new_round_frame c round self self' : new_round d c round self = Done self' → rounded self self'.
Proof.
  unfold new_round. intros H. apply bind_Done_inv in H as (self1 & H1 & H). apply bind_Done_inv in H as (self2 & H2 & H).
  apply reset_quiet, quiet_rounded in H1 as [R1 _]. apply finish_rounds_frame in H2. apply started_round_quiet, quiet_rounded in H as [R3 _].
  eapply rounded_trans; [exact R1|by eapply rounded_trans].
Qed.

Lemma finish_round_reports self self' : round_room (real_state self) → session_ok d (real_state self) → finish_round d self = Done self' →
  (N.to_nat (sp_current_round self) < length (old_list (real_state self)))%nat → reports_ok self →
  reports_ok self' ∧ sp_current_round self' = sp_current_round self + 1.
Proof.
  intros Hroom Hs H Hlt [Hle Hrep]. destruct (lookup_lt_is_Some_2 _ _ Hlt) as [o Ho].
  destruct (finish_round_event _ _ H) as (e & signed & stat & Hblock & He & _ & ->).
  pose proof (get_committed_block_old (real_state self) _ o Ho) as Hg. rewrite N2Nat.id, Hblock in Hg. injection Hg as ->.
  assert (u32_add (sp_current_round self) 1 = sp_current_round self + 1) as Hadd.
  { unfold u32_add. apply N.mod_small. unfold round_room in Hroom. rewrite (sok_count _ _ Hs) in Hroom. lia. }
  split; [|exact Hadd]. split; cbn [sp_current_round sp_events put_round post]; change (real_state (put_round _ _ _ _)) with (real_state self); rewrite Hadd; [lia|].
  rewrite !reports_app. unfold reports at 2 3. cbn [omap list_omap]. rewrite He. simpl. rewrite app_nil_r, Hrep.
  replace (N.to_nat (sp_current_round self + 1)) with (S (N.to_nat (sp_current_round self))) by lia.
  rewrite (take_S_r _ _ (finished_round (N.to_nat (sp_current_round self)) o)); [unfold finished_round; by rewrite N2Nat.id|].
  unfold finished. by rewrite list_lookup_imap, Ho.
Qed.

Lemma rounded_real self self' : rounded self self' → real_state self' = real_state self.
Proof. intros R. unfold real_state. by rewrite (rd_states _ _ R). Qed.

Lemma finish_rounds_reports n self self' : round_room (real_state self) → session_ok d (real_state self) → finish_rounds d n self = Done self' →
  (N.to_nat (sp_current_round self) + n ≤ length (old_list (real_state self)))%nat → reports_ok self →
  reports_ok self' ∧ sp_current_round self' = sp_current_round self + N.of_nat n.
Proof.
  revert self. induction n as [|n IH]; intros self Hroom Hs H Hle Hr; simpl in H; [injection H as <-; split; [done|lia]|].
  apply bind_Done_inv in H as (self1 & H1 & H). destruct (finish_round_reports _ _ Hroom Hs H1) as (Hr1 & Hc1); [lia|done|].
  rewrite <- (rounded_real _ _ (finish_round_frame _ _ H1)) in Hroom, Hs, Hle. destruct (IH self1 Hroom Hs H) as (Hr2 & Hc2); [lia|done|].
  split; [done|lia].
Qed.

Lemma quiet_reports_ok self self' : quiet self self' → reports_ok self → reports_ok self'.
Proof.
  intros Q [A B]. destruct (quiet_rounded _ _ Q) as (R & Hc & Hr). unfold reports_ok. by rewrite (rounded_real _ _ R), Hc, Hr.
Qed.

Lemma new_round_reports c round self self' : round_room (real_state self) → session_ok d (real_state self) → new_round d c round self = Done self' →
  (N.to_nat round ≤ length (old_list (real_state self)))%nat → sp_current_round self ≤ round → reports_ok self →
  reports_ok self' ∧ sp_current_round self' = round.
Proof.
  intros Hroom Hs H Hle Hcur Hr. unfold new_round in H. apply bind_Done_inv in H as (self1 & H1 & H). apply bind_Done_inv in H as (self2 & H2 & H).
  apply reset_quiet in H1. destruct (quiet_rounded _ _ H1) as (R1 & Hc1 & _). rewrite <- (rounded_real _ _ R1) in Hroom, Hs, Hle.
  destruct (finish_rounds_reports _ _ _ Hroom Hs H2) as (Hr2 & Hc2); [lia|exact (quiet_reports_ok _ _ H1 Hr)|].
  apply started_round_quiet in H. split; [exact (quiet_reports_ok _ _ H Hr2)|]. destruct (quiet_rounded _ _ H) as (_ & Hc3 & _). lia.
Qed.
End moved.

(** ** The session processor: its invariant

    Every request keeps the invariant [processor_ok]: the states are those of a session,
    the round is that of the real state, its finished rounds have been reported, and the
    commits announced so far are for the blocks the real state has decided. *)

Definition is_commit (m : Message) : bool := match m with Commit _ _ _ => true | _ => false end.

Section commits.
Context {X : External} {E : SessionExternal} (d : SessionDescription) (Hd : desc_ok d) (Hi : is_node d (self_idx d)).
Implicit Types (self : SessionProcessor) (s : SessionState) (c : Clock) (block : CatchainBlock) (m : Message) (ms : list Message).

(** A commit is for the block the state has decided for the round it names. *)
Definition commit_ok s m : Prop :=
  match m with Commit round id _ => ∃ b, decided s (N.to_nat (i32_as_u32 round)) = Some b ∧ SentBlock_get_id b = id | _ => True end.

Lemma commit_ok_kept s s' m : decisions_kept s s' → commit_ok s m → commit_ok s' m.
Proof. intros K. destruct m; simpl; try done. intros (b & Hb & Hid). exists b. split; [by apply K|done]. Qed.
Lemma commits_kept s s' ms : decisions_kept s s' → Forall (commit_ok s) ms → Forall (commit_ok s') ms.
Proof. intros K. apply Forall_impl. intros m. by apply commit_ok_kept. Qed.
Lemma no_commit_ok s ms : forallb (λ m, negb (is_commit m)) ms = true → Forall (commit_ok s) ms.
Proof. intros H. apply Forall_forall. intros m Hm. rewrite forallb_forall in H. specialize (H m Hm). by destruct m. Qed.

(** ** The messages of a new block *)
Lemma created_default s (i att : N) m : SessionState_create_action d s i att = Done (Some m) → is_commit m = false.
Proof.
  unfold SessionState_create_action, RoundState_create_action, RoundAttemptState_create_action. cbv zeta. intros H.
  repeat (case_match; simplify_eq/=; try done; try (apply bind_Done_inv in H as (? & _ & H))).
Qed.

Lemma approvals_no_commit now self l : forallb (λ m, negb (is_commit m)) (omap (approval_message now self) l) = true.
Proof.
  induction l as [|b l IH]; [done|]. simpl. unfold approval_message at 1. destruct (ap_approved _ !! _) as [[t sig]|]; [|done]. by destruct (_ <=? _).
Qed.

Lemma commit_messages_ok self ms : session_ok d (real_state self) → round_room (real_state self) →
  sp_current_round self = get_current_round_sequence_number (real_state self) → commit_messages d self = Done ms → Forall (commit_ok (real_state self)) ms.
Proof.
  intros Hs Hroom Hc H. unfold commit_messages in H. destruct (negb _); [injection H as <-; constructor|].
  apply bind_Done_inv in H as (b & Hb & H). destruct b as [b|]; [|injection H as <-; constructor].
  apply bind_Done_inv in H as (u & Hu & H). injection H as <-. unfold assert_that in Hu. destruct (_ =? _) eqn:Hu' in Hu; [|done]. breflect.
  constructor; [|constructor]. simpl. exists b. split; [|done]. unfold i32_round. rewrite Hc. unfold get_current_round_sequence_number, round_room in *.
  rewrite u32_i32_roundtrip by lia. rewrite (sok_count _ _ Hs), Nat2N.id, (decided_current d) by done.
  unfold SessionState_choose_block_to_sign in Hb. apply bind_Done_inv in Hb as (sg & _ & Hb). destruct sg; [done|]. by injection Hb.
Qed.

Lemma gather_messages_spec c self ms self' : gather_messages d c self = Done (ms, self') → quiet self self'
  ∧ (session_ok d (real_state self) → round_room (real_state self) → sp_current_round self = get_current_round_sequence_number (real_state self) → Forall (commit_ok (real_state self)) ms).
Proof.
  unfold gather_messages. intros H. apply bind_Done_inv in H as ([sub self1] & H1 & H). apply bind_Done_inv in H as (l & _ & H).
  apply bind_Done_inv in H as (cms & Hc & H). injection H as <- <-.
  assert (quiet self self1 ∧ forallb (λ m, negb (is_commit m)) sub = true) as [Q1 Hsub].
  { unfold submitted_messages in H1. destruct (_ && _); [|injection H1 as <- <-; split; [apply quiet_refl|done]].
    apply bind_Done_inv in H1 as (cd & _ & H1). injection H1 as <- <-. split; [quiet_chain|done]. }
  split; [unfold clear_pending_reject; quiet_chain|]. intros Hs Hroom Hcur.
  assert (real_state self1 = real_state self) as Hreal by (unfold real_state; by rewrite (qt_states _ _ Q1)).
  rewrite <- Hreal in *. repeat apply Forall_app_2.
  - by apply no_commit_ok.
  - apply no_commit_ok, approvals_no_commit.
  - apply no_commit_ok. unfold reject_messages. by induction (ext_map_order _).
  - apply commit_messages_ok in Hc; try done. change (sp_current_round _) with (sp_current_round self1). by rewrite (qt_round _ _ Q1).
Qed.

Lemma vote_for_spec (att : N) self ms self' : vote_for_messages d att self = Done (ms, self') →
  moved self self' ∧ apply_all d (self_idx d) att ms (real_state self) = Done (real_state self') ∧ forallb (λ m, negb (is_commit m)) ms = true
  ∧ (calm self' → good d (real_state self) → good d (real_state self') ∧ advances (real_state self) (real_state self')).
Proof using Hd Hi.
  unfold vote_for_messages. intros H. apply bind_Done_inv in H as (need & _ & H). destruct need; cycle 1.
  { injection H as <- <-. split; [apply moved_refl|]. split; [done|]. split; [done|]. intros _ G. split; [done|apply advances_refl]. }
  destruct (generate_random_usize self) as [r self1] eqn:Er.
  assert (quiet self self1) as Q1 by (pose proof (quiet_random self) as Q; by rewrite Er in Q). destruct (quiet_moved _ _ Q1) as [M1 R1].
  apply bind_Done_inv in H as (msg & Hm & H). apply bind_Done_inv in H as ([s1 self2] & H1 & H). injection H as <- <-.
  assert (is_commit msg = false) as Hmsg.
  { unfold RoundState_generate_vote_for in Hm. do 4 apply bind_Done_inv in Hm as (? & _ & Hm). apply bind_Done_inv in Hm as (? & _ & Hm). by injection Hm as <-. }
  assert (apply_actions d (real_state self) (self_idx d) att [msg] self1 = Done (s1, self2)) as Ha by (simpl; unfold get_local_idx in H1; by rewrite H1).
  destruct (apply_actions_spec d Hd _ _ _ _ _ _ _ Ha) as (L & A & G). destruct (logged_moved _ _ L) as [M2 _].
  split; [eapply moved_trans; [exact M1|]; eapply moved_trans; [exact M2|apply moved_put_real]|]. split; [done|]. split; [simpl; by rewrite Hmsg|].
  intros C. by apply G.
Qed.

(** The loop: its messages are applied in order and are no commits. *)
Lemma action_loop_spec fuel s (att : N) ms self s' ms' self' : action_loop d fuel s att ms self = Some (Done (s', ms', self')) →
  ∃ new, ms' = ms ++ new ∧ logged self self' ∧ apply_all d (self_idx d) att new s = Done s' ∧ forallb (λ m, negb (is_commit m)) new = true
    ∧ (calm self' → good d s → good d s' ∧ advances s s').
Proof using Hd Hi.
  revert s ms self. induction fuel as [|fuel IH]; intros s ms self H; [done|]. cbn [action_loop] in H.
  destruct (SessionState_create_action _ _ _ _) as [[msg|]|] eqn:Hc; try done. apply created_default in Hc.
  destruct (apply_state_action d s _ att msg self) as [[s1 self1]|] eqn:H1; [|done].
  assert (apply_actions d s (self_idx d) att [msg] self = Done (s1, self1)) as Ha by (simpl; unfold get_local_idx in H1; by rewrite H1).
  destruct (apply_actions_spec d Hd _ _ _ _ _ _ _ Ha) as (L & A & G). destruct (is_empty_action msg).
  { injection H as <- <- <-. exists [msg]. split; [done|]. split; [done|]. split; [done|]. split; [simpl; by rewrite Hc|]. intros C. by apply G. }
  destruct (IH _ _ _ H) as (new & -> & L2 & A2 & N2 & G2). exists (msg :: new). rewrite <- app_assoc. split; [done|]. split; [by eapply logged_trans|].
  split; [change (msg :: new) with ([msg] ++ new); rewrite apply_all_app, A; exact A2|]. split; [simpl; by rewrite Hc, N2|].
  intros C Gs. destruct (G (calm_logged _ _ L2 C) Hi Gs) as [G1 R1]. destruct (G2 C G1). split; [done|by eapply advances_trans].
Qed.

(** ** The invariant *)
Record processor_ok self : Prop := {
  po_map : map_good d self;
  po_real : good d (real_state self);
  po_virtual : good d (virtual_state self);
  po_round : sp_current_round self = get_current_round_sequence_number (real_state self);
  po_reports : reports (sp_events self) = finished (real_state self);
  po_commits : Forall (λ u, Forall (commit_ok (real_state self)) (bu_actions u)) (own_updates (sp_events self));
  po_idle : sp_catchain_started self = false → own_updates (sp_events self) = [];
}.

Lemma processor_reports_ok self : processor_ok self → reports_ok self.
Proof.
  intros P. destruct (po_real _ P) as (Hs & _). unfold reports_ok. rewrite (po_round _ P). unfold get_current_round_sequence_number. rewrite (sok_count _ _ Hs), Nat2N.id.
  split; [done|]. rewrite (po_reports _ P), <- finished_length. symmetry. apply firstn_all.
Qed.

Lemma moved_processor_ok self self' : processor_ok self → moved self self' → real_state self' = real_state self → processor_ok self'.
Proof.
  intros P M R. split; rewrite ?R, ?(mv_virtual _ _ M), ?(mv_round _ _ M), ?(mv_reports _ _ M), ?(mv_updates _ _ M), ?(mv_started _ _ M); try apply P.
  eapply moved_map_good; [exact M|apply P].
Qed.

Lemma reports_moved self self' : reports_ok self → moved self self' → history_grows (old_list (real_state self)) (old_list (real_state self')) → reports_ok self'.
Proof.
  intros [A B] M H. destruct (finished_grows _ _ H) as [Hl Ht]. split; rewrite (mv_round _ _ M); [lia|].
  rewrite (mv_reports _ _ M), B, <- Ht, take_take. f_equal. lia.
Qed.

(** The real state has been replaced by a later one: the round catches up. *)
Definition catch_up c self : outcome SessionProcessor :=
  let round := get_current_round_sequence_number (real_state self) in
  if negb (round =? sp_current_round self) then new_round d c round self else Done self.

Lemma catch_up_frame c self self' : catch_up c self = Done self' → rounded self self'.
Proof. unfold catch_up. cbv zeta. destruct (negb _); [apply new_round_frame|by intros [= <-]]. Qed.

Lemma catch_up_reports c self self' : good d (real_state self) → reports_ok self → catch_up c self = Done self' →
  reports_ok self' ∧ sp_current_round self' = get_current_round_sequence_number (real_state self).
Proof.
  intros (Hs & _ & Hroom) Hr H. unfold catch_up, get_current_round_sequence_number in *. cbv zeta in H. pose proof (sok_count _ _ Hs) as Hc.
  destruct (negb _) eqn:En; breflect.
  - eapply (new_round_reports d c); [done|done|exact H| |destruct Hr; lia|done]. rewrite Hc. lia.
  - injection H as <-. split; [done|lia].
Qed.

(** What is done to the real state between two requests. *)
Record advanced self self' : Prop := {
  ad_started : sp_catchain_started self' = sp_catchain_started self;
  ad_map : st_block_to_state_map (sp_states self') = st_block_to_state_map (sp_states self);
  ad_virtual : virtual_state self' = virtual_state self;
  ad_calls : ∃ calls, st_calls (sp_states self') = st_calls (sp_states self) ++ calls;
  ad_updates : own_updates (sp_events self') = own_updates (sp_events self);
  ad_good : calm self' → map_good d self → good d (real_state self) → reports_ok self →
    good d (real_state self') ∧ advances (real_state self) (real_state self') ∧ reports_ok self';
}.

Lemma advanced_map_good self self' : advanced self self' → map_good d self → map_good d self'.
Proof. intros A M i s. rewrite (ad_map _ _ A). apply M. Qed.

Lemma advanced_trans self1 self2 self3 : advanced self1 self2 → advanced self2 self3 → advanced self1 self3.
Proof.
  intros A B. destruct (ad_calls _ _ A) as [c1 A4], (ad_calls _ _ B) as [c2 B4].
  split; [by rewrite (ad_started _ _ B), (ad_started _ _ A)|by rewrite (ad_map _ _ B), (ad_map _ _ A)|by rewrite (ad_virtual _ _ B), (ad_virtual _ _ A)
    |exists (c1 ++ c2); by rewrite B4, A4, app_assoc|by rewrite (ad_updates _ _ B), (ad_updates _ _ A)|].
  intros C M G R. destruct (ad_good _ _ A) as (G1 & W1 & R1); [eapply calm_calls; [by exists c2|done]|done|done|done|].
  destruct (ad_good _ _ B) as (G2 & W2 & R2); [done|by eapply advanced_map_good|done|done|]. split; [done|]. split; [by eapply advances_trans|done].
Qed.

Lemma moved_advanced self self' : moved self self' →
  (calm self' → map_good d self → good d (real_state self) → good d (real_state self') ∧ advances (real_state self) (real_state self')) → advanced self self'.
Proof.
  intros M H. split; try apply M. intros C Mg G R. destruct (H C Mg G) as [G' W]. split; [done|]. split; [done|]. eapply reports_moved; [exact R|exact M|apply W].
Qed.

Lemma quiet_advanced self self' : quiet self self' → advanced self self'.
Proof. intros Q. destruct (quiet_moved _ _ Q) as [M R]. apply moved_advanced; [done|]. intros _ _ G. rewrite R. split; [done|apply advances_refl]. Qed.

Lemma catch_up_advanced c self self' : catch_up c self = Done self' → advanced self self'.
Proof.
  intros H. pose proof (catch_up_frame _ _ _ H) as R. split; try apply R; try (unfold virtual_state; by rewrite (rd_states _ _ R)).
  - exists []. by rewrite (rd_states _ _ R), app_nil_r.
  - intros _ _ G Hr. rewrite (rounded_real _ _ R). split; [done|]. split; [apply advances_refl|]. by eapply catch_up_reports.
Qed.

Lemma process_begin_spec c blocks self ms (att : N) self' : process_begin d c blocks self = Done (ms, att, self') →
  advanced self self' ∧ (calm self' → map_good d self → good d (real_state self) → reports_ok self → Forall (commit_ok (real_state self')) ms).
Proof using Hd Hi.
  unfold process_begin. intros H. set (self0 := put_requested _ _ _ self) in H.
  assert (advanced self self0) as A0 by (apply quiet_advanced; unfold self0, put_requested; quiet_chain). clearbody self0.
  apply bind_Done_inv in H as (self1 & H1 & H). destruct (merge_blocks_spec d Hd _ _ _ H1) as [M1 G1].
  assert (advanced self self1) as A1 by (eapply advanced_trans; [exact A0|]; exact (moved_advanced _ _ M1 G1)).
  apply bind_Done_inv in H as (self2 & H2 & H). change (catch_up c self1 = Done self2) in H2. pose proof (catch_up_advanced _ _ _ H2) as A2.
  apply bind_Done_inv in H as (att' & _ & H). apply bind_Done_inv in H as ([ms3 self3] & H3 & H).
  apply bind_Done_inv in H as ([s4 self4] & H4 & H). apply bind_Done_inv in H as ([vf self5] & H5 & H). injection H as <- <- <-.
  destruct (gather_messages_spec _ _ _ _ H3) as [Q3 C3]. destruct (apply_actions_spec d Hd _ _ _ _ _ _ _ H4) as (L4 & _ & G4).
  destruct (logged_moved _ _ L4) as [M4 R4]. destruct (vote_for_spec _ _ _ _ H5) as (M5 & _ & N5 & G5).
  assert (advanced self3 (put_real s4 self4)) as A4.
  { apply moved_advanced; [eapply moved_trans; [exact M4|apply moved_put_real]|]. intros C _ G. exact (G4 C Hi G). }
  assert (advanced (put_real s4 self4) self5) as A5 by (apply moved_advanced; [exact M5|]; intros C _ G; exact (G5 C G)).
  assert (advanced self2 self5) as A25 by (eapply advanced_trans; [by apply quiet_advanced|]; by eapply advanced_trans).
  split; [eapply advanced_trans; [exact A1|]; by eapply advanced_trans|]. intros C Mg G R.
  pose proof (calm_calls _ _ (ad_calls _ _ A25) C) as C2. pose proof (calm_calls _ _ (ad_calls _ _ A2) C2) as C1.
  destruct (ad_good _ _ A1 C1 Mg G R) as (Gs1 & _ & R1). destruct (catch_up_reports _ _ _ Gs1 R1 H2) as [R2 Hcur].
  pose proof (rounded_real _ _ (catch_up_frame _ _ _ H2)) as Hreal. rewrite <- Hreal in Gs1, Hcur.
  pose proof (advanced_map_good _ _ (advanced_trans _ _ _ A1 A2) Mg) as Mg2.
  destruct (ad_good _ _ A25 C Mg2 Gs1 R2) as (_ & [K _] & _). apply Forall_app_2; [|by apply no_commit_ok].
  destruct Gs1 as (Hs & _ & Hroom). eapply commits_kept; [exact K|]. by apply C3.
Qed.
End commits.
