(* ===== verification/SessionInvariant.v ===== *)
(** * The session processor: every request keeps its invariant

    [processor_ok] for blocks of this node ([process_blocks]), for blocks that arrive
    ([preprocess_block]) and for all other requests, and the runs of the processor. *)

From S2P Require Import Prelude SessionDescription Vectors Candidates RoundAttempt Round RoundFacts SessionState SessionFacts SessionSafety ReceivedBlock CatchainCore Slashing Actions SessionProcessor SessionChecks SessionBlocks SessionFrames SessionActions SessionRun SessionReports.

Section invariant.
Context {X : External} {E : SessionExternal} (d : SessionDescription) (Hd : desc_ok d) (Hi : is_node d (self_idx d)).
Implicit Types (self : SessionProcessor) (s : SessionState) (c : Clock) (block : CatchainBlock) (m : Message) (ms : list Message).

Lemma reports_finished self : good d (real_state self) → reports_ok self → sp_current_round self = get_current_round_sequence_number (real_state self) →
  reports (sp_events self) = finished (real_state self).
Proof.
  intros (Hs & _) [_ ->] ->. unfold get_current_round_sequence_number. rewrite (sok_count _ _ Hs), Nat2N.id, <- finished_length. apply firstn_all.
Qed.

(** Merging a state into the virtual one. *)
Lemma merge_virtual_ok s self virtual self' : processor_ok d self → merge_states d (virtual_state self) s self = Done (virtual, self') →
  (∃ calls, st_calls (sp_states (put_virtual virtual self')) = st_calls (sp_states self) ++ calls)
  ∧ (calm (put_virtual virtual self') → good d s → processor_ok d (put_virtual virtual self')).
Proof using Hd.
  intros P H. destruct (merge_states_spec d Hd _ _ _ _ _ H) as [L G]. destruct (logged_moved _ _ L) as [M R]. split; [apply M|].
  intros C Gs. destruct (moved_processor_ok d _ _ P M R). split; try done. by apply G; [|apply P|].
Qed.

(** ** Blocks of this node *)
Lemma process_end_ok c ms self self' : process_end d c ms self = Done self' → calm self' → map_good d self → good d (real_state self) → good d (virtual_state self) →
  reports_ok self → sp_catchain_started self = true → Forall (commit_ok (real_state self)) ms →
  Forall (λ u, Forall (commit_ok (real_state self)) (bu_actions u)) (own_updates (sp_events self)) → processor_ok d self'.
Proof using Hd.
  unfold process_end. intros H C Mg G Gv Hr Hst Hms Hu. set (self0 := post _ self) in H.
  assert (reports_ok self0) as Hr0.
  { destruct Hr as [A B]. split; [exact A|]. unfold self0. cbn [post sp_events]. rewrite reports_app. simpl. rewrite app_nil_r. exact B. }
  apply bind_Done_inv in H as (self1 & H1 & H). assert (catch_up d c self0 = Done self1) as H1'.
  { rewrite <- H1. unfold catch_up. change (real_state self0) with (real_state self). destruct Hr0 as [Hle _]. change (real_state self0) with (real_state self) in Hle.
    change (sp_current_round self0) with (sp_current_round self) in *. destruct G as (Hs & _). unfold get_current_round_sequence_number in *. pose proof (sok_count _ _ Hs) as Hc. cbv zeta. destruct (negb _) eqn:En, (_ <? _) eqn:El; breflect; try done; lia. }
  pose proof (catch_up_advanced _ _ _ _ H1') as A. destruct (catch_up_reports d c self0 self1 G Hr0 H1') as [Hr1 Hc1].
  pose proof (rounded_real _ _ (catch_up_frame _ _ _ _ H1')) as Hreal. change (real_state self0) with (real_state self) in Hreal, Hc1.
  assert (processor_ok d self1) as P1.
  { split; rewrite ?Hreal; try done.
    - exact (advanced_map_good _ _ _ A Mg).
    - by rewrite (ad_virtual _ _ _ A).
    - rewrite <- Hreal. apply reports_finished; by rewrite ?Hreal.
    - rewrite (ad_updates _ _ _ A). unfold self0. cbn [post sp_events]. rewrite own_updates_app. apply Forall_app_2; [done|]. by constructor; [|constructor].
    - rewrite (ad_started _ _ _ A). unfold self0. cbn [post sp_catchain_started]. congruence. }
  apply bind_Done_inv in H as ([v self2] & H2 & H). injection H as <-. destruct (merge_virtual_ok _ _ _ _ P1 H2) as [_ K]. apply K; [done|]. by rewrite Hreal.
Qed.

Lemma process_end_calls c ms self self' : process_end d c ms self = Done self' → ∃ calls, st_calls (sp_states self') = st_calls (sp_states self) ++ calls.
Proof using Hd.
  unfold process_end. intros H. apply bind_Done_inv in H as (self1 & H1 & H). apply bind_Done_inv in H as ([v self2] & H2 & H). injection H as <-.
  assert (sp_states self1 = sp_states self) as Hs.
  { destruct (_ <? _); [exact (rd_states _ _ (new_round_frame _ _ _ _ _ H1))|by injection H1 as <-]. }
  destruct (merge_states_spec d Hd _ _ _ _ _ H2) as [[calls ->] _]. exists calls. simpl. by rewrite Hs.
Qed.

Lemma process_blocks_ok fuel c blocks self self' : processor_ok d self → sp_catchain_started self = true → process_blocks d fuel c blocks self = Some (Done self') →
  calm self' → processor_ok d self'.
Proof using Hd Hi.
  intros P Hst H C. unfold process_blocks in H. destruct (process_begin d c blocks self) as [[[ms att] self1]|] eqn:Hb; [|done].
  destruct (action_loop _ _ _ _ _ _) as [[[[s2 ms2] self2]|]|] eqn:Hl; try done. injection H as H.
  destruct (process_begin_spec d Hd Hi _ _ _ _ _ _ Hb) as [A Hc]. destruct (action_loop_spec d Hd Hi _ _ _ _ _ _ _ _ Hl) as (new & -> & L & _ & Nc & Gl).
  destruct (logged_moved _ _ L) as [M2 R2]. pose proof (process_end_calls _ _ _ _ H) as Ke.
  assert (calm self2) as C2 by (eapply calm_calls; [exact Ke|done]). pose proof (calm_calls _ _ (mv_calls _ _ M2) C2) as C1.
  pose proof (processor_reports_ok _ _ P) as Hr. destruct (ad_good _ _ _ A C1 (po_map _ _ P) (po_real _ _ P) Hr) as (G1 & W1 & R1).
  destruct (Gl C2 G1) as [G2 W2].
  assert (moved self1 (put_real s2 self2)) as M by (eapply moved_trans; [exact M2|apply moved_put_real]).
  eapply process_end_ok; [exact H|done| | | | | | |]; change (real_state (put_real s2 self2)) with s2.
  - eapply moved_map_good; [exact M|]. exact (advanced_map_good _ _ _ A (po_map _ _ P)).
  - done.
  - rewrite (mv_virtual _ _ M), (ad_virtual _ _ _ A). apply P.
  - eapply reports_moved; [exact R1|exact M|apply W2].
  - by rewrite (mv_started _ _ M), (ad_started _ _ _ A).
  - apply Forall_app_2; [|by apply no_commit_ok]. eapply commits_kept; [apply W2|]. by apply Hc; [|apply P|apply P|].
  - rewrite (mv_updates _ _ M), (ad_updates _ _ _ A). eapply Forall_impl; [|apply (po_commits _ _ P)]. intros u. apply commits_kept.
    destruct W1 as [W1 _], W2 as [W2 _]. intros k b Hk. by apply W2, W1.
Qed.

(** ** Blocks that arrive *)
Lemma good_empty : good d (SessionState_create_empty d).
Proof using Hd.
  clear Hi. split; [by apply session_empty_ok|]. split; [split; [apply new_round_cert|intros o Ho; simpl in Ho; set_solver]|]. unfold round_room. simpl. by vm_compute.
Qed.

(** The state that a block starts from. *)
Definition base_state self block : outcome SessionState :=
  match cb_prev block with Some prev => get_state self prev | None => Done (SessionState_create_empty d) end.

Lemma compute_state_spec block self s self' : compute_state d block self = Done (s, self') → logged self self'
  ∧ (calm self' → map_good d self → is_node d (cb_source_id block mod two32) →
     good d s ∧ ∃ base, base_state self block = Done base ∧ history_grows (old_list base) (old_list s)).
Proof using Hd.
  unfold compute_state. intros H. apply bind_Done_inv in H as (base & Hb & H). apply bind_Done_inv in H as ([s1 self1] & H1 & H).
  destruct (merge_deps_spec d Hd _ _ _ _ _ H1) as [L1 G1]. change (base_state self block = Done base) in Hb.
  assert (map_good d self → good d base) as Gb.
  { intros Mg. unfold base_state in Hb. destruct (cb_prev block); [by eapply get_state_good|injection Hb as <-; apply good_empty]. }
  destruct (_ && _).
  { injection H as <- <-. split; [done|]. intros C Mg _. destruct (G1 C Mg (Gb Mg)) as [Gs [_ W]]. split; [done|]. by exists base. }
  apply bind_Done_inv in H as (u & _ & H). destruct (ext_parse_update _) as [update|].
  - apply bind_Done_inv in H as (att & _ & H). apply bind_Done_inv in H as ([s2 self2] & H2 & H). apply bind_Done_inv in H as (s3 & H3 & H). injection H as <- <-.
    destruct (apply_actions_spec d Hd _ _ _ _ _ _ _ H2) as (L2 & _ & G2). split; [by eapply logged_trans|]. intros C Mg Hn.
    destruct (G1 (calm_logged _ _ L2 C) Mg (Gb Mg)) as [Gs1 W1]. destruct (G2 C Hn Gs1) as [Gs2 W2]. destruct (good_make_all d Hd _ _ _ _ Gs2 Hn H3) as [Gs3 Ho].
    split; [done|]. exists base. split; [done|]. unfold old_list. rewrite Ho. exact (proj2 (advances_trans _ _ _ W1 W2)).
  - apply bind_Done_inv in H as (att & _ & H). apply bind_Done_inv in H as (s3 & H3 & H). injection H as <- <-. split; [done|]. intros C Mg Hn.
    destruct (G1 C Mg (Gb Mg)) as [Gs1 W1]. destruct (good_make_all d Hd _ _ _ _ Gs1 Hn H3) as [Gs3 Ho]. split; [done|]. exists base. split; [done|].
    unfold old_list. rewrite Ho. apply W1.
Qed.

Lemma set_state_map_good self block s : map_good d self → good d s → map_good d (set_state_of self block s).
Proof.
  intros Mg G i x. unfold set_state_of. cbn [put_map put_states sp_states st_block_to_state_map]. 
  match goal with |- <[_ := _]> ?l !! _ = _ → _ => set (m := l) end. intros H. apply list_lookup_insert_Some in H as [(_ & [= <-] & _)|[_ H]]; [done|]. unfold m in H. destruct (_ <=? _)%nat; [|by eapply Mg].
  apply lookup_app_Some in H as [H|[_ H]]; [by eapply Mg|]. apply lookup_replicate in H as [[=] _].
Qed.

Lemma preprocess_block_ok c block self self' : processor_ok d self → allowed d self (ReqPreprocess c block) → preprocess_block d c block self = Done self' →
  calm self' → processor_ok d self'.
Proof using Hd.
  intros P [Hn Hown] H C. unfold preprocess_block in H. apply bind_Done_inv in H as ([s self1] & H1 & H).
  apply bind_Done_inv in H as ([v self3] & H3 & H). apply bind_Done_inv in H as (self4 & H4 & H).
  destruct (compute_state_spec _ _ _ _ H1) as [L1 G1]. destruct (logged_moved _ _ L1) as [M1 R1].
  change (catch_up d c (put_virtual v self3) = Done self4) in H4. pose proof (catch_up_advanced _ _ _ _ H4) as A4. apply quiet_check_all in H.
  assert (calm (put_virtual v self3)) as C3.
  { eapply calm_calls; [apply (ad_calls _ _ _ A4)|]. eapply calm_calls; [|exact C]. destruct (quiet_moved _ _ H) as [M _]. apply M. }
  destruct (merge_states_spec d Hd _ _ _ _ _ H3) as [L3 G3]. destruct (logged_moved _ _ L3) as [M3 R3].
  match type of H3 with merge_states _ (virtual_state ?x) _ _ = _ => set (self2 := x) in * end.
  pose proof (calm_calls _ _ (mv_calls _ _ M3) C3) as C2.
  assert (calm self1) as C1. { revert C2. unfold self2. by destruct (_ && _). }
  destruct (G1 C1 (po_map _ _ P) Hn) as (Gs & base & Hbase & Hg).
  pose proof (moved_processor_ok d _ _ P M1 R1) as P1.
  assert (map_good d self2 ∧ virtual_state self2 = virtual_state self1 ∧ sp_catchain_started self2 = sp_catchain_started self1 ∧ sp_events self2 = sp_events self1
    ∧ sp_current_round self2 = sp_current_round self1) as (Mg2 & Hv2 & Hst2 & He2 & Hcr2).
  { pose proof (set_state_map_good self1 block s (po_map _ _ P1) Gs) as Mg. unfold self2. destruct (_ && _); done. }
  assert (good d (real_state self2) ∧ history_grows (old_list (real_state self1)) (old_list (real_state self2))
    ∧ (real_state self2 = real_state self1 ∨ sp_catchain_started self1 = false)) as (G2 & W2 & Hcase).
  { unfold self2. destruct (_ && _) eqn:Eo.
    - change (real_state (put_real _ _)) with s. split; [done|]. split; [|right; by apply andb_true_iff in Eo as [_ Eo%negb_true_iff]].
      rewrite R1. change (sp_catchain_started (set_state_of self1 block s)) with (sp_catchain_started self1) in Eo. rewrite (mv_started _ _ M1) in Eo.
      specialize (Hown Eo). unfold base_state in Hbase. destruct (cb_prev block) as [prev|].
      + unfold get_state in Hbase. rewrite Hown in Hbase. injection Hbase as <-. done.
      + injection Hbase as <-. by rewrite Hown.
    - change (real_state (set_state_of self1 block s)) with (real_state self1). split; [apply P1|]. split; [apply history_grows_refl|by left]. }
  set (self3' := put_virtual v self3) in *.
  assert (reports_ok self3') as Hr3.
  { destruct (processor_reports_ok _ _ P1) as [A B]. destruct (finished_grows _ _ W2) as [Hl Ht]. unfold reports_ok, self3'. change (real_state (put_virtual v self3)) with (real_state self3).
    rewrite R3. change (sp_current_round (put_virtual v self3)) with (sp_current_round self3). change (sp_events (put_virtual v self3)) with (sp_events self3).
    rewrite (mv_round _ _ M3), (mv_reports _ _ M3), Hcr2, He2. split; [lia|]. rewrite B, <- Ht, take_take. f_equal. lia. }
  assert (good d (real_state self3')) as Gr3 by (change (good d (real_state self3)); by rewrite R3).
  destruct (catch_up_reports d c _ _ Gr3 Hr3 H4) as [Hr4 Hc4]. pose proof (rounded_real _ _ (catch_up_frame _ _ _ _ H4)) as Hreal4.
  destruct (quiet_moved _ _ H) as [M5 R5]. eapply moved_processor_ok; [|exact M5|exact R5].
  assert (own_updates (sp_events self4) = own_updates (sp_events self1)) as Hu4.
  { rewrite (ad_updates _ _ _ A4). change (sp_events self3') with (sp_events self3). by rewrite (mv_updates _ _ M3), He2. }
  assert (sp_catchain_started self4 = sp_catchain_started self1) as Hst4.
  { rewrite (ad_started _ _ _ A4). change (sp_catchain_started self3') with (sp_catchain_started self3). by rewrite (mv_started _ _ M3). }
  split; rewrite ?Hreal4; try done.
  - eapply (advanced_map_good _ _ _ A4). intros i x. change (sp_states self3') with (sp_states (put_virtual v self3)). simpl. rewrite (mv_map _ _ M3). apply Mg2.
  - rewrite (ad_virtual _ _ _ A4). change (virtual_state self3') with v. apply G3; [done|rewrite Hv2; apply P1|done].
  - rewrite <- Hreal4. apply reports_finished; by rewrite ?Hreal4.
  - rewrite Hu4. change (real_state self3') with (real_state self3). rewrite R3. destruct Hcase as [->|Hst]; [apply P1|]. rewrite (po_idle _ _ P1 Hst). constructor.
  - rewrite Hu4, Hst4. apply P1.
Qed.

(** ** Runs *)
Inductive processor_run : SessionProcessor → Prop :=
| run_create c ids self : SessionProcessor_create d c ids = Done self → processor_run self
| run_serve fuel self req self' : processor_run self → allowed d self req → serve d fuel self req = Some (Done self') → processor_run self'.

Lemma quiet_calls self self' : quiet self self' → ∃ calls, st_calls (sp_states self') = st_calls (sp_states self) ++ calls.
Proof. intros Q. destruct (quiet_moved _ _ Q) as [M _]. apply M. Qed.

Lemma preprocess_calls c block self self' : preprocess_block d c block self = Done self' → ∃ calls, st_calls (sp_states self') = st_calls (sp_states self) ++ calls.
Proof using Hd.
  intros H. unfold preprocess_block in H. apply bind_Done_inv in H as ([s self1] & H1 & H).
  apply bind_Done_inv in H as ([v self3] & H3 & H). apply bind_Done_inv in H as (self4 & H4 & H).
  destruct (compute_state_spec _ _ _ _ H1) as [L1 _]. destruct (logged_moved _ _ L1) as [M1 _].
  destruct (merge_states_spec d Hd _ _ _ _ _ H3) as [L3 _]. destruct (logged_moved _ _ L3) as [M3 _].
  change (catch_up d c (put_virtual v self3) = Done self4) in H4. apply catch_up_frame in H4. apply quiet_check_all in H.
  rewrite (qt_states _ _ H), (rd_states _ _ H4). destruct (mv_calls _ _ M1) as [c1 Hc1], (mv_calls _ _ M3) as [c3 Hc3]. exists (c1 ++ c3).
  change (st_calls (sp_states (put_virtual v self3))) with (st_calls (sp_states self3)). rewrite Hc3, app_assoc, <- Hc1. f_equal. by destruct (_ && _).
Qed.

Lemma process_blocks_calls fuel c blocks self self' : process_blocks d fuel c blocks self = Some (Done self') →
  ∃ calls, st_calls (sp_states self') = st_calls (sp_states self) ++ calls.
Proof using Hd Hi.
  unfold process_blocks. intros H. destruct (process_begin d c blocks self) as [[[ms att] self1]|] eqn:Hb; [|done].
  destruct (action_loop _ _ _ _ _ _) as [[[[s2 ms2] self2]|]|] eqn:Hl; try done. injection H as H.
  destruct (process_begin_spec d Hd Hi _ _ _ _ _ _ Hb) as [A _]. destruct (action_loop_spec d Hd Hi _ _ _ _ _ _ _ _ Hl) as (_ & _ & [c2 ->] & _).
  destruct (ad_calls _ _ _ A) as [c1 Hc1]. destruct (process_end_calls _ _ _ _ H) as [c3 Hc3]. simpl in Hc3. exists (c1 ++ c2 ++ c3). by rewrite Hc3, Hc1, <- !app_assoc.
Qed.

(** A request that is not about blocks. *)
Lemma started_quiet c self self' : on_catchain_started d c self = Done self' → quiet (put_started self) self'.
Proof.
  unfold on_catchain_started. intros H. apply bind_Done_inv in H as (l & _ & H). apply bind_Done_inv in H as (self1 & H1 & H).
  eapply quiet_trans; [|by eapply quiet_check_all]. clear H. revert H1. generalize (put_started self). induction l as [|b l IH]; intros self0 H; simpl in H; [injection H as <-; apply quiet_refl|].
  apply bind_Done_inv in H as (self2 & H2 & H). eapply quiet_trans; [|by apply IH]. unfold ask_approved in H2. destruct b as [b|]; [|injection H2 as <-; apply quiet_refl].
  do 2 apply bind_Done_inv in H2 as (? & _ & H2). injection H2 as <-. quiet_chain.
Qed.

Lemma serve_calls fuel self req self' : serve d fuel self req = Some (Done self') → ∃ calls, st_calls (sp_states self') = st_calls (sp_states self) ++ calls.
Proof using Hd Hi.
  destruct req; cbn [serve]; intros H; try (injection H as H).
  - by eapply preprocess_calls.
  - by eapply process_blocks_calls.
  - apply quiet_check_all, quiet_calls in H. exact H.
  - apply started_quiet, quiet_calls in H. exact H.
  - by apply quiet_check_all, quiet_calls in H.
  - by apply quiet_generated, quiet_calls in H.
  - subst self'. apply quiet_calls, quiet_decision_ok.
  - subst self'. apply quiet_calls, quiet_decision_fail.
  - by apply quiet_broadcast, quiet_calls in H.
  - by apply quiet_downloaded, quiet_calls in H.
  - destruct (process_query d data self) as [[a self1]|] eqn:Hq; [|done]. simpl in H. injection H as <-. by apply quiet_query, quiet_calls in Hq.
Qed.

Lemma quiet_processor_ok self self' : processor_ok d self → quiet self self' → processor_ok d self'.
Proof. intros P Q. destruct (quiet_moved _ _ Q). by eapply moved_processor_ok. Qed.

Lemma serve_ok fuel self req self' : processor_ok d self → allowed d self req → serve d fuel self req = Some (Done self') → calm self' → processor_ok d self'.
Proof using Hd Hi.
  intros P A H C. destruct req; cbn [serve] in H; try (injection H as H).
  - by eapply preprocess_block_ok.
  - by eapply process_blocks_ok.
  - eapply quiet_processor_ok; [|by eapply quiet_check_all]. destruct P. by split.
  - eapply quiet_processor_ok; [|by eapply started_quiet]. destruct P. by split.
  - eapply quiet_processor_ok; [exact P|by eapply quiet_check_all].
  - eapply quiet_processor_ok; [exact P|by eapply quiet_generated].
  - subst self'. eapply quiet_processor_ok; [exact P|apply quiet_decision_ok].
  - subst self'. eapply quiet_processor_ok; [exact P|apply quiet_decision_fail].
  - eapply quiet_processor_ok; [exact P|by eapply quiet_broadcast].
  - eapply quiet_processor_ok; [exact P|by eapply quiet_downloaded].
  - destruct (process_query d data self) as [[a self1]|] eqn:Hq; [|done]. simpl in H. injection H as <-. eapply quiet_processor_ok; [exact P|by eapply quiet_query].
Qed.

Lemma run_ok self : processor_run self → calm self → processor_ok d self.
Proof using Hd Hi.
  induction 1 as [c ids self H|fuel self req self' _ IH A H]; intros C.
  - unfold SessionProcessor_create in H. apply quiet_check_all in H. eapply quiet_processor_ok; [|exact H]. pose proof good_empty as G.
    by split.
  - eapply serve_ok; [|exact A|exact H|exact C]. apply IH. eapply calm_calls; [by eapply serve_calls|done].
Qed.

(** The first part of a new block does not lose the invariant of the real state. *)
Lemma process_begin_good c blocks self ms (att : N) self' : processor_ok d self → process_begin d c blocks self = Done (ms, att, self') → calm self' →
  good d (real_state self') ∧ advances (real_state self) (real_state self').
Proof using Hd Hi.
  intros P H C. destruct (process_begin_spec d Hd Hi _ _ _ _ _ _ H) as [A _].
  destruct (ad_good _ _ _ A C (po_map _ _ P) (po_real _ _ P) (processor_reports_ok _ _ P)) as (G & W & _). done.
Qed.

(** ** Replay *)
Lemma apply_actions_all ms s (i att : N) s' self : apply_all d i att ms s = Done s' → ∃ self', apply_actions d s i att ms self = Done (s', self').
Proof.
  revert s self. induction ms as [|m ms IH]; intros s self H; simpl in *; [injection H as <-; by exists self|].
  apply bind_Done_inv in H as (s1 & H1 & H). unfold apply_state_action. rewrite H1. run. by apply IH.
Qed.

(** The actions of a new block lead from the merged state of its parents to the real state. *)
Lemma process_blocks_actions fuel c blocks self self' : process_blocks d fuel c blocks self = Some (Done self') →
  ∃ self0 att u, merge_blocks d blocks (put_requested false false (tm_draws (sp_timing self)) self) = Done self0
    ∧ get_attempt_sequence_number d (clk_ts c) = Done att ∧ bu_ts u = clk_ts c
    ∧ apply_all d (self_idx d) att (bu_actions u) (real_state self0) = Done (real_state self')
    ∧ own_updates (sp_events self') = own_updates (sp_events self) ++ [u].
Proof using Hd Hi.
  unfold process_blocks. intros H. destruct (process_begin d c blocks self) as [[[ms att] self1]|] eqn:Hb; [|done].
  destruct (action_loop _ _ _ _ _ _) as [[[[s2 ms2] self2]|]|] eqn:Hl; try done. injection H as H.
  destruct (process_begin_spec d Hd Hi _ _ _ _ _ _ Hb) as [A _]. destruct (action_loop_spec d Hd Hi _ _ _ _ _ _ _ _ Hl) as (new & -> & L & A2 & _).
  destruct (logged_moved _ _ L) as [M2 _].
  assert (∃ self0, merge_blocks d blocks (put_requested false false (tm_draws (sp_timing self)) self) = Done self0
    ∧ get_attempt_sequence_number d (clk_ts c) = Done att ∧ apply_all d (self_idx d) att ms (real_state self0) = Done (real_state self1)) as (self0 & H0 & Hatt & A1).
  { unfold process_begin in Hb. apply bind_Done_inv in Hb as (self0 & H0 & Hb). exists self0. split; [done|].
    apply bind_Done_inv in Hb as (selfa & Ha & Hb). apply bind_Done_inv in Hb as (att' & Hatt & Hb). apply bind_Done_inv in Hb as ([ms3 selfb] & H3 & Hb).
    apply bind_Done_inv in Hb as ([s4 selfc] & H4 & Hb). apply bind_Done_inv in Hb as ([vf selfd] & H5 & Hb). injection Hb as <- <- <-. split; [done|].
    change (catch_up d c self0 = Done selfa) in Ha. destruct (gather_messages_spec d _ _ _ _ H3) as [Q3 _].
    destruct (apply_actions_spec d Hd _ _ _ _ _ _ _ H4) as (_ & A4 & _). destruct (vote_for_spec d Hd Hi _ _ _ _ H5) as (_ & A5 & _).
    assert (real_state selfb = real_state self0) as Hr.
    { rewrite <- (rounded_real _ _ (catch_up_frame d _ _ _ Ha)). unfold real_state. by rewrite (qt_states _ _ Q3). }
    rewrite Hr in A4. rewrite apply_all_app. unfold get_local_idx in A4. rewrite A4. exact A5. }
  unfold process_end in H. apply bind_Done_inv in H as (self3 & H3 & H). apply bind_Done_inv in H as ([v self4] & H4 & H). injection H as <-.
  match type of H3 with (if _ then new_round _ _ _ ?x else _) = _ => assert (rounded x self3) as R3 end.
  { destruct (_ <? _); [by eapply new_round_frame|by injection H3 as <-]. }
  destruct (merge_states_spec d Hd _ _ _ _ _ H4) as [L4 _]. destruct (logged_moved _ _ L4) as [M4 R4].
  exists self0, att, {| bu_ts := clk_ts c; bu_actions := ms ++ new; bu_state := ext_state_hash s2 |}. split; [done|]. split; [done|]. split; [done|]. split.
  - change (real_state (put_virtual v self4)) with (real_state self4). rewrite R4, (rounded_real _ _ R3). cbn [bu_actions]. rewrite apply_all_app, A1. exact A2.
  - change (sp_events (put_virtual v self4)) with (sp_events self4). rewrite (mv_updates _ _ M4), (rd_updates _ _ R3). cbn [sp_events post]. rewrite own_updates_app.
    change (sp_events (put_real s2 self2)) with (sp_events self2). by rewrite (mv_updates _ _ M2), (ad_updates _ _ _ A).
Qed.
End invariant.
