(* ===== verification/BlockId.v ===== *)
(** * Byte strings and identifiers of blocks

    Little-endian integers, readers that consume a prefix of a byte string, and
    UTF-8 validity, as the serialisers of [storage/src] use them.  A byte is an
    [N] below 256. *)

From S2P Require Import Prelude.

Definition byte_ok (x : N) : Prop := x < 256.

(** [to_le_bytes] of an integer of [n] bytes *)
Fixpoint le_bytes (n : nat) (x : N) : list N :=
  match n with O => [] | S n' => x mod 256 :: le_bytes n' (x / 256) end.

(** [from_le_bytes] *)
Fixpoint le_value (l : list N) : N :=
  match l with [] => 0 | b :: l' => b + 256 * le_value l' end.

(** [read_exact]: the next [n] bytes, or an error at the end of the input. *)
Definition read_exact (n : nat) (input : list N) : option (list N * list N) :=
  if (n <=? length input)%nat then Some (take n input, drop n input) else None.

(** [read_le_u16], [read_le_u32], [read_le_u64] *)
Definition read_le (n : nat) (input : list N) : option (N * list N) :=
  p ← read_exact n input; Some (le_value (fst p), snd p).

Definition pow256 (n : nat) : N := 256 ^ N.of_nat n.

Lemma pow256_S n : pow256 (S n) = 256 * pow256 n.
Proof. unfold pow256. rewrite Nat2N.inj_succ, N.pow_succ_r'. done. Qed.

Lemma le_bytes_length n x : length (le_bytes n x) = n.
Proof. revert x. induction n as [|n IH]; intros x; simpl; [done|]. by rewrite IH. Qed.

Lemma le_bytes_ok n x : Forall byte_ok (le_bytes n x).
Proof.
  revert x. induction n as [|n IH]; intros x; simpl; constructor; [|done]. unfold byte_ok. by apply N.mod_upper_bound.
Qed.

Lemma le_value_bytes n x : le_value (le_bytes n x) = x mod pow256 n.
Proof.
  revert x. induction n as [|n IH]; intros x; [simpl; by rewrite N.mod_1_r|]. cbn [le_bytes le_value].
  rewrite IH, pow256_S, N.Div0.mod_mul_r. done.
Qed.

Lemma le_value_bound l : Forall byte_ok l → le_value l < pow256 (length l).
Proof.
  induction 1 as [|x l Hx _ IH]; [done|]. cbn [length le_value]. rewrite pow256_S. unfold byte_ok in Hx. lia.
Qed.

Lemma read_exact_app l rest : read_exact (length l) (l ++ rest) = Some (l, rest).
Proof.
  unfold read_exact. rewrite length_app. rewrite (proj2 (Nat.leb_le _ _)) by lia.
  by rewrite take_app_length, drop_app_length.
Qed.

Lemma read_exact_app_eq n l rest : length l = n → read_exact n (l ++ rest) = Some (l, rest).
Proof. intros <-. apply read_exact_app. Qed.

Lemma read_le_app n x rest : x < pow256 n → read_le n (le_bytes n x ++ rest) = Some (x, rest).
Proof.
  intros Hx. unfold read_le. rewrite (read_exact_app_eq n) by apply le_bytes_length. simpl.
  by rewrite le_value_bytes, N.mod_small.
Qed.

(** More input does not change what was read. *)
Lemma read_exact_extend n input more p rest :
  read_exact n input = Some (p, rest) → read_exact n (input ++ more) = Some (p, rest ++ more).
Proof.
  unfold read_exact. destruct (Nat.leb_spec n (length input)) as [Hn|]; [|done]. intros [= <- <-].
  rewrite (proj2 (Nat.leb_le _ _)) by (rewrite length_app; lia).
  by rewrite take_app_le, drop_app_le by done.
Qed.

Lemma read_le_extend n input more x rest :
  read_le n input = Some (x, rest) → read_le n (input ++ more) = Some (x, rest ++ more).
Proof.
  unfold read_le. destruct (read_exact n input) as [[p r]|] eqn:E; [|done]. intros [= <- <-].
  by rewrite (read_exact_extend _ _ more _ _ E).
Qed.

(** ** UTF-8 ([String::from_utf8]) *)
Definition is_cont (x : N) : bool := (128 <=? x) && (x <? 192).

(** The second byte of a character excludes overlong forms, surrogates and values
    above [0x10FFFF]. *)
Definition second_ok (lead x : N) : bool :=
  if lead =? 224 then (160 <=? x) && (x <? 192)
  else if lead =? 237 then (128 <=? x) && (x <? 160)
  else if lead =? 240 then (144 <=? x) && (x <? 192)
  else if lead =? 244 then (128 <=? x) && (x <? 144)
  else is_cont x.

Fixpoint is_utf8 (l : list N) : bool :=
  match l with
  | [] => true
  | a :: l1 =>
      if a <? 128 then is_utf8 l1
      else match l1 with
      | b :: l2 =>
          if (194 <=? a) && (a <? 224) then is_cont b && is_utf8 l2
          else match l2 with
          | c :: l3 =>
              if (224 <=? a) && (a <? 240) then second_ok a b && is_cont c && is_utf8 l3
              else match l3 with
              | d :: l4 => (240 <=? a) && (a <? 245) && second_ok a b && is_cont c && is_cont d && is_utf8 l4
              | [] => false
              end
          | [] => false
          end
      | [] => false
      end
  end.

(** ** Storage: block identifiers

    Models [storage/src/traits.rs]: the serialisation of shard identifiers and
    block identifiers.  [ShardIdent] is a type of another crate; a [UInt256] is a
    string of 32 bytes. *)

(** ** Shard identifiers *)
Class ShardIdents := {
  ShardIdent : Type;
  #[global] ShardIdent_eq_dec :: EqDecision ShardIdent;
  #[global] ShardIdent_countable :: Countable ShardIdent;
  workchain_id : ShardIdent → Z;
  shard_prefix_with_tag : ShardIdent → N;
  with_tagged_prefix : Z → N → option ShardIdent;
  shard_is_masterchain : ShardIdent → bool;
  intersect_with : ShardIdent → ShardIdent → bool;
  workchain_id_range s : (- 2 ^ 31 <= workchain_id s < 2 ^ 31)%Z;
  shard_prefix_range s : shard_prefix_with_tag s < two64;
  with_tagged_prefix_ok s : with_tagged_prefix (workchain_id s) (shard_prefix_with_tag s) = Some s;
}.

(** [i32] to [u32] and back, [as] casts *)
Definition i32_as_u32 (x : Z) : N := Z.to_N (x mod 2 ^ 32).
Definition u32_as_i32 (x : N) : Z := if x <? 2147483648 then Z.of_N x else (Z.of_N x - 2 ^ 32)%Z.

Section ids.
Context {S : ShardIdents}.

Definition ShardIdent_serialize (self : ShardIdent) : list N :=
  le_bytes 4 (i32_as_u32 (workchain_id self)) ++ le_bytes 8 (shard_prefix_with_tag self).

Definition ShardIdent_deserialize (input : list N) : option (ShardIdent * list N) :=
  '(workchain_id, input) ← read_le 4 input;
  '(shard_prefix_tagged, input) ← read_le 8 input;
  shard ← with_tagged_prefix (u32_as_i32 workchain_id) shard_prefix_tagged;
  Some (shard, input).

(** ** Block identifiers *)
Record BlockIdExt := {
  shard_id : ShardIdent;
  seq_no : N;
  root_hash : list N;
  file_hash : list N;
}.

#[global] Instance BlockIdExt_eq_dec : EqDecision BlockIdExt.
Proof. solve_decision. Defined.

#[global] Instance BlockIdExt_countable : Countable BlockIdExt.
Proof.
  apply (inj_countable' (λ i, (shard_id i, seq_no i, root_hash i, file_hash i))
    (λ '(s, n, r, f), {| shard_id := s; seq_no := n; root_hash := r; file_hash := f |})). by intros [].
Defined.

Definition is_masterchain (id : BlockIdExt) : bool := shard_is_masterchain (shard_id id).

Definition BlockIdExt_serialize (self : BlockIdExt) : list N :=
  ShardIdent_serialize (shard_id self) ++ le_bytes 4 (seq_no self) ++ root_hash self ++ file_hash self.

Definition BlockIdExt_deserialize (input : list N) : option (BlockIdExt * list N) :=
  '(shard_id, input) ← ShardIdent_deserialize input;
  '(seq_no, input) ← read_le 4 input;
  '(root_hash, input) ← read_exact 32 input;
  '(file_hash, input) ← read_exact 32 input;
  Some ({| shard_id := shard_id; seq_no := seq_no; root_hash := root_hash; file_hash := file_hash |}, input).

(** ** Facts *)
Record block_id_ok (id : BlockIdExt) : Prop := {
  bi_seq_no : seq_no id < two32;
  bi_root_hash : length (root_hash id) = 32%nat;
  bi_file_hash : length (file_hash id) = 32%nat;
}.

Lemma i32_roundtrip x : (- 2 ^ 31 <= x < 2 ^ 31)%Z → i32_as_u32 x < two32 ∧ u32_as_i32 (i32_as_u32 x) = x.
Proof.
  intros Hx. unfold i32_as_u32, u32_as_i32, two32.
  assert (Hm : (0 <= x mod 2 ^ 32 < 2 ^ 32)%Z) by (apply Z.mod_pos_bound; lia). split; [lia|].
  rewrite Z2N.id by lia. destruct (Z.lt_ge_cases x 0).
  - rewrite <- (Z.mod_add x 1) by lia. rewrite Z.mod_small by lia. destruct (N.ltb_spec (Z.to_N (x + 1 * 2 ^ 32)) 2147483648); lia.
  - rewrite Z.mod_small by lia. destruct (N.ltb_spec (Z.to_N x) 2147483648); lia.
Qed.

Lemma shard_ident_roundtrip s rest : ShardIdent_deserialize (ShardIdent_serialize s ++ rest) = Some (s, rest).
Proof.
  destruct (i32_roundtrip _ (workchain_id_range s)) as [Hlt Hr]. unfold ShardIdent_deserialize, ShardIdent_serialize.
  rewrite <- !app_assoc, read_le_app by done. cbn [mbind option_bind]. rewrite read_le_app by apply shard_prefix_range.
  cbn [mbind option_bind]. rewrite Hr, with_tagged_prefix_ok. done.
Qed.

Lemma block_id_roundtrip id rest :
  block_id_ok id → BlockIdExt_deserialize (BlockIdExt_serialize id ++ rest) = Some (id, rest).
Proof.
  intros [Hs Hr Hf]. unfold BlockIdExt_deserialize, BlockIdExt_serialize. rewrite <- !app_assoc, shard_ident_roundtrip.
  cbn [mbind option_bind]. rewrite read_le_app by done. cbn [mbind option_bind].
  rewrite (read_exact_app_eq 32) by done. cbn [mbind option_bind]. rewrite (read_exact_app_eq 32) by done.
  cbn [mbind option_bind]. by destruct id.
Qed.
End ids.
