(* ===== verification/BlockMeta.v ===== *)
(** * Storage: block meta data and block handles

    Models [storage/src/types/block_meta.rs] and the flags and masterchain
    reference of [storage/src/types/block_handle.rs].  The flags (upper half) and
    the masterchain reference (lower half) share one atomic word; [fetch_or]
    returns the old word.  File locks, the handle cache and telemetry are not
    modelled. *)

From S2P Require Import Prelude BlockId.

Definition as_u32 (x : N) : N := x mod two32.

(** ** [BlockMeta] *)
Record BlockMeta := {
  bm_flags : N;
  bm_gen_utime : N;
  bm_gen_lt : N;
}.

Definition BlockMeta_with_data (flags gen_utime gen_lt masterchain_ref_seq_no : N) : BlockMeta :=
  {| bm_flags := N.lor (N.shiftl flags 32) masterchain_ref_seq_no; bm_gen_utime := gen_utime; bm_gen_lt := gen_lt |}.

Definition BlockMeta_default : BlockMeta := {| bm_flags := 0; bm_gen_utime := 0; bm_gen_lt := 0 |}.

Definition BlockMeta_flags (self : BlockMeta) : N := as_u32 (N.shiftr (bm_flags self) 32).

(** [fetch_or]: the old word and the new state. *)
Definition fetch_or (self : BlockMeta) (bits : N) : N * BlockMeta :=
  (bm_flags self, {| bm_flags := N.lor (bm_flags self) bits; bm_gen_utime := bm_gen_utime self;
                     bm_gen_lt := bm_gen_lt self |}).

Definition BlockMeta_set_flags (self : BlockMeta) (flags : N) : N * BlockMeta :=
  let '(old, self) := fetch_or self (N.shiftl flags 32) in (as_u32 (N.shiftr old 32), self).

Definition BlockMeta_masterchain_ref_seq_no (self : BlockMeta) : N := as_u32 (bm_flags self).

Definition BlockMeta_set_masterchain_ref_seq_no (self : BlockMeta) (masterchain_ref_seq_no : N) : N * BlockMeta :=
  let '(old, self) := fetch_or self masterchain_ref_seq_no in (as_u32 old, self).

(** Flags above [0xFFFF] are not stored. *)
Definition FLAG_MASK : N := 281474976710655.

Definition BlockMeta_serialize (self : BlockMeta) : list N :=
  le_bytes 8 (N.land (bm_flags self) FLAG_MASK) ++ le_bytes 4 (bm_gen_utime self) ++ le_bytes 8 (bm_gen_lt self).

Definition BlockMeta_deserialize (input : list N) : option (BlockMeta * list N) :=
  '(flags, input) ← read_le 8 input;
  '(gen_utime, input) ← read_le 4 input;
  '(gen_lt, input) ← read_le 8 input;
  let masterchain_ref_seq_no := as_u32 flags in
  let flags := as_u32 (N.shiftr flags 32) in
  Some (BlockMeta_with_data flags gen_utime gen_lt masterchain_ref_seq_no, input).

(** ** [BlockHandle] *)
Definition FLAG_DATA : N := 1.
Definition FLAG_PROOF : N := 2.
Definition FLAG_PROOF_LINK : N := 4.
Definition FLAG_STATE : N := 16.
Definition FLAG_PERSISTENT_STATE : N := 32.
Definition FLAG_NEXT_1 : N := 64.
Definition FLAG_NEXT_2 : N := 128.
Definition FLAG_PREV_1 : N := 256.
Definition FLAG_PREV_2 : N := 512.
Definition FLAG_APPLIED : N := 1024.
Definition FLAG_KEY_BLOCK : N := 2048.
Definition FLAG_MOVED_TO_ARCHIVE : N := 8192.
Definition FLAG_INDEXED : N := 16384.
Definition FLAG_ARCHIVING : N := 65536.

Definition all_flags : list N :=
  [FLAG_DATA; FLAG_PROOF; FLAG_PROOF_LINK; FLAG_STATE; FLAG_PERSISTENT_STATE; FLAG_NEXT_1; FLAG_NEXT_2; FLAG_PREV_1;
   FLAG_PREV_2; FLAG_APPLIED; FLAG_KEY_BLOCK; FLAG_MOVED_TO_ARCHIVE; FLAG_INDEXED; FLAG_ARCHIVING].

Definition is_flag_set (meta : BlockMeta) (flag : N) : bool := N.land (BlockMeta_flags meta) flag =? flag.

(** [true] when the flag was not set before. *)
Definition set_flag (meta : BlockMeta) (flag : N) : bool * BlockMeta :=
  let '(old, meta) := BlockMeta_set_flags meta flag in (negb (N.land old flag =? flag), meta).

Section handle.
Context {S : ShardIdents}.

Record BlockHandle := { bh_id : BlockIdExt; bh_meta : BlockMeta }.
Implicit Types (self : BlockHandle).

Definition BlockHandle_new (id : BlockIdExt) : BlockHandle := {| bh_id := id; bh_meta := BlockMeta_default |}.

Definition handle_set_flag self (flag : N) : bool * BlockHandle :=
  let '(changed, meta) := set_flag (bh_meta self) flag in (changed, {| bh_id := bh_id self; bh_meta := meta |}).

Definition has_data self : bool := is_flag_set (bh_meta self) FLAG_DATA.
Definition has_proof self : bool := is_flag_set (bh_meta self) FLAG_PROOF.
Definition has_proof_link self : bool := is_flag_set (bh_meta self) FLAG_PROOF_LINK.
Definition is_archived self : bool := is_flag_set (bh_meta self) FLAG_MOVED_TO_ARCHIVE.
Definition is_key_block self : bool := is_flag_set (bh_meta self) FLAG_KEY_BLOCK.

Definition set_archived self : bool * BlockHandle := handle_set_flag self FLAG_MOVED_TO_ARCHIVE.
Definition set_moving_to_archive self : bool * BlockHandle := handle_set_flag self FLAG_ARCHIVING.

(** [has_proof_or_link]: the answer and whether a proof link is meant. *)
Definition has_proof_or_link self : bool * bool :=
  let is_link := negb (is_masterchain (bh_id self)) in
  (is_link, if is_link then has_proof_link self else has_proof self).

Definition BlockHandle_masterchain_ref_seq_no self : N :=
  if is_masterchain (bh_id self) then seq_no (bh_id self) else BlockMeta_masterchain_ref_seq_no (bh_meta self).

(** The error leaves the new state behind. *)
Definition BlockHandle_set_masterchain_ref_seq_no self (masterchain_ref_seq_no : N) : option bool * BlockHandle :=
  let '(prev, meta) := BlockMeta_set_masterchain_ref_seq_no (bh_meta self) masterchain_ref_seq_no in
  let self := {| bh_id := bh_id self; bh_meta := meta |} in
  if prev =? 0 then (Some true, self)
  else if prev =? masterchain_ref_seq_no then (Some false, self)
  else (None, self).
End handle.

(** ** Facts *)
Definition meta_ok (m : BlockMeta) : Prop := bm_flags m < two64 ∧ bm_gen_utime m < two32 ∧ bm_gen_lt m < two64.

Lemma testbit_below x n i : x < 2 ^ n → n <= i → N.testbit x i = false.
Proof.
  intros Hx Hi. destruct (decide (x = 0)) as [->|Hz]; [apply N.bits_0|]. apply N.bits_above_log2.
  apply N.log2_lt_pow2 in Hx; lia.
Qed.

Lemma below_testbit x n : (∀ i, n <= i → N.testbit x i = false) → x < 2 ^ n.
Proof.
  intros H. destruct (decide (x = 0)) as [->|Hz]; [apply N.neq_0_lt_0, N.pow_nonzero; lia|].
  apply N.log2_lt_pow2; [lia|]. destruct (N.lt_ge_cases (N.log2 x) n) as [|Hge]; [done|].
  specialize (H _ Hge). rewrite N.bit_log2 in H; done.
Qed.

Lemma as_u32_testbit x i : N.testbit (as_u32 x) i = (i <? 32) && N.testbit x i.
Proof.
  unfold as_u32. change two32 with (2 ^ 32). destruct (N.ltb_spec i 32).
  - by rewrite N.mod_pow2_bits_low.
  - by rewrite N.mod_pow2_bits_high.
Qed.

Lemma as_u32_small x : x < two32 → as_u32 x = x.
Proof. apply N.mod_small. Qed.

(** The halves of the word. *)
Lemma flags_lor m flags :
  BlockMeta_flags {| bm_flags := N.lor (bm_flags m) (N.shiftl flags 32); bm_gen_utime := bm_gen_utime m;
                     bm_gen_lt := bm_gen_lt m |} = N.lor (BlockMeta_flags m) (as_u32 flags).
Proof.
  apply N.bits_inj. intros i. unfold BlockMeta_flags. cbn [bm_flags].
  rewrite N.lor_spec, !as_u32_testbit, !N.shiftr_spec', N.lor_spec, N.shiftl_spec_high' by lia.
  rewrite N.add_sub. by destruct (i <? 32), (N.testbit (bm_flags m) (i + 32)).
Qed.

Lemma ref_lor_flags x flags : as_u32 (N.lor x (N.shiftl flags 32)) = as_u32 x.
Proof.
  apply N.bits_inj. intros i. rewrite !as_u32_testbit, N.lor_spec. destruct (N.ltb_spec i 32); [|done].
  rewrite N.shiftl_spec_low by done. by rewrite orb_false_r.
Qed.

Lemma flags_lor_ref x n : n < two32 → N.shiftr (N.lor x n) 32 = N.shiftr x 32.
Proof.
  intros Hn. apply N.bits_inj. intros i. rewrite !N.shiftr_spec', N.lor_spec.
  rewrite (testbit_below n 32) by (done || lia). apply orb_false_r.
Qed.

Lemma ref_lor_ref x n : n < two32 → as_u32 (N.lor x n) = N.lor (as_u32 x) n.
Proof.
  intros Hn. apply N.bits_inj. intros i. rewrite N.lor_spec, !as_u32_testbit, N.lor_spec.
  destruct (N.ltb_spec i 32); [done|]. symmetry. by apply (testbit_below n 32).
Qed.

Lemma with_data_ok flags utime lt ref :
  flags < two32 → ref < two32 → let m := BlockMeta_with_data flags utime lt ref in
  BlockMeta_flags m = flags ∧ BlockMeta_masterchain_ref_seq_no m = ref.
Proof.
  intros Hf Hr. simpl. unfold BlockMeta_flags, BlockMeta_masterchain_ref_seq_no. cbn [BlockMeta_with_data bm_flags]. split.
  - rewrite flags_lor_ref by done. rewrite N.shiftr_shiftl_l, N.sub_diag, N.shiftl_0_r by lia. by apply as_u32_small.
  - rewrite N.lor_comm, ref_lor_flags. by apply as_u32_small.
Qed.

(** ** Flags *)
Lemma set_flag_flags m flag :
  flag < two32 → BlockMeta_flags (snd (set_flag m flag)) = N.lor (BlockMeta_flags m) flag ∧
  BlockMeta_masterchain_ref_seq_no (snd (set_flag m flag)) = BlockMeta_masterchain_ref_seq_no m ∧
  fst (set_flag m flag) = negb (is_flag_set m flag).
Proof.
  intros Hf. unfold set_flag, BlockMeta_set_flags, fetch_or. cbn [fst snd].
  rewrite flags_lor, as_u32_small by done. split; [done|]. split; [|done].
  unfold BlockMeta_masterchain_ref_seq_no. cbn [bm_flags]. apply ref_lor_flags.
Qed.

(** The flags are different bits. *)
Definition flag_bit (flag : N) : N := N.log2 flag.

Lemma all_flags_bits flag : flag ∈ all_flags → flag = 2 ^ flag_bit flag ∧ flag < two32.
Proof.
  assert (Hall : Forall (λ f, f = 2 ^ flag_bit f ∧ f < two32) all_flags) by (repeat constructor).
  rewrite list.Forall_forall in Hall. apply Hall.
Qed.

Lemma flag_set_testbit m flag : flag ∈ all_flags → is_flag_set m flag = N.testbit (BlockMeta_flags m) (flag_bit flag).
Proof.
  intros [Hf _]%all_flags_bits. unfold is_flag_set. set (i := flag_bit flag) in *. rewrite Hf.
  destruct (N.testbit (BlockMeta_flags m) i) eqn:E.
  - apply N.eqb_eq. apply N.bits_inj. intros j. rewrite N.land_spec. destruct (decide (j = i)) as [->|Hne].
    + rewrite E. by rewrite N.pow2_bits_true.
    + rewrite N.pow2_bits_false by done. apply andb_false_r.
  - apply N.eqb_neq. intros Heq. assert (Hb : N.testbit (N.land (BlockMeta_flags m) (2 ^ i)) i = true).
    { by rewrite Heq, N.pow2_bits_true. }
    rewrite N.land_spec, E in Hb. done.
Qed.

Lemma set_flag_others m flag other :
  flag ∈ all_flags → other ∈ all_flags →
  is_flag_set (snd (set_flag m flag)) other = (other =? flag) || is_flag_set m other.
Proof.
  intros Hf Ho. destruct (all_flags_bits _ Hf) as [Hfb Hf32]. destruct (all_flags_bits _ Ho) as [Hob _].
  rewrite !flag_set_testbit by done. rewrite (proj1 (set_flag_flags m flag Hf32)), N.lor_spec, orb_comm. f_equal.
  rewrite Hfb at 1. rewrite N.pow2_bits_eqb. destruct (N.eqb_spec (flag_bit flag) (flag_bit other)) as [E|E].
  - symmetry. apply N.eqb_eq. congruence.
  - symmetry. apply N.eqb_neq. congruence.
Qed.

(** ** Serialisation *)
Lemma land_mask x : N.land x FLAG_MASK = x mod 2 ^ 48.
Proof. change FLAG_MASK with (N.ones 48). apply N.land_ones. Qed.

Lemma meta_roundtrip m rest :
  meta_ok m →
  ∃ m', BlockMeta_deserialize (BlockMeta_serialize m ++ rest) = Some (m', rest) ∧
    BlockMeta_flags m' = N.land (BlockMeta_flags m) 65535 ∧
    BlockMeta_masterchain_ref_seq_no m' = BlockMeta_masterchain_ref_seq_no m ∧
    bm_gen_utime m' = bm_gen_utime m ∧ bm_gen_lt m' = bm_gen_lt m.
Proof.
  intros (Hf & Hu & Hl). unfold BlockMeta_serialize, BlockMeta_deserialize. rewrite <- !app_assoc.
  assert (Hlt : N.land (bm_flags m) FLAG_MASK < pow256 8).
  { rewrite land_mask. change (pow256 8) with (2 ^ 64). etrans; [apply N.mod_upper_bound; lia|done]. }
  do 3 (rewrite read_le_app by done; cbn [mbind option_bind]).
  eexists. split; [done|]. set (x := N.land (bm_flags m) FLAG_MASK).
  destruct (with_data_ok (as_u32 (N.shiftr x 32)) (bm_gen_utime m) (bm_gen_lt m) (as_u32 x)) as [H1 H2];
    [by apply N.mod_upper_bound..|]. simpl in H1, H2. rewrite H1, H2. split_and!; try done.
  - apply N.bits_inj. intros i. rewrite N.land_spec, as_u32_testbit, N.shiftr_spec'. unfold BlockMeta_flags.
    rewrite as_u32_testbit, N.shiftr_spec'. unfold x. rewrite N.land_spec. change FLAG_MASK with (N.ones 48).
    change 65535 with (N.ones 16). destruct (N.lt_ge_cases i 16).
    + rewrite !N.ones_spec_low by lia. by rewrite !andb_true_r.
    + rewrite !N.ones_spec_high by lia. by rewrite !andb_false_r.
  - apply N.bits_inj. intros i. unfold BlockMeta_masterchain_ref_seq_no. rewrite !as_u32_testbit. unfold x.
    rewrite N.land_spec. change FLAG_MASK with (N.ones 48). destruct (N.ltb_spec i 32); [|done].
    rewrite N.ones_spec_low by lia. by rewrite andb_true_r.
Qed.

(** Of the flags of a handle only the mark of the move to the archive is not
    stored. *)
Lemma meta_roundtrip_flags m rest :
  meta_ok m →
  ∃ m', BlockMeta_deserialize (BlockMeta_serialize m ++ rest) = Some (m', rest) ∧
    BlockMeta_masterchain_ref_seq_no m' = BlockMeta_masterchain_ref_seq_no m ∧
    bm_gen_utime m' = bm_gen_utime m ∧ bm_gen_lt m' = bm_gen_lt m ∧
    (∀ flag, flag ∈ all_flags → flag ≠ FLAG_ARCHIVING → is_flag_set m' flag = is_flag_set m flag) ∧
    is_flag_set m' FLAG_ARCHIVING = false.
Proof.
  intros Hm. assert (Hbits : Forall (λ f, f ≠ FLAG_ARCHIVING → flag_bit f < 16) all_flags).
  { unfold all_flags. repeat constructor; try (vm_compute; done). }
  rewrite list.Forall_forall in Hbits. destruct (meta_roundtrip m rest Hm) as (m' & H1 & H2 & H3 & H4 & H5). exists m'. split_and!; try done.
  - intros flag Hf Hne. rewrite !flag_set_testbit, H2, N.land_spec by done. change 65535 with (N.ones 16).
    rewrite N.ones_spec_low by auto. apply andb_true_r.
  - rewrite flag_set_testbit, H2, N.land_spec by (unfold all_flags; set_solver). apply andb_false_r.
Qed.

(** ** The masterchain reference *)
Lemma set_ref_meta m n :
  n < two32 → BlockMeta_set_masterchain_ref_seq_no m n =
    (BlockMeta_masterchain_ref_seq_no m, snd (fetch_or m n)) ∧
  BlockMeta_masterchain_ref_seq_no (snd (fetch_or m n)) = N.lor (BlockMeta_masterchain_ref_seq_no m) n ∧
  BlockMeta_flags (snd (fetch_or m n)) = BlockMeta_flags m.
Proof.
  intros Hn. unfold BlockMeta_set_masterchain_ref_seq_no, fetch_or. split; [done|]. cbn [snd].
  unfold BlockMeta_masterchain_ref_seq_no, BlockMeta_flags. cbn [bm_flags]. split; [by apply ref_lor_ref|].
  by rewrite flags_lor_ref.
Qed.
