(* ===== verification/Package.v ===== *)
(** * Storage: package files

    Models [storage/src/archives/package_entry.rs] and
    [storage/src/archives/package.rs].  A package is a file: a header and the
    entries one after the other, each a header, a file name and data.  The state
    holds the content of the file; the write lock makes an append one step.
    [None] is the error of a [Result]. *)

From S2P Require Import Prelude BlockId.

(** ** Entries *)
Definition PKG_ENTRY_HEADER_SIZE : N := 8.
Definition PKG_ENTRY_HEADER_MAGIC : N := 7819.

Record PackageEntryHeader := {
  filename_size : N;
  data_size : N;
}.

Definition calc_entry_size (self : PackageEntryHeader) : N :=
  PKG_ENTRY_HEADER_SIZE + filename_size self + data_size self.

Definition PackageEntryHeader_serialize (self : PackageEntryHeader) : list N :=
  le_bytes 2 PKG_ENTRY_HEADER_MAGIC ++ le_bytes 2 (filename_size self) ++ le_bytes 4 (data_size self).

Definition PackageEntryHeader_deserialize (input : list N) : option (PackageEntryHeader * list N) :=
  '(magic, input) ← read_le 2 input;
  if negb (magic =? PKG_ENTRY_HEADER_MAGIC) then None else
  '(filename_size, input) ← read_le 2 input;
  '(data_size, input) ← read_le 4 input;
  Some ({| filename_size := filename_size; data_size := data_size |}, input).

(** The file name as its UTF-8 bytes. *)
Record PackageEntry := {
  entry_filename : list N;
  entry_data : list N;
}.

(** [read_from]: an error, the end of the input ([Some None]), or an entry and the
    rest of the input. *)
Definition PackageEntry_read_from (input : list N) : option (option (PackageEntry * list N)) :=
  match read_exact 8 input with
  | None => Some None
  | Some (buf, input) =>
      entry_header ← PackageEntryHeader_deserialize buf;
      '(filename, input) ← read_exact (N.to_nat (filename_size (fst entry_header))) input;
      if negb (is_utf8 filename) then None else
      '(data, input) ← read_exact (N.to_nat (data_size (fst entry_header))) input;
      Some (Some ({| entry_filename := filename; entry_data := data |}, input))
  end.

(** [write_to]: the bytes written and the reported size; the lengths are cast to
    [u16] and [u32]. *)
Definition PackageEntry_write_to (self : PackageEntry) : list N * N :=
  let entry_header := {| filename_size := N.of_nat (length (entry_filename self)) mod 65536;
                         data_size := N.of_nat (length (entry_data self)) mod two32 |} in
  (PackageEntryHeader_serialize entry_header ++ entry_filename self ++ entry_data self, calc_entry_size entry_header).

(** ** Packages *)
Definition PKG_HEADER_SIZE : N := 4.
Definition PKG_HEADER_MAGIC : N := 2928663809.

Record Package := {
  pkg_read_only : bool;
  pkg_size : N;
  pkg_file : list N;
}.

Definition read_header (input : list N) : option (list N) :=
  '(magic, input) ← read_le 4 input;
  if negb (magic =? PKG_HEADER_MAGIC) then None else Some input.

(** [open] on the content of the file, if it exists. *)
Definition Package_open (file : option (list N)) (read_only create : bool) : option Package :=
  content ← match file with Some content => Some content | None => if create then Some [] else None end;
  let size := N.of_nat (length content) in
  if size <? PKG_HEADER_SIZE then
    if negb create then None else
    let content := le_bytes 4 PKG_HEADER_MAGIC in
    Some {| pkg_read_only := read_only; pkg_size := PKG_HEADER_SIZE; pkg_file := content |}
  else
    _ ← read_header content;
    Some {| pkg_read_only := read_only; pkg_size := size; pkg_file := content |}.

Definition Package_size (self : Package) : N := pkg_size self - PKG_HEADER_SIZE.

(** [set_len] cuts the file or fills it with zeros. *)
Definition set_len (file : list N) (len : nat) : list N := take len file ++ replicate (len - length file) 0.

(** The counter is changed before the file is opened. *)
Definition Package_truncate (self : Package) (size : N) : option unit * Package :=
  let new_size := PKG_HEADER_SIZE + size in
  if pkg_read_only self then
    (None, {| pkg_read_only := true; pkg_size := new_size; pkg_file := pkg_file self |})
  else
    (Some (), {| pkg_read_only := false; pkg_size := new_size;
                 pkg_file := set_len (pkg_file self) (N.to_nat new_size) |}).

Definition Package_read_entry (self : Package) (offset : N) : option PackageEntry :=
  if Package_size self <=? offset + PKG_ENTRY_HEADER_SIZE then None else
  res ← PackageEntry_read_from (drop (N.to_nat (PKG_HEADER_SIZE + offset)) (pkg_file self));
  fst <$> res.

(** [append_entry]: the offset and the new size that [after_append] is called
    with. *)
Definition Package_append_entry (self : Package) (entry : PackageEntry) : outcome (option (N * N) * Package) :=
  _ ← assert_that (N.of_nat (length (entry_filename entry)) <=? 65535);
  _ ← assert_that (N.of_nat (length (entry_data entry)) <=? u32_max);
  if pkg_read_only self then Done (None, self) else
  let entry_offset := Package_size self in
  let '(bytes, entry_size) := PackageEntry_write_to entry in
  Done (Some (entry_offset, entry_offset + entry_size),
        {| pkg_read_only := pkg_read_only self; pkg_size := u64_add (pkg_size self) entry_size;
           pkg_file := pkg_file self ++ bytes |}).

(** [read_package_from] and [PackageReader::next] until the end of the input;
    [None] on the first error or when the fuel runs out. *)
Fixpoint read_entries (fuel : nat) (input : list N) : option (list PackageEntry) :=
  match fuel with
  | O => None
  | S fuel' =>
      res ← PackageEntry_read_from input;
      match res with
      | None => Some []
      | Some (entry, input) => entries ← read_entries fuel' input; Some (entry :: entries)
      end
  end.

Definition read_package (input : list N) : option (list PackageEntry) :=
  input ← read_header input; read_entries (S (length input)) input.

(** ** Facts *)
Record entry_ok (e : PackageEntry) : Prop := {
  eo_name : N.of_nat (length (entry_filename e)) <= 65535;
  eo_utf8 : is_utf8 (entry_filename e) = true;
  eo_data : N.of_nat (length (entry_data e)) <= u32_max;
  eo_bytes : Forall byte_ok (entry_filename e ++ entry_data e);
}.

Lemma header_roundtrip h rest :
  filename_size h < 65536 → data_size h < two32 →
  PackageEntryHeader_deserialize (PackageEntryHeader_serialize h ++ rest) = Some (h, rest).
Proof.
  intros Hf Hd. unfold PackageEntryHeader_deserialize, PackageEntryHeader_serialize. rewrite <- !app_assoc.
  rewrite read_le_app by done. cbn [mbind option_bind]. rewrite N.eqb_refl. cbn [negb].
  do 2 (rewrite read_le_app by done; cbn [mbind option_bind]). by destruct h.
Qed.

Lemma header_serialize_length h : length (PackageEntryHeader_serialize h) = 8%nat.
Proof. unfold PackageEntryHeader_serialize. by rewrite !length_app, !le_bytes_length. Qed.

Lemma entry_roundtrip e rest :
  entry_ok e → PackageEntry_read_from (fst (PackageEntry_write_to e) ++ rest) = Some (Some (e, rest)).
Proof.
  intros [Hn Hu Hd _]. unfold PackageEntry_read_from, PackageEntry_write_to. cbn [fst]. rewrite <- !app_assoc.
  rewrite (read_exact_app_eq 8) by apply header_serialize_length. cbn [mbind option_bind].
  set (h := {| filename_size := _ |}). unfold u32_max in Hd.
  assert (Hf : filename_size h = N.of_nat (length (entry_filename e))) by (apply N.mod_small; lia).
  assert (Hs : data_size h = N.of_nat (length (entry_data e))) by (apply N.mod_small; unfold two32; lia).
  rewrite <- (app_nil_r (PackageEntryHeader_serialize h)), header_roundtrip by (rewrite ?Hf, ?Hs; unfold two32; lia).
  cbn [mbind option_bind fst]. rewrite Hf, Nat2N.id, read_exact_app. cbn [mbind option_bind]. rewrite Hu. cbn [negb].
  rewrite Hs, Nat2N.id, read_exact_app. cbn [mbind option_bind]. by destruct e.
Qed.

Lemma write_to_length e :
  entry_ok e → N.of_nat (length (fst (PackageEntry_write_to e))) = snd (PackageEntry_write_to e) ∧
  snd (PackageEntry_write_to e) = 8 + N.of_nat (length (entry_filename e)) + N.of_nat (length (entry_data e)).
Proof.
  intros [Hn _ Hd _]. unfold u32_max in Hd. unfold PackageEntry_write_to, calc_entry_size, PKG_ENTRY_HEADER_SIZE. cbn [fst snd].
  rewrite !length_app, header_serialize_length. cbn [filename_size data_size].
  rewrite !N.mod_small by (unfold two32; lia). split; lia.
Qed.

Lemma read_from_extend input more e rest :
  PackageEntry_read_from input = Some (Some (e, rest)) → PackageEntry_read_from (input ++ more) = Some (Some (e, rest ++ more)).
Proof.
  unfold PackageEntry_read_from. destruct (read_exact 8 input) as [[buf r1]|] eqn:E1; [|done].
  rewrite (read_exact_extend _ _ more _ _ E1). destruct (PackageEntryHeader_deserialize buf) as [[h r]|]; [|done].
  cbn [mbind option_bind fst]. destruct (read_exact (N.to_nat (filename_size h)) r1) as [[f r2]|] eqn:E2; [|done].
  rewrite (read_exact_extend _ _ more _ _ E2). cbn [mbind option_bind]. destruct (negb (is_utf8 f)); [done|].
  destruct (read_exact (N.to_nat (data_size h)) r2) as [[d r3]|] eqn:E3; [|done].
  rewrite (read_exact_extend _ _ more _ _ E3). cbn [mbind option_bind]. by intros [= <- <-].
Qed.

Lemma write_to_bytes e : entry_ok e → Forall byte_ok (fst (PackageEntry_write_to e)).
Proof.
  intros He. unfold PackageEntry_write_to, PackageEntryHeader_serialize. cbn [fst].
  apply Forall_app_2; [|apply (eo_bytes _ He)]. repeat apply Forall_app_2; apply le_bytes_ok.
Qed.

(** The counter is the length of the file, which starts with the header. *)
Record package_ok (p : Package) : Prop := {
  po_size : pkg_size p = N.of_nat (length (pkg_file p));
  po_header : ∃ body, pkg_file p = le_bytes 4 PKG_HEADER_MAGIC ++ body;
}.

Lemma package_size_body p body :
  package_ok p → pkg_file p = le_bytes 4 PKG_HEADER_MAGIC ++ body → Package_size p = N.of_nat (length body).
Proof.
  intros [Hs _] Hb. unfold Package_size. rewrite Hs, Hb, length_app, le_bytes_length. unfold PKG_HEADER_SIZE. lia.
Qed.

Lemma read_header_ok body : read_header (le_bytes 4 PKG_HEADER_MAGIC ++ body) = Some body.
Proof. unfold read_header. rewrite read_le_app by done. cbn [mbind option_bind]. by rewrite N.eqb_refl. Qed.

Lemma open_create_ok read_only : ∃ p, Package_open None read_only true = Some p ∧ package_ok p ∧ Package_size p = 0.
Proof. eexists. split; [done|]. split; [|done]. split; [done|]. by exists []. Qed.

(** A package that is opened again has the same content. *)
Lemma open_again p read_only create :
  package_ok p → Package_open (Some (pkg_file p)) read_only create =
    Some {| pkg_read_only := read_only; pkg_size := pkg_size p; pkg_file := pkg_file p |}.
Proof.
  intros [Hs (body & Hb)]. unfold Package_open. cbn [mbind option_bind].
  assert (Hge : PKG_HEADER_SIZE <= N.of_nat (length (pkg_file p))).
  { rewrite Hb, length_app, le_bytes_length. unfold PKG_HEADER_SIZE. lia. }
  rewrite (proj2 (N.ltb_ge _ _)) by done. rewrite Hb at 1. rewrite read_header_ok. cbn [mbind option_bind]. by rewrite Hs.
Qed.

(** Cutting a package back to an earlier size. *)
Lemma truncate_ok p body extra :
  package_ok p → pkg_read_only p = false → pkg_file p = le_bytes 4 PKG_HEADER_MAGIC ++ body ++ extra →
  ∃ p', Package_truncate p (N.of_nat (length body)) = (Some (), p') ∧ package_ok p' ∧ pkg_read_only p' = false ∧
    pkg_file p' = le_bytes 4 PKG_HEADER_MAGIC ++ body.
Proof.
  intros Hok Hro Hf. unfold Package_truncate. rewrite Hro. eexists. split; [done|].
  assert (Hlen : N.to_nat (PKG_HEADER_SIZE + N.of_nat (length body)) = length (le_bytes 4 PKG_HEADER_MAGIC ++ body)).
  { rewrite length_app, le_bytes_length. unfold PKG_HEADER_SIZE. lia. }
  assert (Hset : set_len (pkg_file p) (N.to_nat (PKG_HEADER_SIZE + N.of_nat (length body))) = le_bytes 4 PKG_HEADER_MAGIC ++ body).
  { unfold set_len. rewrite Hlen, Hf, app_assoc, take_app_length.
    rewrite (proj2 (Nat.sub_0_le _ _)) by (rewrite !length_app; lia). by rewrite app_nil_r. }
  rewrite Hset. split; [|done]. split; [|by exists body]. cbn [pkg_size pkg_file]. rewrite <- Hlen. lia.
Qed.

(** ** Appending *)
Lemma append_ok p e :
  package_ok p → pkg_read_only p = false → entry_ok e →
  pkg_size p + snd (PackageEntry_write_to e) < two64 →
  ∃ p', Package_append_entry p e = Done (Some (Package_size p, Package_size p'), p') ∧ package_ok p' ∧
    pkg_read_only p' = false ∧ pkg_file p' = pkg_file p ++ fst (PackageEntry_write_to e) ∧
    Package_size p' = Package_size p + snd (PackageEntry_write_to e).
Proof.
  intros Hok Hro He Hlt. pose proof (write_to_length e He) as [Hlen _]. destruct Hok as [Hs (body & Hb)].
  unfold Package_append_entry. rewrite (proj2 (N.leb_le (N.of_nat (length (entry_filename e))) _)) by apply He.
  rewrite (proj2 (N.leb_le _ _)) by apply He.
  cbn [assert_that mbind outcome_bind]. rewrite Hro. destruct (PackageEntry_write_to e) as [bytes size] eqn:Ew.
  cbn [fst snd] in *. set (p' := {| pkg_size := _ |}).
  assert (Hp' : pkg_size p' = pkg_size p + size) by (apply N.mod_small; done).
  assert (Hsize : Package_size p' = Package_size p + size).
  { unfold Package_size. rewrite Hp', Hs, Hb, length_app, le_bytes_length. unfold PKG_HEADER_SIZE. lia. }
  exists p'. split; [by rewrite Hsize|]. split_and!; try done. split.
  - rewrite Hp'. cbn [p' pkg_file]. rewrite length_app, Hs. lia.
  - exists (body ++ bytes). cbn [p' pkg_file]. by rewrite Hb, app_assoc.
Qed.

Lemma read_entry_extend p p' more offset e :
  package_ok p → package_ok p' → pkg_file p' = pkg_file p ++ more →
  Package_read_entry p offset = Some e → Package_read_entry p' offset = Some e.
Proof.
  intros [Hs (body & Hb)] [Hs' _] Hf H. unfold Package_read_entry, Package_size in *.
  rewrite Hs in H. rewrite Hs', Hf, length_app. unfold PKG_HEADER_SIZE, PKG_ENTRY_HEADER_SIZE in *.
  destruct (N.leb_spec (N.of_nat (length (pkg_file p)) - 4) (offset + 8)) as [|Hlt]; [done|].
  rewrite (proj2 (N.leb_gt _ _)) by lia. rewrite drop_app_le by lia.
  destruct (PackageEntry_read_from (drop _ (pkg_file p))) as [[[e' r]|]|] eqn:E; [|done..].
  rewrite (read_from_extend _ more _ _ E). exact H.
Qed.

Lemma read_appended p p' e :
  package_ok p → package_ok p' → entry_ok e → (0 < length (entry_filename e) + length (entry_data e))%nat →
  pkg_file p' = pkg_file p ++ fst (PackageEntry_write_to e) → Package_read_entry p' (Package_size p) = Some e.
Proof.
  intros Hok [Hs' _] He Hne Hf. pose proof (write_to_length e He) as [Hlen Hsize]. destruct Hok as [Hs (body & Hb)].
  unfold Package_read_entry, Package_size. rewrite Hs', Hs, Hf, length_app. unfold PKG_HEADER_SIZE, PKG_ENTRY_HEADER_SIZE.
  assert (Hge : (4 ≤ length (pkg_file p))%nat) by (rewrite Hb, length_app, le_bytes_length; lia).
  rewrite (proj2 (N.leb_gt _ _)) by lia.
  replace (N.to_nat _) with (length (pkg_file p)) by lia. rewrite drop_app_length.
  rewrite <- (app_nil_r (fst _)), entry_roundtrip by done. done.
Qed.

(** Reading a package from the start gives its entries. *)
Definition entries_bytes (es : list PackageEntry) : list N := concat (map (λ e, fst (PackageEntry_write_to e)) es).

Lemma read_entries_ok es fuel :
  Forall entry_ok es → (length es < fuel)%nat → read_entries fuel (entries_bytes es) = Some es.
Proof.
  intros Hes. revert fuel. induction Hes as [|e es He _ IH]; intros [|fuel] Hf; simpl in Hf; try lia; [done|].
  unfold entries_bytes. cbn [read_entries map concat]. rewrite entry_roundtrip by done. cbn [mbind option_bind].
  change (concat _) with (entries_bytes es). rewrite IH by lia. done.
Qed.

Lemma entries_bytes_length es : (length es ≤ length (entries_bytes es))%nat.
Proof.
  induction es as [|e es IH]; [done|]. unfold entries_bytes in *. cbn [map concat length].
  unfold PackageEntry_write_to at 1. cbn [fst]. rewrite !length_app, header_serialize_length. lia.
Qed.

Lemma read_package_ok es :
  Forall entry_ok es → read_package (le_bytes 4 PKG_HEADER_MAGIC ++ entries_bytes es) = Some es.
Proof.
  intros Hes. unfold read_package. rewrite read_header_ok. cbn [mbind option_bind].
  apply read_entries_ok; [done|]. pose proof (entries_bytes_length es). lia.
Qed.
