(* ===== verification/ArchiveSlice.v ===== *)
(** * Storage: archive slices

    Models [storage/src/archives/archive_slice.rs] with [package_id.rs],
    [package_info.rs], [package_entry_meta.rs] and the databases of a slice.  A
    slice keeps its entries in one package, or in sliced mode in packages of
    [slice_size] masterchain blocks each; the offset of an entry is recorded under
    the hash of its identifier, an arbitrary key here.

    The databases are finite maps and a committed transaction is one update.  The
    content of open packages is part of their state, [as_disk] are the files that
    were on disk when the slice was opened.  A slice is removed by
    its file map. *)

From S2P Require Import Prelude BlockId Package.

Definition ARCHIVE_SIZE : N := 100000.
Definition ARCHIVE_SLICE_SIZE : N := 20000.
Definition ARCHIVE_PACKAGE_SIZE : N := 100.
Definition KEY_ARCHIVE_SIZE : N := 10000000.
Definition KEY_ARCHIVE_PACKAGE_SIZE : N := 200000.

(** ** Package identifiers *)
Inductive PackageType := Blocks | KeyBlocks | Temp.
#[global] Instance PackageType_eq_dec : EqDecision PackageType.
Proof. solve_decision. Defined.

Record PackageId := { pid_id : N; pid_package_type : PackageType }.

Definition PackageId_for_block (mc_seq_no : N) : PackageId := {| pid_id := mc_seq_no; pid_package_type := Blocks |}.
Definition PackageId_for_key_block (mc_seq_no : N) : PackageId := {| pid_id := mc_seq_no; pid_package_type := KeyBlocks |}.
Definition PackageId_for_temp (ts : N) : PackageId := {| pid_id := ts - ts mod 3600; pid_package_type := Temp |}.

(** [PartialEq] and [PartialOrd] compare the number only. *)
Definition PackageId_eq (a b : PackageId) : bool := pid_id a =? pid_id b.
Definition PackageId_lt (a b : PackageId) : bool := pid_id a <? pid_id b.

(** ** State *)
Definition DEFAULT_PKG_VERSION : N := 1.

Record PackageEntryMeta := { em_entry_size : N; em_version : N }.

Record PackageInfo := {
  pi_seq_no : N;
  pi_package : Package;
  pi_idx : N;
  pi_version : N;
}.

(** The values of [PackageStatusDb]. *)
Record PackageStatus := {
  ps_sliced_mode : option bool;
  ps_total_slices : option N;
  ps_slice_size : option N;
  ps_non_sliced_size : option N;
}.

Record SliceDbs := {
  index_db : gmap N PackageEntryMeta;
  offsets_db : gmap N N;
  package_status_db : PackageStatus;
}.

Record ArchiveSlice := {
  as_archive_id : N;
  as_packages : list PackageInfo;
  as_sliced_mode : bool;
  as_slice_size : N;
  as_package_type : PackageType;
  as_finalized : bool;
  as_dbs : SliceDbs;
  as_disk : gmap N (list N);
}.

Implicit Types (self : ArchiveSlice) (dbs : SliceDbs) (disk : gmap N (list N)).

Definition with_packages (l : list PackageInfo) dbs self : ArchiveSlice :=
  {| as_archive_id := as_archive_id self; as_packages := l; as_sliced_mode := as_sliced_mode self;
     as_slice_size := as_slice_size self; as_package_type := as_package_type self; as_finalized := as_finalized self;
     as_dbs := dbs; as_disk := as_disk self |}.

Definition put_meta (idx : N) (meta : PackageEntryMeta) dbs : SliceDbs :=
  {| index_db := <[idx := meta]> (index_db dbs); offsets_db := offsets_db dbs;
     package_status_db := package_status_db dbs |}.
Definition put_offset (key offset : N) dbs : SliceDbs :=
  {| index_db := index_db dbs; offsets_db := <[key := offset]> (offsets_db dbs);
     package_status_db := package_status_db dbs |}.
Definition put_status (status : PackageStatus) dbs : SliceDbs :=
  {| index_db := index_db dbs; offsets_db := offsets_db dbs; package_status_db := status |}.
Definition put_total_slices (total : N) dbs : SliceDbs :=
  put_status {| ps_sliced_mode := ps_sliced_mode (package_status_db dbs); ps_total_slices := Some total;
                ps_slice_size := ps_slice_size (package_status_db dbs);
                ps_non_sliced_size := ps_non_sliced_size (package_status_db dbs) |} dbs.

(** ** Opening *)

(** [new_package]: the package of a sequence number is opened or created, and cut
    to the recorded size unless the slice is finalised. *)
Definition new_package (finalized : bool) disk (idx seq_no size version : N) : option PackageInfo :=
  package ← Package_open (disk !! seq_no) false true;
  package ← (if negb finalized && (DEFAULT_PKG_VERSION <=? version)
             then match Package_truncate package size with (Some _, p) => Some p | (None, _) => None end
             else Some package);
  Some {| pi_seq_no := seq_no; pi_package := package; pi_idx := idx; pi_version := version |}.

(** The loop over the slices of a stored slice. *)
Fixpoint open_slices (finalized : bool) disk dbs (archive_id slice_size : N) (indices : list N)
  : option (list PackageInfo) :=
  match indices with
  | [] => Some []
  | i :: indices' =>
      meta ← index_db dbs !! i;
      package ← new_package finalized disk i (u32_add archive_id (u32_mul slice_size i)) (em_entry_size meta) (em_version meta);
      packages ← open_slices finalized disk dbs archive_id slice_size indices';
      Some (package :: packages)
  end.

Definition default_slice_size (package_type : PackageType) : N :=
  match package_type with KeyBlocks => KEY_ARCHIVE_PACKAGE_SIZE | _ => ARCHIVE_PACKAGE_SIZE end.

Definition indices (n : N) : list N := N.of_nat <$> seq 0 (N.to_nat n).

(** [ArchiveSlice::with_data] on the content of the disk. *)
Definition ArchiveSlice_with_data disk dbs (archive_id : N) (package_type : PackageType) (finalized : bool)
  : outcome (option ArchiveSlice) :=
  let slice_size := default_slice_size package_type in
  let build packages sliced_mode slice_size dbs :=
    {| as_archive_id := archive_id; as_packages := packages; as_sliced_mode := sliced_mode; as_slice_size := slice_size;
       as_package_type := package_type; as_finalized := finalized; as_dbs := dbs; as_disk := disk |} in
  let status := package_status_db dbs in
  match ps_sliced_mode status with
  | Some true =>
      match ps_total_slices status, ps_slice_size status with
      | Some total_slices, Some slice_size =>
          _ ← assert_that (0 <? slice_size);
          Done (packages ← open_slices finalized disk dbs archive_id slice_size (indices total_slices);
                Some (build packages true slice_size dbs))
      | _, _ => Done None
      end
  | Some false =>
      Done (size ← ps_non_sliced_size status;
            package ← new_package finalized disk 0 archive_id size 0;
            Some (build [package] false slice_size dbs))
  | None =>
      if decide (package_type = Blocks) then
        let dbs := put_meta 0 {| em_entry_size := 0; em_version := DEFAULT_PKG_VERSION |} dbs in
        let dbs := put_status {| ps_sliced_mode := Some true; ps_total_slices := Some 1; ps_slice_size := Some slice_size;
                                 ps_non_sliced_size := ps_non_sliced_size status |} dbs in
        Done (package ← new_package finalized disk 0 archive_id 0 DEFAULT_PKG_VERSION;
              Some (build [package] true slice_size dbs))
      else
        let dbs := put_status {| ps_sliced_mode := Some false; ps_total_slices := ps_total_slices status;
                                 ps_slice_size := ps_slice_size status; ps_non_sliced_size := Some 0 |} dbs in
        Done (package ← new_package finalized disk 0 archive_id 0 0;
              Some (build [package] false slice_size dbs))
  end.

(** ** Operations *)
Definition get_archive_id self (mc_seq_no : N) : option N :=
  if negb (as_sliced_mode self) then Some (as_archive_id self) else
  if as_archive_id self <=? mc_seq_no then
    let idx := (mc_seq_no - as_archive_id self) / as_slice_size self in
    if idx <? N.of_nat (length (as_packages self)) then
      let package_id := u32_add (as_archive_id self) (u32_mul (as_slice_size self) idx) in
      Some (N.lor (N.shiftl package_id 32) (as_archive_id self))
    else None
  else None.

(** [choose_package]: the position of the package, which may be a new one. *)
Definition choose_package self (mc_seq_no : N) (force : bool) : outcome (option (nat * ArchiveSlice)) :=
  if negb (bool_decide (as_package_type self = Blocks)) || negb (as_sliced_mode self) then
    _ ← index (as_packages self) 0;
    Done (Some (O, self))
  else if mc_seq_no <? as_archive_id self then Done None else
  let idx := (mc_seq_no - as_archive_id self) / as_slice_size self in
  let package_count := N.of_nat (length (as_packages self)) in
  if idx <? package_count then Done (Some (N.to_nat idx, self)) else
  if negb force then Done None else
  if negb (idx =? package_count) then Done None else
  if negb ((mc_seq_no - as_archive_id self) mod as_slice_size self =? 0) then Done None else
  Done (pi ← new_package (as_finalized self) (as_disk self) idx mc_seq_no 0 DEFAULT_PKG_VERSION;
        let dbs := put_meta idx {| em_entry_size := 0; em_version := DEFAULT_PKG_VERSION |} (as_dbs self) in
        let dbs := put_total_slices (u32_add idx 1) dbs in
        Some (N.to_nat idx, with_packages (as_packages self ++ [pi]) dbs self)).

Definition set_package (pi : PackageInfo) (package : Package) : PackageInfo :=
  {| pi_seq_no := pi_seq_no pi; pi_package := package; pi_idx := pi_idx pi; pi_version := pi_version pi |}.

(** [add_file] for a block with masterchain reference [mc_seq_no]. *)
Definition ArchiveSlice_add_file self (mc_seq_no key : N) (filename data : list N) : outcome (option (list N) * ArchiveSlice) :=
  if bool_decide (is_Some (offsets_db (as_dbs self) !! key)) then Done (Some data, self) else
  chosen ← choose_package self mc_seq_no true;
  match chosen with
  | None => Done (None, self)
  | Some (pos, self) =>
      package_info ← unwrap (as_packages self !! pos);
      let entry := {| entry_filename := filename; entry_data := data |} in
      let idx := if as_sliced_mode self then pi_idx package_info else u32_max in
      res ← Package_append_entry (pi_package package_info) entry;
      match res with
      | (None, _) => Done (None, self)
      | (Some (offset, size), package) =>
          let dbs := put_meta idx {| em_entry_size := size; em_version := pi_version package_info |} (as_dbs self) in
          let dbs := put_offset key offset dbs in
          Done (Some (entry_data entry), with_packages (<[pos := set_package package_info package]> (as_packages self)) dbs self)
      end
  end.

Definition ArchiveSlice_get_file self (mc_seq_no key : N) : outcome (option PackageEntry) :=
  match offsets_db (as_dbs self) !! key with
  | None => Done None
  | Some offset =>
      chosen ← choose_package self mc_seq_no false;
      match chosen with
      | None => Done None
      | Some (pos, self) =>
          package_info ← unwrap (as_packages self !! pos);
          Done (entry ← Package_read_entry (pi_package package_info) offset;
                if (length (entry_data entry) =? 0)%nat then None else Some entry)
      end
  end.

(** [get_slice]: reads until the buffer is full or the file ends. *)
Definition get_slice self (archive_id offset limit : N) : outcome (option (list N)) :=
  if negb (archive_id mod two32 =? as_archive_id self) then Done None else
  let package_id := N.shiftr archive_id 32 mod two32 in
  chosen ← choose_package self package_id false;
  match chosen with
  | None => Done None
  | Some (pos, self) =>
      package_info ← unwrap (as_packages self !! pos);
      Done (Some (take (N.to_nat limit) (drop (N.to_nat offset) (pkg_file (pi_package package_info)))))
  end.
