(* ===== verification/ArchiveFacts.v ===== *)
(** * Storage: facts about archive slices

    The invariant of a slice, and what adding a file, reading it back and opening
    a slice after a crash do. *)

From S2P Require Import Prelude BlockId Package ArchiveSlice.

Implicit Types (self : ArchiveSlice) (dbs : SliceDbs) (disk : gmap N (list N)).

(** ** Packages on disk *)
Lemma le_value_inj l l' : Forall byte_ok l → Forall byte_ok l' → length l = length l' → le_value l = le_value l' → l = l'.
Proof.
  intros Hl. revert l'. induction Hl as [|x l Hx _ IH]; intros [|y l'] Hl' Hlen Hv; simpl in *; try done.
  apply Forall_cons_1 in Hl' as [Hy Hl']. unfold byte_ok in Hx, Hy.
  assert (x = y) as -> by lia. f_equal. apply IH; [done|lia|lia].
Qed.

Lemma read_header_inv input body :
  Forall byte_ok input → read_header input = Some body → input = le_bytes 4 PKG_HEADER_MAGIC ++ body.
Proof.
  intros Hin. unfold read_header, read_le, read_exact. destruct (Nat.leb_spec 4 (length input)) as [Hlen|]; [|done].
  cbn [mbind option_bind fst snd]. destruct (N.eqb_spec (le_value (take 4 input)) PKG_HEADER_MAGIC) as [Hm|]; [|done].
  cbn [negb]. intros [= <-]. rewrite <- (take_drop 4 input) at 1. f_equal.
  apply le_value_inj; [by apply Forall_take|apply le_bytes_ok|rewrite length_take, le_bytes_length; lia|].
  rewrite Hm. by vm_compute.
Qed.

(** Opening a file gives a package with the content of the file, or an empty one. *)
Lemma open_ok file read_only p :
  (∀ f, file = Some f → Forall byte_ok f) → Package_open file read_only true = Some p →
  package_ok p ∧ pkg_read_only p = read_only ∧ Forall byte_ok (pkg_file p).
Proof.
  intros Hf. unfold Package_open. set (o := match file with Some _ => _ | None => _ end).
  destruct o as [content|] eqn:Eo; [|done]. cbn [mbind option_bind].
  assert (Hc : Forall byte_ok content).
  { destruct file as [f|]; simpl in Eo; injection Eo as <-; [by apply Hf|constructor]. }
  destruct (N.ltb_spec (N.of_nat (length content)) PKG_HEADER_SIZE) as [Hlt|Hge]; cbn [negb].
  - intros [= <-]. split; [|split; [done|exact (le_bytes_ok 4 PKG_HEADER_MAGIC)]]. split; [done|]. by exists [].
  - destruct (read_header content) as [body|] eqn:Eh; [|done]. cbn [mbind option_bind]. intros [= <-].
    split; [|done]. split; [done|]. exists body. by apply read_header_inv.
Qed.

Lemma truncate_zero p :
  package_ok p → pkg_read_only p = false →
  ∃ p', Package_truncate p 0 = (Some (), p') ∧ package_ok p' ∧ pkg_read_only p' = false ∧
    pkg_file p' = le_bytes 4 PKG_HEADER_MAGIC.
Proof.
  intros Hok Hro. destruct (po_header p Hok) as (body & Hb).
  destruct (truncate_ok p [] body Hok Hro Hb) as (p' & ? & ? & ? & Hf). exists p'. rewrite app_nil_r in Hf. done.
Qed.

(** ** The invariant *)
Record slice_ok self : Prop := {
  so_size : 1 < as_slice_size self;
  so_nonempty : as_packages self ≠ [];
  so_disk s f : as_disk self !! s = Some f → Forall byte_ok f;
  so_package i pi : as_packages self !! i = Some pi →
    package_ok (pi_package pi) ∧ pkg_read_only (pi_package pi) = false ∧ pi_idx pi = N.of_nat i;
  so_bytes i pi : as_packages self !! i = Some pi → Forall byte_ok (pkg_file (pi_package pi));
  so_open : as_finalized self = false;
  so_sliced i pi : as_sliced_mode self = true → as_packages self !! i = Some pi →
    pi_version pi = DEFAULT_PKG_VERSION ∧ pi_seq_no pi = as_archive_id self + as_slice_size self * N.of_nat i ∧
    pi_seq_no pi < two32 ∧
    index_db (as_dbs self) !! N.of_nat i =
      Some {| em_entry_size := Package_size (pi_package pi); em_version := DEFAULT_PKG_VERSION |};
  so_status : as_sliced_mode self = true → as_package_type self = Blocks ∧
    ps_sliced_mode (package_status_db (as_dbs self)) = Some true ∧
    ps_total_slices (package_status_db (as_dbs self)) = Some (N.of_nat (length (as_packages self))) ∧
    ps_slice_size (package_status_db (as_dbs self)) = Some (as_slice_size self);
}.

Lemma slice_package_0 self : slice_ok self → is_Some (as_packages self !! 0%nat).
Proof. intros H. apply lookup_lt_is_Some_2. pose proof (so_nonempty _ H). destruct (as_packages self); [done|simpl; lia]. Qed.

(** The package for a sequence number, when it exists. *)
Definition position self (mc_seq_no : N) : option nat :=
  if as_sliced_mode self then
    if mc_seq_no <? as_archive_id self then None
    else let idx := (mc_seq_no - as_archive_id self) / as_slice_size self in
         if idx <? N.of_nat (length (as_packages self)) then Some (N.to_nat idx) else None
  else Some O.

Lemma choose_existing self mc_seq_no force pos :
  slice_ok self → position self mc_seq_no = Some pos →
  choose_package self mc_seq_no force = Done (Some (pos, self)) ∧ is_Some (as_packages self !! pos).
Proof.
  intros H. unfold position, choose_package. destruct (as_sliced_mode self) eqn:Es.
  - rewrite (bool_decide_eq_true_2 (as_package_type self = Blocks)) by (by apply (so_status _ H)). simpl.
    destruct (mc_seq_no <? as_archive_id self); [done|]. destruct (N.ltb_spec ((mc_seq_no - as_archive_id self) / as_slice_size self)
      (N.of_nat (length (as_packages self)))); [|done]. intros [= <-]. split; [done|]. apply lookup_lt_is_Some_2. lia.
  - intros [= <-]. rewrite orb_true_r. destruct (slice_package_0 _ H) as [pi Hpi].
    rewrite (index_Some _ 0 pi) by done. split; [done|]. eauto.
Qed.

Lemma choose_missing self mc_seq_no :
  slice_ok self → position self mc_seq_no = None → choose_package self mc_seq_no false = Done None.
Proof.
  intros H. unfold position, choose_package. destruct (as_sliced_mode self) eqn:Es; [|done].
  rewrite (bool_decide_eq_true_2 (as_package_type self = Blocks)) by (by apply (so_status _ H)). simpl.
  destruct (mc_seq_no <? as_archive_id self); [done|]. by destruct (_ <? _).
Qed.

(** A new package continues the slice. *)
Lemma choose_new self mc_seq_no pos self' :
  slice_ok self → mc_seq_no < two32 → position self mc_seq_no = None →
  choose_package self mc_seq_no true = Done (Some (pos, self')) →
  slice_ok self' ∧ pos = length (as_packages self) ∧ position self' mc_seq_no = Some pos ∧
  offsets_db (as_dbs self') = offsets_db (as_dbs self) ∧ as_archive_id self' = as_archive_id self ∧
  as_slice_size self' = as_slice_size self ∧ as_sliced_mode self' = as_sliced_mode self ∧
  ∃ pi, as_packages self' = as_packages self ++ [pi] ∧ pkg_size (pi_package pi) = PKG_HEADER_SIZE.
Proof.
  intros H Hmc Hpos Hc. unfold position, choose_package in *. destruct (as_sliced_mode self) eqn:Es; [|done].
  destruct (so_status _ H Es) as (Hty & Hst1 & Hst2 & Hst3).
  rewrite (bool_decide_eq_true_2 (as_package_type self = Blocks)) in Hc by done. simpl in Hc.
  destruct (N.ltb_spec mc_seq_no (as_archive_id self)) as [|Hge]; [done|].
  set (idx := (mc_seq_no - as_archive_id self) / as_slice_size self) in *.
  destruct (N.ltb_spec idx (N.of_nat (length (as_packages self)))) as [|Hidx]; [done|].
  destruct (N.eqb_spec idx (N.of_nat (length (as_packages self)))) as [Heq|]; [|done].
  destruct (N.eqb_spec ((mc_seq_no - as_archive_id self) mod as_slice_size self) 0) as [Hmod|]; [|done]. simpl in Hc.
  assert (Hmc' : mc_seq_no = as_archive_id self + as_slice_size self * idx).
  { pose proof (N.div_mod (mc_seq_no - as_archive_id self) (as_slice_size self)) as Hdm. fold idx in Hdm.
    pose proof (so_size _ H). lia. }
  destruct (new_package _ _ _ _ _ _) as [pi|] eqn:En; [|done]. simpl in Hc. injection Hc as <- <-.
  unfold new_package in En. rewrite (so_open _ H) in En.
  destruct (Package_open (as_disk self !! mc_seq_no) false true) as [p|] eqn:Eo; [|done]. cbn in En.
  destruct (open_ok _ _ _ (so_disk _ H mc_seq_no) Eo) as (Hpok & Hro & _).
  destruct (truncate_zero p Hpok Hro) as (p' & Ht & Hpok' & Hro' & Hf').
  rewrite Ht in En. cbn in En. injection En as <-.
  assert (Hsz : Package_size p' = 0).
  { rewrite (package_size_body p' [] Hpok'); [done|]. by rewrite app_nil_r. }
  split_and!; simpl; try done; [|by rewrite Heq, Nat2N.id| |].
  3:{ eexists. split; [done|]. simpl. by rewrite (po_size _ Hpok'), Hf'. }
  - split; simpl.
    + apply (so_size _ H).
    + by destruct (as_packages self).
    + apply (so_disk _ H).
    + intros i pi [Hi|[Hi Hl]]%lookup_app_Some; [by apply (so_package _ H)|].
      apply list_lookup_singleton_Some in Hl as [Hl <-]. simpl. split_and!; [done..|lia].
    + intros i pi [Hi|[Hi Hl]]%lookup_app_Some; [by apply (so_bytes _ H i)|].
      apply list_lookup_singleton_Some in Hl as [_ <-]. simpl. rewrite Hf'. apply le_bytes_ok.
    + apply (so_open _ H).
    + intros i pi _ [Hi|[Hi Hl]]%lookup_app_Some.
      * destruct (so_sliced _ H i pi Es Hi) as (H1 & H2 & H3 & H4). split_and!; try done.
        apply lookup_lt_Some in Hi. rewrite lookup_insert_ne by lia. done.
      * apply list_lookup_singleton_Some in Hl as [Hl <-]. simpl.
        assert (i = length (as_packages self)) as -> by lia. rewrite <- Heq, lookup_insert_eq, Hsz. by split_and!.
    + intros _. split_and!; try done. f_equal. rewrite length_app. simpl. unfold u32_add. rewrite N.mod_small; [lia|].
      pose proof (so_size _ H). assert (2 * idx <= mc_seq_no) by nia. unfold two32 in *. lia.
  - rewrite Es, (proj2 (N.ltb_ge _ _)) by done. fold idx. rewrite (proj2 (N.ltb_lt _ _)) by (rewrite length_app; simpl; lia).
    done.
Qed.

Lemma choose_new_seq_no self mc_seq_no s1 :
  slice_ok self → position self mc_seq_no = None →
  choose_package self mc_seq_no true = Done (Some (length (as_packages self), s1)) →
  mc_seq_no = as_archive_id self + as_slice_size self * N.of_nat (length (as_packages self)).
Proof.
  intros H Hpos Hc. unfold position, choose_package in *. destruct (as_sliced_mode self) eqn:Es; [|done].
  destruct (so_status _ H Es) as (Hty & _). rewrite (bool_decide_eq_true_2 (as_package_type self = Blocks)) in Hc by done.
  simpl in Hc. destruct (N.ltb_spec mc_seq_no (as_archive_id self)) as [|Hge]; [done|].
  pose proof (N.div_mod (mc_seq_no - as_archive_id self) (as_slice_size self)) as Hdm.
  set (idx := (mc_seq_no - as_archive_id self) / as_slice_size self) in *.
  destruct (N.ltb_spec idx (N.of_nat (length (as_packages self)))) as [|Hidx]; [done|].
  destruct (N.eqb_spec idx (N.of_nat (length (as_packages self)))) as [Heq|]; [|done].
  destruct (N.eqb_spec ((mc_seq_no - as_archive_id self) mod as_slice_size self) 0) as [Hmod|]; [|done].
  pose proof (so_size _ H). rewrite <- Heq. lia.
Qed.

Lemma choose_same self mc_seq_no force pos s1 :
  choose_package self mc_seq_no force = Done (Some (pos, s1)) →
  as_archive_id s1 = as_archive_id self ∧ as_package_type s1 = as_package_type self.
Proof.
  unfold choose_package. intros Hc. repeat case_match; try done; simplify_eq/=; try done.
  all: try (destruct (index _ _); simplify_eq/=; done).
  destruct (new_package _ _ _ _ _ _); by simplify_eq/=.
Qed.

(** ** Reading *)
Lemma get_file_position self mc_seq_no key e :
  slice_ok self →
  ArchiveSlice_get_file self mc_seq_no key = Done (Some e) ↔
  ∃ offset pos pi, offsets_db (as_dbs self) !! key = Some offset ∧ position self mc_seq_no = Some pos ∧
    as_packages self !! pos = Some pi ∧ Package_read_entry (pi_package pi) offset = Some e ∧ entry_data e ≠ [].
Proof.
  intros H. unfold ArchiveSlice_get_file. destruct (offsets_db (as_dbs self) !! key) as [offset|]; [|naive_solver].
  destruct (position self mc_seq_no) as [pos|] eqn:Ep.
  - destruct (choose_existing self mc_seq_no false pos H Ep) as [-> [pi Hpi]]. cbn [mbind outcome_bind].
    rewrite Hpi. cbn [unwrap mbind outcome_bind]. split.
    + destruct (Package_read_entry (pi_package pi) offset) as [e'|] eqn:Er; [|done]. simpl.
      destruct (entry_data e') as [|x l] eqn:Ed; simpl; [done|]. intros [= <-]. exists offset, pos, pi. by rewrite Ed.
    + intros (? & ? & ? & [= <-] & [= <-] & Hpi' & Hr & Hne). simplify_eq. rewrite Hr. simpl.
      by destruct (entry_data e).
  - rewrite choose_missing by done. simpl. naive_solver.
Qed.

(** The slice grew: entries are found where they were. *)
Record extends self self' : Prop := {
  ex_offsets key o : offsets_db (as_dbs self) !! key = Some o → offsets_db (as_dbs self') !! key = Some o;
  ex_position mc pos : position self mc = Some pos → position self' mc = Some pos;
  ex_packages i pi : as_packages self !! i = Some pi →
    ∃ pi' more, as_packages self' !! i = Some pi' ∧ pkg_file (pi_package pi') = pkg_file (pi_package pi) ++ more;
}.

Lemma extends_refl self : extends self self.
Proof. split; try done. intros i pi Hi. exists pi, []. by rewrite app_nil_r. Qed.

Lemma extends_trans s1 s2 s3 : extends s1 s2 → extends s2 s3 → extends s1 s3.
Proof.
  intros [H1 P1 F1] [H2 P2 F2]. split; auto. intros i pi Hi. destruct (F1 i pi Hi) as (pi' & m & Hi' & Hf).
  destruct (F2 i pi' Hi') as (pi'' & m' & Hi'' & Hf'). exists pi'', (m ++ m'). split; [done|]. by rewrite Hf', Hf, app_assoc.
Qed.

Lemma extends_get_file self self' mc_seq_no key e :
  slice_ok self → slice_ok self' → extends self self' →
  ArchiveSlice_get_file self mc_seq_no key = Done (Some e) → ArchiveSlice_get_file self' mc_seq_no key = Done (Some e).
Proof.
  intros H H' [Ho Hp Hf]. rewrite !get_file_position by done. intros (offset & pos & pi & H1 & H2 & H3 & H4 & H5).
  destruct (Hf pos pi H3) as (pi' & more & H3' & Hfile). exists offset, pos, pi'. split_and!; auto.
  eapply read_entry_extend; [|by apply (so_package _ H' pos)|exact Hfile|done]. by apply (so_package _ H pos).
Qed.

Lemma choose_extends self mc_seq_no pos self' :
  slice_ok self → mc_seq_no < two32 → choose_package self mc_seq_no true = Done (Some (pos, self')) →
  slice_ok self' ∧ extends self self' ∧ position self' mc_seq_no = Some pos ∧
  offsets_db (as_dbs self') = offsets_db (as_dbs self) ∧ as_sliced_mode self' = as_sliced_mode self.
Proof.
  intros H Hmc Hc. destruct (position self mc_seq_no) as [pos'|] eqn:Ep.
  - destruct (choose_existing self mc_seq_no true pos' H Ep) as [Hc' _]. rewrite Hc' in Hc. injection Hc as <- <-.
    split_and!; try done. apply extends_refl.
  - destruct (choose_new self mc_seq_no pos self' H Hmc Ep Hc) as (H' & _ & Hp & Ho & Ha & Hs & Hm & pi & Hpk & _).
    split_and!; try done. split.
    + intros key o. by rewrite Ho.
    + intros mc pos'. unfold position. rewrite Ha, Hs, Hm, Hpk, length_app. destruct (as_sliced_mode self); [|done].
      destruct (mc <? as_archive_id self); [done|]. destruct (N.ltb_spec ((mc - as_archive_id self) / as_slice_size self)
        (N.of_nat (length (as_packages self)))) as [Hlt|]; [|done]. simpl. by rewrite (proj2 (N.ltb_lt _ _)) by lia.
    + intros i p Hi. exists p, []. rewrite app_nil_r, Hpk. split; [|done]. by apply lookup_app_l_Some.
Qed.

(** ** Adding *)

(** Room for an entry in every package. *)
Definition room self (size : N) : Prop :=
  ∀ i pi, as_packages self !! i = Some pi → pkg_size (pi_package pi) + size < two64.

Lemma append_slice self pos pi p' e key :
  slice_ok self → as_packages self !! pos = Some pi → entry_ok e → offsets_db (as_dbs self) !! key = None →
  package_ok p' → pkg_read_only p' = false →
  pkg_file p' = pkg_file (pi_package pi) ++ fst (PackageEntry_write_to e) →
  let idx := if as_sliced_mode self then pi_idx pi else u32_max in
  let dbs := put_offset key (Package_size (pi_package pi))
               (put_meta idx {| em_entry_size := Package_size p'; em_version := pi_version pi |} (as_dbs self)) in
  let self' := with_packages (<[pos := set_package pi p']> (as_packages self)) dbs self in
  slice_ok self' ∧ extends self self'.
Proof.
  intros H Hpi He Hk Hp' Hro' Hf idx dbs self'. pose proof (lookup_lt_Some _ _ _ Hpi) as Hlt.
  assert (Hlook : ∀ i q, as_packages self' !! i = Some q → (i = pos ∧ q = set_package pi p') ∨
    (i ≠ pos ∧ as_packages self !! i = Some q)).
  { intros i q. simpl. destruct (decide (i = pos)) as [->|].
    - rewrite list_lookup_insert_eq by done. intros [= <-]. by left.
    - rewrite list_lookup_insert_ne by done. by right. }
  destruct (so_package _ H pos pi Hpi) as (Hpok & Hro & Hidx). split.
  - split; simpl.
    + apply (so_size _ H).
    + intros Hnil%(f_equal length). rewrite length_insert in Hnil. simpl in Hnil. lia.
    + apply (so_disk _ H).
    + intros i q [[-> ->]|[_ Hq]]%Hlook; [done|by apply (so_package _ H)].
    + intros i q [[-> ->]|[_ Hq]]%Hlook; [|by apply (so_bytes _ H i)]. simpl. rewrite Hf.
      apply Forall_app_2; [by apply (so_bytes _ H pos)|by apply write_to_bytes].
    + apply (so_open _ H).
    + intros i q Hsl Hq. unfold dbs, idx. simpl. rewrite Hsl, Hidx. apply Hlook in Hq as [[-> ->]|[Hne Hq]].
      * destruct (so_sliced _ H pos pi Hsl Hpi) as (Hv & ? & ? & _). simpl. rewrite lookup_insert_eq, Hv. by split_and!.
      * destruct (so_sliced _ H i q Hsl Hq) as (? & ? & ? & ?). rewrite lookup_insert_ne by lia. done.
    + intros Hsl. rewrite length_insert. by apply (so_status _ H).
  - split; simpl.
    + intros k o Ho. rewrite lookup_insert_ne; [done|]. intros <-. congruence.
    + intros mc q. unfold position. simpl. by rewrite length_insert.
    + intros i q Hq. destruct (decide (i = pos)) as [->|].
      * simplify_eq. rewrite list_lookup_insert_eq by done. eexists _, _. by split.
      * exists q, []. rewrite list_lookup_insert_ne, app_nil_r by done. done.
Qed.

(** The chosen package has room for an entry. *)
Lemma choose_room self mc_seq_no pos s1 pi e :
  slice_ok self → mc_seq_no < two32 → choose_package self mc_seq_no true = Done (Some (pos, s1)) →
  as_packages s1 !! pos = Some pi → entry_ok e → room self (8 + 65535 + two32) →
  pkg_size (pi_package pi) + snd (PackageEntry_write_to e) < two64.
Proof.
  intros H Hmc E Epi He Hroom. pose proof (write_to_length e He) as [_ Hsz]. destruct He as [Hn _ Hd _]. unfold u32_max in Hd. rewrite Hsz.
  destruct (position self mc_seq_no) as [pos'|] eqn:Ep.
  - destruct (choose_existing self mc_seq_no true pos' H Ep) as [Hc _]. rewrite Hc in E. injection E as <- <-.
    specialize (Hroom _ _ Epi). unfold two64, two32 in *. lia.
  - destruct (choose_new self mc_seq_no pos s1 H Hmc Ep E) as (_ & -> & _ & _ & _ & _ & _ & q & Hq & Hsmall).
    rewrite Hq, list_lookup_middle in Epi by done. injection Epi as <-.
    rewrite Hsmall. unfold two64, PKG_HEADER_SIZE in *. lia.
Qed.

Lemma add_file_ok self mc_seq_no key filename data res self' :
  slice_ok self → mc_seq_no < two32 → offsets_db (as_dbs self) !! key = None →
  entry_ok {| entry_filename := filename; entry_data := data |} → data ≠ [] →
  room self (8 + 65535 + two32) →
  ArchiveSlice_add_file self mc_seq_no key filename data = Done (Some res, self') →
  res = data ∧ slice_ok self' ∧ extends self self' ∧
  ArchiveSlice_get_file self' mc_seq_no key = Done (Some {| entry_filename := filename; entry_data := data |}).
Proof.
  intros H Hmc Hk He Hne Hroom Ha. unfold ArchiveSlice_add_file in Ha.
  rewrite bool_decide_eq_false_2 in Ha by (by rewrite Hk; intros [? ?]).
  outcome_step Ha. destruct a as [[pos s1]|]; [|done].
  destruct (choose_extends self mc_seq_no pos s1 H Hmc E) as (H1 & Hex1 & Hp1 & Ho1 & Hm1).
  outcome_step Ha. destruct (as_packages s1 !! pos) as [pi|] eqn:Epi; [|done]. injection E0 as <-.
  destruct (so_package _ H1 pos pi Epi) as (Hpok & Hro & _). set (e := {| entry_filename := filename |}) in *.
  pose proof (choose_room self mc_seq_no pos s1 pi e H Hmc E Epi He Hroom) as Hlt.
  destruct (append_ok (pi_package pi) e Hpok Hro He Hlt) as (p' & Happ & Hpok' & Hro' & Hf' & _).
  rewrite Happ in Ha. cbn [mbind outcome_bind] in Ha. injection Ha as <- <-.
  assert (Hk1 : offsets_db (as_dbs s1) !! key = None) by (by rewrite Ho1).
  destruct (append_slice s1 pos pi p' e key H1 Epi He Hk1 Hpok' Hro' Hf') as [H2 Hex2].
  split; [done|]. split; [exact H2|]. split; [by eapply extends_trans|].
  rewrite get_file_position by exact H2. exists (Package_size (pi_package pi)), pos, (set_package pi p').
  split_and!.
  - simpl. by rewrite lookup_insert_eq.
  - by apply (ex_position _ _ Hex2).
  - simpl. apply list_lookup_insert_eq. by eapply lookup_lt_Some.
  - simpl. eapply read_appended; try done. simpl. destruct data; [done|simpl; lia].
  - done.
Qed.

(** ** Opening a slice again *)

(** The files of a slice. *)
Definition slice_files self : gmap N (list N) :=
  list_to_map ((λ pi, (pi_seq_no pi, pkg_file (pi_package pi))) <$> as_packages self) ∪ as_disk self.

(** What is on disk when the node stops while an entry is appended: a part of the
    entry is written, or all of it and the new size. *)
Inductive append_image self (pos : nat) (e : PackageEntry) : SliceDbs → gmap N (list N) → Prop :=
| append_writing n pi :
    as_packages self !! pos = Some pi →
    append_image self pos e (as_dbs self)
      (<[pi_seq_no pi := pkg_file (pi_package pi) ++ take n (fst (PackageEntry_write_to e))]> (slice_files self))
| append_indexed pi :
    as_packages self !! pos = Some pi →
    append_image self pos e
      (put_meta (pi_idx pi) {| em_entry_size := Package_size (pi_package pi) + snd (PackageEntry_write_to e);
                               em_version := pi_version pi |} (as_dbs self))
      (<[pi_seq_no pi := pkg_file (pi_package pi) ++ fst (PackageEntry_write_to e)]> (slice_files self)).

(** What is on disk when the node stops during [add_file]: while a new package is
    made, before the number of packages is recorded, or after that. *)
Inductive crash_image self (mc_seq_no : N) (e : PackageEntry) dbs disk : Prop :=
| crash_choosing pos s1 :
    choose_package self mc_seq_no true = Done (Some (pos, s1)) → position self mc_seq_no = None →
    dbs = as_dbs self ∨
      dbs = put_meta (N.of_nat pos) {| em_entry_size := 0; em_version := DEFAULT_PKG_VERSION |} (as_dbs self) →
    disk = slice_files self ∨ (∃ n, disk = <[mc_seq_no := take n (le_bytes 4 PKG_HEADER_MAGIC)]> (slice_files self)) →
    crash_image self mc_seq_no e dbs disk
| crash_appending pos s1 :
    choose_package self mc_seq_no true = Done (Some (pos, s1)) → append_image s1 pos e dbs disk →
    crash_image self mc_seq_no e dbs disk.

Lemma slice_files_lookup self i pi :
  slice_ok self → as_sliced_mode self = true → as_packages self !! i = Some pi →
  slice_files self !! pi_seq_no pi = Some (pkg_file (pi_package pi)).
Proof.
  intros H Hsl Hi. apply lookup_union_Some_l. apply elem_of_list_to_map_1.
  - rewrite <- list_fmap_compose. apply list.NoDup_alt. intros j k x. rewrite !list_lookup_fmap.
    destruct (as_packages self !! j) as [p|] eqn:Ej; [|done]. destruct (as_packages self !! k) as [q|] eqn:Ek; [|done].
    simpl. intros [= <-] [= Heq]. destruct (so_sliced _ H j p Hsl Ej) as (_ & Hp & _).
    destruct (so_sliced _ H k q Hsl Ek) as (_ & Hq & _). pose proof (so_size _ H). nia.
  - apply list_elem_of_fmap. exists pi. split; [done|]. by eapply list_elem_of_lookup_2.
Qed.

Lemma slice_files_bytes self s f : slice_ok self → slice_files self !! s = Some f → Forall byte_ok f.
Proof.
  intros H [Hs|[_ Hs]]%lookup_union_Some_raw; [|by eapply (so_disk _ H)].
  apply elem_of_list_to_map_2, list_elem_of_fmap in Hs as (pi & [= -> ->] & [i Hi]%list_elem_of_lookup).
  by eapply (so_bytes _ H).
Qed.

(** Package [i] is on disk with a body of the recorded size, and possibly more. *)
Definition on_disk disk dbs (seq : N) (i : N) (body : list N) : Prop :=
  ∃ extra, disk !! seq = Some (le_bytes 4 PKG_HEADER_MAGIC ++ body ++ extra) ∧
    index_db dbs !! i = Some {| em_entry_size := N.of_nat (length body); em_version := DEFAULT_PKG_VERSION |}.

Lemma new_package_on_disk disk dbs seq i body :
  on_disk disk dbs seq i body → (∀ f, disk !! seq = Some f → Forall byte_ok f) →
  ∃ p, new_package false disk i seq (N.of_nat (length body)) DEFAULT_PKG_VERSION =
      Some {| pi_seq_no := seq; pi_package := p; pi_idx := i; pi_version := DEFAULT_PKG_VERSION |} ∧
    package_ok p ∧ pkg_read_only p = false ∧ pkg_file p = le_bytes 4 PKG_HEADER_MAGIC ++ body.
Proof.
  intros (extra & Hd & _) Hb. unfold new_package. rewrite Hd.
  set (content := le_bytes 4 PKG_HEADER_MAGIC ++ body ++ extra).
  assert (Hok : package_ok {| pkg_read_only := false; pkg_size := N.of_nat (length content); pkg_file := content |}).
  { split; [done|]. by exists (body ++ extra). }
  pose proof (open_again _ false true Hok) as Ho. cbn [pkg_file pkg_size] in Ho. rewrite Ho. cbn [mbind option_bind negb andb].
  destruct (truncate_ok _ body extra Hok eq_refl eq_refl) as (p' & -> & Hok' & Hro' & Hf'). exists p'. done.
Qed.

Lemma open_slices_on_disk disk dbs archive_id slice_size (body : N → list N) l :
  (∀ s f, disk !! s = Some f → Forall byte_ok f) →
  (∀ i, i ∈ l → archive_id + slice_size * i < two32 ∧ on_disk disk dbs (archive_id + slice_size * i) i (body i)) →
  ∃ pkgs, open_slices false disk dbs archive_id slice_size l = Some pkgs ∧
    Forall2 (λ i pi, pi_seq_no pi = archive_id + slice_size * i ∧ pi_idx pi = i ∧ pi_version pi = DEFAULT_PKG_VERSION ∧
      package_ok (pi_package pi) ∧ pkg_read_only (pi_package pi) = false ∧
      pkg_file (pi_package pi) = le_bytes 4 PKG_HEADER_MAGIC ++ body i) l pkgs.
Proof.
  intros Hb. induction l as [|i l IH]; intros Hl; cbn [open_slices]; [by exists []; split; [|constructor]|].
  destruct (Hl i ltac:(set_solver)) as [Hlt Hd]. pose proof Hd as (extra & _ & Hm). rewrite Hm. cbn [mbind option_bind em_entry_size em_version].
  assert (Hmul : u32_mul slice_size i = slice_size * i) by (apply N.mod_small; lia).
  assert (Hadd : u32_add archive_id (u32_mul slice_size i) = archive_id + slice_size * i) by (rewrite Hmul; by apply N.mod_small).
  rewrite Hadd. destruct (new_package_on_disk disk dbs _ i (body i) Hd (Hb _)) as (p & -> & Hok & Hro & Hf).
  cbn [mbind option_bind]. destruct IH as (pkgs & -> & Hf2); [intros; apply Hl; set_solver|]. cbn [mbind option_bind].
  eexists. split; [done|]. constructor; [|done]. by split_and!.
Qed.

Lemma indices_lookup n i x : indices n !! i = Some x ↔ x = N.of_nat i ∧ x < n.
Proof.
  unfold indices. rewrite list_lookup_fmap. destruct (seq 0 (N.to_nat n) !! i) as [y|] eqn:E; simpl.
  - apply lookup_seq in E as [-> Hlt]. split; [intros [= <-]; lia|intros [-> _]; done].
  - apply lookup_ge_None in E. rewrite length_seq in E. split; [done|]. intros [-> Hlt]. lia.
Qed.

(** A slice whose packages are on disk with bodies that extend the old ones is
    opened again and has all its files. *)
Lemma reopen_ok self dbs disk (body : N → list N) :
  slice_ok self → as_sliced_mode self = true → package_status_db dbs = package_status_db (as_dbs self) →
  offsets_db dbs = offsets_db (as_dbs self) → (∀ s f, disk !! s = Some f → Forall byte_ok f) →
  (∀ i pi, as_packages self !! i = Some pi → (∃ more, le_bytes 4 PKG_HEADER_MAGIC ++ body (N.of_nat i) = pkg_file (pi_package pi) ++ more) ∧
     on_disk disk dbs (pi_seq_no pi) (N.of_nat i) (body (N.of_nat i))) →
  ∃ self', ArchiveSlice_with_data disk dbs (as_archive_id self) (as_package_type self) false = Done (Some self') ∧
    slice_ok self' ∧ extends self self' ∧ offsets_db (as_dbs self') = offsets_db (as_dbs self).
Proof.
  intros H Hsl Hst Hof Hb Hpk. destruct (so_status _ H Hsl) as (Hty & Hs1 & Hs2 & Hs3).
  unfold ArchiveSlice_with_data. rewrite Hst, Hs1, Hs2, Hs3. pose proof (so_size _ H) as Hsize.
  rewrite (proj2 (N.ltb_lt 0 (as_slice_size self))) by lia. cbn [assert_that mbind outcome_bind].
  set (n := N.of_nat (length (as_packages self))).
  assert (Hget : ∀ i, i < n → ∃ pi, as_packages self !! N.to_nat i = Some pi ∧
    pi_seq_no pi = as_archive_id self + as_slice_size self * i ∧ pi_seq_no pi < two32).
  { intros i Hi. destruct (lookup_lt_is_Some_2 (as_packages self) (N.to_nat i)) as [pi Hpi]; [unfold n in Hi; lia|].
    exists pi. split; [done|]. destruct (so_sliced _ H _ _ Hsl Hpi) as (_ & Hseq & Hlt & _). rewrite N2Nat.id in Hseq. done. }
  destruct (open_slices_on_disk disk dbs (as_archive_id self) (as_slice_size self) body (indices n) Hb) as (pkgs & -> & Hf2).
  { intros i (k & Hk)%list_elem_of_lookup. apply indices_lookup in Hk as [-> Hlt].
    destruct (Hget _ Hlt) as (pi & Hpi & Hseq & Hlt'). rewrite Nat2N.id in Hpi. rewrite <- Hseq. split; [done|].
    by apply (Hpk k pi). }
  cbn [mbind option_bind]. eexists. split; [done|].
  assert (Hlen : length pkgs = length (as_packages self)).
  { apply Forall2_length in Hf2. rewrite <- Hf2. unfold indices. rewrite length_fmap, length_seq. unfold n. lia. }
  assert (Hnew : ∀ i p, pkgs !! i = Some p → ∃ pi, as_packages self !! i = Some pi ∧ pi_seq_no p = pi_seq_no pi ∧
    pi_seq_no p = as_archive_id self + as_slice_size self * N.of_nat i ∧ pi_seq_no p < two32 ∧
    pi_idx p = N.of_nat i ∧ pi_version p = DEFAULT_PKG_VERSION ∧ package_ok (pi_package p) ∧
    pkg_read_only (pi_package p) = false ∧ pkg_file (pi_package p) = le_bytes 4 PKG_HEADER_MAGIC ++ body (N.of_nat i)).
  { intros i p Hp. pose proof (lookup_lt_Some _ _ _ Hp) as Hlt.
    destruct (Hget (N.of_nat i)) as (pi & Hpi & Hseq & Hlt'); [unfold n; lia|]. rewrite Nat2N.id in Hpi.
    assert (Hi : indices n !! i = Some (N.of_nat i)) by (apply indices_lookup; split; [done|unfold n; lia]).
    destruct (Forall2_lookup_lr _ _ _ _ _ _ Hf2 Hi Hp) as (H1 & H2 & H3 & H4 & H5 & H6). exists pi.
    split_and!; try done; congruence. }
  split; [|split; [|done]].
  - split; simpl.
    + done.
    + intros ->. apply (so_nonempty _ H). by destruct (as_packages self).
    + exact Hb.
    + intros i p (pi & _ & _ & _ & _ & ? & _ & ? & ? & _)%Hnew. done.
    + intros i p (pi & Hpi & Hseq & _ & _ & _ & _ & _ & _ & Hf)%Hnew. rewrite Hf.
      destruct (Hpk i pi Hpi) as [_ (extra & Hd & _)]. apply Hb in Hd. rewrite app_assoc in Hd.
      by apply Forall_app in Hd as [Hd _].
    + done.
    + intros i p _ (pi & Hpi & _ & Hseq & Hlt & _ & Hv & Hok & _ & Hf)%Hnew. split_and!; try done.
      destruct (Hpk i pi Hpi) as [_ (extra & _ & Hm)]. rewrite Hm. by rewrite (package_size_body _ _ Hok Hf).
    + intros _. rewrite Hst, Hlen. by split_and!.
  - split; simpl.
    + intros key o. by rewrite Hof.
    + intros mc pos. unfold position. simpl. by rewrite Hsl, Hlen.
    + intros i pi Hpi. destruct (lookup_lt_is_Some_2 pkgs i) as [p Hp]; [rewrite Hlen; by eapply lookup_lt_Some|].
      destruct (Hnew i p Hp) as (pi' & Hpi' & _ & _ & _ & _ & _ & _ & _ & Hf). simplify_eq.
      destruct (Hpk i pi Hpi) as [(more & Hm) _]. exists p, more. by rewrite Hf.
Qed.

(** The disk after a crash. *)
Lemma append_image_bytes self pos e dbs disk :
  slice_ok self → entry_ok e → append_image self pos e dbs disk → ∀ s f, disk !! s = Some f → Forall byte_ok f.
Proof.
  intros H He Hc s f. pose proof (write_to_bytes e He) as Hw.
  destruct Hc as [n pi Hpi|pi Hpi]; intros [[<- <-]|[_ Hs]]%lookup_insert_Some; try by eapply slice_files_bytes.
  - apply Forall_app_2; [by eapply (so_bytes _ H)|by apply Forall_take].
  - apply Forall_app_2; [by eapply (so_bytes _ H)|done].
Qed.

Definition package_body self (i : N) : list N :=
  match as_packages self !! N.to_nat i with Some pi => drop 4 (pkg_file (pi_package pi)) | None => [] end.

Lemma package_body_ok self i pi :
  slice_ok self → as_packages self !! i = Some pi →
  pkg_file (pi_package pi) = le_bytes 4 PKG_HEADER_MAGIC ++ package_body self (N.of_nat i) ∧
  Package_size (pi_package pi) = N.of_nat (length (package_body self (N.of_nat i))).
Proof.
  intros H Hi. destruct (so_package _ H i pi Hi) as (Hok & _ & _). destruct (po_header _ Hok) as (body & Hb).
  assert (Hbody : package_body self (N.of_nat i) = body) by (unfold package_body; by rewrite Nat2N.id, Hi, Hb).
  rewrite Hbody. split; [done|]. by apply package_size_body.
Qed.

Lemma append_recovers self pos e dbs disk :
  slice_ok self → as_sliced_mode self = true → entry_ok e → append_image self pos e dbs disk →
  ∃ self', ArchiveSlice_with_data disk dbs (as_archive_id self) (as_package_type self) false = Done (Some self') ∧
    slice_ok self' ∧ extends self self' ∧ offsets_db (as_dbs self') = offsets_db (as_dbs self).
Proof.
  intros H Hsl He Hc. pose proof (append_image_bytes _ _ _ _ _ H He Hc) as Hb.
  assert (Hother : ∀ pi f i q, as_packages self !! pos = Some pi → as_packages self !! i = Some q → i ≠ pos →
    <[pi_seq_no pi := f]> (slice_files self) !! pi_seq_no q = Some (pkg_file (pi_package q))).
  { intros pi f i q Hpi Hq Hne. rewrite lookup_insert_ne; [by eapply slice_files_lookup|].
    destruct (so_sliced _ H _ _ Hsl Hpi) as (_ & -> & _). destruct (so_sliced _ H _ _ Hsl Hq) as (_ & -> & _).
    pose proof (so_size _ H). nia. }
  destruct Hc as [n pi Hpi|pi Hpi].
  - apply (reopen_ok self _ _ (package_body self)); try done. intros i q Hq.
    destruct (package_body_ok self i q H Hq) as [Hf Hs]. split; [exists []; by rewrite app_nil_r|].
    destruct (so_sliced _ H i q Hsl Hq) as (_ & _ & _ & Hm). unfold on_disk. rewrite Hm, Hs.
    destruct (decide (i = pos)) as [->|Hne].
    + simplify_eq. exists (take n (fst (PackageEntry_write_to e))). by rewrite lookup_insert_eq, Hf, <- app_assoc.
    + exists []. rewrite (Hother pi _ i q) by done. by rewrite app_nil_r, Hf.
  - set (body i := if decide (i = N.of_nat pos) then package_body self i ++ fst (PackageEntry_write_to e)
                   else package_body self i).
    apply (reopen_ok self _ _ body); try done. intros i q Hq. destruct (package_body_ok self i q H Hq) as [Hf Hs].
    destruct (so_sliced _ H i q Hsl Hq) as (_ & _ & _ & Hm). destruct (so_package _ H pos pi Hpi) as (_ & _ & Hidx).
    unfold on_disk, body. cbn [put_meta index_db]. rewrite Hidx. destruct (decide (i = pos)) as [->|Hne].
    + rewrite Hpi in Hq. injection Hq as <-. rewrite decide_True by done. destruct (so_sliced _ H pos pi Hsl Hpi) as (Hv & _).
      split; [exists (fst (PackageEntry_write_to e)); by rewrite Hf, <- app_assoc|]. exists [].
      rewrite app_nil_r, !lookup_insert_eq, Hf, <- app_assoc. split; [done|]. rewrite Hv. f_equal. f_equal.
      rewrite length_app, Hs. pose proof (write_to_length e He) as [<- _]. lia.
    + rewrite decide_False by lia. split; [exists []; by rewrite app_nil_r|]. exists [].
      rewrite (Hother pi _ i q) by done. rewrite app_nil_r, lookup_insert_ne by lia. rewrite Hm, Hs. by rewrite Hf.
Qed.

Lemma crash_recovers self mc_seq_no e dbs disk :
  slice_ok self → as_sliced_mode self = true → mc_seq_no < two32 → entry_ok e → crash_image self mc_seq_no e dbs disk →
  ∃ self', ArchiveSlice_with_data disk dbs (as_archive_id self) (as_package_type self) false = Done (Some self') ∧
    slice_ok self' ∧ extends self self' ∧ offsets_db (as_dbs self') = offsets_db (as_dbs self).
Proof.
  intros H Hsl Hmc He [pos s1 Hch Hnone Hdbs Hdisk|pos s1 Hch Happ].
  - destruct (choose_new self mc_seq_no pos s1 H Hmc Hnone Hch) as (H1 & -> & _ & _ & Ha & Hs & Hm & pi & Hpk & _).
    assert (Hseq : mc_seq_no = as_archive_id self + as_slice_size self * N.of_nat (length (as_packages self))).
    { by apply choose_new_seq_no with s1. }
    assert (Hfile : ∀ i q, as_packages self !! i = Some q → disk !! pi_seq_no q = Some (pkg_file (pi_package q))).
    { intros i q Hq. pose proof (slice_files_lookup self i q H Hsl Hq) as Hlook.
      destruct Hdisk as [->|[n ->]]; [done|]. rewrite lookup_insert_ne; [done|].
      destruct (so_sliced _ H i q Hsl Hq) as (_ & -> & _). apply lookup_lt_Some in Hq. pose proof (so_size _ H). nia. }
    assert (Hmeta : ∀ i, (i < length (as_packages self))%nat → index_db dbs !! N.of_nat i = index_db (as_dbs self) !! N.of_nat i).
    { intros i Hi. destruct Hdbs as [->| ->]; [done|]. simpl. by rewrite lookup_insert_ne by lia. }
    apply (reopen_ok self _ _ (package_body self)); try done.
    + by destruct Hdbs as [->| ->].
    + by destruct Hdbs as [->| ->].
    + intros s f. destruct Hdisk as [->|[n ->]]; [by apply slice_files_bytes|].
      intros [[<- <-]|[_ Hsf]]%lookup_insert_Some; [apply Forall_take, le_bytes_ok|exact (slice_files_bytes self s f H Hsf)].
    + intros i q Hq. destruct (package_body_ok self i q H Hq) as [Hf Hsz]. split; [exists []; by rewrite app_nil_r|].
      destruct (so_sliced _ H i q Hsl Hq) as (_ & _ & _ & Hm'). unfold on_disk.
      rewrite Hmeta, Hm', Hsz by (by eapply lookup_lt_Some). exists []. by rewrite (Hfile i q Hq), app_nil_r, Hf.
  - destruct (choose_extends self mc_seq_no pos s1 H Hmc Hch) as (H1 & Hex & _ & Ho & Hm).
    destruct (choose_same self mc_seq_no true pos s1 Hch) as [Ha Ht].
    destruct (append_recovers s1 pos e dbs disk H1) as (self' & Hw & Hok & Hex' & Ho'); [by rewrite Hm|done|done|].
    exists self'. rewrite <- Ha, <- Ht. split_and!; try done; [by eapply extends_trans|by rewrite Ho'].
Qed.

(** A new slice of blocks. *)
Lemma new_slice_ok disk archive_id :
  archive_id < two32 → (∀ s f, disk !! s = Some f → Forall byte_ok f) →
  let dbs := {| index_db := ∅; offsets_db := ∅;
                package_status_db := {| ps_sliced_mode := None; ps_total_slices := None; ps_slice_size := None;
                                        ps_non_sliced_size := None |} |} in
  ∀ self, ArchiveSlice_with_data disk dbs archive_id Blocks false = Done (Some self) →
  slice_ok self ∧ as_sliced_mode self = true ∧ offsets_db (as_dbs self) = ∅.
Proof.
  intros Hid Hb dbs self. unfold ArchiveSlice_with_data. cbn [dbs package_status_db ps_sliced_mode].
  rewrite decide_True by done. cbv zeta. destruct (new_package _ _ _ _ _ _) as [pi|] eqn:En; [|done].
  cbn [mbind option_bind]. intros [= <-]. unfold new_package in En.
  destruct (Package_open (disk !! archive_id) false true) as [p|] eqn:Eo; [|done]. cbn [mbind option_bind negb andb] in En.
  destruct (open_ok _ _ _ (Hb archive_id) Eo) as (Hpok & Hro & _).
  destruct (truncate_zero p Hpok Hro) as (p' & Ht & Hpok' & Hro' & Hf').
  change (DEFAULT_PKG_VERSION <=? DEFAULT_PKG_VERSION) with true in En. cbn [andb] in En.
  rewrite Ht in En. cbn [mbind option_bind] in En. injection En as <-.
  assert (Hsz : Package_size p' = 0) by (rewrite (package_size_body p' [] Hpok'); [done|by rewrite app_nil_r]).
  split; [|done]. split; simpl; try done.
  - intros i q [-> <-]%list_lookup_singleton_Some. done.
  - intros i q [-> <-]%list_lookup_singleton_Some. simpl. rewrite Hf'. apply le_bytes_ok.
  - intros i q _ [-> <-]%list_lookup_singleton_Some. simpl. rewrite Hsz. split_and!; try done. lia.
Qed.

(** ** Storage: the life of an archive slice

    A slice of blocks is made, files are added and the node stops and starts
    again, possibly in the middle of an addition.  The abstract state is the map of
    the files that were added; the slice implements it. *)

Definition empty_status : PackageStatus :=
  {| ps_sliced_mode := None; ps_total_slices := None; ps_slice_size := None; ps_non_sliced_size := None |}.
Definition empty_dbs : SliceDbs := {| index_db := ∅; offsets_db := ∅; package_status_db := empty_status |}.

(** The abstract state: the sequence number and the entry of every key. *)
Abbreviation files := (gmap N (N * PackageEntry)).

Definition file_entry (filename data : list N) : PackageEntry := {| entry_filename := filename; entry_data := data |}.

(** What the callers guarantee of a file. *)
Record addable self (mc_seq_no : N) (filename data : list N) : Prop := {
  ad_seq_no : mc_seq_no < two32;
  ad_entry : entry_ok (file_entry filename data);
  ad_data : data ≠ [];
  ad_room : room self (8 + 65535 + two32);
}.

Inductive archive_step : ArchiveSlice * files → ArchiveSlice * files → Prop :=
| step_add self fs mc_seq_no key filename data res self' :
    addable self mc_seq_no filename data →
    ArchiveSlice_add_file self mc_seq_no key filename data = Done (Some res, self') →
    archive_step (self, fs)
      (self', match fs !! key with Some _ => fs | None => <[key := (mc_seq_no, file_entry filename data)]> fs end)
| step_add_error self fs mc_seq_no key filename data self' :
    addable self mc_seq_no filename data →
    ArchiveSlice_add_file self mc_seq_no key filename data = Done (None, self') →
    archive_step (self, fs) (self', fs)
| step_crash self fs mc_seq_no filename data dbs disk self' :
    addable self mc_seq_no filename data →
    crash_image self mc_seq_no (file_entry filename data) dbs disk →
    ArchiveSlice_with_data disk dbs (as_archive_id self) (as_package_type self) false = Done (Some self') →
    archive_step (self, fs) (self', fs).

Inductive archive_reachable : ArchiveSlice * files → Prop :=
| archive_new disk archive_id self :
    archive_id < two32 → (∀ s f, disk !! s = Some f → Forall byte_ok f) →
    ArchiveSlice_with_data disk empty_dbs archive_id Blocks false = Done (Some self) →
    archive_reachable (self, ∅)
| archive_next s s' : archive_reachable s → archive_step s s' → archive_reachable s'.

(** The slice implements the map. *)
Record implements self (fs : files) : Prop := {
  im_slice : slice_ok self;
  im_mode : as_sliced_mode self = true;
  im_keys key : is_Some (offsets_db (as_dbs self) !! key) ↔ is_Some (fs !! key);
  im_files key mc_seq_no e : fs !! key = Some (mc_seq_no, e) → ArchiveSlice_get_file self mc_seq_no key = Done (Some e);
}.

(** A slice that grew without new keys implements the same map. *)
Lemma implements_extends self self' fs :
  implements self fs → slice_ok self' → as_sliced_mode self' = true → extends self self' →
  offsets_db (as_dbs self') = offsets_db (as_dbs self) → implements self' fs.
Proof.
  intros [H Hm Hk Hf] H' Hm' Hex Ho. split; [done|done|intros key; rewrite Ho; apply Hk|].
  intros key mc e Hfs. eapply (extends_get_file self); eauto.
Qed.

(** Sliced mode does not change. *)
Lemma with_data_mode disk dbs archive_id ty self :
  ps_sliced_mode (package_status_db dbs) = Some true →
  ArchiveSlice_with_data disk dbs archive_id ty false = Done (Some self) → as_sliced_mode self = true.
Proof.
  intros Hs. unfold ArchiveSlice_with_data. rewrite Hs. destruct (ps_total_slices _); [|done]. destruct (ps_slice_size _) as [s|]; [|done].
  destruct (0 <? s); [|done]. cbn [assert_that mbind outcome_bind]. destruct (open_slices _ _ _ _ _ _); [|done].
  cbn [mbind option_bind]. by intros [= <-].
Qed.

Lemma crash_mode self mc_seq_no e dbs disk :
  slice_ok self → as_sliced_mode self = true → mc_seq_no < two32 → crash_image self mc_seq_no e dbs disk →
  ps_sliced_mode (package_status_db dbs) = Some true.
Proof.
  intros H Hm Hmc Hc. destruct (so_status _ H Hm) as (_ & Hs & _). destruct Hc as [pos s1 _ _ [->| ->] _|pos s1 Hch Ha]; [done..|].
  destruct (choose_extends self mc_seq_no pos s1 H Hmc Hch) as (H1 & _ & _ & _ & Hm1).
  destruct (so_status _ H1 ltac:(by rewrite Hm1)) as (_ & Hs1 & _). by destruct Ha.
Qed.

(** A failed addition leaves the files. *)
Lemma add_file_error self mc_seq_no key filename data self' :
  slice_ok self → addable self mc_seq_no filename data →
  ArchiveSlice_add_file self mc_seq_no key filename data = Done (None, self') →
  slice_ok self' ∧ extends self self' ∧ offsets_db (as_dbs self') = offsets_db (as_dbs self) ∧
  as_sliced_mode self' = as_sliced_mode self.
Proof.
  intros H Had Ha. unfold ArchiveSlice_add_file in Ha. destruct (bool_decide _); [done|]. outcome_step Ha.
  destruct a as [[pos s1]|].
  - destruct (choose_extends self mc_seq_no pos s1 H (ad_seq_no _ _ _ _ Had) E) as (H1 & Hex & _ & Ho & Hm).
    outcome_step Ha. destruct (as_packages s1 !! pos) as [pi|] eqn:Epi; [|done]. injection E0 as <-.
    outcome_step Ha. destruct a as [[[offset size]|] p]; [done|]. injection Ha as <-. done.
  - injection Ha as <-. split_and!; try done. apply extends_refl.
Qed.

(** A recorded key is not added again. *)
Lemma add_file_known self mc_seq_no key filename data res self' :
  is_Some (offsets_db (as_dbs self) !! key) →
  ArchiveSlice_add_file self mc_seq_no key filename data = Done (res, self') → res = Some data ∧ self' = self.
Proof. intros Hk. unfold ArchiveSlice_add_file. rewrite bool_decide_eq_true_2 by done. by intros [= <- <-]. Qed.

Lemma add_file_mode self mc_seq_no key filename data res self' :
  slice_ok self → mc_seq_no < two32 →
  ArchiveSlice_add_file self mc_seq_no key filename data = Done (res, self') → as_sliced_mode self' = as_sliced_mode self.
Proof.
  intros H Hmc Ha. unfold ArchiveSlice_add_file in Ha. destruct (bool_decide _); [by injection Ha as _ <-|].
  outcome_step Ha. destruct a as [[pos s1]|]; [|by injection Ha as _ <-].
  destruct (choose_extends self mc_seq_no pos s1 H Hmc E) as (_ & _ & _ & _ & Hm).
  outcome_step Ha. outcome_step Ha. destruct a0 as [[[offset size]|] p]; by injection Ha as _ <-.
Qed.

(** The new key and the others. *)
Lemma add_file_keys self mc_seq_no key filename data res self' :
  slice_ok self → mc_seq_no < two32 → offsets_db (as_dbs self) !! key = None →
  ArchiveSlice_add_file self mc_seq_no key filename data = Done (Some res, self') →
  ∀ k, is_Some (offsets_db (as_dbs self') !! k) ↔ k = key ∨ is_Some (offsets_db (as_dbs self) !! k).
Proof.
  intros H Hmc Hk Ha k. unfold ArchiveSlice_add_file in Ha.
  rewrite bool_decide_eq_false_2 in Ha by (by rewrite Hk; intros [? ?]).
  outcome_step Ha. destruct a as [[pos s1]|]; [|done].
  destruct (choose_extends self mc_seq_no pos s1 H Hmc E) as (_ & _ & _ & Ho & _).
  outcome_step Ha. outcome_step Ha. destruct a0 as [[[offset size]|] p]; [|done]. injection Ha as _ <-.
  simpl. rewrite Ho, lookup_insert_is_Some'. split; intros [->|?]; auto.
Qed.

Lemma archive_step_ok s s' :
  archive_step s s' → implements (fst s) (snd s) → implements (fst s') (snd s').
Proof.
  intros [self fs mc key filename data res self' Had Ha|self fs mc key filename data self' Had Ha
    |self fs mc filename data dbs disk self' Had Hc Hw] HI; simpl in *; pose proof HI as [H Hm Hk Hf].
  - pose proof (ad_seq_no _ _ _ _ Had) as Hmc. destruct (offsets_db (as_dbs self) !! key) as [o|] eqn:Eo.
    + destruct (add_file_known self mc key filename data _ _ ltac:(eauto) Ha) as [_ ->].
      destruct (proj1 (Hk key)) as [x ->]; [eauto|done].
    + assert (fs !! key = None) as Hn by (apply eq_None_not_Some; rewrite <- Hk, Eo; by intros [? ?]). rewrite Hn.
      destruct Had as [_ He Hne Hroom].
      destruct (add_file_ok self mc key filename data res self' H Hmc Eo He Hne Hroom Ha) as (_ & H' & Hex & Hget).
      pose proof (add_file_keys self mc key filename data res self' H Hmc Eo Ha) as Hkeys. split; [done| | |].
      * rewrite (add_file_mode _ _ _ _ _ _ _ H Hmc Ha). done.
      * intros k. rewrite Hkeys, Hk, lookup_insert_is_Some'. split; intros [->|?]; auto.
      * intros k mc' e [[<- [= <- <-]]|[_ Hl]]%lookup_insert_Some; [done|]. eapply (extends_get_file self); eauto.
  - destruct (add_file_error self mc key filename data self' H Had Ha) as (H' & Hex & Ho & Hm').
    eapply implements_extends; eauto.
  - destruct Had as [Hmc He _ _].
    destruct (crash_recovers self mc _ dbs disk H Hm Hmc He Hc) as (s2 & Hw' & H' & Hex & Ho).
    rewrite Hw in Hw'. injection Hw' as <-. eapply implements_extends; eauto.
    eapply with_data_mode; [|exact Hw]. exact (crash_mode self mc _ dbs disk H Hm Hmc Hc).
Qed.

Lemma archive_reachable_ok s : archive_reachable s → implements (fst s) (snd s).
Proof.
  induction 1 as [disk archive_id self Hid Hb Hw|s s' _ IH Hs]; [|by eapply archive_step_ok].
  destruct (new_slice_ok disk archive_id Hid Hb self Hw) as (H & Hm & Ho). split; [done|done| |done].
  intros key. cbn [fst snd]. rewrite Ho. by rewrite !lookup_empty.
Qed.
