(* ===== verification/EntryId.v ===== *)
(** * Storage: names of archive entries

    Models [storage/src/archives/package_entry_id.rs]: the name of an entry in a
    package, its short name in the directory of files that are not archived yet, and
    the parser of names.  Strings are UTF-8 byte strings.  The formatting and
    parsing of [UInt256], the names of public keys and the standard hasher are
    parameters. *)

From Stdlib Require Import Ascii ZifyBool.
From S2P Require Import Prelude BlockId.

From Stdlib Require String.
Import String.StringSyntax.

Definition bytes_of (s : String.string) : list N := N_of_ascii <$> String.list_ascii_of_string s.
Arguments bytes_of s%_string_scope.

(** ** Characters *)
Definition is_digit (c : N) : bool := (48 <=? c) && (c <? 58).
Definition is_lower_hex (c : N) : bool := is_digit c || ((97 <=? c) && (c <? 103)).
Definition is_upper_hex (c : N) : bool := is_digit c || ((65 <=? c) && (c <? 71)).

(** ** Formatting *)

(** [{}] of an unsigned integer; the fuel is at least the number of digits. *)
Fixpoint dec_digits (fuel : nat) (x : N) (acc : list N) : list N :=
  match fuel with
  | O => acc
  | S fuel' => let acc := 48 + x mod 10 :: acc in if x <? 10 then acc else dec_digits fuel' (x / 10) acc
  end.
Definition format_dec (x : N) : list N := dec_digits (S (N.to_nat (N.size x))) x [].

(** [{}] of an [i32] *)
Definition format_i32 (z : Z) : list N := if (z <? 0)%Z then 45 :: format_dec (Z.to_N (- z)) else format_dec (Z.to_N z).

(** [{:016x}] and [{:016X}] of a [u64], the letters start at [base]. *)
Fixpoint hex_digits (base : N) (n : nat) (x : N) (acc : list N) : list N :=
  match n with
  | O => acc
  | S n' => let d := x mod 16 in hex_digits base n' (x / 16) ((if d <? 10 then 48 + d else base + (d - 10)) :: acc)
  end.
Definition format_016x (x : N) : list N := hex_digits 97 16 x [].
Definition format_016X (x : N) : list N := hex_digits 65 16 x [].

(** ** Parsing *)
Definition dec_value (l : list N) : N := foldl (λ acc c, acc * 10 + (c - 48)) 0 l.
Definition hex_value (l : list N) : N :=
  foldl (λ acc c, acc * 16 + (if is_digit c then c - 48 else if c <? 97 then c - 55 else c - 87)) 0 l.

(** [i32::from_str], [u32::from_str] on the captures of the pattern *)
Definition i32_from_str (s : list N) : option Z :=
  match s with
  | 45 :: s => let v := dec_value s in if v <=? 2147483648 then Some (- Z.of_N v)%Z else None
  | _ => let v := dec_value s in if v <? 2147483648 then Some (Z.of_N v) else None
  end.
Definition u32_from_str (s : list N) : option N := let v := dec_value s in if v <? two32 then Some v else None.

Fixpoint starts_with (prefix s : list N) : bool :=
  match prefix, s with
  | [], _ => true
  | c :: prefix', d :: s' => (c =? d) && starts_with prefix' s'
  | _ :: _, [] => false
  end.

(** The pieces of the pattern: a literal, [\d+], and [[..]{n}]. *)
Definition match_literal (lit s : list N) : option (list N) :=
  if starts_with lit s then Some (drop (length lit) s) else None.

Fixpoint span_digits (s : list N) : list N * list N :=
  match s with
  | c :: s' => if is_digit c then let '(ds, rest) := span_digits s' in (c :: ds, rest) else ([], s)
  | [] => ([], [])
  end.
Definition match_digits (s : list N) : option (list N * list N) :=
  match span_digits s with ([], _) => None | (ds, rest) => Some (ds, rest) end.

Definition match_class (p : N → bool) (n : nat) (s : list N) : option (list N * list N) :=
  q ← read_exact n s; if forallb p (fst q) then Some q else None.

(** [-?\d+] *)
Definition match_integer (s : list N) : option (list N * list N) :=
  match s with
  | 45 :: s' => '(ds, rest) ← match_digits s'; Some (45 :: ds, rest)
  | _ => match_digits s
  end.

Record captures := { cap_chain : list N; cap_shard : list N; cap_seq_no : list N; cap_root_hash : list N; cap_file_hash : list N }.

(** The captures and the length of the match. *)
Definition REGEX (s : list N) : option (captures * nat) :=
  s1 ← match_literal [40] s;
  '(chain, s1) ← match_integer s1;
  s1 ← match_literal [44] s1;
  '(shard, s1) ← match_class is_lower_hex 16 s1;
  s1 ← match_literal [44] s1;
  '(seq_no, s1) ← match_digits s1;
  s1 ← match_literal [41; 58] s1;
  '(root_hash, s1) ← match_class is_upper_hex 64 s1;
  s1 ← match_literal [58] s1;
  '(file_hash, s1) ← match_class is_upper_hex 64 s1;
  Some ({| cap_chain := chain; cap_shard := shard; cap_seq_no := seq_no; cap_root_hash := root_hash;
           cap_file_hash := file_hash |}, (length s - length s1)%nat).

(** [s[pos..s.len()]]: the position is in the string and not inside a character. *)
Definition slice_from (s : list N) (pos : nat) : outcome (list N) :=
  match drop pos s with
  | c :: _ => if is_cont c then Panic else Done (drop pos s)
  | [] => if (pos =? length s)%nat then Done [] else Panic
  end.

(** ** What other crates provide *)
Class EntryFormats `{ShardIdents} := {
  upper_hex : list N → list N;
  u256_from_str : list N → option (list N);
  upper_hex_length h : length h = 32%nat → length (upper_hex h) = 64%nat;
  upper_hex_chars h : forallb is_upper_hex (upper_hex h) = true;
  u256_roundtrip h : length h = 32%nat → Forall byte_ok h → u256_from_str (upper_hex h) = Some h;
  PublicKey : Type;
  PublicKey_filename : PublicKey → list N;
  block_hash : BlockIdExt → N;
}.

Section entries.
Context {SI : ShardIdents} {F : EntryFormats}.

Inductive PackageEntryId :=
| EntryEmpty
| EntryBlock (block_id : BlockIdExt)
| EntryZeroState (block_id : BlockIdExt)
| EntryPersistentState (mc_block_id block_id : BlockIdExt)
| EntryProof (block_id : BlockIdExt)
| EntryProofLink (block_id : BlockIdExt)
| EntrySignatures (block_id : BlockIdExt)
| EntryCandidate (block_id : BlockIdExt) (collated_data_hash : list N) (source : PublicKey)
| EntryBlockInfo (block_id : BlockIdExt).

Definition filename_prefix (self : PackageEntryId) : list N :=
  match self with
  | EntryEmpty => bytes_of "empty"
  | EntryBlock _ => bytes_of "block"
  | EntryZeroState _ => bytes_of "zerostate"
  | EntryPersistentState _ _ => bytes_of "state"
  | EntryProof _ => bytes_of "proof"
  | EntryProofLink _ => bytes_of "prooflink"
  | EntrySignatures _ => bytes_of "signatures"
  | EntryCandidate _ _ _ => bytes_of "candidate"
  | EntryBlockInfo _ => bytes_of "info"
  end.

(** ** Names *)
Definition BlockIdExt_filename (id : BlockIdExt) : list N :=
  [40] ++ format_i32 (workchain_id (shard_id id)) ++ [44] ++ format_016x (shard_prefix_with_tag (shard_id id)) ++ [44] ++
  format_dec (seq_no id) ++ [41; 58] ++ upper_hex (root_hash id) ++ [58] ++ upper_hex (file_hash id).

Definition BlockIdExt_filename_short (id : BlockIdExt) : list N :=
  format_i32 (workchain_id (shard_id id)) ++ [95] ++ format_016X (shard_prefix_with_tag (shard_id id)) ++ [95] ++
  format_dec (seq_no id) ++ [95] ++ format_016X (block_hash id).

(** [filename] and [filename_short] have the same shape. *)
Definition entry_name (block_name : BlockIdExt → list N) (self : PackageEntryId) : list N :=
  match self with
  | EntryEmpty => filename_prefix self
  | EntryBlock id | EntryZeroState id | EntryProof id | EntryProofLink id | EntrySignatures id | EntryBlockInfo id =>
      filename_prefix self ++ [95] ++ block_name id
  | EntryPersistentState mc_block_id block_id =>
      filename_prefix self ++ [95] ++ block_name mc_block_id ++ [95] ++ block_name block_id
  | EntryCandidate block_id collated_data_hash source =>
      filename_prefix self ++ [95] ++ block_name block_id ++ [95] ++ upper_hex collated_data_hash ++ [95] ++
      PublicKey_filename source
  end.

Definition filename (self : PackageEntryId) : list N := entry_name BlockIdExt_filename self.
Definition filename_short (self : PackageEntryId) : list N := entry_name BlockIdExt_filename_short self.

(** ** Parsing *)
Definition parse_block_id (s : list N) : option (BlockIdExt * nat) :=
  '(caps, len) ← REGEX s;
  workchain_id ← i32_from_str (cap_chain caps);
  let shard_prefix_tagged := hex_value (cap_shard caps) in
  seq_no ← u32_from_str (cap_seq_no caps);
  root_hash ← u256_from_str (cap_root_hash caps);
  file_hash ← u256_from_str (cap_file_hash caps);
  shard_id ← with_tagged_prefix workchain_id shard_prefix_tagged;
  Some ({| shard_id := shard_id; seq_no := seq_no; root_hash := root_hash; file_hash := file_hash |}, len).

Fixpoint parse_ids_from (filename : list N) (pos : nat) (count : nat) : outcome (option (list BlockIdExt)) :=
  match count with
  | O => Done (Some [])
  | S count' =>
      s ← slice_from filename pos;
      match parse_block_id s with
      | None => Done None
      | Some (block_id, len) =>
          ids ← parse_ids_from filename (pos + len + 1) count';
          Done (l ← ids; Some (block_id :: l))
      end
  end.

(** [Some None]: the name has another prefix. *)
Definition parse_block_ids (filename prefix : list N) (count : nat) : outcome (option (option (list BlockIdExt))) :=
  if starts_with (prefix ++ [95]) filename then
    ids ← parse_ids_from filename (length prefix + 1) count; Done (l ← ids; Some (Some l))
  else Done (Some None).

(** The continuation of one attempt of [from_filename]. *)
Definition or_else (attempt : outcome (option (option (list BlockIdExt)))) (found : list BlockIdExt → outcome PackageEntryId)
    (next : outcome (option PackageEntryId)) : outcome (option PackageEntryId) :=
  r ← attempt;
  match r with
  | None => Done None
  | Some None => next
  | Some (Some ids) => e ← found ids; Done (Some e)
  end.

Definition first_id (f : BlockIdExt → PackageEntryId) (ids : list BlockIdExt) : outcome PackageEntryId :=
  id ← index ids 0; Done (f id).

Definition from_filename (filename : list N) : outcome (option PackageEntryId) :=
  if decide (filename = bytes_of "empty") then Done (Some EntryEmpty) else
  or_else (parse_block_ids filename (bytes_of "block") 1) (first_id EntryBlock) (
  or_else (parse_block_ids filename (bytes_of "zerostate") 1) (first_id EntryZeroState) (
  or_else (parse_block_ids filename (bytes_of "proof") 1) (first_id EntryProof) (
  or_else (parse_block_ids filename (bytes_of "prooflink") 1) (first_id EntryProofLink) (
  or_else (parse_block_ids filename (bytes_of "signatures") 1) (first_id EntrySignatures) (
  or_else (parse_block_ids filename (bytes_of "info") 1) (first_id EntryBlockInfo) (
  or_else (parse_block_ids filename (bytes_of "state") 2)
    (λ ids, mc_block_id ← index ids 0; block_id ← index ids 1; Done (EntryPersistentState mc_block_id block_id)) (
  (* a candidate, or a name that cannot be parsed *) Done None))))))).
End entries.

(** ** Facts: numbers *)
Lemma dec_value_digits fuel x acc :
  x < 10 ^ N.of_nat fuel →
  foldl (λ acc c, acc * 10 + (c - 48)) 0 (dec_digits fuel x acc) = foldl (λ acc c, acc * 10 + (c - 48)) x acc.
Proof.
  revert x acc. induction fuel as [|fuel IH]; intros x acc Hx; cbn [dec_digits].
  - assert (x = 0) as -> by (simpl in Hx; lia). done.
  - pose proof (N.div_mod x 10 ltac:(lia)) as Hd. destruct (N.ltb_spec x 10) as [Hlt|Hge].
    + cbn [foldl]. f_equal. rewrite N.mod_small by done. lia.
    + rewrite IH. 2:{ apply N.Div0.div_lt_upper_bound. rewrite Nat2N.inj_succ, N.pow_succ_r' in Hx. lia. }
      cbn [foldl]. f_equal. rewrite (N.add_comm 48), N.add_sub, N.mul_comm. by symmetry.
Qed.

Lemma dec_roundtrip x : dec_value (format_dec x) = x.
Proof.
  apply dec_value_digits. rewrite Nat2N.inj_succ, N2Nat.id, N.pow_succ_r'. pose proof (N.size_gt x).
  pose proof (N.pow_le_mono_l 2 10 (N.size x) ltac:(lia)). lia.
Qed.

Lemma is_digit_mod x : is_digit (48 + x mod 10) = true.
Proof.
  pose proof (N.mod_upper_bound x 10 ltac:(lia)) as H. revert H. generalize (x mod 10). intros d H. unfold is_digit. lia.
Qed.

Lemma dec_digits_chars fuel x acc : forallb is_digit acc = true → forallb is_digit (dec_digits fuel x acc) = true.
Proof.
  revert x acc. induction fuel as [|fuel IH]; intros x acc Ha; cbn [dec_digits]; [done|].
  assert (forallb is_digit (48 + x mod 10 :: acc) = true) by (cbn [forallb]; by rewrite is_digit_mod, Ha).
  destruct (x <? 10); [done|]. by apply IH.
Qed.

Lemma dec_digits_nonempty fuel x acc : acc ≠ [] → dec_digits fuel x acc ≠ [].
Proof. revert x acc. induction fuel as [|fuel IH]; intros x acc Ha; cbn [dec_digits]; [done|]. case_match; [done|]. by apply IH. Qed.

Lemma format_dec_digits x : format_dec x ≠ [] ∧ forallb is_digit (format_dec x) = true.
Proof.
  split; [|by apply dec_digits_chars]. unfold format_dec. cbn [dec_digits]. case_match; [done|]. by apply dec_digits_nonempty.
Qed.

Definition hex_char (base d : N) : N := if d <? 10 then 48 + d else base + (d - 10).

Lemma hex_char_value base d :
  d < 16 → base = 97 ∨ base = 65 → (if is_digit (hex_char base d) then hex_char base d - 48
    else if hex_char base d <? 97 then hex_char base d - 55 else hex_char base d - 87) = d.
Proof.
  intros Hd Hb. unfold hex_char, is_digit. destruct (N.ltb_spec d 10).
  - rewrite (proj2 (N.leb_le _ _)), (proj2 (N.ltb_lt _ _)) by lia. simpl. lia.
  - destruct Hb as [-> | ->]; repeat case_match; breflect; lia.
Qed.

Lemma hex_value_digits base n x acc :
  base = 97 ∨ base = 65 → x < 16 ^ N.of_nat n →
  let f acc c := acc * 16 + (if is_digit c then c - 48 else if c <? 97 then c - 55 else c - 87) in
  foldl f 0 (hex_digits base n x acc) = foldl f x acc.
Proof.
  intros Hb. revert x acc. induction n as [|n IH]; intros x acc Hx; cbn [hex_digits].
  - assert (x = 0) as -> by (simpl in Hx; lia). done.
  - cbv zeta in *. rewrite IH. 2:{ apply N.Div0.div_lt_upper_bound. rewrite Nat2N.inj_succ, N.pow_succ_r' in Hx. lia. }
    cbn [foldl]. f_equal. fold (hex_char base (x mod 16)). pose proof (N.mod_upper_bound x 16 ltac:(lia)).
    rewrite hex_char_value by done. rewrite N.mul_comm. symmetry. by apply N.div_mod.
Qed.

Lemma hex_digits_length base n x acc : length (hex_digits base n x acc) = (n + length acc)%nat.
Proof. revert x acc. induction n as [|n IH]; intros x acc; cbn [hex_digits]; [done|]. rewrite IH. simpl. lia. Qed.

Lemma hex_digits_chars n x acc : forallb is_lower_hex acc = true → forallb is_lower_hex (hex_digits 97 n x acc) = true.
Proof.
  revert x acc. induction n as [|n IH]; intros x acc Ha; cbn [hex_digits]; [done|]. apply IH. cbn [forallb]. rewrite Ha, andb_true_r.
  pose proof (N.mod_upper_bound x 16 ltac:(lia)) as H. revert H. generalize (x mod 16). intros d H. unfold is_lower_hex, is_digit.
  destruct (N.ltb_spec d 10); lia.
Qed.

Lemma format_016x_ok x :
  x < two64 → hex_value (format_016x x) = x ∧ length (format_016x x) = 16%nat ∧ forallb is_lower_hex (format_016x x) = true.
Proof.
  intros Hx. split; [apply (hex_value_digits 97 16 x []); [by left|done]|]. split; [apply hex_digits_length|by apply hex_digits_chars].
Qed.

(** ** Facts: the pattern *)
Lemma starts_with_app l s : starts_with l (l ++ s) = true.
Proof. induction l as [|c l IH]; simpl; [done|]. by rewrite N.eqb_refl. Qed.

Lemma match_literal_app l s : match_literal l (l ++ s) = Some s.
Proof. unfold match_literal. by rewrite starts_with_app, drop_app_length. Qed.

Lemma match_digits_app ds c rest :
  ds ≠ [] → forallb is_digit ds = true → is_digit c = false → match_digits (ds ++ c :: rest) = Some (ds, c :: rest).
Proof.
  intros Hne Hds Hc. unfold match_digits. assert (span_digits (ds ++ c :: rest) = (ds, c :: rest)) as ->.
  { clear Hne. induction ds as [|d ds IH]; cbn [span_digits app]; [by rewrite Hc|].
    cbn [forallb] in Hds. apply andb_true_iff in Hds as [-> Hds]. by rewrite (IH Hds). }
  by destruct ds.
Qed.

Lemma match_class_app p n l rest : length l = n → forallb p l = true → match_class p n (l ++ rest) = Some (l, rest).
Proof. intros Hl Hp. unfold match_class. rewrite read_exact_app_eq by done. cbn [mbind option_bind fst]. by rewrite Hp. Qed.

Lemma match_integer_app z c rest :
  is_digit c = false → match_integer (format_i32 z ++ c :: rest) = Some (format_i32 z, c :: rest).
Proof.
  intros Hc. unfold format_i32. destruct (z <? 0)%Z.
  - destruct (format_dec_digits (Z.to_N (- z))) as [Hne Hd]. cbn [app match_integer]. by rewrite match_digits_app.
  - destruct (format_dec_digits (Z.to_N z)) as [Hne Hd]. rewrite <- (match_digits_app _ c rest Hne Hd Hc).
    destruct (format_dec (Z.to_N z)) as [|d ds]; [done|]. cbn [forallb] in Hd. apply andb_true_iff in Hd as [Hd _].
    assert (d ≠ 45) by (intros ->; done). cbn [app match_integer]. repeat case_match; done.
Qed.

Lemma i32_str_roundtrip z : (- 2 ^ 31 <= z < 2 ^ 31)%Z → i32_from_str (format_i32 z) = Some z.
Proof.
  intros Hz. unfold format_i32. destruct (Z.ltb_spec z 0).
  - cbn [i32_from_str]. rewrite dec_roundtrip, (proj2 (N.leb_le _ _)) by lia. f_equal. lia.
  - destruct (format_dec_digits (Z.to_N z)) as [Hne Hd]. pose proof (dec_roundtrip (Z.to_N z)) as Hv.
    destruct (format_dec (Z.to_N z)) as [|d ds]; [done|]. cbn [forallb] in Hd. apply andb_true_iff in Hd as [Hd _].
    assert (d ≠ 45) by (intros ->; done). unfold i32_from_str. rewrite Hv. repeat case_match; breflect; try done; f_equal; lia.
Qed.

(** ** Facts: names are parsed back *)
Section roundtrip.
Context {SI : ShardIdents} {F : EntryFormats}.

Record named_ok (id : BlockIdExt) : Prop := {
  nm_id : block_id_ok id;
  nm_root_hash : Forall byte_ok (root_hash id);
  nm_file_hash : Forall byte_ok (file_hash id);
}.

Lemma match_literal_1 c s : match_literal [c] (c :: s) = Some s.
Proof. apply (match_literal_app [c]). Qed.

Lemma match_literal_2 c d s : match_literal [c; d] (c :: d :: s) = Some s.
Proof. apply (match_literal_app [c; d]). Qed.

Lemma regex_filename id rest :
  block_id_ok id → REGEX (BlockIdExt_filename id ++ rest) =
    Some ({| cap_chain := format_i32 (workchain_id (shard_id id)); cap_shard := format_016x (shard_prefix_with_tag (shard_id id));
             cap_seq_no := format_dec (seq_no id); cap_root_hash := upper_hex (root_hash id);
             cap_file_hash := upper_hex (file_hash id) |}, length (BlockIdExt_filename id)).
Proof.
  intros [_ Hr Hf]. destruct (format_016x_ok _ (shard_prefix_range (shard_id id))) as (_ & Hl & Hc).
  destruct (format_dec_digits (seq_no id)) as [Hne Hd].
  unfold REGEX. set (s := BlockIdExt_filename id ++ rest). assert (Hs : s = BlockIdExt_filename id ++ rest) by done.
  rewrite Hs at 1. unfold BlockIdExt_filename at 1. rewrite <- !app_assoc. cbn [app]. rewrite match_literal_1. cbn [mbind option_bind].
  rewrite match_integer_app by done. cbn [mbind option_bind]. rewrite match_literal_1. cbn [mbind option_bind].
  rewrite (match_class_app _ 16) by done. cbn [mbind option_bind]. rewrite match_literal_1. cbn [mbind option_bind].
  rewrite match_digits_app by done. cbn [mbind option_bind]. rewrite match_literal_2. cbn [mbind option_bind].
  rewrite (match_class_app _ 64) by (apply upper_hex_chars || by apply upper_hex_length). cbn [mbind option_bind].
  rewrite match_literal_1. cbn [mbind option_bind].
  rewrite (match_class_app _ 64) by (apply upper_hex_chars || by apply upper_hex_length). cbn [mbind option_bind].
  do 2 f_equal. unfold s. rewrite length_app. lia.
Qed.

Lemma parse_filename id rest :
  named_ok id → parse_block_id (BlockIdExt_filename id ++ rest) = Some (id, length (BlockIdExt_filename id)).
Proof.
  intros [Hid Hr Hf]. unfold parse_block_id. rewrite regex_filename by done. destruct Hid as [Hs Hrl Hfl].
  cbn [mbind option_bind cap_chain cap_shard cap_seq_no cap_root_hash cap_file_hash].
  rewrite i32_str_roundtrip by apply workchain_id_range. cbn [mbind option_bind].
  rewrite (proj1 (format_016x_ok _ (shard_prefix_range (shard_id id)))). unfold u32_from_str.
  rewrite dec_roundtrip, (proj2 (N.ltb_lt _ _)) by done. cbn [mbind option_bind]. rewrite !u256_roundtrip by done.
  cbn [mbind option_bind]. rewrite with_tagged_prefix_ok. cbn [mbind option_bind]. by destruct id.
Qed.

Lemma slice_filename l id rest :
  slice_from (l ++ BlockIdExt_filename id ++ rest) (length l) = Done (BlockIdExt_filename id ++ rest).
Proof. unfold slice_from. rewrite drop_app_length. done. Qed.

Lemma parse_ids_step l id rest n :
  named_ok id → parse_ids_from (l ++ BlockIdExt_filename id ++ rest) (length l) (S n) =
    ids ← parse_ids_from (l ++ BlockIdExt_filename id ++ rest) (length l + length (BlockIdExt_filename id) + 1) n;
    Done (l ← ids; Some (id :: l)).
Proof. intros Hid. cbn [parse_ids_from]. rewrite slice_filename. cbn [mbind outcome_bind]. by rewrite parse_filename. Qed.

Lemma parse_one l id : named_ok id → parse_ids_from (l ++ BlockIdExt_filename id) (length l) 1 = Done (Some [id]).
Proof. intros Hid. rewrite <- (app_nil_r (BlockIdExt_filename id)). by rewrite parse_ids_step. Qed.

Lemma parse_two l id id2 :
  named_ok id → named_ok id2 →
  parse_ids_from (l ++ BlockIdExt_filename id ++ [95] ++ BlockIdExt_filename id2) (length l) 2 = Done (Some [id; id2]).
Proof.
  intros Hid Hid2. rewrite parse_ids_step by done. pose proof (parse_one (l ++ BlockIdExt_filename id ++ [95]) id2 Hid2) as H2.
  rewrite <- !app_assoc, !length_app, Nat.add_assoc in H2. cbn [length] in H2. by rewrite H2.
Qed.

(** The entries whose names can be parsed. *)
Definition entry_id_ok (e : PackageEntryId) : Prop :=
  match e with
  | EntryEmpty => True
  | EntryBlock id | EntryZeroState id | EntryProof id | EntryProofLink id | EntrySignatures id | EntryBlockInfo id => named_ok id
  | EntryPersistentState mc_block_id block_id => named_ok mc_block_id ∧ named_ok block_id
  | EntryCandidate _ _ _ => False
  end.

Lemma parse_ids_one prefix id :
  named_ok id → parse_block_ids (prefix ++ [95] ++ BlockIdExt_filename id) prefix 1 = Done (Some (Some [id])).
Proof.
  intros Hid. unfold parse_block_ids. rewrite app_assoc, starts_with_app. pose proof (parse_one (prefix ++ [95]) id Hid) as Hp.
  rewrite length_app in Hp. cbn [length] in Hp. by rewrite Hp.
Qed.

Lemma parse_ids_two prefix id id2 :
  named_ok id → named_ok id2 →
  parse_block_ids (prefix ++ [95] ++ BlockIdExt_filename id ++ [95] ++ BlockIdExt_filename id2) prefix 2 = Done (Some (Some [id; id2])).
Proof.
  intros Hid Hid2. unfold parse_block_ids. rewrite app_assoc, starts_with_app. pose proof (parse_two (prefix ++ [95]) id id2 Hid Hid2) as Hp.
  rewrite length_app in Hp. cbn [length] in Hp. by rewrite Hp.
Qed.

(** A second identifier is looked for behind the end of the name. *)
Lemma parse_ids_short prefix id :
  named_ok id → parse_block_ids (prefix ++ [95] ++ BlockIdExt_filename id) prefix 2 = Panic.
Proof.
  intros Hid. unfold parse_block_ids. rewrite app_assoc, starts_with_app.
  pose proof (parse_ids_step (prefix ++ [95]) id [] 1 Hid) as Hp. rewrite app_nil_r, length_app in Hp. cbn [length] in Hp. rewrite Hp.
  cbn [parse_ids_from]. assert (Hlen : (length ((prefix ++ [95%N]) ++ BlockIdExt_filename id) < length prefix + 1 + length (BlockIdExt_filename id) + 1)%nat)
    by (rewrite !length_app; cbn [length]; lia).
  unfold slice_from. rewrite drop_ge by (apply Nat.lt_le_incl, Hlen). rewrite (proj2 (Nat.eqb_neq _ _)); [done|].
  intros Heq. rewrite Heq in Hlen. by apply Nat.lt_irrefl in Hlen.
Qed.

Lemma parse_ids_other s prefix n : starts_with (prefix ++ [95]) s = false → parse_block_ids s prefix n = Done (Some None).
Proof. intros Hs. unfold parse_block_ids. by rewrite Hs. Qed.

Lemma or_else_next attempt found next : attempt = Done (Some None) → or_else attempt found next = next.
Proof. by intros ->. Qed.
End roundtrip.

(** Skip the attempts with other prefixes. *)
Ltac skip_prefixes := repeat (rewrite or_else_next by (apply parse_ids_other; reflexivity)).
