(* ===== verification/FileMaps.v ===== *)
(** * Storage: file maps

    Models [storage/src/archives/file_maps.rs] and [package_index_db.rs]: the
    archive slices of one package type, a vector sorted by their number, and the
    index that is stored.  The package files of one type are in one name space, so
    the map also keeps what is on disk: the package files and the databases of
    every slice.  A slice that was used is written back; other slices that have the
    same file open see the change.  Operations are atomic; [shared] tells which
    descriptions somebody else holds. *)

From stdpp Require Import sorting.
From S2P Require Import Prelude BlockId Package ArchiveSlice ArchiveFacts.

(** ** [slice::binary_search_by] of the standard library

    [inl i]: found at [i]; [inr i]: not found, [i] is where it would be inserted.
    The interval shrinks in every turn, its length is enough fuel. *)
Section search.
Context {A : Type} (cmp : A → comparison) (l : list A).

Fixpoint search_loop (fuel left right : nat) : nat + nat :=
  match fuel with
  | O => inr left
  | S fuel' =>
      if (left <? right)%nat then
        let mid := (left + (right - left) / 2)%nat in
        match cmp <$> l !! mid with
        | Some Lt => search_loop fuel' (S mid) right
        | Some Gt => search_loop fuel' left mid
        | Some Eq => inl mid
        | None => inr left
        end
      else inr left
  end.

Definition binary_search_by : nat + nat := search_loop (S (length l)) 0 (length l).
End search.

(** ** State *)
Record FileDescription := {
  fd_id : PackageId;
  fd_deleted : bool;
  fd_archive_slice : ArchiveSlice;
}.

Record PackageIndexEntry := { ie_deleted : bool; ie_finalized : bool }.
Definition PackageIndexEntry_new : PackageIndexEntry := {| ie_deleted := false; ie_finalized := false |}.

Record FileMap := {
  fm_storage : gmap N PackageIndexEntry;
  fm_elements : list (N * FileDescription);
  fm_disk : gmap N (list N);
  fm_dbs : gmap N SliceDbs;
}.
Implicit Types (self : FileMap) (fd : FileDescription).

(** ** The disk behind the slices *)
Definition set_file (file : list N) (p : Package) : Package :=
  {| pkg_read_only := pkg_read_only p; pkg_size := pkg_size p; pkg_file := file |}.

(** An open package reads the file under its name; a removed file stays readable. *)
Definition sync_package (disk : gmap N (list N)) (pi : PackageInfo) : PackageInfo :=
  match disk !! pi_seq_no pi with Some file => set_package pi (set_file file (pi_package pi)) | None => pi end.

Definition sync_slice (disk : gmap N (list N)) (slice : ArchiveSlice) : ArchiveSlice :=
  {| as_archive_id := as_archive_id slice; as_packages := sync_package disk <$> as_packages slice;
     as_sliced_mode := as_sliced_mode slice; as_slice_size := as_slice_size slice; as_package_type := as_package_type slice;
     as_finalized := as_finalized slice; as_dbs := as_dbs slice; as_disk := disk |}.

Definition with_slice fd (slice : ArchiveSlice) : FileDescription :=
  {| fd_id := fd_id fd; fd_deleted := fd_deleted fd; fd_archive_slice := slice |}.

Definition sync_entry (disk : gmap N (list N)) (entry : N * FileDescription) : N * FileDescription :=
  (fst entry, with_slice (snd entry) (sync_slice disk (fd_archive_slice (snd entry)))).

(** A slice was opened or used. *)
Definition write_back self (key : N) (slice : ArchiveSlice) : FileMap :=
  let disk := slice_files slice in
  {| fm_storage := fm_storage self;
     fm_elements := (λ entry, sync_entry disk
       (if fst entry =? key then (key, with_slice (snd entry) slice) else entry)) <$> fm_elements self;
     fm_disk := disk; fm_dbs := <[key := as_dbs slice]> (fm_dbs self) |}.

(** ** Operations *)
Definition key_compare (key : N) (entry : N * FileDescription) : comparison := N.compare (fst entry) key.
Definition search (l : list (N * FileDescription)) (key : N) : nat + nat := binary_search_by (key_compare key) l.

Definition put_elements (l : list (N * FileDescription)) (key : N) fd : list (N * FileDescription) :=
  match search l key with
  | inl index => <[index := (key, fd)]> l
  | inr index => take index l ++ (key, fd) :: drop index l
  end.

Definition FileMap_put self (package_id : N) (file_description : FileDescription) : FileMap :=
  {| fm_storage := <[package_id := PackageIndexEntry_new]> (fm_storage self);
     fm_elements := put_elements (fm_elements self) package_id file_description;
     fm_disk := fm_disk self; fm_dbs := fm_dbs self |}.

(** [ArchiveSlice::with_data] on the disk of the map. *)
Definition open_slice self (key : N) (package_type : PackageType) (finalized : bool) : outcome (option ArchiveSlice) :=
  ArchiveSlice_with_data (fm_disk self) (default empty_dbs (fm_dbs self !! key)) key package_type finalized.

(** The loop of [new] over the sorted index. *)
Fixpoint open_all self (package_type : PackageType) (index_pairs : list (N * PackageIndexEntry)) : outcome (option FileMap) :=
  match index_pairs with
  | [] => Done (Some self)
  | (key, value) :: index_pairs' =>
      opened ← open_slice self key package_type (ie_finalized value);
      match opened with
      | None => Done None
      | Some archive_slice =>
          let self := write_back self key archive_slice in
          let value := {| fd_id := {| pid_id := key; pid_package_type := package_type |};
                          fd_deleted := ie_deleted value;
                          fd_archive_slice := sync_slice (fm_disk self) archive_slice |} in
          open_all {| fm_storage := fm_storage self; fm_elements := fm_elements self ++ [(key, value)];
                      fm_disk := fm_disk self; fm_dbs := fm_dbs self |} package_type index_pairs'
      end
  end.

Definition index_le (a b : N * PackageIndexEntry) : Prop := fst a <= fst b.
#[global] Instance index_le_dec : RelDecision index_le := λ a b, decide (fst a <= fst b).

Definition FileMap_new (storage : gmap N PackageIndexEntry) (disk : gmap N (list N)) (dbs : gmap N SliceDbs)
    (package_type : PackageType) : outcome (option FileMap) :=
  open_all {| fm_storage := storage; fm_elements := []; fm_disk := disk; fm_dbs := dbs |} package_type
    (merge_sort index_le (map_to_list storage)).

Definition FileMap_get self (package_id : N) : option FileDescription :=
  match search (fm_elements self) package_id with
  | inl index => snd <$> fm_elements self !! index
  | inr _ => None
  end.

Definition get_closest self (mc_seq_no : N) : option FileDescription :=
  match search (fm_elements self) mc_seq_no with
  | inl index => snd <$> fm_elements self !! index
  | inr O => None
  | inr (S index) => snd <$> fm_elements self !! index
  end.

(** ** Collection *)
Fixpoint marked_entries (elements : list (N * FileDescription)) (front : N) : list N :=
  match elements with
  | [] => []
  | (key, fd) :: rest =>
      let slice := fd_archive_slice fd in
      let next_id := match rest with
                     | [] => u32_add (as_archive_id slice) ARCHIVE_SLICE_SIZE
                     | (_, next) :: _ => as_archive_id (fd_archive_slice next)
                     end in
      if bool_decide (as_package_type slice = Blocks) && (next_id <=? front)
      then key :: marked_entries rest front else marked_entries rest front
  end.

Definition get_marked_entries self (front : N) : list N := marked_entries (fm_elements self) front.

(** [ArchiveSlice::destroy]: stops at the first file that is not there. *)
Fixpoint remove_files (seq_nos : list N) (disk : gmap N (list N)) : option unit * gmap N (list N) :=
  match seq_nos with
  | [] => (Some (), disk)
  | seq_no :: seq_nos' =>
      match disk !! seq_no with
      | Some _ => remove_files seq_nos' (delete seq_no disk)
      | None => (None, disk)
      end
  end.

Definition destroy self (key : N) fd : FileMap :=
  match remove_files (pi_seq_no <$> as_packages (fd_archive_slice fd)) (fm_disk self) with
  | (Some _, disk) => {| fm_storage := fm_storage self; fm_elements := sync_entry disk <$> fm_elements self;
                         fm_disk := disk; fm_dbs := delete key (fm_dbs self) |}
  | (None, disk) => {| fm_storage := fm_storage self; fm_elements := sync_entry disk <$> fm_elements self;
                       fm_disk := disk; fm_dbs := fm_dbs self |}
  end.

Definition set_elements self (elements : list (N * FileDescription)) : FileMap :=
  {| fm_storage := fm_storage self; fm_elements := elements; fm_disk := fm_disk self; fm_dbs := fm_dbs self |}.

(** One turn of [gc]: [None] when the slice is gone. *)
Definition collect_one (shared : N → bool) self (key : N) : option FileMap :=
  '(position, entry) ← list_find (λ item, fst item = key) (fm_elements self);
  let self := set_elements self (delete position (fm_elements self)) in
  Some (if shared key then self else destroy self key (snd entry)).

Fixpoint collect_all (shared : N → bool) self (keys : list N) : option unit * FileMap :=
  match keys with
  | [] => (Some (), self)
  | key :: keys' =>
      match collect_one shared self key with
      | Some self => collect_all shared self keys'
      | None => (None, self)
      end
  end.

(** [pop] takes the marked packages from the end. *)
Definition FileMap_gc (shared : N → bool) self (front : N) : option unit * FileMap :=
  collect_all shared self (reverse (get_marked_entries self front)).

(** ** Storage: facts about file maps

    The sorted vector behaves as a finite map with predecessor lookup.  A map of
    slices is well formed below a bound: every slice and every package has a number
    below it, the packages of different slices are different files, and the open
    packages agree with the disk. *)

(** ** Binary search *)
Section search_facts.
Context {A : Type} (cmp : A → comparison) (l : list A).

(** The comparison grows along the vector. *)
Definition ordered : Prop :=
  ∀ i j x y, (i < j)%nat → l !! i = Some x → l !! j = Some y → (cmp y = Lt → cmp x = Lt) ∧ (cmp x = Gt → cmp y = Gt).

Lemma search_loop_spec fuel left right :
  ordered → (right <= length l)%nat → (right - left < fuel)%nat → (left <= right)%nat →
  (∀ i x, (i < left)%nat → l !! i = Some x → cmp x = Lt) → (∀ i x, (right <= i)%nat → l !! i = Some x → cmp x = Gt) →
  match search_loop cmp l fuel left right with
  | inl i => ∃ x, l !! i = Some x ∧ cmp x = Eq
  | inr i => (i <= length l)%nat ∧ (∀ j x, (j < i)%nat → l !! j = Some x → cmp x = Lt) ∧
      (∀ j x, (i <= j)%nat → l !! j = Some x → cmp x = Gt)
  end.
Proof.
  intros Hord. revert left right. induction fuel as [|fuel IH]; intros left right Hr Hf Hle Hlt Hgt; [lia|].
  cbn [search_loop]. destruct (Nat.ltb_spec left right) as [Hlr|]; [|assert (left = right) as <- by lia; done].
  set (mid := (left + (right - left) / 2)%nat).
  assert (Hmid : (left <= mid < right)%nat).
  { pose proof (Nat.div_lt (right - left) 2 ltac:(lia) ltac:(lia)). unfold mid. lia. }
  destruct (lookup_lt_is_Some_2 l mid ltac:(lia)) as [x Hx]. rewrite Hx. cbn [fmap option_fmap option_map].
  destruct (cmp x) eqn:Ec; [by eauto|apply IH; try lia..].
  - intros i y Hi Hy. destruct (decide (i = mid)) as [->|]; [congruence|]. destruct (Hord i mid y x ltac:(lia) Hy Hx) as [Ho _]. auto.
  - done.
  - done.
  - intros i y Hi Hy. destruct (decide (i = mid)) as [->|]; [congruence|]. destruct (Hord mid i x y ltac:(lia) Hx Hy) as [_ Ho]. auto.
Qed.

Lemma binary_search_spec :
  ordered → match binary_search_by cmp l with
  | inl i => ∃ x, l !! i = Some x ∧ cmp x = Eq
  | inr i => (i <= length l)%nat ∧ (∀ j x, (j < i)%nat → l !! j = Some x → cmp x = Lt) ∧
      (∀ j x, (i <= j)%nat → l !! j = Some x → cmp x = Gt)
  end.
Proof.
  intros Hord. apply search_loop_spec; try done; [lia..|]. intros i x Hi Hx. apply lookup_lt_Some in Hx. lia.
Qed.
End search_facts.

(** ** The vector as a map *)
Implicit Types (l : list (N * FileDescription)) (fm : FileMap).

Definition key_lt (a b : N * FileDescription) : Prop := fst a < fst b.

Lemma sorted_lookup l i j x y :
  StronglySorted key_lt l → (i < j)%nat → l !! i = Some x → l !! j = Some y → fst x < fst y.
Proof.
  intros Hs. revert i j. induction Hs as [|a l Hs IH Ha]; intros i j Hij Hi Hj; [done|]. destruct j as [|j]; [lia|].
  destruct i as [|i]; simpl in *.
  - injection Hi as <-. rewrite list.Forall_forall in Ha. apply Ha. by eapply list_elem_of_lookup_2.
  - eapply IH; [|done..]. lia.
Qed.

Lemma sorted_unique l k fd fd' : StronglySorted key_lt l → (k, fd) ∈ l → (k, fd') ∈ l → fd = fd'.
Proof.
  intros Hs [i Hi]%list_elem_of_lookup [j Hj]%list_elem_of_lookup. destruct (Nat.lt_trichotomy i j) as [Hl|[->|Hl]].
  - pose proof (sorted_lookup l i j _ _ Hs Hl Hi Hj). simpl in *. lia.
  - congruence.
  - pose proof (sorted_lookup l j i _ _ Hs Hl Hj Hi). simpl in *. lia.
Qed.

Lemma search_spec l key :
  StronglySorted key_lt l → match search l key with
  | inl i => ∃ fd, l !! i = Some (key, fd)
  | inr i => (i <= length l)%nat ∧ (∀ j x, (j < i)%nat → l !! j = Some x → fst x < key) ∧
      (∀ j x, (i <= j)%nat → l !! j = Some x → key < fst x)
  end.
Proof.
  intros Hs. unfold search. pose proof (binary_search_spec (key_compare key) l) as Hb.
  destruct (binary_search_by _ l) as [i|i]; destruct Hb as (x & Hb).
  1,3: (intros i1 i2 x1 x2 Hlt H1 H2; pose proof (sorted_lookup l _ _ _ _ Hs Hlt H1 H2); unfold key_compare;
    rewrite !N.compare_lt_iff, !N.compare_gt_iff; lia).
  - destruct Hb as [Hx He%N.compare_eq_iff]. destruct x as [k fd]. simpl in He. subst k. eauto.
  - destruct Hb as [H1 H2]. split; [done|]. split.
    + intros j y Hj Hy. by eapply N.compare_lt_iff, H1.
    + intros j y Hj Hy. by eapply N.compare_gt_iff, H2.
Qed.

Lemma get_spec fm key fd :
  StronglySorted key_lt (fm_elements fm) → FileMap_get fm key = Some fd ↔ (key, fd) ∈ fm_elements fm.
Proof.
  intros Hs. unfold FileMap_get. pose proof (search_spec _ key Hs) as Hsp. destruct (search _ key) as [i|i].
  - destruct Hsp as [fd' Hi]. rewrite Hi. simpl. pose proof (list_elem_of_lookup_2 _ _ _ Hi) as Hin. split; [intros [= <-]; done|].
    intros Hin'. f_equal. by eapply sorted_unique.
  - split; [done|]. intros [j Hj]%list_elem_of_lookup. destruct Hsp as (_ & Hlt & Hgt). destruct (Nat.lt_ge_cases j i) as [Hc|Hc].
    + specialize (Hlt _ _ Hc Hj). simpl in Hlt. lia.
    + specialize (Hgt _ _ Hc Hj). simpl in Hgt. lia.
Qed.

Lemma get_None fm key fd : StronglySorted key_lt (fm_elements fm) → FileMap_get fm key = None → (key, fd) ∉ fm_elements fm.
Proof. intros Hs Hn Hin. apply get_spec in Hin; [congruence|done]. Qed.

(** The predecessor. *)
Definition closest l (m k : N) fd : Prop :=
  (k, fd) ∈ l ∧ k <= m ∧ ∀ k' fd', (k', fd') ∈ l → k' <= m → k' <= k.

Lemma closest_unique l m k k' fd fd' : StronglySorted key_lt l → closest l m k fd → closest l m k' fd' → k = k' ∧ fd = fd'.
Proof.
  intros Hs (H1 & H2 & H3) (H1' & H2' & H3'). pose proof (H3 _ _ H1' H2'). pose proof (H3' _ _ H1 H2).
  assert (k = k') as <- by lia. split; [done|]. by eapply sorted_unique.
Qed.

Lemma get_closest_spec fm m fd :
  StronglySorted key_lt (fm_elements fm) → get_closest fm m = Some fd ↔ ∃ k, closest (fm_elements fm) m k fd.
Proof.
  intros Hs. set (l := fm_elements fm) in *.
  assert (Hfound : ∀ i k f, l !! i = Some (k, f) → closest l m k f → Some f = Some fd ↔ ∃ k, closest l m k fd).
  { intros i k f Hi Hc. split; [intros [= <-]; eauto|]. intros [k' Hc']. f_equal. by eapply closest_unique. }
  unfold get_closest. fold l. pose proof (search_spec l m Hs) as Hsp. destruct (search l m) as [i|i].
  - destruct Hsp as [f Hi]. rewrite Hi. simpl. apply (Hfound i m f Hi). split; [by eapply list_elem_of_lookup_2|]. split; [lia|]. intros; lia.
  - destruct Hsp as (Hle & Hlt & Hgt). destruct i as [|i].
    + split; [done|]. intros (k & ([j Hj]%list_elem_of_lookup & Hk & _)). specialize (Hgt j _ ltac:(lia) Hj). simpl in Hgt. lia.
    + destruct (lookup_lt_is_Some_2 l i ltac:(lia)) as [[k f] Hi]. rewrite Hi. simpl. apply (Hfound i k f Hi).
      specialize (Hlt i _ ltac:(lia) Hi). simpl in Hlt. split; [by eapply list_elem_of_lookup_2|]. split; [lia|].
      intros k' f' [j Hj]%list_elem_of_lookup Hk'. destruct (Nat.lt_trichotomy j i) as [Hc|[->|Hc]].
      * pose proof (sorted_lookup l j i _ _ Hs Hc Hj Hi). simpl in *. lia.
      * simplify_eq. lia.
      * specialize (Hgt j _ ltac:(lia) Hj). simpl in Hgt. lia.
Qed.

Lemma put_new_elem l key fd k f :
  StronglySorted key_lt l → (∀ f, (key, f) ∉ l) → (k, f) ∈ put_elements l key fd ↔ (k, f) = (key, fd) ∨ (k, f) ∈ l.
Proof.
  intros Hs Hn. unfold put_elements. pose proof (search_spec l key Hs) as Hsp. destruct (search l key) as [i|i].
  - destruct Hsp as [f' Hi]. apply list_elem_of_lookup_2 in Hi. by destruct (Hn f').
  - rewrite <- (take_drop i l) at 3. rewrite !elem_of_app, elem_of_cons. tauto.
Qed.

Lemma put_new_sorted l key fd :
  StronglySorted key_lt l → (∀ f, (key, f) ∉ l) → StronglySorted key_lt (put_elements l key fd).
Proof.
  intros Hs Hn. unfold put_elements. pose proof (search_spec l key Hs) as Hsp. destruct (search l key) as [i|i].
  { destruct Hsp as [f' Hi]. apply list_elem_of_lookup_2 in Hi. by destruct (Hn f'). }
  destruct Hsp as (Hle & Hlt & Hgt). pose proof Hs as Hs'. rewrite <- (take_drop i l) in Hs'.
  apply StronglySorted_app in Hs' as (Hx & H1 & H2). apply StronglySorted_app. split_and!; [|done|].
  - intros x y [j Hj]%list_elem_of_lookup Hy. apply lookup_take_Some in Hj as [Hj Hji]. pose proof (Hlt _ _ Hji Hj) as Hxk.
    apply elem_of_cons in Hy as [->|[j' Hj']%list_elem_of_lookup]; [done|]. rewrite lookup_drop in Hj'.
    pose proof (Hgt (i + j')%nat _ ltac:(lia) Hj'). unfold key_lt. lia.
  - constructor; [done|]. apply list.Forall_forall. intros x [j Hj]%list_elem_of_lookup. rewrite lookup_drop in Hj.
    apply (Hgt (i + j)%nat); [lia|done].
Qed.

(** ** Slices on another disk *)
Implicit Types (s : ArchiveSlice) (disk : gmap N (list N)).

Definition on_disk_of disk s : ArchiveSlice :=
  {| as_archive_id := as_archive_id s; as_packages := as_packages s; as_sliced_mode := as_sliced_mode s;
     as_slice_size := as_slice_size s; as_package_type := as_package_type s; as_finalized := as_finalized s;
     as_dbs := as_dbs s; as_disk := disk |}.

Definition disk_ok disk : Prop :=
  ∀ n f, disk !! n = Some f → Forall byte_ok f ∧ is_Some (Package_open (Some f) false true).

Lemma on_disk_of_ok disk s : disk_ok disk → slice_ok s → slice_ok (on_disk_of disk s).
Proof. intros Hd []. split; simpl; try done. intros n f Hf. by apply (Hd n f). Qed.

Lemma get_file_position_same s s' m key :
  slice_ok s → slice_ok s' → as_packages s' = as_packages s → as_dbs s' = as_dbs s → (∀ m, position s' m = position s m) →
  ∀ e, ArchiveSlice_get_file s m key = Done (Some e) → ArchiveSlice_get_file s' m key = Done (Some e).
Proof.
  intros H H' Hp Hd Hpos e. rewrite !get_file_position by done. rewrite Hp, Hd, Hpos. done.
Qed.

Lemma sync_same disk s :
  (∀ i pi, as_packages s !! i = Some pi → disk !! pi_seq_no pi = Some (pkg_file (pi_package pi))) →
  sync_slice disk s = on_disk_of disk s.
Proof.
  intros Hf. unfold sync_slice, on_disk_of. f_equal. rewrite <- (list_fmap_id (as_packages s)) at 2. apply list_fmap_ext.
  intros i pi Hi. unfold sync_package. rewrite (Hf i pi Hi). by destruct pi as [? []].
Qed.

Lemma extends_on_disk_l disk s s' : extends s s' → extends (on_disk_of disk s) s'.
Proof. intros []. by split. Qed.
Lemma extends_on_disk_r disk s s' : extends s s' → extends s (on_disk_of disk s').
Proof. intros []. by split. Qed.

(** ** The invariant of a map below a bound *)
Record slice_at (ty : PackageType) (k : N) s : Prop := {
  sa_ok : slice_ok s;
  sa_id : as_archive_id s = k;
  sa_type : as_package_type s = ty;
  sa_mode : as_sliced_mode s = bool_decide (ty = Blocks);
  sa_size : ty = Blocks → as_slice_size s = ARCHIVE_PACKAGE_SIZE;
  sa_single i pi : ty ≠ Blocks → as_packages s !! i = Some pi → i = O ∧ pi_seq_no pi = k;
}.

Record map_ok (ty : PackageType) (bound : N) fm : Prop := {
  mo_sorted : StronglySorted key_lt (fm_elements fm);
  mo_disk : disk_ok (fm_disk fm);
  mo_slice k fd : (k, fd) ∈ fm_elements fm → slice_at ty k (fd_archive_slice fd) ∧
    fd_id fd = {| pid_id := k; pid_package_type := ty |} ∧ fd_deleted fd = false ∧ as_disk (fd_archive_slice fd) = fm_disk fm;
  mo_files k fd i pi : (k, fd) ∈ fm_elements fm → as_packages (fd_archive_slice fd) !! i = Some pi →
    fm_disk fm !! pi_seq_no pi = Some (pkg_file (pi_package pi)) ∧ k <= pi_seq_no pi < bound;
  mo_range k fd k' fd' i pi : (k, fd) ∈ fm_elements fm → (k', fd') ∈ fm_elements fm → k < k' →
    as_packages (fd_archive_slice fd) !! i = Some pi → pi_seq_no pi < k';
  mo_fresh k : bound <= k → fm_dbs fm !! k = None ∧ fm_disk fm !! k = None;
}.

Lemma package_seq_nos ty k s i j pi pj :
  slice_at ty k s → as_packages s !! i = Some pi → as_packages s !! j = Some pj → pi_seq_no pi = pi_seq_no pj → i = j.
Proof.
  intros H Hi Hj Heq. destruct (decide (ty = Blocks)) as [->|Hty].
  - assert (Hm : as_sliced_mode s = true) by (by rewrite (sa_mode _ _ _ H)).
    destruct (so_sliced _ (sa_ok _ _ _ H) i pi Hm Hi) as (_ & Hs & _). destruct (so_sliced _ (sa_ok _ _ _ H) j pj Hm Hj) as (_ & Hs' & _).
    pose proof (so_size _ (sa_ok _ _ _ H)). nia.
  - destruct (sa_single _ _ _ H i pi Hty Hi) as [-> _]. by destruct (sa_single _ _ _ H j pj Hty Hj) as [-> _].
Qed.

(** What is on disk after a slice was used. *)
Lemma slice_files_own ty k s i pi :
  slice_at ty k s → as_packages s !! i = Some pi → slice_files s !! pi_seq_no pi = Some (pkg_file (pi_package pi)).
Proof.
  intros H Hi. apply lookup_union_Some_l, elem_of_list_to_map_1.
  - rewrite <- list_fmap_compose. apply NoDup_alt. intros a b x Ha Hb. rewrite list_lookup_fmap in Ha, Hb.
    destruct (as_packages s !! a) as [pa|] eqn:Ea; [|done]. destruct (as_packages s !! b) as [pb|] eqn:Eb; [|done].
    simplify_eq/=. eapply (package_seq_nos ty k s a b pa pb); congruence.
  - apply list_elem_of_fmap. exists pi. split; [done|]. by eapply list_elem_of_lookup_2.
Qed.

Lemma slice_files_other s n :
  (∀ i pi, as_packages s !! i = Some pi → pi_seq_no pi ≠ n) → slice_files s !! n = as_disk s !! n.
Proof.
  intros Hn. apply lookup_union_r, not_elem_of_list_to_map_1. rewrite <- list_fmap_compose.
  intros (pi & -> & [i Hi]%list_elem_of_lookup)%list_elem_of_fmap. by eapply Hn.
Qed.

Lemma slice_files_ok ty k s : slice_at ty k s → disk_ok (as_disk s) → disk_ok (slice_files s).
Proof.
  intros H Hd n f [Hs|[_ Hs]]%lookup_union_Some_raw; [|by apply (Hd n)].
  apply elem_of_list_to_map_2, list_elem_of_fmap in Hs as (pi & [= -> ->] & [i Hi]%list_elem_of_lookup).
  split; [by apply (so_bytes _ (sa_ok _ _ _ H) i)|]. destruct (so_package _ (sa_ok _ _ _ H) i pi Hi) as (Hp & _).
  rewrite (open_again _ false true) by done. by eexists.
Qed.

(** A map that grew: new slices have numbers from [b]. *)
Record map_extends (b : N) fm fm' : Prop := {
  me_old k fd : (k, fd) ∈ fm_elements fm → ∃ fd', (k, fd') ∈ fm_elements fm' ∧ extends (fd_archive_slice fd) (fd_archive_slice fd');
  me_new k fd' : (k, fd') ∈ fm_elements fm' → (∃ fd, (k, fd) ∈ fm_elements fm) ∨ b <= k;
}.

(** The keys of a map come from another map, or are new. *)
Definition keys_from (new : N → Prop) fm fm' : Prop :=
  ∀ k fd' key, (k, fd') ∈ fm_elements fm' → is_Some (offsets_db (as_dbs (fd_archive_slice fd')) !! key) →
    new key ∨ ∃ fd, (k, fd) ∈ fm_elements fm ∧ is_Some (offsets_db (as_dbs (fd_archive_slice fd)) !! key).

Lemma keys_from_trans (new1 new2 : N → Prop) fm1 fm2 fm3 :
  keys_from new1 fm1 fm2 → keys_from new2 fm2 fm3 → keys_from (λ key, new1 key ∨ new2 key) fm1 fm3.
Proof.
  intros H1 H2 k fd key Hin Hk. destruct (H2 k fd key Hin Hk) as [|(fd2 & Hin2 & Hk2)]; [by left; right|].
  destruct (H1 k fd2 key Hin2 Hk2) as [|]; [by left; left|by right].
Qed.

Lemma keys_from_refl (new : N → Prop) fm : keys_from new fm fm.
Proof. intros k fd key Hin Hk. right. eauto. Qed.

Lemma map_ok_mono ty b b' fm : map_ok ty b fm → b <= b' → map_ok ty b' fm.
Proof.
  intros [O1 O2 O3 O4 O5 O6] Hb. split; try done.
  - intros k fd i pi Hin Hi. destruct (O4 k fd i pi Hin Hi). split; [done|lia].
  - intros k Hk. apply O6. lia.
Qed.

Lemma map_extends_refl b fm : map_extends b fm fm.
Proof. split; eauto using extends_refl. Qed.

Lemma map_extends_trans b b' fm1 fm2 fm3 : b <= b' → map_extends b fm1 fm2 → map_extends b' fm2 fm3 → map_extends b fm1 fm3.
Proof.
  intros Hb [O1 N1] [O2 N2]. split.
  - intros k fd (fd2 & Hin & He)%O1. apply O2 in Hin as (fd3 & Hin & He'). eauto using extends_trans.
  - intros k fd [[fd2 Hin]|Hk]%N2; [by eapply N1|]. right. lia.
Qed.

(** Numbers below the bound keep their slice. *)
Lemma map_extends_closest b fm fm' m k fd :
  map_extends b fm fm' → m < b → closest (fm_elements fm) m k fd →
  ∃ fd', closest (fm_elements fm') m k fd' ∧ extends (fd_archive_slice fd) (fd_archive_slice fd').
Proof.
  intros [Ho Hn] Hm (Hin & Hk & Hmax). apply Ho in Hin as (fd' & Hin & He). exists fd'. split; [|done]. split_and!; try done.
  intros k' f' [[f Hf]|Hb]%Hn Hk'; [by eapply Hmax|lia].
Qed.

Lemma fmap_sorted (f : N * FileDescription → N * FileDescription) l :
  (∀ e, fst (f e) = fst e) → StronglySorted key_lt l → StronglySorted key_lt (f <$> l).
Proof.
  intros Hf. induction 1 as [|e l Hs IH He]; simpl; constructor; [done|]. rewrite list.Forall_forall in *.
  intros y (e' & -> & Hin)%list_elem_of_fmap. specialize (He _ Hin). unfold key_lt in *. by rewrite !Hf.
Qed.

Section write_back.
Context (ty : PackageType) (b : N) (fm : FileMap) (k : N) (s' : ArchiveSlice).
Hypothesis Hok : map_ok ty b fm.
Hypothesis Hs' : slice_at ty k s'.
Hypothesis Hdisk : as_disk s' = fm_disk fm.

(** The packages are different files from those of the other slices. *)
Hypothesis Hother : ∀ k0 fd0 i0 pi0 i pi, (k0, fd0) ∈ fm_elements fm → k0 ≠ k →
  as_packages (fd_archive_slice fd0) !! i0 = Some pi0 → as_packages s' !! i = Some pi → pi_seq_no pi ≠ pi_seq_no pi0.

Definition written (entry : N * FileDescription) : N * FileDescription :=
  (fst entry, with_slice (snd entry) (on_disk_of (slice_files s') (if fst entry =? k then s' else fd_archive_slice (snd entry)))).

Lemma write_back_elements : fm_elements (write_back fm k s') = written <$> fm_elements fm.
Proof using All.
  simpl. apply list_fmap_ext. intros i [k0 fd0] Hi. apply list_elem_of_lookup_2 in Hi. unfold written, sync_entry. cbn [fst snd].
  destruct (N.eqb_spec k0 k) as [->|Hne]; cbn [fst snd fd_archive_slice with_slice]; f_equal.
  - unfold with_slice. cbn [fd_id fd_deleted]. f_equal. apply sync_same. intros j pi Hj. by eapply slice_files_own.
  - unfold with_slice. f_equal. apply sync_same. intros j pi Hj. rewrite slice_files_other.
    + rewrite Hdisk. by apply (mo_files _ _ _ Hok k0 fd0 j pi).
    + intros i' pi' Hi'. by eapply Hother.
Qed.

Lemma written_elem k0 fd' :
  (k0, fd') ∈ fm_elements (write_back fm k s') ↔ ∃ fd, (k0, fd) ∈ fm_elements fm ∧
    fd' = with_slice fd (on_disk_of (slice_files s') (if k0 =? k then s' else fd_archive_slice fd)).
Proof using All.
  rewrite write_back_elements, list_elem_of_fmap. unfold written. split.
  - intros ([k1 f1] & [= -> ->] & Hin). eauto.
  - intros (fd & Hin & ->). by exists (k0, fd).
Qed.

Lemma write_back_sorted : StronglySorted key_lt (fm_elements (write_back fm k s')).
Proof using All. rewrite write_back_elements. apply fmap_sorted; [done|]. apply (mo_sorted _ _ _ Hok). Qed.

Context (b' : N).
Hypothesis Hb : b <= b'.
Hypothesis Hk : k < b'.
Hypothesis Hseq : ∀ i pi, as_packages s' !! i = Some pi → k <= pi_seq_no pi < b' ∧
  ∀ k' fd', (k', fd') ∈ fm_elements fm → k < k' → pi_seq_no pi < k'.

Lemma write_back_map_ok : map_ok ty b' (write_back fm k s').
Proof using All.
  assert (Hd : disk_ok (slice_files s')). { eapply slice_files_ok; [done|]. rewrite Hdisk. apply (mo_disk _ _ _ Hok). }
  split.
  - apply write_back_sorted.
  - exact Hd.
  - intros k0 fd' (fd & Hin & ->)%written_elem. destruct (mo_slice _ _ _ Hok k0 fd Hin) as (Hsl & Hid & Hdel & _). simpl.
    split_and!; try done. destruct (N.eqb_spec k0 k) as [->|].
    + destruct Hs'. split; try done. by apply on_disk_of_ok.
    + destruct Hsl. split; try done. by apply on_disk_of_ok.
  - intros k0 fd' i pi (fd & Hin & ->)%written_elem Hi. simpl in *. destruct (N.eqb_spec k0 k) as [->|Hne].
    + split; [by eapply slice_files_own|]. by apply (Hseq i).
    + destruct (mo_files _ _ _ Hok k0 fd i pi Hin Hi) as [Hf Hrange]. split; [|lia]. rewrite slice_files_other; [by rewrite Hdisk|].
      intros i' pi' Hi'. by eapply Hother.
  - intros k1 f1 k2 f2 i pi (fd1 & Hin1 & ->)%written_elem (fd2 & Hin2 & ->)%written_elem Hlt Hi. simpl in *.
    destruct (N.eqb_spec k1 k) as [->|Hne]; [destruct (Hseq i pi Hi) as [_ Hr]; by apply (Hr k2 fd2)|]. by apply (mo_range _ _ _ Hok k1 fd1 k2 fd2 i).
  - intros k0 Hk0. destruct (mo_fresh _ _ _ Hok k0 ltac:(lia)) as [Hd1 Hd2]. simpl. rewrite lookup_insert_ne by lia. split; [done|].
    rewrite slice_files_other; [by rewrite Hdisk|]. intros i pi Hi. destruct (Hseq i pi Hi) as [? _]. lia.
Qed.
End write_back.

(** ** Storage: adding a file to a slice of a map

    A file can be added when its package exists or is the next one of the slice. *)


(** The largest entry. *)
Definition entry_max : N := 8 + 65535 + two32.

Definition next_package s (m : N) : Prop :=
  as_sliced_mode s = true ∧ m = as_archive_id s + as_slice_size s * N.of_nat (length (as_packages s)).

Lemma new_package_runs disk idx seq_no :
  disk_ok disk → ∃ pi, new_package false disk idx seq_no 0 DEFAULT_PKG_VERSION = Some pi ∧ pi_seq_no pi = seq_no ∧
    pkg_size (pi_package pi) = PKG_HEADER_SIZE.
Proof.
  intros Hd. unfold new_package. assert (Ho : ∃ p, Package_open (disk !! seq_no) false true = Some p ∧ pkg_read_only p = false).
  { destruct (disk !! seq_no) as [f|] eqn:E; [|by eexists]. destruct (Hd _ _ E) as [_ [p Hp]]. exists p. split; [done|].
    unfold Package_open in Hp. cbn [mbind option_bind] in Hp. case_match; [by injection Hp as <-|].
    destruct (read_header f); [|done]. by injection Hp as <-. }
  destruct Ho as (p & Ho & Hro). unfold Package_truncate. rewrite Ho. cbn [mbind option_bind negb andb].
  change (DEFAULT_PKG_VERSION <=? DEFAULT_PKG_VERSION) with true. cbn [andb]. rewrite Hro. cbn [mbind option_bind].
  by eexists.
Qed.

Lemma choose_next s m :
  slice_ok s → disk_ok (as_disk s) → next_package s m →
  ∃ pi dbs, choose_package s m true = Done (Some (length (as_packages s), with_packages (as_packages s ++ [pi]) dbs s)) ∧
    pi_seq_no pi = m ∧ pkg_size (pi_package pi) = PKG_HEADER_SIZE.
Proof.
  intros H Hd [Hm ->]. set (m := as_archive_id s + _). pose proof (so_size _ H) as Hsz. destruct (so_status _ H Hm) as (Hty & _).
  unfold choose_package. rewrite Hm, (bool_decide_eq_true_2 _ Hty). cbn [negb orb].
  rewrite (proj2 (N.ltb_ge _ _)) by lia. assert (Hsub : m - as_archive_id s = as_slice_size s * N.of_nat (length (as_packages s))) by lia.
  rewrite Hsub, N.mul_comm, N.div_mul by lia. rewrite N.Div0.mod_mul, N.ltb_irrefl, N.eqb_refl. cbn [negb N.eqb].
  rewrite (so_open _ H). destruct (new_package_runs (as_disk s) (N.of_nat (length (as_packages s))) m Hd) as (pi & -> & Hpi).
  cbn [mbind option_bind]. rewrite Nat2N.id. by eexists _, _.
Qed.

(** The package for the file, and the frame of the choice. *)
Lemma choose_runs s m :
  slice_ok s → disk_ok (as_disk s) → m < two32 → is_Some (position s m) ∨ next_package s m →
  ∃ pos s1, choose_package s m true = Done (Some (pos, s1)) ∧ as_archive_id s1 = as_archive_id s ∧
    as_package_type s1 = as_package_type s ∧ as_sliced_mode s1 = as_sliced_mode s ∧ as_slice_size s1 = as_slice_size s ∧
    as_disk s1 = as_disk s ∧ offsets_db (as_dbs s1) = offsets_db (as_dbs s) ∧
    (∀ i pi, as_packages s1 !! i = Some pi → as_packages s !! i = Some pi ∨
       (next_package s m ∧ i = length (as_packages s) ∧ pi_seq_no pi = m ∧ pkg_size (pi_package pi) = PKG_HEADER_SIZE)).
Proof.
  intros H Hd Hm [[pos Hp]|Hn].
  - destruct (choose_existing s m true pos H Hp) as [Hc _]. exists pos, s. split_and!; try done. auto.
  - destruct (choose_next s m H Hd Hn) as (pi & dbs & Hc & Hpi & Hps). exists (length (as_packages s)). eexists. split; [exact Hc|].
    destruct (choose_extends s m _ _ H Hm Hc) as (_ & _ & _ & Ho & _). split_and!; try done.
    intros i q. simpl. rewrite lookup_snoc_Some. intros [[_ Hq]|[-> <-]]; auto.
Qed.

Record added ty k s s' (m key : N) (filename data : list N) : Prop := {
  ad_slice : slice_at ty k s';
  ad_disk : as_disk s' = as_disk s;
  ad_extends : extends s s';
  ad_position : is_Some (position s' m);
  ad_get : ArchiveSlice_get_file s' m key = Done (Some (file_entry filename data));
  ad_offsets key' : key' ≠ key → offsets_db (as_dbs s') !! key' = offsets_db (as_dbs s) !! key';
  ad_packages i pi : as_packages s' !! i = Some pi →
    (∃ pi0, as_packages s !! i = Some pi0 ∧ pi_seq_no pi0 = pi_seq_no pi ∧
       pkg_size (pi_package pi) <= pkg_size (pi_package pi0) + entry_max) ∨
    (next_package s m ∧ pi_seq_no pi = m ∧ pkg_size (pi_package pi) <= PKG_HEADER_SIZE + entry_max);
}.

Lemma add_file_frame s m key filename data :
  slice_ok s → disk_ok (as_disk s) → addable s m filename data → offsets_db (as_dbs s) !! key = None →
  is_Some (position s m) ∨ next_package s m →
  ∃ s', ArchiveSlice_add_file s m key filename data = Done (Some data, s') ∧
    as_disk s' = as_disk s ∧ as_archive_id s' = as_archive_id s ∧ as_package_type s' = as_package_type s ∧
    as_sliced_mode s' = as_sliced_mode s ∧ as_slice_size s' = as_slice_size s ∧
    (∀ key', key' ≠ key → offsets_db (as_dbs s') !! key' = offsets_db (as_dbs s) !! key') ∧
    (∀ i q, as_packages s' !! i = Some q →
       (∃ q0, as_packages s !! i = Some q0 ∧ pi_seq_no q0 = pi_seq_no q ∧
          pkg_size (pi_package q) <= pkg_size (pi_package q0) + entry_max) ∨
       (next_package s m ∧ pi_seq_no q = m ∧ pkg_size (pi_package q) <= PKG_HEADER_SIZE + entry_max)).
Proof.
  intros H Hd [Hm He Hne Hroom] Hk Hpos.
  destruct (choose_runs s m H Hd Hm Hpos) as (pos & s1 & Hc & Hid & Hty & Hmode & Hsize & Hdisk & Ho & Hpk).
  destruct (choose_extends s m pos s1 H Hm Hc) as (H1 & _ & Hp1 & _ & _).
  destruct (choose_existing s1 m false pos H1 Hp1) as [_ [pi Hpi]]. destruct (so_package _ H1 pos pi Hpi) as (Hpok & Hro & _).
  destruct (append_ok (pi_package pi) _ Hpok Hro He (choose_room s m pos s1 pi _ H Hm Hc Hpi He Hroom)) as (p' & Happ & Hpok' & _ & Hf' & _).
  assert (Hsize' : pkg_size p' <= pkg_size (pi_package pi) + entry_max).
  { rewrite (po_size _ Hpok'), (po_size _ Hpok), Hf', length_app. destruct (write_to_length _ He) as [Hl Hl'].
    destruct He as [Hn _ Hdl _]. unfold entry_max, u32_max, two32 in *. rewrite Hl' in Hl. lia. }
  unfold ArchiveSlice_add_file. rewrite bool_decide_eq_false_2 by (by rewrite Hk; intros [? ?]). rewrite Hc. cbn [mbind outcome_bind].
  rewrite Hpi. cbn [unwrap mbind outcome_bind]. change {| entry_filename := filename; entry_data := data |} with (file_entry filename data).
  rewrite Happ. cbn [mbind outcome_bind]. eexists. split; [done|]. simpl. rewrite Hdisk, Hid, Hty, Hmode, Hsize. split_and!; try done.
  - intros key' Hne'. by rewrite lookup_insert_ne, Ho.
  - intros i q Hq. assert (∃ q1, as_packages s1 !! i = Some q1 ∧ pi_seq_no q1 = pi_seq_no q ∧
      pkg_size (pi_package q) <= pkg_size (pi_package q1) + entry_max) as (q1 & Hq1 & Hs1 & Hle).
    { apply list_lookup_insert_Some in Hq as [(-> & <- & _)|[_ Hq]]; [by exists pi|exists q; split_and!; [done|done|lia]]. }
    destruct (Hpk i q1 Hq1) as [Hq0|(Hnx & _ & Hsm & Hps)]; [left; eauto|]. right. rewrite Hps in Hle. split_and!; congruence.
Qed.

Lemma add_file_runs ty k s m key filename data :
  slice_at ty k s → disk_ok (as_disk s) → addable s m filename data → offsets_db (as_dbs s) !! key = None →
  is_Some (position s m) ∨ next_package s m →
  ∃ s', ArchiveSlice_add_file s m key filename data = Done (Some data, s') ∧ added ty k s s' m key filename data.
Proof.
  intros [H Hsid Hsty Hsm Hss Hsg] Hd Had Hk Hpos.
  destruct (add_file_frame s m key filename data H Hd Had Hk Hpos) as (s' & Hrun & Hd' & Hid' & Hty' & Hm' & Hsz' & Hoff & Hseq).
  exists s'. split; [done|]. destruct Had as [Hm He Hne Hroom].
  destruct (add_file_ok s m key filename data data s' H Hm Hk He Hne Hroom Hrun) as (_ & H' & Hex & Hget).
  split; try done.
  - split; [done|congruence|congruence|congruence| |].
    + intros ->. rewrite Hsz'. by apply Hss.
    + intros i q Hnb Hq. destruct (Hseq i q Hq) as [(q1 & Hq1 & <- & _)|[[Hsl _] _]]; [by eapply Hsg|].
      by rewrite Hsm, bool_decide_eq_true in Hsl.
  - apply get_file_position in Hget as (o & p & q & _ & Hp & _); [|done]. by exists p.
Qed.
