(* ===== verification/ArchiveManager.v ===== *)
(** * Storage: the archive manager

    Models [storage/src/archives/archive_manager.rs]: block files wait in the
    directory of unapplied files, under their short names, and are moved into the
    archive slices when their block is applied.  The handle of a block is an
    argument and part of the results; the file locks are not modelled, an operation
    is one step.  The offset key of an entry is the standard hash of its
    identifier, a parameter. *)

From S2P Require Import Prelude BlockId BlockMeta Package ArchiveSlice ArchiveFacts EntryId FileMaps.

Class OffsetKeys `{ShardIdents} `{!EntryFormats} := offset_key : PackageEntryId → N.

Record ArchiveManager := {
  am_unapplied : gmap (list N) (list N);
  am_files : FileMap;
  am_key_files : FileMap;
}.
Implicit Types (self : ArchiveManager) (id : PackageId) (data : list N).

Definition with_unapplied self (files : gmap (list N) (list N)) : ArchiveManager :=
  {| am_unapplied := files; am_files := am_files self; am_key_files := am_key_files self |}.

(** [FileMaps::get] *)
Definition FileMaps_get self (package_type : PackageType) : outcome FileMap :=
  match package_type with
  | KeyBlocks => Done (am_key_files self)
  | Blocks => Done (am_files self)
  | Temp => Panic
  end.

Definition with_file_map self (package_type : PackageType) (map : FileMap) : ArchiveManager :=
  match package_type with
  | KeyBlocks => {| am_unapplied := am_unapplied self; am_files := am_files self; am_key_files := map |}
  | _ => {| am_unapplied := am_unapplied self; am_files := map; am_key_files := am_key_files self |}
  end.

(** ** Packages *)
Definition add_file_desc self id : outcome (option FileDescription * ArchiveManager) :=
  file_map ← FileMaps_get self (pid_package_type id);
  _ ← assert_that (bool_decide (FileMap_get file_map (pid_id id) = None));
  opened ← open_slice file_map (pid_id id) (pid_package_type id) false;
  match opened with
  | None => Done (None, self)
  | Some archive_slice =>
      let file_map := write_back file_map (pid_id id) archive_slice in
      let fd := {| fd_id := id; fd_deleted := false; fd_archive_slice := sync_slice (fm_disk file_map) archive_slice |} in
      let file_map := FileMap_put file_map (pid_id id) fd in
      Done (Some fd, with_file_map self (pid_package_type id) file_map)
  end.

Definition get_file_desc self id (force : bool) : outcome (option (option FileDescription) * ArchiveManager) :=
  file_map ← FileMaps_get self (pid_package_type id);
  match FileMap_get file_map (pid_id id) with
  | Some fd => Done (Some (if fd_deleted fd then None else Some fd), self)
  | None =>
      if force then
        '(added, self) ← add_file_desc self id;
        Done (match added with Some fd => Some (Some fd) | None => None end, self)
      else Done (Some None, self)
  end.

Definition get_package_id self (seq_no : N) (is_key : bool) : option PackageId :=
  if is_key then Some (PackageId_for_key_block (seq_no / KEY_ARCHIVE_PACKAGE_SIZE))
  else fd_id <$> get_closest (am_files self) seq_no.

Definition get_package_id_force self (mc_seq_no : N) (key_archive key_block : bool) : PackageId :=
  if key_block then
    if key_archive then PackageId_for_key_block (mc_seq_no / KEY_ARCHIVE_PACKAGE_SIZE) else PackageId_for_block mc_seq_no
  else
    let package_id := PackageId_for_block (mc_seq_no - mc_seq_no mod ARCHIVE_SLICE_SIZE) in
    match get_closest (am_files self) mc_seq_no with
    | Some fd => if PackageId_lt package_id (fd_id fd) then fd_id fd else package_id
    | None => package_id
    end.

(** ** Archives for other nodes *)
Definition manager_get_archive_id self (mc_seq_no : N) : option N :=
  match get_closest (am_files self) mc_seq_no with
  | Some fd => get_archive_id (fd_archive_slice fd) mc_seq_no
  | None =>
      match get_closest (am_key_files self) mc_seq_no with
      | Some key_fd => get_archive_id (fd_archive_slice key_fd) mc_seq_no
      | None => None
      end
  end.

Definition manager_get_archive_slice self (archive_id offset limit : N) : outcome (option (list N)) :=
  '(found, self) ← get_file_desc self (PackageId_for_block (as_u32 archive_id)) false;
  match found with
  | None => Done None
  | Some (Some file_desc) => get_slice (fd_archive_slice file_desc) archive_id offset limit
  | Some None =>
      '(found, self) ← get_file_desc self (PackageId_for_key_block (as_u32 archive_id / KEY_ARCHIVE_PACKAGE_SIZE)) false;
      match found with
      | Some (Some key_file_desc) => get_slice (fd_archive_slice key_file_desc) archive_id offset limit
      | _ => Done None
      end
  end.

(** [gc]: an error is only logged. *)
Definition ArchiveManager_gc (shared : N → bool) self (front : N) : ArchiveManager :=
  {| am_unapplied := am_unapplied self; am_files := snd (FileMap_gc shared (am_files self) front);
     am_key_files := am_key_files self |}.

Section files.
Context {SI : ShardIdents} {F : EntryFormats} {K : OffsetKeys}.
Implicit Types (handle : BlockHandle) (entry_id : PackageEntryId).

Definition get_mc_seq_no handle : N :=
  if is_masterchain (bh_id handle) then seq_no (bh_id handle) else BlockHandle_masterchain_ref_seq_no handle.

(** ** Unapplied files *)
Definition manager_add_file self entry_id data : option unit * ArchiveManager :=
  if (length data =? 0)%nat then (None, self) else
  (Some (), with_unapplied self (<[filename_short entry_id := data]> (am_unapplied self))).

Definition check_file self handle entry_id : bool :=
  if is_archived handle then true else bool_decide (is_Some (am_unapplied self !! filename_short entry_id)).

(** The name of the file and its content. *)
Definition read_temp_file self entry_id : option (list N * list N) :=
  data ← am_unapplied self !! filename_short entry_id;
  if (length data =? 0)%nat then None else Some (filename_short entry_id, data).

Definition manager_get_file self handle entry_id : outcome (option (list N)) :=
  let read_temp :=
    match entry_id with
    | EntryBlock _ | EntryProof _ | EntryProofLink _ => Done (snd <$> read_temp_file self entry_id)
    | _ => Done None
    end in
  if is_archived handle then
    let is_key := is_key_block handle in
    match get_package_id self (get_mc_seq_no handle) is_key with
    | None => Done None
    | Some package_id =>
        '(found, self) ← get_file_desc self package_id false;
        match found with
        | Some (Some fd) =>
            entry ← ArchiveSlice_get_file (fd_archive_slice fd) (get_mc_seq_no handle) (offset_key entry_id);
            Done (match entry with Some e => Some (entry_data e) | None => None end)
        | Some None => read_temp
        | None => Done None
        end
    end
  else read_temp.

(** ** Moving to the archive *)
Definition move_file_to_archive self data handle entry_id (key_archive : bool) : outcome (option (list N) * ArchiveManager) :=
  let mc_seq_no := get_mc_seq_no handle in
  let key_block := is_key_block handle in
  let package_id := get_package_id_force self mc_seq_no key_archive key_block in
  '(found, self) ← get_file_desc self package_id true;
  match found with
  | Some (Some fd) =>
      '(res, slice) ← ArchiveSlice_add_file (fd_archive_slice fd) mc_seq_no (offset_key entry_id) (filename entry_id) data;
      file_map ← FileMaps_get self (pid_package_type package_id);
      Done (res, with_file_map self (pid_package_type package_id) (write_back file_map (pid_id package_id) slice))
  | _ => Done (None, self)
  end.

(** The name of the file that was moved. *)
Definition move_file_to_archives self handle entry_id : outcome (option (list N) * ArchiveManager) :=
  match read_temp_file self entry_id with
  | None => Done (None, self)
  | Some (name, data) =>
      '(moved, self) ← move_file_to_archive self data handle entry_id false;
      match moved with
      | None => Done (None, self)
      | Some data =>
          if is_key_block handle then
            '(moved, self) ← move_file_to_archive self data handle entry_id true;
            Done (match moved with Some _ => Some name | None => None end, self)
          else Done (Some name, self)
      end
  end.

(** [Ok(None)] is [Some None]. *)
Definition move_optional self handle (entry_id : option PackageEntryId) : outcome (option (option (list N)) * ArchiveManager) :=
  match entry_id with
  | None => Done (Some None, self)
  | Some e =>
      '(moved, self) ← move_file_to_archives self handle e;
      Done (match moved with Some name => Some (Some name) | None => None end, self)
  end.

Definition remove_file self (name : option (list N)) : option unit * ArchiveManager :=
  match name with
  | None => (Some (), self)
  | Some name =>
      match am_unapplied self !! name with
      | Some _ => (Some (), with_unapplied self (delete name (am_unapplied self)))
      | None => (None, self)
      end
  end.

(** [on_success] works on the handle and the state [X] of its caller. *)
Definition move_to_archive {X} (on_success : BlockHandle → X → option unit * (BlockHandle * X)) self handle (x : X)
  : outcome (option unit * (BlockHandle * X * ArchiveManager)) :=
  let '(changed, handle) := set_moving_to_archive handle in
  if negb changed then Done (Some (), (handle, x, self)) else
  let proof_id :=
    if has_proof handle then Some (EntryProof (bh_id handle))
    else if has_proof_link handle then Some (EntryProofLink (bh_id handle)) else None in
  '(proof_filename, self) ← move_optional self handle proof_id;
  match proof_filename with
  | None => Done (None, (handle, x, self))
  | Some proof_filename =>
      '(block_filename, self) ← move_optional self handle (if has_data handle then Some (EntryBlock (bh_id handle)) else None);
      match block_filename with
      | None => Done (None, (handle, x, self))
      | Some block_filename =>
          match on_success handle x with
          | (None, (handle, x)) => Done (None, (handle, x, self))
          | (Some _, (handle, x)) =>
              match remove_file self proof_filename with
              | (None, self) => Done (None, (handle, x, self))
              | (Some _, self) =>
                  let '(removed, self) := remove_file self block_filename in Done (removed, (handle, x, self))
              end
          end
      end
  end.
End files.

(** ** Storage: facts about the archive manager

    Opening a new slice and adding a file keep a map well formed, and everything
    that was archived stays where it was. *)

Implicit Types (s : ArchiveSlice) (disk : gmap N (list N)) (fm : FileMap) (fd : FileDescription).

(** ** A new slice *)
Lemma package_open_runs disk seq_no :
  disk_ok disk → ∃ p, Package_open (disk !! seq_no) false true = Some p ∧ package_ok p ∧ pkg_read_only p = false ∧ Forall byte_ok (pkg_file p).
Proof.
  intros Hd. assert (Ho : is_Some (Package_open (disk !! seq_no) false true)).
  { destruct (disk !! seq_no) as [f|] eqn:E; [|by eexists]. by apply (Hd _ _ E). }
  destruct Ho as [p Ho]. exists p. split; [done|]. eapply open_ok; [|exact Ho]. intros f Hf. by apply (Hd _ _ Hf).
Qed.

Lemma new_slice_runs ty disk k :
  ty ≠ Temp → k < two32 → disk_ok disk → disk !! k = None →
  ∃ s pi, ArchiveSlice_with_data disk empty_dbs k ty false = Done (Some s) ∧ slice_at ty k s ∧ as_disk s = disk ∧
    as_packages s = [pi] ∧ pi_seq_no pi = k ∧ offsets_db (as_dbs s) = ∅ ∧ pkg_size (pi_package pi) = PKG_HEADER_SIZE.
Proof.
  intros Hty Hk Hd Hnone. assert (Hb : ∀ n f, disk !! n = Some f → Forall byte_ok f) by (intros n f Hf; by apply (Hd n f)).
  destruct (decide (ty = Blocks)) as [->|Hne].
  - assert (Hrun : ∃ s pi, ArchiveSlice_with_data disk empty_dbs k Blocks false = Done (Some s) ∧ as_packages s = [pi] ∧
      as_disk s = disk ∧ as_archive_id s = k ∧ as_package_type s = Blocks ∧ as_slice_size s = ARCHIVE_PACKAGE_SIZE ∧
      pi_seq_no pi = k ∧ pkg_size (pi_package pi) = PKG_HEADER_SIZE).
    { unfold ArchiveSlice_with_data, new_package. cbn [empty_dbs empty_status package_status_db ps_sliced_mode].
      rewrite decide_True by done. rewrite Hnone. cbn. by eexists _, _. }
    destruct Hrun as (s & pi & Hrun & Hpk & Hds & Hid & Ht & Hsz & Hseq & Hps). destruct (new_slice_ok disk k Hk Hb s Hrun) as (Hok & Hm & Ho).
    exists s, pi. split_and!; try done.
  - destruct (package_open_runs disk k Hd) as (p & Hp & Hpok & Hro & Hbytes). destruct ty; try done. rewrite Hnone in Hp.
    unfold ArchiveSlice_with_data, new_package. cbn [empty_dbs empty_status package_status_db ps_sliced_mode]. rewrite decide_False by done.
    cbv zeta. rewrite Hnone, Hp. cbn [mbind option_bind negb andb]. change (DEFAULT_PKG_VERSION <=? 0) with false. cbn [andb mbind option_bind].
    injection Hp as <-. eexists _, _. split_and!; try done. split; try done.
    + split; simpl; try done; by intros i pi [-> <-]%list_lookup_singleton_Some.
    + simpl. by intros i pi _ [-> <-]%list_lookup_singleton_Some.
Qed.

(** ** Growing a map *)

(** Room for [n] bytes in every package. *)
Definition maps_room fm (n : N) : Prop := ∀ k fd, (k, fd) ∈ fm_elements fm → room (fd_archive_slice fd) n.

Lemma key_bound ty b fm k fd : map_ok ty b fm → (k, fd) ∈ fm_elements fm → k < b.
Proof.
  intros Hok Hin. destruct (mo_slice _ _ _ Hok k fd Hin) as ([Hsl _ _ _ _ _] & _).
  destruct (slice_package_0 _ Hsl) as [p0 Hp0]. pose proof (mo_files _ _ _ Hok k fd 0%nat p0 Hin Hp0). lia.
Qed.

(** A slice after all others. *)
Lemma put_map_ok ty b fm k fd :
  map_ok ty b fm → slice_at ty k (fd_archive_slice fd) → fd_id fd = {| pid_id := k; pid_package_type := ty |} →
  fd_deleted fd = false → as_disk (fd_archive_slice fd) = fm_disk fm →
  (∀ i q, as_packages (fd_archive_slice fd) !! i = Some q →
     fm_disk fm !! pi_seq_no q = Some (pkg_file (pi_package q)) ∧ k <= pi_seq_no q < b) →
  (∀ k' f i q, (k', f) ∈ fm_elements fm → as_packages (fd_archive_slice f) !! i = Some q → pi_seq_no q < k) →
  (∀ k' f, (k', f) ∈ fm_elements fm → k' < k) →
  map_ok ty b (FileMap_put fm k fd).
Proof.
  intros [O1 O2 O3 O4 O5 O6] Hs Hid Hdel Hdisk Hown Hbelow Hkeys.
  assert (Hnew : ∀ f, (k, f) ∉ fm_elements fm) by (intros f Hin; specialize (Hkeys _ _ Hin); lia).
  pose proof (λ k' f, put_new_elem _ k fd k' f O1 Hnew) as Hput. split; simpl.
  - by apply put_new_sorted.
  - done.
  - intros k0 f0 [[= -> ->]|Hin]%Hput; [done|by apply O3].
  - intros k0 f0 i q [[= -> ->]|Hin]%Hput Hi; [by apply (Hown i)|by apply (O4 k0 f0 i q)].
  - intros k1 f1 k2 f2 i q [[= -> ->]|Hin1]%Hput [[= -> ->]|Hin2]%Hput Hkk Hi; [lia|..].
    + specialize (Hkeys _ _ Hin2). lia.
    + by apply (Hbelow k1 f1 i).
    + by apply (O5 k1 f1 k2 f2 i q).
  - done.
Qed.

(** A new slice is put into the map. *)
Lemma put_slice_ok ty b fm k s pi :
  map_ok ty b fm → b <= k → slice_at ty k s → as_disk s = fm_disk fm → as_packages s = [pi] → pi_seq_no pi = k →
  offsets_db (as_dbs s) = ∅ → pkg_size (pi_package pi) = PKG_HEADER_SIZE →
  let fm1 := write_back fm k s in
  let fd := {| fd_id := {| pid_id := k; pid_package_type := ty |}; fd_deleted := false;
               fd_archive_slice := sync_slice (fm_disk fm1) s |} in
  map_ok ty (k + 1) (FileMap_put fm1 k fd) ∧ map_extends b fm (FileMap_put fm1 k fd) ∧
  keys_from (λ _, False) fm (FileMap_put fm1 k fd) ∧
  (∀ n, PKG_HEADER_SIZE + n < two64 → maps_room fm n → maps_room (FileMap_put fm1 k fd) n) ∧
  (k, fd) ∈ fm_elements (FileMap_put fm1 k fd) ∧ fd_archive_slice fd = on_disk_of (slice_files s) s.
Proof.
  intros Hok Hbk Hs Hd Hpk Hpi Ho Hps fm1 fd. pose proof (λ k fd, key_bound ty b fm k fd Hok) as Hlt.
  assert (Hseq : ∀ i q, as_packages s !! i = Some q → pi_seq_no q = k).
  { intros i q. rewrite Hpk. by intros [-> <-]%list_lookup_singleton_Some. }
  assert (Hother : ∀ k0 fd0 i0 pi0 i q, (k0, fd0) ∈ fm_elements fm → k0 ≠ k →
    as_packages (fd_archive_slice fd0) !! i0 = Some pi0 → as_packages s !! i = Some q → pi_seq_no q ≠ pi_seq_no pi0).
  { intros k0 fd0 i0 pi0 i q Hin _ H0 Hq. rewrite (Hseq i q Hq). pose proof (mo_files _ _ _ Hok k0 fd0 i0 pi0 Hin H0). lia. }
  pose proof (written_elem ty b fm k s Hok Hs Hd Hother) as Hwe. fold fm1 in Hwe.
  assert (Hok1 : map_ok ty (k + 1) fm1).
  { apply (write_back_map_ok ty b); try done; [lia..|]. intros i q Hq. rewrite (Hseq i q Hq). split; [lia|].
    intros k' fd' Hin. specialize (Hlt _ _ Hin). lia. }
  assert (Hsl : fd_archive_slice fd = on_disk_of (slice_files s) s) by (apply sync_same; intros i q Hq; by eapply slice_files_own).
  assert (Hkeys : ∀ k' f, (k', f) ∈ fm_elements fm1 → k' < k) by (intros k' f (f0 & Hin & _)%Hwe; specialize (Hlt _ _ Hin); lia).
  assert (Hnew : ∀ f, (k, f) ∉ fm_elements fm1) by (intros f Hin; specialize (Hkeys _ _ Hin); lia).
  pose proof (λ k' f, put_new_elem _ k fd k' f (mo_sorted _ _ _ Hok1) Hnew) as Hput. split_and!; [|split| | | |done].
  - apply put_map_ok; rewrite ?Hsl; try done.
    + destruct Hs. split; try done. apply on_disk_of_ok; [apply (mo_disk _ _ _ Hok1)|done].
    + intros i q Hi. simpl in Hi. split; [by eapply slice_files_own|]. rewrite (Hseq i q Hi). lia.
    + intros k1 f1 i q (f0 & Hin & ->)%Hwe Hi. specialize (Hlt _ _ Hin). simpl in Hi.
      rewrite (proj2 (N.eqb_neq _ _)) in Hi by lia. pose proof (mo_files _ _ _ Hok k1 f0 i q Hin Hi). lia.
  - intros k0 f0 Hin. specialize (Hlt _ _ Hin). eexists. split; [apply Hput; right; apply Hwe; by exists f0|].
    simpl. rewrite (proj2 (N.eqb_neq _ _)) by lia. apply extends_on_disk_r, extends_refl.
  - intros k0 f0 [[= -> ->]|(f & Hin & _)%Hwe]%Hput; [by right|]. left. eauto.
  - intros k0 f0 key [[= -> ->]|(f & Hin & ->)%Hwe]%Hput Hk; [rewrite Hsl in Hk; simpl in Hk; by rewrite Ho in Hk; destruct Hk|].
    specialize (Hlt _ _ Hin). simpl in Hk. rewrite (proj2 (N.eqb_neq _ _)) in Hk by lia. right. eauto.
  - intros n Hn Hr k0 f0 [[= -> ->]|(f & Hin & ->)%Hwe]%Hput i q.
    + rewrite Hsl. simpl. rewrite Hpk. intros [-> <-]%list_lookup_singleton_Some. by rewrite Hps.
    + specialize (Hlt _ _ Hin). simpl. rewrite (proj2 (N.eqb_neq _ _)) by lia. by apply (Hr k0 f).
  - apply Hput. by left.
Qed.

(** A file is added to a slice of the map. *)
Definition bound_after s (b m : N) : N := match position s m with Some _ => b | None => m + 1 end.

Lemma next_package_position s m : slice_ok s → next_package s m → position s m = None.
Proof.
  intros H [Hmode ->]. unfold position. rewrite Hmode, (proj2 (N.ltb_ge _ _)) by lia. pose proof (so_size _ H).
  rewrite N.add_comm, N.add_sub, N.mul_comm, N.div_mul by lia. by rewrite N.ltb_irrefl.
Qed.

Section adding.
Context (ty : PackageType) (b : N) (fm : FileMap) (k : N) (fd : FileDescription) (m key : N) (filename data : list N) (s' : ArchiveSlice).
Let s := fd_archive_slice fd.
Hypothesis Hok : map_ok ty b fm.
Hypothesis Hin : (k, fd) ∈ fm_elements fm.
Hypothesis Hpos : is_Some (position s m) ∨ (next_package s m ∧ b <= m ∧ ∀ k' f, (k', f) ∈ fm_elements fm → k' <= k).
Hypothesis Hadd : added ty k s s' m key filename data.

(** The packages after the addition: the old ones and perhaps a new one. *)
Lemma added_packages i q :
  as_packages s' !! i = Some q →
  (k <= pi_seq_no q < b ∧ ∃ j q0, as_packages s !! j = Some q0 ∧ pi_seq_no q0 = pi_seq_no q) ∨
  (b <= m ∧ pi_seq_no q = m ∧ position s m = None ∧ ∀ k' f, (k', f) ∈ fm_elements fm → k' <= k).
Proof using Hok Hin Hpos Hadd.
  intros Hq. destruct (ad_packages _ _ _ _ _ _ _ _ Hadd i q Hq) as [(q0 & Hq0 & <- & _)|[Hn [Hm _]]].
  - left. destruct (mo_files _ _ _ Hok k fd i q0 Hin Hq0). split; [done|]. eauto.
  - destruct (mo_slice _ _ _ Hok k fd Hin) as (Hs & _).
    pose proof (next_package_position s m (sa_ok _ _ _ Hs) Hn) as Hnone. destruct Hpos as [[p Hp]|[_ [Hb Hmax]]]; [congruence|]. by right.
Qed.

Lemma added_other k0 fd0 i0 pi0 i q :
  (k0, fd0) ∈ fm_elements fm → k0 ≠ k → as_packages (fd_archive_slice fd0) !! i0 = Some pi0 →
  as_packages s' !! i = Some q → pi_seq_no q ≠ pi_seq_no pi0.
Proof using Hok Hin Hpos Hadd.
  intros Hin0 Hne H0 Hq. pose proof (mo_files _ _ _ Hok k0 fd0 i0 pi0 Hin0 H0) as [_ Hr0].
  destruct (added_packages i q Hq) as [[Hr (j & q0 & Hq0 & Heq)]|(Hb & -> & _)]; [|lia]. destruct (N.lt_total k0 k) as [Hc|[?|Hc]]; [|done|].
  - pose proof (mo_range _ _ _ Hok k0 fd0 k fd i0 pi0 Hin0 Hin Hc H0). lia.
  - pose proof (mo_range _ _ _ Hok k fd k0 fd0 j q0 Hin Hin0 Hc Hq0). lia.
Qed.

Lemma bound_grows : b <= bound_after s b m.
Proof using Hpos. unfold bound_after. destruct (position s m) eqn:Ep; [done|]. destruct Hpos as [[??]|[_ [? _]]]; [done|lia]. Qed.

Lemma added_map_ok :
  let fm' := write_back fm k s' in
  map_ok ty (bound_after s b m) fm' ∧ (∀ b0, map_extends b0 fm fm') ∧ keys_from (λ x, x = key) fm fm' ∧
  (∀ n, PKG_HEADER_SIZE + entry_max + n < two64 → maps_room fm (entry_max + n) → maps_room fm' n) ∧
  (k, with_slice fd (on_disk_of (slice_files s') s')) ∈ fm_elements fm'.
Proof using All.
  pose proof bound_grows as Hb. destruct (mo_slice _ _ _ Hok k fd Hin) as (_ & _ & _ & Hdisk). pose proof Hadd as [Hs' Hd' Hex _ _ _ _].
  fold s in Hdisk. rewrite Hdisk in Hd'. pose proof (λ k fd, key_bound ty b fm k fd Hok) as Hlt. pose proof (Hlt _ _ Hin) as Hkb.
  pose proof (written_elem ty b fm k s' Hok Hs' Hd' added_other) as Hwe.
  assert (Hself : (k, with_slice fd (on_disk_of (slice_files s') s')) ∈ fm_elements (write_back fm k s')).
  { apply Hwe. exists fd. by rewrite N.eqb_refl. }
  split; [|split; [intros b0; split|split; [|split; [|done]]]].
  - apply (write_back_map_ok ty b); try done; [apply added_other|lia|].
    intros i q Hq. destruct (added_packages i q Hq) as [[Hr (j & q0 & Hq0 & Heq)]|(Hbm & -> & Hn & Hmax)].
    + split; [lia|]. intros k' fd' Hin' Hkk. rewrite <- Heq. by apply (mo_range _ _ _ Hok k fd k' fd' j).
    + unfold bound_after in *. rewrite Hn in *. split; [lia|]. intros k' fd' Hin' Hkk. specialize (Hmax _ _ Hin'). lia.
  - intros k0 f0 Hin0. destruct (decide (k0 = k)) as [->|Hne].
    + assert (f0 = fd) as -> by (eapply sorted_unique; [apply (mo_sorted _ _ _ Hok)|done..]). eexists. split; [exact Hself|].
      by apply extends_on_disk_r.
    + eexists. split; [apply Hwe; by exists f0|]. simpl. rewrite (proj2 (N.eqb_neq _ _)) by done. apply extends_on_disk_r, extends_refl.
  - intros k0 f0 (f & Hf & _)%Hwe. left. eauto.
  - intros k0 f0 key' (f & Hf & ->)%Hwe Hk'. simpl in Hk'. destruct (N.eqb_spec k0 k) as [->|]; [|right; eauto].
    destruct (decide (key' = key)) as [->|Hne]; [by left|]. rewrite (ad_offsets _ _ _ _ _ _ _ _ Hadd key' Hne) in Hk'. right. eauto.
  - intros n Hn Hr k0 f0 (f & Hf & ->)%Hwe i q Hq. simpl in Hq. destruct (N.eqb_spec k0 k) as [->|].
    + destruct (ad_packages _ _ _ _ _ _ _ _ Hadd i q Hq) as [(q0 & Hq0 & _ & Hle)|(_ & _ & Hle)]; [|lia].
      pose proof (Hr k fd Hin i q0 Hq0). lia.
    + pose proof (Hr k0 f Hf i q Hq). lia.
Qed.
End adding.

Lemma add_to_map ty b fm k fd m key filename data :
  map_ok ty b fm → (k, fd) ∈ fm_elements fm → let s := fd_archive_slice fd in
  addable s m filename data → offsets_db (as_dbs s) !! key = None →
  is_Some (position s m) ∨ (next_package s m ∧ b <= m ∧ ∀ k' f, (k', f) ∈ fm_elements fm → k' <= k) →
  ∃ s', ArchiveSlice_add_file s m key filename data = Done (Some data, s') ∧
    map_ok ty (bound_after s b m) (write_back fm k s') ∧ (∀ b0, map_extends b0 fm (write_back fm k s')) ∧
    keys_from (λ x, x = key) fm (write_back fm k s') ∧
    (∀ n, PKG_HEADER_SIZE + entry_max + n < two64 → maps_room fm (entry_max + n) → maps_room (write_back fm k s') n) ∧
    (k, with_slice fd (on_disk_of (slice_files s') s')) ∈ fm_elements (write_back fm k s') ∧
    added ty k s s' m key filename data.
Proof.
  intros Hok Hin s Had Hkey Hpos. destruct (mo_slice _ _ _ Hok k fd Hin) as (Hs & _ & _ & Hdisk). fold s in Hs, Hdisk.
  destruct (add_file_runs ty k s m key filename data Hs) as (s' & Hrun & Hadd); try done.
  { rewrite Hdisk. apply (mo_disk _ _ _ Hok). }
  { destruct Hpos as [Hp|[Hp _]]; auto. }
  exists s'. split; [done|]. destruct (added_map_ok ty b fm k fd m key filename data s' Hok Hin Hpos Hadd) as (? & ? & ? & ? & ?). done.
Qed.

(** ** Slices of a package identifier *)
Lemma open_new ty b fm k :
  map_ok ty b fm → ty ≠ Temp → b <= k < two32 →
  ∃ s fd, open_slice fm k ty false = Done (Some s) ∧
    fd = {| fd_id := {| pid_id := k; pid_package_type := ty |}; fd_deleted := false;
            fd_archive_slice := sync_slice (fm_disk (write_back fm k s)) s |} ∧
    let fm' := FileMap_put (write_back fm k s) k fd in
    map_ok ty (k + 1) fm' ∧ map_extends b fm fm' ∧ keys_from (λ _, False) fm fm' ∧ (k, fd) ∈ fm_elements fm' ∧
    (∀ n, PKG_HEADER_SIZE + n < two64 → maps_room fm n → maps_room fm' n).
Proof.
  intros Hok Hty Hk. destruct (mo_fresh _ _ _ Hok k ltac:(lia)) as [Hdb Hdk].
  destruct (new_slice_runs ty (fm_disk fm) k Hty ltac:(lia) (mo_disk _ _ _ Hok) Hdk) as (s & pi & Hrun & Hs & Hd & Hpk & Hseq & Ho & Hsz).
  destruct (put_slice_ok ty b fm k s pi Hok ltac:(lia) Hs Hd Hpk Hseq Ho Hsz) as (Hok' & Hex & Hkeys & Hroom & Hin & Hsl).
  eexists s, _. split; [unfold open_slice; by rewrite Hdb|]. split; [done|]. by split_and!.
Qed.

Implicit Types (am : ArchiveManager).
Definition map_of am (ty : PackageType) : FileMap := match ty with KeyBlocks => am_key_files am | _ => am_files am end.

Lemma maps_get am ty : ty ≠ Temp → FileMaps_get am ty = Done (map_of am ty).
Proof. by destruct ty. Qed.

Lemma map_of_with am ty fm : map_of (with_file_map am ty fm) ty = fm.
Proof. by destruct ty. Qed.

Lemma with_map_of am ty : with_file_map am ty (map_of am ty) = am.
Proof. by destruct am, ty. Qed.

(** The slice of a package identifier is found or made. *)
Lemma get_file_desc_found am ty b k fd force :
  ty ≠ Temp → map_ok ty b (map_of am ty) → (k, fd) ∈ fm_elements (map_of am ty) →
  get_file_desc am {| pid_id := k; pid_package_type := ty |} force = Done (Some (Some fd), am).
Proof.
  intros Hty Hok Hin. unfold get_file_desc. cbn [pid_id pid_package_type]. rewrite maps_get by done. cbn [mbind outcome_bind].
  rewrite (proj2 (get_spec _ _ _ (mo_sorted _ _ _ Hok)) Hin). destruct (mo_slice _ _ _ Hok k fd Hin) as (_ & _ & -> & _). done.
Qed.

Lemma get_file_desc_new am ty b k :
  ty ≠ Temp → map_ok ty b (map_of am ty) → b <= k < two32 →
  ∃ fd fm', get_file_desc am {| pid_id := k; pid_package_type := ty |} true = Done (Some (Some fd), with_file_map am ty fm') ∧
    map_ok ty (k + 1) fm' ∧ map_extends b (map_of am ty) fm' ∧ keys_from (λ _, False) (map_of am ty) fm' ∧ (k, fd) ∈ fm_elements fm' ∧
    (∀ n, PKG_HEADER_SIZE + n < two64 → maps_room (map_of am ty) n → maps_room fm' n).
Proof.
  intros Hty Hok Hk. destruct (open_new ty b _ k Hok Hty Hk) as (s & fd & Hopen & Hfd & Hok' & Hex & Hkeys & Hin & Hroom).
  assert (Hnone : FileMap_get (map_of am ty) k = None).
  { destruct (FileMap_get _ k) as [f|] eqn:E; [|done]. apply (get_spec _ _ _ (mo_sorted _ _ _ Hok)), (key_bound _ _ _ _ _ Hok) in E. lia. }
  eexists fd, _. split; [|done]. unfold get_file_desc, add_file_desc. cbn [pid_id pid_package_type]. rewrite maps_get by done.
  cbn [mbind outcome_bind]. rewrite Hnone, bool_decide_eq_true_2 by done. cbn [assert_that mbind outcome_bind].
  rewrite Hopen. cbn [mbind outcome_bind]. by rewrite <- Hfd.
Qed.
