(* ===== verification/ArchiveRun.v ===== *)
(** * Storage: moving blocks to the archive in order

    Masterchain blocks are archived one after the other, starting with some key
    block; a shard block is archived when the masterchain block that refers to it
    is.  Then the slice of a masterchain number never changes once the number is
    archived, so files are found where they were put. *)

From S2P Require Import Prelude BlockId BlockMeta Package ArchiveSlice ArchiveFacts EntryId FileMaps ArchiveManager.

Implicit Types (s : ArchiveSlice) (fm : FileMap) (fd : FileDescription) (am : ArchiveManager) (first bound m k : N).

(** ** Numbers *)
Definition aligned (m : N) : N := m - m mod ARCHIVE_SLICE_SIZE.

Lemma aligned_mul m : aligned m = ARCHIVE_SLICE_SIZE * (m / ARCHIVE_SLICE_SIZE) ∧ aligned m <= m.
Proof.
  unfold aligned. pose proof (N.div_mod m ARCHIVE_SLICE_SIZE ltac:(done)) as H. revert H.
  generalize (m / ARCHIVE_SLICE_SIZE) (m mod ARCHIVE_SLICE_SIZE). intros q r H. lia.
Qed.

(** Only a multiple of the slice size starts a new slice by itself. *)
Lemma aligned_next n k : aligned n <= k → k < aligned (n + 1) → k <= n → aligned (n + 1) = n + 1.
Proof.
  destruct (aligned_mul n) as [-> _]. destruct (aligned_mul (n + 1)) as [-> H2]. intros H1 H3 H4.
  pose proof (N.div_mod n ARCHIVE_SLICE_SIZE ltac:(done)) as Hd. pose proof (N.mod_upper_bound n ARCHIVE_SLICE_SIZE ltac:(done)) as Hm.
  revert H1 H2 H3 Hd Hm. generalize (n / ARCHIVE_SLICE_SIZE) (n mod ARCHIVE_SLICE_SIZE) ((n + 1) / ARCHIVE_SLICE_SIZE).
  unfold ARCHIVE_SLICE_SIZE. intros q r q' H1 H2 H3 Hd Hm. assert (q < q') by lia. lia.
Qed.

(** The next number is in the same package or opens the next one. *)
Lemma position_next s n :
  slice_at Blocks (as_archive_id s) s → is_Some (position s n) → is_Some (position s (n + 1)) ∨ next_package s (n + 1).
Proof.
  intros Hs [p Hp]. assert (Hm : as_sliced_mode s = true) by (by rewrite (sa_mode _ _ _ Hs)). pose proof (so_size _ (sa_ok _ _ _ Hs)) as Hsz.
  unfold position, next_package in *. rewrite Hm in *. destruct (N.ltb_spec n (as_archive_id s)) as [|Hge]; [done|].
  rewrite (proj2 (N.ltb_ge _ _)) by lia. set (z := as_slice_size s) in *. set (len := N.of_nat (length (as_packages s))) in *.
  destruct (N.ltb_spec ((n - as_archive_id s) / z) len) as [Hlt|]; [|done].
  replace (n + 1 - as_archive_id s) with (n - as_archive_id s + 1) by lia.
  destruct (N.ltb_spec ((n - as_archive_id s + 1) / z) len) as [|Hge2]; [left; eauto|right]. split; [done|].
  pose proof (N.div_mod (n - as_archive_id s) z ltac:(lia)) as Hd. pose proof (N.mod_upper_bound (n - as_archive_id s) z ltac:(lia)) as Hmod.
  assert (Hle : z * len <= n - as_archive_id s + 1).
  { etrans; [apply N.mul_le_mono_l; exact Hge2|]. apply N.Div0.mul_div_le. }
  assert (n - as_archive_id s < z * len) by nia. lia.
Qed.

Lemma position_start s : slice_at Blocks (as_archive_id s) s → is_Some (position s (as_archive_id s)).
Proof.
  intros Hs. unfold position. rewrite (sa_mode _ _ _ Hs), N.ltb_irrefl, N.sub_diag. simpl. rewrite N.Div0.div_0_l.
  pose proof (so_nonempty _ (sa_ok _ _ _ Hs)). destruct (as_packages s); [done|]. simpl. eauto.
Qed.

(** ** The invariant *)
Definition covered fm m : Prop :=
  ∃ k fd, closest (fm_elements fm) m k fd ∧ aligned m <= k ∧ is_Some (position (fd_archive_slice fd) m).

Definition files_ok first bound fm : Prop :=
  map_ok Blocks bound fm ∧ ∀ m, first <= m → m < bound → covered fm m.

Definition key_files_ok bound fm : Prop :=
  ∃ kb, map_ok KeyBlocks kb fm ∧ (kb = 0 ∨ ∃ fd, (kb - 1, fd) ∈ fm_elements fm) ∧ kb - 1 <= (bound - 1) / KEY_ARCHIVE_PACKAGE_SIZE.

Lemma covered_extends b fm fm' m : map_extends b fm fm' → m < b → covered fm m → covered fm' m.
Proof.
  intros He Hm (k & fd & Hc & Ha & [p Hp]). destruct (map_extends_closest b fm fm' m k fd He Hm Hc) as (fd' & Hc' & Hex).
  exists k, fd'. split_and!; try done. exists p. by apply (ex_position _ _ Hex).
Qed.

(** ** The slice for the next file *)

(** Which numbers may be archived: known ones, the next one, and the key block that
    opens a slice. *)
Definition may_archive first bound fm (m : N) (key_block : bool) : Prop :=
  if key_block then m = bound ∨ (bound = m + 1 ∧ ∃ fd, (m, fd) ∈ fm_elements fm)
  else (first <= m ∧ m < bound) ∨ (m = bound ∧ first < bound).

Lemma may_archive_le first bound fm m key_block : may_archive first bound fm m key_block → m <= bound.
Proof. unfold may_archive. destruct key_block; lia. Qed.

(** What [get_package_id_force] and [get_file_desc] find. *)
Record slot fm bound m k fd fm1 b1 : Prop := {
  sl_ok : map_ok Blocks b1 fm1;
  sl_bound : bound <= b1 <= N.max bound (m + 1);
  sl_extends : map_extends bound fm fm1;
  sl_closest : closest (fm_elements fm1) m k fd;
  sl_aligned : aligned m <= k;
  sl_place : is_Some (position (fd_archive_slice fd) m) ∨
    (next_package (fd_archive_slice fd) m ∧ b1 <= m ∧ ∀ k' f, (k', f) ∈ fm_elements fm1 → k' <= k);
  sl_room n : PKG_HEADER_SIZE + n < two64 → maps_room fm n → maps_room fm1 n;
  sl_keys : keys_from (λ _, False) fm fm1;
}.

(** A slice that is there. *)
Lemma slot_found fm bound m k fd :
  map_ok Blocks bound fm → closest (fm_elements fm) m k fd → aligned m <= k →
  is_Some (position (fd_archive_slice fd) m) ∨
    (next_package (fd_archive_slice fd) m ∧ bound <= m ∧ ∀ k' f, (k', f) ∈ fm_elements fm → k' <= k) →
  slot fm bound m k fd fm bound.
Proof.
  intros Hok Hc Ha Hp. split; try done; [lia|apply map_extends_refl|apply keys_from_refl].
Qed.

(** A slice that is made for the number. *)
Lemma slot_new am bound m :
  map_ok Blocks bound (am_files am) → bound = m → m < two32 → aligned m <= m →
  ∃ fd fm1, get_file_desc am (PackageId_for_block m) true = Done (Some (Some fd), with_file_map am Blocks fm1) ∧
    slot (am_files am) bound m m fd fm1 (m + 1).
Proof.
  intros Hok -> Hm Ha. destruct (get_file_desc_new am Blocks m m ltac:(done) Hok ltac:(lia)) as (fd & fm1 & Hrun & Hok1 & Hex & Hkeys & Hin & Hroom).
  exists fd, fm1. split; [exact Hrun|]. destruct (mo_slice _ _ _ Hok1 m fd Hin) as (Hs & _). split; try done.
  - lia.
  - left. rewrite <- (sa_id _ _ _ Hs). apply position_start. by rewrite (sa_id _ _ _ Hs).
Qed.

(** The closest slice is the one [get_package_id_force] gives, if it starts late
    enough. *)
Lemma package_id_closest am bound m k fd :
  map_ok Blocks bound (am_files am) → closest (fm_elements (am_files am)) m k fd →
  get_package_id_force am m false false = PackageId_for_block (N.max (aligned m) k).
Proof.
  intros Hok Hc. unfold get_package_id_force. fold (aligned m).
  rewrite (proj2 (get_closest_spec _ m fd (mo_sorted _ _ _ Hok))) by eauto. destruct Hc as (Hin & _).
  destruct (mo_slice _ _ _ Hok k fd Hin) as (_ & Hid & _). rewrite Hid. unfold PackageId_lt, PackageId_for_block. cbn [pid_id].
  destruct (N.ltb_spec (aligned m) k); f_equal; lia.
Qed.

Lemma find_slot am first bound m key_block :
  files_ok first bound (am_files am) → m < two32 → may_archive first bound (am_files am) m key_block →
  ∃ k fd fm1 b1, get_package_id_force am m false key_block = PackageId_for_block k ∧
    get_file_desc am (PackageId_for_block k) true = Done (Some (Some fd), with_file_map am Blocks fm1) ∧
    slot (am_files am) bound m k fd fm1 b1.
Proof.
  intros [Hok Hcov] Hm32 Hmay. destruct (aligned_mul m) as [_ Hal].
  assert (Hfound : ∀ k fd, (k, fd) ∈ fm_elements (am_files am) →
    get_file_desc am (PackageId_for_block k) true = Done (Some (Some fd), with_file_map am Blocks (am_files am))).
  { intros k fd Hin. rewrite (with_map_of am Blocks : with_file_map am Blocks (am_files am) = am). by apply (get_file_desc_found am Blocks bound). }
  destruct key_block; cbn [may_archive] in Hmay.
  { destruct Hmay as [->|[_ [fd Hin]]].
    - destruct (slot_new am bound bound Hok eq_refl Hm32 Hal) as (fd & fm1 & Hrun & Hslot). exists bound, fd, fm1, (bound + 1). done.
    - exists m, fd, (am_files am), bound. split_and!; [done|by apply Hfound|]. pose proof (key_bound _ _ _ _ _ Hok Hin).
      destruct (mo_slice _ _ _ Hok m fd Hin) as (Hs & _). apply slot_found; try done. left.
      rewrite <- (sa_id _ _ _ Hs). apply position_start. by rewrite (sa_id _ _ _ Hs). }
  destruct Hmay as [[Hf Hlt]|[-> Hlt]].
  - destruct (Hcov m Hf Hlt) as (k & fd & Hc & Ha & Hp). exists k, fd, (am_files am), bound.
    rewrite (package_id_closest am bound m k fd Hok Hc). split_and!; [f_equal; lia|by apply Hfound, Hc|].
    apply slot_found; auto.
  - destruct (Hcov (bound - 1) ltac:(lia) ltac:(lia)) as (k & fd & (Hin & Hk & Hmax) & Ha & Hp).
    assert (Hc : closest (fm_elements (am_files am)) bound k fd).
    { split_and!; [done|lia|]. intros k' f' Hin' _. apply (Hmax k' f' Hin'). pose proof (key_bound _ _ _ _ _ Hok Hin'). lia. }
    rewrite (package_id_closest am bound bound k fd Hok Hc). destruct (N.le_gt_cases (aligned bound) k) as [Hle|Hgt].
    + exists k, fd, (am_files am), bound. split_and!; [f_equal; lia|by apply Hfound|].
      destruct (mo_slice _ _ _ Hok k fd Hin) as (Hs & _). apply slot_found; try done.
      destruct (position_next (fd_archive_slice fd) (bound - 1)) as [Hpos|Hnext]; [by rewrite (sa_id _ _ _ Hs)|done| |];
        replace (bound - 1 + 1) with bound in * by lia; [by left|right].
      split_and!; [done|done|]. intros k' f' Hin'. apply (Hmax k' f' Hin'). pose proof (key_bound _ _ _ _ _ Hok Hin'). lia.
    + assert (Heq : aligned bound = bound).
      { replace bound with (bound - 1 + 1) by lia. apply (aligned_next _ k); [done| |lia]. replace (bound - 1 + 1) with bound by lia. done. }
      destruct (slot_new am bound bound Hok eq_refl Hm32 Hal) as (fd' & fm1 & Hrun & Hslot).
      exists bound, fd', fm1, (bound + 1). split_and!; [f_equal; lia|done|done].
Qed.

(** ** Files in the archives *)
Section moving.
Context {SI : ShardIdents} {F : EntryFormats} {K : OffsetKeys}.
Implicit Types (e : PackageEntryId) (handle : BlockHandle) (data : list N).

Definition archive_entry e data : PackageEntry := file_entry (filename e) data.

(** Where [get_file] looks. *)
Definition found fm m e data : Prop :=
  ∃ k fd, closest (fm_elements fm) m k fd ∧
    ArchiveSlice_get_file (fd_archive_slice fd) m (offset_key e) = Done (Some (archive_entry e data)).
Definition found_key fm m e data : Prop :=
  ∃ fd, (m / KEY_ARCHIVE_PACKAGE_SIZE, fd) ∈ fm_elements fm ∧
    ArchiveSlice_get_file (fd_archive_slice fd) m (offset_key e) = Done (Some (archive_entry e data)).

Lemma found_extends ty ty' b b' b0 fm fm' m e data :
  map_ok ty b fm → map_ok ty' b' fm' → map_extends b0 fm fm' → m < b0 → found fm m e data → found fm' m e data.
Proof.
  intros Hok Hok' He Hm (k & fd & Hc & Hg). destruct (map_extends_closest b0 fm fm' m k fd He Hm Hc) as (fd' & Hc' & Hex).
  exists k, fd'. split; [done|]. destruct Hc as (Hin & _), Hc' as (Hin' & _). destruct (mo_slice _ _ _ Hok _ _ Hin) as ([Hs _ _ _ _ _] & _).
  destruct (mo_slice _ _ _ Hok' _ _ Hin') as ([Hs' _ _ _ _ _] & _). eapply (extends_get_file _ _ _ _ _ Hs Hs'); eauto.
Qed.

Lemma found_key_extends ty ty' b b' b0 fm fm' m e data :
  map_ok ty b fm → map_ok ty' b' fm' → map_extends b0 fm fm' → found_key fm m e data → found_key fm' m e data.
Proof.
  intros Hok Hok' He (fd & Hin & Hg). destruct (me_old _ _ _ He _ _ Hin) as (fd' & Hin' & Hex). exists fd'. split; [done|].
  destruct (mo_slice _ _ _ Hok _ _ Hin) as ([Hs _ _ _ _ _] & _). destruct (mo_slice _ _ _ Hok' _ _ Hin') as ([Hs' _ _ _ _ _] & _).
  eapply (extends_get_file _ _ _ _ _ Hs Hs'); eauto.
Qed.

(** What is required of a file that is moved. *)
Record movable fm e data : Prop := {
  mv_entry : entry_ok (archive_entry e data);
  mv_data : data ≠ [];
  mv_room : maps_room fm entry_max;
  mv_fresh k fd : (k, fd) ∈ fm_elements fm → offsets_db (as_dbs (fd_archive_slice fd)) !! offset_key e = None;
}.

Lemma get_file_on_disk disk s m key entry :
  slice_ok s → disk_ok disk → ArchiveSlice_get_file s m key = Done (Some entry) →
  ArchiveSlice_get_file (on_disk_of disk s) m key = Done (Some entry).
Proof. intros Hs Hd. by apply get_file_position_same; [|apply on_disk_of_ok|..]. Qed.

(** A fresh key stays fresh in the slices that were opened. *)
Lemma fresh_key new fm fm' key k fd :
  keys_from new fm fm' → ¬ new key → (∀ k fd, (k, fd) ∈ fm_elements fm → offsets_db (as_dbs (fd_archive_slice fd)) !! key = None) →
  (k, fd) ∈ fm_elements fm' → offsets_db (as_dbs (fd_archive_slice fd)) !! key = None.
Proof.
  intros Hk Hn Hf Hin. apply eq_None_not_Some. intros Hs. destruct (Hk k fd key Hin Hs) as [?|(fd0 & Hin0 & Hs0)]; [done|].
  rewrite (Hf _ _ Hin0) in Hs0. by destruct Hs0.
Qed.

Lemma move_file_runs am data handle e key_archive ty k fd fm1 s' :
  get_package_id_force am (get_mc_seq_no handle) key_archive (is_key_block handle) = {| pid_id := k; pid_package_type := ty |} →
  ty ≠ Temp → get_file_desc am {| pid_id := k; pid_package_type := ty |} true = Done (Some (Some fd), with_file_map am ty fm1) →
  ArchiveSlice_add_file (fd_archive_slice fd) (get_mc_seq_no handle) (offset_key e) (filename e) data = Done (Some data, s') →
  move_file_to_archive am data handle e key_archive = Done (Some data, with_file_map am ty (write_back fm1 k s')).
Proof.
  intros Hid Hty Hdesc Hadd. unfold move_file_to_archive. rewrite Hid, Hdesc. cbn [mbind outcome_bind]. rewrite Hadd.
  cbn [mbind outcome_bind pid_id pid_package_type]. rewrite maps_get by done. cbn [mbind outcome_bind]. rewrite map_of_with. by destruct am, ty.
Qed.

(** Into the archive of blocks. *)
Lemma move_block am first bound data handle e :
  let m := get_mc_seq_no handle in
  files_ok first bound (am_files am) → may_archive first bound (am_files am) m (is_key_block handle) → m < two32 →
  movable (am_files am) e data →
  ∃ fm', move_file_to_archive am data handle e false = Done (Some data, with_file_map am Blocks fm') ∧
    files_ok first (N.max bound (m + 1)) fm' ∧ map_extends bound (am_files am) fm' ∧
    keys_from (λ x, x = offset_key e) (am_files am) fm' ∧ found fm' m e data ∧
    (∀ n, PKG_HEADER_SIZE + entry_max + n < two64 → maps_room (am_files am) (entry_max + n) → maps_room fm' n) ∧
    (is_key_block handle = true → ∃ fd, (m, fd) ∈ fm_elements fm').
Proof.
  intros m Hok Hmay Hm [He Hne Hroom Hfresh].
  destruct (find_slot am first bound m (is_key_block handle) Hok Hm Hmay) as (k & fd & fm1 & b1 & Hid & Hdesc & Hsl).
  pose proof (sl_closest _ _ _ _ _ _ _ Hsl) as (Hin & Hkm & Hmax). pose proof (sl_bound _ _ _ _ _ _ _ Hsl) as Hb1.
  pose proof (fresh_key _ _ _ _ k fd (sl_keys _ _ _ _ _ _ _ Hsl) ltac:(tauto) Hfresh Hin) as Hkey.
  destruct (add_to_map Blocks b1 fm1 k fd m (offset_key e) (filename e) data (sl_ok _ _ _ _ _ _ _ Hsl) Hin) as
    (s' & Hrun & Hok' & Hex' & Hkeys' & Hroom' & Hin' & Hadd);
    [split; [done..|by apply (sl_room _ _ _ _ _ _ _ Hsl entry_max eq_refl Hroom k)]|done|apply (sl_place _ _ _ _ _ _ _ Hsl)|].
  set (fm' := write_back fm1 k s') in *. exists fm'.
  assert (Hext : map_extends bound (am_files am) fm') by exact (map_extends_trans bound b1 _ fm1 fm' (proj1 Hb1) (sl_extends _ _ _ _ _ _ _ Hsl) (Hex' b1)).
  assert (Hbound : map_ok Blocks (N.max bound (m + 1)) fm').
  { eapply map_ok_mono; [exact Hok'|]. unfold bound_after. destruct (position _ m); lia. }
  pose proof (sa_ok _ _ _ (ad_slice _ _ _ _ _ _ _ _ Hadd)) as Hs'. pose proof (ad_get _ _ _ _ _ _ _ _ Hadd) as Hget.
  assert (Hc' : closest (fm_elements fm') m k (with_slice fd (on_disk_of (slice_files s') s'))).
  { destruct (map_extends_closest (m + 1) fm1 fm' m k fd (Hex' _) ltac:(lia) (sl_closest _ _ _ _ _ _ _ Hsl)) as (fd' & Hc' & _).
    pose proof Hc' as (Hfd' & _). by assert (fd' = with_slice fd (on_disk_of (slice_files s') s')) as <-
      by (eapply sorted_unique; [apply (mo_sorted _ _ _ Hok')|done..]). }
  split_and!; [|split; [done|]|done| |exists k; eexists; split; [exact Hc'|]| |].
  - exact (move_file_runs am data handle e false Blocks k fd fm1 s' Hid ltac:(discriminate) Hdesc Hrun).
  - intros n Hn1 Hn2. destruct (N.lt_ge_cases n bound) as [Hnb|Hnb]; [eapply covered_extends; [done|done|by apply Hok]|].
    assert (n = m) as -> by (pose proof (may_archive_le _ _ _ _ _ Hmay); lia).
    exists k. eexists. split; [exact Hc'|]. split; [apply (sl_aligned _ _ _ _ _ _ _ Hsl)|]. by apply (ad_position _ _ _ _ _ _ _ _ Hadd).
  - intros k0 f0 key Hf0 Hk0. 
    pose proof (keys_from_trans (λ _, False) (λ x, x = offset_key e) (am_files am) fm1 fm' (sl_keys _ _ _ _ _ _ _ Hsl) Hkeys') as Hkk.
    destruct (Hkk k0 f0 key Hf0 Hk0) as [[[]|?]|?]; [by left|by right].
  - apply get_file_on_disk; [done| |done]. apply (mo_disk _ _ _ Hok').
  - intros n Hn Hr. apply Hroom'; [done|]. apply (sl_room _ _ _ _ _ _ _ Hsl); [lia|done].
  - intros Hkb. unfold get_package_id_force in Hid. rewrite Hkb in Hid. injection Hid as Hid. exists (with_slice fd (on_disk_of (slice_files s') s')).
    rewrite Hid. exact Hin'.
Qed.

(** Into the archive of key blocks. *)
Lemma key_slot am bound m :
  key_files_ok bound (am_key_files am) → bound <= m + 1 → m < two32 →
  let k := m / KEY_ARCHIVE_PACKAGE_SIZE in
  ∃ fd fm1, get_file_desc am (PackageId_for_key_block k) true = Done (Some (Some fd), with_file_map am KeyBlocks fm1) ∧
    map_ok KeyBlocks (k + 1) fm1 ∧ map_extends 0 (am_key_files am) fm1 ∧ keys_from (λ _, False) (am_key_files am) fm1 ∧
    (k, fd) ∈ fm_elements fm1 ∧ (∀ n, PKG_HEADER_SIZE + n < two64 → maps_room (am_key_files am) n → maps_room fm1 n).
Proof.
  intros (kb & Hok & Hlast & Hkb) Hb Hm k.
  assert (Hle : (bound - 1) / KEY_ARCHIVE_PACKAGE_SIZE <= k) by (apply N.Div0.div_le_mono; lia).
  assert (Hk : k < two32) by (eapply N.le_lt_trans; [apply N.Div0.div_le_upper_bound|done]; unfold KEY_ARCHIVE_PACKAGE_SIZE; lia).
  destruct (decide (kb = k + 1)) as [Heq|Hne].
  - destruct Hlast as [->|[fd Hin]]; [lia|]. rewrite Heq, N.add_sub in Hin. exists fd, (am_key_files am).
    rewrite <- Heq. split_and!; [|done|apply map_extends_refl|apply keys_from_refl|done|done].
    rewrite (with_map_of am KeyBlocks : with_file_map am KeyBlocks (am_key_files am) = am).
    exact (get_file_desc_found am KeyBlocks kb k fd true ltac:(done) Hok Hin).
  - destruct (get_file_desc_new am KeyBlocks kb k ltac:(done) Hok ltac:(lia)) as (fd & fm1 & Hrun & Hok1 & Hex & Hkeys & Hin & Hr).
    exists fd, fm1. split_and!; try done. destruct Hex as [Hold _]. split; [done|]. intros k0 f0 _. right. lia.
Qed.

Lemma move_key am bound data handle e :
  let m := get_mc_seq_no handle in
  is_key_block handle = true → key_files_ok bound (am_key_files am) → bound <= m + 1 → m < two32 → movable (am_key_files am) e data →
  ∃ fm', move_file_to_archive am data handle e true = Done (Some data, with_file_map am KeyBlocks fm') ∧
    key_files_ok (m + 1) fm' ∧ map_extends 0 (am_key_files am) fm' ∧
    keys_from (λ x, x = offset_key e) (am_key_files am) fm' ∧ found_key fm' m e data ∧
    (∀ n, PKG_HEADER_SIZE + entry_max + n < two64 → maps_room (am_key_files am) (entry_max + n) → maps_room fm' n).
Proof.
  intros m Hkb Hok Hb Hm [He Hne Hroom Hfresh]. destruct (key_slot am bound m Hok Hb Hm) as (fd & fm1 & Hdesc & Hok1 & Hex & Hkeys & Hin & Hr).
  set (k := m / KEY_ARCHIVE_PACKAGE_SIZE) in *. pose proof (fresh_key _ _ _ _ k fd Hkeys ltac:(tauto) Hfresh Hin) as Hkey.
  destruct (mo_slice _ _ _ Hok1 k fd Hin) as (Hs & _).
  assert (Hpos : is_Some (position (fd_archive_slice fd) m)) by (unfold position; rewrite (sa_mode _ _ _ Hs); simpl; eauto).
  destruct (add_to_map KeyBlocks (k + 1) fm1 k fd m (offset_key e) (filename e) data Hok1 Hin) as
    (s' & Hrun & Hok' & Hex' & Hkeys' & Hroom' & Hin' & Hadd); [split; [done..|exact (Hr entry_max eq_refl Hroom k fd Hin)]|done|by left|].
  set (fm' := write_back fm1 k s') in *. exists fm'.
  assert (Hb' : bound_after (fd_archive_slice fd) (k + 1) m = k + 1) by (unfold bound_after; by destruct Hpos as [? ->]). rewrite Hb' in Hok'.
  assert (Hid : get_package_id_force am (get_mc_seq_no handle) true (is_key_block handle) = PackageId_for_key_block k)
    by (unfold get_package_id_force; by rewrite Hkb).
  split_and!.
  - exact (move_file_runs am data handle e true KeyBlocks k fd fm1 s' Hid ltac:(discriminate) Hdesc Hrun).
  - exists (k + 1). split; [exact Hok'|]. rewrite !N.add_sub. split; [|done]. right. by eexists.
  - exact (map_extends_trans 0 0 _ fm1 fm' ltac:(lia) Hex (Hex' 0)).
  - intros k0 f0 key Hf0 Hk0.
    pose proof (keys_from_trans (λ _, False) (λ x, x = offset_key e) (am_key_files am) fm1 fm' Hkeys Hkeys') as Hkk.
    destruct (Hkk k0 f0 key Hf0 Hk0) as [[[]|?]|?]; [by left|by right].
  - exists (with_slice fd (on_disk_of (slice_files s') s')). split; [exact Hin'|].
    apply get_file_on_disk; [exact (sa_ok _ _ _ (ad_slice _ _ _ _ _ _ _ _ Hadd))|apply (mo_disk _ _ _ Hok')|].
    exact (ad_get _ _ _ _ _ _ _ _ Hadd).
  - intros n Hn Hrn. apply Hroom'; [done|]. apply Hr; [lia|done].
Qed.

(** ** Both archives *)
Record manager_ok first bound am : Prop := {
  mg_files : files_ok first bound (am_files am);
  mg_keys : key_files_ok bound (am_key_files am);
}.

Definition manager_room am (n : N) : Prop := maps_room (am_files am) n ∧ maps_room (am_key_files am) n.

Record grows (bound key : N) am am' : Prop := {
  gr_unapplied : am_unapplied am' = am_unapplied am;
  gr_files : map_extends bound (am_files am) (am_files am');
  gr_key_files : map_extends 0 (am_key_files am) (am_key_files am');
  gr_keys : keys_from (λ x, x = key) (am_files am) (am_files am');
  gr_key_keys : keys_from (λ x, x = key) (am_key_files am) (am_key_files am');
  gr_room n : PKG_HEADER_SIZE + entry_max + n < two64 → manager_room am (entry_max + n) → manager_room am' n;
}.

(** Where a file of the block is found. *)
Definition readable am handle e data : Prop :=
  if is_key_block handle then found_key (am_key_files am) (get_mc_seq_no handle) e data
  else found (am_files am) (get_mc_seq_no handle) e data.

Lemma key_files_mono bound bound' fm : key_files_ok bound fm → bound <= bound' → key_files_ok bound' fm.
Proof.
  intros (kb & Hok & Hlast & Hle) Hb. exists kb. split_and!; try done. etrans; [exact Hle|]. apply N.Div0.div_le_mono. lia.
Qed.

Lemma maps_room_mono fm n n' : maps_room fm n → n' <= n → maps_room fm n'.
Proof. intros Hr Hn k fd Hin i pi Hi. specialize (Hr k fd Hin i pi Hi). lia. Qed.

Lemma read_temp_ok am e data :
  am_unapplied am !! filename_short e = Some data → data ≠ [] → read_temp_file am e = Some (filename_short e, data).
Proof. intros Hun Hne. unfold read_temp_file. rewrite Hun. by destruct data. Qed.

Lemma move_archives am first bound handle e data :
  let m := get_mc_seq_no handle in
  manager_ok first bound am → may_archive first bound (am_files am) m (is_key_block handle) → m < two32 →
  am_unapplied am !! filename_short e = Some data → movable (am_files am) e data → movable (am_key_files am) e data →
  ∃ am', move_file_to_archives am handle e = Done (Some (filename_short e), am') ∧
    manager_ok first (N.max bound (m + 1)) am' ∧ grows bound (offset_key e) am am' ∧ readable am' handle e data ∧
    may_archive first (N.max bound (m + 1)) (am_files am') m (is_key_block handle).
Proof.
  intros m [Hf Hk] Hmay Hm Hun Hmv Hmvk.
  destruct (move_block am first bound data handle e Hf Hmay Hm Hmv) as (fm' & Hrun & Hf' & Hex & Hkeys & Hfound & Hroom & Hkb). fold m in Hf', Hfound, Hkb.
  pose proof (read_temp_ok am e data Hun (mv_data _ _ _ Hmv)) as Hread.
  unfold move_file_to_archives, readable. fold m. rewrite Hread, Hrun. cbn [mbind outcome_bind].
  pose proof (may_archive_le _ _ _ _ _ Hmay) as Hle. destruct (is_key_block handle) eqn:Ekey; cbn [may_archive] in *.
  - set (am1 := with_file_map am Blocks fm'). assert (Hb1 : bound <= m + 1) by lia.
    destruct (move_key am1 bound data handle e Ekey Hk Hb1 Hm Hmvk) as (kfm & Hrunk & Hk' & Hexk & Hkeysk & Hfoundk & Hroomk).
    fold m in Hk', Hfoundk. rewrite Hrunk. cbn [mbind outcome_bind]. eexists. split; [reflexivity|].
    replace (N.max bound (m + 1)) with (m + 1) in * by lia. split; [constructor; [exact Hf'|exact Hk']|].
    split; [|split; [exact Hfoundk|right; split; [reflexivity|exact (Hkb eq_refl)]]].
    constructor; [reflexivity|exact Hex|exact Hexk|exact Hkeys|exact Hkeysk|].
    intros n Hn [Hr1 Hr2]. split; [exact (Hroom n Hn Hr1)|exact (Hroomk n Hn Hr2)].
  - eexists. split; [reflexivity|]. split; [constructor; [exact Hf'|apply (key_files_mono bound); [exact Hk|lia]]|].
    split; [|split; [exact Hfound|left; lia]].
    constructor; [reflexivity|exact Hex|apply map_extends_refl|exact Hkeys|apply keys_from_refl|].
    intros n Hn [Hr1 Hr2]. split; [exact (Hroom n Hn Hr1)|]. apply (maps_room_mono _ (entry_max + n)); [exact Hr2|lia].
Qed.

(** ** Reading *)
Lemma readable_get am first bound handle e data :
  manager_ok first bound am → is_archived handle = true → readable am handle e data →
  manager_get_file am handle e = Done (Some data).
Proof.
  intros [[Hf _] (kb & Hk & _)] Harch. unfold readable, manager_get_file. rewrite Harch. destruct (is_key_block handle) eqn:Ekey.
  - intros (fd & Hin & Hget). unfold get_package_id. unfold PackageId_for_key_block.
    rewrite (get_file_desc_found am KeyBlocks kb _ fd false) by done. cbn [mbind outcome_bind]. by rewrite Hget.
  - intros (k & fd & Hc & Hget). unfold get_package_id.
    rewrite (proj2 (get_closest_spec _ _ fd (mo_sorted _ _ _ Hf))) by eauto. cbn [fmap option_fmap option_map].
    destruct Hc as (Hin & _). destruct (mo_slice _ _ _ Hf k fd Hin) as (_ & -> & _ & _).
    rewrite (get_file_desc_found am Blocks bound k fd false) by done. cbn [mbind outcome_bind]. by rewrite Hget.
Qed.

Lemma readable_grows first bound bound' key am am' handle e data :
  manager_ok first bound am → manager_ok first bound' am' → grows bound key am am' → get_mc_seq_no handle < bound →
  readable am handle e data → readable am' handle e data.
Proof.
  intros [[Hf _] (kb & Hk & _)] [[Hf' _] (kb' & Hk' & _)] Hg Hm. unfold readable. destruct (is_key_block handle).
  - apply (found_key_extends KeyBlocks KeyBlocks kb kb' 0); try done. apply Hg.
  - apply (found_extends Blocks Blocks bound bound' bound); try done. apply Hg.
Qed.
End moving.
