(* ===== verification/ArchiveGc.v ===== *)
(** * Storage: serving archives and collecting old slices *)

From stdpp Require Import sorting.
From S2P Require Import Prelude BlockId BlockMeta Package ArchiveSlice ArchiveFacts EntryId FileMaps ArchiveManager ArchiveRun.

Implicit Types (s : ArchiveSlice) (fm : FileMap) (fd : FileDescription) (am : ArchiveManager) (first bound front m k : N).

(** ** Serving *)

(** The archive identifier of a number names its package. *)
Lemma archive_id_parts hi lo : lo < two32 → hi < two32 →
  let id := N.lor (N.shiftl hi 32) lo in id mod two32 = lo ∧ N.shiftr id 32 mod two32 = hi.
Proof.
  intros Hlo Hhi id. unfold id. assert (Hbits : ∀ x, x < two32 → ∀ n, 32 <= n → N.testbit x n = false).
  { intros x Hx n Hn. destruct (decide (x = 0)) as [->|Hz]; [apply N.bits_0|]. apply N.bits_above_log2.
    apply N.lt_le_trans with 32; [|done]. apply N.log2_lt_pow2; [lia|done]. }
  split; apply N.bits_inj; intros n.
  - change two32 with (2 ^ 32). destruct (N.lt_ge_cases n 32) as [Hn|Hn].
    + rewrite N.mod_pow2_bits_low, N.lor_spec, N.shiftl_spec_low by done. done.
    + rewrite N.mod_pow2_bits_high by done. by rewrite Hbits.
  - change two32 with (2 ^ 32). destruct (N.lt_ge_cases n 32) as [Hn|Hn].
    + rewrite N.mod_pow2_bits_low, N.shiftr_spec', N.lor_spec, N.shiftl_spec_high' by (done || lia).
      rewrite N.add_sub, (Hbits lo) by (done || lia). by rewrite orb_false_r.
    + rewrite N.mod_pow2_bits_high by done. by rewrite Hbits.
Qed.

(** The start of a package has the position of the package. *)
Lemma position_of_start s m p :
  slice_ok s → as_sliced_mode s = true → position s m = Some p →
  as_archive_id s <= m ∧ p = N.to_nat ((m - as_archive_id s) / as_slice_size s) ∧
  position s (as_archive_id s + as_slice_size s * ((m - as_archive_id s) / as_slice_size s)) = Some p.
Proof.
  intros Hs Hm. pose proof (so_size _ Hs) as Hz. unfold position. rewrite Hm.
  destruct (N.ltb_spec m (as_archive_id s)) as [|Hge]; [done|]. set (idx := (m - as_archive_id s) / as_slice_size s).
  destruct (idx <? N.of_nat (length (as_packages s))) eqn:E; [|done]. intros [= <-]. split_and!; [done|done|].
  rewrite (proj2 (N.ltb_ge _ _)) by lia. replace (as_archive_id s + as_slice_size s * idx - as_archive_id s) with (idx * as_slice_size s) by lia.
  rewrite N.div_mul by lia. by rewrite E.
Qed.

Lemma slice_served s m p pi :
  slice_at Blocks (as_archive_id s) s → position s m = Some p → as_packages s !! p = Some pi → m < two32 →
  ∃ id, get_archive_id s m = Some id ∧ as_u32 id = as_archive_id s ∧
    ∀ offset limit, get_slice s id offset limit = Done (Some (take (N.to_nat limit) (drop (N.to_nat offset) (pkg_file (pi_package pi))))).
Proof.
  intros Hs Hp Hpi Hm. pose proof (sa_ok _ _ _ Hs) as Hok. assert (Hmode : as_sliced_mode s = true) by (by rewrite (sa_mode _ _ _ Hs)).
  pose proof (so_size _ Hok) as Hz. destruct (position_of_start s m p Hok Hmode Hp) as (Hge & -> & Hstart).
  set (idx := (m - as_archive_id s) / as_slice_size s) in *.
  assert (Hle : as_archive_id s + as_slice_size s * idx <= m).
  { pose proof (N.Div0.mul_div_le (m - as_archive_id s) (as_slice_size s)) as H. fold idx in H. lia. }
  destruct (archive_id_parts (as_archive_id s + as_slice_size s * idx) (as_archive_id s)) as [Hlo Hhi]; [lia..|].
  exists (N.lor (N.shiftl (as_archive_id s + as_slice_size s * idx) 32) (as_archive_id s)). split_and!.
  - unfold get_archive_id. rewrite Hmode. cbn [negb]. rewrite (proj2 (N.leb_le _ _) Hge). fold idx.
    unfold position in Hp. rewrite Hmode, (proj2 (N.ltb_ge _ _) Hge) in Hp. fold idx in Hp. destruct (idx <? _); [|done].
    unfold u32_add, u32_mul. rewrite !(N.mod_small _ two32) by (rewrite ?N.mod_small; lia). done.
  - exact Hlo.
  - intros offset limit. unfold get_slice. rewrite Hlo, N.eqb_refl, Hhi. cbn [negb].
    destruct (choose_existing s _ false _ Hok Hstart) as [Hc _]. rewrite Hc. cbn [mbind outcome_bind]. by rewrite Hpi.
Qed.

(** The package of a file that is found is served. *)
Section serving.
Context {SI : ShardIdents} {F : EntryFormats} {K : OffsetKeys}.

Lemma found_served am bound m e data :
  map_ok Blocks bound (am_files am) → m < two32 → found (am_files am) m e data →
  ∃ id package offset, manager_get_archive_id am m = Some id ∧
    (∀ start limit, manager_get_archive_slice am id start limit =
       Done (Some (take (N.to_nat limit) (drop (N.to_nat start) (pkg_file package))))) ∧
    Package_read_entry package offset = Some (archive_entry e data).
Proof.
  intros Hok Hm (k & fd & Hc & Hget). pose proof Hc as (Hin & _). destruct (mo_slice _ _ _ Hok k fd Hin) as (Hs & _).
  set (s := fd_archive_slice fd) in *. pose proof (sa_ok _ _ _ Hs) as Hsok. rewrite (get_file_position s) in Hget by done.
  destruct Hget as (offset & p & pi & _ & Ep & Epi & Hread & _).
  destruct (slice_served s m p pi) as (id & Hid & Hlow & Hslice); [by rewrite (sa_id _ _ _ Hs)|done..|].
  exists id, (pi_package pi), offset. split_and!.
  - unfold manager_get_archive_id. by rewrite (proj2 (get_closest_spec _ m fd (mo_sorted _ _ _ Hok))) by eauto.
  - intros start limit. unfold manager_get_archive_slice. rewrite Hlow, (sa_id _ _ _ Hs).
    unfold PackageId_for_block. rewrite (get_file_desc_found am Blocks bound k fd false) by done. cbn [mbind outcome_bind]. apply Hslice.
  - exact Hread.
Qed.
End serving.

(** ** Collection *)

(** The slice of a number from the front on is not marked. *)
Lemma marked_keys l front k : k ∈ marked_entries l front → ∃ fd, (k, fd) ∈ l.
Proof.
  induction l as [|[k0 f0] l IH]; cbn [marked_entries]; [by intros ?%not_elem_of_nil|].
  assert (Htail : k ∈ marked_entries l front → ∃ fd, (k, fd) ∈ (k0, f0) :: l).
  { intros (fd & Hin)%IH. exists fd. by right. }
  case_match; [|exact Htail]. intros [->|Hin]%elem_of_cons; [exists f0; left|by apply Htail].
Qed.

Lemma marked_closest l front m k fd :
  StronglySorted key_lt l → (∀ k fd, (k, fd) ∈ l → as_archive_id (fd_archive_slice fd) = k) →
  closest l m k fd → front <= m → m < k + ARCHIVE_SLICE_SIZE → k + ARCHIVE_SLICE_SIZE < two32 → k ∉ marked_entries l front.
Proof.
  induction l as [|[k0 f0] l IH]; intros Hs Hid (Hin & Hle & Hmax) Hf Hm H32; [by apply not_elem_of_nil in Hin|].
  apply StronglySorted_inv in Hs as [Hs Hall]. rewrite list.Forall_forall in Hall. cbn [marked_entries].
  assert (Hrest : k ∈ marked_entries l front → (k, fd) ∈ l → False).
  { intros Hmk Hin'. apply (IH Hs); try done; [intros k1 f1 Hin1; apply (Hid k1 f1); by right|].
    split_and!; [done|done|]. intros k1 f1 Hin1. apply (Hmax k1 f1). by right. }
  apply elem_of_cons in Hin as [[= -> ->]|Hin].
  - assert (Hnot : k0 ∉ marked_entries l front).
    { intros (f1 & Hin1)%marked_keys. specialize (Hall _ Hin1). unfold key_lt in Hall. cbn in Hall. lia. }
    rewrite bool_decide_decide. case_match eqn:E; [|done]. apply andb_prop in E as [_ E]. apply N.leb_le in E.
    exfalso. destruct l as [|[k1 f1] l].
    + rewrite (Hid k0 f0) in E by left. unfold u32_add in E. rewrite N.mod_small in E by done. lia.
    + rewrite (Hid k1 f1) in E by (right; left). specialize (Hall (k1, f1) ltac:(left)). unfold key_lt in Hall. cbn in Hall.
      specialize (Hmax k1 f1 ltac:(right; left)). lia.
  - pose proof (Hall _ Hin) as Hk. unfold key_lt in Hk. cbn [fst] in Hk. case_match; [|intros Hmk; by apply Hrest].
    intros [->|Hmk]%elem_of_cons; [lia|by apply Hrest].
Qed.

Lemma marked_nodup l front : StronglySorted key_lt l → NoDup (marked_entries l front).
Proof.
  induction 1 as [|[k f] l Hs IH Hall]; cbn [marked_entries]; [constructor|]. case_match; [|done]. constructor; [|done].
  intros (f1 & Hin)%marked_keys. rewrite list.Forall_forall in Hall. specialize (Hall _ Hin). unfold key_lt in Hall. cbn in Hall. lia.
Qed.

(** Removing the files of a slice. *)
Lemma remove_files_lookup seq_nos disk n :
  n ∉ seq_nos → snd (remove_files seq_nos disk) !! n = disk !! n.
Proof.
  revert disk. induction seq_nos as [|x seq_nos IH]; intros disk Hn; [done|]. apply not_elem_of_cons in Hn as [Hx Hn]. cbn [remove_files].
  destruct (disk !! x); [|done]. rewrite IH by done. by rewrite lookup_delete_ne.
Qed.

Lemma remove_files_sub seq_nos disk : snd (remove_files seq_nos disk) ⊆ disk.
Proof.
  revert disk. induction seq_nos as [|x seq_nos IH]; intros disk; [done|]. cbn [remove_files]. destruct (disk !! x); [|done].
  etrans; [apply IH|apply delete_subseteq].
Qed.

(** What is left after some slices were collected. *)
Definition kept_slice (disk : gmap N (list N)) fd : FileDescription := with_slice fd (on_disk_of disk (fd_archive_slice fd)).

Record collected (keys : list N) (ty : PackageType) bound fm fm' : Prop := {
  co_ok : map_ok ty bound fm';
  co_elements k fd' : (k, fd') ∈ fm_elements fm' ↔ k ∉ keys ∧ ∃ fd, (k, fd) ∈ fm_elements fm ∧ fd' = kept_slice (fm_disk fm') fd;
  co_storage : fm_storage fm' = fm_storage fm;
}.

Lemma delete_elements l i k fd :
  StronglySorted key_lt l → l !! i = Some (k, fd) →
  StronglySorted key_lt (delete i l) ∧ ∀ k0 f0, (k0, f0) ∈ delete i l ↔ k0 ≠ k ∧ (k0, f0) ∈ l.
Proof.
  intros Hs Hi. split.
  - rewrite <- (take_drop_middle _ _ _ Hi) in Hs. rewrite delete_take_drop. apply StronglySorted_app in Hs as (H1 & H2 & H3).
    apply StronglySorted_inv in H3 as [H3 _]. apply StronglySorted_app. split_and!; try done. intros x y Hx Hy. apply H1; [done|by right].
  - intros k0 f0. rewrite !list_elem_of_lookup. split.
    + intros [j Hj]. destruct (Nat.lt_ge_cases j i) as [Hlt|Hge].
      * rewrite list_lookup_delete_lt in Hj by done. split; [|by eexists]. intros ->.
        pose proof (sorted_lookup l j i _ _ Hs Hlt Hj Hi). cbn in *. lia.
      * rewrite list_lookup_delete_ge in Hj by done. split; [|by eexists]. intros ->.
        pose proof (sorted_lookup l i (S j) _ _ Hs ltac:(lia) Hi Hj). cbn in *. lia.
    + intros [Hne [j Hj]]. destruct (Nat.lt_trichotomy j i) as [Hlt|[->|Hgt]]; [|congruence|].
      * exists j. by rewrite list_lookup_delete_lt.
      * exists (pred j). rewrite list_lookup_delete_ge by lia. by replace (S (pred j)) with j by lia.
Qed.

Lemma kept_slice_again disk disk' fd : kept_slice disk (kept_slice disk' fd) = kept_slice disk fd.
Proof. done. Qed.

(** The slices that stay have their files on the smaller disk. *)
Lemma map_ok_without ty bound fm disk dbs elements :
  map_ok ty bound fm → disk ⊆ fm_disk fm → dbs ⊆ fm_dbs fm → StronglySorted key_lt elements →
  (∀ k fd', (k, fd') ∈ elements → ∃ fd, (k, fd) ∈ fm_elements fm ∧ fd' = kept_slice disk fd ∧
     ∀ i pi, as_packages (fd_archive_slice fd) !! i = Some pi → disk !! pi_seq_no pi = fm_disk fm !! pi_seq_no pi) →
  map_ok ty bound {| fm_storage := fm_storage fm; fm_elements := elements; fm_disk := disk; fm_dbs := dbs |}.
Proof.
  intros Hok Hd Hb Hs He. assert (Hdisk : disk_ok disk).
  { intros n f Hf. apply (mo_disk _ _ _ Hok n f). by eapply lookup_weaken. }
  split; cbn [fm_elements fm_disk fm_dbs]; [done|done|..].
  - intros k fd' (fd & Hin & -> & _)%He. destruct (mo_slice _ _ _ Hok k fd Hin) as (Hsl & Hid & Hdel & _).
    split_and!; try done. destruct Hsl. split; try done. by apply on_disk_of_ok.
  - intros k fd' i pi (fd & Hin & -> & Hsame)%He Hi. destruct (mo_files _ _ _ Hok k fd i pi Hin Hi) as [Hf Hr]. by rewrite (Hsame i pi Hi).
  - intros k1 f1 k2 f2 i pi (fd1 & Hin1 & -> & _)%He (fd2 & Hin2 & -> & _)%He Hlt Hi. by apply (mo_range _ _ _ Hok k1 fd1 k2 fd2 i).
  - intros k Hk. destruct (mo_fresh _ _ _ Hok k Hk) as [H1 H2]. split; (eapply lookup_weaken_None; [eassumption|done]).
Qed.

(** What the collection of the slice [k] leaves on disk. *)
Definition left_disk (shared : N → bool) fm k fd : gmap N (list N) :=
  if shared k then fm_disk fm else snd (remove_files (pi_seq_no <$> as_packages (fd_archive_slice fd)) (fm_disk fm)).

Lemma left_disk_same shared ty bound fm k fd k1 f1 j pj :
  map_ok ty bound fm → (k, fd) ∈ fm_elements fm → (k1, f1) ∈ fm_elements fm → k1 ≠ k → as_packages (fd_archive_slice f1) !! j = Some pj →
  left_disk shared fm k fd !! pi_seq_no pj = fm_disk fm !! pi_seq_no pj.
Proof.
  intros Hok Hi H1 Hne Hj. unfold left_disk. destruct (shared k); [done|]. apply remove_files_lookup.
  intros (pi & Heq & [i' Hi']%list_elem_of_lookup)%list_elem_of_fmap.
  destruct (mo_files _ _ _ Hok k1 f1 j pj H1 Hj) as [_ Hr1]. destruct (mo_files _ _ _ Hok k fd i' pi Hi Hi') as [_ Hr0].
  destruct (N.lt_ge_cases k k1) as [Hlt|Hge].
  - pose proof (mo_range _ _ _ Hok k fd k1 f1 i' pi Hi H1 Hlt Hi'). lia.
  - pose proof (mo_range _ _ _ Hok k1 f1 k fd j pj H1 Hi ltac:(lia) Hj). lia.
Qed.

(** Bringing the slices up to date with the disk only changes the disk they see. *)
Lemma sync_kept (disk : gmap N (list N)) (l : list (N * FileDescription)) :
  (∀ k fd i pi, (k, fd) ∈ l → as_packages (fd_archive_slice fd) !! i = Some pi → disk !! pi_seq_no pi = Some (pkg_file (pi_package pi))) →
  sync_entry disk <$> l = (λ e, (fst e, kept_slice disk (snd e))) <$> l.
Proof.
  intros Hf. apply list_fmap_ext. intros i [k fd] Hi%list_elem_of_lookup_2. unfold sync_entry, kept_slice. cbn [fst snd]. do 2 f_equal.
  apply sync_same. intros j pi Hj. by apply (Hf k fd j).
Qed.

Lemma kept_same ty bound fm (l : list (N * FileDescription)) :
  map_ok ty bound fm → (∀ e, e ∈ l → e ∈ fm_elements fm) → (λ e, (fst e, kept_slice (fm_disk fm) (snd e))) <$> l = l.
Proof.
  intros Hok Hl. rewrite <- (list_fmap_id l) at 2. apply list_fmap_ext. intros i [k fd] Hi%list_elem_of_lookup_2%Hl. cbn [fst snd].
  destruct (mo_slice _ _ _ Hok k fd Hi) as (_ & _ & _ & Hd). unfold kept_slice, with_slice, on_disk_of. rewrite <- Hd. by destruct fd as [? ? []].
Qed.

Lemma collect_result shared ty bound fm k fd i :
  map_ok ty bound fm → fm_elements fm !! i = Some (k, fd) →
  let disk := left_disk shared fm k fd in let rest := delete i (fm_elements fm) in
  ∃ dbs, dbs ⊆ fm_dbs fm ∧ (if shared k then set_elements fm rest else destroy (set_elements fm rest) k fd) =
    {| fm_storage := fm_storage fm; fm_elements := (λ e, (fst e, kept_slice disk (snd e))) <$> rest; fm_disk := disk; fm_dbs := dbs |}.
Proof.
  intros Hok Hi disk rest. destruct (delete_elements _ i k fd (mo_sorted _ _ _ Hok) Hi) as [_ Hel]. apply list_elem_of_lookup_2 in Hi.
  assert (Hsync : sync_entry disk <$> rest = (λ e, (fst e, kept_slice disk (snd e))) <$> rest).
  { apply sync_kept. intros k1 f1 j pj [Hne H1]%Hel Hj. unfold disk. rewrite (left_disk_same shared ty bound fm k fd k1 f1 j pj) by done.
    by apply (mo_files _ _ _ Hok k1 f1 j). }
  revert Hsync. unfold disk, left_disk. destruct (shared k) eqn:Es; intros Hsync.
  - exists (fm_dbs fm). split; [done|]. rewrite (kept_same ty bound fm rest); [done|done|]. intros [k1 f1] [_ H1]%Hel. done.
  - unfold destroy. cbn [set_elements fm_disk fm_storage fm_elements fm_dbs].
    destruct (remove_files _ (fm_disk fm)) as [[]  disk'] eqn:Er; cbn [snd] in *; rewrite Hsync; eexists; (split; [|reflexivity]); [apply delete_subseteq|done].
Qed.

Lemma collect_one_ok shared ty bound fm k fd :
  map_ok ty bound fm → (k, fd) ∈ fm_elements fm → ∃ fm', collect_one shared fm k = Some fm' ∧ collected [k] ty bound fm fm'.
Proof.
  intros Hok Hin. unfold collect_one.
  destruct (list_find (λ item, fst item = k) (fm_elements fm)) as [[i [k0 f0]]|] eqn:Ef.
  2: { apply list_find_None in Ef. rewrite list.Forall_forall in Ef. by destruct (Ef _ Hin). }
  apply list_find_Some in Ef as (Hi & Hk & _). cbn in Hk. subst k0. pose proof (mo_sorted _ _ _ Hok) as Hsort.
  destruct (delete_elements _ i k f0 Hsort Hi) as [Hs Hel]. destruct (collect_result shared ty bound fm k f0 i Hok Hi) as (dbs & Hdbs & Hres).
  apply list_elem_of_lookup_2 in Hi. cbn [mbind option_bind snd]. cbv zeta in Hres. rewrite Hres. eexists. split; [reflexivity|].
  set (disk := left_disk shared fm k f0) in *.
  assert (Helem : ∀ k1 f1, (k1, f1) ∈ (λ e, (fst e, kept_slice disk (snd e))) <$> delete i (fm_elements fm) ↔
    k1 ≠ k ∧ ∃ f, (k1, f) ∈ fm_elements fm ∧ f1 = kept_slice disk f).
  { intros k1 f1. rewrite list_elem_of_fmap. split.
    - intros ([k2 f2] & [= -> ->] & [Hne H2]%Hel). eauto.
    - intros (Hne & f & Hf & ->). exists (k1, f). split; [done|]. by apply Hel. }
  split; cbn [fm_elements fm_disk fm_storage]; [|intros k1 f1; rewrite Helem, list_elem_of_singleton; done|done].
  apply map_ok_without; try done.
  - unfold disk, left_disk. destruct (shared k); [done|apply remove_files_sub].
  - by apply fmap_sorted.
  - intros k1 f1 (Hne & f & Hf & ->)%Helem. exists f. split_and!; [done|done|]. intros j pj Hj. by eapply left_disk_same.
Qed.

Lemma collect_all_ok shared ty bound fm keys :
  map_ok ty bound fm → NoDup keys → (∀ k, k ∈ keys → ∃ fd, (k, fd) ∈ fm_elements fm) →
  ∃ fm', collect_all shared fm keys = (Some (), fm') ∧ collected keys ty bound fm fm'.
Proof.
  revert fm. induction keys as [|k keys IH]; intros fm Hok Hnd Hkeys; cbn [collect_all].
  - exists fm. split; [done|]. split; [done| |done]. intros k fd'. split.
    + intros Hin. split; [apply not_elem_of_nil|]. exists fd'. split; [done|].
      destruct (mo_slice _ _ _ Hok k fd' Hin) as (_ & _ & _ & Hd). unfold kept_slice, with_slice, on_disk_of. rewrite <- Hd. by destruct fd' as [? ? []].
    + intros (_ & fd & Hin & ->). destruct (mo_slice _ _ _ Hok k fd Hin) as (_ & _ & _ & Hd).
      unfold kept_slice, with_slice, on_disk_of. rewrite <- Hd. by destruct fd as [? ? []].
  - apply list.NoDup_cons in Hnd as [Hk Hnd]. destruct (Hkeys k ltac:(left)) as [fd Hin].
    destruct (collect_one_ok shared ty bound fm k fd Hok Hin) as (fm1 & -> & [Hok1 He1 Hs1]).
    destruct (IH fm1 Hok1 Hnd) as (fm' & Hrun & [Hok' He' Hs']).
    { intros k1 Hk1. destruct (Hkeys k1 ltac:(by right)) as [f1 H1]. exists (kept_slice (fm_disk fm1) f1). apply He1.
      split; [|by exists f1]. intros ->%list_elem_of_singleton. done. }
    exists fm'. split; [done|]. split; [done| |congruence]. intros k1 f'. rewrite He', not_elem_of_cons. split.
    + intros (Hn & f1 & (Hne & f0 & H0 & ->)%He1 & ->). rewrite list_elem_of_singleton in Hne. split; [done|]. by exists f0.
    + intros ([Hne Hn] & f0 & H0 & ->). split; [done|]. exists (kept_slice (fm_disk fm1) f0). split; [|done].
      apply He1. rewrite list_elem_of_singleton. split; [done|]. by exists f0.
Qed.

Lemma gc_runs shared ty bound fm front :
  map_ok ty bound fm →
  ∃ fm', FileMap_gc shared fm front = (Some (), fm') ∧ collected (reverse (get_marked_entries fm front)) ty bound fm fm'.
Proof.
  intros Hok. apply collect_all_ok; [done| |].
  - rewrite reverse_Permutation. apply marked_nodup, Hok.
  - intros k Hk. rewrite elem_of_reverse in Hk. exact (marked_keys _ front k Hk).
Qed.

(** The slice of a number from the front on stays. *)
Lemma gc_closest bound fm fm' front m k fd :
  map_ok Blocks bound fm → collected (reverse (get_marked_entries fm front)) Blocks bound fm fm' →
  closest (fm_elements fm) m k fd → front <= m → aligned m <= k → k + ARCHIVE_SLICE_SIZE < two32 →
  closest (fm_elements fm') m k (kept_slice (fm_disk fm') fd).
Proof.
  intros Hok [_ He _] Hc Hf Ha H32. pose proof Hc as (Hin & Hle & Hmax). split_and!; [|done|].
  - apply He. split; [|by exists fd]. rewrite elem_of_reverse. apply (marked_closest _ front m k fd); try done.
    + apply Hok.
    + intros k0 f0 H0. destruct (mo_slice _ _ _ Hok k0 f0 H0) as (Hs & _). apply (sa_id _ _ _ Hs).
    + unfold aligned in Ha. pose proof (N.mod_upper_bound m ARCHIVE_SLICE_SIZE ltac:(done)) as Hmod.
      revert Ha Hmod. generalize (m mod ARCHIVE_SLICE_SIZE). intros r Ha Hmod. lia.
  - intros k' f' (_ & f0 & H0 & ->)%He. by apply (Hmax k' f0).
Qed.

Section gc.
Context {SI : ShardIdents} {F : EntryFormats} {K : OffsetKeys}.

Lemma gc_files shared first bound fm front :
  files_ok first bound fm → bound + ARCHIVE_SLICE_SIZE <= two32 →
  ∃ fm', FileMap_gc shared fm front = (Some (), fm') ∧ files_ok (N.max first front) bound fm' ∧
    collected (reverse (get_marked_entries fm front)) Blocks bound fm fm' ∧
    ∀ m e data, N.max first front <= m → m < bound → found fm m e data → found fm' m e data.
Proof.
  intros [Hok Hcov] H32. destruct (gc_runs shared Blocks bound fm front Hok) as (fm' & Hrun & Hco). exists fm'.
  assert (Hkeep : ∀ m, N.max first front <= m → m < bound → ∃ k fd, closest (fm_elements fm) m k fd ∧
    closest (fm_elements fm') m k (kept_slice (fm_disk fm') fd) ∧ aligned m <= k ∧ is_Some (position (fd_archive_slice fd) m)).
  { intros m Hm Hb. destruct (Hcov m ltac:(lia) Hb) as (k & fd & Hc & Ha & Hp). exists k, fd. split_and!; try done.
    pose proof Hc as (Hin & Hkm & _). eapply gc_closest; try done; lia. }
  split_and!; [done| |done|].
  - split; [apply Hco|]. intros m Hm Hb. destruct (Hkeep m Hm Hb) as (k & fd & _ & Hc & Ha & Hp). by exists k, (kept_slice (fm_disk fm') fd).
  - intros m e data Hm Hb (k & fd & Hc & Hget). destruct (Hkeep m Hm Hb) as (k' & fd' & Hc1 & Hc' & _).
    destruct (closest_unique _ _ _ _ _ _ (mo_sorted _ _ _ Hok) Hc Hc1) as [<- <-]. exists k, (kept_slice (fm_disk fm') fd).
    split; [done|]. destruct Hc as (Hin & _). destruct (mo_slice _ _ _ Hok k fd Hin) as (Hs & _).
    apply get_file_on_disk; [apply Hs|apply (mo_disk _ _ _ (co_ok _ _ _ _ _ Hco))|done].
Qed.
End gc.
