(* ===== verification/InternalDb.v ===== *)
(** * The internal database: block data, proofs and links

    Models the parts of [src/internal_db/mod.rs] that keep block files: creating
    and loading handles, storing and loading block data and proofs, archiving, and
    the links to previous and next blocks.  Handles are shared objects that exist
    once per block; [db_handles] is what loading a handle gives, and the storage of
    handles implements it.  The information read from a block and the format of
    links are parameters of other crates.  An operation is one step under the file
    lock of the handle. *)

From S2P Require Import Prelude BlockId BlockMeta Package ArchiveSlice ArchiveFacts EntryId FileMaps ArchiveManager ArchiveRun.

(** What [Block::read_info] gives. *)
Record BlockInfo := { bi_key_block : bool; bi_gen_utime : N; bi_start_lt : N }.

Definition BlockMeta_from_block (info : BlockInfo) : BlockMeta :=
  BlockMeta_with_data (if bi_key_block info then FLAG_KEY_BLOCK else 0) (bi_gen_utime info) (bi_start_lt info) 0.

Inductive DataStatus := Created | Fetched | Updated.

Class LinkFormat `{ShardIdents} := {
  link_serialize : BlockIdExt → list N;
  link_deserialize : list N → option BlockIdExt;
  link_roundtrip id : link_deserialize (link_serialize id) = Some id;
}.

Inductive LinkKind := Prev1 | Prev2 | Next1 | Next2.

Definition link_flag (kind : LinkKind) : N :=
  match kind with Prev1 => FLAG_PREV_1 | Prev2 => FLAG_PREV_2 | Next1 => FLAG_NEXT_1 | Next2 => FLAG_NEXT_2 end.

Section db.
Context {SI : ShardIdents} {F : EntryFormats} {K : OffsetKeys} {L : LinkFormat}.
Implicit Types (id : BlockIdExt) (handle : BlockHandle) (data : list N).

Record InternalDb := {
  db_handles : gmap BlockIdExt BlockMeta;
  db_archive : ArchiveManager;
  prev_block_db : gmap BlockIdExt (list N);
  prev2_block_db : gmap BlockIdExt (list N);
  next_block_db : gmap BlockIdExt (list N);
  next2_block_db : gmap BlockIdExt (list N);
}.
Implicit Types (db : InternalDb).

Record BlockResult := { br_handle : BlockHandle; br_status : DataStatus }.

Definition as_non_updated (self : BlockResult) : option BlockHandle :=
  match br_status self with Updated => None | _ => Some (br_handle self) end.

(** ** Handles *)
Definition with_handles db (handles : gmap BlockIdExt BlockMeta) : InternalDb :=
  {| db_handles := handles; db_archive := db_archive db; prev_block_db := prev_block_db db; prev2_block_db := prev2_block_db db;
     next_block_db := next_block_db db; next2_block_db := next2_block_db db |}.
Definition with_archive db (am : ArchiveManager) : InternalDb :=
  {| db_handles := db_handles db; db_archive := am; prev_block_db := prev_block_db db; prev2_block_db := prev2_block_db db;
     next_block_db := next_block_db db; next2_block_db := next2_block_db db |}.

(** The flags of a handle changed. *)
Definition put_handle db handle : InternalDb := with_handles db (<[bh_id handle := bh_meta handle]> (db_handles db)).

Definition load_block_handle db id : option BlockHandle :=
  match db_handles db !! id with Some meta => Some {| bh_id := id; bh_meta := meta |} | None => None end.

Definition create_or_load_block_handle db id (block : option BlockInfo) (utime : option N) : option BlockResult * InternalDb :=
  match load_block_handle db id with
  | Some handle => (Some {| br_handle := handle; br_status := Fetched |}, db)
  | None =>
      let meta :=
        match block with
        | Some info => Some (BlockMeta_from_block info)
        | None => if seq_no id =? 0 then match utime with Some utime => Some (BlockMeta_with_data 0 utime 0 0) | None => None end else None
        end in
      match meta with
      | None => (None, db)
      | Some meta =>
          let handle := {| bh_id := id; bh_meta := meta |} in
          (Some {| br_handle := handle; br_status := Created |}, put_handle db handle)
      end
  end.

(** ** Block data and proofs *)

(** The file is added and the flag set, unless both are there. *)
Definition store_file db (result : BlockResult) handle (flag : N) (entry_id : PackageEntryId) data : option BlockResult * InternalDb :=
  if is_flag_set (bh_meta handle) flag && check_file (db_archive db) handle entry_id then (Some result, db) else
  match manager_add_file (db_archive db) entry_id data with
  | (None, _) => (None, db)
  | (Some _, am) =>
      let '(changed, handle) := handle_set_flag handle flag in
      let db := put_handle (with_archive db am) handle in
      (Some (if changed then {| br_handle := handle; br_status := Updated |} else result), db)
  end.

Definition store_block_data db id (block : BlockInfo) data : option BlockResult * InternalDb :=
  match create_or_load_block_handle db id (Some block) None with
  | (None, db) => (None, db)
  | (Some result, db) =>
      match as_non_updated result with
      | None => (None, db)
      | Some handle => store_file db result handle FLAG_DATA (EntryBlock id) data
      end
  end.

(** [proof_id], [is_link], [virt_block] and [data] are those of the proof. *)
Definition store_block_proof db id (handle : option BlockHandle) (proof_id : BlockIdExt) (is_link : bool) (virt_block : option BlockInfo) data
  : option BlockResult * InternalDb :=
  if match handle with Some h => negb (bool_decide (bh_id h = id)) | None => false end then (None, db) else
  if negb (bool_decide (id = proof_id)) then (None, db) else
  let '(result, db) :=
    match handle with
    | Some h => (Some {| br_handle := h; br_status := Fetched |}, db)
    | None => match virt_block with
              | None => (None, db)
              | Some info => create_or_load_block_handle db id (Some info) None
              end
    end in
  match result with
  | None => (None, db)
  | Some result =>
      match as_non_updated result with
      | None => (None, db)
      | Some handle =>
          if is_link then store_file db result handle FLAG_PROOF_LINK (EntryProofLink id) data
          else store_file db result handle FLAG_PROOF (EntryProof id) data
      end
  end.

Definition load_block_data_raw db handle : outcome (option (list N)) :=
  if negb (has_data handle) then Done None else manager_get_file (db_archive db) handle (EntryBlock (bh_id handle)).

Definition load_block_proof_raw db handle (is_link : bool) : outcome (option (list N)) :=
  let '(entry_id, inited) := if is_link then (EntryProofLink (bh_id handle), has_proof_link handle)
                             else (EntryProof (bh_id handle), has_proof handle) in
  if negb inited then Done None else manager_get_file (db_archive db) handle entry_id.

(** ** Applied and archived blocks *)
Definition assign_mc_ref_seq_no db handle (mc_seq_no : N) : option unit * InternalDb :=
  let '(res, handle) := BlockHandle_set_masterchain_ref_seq_no handle mc_seq_no in
  (match res with Some _ => Some () | None => None end, put_handle db handle).

Definition store_block_applied db handle : bool * InternalDb :=
  let '(changed, handle) := handle_set_flag handle FLAG_APPLIED in (changed, put_handle db handle).

(** A failure to move the block is only logged. *)
Definition archive_block db id : outcome (option unit * InternalDb) :=
  match load_block_handle db id with
  | None => Done (None, db)
  | Some handle =>
      if is_archived handle then Done (Some (), db) else
      '(moved, (handle, x, am)) ← move_to_archive (λ handle (_ : unit), let '(_, handle) := set_archived handle in (Some (), (handle, ())))
                                    (db_archive db) handle ();
      Done (Some (), put_handle (with_archive db am) handle)
  end.

(** ** Links *)
Definition link_db db (kind : LinkKind) : gmap BlockIdExt (list N) :=
  match kind with Prev1 => prev_block_db db | Prev2 => prev2_block_db db | Next1 => next_block_db db | Next2 => next2_block_db db end.

Definition with_link_db db (kind : LinkKind) (links : gmap BlockIdExt (list N)) : InternalDb :=
  {| db_handles := db_handles db; db_archive := db_archive db;
     prev_block_db := match kind with Prev1 => links | _ => prev_block_db db end;
     prev2_block_db := match kind with Prev2 => links | _ => prev2_block_db db end;
     next_block_db := match kind with Next1 => links | _ => next_block_db db end;
     next2_block_db := match kind with Next2 => links | _ => next2_block_db db end |}.

(** The common body of the four operations that store a link. *)
Definition store_block_link (kind : LinkKind) db handle (link : BlockIdExt) : InternalDb :=
  if is_flag_set (bh_meta handle) (link_flag kind) then db else
  let db := with_link_db db kind (<[bh_id handle := link_serialize link]> (link_db db kind)) in
  let '(_, handle) := handle_set_flag handle (link_flag kind) in put_handle db handle.

(** The common body of the four operations that load one. *)
Definition load_block_link (kind : LinkKind) db id : option BlockIdExt :=
  bytes ← link_db db kind !! id; link_deserialize bytes.

Definition store_block_prev1 := store_block_link Prev1.
Definition load_block_prev1 := load_block_link Prev1.
Definition store_block_prev2 := store_block_link Prev2.
Definition load_block_prev2 := load_block_link Prev2.
Definition store_block_next1 := store_block_link Next1.
Definition load_block_next1 := load_block_link Next1.
Definition store_block_next2 := store_block_link Next2.
Definition load_block_next2 := load_block_link Next2.
End db.

(** ** The internal database: block files from storing to the archive

    The life of the files of a block: data and proofs are stored when they arrive,
    wait as files, and move to the archive when the block is applied; handles may
    be dropped and loaded again at any time.  The abstract state is the map of the
    files that were stored; the database implements it. *)

(** ** Names are valid entry names *)
Definition is_ascii (l : list N) : Prop := Forall (λ c, c < 128) l.

Lemma ascii_utf8 l : is_ascii l → is_utf8 l = true ∧ Forall byte_ok l.
Proof.
  induction 1 as [|c l Hc _ [IH1 IH2]]; [done|]. cbn [is_utf8]. rewrite (proj2 (N.ltb_lt _ _)) by done. split; [done|].
  constructor; [unfold byte_ok; lia|done].
Qed.

Lemma ascii_class (p : N → bool) l : (∀ c, p c = true → c < 128) → forallb p l = true → is_ascii l.
Proof.
  intros Hp. induction l as [|c l IH]; cbn [forallb]; [by constructor|]. intros [Hc Hl]%andb_true_iff. constructor; [by apply Hp|by apply IH].
Qed.

Lemma is_digit_ascii c : is_digit c = true → c < 128.
Proof. unfold is_digit. intros H. breflect. lia. Qed.

Lemma hex_ascii c : is_lower_hex c = true ∨ is_upper_hex c = true → c < 128.
Proof.
  unfold is_lower_hex, is_upper_hex. rewrite !orb_true_iff. intros [[H|H]|[H|H]]; try by apply is_digit_ascii. all: breflect; lia.
Qed.

Lemma dec_digits_length fuel x acc : (length (dec_digits fuel x acc) <= fuel + length acc)%nat.
Proof.
  revert x acc. induction fuel as [|fuel IH]; intros x acc; cbn [dec_digits]; [lia|]. case_match; [simpl; lia|].
  etrans; [apply IH|]. simpl. lia.
Qed.

Lemma format_dec_short x : x < two32 → (length (format_dec x) <= 33)%nat ∧ is_ascii (format_dec x).
Proof.
  intros Hx. split; [|eapply ascii_class; [apply is_digit_ascii|apply format_dec_digits]].
  unfold format_dec. etrans; [apply dec_digits_length|]. simpl. destruct (decide (x = 0)) as [->|Hz]; [simpl; lia|].
  rewrite N.size_log2 by done. assert (N.log2 x < 32) by (apply N.log2_lt_pow2; [lia|done]). lia.
Qed.

Section names.
Context {SI : ShardIdents} {F : EntryFormats}.

Lemma block_filename_ok id :
  block_id_ok id → (length (BlockIdExt_filename id) <= 300)%nat ∧ is_ascii (BlockIdExt_filename id).
Proof.
  intros [Hs Hr Hf]. destruct (format_dec_short (seq_no id) Hs) as [Hl1 Ha1].
  destruct (format_016x_ok _ (shard_prefix_range (shard_id id))) as (_ & Hl2 & Hc2).
  assert (Hwc : (length (format_i32 (workchain_id (shard_id id))) <= 34)%nat ∧ is_ascii (format_i32 (workchain_id (shard_id id)))).
  { pose proof (workchain_id_range (shard_id id)) as Hr'. unfold format_i32. destruct (Z.ltb_spec (workchain_id (shard_id id)) 0).
    - destruct (format_dec_short (Z.to_N (- workchain_id (shard_id id)))) as [Hl Ha]; [unfold two32; lia|]. split; [simpl; lia|by constructor].
    - destruct (format_dec_short (Z.to_N (workchain_id (shard_id id)))) as [Hl Ha]; [unfold two32; lia|]. split; [lia|done]. }
  destruct Hwc as [Hl3 Ha3]. unfold BlockIdExt_filename. split.
  - rewrite !length_app, !upper_hex_length, Hl2 by done. simpl. lia.
  - assert (Hhex : ∀ h, is_ascii (upper_hex h)) by (intros h; eapply ascii_class; [|apply upper_hex_chars]; intros c Hc; apply hex_ascii; auto).
    assert (is_ascii (format_016x (shard_prefix_with_tag (shard_id id)))) by (eapply ascii_class; [|exact Hc2]; intros c Hc; apply hex_ascii; auto).
    unfold is_ascii in *. repeat (apply Forall_app_2; [try done; repeat constructor|]). done.
Qed.
End names.

(** ** The files of a block *)
Inductive FileKind := KData | KProof | KProofLink.
#[global] Instance FileKind_eq_dec : EqDecision FileKind.
Proof. solve_decision. Defined.
#[global] Instance FileKind_countable : Countable FileKind.
Proof.
  refine (inj_countable (λ k, match k with KData => 0 | KProof => 1 | KProofLink => 2 end)
    (λ n, match n with 0 => Some KData | 1 => Some KProof | 2 => Some KProofLink | _ => None end) _). by intros [].
Defined.

Definition kind_flag (kind : FileKind) : N :=
  match kind with KData => FLAG_DATA | KProof => FLAG_PROOF | KProofLink => FLAG_PROOF_LINK end.

Section files.
Context {SI : ShardIdents} {F : EntryFormats} {K : OffsetKeys} {L : LinkFormat}.
Implicit Types (id : BlockIdExt) (handle : BlockHandle) (data : list N) (db : InternalDb) (kind : FileKind).

Definition kind_entry kind id : PackageEntryId :=
  match kind with KData => EntryBlock id | KProof => EntryProof id | KProofLink => EntryProofLink id end.

Lemma kind_entry_ok kind id data :
  block_id_ok id → N.of_nat (length data) <= u32_max → Forall byte_ok data → entry_ok (archive_entry (kind_entry kind id) data).
Proof.
  intros Hid Hd Hb. destruct (block_filename_ok id Hid) as [Hl Ha].
  assert (Hname : ∃ prefix, filename (kind_entry kind id) = prefix ++ [95] ++ BlockIdExt_filename id ∧ (length prefix <= 9)%nat ∧ is_ascii prefix).
  { destruct kind; (eexists; split; [reflexivity|]; split; [simpl; lia|repeat constructor]). }
  destruct Hname as (prefix & Hn & Hp & Hpa). unfold archive_entry. rewrite Hn.
  assert (Hall : is_ascii (prefix ++ [95] ++ BlockIdExt_filename id)) by (apply Forall_app_2; [exact Hpa|]; constructor; [done|exact Ha]).
  destruct (ascii_utf8 _ Hall) as [Hu Hby]. split; cbn [file_entry entry_filename entry_data]; try done.
  - rewrite !length_app. cbn [length]. lia.
  - by apply Forall_app_2.
Qed.

(** ** Steps *)
Record RunState := {
  rs_db : InternalDb;
  rs_first : N;
  rs_bound : N;
  rs_stored : gmap (FileKind * BlockIdExt) (list N);
}.
Implicit Types (st : RunState).

Definition store_block_file kind db id (info : BlockInfo) data : option BlockResult * InternalDb :=
  match kind with
  | KData => store_block_data db id info data
  | KProof => store_block_proof db id None id false (Some info) data
  | KProofLink => store_block_proof db id None id true (Some info) data
  end.

Definition load_file kind db handle : outcome (option (list N)) :=
  match kind with
  | KData => load_block_data_raw db handle
  | KProof => load_block_proof_raw db handle false
  | KProofLink => load_block_proof_raw db handle true
  end.

(** The handle says that the file is there. *)
Definition flagged db kind id : Prop := ∃ meta, db_handles db !! id = Some meta ∧ is_flag_set meta (kind_flag kind) = true.

(** The names of different files are different, and nothing new is stored for a block
    after it was archived. *)
Record storable st kind id data : Prop := {
  sb_id : block_id_ok id;
  sb_size : N.of_nat (length data) <= u32_max;
  sb_bytes : Forall byte_ok data;
  sb_names kind' id' : flagged (rs_db st) kind' id' → (kind', id') ≠ (kind, id) →
    filename_short (kind_entry kind' id') ≠ filename_short (kind_entry kind id) ∧
    offset_key (kind_entry kind' id') ≠ offset_key (kind_entry kind id);
  sb_archived handle : load_block_handle (rs_db st) id = Some handle → is_archived handle = true →
    is_Some (rs_stored st !! (kind, id));
}.

(** The next block of the masterchain, or a block that an archived masterchain
    block refers to. *)
Record archivable st handle : Prop := {
  ab_data : has_data handle = true;
  ab_open : is_archived handle = false;
  ab_order : may_archive (rs_first st) (rs_bound st) (am_files (db_archive (rs_db st))) (get_mc_seq_no handle) (is_key_block handle);
  ab_seq_no : get_mc_seq_no handle < two32;
  ab_room : manager_room (db_archive (rs_db st)) (2 * entry_max);
}.

(** What archiving makes of the files: of a block with a proof and a proof link only the
    proof is moved, the link is lost. *)
Definition archived_files (stored : gmap (FileKind * BlockIdExt) (list N)) id : gmap (FileKind * BlockIdExt) (list N) :=
  match stored !! (KProof, id) with Some _ => delete (KProofLink, id) stored | None => stored end.

Definition with_db st db : RunState :=
  {| rs_db := db; rs_first := rs_first st; rs_bound := rs_bound st; rs_stored := rs_stored st |}.

Inductive db_step : RunState → RunState → Prop :=
| step_store st kind id info data r db' :
    storable st kind id data → store_block_file kind (rs_db st) id info data = (Some r, db') →
    db_step st {| rs_db := db'; rs_first := rs_first st; rs_bound := rs_bound st;
                  rs_stored := match rs_stored st !! (kind, id) with
                               | Some _ => rs_stored st
                               | None => <[(kind, id) := data]> (rs_stored st)
                               end |}
| step_assign st id handle mc_seq_no db' :
    load_block_handle (rs_db st) id = Some handle → is_archived handle = false → mc_seq_no < two32 →
    assign_mc_ref_seq_no (rs_db st) handle mc_seq_no = (Some (), db') → db_step st (with_db st db')
| step_archive st id handle db' :
    load_block_handle (rs_db st) id = Some handle → archivable st handle →
    archive_block (rs_db st) id = Done (Some (), db') →
    db_step st {| rs_db := db'; rs_first := rs_first st; rs_bound := N.max (rs_bound st) (get_mc_seq_no handle + 1);
                  rs_stored := archived_files (rs_stored st) id |}
| step_reload st id meta meta' :
    db_handles (rs_db st) !! id = Some meta → meta_ok meta →
    BlockMeta_deserialize (BlockMeta_serialize meta) = Some (meta', []) →
    db_step st (with_db st (with_handles (rs_db st) (<[id := meta']> (db_handles (rs_db st))))).

Definition empty_file_map : FileMap := {| fm_storage := ∅; fm_elements := []; fm_disk := ∅; fm_dbs := ∅ |}.
Definition empty_manager : ArchiveManager := {| am_unapplied := ∅; am_files := empty_file_map; am_key_files := empty_file_map |}.
Definition empty_db : InternalDb :=
  {| db_handles := ∅; db_archive := empty_manager; prev_block_db := ∅; prev2_block_db := ∅; next_block_db := ∅; next2_block_db := ∅ |}.

Inductive db_reachable : RunState → Prop :=
| db_initial first : db_reachable {| rs_db := empty_db; rs_first := first; rs_bound := first; rs_stored := ∅ |}
| db_next st st' : db_reachable st → db_step st st' → db_reachable st'.

(** ** The invariant *)
Definition handle_of id (meta : BlockMeta) : BlockHandle := {| bh_id := id; bh_meta := meta |}.

Definition in_manager (am : ArchiveManager) (key : N) : Prop :=
  ∃ k fd, ((k, fd) ∈ fm_elements (am_files am) ∨ (k, fd) ∈ fm_elements (am_key_files am)) ∧
    is_Some (offsets_db (as_dbs (fd_archive_slice fd)) !! key).

(** The link that archiving lost: its flag is set. *)
Definition link_lost kind (meta : BlockMeta) : bool :=
  match kind with KProofLink => is_flag_set meta FLAG_PROOF && is_flag_set meta FLAG_MOVED_TO_ARCHIVE | _ => false end.

Record db_inv st : Prop := {
  iv_manager : manager_ok (rs_first st) (rs_bound st) (db_archive (rs_db st));
  iv_archiving id meta : db_handles (rs_db st) !! id = Some meta →
    is_flag_set meta FLAG_ARCHIVING = true → is_flag_set meta FLAG_MOVED_TO_ARCHIVE = true;
  iv_bound id meta : db_handles (rs_db st) !! id = Some meta → is_flag_set meta FLAG_MOVED_TO_ARCHIVE = true →
    get_mc_seq_no (handle_of id meta) < rs_bound st;
  iv_flags kind id : is_Some (rs_stored st !! (kind, id)) ↔
    ∃ meta, db_handles (rs_db st) !! id = Some meta ∧ is_flag_set meta (kind_flag kind) = true ∧ link_lost kind meta = false;
  iv_moved id meta : db_handles (rs_db st) !! id = Some meta → is_flag_set meta FLAG_MOVED_TO_ARCHIVE = true → is_Some (rs_stored st !! (KData, id));
  iv_data kind id data : rs_stored st !! (kind, id) = Some data →
    data ≠ [] ∧ entry_ok (archive_entry (kind_entry kind id) data);
  iv_files kind id data meta : rs_stored st !! (kind, id) = Some data → db_handles (rs_db st) !! id = Some meta →
    if is_flag_set meta FLAG_MOVED_TO_ARCHIVE then readable (db_archive (rs_db st)) (handle_of id meta) (kind_entry kind id) data
    else am_unapplied (db_archive (rs_db st)) !! filename_short (kind_entry kind id) = Some data;
  iv_keys key : in_manager (db_archive (rs_db st)) key → ∃ kind id meta, is_Some (rs_stored st !! (kind, id)) ∧
    db_handles (rs_db st) !! id = Some meta ∧ is_flag_set meta FLAG_MOVED_TO_ARCHIVE = true ∧ offset_key (kind_entry kind id) = key;
  iv_names kind id kind' id' : flagged (rs_db st) kind id → flagged (rs_db st) kind' id' → (kind, id) ≠ (kind', id') →
    filename_short (kind_entry kind id) ≠ filename_short (kind_entry kind' id') ∧
    offset_key (kind_entry kind id) ≠ offset_key (kind_entry kind' id');
}.

Lemma stored_flagged st kind id : db_inv st → is_Some (rs_stored st !! (kind, id)) → flagged (rs_db st) kind id.
Proof. intros HI (meta & Hm & Hf & _)%(iv_flags _ HI). by exists meta. Qed.

(** Stored files are loaded. *)
Lemma load_file_get kind db handle :
  is_flag_set (bh_meta handle) (kind_flag kind) = true → load_file kind db handle = manager_get_file (db_archive db) handle (kind_entry kind (bh_id handle)).
Proof. destruct kind; cbn [load_file kind_flag kind_entry]; unfold load_block_data_raw, load_block_proof_raw, has_data, has_proof, has_proof_link; by intros ->. Qed.

Lemma inv_load st kind id data :
  db_inv st → rs_stored st !! (kind, id) = Some data →
  ∃ handle, load_block_handle (rs_db st) id = Some handle ∧ load_file kind (rs_db st) handle = Done (Some data).
Proof.
  intros HI Hst. destruct (proj1 (iv_flags _ HI kind id)) as (meta & Hm & Hf & _); [eauto|]. exists (handle_of id meta).
  unfold load_block_handle. rewrite Hm. split; [done|]. rewrite load_file_get by done. cbn [handle_of bh_id].
  pose proof (iv_files _ HI kind id data meta Hst Hm) as Hav. destruct (iv_data _ HI kind id data Hst) as [Hne _].
  destruct (is_flag_set meta FLAG_MOVED_TO_ARCHIVE) eqn:Ea.
  - eapply readable_get; [apply (iv_manager _ HI)|done|done].
  - unfold manager_get_file, is_archived. cbn [handle_of bh_meta]. rewrite Ea.
    pose proof (read_temp_ok _ _ _ Hav Hne) as Hr. destruct kind; cbn [kind_entry] in *; by rewrite Hr.
Qed.

(** A file that is in no archive is not found, though the block is archived. *)
Lemma readable_misses am first bound handle e0 data e :
  manager_ok first bound am → is_archived handle = true → readable am handle e0 data → ¬ in_manager am (offset_key e) →
  manager_get_file am handle e = Done None.
Proof.
  intros [[Hf _] (kb & Hk & _)] Harch Hr Hn. unfold readable in Hr. unfold manager_get_file. rewrite Harch.
  assert (Hmiss : ∀ k fd, (k, fd) ∈ fm_elements (am_files am) ∨ (k, fd) ∈ fm_elements (am_key_files am) →
    offsets_db (as_dbs (fd_archive_slice fd)) !! offset_key e = None) .
  { intros k fd Hin. destruct (offsets_db (as_dbs (fd_archive_slice fd)) !! offset_key e) as [o|] eqn:E; [|reflexivity].
    exfalso. apply Hn. exists k, fd. split; [exact Hin|]. rewrite E. eexists. reflexivity. }
  destruct (is_key_block handle) eqn:Ekey.
  - destruct Hr as (fd & Hin & _). unfold get_package_id, PackageId_for_key_block.
    rewrite (get_file_desc_found am KeyBlocks kb _ fd false) by done. cbn [mbind outcome_bind]. unfold ArchiveSlice_get_file. rewrite (Hmiss _ fd (or_intror Hin)). reflexivity.
  - destruct Hr as (k & fd & Hc & _). unfold get_package_id. rewrite (proj2 (get_closest_spec _ _ fd (mo_sorted _ _ _ Hf))) by eauto. cbn [fmap option_fmap option_map].
    destruct Hc as (Hin & _). destruct (mo_slice _ _ _ Hf k fd Hin) as (_ & -> & _ & _).
    rewrite (get_file_desc_found am Blocks bound k fd false) by done. cbn [mbind outcome_bind]. unfold ArchiveSlice_get_file. rewrite (Hmiss k fd (or_introl Hin)). reflexivity.
Qed.
End files.
