(* ===== verification/DbSafety.v ===== *)
(** * The internal database: every step keeps the stored files *)

From S2P Require Import Prelude BlockId BlockMeta Package ArchiveSlice ArchiveFacts EntryId FileMaps ArchiveManager ArchiveRun InternalDb.

Section safety.
Context {SI : ShardIdents} {F : EntryFormats} {K : OffsetKeys} {L : LinkFormat}.
Implicit Types (id : BlockIdExt) (handle : BlockHandle) (data : list N) (db : InternalDb) (kind : FileKind) (st : RunState).

(** ** Flags *)
Lemma kind_flag_in kind : kind_flag kind ∈ all_flags.
Proof. unfold all_flags. destruct kind; cbn [kind_flag]; set_solver. Qed.

Lemma archiving_in : FLAG_ARCHIVING ∈ all_flags.
Proof. unfold all_flags. set_solver. Qed.
Lemma moved_in : FLAG_MOVED_TO_ARCHIVE ∈ all_flags.
Proof. unfold all_flags. set_solver. Qed.
Lemma key_block_in : FLAG_KEY_BLOCK ∈ all_flags.
Proof. unfold all_flags. set_solver. Qed.
#[local] Hint Resolve kind_flag_in archiving_in moved_in key_block_in : core.

Lemma set_flag_meta meta flag other :
  flag ∈ all_flags → other ∈ all_flags → let meta' := snd (set_flag meta flag) in
  is_flag_set meta' other = (other =? flag) || is_flag_set meta other.
Proof. apply set_flag_others. Qed.

Lemma set_flag_ref meta flag :
  flag ∈ all_flags → BlockMeta_masterchain_ref_seq_no (snd (set_flag meta flag)) = BlockMeta_masterchain_ref_seq_no meta.
Proof. intros Hf. apply set_flag_flags. by apply all_flags_bits. Qed.

(** The archive looks at the masterchain number and the key flag only. *)
Lemma get_mc_same id meta meta' :
  BlockMeta_masterchain_ref_seq_no meta' = BlockMeta_masterchain_ref_seq_no meta →
  get_mc_seq_no (handle_of id meta') = get_mc_seq_no (handle_of id meta).
Proof.
  intros Hr. unfold get_mc_seq_no, BlockHandle_masterchain_ref_seq_no. cbn [handle_of bh_id bh_meta]. by rewrite Hr.
Qed.

Lemma readable_same am id meta meta' e data :
  BlockMeta_masterchain_ref_seq_no meta' = BlockMeta_masterchain_ref_seq_no meta →
  is_flag_set meta' FLAG_KEY_BLOCK = is_flag_set meta FLAG_KEY_BLOCK →
  readable am (handle_of id meta) e data → readable am (handle_of id meta') e data.
Proof.
  intros Hr Hk. unfold readable, is_key_block. cbn [handle_of bh_meta]. rewrite Hk, (get_mc_same id meta meta' Hr). exact (λ H, H).
Qed.

Lemma from_block_flags info flag : flag ∈ all_flags → flag ≠ FLAG_KEY_BLOCK → is_flag_set (BlockMeta_from_block info) flag = false.
Proof.
  intros Hin Hne. unfold is_flag_set, BlockMeta_from_block.
  destruct (with_data_ok (if bi_key_block info then FLAG_KEY_BLOCK else 0) (bi_gen_utime info) (bi_start_lt info) 0) as [-> _];
    [by destruct (bi_key_block info)|done|].
  assert (Hall : Forall (λ f, f ≠ FLAG_KEY_BLOCK → (N.land FLAG_KEY_BLOCK f =? f) = false ∧ (N.land 0 f =? f) = false) all_flags).
  { unfold all_flags. repeat constructor; try done. }
  rewrite list.Forall_forall in Hall. destruct (Hall flag Hin Hne). by destruct (bi_key_block info).
Qed.

Lemma set_ref_flags meta n : n < two32 → ∀ f, is_flag_set (snd (fetch_or meta n)) f = is_flag_set meta f.
Proof. intros Hn f. unfold is_flag_set. by rewrite (proj2 (proj2 (set_ref_meta meta n Hn))). Qed.

(** Of the flags only the mark of the move is not stored. *)
Lemma meta_reload m m' :
  meta_ok m → BlockMeta_deserialize (BlockMeta_serialize m) = Some (m', []) →
  BlockMeta_masterchain_ref_seq_no m' = BlockMeta_masterchain_ref_seq_no m ∧
  (∀ flag, flag ∈ all_flags → flag ≠ FLAG_ARCHIVING → is_flag_set m' flag = is_flag_set m flag) ∧
  is_flag_set m' FLAG_ARCHIVING = false.
Proof.
  intros Hm Hd. destruct (meta_roundtrip_flags m [] Hm) as (m1 & H1 & H2 & _ & _ & H3 & H4). rewrite app_nil_r, Hd in H1. by injection H1 as <-.
Qed.

#[local] Opaque is_flag_set set_flag get_mc_seq_no readable filename_short BlockMeta_from_block.

(** ** A handle changes *)
Lemma flagged_insert db db' id meta k i :
  flagged db' k i → db_handles db' = <[id := meta]> (db_handles db) →
  (i = id ∧ is_flag_set meta (kind_flag k) = true) ∨ flagged db k i.
Proof.
  intros (m & Hm & Hf) He. rewrite He in Hm. apply lookup_insert_Some in Hm as [[<- <-]|[_ Hm]]; [by left|right]. by exists m.
Qed.

Lemma inv_handle st id meta meta' :
  db_inv st → db_handles (rs_db st) !! id = Some meta →
  (∀ kind, is_flag_set meta' (kind_flag kind) = is_flag_set meta (kind_flag kind)) →
  is_flag_set meta' FLAG_MOVED_TO_ARCHIVE = is_flag_set meta FLAG_MOVED_TO_ARCHIVE →
  (is_flag_set meta' FLAG_ARCHIVING = true → is_flag_set meta FLAG_ARCHIVING = true) →
  (is_flag_set meta FLAG_MOVED_TO_ARCHIVE = true → BlockMeta_masterchain_ref_seq_no meta' = BlockMeta_masterchain_ref_seq_no meta ∧
     is_flag_set meta' FLAG_KEY_BLOCK = is_flag_set meta FLAG_KEY_BLOCK) →
  db_inv (with_db st (with_handles (rs_db st) (<[id := meta']> (db_handles (rs_db st))))).
Proof.
  intros [Im Ia Ib If Ip Id Ifi Ik In] Hm Hkf Hmv Harch Hsame.
  assert (Hlost : ∀ kind, link_lost kind meta' = link_lost kind meta) by (intros [| |]; cbn [link_lost]; [done|done|]; pose proof (Hkf KProof) as Hp; cbn [kind_flag] in Hp; by rewrite Hp, Hmv).
  split; cbn [rs_db with_db with_handles db_handles db_archive rs_first rs_bound rs_stored]; try done.
  - intros id' m' [[<- <-]|[_ Hl]]%lookup_insert_Some; [|by apply (Ia id')]. rewrite Hmv. intros Hf. by apply (Ia id meta), Harch.
  - intros id' m' [[<- <-]|[_ Hl]]%lookup_insert_Some Hf; [|by apply (Ib id')]. rewrite Hmv in Hf.
    rewrite (get_mc_same id meta meta') by by apply Hsame. by apply Ib.
  - intros kind id'. rewrite If. split.
    + intros (m' & Hl & Hf & Hlo). destruct (decide (id' = id)) as [->|Hne].
      * exists meta'. rewrite lookup_insert_eq, Hkf, Hlost. assert (m' = meta) as -> by congruence. done.
      * exists m'. by rewrite lookup_insert_ne.
    + intros (m' & [[<- <-]|[_ Hl]]%lookup_insert_Some & Hf & Hlo); [|by exists m']. exists meta. by rewrite <- Hkf, <- Hlost.
  - intros id' m' [[<- <-]|[_ Hl]]%lookup_insert_Some; [rewrite Hmv; by apply Ip|by apply (Ip id' m')].
  - intros kind id' data m' Hst [[<- <-]|[_ Hl]]%lookup_insert_Some; [|by apply Ifi]. specialize (Ifi kind id data meta Hst Hm).
    rewrite Hmv. destruct (is_flag_set meta FLAG_MOVED_TO_ARCHIVE) eqn:Ea; [|done]. destruct (Hsame eq_refl) as [Hr Hk]. by eapply readable_same.
  - intros key (kind & id' & m' & Hst & Hl & Hf & Hk)%Ik. destruct (decide (id' = id)) as [->|Hne].
    + exists kind, id, meta'. rewrite lookup_insert_eq. split_and!; try done. rewrite Hmv. congruence.
    + exists kind, id', m'. by rewrite lookup_insert_ne.
  - assert (Hfl : ∀ k i, flagged (with_handles (rs_db st) (<[id := meta']> (db_handles (rs_db st)))) k i → flagged (rs_db st) k i).
    { intros k i Hf0. destruct (flagged_insert (rs_db st) _ id meta' k i Hf0 eq_refl) as [[-> Hf]|Hf]; [exists meta; by rewrite <- Hkf|exact Hf]. }
    intros k1 i1 k2 i2 H1%Hfl H2%Hfl. by apply In.
Qed.

(** A new handle. *)
Lemma inv_new_handle st id info :
  db_inv st → db_handles (rs_db st) !! id = None →
  db_inv (with_db st (put_handle (rs_db st) (handle_of id (BlockMeta_from_block info)))).
Proof.
  intros [Im Ia Ib If Ip Id Ifi Ik In] Hn. assert (Hnone : ∀ kind, rs_stored st !! (kind, id) = None).
  { intros kind. apply eq_None_not_Some. intros (m & Hm & _)%If. congruence. }
  pose proof (λ f Hin Hne, from_block_flags info f Hin Hne) as Hff.
  split; cbn [rs_db with_db put_handle with_handles db_handles db_archive rs_first rs_bound rs_stored handle_of bh_id bh_meta]; try done.
  - intros id' m' [[<- <-]|[_ Hl]]%lookup_insert_Some; [|by apply (Ia id')]. by rewrite (Hff FLAG_ARCHIVING) by done.
  - intros id' m' [[<- <-]|[_ Hl]]%lookup_insert_Some Hf; [|by apply (Ib id')]. by rewrite (Hff FLAG_MOVED_TO_ARCHIVE) in Hf by done.
  - intros kind id'. rewrite If. split.
    + intros (m' & Hl & Hf). exists m'. rewrite lookup_insert_ne; [done|]. congruence.
    + intros (m' & [[<- <-]|[_ Hl]]%lookup_insert_Some & Hf & Hlo); [|by exists m'].
      rewrite Hff in Hf; [done|apply kind_flag_in|by destruct kind].
  - intros id' m' [[<- <-]|[_ Hl]]%lookup_insert_Some Hf; [by rewrite (Hff FLAG_MOVED_TO_ARCHIVE) in Hf by done|by apply (Ip id' m')].
  - intros kind id' data m' Hst [[<- <-]|[_ Hl]]%lookup_insert_Some; [|by apply Ifi]. by rewrite Hnone in Hst.
  - intros key (kind & id' & m' & Hst & Hl & Hf & Hk)%Ik. exists kind, id', m'. rewrite lookup_insert_ne; [done|]. congruence.
  - assert (Hfl : ∀ k i, flagged (put_handle (rs_db st) (handle_of id (BlockMeta_from_block info))) k i → flagged (rs_db st) k i).
    { intros k i Hf0. destruct (flagged_insert (rs_db st) _ id (BlockMeta_from_block info) k i Hf0 eq_refl) as [[-> Hf]|Hf]; [|exact Hf].
      rewrite Hff in Hf; [done|apply kind_flag_in|by destruct k]. }
    intros k1 i1 k2 i2 H1%Hfl H2%Hfl. by apply In.
Qed.

(** ** Storing *)

Lemma link_lost_open kind meta : is_flag_set meta FLAG_MOVED_TO_ARCHIVE = false → link_lost kind meta = false.
Proof. intros Hf. destruct kind; cbn [link_lost]; [done|done|]. by rewrite Hf, andb_false_r. Qed.

(** The file of a handle that is not archived is added. *)
Lemma inv_add_file st kind id meta data :
  db_inv st → db_handles (rs_db st) !! id = Some meta → is_flag_set meta FLAG_MOVED_TO_ARCHIVE = false →
  rs_stored st !! (kind, id) = None → data ≠ [] → entry_ok (archive_entry (kind_entry kind id) data) →
  (∀ kind' id', flagged (rs_db st) kind' id' →
     filename_short (kind_entry kind' id') ≠ filename_short (kind_entry kind id) ∧
     offset_key (kind_entry kind' id') ≠ offset_key (kind_entry kind id)) →
  let am := db_archive (rs_db st) in
  let am' := with_unapplied am (<[filename_short (kind_entry kind id) := data]> (am_unapplied am)) in
  db_inv {| rs_db := put_handle (with_archive (rs_db st) am') (handle_of id (snd (set_flag meta (kind_flag kind))));
            rs_first := rs_first st; rs_bound := rs_bound st; rs_stored := <[(kind, id) := data]> (rs_stored st) |}.
Proof.
  intros [Im Ia Ib If Ip Id Ifi Ik In] Hm Hnot Hns Hne He Hnames am am'. set (meta' := snd (set_flag meta (kind_flag kind))).
  assert (Hflag : ∀ f, f ∈ all_flags → is_flag_set meta' f = (f =? kind_flag kind) || is_flag_set meta f) by (intros f Hf; by apply set_flag_meta).
  assert (Hmv : is_flag_set meta' FLAG_MOVED_TO_ARCHIVE = false) by (rewrite Hflag, Hnot by done; by destruct kind).
  split; cbn [rs_db rs_first rs_bound rs_stored put_handle with_handles with_archive db_handles db_archive handle_of bh_id bh_meta].
  - destruct Im as [Hf Hk]. constructor; [exact Hf|exact Hk].
  - intros id' m' [[<- <-]|[_ Hl]]%lookup_insert_Some; [|by apply (Ia id')]. rewrite Hflag by done.
    intros Hf. exfalso. assert (is_flag_set meta FLAG_ARCHIVING = true) as Hf' by (by destruct kind). specialize (Ia id meta Hm Hf'). congruence.
  - intros id' m' [[<- <-]|[_ Hl]]%lookup_insert_Some Hf; [congruence|by apply (Ib id')].
  - intros kind' id'. rewrite lookup_insert_is_Some'. split.
    + intros [[= <- <-]|Hs].
      * exists meta'. rewrite lookup_insert_eq. split; [done|]. rewrite Hflag, N.eqb_refl by done. split; [done|by apply link_lost_open].
      * apply If in Hs as (m0 & Hm0 & Hf0 & Hlo). destruct (decide (id' = id)) as [->|Hd].
        -- exists meta'. rewrite lookup_insert_eq. split; [done|]. rewrite Hflag by done. assert (m0 = meta) as -> by congruence.
           rewrite Hf0, orb_true_r. split; [done|by apply link_lost_open].
        -- exists m0. by rewrite lookup_insert_ne.
    + intros (m0 & [[<- <-]|[Hd Hl]]%lookup_insert_Some & Hf0 & Hlo).
      * rewrite Hflag in Hf0 by done. destruct (decide (kind = kind')) as [->|Hk]; [by left|right]. apply If. exists meta. split; [done|].
        split; [by destruct kind, kind'|by apply link_lost_open].
      * right. apply If. by exists m0.
  - intros id' m' [[<- <-]|[_ Hl]]%lookup_insert_Some Hf; [congruence|]. rewrite lookup_insert_is_Some'. right. by apply (Ip id' m').
  - intros kind' id' data' [[[= <- <-] <-]|[_ Hl]]%lookup_insert_Some; [done|by apply Id].
  - intros kind' id' data' m' [[[= <- <-] <-]|[Hd Hl]]%lookup_insert_Some Hm'.
    + rewrite lookup_insert_eq in Hm'. injection Hm' as <-. rewrite Hmv. apply lookup_insert_eq.
    + destruct (Hnames kind' id') as [Hfn _]; [destruct (proj1 (If kind' id') ltac:(by eexists)) as (m1 & ? & ? & _); by exists m1|]. assert (Hun : ∀ m0, db_handles (rs_db st) !! id' = Some m0 → is_flag_set m0 FLAG_MOVED_TO_ARCHIVE = false →
        am_unapplied am' !! filename_short (kind_entry kind' id') = Some data').
      { intros m0 Hm0 Hf0. specialize (Ifi kind' id' data' m0 Hl Hm0). rewrite Hf0 in Ifi. cbn [am' with_unapplied am_unapplied].
        by rewrite lookup_insert_ne. }
      apply lookup_insert_Some in Hm' as [[<- <-]|[_ Hm']]; [rewrite Hmv; by apply (Hun meta)|].
      destruct (is_flag_set m' FLAG_MOVED_TO_ARCHIVE) eqn:Ef; [|by apply (Hun m')]. specialize (Ifi kind' id' data' m' Hl Hm'). by rewrite Ef in Ifi.
  - intros key (kind' & id' & m' & Hs & Hm' & Hf & Hk)%Ik. exists kind', id', m'. rewrite lookup_insert_is_Some'. split_and!; auto.
    rewrite lookup_insert_ne; [done|]. congruence.
  - assert (Hfl : ∀ k i, flagged (put_handle (with_archive (rs_db st) am') (handle_of id meta')) k i → (k, i) = (kind, id) ∨ flagged (rs_db st) k i).
    { intros k i Hf0. destruct (flagged_insert (rs_db st) _ id meta' k i Hf0 eq_refl) as [[-> Hf]|Hf]; [|by right]. rewrite Hflag in Hf by done.
      destruct (decide (k = kind)) as [->|Hk]; [by left|right]. exists meta. split; [done|]. by destruct k, kind. }
    intros k1 id1 k2 id2 [[= -> ->]|H1]%Hfl [[= -> ->]|H2]%Hfl Hd; [done| | |by apply In].
    + destruct (Hnames k2 id2 H2) as [Hx Hy]. split; by apply not_eq_sym.
    + by apply Hnames.
Qed.

Lemma store_file_inv st kind id meta data r0 r db' :
  db_inv st → db_handles (rs_db st) !! id = Some meta → storable st kind id data →
  store_file (rs_db st) r0 (handle_of id meta) (kind_flag kind) (kind_entry kind id) data = (Some r, db') →
  db_inv {| rs_db := db'; rs_first := rs_first st; rs_bound := rs_bound st;
            rs_stored := match rs_stored st !! (kind, id) with Some _ => rs_stored st | None => <[(kind, id) := data]> (rs_stored st) end |}.
Proof.
  intros HI Hm [Hid Hsize Hbytes Hnames Harch] Hrun. unfold store_file in Hrun. cbn [handle_of bh_meta] in Hrun.
  destruct (rs_stored st !! (kind, id)) as [data0|] eqn:Est.
  - destruct (proj1 (iv_flags _ HI kind id)) as (m0 & Hm0 & Hf & _); [eauto|]. assert (m0 = meta) as -> by congruence. rewrite Hf in Hrun.
    assert (Hc : check_file (db_archive (rs_db st)) (handle_of id meta) (kind_entry kind id) = true).
    { pose proof (iv_files _ HI kind id data0 meta Est Hm) as Hav. unfold check_file, is_archived. cbn [handle_of bh_meta].
      destruct (is_flag_set meta FLAG_MOVED_TO_ARCHIVE); [done|]. apply bool_decide_eq_true_2. eauto. }
    rewrite Hc in Hrun. injection Hrun as <- <-. by destruct st.
  - assert (Hopen : is_flag_set meta FLAG_MOVED_TO_ARCHIVE = false).
    { destruct (is_flag_set meta FLAG_MOVED_TO_ARCHIVE) eqn:Ea; [|done]. destruct (Harch (handle_of id meta)) as [x Hx]; [|done|congruence].
      unfold load_block_handle. by rewrite Hm. }
    assert (Hf : is_flag_set meta (kind_flag kind) = false).
    { destruct (is_flag_set meta (kind_flag kind)) eqn:Ef; [|done]. destruct (proj2 (iv_flags _ HI kind id)) as [x Hx]; [|congruence].
      exists meta. split_and!; [done|done|by apply link_lost_open]. }
    rewrite Hf in Hrun. cbn [andb] in Hrun. unfold manager_add_file in Hrun. destruct (length data =? 0)%nat eqn:El; [done|].
    assert (Hne : data ≠ []) by (intros ->; done). unfold handle_set_flag in Hrun. cbn [handle_of bh_meta bh_id] in Hrun.
    destruct (set_flag meta (kind_flag kind)) as [changed meta'] eqn:Es. injection Hrun as _ <-.
    pose proof (inv_add_file st kind id meta data HI Hm) as Hadd. rewrite Es in Hadd. apply Hadd; try done.
    + by apply kind_entry_ok.
    + intros kind' id' Hs. apply Hnames; [done|]. intros [= -> ->]. destruct Hs as (m0 & Hm0 & Hf0). congruence.
Qed.

(** The handle is there or made. *)
Lemma created_handle_inv st id info :
  db_inv st → ∃ meta r db1, create_or_load_block_handle (rs_db st) id (Some info) None = (Some r, db1) ∧
    as_non_updated r = Some (handle_of id meta) ∧ db_inv (with_db st db1) ∧ db_handles db1 !! id = Some meta ∧
    (db1 = rs_db st ∨ is_flag_set meta FLAG_MOVED_TO_ARCHIVE = false) ∧ (∀ k i, flagged db1 k i → flagged (rs_db st) k i).
Proof.
  intros HI. unfold create_or_load_block_handle, load_block_handle. destruct (db_handles (rs_db st) !! id) as [meta|] eqn:Em.
  - eexists meta, _, _. split; [reflexivity|]. split_and!; [done|by destruct st|done|by left|exact (λ _ _ H, H)].
  - eexists (BlockMeta_from_block info), _, _. split; [reflexivity|]. split_and!; [done|by apply inv_new_handle|apply lookup_insert_eq| |].
    + right. by apply from_block_flags.
    + intros k i Hf0. destruct (flagged_insert (rs_db st) _ id (BlockMeta_from_block info) k i Hf0 eq_refl) as [[-> Hf]|Hf]; [|exact Hf].
      rewrite from_block_flags in Hf; [done|apply kind_flag_in|by destruct k].
Qed.

Lemma store_file_step st kind id info data r db' :
  store_block_file kind (rs_db st) id info data = (Some r, db') →
  ∀ meta r1 db1, create_or_load_block_handle (rs_db st) id (Some info) None = (Some r1, db1) →
  as_non_updated r1 = Some (handle_of id meta) →
  store_file db1 r1 (handle_of id meta) (kind_flag kind) (kind_entry kind id) data = (Some r, db').
Proof.
  intros Hrun meta r1 db1 Hc Hh. destruct kind; cbn [store_block_file] in Hrun; unfold store_block_data, store_block_proof in Hrun.
  2,3: rewrite bool_decide_eq_true_2 in Hrun by done; cbn [negb] in Hrun.
  all: rewrite Hc, Hh in Hrun; exact Hrun.
Qed.

Lemma step_store_inv st kind id info data r db' :
  db_inv st → storable st kind id data → store_block_file kind (rs_db st) id info data = (Some r, db') →
  db_inv {| rs_db := db'; rs_first := rs_first st; rs_bound := rs_bound st;
            rs_stored := match rs_stored st !! (kind, id) with Some _ => rs_stored st | None => <[(kind, id) := data]> (rs_stored st) end |}.
Proof.
  intros HI Hsb Hrun. destruct (created_handle_inv st id info HI) as (meta & r1 & db1 & Hc & Hh & HI1 & Hm & Hor & Hfl).
  pose proof (store_file_step st kind id info data r db' Hrun meta r1 db1 Hc Hh) as Hst.
  apply (store_file_inv (with_db st db1) kind id meta data r1 r db' HI1 Hm); [|exact Hst].
  destruct Hsb as [H1 H2 H3 H4 H6]. split; try done; [intros k i Hk%Hfl; by apply H4|]. intros handle Hl Ha. destruct Hor as [->|Hf]; [by apply (H6 handle)|].
  unfold load_block_handle in Hl. cbn [rs_db with_db] in Hl. rewrite Hm in Hl. injection Hl as <-. unfold is_archived in Ha. cbn [bh_meta] in Ha. congruence.
Qed.

(** ** References and reloading *)
Lemma step_assign_inv st id handle mc_seq_no db' :
  db_inv st → load_block_handle (rs_db st) id = Some handle → is_archived handle = false → mc_seq_no < two32 →
  assign_mc_ref_seq_no (rs_db st) handle mc_seq_no = (Some (), db') → db_inv (with_db st db').
Proof.
  intros HI Hl Ha Hn Hrun. unfold load_block_handle in Hl. destruct (db_handles (rs_db st) !! id) as [meta|] eqn:Em; [|done].
  injection Hl as <-. unfold assign_mc_ref_seq_no, BlockHandle_set_masterchain_ref_seq_no in Hrun. cbn [bh_meta bh_id] in Hrun.
  destruct (set_ref_meta meta mc_seq_no Hn) as (Hs & _ & _). rewrite Hs in Hrun.
  assert (Hdb : db' = put_handle (rs_db st) (handle_of id (snd (fetch_or meta mc_seq_no)))) by (repeat case_match; by simplify_eq).
  rewrite Hdb. pose proof (set_ref_flags meta mc_seq_no Hn) as Hf.
  apply (inv_handle st id meta); try done; [by rewrite Hf|].
  unfold is_archived in Ha. cbn [bh_meta] in Ha. congruence.
Qed.

Lemma step_reload_inv st id meta meta' :
  db_inv st → db_handles (rs_db st) !! id = Some meta → meta_ok meta →
  BlockMeta_deserialize (BlockMeta_serialize meta) = Some (meta', []) →
  db_inv (with_db st (with_handles (rs_db st) (<[id := meta']> (db_handles (rs_db st))))).
Proof.
  intros HI Hm Hok Hd. destruct (meta_reload meta meta' Hok Hd) as (Hr & Hf & Ha).
  apply (inv_handle st id meta); try done.
  - intros kind. apply Hf; [done|by destruct kind].
  - by apply Hf.
  - congruence.
  - intros _. split; [done|]. by apply Hf.
Qed.

(** ** Archiving *)
Lemma in_manager_grows bound key am am' x : grows bound key am am' → in_manager am' x → x = key ∨ in_manager am x.
Proof.
  intros Hg (k & fd & [Hin|Hin] & Hs).
  - destruct (gr_keys _ _ _ _ Hg k fd x Hin Hs) as [->|(fd0 & Hin0 & Hs0)]; [by left|right]. exists k, fd0. auto.
  - destruct (gr_key_keys _ _ _ _ Hg k fd x Hin Hs) as [->|(fd0 & Hin0 & Hs0)]; [by left|right]. exists k, fd0. auto.
Qed.

Lemma not_in_manager am key :
  ¬ in_manager am key →
  (∀ k fd, (k, fd) ∈ fm_elements (am_files am) → offsets_db (as_dbs (fd_archive_slice fd)) !! key = None) ∧
  (∀ k fd, (k, fd) ∈ fm_elements (am_key_files am) → offsets_db (as_dbs (fd_archive_slice fd)) !! key = None).
Proof. intros Hn. split; intros k fd Hin; apply eq_None_not_Some; intros Hs; apply Hn; exists k, fd; auto. Qed.

(** A file of the block that waits to be moved. *)
Record waiting am kind id data : Prop := {
  wt_file : am_unapplied am !! filename_short (kind_entry kind id) = Some data;
  wt_data : data ≠ [];
  wt_entry : entry_ok (archive_entry (kind_entry kind id) data);
  wt_fresh : ¬ in_manager am (offset_key (kind_entry kind id));
}.

(** What moving the files of a block gives. *)
Record files_moved first bound bound' am am' handle (files : list (FileKind * list N)) : Prop := {
  fv_manager : manager_ok first bound' am';
  fv_bound : bound <= bound';
  fv_covered p : p ∈ files → get_mc_seq_no handle < bound';
  fv_unapplied : am_unapplied am' = am_unapplied am;
  fv_readable p : p ∈ files → readable am' handle (kind_entry (fst p) (bh_id handle)) (snd p);
  fv_others h e data : get_mc_seq_no h < bound → readable am h e data → readable am' h e data;
  fv_keys x : in_manager am' x → in_manager am x ∨ ∃ p, p ∈ files ∧ x = offset_key (kind_entry (fst p) (bh_id handle));
}.

Lemma files_moved_trans first b0 b1 b2 am am1 am2 handle l1 l2 :
  files_moved first b0 b1 am am1 handle l1 → files_moved first b1 b2 am1 am2 handle l2 →
  files_moved first b0 b2 am am2 handle (l1 ++ l2).
Proof.
  intros [A1 A2 A3 A4 A5 A6 A7] [B1 B2 B3 B4 B5 B6 B7]. split.
  - exact B1.
  - lia.
  - intros p [Hp|Hp]%elem_of_app; [|by apply (B3 p)]. specialize (A3 p Hp). lia.
  - by rewrite B4.
  - intros p [Hp|Hp]%elem_of_app; [|by apply B5]. apply B6; [by apply (A3 p)|by apply A5].
  - intros h e data Hh Hr. apply B6; [lia|by apply A6].
  - intros x [[Hx|(p & Hp & ->)]%A7|(p & Hp & ->)]%B7; [by left|right..]; exists p; (split; [apply elem_of_app; auto|done]).
Qed.

Definition moved_bound bound (o : option (FileKind * list N)) (m : N) : N :=
  match o with Some _ => N.max bound (m + 1) | None => bound end.

(** A file is moved, if there is one. *)
Lemma move_optional_ok am first bound handle o :
  let m := get_mc_seq_no handle in let id := bh_id handle in
  manager_ok first bound am → may_archive first bound (am_files am) m (is_key_block handle) → m < two32 → manager_room am entry_max →
  (∀ p, o = Some p → waiting am (fst p) id (snd p)) →
  ∃ am', move_optional am handle ((λ p, kind_entry (fst p) id) <$> o) =
      Done (Some ((λ p, filename_short (kind_entry (fst p) id)) <$> o), am') ∧
    may_archive first (moved_bound bound o m) (am_files am') m (is_key_block handle) ∧
    files_moved first bound (moved_bound bound o m) am am' handle (option_list o) ∧
    ∀ n, PKG_HEADER_SIZE + entry_max + n < two64 → manager_room am (entry_max + n) → manager_room am' n.
Proof.
  intros m id Hok Hmay Hm [Hr1 Hr2] Hw. destruct o as [[kind data]|]; cbn [moved_bound option_list fmap option_fmap option_map move_optional fst].
  - destruct (Hw _ eq_refl) as [Hf Hne He Hfr]. destruct (not_in_manager _ _ Hfr) as [Hf1 Hf2]. cbn [fst snd] in *.
    destruct (move_archives am first bound handle (kind_entry kind id) data Hok Hmay Hm Hf) as (am' & Hrun & Hok' & Hg & Hread & Hmay'); [by split..|].
    fold m in Hok', Hmay'. exists am'. rewrite Hrun. cbn [mbind outcome_bind]. split_and!; [done|done| |exact (gr_room _ _ _ _ Hg)].
    split; [exact Hok'|lia| |exact (gr_unapplied _ _ _ _ Hg)| | |].
    + intros p _. fold m. lia.
    + intros p ->%list_elem_of_singleton. exact Hread.
    + intros h e d Hh Hrd. exact (readable_grows first bound _ _ am am' h e d Hok Hok' Hg Hh Hrd).
    + intros x [->|Hx]%(in_manager_grows _ _ _ _ _ Hg); [right|by left]. exists (kind, data). split; [by apply list_elem_of_singleton|done].
  - exists am. split_and!; [done|done| |].
    + split; [exact Hok|lia|by intros p ?%not_elem_of_nil|done|by intros p ?%not_elem_of_nil|auto|auto].
    + intros n _ [Hn1 Hn2]. split; (eapply maps_room_mono; [eassumption|lia]).
Qed.

Lemma move_files_ok am first bound handle (proof : option (FileKind * list N)) data :
  let m := get_mc_seq_no handle in let id := bh_id handle in
  manager_ok first bound am → may_archive first bound (am_files am) m (is_key_block handle) → m < two32 →
  manager_room am (2 * entry_max) → waiting am KData id data →
  (∀ p, proof = Some p → waiting am (fst p) id (snd p) ∧ offset_key (kind_entry (fst p) id) ≠ offset_key (EntryBlock id)) →
  ∃ am1 am2, move_optional am handle ((λ p, kind_entry (fst p) id) <$> proof) =
      Done (Some ((λ p, filename_short (kind_entry (fst p) id)) <$> proof), am1) ∧
    move_optional am1 handle (Some (EntryBlock id)) = Done (Some (Some (filename_short (EntryBlock id))), am2) ∧
    files_moved first bound (N.max bound (m + 1)) am am2 handle (option_list proof ++ [(KData, data)]).
Proof.
  intros m id Hok Hmay Hm Hroom Hwd Hwp.
  destruct (move_optional_ok am first bound handle proof Hok Hmay Hm) as (am1 & Hrun1 & Hmay1 & Hfm1 & Hroom1).
  { destruct Hroom as [Hr1 Hr2]. split; (eapply maps_room_mono; [eassumption|unfold entry_max, two32; lia]). }
  { intros p Hp. by destruct (Hwp p Hp). }
  fold m in Hmay1, Hfm1. set (bound1 := moved_bound bound proof m) in *.
  assert (Hb1 : N.max bound1 (m + 1) = N.max bound (m + 1)) by (unfold bound1, moved_bound; destruct proof; lia).
  assert (Hwd1 : waiting am1 KData id data).
  { destruct Hwd as [W1 W2 W3 W4]. split; try done; [by rewrite (fv_unapplied _ _ _ _ _ _ _ Hfm1)|].
    intros [Hin|(p & Hp & Heq)]%(fv_keys _ _ _ _ _ _ _ Hfm1); [done|].
    destruct proof as [p1|]; cbn [option_list] in Hp; [|by apply not_elem_of_nil in Hp]. apply list_elem_of_singleton in Hp as ->.
    by destruct (Hwp p1 eq_refl) as [_ []]. }
  destruct (move_optional_ok am1 first bound1 handle (Some (KData, data)) (fv_manager _ _ _ _ _ _ _ Hfm1) Hmay1 Hm) as (am2 & Hrun2 & _ & Hfm2 & _).
  { apply Hroom1; [done|]. destruct Hroom as [Hr1 Hr2]. split; (eapply maps_room_mono; [eassumption|lia]). }
  { by intros p [= <-]. }
  exists am1, am2. split; [exact Hrun1|]. split; [exact Hrun2|]. cbn [moved_bound option_list] in Hfm2. fold m in Hfm2. rewrite Hb1 in Hfm2.
  exact (files_moved_trans _ _ _ _ _ _ _ _ _ _ Hfm1 Hfm2).
Qed.

(** The proof of a block, of either kind. *)
Definition proof_of st id : option (FileKind * list N) :=
  match rs_stored st !! (KProof, id), rs_stored st !! (KProofLink, id) with
  | Some d, _ => Some (KProof, d)
  | None, Some d => Some (KProofLink, d)
  | None, None => None
  end.

Lemma flag_stored st kind id meta :
  db_inv st → db_handles (rs_db st) !! id = Some meta →
  is_flag_set meta (kind_flag kind) && negb (link_lost kind meta) = bool_decide (is_Some (rs_stored st !! (kind, id))).
Proof.
  intros HI Hm. destruct (is_flag_set meta (kind_flag kind) && negb (link_lost kind meta)) eqn:Ef; symmetry.
  - apply andb_true_iff in Ef as [Ef El%negb_true_iff]. apply bool_decide_eq_true_2. apply (iv_flags _ HI). eauto.
  - apply bool_decide_eq_false_2. intros (m0 & Hm0 & Hf & Hl)%(iv_flags _ HI). assert (m0 = meta) as -> by congruence. by rewrite Hf, Hl in Ef.
Qed.

Lemma proof_of_flags st id meta meta1 :
  db_inv st → db_handles (rs_db st) !! id = Some meta → is_flag_set meta FLAG_MOVED_TO_ARCHIVE = false →
  (∀ kind, is_flag_set meta1 (kind_flag kind) = is_flag_set meta (kind_flag kind)) →
  (if has_proof (handle_of id meta1) then Some (EntryProof id)
   else if has_proof_link (handle_of id meta1) then Some (EntryProofLink id) else None) = (λ p, kind_entry (fst p) id) <$> proof_of st id.
Proof.
  intros HI Hm Ho Hs. unfold has_proof, has_proof_link, proof_of. cbn [handle_of bh_meta].
  pose proof (Hs KProof) as H1. pose proof (Hs KProofLink) as H2. cbn [kind_flag] in H1, H2. rewrite H1, H2.
  pose proof (flag_stored st KProof id meta HI Hm) as H3. pose proof (flag_stored st KProofLink id meta HI Hm) as H4.
  rewrite link_lost_open in H3, H4 by done. cbn [kind_flag negb] in H3, H4. rewrite andb_true_r in H3, H4.
  rewrite H3, H4. by destruct (rs_stored st !! (KProof, id)), (rs_stored st !! (KProofLink, id)).
Qed.

(** ** The files after archiving *)
Lemma archived_lookup (stored : gmap (FileKind * BlockIdExt) (list N)) id kind id' d :
  archived_files stored id !! (kind, id') = Some d ↔ stored !! (kind, id') = Some d ∧ ¬ (kind = KProofLink ∧ id' = id ∧ is_Some (stored !! (KProof, id))).
Proof.
  unfold archived_files. destruct (stored !! (KProof, id)) as [d1|] eqn:E1.
  - rewrite lookup_delete_Some. split; [intros [Hne Hd]; split; [done|]; by intros (-> & -> & _)|]. intros [Hd Hn]. split; [|done].
    intros [= <- <-]. apply Hn. split_and!; [done|done|by eexists].
  - split; [intros Hd; split; [done|]; by intros (_ & _ & [])|by intros [? _]].
Qed.

Lemma archived_sub (stored : gmap (FileKind * BlockIdExt) (list N)) id kind id' :
  is_Some (archived_files stored id !! (kind, id')) → is_Some (stored !! (kind, id')).
Proof. intros [d [Hd _]%archived_lookup]. by eexists. Qed.

Lemma archived_other (stored : gmap (FileKind * BlockIdExt) (list N)) id kind id' :
  id' ≠ id ∨ kind ≠ KProofLink → archived_files stored id !! (kind, id') = stored !! (kind, id').
Proof. intros Hne. unfold archived_files. destruct (stored !! (KProof, id)); [|done]. rewrite lookup_delete_ne; [done|]. intros [= <- <-]. by destruct Hne. Qed.

(** The files of a block that stay are those that are moved. *)
Lemma files_of_block st id data :
  rs_stored st !! (KData, id) = Some data →
  ∀ kind d, (kind, d) ∈ option_list (proof_of st id) ++ [(KData, data)] ↔ archived_files (rs_stored st) id !! (kind, id) = Some d.
Proof.
  intros Hd kind d. rewrite elem_of_app, list_elem_of_singleton, archived_lookup. unfold proof_of.
  destruct (rs_stored st !! (KProof, id)) as [d1|] eqn:E1; [|destruct (rs_stored st !! (KProofLink, id)) as [d2|] eqn:E2]; simpl; rewrite ?list_elem_of_singleton, ?list.elem_of_nil.
  - split.
    + intros [[= -> ->]|[= -> ->]]; (split; [done|]; by intros [? _]).
    + intros [Hk Hn]. destruct kind; [right; congruence|left; congruence|]. exfalso. apply Hn. split_and!; [done|done|by eexists].
  - split.
    + intros [[= -> ->]|[= -> ->]]; (split; [done|]; by intros (_ & _ & [])).
    + intros [Hk _]. destruct kind; [right; congruence|congruence|left; congruence].
  - split.
    + intros [[]|[= -> ->]]. split; [done|]. by intros [? _].
    + intros [Hk _]. right. destruct kind; congruence.
Qed.

Lemma waiting_file st kind id data meta :
  db_inv st → db_handles (rs_db st) !! id = Some meta → is_flag_set meta FLAG_MOVED_TO_ARCHIVE = false →
  rs_stored st !! (kind, id) = Some data → waiting (db_archive (rs_db st)) kind id data.
Proof.
  intros HI Hm Hf Hst. pose proof (iv_files _ HI kind id data meta Hst Hm) as Hun. rewrite Hf in Hun. destruct (iv_data _ HI kind id data Hst) as [Hne He].
  split; [exact Hun|done|done|]. intros (kind' & id' & m' & Hs' & Hm' & Hf' & Hk)%(iv_keys _ HI).
  destruct (decide ((kind', id') = (kind, id))) as [[= -> ->]|Hd]; [congruence|].
  destruct (iv_names _ HI kind' id' kind id) as [_ Hne']; [by apply stored_flagged|apply stored_flagged; [done|by eexists]|done|done].
Qed.

(** The waiting files are removed. *)
Definition remove_names (names : list (list N)) (files : gmap (list N) (list N)) : gmap (list N) (list N) :=
  foldr delete files names.

Lemma remove_file_ok am (name : option (list N)) :
  (∀ n, name = Some n → is_Some (am_unapplied am !! n)) →
  remove_file am name = (Some (), with_unapplied am (remove_names (option_list name) (am_unapplied am))).
Proof.
  intros Hn. destruct name as [n|]; cbn [remove_file option_list remove_names foldr]; [|by destruct am].
  by destruct (Hn n eq_refl) as [d ->].
Qed.

(** The run of [move_to_archive] when both moves succeed. *)
Lemma move_to_archive_runs am handle h1 h2 (proof : option (FileKind * list N)) am1 am2
    (on_success : BlockHandle → unit → option unit * (BlockHandle * unit)) :
  let id := bh_id h1 in let names := (λ p, filename_short (kind_entry (fst p) id)) <$> proof in let name := filename_short (EntryBlock id) in
  set_moving_to_archive handle = (true, h1) → has_data h1 = true →
  (if has_proof h1 then Some (EntryProof id) else if has_proof_link h1 then Some (EntryProofLink id) else None) =
    (λ p, kind_entry (fst p) id) <$> proof →
  move_optional am h1 ((λ p, kind_entry (fst p) id) <$> proof) = Done (Some names, am1) →
  move_optional am1 h1 (Some (EntryBlock id)) = Done (Some (Some name), am2) →
  on_success h1 () = (Some (), (h2, ())) →
  (∀ n, names = Some n → is_Some (am_unapplied am2 !! n) ∧ n ≠ name) → is_Some (am_unapplied am2 !! name) →
  move_to_archive on_success am handle () =
    Done (Some (), (h2, (), with_unapplied am2 (remove_names (name :: option_list names) (am_unapplied am2)))).
Proof.
  intros id names name Hset Hdata Hproof Hrun1 Hrun2 Hok Hn Hname. unfold move_to_archive. rewrite Hset. cbn [negb]. fold id.
  rewrite Hproof, Hrun1. cbn [mbind outcome_bind]. rewrite Hdata, Hrun2. cbn [mbind outcome_bind]. rewrite Hok.
  rewrite (remove_file_ok am2 names) by (intros n Hs; by apply Hn).
  rewrite (remove_file_ok _ (Some name)); [done|]. intros n [= <-]. cbn [with_unapplied am_unapplied].
  destruct names as [n1|]; [|done]. unfold remove_names. simpl. rewrite lookup_delete_ne; [done|]. by apply Hn.
Qed.

(** Archiving runs to its end. *)
Lemma archive_runs st id meta data :
  db_inv st → db_handles (rs_db st) !! id = Some meta → archivable st (handle_of id meta) → rs_stored st !! (KData, id) = Some data →
  let files := option_list (proof_of st id) ++ [(KData, data)] in
  let am := db_archive (rs_db st) in
  let bound' := N.max (rs_bound st) (get_mc_seq_no (handle_of id meta) + 1) in
  let meta1 := snd (set_flag meta FLAG_ARCHIVING) in let meta' := snd (set_flag meta1 FLAG_MOVED_TO_ARCHIVE) in
  ∃ am', files_moved (rs_first st) (rs_bound st) bound' am am' (handle_of id meta1) files ∧
    archive_block (rs_db st) id = Done (Some (), put_handle (with_archive (rs_db st) (with_unapplied am'
      (remove_names (filename_short (EntryBlock id) :: option_list ((λ p, filename_short (kind_entry (fst p) id)) <$> proof_of st id))
         (am_unapplied am)))) (handle_of id meta')).
Proof.
  intros HI Hm [Ad Ao Aord Aseq Aroom] Hst files am bound' meta1 meta'. unfold is_archived in Ao. cbn [handle_of bh_meta] in Ao.
  assert (Hf1 : ∀ f, f ∈ all_flags → is_flag_set meta1 f = (f =? FLAG_ARCHIVING) || is_flag_set meta f) by (intros f Hf; by apply set_flag_meta).
  assert (Hmc : get_mc_seq_no (handle_of id meta1) = get_mc_seq_no (handle_of id meta)) by (by apply get_mc_same, set_flag_ref).
  assert (Hkey : is_key_block (handle_of id meta1) = is_key_block (handle_of id meta)) by (unfold is_key_block; cbn [handle_of bh_meta]; by rewrite Hf1).
  pose proof (waiting_file st KData id data meta HI Hm Ao Hst) as Hwd.
  assert (Hwp : ∀ p, proof_of st id = Some p → waiting am (fst p) id (snd p) ∧
    filename_short (kind_entry (fst p) id) ≠ filename_short (EntryBlock id) ∧ offset_key (kind_entry (fst p) id) ≠ offset_key (EntryBlock id)).
  { intros p Hp. assert (Hps : rs_stored st !! (fst p, id) = Some (snd p) ∧ fst p ≠ KData) by (unfold proof_of in Hp; repeat case_match; by simplify_eq).
    destruct Hps as [Hps Hk]. split; [by eapply waiting_file|]. apply (iv_names _ HI (fst p) id KData id); [apply stored_flagged; [done|by eexists]..|congruence]. }
  destruct (move_files_ok am (rs_first st) (rs_bound st) (handle_of id meta1) (proof_of st id) data) as (am1 & am2 & Hrun1 & Hrun2 & Hfm);
    rewrite ?Hmc, ?Hkey; try done; [by apply HI|intros p Hp; by destruct (Hwp p Hp) as (? & _ & ?)|].
  rewrite Hmc in Hfm. exists am2. split; [exact Hfm|]. pose proof (fv_unapplied _ _ _ _ _ _ _ Hfm) as Hun. fold am in Hun.
  unfold archive_block, load_block_handle. rewrite Hm. unfold is_archived. cbn [bh_meta]. rewrite Ao.
  rewrite (move_to_archive_runs am {| bh_id := id; bh_meta := meta |} (handle_of id meta1) (handle_of id meta') (proof_of st id) am1 am2); cbn [handle_of bh_id].
  - cbn [mbind outcome_bind]. by rewrite Hun.
  - unfold set_moving_to_archive, handle_set_flag. cbn [bh_meta bh_id]. rewrite (surjective_pairing (set_flag meta FLAG_ARCHIVING)). f_equal.
    rewrite (proj2 (proj2 (set_flag_flags meta FLAG_ARCHIVING eq_refl))). destruct (is_flag_set meta FLAG_ARCHIVING) eqn:E; [|done].
    pose proof (iv_archiving _ HI id meta Hm E). congruence.
  - unfold has_data in *. cbn [handle_of bh_meta] in *. rewrite (Hf1 FLAG_DATA) by apply (kind_flag_in KData). by rewrite Ad.
  - apply (proof_of_flags st id meta meta1 HI Hm Ao). intros kind. rewrite Hf1 by done. by destruct kind.
  - exact Hrun1.
  - exact Hrun2.
  - unfold set_archived, handle_set_flag. cbn [handle_of bh_id bh_meta]. by rewrite (surjective_pairing (set_flag meta1 FLAG_MOVED_TO_ARCHIVE)).
  - intros n Hn. destruct (proof_of st id) as [p|] eqn:Ep; [|done]. cbn in Hn. injection Hn as <-. destruct (Hwp p eq_refl) as ([W _ _ _] & Hne & _).
    rewrite Hun. split; [by eexists|done].
  - rewrite Hun. destruct Hwd as [W _ _ _]. by eexists.
Qed.

(** The names that are removed are those of the block. *)
Lemma remove_names_other names files n : n ∉ names → remove_names names files !! n = files !! n.
Proof.
  unfold remove_names. induction names as [|x names IH]; [done|]. intros [Hx Hn]%not_elem_of_cons. simpl. rewrite lookup_delete_ne by done. by apply IH.
Qed.

Lemma removed_name st id n data :
  rs_stored st !! (KData, id) = Some data →
  n ∈ filename_short (EntryBlock id) :: option_list ((λ p, filename_short (kind_entry (fst p) id)) <$> proof_of st id) →
  ∃ kind, is_Some (rs_stored st !! (kind, id)) ∧ n = filename_short (kind_entry kind id).
Proof.
  intros Hst [->|Hin]%elem_of_cons; [exists KData; split; [by eexists|done]|]. unfold proof_of in Hin.
  destruct (rs_stored st !! (KProof, id)) eqn:E1; [|destruct (rs_stored st !! (KProofLink, id)) eqn:E2]; simpl in Hin;
    [apply list_elem_of_singleton in Hin as ->..|by apply not_elem_of_nil in Hin]; [exists KProof|exists KProofLink]; (split; [by eexists|done]).
Qed.

(** The flags after archiving. *)
Lemma archived_meta meta :
  let meta' := snd (set_flag (snd (set_flag meta FLAG_ARCHIVING)) FLAG_MOVED_TO_ARCHIVE) in
  BlockMeta_masterchain_ref_seq_no meta' = BlockMeta_masterchain_ref_seq_no meta ∧
  is_flag_set meta' FLAG_MOVED_TO_ARCHIVE = true ∧
  (∀ kind, is_flag_set meta' (kind_flag kind) = is_flag_set meta (kind_flag kind)) ∧
  is_flag_set meta' FLAG_KEY_BLOCK = is_flag_set (snd (set_flag meta FLAG_ARCHIVING)) FLAG_KEY_BLOCK.
Proof.
  intros meta'. split_and!.
  - unfold meta'. by rewrite !set_flag_ref.
  - unfold meta'. by rewrite set_flag_meta.
  - intros kind. unfold meta'. rewrite !set_flag_meta by done. by destruct kind.
  - unfold meta'. by rewrite set_flag_meta.
Qed.

Lemma archived_flags st id meta meta' kind :
  db_inv st → db_handles (rs_db st) !! id = Some meta → is_flag_set meta FLAG_MOVED_TO_ARCHIVE = false → is_flag_set meta' FLAG_MOVED_TO_ARCHIVE = true →
  (∀ kind, is_flag_set meta' (kind_flag kind) = is_flag_set meta (kind_flag kind)) →
  is_Some (archived_files (rs_stored st) id !! (kind, id)) ↔ is_flag_set meta' (kind_flag kind) = true ∧ link_lost kind meta' = false.
Proof.
  intros HI Hm Ho Hmv Hkf. assert (Hst : ∀ k, is_flag_set meta (kind_flag k) = bool_decide (is_Some (rs_stored st !! (k, id)))).
  { intros k. rewrite <- (flag_stored st k id meta HI Hm), link_lost_open, andb_true_r by done. done. }
  rewrite Hkf. destruct kind.
  1,2: rewrite archived_other, Hst, bool_decide_eq_true by auto; cbn [link_lost]; naive_solver.
  cbn [link_lost]. rewrite Hmv, andb_true_r. pose proof (Hkf KProof) as Hp. cbn [kind_flag] in Hp. rewrite Hp. pose proof (Hst KProof) as Hs. cbn [kind_flag] in Hs. rewrite Hs, Hst.
  unfold archived_files. destruct (rs_stored st !! (KProof, id)) as [d|] eqn:E1.
  - rewrite lookup_delete_eq, (bool_decide_eq_true_2 (is_Some (Some d))) by (by eexists). split; [by intros []|by intros [_ ?]].
  - rewrite (bool_decide_eq_false_2 (is_Some None)) by (by intros []). rewrite bool_decide_eq_true. naive_solver.
Qed.

Lemma step_archive_inv st id handle db' :
  db_inv st → load_block_handle (rs_db st) id = Some handle → archivable st handle → archive_block (rs_db st) id = Done (Some (), db') →
  db_inv {| rs_db := db'; rs_first := rs_first st; rs_bound := N.max (rs_bound st) (get_mc_seq_no handle + 1);
            rs_stored := archived_files (rs_stored st) id |}.
Proof.
  intros HI Hl Hab Hrun. unfold load_block_handle in Hl. destruct (db_handles (rs_db st) !! id) as [meta|] eqn:Hm; [|done]. injection Hl as <-.
  fold (handle_of id meta) in *.
  assert (Hd : is_Some (rs_stored st !! (KData, id))) by (apply (iv_flags _ HI); exists meta; split_and!; [done|apply (ab_data _ _ Hab)|done]).
  destruct Hd as [data Hst]. destruct (archive_runs st id meta data HI Hm Hab Hst) as (am' & Hfm & Hrun'). rewrite Hrun' in Hrun. injection Hrun as <-.
  destruct (archived_meta meta) as (Hr & Hmv & Hkf & Hkey). set (meta1 := snd (set_flag meta FLAG_ARCHIVING)) in *.
  set (meta' := snd (set_flag meta1 FLAG_MOVED_TO_ARCHIVE)) in *. set (bound' := N.max _ _) in *.
  assert (Hmc : get_mc_seq_no (handle_of id meta') = get_mc_seq_no (handle_of id meta)) by (by apply get_mc_same).
  pose proof (ab_open _ _ Hab) as Hopen. unfold is_archived in Hopen. cbn [handle_of bh_meta] in Hopen.
  pose proof (fv_bound _ _ _ _ _ _ _ Hfm) as Hb.
  pose proof (files_of_block st id data Hst) as Hfiles.
  split; cbn [rs_db rs_first rs_bound rs_stored put_handle with_handles with_archive db_handles db_archive handle_of bh_id bh_meta].
  - destruct (fv_manager _ _ _ _ _ _ _ Hfm) as [Hf Hk]. constructor; [exact Hf|exact Hk].
  - intros id' m' [[<- <-]|[_ Hm']]%lookup_insert_Some; [done|by apply (iv_archiving _ HI id')].
  - intros id' m' [[<- <-]|[_ Hm']]%lookup_insert_Some Hf; [unfold handle_of in *; rewrite Hmc; unfold bound'; lia|].
    pose proof (iv_bound _ HI id' m' Hm' Hf). unfold handle_of in *. lia.
  - intros kind id'. destruct (decide (id' = id)) as [->|Hne].
    + rewrite (archived_flags st id meta meta' kind HI Hm Hopen Hmv Hkf). split; [intros Hf; exists meta'; by rewrite lookup_insert_eq|].
      intros (m0 & Hm0 & Hf). rewrite lookup_insert_eq in Hm0. by injection Hm0 as <-.
    + rewrite archived_other, (iv_flags _ HI) by auto. split; intros (m0 & Hm0 & Hf); exists m0; [by rewrite lookup_insert_ne|by rewrite lookup_insert_ne in Hm0].
  - intros id' m0 Hm0 Hf. rewrite archived_other by auto. apply lookup_insert_Some in Hm0 as [[<- <-]|[_ Hm0]]; [by eexists|by apply (iv_moved _ HI id' m0)].
  - intros kind id' d [Hd _]%archived_lookup. by apply (iv_data _ HI).
  - intros kind id' d m0 Hs [[<- <-]|[Hne Hm0]]%lookup_insert_Some.
    + rewrite Hmv. apply Hfiles in Hs as Hin. apply (fv_readable _ _ _ _ _ _ _ Hfm) in Hin.
      apply (readable_same _ id meta1 meta'); [by apply set_flag_ref|done|exact Hin].
    + apply archived_lookup in Hs as [Hs _]. pose proof (iv_files _ HI kind id' d m0 Hs Hm0) as Hav. destruct (is_flag_set m0 FLAG_MOVED_TO_ARCHIVE) eqn:Ef.
      * exact (fv_others _ _ _ _ _ _ _ Hfm _ _ _ (iv_bound _ HI id' m0 Hm0 Ef) Hav).
      * cbn [with_unapplied am_unapplied]. etrans; [apply (remove_names_other (_ :: _))|exact Hav].
        intros (k0 & Hk0 & Hn)%(removed_name st id _ data Hst). destruct (iv_names _ HI kind id' k0 id) as [Hx _]; [apply stored_flagged; [done|by eexists]|by apply stored_flagged|congruence|done].
  - intros key [(kind & id' & m0 & Hs & Hm0 & Hf & Hk)%(iv_keys _ HI)|([kind d] & Hin & ->)]%(fv_keys _ _ _ _ _ _ _ Hfm).
    + assert (id' ≠ id) as Hne by congruence. exists kind, id', m0. rewrite lookup_insert_ne, archived_other by auto. done.
    + apply Hfiles in Hin. exists kind, id, meta'. rewrite lookup_insert_eq. split_and!; [by eexists|done..].
  - assert (Hfl : ∀ k i, flagged (put_handle (with_archive (rs_db st) (with_unapplied am' (remove_names (filename_short (EntryBlock id) ::
      option_list ((λ p, filename_short (kind_entry (fst p) id)) <$> proof_of st id)) (am_unapplied (db_archive (rs_db st)))))) (handle_of id meta')) k i → flagged (rs_db st) k i).
    { intros k i Hf0. destruct (flagged_insert (rs_db st) _ id meta' k i Hf0 eq_refl) as [[-> Hf]|Hf]; [exists meta; by rewrite <- Hkf|exact Hf]. }
    intros k1 id1 k2 id2 H1%Hfl H2%Hfl. by apply (iv_names _ HI).
Qed.

(** ** Reachable states *)
Lemma empty_map_ok ty bound : map_ok ty bound empty_file_map.
Proof. split; try done; cbn; try (by intros ? ? ?%not_elem_of_nil); try (by intros ? ? ? ? ?%not_elem_of_nil); try (by intros ? ? ? ? ? ? ?%not_elem_of_nil). constructor. Qed.

Lemma empty_inv first : db_inv {| rs_db := empty_db; rs_first := first; rs_bound := first; rs_stored := ∅ |}.
Proof.
  split; cbn [rs_db rs_first rs_bound rs_stored empty_db db_handles db_archive]; try (intros; by rewrite lookup_empty in *).
  - split; [split; [apply empty_map_ok|lia]|]. exists 0. split; [apply empty_map_ok|]. split; [by left|apply N.le_0_l].
  - intros kind id. rewrite lookup_empty. split; [by intros []|]. by intros (m & Hm & _).
  - by intros key (k & fd & [?%not_elem_of_nil|?%not_elem_of_nil] & _).
  - by intros kind id kind' id' (m & Hm & _).
Qed.

Lemma db_reachable_inv st : db_reachable st → db_inv st.
Proof.
  induction 1 as [first|st st' _ IH Hstep]; [apply empty_inv|].
  destruct Hstep; [by eapply step_store_inv|by eapply step_assign_inv|by eapply step_archive_inv|by eapply step_reload_inv].
Qed.

(** The key of a link that was lost is in no archive. *)
Lemma lost_key st kind' id' id meta :
  db_inv st → db_handles (rs_db st) !! id = Some meta → is_flag_set meta FLAG_PROOF_LINK = true → rs_stored st !! (KProofLink, id) = None →
  is_Some (rs_stored st !! (kind', id')) → offset_key (kind_entry kind' id') ≠ offset_key (EntryProofLink id).
Proof.
  intros HI Hm Hf Hn Hs. apply (iv_names _ HI kind' id' KProofLink id); [by apply stored_flagged|by exists meta|].
  intros [= -> ->]. rewrite Hn in Hs. by destruct Hs.
Qed.

(** The flag of the link stays. *)
Lemma archived_link_flag st id handle db' meta' d :
  db_inv st → load_block_handle (rs_db st) id = Some handle → archivable st handle → archive_block (rs_db st) id = Done (Some (), db') →
  rs_stored st !! (KProofLink, id) = Some d → db_handles db' !! id = Some meta' → is_flag_set meta' FLAG_PROOF_LINK = true.
Proof.
  intros HI Hl Hab Hrun Hst Hm'. unfold load_block_handle in Hl. destruct (db_handles (rs_db st) !! id) as [meta|] eqn:Hm; [|done]. injection Hl as <-.
  assert (Hd : is_Some (rs_stored st !! (KData, id))).
  { apply (iv_flags _ HI). exists meta. split_and!; [done|apply (ab_data _ _ Hab)|done]. }
  destruct Hd as [data Hd]. destruct (archive_runs st id meta data HI Hm Hab Hd) as (am' & _ & Hrun'). rewrite Hrun' in Hrun. injection Hrun as <-.
  cbn [put_handle with_handles db_handles handle_of bh_id bh_meta] in Hm'. rewrite lookup_insert_eq in Hm'. injection Hm' as <-.
  destruct (archived_meta meta) as (_ & _ & Hkf & _). pose proof (Hkf KProofLink) as Hk. cbn [kind_flag] in Hk. rewrite Hk.
  destruct (proj1 (iv_flags _ HI KProofLink id)) as (m0 & Hm0 & Hf0 & _); [by eexists|]. cbn [kind_flag] in Hf0. congruence.
Qed.

(** An archivable block is archived. *)
Lemma archive_progress st id handle :
  db_inv st → load_block_handle (rs_db st) id = Some handle → archivable st handle →
  ∃ db' handle', archive_block (rs_db st) id = Done (Some (), db') ∧ load_block_handle db' id = Some handle' ∧ is_archived handle' = true.
Proof.
  intros HI Hl Hab. unfold load_block_handle in Hl. destruct (db_handles (rs_db st) !! id) as [meta|] eqn:Hm; [|done]. injection Hl as <-.
  assert (Hd : is_Some (rs_stored st !! (KData, id))) by (apply (iv_flags _ HI); exists meta; split_and!; [done|apply (ab_data _ _ Hab)|done]).
  destruct Hd as [data Hst]. destruct (archive_runs st id meta data HI Hm Hab Hst) as (am' & _ & Hrun').
  destruct (archived_meta meta) as (_ & Hmv & _). eexists _, (handle_of id _). split; [exact Hrun'|].
  unfold load_block_handle. cbn [put_handle with_handles db_handles handle_of bh_id bh_meta]. rewrite lookup_insert_eq. split; [done|exact Hmv].
Qed.
End safety.
