(* ===== verification/HandleStorage.v ===== *)
(** * Storage: the storage of block handles

    Models [storage/src/block_handle_db.rs] and the destructor of [BlockHandle] in
    [types/block_handle.rs].  Handles are shared objects: the heap counts the strong
    references to each, the cache holds weak references, and the queue of the
    storing task holds strong ones.  An object without references is destroyed by a
    step of its own.  Every access to the lock-free maps, to the database, to the
    queue or to the meta data of a handle is a step of its own: a call of
    [load_handle] or [create_handle] is a caller that goes through its stages, and the
    storing task first serializes a handle and then writes it.  Callbacks and the
    closing of the queue are not modelled. *)

From S2P Require Import Prelude BlockId BlockMeta.

#[global] Instance BlockMeta_eq_dec : EqDecision BlockMeta.
Proof. solve_decision. Defined.

Section storage.
Context {SI : ShardIdents}.
Implicit Types (id : BlockIdExt) (meta : BlockMeta) (addr : N) (key : list N).

Record HandleObject := { ho_id : BlockIdExt; ho_meta : BlockMeta; ho_refs : N }.

Inductive StoreJob :=
| JobHandle (handle : N)
| JobState (key : list N) (id : BlockIdExt).

Inductive LoadResult :=
| LoadFound (handle : N)
| LoadNone
| LoadError.

(** Where a call is.  [load_handle]: before [handle_cache.get], before [upgrade], before the
    read of the database, before the new handle is added to the cache, before the
    destructor of a handle that was not added.  [create_handle]: before the handle is
    added, before the destructor of one that was not added.  [Sending]: the handle was
    created or its meta data were changed, and [store_handle] is about to be called. *)
Inductive Caller :=
| LoadLook (id : BlockIdExt)
| LoadGot (id : BlockIdExt) (addr : N)
| LoadMiss (id : BlockIdExt)
| LoadRead (id : BlockIdExt) (meta : BlockMeta)
| LoadDropping (id : BlockIdExt)
| CreateAdd (id : BlockIdExt) (meta : BlockMeta)
| CreateDropping (id : BlockIdExt)
| Sending (addr : N)
| Returned (r : LoadResult).

(** The databases, caches and the queue; [storing] is the handle that the storing task
    has serialized and not yet written, [hs_callers] are the calls. *)
Record BlockHandleStorage := {
  handle_db : gmap BlockIdExt (list N);
  handle_cache : gmap BlockIdExt N;
  state_db : gmap (list N) (list N);
  state_cache : gmap (list N) BlockIdExt;
  storer : list StoreJob;
  storing : option (N * list N);
  hs_callers : list Caller;
  hs_heap : gmap N HandleObject;
  hs_next : N;
}.
Implicit Types (self : BlockHandleStorage) (o : HandleObject).

Definition BlockHandleStorage_with_dbs (handle_db : gmap BlockIdExt (list N)) (state_db : gmap (list N) (list N)) : BlockHandleStorage :=
  {| handle_db := handle_db; handle_cache := ∅; state_db := state_db; state_cache := ∅; storer := []; storing := None; hs_callers := [];
     hs_heap := ∅; hs_next := 0 |}.

Definition set_db self (db : gmap BlockIdExt (list N)) : BlockHandleStorage :=
  {| handle_db := db; handle_cache := handle_cache self; state_db := state_db self; state_cache := state_cache self;
     storer := storer self; storing := storing self; hs_callers := hs_callers self; hs_heap := hs_heap self; hs_next := hs_next self |}.
Definition set_cache self (cache : gmap BlockIdExt N) : BlockHandleStorage :=
  {| handle_db := handle_db self; handle_cache := cache; state_db := state_db self; state_cache := state_cache self;
     storer := storer self; storing := storing self; hs_callers := hs_callers self; hs_heap := hs_heap self; hs_next := hs_next self |}.
Definition set_states self (db : gmap (list N) (list N)) (cache : gmap (list N) BlockIdExt) : BlockHandleStorage :=
  {| handle_db := handle_db self; handle_cache := handle_cache self; state_db := db; state_cache := cache;
     storer := storer self; storing := storing self; hs_callers := hs_callers self; hs_heap := hs_heap self; hs_next := hs_next self |}.
Definition set_storer self (jobs : list StoreJob) (job : option (N * list N)) : BlockHandleStorage :=
  {| handle_db := handle_db self; handle_cache := handle_cache self; state_db := state_db self; state_cache := state_cache self;
     storer := jobs; storing := job; hs_callers := hs_callers self; hs_heap := hs_heap self; hs_next := hs_next self |}.
Definition set_callers self (cs : list Caller) : BlockHandleStorage :=
  {| handle_db := handle_db self; handle_cache := handle_cache self; state_db := state_db self; state_cache := state_cache self;
     storer := storer self; storing := storing self; hs_callers := cs; hs_heap := hs_heap self; hs_next := hs_next self |}.
Definition set_heap self (heap : gmap N HandleObject) (next : N) : BlockHandleStorage :=
  {| handle_db := handle_db self; handle_cache := handle_cache self; state_db := state_db self; state_cache := state_cache self;
     storer := storer self; storing := storing self; hs_callers := hs_callers self; hs_heap := heap; hs_next := next |}.

(** ** References *)
Definition strong_count self addr : N := match hs_heap self !! addr with Some o => ho_refs o | None => 0 end.

Definition with_refs o (refs : N) : HandleObject := {| ho_id := ho_id o; ho_meta := ho_meta o; ho_refs := refs |}.
Definition with_meta o meta : HandleObject := {| ho_id := ho_id o; ho_meta := meta; ho_refs := ho_refs o |}.

Definition add_ref self addr : BlockHandleStorage :=
  match hs_heap self !! addr with
  | Some o => set_heap self (<[addr := with_refs o (ho_refs o + 1)]> (hs_heap self)) (hs_next self)
  | None => self
  end.
Definition drop_ref self addr : BlockHandleStorage :=
  match hs_heap self !! addr with
  | Some o => set_heap self (<[addr := with_refs o (ho_refs o - 1)]> (hs_heap self)) (hs_next self)
  | None => self
  end.

(** [Weak::upgrade] *)
Definition upgrade self addr : option BlockHandleStorage := if 0 <? strong_count self addr then Some (add_ref self addr) else None.

(** [BlockHandle::drop]: the entry of the cache goes if nobody uses its handle. *)
Definition BlockHandle_drop self id : BlockHandleStorage :=
  match handle_cache self !! id with
  | Some addr => if strong_count self addr =? 0 then set_cache self (delete id (handle_cache self)) else self
  | None => self
  end.

(** The destructor of an object without references. *)
Definition destroy_handle self addr : BlockHandleStorage :=
  match hs_heap self !! addr with
  | Some o => if ho_refs o =? 0 then BlockHandle_drop (set_heap self (delete addr (hs_heap self)) (hs_next self)) (ho_id o) else self
  | None => self
  end.

(** ** Handles *)
Definition store_handle self addr : BlockHandleStorage :=
  let self := add_ref self addr in set_storer self (storer self ++ [JobHandle addr]) (storing self).

(** [handle_db.try_get_value]; a value that cannot be read is an error. *)
Definition try_get_value self id : option (option BlockMeta) :=
  match handle_db self !! id with
  | None => Some None
  | Some bytes => match BlockMeta_deserialize bytes with Some (meta, _) => Some (Some meta) | None => None end
  end.

(** The first part of [create_handle_and_store]: [add_object_to_map] adds the new handle
    if there is no entry. *)
Definition cache_handle self id meta : option (N * BlockHandleStorage) :=
  match handle_cache self !! id with
  | Some _ => None
  | None =>
      let addr := hs_next self in
      let self := set_heap self (<[addr := {| ho_id := id; ho_meta := meta; ho_refs := 1 |}]> (hs_heap self)) (addr + 1) in
      Some (addr, set_cache self (<[id := addr]> (handle_cache self)))
  end.

(** The next step of a call. *)
Definition call_step self (c : Caller) : Caller * BlockHandleStorage :=
  match c with
  | LoadLook id => (match handle_cache self !! id with Some addr => LoadGot id addr | None => LoadMiss id end, self)
  | LoadGot id addr =>
      match upgrade self addr with Some self => (Returned (LoadFound addr), self) | None => (LoadMiss id, self) end
  | LoadMiss id =>
      (match try_get_value self id with
       | None => Returned LoadError
       | Some None => Returned LoadNone
       | Some (Some meta) => LoadRead id meta
       end, self)
  | LoadRead id meta =>
      match cache_handle self id meta with Some (addr, self) => (Returned (LoadFound addr), self) | None => (LoadDropping id, self) end
  | LoadDropping id => (LoadLook id, BlockHandle_drop self id)
  | CreateAdd id meta =>
      match cache_handle self id meta with Some (addr, self) => (Sending addr, self) | None => (CreateDropping id, self) end
  | CreateDropping id => (Returned LoadNone, BlockHandle_drop self id)
  | Sending addr => (Returned (LoadFound addr), store_handle self addr)
  | Returned r => (Returned r, self)
  end.

(** Call [n] makes its next step. *)
Definition caller_step self (n : nat) : BlockHandleStorage :=
  match hs_callers self !! n with
  | Some c => let '(c', self') := call_step self c in set_callers self' (<[n := c']> (hs_callers self'))
  | None => self
  end.

Definition add_caller self (c : Caller) : BlockHandleStorage := set_callers self (hs_callers self ++ [c]).

(** A whole call that nobody interrupts. *)
Fixpoint run_call (fuel : nat) self (c : Caller) : Caller * BlockHandleStorage :=
  match c, fuel with
  | Returned _, _ | _, O => (c, self)
  | _, S fuel' => let '(c', self') := call_step self c in run_call fuel' self' c'
  end.
Definition load_handle (fuel : nat) self id : Caller * BlockHandleStorage := run_call fuel self (LoadLook id).
Definition create_handle self id meta : Caller * BlockHandleStorage := run_call 2 self (CreateAdd id meta).

(** The owner of a handle changes its meta data, with [f], and will store the handle when
    [f] says so: the setters of flags and of the masterchain reference. *)
Definition update_handle self addr (f : BlockMeta → bool * BlockMeta) : BlockHandleStorage :=
  match hs_heap self !! addr with
  | Some o =>
      let '(changed, meta) := f (ho_meta o) in
      let self := set_heap self (<[addr := with_meta o meta]> (hs_heap self)) (hs_next self) in
      if changed then add_caller self (Sending addr) else self
  | None => self
  end.

(** ** States of the node *)
Definition create_state self key id : BlockHandleStorage := set_states self (state_db self) (<[key := id]> (state_cache self)).

Definition load_state self key : option (option BlockIdExt) * BlockHandleStorage :=
  match state_cache self !! key with
  | Some id => (Some (Some id), self)
  | None =>
      match state_db self !! key with
      | Some bytes =>
          match BlockIdExt_deserialize bytes with
          | Some (id, _) => (Some (Some id), create_state self key id)
          | None => (None, self)
          end
      | None => (Some None, self)
      end
  end.

Definition store_state self key id : BlockHandleStorage :=
  let self := create_state self key id in set_storer self (storer self ++ [JobState key id]) (storing self).

(** ** The storing task *)

(** The next job is taken: a handle is serialized, a state is written ([ok] tells whether
    the database took it). *)
Definition storer_take (ok : bool) self : BlockHandleStorage :=
  match storing self, storer self with
  | None, JobHandle addr :: jobs =>
      match hs_heap self !! addr with
      | Some o => set_storer self jobs (Some (addr, BlockMeta_serialize (ho_meta o)))
      | None => set_storer self jobs None
      end
  | None, JobState key id :: jobs =>
      let self := set_storer self jobs None in
      if ok then set_states self (<[key := BlockIdExt_serialize id]> (state_db self)) (state_cache self) else self
  | _, _ => self
  end.

(** The handle is written, if the database takes it; the reference of the job is given up
    by a step of its own. *)
Definition storer_put (ok : bool) self : BlockHandleStorage :=
  match storing self with
  | Some (addr, bytes) =>
      let self := set_storer self (storer self) None in
      match hs_heap self !! addr with
      | Some o => if ok then set_db self (<[ho_id o := bytes]> (handle_db self)) else self
      | None => self
      end
  | None => self
  end.

(** ** What loading a handle gives *)
Definition handle_view self id : option BlockMeta :=
  match handle_cache self !! id with
  | Some addr => if 0 <? strong_count self addr then ho_meta <$> hs_heap self !! addr
                 else match try_get_value self id with Some r => r | None => None end
  | None => match try_get_value self id with Some r => r | None => None end
  end.
End storage.

(** ** Storage: handles exist once and keep their meta data

    The machine of the handle storage and its invariant: a block has at most one handle
    in use, that one is in the cache, and what is not waiting to be stored is in the
    database. *)

Section facts.
Context {SI : ShardIdents}.
Implicit Types (id : BlockIdExt) (meta : BlockMeta) (addr : N) (key : list N) (s : BlockHandleStorage) (o : HandleObject).

(** ** The machine *)
Fixpoint job_count addr (jobs : list StoreJob) : N :=
  match jobs with
  | [] => 0
  | JobHandle a :: jobs' => (if a =? addr then 1 else 0) + job_count addr jobs'
  | JobState _ _ :: jobs' => job_count addr jobs'
  end.
Definition sends addr (c : Caller) : N := match c with Sending a => if a =? addr then 1 else 0 | _ => 0 end.
Definition send_count addr (cs : list Caller) : N := foldr (λ c n, sends addr c + n) 0 cs.
Definition storing_count addr (job : option (N * list N)) : N := match job with Some (a, _) => if a =? addr then 1 else 0 | None => 0 end.

(** The stores of a handle that are to come: sent, about to be sent, or being written. *)
Definition jobs_of s addr : N := job_count addr (storer s) + send_count addr (hs_callers s) + storing_count addr (storing s).

Lemma job_count_app addr l1 l2 : job_count addr (l1 ++ l2) = job_count addr l1 + job_count addr l2.
Proof. induction l1 as [|[a|] l1 IH]; cbn [job_count app]; [done|rewrite IH; lia|done]. Qed.

Lemma send_count_app addr l1 l2 : send_count addr (l1 ++ l2) = send_count addr l1 + send_count addr l2.
Proof. unfold send_count. induction l1 as [|c l1 IH]; simpl; [done|lia]. Qed.

Lemma send_count_insert addr cs n c c' : cs !! n = Some c → send_count addr (<[n := c']> cs) + sends addr c = send_count addr cs + sends addr c'.
Proof.
  unfold send_count. revert n. induction cs as [|x cs IH]; intros [|n] Hn; try done; simpl in Hn; simpl foldr.
  - injection Hn as ->. lia.
  - specialize (IH n Hn). lia.
Qed.

(** Somebody besides the storing task has the handle. *)
Definition owned s addr : Prop := jobs_of s addr < strong_count s addr.

(** A change of meta data: what is not stored is not changed. *)
Record meta_change (f : BlockMeta → bool * BlockMeta) : Prop := {
  mc_ok m : meta_ok m → meta_ok (snd (f m));
  mc_stored m : fst (f m) = false → BlockMeta_serialize (snd (f m)) = BlockMeta_serialize m;
}.

(** A new handle is about to be added that is not what the database holds: a store of the
    block reached the database after the caller read it. *)
Definition overtaken s (c : Caller) : Prop :=
  match c with
  | LoadRead id meta => handle_cache s !! id = None ∧ try_get_value s id ≠ Some (Some meta)
  | CreateAdd id meta => handle_cache s !! id = None ∧ try_get_value s id ≠ Some None
  | _ => False
  end.

(** In a calm run no caller is overtaken and the database takes what is written. *)
Inductive hs_step (calm : bool) : BlockHandleStorage → BlockHandleStorage → Prop :=
| hs_begin_load s id : hs_step calm s (add_caller s (LoadLook id))
| hs_begin_create s id meta : meta_ok meta → hs_step calm s (add_caller s (CreateAdd id meta))
| hs_call s n c : hs_callers s !! n = Some c → (calm = true → ¬ overtaken s c) → hs_step calm s (caller_step s n)
| hs_clone s addr : 0 < strong_count s addr → hs_step calm s (add_ref s addr)
| hs_drop s addr : owned s addr → hs_step calm s (drop_ref s addr)
| hs_destroy s addr : hs_step calm s (destroy_handle s addr)
| hs_update s addr f : owned s addr → meta_change f → hs_step calm s (update_handle s addr f)
| hs_take s ok : hs_step calm s (storer_take ok s)
| hs_put s ok : (calm = true → ok = true) → hs_step calm s (storer_put ok s)
| hs_store_state s key id : hs_step calm s (store_state s key id)
| hs_load_state s key : hs_step calm s (snd (load_state s key)).

(** The databases of a node that was stopped. *)
Definition stored_metas (db : gmap BlockIdExt (list N)) : Prop :=
  ∀ id bytes, db !! id = Some bytes → ∃ m, meta_ok m ∧ bytes = BlockMeta_serialize m.

Inductive hs_reachable : BlockHandleStorage → Prop :=
| hs_initial db states : stored_metas db → hs_reachable (BlockHandleStorage_with_dbs db states)
| hs_next_step s s' : hs_reachable s → hs_step true s s' → hs_reachable s'.

(** ** The invariant *)
Definition caller_ok s (c : Caller) : Prop :=
  match c with
  | LoadGot id addr => addr < hs_next s ∧ ∀ o, hs_heap s !! addr = Some o → ho_id o = id
  | LoadRead _ meta | CreateAdd _ meta => meta_ok meta
  | _ => True
  end.

Record hs_inv s : Prop := {
  hi_cache id addr o : handle_cache s !! id = Some addr → hs_heap s !! addr = Some o → ho_id o = id;
  hi_live addr o : hs_heap s !! addr = Some o → 0 < ho_refs o → handle_cache s !! ho_id o = Some addr;
  hi_jobs addr : jobs_of s addr <= strong_count s addr;
  hi_clean addr o : hs_heap s !! addr = Some o → 0 < ho_refs o → jobs_of s addr = 0 →
    handle_db s !! ho_id o = Some (BlockMeta_serialize (ho_meta o));
  hi_meta addr o : hs_heap s !! addr = Some o → meta_ok (ho_meta o);
  hi_db : stored_metas (handle_db s);
  hi_next addr : is_Some (hs_heap s !! addr) → addr < hs_next s;
  hi_cached id addr : handle_cache s !! id = Some addr → addr < hs_next s;
  hi_job_next addr : 0 < jobs_of s addr → addr < hs_next s;
  hi_callers n c : hs_callers s !! n = Some c → caller_ok s c;
  hi_storing addr bytes : storing s = Some (addr, bytes) → ∃ o m, hs_heap s !! addr = Some o ∧ meta_ok m ∧ bytes = BlockMeta_serialize m ∧
    (bytes = BlockMeta_serialize (ho_meta o) ∨ 1 < jobs_of s addr);
}.

(** ** Views *)
Definition live_meta s id meta : Prop := ∃ addr o, hs_heap s !! addr = Some o ∧ ho_id o = id ∧ 0 < ho_refs o ∧ ho_meta o = meta.

Definition db_view s id : option BlockMeta := match try_get_value s id with Some r => r | None => None end.

Lemma strong_heap s addr o : hs_heap s !! addr = Some o → strong_count s addr = ho_refs o.
Proof. unfold strong_count. by intros ->. Qed.

Lemma view_live s id meta : hs_inv s → live_meta s id meta → handle_view s id = Some meta.
Proof.
  intros HI (addr & o & Ho & <- & Hr & <-). unfold handle_view. rewrite (hi_live _ HI addr o Ho Hr), (strong_heap _ _ _ Ho).
  rewrite (proj2 (N.ltb_lt _ _) Hr), Ho. done.
Qed.

Lemma view_dead s id : hs_inv s → (∀ meta, ¬ live_meta s id meta) → handle_view s id = db_view s id.
Proof.
  intros HI Hn. unfold handle_view. destruct (handle_cache s !! id) as [addr|] eqn:Ec; [|done].
  destruct (N.ltb_spec 0 (strong_count s addr)) as [Hr|]; [|done]. unfold strong_count in Hr. destruct (hs_heap s !! addr) as [o|] eqn:Ho; [|lia].
  exfalso. apply (Hn (ho_meta o)). exists addr, o. split_and!; try done. by apply (hi_cache _ HI id addr).
Qed.

Lemma live_dec s id : hs_inv s → (∃ meta, live_meta s id meta) ∨ (∀ meta, ¬ live_meta s id meta).
Proof.
  intros HI. destruct (handle_cache s !! id) as [addr|] eqn:Ec.
  - destruct (hs_heap s !! addr) as [o|] eqn:Ho.
    + destruct (N.eq_0_gt_0_cases (ho_refs o)) as [Hz|Hp].
      * right. intros m (a & o' & Ho' & Hid & Hr & _). pose proof (hi_live _ HI a o' Ho' Hr) as Hc. rewrite Hid, Ec in Hc. simplify_eq. lia.
      * left. exists (ho_meta o), addr, o. split_and!; try done. by apply (hi_cache _ HI id addr).
    + right. intros m (a & o' & Ho' & Hid & Hr & _). pose proof (hi_live _ HI a o' Ho' Hr) as Hc. rewrite Hid, Ec in Hc. simplify_eq.
  - right. intros m (a & o' & Ho' & Hid & Hr & _). pose proof (hi_live _ HI a o' Ho' Hr) as Hc. rewrite Hid, Ec in Hc. done.
Qed.

(** Nothing that loading sees changed. *)
Lemma view_same s s' id :
  hs_inv s → hs_inv s' → (∀ meta, live_meta s id meta ↔ live_meta s' id meta) → handle_db s' !! id = handle_db s !! id →
  handle_view s' id = handle_view s id.
Proof.
  intros HI HI' Hl Hdb. destruct (live_dec s id HI) as [[m Hm]|Hn].
  - rewrite (view_live s id m HI Hm). apply view_live; [done|]. by apply Hl.
  - rewrite (view_dead s id HI Hn), (view_dead s' id HI'); [|intros m Hm; by apply (Hn m), Hl].
    unfold db_view, try_get_value. by rewrite Hdb.
Qed.

Lemma drop_ref_rest s addr :
  handle_db (drop_ref s addr) = handle_db s ∧ handle_cache (drop_ref s addr) = handle_cache s ∧ storer (drop_ref s addr) = storer s ∧
  hs_next (drop_ref s addr) = hs_next s.
Proof. unfold drop_ref. by destruct (hs_heap s !! addr). Qed.

(** ** One object changes *)
Record object_change s s' addr o o' : Prop := {
  oc_old : hs_heap s !! addr = Some o;
  oc_new : hs_heap s' = <[addr := o']> (hs_heap s);
  oc_id : ho_id o' = ho_id o;
  oc_cache : handle_cache s' = handle_cache s;
  oc_next : hs_next s' = hs_next s;
  oc_jobs a : a ≠ addr → jobs_of s' a = jobs_of s a;
  oc_live : 0 < ho_refs o' → 0 < ho_refs o;
  oc_refs : jobs_of s' addr <= ho_refs o';
  oc_meta : meta_ok (ho_meta o');
  oc_clean : 0 < ho_refs o' → jobs_of s' addr = 0 → handle_db s' !! ho_id o = Some (BlockMeta_serialize (ho_meta o'));
  oc_db : handle_db s' = handle_db s ∨ (0 < ho_refs o ∧ ∃ m, meta_ok m ∧ handle_db s' = <[ho_id o := BlockMeta_serialize m]> (handle_db s));
  oc_callers n c : hs_callers s' !! n = Some c → caller_ok s c;
  oc_storing a bytes : storing s' = Some (a, bytes) → storing s = Some (a, bytes);
  oc_pending bytes : storing s' = Some (addr, bytes) → bytes = BlockMeta_serialize (ho_meta o) ∨ 1 < jobs_of s addr →
    bytes = BlockMeta_serialize (ho_meta o') ∨ 1 < jobs_of s' addr;
}.

Lemma change_heap s s' addr o o' a o1 :
  object_change s s' addr o o' → hs_heap s' !! a = Some o1 → (a = addr ∧ o1 = o') ∨ (a ≠ addr ∧ hs_heap s !! a = Some o1).
Proof. intros Hc. rewrite (oc_new _ _ _ _ _ Hc). intros [[<- <-]|[Hne Ho]]%lookup_insert_Some; auto. Qed.

Lemma change_caller s s' addr o o' c : object_change s s' addr o o' → caller_ok s c → caller_ok s' c.
Proof.
  intros Hc. destruct c; try done. cbn. rewrite (oc_next _ _ _ _ _ Hc). intros [? Ho]. split; [done|].
  intros o1 [[-> ->]|[_ H1]]%(change_heap _ _ _ _ _ _ _ Hc); [|by apply Ho]. rewrite (oc_id _ _ _ _ _ Hc). apply Ho, Hc.
Qed.

Lemma change_db s s' addr o o' : hs_inv s → object_change s s' addr o o' → stored_metas (handle_db s').
Proof.
  intros HI Hc. destruct (oc_db _ _ _ _ _ Hc) as [->|(_ & m & Hm & ->)]; [apply HI|].
  intros id b [[<- <-]|[_ Hb]]%lookup_insert_Some; [by eexists|by apply (hi_db _ HI id)].
Qed.

Lemma change_storing s s' addr o o' a bytes : hs_inv s → object_change s s' addr o o' → storing s' = Some (a, bytes) →
  ∃ o1 m, hs_heap s' !! a = Some o1 ∧ meta_ok m ∧ bytes = BlockMeta_serialize m ∧ (bytes = BlockMeta_serialize (ho_meta o1) ∨ 1 < jobs_of s' a).
Proof.
  intros HI Hc Hs. destruct (hi_storing _ HI a bytes (oc_storing _ _ _ _ _ Hc a bytes Hs)) as (o1 & m & Ho1 & Hm & Hb & Hor).
  rewrite (oc_new _ _ _ _ _ Hc). destruct (decide (a = addr)) as [->|Hne].
  - rewrite lookup_insert_eq. pose proof (oc_old _ _ _ _ _ Hc). simplify_eq. exists o', m. split_and!; try done. by apply (oc_pending _ _ _ _ _ Hc).
  - rewrite lookup_insert_ne by done. exists o1, m. by rewrite (oc_jobs _ _ _ _ _ Hc a Hne).
Qed.

Lemma change_inv s s' addr o o' : hs_inv s → object_change s s' addr o o' → hs_inv s'.
Proof.
  intros HI Hc. pose proof (change_heap s s' addr o o') as Hheap. pose proof (change_db _ _ _ _ _ HI Hc) as Hdbs.
  pose proof Hc as [Hold Hnew Hid Hca Hnx Hjobs Hlive Hrefs Hmeta Hclean Hdb Hcs Hst Hpe].
  split; try done; rewrite ?Hca, ?Hnx.
  - intros id a o1 Hi [[-> ->]|[_ Ho]]%(Hheap _ _ Hc); [rewrite Hid|]; by eapply (hi_cache _ HI).
  - intros a o1 [[-> ->]|[_ Ho]]%(Hheap _ _ Hc) Hr; [rewrite Hid|]; apply (hi_live _ HI); auto.
  - intros a. unfold strong_count. rewrite Hnew. destruct (decide (a = addr)) as [->|Hne]; [by rewrite lookup_insert_eq|].
    rewrite lookup_insert_ne, Hjobs by done. apply (hi_jobs _ HI).
  - intros a o1 [[-> ->]|[Hne Ho]]%(Hheap _ _ Hc) Hr Hj; [rewrite Hid; by apply Hclean|]. rewrite Hjobs in Hj by done.
    pose proof (hi_clean _ HI a o1 Ho Hr Hj) as Hcl. destruct Hdb as [->|(Hr0 & m & _ & ->)]; [done|]. rewrite lookup_insert_ne; [done|].
    intros Heq. pose proof (hi_live _ HI a o1 Ho Hr). pose proof (hi_live _ HI addr o Hold Hr0). congruence.
  - intros a o1 [[-> ->]|[_ Ho]]%(Hheap _ _ Hc); [done|by apply (hi_meta _ HI a)].
  - intros a [o1 [[-> _]|[_ Ho]]%(Hheap _ _ Hc)]; apply (hi_next _ HI); eauto.
  - intros id a. rewrite ?Hca, ?Hnx. apply (hi_cached _ HI).
  - intros a Hj. destruct (decide (a = addr)) as [->|Hne]; [apply (hi_next _ HI); eauto|]. apply (hi_job_next _ HI). by rewrite <- Hjobs.
  - intros n c Hn. by eapply change_caller, Hcs.
  - intros a bytes. by apply (change_storing s s' addr o o').
Qed.

(** The views of the other blocks are the same. *)
Lemma change_live s s' addr o o' id meta :
  hs_inv s → object_change s s' addr o o' → live_meta s' id meta ↔
  (id = ho_id o ∧ 0 < ho_refs o' ∧ meta = ho_meta o') ∨ ((id ≠ ho_id o ∨ ho_refs o = 0) ∧ live_meta s id meta).
Proof.
  intros HI Hc. pose proof (oc_id _ _ _ _ _ Hc) as Hid. split.
  - intros (a & o1 & [[-> ->]|[Hne Ho]]%(change_heap _ _ _ _ _ _ _ Hc) & Hi & Hr & Hm); [left; split_and!; congruence|right].
    split; [|by exists a, o1]. destruct (N.eq_0_gt_0_cases (ho_refs o)) as [Hz|Hp]; [by right|left]. intros ->.
    pose proof (hi_live _ HI a o1 Ho Hr). pose proof (hi_live _ HI addr o (oc_old _ _ _ _ _ Hc) Hp). congruence.
  - intros [(-> & Hr & ->)|(Hor & a & o1 & Ho & Hi & Hr & Hm)].
    + exists addr, o'. rewrite (oc_new _ _ _ _ _ Hc), lookup_insert_eq. done.
    + exists a, o1. rewrite (oc_new _ _ _ _ _ Hc), lookup_insert_ne; [done|]. intros <-. pose proof (oc_old _ _ _ _ _ Hc). simplify_eq.
      destruct Hor; [done|lia].
Qed.

Lemma change_view s s' addr o o' id :
  hs_inv s → object_change s s' addr o o' → (0 < ho_refs o' ∧ ho_meta o' = ho_meta o) ∨ ho_refs o = 0 ∨ id ≠ ho_id o →
  handle_view s' id = handle_view s id.
Proof.
  intros HI Hc Hsame. pose proof (change_inv s s' addr o o' HI Hc) as HI'. pose proof (oc_live _ _ _ _ _ Hc) as Hlv.
  assert (Hl : ∀ meta, live_meta s id meta ↔ live_meta s' id meta).
  { intros meta. rewrite (change_live s s' addr o o' id meta HI Hc). destruct (decide (id = ho_id o)) as [->|Hne].
    - destruct Hsame as [[Hr Hm]|[Hz|?]]; [|split; [by auto|intros [(_ & Hr & _)|[_ ?]]; [lia|done]]|done]. split.
      + intros (a & o1 & Ho & Hi & Hr1 & <-). left. split_and!; try done. rewrite Hm.
        pose proof (hi_live _ HI a o1 Ho Hr1). pose proof (hi_live _ HI addr o (oc_old _ _ _ _ _ Hc) (Hlv Hr)). assert (a = addr) as -> by congruence.
        pose proof (oc_old _ _ _ _ _ Hc). congruence.
      + intros [(_ & _ & ->)|[_ ?]]; [|done]. exists addr, o. rewrite Hm. split_and!; [apply Hc|done|auto|done].
    - split; [auto|]. intros [(? & _)|[_ ?]]; done. }
  destruct (live_dec s id HI) as [[m Hm]|Hn].
  - rewrite (view_live s id m HI Hm). apply view_live; [done|]. by apply Hl.
  - apply view_same; try done. destruct (oc_db _ _ _ _ _ Hc) as [->|(Hr & m & _ & ->)]; [done|]. rewrite lookup_insert_ne; [done|].
    intros <-. apply (Hn (ho_meta o)). exists addr, o. split_and!; [apply Hc|done..].
Qed.

(** ** Stored meta data *)
Lemma meta_word x : x < two64 → N.lor (N.shiftl (as_u32 (N.shiftr x 32)) 32) (as_u32 x) = x.
Proof.
  intros Hx. apply N.bits_inj. intros i. rewrite N.lor_spec, as_u32_testbit. destruct (N.ltb_spec i 32) as [Hi|Hi].
  - by rewrite N.shiftl_spec_low.
  - rewrite N.shiftl_spec_high', as_u32_testbit, N.shiftr_spec' by done. cbn [andb]. rewrite orb_false_r, N.sub_add by done.
    destruct (N.ltb_spec (i - 32) 32) as [|Hge]; [done|]. symmetry. apply (testbit_below x 64); [done|lia].
Qed.

Definition reload meta : BlockMeta :=
  {| bm_flags := N.land (bm_flags meta) FLAG_MASK; bm_gen_utime := bm_gen_utime meta; bm_gen_lt := bm_gen_lt meta |}.

Lemma mask_small x : N.land x FLAG_MASK < two64.
Proof. rewrite land_mask. etrans; [apply N.mod_upper_bound; lia|done]. Qed.

Lemma reload_ok meta :
  meta_ok meta → BlockMeta_deserialize (BlockMeta_serialize meta) = Some (reload meta, []) ∧ meta_ok (reload meta) ∧
  BlockMeta_serialize (reload meta) = BlockMeta_serialize meta.
Proof.
  intros (Hf & Hu & Hl). pose proof (mask_small (bm_flags meta)) as Hm. split_and!.
  - unfold BlockMeta_deserialize, BlockMeta_serialize. rewrite <- (app_nil_r (le_bytes 8 (bm_gen_lt meta))).
    do 3 (rewrite read_le_app by done; cbn [mbind option_bind]). unfold BlockMeta_with_data. by rewrite meta_word.
  - by split_and!.
  - unfold BlockMeta_serialize. cbn [reload bm_flags bm_gen_utime bm_gen_lt]. rewrite <- N.land_assoc, N.land_diag. done.
Qed.

Lemma db_view_stored s id meta :
  meta_ok meta → handle_db s !! id = Some (BlockMeta_serialize meta) → db_view s id = Some (reload meta).
Proof. intros Hm Hdb. unfold db_view, try_get_value. rewrite Hdb. by rewrite (proj1 (reload_ok meta Hm)). Qed.

(** ** The last reference *)
Definition reloaded (v v' : option BlockMeta) : Prop := v' = v ∨ v' = reload <$> v.

Lemma change_view_last s s' addr o o' id :
  hs_inv s → object_change s s' addr o o' → 0 < ho_refs o → ho_meta o' = ho_meta o →
  handle_db s' !! ho_id o = Some (BlockMeta_serialize (ho_meta o)) ∨ 0 < ho_refs o' → reloaded (handle_view s id) (handle_view s' id).
Proof.
  intros HI Hc Hr Hm Hlast. destruct (decide (id = ho_id o)) as [->|Hne]; [|left; by apply (change_view s s' addr o o'); auto].
  destruct (N.eq_0_gt_0_cases (ho_refs o')) as [Hz|Hp]; [|left; apply (change_view s s' addr o o'); auto].
  destruct Hlast as [Hdb|?]; [|lia]. right. pose proof (change_inv s s' addr o o' HI Hc) as HI'. pose proof (oc_old _ _ _ _ _ Hc) as Hold.
  rewrite (view_live s (ho_id o) (ho_meta o) HI) by (by exists addr, o). rewrite view_dead; [|done|].
  - apply db_view_stored; [|done]. by apply (hi_meta _ HI addr o).
  - intros m [(_ & ? & _)|[[?|?] _]]%(change_live s s' addr o o' _ m HI Hc); [lia|done|lia].
Qed.

(** ** Nothing changes *)
Record same_handles s s' : Prop := {
  sh_heap : hs_heap s' = hs_heap s;
  sh_cache : handle_cache s' = handle_cache s;
  sh_db : handle_db s' = handle_db s;
  sh_next : hs_next s' = hs_next s;
  sh_jobs a : jobs_of s' a = jobs_of s a;
  sh_callers n c : hs_callers s' !! n = Some c → caller_ok s c;
  sh_storing a bytes : storing s' = Some (a, bytes) →
    storing s = Some (a, bytes) ∨ ∃ o, hs_heap s !! a = Some o ∧ bytes = BlockMeta_serialize (ho_meta o);
}.

Lemma frame_inv s s' : hs_inv s → same_handles s s' → hs_inv s' ∧ ∀ id, handle_view s' id = handle_view s id.
Proof.
  intros HI [Hh Hc Hd Hn Hj Hcs Hst]. assert (HI' : hs_inv s').
  { split.
    - intros id a o. rewrite Hc, Hh. apply (hi_cache _ HI).
    - intros a o. rewrite Hc, Hh. apply (hi_live _ HI).
    - intros a. unfold strong_count. rewrite Hj, Hh. apply (hi_jobs _ HI).
    - intros a o. rewrite Hh, Hd, Hj. apply (hi_clean _ HI).
    - intros a o. rewrite Hh. apply (hi_meta _ HI).
    - rewrite Hd. apply HI.
    - intros a. rewrite Hh, Hn. apply (hi_next _ HI).
    - intros id a. rewrite Hc, Hn. apply (hi_cached _ HI).
    - intros a. rewrite Hj, Hn. apply (hi_job_next _ HI).
    - intros n c Hnc. specialize (Hcs n c Hnc). destruct c; try done. cbn in *. by rewrite Hh, Hn.
    - intros a bytes Hs. rewrite Hh, Hj. destruct (Hst a bytes Hs) as [Hs'|(o & Ho & ->)]; [by apply (hi_storing _ HI)|].
      exists o, (ho_meta o). split_and!; [done|by apply (hi_meta _ HI a)|done|by left]. }
  split; [done|]. intros id. apply view_same; try done; [|by rewrite Hd]. intros m. unfold live_meta. by rewrite Hh.
Qed.

(** Calls that do not store come and go. *)
Lemma callers_inv s cs :
  hs_inv s → (∀ a, send_count a cs = send_count a (hs_callers s)) → (∀ n c, cs !! n = Some c → caller_ok s c) →
  hs_inv (set_callers s cs) ∧ ∀ id, handle_view (set_callers s cs) id = handle_view s id.
Proof.
  intros HI Hs Hok. apply frame_inv; [done|]. split; try done.
  - intros a. unfold jobs_of. cbn [set_callers storer hs_callers storing]. by rewrite Hs.
  - intros a bytes Hst. by left.
Qed.

Lemma put_caller_inv s n c c' :
  hs_inv s → hs_callers s !! n = Some c → (∀ a, sends a c' = sends a c) → caller_ok s c' →
  hs_inv (set_callers s (<[n := c']> (hs_callers s))) ∧ ∀ id, handle_view (set_callers s (<[n := c']> (hs_callers s))) id = handle_view s id.
Proof.
  intros HI Hn Hs Hok. apply callers_inv; [done|..].
  - intros a. pose proof (send_count_insert a (hs_callers s) n c c' Hn). rewrite Hs in *. lia.
  - intros m x [(-> & -> & _)|[_ Hx]]%list_lookup_insert_Some; [done|by apply (hi_callers _ HI m)].
Qed.

Lemma add_caller_inv s c :
  hs_inv s → (∀ a, sends a c = 0) → caller_ok s c → hs_inv (add_caller s c) ∧ ∀ id, handle_view (add_caller s c) id = handle_view s id.
Proof.
  intros HI Hs Hok. apply callers_inv; [done|..].
  - intros a. rewrite send_count_app. cbn. rewrite Hs. lia.
  - intros n x [Hx|[_ Hx]]%lookup_app_Some; [by apply (hi_callers _ HI n)|]. by apply list_lookup_singleton_Some in Hx as [_ <-].
Qed.

(** ** References *)
Lemma add_ref_change s addr o :
  hs_inv s → hs_heap s !! addr = Some o → 0 < ho_refs o → object_change s (add_ref s addr) addr o (with_refs o (ho_refs o + 1)).
Proof.
  intros HI Ho Hr. pose proof (hi_jobs _ HI addr) as Hj. rewrite (strong_heap _ _ _ Ho) in Hj. unfold add_ref. rewrite Ho.
  split; try done; cbn [set_heap with_refs ho_refs ho_meta].
  - unfold jobs_of in *. cbn [storer hs_callers storing set_heap]. lia.
  - by apply (hi_meta _ HI addr).
  - intros _ Hz. by apply (hi_clean _ HI addr).
  - by left.
  - apply (hi_callers _ HI).
Qed.

Lemma drop_ref_change s addr o :
  hs_inv s → hs_heap s !! addr = Some o → jobs_of s addr < ho_refs o → object_change s (drop_ref s addr) addr o (with_refs o (ho_refs o - 1)).
Proof.
  intros HI Ho Hr. unfold drop_ref. rewrite Ho. split; try done; cbn [set_heap with_refs ho_refs ho_meta].
  - lia.
  - unfold jobs_of in *. cbn [storer hs_callers storing set_heap]. lia.
  - by apply (hi_meta _ HI addr).
  - intros _ Hz. apply (hi_clean _ HI addr); [done|lia|done].
  - by left.
  - apply (hi_callers _ HI).
Qed.

Lemma step_clone s addr :
  hs_inv s → 0 < strong_count s addr → hs_inv (add_ref s addr) ∧ ∀ id, handle_view (add_ref s addr) id = handle_view s id.
Proof.
  intros HI Hr. destruct (hs_heap s !! addr) as [o|] eqn:Ho; unfold strong_count in Hr; rewrite Ho in Hr; [|lia].
  pose proof (add_ref_change s addr o HI Ho Hr) as Hc. split; [by eapply change_inv|]. intros id. eapply change_view; [done|exact Hc|].
  left. split; [|done]. cbn. lia.
Qed.

Lemma step_drop s addr :
  hs_inv s → owned s addr → hs_inv (drop_ref s addr) ∧ ∀ id, reloaded (handle_view s id) (handle_view (drop_ref s addr) id).
Proof.
  intros HI Hown. unfold owned, strong_count in Hown. destruct (hs_heap s !! addr) as [o|] eqn:Ho; [|lia].
  pose proof (drop_ref_change s addr o HI Ho Hown) as Hc. split; [by eapply change_inv|]. intros id. eapply change_view_last; [done|exact Hc|lia|done|].
  cbn [with_refs ho_refs]. destruct (N.eq_0_gt_0_cases (ho_refs o - 1)) as [Hz|Hp]; [left|by right].
  rewrite (proj1 (drop_ref_rest s addr)). apply (hi_clean _ HI addr); [done|lia|lia].
Qed.

(** ** Changes of meta data *)
Lemma update_change s addr o f :
  hs_inv s → hs_heap s !! addr = Some o → jobs_of s addr < ho_refs o → meta_change f →
  object_change s (update_handle s addr f) addr o (with_meta o (snd (f (ho_meta o)))).
Proof.
  intros HI Ho Hr [Hok Hst]. pose proof (hi_meta _ HI addr o Ho) as Hm. unfold update_handle. rewrite Ho. specialize (Hok _ Hm). specialize (Hst (ho_meta o)).
  destruct (f (ho_meta o)) as [[|] meta'] eqn:Ef; cbn [fst snd] in *.
  - set (s' := add_caller _ _).
    assert (Hjobs : ∀ a, jobs_of s' a = jobs_of s a + (if addr =? a then 1 else 0)).
    { intros a. unfold jobs_of, s'. cbn [add_caller set_callers set_heap storer hs_callers storing]. rewrite send_count_app. cbn. lia. }
    split; try done.
    + intros a Hne. rewrite Hjobs, (proj2 (N.eqb_neq _ _)) by done. lia.
    + rewrite Hjobs, N.eqb_refl. cbn. lia.
    + intros _ Hz. rewrite Hjobs, N.eqb_refl in Hz. lia.
    + by left.
    + intros n c [Hn|[_ Hn]]%lookup_app_Some; [by apply (hi_callers _ HI n)|]. by apply list_lookup_singleton_Some in Hn as [_ <-].
    + intros bytes Hs _. right. rewrite Hjobs, N.eqb_refl. cut (0 < jobs_of s addr); [lia|].
      unfold jobs_of. change (storing s = Some (addr, bytes)) in Hs. rewrite Hs. cbn. rewrite N.eqb_refl. lia.
  - split; try done.
    + change (jobs_of s addr <= ho_refs o). lia.
    + intros _ Hz. cbn [set_heap handle_db ho_meta with_meta]. rewrite (Hst eq_refl). apply (hi_clean _ HI addr); [done|lia|done].
    + by left.
    + apply (hi_callers _ HI).
    + intros bytes _. cbn [with_meta ho_meta]. by rewrite (Hst eq_refl).
Qed.

Lemma step_update s addr f :
  hs_inv s → owned s addr → meta_change f → hs_inv (update_handle s addr f) ∧
  ∃ id meta, handle_view s id = Some meta ∧ handle_view (update_handle s addr f) id = Some (snd (f meta)) ∧
    ∀ id', id' ≠ id → handle_view (update_handle s addr f) id' = handle_view s id'.
Proof.
  intros HI Hown Hf. unfold owned, strong_count in Hown. destruct (hs_heap s !! addr) as [o|] eqn:Ho; [|lia].
  pose proof (update_change s addr o f HI Ho Hown Hf) as Hc. assert (Hr : 0 < ho_refs o) by lia.
  pose proof (change_inv _ _ _ _ _ HI Hc) as HI'. split; [done|]. exists (ho_id o), (ho_meta o). split_and!.
  - apply view_live; [done|]. by exists addr, o.
  - apply view_live; [done|]. apply (change_live _ _ _ _ _ _ _ HI Hc). left. split_and!; [done|cbn; lia|done].
  - intros id' Hne. eapply change_view; [done|exact Hc|auto].
Qed.

(** The handle goes into the queue. *)
Lemma send_change s n addr :
  hs_inv s → hs_callers s !! n = Some (Sending addr) →
  ∃ o, object_change s (caller_step s n) addr o (with_refs o (ho_refs o + 1)) ∧ 0 < ho_refs o.
Proof.
  intros HI Hn. pose proof (hi_jobs _ HI addr) as Hj. unfold caller_step. rewrite Hn. cbn [call_step].
  assert (Hsend : ∀ a, send_count a (<[n := Returned (LoadFound addr)]> (hs_callers s)) + (if addr =? a then 1 else 0) = send_count a (hs_callers s)).
  { intros a. rewrite <- (N.add_0_r (send_count a (hs_callers s))). apply (send_count_insert a (hs_callers s) n (Sending addr) (Returned (LoadFound addr)) Hn). }
  pose proof (Hsend addr) as Hsa. rewrite N.eqb_refl in Hsa. unfold strong_count in Hj. assert (Hp : 0 < jobs_of s addr) by (unfold jobs_of; lia).
  destruct (hs_heap s !! addr) as [o|] eqn:Ho; [|lia]. exists o. split; [|lia]. unfold store_handle, add_ref. rewrite Ho.
  cbn [set_storer set_heap storer hs_callers storing]. set (s' := set_callers _ _).
  assert (Hjobs : ∀ a, jobs_of s' a = jobs_of s a).
  { intros a. specialize (Hsend a). unfold jobs_of, s'. cbn [set_callers set_storer set_heap storer hs_callers storing]. rewrite job_count_app. cbn [job_count]. lia. }
  split; try done; cbn [with_refs ho_refs ho_meta].
  - lia.
  - rewrite Hjobs. lia.
  - by apply (hi_meta _ HI addr).
  - rewrite Hjobs. lia.
  - by left.
  - intros m c [(_ & <- & _)|[_ Hc]]%list_lookup_insert_Some; [done|by apply (hi_callers _ HI m)].
  - by rewrite Hjobs.
Qed.

Lemma step_send s n addr :
  hs_inv s → hs_callers s !! n = Some (Sending addr) →
  hs_inv (caller_step s n) ∧ ∀ id, handle_view (caller_step s n) id = handle_view s id.
Proof.
  intros HI Hn. destruct (send_change s n addr HI Hn) as (o & Hc & Hr). split; [by eapply change_inv|]. intros id. eapply change_view; [done|exact Hc|].
  left. split; [|done]. cbn. lia.
Qed.

(** ** The storing task *)
Lemma step_take s ok : hs_inv s → hs_inv (storer_take ok s) ∧ ∀ id, handle_view (storer_take ok s) id = handle_view s id.
Proof.
  intros HI. unfold storer_take. destruct (storing s) as [job|] eqn:Es; [done|]. destruct (storer s) as [|[addr|key id0] jobs] eqn:Hq; [done|..].
  - pose proof (hi_jobs _ HI addr) as Hj. unfold strong_count, jobs_of in Hj. rewrite Hq in Hj. cbn [job_count] in Hj. rewrite N.eqb_refl in Hj.
    destruct (hs_heap s !! addr) as [o|] eqn:Ho; [|lia]. apply frame_inv; [done|]. split; try done.
    + intros a. unfold jobs_of. cbn [set_storer storer hs_callers storing storing_count]. rewrite Hq, Es. cbn [job_count storing_count]. lia.
    + apply (hi_callers _ HI).
    + intros a bytes [= <- <-]. right. by exists o.
  - destruct ok; (apply frame_inv; [done|]; split; try done; [intros a; unfold jobs_of; cbn [set_states set_storer storer hs_callers storing]; by rewrite Hq, Es|apply (hi_callers _ HI)]).
Qed.

Lemma put_change s addr bytes o :
  hs_inv s → storing s = Some (addr, bytes) → hs_heap s !! addr = Some o → object_change s (storer_put true s) addr o o ∧ 0 < ho_refs o.
Proof.
  intros HI Hs Ho. destruct (hi_storing _ HI addr bytes Hs) as (o1 & m & Ho1 & Hm & Hb & Hor). simplify_eq.
  pose proof (hi_jobs _ HI addr) as Hj. rewrite (strong_heap _ _ _ Ho) in Hj. unfold storer_put. rewrite Hs. cbn [set_storer hs_heap]. rewrite Ho. set (s' := set_db _ _).
  assert (Hjobs : ∀ a, jobs_of s' a + (if addr =? a then 1 else 0) = jobs_of s a).
  { intros a. unfold jobs_of, s'. cbn [set_db set_storer storer hs_callers storing storing_count]. rewrite Hs. cbn [storing_count]. lia. }
  pose proof (Hjobs addr) as Hja. rewrite N.eqb_refl in Hja. split; [|lia]. split; try done.
  - cbn [s' set_db set_storer hs_heap]. by rewrite insert_id.
  - intros a Hne. rewrite <- Hjobs, (proj2 (N.eqb_neq _ _)) by done. lia.
  - lia.
  - by apply (hi_meta _ HI addr).
  - intros _ Hz. cbn [s' set_db handle_db]. rewrite lookup_insert_eq. destruct Hor as [->|?]; [done|lia].
  - right. split; [lia|]. by exists m.
  - apply (hi_callers _ HI).
Qed.

Lemma step_put s : hs_inv s → hs_inv (storer_put true s) ∧ ∀ id, handle_view (storer_put true s) id = handle_view s id.
Proof.
  intros HI. destruct (storing s) as [[addr bytes]|] eqn:Hs; [|unfold storer_put; by rewrite Hs].
  destruct (hi_storing _ HI addr bytes Hs) as (o & _ & Ho & _). destruct (put_change s addr bytes o HI Hs Ho) as [Hc Hr].
  split; [by eapply change_inv|]. intros id. eapply change_view; [done|exact Hc|by left].
Qed.

Lemma step_store_state s key id :
  hs_inv s → hs_inv (store_state s key id) ∧ ∀ x, handle_view (store_state s key id) x = handle_view s x.
Proof.
  intros HI. apply frame_inv; [done|]. split; try done.
  - intros a. unfold jobs_of, store_state. cbn [set_storer storer hs_callers storing create_state set_states]. rewrite job_count_app. cbn [job_count]. lia.
  - apply (hi_callers _ HI).
  - intros a bytes Hs. by left.
Qed.

Lemma step_load_state s key : hs_inv s → hs_inv (snd (load_state s key)) ∧ ∀ x, handle_view (snd (load_state s key)) x = handle_view s x.
Proof.
  intros HI. unfold load_state. repeat case_match; try done. apply frame_inv; [done|]. split; try done; [apply (hi_callers _ HI)|by left].
Qed.

(** ** Destructors *)
Lemma drop_inv s id : hs_inv s → hs_inv (BlockHandle_drop s id) ∧ ∀ x, handle_view (BlockHandle_drop s id) x = handle_view s x.
Proof.
  intros HI. unfold BlockHandle_drop. destruct (handle_cache s !! id) as [addr|] eqn:Ec; [|done].
  destruct (N.eqb_spec (strong_count s addr) 0) as [Hz|]; [|done]. set (s' := set_cache s (delete id (handle_cache s))).
  assert (HI' : hs_inv s').
  { split; cbn [s' set_cache handle_cache hs_heap handle_db hs_next]; try apply HI.
    - intros x a o [_ Hx]%lookup_delete_Some. by apply (hi_cache _ HI).
    - intros a o Ho Hr. pose proof (hi_live _ HI a o Ho Hr) as Hl. rewrite lookup_delete_ne; [done|]. intros ->.
      assert (a = addr) as -> by congruence. rewrite (strong_heap _ _ _ Ho) in Hz. lia.
    - intros x a [_ Hx]%lookup_delete_Some. by apply (hi_cached _ HI x). }
  split; [done|]. intros x. by apply view_same.
Qed.

Lemma step_destroy s addr : hs_inv s → hs_inv (destroy_handle s addr) ∧ ∀ x, handle_view (destroy_handle s addr) x = handle_view s x.
Proof.
  intros HI. unfold destroy_handle. destruct (hs_heap s !! addr) as [o|] eqn:Ho; [|done].
  destruct (N.eqb_spec (ho_refs o) 0) as [Hz|]; [|done]. set (s1 := set_heap s (delete addr (hs_heap s)) (hs_next s)).
  assert (HI1 : hs_inv s1).
  { split; cbn [s1 set_heap handle_cache hs_heap handle_db hs_next]; try apply HI.
    - intros x a o1 Hx [_ Ha]%lookup_delete_Some. by apply (hi_cache _ HI x a).
    - intros a o1 [_ Ha]%lookup_delete_Some. by apply (hi_live _ HI).
    - intros a. pose proof (hi_jobs _ HI a) as Hj. unfold strong_count in *. cbn [hs_heap set_heap s1]. destruct (decide (a = addr)) as [->|Hne].
      + rewrite Ho, Hz in Hj. rewrite lookup_delete_eq. done.
      + by rewrite lookup_delete_ne.
    - intros a o1 [_ Ha]%lookup_delete_Some. by apply (hi_clean _ HI a).
    - intros a o1 [_ Ha]%lookup_delete_Some. by apply (hi_meta _ HI a).
    - intros a [o1 [_ Ha]%lookup_delete_Some]. apply (hi_next _ HI). eauto.
    - intros n c Hn. pose proof (hi_callers _ HI n c Hn) as Hok. destruct c; try done. destruct Hok as [Hlt Hid]. split; [done|].
      intros o1 Ha. cbn [s1 set_heap hs_heap] in Ha. apply lookup_delete_Some in Ha as [_ Ha]. by apply Hid.
    - intros a bytes Hs. destruct (hi_storing _ HI a bytes Hs) as (o1 & m & Ha & Hr). exists o1, m. rewrite lookup_delete_ne; [done|].
      intros <-. assert (Hj : 0 < jobs_of s addr) by (unfold jobs_of; change (storing s = Some (addr, bytes)) in Hs; rewrite Hs; cbn [storing_count]; rewrite N.eqb_refl; lia).
      pose proof (hi_jobs _ HI addr) as Hle. rewrite (strong_heap _ _ _ Ho) in Hle. lia. }
  destruct (drop_inv s1 (ho_id o) HI1) as [HI2 Hv]. split; [done|]. intros x. rewrite Hv. apply view_same; try done.
  intros m. split; intros (a & o1 & Ha & Hid & Hr & Hm); exists a, o1; cbn [s1 set_heap hs_heap] in *; split_and!; try done.
  - rewrite lookup_delete_ne; [done|]. intros <-. simplify_eq. lia.
  - by apply lookup_delete_Some in Ha as [_ ?].
Qed.

(** ** New handles *)
Definition created s id meta (cs : list Caller) : BlockHandleStorage :=
  {| handle_db := handle_db s; handle_cache := <[id := hs_next s]> (handle_cache s); state_db := state_db s; state_cache := state_cache s;
     storer := storer s; storing := storing s; hs_callers := cs;
     hs_heap := <[hs_next s := {| ho_id := id; ho_meta := meta; ho_refs := 1 |}]> (hs_heap s); hs_next := hs_next s + 1 |}.

Lemma cache_absent s id meta : handle_cache s !! id = None → cache_handle s id meta = Some (hs_next s, created s id meta (hs_callers s)).
Proof. intros Hc. unfold cache_handle. by rewrite Hc. Qed.

Lemma cache_present s id meta : handle_cache s !! id ≠ None → cache_handle s id meta = None.
Proof. intros Hc. unfold cache_handle. by destruct (handle_cache s !! id). Qed.

Lemma created_heap s id meta cs a o :
  hs_heap (created s id meta cs) !! a = Some o →
  (a = hs_next s ∧ ho_id o = id ∧ ho_meta o = meta ∧ ho_refs o = 1) ∨ a ≠ hs_next s ∧ hs_heap s !! a = Some o.
Proof. cbn [created hs_heap]. intros [[<- <-]|[Hne Ho]]%lookup_insert_Some; [by left|by right]. Qed.

Lemma created_cache s id meta cs x a :
  handle_cache (created s id meta cs) !! x = Some a → (id = x ∧ hs_next s = a) ∨ (id ≠ x ∧ handle_cache s !! x = Some a).
Proof. cbn [created handle_cache]. apply lookup_insert_Some. Qed.

(** The new handle is stored by its creator, or the database has its meta data already. *)
Record creation s id meta (cs : list Caller) (store : bool) : Prop := {
  cr_absent : handle_cache s !! id = None;
  cr_meta : meta_ok meta;
  cr_db : store = false → handle_db s !! id = Some (BlockMeta_serialize meta);
  cr_sends a : send_count a cs = send_count a (hs_callers s) + (if store && (hs_next s =? a) then 1 else 0);
  cr_callers n c : cs !! n = Some c → caller_ok s c;
}.

Lemma created_jobs s id meta cs store a :
  hs_inv s → creation s id meta cs store → jobs_of (created s id meta cs) a = if hs_next s =? a then (if store then 1 else 0) else jobs_of s a.
Proof.
  intros HI Hcr. unfold jobs_of. cbn [created storer hs_callers storing]. rewrite (cr_sends _ _ _ _ _ Hcr).
  destruct (N.eqb_spec (hs_next s) a) as [<-|Hne].
  - assert (Hz : jobs_of s (hs_next s) = 0).
    { destruct (N.eq_0_gt_0_cases (jobs_of s (hs_next s))) as [|Hp]; [done|]. apply (hi_job_next _ HI) in Hp. lia. }
    unfold jobs_of in Hz. destruct store; cbn [andb]; lia.
  - rewrite andb_false_r. lia.
Qed.

Lemma created_caller s id meta cs c : hs_inv s → caller_ok s c → caller_ok (created s id meta cs) c.
Proof.
  intros HI. destruct c; try done. cbn [caller_ok created hs_next]. intros [Hlt Ho]. split; [lia|].
  intros o [(-> & _)|[_ H1]]%created_heap; [lia|by apply Ho].
Qed.

Lemma created_inv s id meta cs store : hs_inv s → creation s id meta cs store → hs_inv (created s id meta cs).
Proof.
  intros HI Hcr. pose proof (λ a, created_jobs s id meta cs store a HI Hcr) as Hjobs. pose proof Hcr as [Hc Hm Hdb _ Hcs].
  assert (Hnone : hs_heap s !! hs_next s = None) by (apply eq_None_not_Some; intros Hs%(hi_next _ HI); lia).
  assert (Hlt : ∀ a o, hs_heap s !! a = Some o → a < hs_next s) by (intros a o Ho; apply (hi_next _ HI); eauto).
  split.
  - intros x a o [[<- <-]|[Hne Hx]]%created_cache [(? & ? & _)|[Hna Ho]]%created_heap; try done.
    + subst a. apply (hi_cached _ HI) in Hx. lia.
    + by apply (hi_cache _ HI x a).
  - intros a o [(-> & <- & _)|[Hor Ho]]%created_heap Hr; cbn [created handle_cache]; [apply lookup_insert_eq|].
    pose proof (hi_live _ HI a o Ho Hr). rewrite lookup_insert_ne; [done|]. congruence.
  - intros a. rewrite Hjobs. unfold strong_count. cbn [created hs_heap]. destruct (N.eqb_spec (hs_next s) a) as [<-|Hne].
    + rewrite lookup_insert_eq. cbn. destruct store; lia.
    + rewrite lookup_insert_ne by done. apply (hi_jobs _ HI).
  - intros a o Ho Hr. rewrite Hjobs. apply created_heap in Ho as [(-> & <- & <- & _)|[Hor Ho]].
    + rewrite N.eqb_refl. destruct store; [done|]. intros _. by apply Hdb.
    + rewrite (proj2 (N.eqb_neq _ _)) by done. by apply (hi_clean _ HI a).
  - intros a o [(-> & _ & -> & _)|[_ Ho]]%created_heap; [done|by apply (hi_meta _ HI a)].
  - apply HI.
  - intros a [o [(-> & _)|[_ Ho]]%created_heap]; cbn [created hs_next]; [lia|]. apply Hlt in Ho. lia.
  - intros x a [[<- <-]|[_ Hx]]%created_cache; cbn [created hs_next]; [lia|]. apply (hi_cached _ HI) in Hx. lia.
  - intros a. rewrite Hjobs. cbn [created hs_next]. destruct (N.eqb_spec (hs_next s) a) as [<-|]; [lia|]. intros Hp%(hi_job_next _ HI). lia.
  - intros n c Hn. by eapply created_caller, Hcs.
  - intros a bytes Hs. destruct (hi_storing _ HI a bytes Hs) as (o & m & Ho & Hr). exists o, m. rewrite Hjobs. cbn [created hs_heap].
    rewrite lookup_insert_ne, (proj2 (N.eqb_neq _ _)) by (apply Hlt in Ho; lia). done.
Qed.

Lemma created_view s id meta cs store :
  hs_inv s → creation s id meta cs store →
  handle_view (created s id meta cs) id = Some meta ∧ ∀ x, x ≠ id → handle_view (created s id meta cs) x = handle_view s x.
Proof.
  intros HI Hcr. pose proof (created_inv _ _ _ _ _ HI Hcr) as HI'. split.
  - apply view_live; [done|]. eexists (hs_next s), _. cbn [created hs_heap]. rewrite lookup_insert_eq. split_and!; [done|done|cbn; lia|done].
  - intros x Hne. apply view_same; try done. intros m. split; intros (a & o & Ho & Hid & Hr & Hmm); exists a, o; split_and!; try done.
    + cbn [created hs_heap]. rewrite lookup_insert_ne; [done|]. assert (a < hs_next s) by (apply (hi_next _ HI); eauto). lia.
    + apply created_heap in Ho as [(_ & ? & _)|[_ ?]]; [congruence|done].
Qed.

(** ** Reachable states *)

(** What a step may do to the handles, seen from outside: a handle is made, its meta
    data change, or it is dropped and loses the marks that are not stored. *)
Inductive view_step (v v' : BlockIdExt → option BlockMeta) : Prop :=
| vs_reload : (∀ id, reloaded (v id) (v' id)) → view_step v v'
| vs_create id meta : v id = None → v' id = Some meta → (∀ x, x ≠ id → v' x = v x) → view_step v v'
| vs_change id meta f : meta_change f → v id = Some meta → v' id = Some (snd (f meta)) → (∀ x, x ≠ id → v' x = v x) → view_step v v'.

Lemma vs_same (v v' : BlockIdExt → option BlockMeta) : (∀ id, v' id = v id) → view_step v v'.
Proof. intros Hv. apply vs_reload. intros id. left. apply Hv. Qed.

(** A handle that is absent from the cache is what the database says. *)
Lemma view_absent s id : handle_cache s !! id = None → handle_view s id = db_view s id.
Proof. intros Hc. unfold handle_view. by rewrite Hc. Qed.

Lemma stored_value s id bytes : hs_inv s → handle_db s !! id = Some bytes →
  ∃ m, meta_ok m ∧ bytes = BlockMeta_serialize m ∧ try_get_value s id = Some (Some m).
Proof.
  intros HI Hd. destruct (hi_db _ HI id bytes Hd) as (m & Hm & ->). destruct (reload_ok m Hm) as (Hr & Hok & Hs). exists (reload m). split_and!; [done|done|].
  unfold try_get_value. by rewrite Hd, Hr.
Qed.

(** A load that was not overtaken adds what the database holds. *)
Lemma load_creation s n id meta : hs_inv s → hs_callers s !! n = Some (LoadRead id meta) → handle_cache s !! id = None →
  ¬ overtaken s (LoadRead id meta) → creation s id meta (<[n := Returned (LoadFound (hs_next s))]> (hs_callers s)) false ∧ handle_view s id = Some meta.
Proof.
  intros HI Hn Hc Hov. assert (Ht : try_get_value s id = Some (Some meta)).
  { destruct (decide (try_get_value s id = Some (Some meta))) as [|Hne]; [done|]. by destruct Hov. }
  split.
  - split; [done|by apply (hi_callers _ HI n (LoadRead id meta))| | |].
    + intros _. unfold try_get_value in Ht. destruct (handle_db s !! id) as [bytes|] eqn:Ed; [|done].
      destruct (hi_db _ HI id bytes Ed) as (m & Hm & ->). destruct (reload_ok m Hm) as (Hr & _ & Hs). rewrite Hr in Ht. injection Ht as <-. by rewrite Hs.
    + intros a. pose proof (send_count_insert a (hs_callers s) n _ (Returned (LoadFound (hs_next s))) Hn) as H. cbn [sends andb] in *. lia.
    + intros m c [(_ & <- & _)|[_ H]]%list_lookup_insert_Some; [done|by apply (hi_callers _ HI m)].
  - rewrite view_absent by done. unfold db_view. by rewrite Ht.
Qed.

Lemma create_creation s n id meta : hs_inv s → hs_callers s !! n = Some (CreateAdd id meta) → handle_cache s !! id = None →
  ¬ overtaken s (CreateAdd id meta) → creation s id meta (<[n := Sending (hs_next s)]> (hs_callers s)) true ∧ handle_view s id = None.
Proof.
  intros HI Hn Hc Hov. assert (Ht : try_get_value s id = Some None) by (destruct (decide (try_get_value s id = Some None)) as [|Hne]; [done|by destruct Hov]). split.
  - split; [done|by apply (hi_callers _ HI n (CreateAdd id meta))|done| |].
    + intros a. pose proof (send_count_insert a (hs_callers s) n _ (Sending (hs_next s)) Hn) as H. cbn [sends andb] in *. lia.
    + intros m c [(_ & <- & _)|[_ H]]%list_lookup_insert_Some; [done|by apply (hi_callers _ HI m)].
  - rewrite view_absent by done. unfold db_view. by rewrite Ht.
Qed.

Lemma dropping_inv s n c c' id :
  hs_inv s → hs_callers s !! n = Some c → (∀ a, sends a c' = sends a c) → (∀ s, caller_ok s c') →
  let s' := BlockHandle_drop s id in hs_inv (set_callers s' (<[n := c']> (hs_callers s'))) ∧ ∀ x, handle_view (set_callers s' (<[n := c']> (hs_callers s'))) x = handle_view s x.
Proof.
  intros HI Hn Hs Hok s'. destruct (drop_inv s id HI) as [HI' Hv]. fold s' in HI', Hv.
  assert (hs_callers s' = hs_callers s) as E by (unfold s', BlockHandle_drop; repeat case_match; done).
  destruct (put_caller_inv s' n c c' HI') as [HI2 Hv2]; [by rewrite E|done|done|]. split; [done|]. intros x. by rewrite Hv2.
Qed.

(** One step of a call. *)
Lemma step_call s n c : hs_inv s → hs_callers s !! n = Some c → ¬ overtaken s c →
  hs_inv (caller_step s n) ∧ view_step (handle_view s) (handle_view (caller_step s n)).
Proof.
  intros HI Hn Hov. assert (Hput : ∀ c', (∀ a, sends a c' = sends a c) → caller_ok s c' → caller_step s n = set_callers s (<[n := c']> (hs_callers s)) →
    hs_inv (caller_step s n) ∧ view_step (handle_view s) (handle_view (caller_step s n))).
  { intros c' Hs Hok ->. destruct (put_caller_inv s n c c' HI Hn Hs Hok) as [HI' Hv]. split; [done|by apply vs_same]. }
  pose proof (hi_callers _ HI n c Hn) as Hok. destruct c as [id|id addr|id|id meta|id|id meta|id|addr|r].
  - eapply Hput; [| |unfold caller_step; rewrite Hn; reflexivity]; destruct (handle_cache s !! id) as [addr|] eqn:Ec; try done.
    split; [by eapply (hi_cached _ HI)|]. intros o Ho. by apply (hi_cache _ HI id addr).
  - destruct (0 <? strong_count s addr) eqn:E.
    + destruct (step_clone s addr HI) as [HI1 Hv1]; [by apply N.ltb_lt|].
      assert (E1 : hs_callers (add_ref s addr) = hs_callers s) by (unfold add_ref; by destruct (hs_heap s !! addr)).
      unfold caller_step. rewrite Hn. cbn [call_step]. unfold upgrade. rewrite E.
      destruct (put_caller_inv (add_ref s addr) n (LoadGot id addr) (Returned (LoadFound addr)) HI1) as [HI2 Hv2]; [by rewrite E1|done|done|].
      split; [done|]. apply vs_same. intros x. by rewrite Hv2.
    + apply (Hput (LoadMiss id)); [done|done|]. unfold caller_step. rewrite Hn. cbn [call_step]. unfold upgrade. by rewrite E.
  - destruct (handle_db s !! id) as [bytes|] eqn:Ed.
    + destruct (stored_value s id bytes HI Ed) as (m & Hm & _ & Ht). apply (Hput (LoadRead id m)); [done|done|]. unfold caller_step. rewrite Hn. cbn [call_step]. by rewrite Ht.
    + apply (Hput (Returned LoadNone)); [done|done|]. unfold caller_step. rewrite Hn. cbn [call_step]. unfold try_get_value. by rewrite Ed.
  - destruct (decide (handle_cache s !! id = None)) as [Hc|Hc].
    + destruct (load_creation s n id meta HI Hn Hc Hov) as [Hcr Hview]. unfold caller_step. rewrite Hn. cbn [call_step]. rewrite cache_absent by done.
      split; [by apply (created_inv _ _ _ _ _ HI Hcr)|]. destruct (created_view _ _ _ _ _ HI Hcr) as [Hv1 Hv2]. apply vs_same. intros x.
      destruct (decide (x = id)) as [->|Hne]; [etrans; [exact Hv1|by rewrite Hview]|by apply Hv2].
    + apply (Hput (LoadDropping id)); [done|done|]. unfold caller_step. rewrite Hn. cbn [call_step]. by rewrite cache_present.
  - destruct (dropping_inv s n (LoadDropping id) (LoadLook id) id HI Hn) as [HI' Hv]; [done|done|]. unfold caller_step. rewrite Hn. cbn [call_step].
    split; [done|by apply vs_same].
  - destruct (decide (handle_cache s !! id = None)) as [Hc|Hc].
    + destruct (create_creation s n id meta HI Hn Hc Hov) as [Hcr Hview]. unfold caller_step. rewrite Hn. cbn [call_step]. rewrite cache_absent by done.
      split; [by apply (created_inv _ _ _ _ _ HI Hcr)|]. destruct (created_view _ _ _ _ _ HI Hcr) as [Hv1 Hv2]. by eapply vs_create.
    + apply (Hput (CreateDropping id)); [done|done|]. unfold caller_step. rewrite Hn. cbn [call_step]. by rewrite cache_present.
  - destruct (dropping_inv s n (CreateDropping id) (Returned LoadNone) id HI Hn) as [HI' Hv]; [done|done|]. unfold caller_step. rewrite Hn. cbn [call_step].
    split; [done|by apply vs_same].
  - destruct (step_send s n addr HI Hn) as [HI' Hv]. split; [done|by apply vs_same].
  - apply (Hput (Returned r)); [done|done|]. unfold caller_step. by rewrite Hn.
Qed.

Lemma hs_step_ok s s' : hs_inv s → hs_step true s s' → hs_inv s' ∧ view_step (handle_view s) (handle_view s').
Proof.
  intros HI Hst. destruct Hst as [s id|s id meta Hm|s n c Hn Hov|s addr Hr|s addr Ho|s addr|s addr f Ho Hf|s ok|s ok Hok|s key id|s key].
  - destruct (add_caller_inv s (LoadLook id) HI) as [HI' Hv]; [done|done|]. split; [done|by apply vs_same].
  - destruct (add_caller_inv s (CreateAdd id meta) HI) as [HI' Hv]; [done|done|]. split; [done|by apply vs_same].
  - apply (step_call s n c HI Hn). by apply Hov.
  - destruct (step_clone s addr HI Hr) as [HI' Hv]. split; [done|]. by apply vs_same.
  - destruct (step_drop s addr HI Ho) as [HI' Hv]. split; [done|]. by apply vs_reload.
  - destruct (step_destroy s addr HI) as [HI' Hv]. split; [done|]. by apply vs_same.
  - destruct (step_update s addr f HI Ho Hf) as (HI' & id & meta & Hv & Hv' & Hx). split; [done|]. by eapply vs_change.
  - destruct (step_take s ok HI) as [HI' Hv]. split; [done|]. by apply vs_same.
  - rewrite (Hok eq_refl). destruct (step_put s HI) as [HI' Hv]. split; [done|]. by apply vs_same.
  - destruct (step_store_state s key id HI) as [HI' Hv]. split; [done|]. by apply vs_same.
  - destruct (step_load_state s key HI) as [HI' Hv]. split; [done|]. by apply vs_same.
Qed.

Lemma hs_reachable_inv s : hs_reachable s → hs_inv s.
Proof.
  induction 1 as [db states Hdb|s s' _ IH Hst]; [|by apply (hs_step_ok s s')].
  split; try done; cbn [BlockHandleStorage_with_dbs handle_cache hs_heap hs_callers]; intros *; rewrite ?lookup_empty; done.
Qed.

(** What a load of [id] returns: the handle of the block, with the meta data it has. *)
Definition load_of (c : Caller) : option BlockIdExt :=
  match c with LoadLook id | LoadGot id _ | LoadMiss id | LoadRead id _ | LoadDropping id => Some id | _ => None end.

Lemma load_result s n c id r s' : hs_inv s → hs_callers s !! n = Some c → ¬ overtaken s c → load_of c = Some id → call_step s c = (Returned r, s') →
  match r with
  | LoadFound addr => ∃ o, hs_heap s' !! addr = Some o ∧ ho_id o = id ∧ 0 < ho_refs o ∧ handle_view s id = Some (ho_meta o)
  | LoadNone => handle_db s !! id = None
  | LoadError => False
  end.
Proof.
  intros HI Hn Hov Hl Hst. pose proof (hi_callers _ HI n c Hn) as Hok. destruct c as [x|x addr|x|x meta|x| | | |]; try done; injection Hl as ->; cbn [call_step] in Hst.
  - by destruct (handle_cache s !! id).
  - unfold upgrade in Hst. destruct (0 <? strong_count s addr) eqn:E; [|done]. injection Hst as <- <-. apply N.ltb_lt in E.
    unfold strong_count in E. destruct (hs_heap s !! addr) as [o|] eqn:Ho; [|lia].
    pose proof (oc_new _ _ _ _ _ (add_ref_change s addr o HI Ho E)) as Hnew. eexists. rewrite Hnew, lookup_insert_eq. split_and!; [done|exact (proj2 Hok o Ho)|cbn; lia|].
    apply view_live; [done|]. exists addr, o. split_and!; try done. exact (proj2 Hok o Ho).
  - destruct (handle_db s !! id) as [bytes|] eqn:Ed.
    + destruct (stored_value s id bytes HI Ed) as (m & _ & _ & Ht). by rewrite Ht in Hst.
    + unfold try_get_value in Hst. rewrite Ed in Hst. by injection Hst as <- <-.
  - destruct (decide (handle_cache s !! id = None)) as [Hc|Hc]; [|by rewrite cache_present in Hst].
    destruct (load_creation s n id meta HI Hn Hc Hov) as [Hcr Hview]. rewrite cache_absent in Hst by done. injection Hst as <- <-.
    eexists. cbn [created hs_heap]. rewrite lookup_insert_eq. split_and!; [done|done|cbn; lia|done].
Qed.

(** ** The loop of [load_handle] ends *)

Lemma run_more k s c : (∀ r, c ≠ Returned r) → run_call (S k) s c = (let '(c', s') := call_step s c in run_call k s' c').
Proof. destruct c; try done. intros H. by destruct (H r). Qed.

Lemma run_done k s r : run_call k s (Returned r) = (Returned r, s).
Proof. by destruct k. Qed.

(** The outcome of a load that nobody interrupts. *)
Definition load_outcome s id (res : Caller * BlockHandleStorage) : Prop :=
  match res.1 with
  | Returned (LoadFound addr) => ∃ o, hs_heap res.2 !! addr = Some o ∧ ho_id o = id ∧ 0 < ho_refs o ∧ handle_view s id = Some (ho_meta o) ∧ hs_inv res.2
  | Returned LoadNone => handle_view s id = None
  | _ => False
  end.

Lemma load_alone s id k : hs_inv s → handle_cache s !! id = None → load_outcome s id (run_call (S (S k)) s (LoadMiss id)).
Proof.
  intros HI Hc. rewrite run_more by done. cbn [call_step]. destruct (handle_db s !! id) as [bytes|] eqn:Ed.
  - destruct (stored_value s id bytes HI Ed) as (m & Hm & Hb & Ht). rewrite Ht, run_more by done. cbn [call_step]. rewrite cache_absent, run_done by done.
    unfold load_outcome. rewrite view_absent by done. unfold db_view. rewrite Ht. cbn [fst snd].
    eexists. cbn [created hs_heap]. rewrite lookup_insert_eq. split_and!; [done|done|cbn; lia|done|]. apply (created_inv _ _ _ _ false HI).
    split; [done|done|by intros _; rewrite Ed, Hb|intros a; cbn [andb]; lia|apply (hi_callers _ HI)].
  - unfold try_get_value at 1. rewrite Ed, run_done. unfold load_outcome. cbn [fst]. rewrite view_absent by done. unfold db_view, try_get_value. by rewrite Ed.
Qed.

Lemma load_nine_steps s id k : hs_inv s → load_outcome s id (load_handle (9 + k) s id).
Proof.
  intros HI. unfold load_handle. change (9 + k)%nat with (S (8 + k)). rewrite run_more by done. cbn [call_step].
  destruct (handle_cache s !! id) as [addr|] eqn:Ec; [|exact (load_alone s id (6 + k) HI Ec)].
  change (8 + k)%nat with (S (7 + k)). rewrite run_more by done. cbn [call_step]. unfold upgrade. destruct (N.ltb_spec 0 (strong_count s addr)) as [Hr|Hz].
  - rewrite run_done. unfold load_outcome. cbn [fst snd]. destruct (step_clone s addr HI Hr) as [HI' _]. unfold strong_count in Hr. destruct (hs_heap s !! addr) as [o|] eqn:Ho; [|lia].
    pose proof (oc_new _ _ _ _ _ (add_ref_change s addr o HI Ho Hr)) as Hn. eexists. rewrite Hn, lookup_insert_eq. split_and!; [done| |cbn; lia| |done].
    + by apply (hi_cache _ HI id addr o).
    + apply view_live; [done|]. exists addr, o. split_and!; try done. by apply (hi_cache _ HI id addr).
  - assert (Hd : handle_cache (BlockHandle_drop s id) !! id = None).
    { unfold BlockHandle_drop. rewrite Ec, (proj2 (N.eqb_eq _ _)) by lia. apply lookup_delete_eq. }
    destruct (drop_inv s id HI) as [HI' Hv]. change (7 + k)%nat with (S (S (S (S (S (S (S k))))))). rewrite run_more by done. cbn [call_step].
    destruct (handle_db s !! id) as [bytes|] eqn:Ed.
    + destruct (stored_value s id bytes HI Ed) as (m & _ & _ & Ht). rewrite Ht, run_more by done. cbn [call_step]. rewrite cache_present by (by rewrite Ec).
      rewrite run_more by done. cbn [call_step]. rewrite run_more by done. cbn [call_step]. rewrite Hd.
      pose proof (load_alone (BlockHandle_drop s id) id (S k) HI' Hd) as Hl. unfold load_outcome in *. rewrite Hv in Hl. exact Hl.
    + unfold try_get_value at 1. rewrite Ed, run_done. unfold load_outcome. cbn [fst]. unfold handle_view. rewrite Ec, (proj2 (N.ltb_ge _ _)) by lia. unfold try_get_value. by rewrite Ed.
Qed.

(** ** Marks *)
Lemma set_flag_meta_ok m flag : flag ∈ all_flags → meta_ok m → meta_ok (snd (set_flag m flag)).
Proof.
  intros [_ Hf]%all_flags_bits (H1 & H2 & H3). unfold set_flag, BlockMeta_set_flags, fetch_or. cbn [snd]. split_and!; try done. cbn [bm_flags].
  change two64 with (2 ^ 64) in *. change two32 with (2 ^ 32) in *. apply below_testbit. intros i Hi.
  rewrite N.lor_spec, (testbit_below _ 64 i H1 Hi), N.shiftl_spec_high' by (etrans; [|exact Hi]; discriminate).
  apply (testbit_below flag 32 (i - 32) Hf). apply N.le_add_le_sub_r. etrans; [|exact Hi]. discriminate.
Qed.

Lemma set_flag_change flag : flag ∈ all_flags → meta_change (λ m, set_flag m flag).
Proof.
  intros Hin. split; [intros m; by apply set_flag_meta_ok|]. intros m Hf. pose proof (all_flags_bits _ Hin) as [_ Hb].
  unfold set_flag, BlockMeta_set_flags, fetch_or in *. cbn [fst snd] in *. apply negb_false_iff, N.eqb_eq in Hf.
  unfold BlockMeta_serialize. cbn [bm_flags bm_gen_utime bm_gen_lt]. do 2 f_equal. f_equal. apply N.bits_inj. intros i. rewrite N.lor_spec.
  destruct (N.lt_ge_cases i 32) as [Hlo|Hhi]; [by rewrite N.shiftl_spec_low, orb_false_r|]. rewrite N.shiftl_spec_high' by done.
  assert (Hi : N.testbit (N.land (as_u32 (N.shiftr (bm_flags m) 32)) flag) (i - 32) = N.testbit flag (i - 32)) by (by rewrite Hf).
  rewrite N.land_spec, as_u32_testbit, N.shiftr_spec' in Hi. rewrite N.sub_add in Hi by done.
  destruct (N.testbit flag (i - 32)); [|by rewrite orb_false_r]. rewrite andb_true_r in Hi. apply andb_prop in Hi as [_ ->]. done.
Qed.

End facts.
