(* ===== verification/BlockIndex.v ===== *)
(** * Storage: the index of blocks by number, time and logical time

    Models [storage/src/block_index_db.rs] with the keys and values of its two
    databases ([types/lt_db_key.rs], [lt_db_entry.rs], [lt_desc.rs],
    [shard_ident_key.rs]).  The blocks of a shard are numbered from 1 in the order in
    which they are added; a lookup goes through the shards of an account prefix, from
    the whole workchain down, and searches each by bisection.  The shard of a prefix
    and the maximal depth of splits come from another crate and are parameters; the
    values of the databases are kept as they are (their byte format is that of
    another crate). *)

From S2P Require Import Prelude BlockId BlockMeta.

Class ShardPrefixes `{ShardIdents} := {
  with_prefix_len : N → Z → N → option ShardIdent;
  MAX_SPLIT_DEPTH : N;
}.

Record AccountIdPrefixFull := { ap_workchain_id : Z; ap_prefix : N }.

Section index.
Context {SI : ShardIdents} {SP : ShardPrefixes}.
Implicit Types (shard : ShardIdent) (id : BlockIdExt) (handle : BlockHandle).

Record LtDesc := {
  ld_first_index : N;
  ld_last_index : N;
  ld_last_seq_no : N;
  ld_last_lt : N;
  ld_last_unix_time : N;
}.

Record LtDbEntry := { le_block_id_ext : BlockIdExt; le_lt : N; le_unix_time : N }.

Definition ShardIdentKey_new shard : list N := ShardIdent_serialize shard.
Definition LtDbKey_with_values shard (index : N) : list N := ShardIdent_serialize shard ++ le_bytes 4 index.

Record BlockIndexDb := { lt_desc_db : gmap (list N) LtDesc; lt_db : gmap (list N) LtDbEntry }.
Implicit Types (self : BlockIndexDb).

(** ** Adding *)
Definition put_handle_at self handle (index : N) : BlockIndexDb :=
  let shard := shard_id (bh_id handle) in
  let lt_entry := {| le_block_id_ext := bh_id handle; le_lt := bm_gen_lt (bh_meta handle); le_unix_time := bm_gen_utime (bh_meta handle) |} in
  let lt_desc := {| ld_first_index := 1; ld_last_index := index; ld_last_seq_no := seq_no (bh_id handle);
                    ld_last_lt := bm_gen_lt (bh_meta handle); ld_last_unix_time := bm_gen_utime (bh_meta handle) |} in
  {| lt_desc_db := <[ShardIdentKey_new shard := lt_desc]> (lt_desc_db self);
     lt_db := <[LtDbKey_with_values shard index := lt_entry]> (lt_db self) |}.

(** [None]: the numbers of a shard must ascend. *)
Definition add_handle self handle : option BlockIndexDb :=
  match lt_desc_db self !! ShardIdentKey_new (shard_id (bh_id handle)) with
  | Some lt_desc =>
      match N.compare (seq_no (bh_id handle)) (ld_last_seq_no lt_desc) with
      | Eq => Some self
      | Lt => None
      | Gt => Some (put_handle_at self handle (u32_add (ld_last_index lt_desc) 1))
      end
  | None => Some (put_handle_at self handle 1)
  end.

(** ** Searching a shard *)
Inductive SearchResult :=
| SearchHit (id : BlockIdExt)
| SearchEnd (left right : option BlockIdExt)
| SearchError
| SearchFuel.

(** The [while] loop. *)
Fixpoint search_shard (fuel : nat) self shard (compare_lt_db : LtDbEntry → comparison) (lb rb last_index : N)
    (left right : option BlockIdExt) : SearchResult :=
  match fuel with
  | O => SearchFuel
  | S fuel' =>
      if negb (lb <? rb) then SearchEnd left right else
      let index := lb + (rb - lb) / 2 in
      if last_index =? index then SearchEnd left right else
      match lt_db self !! LtDbKey_with_values shard index with
      | None => SearchError
      | Some entry =>
          let result := le_block_id_ext entry in
          match compare_lt_db entry with
          | Lt => search_shard fuel' self shard compare_lt_db lb index index left (Some result)
          | Gt => search_shard fuel' self shard compare_lt_db index rb index (Some result) right
          | Eq => SearchHit result
          end
      end
  end.

(** The fuel is enough for any number of turns the loop can take. *)
Definition search_fuel (d : N) : nat := S (S (N.to_nat (N.size d))).

(** ** The loop over the shards *)
Definition seq_gt (a b : BlockIdExt) : bool := seq_no b <? seq_no a.

(** [block_id_opt] after a shard with the right neighbour [right]. *)
Definition better_block (block_id_opt right : option BlockIdExt) : option BlockIdExt :=
  match right with
  | Some r => match block_id_opt with Some b => if seq_gt b r then right else block_id_opt | None => right end
  | None => block_id_opt
  end.

Definition better_left (max_left_seq_no : N) (left : option BlockIdExt) : N :=
  match left with Some l => if max_left_seq_no <? seq_no l then seq_no l else max_left_seq_no | None => max_left_seq_no end.

(** The shards that are left are those of the lengths [lens]. *)
Fixpoint get_block_loop self (account_id : AccountIdPrefixFull) (compare_desc : LtDesc → comparison) (compare_lt_db : LtDbEntry → comparison)
    (exact : bool) (lens : list N) (found : bool) (block_id_opt : option BlockIdExt) (max_left_seq_no : N) : option BlockIdExt :=
  match lens with
  | [] => if negb exact then block_id_opt else None
  | len :: lens' =>
      let continue := get_block_loop self account_id compare_desc compare_lt_db exact lens' in
      match with_prefix_len len (ap_workchain_id account_id) (ap_prefix account_id) with
      | None => None
      | Some shard =>
          match lt_desc_db self !! ShardIdentKey_new shard with
          | None => if found then (if negb exact then block_id_opt else None) else continue found block_id_opt max_left_seq_no
          | Some lt_desc =>
              match compare_desc lt_desc with
              | Gt => continue true block_id_opt max_left_seq_no
              | _ =>
                  let lb := ld_first_index lt_desc in
                  let rb := u32_add (ld_last_index lt_desc) 1 in
                  match search_shard (search_fuel (rb - lb)) self shard compare_lt_db lb rb (u32_add rb 1) None None with
                  | SearchHit id => Some id
                  | SearchError | SearchFuel => None
                  | SearchEnd left_seq_no right_seq_no =>
                      let block_id_opt := better_block block_id_opt right_seq_no in
                      let max_left_seq_no := better_left max_left_seq_no left_seq_no in
                      match block_id_opt with
                      | Some block_id =>
                          if seq_no block_id =? u32_add max_left_seq_no 1 then (if negb exact then Some block_id else None)
                          else continue true block_id_opt max_left_seq_no
                      | None => continue true block_id_opt max_left_seq_no
                      end
                  end
              end
          end
      end
  end.

Definition all_lens : list N := N.of_nat <$> seq 0 (S (N.to_nat MAX_SPLIT_DEPTH)).

Definition get_block self account_id compare_desc compare_lt_db (exact : bool) : option BlockIdExt :=
  get_block_loop self account_id compare_desc compare_lt_db exact all_lens false None 0.

Definition get_block_by_lt self account_id (lt : N) : option BlockIdExt :=
  get_block self account_id (λ desc, N.compare lt (ld_last_lt desc)) (λ entry, N.compare lt (le_lt entry)) false.
Definition get_block_by_ut self account_id (unix_time : N) : option BlockIdExt :=
  get_block self account_id (λ desc, N.compare unix_time (ld_last_unix_time desc)) (λ entry, N.compare unix_time (le_unix_time entry)) false.
Definition get_block_by_seq_no self account_id (n : N) : option BlockIdExt :=
  get_block self account_id (λ desc, N.compare n (ld_last_seq_no desc)) (λ entry, N.compare n (seq_no (le_block_id_ext entry))) true.

(** [InternalDbImpl::index_handle]: the handle of a block that is new gets its mark. *)
Definition index_handle self handle : option (BlockIndexDb * BlockHandle) :=
  if is_flag_set (bh_meta handle) FLAG_INDEXED then Some (self, handle) else
  self ← add_handle self handle; Some (self, snd (handle_set_flag handle FLAG_INDEXED)).
End index.

(** ** Storage: the index of blocks finds what was added *)

Section facts.
Context {SI : ShardIdents} {SP : ShardPrefixes}.
Implicit Types (shard : ShardIdent) (id : BlockIdExt) (handle : BlockHandle) (e : LtDbEntry) (l : list LtDbEntry) (self : BlockIndexDb).

(** ** Keys *)
Lemma shard_key_inj shard shard' : ShardIdentKey_new shard = ShardIdentKey_new shard' → shard = shard'.
Proof.
  unfold ShardIdentKey_new. intros Heq. pose proof (shard_ident_roundtrip shard []) as H1. pose proof (shard_ident_roundtrip shard' []) as H2.
  rewrite Heq in H1. congruence.
Qed.

Lemma lt_key_inj shard shard' index index' :
  index < two32 → index' < two32 → LtDbKey_with_values shard index = LtDbKey_with_values shard' index' → shard = shard' ∧ index = index'.
Proof.
  intros Hi Hi' Heq. unfold LtDbKey_with_values in Heq. apply app_inj_1 in Heq as [H1 H2]; [|unfold ShardIdent_serialize; rewrite !length_app; by rewrite !le_bytes_length].
  split; [by apply shard_key_inj|]. pose proof (read_le_app 4 index [] Hi) as R1. pose proof (read_le_app 4 index' [] Hi') as R2. rewrite H2 in R1. congruence.
Qed.

(** ** Bisection *)
Definition entry_at l (i : N) : option LtDbEntry := if i =? 0 then None else l !! N.to_nat (i - 1).

(** The entries that are too small come first, those that are too large last. *)
Definition ordered_for (cmp : LtDbEntry → comparison) l : Prop :=
  ∀ i j a b, i < j → entry_at l i = Some a → entry_at l j = Some b → (cmp b = Gt → cmp a = Gt) ∧ (cmp a = Lt → cmp b = Lt).

Definition id_of (o : option LtDbEntry) : option BlockIdExt := le_block_id_ext <$> o.

Definition search_ok (cmp : LtDbEntry → comparison) l (r : SearchResult) : Prop :=
  match r with
  | SearchHit id => ∃ e, e ∈ l ∧ cmp e = Eq ∧ id = le_block_id_ext e
  | SearchEnd lo hi => ∃ k, lo = id_of (entry_at l k) ∧ hi = id_of (entry_at l (k + 1)) ∧
      ∀ i e, entry_at l i = Some e → cmp e = if i <=? k then Gt else Lt
  | _ => False
  end.

Lemma entry_at_range l i : is_Some (entry_at l i) ↔ 1 <= i <= N.of_nat (length l).
Proof.
  unfold entry_at. destruct (N.eqb_spec i 0) as [->|Hi]; [split; [by intros []|lia]|]. rewrite lookup_lt_is_Some. lia.
Qed.

Section search.
Context (self : BlockIndexDb) (shard : ShardIdent) (cmp : LtDbEntry → comparison) (l : list LtDbEntry).
Hypothesis Hdb : ∀ i e, entry_at l i = Some e → lt_db self !! LtDbKey_with_values shard i = Some e.
Hypothesis Hord : ordered_for cmp l.

Record bounds_ok (lb rb last_index : N) (lo hi : option BlockIdExt) : Prop := {
  bo_range : 1 <= lb <= rb ∧ rb <= N.of_nat (length l) + 1;
  bo_left : (lo = None ∧ lb = 1) ∨ (∃ e, entry_at l lb = Some e ∧ cmp e = Gt ∧ lo = Some (le_block_id_ext e));
  bo_right : (hi = None ∧ rb = N.of_nat (length l) + 1) ∨ (∃ e, entry_at l rb = Some e ∧ cmp e = Lt ∧ hi = Some (le_block_id_ext e));
  bo_last : (last_index = lb ∧ is_Some lo) ∨ rb <= last_index;
}.

(** What is below and above the bounds. *)
Lemma bounds_below lb rb last_index lo hi i e :
  bounds_ok lb rb last_index lo hi → entry_at l i = Some e → i < lb ∨ (i = lb ∧ is_Some lo) → cmp e = Gt.
Proof.
  intros [Hr [[-> ->]|(e0 & He0 & Hg & ->)] _ _] He Hi.
  - assert (1 <= i) by (apply (entry_at_range l i); eauto). destruct Hi as [?|[_ []]]; [lia|done].
  - destruct Hi as [Hlt|[-> _]]; [|congruence]. by apply (Hord i lb e e0 Hlt).
Qed.

Lemma bounds_above lb rb last_index lo hi i e :
  bounds_ok lb rb last_index lo hi → entry_at l i = Some e → rb <= i → cmp e = Lt.
Proof.
  intros [Hr _ [[-> ->]|(e0 & He0 & Hg & ->)] _] He Hi.
  - assert (i <= N.of_nat (length l)) by (apply (entry_at_range l i); eauto). lia.
  - destruct (decide (i = rb)) as [->|Hne]; [congruence|]. by apply (Hord rb i e0 e ltac:(lia)).
Qed.

(** The end of the loop. *)
Lemma bounds_end lb rb last_index lo hi :
  bounds_ok lb rb last_index lo hi → (rb = lb ∧ lo = None) ∨ (rb = lb + 1 ∧ is_Some lo) → search_ok cmp l (SearchEnd lo hi).
Proof.
  intros Hb Hend. pose proof Hb as [Hr Hl Hrt _]. exists (rb - 1). replace (rb - 1 + 1) with rb by lia. split_and!.
  - destruct Hend as [[-> ->]|[-> [x Hx]]].
    + destruct Hl as [[_ ->]|(e & _ & _ & ?)]; done.
    + rewrite N.add_sub. destruct Hl as [[-> _]|(e & -> & _ & ->)]; [done|done].
  - destruct Hrt as [[-> ->]|(e & -> & _ & ->)]; [|done]. unfold entry_at. rewrite (proj2 (N.eqb_neq _ _)) by lia.
    rewrite lookup_ge_None_2 by lia. done.
  - intros i e He. destruct (N.leb_spec i (rb - 1)) as [Hi|Hi].
    + apply (bounds_below lb rb last_index lo hi i e Hb He). destruct Hend as [[-> _]|[-> Hs]]; [left; lia|]. destruct (decide (i = lb)); [by right|left; lia].
    + apply (bounds_above lb rb last_index lo hi i e Hb He). lia.
Qed.

Lemma search_shard_ok k fuel lb rb last_index lo hi :
  bounds_ok lb rb last_index lo hi → rb - lb <= 2 ^ N.of_nat k → (k + 2 <= fuel)%nat →
  search_ok cmp l (search_shard fuel self shard cmp lb rb last_index lo hi).
Proof.
  revert k lb rb last_index lo hi. induction fuel as [|fuel IH]; intros k lb rb last_index lo hi Hb Hd Hfuel; [lia|].
  pose proof Hb as [Hr Hl Hrt Hlast]. cbn [search_shard]. destruct (N.ltb_spec lb rb) as [Hlt|Hge]; cbn [negb].
  2: { apply (bounds_end lb rb last_index lo hi Hb). left. split; [lia|]. destruct Hl as [[? _]|(e & He & Hg & _)]; [done|].
       pose proof (bounds_above lb rb last_index lo hi lb e Hb He ltac:(lia)). congruence. }
  pose proof (N.div_mod (rb - lb) 2 ltac:(done)) as Hdm. pose proof (N.mod_upper_bound (rb - lb) 2 ltac:(done)) as Hmb.
  revert Hdm Hmb. generalize ((rb - lb) / 2) ((rb - lb) mod 2). intros q r Hdm Hmb. set (index := lb + q). assert (Hi : lb <= index < rb) by (unfold index; lia).
  destruct (N.eqb_spec last_index index) as [Heq|Hne].
  { apply (bounds_end lb rb last_index lo hi Hb). right. destruct Hlast as [[-> Hs]|Hge]; [|lia]. split; [|done].
    assert (q = 0) by (unfold index in Heq; lia). lia. }
  destruct (proj2 (entry_at_range l index) ltac:(lia)) as [e He]. rewrite (Hdb index e He).
  destruct (cmp e) eqn:Ec.
  - exists e. split_and!; try done. unfold entry_at in He. destruct (index =? 0); [done|]. by eapply list_elem_of_lookup_2.
  - destruct k as [|k].
    + assert (rb - lb = 1) by (cbn in Hd; lia). assert (Hz : q = 0) by lia.
      assert (index = lb) as Hlb by (unfold index; lia). destruct fuel as [|fuel]; [lia|]. cbn [search_shard]. rewrite Hlb, N.ltb_irrefl. cbn [negb].
      apply (bounds_end lb lb index lo (Some (le_block_id_ext e))).
      * split; [lia|done| |right; lia]. right. exists e. by rewrite <- Hlb.
      * left. split; [done|]. destruct Hl as [[? _]|(e0 & He0 & Hg & _)]; [done|]. rewrite Hlb in He. congruence.
    + apply (IH k).
      * split; [lia|done| |right; lia]. right. by exists e.
      * rewrite Nat2N.inj_succ, N.pow_succ_r' in Hd. unfold index. lia.
      * lia.
  - assert (Hb' : bounds_ok index rb index (Some (le_block_id_ext e)) hi).
    { split; [lia| |done|left; by eauto]. right. by exists e. }
    destruct k as [|k].
    + assert (rb - lb = 1) by (cbn in Hd; lia). assert (Hz : q = 0) by lia.
      assert (index = lb) as Hlb by (unfold index; lia). destruct fuel as [|fuel]; [lia|]. cbn [search_shard].
      rewrite (proj2 (N.ltb_lt index rb)) by lia. cbn [negb]. replace (rb - index) with 1 by lia. change (1 / 2) with 0. rewrite N.add_0_r, N.eqb_refl.
      apply (bounds_end index rb index _ _ Hb'). right. split; [lia|by eauto].
    + apply (IH k); [done| |lia]. rewrite Nat2N.inj_succ, N.pow_succ_r' in Hd. unfold index. lia.
Qed.

(** The whole search. *)
Lemma search_from_start :
  l ≠ [] → N.of_nat (length l) + 2 < two32 →
  search_ok cmp l (search_shard (search_fuel (N.of_nat (length l) + 1 - 1)) self shard cmp 1 (N.of_nat (length l) + 1) (N.of_nat (length l) + 1 + 1) None None).
Proof.
  intros Hne H32. apply (search_shard_ok (N.to_nat (N.size (N.of_nat (length l) + 1 - 1)))).
  - split; [lia|by left|by left|right; lia].
  - rewrite N2Nat.id. apply N.lt_le_incl. eapply N.le_lt_trans; [|apply N.size_gt]. lia.
  - unfold search_fuel. lia.
Qed.
End search.

(** ** What was added *)
Definition entry_seq e : N := seq_no (le_block_id_ext e).
Definition entry_of handle : LtDbEntry :=
  {| le_block_id_ext := bh_id handle; le_lt := bm_gen_lt (bh_meta handle); le_unix_time := bm_gen_utime (bh_meta handle) |}.
Definition desc_of l e : LtDesc :=
  {| ld_first_index := 1; ld_last_index := N.of_nat (length l); ld_last_seq_no := entry_seq e; ld_last_lt := le_lt e; ld_last_unix_time := le_unix_time e |}.

(** The blocks of each shard, in order. *)
Notation history := (ShardIdent → list LtDbEntry).
Implicit Types (g : history).

Definition history_add g handle : history := λ shard,
  if decide (shard = shard_id (bh_id handle)) then
    match list.last (g shard) with
    | Some e => if entry_seq e =? seq_no (bh_id handle) then g shard else g shard ++ [entry_of handle]
    | None => [entry_of handle]
    end
  else g shard.

Record shard_indexed self shard l : Prop := {
  si_desc : lt_desc_db self !! ShardIdentKey_new shard = desc_of l <$> list.last l;
  si_entries i e : entry_at l i = Some e → lt_db self !! LtDbKey_with_values shard i = Some e;
  si_ascending i j a b : i < j → entry_at l i = Some a → entry_at l j = Some b → entry_seq a < entry_seq b;
  si_length : N.of_nat (length l) + 2 < two32;
}.

Definition indexed self g : Prop := ∀ shard, shard_indexed self shard (g shard).

Lemma last_entry l e : list.last l = Some e ↔ entry_at l (N.of_nat (length l)) = Some e.
Proof.
  unfold entry_at. destruct l as [|a l _] using rev_ind; [done|]. rewrite last_snoc, length_app. cbn [length].
  rewrite (proj2 (N.eqb_neq _ _)) by lia. replace (N.to_nat (N.of_nat (length l + 1) - 1)) with (length l) by lia.
  by rewrite list_lookup_middle.
Qed.

Lemma entry_at_snoc l x i e : entry_at (l ++ [x]) i = Some e → entry_at l i = Some e ∨ (i = N.of_nat (length l) + 1 ∧ e = x).
Proof.
  unfold entry_at. destruct (N.eqb_spec i 0) as [->|Hi]; [done|]. intros [Hl|[Hge Hx]]%lookup_app_Some; [by left|right].
  apply list_lookup_singleton_Some in Hx as [Hz <-]. split; [lia|done].
Qed.

Lemma add_handle_indexed self self' g handle :
  indexed self g → N.of_nat (length (g (shard_id (bh_id handle)))) + 3 < two32 → add_handle self handle = Some self' →
  indexed self' (history_add g handle).
Proof.
  intros HI Hlen Hadd shard. unfold add_handle in Hadd. set (sh := shard_id (bh_id handle)) in *. pose proof (HI sh) as [Hd He Ha Hl].
  unfold history_add. fold sh. rewrite Hd in Hadd.
  assert (Hput : ∀ l, g sh = l → (∀ e, list.last l = Some e → entry_seq e < seq_no (bh_id handle)) →
    shard_indexed (put_handle_at self handle (N.of_nat (length l) + 1)) sh (l ++ [entry_of handle]) ∧
    ∀ shard, shard ≠ sh → shard_indexed (put_handle_at self handle (N.of_nat (length l) + 1)) shard (g shard)).
  { intros l <- Hlast. unfold put_handle_at. fold sh. split.
    - split; cbn [lt_desc_db lt_db].
      + rewrite lookup_insert_eq, last_snoc. cbn. unfold desc_of. rewrite length_app. cbn [length]. do 2 f_equal. lia.
      + intros i e [Hi|[-> ->]]%entry_at_snoc; [|apply lookup_insert_eq]. rewrite lookup_insert_ne; [by apply He|].
        pose proof (proj1 (entry_at_range _ i) ltac:(eauto)). intros [_ Heq]%lt_key_inj; lia.
      + intros i j a b Hij [Hi|[-> ->]]%entry_at_snoc [Hj|[-> ->]]%entry_at_snoc; [by apply (Ha i j)| | |lia].
        * destruct (list.last (g sh)) as [e|] eqn:El.
          -- specialize (Hlast e eq_refl). apply last_entry in El. pose proof (proj1 (entry_at_range _ i) ltac:(eauto)).
             destruct (decide (i = N.of_nat (length (g sh)))) as [->|Hne]; [replace a with e by congruence; exact Hlast|].
             pose proof (Ha i (N.of_nat (length (g sh))) a e ltac:(lia) Hi El). cbn in *. unfold entry_seq at 2. cbn. lia.
          -- apply last_None in El. rewrite El in Hi. unfold entry_at in Hi. by case_match.
        * pose proof (proj1 (entry_at_range _ j) ltac:(eauto)). lia.
      + rewrite length_app. cbn [length]. lia.
    - intros shard' Hne. destruct (HI shard') as [Hd' He' Ha' Hl']. split; cbn [lt_desc_db lt_db]; try done.
      + rewrite lookup_insert_ne; [done|]. intros ?%shard_key_inj. congruence.
      + intros i e Hi. rewrite lookup_insert_ne; [by apply He'|]. pose proof (proj1 (entry_at_range _ i) ltac:(eauto)).
        intros [? _]%lt_key_inj; [congruence|lia|lia]. }
  destruct (list.last (g sh)) as [e|] eqn:El; cbn [fmap option_fmap option_map] in Hadd; cbn [desc_of ld_last_seq_no ld_last_index] in Hadd.
  - destruct (N.compare_spec (seq_no (bh_id handle)) (entry_seq e)) as [Heq|Hlt|Hgt]; [| |].
    + injection Hadd as <-. case_decide as Hs; [subst shard|apply HI]. rewrite El, (proj2 (N.eqb_eq _ _)) by done. apply HI.
    + done.
    + injection Hadd as <-. unfold u32_add. rewrite N.mod_small by lia. destruct (Hput (g sh) eq_refl ltac:(intros e0; rewrite El; intros [= <-]; lia)) as [H1 H2].
      case_decide as Hs; [subst shard|by apply H2]. rewrite El, (proj2 (N.eqb_neq _ _)) by lia. apply H1.
  - injection Hadd as <-. apply last_None in El. destruct (Hput [] El ltac:(done)) as [H1 H2].
    case_decide as Hs; [subst shard|by apply H2]. rewrite El. apply H1.
Qed.

(** ** Lookups *)
Section lookup.
Context (self : BlockIndexDb) (g : history) (account : AccountIdPrefixFull) (shard_at : N → ShardIdent).
Context (cmp_desc : LtDesc → comparison) (cmp : LtDbEntry → comparison) (exact : bool).

Definition account_entry e : Prop := ∃ len, len <= MAX_SPLIT_DEPTH ∧ e ∈ g (shard_at len).

(** The shards of the account form one chain of blocks, in which [cmp] splits the
    blocks at one place; depths without blocks are above or below all others. *)
Record chain_ok : Prop := {
  ch_indexed : indexed self g;
  ch_shards len : len <= MAX_SPLIT_DEPTH → with_prefix_len len (ap_workchain_id account) (ap_prefix account) = Some (shard_at len);
  ch_positive e : account_entry e → 0 < entry_seq e;
  ch_unique a b : account_entry a → account_entry b → entry_seq a = entry_seq b → a = b;
  ch_order a b : account_entry a → account_entry b → entry_seq a < entry_seq b → (cmp b = Gt → cmp a = Gt) ∧ (cmp a = Lt → cmp b = Lt);
  ch_desc l e : list.last l = Some e → cmp_desc (desc_of l e) = cmp e;
  ch_gaps a b c : a < b < c → c <= MAX_SPLIT_DEPTH → g (shard_at a) ≠ [] → g (shard_at c) ≠ [] → g (shard_at b) ≠ [];
}.
Hypothesis Hch : chain_ok.

Definition first_block e : Prop := ∀ e', account_entry e' → cmp e' ≠ Gt → entry_seq e <= entry_seq e'.

Definition lookup_ok (r : option BlockIdExt) : Prop :=
  match r with
  | Some id => ∃ e, account_entry e ∧ id = le_block_id_ext e ∧ (cmp e = Eq ∨ (exact = false ∧ cmp e = Lt ∧ first_block e))
  | None => ∀ e, account_entry e → if exact then cmp e ≠ Eq else cmp e = Gt
  end.

Lemma shard_entry len i e : len <= MAX_SPLIT_DEPTH → entry_at (g (shard_at len)) i = Some e → account_entry e.
Proof.
  intros Hl He. exists len. split; [done|]. unfold entry_at in He. case_match; [done|]. by eapply list_elem_of_lookup_2.
Qed.

Lemma elem_entry l e : e ∈ l → ∃ i, entry_at l i = Some e.
Proof.
  intros [i Hi]%list_elem_of_lookup. exists (N.of_nat i + 1). unfold entry_at. rewrite (proj2 (N.eqb_neq _ _)) by lia.
  by replace (N.to_nat (N.of_nat i + 1 - 1)) with i by lia.
Qed.

Lemma shard_ordered len : len <= MAX_SPLIT_DEPTH → ordered_for cmp (g (shard_at len)).
Proof.
  intros Hl i j a b Hij Ha Hb. apply (ch_order Hch); [by eapply shard_entry..|].
  by apply (si_ascending _ _ _ (ch_indexed Hch (shard_at len)) i j).
Qed.

(** What is known when the lengths below [n] are done. *)
Definition seen (n : N) e : Prop := ∃ len, len < n ∧ len <= MAX_SPLIT_DEPTH ∧ e ∈ g (shard_at len).

Record loop_ok (n : N) (found : bool) (b : option BlockIdExt) (m : N) : Prop := {
  lo_found : found = true ↔ ∃ len, len < n ∧ len <= MAX_SPLIT_DEPTH ∧ g (shard_at len) ≠ [];
  lo_miss e : seen n e → cmp e ≠ Eq;
  lo_none : b = None → ∀ e, seen n e → cmp e = Gt;
  lo_some id : b = Some id → ∃ e, seen n e ∧ cmp e = Lt ∧ id = le_block_id_ext e ∧ ∀ e', seen n e' → cmp e' ≠ Gt → entry_seq e <= entry_seq e';
  lo_left : m = 0 ∨ ∃ e, seen n e ∧ cmp e = Gt ∧ entry_seq e = m;
}.

Lemma seen_account n e : seen n e → account_entry e.
Proof. intros (len & _ & Hl & He). by exists len. Qed.

Lemma seen_all e : account_entry e → seen (MAX_SPLIT_DEPTH + 1) e.
Proof. intros (len & Hl & He). exists len. split_and!; [lia|done|done]. Qed.

Lemma seen_succ n e : seen (n + 1) e ↔ seen n e ∨ (n <= MAX_SPLIT_DEPTH ∧ e ∈ g (shard_at n)).
Proof.
  split.
  - intros (len & Hlt & Hl & He). destruct (decide (len = n)) as [->|Hne]; [by right|left]. exists len. split_and!; [lia|done|done].
  - intros [(len & Hlt & Hl & He)|[Hl He]]; [exists len; split_and!; [lia|done|done]|]. exists n. split_and!; [lia|done|done].
Qed.

(** Everything not behind the bound is at or after the block that was found. *)
Lemma early_end n found b id m :
  loop_ok n found b m → b = Some id → seq_no id = u32_add m 1 →
  ∃ e, account_entry e ∧ id = le_block_id_ext e ∧ cmp e = Lt ∧ first_block e.
Proof.
  intros Hlo Hb Hseq. destruct (lo_some _ _ _ _ Hlo id Hb) as (e & He & Hc & -> & _). pose proof (seen_account _ _ He) as Ha. exists e. split_and!; try done.
  intros e' Ha' Hc'. pose proof (ch_positive Hch e Ha) as Hp. pose proof (ch_positive Hch e' Ha') as Hp'. fold (entry_seq e) in Hseq.
  assert (Hle : entry_seq e <= m + 1) by (rewrite Hseq; unfold u32_add; apply N.Div0.mod_le).
  destruct (lo_left _ _ _ _ Hlo) as [->|(el & Hel & Hgl & Hm)]; [lia|]. pose proof (seen_account _ _ Hel) as Hal.
  destruct (N.lt_trichotomy (entry_seq e') m) as [Hlt|[Heq|Hgt]]; [|..|lia].
  - exfalso. apply Hc'. by apply (ch_order Hch e' el Ha' Hal ltac:(lia)).
  - exfalso. apply Hc'. replace e' with el; [done|]. by apply (ch_unique Hch); [..|lia].
Qed.

(** The end: everything was seen. *)
Lemma loop_end found b m : loop_ok (MAX_SPLIT_DEPTH + 1) found b m → lookup_ok (if negb exact then b else None).
Proof.
  intros Hlo. destruct exact eqn:Ee; cbn [negb].
  - intros e He. rewrite Ee. by apply (lo_miss _ _ _ _ Hlo), seen_all.
  - destruct b as [id|] eqn:Eb.
    + destruct (lo_some _ _ _ _ Hlo id eq_refl) as (e & He & Hc & -> & Hmin). exists e. split_and!; [by eapply seen_account|done|right].
      split_and!; [done|done|]. intros e' He'%seen_all. by apply Hmin.
    + intros e He. rewrite Ee. by apply (lo_none _ _ _ _ Hlo eq_refl), seen_all.
Qed.

(** A depth without blocks. *)
Lemma loop_empty n n' found b m :
  loop_ok n found b m → n <= n' → (∀ len, n <= len → len < n' → len <= MAX_SPLIT_DEPTH → g (shard_at len) = []) → loop_ok n' found b m.
Proof.
  intros [Hf H1 H2 H3 H4] Hn He. assert (Hseen : ∀ e, seen n' e ↔ seen n e).
  { intros e. split; intros (len & Hl & Hm & Hin).
    - exists len. split_and!; try done. destruct (N.lt_ge_cases len n) as [|Hge]; [done|]. rewrite (He len Hge Hl Hm) in Hin. by apply not_elem_of_nil in Hin.
    - exists len. split_and!; [lia|done|done]. }
  split.
  - rewrite Hf. split; intros (len & Hl & Hm & Hne); exists len; split_and!; try done; [lia|].
    destruct (N.lt_ge_cases len n) as [|Hge]; [done|]. by rewrite (He len Hge Hl Hm) in Hne.
  - intros e Hs%Hseen. by apply H1.
  - intros Hb e Hs%Hseen. by apply H2.
  - intros id Hb. destruct (H3 id Hb) as (e & Hs & Hc & Hid & Hmin). exists e. split_and!; [by apply Hseen|done|done|]. intros e' Hs'%Hseen. by apply Hmin.
  - destruct H4 as [?|(e & Hs & ?)]; [by left|right]. exists e. split; [by apply Hseen|done].
Qed.

(** A depth that was searched. *)
Lemma loop_searched n found b m lo hi k :
  loop_ok n found b m → n <= MAX_SPLIT_DEPTH → g (shard_at n) ≠ [] →
  let l := g (shard_at n) in
  lo = id_of (entry_at l k) ∨ lo = None → hi = id_of (entry_at l (k + 1)) →
  (∀ i e, entry_at l i = Some e → cmp e = if i <=? k then Gt else Lt) →
  loop_ok (n + 1) true (better_block b hi) (better_left m lo).
Proof.
  intros Hlo Hn Hne l Hl Hh Hcmp. pose proof (ch_indexed Hch (shard_at n)) as Hsi. fold l in Hsi.
  assert (Hlt : ∀ e, e ∈ l → cmp e ≠ Gt → ∃ e1, entry_at l (k + 1) = Some e1 ∧ entry_seq e1 <= entry_seq e).
  { intros e [i Hi]%elem_entry Hc. pose proof (Hcmp i e Hi) as Hci. destruct (N.leb_spec i k) as [|Hik]; [done|].
    destruct (proj2 (entry_at_range l (k + 1))) as [e1 He1]; [pose proof (proj1 (entry_at_range l i) ltac:(eauto)); lia|]. exists e1. split; [done|].
    destruct (decide (i = k + 1)) as [->|Hd]; [replace e with e1 by congruence; done|].
    apply N.lt_le_incl. by apply (si_ascending _ _ _ Hsi (k + 1) i); [lia|..]. }
  assert (Hhi : ∀ e1, entry_at l (k + 1) = Some e1 → cmp e1 = Lt ∧ e1 ∈ l).
  { intros e1 He1. rewrite (Hcmp _ _ He1), (proj2 (N.leb_gt _ _)) by lia. split; [done|]. unfold entry_at in He1. case_match; [done|]. by eapply list_elem_of_lookup_2. }
  destruct Hlo as [Hf H1 H2 H3 H4]. split.
  - split; [|done]. intros _. exists n. split_and!; [lia|done|done].
  - intros e [Hs|[_ Hin]]%seen_succ; [by apply H1|]. apply elem_entry in Hin as [i Hi]. rewrite (Hcmp i e Hi). by case_match.
  - intros Hb e Hs. assert (Hbh : b = None ∧ hi = None) by (unfold better_block in Hb; repeat case_match; simplify_eq; done). destruct Hbh as [-> ->].
    apply seen_succ in Hs as [Hs|[_ Hin]]; [by apply H2|]. destruct (cmp e) eqn:Ec; [..|done]; exfalso;
      (destruct (Hlt e Hin ltac:(congruence)) as (e1 & He1 & _); by rewrite He1 in Hh).
  - intros id Hb. assert (Hcase : (hi = Some id ∧ (∀ b0, b = Some b0 → seq_no id <= seq_no b0)) ∨ (b = Some id ∧ (∀ h, hi = Some h → seq_no id <= seq_no h))).
    { unfold better_block, seq_gt in Hb. destruct hi as [h|]; [|right; split; [done|congruence]]. destruct b as [b0|]; [|left; split; [done|congruence]].
      destruct (N.ltb_spec (seq_no h) (seq_no b0)); [left|right]; simplify_eq; (split; [done|intros ? [= <-]; lia]). }
    destruct Hcase as [[-> Hmin]|[-> Hmin]].
    + destruct (entry_at l (k + 1)) as [e1|] eqn:E1; [|done]. injection Hh as ->. destruct (Hhi e1 eq_refl) as [Hc1 Hin1]. exists e1.
      split_and!; [apply seen_succ; by right|done|done|]. intros e' [Hs|[_ Hin]]%seen_succ Hc'.
      * destruct b as [b0|]; [|specialize (H2 eq_refl e' Hs); congruence]. destruct (H3 b0 eq_refl) as (e0 & _ & _ & -> & Hm0).
        etrans; [apply (Hmin _ eq_refl)|]. by apply Hm0.
      * destruct (Hlt e' Hin Hc') as (e2 & He2 & Hle). by simplify_eq.
    + destruct (H3 id eq_refl) as (e0 & Hs0 & Hc0 & -> & Hm0). exists e0. split_and!; [apply seen_succ; by left|done|done|].
      intros e' [Hs|[_ Hin]]%seen_succ Hc'; [by apply Hm0|]. destruct (Hlt e' Hin Hc') as (e2 & He2 & Hle). etrans; [|exact Hle].
      apply Hmin. by rewrite Hh, He2.
  - assert (Hm : better_left m lo = m ∨ ∃ id, lo = Some id ∧ better_left m lo = seq_no id).
    { unfold better_left. destruct lo as [x|]; [|by left]. case_match; [right; by eauto|by left]. }
    destruct Hm as [->|(id & -> & ->)].
    + destruct H4 as [->|(e & Hs & He)]; [by left|right]. exists e. split; [apply seen_succ; by left|done].
    + destruct Hl as [Hl|?]; [|done]. destruct (entry_at l k) as [ek|] eqn:Ek; [|done]. injection Hl as ->. right. exists ek. split_and!; [|..|done].
      * apply seen_succ. right. split; [done|]. unfold entry_at in Ek. case_match; [done|]. by eapply list_elem_of_lookup_2.
      * by rewrite (Hcmp k ek Ek), N.leb_refl.
Qed.

Lemma all_too_small len :
  len <= MAX_SPLIT_DEPTH → ∀ e, list.last (g (shard_at len)) = Some e → cmp e = Gt → ∀ e', e' ∈ g (shard_at len) → cmp e' = Gt.
Proof.
  intros Hl e He Hc e' [i Hi]%elem_entry. apply last_entry in He. pose proof (proj1 (entry_at_range _ i) ltac:(eauto)) as Hr.
  destruct (decide (i = N.of_nat (length (g (shard_at len))))) as [->|Hne]; [congruence|].
  by apply (shard_ordered len Hl i (N.of_nat (length (g (shard_at len)))) e' e ltac:(lia)).
Qed.

Lemma loop_runs k n found b m :
  loop_ok n found b m → n + N.of_nat k = MAX_SPLIT_DEPTH + 1 →
  lookup_ok (get_block_loop self account cmp_desc cmp exact (N.of_nat <$> seq (N.to_nat n) k) found b m).
Proof.
  revert n found b m. induction k as [|k IH]; intros n found b m Hlo Hk.
  - cbn [seq fmap list_fmap get_block_loop]. apply (loop_end found b m). by replace (MAX_SPLIT_DEPTH + 1) with n by lia.
  - cbn [seq fmap list_fmap get_block_loop]. rewrite N2Nat.id. replace (S (N.to_nat n)) with (N.to_nat (n + 1)) by lia.
    assert (Hn : n <= MAX_SPLIT_DEPTH) by lia. rewrite (ch_shards Hch n Hn).
    assert (Hnext : ∀ found b m, loop_ok (n + 1) found b m →
      lookup_ok (get_block_loop self account cmp_desc cmp exact (N.of_nat <$> seq (N.to_nat (n + 1)) k) found b m)) by (intros; apply IH; [done|lia]).
    pose proof (ch_indexed Hch (shard_at n)) as [Hd He Ha Hlen]. rewrite Hd. destruct (list.last (g (shard_at n))) as [e|] eqn:El; cbn [fmap option_fmap option_map].
    + assert (Hne : g (shard_at n) ≠ []) by (intros Hz; by rewrite Hz in El). rewrite (ch_desc Hch _ _ El).
      assert (Hskip : cmp e = Gt → lookup_ok (get_block_loop self account cmp_desc cmp exact (N.of_nat <$> seq (N.to_nat (n + 1)) k) true b m)).
      { intros Hg. apply Hnext. pose proof (loop_searched n found b m None None (N.of_nat (length (g (shard_at n)))) Hlo Hn Hne) as H. apply H; [by right| |].
        - unfold id_of, entry_at. rewrite (proj2 (N.eqb_neq _ _)) by lia. rewrite lookup_ge_None_2 by lia. done.
        - intros i e' Hi. pose proof (proj1 (entry_at_range _ i) ltac:(eauto)) as Hr. rewrite (proj2 (N.leb_le _ _)) by lia.
          apply (all_too_small n Hn e El Hg). unfold entry_at in Hi. case_match; [done|]. by eapply list_elem_of_lookup_2. }
      assert (Hsearch : lookup_ok
        (let lb := ld_first_index (desc_of (g (shard_at n)) e) in
         let rb := u32_add (ld_last_index (desc_of (g (shard_at n)) e)) 1 in
         match search_shard (search_fuel (rb - lb)) self (shard_at n) cmp lb rb (u32_add rb 1) None None with
         | SearchHit id => Some id
         | SearchEnd lo hi =>
             match better_block b hi with
             | Some block_id => if seq_no block_id =? u32_add (better_left m lo) 1 then if negb exact then Some block_id else None
                 else get_block_loop self account cmp_desc cmp exact (N.of_nat <$> seq (N.to_nat (n + 1)) k) true (better_block b hi) (better_left m lo)
             | None => get_block_loop self account cmp_desc cmp exact (N.of_nat <$> seq (N.to_nat (n + 1)) k) true (better_block b hi) (better_left m lo)
             end
         | _ => None
         end)); [|destruct (cmp e); [exact Hsearch|exact Hsearch|by apply Hskip]].
      cbv zeta. cbn [desc_of ld_first_index ld_last_index].
      assert (Hrb : ∀ x, x + 1 < two32 → u32_add x 1 = x + 1) by (intros x Hx; unfold u32_add; by rewrite N.mod_small).
      rewrite (Hrb (N.of_nat (length (g (shard_at n))))), (Hrb (N.of_nat (length (g (shard_at n))) + 1)) by lia.
      pose proof (search_from_start self (shard_at n) cmp (g (shard_at n)) He (shard_ordered n Hn) Hne Hlen) as Hs.
      destruct (search_shard _ self (shard_at n) cmp 1 _ _ None None) as [id|lo hi| |]; cbn [search_ok] in Hs; [| |done..].
      * destruct Hs as (e1 & Hin & Hc & ->). exists e1. split_and!; [by exists n|done|by left].
      * destruct Hs as (q & Hlo' & Hhi' & Hcmp). pose proof (loop_searched n found b m lo hi q Hlo Hn Hne (or_introl Hlo') Hhi' Hcmp) as Hnew.
        destruct (better_block b hi) as [id|] eqn:Eb; [|by apply Hnext]. destruct (N.eqb_spec (seq_no id) (u32_add (better_left m lo) 1)) as [Heq|]; [|by apply Hnext].
        destruct (early_end _ _ _ id _ Hnew eq_refl Heq) as (e1 & He1 & -> & Hc1 & Hf1). destruct exact eqn:Ee; cbn [negb].
        -- intros e' He'. rewrite Ee. intros Hc'. pose proof (Hf1 e' He' ltac:(congruence)) as Hle. destruct (N.lt_trichotomy (entry_seq e1) (entry_seq e')) as [Hlt|[Hq|?]]; [|..|lia].
           ++ pose proof (proj2 (ch_order Hch e1 e' He1 He' Hlt) Hc1). congruence.
           ++ rewrite (ch_unique Hch e1 e' He1 He' Hq) in Hc1. congruence.
        -- exists e1. split_and!; [done|done|]. right. by rewrite Ee.
    + apply last_None in El. destruct found.
      * apply (loop_end true b m). apply (loop_empty n); [done|lia|]. intros len Hge Hlt Hmax. destruct (decide (len = n)) as [->|Hd']; [done|].
        destruct (g (shard_at len)) as [|x l'] eqn:Eg; [done|]. exfalso. destruct (proj1 (lo_found _ _ _ _ Hlo) eq_refl) as (len0 & Hl0 & Hm0 & Hne0).
        apply (ch_gaps Hch len0 n len ltac:(lia) Hmax Hne0); [by rewrite Eg|done].
      * apply Hnext. apply (loop_empty n); [done|lia|]. intros len Hge Hlt _. by replace len with n by lia.
Qed.

(** The whole lookup. *)
Lemma get_block_ok : lookup_ok (get_block self account cmp_desc cmp exact).
Proof.
  unfold get_block, all_lens. apply (loop_runs (S (N.to_nat MAX_SPLIT_DEPTH)) 0).
  - split; try done.
    + split; [done|]. intros (len & ? & _). lia.
    + intros e (len & ? & _). lia.
    + intros _ e (len & ? & _). lia.
    + by left.
  - lia.
Qed.
End lookup.

(** ** Runs *)
Inductive index_reachable : BlockIndexDb → history → Prop :=
| index_empty : index_reachable {| lt_desc_db := ∅; lt_db := ∅ |} (λ _, [])
| index_add self g handle self' :
    index_reachable self g → N.of_nat (length (g (shard_id (bh_id handle)))) + 3 < two32 → add_handle self handle = Some self' →
    index_reachable self' (history_add g handle).

Lemma index_reachable_ok self g : index_reachable self g → indexed self g.
Proof.
  induction 1 as [|self g handle self' _ IH Hl Ha]; [|by eapply add_handle_indexed]. intros shard. split; try done; unfold entry_at; intros; by case_match.
Qed.

(** The blocks of an account are one chain: every depth has its shard, the numbers
    name the blocks, and the depths in use have no gaps. *)
Record account_chain g (account : AccountIdPrefixFull) (shard_at : N → ShardIdent) : Prop := {
  ac_shards len : len <= MAX_SPLIT_DEPTH → with_prefix_len len (ap_workchain_id account) (ap_prefix account) = Some (shard_at len);
  ac_positive e : account_entry g shard_at e → 0 < entry_seq e;
  ac_unique a b : account_entry g shard_at a → account_entry g shard_at b → entry_seq a = entry_seq b → a = b;
  ac_gaps a b c : a < b < c → c <= MAX_SPLIT_DEPTH → g (shard_at a) ≠ [] → g (shard_at c) ≠ [] → g (shard_at b) ≠ [];
}.

Lemma compare_order x (a b : N) : a < b → (N.compare x b = Gt → N.compare x a = Gt) ∧ (N.compare x a = Lt → N.compare x b = Lt).
Proof. intros Hab. rewrite !N.compare_gt_iff, !N.compare_lt_iff. lia. Qed.

Lemma number_chain self g account shard_at n :
  index_reachable self g → account_chain g account shard_at →
  chain_ok self g account shard_at (λ desc, N.compare n (ld_last_seq_no desc)) (λ e, N.compare n (seq_no (le_block_id_ext e))).
Proof.
  intros Hr%index_reachable_ok [H1 H2 H3 H4]. split; try done. intros a b _ _ Hab. by apply compare_order.
Qed.

(** A measure of blocks that grows along the chain. *)
Lemma measure_chain self g account shard_at (desc_value : LtDesc → N) (value : LtDbEntry → N) x :
  index_reachable self g → account_chain g account shard_at → (∀ l e, desc_value (desc_of l e) = value e) →
  (∀ a b, account_entry g shard_at a → account_entry g shard_at b → entry_seq a < entry_seq b → value a < value b) →
  chain_ok self g account shard_at (λ desc, N.compare x (desc_value desc)) (λ e, N.compare x (value e)).
Proof.
  intros Hr%index_reachable_ok [H1 H2 H3 H4] Hd Hv. split; try done; [|intros l e _; by rewrite Hd]. intros a b Ha Hb Hab. by apply compare_order, Hv.
Qed.
End facts.
