(* ===== verification/CellDb.v ===== *)
(** * Storage: collections and cells

    Key-value collections, the cells stored in them and facts about both.  First part:
    models [storage/src/db/memorydb.rs]: a map from keys to byte strings with
    transactions whose operations are kept until they are committed.  The lock
    makes each operation one step; a destroyed collection is not modelled.  The
    RocksDB collection has the same interface. *)

From S2P Require Import Prelude BlockId.

Abbreviation MemoryDb K := (gmap K (list N)) (only parsing).

Section kvc.
Context {K : Type} `{Countable K}.

Implicit Types (db : MemoryDb K) (key : K) (value : list N).

Definition MemoryDb_try_get db key : option (list N) := db !! key.
Definition MemoryDb_contains db key : bool := bool_decide (is_Some (db !! key)).
Definition MemoryDb_put db key value : MemoryDb K := <[key := value]> db.
Definition MemoryDb_delete db key : MemoryDb K := delete key db.

(** [for_each] visits a copy of the pairs in some order, here a list; it stops at
    the first error ([None]). *)
Fixpoint for_each {A : Type} (predicate : A → K → list N → option (bool * A)) (a : A) (pairs : list (K * list N))
  : option (bool * A) :=
  match pairs with
  | [] => Some (true, a)
  | (key, value) :: pairs' =>
      '(continue, a) ← predicate a key value;
      if negb continue then Some (false, a) else for_each predicate a pairs'
  end.

Inductive PendingOperation :=
| Put (key : K) (value : list N)
| Delete (key : K).

Definition transaction : Type := list PendingOperation.

Definition transaction_put (t : transaction) key value : transaction := t ++ [Put key value].
Definition transaction_delete (t : transaction) key : transaction := t ++ [Delete key].

Definition run_operation db (op : PendingOperation) : MemoryDb K :=
  match op with Put key value => MemoryDb_put db key value | Delete key => MemoryDb_delete db key end.

Definition commit db (t : transaction) : MemoryDb K := foldl run_operation db t.

(** ** Facts *)
Lemma commit_app db t t' : commit db (t ++ t') = commit (commit db t) t'.
Proof. apply foldl_app. Qed.

(** Deletions only. *)
Lemma commit_deletes db l key :
  commit db (Delete <$> l) !! key = if decide (key ∈ l) then None else db !! key.
Proof.
  revert db. induction l as [|x l IH]; intros db; [done|]. cbn [fmap list_fmap commit foldl].
  change (foldl run_operation ?d ?t) with (commit d t). rewrite IH. unfold run_operation, MemoryDb_delete.
  destruct (decide (key ∈ l)); [by rewrite decide_True by set_solver|]. destruct (decide (key = x)) as [->|].
  - rewrite lookup_delete_eq, decide_True; [done|set_solver].
  - rewrite lookup_delete_ne by done. rewrite decide_False; [done|set_solver].
Qed.
End kvc.

Arguments PendingOperation K : clear implicits.
Arguments transaction K : clear implicits.

(** ** Storage: cells

    Models [storage/src/types/storage_cell.rs] and [storage/src/dynamic_boc_db.rs]:
    a state is a tree of cells; every cell is stored once, under its hash, with the
    hashes of the cells it refers to.

    [CellData] is a type of another crate, with its serialisation and its hash.  A
    tree of cells that is saved is a value: its references are in memory.  The
    cache of loaded cells is not modelled, a cell is read from the database. *)

Class CellExternal := {
  CellData : Type;
  cell_data_serialize : CellData → list N;
  cell_data_deserialize : list N → option (CellData * list N);
  cell_data_hash : CellData → list N;
  cell_data_roundtrip d rest : cell_data_deserialize (cell_data_serialize d ++ rest) = Some (d, rest);
  cell_data_hash_length d : length (cell_data_hash d) = 32%nat;
}.

(** [to_be_bytes], [read_be_u64] *)
Definition be_bytes (n : nat) (x : N) : list N := rev (le_bytes n x).
Definition read_be (n : nat) (input : list N) : option (N * list N) :=
  p ← read_exact n input; Some (le_value (rev (fst p)), snd p).

Definition MAX_REFERENCES_COUNT : N := 4.

Abbreviation CellId := (list N) (only parsing).

Section cells.
Context {C : CellExternal}.

(** What [CellImpl] gives of a cell. *)
Inductive Cell := mk_cell (cell_data : CellData) (references : list Cell) (tree_bits_count tree_cell_count : N).

Definition cell_data (c : Cell) : CellData := let 'mk_cell d _ _ _ := c in d.
Definition references (c : Cell) : list Cell := let 'mk_cell _ r _ _ := c in r.
Definition tree_bits_count (c : Cell) : N := let 'mk_cell _ _ b _ := c in b.
Definition tree_cell_count (c : Cell) : N := let 'mk_cell _ _ _ n := c in n.

Definition repr_hash (c : Cell) : CellId := cell_data_hash (cell_data c).

(** ** [StorageCell] *)
Record StorageCell := {
  sc_cell_data : CellData;
  sc_references : list CellId;
  sc_tree_bits_count : N;
  sc_tree_cell_count : N;
}.

Definition StorageCell_serialize (cell : Cell) : outcome (list N) :=
  let references_count := N.of_nat (length (references cell)) mod 256 in
  _ ← assert_that (references_count <=? MAX_REFERENCES_COUNT);
  let data := cell_data_serialize (cell_data cell) ++ [references_count] ++
              concat (map repr_hash (take (N.to_nat references_count) (references cell))) ++
              be_bytes 8 (tree_bits_count cell) ++ be_bytes 8 (tree_cell_count cell) in
  _ ← assert_that (negb (length data =? 0)%nat);
  Done data.

Definition read_byte (input : list N) : option (N * list N) :=
  match input with [] => None | b :: input' => Some (b, input') end.

Fixpoint read_references (n : nat) (input : list N) : option (list CellId * list N) :=
  match n with
  | O => Some ([], input)
  | S n' =>
      '(hash, input) ← read_exact 32 input;
      '(refs, input) ← read_references n' input;
      Some (hash :: refs, input)
  end.

Definition deserialize_references (data : list N) : outcome (option (list CellId)) :=
  _ ← assert_that (negb (length data =? 0)%nat);
  Done ('(_, input) ← cell_data_deserialize data;
        '(references_count, input) ← read_byte input;
        fst <$> read_references (N.to_nat references_count) input).

Definition read_counts (input : list N) : option (N * N) :=
  '(first, input) ← read_be 8 input;
  '(second, _) ← read_be 8 input;
  Some (first, second).

Definition StorageCell_deserialize (data : list N) : outcome (option StorageCell) :=
  _ ← assert_that (negb (length data =? 0)%nat);
  Done ('(cell_data, input) ← cell_data_deserialize data;
        '(references_count, input) ← read_byte input;
        '(refs, input) ← read_references (N.to_nat references_count) input;
        let '(bits, cells) := default (0, 0) (read_counts input) in
        Some {| sc_cell_data := cell_data; sc_references := refs;
                sc_tree_bits_count := bits; sc_tree_cell_count := cells |}).

(** ** [DynamicBocDb] *)
Implicit Types (db : MemoryDb CellId) (visited : gset CellId).

(** The loop over the references, with the call for one of them. *)
Section save_loop.
Variable save : Cell → transaction CellId → gset CellId → outcome (N * (transaction CellId * gset CellId)).
Fixpoint save_references (l : list Cell) (count : N) (t : transaction CellId) visited
  : outcome (N * (transaction CellId * gset CellId)) :=
  match l with
  | [] => Done (count, (t, visited))
  | r :: l' => '(n, (t, visited)) ← save r t visited; save_references l' (count + n) t visited
  end.
End save_loop.

Fixpoint save_tree_of_cells_recursive db (cell : Cell) (t : transaction CellId) visited {struct cell}
  : outcome (N * (transaction CellId * gset CellId)) :=
  let cell_id := repr_hash cell in
  if bool_decide (cell_id ∈ visited) then Done (0, (t, visited))
  else if MemoryDb_contains db cell_id then Done (0, (t, visited))
  else
    data ← StorageCell_serialize cell;
    let t := transaction_put t cell_id data in
    let visited := {[cell_id]} ∪ visited in
    match cell with
    | mk_cell _ refs _ _ => save_references (λ r t visited, save_tree_of_cells_recursive db r t visited) refs 1 t visited
    end.

Definition save_as_dynamic_boc db (root_cell : Cell) : outcome (N * MemoryDb CellId) :=
  '(written_count, (t, _)) ← save_tree_of_cells_recursive db root_cell [] ∅;
  Done (written_count, commit db t).

(** The same traversal, one call at a time: the cells of the calls that are still to come,
    the transaction and the visited cells.  The database is asked once in a call. *)
Record Saving := {
  sv_todo : list Cell;
  sv_transaction : transaction CellId;
  sv_visited : gset CellId;
}.

Definition saving_start (root_cell : Cell) : Saving := {| sv_todo := [root_cell]; sv_transaction := []; sv_visited := ∅ |}.

Definition save_step db (s : Saving) : outcome Saving :=
  match sv_todo s with
  | [] => Done s
  | cell :: todo =>
      let skip := {| sv_todo := todo; sv_transaction := sv_transaction s; sv_visited := sv_visited s |} in
      let cell_id := repr_hash cell in
      if bool_decide (cell_id ∈ sv_visited s) then Done skip
      else if MemoryDb_contains db cell_id then Done skip
      else
        data ← StorageCell_serialize cell;
        Done {| sv_todo := references cell ++ todo; sv_transaction := transaction_put (sv_transaction s) cell_id data;
                sv_visited := {[cell_id]} ∪ sv_visited s |}
  end.

(** [load_cell] through [CellDb::get_cell]; [None] when the cell is missing. *)
Definition load_cell db (cell_id : CellId) : outcome (option StorageCell) :=
  match MemoryDb_try_get db cell_id with
  | None => Done None
  | Some data => StorageCell_deserialize data
  end.

(** The whole tree, each reference loaded with [StorageCell::reference]. *)
Fixpoint load_all (load : CellId → outcome (option Cell)) (ids : list CellId) : outcome (option (list Cell)) :=
  match ids with
  | [] => Done (Some [])
  | id :: ids' =>
      c ← load id;
      match c with
      | None => Done None
      | Some c => l ← load_all load ids'; Done (option_map (cons c) l)
      end
  end.

(** No result when the fuel, the depth of the tree, is too small. *)
Fixpoint load_tree (fuel : nat) db (cell_id : CellId) : outcome (option Cell) :=
  match fuel with
  | O => Done None
  | S fuel' =>
      cell ← load_cell db cell_id;
      match cell with
      | None => Done None
      | Some cell =>
          refs ← load_all (load_tree fuel' db) (sc_references cell);
          Done (refs ← refs;
                Some (mk_cell (sc_cell_data cell) refs (sc_tree_bits_count cell) (sc_tree_cell_count cell)))
      end
  end.

Definition load_cell_references db (cell_id : CellId) : outcome (option (list CellId)) :=
  match MemoryDb_try_get db cell_id with
  | None => Done None
  | Some data => deserialize_references data
  end.
End cells.

(** ** Storage: facts about cells

    Saving a tree of cells and reading it back. *)

(** ** Bytes *)
Lemma be_bytes_length n x : length (be_bytes n x) = n.
Proof. unfold be_bytes. by rewrite length_rev, le_bytes_length. Qed.

Lemma read_be_app n x rest : x < pow256 n → read_be n (be_bytes n x ++ rest) = Some (x, rest).
Proof.
  intros Hx. unfold read_be. rewrite (read_exact_app_eq n) by apply be_bytes_length. cbn [mbind option_bind fst snd].
  unfold be_bytes. rewrite rev_involutive, le_value_bytes. by rewrite N.mod_small.
Qed.

Section facts.
Context {C : CellExternal}.
Implicit Types (c x r : Cell) (db : MemoryDb CellId) (h : CellId).

(** ** Trees *)
Lemma Cell_tree_ind (P : Cell → Prop) :
  (∀ d refs b n, (∀ r, r ∈ refs → P r) → P (mk_cell d refs b n)) → ∀ c, P c.
Proof.
  intros H. fix IH 1. intros [d refs b n]. apply H. apply list.Forall_forall.
  induction refs as [|r refs IHr]; constructor; [apply IH|apply IHr].
Qed.

Inductive subcell x : Cell → Prop :=
| subcell_refl : subcell x x
| subcell_ref c r : r ∈ references c → subcell x r → subcell x c.

Lemma subcell_trans x c r : subcell x c → subcell c r → subcell x r.
Proof. intros Hx. induction 1; [done|]. by eapply subcell_ref. Qed.

(** The hashes of a tree. *)
Fixpoint hashes (c : Cell) : gset CellId :=
  match c with mk_cell d refs _ _ => {[cell_data_hash d]} ∪ ⋃ (map hashes refs) end.

Fixpoint depth (c : Cell) : nat :=
  match c with mk_cell _ refs _ _ => S (list_max (map depth refs)) end.

Lemma hashes_unfold c : hashes c = {[repr_hash c]} ∪ ⋃ (map hashes (references c)).
Proof. by destruct c. Qed.

Lemma elem_of_hashes h c : h ∈ hashes c ↔ ∃ x, subcell x c ∧ repr_hash x = h.
Proof.
  induction c as [d refs b n IH] using Cell_tree_ind. rewrite hashes_unfold. cbn [references].
  rewrite elem_of_union, elem_of_singleton, elem_of_union_list. split.
  - intros [->|(X & (r & -> & Hr)%list_elem_of_fmap & Hh)]; [eexists; split; [apply subcell_refl|done]|].
    apply IH in Hh as (x & Hx & <-); [|done]. exists x. split; [|done]. by eapply subcell_ref.
  - intros (x & Hx & <-). inversion Hx as [|c' r Hr Hs]; subst; [by left|]. right. exists (hashes r).
    split; [apply list_elem_of_fmap; by exists r|]. apply IH; [done|]. eauto.
Qed.

Lemma hashes_root c : repr_hash c ∈ hashes c.
Proof. apply elem_of_hashes. exists c. split; [apply subcell_refl|done]. Qed.

Lemma hashes_sub x c : subcell x c → hashes x ⊆ hashes c.
Proof. intros Hx h. rewrite !elem_of_hashes. intros (y & Hy & <-). exists y. split; [by eapply subcell_trans|done]. Qed.

Lemma hashes_ref r c : r ∈ references c → hashes r ⊆ hashes c.
Proof. intros Hr. apply hashes_sub. eapply subcell_ref; [done|apply subcell_refl]. Qed.

Lemma depth_ref r c : r ∈ references c → (depth r < depth c)%nat.
Proof.
  destruct c as [d refs b n]. simpl. intros Hr. apply Nat.lt_succ_r.
  pose proof (proj1 (list_max_le (map depth refs) (list_max (map depth refs))) (le_n _)) as Hf.
  rewrite list.Forall_forall in Hf. apply Hf. apply list_elem_of_fmap. by exists r.
Qed.

Lemma depth_sub x c : subcell x c → (depth x ≤ depth c)%nat.
Proof. induction 1 as [|c r Hr _ IH]; [done|]. pose proof (depth_ref r c Hr). lia. Qed.

(** A tree is not one of its proper subtrees. *)
Lemma ref_not_sub r c x : r ∈ references c → subcell x r → x ≠ c.
Proof. intros Hr Hx ->. apply depth_sub in Hx. pose proof (depth_ref r c Hr). lia. Qed.

(** ** Serialisation *)
Record cell_fine c : Prop := {
  cf_references : (length (references c) ≤ 4)%nat;
  cf_bits : tree_bits_count c < two64;
  cf_cells : tree_cell_count c < two64;
}.

Definition cell_bytes (c : Cell) : list N :=
  cell_data_serialize (cell_data c) ++ [N.of_nat (length (references c))] ++
  concat (map repr_hash (references c)) ++ be_bytes 8 (tree_bits_count c) ++ be_bytes 8 (tree_cell_count c).

Lemma cell_bytes_nonempty c : (length (cell_bytes c) =? 0)%nat = false.
Proof. apply Nat.eqb_neq. unfold cell_bytes. rewrite !length_app. simpl. lia. Qed.

Lemma serialize_ok c : cell_fine c → StorageCell_serialize c = Done (cell_bytes c).
Proof.
  intros [Hr _ _]. unfold StorageCell_serialize. rewrite N.mod_small by lia.
  rewrite (proj2 (N.leb_le _ _)) by (unfold MAX_REFERENCES_COUNT; lia). cbn [assert_that mbind outcome_bind].
  rewrite Nat2N.id, firstn_all. change (assert_that (negb (length (cell_bytes c) =? 0)%nat) ≫= (λ _, Done (cell_bytes c)) = Done (cell_bytes c)).
  rewrite cell_bytes_nonempty. done.
Qed.

Lemma read_references_app l rest :
  Forall (λ h, length h = 32%nat) l → read_references (length l) (concat l ++ rest) = Some (l, rest).
Proof.
  induction 1 as [|h l Hh _ IH]; [done|]. cbn [length read_references concat]. rewrite <- app_assoc.
  rewrite (read_exact_app_eq 32) by done. cbn [mbind option_bind]. by rewrite IH.
Qed.

Lemma repr_hash_length l : Forall (λ h, length h = 32%nat) (map repr_hash l).
Proof. induction l; simpl; constructor; [apply cell_data_hash_length|done]. Qed.

Lemma references_roundtrip c : deserialize_references (cell_bytes c) = Done (Some (map repr_hash (references c))).
Proof.
  unfold deserialize_references. rewrite cell_bytes_nonempty. cbn [negb assert_that mbind outcome_bind]. f_equal.
  unfold cell_bytes. rewrite cell_data_roundtrip. cbn [mbind option_bind app read_byte].
  rewrite Nat2N.id, <- (length_map repr_hash), read_references_app by apply repr_hash_length. done.
Qed.

Definition storage_cell (c : Cell) : StorageCell :=
  {| sc_cell_data := cell_data c; sc_references := map repr_hash (references c);
     sc_tree_bits_count := tree_bits_count c; sc_tree_cell_count := tree_cell_count c |}.

Lemma storage_cell_roundtrip c : cell_fine c → StorageCell_deserialize (cell_bytes c) = Done (Some (storage_cell c)).
Proof.
  intros [_ Hb Hc]. unfold StorageCell_deserialize. rewrite cell_bytes_nonempty. cbn [negb assert_that mbind outcome_bind]. f_equal.
  unfold cell_bytes. rewrite cell_data_roundtrip. cbn [mbind option_bind app read_byte].
  rewrite Nat2N.id, <- (length_map repr_hash), read_references_app by apply repr_hash_length. cbn [mbind option_bind].
  unfold read_counts. rewrite (read_be_app 8 (tree_bits_count c)) by exact Hb. cbn [mbind option_bind].
  rewrite <- (app_nil_r (be_bytes 8 (tree_cell_count c))), (read_be_app 8 (tree_cell_count c)) by exact Hc. done.
Qed.

(** ** Loading *)
Definition stored db c : Prop := ∀ x, subcell x c → db !! repr_hash x = Some (cell_bytes x).

Lemma stored_sub db x c : subcell x c → stored db c → stored db x.
Proof. intros Hx Hc y Hy. apply Hc. by eapply subcell_trans. Qed.

Lemma stored_dom db c : stored db c → hashes c ⊆ dom db.
Proof. intros Hc h. rewrite elem_of_hashes. intros (x & Hx & <-). apply elem_of_dom. rewrite (Hc x Hx). eauto. Qed.

Lemma load_tree_ok db c fuel :
  stored db c → (∀ x, subcell x c → cell_fine x) → (depth c ≤ fuel)%nat → load_tree fuel db (repr_hash c) = Done (Some c).
Proof.
  revert fuel. induction c as [d refs b n IH] using Cell_tree_ind. intros fuel Hs Hfine Hd.
  destruct fuel as [|fuel]; [simpl in Hd; lia|]. cbn [load_tree]. unfold load_cell, MemoryDb_try_get.
  rewrite (Hs _ (subcell_refl _)). rewrite storage_cell_roundtrip by apply Hfine, subcell_refl.
  cbn [mbind outcome_bind storage_cell sc_references references].
  assert (Hall : ∀ l, (∀ r, r ∈ l → r ∈ refs) → load_all (load_tree fuel db) (map repr_hash l) = Done (Some l)).
  { induction l as [|r l IHl]; intros Hl; [done|]. cbn [map load_all].
    assert (Hr : r ∈ references (mk_cell d refs b n)) by (apply Hl; set_solver).
    assert (Hsub : ∀ x, subcell x r → subcell x (mk_cell d refs b n)) by (intros x Hx; by eapply subcell_ref).
    rewrite IH; [|done|intros x Hx; apply Hs; auto|auto|pose proof (depth_ref _ _ Hr); lia].
    cbn [mbind outcome_bind]. rewrite IHl by (intros; apply Hl; set_solver). done. }
  rewrite Hall by done. done.
Qed.

(** A tree with a missing first reference does not load. *)
Lemma load_tree_missing db c r l fuel :
  cell_fine c → db !! repr_hash c = Some (cell_bytes c) → references c = r :: l → db !! repr_hash r = None →
  load_tree fuel db (repr_hash c) = Done None.
Proof.
  intros Hf Hc Hl Hr. destruct fuel as [|fuel]; [done|]. cbn [load_tree]. unfold load_cell at 1, MemoryDb_try_get. rewrite Hc.
  rewrite storage_cell_roundtrip by done. cbn [mbind outcome_bind storage_cell sc_references]. rewrite Hl. cbn [map load_all].
  assert (Hno : load_tree fuel db (repr_hash r) = Done None).
  { destruct fuel; [done|]. cbn [load_tree]. unfold load_cell at 1, MemoryDb_try_get. by rewrite Hr. }
  rewrite Hno. done.
Qed.

Lemma hashes_union_cons X Y r l :
  X ∪ (hashes r ∖ Y) ∪ (⋃ (map hashes l) ∖ Y) = X ∪ (⋃ (map hashes (r :: l)) ∖ Y).
Proof. apply set_eq. intros h. simpl. set_solver. Qed.

(** ** Saving *)

(** The cells in use: trees whose hashes do not collide. *)
Record universe (known : Cell → Prop) : Prop := {
  un_ref c r : known c → r ∈ references c → known r;
  un_hash c c' : known c → known c' → repr_hash c = repr_hash c' → c = c';
  un_fine c : known c → cell_fine c;
}.

Context (known : Cell → Prop) (U : universe known).

Lemma known_sub x c : known c → subcell x c → known x.
Proof. intros Hc. induction 1 as [|c r Hr _ IH]; [done|]. apply IH. by eapply (un_ref _ U). Qed.

Lemma known_fine x c : known c → subcell x c → cell_fine x.
Proof. intros Hc Hx. apply (un_fine _ U). by eapply known_sub. Qed.

(** The root of a known tree is not below it. *)
Lemma root_not_below r c : known c → r ∈ references c → repr_hash c ∉ hashes r.
Proof.
  intros Hc Hr (x & Hx & Heq)%elem_of_hashes. apply (ref_not_sub r c x Hr Hx).
  apply (un_hash _ U); [|done..]. apply (known_sub x c Hc). by eapply subcell_ref.
Qed.

Lemma hashes_known x c : known x → known c → repr_hash x ∈ hashes c → subcell x c.
Proof.
  intros Hx Hc (y & Hy & Heq)%elem_of_hashes. assert (y = x) as <-; [|done].
  apply (un_hash _ U); [by eapply known_sub|done..].
Qed.

(** Every cell of a database comes with its tree. *)
Definition db_closed db : Prop := ∀ h, is_Some (db !! h) → ∃ c, known c ∧ repr_hash c = h ∧ stored db c.

Definition put_cell (c : Cell) : PendingOperation CellId := Put (repr_hash c) (cell_bytes c).

Lemma commit_puts db l h :
  (∀ x, x ∈ l → known x) →
  commit db (put_cell <$> l) !! h = match list_find (λ x, repr_hash x = h) l with Some (_, x) => Some (cell_bytes x) | None => db !! h end.
Proof.
  revert db. induction l as [|y l IH]; intros db Hl; [done|]. cbn [fmap list_fmap commit foldl].
  change (foldl run_operation ?d ?t) with (commit d t). rewrite IH by (intros; apply Hl; set_solver).
  cbn [list_find]. unfold run_operation, put_cell, MemoryDb_put. destruct (decide (repr_hash y = h)) as [<-|Hne].
  - destruct (list_find _ l) as [[i x]|] eqn:E; cbn; [|by rewrite lookup_insert_eq].
    apply list_find_Some in E as (Hx & Heq & _). f_equal. f_equal. apply (un_hash _ U); [..|done].
    + apply Hl. apply list_elem_of_lookup_2 in Hx. set_solver.
    + apply Hl. set_solver.
  - rewrite lookup_insert_ne by done. by destruct (list_find _ l) as [[i x]|].
Qed.

(** The hashes of a tree that are not in a set that holds whole trees. *)
Definition holds_trees (X Y : gset CellId) c : Prop := ∀ x, subcell x c → repr_hash x ∈ X → hashes x ⊆ X ∪ Y.

Lemma holds_trees_ref X Y c r : r ∈ references c → holds_trees X Y c → holds_trees X Y r.
Proof. intros Hr H x Hx. apply H. by eapply subcell_ref. Qed.

(** Adding the root of a tree, or a whole tree, to such a set. *)
Lemma holds_trees_root X Y c r :
  known c → r ∈ references c → holds_trees X Y c → holds_trees ({[repr_hash c]} ∪ X) Y r.
Proof.
  intros Hc Hr H x Hx. rewrite elem_of_union, elem_of_singleton. intros [Heq|HX].
  - exfalso. apply (root_not_below r c Hc Hr). rewrite <- Heq. apply elem_of_hashes. by exists x.
  - pose proof (H x (subcell_ref _ _ _ Hr Hx) HX). set_solver.
Qed.

Lemma holds_trees_tree X Y c r :
  known c → known r → holds_trees X Y r → holds_trees (X ∪ (hashes c ∖ Y)) Y r.
Proof.
  intros Hc Hr H x Hx. rewrite elem_of_union, elem_of_difference. intros [HX|[Hin _]].
  - pose proof (H x Hx HX). set_solver.
  - apply hashes_known in Hin; [|by eapply known_sub|done]. pose proof (hashes_sub _ _ Hin).
    intros h Hh. destruct (decide (h ∈ Y)); set_solver.
Qed.

Lemma closed_dom db c : db_closed db → known c → repr_hash c ∈ dom db → hashes c ⊆ dom db.
Proof.
  intros Hdb Hc Hin%elem_of_dom. destruct (Hdb _ Hin) as (c' & Hc' & Heq & Hs).
  assert (c' = c) as -> by (by apply (un_hash _ U)). by apply stored_dom.
Qed.

Lemma save_tree_unfold db c t visited :
  save_tree_of_cells_recursive db c t visited =
    if bool_decide (repr_hash c ∈ visited) then Done (0, (t, visited))
    else if MemoryDb_contains db (repr_hash c) then Done (0, (t, visited))
    else
      data ← StorageCell_serialize c;
      save_references (λ r t visited, save_tree_of_cells_recursive db r t visited) (references c) 1
        (transaction_put t (repr_hash c) data) ({[repr_hash c]} ∪ visited).
Proof. by destruct c. Qed.

(** What saving a tree with the hashes [X] does: the cells that are neither stored
    nor visited are written. *)
Definition saves db (X : gset CellId) c (run : transaction CellId → gset CellId → outcome (N * (transaction CellId * gset CellId)))
    t visited : Prop :=
  ∃ n l, run t visited = Done (n, (t ++ (put_cell <$> l), visited ∪ (X ∖ dom db))) ∧
    (∀ x, x ∈ l → subcell x c) ∧ (∀ h, h ∈ X → h ∉ dom db → h ∉ visited → h ∈ repr_hash <$> l).

Lemma saves_nothing db X c n t visited :
  X ⊆ visited ∪ dom db → saves db X c (λ t visited, Done (n, (t, visited))) t visited.
Proof. intros Hsub. exists n, []. split; [|set_solver]. simpl. rewrite app_nil_r. do 3 f_equal. set_solver. Qed.

Lemma save_references_ok db c l m t visited :
  known c → (∀ r, r ∈ l → r ∈ references c) → (∀ r, r ∈ l → holds_trees visited (dom db) r) →
  (∀ r t visited, r ∈ l → holds_trees visited (dom db) r →
     saves db (hashes r) r (save_tree_of_cells_recursive db r) t visited) →
  saves db (⋃ (map hashes l)) c
    (save_references (λ r t v, save_tree_of_cells_recursive db r t v) l m) t visited.
Proof.
  intros Hc. revert m t visited. induction l as [|r l IHl]; intros m t v Hl Hh IH; cbn [save_references].
  { apply saves_nothing. set_solver. }
  assert (Hr : r ∈ references c) by (apply Hl; set_solver). unfold saves. cbn [save_references].
  destruct (IH r t v) as (n & w & -> & Hw & Hw'); [set_solver|apply Hh; set_solver|]. cbn [mbind outcome_bind].
  destruct (IHl (m + n) (t ++ (put_cell <$> w)) (v ∪ (hashes r ∖ dom db))) as (n' & w' & -> & Hww & Hww').
  { intros r' Hr'. apply Hl. set_solver. }
  { intros r' Hr'. apply holds_trees_tree; [by apply (un_ref _ U c)| |apply Hh; set_solver].
    apply (un_ref _ U c); [done|]. apply Hl. set_solver. }
  { intros r' t' v' Hr'. apply IH. set_solver. }
  exists n', (w ++ w'). rewrite fmap_app, app_assoc, hashes_union_cons. split; [done|]. split.
  - intros x [Hx|Hx]%elem_of_app; [|by apply Hww]. apply (subcell_ref x c r Hr). by apply Hw.
  - intros h Hh' Hd Hnv. rewrite fmap_app, elem_of_app. simpl in Hh'. apply elem_of_union in Hh' as [Hh'|Hh'].
    + left. by apply Hw'.
    + destruct (decide (h ∈ hashes r)); [left; by apply Hw'|right; apply Hww'; set_solver].
Qed.

Lemma save_tree_ok db c t visited :
  db_closed db → known c → holds_trees visited (dom db) c →
  saves db (hashes c) c (save_tree_of_cells_recursive db c) t visited.
Proof.
  intros Hdb. revert t visited. induction c as [d refs b k IH] using Cell_tree_ind. intros t visited Hc Hv.
  set (c := mk_cell d refs b k) in *. unfold saves. rewrite save_tree_unfold.
  case_bool_decide as Hvis; [apply saves_nothing, (Hv c (subcell_refl _) Hvis)|].
  unfold MemoryDb_contains. case_bool_decide as Hin; rewrite <- elem_of_dom in Hin.
  { apply saves_nothing. pose proof (closed_dom db c Hdb Hc Hin). set_solver. }
  rewrite serialize_ok by (by apply (un_fine _ U)). cbn [mbind outcome_bind].
  assert (Hkr : ∀ r, r ∈ refs → known r) by (intros r Hr; by apply (un_ref _ U c)).
  destruct (save_references_ok db c refs 1 (transaction_put t (repr_hash c) (cell_bytes c)) ({[repr_hash c]} ∪ visited))
    as (n & w & Hrun & Hw & Hw'); [done|done|intros r Hr; by apply (holds_trees_root _ _ c)| |].
  { intros r t' v' Hr Hv'. apply IH; auto. }
  change (references c) with refs. rewrite Hrun. exists n, (c :: w). split; [|split].
  - rewrite fmap_cons. unfold transaction_put. rewrite <- app_assoc. do 3 f_equal. rewrite (hashes_unfold c). cbn [c references].
    set_solver.
  - intros x [->|Hx]%elem_of_cons; [apply subcell_refl|by apply Hw].
  - intros h Hh Hd Hnv. rewrite (hashes_unfold c) in Hh. rewrite fmap_cons, elem_of_cons. cbn [c references] in Hh.
    destruct (decide (h = repr_hash c)); [by left|]. right. apply Hw'; set_solver.
Qed.

(** Saving adds the cells of the tree and nothing else. *)
Lemma save_as_dynamic_boc_ok db c :
  db_closed db → known c →
  ∃ n db', save_as_dynamic_boc db c = Done (n, db') ∧ stored db' c ∧ db ⊆ db' ∧ dom db' = dom db ∪ hashes c.
Proof.
  intros Hdb Hc. unfold save_as_dynamic_boc.
  destruct (save_tree_ok db c [] ∅ Hdb Hc) as (n & l & -> & Hl & Hl'); [by intros x _ ?%not_elem_of_empty|].
  cbn [mbind outcome_bind]. exists n, (commit db (put_cell <$> l)). split; [done|].
  assert (Hk : ∀ x, x ∈ l → known x) by (intros x Hx; eapply known_sub; [done|by apply Hl]).
  assert (Hlook : ∀ h, commit db (put_cell <$> l) !! h = match list_find (λ x, repr_hash x = h) l with
    | Some (_, x) => Some (cell_bytes x) | None => db !! h end) by (intros h; by apply commit_puts).
  assert (Hold : ∀ h data, db !! h = Some data → ∀ x, known x → repr_hash x = h → data = cell_bytes x).
  { intros h data Hh x Hx <-. destruct (Hdb _ (mk_is_Some _ _ Hh)) as (c' & Hc' & Heq & Hs).
    assert (c' = x) as -> by (by apply (un_hash _ U)). specialize (Hs x (subcell_refl _)). congruence. }
  split; [|split].
  - intros x Hx. rewrite Hlook. destruct (list_find _ l) as [[i y]|] eqn:E.
    + apply list_find_Some in E as (Hy & Heq & _). do 2 f_equal. apply list_elem_of_lookup_2 in Hy.
      apply (un_hash _ U); [by apply Hk|by eapply known_sub|done].
    + assert (Hin : is_Some (db !! repr_hash x)).
      { apply elem_of_dom. destruct (decide (repr_hash x ∈ dom db)) as [|Hn]; [done|].
        apply list_find_None in E. rewrite list.Forall_forall in E.
        destruct (proj1 (list_elem_of_fmap _ _ _) (Hl' (repr_hash x) ltac:(apply elem_of_hashes; eauto) Hn ltac:(set_solver)))
          as (y & Heq & Hy). by destruct (E y Hy). }
      destruct Hin as [data Hd]. rewrite Hd. f_equal. eapply Hold; [done|by eapply known_sub|done].
  - apply map_subseteq_spec. intros h data Hh. rewrite Hlook. destruct (list_find _ l) as [[i y]|] eqn:E; [|done].
    apply list_find_Some in E as (Hy & Heq & _). apply list_elem_of_lookup_2 in Hy. f_equal. symmetry. eauto.
  - apply set_eq. intros h. rewrite elem_of_union, !elem_of_dom, Hlook. destruct (list_find _ l) as [[i y]|] eqn:E.
    + apply list_find_Some in E as (Hy & <- & _). apply list_elem_of_lookup_2 in Hy. split; [|eauto].
      intros _. right. apply elem_of_hashes. exists y. split; [by apply Hl|done].
    + split; [by left|]. intros [|Hh]; [done|]. apply elem_of_dom. destruct (decide (h ∈ dom db)) as [|Hn]; [done|].
      apply list_find_None in E. rewrite list.Forall_forall in E.
      destruct (proj1 (list_elem_of_fmap _ _ _) (Hl' h Hh Hn ltac:(set_solver))) as (y & Heq & Hy). by destruct (E y Hy).
Qed.

(** ** Saving step by step *)

(** The calls, when the database does not change. *)
Definition save_calls db (s s' : Saving) : Prop := sv_todo s ≠ [] ∧ save_step db s = Done s'.

Lemma save_references_calls db l m t visited n t' visited' todo :
  (∀ r t visited n t' visited' todo, r ∈ l → save_tree_of_cells_recursive db r t visited = Done (n, (t', visited')) →
     rtc (save_calls db) {| sv_todo := r :: todo; sv_transaction := t; sv_visited := visited |}
       {| sv_todo := todo; sv_transaction := t'; sv_visited := visited' |}) →
  save_references (λ r t visited, save_tree_of_cells_recursive db r t visited) l m t visited = Done (n, (t', visited')) →
  rtc (save_calls db) {| sv_todo := l ++ todo; sv_transaction := t; sv_visited := visited |}
    {| sv_todo := todo; sv_transaction := t'; sv_visited := visited' |}.
Proof.
  revert m t visited. induction l as [|r l IH]; intros m t v Hone Hrun; cbn [save_references app] in *; [by injection Hrun as <- <- <-|].
  destruct (save_tree_of_cells_recursive db r t v) as [[k [t1 v1]]|] eqn:E; [|done]. cbn [mbind outcome_bind] in Hrun.
  etrans; [eapply Hone; [by left|exact E]|]. eapply IH; [|exact Hrun]. intros r' t2 v2 n2 t3 v3 todo' Hr. apply Hone. by right.
Qed.

(** The recursion of the code makes these calls, in this order. *)
Lemma save_tree_calls db c t visited n t' visited' todo :
  save_tree_of_cells_recursive db c t visited = Done (n, (t', visited')) →
  rtc (save_calls db) {| sv_todo := c :: todo; sv_transaction := t; sv_visited := visited |}
    {| sv_todo := todo; sv_transaction := t'; sv_visited := visited' |}.
Proof.
  revert t visited n t' visited' todo. induction c as [d refs b k IH] using Cell_tree_ind. intros t v n t' v' todo Hrun.
  set (c := mk_cell d refs b k) in *. rewrite save_tree_unfold in Hrun.
  destruct (bool_decide (repr_hash c ∈ v)) eqn:Ev; [|destruct (MemoryDb_contains db (repr_hash c)) eqn:Ec].
  1,2: injection Hrun as <- <- <-; apply rtc_once; split; [done|]; unfold save_step; cbn [sv_todo sv_visited sv_transaction]; by rewrite Ev, ?Ec.
  destruct (StorageCell_serialize c) as [data|] eqn:Es; [|done]. cbn [mbind outcome_bind] in Hrun.
  eapply rtc_l; [|by eapply (save_references_calls db refs); [intros; by eapply IH|exact Hrun]].
  split; [done|]. unfold save_step. cbn [sv_todo sv_visited sv_transaction]. rewrite Ev, Ec, Es. done.
Qed.

(** While a tree is traversed and other writers add whole trees: the cells to be written
    belong to the tree, and every cell of it is still to come, about to be written, or in
    the database with its tree. *)
Record saving_ok db c (s : Saving) (written : list Cell) : Prop := {
  so_transaction : sv_transaction s = put_cell <$> written;
  so_visited : sv_visited s = list_to_set (repr_hash <$> written);
  so_written x : x ∈ written → subcell x c;
  so_todo x : x ∈ sv_todo s → subcell x c;
  so_root : c ∈ sv_todo s ∨ c ∈ written ∨ stored db c;
  so_refs x r : x ∈ written → r ∈ references x → r ∈ sv_todo s ∨ r ∈ written ∨ stored db r;
}.

Lemma visited_written c s db written x :
  known c → saving_ok db c s written → subcell x c → repr_hash x ∈ sv_visited s → x ∈ written.
Proof.
  intros Hc [_ Hv Hw _ _ _] Hx Hin. rewrite Hv in Hin. apply elem_of_list_to_set, list_elem_of_fmap in Hin as (y & Heq & Hy).
  assert (x = y) as ->; [|done]. apply (un_hash _ U); [by eapply known_sub|eapply known_sub; [exact Hc|by apply Hw]|done].
Qed.

Lemma saving_start_ok db c : saving_ok db c (saving_start c) [].
Proof.
  split; cbn [saving_start sv_todo sv_transaction sv_visited]; try done; [by intros x ?%not_elem_of_nil| |left; by left|by intros x r ?%not_elem_of_nil].
  intros x ->%list_elem_of_singleton. apply subcell_refl.
Qed.

Lemma saving_ok_grows db db' c s written :
  (∀ x, subcell x c → stored db x → stored db' x) → known c → saving_ok db c s written → saving_ok db' c s written.
Proof.
  intros Hg Hc [H1 H2 H3 H4 H5 H6]. split; try done.
  - destruct H5 as [?|[?|?]]; [by left|by right; left|right; right]. apply Hg; [apply subcell_refl|done].
  - intros x r Hx Hr. destruct (H6 x r Hx Hr) as [?|[?|?]]; [by left|by right; left|right; right].
    apply Hg; [|done]. eapply subcell_trans; [|by apply H3]. eapply subcell_ref; [done|apply subcell_refl].
Qed.

Lemma save_step_ok db c s written :
  db_closed db → known c → saving_ok db c s written → ∃ s' written', save_step db s = Done s' ∧ saving_ok db c s' written'.
Proof.
  intros Hcl Hc Hok. pose proof Hok as [H1 H2 H3 H4 H5 H6]. unfold save_step.
  destruct (sv_todo s) as [|x todo] eqn:Et; [by exists s, written|].
  assert (Hx : subcell x c) by (apply H4; by left). assert (Hkx : known x) by (by eapply known_sub).
  assert (Hskip : x ∈ written ∨ stored db x →
    saving_ok db c {| sv_todo := todo; sv_transaction := sv_transaction s; sv_visited := sv_visited s |} written).
  { intros Hdone. split; cbn [sv_todo sv_transaction sv_visited]; try done; [intros y Hy; apply H4; by right| |].
    - destruct H5 as [[->|?]%elem_of_cons|?]; auto.
    - intros y r Hy Hr. destruct (H6 y r Hy Hr) as [[->|?]%elem_of_cons|?]; auto. }
  case_bool_decide as Hv.
  { eexists _, written. split; [done|]. apply Hskip. left. exact (visited_written c s db written x Hc Hok Hx Hv). }
  unfold MemoryDb_contains. case_bool_decide as Hin.
  { eexists _, written. split; [done|]. apply Hskip. right. destruct (Hcl _ Hin) as (y & Hy & Heq & Hs).
    by assert (y = x) as <- by (by apply (un_hash _ U)). }
  rewrite serialize_ok by (by apply (un_fine _ U)). cbn [mbind outcome_bind]. eexists _, (written ++ [x]). split; [done|].
  split; cbn [sv_todo sv_transaction sv_visited].
  - unfold transaction_put. by rewrite H1, fmap_app.
  - rewrite H2, fmap_app, list_to_set_app_L. cbn [fmap list_fmap list_to_set]. set_solver.
  - intros y [Hy| ->%list_elem_of_singleton]%elem_of_app; [by apply H3|done].
  - intros y [Hy|Hy]%elem_of_app; [|apply H4; by right]. eapply subcell_trans; [|exact Hx]. eapply subcell_ref; [done|apply subcell_refl].
  - destruct H5 as [[->|?]%elem_of_cons|[?|?]]; [|left; apply elem_of_app; by right| |by right; right]; right; left; apply elem_of_app; [right; by left|by left].
  - intros y r [Hy| ->%list_elem_of_singleton]%elem_of_app Hr; [|left; apply elem_of_app; by left].
    destruct (H6 y r Hy Hr) as [[->|?]%elem_of_cons|[?|?]]; [|left; apply elem_of_app; by right| |by right; right]; right; left; apply elem_of_app; [right; by left|by left].
Qed.

(** A commit of cells does no harm to the cells that are there. *)
Lemma commit_keeps db l x :
  known x → (∀ y, y ∈ l → known y) → db !! repr_hash x = Some (cell_bytes x) → commit db (put_cell <$> l) !! repr_hash x = Some (cell_bytes x).
Proof.
  intros Hx Hl Hd. rewrite commit_puts by done. destruct (list_find _ l) as [[i y]|] eqn:E; [|done].
  apply list_find_Some in E as (Hy%list_elem_of_lookup_2 & Heq & _). do 2 f_equal. apply (un_hash _ U); [by apply Hl|done..].
Qed.

Lemma commit_writes db l x : x ∈ l → (∀ y, y ∈ l → known y) → commit db (put_cell <$> l) !! repr_hash x = Some (cell_bytes x).
Proof.
  intros Hx Hl. rewrite commit_puts by done. destruct (list_find _ l) as [[i y]|] eqn:E.
  - apply list_find_Some in E as (Hy%list_elem_of_lookup_2 & Heq & _). do 2 f_equal. apply (un_hash _ U); [by apply Hl|by apply Hl|done].
  - apply list_find_None in E. rewrite list.Forall_forall in E. by destruct (E x Hx).
Qed.

Lemma commit_only db l h : (∀ y, y ∈ l → known y) → is_Some (commit db (put_cell <$> l) !! h) → is_Some (db !! h) ∨ ∃ y, y ∈ l ∧ repr_hash y = h.
Proof.
  intros Hl. rewrite commit_puts by done. destruct (list_find _ l) as [[i y]|] eqn:E; [|by left].
  apply list_find_Some in E as (Hy%list_elem_of_lookup_2 & Heq & _). right. by exists y.
Qed.

(** At the end the commit completes the tree. *)
Lemma saving_completes db c s written :
  known c → saving_ok db c s written → sv_todo s = [] → stored (commit db (sv_transaction s)) c.
Proof.
  intros Hc [H1 H2 H3 H4 H5 H6] Hnil. rewrite Hnil in *. rewrite H1.
  assert (Hk : ∀ y, y ∈ written → known y) by (intros y Hy; eapply known_sub; [exact Hc|by apply H3]).
  assert (Hdown : ∀ x z, subcell x z → z ∈ written ∨ stored db z → x ∈ written ∨ stored db x).
  { intros x z Hxz. induction Hxz as [|z r Hr Hxr IH]; [done|]. intros [Hw|Hs]; apply IH.
    - destruct (H6 z r Hw Hr) as [?%not_elem_of_nil|?]; [done|done].
    - right. eapply stored_sub; [|exact Hs]. eapply subcell_ref; [done|apply subcell_refl]. }
  intros x Hx. destruct (Hdown x c Hx) as [Hw|Hs].
  - destruct H5 as [?%not_elem_of_nil|?]; done.
  - by apply commit_writes.
  - apply commit_keeps; [by eapply known_sub|done|]. apply Hs, subcell_refl.
Qed.
End facts.
