(* ===== verification/ShardStateDb.v ===== *)
(** * Storage: the database of shard states and its collector

    Models [storage/src/shardstate_db.rs].  A state is recorded under its block
    with the hash of its root cell and the index of the cell database that holds
    its cells.  There are two cell databases: states are put into the current one,
    and the collector marks and sweeps the other one, then makes it the current
    one.

    [None] is the error of a [Result].  [Panic] is also the result of the recursive
    functions when the fuel, one more than the number of cells of the database, runs
    out.  The decision which states may be collected is a parameter, it is modelled
    in [StateGcResolver].  Statistics and timing are not modelled. *)

From S2P Require Import Prelude BlockId CellDb.

Section shardstate.
Context {I : ShardIdents} {C : CellExternal}.

(** ** Entries *)
Record DbEntry := {
  de_cell_id : CellId;
  de_block_id_ext : BlockIdExt;
  de_db_index : N;
}.

Definition DbEntry_serialize (self : DbEntry) : list N :=
  de_cell_id self ++ BlockIdExt_serialize (de_block_id_ext self) ++ le_bytes 4 (de_db_index self).

(** The index is 0 when it is missing. *)
Definition DbEntry_deserialize (input : list N) : option DbEntry :=
  '(cell_id, input) ← read_exact 32 input;
  '(block_id_ext, input) ← BlockIdExt_deserialize input;
  let db_index := match read_le 4 input with Some (i, _) => i | None => 0 end in
  Some {| de_cell_id := cell_id; de_block_id_ext := block_id_ext; de_db_index := db_index |}.

(** ** State *)
Record ShardStateDb := {
  shardstate_db : MemoryDb BlockIdExt;
  current_dynamic_boc_db_index : N;
  dynamic_boc_db_0 : MemoryDb CellId;
  dynamic_boc_db_0_writers : N;
  dynamic_boc_db_1 : MemoryDb CellId;
  dynamic_boc_db_1_writers : N;
}.
Implicit Types (self : ShardStateDb) (db : MemoryDb CellId) (id : BlockIdExt).

Definition ShardStateDb_with_dbs (shardstate_db : MemoryDb BlockIdExt) (cell_db_0 cell_db_1 : MemoryDb CellId) : ShardStateDb :=
  {| shardstate_db := shardstate_db; current_dynamic_boc_db_index := 0;
     dynamic_boc_db_0 := cell_db_0; dynamic_boc_db_0_writers := 0;
     dynamic_boc_db_1 := cell_db_1; dynamic_boc_db_1_writers := 0 |}.

Definition boc_db self (first : bool) : MemoryDb CellId := if first then dynamic_boc_db_0 self else dynamic_boc_db_1 self.
Definition boc_db_writers self (first : bool) : N :=
  if first then dynamic_boc_db_0_writers self else dynamic_boc_db_1_writers self.
Definition db_index (first : bool) : N := if first then 0 else 1.

Definition set_shardstate (m : MemoryDb BlockIdExt) self : ShardStateDb :=
  {| shardstate_db := m; current_dynamic_boc_db_index := current_dynamic_boc_db_index self;
     dynamic_boc_db_0 := dynamic_boc_db_0 self; dynamic_boc_db_0_writers := dynamic_boc_db_0_writers self;
     dynamic_boc_db_1 := dynamic_boc_db_1 self; dynamic_boc_db_1_writers := dynamic_boc_db_1_writers self |}.
Definition set_boc_db (first : bool) db self : ShardStateDb :=
  {| shardstate_db := shardstate_db self; current_dynamic_boc_db_index := current_dynamic_boc_db_index self;
     dynamic_boc_db_0 := if first then db else dynamic_boc_db_0 self;
     dynamic_boc_db_0_writers := dynamic_boc_db_0_writers self;
     dynamic_boc_db_1 := if first then dynamic_boc_db_1 self else db;
     dynamic_boc_db_1_writers := dynamic_boc_db_1_writers self |}.
Definition set_writers (first : bool) (n : N) self : ShardStateDb :=
  {| shardstate_db := shardstate_db self; current_dynamic_boc_db_index := current_dynamic_boc_db_index self;
     dynamic_boc_db_0 := dynamic_boc_db_0 self;
     dynamic_boc_db_0_writers := if first then n else dynamic_boc_db_0_writers self;
     dynamic_boc_db_1 := dynamic_boc_db_1 self;
     dynamic_boc_db_1_writers := if first then dynamic_boc_db_1_writers self else n |}.
Definition set_current (i : N) self : ShardStateDb :=
  {| shardstate_db := shardstate_db self; current_dynamic_boc_db_index := i;
     dynamic_boc_db_0 := dynamic_boc_db_0 self; dynamic_boc_db_0_writers := dynamic_boc_db_0_writers self;
     dynamic_boc_db_1 := dynamic_boc_db_1 self; dynamic_boc_db_1_writers := dynamic_boc_db_1_writers self |}.

(** ** [put] and [get] *)
(** The database that is current when [put] begins. *)
Definition put_choose self : option bool :=
  if current_dynamic_boc_db_index self =? 0 then Some true
  else if current_dynamic_boc_db_index self =? 1 then Some false
  else None.

(** [fetch_add] and [fetch_sub] on the count of writers. *)
Definition put_enter self (first : bool) : ShardStateDb := set_writers first (u32_add (boc_db_writers self first) 1) self.
Definition put_leave self (first : bool) : ShardStateDb := set_writers first (u32_sub (boc_db_writers self first) 1) self.

(** The entry is written when the cells are. *)
Definition put_entry self id (state_root : Cell) (first : bool) : ShardStateDb :=
  let db_entry := {| de_cell_id := repr_hash state_root; de_block_id_ext := id; de_db_index := db_index first |} in
  set_shardstate (MemoryDb_put (shardstate_db self) id (DbEntry_serialize db_entry)) self.

Definition put_internal self id (state_root : Cell) (first : bool) : outcome ShardStateDb :=
  '(_, db) ← save_as_dynamic_boc (boc_db self first) state_root;
  Done (put_entry (set_boc_db first db self) id state_root first).

Definition ShardStateDb_put self id (state_root : Cell) : outcome (option ShardStateDb) :=
  match put_choose self with
  | Some first =>
      self ← put_internal (put_enter self first) id state_root first;
      Done (Some (put_leave self first))
  | None => Done None
  end.

(** The database that holds the cells of a state, and its root. *)
Definition find_state self id : option (bool * CellId) :=
  value ← MemoryDb_try_get (shardstate_db self) id;
  db_entry ← DbEntry_deserialize value;
  if de_db_index db_entry =? 1 then Some (false, de_cell_id db_entry)
  else if de_db_index db_entry =? 0 then Some (true, de_cell_id db_entry)
  else None.

Definition ShardStateDb_get self id : outcome (option StorageCell) :=
  match find_state self id with
  | Some (first, cell_id) => load_cell (boc_db self first) cell_id
  | None => Done None
  end.

(** ** Marking *)
(** The loop over the references, with the call for one of them. *)
Fixpoint mark_references (mark_one : CellId → gset CellId → outcome (gset CellId)) (l : list CellId) (marked : gset CellId)
  : outcome (gset CellId) :=
  match l with
  | [] => Done marked
  | r :: l' => marked ← mark_one r marked; mark_references mark_one l' marked
  end.

Fixpoint mark_subtree_recursive (fuel : nat) db (cell_id : CellId) (marked : gset CellId) : outcome (gset CellId) :=
  match fuel with
  | O => Panic
  | S fuel' =>
      if bool_decide (cell_id ∈ marked) then Done marked else
      refs ← load_cell_references db cell_id;
      match refs with
      | Some refs => mark_references (mark_subtree_recursive fuel' db) refs ({[cell_id]} ∪ marked)
      | None => Done marked
      end
  end.

Section collector.
Context (allow_state_gc : BlockIdExt → N → option bool).

(** The closure of [mark] on an entry. *)
Definition mark_entry (index gc_utime : N) (acc : list CellId * list (BlockIdExt * CellId)) (_ : BlockIdExt) (value : list N)
  : option (bool * (list CellId * list (BlockIdExt * CellId))) :=
  let '(to_mark, to_sweep) := acc in
  db_entry ← DbEntry_deserialize value;
  if de_db_index db_entry =? index then
    allow ← allow_state_gc (de_block_id_ext db_entry) gc_utime;
    if allow : bool then Some (true, (to_mark, to_sweep ++ [(de_block_id_ext db_entry, de_cell_id db_entry)]))
    else Some (true, (to_mark ++ [de_cell_id db_entry], to_sweep))
  else Some (true, (to_mark, to_sweep)).

Fixpoint mark_roots db (to_mark : list CellId) (marked : gset CellId) : outcome (gset CellId) :=
  match to_mark with
  | [] => Done marked
  | cell_id :: to_mark' =>
      marked ← mark_subtree_recursive (S (size db)) db cell_id marked;
      mark_roots db to_mark' marked
  end.

(** [mark] on the pairs of the database of states. *)
Definition mark (pairs : list (BlockIdExt * list N)) db (index gc_utime : N)
  : outcome (option (gset CellId * list (BlockIdExt * CellId) * N)) :=
  match for_each (mark_entry index gc_utime) ([], []) pairs with
  | None => Done None
  | Some (_, (to_mark, to_sweep)) =>
      let marked_roots := N.of_nat (length to_mark) in
      marked ← (if (0 <? length to_sweep)%nat then mark_roots db to_mark ∅ else Done ∅);
      Done (Some (marked, to_sweep, marked_roots))
  end.
End collector.

(** ** Sweeping *)
(** The loop over the references, with the call for one of them. *)
Fixpoint sweep_references
    (sweep_one : transaction CellId → CellId → gset CellId → outcome (N * (transaction CellId * gset CellId)))
    (l : list CellId) (deleted_count : N) (t : transaction CellId) (sweeped : gset CellId)
  : outcome (N * (transaction CellId * gset CellId)) :=
  match l with
  | [] => Done (deleted_count, (t, sweeped))
  | r :: l' =>
      '(n, (t, sweeped)) ← sweep_one t r sweeped;
      sweep_references sweep_one l' (deleted_count + n) t sweeped
  end.

Fixpoint sweep_cells_recursive (fuel : nat) db (t : transaction CellId) (cell_id : CellId) (marked sweeped : gset CellId)
  : outcome (N * (transaction CellId * gset CellId)) :=
  match fuel with
  | O => Panic
  | S fuel' =>
      if bool_decide (cell_id ∈ marked) || bool_decide (cell_id ∈ sweeped) then Done (0, (t, sweeped)) else
      let sweeped := {[cell_id]} ∪ sweeped in
      refs ← load_cell_references db cell_id;
      match refs with
      | Some refs =>
          '(deleted_count, (t, sweeped)) ←
            sweep_references (λ t r sweeped, sweep_cells_recursive fuel' db t r marked sweeped) refs 0 t sweeped;
          Done (deleted_count + 1, (transaction_delete t cell_id, sweeped))
      | None => Done (0, (t, sweeped))
      end
  end.

(** A turn of the loop of [sweep]: the cells of a state are deleted, then its entry. *)
Definition sweep_cells self (first : bool) (cell_id : CellId) (marked sweeped : gset CellId)
  : outcome (N * (ShardStateDb * gset CellId)) :=
  let db := boc_db self first in
  '(deleted_count, (t, sweeped)) ← sweep_cells_recursive (S (size db)) db [] cell_id marked sweeped;
  Done (deleted_count, (set_boc_db first (commit db t) self, sweeped)).

Definition sweep_entry self id : ShardStateDb := set_shardstate (MemoryDb_delete (shardstate_db self) id) self.

Definition sweep_root self (first : bool) (root : BlockIdExt * CellId) (marked sweeped : gset CellId)
  : outcome (N * (ShardStateDb * gset CellId)) :=
  '(deleted_count, (self, sweeped)) ← sweep_cells self first (snd root) marked sweeped;
  Done (deleted_count, (sweep_entry self (fst root), sweeped)).

Fixpoint sweep_roots self (first : bool) (to_sweep : list (BlockIdExt * CellId)) (marked sweeped : gset CellId) (deleted_count : N)
  : outcome (N * ShardStateDb) :=
  match to_sweep with
  | [] => Done (deleted_count, self)
  | root :: to_sweep' =>
      '(n, (self, sweeped)) ← sweep_root self first root marked sweeped;
      sweep_roots self first to_sweep' marked sweeped (deleted_count + n)
  end.

Definition sweep self (first : bool) (to_sweep : list (BlockIdExt * CellId)) (marked : gset CellId) : outcome (N * ShardStateDb) :=
  sweep_roots self first to_sweep marked ∅ 0.

(** ** Collecting *)
Record GcStatistic := {
  collected_cells : N;
  marked_cells : N;
  roots_to_sweep : N;
  marked_roots : N;
}.

Definition gc (allow_state_gc : BlockIdExt → N → option bool) self (first : bool) (pairs : list (BlockIdExt * list N))
    (gc_utime : N) : outcome (option GcStatistic * ShardStateDb) :=
  res ← mark allow_state_gc pairs (boc_db self first) (db_index first) gc_utime;
  match res with
  | None => Done (None, self)
  | Some (marked, to_sweep, marked_roots) =>
      let stat n := {| collected_cells := n; marked_cells := N.of_nat (size marked);
                       roots_to_sweep := N.of_nat (length to_sweep); marked_roots := marked_roots |} in
      if (length to_sweep =? 0)%nat then Done (Some (stat 0), self)
      else
        '(collected_cells, self) ← sweep self first to_sweep marked;
        Done (Some (stat collected_cells), self)
  end.

(** The database a turn of the loop of [start_gc] collects. *)
Definition collected_db self : option bool :=
  if current_dynamic_boc_db_index self =? 1 then Some true
  else if current_dynamic_boc_db_index self =? 0 then Some false
  else None.

(** A turn of the loop of [start_gc] that does not wait for writers. *)
Definition gc_turn (allow_state_gc : BlockIdExt → N → option bool) self (pairs : list (BlockIdExt * list N)) (gc_utime : N)
  : outcome ShardStateDb :=
  match collected_db self with
  | None => Done self
  | Some first =>
      if 0 <? boc_db_writers self first then Done self else
      '(_, self) ← gc allow_state_gc self first pairs gc_utime;
      Done (set_current (db_index first) self)
  end.
End shardstate.

(** ** Storage: marking and sweeping

    What the recursive functions of the collector do on a database of trees, and
    that the fuel is enough. *)

Section facts.
Context {I : ShardIdents} {C : CellExternal} (known : Cell → Prop) (U : universe known).
Implicit Types (c x r : Cell) (db : MemoryDb CellId) (h : CellId) (marked sweeped : gset CellId).

(** ** Entries *)
Lemma db_entry_roundtrip e :
  length (de_cell_id e) = 32%nat → block_id_ok (de_block_id_ext e) → de_db_index e < two32 →
  DbEntry_deserialize (DbEntry_serialize e) = Some e.
Proof.
  intros Hc Hb Hi. unfold DbEntry_deserialize, DbEntry_serialize. rewrite (read_exact_app_eq 32) by done.
  cbn [mbind option_bind]. rewrite block_id_roundtrip by done. cbn [mbind option_bind].
  rewrite <- (app_nil_r (le_bytes 4 _)), read_le_app by done. by destruct e.
Qed.

(** ** Marking *)
Lemma below_shrinks c r (X Y : gset CellId) :
  r ∈ references c → repr_hash c ∉ X → {[repr_hash c]} ∪ X ⊆ Y → (size (hashes r ∖ Y) < size (hashes c ∖ X))%nat.
Proof.
  intros Hr Hn HY. apply subset_size. pose proof (hashes_ref r c Hr). pose proof (hashes_root c).
  apply strict_spec_alt. split; [set_solver|]. intros Heq.
  assert (Hin : repr_hash c ∈ hashes c ∖ X) by set_solver. rewrite <- Heq in Hin. set_solver.
Qed.

Lemma load_references_ok db c : db !! repr_hash c = Some (cell_bytes c) →
  load_cell_references db (repr_hash c) = Done (Some (map repr_hash (references c))).
Proof. intros Hs. unfold load_cell_references, MemoryDb_try_get. rewrite Hs. apply references_roundtrip. Qed.

Lemma mark_references_ok mark_one c l marked :
  known c → (∀ r, r ∈ l → r ∈ references c) → (∀ r, r ∈ l → holds_trees marked ∅ r) →
  (∀ r m, r ∈ l → marked ⊆ m → holds_trees m ∅ r → mark_one (repr_hash r) m = Done (m ∪ hashes r)) →
  mark_references mark_one (map repr_hash l) marked = Done (marked ∪ ⋃ (map hashes l)).
Proof.
  intros Hc. revert marked. induction l as [|r l IHl]; intros m Hl Hh Hone; cbn [map mark_references union_list].
  { f_equal. set_solver. }
  rewrite Hone; [|set_solver|done|apply Hh; set_solver]. cbn [mbind outcome_bind]. rewrite IHl.
  - f_equal. simpl. set_solver.
  - intros r' Hr'. apply Hl. set_solver.
  - intros r' Hr'. rewrite <- (difference_empty_L (hashes r)).
    assert (Hk : ∀ r, r ∈ references c → known r) by (intros ? ?; by eapply (un_ref _ U)).
    apply (holds_trees_tree known U); [apply Hk, Hl; set_solver..|apply Hh; set_solver].
  - intros r' m' Hr' Hm'. apply Hone; set_solver.
Qed.

Lemma mark_subtree_ok db c fuel marked :
  known c → stored db c → holds_trees marked ∅ c → (size (hashes c ∖ marked) < fuel)%nat →
  mark_subtree_recursive fuel db (repr_hash c) marked = Done (marked ∪ hashes c).
Proof.
  revert fuel marked. induction c as [d refs b k IH] using Cell_tree_ind. intros [|fuel] m Hc Hs Hm Hfuel; [lia|].
  set (c := mk_cell d refs b k) in *. cbn [mark_subtree_recursive]. case_bool_decide as Hin.
  { f_equal. pose proof (Hm c (subcell_refl _) Hin). set_solver. }
  rewrite load_references_ok by apply Hs, subcell_refl. cbn [mbind outcome_bind].
  rewrite (mark_references_ok _ c); [|done..|intros r Hr; by apply (holds_trees_root known U _ _ c)|].
  - f_equal. rewrite (hashes_unfold c). set_solver.
  - intros r m' Hr Hm' Hh. apply IH; [done|by apply (un_ref _ U c)| |done|].
    + apply (stored_sub _ _ c); [|done]. eapply subcell_ref; [done|apply subcell_refl].
    + pose proof (below_shrinks c r m m' Hr Hin Hm'). lia.
Qed.

(** Marking whole trees. *)
Definition tree_set marked : Prop := ∀ x, known x → repr_hash x ∈ marked → hashes x ⊆ marked.

Lemma tree_set_holds marked c : known c → tree_set marked → holds_trees marked ∅ c.
Proof. intros Hc Hm x Hx Hin. rewrite union_empty_r_L. apply Hm; [by eapply known_sub|done]. Qed.

Lemma tree_set_union marked c : known c → tree_set marked → tree_set (marked ∪ hashes c).
Proof.
  intros Hc Hm x Hx. rewrite elem_of_union. intros [Hin|Hin].
  - pose proof (Hm x Hx Hin). set_solver.
  - apply hashes_known with (known := known) in Hin; [|done..]. pose proof (hashes_sub _ _ Hin). set_solver.
Qed.

Lemma hashes_size db c : stored db c → (size (hashes c) ≤ size db)%nat.
Proof. intros Hs. rewrite <- size_dom. by apply subseteq_size, stored_dom. Qed.

Lemma mark_roots_ok db l marked :
  (∀ c, c ∈ l → known c ∧ stored db c) → tree_set marked →
  mark_roots db (map repr_hash l) marked = Done (marked ∪ ⋃ (map hashes l)) ∧ tree_set (marked ∪ ⋃ (map hashes l)).
Proof.
  revert marked. induction l as [|c l IH]; intros m Hl Hm; cbn [map mark_roots union_list].
  { simpl. by rewrite union_empty_r_L. }
  destruct (Hl c ltac:(set_solver)) as [Hc Hs]. rewrite mark_subtree_ok; [|done|done|by apply tree_set_holds|].
  2:{ assert (size (hashes c ∖ m) ≤ size (hashes c))%nat by (apply subseteq_size; set_solver).
      pose proof (hashes_size db c Hs). lia. }
  cbn [mbind outcome_bind]. destruct (IH (m ∪ hashes c)) as [-> Hts]; [intros; apply Hl; set_solver|by apply tree_set_union|].
  simpl. rewrite assoc_L by apply _. done.
Qed.

(** ** Sweeping *)
Definition sweeps marked (X : gset CellId) (run : transaction CellId → gset CellId → outcome (N * (transaction CellId * gset CellId)))
    (m : N) t sweeped : Prop :=
  ∃ l, run t sweeped = Done (m + N.of_nat (length l), (t ++ (Delete <$> l), sweeped ∪ (X ∖ marked))) ∧
    NoDup l ∧ ∀ h, h ∈ l ↔ h ∈ X ∖ marked ∖ sweeped.

Lemma sweeps_nothing marked X m t sweeped :
  X ⊆ marked ∪ sweeped → sweeps marked X (λ t sweeped, Done (m, (t, sweeped))) m t sweeped.
Proof.
  intros Hsub. exists []. split; [|split; [constructor|set_solver]]. simpl. rewrite N.add_0_r, app_nil_r. do 3 f_equal. set_solver.
Qed.

Lemma sweep_references_ok sweep_one marked c l m t sweeped :
  known c → (∀ r, r ∈ l → r ∈ references c) → (∀ r, r ∈ l → holds_trees sweeped marked r) →
  (∀ r t sw, r ∈ l → sweeped ⊆ sw → holds_trees sw marked r →
     sweeps marked (hashes r) (λ t sw, sweep_one t (repr_hash r) sw) 0 t sw) →
  sweeps marked (⋃ (map hashes l)) (sweep_references sweep_one (map repr_hash l) m) m t sweeped.
Proof.
  intros Hc. revert m t sweeped. induction l as [|r l IHl]; intros m t sw Hl Hh Hone; unfold sweeps; cbn [map sweep_references].
  { apply sweeps_nothing. set_solver. }
  destruct (Hone r t sw) as (w & -> & Hnd & Hw); [set_solver|done|apply Hh; set_solver|]. cbn [mbind outcome_bind].
  assert (Hk : ∀ r, r ∈ references c → known r) by (intros ? ?; by eapply (un_ref _ U)).
  destruct (IHl (m + (0 + N.of_nat (length w))) (t ++ (Delete <$> w)) (sw ∪ (hashes r ∖ marked))) as (w' & -> & Hnd' & Hw').
  - intros r' Hr'. apply Hl. set_solver.
  - intros r' Hr'. apply (holds_trees_tree known U); [apply Hk, Hl; set_solver..|apply Hh; set_solver].
  - intros r' t' sw' Hr' Hsub. apply Hone; set_solver.
  - exists (w ++ w'). split; [|split].
    + rewrite fmap_app, app_assoc, hashes_union_cons, length_app. do 2 f_equal. lia.
    + apply list.NoDup_app. split_and!; [done| |done]. intros h Hh1 Hh2. apply Hw in Hh1. apply Hw' in Hh2. set_solver.
    + intros h. rewrite elem_of_app, Hw, Hw'. simpl. destruct (decide (h ∈ hashes r)), (decide (h ∈ marked)); set_solver.
Qed.

Lemma sweep_cells_ok db marked c fuel t sweeped :
  known c → tree_set marked →
  (∀ x, subcell x c → repr_hash x ∉ marked → repr_hash x ∉ sweeped → db !! repr_hash x = Some (cell_bytes x)) →
  holds_trees sweeped marked c → (size (hashes c ∖ (marked ∪ sweeped)) < fuel)%nat →
  sweeps marked (hashes c) (λ t sw, sweep_cells_recursive fuel db t (repr_hash c) marked sw) 0 t sweeped.
Proof.
  intros Hc Hm. revert fuel t sweeped Hc. induction c as [d refs b k IH] using Cell_tree_ind.
  intros [|fuel] t sw Hc Hs Hh Hfuel; [lia|]. set (c := mk_cell d refs b k) in *. unfold sweeps. cbn [sweep_cells_recursive].
  case_bool_decide as Hin; cbn [orb].
  { apply (sweeps_nothing _ _ 0). pose proof (Hm c Hc Hin). set_solver. }
  case_bool_decide as Hsw.
  { apply (sweeps_nothing _ _ 0). pose proof (Hh c (subcell_refl _) Hsw). set_solver. }
  rewrite load_references_ok by (by apply Hs; [apply subcell_refl|..]). cbn [mbind outcome_bind].
  assert (Hsub : ∀ r x, r ∈ refs → subcell x r → subcell x c) by (intros r x Hr Hx; by eapply subcell_ref).
  destruct (sweep_references_ok (λ t h sw, sweep_cells_recursive fuel db t h marked sw) marked c refs 0 t ({[repr_hash c]} ∪ sw))
    as (w & Hrun & Hnd & Hw); [done|done|intros r Hr; by apply (holds_trees_root known U _ _ c)| |].
  { intros r t' sw' Hr Hsw' Hh'. apply IH; [done|by apply (un_ref _ U c)| |done|].
    - intros x Hx Hx1 Hx2. apply Hs; [by eapply Hsub|done|set_solver].
    - pose proof (below_shrinks c r (marked ∪ sw) (marked ∪ sw') Hr ltac:(set_solver) ltac:(set_solver)). lia. }
  change (references c) with refs. rewrite Hrun. cbn [mbind outcome_bind].
  assert (Hc' : repr_hash c ∉ w) by (rewrite Hw; set_solver).
  exists (w ++ [repr_hash c]). split; [|split].
  - rewrite fmap_app, length_app. unfold transaction_delete. cbn [fmap list_fmap length]. rewrite app_assoc, (hashes_unfold c).
    cbn [c references]. do 2 f_equal; [lia|]. f_equal. set_solver.
  - apply list.NoDup_app. split_and!; [done|set_solver|apply NoDup_singleton].
  - intros h. rewrite elem_of_app, Hw, list_elem_of_singleton, (hashes_unfold c). cbn [c references].
    destruct (decide (h = repr_hash c)) as [->|]; set_solver.
Qed.
End facts.
