(* ===== verification/ShardStateMachine.v ===== *)
(** * Storage: states are put and collected concurrently

    The steps of writers and of the collector, in any order.  A [put] loads the index of
    the current database, counts itself as a writer, looks for every cell of its tree in
    the database, commits the missing cells, writes its entry and takes itself off the
    count: each of these is a step of its own.  The collector marks, then deletes the
    cells of a state and its entry in two steps, state by state, and makes the database
    the current one.  The abstract state is the map of the states whose entry was written
    and that are not given up to the collector.

    The choice of the database to collect, the look at the count of its writers and the
    marking are one step, and so is the traversal of a state that is swept with the
    commit of its deletions: the index is changed by the collector only, and nothing is
    written to the database it collects when no put is on its way there.  That a put is
    on its way and not counted yet is possible in the code; the runs in which no
    collection starts then are the timely ones. *)

From S2P Require Import Prelude BlockId CellDb ShardStateDb.

Section machine.
Context {I : ShardIdents} {C : CellExternal}.

(** ** Puts *)
Inductive PutStage :=
| Loaded
| Visiting (s : Saving)
| Committed
| Recorded.

Record PutTask := mk_task {
  pt_id : BlockIdExt;
  pt_root : Cell;
  pt_first : bool;
  pt_stage : PutStage;
}.

Definition with_stage (task : PutTask) (stage : PutStage) : PutTask := mk_task (pt_id task) (pt_root task) (pt_first task) stage.

(** The next step of a put that has loaded the index; the last one ends it. *)
Definition put_step (self : ShardStateDb) (task : PutTask) : outcome (ShardStateDb * option PutTask) :=
  let first := pt_first task in
  match pt_stage task with
  | Loaded => Done (put_enter self first, Some (with_stage task (Visiting (saving_start (pt_root task)))))
  | Visiting s =>
      match sv_todo s with
      | [] => Done (set_boc_db first (commit (boc_db self first) (sv_transaction s)) self, Some (with_stage task Committed))
      | _ => s ← save_step (boc_db self first) s; Done (self, Some (with_stage task (Visiting s)))
      end
  | Committed => Done (put_entry self (pt_id task) (pt_root task) first, Some (with_stage task Recorded))
  | Recorded => Done (put_leave self first, None)
  end.

(** The state counts as put when its entry is written. *)
Definition states_after (task : PutTask) (states : gmap BlockIdExt Cell) : gmap BlockIdExt Cell :=
  match pt_stage task with Committed => <[pt_id task := pt_root task]> states | _ => states end.

Definition counted (task : PutTask) : bool := match pt_stage task with Loaded => false | _ => true end.

(** ** The machine *)
Record GcRun := {
  gr_first : bool;
  gr_to_sweep : list (BlockIdExt * CellId);
  gr_marked : gset CellId;
  gr_sweeped : gset CellId;
  gr_entry : option BlockIdExt;
}.

Record Machine := {
  m_db : ShardStateDb;
  m_puts : list PutTask;
  m_gc : option GcRun;
  m_states : gmap BlockIdExt Cell;
}.

Implicit Types (m : Machine) (E T : gmap BlockIdExt (bool * Cell)) (id : BlockIdExt) (c x : Cell) (first : bool) (task : PutTask)
  (puts : list PutTask).

Definition condemned (to_sweep : list (BlockIdExt * CellId)) id : Prop := id ∈ to_sweep.*1.
#[global] Instance condemned_dec to_sweep id : Decision (condemned to_sweep id).
Proof. unfold condemned. apply _. Defined.

(** No put is on its way to the database without being counted. *)
Definition all_counted m first : Prop := ∀ task, task ∈ m_puts m → pt_first task = first → counted task = true.

Context (known : Cell → Prop) (timely : bool).

Inductive machine_step : Machine → Machine → Prop :=
| step_put_load m id c first :
    known c → block_id_ok id → shardstate_db (m_db m) !! id = None → id ∉ pt_id <$> m_puts m →
    N.of_nat (length (m_puts m)) + 1 < two32 →
    put_choose (m_db m) = Some first →
    machine_step m {| m_db := m_db m; m_puts := mk_task id c first Loaded :: m_puts m; m_gc := m_gc m; m_states := m_states m |}
| step_put m l1 task l2 db next :
    m_puts m = l1 ++ task :: l2 → put_step (m_db m) task = Done (db, next) →
    machine_step m {| m_db := db; m_puts := l1 ++ option_list next ++ l2; m_gc := m_gc m; m_states := states_after task (m_states m) |}
| step_gc_mark m allow pairs first utime marked to_sweep n :
    m_gc m = None → collected_db (m_db m) = Some first → boc_db_writers (m_db m) first = 0 →
    (timely = true → all_counted m first) →
    pairs ≡ₚ map_to_list (shardstate_db (m_db m)) →
    mark allow pairs (boc_db (m_db m) first) (db_index first) utime = Done (Some (marked, to_sweep, n)) →
    machine_step m
      {| m_db := m_db m; m_puts := m_puts m;
         m_gc := Some {| gr_first := first; gr_to_sweep := to_sweep; gr_marked := marked; gr_sweeped := ∅; gr_entry := None |};
         m_states := filter (λ p, ¬ condemned to_sweep p.1) (m_states m) |}
| step_gc_error m allow pairs first utime :
    m_gc m = None → collected_db (m_db m) = Some first → boc_db_writers (m_db m) first = 0 →
    pairs ≡ₚ map_to_list (shardstate_db (m_db m)) →
    mark allow pairs (boc_db (m_db m) first) (db_index first) utime = Done None →
    machine_step m {| m_db := set_current (db_index first) (m_db m); m_puts := m_puts m; m_gc := None; m_states := m_states m |}
| step_gc_cells m run id h rest n db sweeped :
    m_gc m = Some run → gr_entry run = None → gr_to_sweep run = (id, h) :: rest →
    sweep_cells (m_db m) (gr_first run) h (gr_marked run) (gr_sweeped run) = Done (n, (db, sweeped)) →
    machine_step m
      {| m_db := db; m_puts := m_puts m;
         m_gc := Some {| gr_first := gr_first run; gr_to_sweep := rest; gr_marked := gr_marked run; gr_sweeped := sweeped; gr_entry := Some id |};
         m_states := m_states m |}
| step_gc_entry m run id :
    m_gc m = Some run → gr_entry run = Some id →
    machine_step m
      {| m_db := sweep_entry (m_db m) id; m_puts := m_puts m;
         m_gc := Some {| gr_first := gr_first run; gr_to_sweep := gr_to_sweep run; gr_marked := gr_marked run;
                         gr_sweeped := gr_sweeped run; gr_entry := None |};
         m_states := m_states m |}
| step_gc_end m run :
    m_gc m = Some run → gr_to_sweep run = [] → gr_entry run = None →
    machine_step m
      {| m_db := set_current (db_index (gr_first run)) (m_db m); m_puts := m_puts m; m_gc := None; m_states := m_states m |}
| step_restart m :
    m_gc m = None → m_puts m = [] →
    machine_step m
      {| m_db := ShardStateDb_with_dbs (shardstate_db (m_db m)) (dynamic_boc_db_0 (m_db m)) (dynamic_boc_db_1 (m_db m));
         m_puts := []; m_gc := None; m_states := m_states m |}.

Definition machine_start : Machine := {| m_db := ShardStateDb_with_dbs ∅ ∅ ∅; m_puts := []; m_gc := None; m_states := ∅ |}.

Definition machine_run m : Prop := rtc machine_step machine_start m.

(** ** The invariant *)
Definition entry_bytes id (p : bool * Cell) : list N :=
  DbEntry_serialize {| de_cell_id := repr_hash p.2; de_block_id_ext := id; de_db_index := db_index p.1 |}.

(** The cells of a database: those of its states, less what was swept. *)
Record boc_ok T first (sweeped : gset CellId) (db : MemoryDb CellId) : Prop := {
  bo_stored id c x : T !! id = Some (first, c) → subcell x c → repr_hash x ∉ sweeped →
    db !! repr_hash x = Some (cell_bytes x);
  bo_garbage h : is_Some (db !! h) → h ∉ sweeped ∧ ∃ id c, T !! id = Some (first, c) ∧ h ∈ hashes c;
}.

Record gc_ok T (run : GcRun) : Prop := {
  go_roots id h : (id, h) ∈ gr_to_sweep run → ∃ c, T !! id = Some (gr_first run, c) ∧ repr_hash c = h;
  go_nodup : NoDup (gr_to_sweep run).*1;
  go_kept id c : T !! id = Some (gr_first run, c) → ¬ condemned (gr_to_sweep run) id → hashes c ## gr_sweeped run;
  go_marked id c : gr_to_sweep run ≠ [] → T !! id = Some (gr_first run, c) → ¬ condemned (gr_to_sweep run) id →
    hashes c ⊆ gr_marked run;
  go_marked_only h : h ∈ gr_marked run →
    ∃ id c, T !! id = Some (gr_first run, c) ∧ ¬ condemned (gr_to_sweep run) id ∧ h ∈ hashes c;
  go_tree : tree_set known (gr_marked run);
  go_swept x : known x → repr_hash x ∈ gr_sweeped run → hashes x ⊆ gr_sweeped run ∪ gr_marked run;
  go_disjoint : gr_marked run ## gr_sweeped run;
}.

Definition swept m first : gset CellId :=
  match m_gc m with Some run => if bool_decide (gr_first run = first) then gr_sweeped run else ∅ | None => ∅ end.

Definition to_be_swept m : list (BlockIdExt * CellId) :=
  match m_gc m with Some run => gr_to_sweep run | None => [] end.

(** The entry of the state whose cells were just swept. *)
Definition dropping m : option BlockIdExt := run ← m_gc m; gr_entry run.

(** The writers a database should count. *)
Definition writers_on first puts : nat := length (filter (λ task, pt_first task = first ∧ counted task = true) puts).

(** [E]: the entries; [T]: the states whose cells are in the databases. *)
Definition task_ok E T (self : ShardStateDb) task : Prop :=
  known (pt_root task) ∧ block_id_ok (pt_id task) ∧
  match pt_stage task with
  | Loaded => T !! pt_id task = None ∧ E !! pt_id task = None
  | Visiting s => T !! pt_id task = None ∧ E !! pt_id task = None ∧ ∃ written, saving_ok (boc_db self (pt_first task)) (pt_root task) s written
  | Committed => T !! pt_id task = Some (pt_first task, pt_root task) ∧ E !! pt_id task = None
  | Recorded => True
  end.

Record machine_ok E T m : Prop := {
  mo_entries id : shardstate_db (m_db m) !! id = entry_bytes id <$> E !! id;
  mo_known id first c : E !! id = Some (first, c) ∨ T !! id = Some (first, c) → known c ∧ block_id_ok id;
  mo_kept id p : E !! id = Some p → T !! id = Some p ∨ dropping m = Some id;
  mo_recorded id first c : T !! id = Some (first, c) → E !! id = Some (first, c) ∨ mk_task id c first Committed ∈ m_puts m;
  mo_dropped id : dropping m = Some id → T !! id = None ∧ is_Some (E !! id);
  mo_cells first : boc_ok T first (swept m first) (boc_db (m_db m) first);
  mo_current : ∃ cur, current_dynamic_boc_db_index (m_db m) = db_index cur ∧
    ∀ run, m_gc m = Some run → gr_first run = negb cur;
  mo_gc run : m_gc m = Some run → gc_ok T run ∧ ∀ task, task ∈ m_puts m → pt_first task ≠ gr_first run;
  mo_writers first : boc_db_writers (m_db m) first = N.of_nat (writers_on first (m_puts m));
  mo_count : N.of_nat (length (m_puts m)) < two32;
  mo_nodup : NoDup (pt_id <$> m_puts m);
  mo_puts task : task ∈ m_puts m → task_ok E T (m_db m) task;
  mo_states id c : m_states m !! id = Some c ↔
    ∃ first, T !! id = Some (first, c) ∧ E !! id = Some (first, c) ∧ ¬ condemned (to_be_swept m) id;
}.

(** ** Facts about the parts *)
Definition agree T T' first : Prop := ∀ id c, T !! id = Some (first, c) ↔ T' !! id = Some (first, c).

Lemma boc_ok_agree T T' first sw db : agree T T' first → boc_ok T first sw db → boc_ok T' first sw db.
Proof.
  intros Ha [H1 H2]. split.
  - intros id c x Hid. apply (H1 id). by apply Ha.
  - intros h Hh. destruct (H2 h Hh) as [Hn (id & c & Hid & Hin)]. split; [done|]. exists id, c. by rewrite <- (Ha id c).
Qed.

Lemma gc_ok_agree T T' run : agree T T' (gr_first run) → gc_ok T run → gc_ok T' run.
Proof.
  intros Ha [H1 H2 H3 H4 H5 H6 H7 H8]. split; try done.
  - intros id h Hin. destruct (H1 id h Hin) as (c & Hid & Hc). exists c. by rewrite <- (Ha id c).
  - intros id c Hid. apply (H3 id). by apply Ha.
  - intros id c Hne Hid. apply (H4 id); [done|]. by apply Ha.
  - intros h Hh. destruct (H5 h Hh) as (id & c & Hid & Hn & Hin). exists id, c. by rewrite <- (Ha id c).
Qed.

Lemma stored_cells T first sw db id c :
  boc_ok T first sw db → T !! id = Some (first, c) → hashes c ## sw → stored db c.
Proof.
  intros Hb Hid Hd x Hx. apply (bo_stored _ _ _ _ Hb id c x Hid Hx). intros Hin.
  apply (Hd (repr_hash x)); [apply elem_of_hashes; eauto|done].
Qed.

Lemma agree_insert T id first c other : T !! id = None → first ≠ other → agree T (<[id := (first, c)]> T) other.
Proof.
  intros Hn Hne id' c'. destruct (decide (id' = id)) as [->|].
  - rewrite Hn, lookup_insert_eq. split; [done|]. by intros [= -> _].
  - by rewrite lookup_insert_ne.
Qed.

Lemma agree_delete T id first c other : T !! id = Some (first, c) → first ≠ other → agree T (delete id T) other.
Proof.
  intros Hn Hne id' c'. destruct (decide (id' = id)) as [->|].
  - rewrite Hn, lookup_delete_eq. split; [|done]. by intros [= -> _].
  - by rewrite lookup_delete_ne.
Qed.

Lemma db_index_inj first first' : db_index first = db_index first' → first = first'.
Proof. by destruct first, first'. Qed.

Lemma state_entry_roundtrip id p : block_id_ok id →
  DbEntry_deserialize (entry_bytes id p) = Some {| de_cell_id := repr_hash p.2; de_block_id_ext := id; de_db_index := db_index p.1 |}.
Proof. intros Hb. apply db_entry_roundtrip; [apply cell_data_hash_length|done|]. by destruct (p.1). Qed.

Lemma find_state_ok E T m id first c :
  machine_ok E T m → E !! id = Some (first, c) → find_state (m_db m) id = Some (first, repr_hash c).
Proof.
  intros HI Hid. unfold find_state, MemoryDb_try_get. rewrite (mo_entries _ _ _ HI), Hid. cbn [fmap option_fmap option_map mbind option_bind].
  rewrite state_entry_roundtrip by (eapply (mo_known _ _ _ HI); by left). by destruct first.
Qed.

(** ** The list of the puts *)
Lemma writers_app first l1 l2 : writers_on first (l1 ++ l2) = (writers_on first l1 + writers_on first l2)%nat.
Proof. unfold writers_on. by rewrite list.filter_app, length_app. Qed.

Lemma writers_cons first task puts :
  writers_on first (task :: puts) = ((if bool_decide (pt_first task = first) then if counted task then 1 else 0 else 0) + writers_on first puts)%nat.
Proof.
  unfold writers_on. rewrite list.filter_cons. case_bool_decide as Hf.
  - destruct (counted task) eqn:Ec; [by rewrite decide_True|]. rewrite decide_False; [done|]. by intros [_ ?].
  - rewrite decide_False; [done|]. by intros [? _].
Qed.

Lemma writers_le first puts : (writers_on first puts ≤ length puts)%nat.
Proof. apply length_filter. Qed.

Lemma no_writers first puts task : writers_on first puts = 0%nat → task ∈ puts → pt_first task = first → counted task = false.
Proof.
  intros Hn Hin Hf. destruct (counted task) eqn:Ec; [|done]. apply nil_length_inv in Hn.
  assert (Hel : task ∈ filter (λ task, pt_first task = first ∧ counted task = true) puts) by (by apply list_elem_of_filter).
  rewrite Hn in Hel. by apply not_elem_of_nil in Hel.
Qed.

(** A put is replaced by its next stage, or ends. *)
Lemma replaced_nodup l1 task l2 next :
  NoDup (pt_id <$> l1 ++ task :: l2) → (∀ t, next = Some t → pt_id t = pt_id task) →
  NoDup (pt_id <$> l1 ++ option_list next ++ l2) ∧ ∀ t, t ∈ l1 ++ l2 → pt_id t ≠ pt_id task.
Proof.
  rewrite fmap_app, fmap_cons. intros (N1 & N2 & [N3 N4]%list.NoDup_cons)%list.NoDup_app Hnext. split.
  - rewrite !fmap_app. apply list.NoDup_app. destruct next as [t|].
    + change (pt_id <$> option_list (Some t)) with [pt_id t]. rewrite (Hnext t eq_refl). split_and!; [done|done|]. by apply list.NoDup_cons.
    + split_and!; [done| |done]. intros i Hi Hi'. apply (N2 i Hi). right. exact Hi'.
  - intros t [Ht|Ht]%elem_of_app Heq; apply (list_elem_of_fmap_2 pt_id) in Ht; rewrite Heq in Ht; [apply (N2 _ Ht); by left|done].
Qed.

Lemma task_ok_other E T E' T' (self self' : ShardStateDb) task :
  E' !! pt_id task = E !! pt_id task → T' !! pt_id task = T !! pt_id task →
  (∀ x, known x → stored (boc_db self (pt_first task)) x → stored (boc_db self' (pt_first task)) x) → universe known →
  task_ok E T self task → task_ok E' T' self' task.
Proof.
  intros HE HT Hst U (Hk & Hid & Hs). split_and!; [done|done|]. rewrite HE, HT. destruct (pt_stage task); try done.
  destruct Hs as (? & ? & w & Hw). split_and!; [done|done|]. exists w. eapply saving_ok_grows; [|done|exact Hw].
  intros x Hx. apply Hst. by eapply (known_sub known U).
Qed.
End machine.

(** The runs in which no collection starts while a put that loaded the index of the
    collected database has not counted itself. *)
Definition machine_reachable {I : ShardIdents} {C : CellExternal} (known : Cell → Prop) : Machine → Prop := machine_run known true.
