(* ===== verification/ShardStateSafety.v ===== *)
(** * Storage: the collector keeps the states in use

    The invariant of [ShardStateMachine] holds in every reachable state, and no
    operation of writers and collector fails there. *)

From S2P Require Import Prelude BlockId CellDb ShardStateDb ShardStateMachine.

Section safety.
Context {I : ShardIdents} {C : CellExternal} (known : Cell → Prop) (U : universe known).
Implicit Types (m : Machine) (E T : gmap BlockIdExt (bool * Cell)) (id : BlockIdExt) (c x : Cell) (first : bool)
  (self : ShardStateDb) (task : PutTask).

(** ** Putting a state *)
Lemma boc_ok_closed T first db :
  (∀ id c, T !! id = Some (first, c) → known c) → boc_ok T first ∅ db → db_closed known db.
Proof.
  intros Hk [Hs Hg] h Hh. destruct (Hg h Hh) as [_ (id & c & Hid & (x & Hx & <-)%elem_of_hashes)].
  exists x. split; [by eapply (known_sub known U); [eapply Hk|]|]. split; [done|].
  intros y Hy. eapply (Hs id c y); [done|by eapply subcell_trans|set_solver].
Qed.

(** The commit of the missing cells of a state. *)
Lemma commit_state_ok T first db id c s written :
  (∀ id c, T !! id = Some (first, c) → known c) → boc_ok T first ∅ db → T !! id = None → known c →
  saving_ok db c s written → sv_todo s = [] → boc_ok (<[id := (first, c)]> T) first ∅ (commit db (sv_transaction s)).
Proof.
  intros Hk [Hs Hg] Hid Hc Hok Hnil. assert (Hw : ∀ y, y ∈ written → known y).
  { intros y Hy. eapply (known_sub known U); [exact Hc|by apply (so_written _ _ _ _ Hok)]. }
  split.
  - intros id' c' x [[<- [= <-]]|[Hne Hid']]%lookup_insert_Some Hx _; [by apply (saving_completes known U db c s written)|].
    rewrite (so_transaction _ _ _ _ Hok). apply (commit_keeps known U); [eapply (known_sub known U); [by eapply Hk|done]|done|].
    eapply Hs; [done|done|set_solver].
  - intros h Hh. split; [set_solver|]. rewrite (so_transaction _ _ _ _ Hok) in Hh. apply (commit_only known U) in Hh as [Hh|(y & Hy & <-)]; [| |done].
    + destruct (Hg h Hh) as [_ (id' & c' & Hid' & Hin)]. exists id', c'. split; [|done]. rewrite lookup_insert_ne; [done|]. intros ->. congruence.
    + exists id, c. rewrite lookup_insert_eq. split; [done|]. apply elem_of_hashes. exists y. split; [by apply (so_written _ _ _ _ Hok)|done].
Qed.

(** ** Marking *)
Section marking.
Context (T : gmap BlockIdExt (bool * Cell)) (allow : BlockIdExt → N → option bool) (first : bool) (utime : N).

(** The states of a database the collector may take, or not. *)
Definition decided (b : bool) (p : BlockIdExt * list N) : option (BlockIdExt * Cell) :=
  match T !! p.1 with
  | Some (f, c) => if bool_decide (f = first ∧ allow p.1 utime = Some b) then Some (p.1, c) else None
  | None => None
  end.

Lemma decided_Some b p id c : decided b p = Some (id, c) → p.1 = id ∧ T !! id = Some (first, c) ∧ allow id utime = Some b.
Proof.
  unfold decided. destruct (T !! p.1) as [[f c']|] eqn:E; [|done]. case_bool_decide as H; [|done].
  destruct H as [-> Ha]. intros [= <- <-]. done.
Qed.

Lemma mark_entry_ok to_mark to_sweep id f c :
  block_id_ok id →
  mark_entry allow (db_index first) utime (to_mark, to_sweep) id (entry_bytes id (f, c)) =
    if db_index f =? db_index first then
      b ← allow id utime;
      Some (true, if b : bool then (to_mark, to_sweep ++ [(id, repr_hash c)]) else (to_mark ++ [repr_hash c], to_sweep))
    else Some (true, (to_mark, to_sweep)).
Proof.
  intros Hb. unfold mark_entry. rewrite state_entry_roundtrip by done. cbn [mbind option_bind de_db_index de_block_id_ext de_cell_id fst snd].
  destruct (_ =? _); [|done]. by destruct (allow id utime) as [[]|].
Qed.

Lemma for_each_ok pairs to_mark to_sweep res :
  (∀ id v, (id, v) ∈ pairs → block_id_ok id ∧ ∃ p, T !! id = Some p ∧ v = entry_bytes id p) →
  for_each (mark_entry allow (db_index first) utime) (to_mark, to_sweep) pairs = Some res →
  res = (true, (to_mark ++ (repr_hash <$> (omap (decided false) pairs).*2),
                to_sweep ++ (prod_map Datatypes.id repr_hash <$> omap (decided true) pairs))) ∧
  ∀ id v c, (id, v) ∈ pairs → T !! id = Some (first, c) → is_Some (allow id utime).
Proof.
  revert to_mark to_sweep. induction pairs as [|[id v] pairs IH]; intros tm ts Hp; cbn [for_each].
  { intros [= <-]. simpl. rewrite !app_nil_r. split; [done|set_solver]. }
  destruct (Hp id v ltac:(set_solver)) as (Hb & [f c] & Hid & ->). rewrite mark_entry_ok by done.
  assert (Hp' : ∀ i v, (i, v) ∈ pairs → block_id_ok i ∧ ∃ p, T !! i = Some p ∧ v = entry_bytes i p)
    by (intros; apply Hp; set_solver).
  assert (Hd : ∀ b w, decided b (id, w) = if bool_decide (f = first ∧ allow id utime = Some b) then Some (id, c) else None)
    by (intros; unfold decided; cbn [fst]; by rewrite Hid).
  cbn [omap list_omap]. rewrite !Hd. destruct (N.eqb_spec (db_index f) (db_index first)) as [Hf|Hf].
  - apply db_index_inj in Hf as ->. destruct (allow id utime) as [[]|] eqn:Ea; [| |done]; cbn [mbind option_bind negb].
    + rewrite (bool_decide_eq_false_2 (_ ∧ Some true = Some false)), (bool_decide_eq_true_2 (_ ∧ Some true = Some true)) by naive_solver.
      intros Hr. destruct (IH _ _ Hp' Hr) as [-> Hall]. split; [by rewrite <- app_assoc|].
      intros i w c' [[= -> ->]|Hin]%elem_of_cons Hi; [eauto|by eapply Hall].
    + rewrite (bool_decide_eq_false_2 (_ ∧ Some false = Some true)), (bool_decide_eq_true_2 (_ ∧ Some false = Some false)) by naive_solver.
      intros Hr. destruct (IH _ _ Hp' Hr) as [-> Hall]. split; [by rewrite <- app_assoc|].
      intros i w c' [[= -> ->]|Hin]%elem_of_cons Hi; [eauto|by eapply Hall].
  - cbn [mbind option_bind negb]. rewrite !bool_decide_eq_false_2 by (intros [-> _]; done).
    intros Hr. destruct (IH _ _ Hp' Hr) as [-> Hall]. split; [done|].
    intros i w c' [[= -> ->]|Hin]%elem_of_cons Hi; [congruence|by eapply Hall].
Qed.

Lemma decided_fst b pairs : sublist (omap (decided b) pairs).*1 pairs.*1.
Proof.
  induction pairs as [|[id v] pairs IH]; [done|]. cbn [omap list_omap].
  destruct (decided b (id, v)) as [[id' c]|] eqn:E; simpl; [|by constructor].
  apply decided_Some in E as (<- & _). by constructor.
Qed.

Lemma decided_elem b (pairs : list (BlockIdExt * list N)) id c : (id, c) ∈ omap (decided b) pairs ↔
  (∃ v, (id, v) ∈ pairs) ∧ T !! id = Some (first, c) ∧ allow id utime = Some b.
Proof.
  rewrite list_elem_of_omap. split.
  - intros ([i v] & Hin & (Heq & Hid & Ha)%decided_Some). simpl in Heq. subst i. eauto.
  - intros ([v Hin] & Hid & Ha). exists (id, v). split; [done|]. unfold decided. cbn [fst]. rewrite Hid.
    by rewrite bool_decide_eq_true_2.
Qed.

(** The result of [mark]: the marked cells are those of the states that are kept. *)
Lemma mark_ok self pairs :
  (∀ id, shardstate_db self !! id = entry_bytes id <$> T !! id) → (∀ id f c, T !! id = Some (f, c) → known c ∧ block_id_ok id) →
  boc_ok T first ∅ (boc_db self first) → pairs ≡ₚ map_to_list (shardstate_db self) →
  ∃ res, mark allow pairs (boc_db self first) (db_index first) utime = Done res ∧
    ∀ marked to_sweep n, res = Some (marked, to_sweep, n) →
      gc_ok known T {| gr_first := first; gr_to_sweep := to_sweep; gr_marked := marked; gr_sweeped := ∅; gr_entry := None |} ∧
      ∀ id, condemned to_sweep id ↔ ∃ c, T !! id = Some (first, c) ∧ allow id utime = Some true.
Proof.
  intros Hent Hknown Hb Hpairs.
  assert (Hin : ∀ id v, (id, v) ∈ pairs ↔ shardstate_db self !! id = Some v).
  { intros id v. by rewrite Hpairs, elem_of_map_to_list. }
  assert (Hvals : ∀ id v, (id, v) ∈ pairs → block_id_ok id ∧ ∃ p, T !! id = Some p ∧ v = entry_bytes id p).
  { intros id v Hid%Hin. rewrite Hent in Hid. destruct (T !! id) as [[f c]|] eqn:E; [|done].
    injection Hid as <-. split; [by eapply Hknown|eauto]. }
  assert (Hall : ∀ id p, T !! id = Some p → ∃ v, (id, v) ∈ pairs).
  { intros id p Hid. exists (entry_bytes id p). apply Hin. by rewrite Hent, Hid. }
  unfold mark. destruct (for_each _ _ pairs) as [res|] eqn:Ef; [|by exists None].
  destruct (for_each_ok pairs [] [] res Hvals Ef) as [-> Hdec]. clear Ef. cbn [app].
  set (kept := omap (decided false) pairs). set (taken := omap (decided true) pairs).
  assert (Hkept : ∀ c, c ∈ kept.*2 → known c ∧ stored (boc_db self first) c).
  { intros c ([id c'] & -> & (_ & Hid & _)%decided_elem)%list_elem_of_fmap.
    split; [by eapply Hknown|]. eapply stored_cells; [done|done|set_solver]. }
  destruct (mark_roots_ok known U _ kept.*2 ∅ Hkept) as [Hmark Htree]; [by intros x _ ?%not_elem_of_empty|].
  rewrite union_empty_l_L in Hmark, Htree. change (map repr_hash kept.*2) with (repr_hash <$> kept.*2) in Hmark.
  assert (Htaken : ∀ id, condemned (prod_map Datatypes.id repr_hash <$> taken) id ↔ ∃ c, T !! id = Some (first, c) ∧ allow id utime = Some true).
  { intros id. unfold condemned. rewrite <- list_fmap_compose, list_elem_of_fmap. split.
    - intros ([i c] & -> & (_ & Hid & Ha)%decided_elem). eauto.
    - intros (c & Hid & Ha). exists (id, c). split; [done|]. apply decided_elem. eauto. }
  exists (Some (if (0 <? length (prod_map Datatypes.id repr_hash <$> taken))%nat then ⋃ (map hashes kept.*2) else ∅,
    prod_map Datatypes.id repr_hash <$> taken, N.of_nat (length (repr_hash <$> kept.*2)))).
  split; [by destruct (0 <? _)%nat; [rewrite Hmark|]|].
  assert (Hne : taken = [] ∨ (0 <? length (prod_map Datatypes.id repr_hash <$> taken))%nat = true).
  { destruct taken; [by left|by right]. }
  intros marked ts n [= <- <- _]. split; [|done]. split; cbn [gr_first gr_to_sweep gr_marked gr_sweeped].
  - intros id h ([i c] & [= -> ->] & (_ & Hid & _)%decided_elem)%list_elem_of_fmap. eauto.
  - rewrite <- list_fmap_compose. change (NoDup (taken.*1)). eapply sublist_NoDup; [|apply decided_fst].
    rewrite Hpairs. apply NoDup_fst_map_to_list.
  - intros. apply disjoint_empty_r.
  - intros id c Hn Hid Hcond. destruct Hne as [->| ->]; [done|]. destruct (Hall _ _ Hid) as [v Hv].
    destruct (Hdec id v c Hv Hid) as [[] Ha]; [exfalso; apply Hcond, Htaken; eauto|].
    intros h Hh. apply elem_of_union_list. exists (hashes c). split; [|done]. apply list_elem_of_fmap. exists c. split; [done|].
    apply list_elem_of_fmap. exists (id, c). split; [done|]. apply decided_elem. eauto.
  - intros h Hh. destruct Hne as [Hnil|Htrue]; [rewrite Hnil in Hh; set_solver|]. rewrite Htrue in Hh.
    apply elem_of_union_list in Hh as (X & (c & -> & ([id c'] & -> & (_ & Hid & Ha)%decided_elem)%list_elem_of_fmap)%list_elem_of_fmap & Hh).
    exists id, c'. split; [done|]. split; [|done]. rewrite Htaken. intros (c & _ & Ha'). congruence.
  - destruct (0 <? _)%nat; [done|]. by intros x _ ?%not_elem_of_empty.
  - by intros x _ ?%not_elem_of_empty.
  - apply disjoint_empty_r.
Qed.
End marking.

(** ** Sweeping a state *)
Lemma gc_ok_sweep T run id c rest :
  gc_ok known T run → gr_to_sweep run = (id, repr_hash c) :: rest → T !! id = Some (gr_first run, c) → known c →
  gc_ok known (delete id T) {| gr_first := gr_first run; gr_to_sweep := rest; gr_marked := gr_marked run;
                         gr_sweeped := gr_sweeped run ∪ (hashes c ∖ gr_marked run); gr_entry := Some id |}.
Proof.
  intros Hgc Hts Hid Hc. pose proof (go_nodup _ _ _ Hgc) as Hnd. rewrite Hts in Hnd. apply list.NoDup_cons in Hnd as [Hni Hnd].
  assert (Hcond : ∀ i, ¬ condemned rest i → i ≠ id → ¬ condemned (gr_to_sweep run) i).
  { intros i Hi Hne. unfold condemned. rewrite Hts. set_solver. }
  assert (Hkeep : ∀ i, ¬ condemned (gr_to_sweep run) i → ¬ condemned rest i ∧ i ≠ id).
  { intros i. unfold condemned. rewrite Hts. set_solver. }
  split; cbn [gr_first gr_to_sweep gr_marked gr_sweeped].
  - intros i h Hin. destruct (go_roots _ _ _ Hgc i h) as (c' & Hi & Hh); [rewrite Hts; set_solver|]. exists c'.
    split; [|done]. rewrite lookup_delete_ne; [done|]. intros <-. apply Hni. apply list_elem_of_fmap. by exists (id, h).
  - done.
  - intros i c' [Hne Hi]%lookup_delete_Some Hi'. assert (Hk : ¬ condemned (gr_to_sweep run) i) by (apply Hcond; congruence).
    pose proof (go_kept _ _ _ Hgc i c' Hi Hk). pose proof (go_marked _ _ _ Hgc i c' ltac:(by rewrite Hts) Hi Hk). set_solver.
  - intros i c' _ [Hne Hi]%lookup_delete_Some Hi'. apply (go_marked _ _ _ Hgc i c'); [by rewrite Hts|done|]. apply Hcond; congruence.
  - intros h Hh. destruct (go_marked_only _ _ _ Hgc h Hh) as (i & c' & Hi & Hn & Hin). apply Hkeep in Hn as [Hn Hne].
    exists i, c'. by rewrite lookup_delete_ne.
  - apply (go_tree _ _ _ Hgc).
  - intros x Hx. rewrite elem_of_union, elem_of_difference. intros [Hin|[Hin _]].
    + pose proof (go_swept _ _ _ Hgc x Hx Hin). set_solver.
    + apply hashes_known with (known := known) in Hin; [|done..]. pose proof (hashes_sub _ _ Hin).
      intros h Hh. destruct (decide (h ∈ gr_marked run)); set_solver.
  - pose proof (go_disjoint _ _ _ Hgc). set_solver.
Qed.

Lemma boc_ok_sweep T run id c rest db l :
  gc_ok known T run → gr_to_sweep run = (id, repr_hash c) :: rest → T !! id = Some (gr_first run, c) →
  boc_ok T (gr_first run) (gr_sweeped run) db →
  (∀ h, h ∈ l ↔ h ∈ hashes c ∖ gr_marked run ∖ gr_sweeped run) →
  boc_ok (delete id T) (gr_first run) (gr_sweeped run ∪ (hashes c ∖ gr_marked run)) (commit db (Delete <$> l)).
Proof.
  intros Hgc Hts Hid [Hs Hg] Hl. split.
  - intros i c' x [Hne Hi]%lookup_delete_Some Hx Hn. rewrite commit_deletes.
    rewrite decide_False by (rewrite Hl; set_solver). apply (Hs i c'); [done|done|set_solver].
  - intros h. rewrite commit_deletes. destruct (decide (h ∈ l)) as [|Hnl]; [by intros [? ?]|]. intros Hh.
    destruct (Hg h Hh) as [Hnsw (i & c' & Hi & Hin)]. rewrite Hl in Hnl. split; [set_solver|].
    destruct (decide (i = id)) as [->|Hne]; [|exists i, c'; by rewrite lookup_delete_ne].
    rewrite Hid in Hi. injection Hi as <-. assert (Hm : h ∈ gr_marked run) by (destruct (decide (h ∈ gr_marked run)); set_solver).
    destruct (go_marked_only _ _ _ Hgc h Hm) as (i & c' & Hi & Hn & Hin'). exists i, c'. split; [|done].
    rewrite lookup_delete_ne; [done|]. intros <-. apply Hn. unfold condemned. rewrite Hts. set_solver.
Qed.

Lemma sweep_state_ok E T m run id h rest :
  machine_ok known E T m → m_gc m = Some run → gr_to_sweep run = (id, h) :: rest →
  ∃ n c l, T !! id = Some (gr_first run, c) ∧ repr_hash c = h ∧ known c ∧
    (∀ k, k ∈ l ↔ k ∈ hashes c ∖ gr_marked run ∖ gr_sweeped run) ∧
    sweep_cells (m_db m) (gr_first run) h (gr_marked run) (gr_sweeped run) =
      Done (n, (set_boc_db (gr_first run) (commit (boc_db (m_db m) (gr_first run)) (Delete <$> l)) (m_db m),
                gr_sweeped run ∪ (hashes c ∖ gr_marked run))).
Proof.
  intros HI Hrun Hts. destruct (mo_gc _ _ _ _ HI run Hrun) as [Hgc _].
  destruct (go_roots _ _ _ Hgc id h) as (c & Hid & Hh); [rewrite Hts; set_solver|].
  pose proof (mo_cells _ _ _ _ HI (gr_first run)) as Hb. unfold swept in Hb. rewrite Hrun, bool_decide_eq_true_2 in Hb by done.
  assert (Hc : known c) by (eapply (mo_known _ _ _ _ HI); by right). set (db := boc_db (m_db m) (gr_first run)) in *.
  assert (Hdom : hashes c ∖ (gr_marked run ∪ gr_sweeped run) ⊆ dom db).
  { intros k. rewrite elem_of_difference, elem_of_hashes. intros [(x & Hx & <-) Hn]. apply elem_of_dom.
    rewrite (bo_stored _ _ _ _ Hb id c x Hid Hx); [eauto|set_solver]. }
  destruct (sweep_cells_ok known U db (gr_marked run) c (S (size db)) [] (gr_sweeped run) Hc (go_tree _ _ _ Hgc))
    as (l & Hsweep & _ & Hl).
  - intros x Hx _ Hn. by apply (bo_stored _ _ _ _ Hb id c x Hid Hx).
  - intros x Hx Hin. apply (go_swept _ _ _ Hgc); [by eapply (known_sub known U)|done].
  - apply subseteq_size in Hdom. rewrite size_dom in Hdom. lia.
  - exists (0 + N.of_nat (length l)), c, l. split_and!; try done. unfold sweep_cells. fold db. rewrite <- Hh, Hsweep.
    cbn [mbind outcome_bind app]. done.
Qed.

(** ** The steps *)
Lemma boc_db_set self first db other :
  boc_db (set_boc_db first db self) other = if bool_decide (first = other) then db else boc_db self other.
Proof. by destruct first, other. Qed.

Lemma writers_set self first n other :
  boc_db_writers (set_writers first n self) other = if bool_decide (first = other) then n else boc_db_writers self other.
Proof. by destruct first, other. Qed.

Lemma writers_boc self first db other : boc_db_writers (set_boc_db first db self) other = boc_db_writers self other.
Proof. by destruct other. Qed.

Lemma put_choose_ok E T m first :
  machine_ok known E T m → put_choose (m_db m) = Some first → current_dynamic_boc_db_index (m_db m) = db_index first.
Proof. intros HI. unfold put_choose. destruct (mo_current _ _ _ _ HI) as ([] & -> & _); cbn; by intros [= <-]. Qed.

Lemma step_put_load_ok E T m id c first :
  machine_ok known E T m → known c → block_id_ok id → shardstate_db (m_db m) !! id = None → id ∉ pt_id <$> m_puts m →
  N.of_nat (length (m_puts m)) + 1 < two32 → put_choose (m_db m) = Some first →
  machine_ok known E T {| m_db := m_db m; m_puts := mk_task id c first Loaded :: m_puts m; m_gc := m_gc m; m_states := m_states m |}.
Proof.
  intros HI Hc Hid Hn Hni Hlen Hb. pose proof (put_choose_ok E T m first HI Hb) as Hcur.
  pose proof HI as [H1 H2 H3 H4 H5 H6 (cur & Hcur' & Hrun) H8 H9 H10 H11 H12 H13].
  assert (HE : E !! id = None) by (rewrite H1 in Hn; by destruct (E !! id)).
  assert (HT : T !! id = None).
  { destruct (T !! id) as [[f c']|] eqn:ET; [|done]. destruct (H4 id f c' ET) as [?|Hin]; [congruence|].
    destruct Hni. by apply (list_elem_of_fmap_2 pt_id) in Hin. }
  assert (cur = first) as -> by (apply db_index_inj; congruence).
  split; cbn [m_db m_puts m_gc m_states]; [exact H1|exact H2|exact H3| |exact H5|exact H6|by exists first| | | | | |exact H13].
  - intros i f c' Hi. destruct (H4 i f c' Hi); [by left|right; by right].
  - intros run Hr. destruct (H8 run Hr) as [Hg Hp]. split; [done|]. intros t [->|Ht]%elem_of_cons; [|by apply Hp].
    cbn [pt_first]. rewrite (Hrun run Hr). by destruct first.
  - intros f. rewrite writers_cons. cbn [counted pt_stage]. rewrite H9. by case_bool_decide.
  - cbn [length]. lia.
  - rewrite fmap_cons. by apply list.NoDup_cons.
  - intros t [->|Ht]%elem_of_cons; [by split_and!|by apply H12].
Qed.

(** What a step of a put leaves alone. *)
Lemma put_on_other E T m l1 task l2 run :
  machine_ok known E T m → m_puts m = l1 ++ task :: l2 → m_gc m = Some run → gr_first run ≠ pt_first task.
Proof. intros HI Hputs Hr. destruct (mo_gc _ _ _ _ HI run Hr) as [_ Hp]. apply not_eq_sym, Hp. rewrite Hputs. set_solver. Qed.

Lemma not_swept_there E T m l1 task l2 :
  machine_ok known E T m → m_puts m = l1 ++ task :: l2 → swept m (pt_first task) = ∅.
Proof.
  intros HI Hputs. unfold swept. destruct (m_gc m) as [run|] eqn:Er; [|done].
  by rewrite bool_decide_eq_false_2 by (by eapply put_on_other).
Qed.

Lemma gc_on_other E T m l1 task l2 next run :
  machine_ok known E T m → m_puts m = l1 ++ task :: l2 → (∀ t, next = Some t → pt_first t = pt_first task) → m_gc m = Some run →
  ∀ t, t ∈ l1 ++ option_list next ++ l2 → pt_first t ≠ gr_first run.
Proof.
  intros HI Hputs Hnext Hr t Ht. destruct (mo_gc _ _ _ _ HI run Hr) as [_ Hp]. rewrite Hputs in Hp.
  apply elem_of_app in Ht as [Ht|[Ht|Ht]%elem_of_app]; [apply Hp; set_solver| |apply Hp; set_solver].
  destruct next as [t'|]; [|by apply not_elem_of_nil in Ht]. apply list_elem_of_singleton in Ht as ->. rewrite (Hnext t' eq_refl). apply Hp. set_solver.
Qed.

(** The puts after a step of one of them. *)
Lemma puts_after E T E' T' m l1 task l2 next self :
  machine_ok known E T m → m_puts m = l1 ++ task :: l2 →
  (∀ i, i ≠ pt_id task → E' !! i = E !! i ∧ T' !! i = T !! i) →
  (∀ f x, known x → stored (boc_db (m_db m) f) x → stored (boc_db self f) x) →
  (∀ t, next = Some t → pt_id t = pt_id task ∧ task_ok known E' T' self t) →
  N.of_nat (length (l1 ++ option_list next ++ l2)) < two32 ∧ NoDup (pt_id <$> l1 ++ option_list next ++ l2) ∧
  ∀ t, t ∈ l1 ++ option_list next ++ l2 → task_ok known E' T' self t.
Proof.
  intros HI Hputs Hother Hst Hnext. pose proof (mo_nodup _ _ _ _ HI) as Hnd. pose proof (mo_count _ _ _ _ HI) as Hcount. rewrite Hputs in Hnd, Hcount.
  destruct (replaced_nodup l1 task l2 next Hnd) as [Hnd' Hne]; [intros t Ht; by apply Hnext|]. split_and!; [|done|].
  - rewrite !length_app in *. cbn [length] in Hcount. destruct next; simpl in *; lia.
  - intros t Ht. assert (Hor : t ∈ l1 ++ l2 ∨ next = Some t).
    { apply elem_of_app in Ht as [Ht|[Ht|Ht]%elem_of_app]; [left; set_solver| |left; set_solver]. right.
      destruct next as [t'|]; [by apply list_elem_of_singleton in Ht as ->|by apply not_elem_of_nil in Ht]. }
    destruct Hor as [Hin|Hn]; [|by apply Hnext]. destruct (Hother (pt_id t) (Hne t Hin)) as [HE HT].
    apply (task_ok_other known E T E' T' (m_db m)); [done|done|apply Hst|done|]. apply (mo_puts _ _ _ _ HI). rewrite Hputs. set_solver.
Qed.

(** A committed put that is still there. *)
Lemma committed_after l1 task l2 next id c first :
  mk_task id c first Committed ∈ l1 ++ task :: l2 → pt_stage task ≠ Committed → mk_task id c first Committed ∈ l1 ++ option_list next ++ l2.
Proof.
  intros [Hin|[<-|Hin]%elem_of_cons]%elem_of_app Hs; [apply elem_of_app; by left|done|]. apply elem_of_app. right. apply elem_of_app. by right.
Qed.

(** Steps that change the count of writers and the task only. *)
Lemma quiet_put_ok E T m l1 task l2 next self :
  machine_ok known E T m → m_puts m = l1 ++ task :: l2 → pt_stage task ≠ Committed →
  shardstate_db self = shardstate_db (m_db m) → current_dynamic_boc_db_index self = current_dynamic_boc_db_index (m_db m) →
  (∀ f, boc_db self f = boc_db (m_db m) f) →
  (∀ f, boc_db_writers self f = N.of_nat (writers_on f (l1 ++ option_list next ++ l2))) →
  (∀ t, next = Some t → pt_id t = pt_id task ∧ pt_first t = pt_first task ∧ task_ok known E T self t) →
  machine_ok known E T {| m_db := self; m_puts := l1 ++ option_list next ++ l2; m_gc := m_gc m; m_states := m_states m |}.
Proof.
  intros HI Hputs Hstage Hsh Hcur Hdb Hw Hnext. pose proof HI as [H1 H2 H3 H4 H5 H6 H7 H8 H9 H10 H11 H12 H13].
  destruct (puts_after E T E T m l1 task l2 next self HI Hputs) as (P1 & P2 & P3); [done|by intros f; rewrite Hdb|intros t Ht; by destruct (Hnext t Ht) as (? & _ & ?)|].
  split; cbn [m_db m_puts m_gc m_states]; [by rewrite Hsh|exact H2|exact H3| |exact H5|intros f; rewrite Hdb; apply H6|by rewrite Hcur| |exact Hw|exact P1|exact P2|exact P3|exact H13].
  - intros i f c' Hi. destruct (H4 i f c' Hi) as [?|Hin]; [by left|right]. rewrite Hputs in Hin. by eapply committed_after.
  - intros run Hr. split; [by apply H8|]. eapply gc_on_other; [done|done|intros t Ht; by apply Hnext|done].
Qed.

Lemma writers_unchanged E T m l1 task l2 stage f :
  machine_ok known E T m → m_puts m = l1 ++ task :: l2 → counted task = true → counted (with_stage task stage) = true →
  boc_db_writers (m_db m) f = N.of_nat (writers_on f (l1 ++ with_stage task stage :: l2)).
Proof.
  intros HI Hputs H1 H2. rewrite (mo_writers _ _ _ _ HI), Hputs, !writers_app, !writers_cons, H1, H2. done.
Qed.

Lemma put_enter_ok E T m l1 task l2 :
  machine_ok known E T m → m_puts m = l1 ++ task :: l2 → pt_stage task = Loaded →
  machine_ok known E T
    {| m_db := put_enter (m_db m) (pt_first task); m_puts := l1 ++ with_stage task (Visiting (saving_start (pt_root task))) :: l2;
       m_gc := m_gc m; m_states := m_states m |}.
Proof.
  intros HI Hputs Hs. apply (quiet_put_ok E T m l1 task l2 (Some (with_stage task (Visiting (saving_start (pt_root task))))) _ HI Hputs);
    [by rewrite Hs|done|done|by intros []| |].
  - intros f. pose proof (mo_writers _ _ _ _ HI f) as Hw. pose proof (mo_count _ _ _ _ HI) as Hn. rewrite Hputs in Hw, Hn.
    rewrite writers_app, writers_cons in Hw.
    change (option_list (Some ?t) ++ ?l) with (t :: l). rewrite writers_app, writers_cons. cbn [with_stage pt_first].
    unfold counted in *. rewrite Hs in Hw. cbn [with_stage pt_stage]. unfold put_enter. rewrite writers_set. case_bool_decide as Hf.
    + subst f. rewrite Hw. pose proof (writers_le (pt_first task) l1). pose proof (writers_le (pt_first task) l2).
      rewrite length_app in Hn. cbn [length] in Hn. unfold u32_add. rewrite N.mod_small; lia.
    + rewrite Hw. done.
  - intros t [= <-]. split_and!; [done|done|]. destruct (mo_puts _ _ _ _ HI task) as (Hk & Hid & Hok); [rewrite Hputs; set_solver|]. rewrite Hs in Hok.
    split_and!; [done|done|]. cbn [with_stage pt_stage pt_id]. destruct Hok as [? ?]. split_and!; [done|done|]. exists []. apply saving_start_ok.
Qed.

Lemma put_leave_ok E T m l1 task l2 :
  machine_ok known E T m → m_puts m = l1 ++ task :: l2 → pt_stage task = Recorded →
  machine_ok known E T {| m_db := put_leave (m_db m) (pt_first task); m_puts := l1 ++ l2; m_gc := m_gc m; m_states := m_states m |}.
Proof.
  intros HI Hputs Hs. apply (quiet_put_ok E T m l1 task l2 None _ HI Hputs); [by rewrite Hs|done|done|by intros []| |done].
  intros f. pose proof (mo_writers _ _ _ _ HI f) as Hw. pose proof (mo_count _ _ _ _ HI) as Hn. rewrite Hputs in Hw, Hn.
  rewrite writers_app, writers_cons in Hw. unfold counted in Hw. rewrite Hs in Hw.
  change (option_list None ++ ?l) with l. rewrite writers_app.
  unfold put_leave. rewrite writers_set. case_bool_decide as Hf; [subst f|by rewrite Hw].
  rewrite Hw. pose proof (writers_le (pt_first task) l1). pose proof (writers_le (pt_first task) l2). rewrite length_app in Hn. cbn [length] in Hn.
  unfold u32_sub. replace (_ + two32 - 1) with (N.of_nat (writers_on (pt_first task) l1 + writers_on (pt_first task) l2) + 1 * two32) by lia.
  rewrite N.Div0.mod_add, N.mod_small; lia.
Qed.

Lemma put_closed E T m l1 task l2 :
  machine_ok known E T m → m_puts m = l1 ++ task :: l2 →
  boc_ok T (pt_first task) ∅ (boc_db (m_db m) (pt_first task)) ∧ db_closed known (boc_db (m_db m) (pt_first task)).
Proof.
  intros HI Hputs. pose proof (mo_cells _ _ _ _ HI (pt_first task)) as Hb. rewrite (not_swept_there E T m l1 task l2 HI Hputs) in Hb.
  split; [done|]. eapply boc_ok_closed; [|exact Hb]. intros i c Hi. eapply (mo_known _ _ _ _ HI). right. exact Hi.
Qed.

Lemma put_visit_ok E T m l1 task l2 s :
  machine_ok known E T m → m_puts m = l1 ++ task :: l2 → pt_stage task = Visiting s →
  ∃ s', save_step (boc_db (m_db m) (pt_first task)) s = Done s' ∧
    machine_ok known E T {| m_db := m_db m; m_puts := l1 ++ with_stage task (Visiting s') :: l2; m_gc := m_gc m; m_states := m_states m |}.
Proof.
  intros HI Hputs Hs. destruct (put_closed E T m l1 task l2 HI Hputs) as [_ Hcl].
  destruct (mo_puts _ _ _ _ HI task) as (Hk & Hid & Hok); [rewrite Hputs; set_solver|]. rewrite Hs in Hok. destruct Hok as (HT & HE & w & Hw).
  destruct (save_step_ok known U _ _ s w Hcl Hk Hw) as (s' & w' & Hrun & Hw'). exists s'. split; [done|].
  apply (quiet_put_ok E T m l1 task l2 (Some (with_stage task (Visiting s'))) _ HI Hputs); [by rewrite Hs|done|done|done| |].
  - intros f. apply (writers_unchanged E T m l1 task l2 _ f HI Hputs); [unfold counted; by rewrite Hs|done].
  - intros t [= <-]. split_and!; [done|done|]. split_and!; [done|done|]. cbn [with_stage pt_stage pt_id pt_first pt_root]. split_and!; [done|done|]. by exists w'.
Qed.

Lemma put_commit_ok E T m l1 task l2 s :
  machine_ok known E T m → m_puts m = l1 ++ task :: l2 → pt_stage task = Visiting s → sv_todo s = [] →
  machine_ok known E (<[pt_id task := (pt_first task, pt_root task)]> T)
    {| m_db := set_boc_db (pt_first task) (commit (boc_db (m_db m) (pt_first task)) (sv_transaction s)) (m_db m);
       m_puts := l1 ++ with_stage task Committed :: l2; m_gc := m_gc m; m_states := m_states m |}.
Proof.
  intros HI Hputs Hs Hnil. destruct (put_closed E T m l1 task l2 HI Hputs) as [Hb Hcl]. pose proof (not_swept_there E T m l1 task l2 HI Hputs) as Hsw.
  destruct (mo_puts _ _ _ _ HI task) as (Hk & Hid & Hok); [rewrite Hputs; set_solver|]. rewrite Hs in Hok. destruct Hok as (HT & HE & w & Hw).
  assert (Hww : ∀ y, y ∈ w → known y) by (intros y Hy; eapply (known_sub known U); [exact Hk|by apply (so_written _ _ _ _ Hw)]).
  pose proof HI as [H1 H2 H3 H4 H5 H6 H7 H8 H9 H10 H11 H12 H13].
  set (id := pt_id task) in *. set (first := pt_first task) in *. set (c := pt_root task) in *.
  set (db' := commit _ _). set (self := set_boc_db first db' (m_db m)). set (T' := <[id := (first, c)]> T).
  destruct (puts_after E T E T' m l1 task l2 (Some (with_stage task Committed)) self HI Hputs) as (P1 & P2 & P3).
  { intros i Hi. unfold T'. by rewrite lookup_insert_ne. }
  { intros f x Hx Hst. unfold self. rewrite boc_db_set. case_bool_decide as Hf; [subst f|done]. intros y Hy. unfold db'. rewrite (so_transaction _ _ _ _ Hw).
    apply (commit_keeps known U); [by eapply (known_sub known U)|done|by apply Hst]. }
  { intros t [= <-]. split; [done|]. split_and!; [done|done|]. cbn [with_stage pt_stage pt_id pt_first pt_root]. unfold T'. by rewrite lookup_insert_eq. }
  split; cbn [m_db m_puts m_gc m_states]; [exact H1| | | | | |exact H7| | |exact P1|exact P2|exact P3|].
  - intros i f c' [Hi|[[<- [= <- <-]]|[_ Hi]]%lookup_insert_Some]; [eapply H2; by left|done|eapply H2; by right].
  - intros i p Hi. destruct (H3 i p Hi) as [HTi|?]; [left|by right]. unfold T'. rewrite lookup_insert_ne; [done|congruence].
  - intros i f c' [[<- [= <- <-]]|[Hne Hi]]%lookup_insert_Some; [right; set_solver|]. destruct (H4 i f c' Hi) as [?|Hin]; [by left|right].
    rewrite Hputs in Hin. eapply (committed_after l1 task l2 (Some _)); [exact Hin|by rewrite Hs].
  - intros i Hi. destruct (H5 i Hi) as [HTi HEi]. split; [|done]. unfold T'. rewrite lookup_insert_ne; [done|]. intros <-. rewrite HE in HEi. by destruct HEi.
  - intros f. change (swept _ f) with (swept m f). unfold self. rewrite boc_db_set. case_bool_decide as Hf.
    + subst f. rewrite Hsw. apply (commit_state_ok T first _ id c s w); try done. intros i c' Hi. eapply H2. right. exact Hi.
    + eapply boc_ok_agree; [|apply H6]. by apply agree_insert.
  - intros run Hr. split.
    + destruct (H8 run Hr) as [Hg _]. eapply gc_ok_agree; [|exact Hg]. apply agree_insert; [done|]. apply not_eq_sym. by eapply put_on_other.
    + apply (gc_on_other E T m l1 task l2 (Some (with_stage task Committed)) run HI Hputs); [by intros t [= <-]|done].
  - intros f. unfold self. rewrite writers_boc. apply (writers_unchanged E T m l1 task l2 _ f HI Hputs); [unfold counted; by rewrite Hs|done].
  - intros i c'. rewrite H13. change (to_be_swept _) with (to_be_swept m). unfold T'. destruct (decide (i = id)) as [->|Hne]; [|by rewrite lookup_insert_ne].
    rewrite HE. split; by intros (f & _ & ? & _).
Qed.

(** The state of a put is not condemned: the collector is busy with the other database. *)
Lemma put_not_condemned E T m l1 task l2 c :
  machine_ok known E T m → m_puts m = l1 ++ task :: l2 → T !! pt_id task = Some (pt_first task, c) → ¬ condemned (to_be_swept m) (pt_id task).
Proof.
  intros HI Hputs HT. unfold to_be_swept. destruct (m_gc m) as [run|] eqn:Er; [|apply not_elem_of_nil].
  destruct (mo_gc _ _ _ _ HI run Er) as [Hg _]. intros ([i h] & Heq & Hin)%list_elem_of_fmap. simpl in Heq. subst i.
  destruct (go_roots _ _ _ Hg _ h Hin) as (c' & HT' & _). pose proof (put_on_other E T m l1 task l2 run HI Hputs Er). congruence.
Qed.

Lemma put_record_ok E T m l1 task l2 :
  machine_ok known E T m → m_puts m = l1 ++ task :: l2 → pt_stage task = Committed →
  machine_ok known (<[pt_id task := (pt_first task, pt_root task)]> E) T
    {| m_db := put_entry (m_db m) (pt_id task) (pt_root task) (pt_first task);
       m_puts := l1 ++ with_stage task Recorded :: l2; m_gc := m_gc m; m_states := <[pt_id task := pt_root task]> (m_states m) |}.
Proof.
  intros HI Hputs Hs. destruct (mo_puts _ _ _ _ HI task) as (Hk & Hid & Hok); [rewrite Hputs; set_solver|]. rewrite Hs in Hok. destruct Hok as (HT & HE).
  pose proof (put_not_condemned E T m l1 task l2 _ HI Hputs HT) as Hnc. pose proof HI as [H1 H2 H3 H4 H5 H6 H7 H8 H9 H10 H11 H12 H13].
  set (self := put_entry _ _ _ _). set (id := pt_id task) in *. set (first := pt_first task) in *. set (c := pt_root task) in *.
  destruct (puts_after E T (<[id := (first, c)]> E) T m l1 task l2 (Some (with_stage task Recorded)) self HI Hputs) as (P1 & P2 & P3).
  { intros i Hi. by rewrite lookup_insert_ne. }
  { by intros []. }
  { intros t [= <-]. split; [done|]. by split_and!. }
  split; cbn [m_db m_puts m_gc m_states]; [| | | | | |exact H7| | |exact P1|exact P2|exact P3|].
  - intros i. unfold self, put_entry, MemoryDb_put. cbn [set_shardstate shardstate_db]. destruct (decide (i = id)) as [->|]; [by rewrite !lookup_insert_eq|].
    rewrite !lookup_insert_ne by done. apply H1.
  - intros i f c' [[[<- [= <- <-]]|[_ Hi]]%lookup_insert_Some|Hi]; [done|eapply H2; by left|eapply H2; by right].
  - intros i p [[<- <-]|[_ Hi]]%lookup_insert_Some; [by left|by apply H3].
  - intros i f c' Hi. destruct (decide (i = id)) as [->|Hne]; [left; rewrite lookup_insert_eq; congruence|]. rewrite lookup_insert_ne by done.
    destruct (H4 i f c' Hi) as [?|Hin]; [by left|right]. rewrite Hputs in Hin.
    apply elem_of_app in Hin as [Hin|[<-|Hin]%elem_of_cons]; [apply elem_of_app; by left|by destruct Hne|]. apply elem_of_app. right. by right.
  - intros i Hi. destruct (H5 i Hi) as [HTi HEi]. split; [done|]. apply lookup_insert_is_Some'. by right.
  - intros f. change (swept _ f) with (swept m f). replace (boc_db self f) with (boc_db (m_db m) f) by (by destruct f). apply H6.
  - intros run Hr. split; [by apply H8|].
    apply (gc_on_other E T m l1 task l2 (Some (with_stage task Recorded)) run HI Hputs); [by intros t [= <-]|done].
  - intros f. replace (boc_db_writers self f) with (boc_db_writers (m_db m) f) by (by destruct f).
    apply (writers_unchanged E T m l1 task l2 _ f HI Hputs); [unfold counted; by rewrite Hs|done].
  - intros i c'. change (to_be_swept _) with (to_be_swept m). destruct (decide (i = id)) as [->|Hne]; [|by rewrite !lookup_insert_ne].
    rewrite !lookup_insert_eq. split; [|intros (f & _ & [= <- <-] & _); done]. intros [= <-]. by exists first.
Qed.

(** Every step of a put succeeds. *)
Lemma step_put_ok E T m l1 task l2 :
  machine_ok known E T m → m_puts m = l1 ++ task :: l2 →
  ∃ db next, put_step (m_db m) task = Done (db, next) ∧ ∃ E' T',
    machine_ok known E' T' {| m_db := db; m_puts := l1 ++ option_list next ++ l2; m_gc := m_gc m; m_states := states_after task (m_states m) |}.
Proof.
  intros HI Hputs. unfold put_step, states_after. destruct (pt_stage task) as [|s| |] eqn:Es.
  - eexists _, _. split; [done|]. exists E, T. by apply put_enter_ok.
  - destruct (sv_todo s) as [|x todo] eqn:Et.
    + eexists _, _. split; [done|]. eexists _, _. by apply put_commit_ok.
    + destruct (put_visit_ok E T m l1 task l2 s HI Hputs Es) as (s' & -> & HI'). cbn [mbind outcome_bind]. eexists _, _. split; [done|]. by exists E, T.
  - eexists _, _. split; [done|]. eexists _, _. by apply put_record_ok.
  - eexists _, _. split; [done|]. exists E, T. by apply put_leave_ok.
Qed.

Lemma collected_ok E T m first :
  machine_ok known E T m → collected_db (m_db m) = Some first → current_dynamic_boc_db_index (m_db m) = db_index (negb first).
Proof. intros HI. unfold collected_db. destruct (mo_current _ _ _ _ HI) as ([] & -> & _); cbn; by intros [= <-]. Qed.

(** When a collection starts in time, no put is on its way to the database. *)
Lemma nobody_there E T m first :
  machine_ok known E T m → boc_db_writers (m_db m) first = 0 → all_counted m first → ∀ task, task ∈ m_puts m → pt_first task ≠ first.
Proof.
  intros HI Hw Hall task Hin Hf. pose proof (mo_writers _ _ _ _ HI first) as Hn. rewrite Hw in Hn.
  pose proof (no_writers first (m_puts m) task ltac:(lia) Hin Hf) as Hc. rewrite (Hall task Hin Hf) in Hc. done.
Qed.

(** There the states are those with an entry. *)
Lemma idle_agree E T m first :
  machine_ok known E T m → m_gc m = None → (∀ task, task ∈ m_puts m → pt_first task ≠ first) → agree T E first.
Proof.
  intros HI Hgc Hno id c. split.
  - intros Hid. destruct (mo_recorded _ _ _ _ HI id first c Hid) as [?|Hin]; [done|]. by destruct (Hno _ Hin).
  - intros Hid. destruct (mo_kept _ _ _ _ HI id _ Hid) as [?|Hd]; [done|]. unfold dropping in Hd. by rewrite Hgc in Hd.
Qed.

Lemma gc_mark_ok E T m allow pairs first utime :
  machine_ok known E T m → m_gc m = None → boc_db_writers (m_db m) first = 0 → all_counted m first →
  pairs ≡ₚ map_to_list (shardstate_db (m_db m)) →
  ∃ res, mark allow pairs (boc_db (m_db m) first) (db_index first) utime = Done res ∧
    ∀ marked to_sweep n, res = Some (marked, to_sweep, n) →
      gc_ok known T {| gr_first := first; gr_to_sweep := to_sweep; gr_marked := marked; gr_sweeped := ∅; gr_entry := None |} ∧
      ∀ id, condemned to_sweep id ↔ ∃ c, E !! id = Some (first, c) ∧ allow id utime = Some true.
Proof.
  intros HI Hgc Hw Hall Hpairs. pose proof (nobody_there E T m first HI Hw Hall) as Hno. pose proof (idle_agree E T m first HI Hgc Hno) as Hag.
  assert (Hb : boc_ok E first ∅ (boc_db (m_db m) first)).
  { pose proof (mo_cells _ _ _ _ HI first) as Hb. unfold swept in Hb. rewrite Hgc in Hb. by eapply boc_ok_agree. }
  destruct (mark_ok E allow first utime (m_db m) pairs (mo_entries _ _ _ _ HI)) as (res & Hres & Hok); [|done|done|].
  { intros id f c Hid. eapply (mo_known _ _ _ _ HI). left. exact Hid. }
  exists res. split; [done|]. intros marked ts n Heq. destruct (Hok marked ts n Heq) as [Hg Hc]. split; [|done].
  eapply gc_ok_agree; [|exact Hg]. intros id c. symmetry. apply Hag.
Qed.

Lemma step_gc_mark_ok E T m allow pairs first utime marked to_sweep n :
  machine_ok known E T m → m_gc m = None → collected_db (m_db m) = Some first → boc_db_writers (m_db m) first = 0 → all_counted m first →
  pairs ≡ₚ map_to_list (shardstate_db (m_db m)) →
  mark allow pairs (boc_db (m_db m) first) (db_index first) utime = Done (Some (marked, to_sweep, n)) →
  machine_ok known E T
    {| m_db := m_db m; m_puts := m_puts m;
       m_gc := Some {| gr_first := first; gr_to_sweep := to_sweep; gr_marked := marked; gr_sweeped := ∅; gr_entry := None |};
       m_states := filter (λ p, ¬ condemned to_sweep p.1) (m_states m) |}.
Proof.
  intros HI Hgc Hcol Hw Hall Hpairs Hmark. destruct (gc_mark_ok E T m allow pairs first utime HI Hgc Hw Hall Hpairs) as (res & Hres & Hok).
  rewrite Hmark in Hres. injection Hres as <-. destruct (Hok _ _ _ eq_refl) as [Hg _].
  pose proof (collected_ok E T m first HI Hcol) as Hcur. pose proof (nobody_there E T m first HI Hw Hall) as Hno.
  pose proof HI as [H1 H2 H3 H4 H5 H6 H7 H8 H9 H10 H11 H12 H13].
  split; cbn [m_db m_puts m_gc m_states]; [exact H1|exact H2| |exact H4|done| | | |exact H9|exact H10|exact H11|exact H12|].
  - intros id p Hid. destruct (H3 id p Hid) as [?|Hd]; [by left|]. unfold dropping in Hd. by rewrite Hgc in Hd.
  - intros f. specialize (H6 f). unfold swept in *. rewrite Hgc in H6. cbn [m_gc gr_first gr_sweeped]. by destruct (bool_decide _).
  - exists (negb first). split; [done|]. intros run [= <-]. cbn [gr_first]. by destruct first.
  - by intros run [= <-].
  - intros id c. rewrite map_lookup_filter_Some. cbn [fst]. rewrite H13. unfold to_be_swept. rewrite Hgc. cbn [m_gc gr_to_sweep].
    unfold condemned. set_solver.
Qed.

(** A change of the current database while no collection runs. *)
Lemma idle_current_ok E T m first :
  machine_ok known E T m → m_gc m = None →
  machine_ok known E T {| m_db := set_current (db_index first) (m_db m); m_puts := m_puts m; m_gc := None; m_states := m_states m |}.
Proof.
  intros HI Hgc. pose proof HI as [H1 H2 H3 H4 H5 H6 H7 H8 H9 H10 H11 H12 H13].
  split; cbn [m_db m_puts m_gc m_states]; [exact H1|exact H2| |exact H4|done| | |done| |exact H10|exact H11| |].
  - intros id p Hid. destruct (H3 id p Hid) as [?|Hd]; [by left|]. unfold dropping in Hd. by rewrite Hgc in Hd.
  - intros f. specialize (H6 f). unfold swept in *. rewrite Hgc in H6. by destruct f.
  - by exists first.
  - intros f. specialize (H9 f). by destruct f.
  - intros task Hin. apply (task_ok_other known E T E T (m_db m)); [done|done|by destruct (pt_first task)|done|by apply H12].
  - intros id c. rewrite H13. unfold to_be_swept. by rewrite Hgc.
Qed.

(** The cells of a state are swept. *)
Lemma step_gc_cells_ok E T m run id h rest :
  machine_ok known E T m → m_gc m = Some run → gr_entry run = None → gr_to_sweep run = (id, h) :: rest →
  ∃ n db sweeped, sweep_cells (m_db m) (gr_first run) h (gr_marked run) (gr_sweeped run) = Done (n, (db, sweeped)) ∧
    machine_ok known E (delete id T)
      {| m_db := db; m_puts := m_puts m;
         m_gc := Some {| gr_first := gr_first run; gr_to_sweep := rest; gr_marked := gr_marked run; gr_sweeped := sweeped; gr_entry := Some id |};
         m_states := m_states m |}.
Proof.
  intros HI Hr He Hts. destruct (sweep_state_ok E T m run id h rest HI Hr Hts) as (n & c & l & Hid & <- & Hc & Hl & ->).
  eexists _, _, _. split; [done|]. pose proof HI as [H1 H2 H3 H4 H5 H6 H7 H8 H9 H10 H11 H12 H13]. destruct (H8 run Hr) as [Hg Hp].
  assert (Hother : ∀ task, task ∈ m_puts m → T !! pt_id task = None ∨ pt_id task ≠ id ∨ pt_stage task = Recorded).
  { intros task Hin. destruct (H12 task Hin) as (_ & _ & Hok). destruct (pt_stage task); [left; apply Hok|left; apply Hok| |by right; right].
    right. left. intros Heq. destruct Hok as [HTi _]. rewrite Heq, Hid in HTi. injection HTi as HF _. by apply (Hp task Hin). }
  split; cbn [m_db m_puts m_gc m_states]; [exact H1| | | | | | | | |exact H10|exact H11| |].
  - intros i f c' [Hi|[_ Hi]%lookup_delete_Some]; eapply H2; [by left|by right].
  - intros i p Hi. destruct (decide (i = id)) as [->|Hne]; [by right|left]. rewrite lookup_delete_ne by done.
    destruct (H3 i p Hi) as [?|Hd]; [done|]. unfold dropping in Hd. rewrite Hr in Hd. cbn in Hd. congruence.
  - intros i f c' [_ Hi]%lookup_delete_Some. by apply H4.
  - intros i [= <-]. split; [apply lookup_delete_eq|]. destruct (H4 id _ _ Hid) as [->|Hin]; [by eexists|]. by destruct (Hp _ Hin).
  - intros f. rewrite boc_db_set. specialize (H6 f). unfold swept in *. rewrite Hr in H6. cbn [m_gc gr_first gr_sweeped].
    case_bool_decide as Hf; [subst f|].
    + by eapply boc_ok_sweep.
    + eapply boc_ok_agree; [|exact H6]. by eapply agree_delete.
  - destruct H7 as (cur & Hcur & Hrun). exists cur. split; [done|]. intros run' [= <-]. exact (Hrun run Hr).
  - intros run' [= <-]. split; [by eapply gc_ok_sweep|done].
  - intros f. rewrite writers_boc. apply H9.
  - intros task Hin. destruct (H12 task Hin) as (Hk & Hb & Hok). split_and!; [done|done|]. pose proof (Hother task Hin) as Ho.
    assert (HT : pt_stage task ≠ Recorded → delete id T !! pt_id task = T !! pt_id task).
    { intros Hs. destruct (decide (pt_id task = id)) as [Heq|Hne]; [|by rewrite lookup_delete_ne by congruence].
      destruct Ho as [Hn|[?|?]]; [|done|done]. rewrite Hn. by rewrite Heq, lookup_delete_eq. }
    assert (Hdb : boc_db (set_boc_db (gr_first run) (commit (boc_db (m_db m) (gr_first run)) (Delete <$> l)) (m_db m)) (pt_first task) = boc_db (m_db m) (pt_first task)).
    { rewrite boc_db_set, bool_decide_eq_false_2; [done|]. apply not_eq_sym. by apply Hp. }
    destruct (pt_stage task) eqn:Es; [| | |done]; rewrite HT by done; rewrite ?Hdb; done.
  - intros i c'. rewrite H13. unfold to_be_swept. rewrite Hr. cbn [m_gc gr_to_sweep]. unfold condemned. rewrite Hts. cbn [fmap list_fmap].
    pose proof (go_nodup _ _ _ Hg) as Hnd. rewrite Hts in Hnd. apply list.NoDup_cons in Hnd as [Hni _]. cbn [fst] in *. split.
    + intros (f & Hi & HE & Hn). exists f. rewrite lookup_delete_ne by set_solver. set_solver.
    + intros (f & [Hne Hi]%lookup_delete_Some & HE & Hn). exists f. set_solver.
Qed.

(** Its entry is deleted. *)
Lemma step_gc_entry_ok E T m run id :
  machine_ok known E T m → m_gc m = Some run → gr_entry run = Some id →
  machine_ok known (delete id E) T
    {| m_db := sweep_entry (m_db m) id; m_puts := m_puts m;
       m_gc := Some {| gr_first := gr_first run; gr_to_sweep := gr_to_sweep run; gr_marked := gr_marked run; gr_sweeped := gr_sweeped run; gr_entry := None |};
       m_states := m_states m |}.
Proof.
  intros HI Hr He. pose proof HI as [H1 H2 H3 H4 H5 H6 H7 H8 H9 H10 H11 H12 H13]. destruct (H8 run Hr) as [Hg Hp].
  destruct (H5 id) as [HT HE]; [unfold dropping; by rewrite Hr|].
  split; cbn [m_db m_puts m_gc m_states]; [| | | |done| | | | |exact H10|exact H11| |].
  - intros i. unfold sweep_entry, MemoryDb_delete. cbn [set_shardstate shardstate_db]. destruct (decide (i = id)) as [->|]; [by rewrite !lookup_delete_eq|].
    rewrite !lookup_delete_ne by done. apply H1.
  - intros i f c' [[_ Hi]%lookup_delete_Some|Hi]; eapply H2; [by left|by right].
  - intros i p [Hne Hi]%lookup_delete_Some. destruct (H3 i p Hi) as [?|Hd]; [by left|]. unfold dropping in Hd. rewrite Hr in Hd. cbn in Hd. congruence.
  - intros i f c' Hi. destruct (H4 i f c' Hi) as [?|?]; [left|by right]. rewrite lookup_delete_ne; [done|congruence].
  - intros f. replace (boc_db _ f) with (boc_db (m_db m) f) by (by destruct f). specialize (H6 f). unfold swept in *. by rewrite Hr in H6.
  - destruct H7 as (cur & Hcur & Hrun). exists cur. split; [done|]. intros run' [= <-]. exact (Hrun run Hr).
  - intros run' [= <-]. split; [|done]. destruct Hg. by split.
  - intros f. specialize (H9 f). by destruct f.
  - intros task Hin. destruct (H12 task Hin) as (Hk & Hb & Hok). split_and!; [done|done|].
    assert (HN : E !! pt_id task = None → delete id E !! pt_id task = None) by (intros Hn; apply lookup_delete_None; by right).
    replace (boc_db (sweep_entry (m_db m) id) (pt_first task)) with (boc_db (m_db m) (pt_first task)) by (by destruct (pt_first task)).
    destruct (pt_stage task); naive_solver.
  - intros i c'. rewrite H13. unfold to_be_swept. rewrite Hr. cbn [m_gc gr_to_sweep]. split.
    + intros (f & Hi & HEi & Hn). exists f. split_and!; [done| |done]. rewrite lookup_delete_ne; [done|congruence].
    + intros (f & Hi & [_ HEi]%lookup_delete_Some & Hn). by exists f.
Qed.

Lemma gc_end_ok E T m run :
  machine_ok known E T m → m_gc m = Some run → gr_to_sweep run = [] → gr_entry run = None →
  machine_ok known E T {| m_db := m_db m; m_puts := m_puts m; m_gc := None; m_states := m_states m |}.
Proof.
  intros HI Hr Hts He. pose proof HI as [H1 H2 H3 H4 H5 H6 H7 H8 H9 H10 H11 H12 H13]. destruct (H8 run Hr) as [Hg _].
  split; cbn [m_db m_puts m_gc m_states]; [exact H1|exact H2| |exact H4|done| | |done|exact H9|exact H10|exact H11|exact H12|].
  - intros id p Hid. destruct (H3 id p Hid) as [?|Hd]; [by left|]. unfold dropping in Hd. rewrite Hr in Hd. cbn in Hd. congruence.
  - intros f. pose proof (H6 f) as Hb. unfold swept in *. rewrite Hr in Hb. cbn [m_gc]. case_bool_decide as Hf; [subst f|done].
    destruct Hb as [Hs Hga]. split.
    + intros id c x Hid Hx _. apply (Hs id c); [done..|]. intros Hin.
      assert (Hd : hashes c ## gr_sweeped run) by (apply (go_kept _ _ _ Hg id); [done|rewrite Hts; unfold condemned; set_solver]).
      assert (repr_hash x ∈ hashes c) by (apply elem_of_hashes; eauto). set_solver.
    + intros h Hh. split; [set_solver|]. by apply Hga.
  - destruct H7 as (cur & Hcur & _). by exists cur.
  - intros id c. rewrite H13. unfold to_be_swept. rewrite Hr. cbn [m_gc]. by rewrite Hts.
Qed.

Lemma machine_step_ok m m' : machine_step known true m m' → (∃ E T, machine_ok known E T m) → ∃ E T, machine_ok known E T m'.
Proof.
  intros Hstep (E & T & HI). destruct Hstep as [m id c first Hc Hid Hn Hni Hlen Hb|m l1 task l2 db next Hputs Hrun
    |m allow pairs first utime marked ts n Hgc Hcol Hw Hall Hp Hm|m allow pairs first utime Hgc Hcol Hw Hp Hm
    |m run id h rest n db sweeped Hr He Hts Hsw|m run id Hr He|m run Hr Hts He|m Hgc Hputs].
  - exists E, T. by apply step_put_load_ok.
  - destruct (step_put_ok E T m l1 task l2 HI Hputs) as (db' & next' & Hrun' & HE). rewrite Hrun in Hrun'. by injection Hrun' as <- <-.
  - exists E, T. eapply step_gc_mark_ok; [done..|by apply Hall|done|done].
  - exists E, T. by apply idle_current_ok.
  - destruct (step_gc_cells_ok E T m run id h rest HI Hr He Hts) as (n' & db' & sw' & Hsw' & Hok). rewrite Hsw in Hsw'.
    injection Hsw' as _ <- <-. eauto.
  - eexists _, _. by apply (step_gc_entry_ok E T).
  - exists E, T. pose proof (gc_end_ok E T m run HI Hr Hts He) as HI'. exact (idle_current_ok E T _ (gr_first run) HI' eq_refl).
  - exists E, T. pose proof (idle_current_ok E T m true HI Hgc) as [H1 H2 H3 H4 H5 H6 H7 H8 H9 H10 H11 H12 H13].
    split; cbn [m_db m_puts m_gc m_states] in *; rewrite Hputs in *; try done.
    intros f. by destruct f.
Qed.

Lemma machine_start_ok : machine_ok known ∅ ∅ machine_start.
Proof.
  split; cbn [machine_start m_db m_puts m_gc m_states]; try done; try (intros; by rewrite ?lookup_empty in *).
  - intros id f c. rewrite !lookup_empty. by intros [?|?].
  - intros f. split; [intros id c x; by rewrite lookup_empty|]. intros h [? Hh]. by destruct f.
  - by exists true.
  - intros f. by destruct f.
  - constructor.
  - by intros task ?%not_elem_of_nil.
  - intros id c. rewrite !lookup_empty. split; [done|]. by intros (? & ? & _).
Qed.

Lemma machine_reachable_ok m : machine_reachable known m → ∃ E T, machine_ok known E T m.
Proof.
  unfold machine_reachable, machine_run. revert m. apply (rtc_ind_r (λ m, ∃ E T, machine_ok known E T m)).
  - exists ∅, ∅. apply machine_start_ok.
  - intros m m' _ Hs IH. by eapply machine_step_ok.
Qed.

Lemma machine_next m m' : machine_reachable known m → machine_step known true m m' → machine_reachable known m'.
Proof. apply rtc_r. Qed.

(** ** A whole turn of the collector *)
Lemma sweep_state_reachable m run id h rest n db sweeped :
  machine_reachable known m → m_gc m = Some run → gr_entry run = None → gr_to_sweep run = (id, h) :: rest →
  sweep_cells (m_db m) (gr_first run) h (gr_marked run) (gr_sweeped run) = Done (n, (db, sweeped)) →
  machine_reachable known {| m_db := sweep_entry db id; m_puts := m_puts m;
    m_gc := Some {| gr_first := gr_first run; gr_to_sweep := rest; gr_marked := gr_marked run; gr_sweeped := sweeped; gr_entry := None |};
    m_states := m_states m |}.
Proof.
  intros Hm Hr He Hts Hsw. eapply machine_next; [eapply machine_next; [exact Hm|by eapply step_gc_cells]|].
  exact (step_gc_entry known true {| m_db := db; m_puts := m_puts m; m_gc := Some {| gr_first := gr_first run; gr_to_sweep := rest;
    gr_marked := gr_marked run; gr_sweeped := sweeped; gr_entry := Some id |}; m_states := m_states m |} _ id eq_refl eq_refl).
Qed.

Lemma sweep_roots_reachable m run n :
  machine_reachable known m → m_gc m = Some run → gr_entry run = None →
  ∃ k db, sweep_roots (m_db m) (gr_first run) (gr_to_sweep run) (gr_marked run) (gr_sweeped run) n = Done (k, db) ∧
    machine_reachable known {| m_db := set_current (db_index (gr_first run)) db; m_puts := m_puts m; m_gc := None;
                               m_states := m_states m |}.
Proof.
  remember (gr_to_sweep run) as l eqn:Hl. revert m run n Hl. induction l as [|[id h] l IH]; intros m run n Hl Hm Hr He; cbn [sweep_roots].
  { eexists _, _. split; [done|]. eapply machine_next; [done|]. by apply step_gc_end. }
  destruct (machine_reachable_ok m Hm) as (E & T & HI).
  destruct (step_gc_cells_ok E T m run id h l HI Hr He (eq_sym Hl)) as (k & db & sw & Hsw & _).
  unfold sweep_root. cbn [fst snd]. rewrite Hsw. cbn [mbind outcome_bind].
  set (run' := {| gr_first := gr_first run; gr_to_sweep := l; gr_marked := gr_marked run; gr_sweeped := sw; gr_entry := None |}).
  apply (IH {| m_db := sweep_entry db id; m_puts := m_puts m; m_gc := Some run'; m_states := m_states m |} run' (n + k) eq_refl); [|done|done].
  by apply (sweep_state_reachable m run id h l k db sw).
Qed.

Lemma for_each_total T allow first utime pairs acc :
  (∀ id v, (id, v) ∈ pairs → block_id_ok id ∧ ∃ p, T !! id = Some p ∧ v = entry_bytes id p) →
  (∀ id, is_Some (allow id utime)) → is_Some (for_each (mark_entry allow (db_index first) utime) acc pairs).
Proof.
  intros Hp Ha. revert acc. induction pairs as [|[id v] pairs IH]; intros [tm ts]; cbn [for_each]; [eauto|].
  destruct (Hp id v ltac:(set_solver)) as (Hb & [f c] & Hid & ->). rewrite mark_entry_ok by done.
  destruct (Ha id) as [b Hb']. rewrite Hb'. destruct (_ =? _); cbn [mbind option_bind negb]; apply IH; intros; apply Hp; set_solver.
Qed.

Lemma mark_total E T m allow pairs first utime :
  machine_ok known E T m → pairs ≡ₚ map_to_list (shardstate_db (m_db m)) → (∀ id, is_Some (allow id utime)) →
  mark allow pairs (boc_db (m_db m) first) (db_index first) utime ≠ Done None.
Proof.
  intros HI Hpairs Ha. unfold mark. destruct (for_each_total E allow first utime pairs ([], [])) as [[b [tm ts]] ->]; [|done|].
  - intros id v. rewrite Hpairs, elem_of_map_to_list, (mo_entries _ _ _ _ HI). destruct (E !! id) as [[f c]|] eqn:HE; [|done].
    intros [= <-]. split; [eapply (mo_known _ _ _ _ HI); by left|eauto].
  - by destruct (if (0 <? length ts)%nat then mark_roots _ _ _ else Done ∅).
Qed.

(** What a turn of the collector takes from the states. *)
Record collected (allow : BlockIdExt → N → option bool) (utime : N) (self : ShardStateDb) (states states' : gmap BlockIdExt Cell) : Prop := {
  co_sub id c : states' !! id = Some c → states !! id = Some c;
  co_taken id c : states !! id = Some c → states' !! id = None → allow id utime = Some true;
  co_all id c first : states !! id = Some c → (∀ i, is_Some (allow i utime)) → allow id utime = Some true →
    collected_db self = Some first → boc_db_writers self first = 0 →
    find_state self id = Some (first, repr_hash c) → states' !! id = None;
}.

Lemma gc_turn_ok m allow pairs utime :
  machine_reachable known m → m_gc m = None → (∀ first, collected_db (m_db m) = Some first → all_counted m first) →
  pairs ≡ₚ map_to_list (shardstate_db (m_db m)) →
  ∃ db states, gc_turn allow (m_db m) pairs utime = Done db ∧
    machine_reachable known {| m_db := db; m_puts := m_puts m; m_gc := None; m_states := states |} ∧
    collected allow utime (m_db m) (m_states m) states.
Proof.
  intros Hm Hgc Hall Hp. destruct (machine_reachable_ok m Hm) as (E & T & HI). unfold gc_turn.
  assert (Hsame : m = {| m_db := m_db m; m_puts := m_puts m; m_gc := None; m_states := m_states m |}) by (destruct m; simpl in *; by subst).
  destruct (collected_db (m_db m)) as [first|] eqn:Ecol.
  2:{ exists (m_db m), (m_states m). rewrite <- Hsame. split_and!; [done|done|]. split; try done; congruence. }
  destruct (N.ltb_spec 0 (boc_db_writers (m_db m) first)) as [Hw|Hw].
  { exists (m_db m), (m_states m). rewrite <- Hsame. split_and!; [done|done|]. split; try done; [congruence|].
    intros id c f _ _ _ Hf H0. rewrite Ecol in Hf. injection Hf as <-. lia. }
  assert (Hw0 : boc_db_writers (m_db m) first = 0) by lia. unfold gc. specialize (Hall first eq_refl).
  destruct (gc_mark_ok E T m allow pairs first utime HI Hgc Hw0 Hall Hp) as ([[[marked ts] n]|] & Hmark & Hok); rewrite Hmark; cbn [mbind outcome_bind].
  2:{ eexists _, (m_states m). split; [done|]. split; [eapply machine_next; [exact Hm|]; by eapply step_gc_error|].
      split; [done|congruence|]. intros id c f _ Ha. by destruct (mark_total E T m allow pairs first utime HI Hp Ha). }
  destruct (Hok _ _ _ eq_refl) as [_ Hcond].
  set (run := {| gr_first := first; gr_to_sweep := ts; gr_marked := marked; gr_sweeped := ∅; gr_entry := None |}).
  set (states := filter (λ p, ¬ condemned ts p.1) (m_states m)).
  set (m1 := {| m_db := m_db m; m_puts := m_puts m; m_gc := Some run; m_states := states |}).
  assert (Hm1 : machine_reachable known m1) by (eapply machine_next; [exact Hm|by eapply step_gc_mark]).
  destruct (sweep_roots_reachable m1 run 0 Hm1 eq_refl eq_refl) as (k & db & Hsw & Hreach).
  cbn [m1 run m_db gr_first gr_to_sweep gr_marked gr_sweeped m_puts m_states] in Hsw, Hreach.
  exists (set_current (db_index first) db), states. split_and!.
  - destruct ts as [|root ts]; [cbn in Hsw; by injection Hsw as _ <-|]. cbn [length Nat.eqb]. unfold sweep. rewrite Hsw. done.
  - done.
  - split.
    + by intros id c [H _]%map_lookup_filter_Some.
    + intros id c Hid Hn. destruct (decide (condemned ts id)) as [(c' & _ & Ha)%Hcond|Hnc]; [done|].
      exfalso. assert (Hs : states !! id = Some c) by (by apply map_lookup_filter_Some). congruence.
    + intros id c f Hid _ Ha Hf _ Hfind. rewrite Ecol in Hf. injection Hf as <-. apply map_lookup_filter_None. right. intros c' Hc' Hn. apply Hn. apply Hcond.
      apply (mo_states _ _ _ _ HI) in Hid as (f & _ & HE & _). rewrite (find_state_ok known E T m id f c HI HE) in Hfind.
      injection Hfind as ->. eauto.
Qed.

(** ** A whole put *)

Lemma put_next self gc states l1 task l2 self' next :
  put_step self task = Done (self', next) →
  machine_reachable known {| m_db := self; m_puts := l1 ++ task :: l2; m_gc := gc; m_states := states |} →
  machine_reachable known {| m_db := self'; m_puts := l1 ++ option_list next ++ l2; m_gc := gc; m_states := states_after task states |}.
Proof.
  intros Hs Hm. eapply machine_next; [exact Hm|].
  by apply (step_put known true {| m_db := self; m_puts := l1 ++ task :: l2; m_gc := gc; m_states := states |} l1 task l2 self' next).
Qed.

(** A put nobody interrupts makes the steps of the machine one after the other. *)
Lemma put_calls_reachable self gc states id c first l2 s s' :
  rtc (save_calls (boc_db self first)) s s' →
  machine_reachable known {| m_db := self; m_puts := mk_task id c first (Visiting s) :: l2; m_gc := gc; m_states := states |} →
  machine_reachable known {| m_db := self; m_puts := mk_task id c first (Visiting s') :: l2; m_gc := gc; m_states := states |}.
Proof.
  induction 1 as [s|s s1 s2 [Hne Hstep] _ IH]; [done|]. intros Hm. apply IH.
  apply (put_next self gc states [] (mk_task id c first (Visiting s)) l2 self (Some (mk_task id c first (Visiting s1)))); [|exact Hm].
  unfold put_step. cbn [pt_stage pt_first]. destruct (sv_todo s); [done|]. by rewrite Hstep.
Qed.

Lemma put_reachable m id c db :
  machine_reachable known m → known c → block_id_ok id → shardstate_db (m_db m) !! id = None → id ∉ pt_id <$> m_puts m →
  N.of_nat (length (m_puts m)) + 1 < two32 → ShardStateDb_put (m_db m) id c = Done (Some db) →
  machine_reachable known {| m_db := db; m_puts := m_puts m; m_gc := m_gc m; m_states := <[id := c]> (m_states m) |}.
Proof.
  intros Hm Hc Hid Hn Hni Hlen Hput. unfold ShardStateDb_put in Hput. destruct (put_choose (m_db m)) as [first|] eqn:Ech; [|done].
  set (self := put_enter (m_db m) first) in *. unfold put_internal, save_as_dynamic_boc in Hput.
  destruct (save_tree_of_cells_recursive (boc_db self first) c [] ∅) as [[n [t v]]|] eqn:Es; [|done]. cbn [mbind outcome_bind] in Hput. injection Hput as <-.
  pose proof (save_tree_calls _ c [] ∅ n t v [] Es) as Hcalls.
  assert (H1 : machine_reachable known {| m_db := m_db m; m_puts := mk_task id c first Loaded :: m_puts m; m_gc := m_gc m; m_states := m_states m |})
    by (eapply machine_next; [exact Hm|by eapply step_put_load]).
  apply (put_next _ _ _ [] (mk_task id c first Loaded) (m_puts m) self (Some (mk_task id c first (Visiting (saving_start c))))) in H1; [|done].
  apply (put_calls_reachable self _ _ id c first (m_puts m) _ _ Hcalls) in H1.
  eapply (put_next self _ _ [] (mk_task id c first (Visiting _)) (m_puts m)) in H1; [|done].
  eapply (put_next _ _ _ [] (mk_task id c first Committed) (m_puts m)) in H1; [|done].
  eapply (put_next _ _ _ [] (mk_task id c first Recorded) (m_puts m)) in H1; [|done].
  exact H1.
Qed.

(** It succeeds. *)
Lemma put_succeeds m id c :
  machine_reachable known m → known c → ∃ db, ShardStateDb_put (m_db m) id c = Done (Some db).
Proof.
  intros (E & T & HI)%machine_reachable_ok Hc. destruct (mo_current _ _ _ _ HI) as (cur & Hcur & Hrun).
  assert (Hch : put_choose (m_db m) = Some cur) by (unfold put_choose; rewrite Hcur; by destruct cur).
  assert (Hcl : db_closed known (boc_db (m_db m) cur)).
  { pose proof (mo_cells _ _ _ _ HI cur) as Hb. assert (Hsw : swept m cur = ∅).
    { unfold swept. destruct (m_gc m) as [run|]; [|done]. rewrite (Hrun run eq_refl), bool_decide_eq_false_2; [done|]. by destruct cur. }
    rewrite Hsw in Hb. eapply boc_ok_closed; [|exact Hb]. intros i c' Hi. eapply (mo_known _ _ _ _ HI). right. exact Hi. }
  unfold ShardStateDb_put. rewrite Hch. unfold put_internal. replace (boc_db (put_enter (m_db m) cur) cur) with (boc_db (m_db m) cur) by (by destruct cur).
  destruct (save_as_dynamic_boc_ok known U _ c Hcl Hc) as (n & db' & -> & _). cbn [mbind outcome_bind]. eauto.
Qed.
End safety.
