(* ===== verification/StateGcResolver.v ===== *)
(** * Which shard states may be collected

    Models [src/internal_db/state_gc_resolver.rs].  The resolver follows the oldest
    masterchain block that the current state refers to, and the top blocks of the
    shards in that block.  What the engine loads is a parameter: [min_ref] is the
    [min_ref_mc_seqno] of a masterchain state, [top_blocks] are the top shard
    blocks of the masterchain block with a sequence number; [None] is an error.
    The map is visited in some order, here a list of its pairs. *)

From S2P Require Import Prelude BlockId.

Section resolver.
Context {I : ShardIdents}.

Record AllowStateGcSmartResolver := {
  last_processed_block : N;
  min_ref_mc_block : N;
  min_actual_ss : gmap ShardIdent N;
}.
Implicit Types (self : AllowStateGcSmartResolver) (id : BlockIdExt).

Definition AllowStateGcSmartResolver_new : AllowStateGcSmartResolver :=
  {| last_processed_block := 0; min_ref_mc_block := 0; min_actual_ss := ∅ |}.

(** The closure of [add_object_to_map_with_update] for a top block. *)
Definition update_shard (m : gmap ShardIdent N) id : gmap ShardIdent N :=
  match m !! shard_id id with
  | Some old => <[shard_id id := N.max old (seq_no id)]> m
  | None => <[shard_id id := seq_no id]> m
  end.

Definition advance self (mc_block_id : BlockIdExt) (min_ref : BlockIdExt → option N) (top_blocks : N → option (list BlockIdExt))
  : option unit * AllowStateGcSmartResolver :=
  let seqno := seq_no mc_block_id in
  if seqno <=? last_processed_block self then (Some (), self) else
  let self := {| last_processed_block := seqno; min_ref_mc_block := min_ref_mc_block self; min_actual_ss := min_actual_ss self |} in
  match min_ref mc_block_id with
  | None => (None, self)
  | Some new_min_ref_mc_seqno =>
      let old_min_ref_mc_seqno := min_ref_mc_block self in
      let self := {| last_processed_block := last_processed_block self;
                     min_ref_mc_block := N.max old_min_ref_mc_seqno new_min_ref_mc_seqno;
                     min_actual_ss := min_actual_ss self |} in
      if old_min_ref_mc_seqno <? new_min_ref_mc_seqno then
        match top_blocks new_min_ref_mc_seqno with
        | None => (None, self)
        | Some ids =>
            let m := foldl update_shard (min_actual_ss self) ids in
            let actual_shardes := list_to_set (C := gset ShardIdent) (shard_id <$> ids) in
            (Some (), {| last_processed_block := last_processed_block self; min_ref_mc_block := min_ref_mc_block self;
                         min_actual_ss := filter (λ kv, kv.1 ∈ actual_shardes) m |})
        end
      else (Some (), self)
  end.

(** [allow_state_gc], the pairs of the map in the order they are visited. *)
Definition resolver_allow_state_gc self (pairs : list (ShardIdent * N)) id : bool :=
  if is_masterchain id then
    if negb (seq_no id =? 0) then seq_no id <? min_ref_mc_block self else false
  else
    match min_actual_ss self !! shard_id id with
    | Some min_actual => seq_no id <? min_actual
    | None =>
        match find (λ kv, intersect_with (shard_id id) kv.1) pairs with
        | Some (_, min_actual) => seq_no id <? min_actual
        | None => false
        end
    end.

(** ** The resolver over time *)

(** What was reported: the values of [min_ref] and the top blocks of masterchain
    blocks. *)
Record Reports := { re_min_refs : list N; re_tops : list (N * list BlockIdExt) }.

Inductive resolver_reachable : AllowStateGcSmartResolver → Reports → Prop :=
| resolver_init : resolver_reachable AllowStateGcSmartResolver_new {| re_min_refs := []; re_tops := [] |}
| resolver_next self reports mc_block_id min_ref top_blocks res self' :
    resolver_reachable self reports → advance self mc_block_id min_ref top_blocks = (res, self') →
    resolver_reachable self'
      {| re_min_refs := match min_ref mc_block_id with Some n => n :: re_min_refs reports | None => re_min_refs reports end;
         re_tops := match min_ref mc_block_id with
                    | Some n => match top_blocks n with Some ids => (n, ids) :: re_tops reports | None => re_tops reports end
                    | None => re_tops reports
                    end |}.

(** The recorded values were reported. *)
Record resolver_ok self (reports : Reports) : Prop := {
  ro_min_ref : min_ref_mc_block self ≠ 0 → min_ref_mc_block self ∈ re_min_refs reports;
  ro_shards s n : min_actual_ss self !! s = Some n →
    ∃ mc ids id, (mc, ids) ∈ re_tops reports ∧ id ∈ ids ∧ shard_id id = s ∧ seq_no id = n;
}.

Lemma update_shard_ok (P : ShardIdent → N → Prop) m ids :
  (∀ s n, m !! s = Some n → P s n) → (∀ id, id ∈ ids → P (shard_id id) (seq_no id)) →
  ∀ s n, foldl update_shard m ids !! s = Some n → P s n.
Proof.
  revert m. induction ids as [|id ids IH]; intros m Hm Hids; [done|]. cbn [foldl]. apply IH; [|intros; apply Hids; set_solver].
  intros s n. unfold update_shard. destruct (m !! shard_id id) as [old|] eqn:E;
    intros [[<- <-]|[_ Hs]]%lookup_insert_Some; [|by apply Hm|apply Hids; set_solver|by apply Hm].
  destruct (N.max_spec old (seq_no id)) as [[_ ->]|[_ ->]]; [apply Hids; set_solver|by apply Hm].
Qed.

Lemma resolver_reachable_ok self reports : resolver_reachable self reports → resolver_ok self reports.
Proof.
  induction 1 as [|self reports mc min_ref tops res self' _ [IH1 IH2] Hadv].
  { split; [done|]. intros s n. cbn [AllowStateGcSmartResolver_new min_actual_ss]. by rewrite lookup_empty. }
  set (reports' := {| re_min_refs := _; re_tops := _ |}).
  assert (Hmono : (∀ n, n ∈ re_min_refs reports → n ∈ re_min_refs reports') ∧ (∀ p, p ∈ re_tops reports → p ∈ re_tops reports')).
  { split; intros ?; cbn [reports' re_min_refs re_tops]; destruct (min_ref mc) as [k|]; try done; [set_solver|].
    destruct (tops k); set_solver. }
  destruct Hmono as [Hm1 Hm2].
  assert (Hold : ∀ s n, min_actual_ss self !! s = Some n →
    ∃ mc ids id, (mc, ids) ∈ re_tops reports' ∧ id ∈ ids ∧ shard_id id = s ∧ seq_no id = n).
  { intros s n (mc' & ids & id & ? & ?)%IH2. exists mc', ids, id. auto. }
  unfold advance in Hadv. destruct (seq_no mc <=? last_processed_block self); [injection Hadv as _ <-; split; auto|].
  destruct (min_ref mc) as [n|] eqn:En; [|injection Hadv as _ <-; split; simpl; auto]. cbn [min_ref_mc_block] in Hadv.
  assert (Hmin : N.max (min_ref_mc_block self) n ≠ 0 → N.max (min_ref_mc_block self) n ∈ re_min_refs reports').
  { cbn [reports' re_min_refs]. rewrite elem_of_cons. destruct (N.max_spec (min_ref_mc_block self) n) as [[_ ->]|[_ ->]]; auto. }
  destruct (min_ref_mc_block self <? n); [|injection Hadv as _ <-; split; simpl; auto].
  destruct (tops n) as [ids|] eqn:Et; injection Hadv as _ <-; split; cbn [min_ref_mc_block min_actual_ss]; auto.
  intros s k [Hs _]%map_lookup_filter_Some. revert s k Hs.
  apply (update_shard_ok (λ s k, ∃ mc ids id, (mc, ids) ∈ re_tops reports' ∧ id ∈ ids ∧ shard_id id = s ∧ seq_no id = k)); [done|].
  intros id Hid. exists n, ids, id. split_and!; [|done..]. cbn [reports' re_tops]. set_solver.
Qed.

Lemma resolver_safe self reports pairs id :
  resolver_reachable self reports → pairs ≡ₚ map_to_list (min_actual_ss self) →
  resolver_allow_state_gc self pairs id = true →
  if is_masterchain id then seq_no id ≠ 0 ∧ ∃ n, n ∈ re_min_refs reports ∧ seq_no id < n
  else ∃ mc ids top, (mc, ids) ∈ re_tops reports ∧ top ∈ ids ∧ seq_no id < seq_no top ∧
       (shard_id top = shard_id id ∨ intersect_with (shard_id id) (shard_id top) = true).
Proof.
  intros [H1 H2]%resolver_reachable_ok Hp. unfold resolver_allow_state_gc. destruct (is_masterchain id).
  - destruct (N.eqb_spec (seq_no id) 0); [done|]. intros Hlt%N.ltb_lt. split; [done|]. eexists. split; [apply H1; lia|done].
  - destruct (min_actual_ss self !! shard_id id) as [n|] eqn:E.
    + intros Hlt%N.ltb_lt. destruct (H2 _ _ E) as (mc & ids & top & ? & ? & ? & <-). exists mc, ids, top. auto.
    + destruct (find _ pairs) as [[s n]|] eqn:Ef; [|done]. intros Hlt%N.ltb_lt. apply find_some in Ef as [Hin Hi].
      apply list_elem_of_In in Hin. rewrite Hp, elem_of_map_to_list in Hin.
      destruct (H2 _ _ Hin) as (mc & ids & top & ? & ? & <- & <-). exists mc, ids, top. auto.
Qed.
End resolver.
