(* ===== verification/ExtMessages.v ===== *)
(** * The pool of external messages

    Models [src/ext_messages.rs]: messages wait in a pool until a collator takes them;
    a message that was not included is postponed, a few times at most, and expires after
    ten minutes.  Whether a message is active, how often it was postponed and when it
    becomes active again are packed into one atomic word.  A call runs as one step; the
    order in which the map is iterated is an argument. *)

From S2P Require Import Prelude.

(** What [ton_block] and [ton_types] provide: the destination of a message, shards, and
    the parsing of cells. *)
Class MessageExternal := {
  ExtMessage : Type;
  ExtShard : Type;
  ExtAddress : Type;
  ExtPrefix : Type;
  ExtCell : Type;
  ext_dst_ref : ExtMessage → option ExtAddress;
  ext_prefix : ExtAddress → option ExtPrefix;
  ext_contains_full_prefix : ExtShard → ExtPrefix → bool;
  ext_deserialize_tree_of_cells : list N → option ExtCell;
  ext_level : ExtCell → N;
  ext_repr_depth : ExtCell → N;
  ext_cell_hash : ExtCell → N;
  ext_construct_message : ExtCell → option ExtMessage;
  ext_has_ext_in_header : ExtMessage → bool;
}.

Definition MESSAGE_LIFETIME : N := 600.
Definition MESSAGE_MAX_GENERATIONS : N := 2.
Definition MAX_EXTERNAL_MESSAGE_DEPTH : N := 512.
Definition MAX_EXTERNAL_MESSAGE_SIZE : N := 65535.

(** ** The packed word *)
Definition fetch_active (atomic_storage : N) : bool := negb (N.land atomic_storage 0x10000000000 =? 0).
Definition set_active (atomic_storage : N) (active : bool) : N :=
  if active then N.lor atomic_storage 0x10000000000 else N.land atomic_storage 0xffffffffff.
Definition fetch_generation (atomic_storage : N) : N := N.shiftr (N.land atomic_storage 0xff00000000) 32 mod 256.
Definition set_generation (atomic_storage generation : N) : N := N.lor (N.land atomic_storage 0x100ffffffff) (N.shiftl generation 32).
Definition fetch_reactivate_at (atomic_storage : N) : N := N.land atomic_storage 0xffffffff mod two32.
Definition set_reactivate_at (atomic_storage reactivate_at : N) : N := N.lor (N.land atomic_storage 0x1ff00000000) reactivate_at.

Section pool.
Context {M : MessageExternal}.

Record MessageKeeper := { mk_message : ExtMessage; atomic_storage : N; delete_at : N }.

Definition with_storage (self : MessageKeeper) (v : N) : MessageKeeper :=
  {| mk_message := mk_message self; atomic_storage := v; delete_at := delete_at self |}.

Definition MessageKeeper_new (message : ExtMessage) (now : N) : MessageKeeper :=
  {| mk_message := message; atomic_storage := set_active 0 true; delete_at := u32_add now MESSAGE_LIFETIME |}.

Definition check_active (self : MessageKeeper) (now : N) : bool * MessageKeeper :=
  let atomic_storage := atomic_storage self in
  let active := fetch_active atomic_storage in
  let generation := fetch_generation atomic_storage in
  let reactivate_at := fetch_reactivate_at atomic_storage in
  if negb active && (reactivate_at <=? now) then
    (true, with_storage self (set_generation (set_active atomic_storage true) ((generation + 1) mod 256)))
  else (active, self).

Definition can_postpone (self : MessageKeeper) : bool := fetch_generation (atomic_storage self) <=? MESSAGE_MAX_GENERATIONS.

Definition postpone (self : MessageKeeper) (now : N) : MessageKeeper :=
  let atomic_storage := atomic_storage self in
  if fetch_active atomic_storage then
    let generation := fetch_generation atomic_storage in
    with_storage self (set_reactivate_at (set_active atomic_storage false) (u32_add now (u32_mul generation 5)))
  else self.

Definition expired (self : MessageKeeper) (now : N) : bool := delete_at self <=? now.

(** ** The pool *)
Abbreviation MessagesPool := (gmap N MessageKeeper).
Implicit Types (self : MessagesPool) (id now : N).

Definition new_message self id (message : ExtMessage) now : MessagesPool :=
  match self !! id with Some _ => self | None => <[id := MessageKeeper_new message now]> self end.

Definition create_ext_message (data : list N) : option (N * ExtMessage) :=
  if MAX_EXTERNAL_MESSAGE_SIZE <? N.of_nat (length data) then None else
  root ← ext_deserialize_tree_of_cells data;
  if negb (ext_level root =? 0) then None else
  if MAX_EXTERNAL_MESSAGE_DEPTH <=? ext_repr_depth root then None else
  message ← ext_construct_message root;
  if ext_has_ext_in_header message then Some (ext_cell_hash root, message) else None.

Definition new_message_raw self (data : list N) now : option N * MessagesPool :=
  match create_ext_message data with
  | None => (None, self)
  | Some (id, message) => (Some id, new_message self id message now)
  end.

(** The message is for an account of the shard. *)
Definition in_shard (shard : ExtShard) (message : ExtMessage) : bool :=
  match ext_dst_ref message with
  | None => false
  | Some dst => match ext_prefix dst with None => false | Some prefix => ext_contains_full_prefix shard prefix end
  end.

Fixpoint get_messages_loop (shard : ExtShard) now (order : list N) self : list (ExtMessage * N) * MessagesPool :=
  match order with
  | [] => ([], self)
  | id :: order' =>
      match self !! id with
      | None => get_messages_loop shard now order' self
      | Some keeper =>
          if negb (in_shard shard (mk_message keeper)) then get_messages_loop shard now order' self
          else if expired keeper now then get_messages_loop shard now order' (delete id self)
          else
            let '(active, keeper') := check_active keeper now in
            let '(rest, self') := get_messages_loop shard now order' (<[id := keeper']> self) in
            (if (active : bool) then (mk_message keeper, id) :: rest else rest, self')
      end
  end.

(** [order] lists the keys of the map as the iterator visits them. *)
Definition get_messages self (shard : ExtShard) now (order : list N) : list (ExtMessage * N) * MessagesPool := get_messages_loop shard now order self.

Definition delay_message now self id : MessagesPool :=
  match self !! id with
  | None => self
  | Some keeper => if can_postpone keeper then <[id := postpone keeper now]> self else delete id self
  end.

Definition complete_messages self (to_delay to_delete : list N) now : MessagesPool :=
  foldl (delay_message now) (foldl (λ pool id, delete id pool) self to_delete) to_delay.
End pool.

(** ** The word as three fields *)
Definition pack (active : bool) (generation reactivate_at : N) : N := N.lor (N.lor reactivate_at (N.shiftl generation 32)) (if active then 0x10000000000 else 0).

Definition pack_bit (active : bool) (generation reactivate_at n : N) : bool :=
  if n <? 32 then N.testbit reactivate_at n else if n <? 40 then N.testbit generation (n - 32) else active && (n =? 40).

Lemma small_bits_above (x k n : N) : x < 2 ^ k → k ≤ n → N.testbit x n = false.
Proof. intros H Hk. rewrite <- (N.mod_small x (2 ^ k)) by done. by apply N.mod_pow2_bits_high. Qed.

Lemma active_mask_bits n : N.testbit 0x10000000000 n = (n =? 40).
Proof. change 0x10000000000 with (2 ^ 40). rewrite N.pow2_bits_eqb. apply N.eqb_sym. Qed.

Lemma low_mask_bits k n : N.testbit (N.ones k) n = (n <? k).
Proof. destruct (n <? k) eqn:E; breflect; [by apply N.ones_spec_low|by apply N.ones_spec_high]. Qed.

Lemma shifted_bits x k n : N.testbit (N.shiftl x k) n = negb (n <? k) && N.testbit x (n - k).
Proof. destruct (n <? k) eqn:E; breflect; simpl; [by apply N.shiftl_spec_low|by apply N.shiftl_spec_high']. Qed.

Lemma pack_bits a g r n : g < 256 → r < two32 → N.testbit (pack a g r) n = pack_bit a g r n.
Proof.
  intros Hg Hr. unfold pack, pack_bit. rewrite !N.lor_spec, shifted_bits.
  replace (N.testbit (if a then 0x10000000000 else 0) n) with (a && (n =? 40)) by (destruct a; [by rewrite active_mask_bits|by rewrite N.bits_0]).
  destruct (n <? 32) eqn:E32; breflect.
  - rewrite (proj2 (N.eqb_neq n 40)) by lia. by rewrite andb_false_r, !orb_false_r.
  - rewrite (small_bits_above r 32) by done. destruct (n <? 40) eqn:E40; breflect; simpl.
    + rewrite (proj2 (N.eqb_neq n 40)) by lia. by rewrite andb_false_r, orb_false_r.
    + by rewrite (small_bits_above g 8) by (done || lia).
Qed.

(** Compare words bit by bit; the masks are runs of ones. *)
Ltac by_bits :=
  apply N.bits_inj; intros n;
  repeat first [rewrite N.lor_spec|rewrite N.land_spec|rewrite shifted_bits|rewrite active_mask_bits|rewrite low_mask_bits|rewrite pack_bits by assumption|rewrite N.bits_0];
  unfold pack_bit; destruct (n <? 32) eqn:E32; [|destruct (n <? 40) eqn:E40]; breflect;
  repeat match goal with
  | |- context [?x <? ?y] => first [rewrite (proj2 (N.ltb_lt x y)) by lia|rewrite (proj2 (N.ltb_ge x y)) by lia]
  | |- context [n =? 40] => rewrite (proj2 (N.eqb_neq n 40)) by lia
  end; rewrite ?andb_false_r, ?andb_true_r, ?orb_false_r; try done.

Section fields.
Context (a : bool) (g r : N) (Hg : g < 256) (Hr : r < two32).

Lemma pack_set_active b : set_active (pack a g r) b = pack b g r.
Proof using Hg Hr.
  destruct b; simpl; [by_bits; destruct a; simpl; by rewrite ?orb_diag|]. change 0xffffffffff with (N.ones 40). by_bits. 
Qed.

Lemma pack_set_generation g' : g' < 256 → set_generation (pack a g r) g' = pack a g' r.
Proof using Hg Hr.
  intros Hg'. unfold set_generation. change 0x100ffffffff with (N.lor (N.ones 32) 0x10000000000). by_bits.
  - destruct a; simpl; destruct (n =? 40) eqn:E; simpl; try done; by rewrite (small_bits_above g' 8) by (done || lia).
Qed.

Lemma pack_set_reactivate_at r' : r' < two32 → set_reactivate_at (pack a g r) r' = pack a g r'.
Proof using Hg Hr.
  intros Hr'. unfold set_reactivate_at. change 0x1ff00000000 with (N.shiftl (N.ones 9) 32). by_bits.
  - by rewrite (small_bits_above r' 32), orb_false_r by (done || lia).
  - rewrite (small_bits_above r' 32), orb_false_r by (done || lia). destruct (n =? 40) eqn:E; breflect; [subst n; by rewrite !andb_true_r|by rewrite andb_false_r].
Qed.

Lemma pack_fetch_active : fetch_active (pack a g r) = a.
Proof using Hg Hr.
  unfold fetch_active. replace (N.land (pack a g r) 0x10000000000) with (if a then 0x10000000000 else 0); [by destruct a|].
  destruct a; by_bits. all: simpl; by rewrite ?andb_diag.
Qed.

Lemma pack_fetch_generation : fetch_generation (pack a g r) = g.
Proof using Hg Hr.
  unfold fetch_generation. replace (N.land (pack a g r) 0xff00000000) with (N.shiftl g 32).
  - rewrite N.shiftr_shiftl_l, N.sub_diag, N.shiftl_0_r by done. by apply N.mod_small.
  - change 0xff00000000 with (N.shiftl (N.ones 8) 32). by_bits. rewrite (small_bits_above g 8) by (done || lia).
    by rewrite ?andb_false_r.
Qed.

Lemma pack_fetch_reactivate_at : fetch_reactivate_at (pack a g r) = r.
Proof using Hg Hr.
  unfold fetch_reactivate_at. replace (N.land (pack a g r) 0xffffffff) with r; [by apply N.mod_small|].
  change 0xffffffff with (N.ones 32). by_bits. all: apply (small_bits_above r 32); [done|lia].
Qed.
End fields.

(** ** Facts about the pool of external messages

    The packed word of every message stays within its fields, a message is postponed at
    most three times, and a call of [get_messages] offers exactly the messages that are
    due. *)

Section facts.
Context {M : MessageExternal}.
Implicit Types (self : gmap N MessageKeeper) (k : MessageKeeper) (id now : N).

(** How often a message was postponed. *)
Definition postponed_times k : N := fetch_generation (atomic_storage k) + if fetch_active (atomic_storage k) then 0 else 1.

Record keeper_ok k : Prop := {
  ko_word : ∃ a g r, atomic_storage k = pack a g r ∧ g < 256 ∧ r < two32;
  ko_times : postponed_times k ≤ 3;
}.

Ltac unpack H :=
  let E := fresh "E" in let Hg := fresh "Hg" in let Hr := fresh "Hr" in
  destruct (ko_word _ H) as (?a & ?g & ?r & E & Hg & Hr).

Lemma new_keeper_ok message now : keeper_ok (MessageKeeper_new message now).
Proof. split; [exists true, 0, 0; by vm_compute|by vm_compute]. Qed.

(** Reading a message may reactivate it; it is not postponed by that. *)
Lemma check_active_ok k now : keeper_ok k → keeper_ok (check_active k now).2 ∧ postponed_times (check_active k now).2 = postponed_times k.
Proof.
  intros H. unpack H. pose proof (ko_times _ H) as Ht. unfold check_active, postponed_times in *.
  rewrite E in *. rewrite !pack_fetch_active, !pack_fetch_generation, pack_fetch_reactivate_at in * by done.
  destruct (negb a && (r <=? now)) eqn:Ea; cbn [snd fst]; [|by rewrite E, pack_fetch_active, pack_fetch_generation].
  breflect. subst a. rewrite pack_set_active by done. assert ((g + 1) mod 256 = g + 1) as -> by (apply N.mod_small; lia).
  rewrite pack_set_generation by (done || lia). cbn [atomic_storage with_storage]. split; [|rewrite pack_fetch_active, pack_fetch_generation by (done || lia); lia].
  split; [exists true, (g + 1), r; split; [done|split; [lia|done]]|]. unfold postponed_times. simpl. rewrite pack_fetch_active, pack_fetch_generation by (done || lia). lia.
Qed.

(** Delaying a message. *)
Lemma postpone_spec k now : keeper_ok k → can_postpone k = true → fetch_active (atomic_storage k) = true →
  keeper_ok (postpone k now) ∧ postponed_times (postpone k now) = postponed_times k + 1
  ∧ fetch_active (atomic_storage (postpone k now)) = false ∧ fetch_reactivate_at (atomic_storage (postpone k now)) = u32_add now (5 * postponed_times k).
Proof.
  intros H Hc Ha. unpack H. unfold can_postpone, postpone, postponed_times in *. rewrite E in *.
  rewrite !pack_fetch_active, ?pack_fetch_generation in * by done. subst a. breflect. unfold MESSAGE_MAX_GENERATIONS in Hc.
  assert (u32_mul g 5 = 5 * (g + 0)) as -> by (unfold u32_mul; rewrite N.mod_small; unfold two32; lia).
  assert (u32_add now (5 * (g + 0)) < two32) as Hlt by (apply N.mod_lt; done).
  rewrite pack_set_active by done. rewrite pack_set_reactivate_at by done. simpl. rewrite pack_fetch_active, pack_fetch_generation, pack_fetch_reactivate_at by done.
  split; [|split; [lia|done]]. split; [by eexists _, _, _|]. unfold postponed_times. simpl. rewrite pack_fetch_active, pack_fetch_generation by done. lia.
Qed.

(** ** Calls *)
Inductive PoolCall :=
| CallNew (id : N) (message : ExtMessage) (now : N)
| CallGet (shard : ExtShard) (now : N) (order : list N)
| CallComplete (to_delay to_delete : list N) (now : N).

Definition pool_call self (c : PoolCall) : gmap N MessageKeeper :=
  match c with
  | CallNew id message now => new_message self id message now
  | CallGet shard now order => (get_messages self shard now order).2
  | CallComplete to_delay to_delete now => complete_messages self to_delay to_delete now
  end.

Inductive pool_reachable : gmap N MessageKeeper → Prop :=
| pool_empty : pool_reachable ∅
| pool_step self c : pool_reachable self → pool_reachable (pool_call self c).

Definition pool_ok self : Prop := map_Forall (λ _, keeper_ok) self.

Lemma get_loop_pool_ok shard now order self : pool_ok self → pool_ok (get_messages_loop shard now order self).2.
Proof.
  revert self. induction order as [|id order IH]; intros self H; simpl; [done|]. destruct (self !! id) as [k|] eqn:Hk; [|by apply IH].
  destruct (negb _); [by apply IH|]. destruct (expired k now); [by apply IH, map_Forall_delete|].
  destruct (check_active k now) as [act k'] eqn:Ec. assert (pool_ok (<[id:=k']> self)) as H'.
  { apply map_Forall_insert_2; [|done]. pose proof (check_active_ok k now (H id k Hk)) as [Ho _]. by rewrite Ec in Ho. }
  specialize (IH _ H'). by destruct (get_messages_loop shard now order (<[id:=k']> self)) as [rest self'].
Qed.

Lemma delay_message_pool_ok now self id : pool_ok self → pool_ok (delay_message now self id).
Proof.
  intros H. unfold delay_message. destruct (self !! id) as [k|] eqn:Hk; [|done]. destruct (can_postpone k) eqn:Hc; [|by apply map_Forall_delete].
  apply map_Forall_insert_2; [|done]. pose proof (H id k Hk) as Ho. destruct (fetch_active (atomic_storage k)) eqn:Ha; [by apply postpone_spec|].
  unfold postpone. by rewrite Ha.
Qed.

Lemma pool_reachable_ok self : pool_reachable self → pool_ok self.
Proof.
  induction 1 as [|self c _ IH]; [apply map_Forall_empty|]. destruct c; simpl.
  - unfold new_message. destruct (self !! id); [done|]. apply map_Forall_insert_2; [apply new_keeper_ok|done].
  - by apply get_loop_pool_ok.
  - unfold complete_messages. assert (pool_ok (foldl (λ pool id, delete id pool) self to_delete)) as H.
    { revert self IH. induction to_delete as [|id l IHl]; intros self IH; simpl; [done|]. by apply IHl, map_Forall_delete. }
    revert H. generalize (foldl (λ pool id, delete id pool) self to_delete). induction to_delay as [|id l IHl]; intros pool H; simpl; [done|].
    by apply IHl, delay_message_pool_ok.
Qed.

(** ** What is offered *)

(** The message is offered to the collator of the shard. *)
Definition due (shard : ExtShard) now k : bool := in_shard shard (mk_message k) && negb (expired k now) && (check_active k now).1.

(** What is left of a message after it was visited. *)
Definition visited (shard : ExtShard) now k : option MessageKeeper :=
  if negb (in_shard shard (mk_message k)) then Some k else if expired k now then None else Some (check_active k now).2.

Lemma get_loop_spec shard now order self res self' : NoDup order → get_messages_loop shard now order self = (res, self') →
  (∀ id, self' !! id = if decide (id ∈ order) then self !! id ≫= visited shard now else self !! id)
  ∧ ∀ message id, (message, id) ∈ res ↔ id ∈ order ∧ ∃ k, self !! id = Some k ∧ mk_message k = message ∧ due shard now k = true.
Proof.
  revert self res self'. induction order as [|i order IH]; intros self res self' Hn H; simpl in H.
  { injection H as <- <-. split; [intros id; by rewrite decide_False by set_solver|]. intros. set_solver. }
  apply list.NoDup_cons in Hn as [Hi Hn].
  (* one visit changes the entry of [i] only *)
  assert (∀ self1 rest, (∀ id, id ≠ i → self1 !! id = self !! id) → self1 !! i = self !! i ≫= visited shard now →
    (∀ message id, (message, id) ∈ res ↔ (message, id) ∈ rest ∨ id = i ∧ ∃ k, self !! i = Some k ∧ mk_message k = message ∧ due shard now k = true) →
    get_messages_loop shard now order self1 = (rest, self') →
    (∀ id, self' !! id = if decide (id ∈ i :: order) then self !! id ≫= visited shard now else self !! id)
    ∧ ∀ message id, (message, id) ∈ res ↔ id ∈ i :: order ∧ ∃ k, self !! id = Some k ∧ mk_message k = message ∧ due shard now k = true) as K.
  { intros self1 rest Hother Hself Hres Hl. destruct (IH _ _ _ Hn Hl) as [A B]. split.
    - intros id. rewrite A. destruct (decide (id = i)) as [->|Hne].
      + by rewrite decide_False, decide_True by set_solver.
      + rewrite Hother by done. destruct (decide (id ∈ order)); [by rewrite decide_True by set_solver|by rewrite decide_False by set_solver].
    - intros message id. rewrite Hres, B. split.
      + intros [(Hin & k & Hk & Hm)|(-> & k & Hk)]; [|set_solver]. rewrite Hother in Hk by (intros ->; done). set_solver.
      + intros (Hin & k & Hk & Hm). apply elem_of_cons in Hin as [->|Hin]; [right; eauto|]. left. split; [done|]. exists k. rewrite Hother by (intros ->; done). done. }
  destruct (self !! i) as [k|] eqn:Hk; [|apply (K self res); [done|by rewrite ?Hk|rewrite ?Hk; intros message id; split; [by left|]; by intros [?|(_ & k0 & ? & _)]|exact H]].
  destruct (in_shard shard (mk_message k)) eqn:Hs; simpl in H.
  2: { apply (K self res); [done|rewrite ?Hk; simpl; unfold visited; by rewrite Hs| |exact H]. rewrite ?Hk. intros message id; split; [by left|]; intros [?|(-> & k0 & [= <-] & _ & Hdue)]; [done|]; unfold due in Hdue; rewrite ?Hs, ?He in Hdue; done. }
  destruct (expired k now) eqn:He.
  { apply (K (delete i self) res); [by intros id Hne; rewrite lookup_delete_ne|rewrite lookup_delete_eq, ?Hk; simpl; unfold visited; by rewrite Hs, He| |exact H].
    rewrite ?Hk. intros message id; split; [by left|]; intros [?|(-> & k0 & [= <-] & _ & Hdue)]; [done|]; unfold due in Hdue; rewrite ?Hs, ?He in Hdue; done. }
  destruct (check_active k now) as [act k'] eqn:Ec. destruct (get_messages_loop shard now order (<[i:=k']> self)) as [rest pool] eqn:El. injection H as <- <-.
  apply (K (<[i:=k']> self) rest); [by intros id Hne; rewrite lookup_insert_ne|rewrite lookup_insert_eq, ?Hk; simpl; unfold visited; by rewrite Hs, He, Ec| |exact El].
  intros message id. rewrite ?Hk. assert (due shard now k = act) as Hdue by (unfold due; by rewrite Hs, He, Ec). destruct act.
  - rewrite elem_of_cons. split.
    + intros [[= -> ->]|?]; [right; eauto|by left].
    + intros [?|(-> & k0 & [= <-] & <- & _)]; [by right|by left].
  - split; [by left|]. intros [?|(_ & k0 & [= <-] & _ & Hd)]; [done|congruence].
Qed.
End facts.
