(* ===== verification/Neighbours.v ===== *)
(** * Neighbours in an overlay

    Models [src/network/neighbours.rs]: at most sixteen peers of an overlay with their
    statistics, the choice of a peer for a query, the replacement of peers and the
    choice of the next peer to ping.  Keys are numbers.  The two maps of the cache are
    finite maps and a call runs as one step.  [rng.gen_range(0, n)] takes the next number
    of a list of draws modulo [n].  The statistics are [f64] values, computed as
    [binary64] numbers. *)

From Stdlib Require Import SpecFloat.
From S2P Require Import Prelude.

(** ** One neighbour *)
Record Neighbour := {
  nb_id : N;
  nb_last_ping : N;
  nb_proto_version : Z;
  nb_capabilities : Z;
  nb_roundtrip_adnl : N;
  nb_roundtrip_rldp : N;
  nb_all_attempts : N;
  nb_fail_attempts : N;
  nb_fines_points : N;
  nb_active_check : bool;
  nb_unreliability : Z;
}.

Definition PROTOCOL_CAPABILITIES : Z := 1.
Definition PROTOCOL_VERSION : Z := 2.
Definition STOP_UNRELIABILITY : Z := 5.
Definition FAIL_UNRELIABILITY : Z := 10.
Definition FINES_POINTS_COUNT : N := 100.
Definition MAX_NEIGHBOURS : N := 16.

Definition Neighbour_new (id : N) : Neighbour :=
  {| nb_id := id; nb_last_ping := 0; nb_proto_version := 0; nb_capabilities := 0; nb_roundtrip_adnl := 0; nb_roundtrip_rldp := 0;
     nb_all_attempts := 0; nb_fail_attempts := 0; nb_fines_points := 0; nb_active_check := false; nb_unreliability := 0 |}.

Definition i32_wrap (z : Z) : Z := u32_as_i32 (i32_as_u32 z).

Section neighbour.
Implicit Types (self : Neighbour).

Definition with_roundtrip self (is_rldp : bool) (v : N) : Neighbour :=
  {| nb_id := nb_id self; nb_last_ping := nb_last_ping self; nb_proto_version := nb_proto_version self; nb_capabilities := nb_capabilities self;
     nb_roundtrip_adnl := if is_rldp then nb_roundtrip_adnl self else v; nb_roundtrip_rldp := if is_rldp then v else nb_roundtrip_rldp self;
     nb_all_attempts := nb_all_attempts self; nb_fail_attempts := nb_fail_attempts self; nb_fines_points := nb_fines_points self;
     nb_active_check := nb_active_check self; nb_unreliability := nb_unreliability self |}.
Definition with_unreliability self (v : Z) : Neighbour :=
  {| nb_id := nb_id self; nb_last_ping := nb_last_ping self; nb_proto_version := nb_proto_version self; nb_capabilities := nb_capabilities self;
     nb_roundtrip_adnl := nb_roundtrip_adnl self; nb_roundtrip_rldp := nb_roundtrip_rldp self;
     nb_all_attempts := nb_all_attempts self; nb_fail_attempts := nb_fail_attempts self; nb_fines_points := nb_fines_points self;
     nb_active_check := nb_active_check self; nb_unreliability := v |}.
Definition with_statistics self (all fail fines : N) (check : bool) : Neighbour :=
  {| nb_id := nb_id self; nb_last_ping := nb_last_ping self; nb_proto_version := nb_proto_version self; nb_capabilities := nb_capabilities self;
     nb_roundtrip_adnl := nb_roundtrip_adnl self; nb_roundtrip_rldp := nb_roundtrip_rldp self;
     nb_all_attempts := all; nb_fail_attempts := fail; nb_fines_points := fines; nb_active_check := check; nb_unreliability := nb_unreliability self |}.

Definition update_proto_version self (version capabilities : Z) : Neighbour :=
  {| nb_id := nb_id self; nb_last_ping := nb_last_ping self; nb_proto_version := version; nb_capabilities := capabilities;
     nb_roundtrip_adnl := nb_roundtrip_adnl self; nb_roundtrip_rldp := nb_roundtrip_rldp self;
     nb_all_attempts := nb_all_attempts self; nb_fail_attempts := nb_fail_attempts self; nb_fines_points := nb_fines_points self;
     nb_active_check := nb_active_check self; nb_unreliability := nb_unreliability self |}.
Definition set_last_ping self (elapsed : N) : Neighbour :=
  {| nb_id := nb_id self; nb_last_ping := elapsed; nb_proto_version := nb_proto_version self; nb_capabilities := nb_capabilities self;
     nb_roundtrip_adnl := nb_roundtrip_adnl self; nb_roundtrip_rldp := nb_roundtrip_rldp self;
     nb_all_attempts := nb_all_attempts self; nb_fail_attempts := nb_fail_attempts self; nb_fines_points := nb_fines_points self;
     nb_active_check := nb_active_check self; nb_unreliability := nb_unreliability self |}.

(** The mean of the old and the new time. *)
Definition set_roundtrip (roundtrip_old roundtrip : N) : N := if 0 <? roundtrip_old then u64_add roundtrip_old roundtrip / 2 else roundtrip.
Definition update_roundtrip self (is_rldp : bool) (roundtrip : N) : Neighbour :=
  with_roundtrip self is_rldp (set_roundtrip (if is_rldp then nb_roundtrip_rldp self else nb_roundtrip_adnl self) roundtrip).

Definition query_success self (roundtrip : N) (is_rldp : bool) : Neighbour :=
  let old_un := nb_unreliability self in
  update_roundtrip (if (0 <? old_un)%Z then with_unreliability self (old_un - 1) else self) is_rldp roundtrip.

Definition query_failed self (roundtrip : N) (is_rldp : bool) : Neighbour :=
  update_roundtrip (with_unreliability self (i32_wrap (nb_unreliability self + 1))) is_rldp roundtrip.
End neighbour.

(** ** The cache *)
Record NeighboursCache := {
  nc_count : N;
  nc_next : N;
  nc_indices : gmap N N;
  nc_values : gmap N Neighbour;
}.

Section cache.
Implicit Types (self : NeighboursCache) (peer : N).

Definition with_next self (next : N) : NeighboursCache :=
  {| nc_count := nc_count self; nc_next := next; nc_indices := nc_indices self; nc_values := nc_values self |}.
Definition with_value self peer (v : Neighbour) : NeighboursCache :=
  {| nc_count := nc_count self; nc_next := nc_next self; nc_indices := nc_indices self; nc_values := <[peer := v]> (nc_values self) |}.

Definition cache_contains self peer : bool := bool_decide (is_Some (nc_values self !! peer)).

(** The result is an error ([None]) or tells whether the peer is new. *)
Definition insert_ex self peer (silent_insert : bool) : option bool * NeighboursCache :=
  if negb silent_insert && (MAX_NEIGHBOURS <=? nc_count self) then (None, self) else
  match nc_values self !! peer with
  | Some _ => (Some false, self)
  | None =>
      let self := with_value self peer (Neighbour_new peer) in
      if silent_insert then (Some true, self)
      else (Some true, {| nc_count := u32_add (nc_count self) 1; nc_next := nc_next self;
                          nc_indices := <[nc_count self := peer]> (nc_indices self); nc_values := nc_values self |})
  end.

Definition get_index self peer : option N :=
  fst <$> List.find (λ entry : N * N, entry.2 =? peer) (map_to_list (nc_indices self)).

Definition replace self (old new : N) : option bool * NeighboursCache :=
  match get_index self old with
  | None => (None, self)
  | Some index =>
      match insert_ex self new true with
      | (Some true, self) =>
          (Some true, {| nc_count := nc_count self; nc_next := nc_next self;
                         nc_indices := <[index := new]> (nc_indices self); nc_values := delete old (nc_values self) |})
      | r => r
      end
  end.

(** The iterator goes from index to index while there is a neighbour. *)
Fixpoint iterate (fuel : nat) self (current : N) : list Neighbour :=
  match fuel with
  | O => []
  | S fuel' =>
      match nc_indices self !! current with
      | None => []
      | Some key_id => match nc_values self !! key_id with None => [] | Some neighbour => neighbour :: iterate fuel' self (current + 1) end
      end
  end.
Definition get_iter self : list Neighbour := iterate (S (size (nc_indices self))) self 0.

Fixpoint insert_start (peers : list N) (index : N) self : option NeighboursCache :=
  match peers with
  | [] => Some self
  | peer :: peers' =>
      if index <? MAX_NEIGHBOURS then
        match insert_ex self peer false with (None, _) => None | (Some _, self) => insert_start peers' (index + 1) self end
      else insert_start peers' index self
  end.
Definition NeighboursCache_new (start_peers : list N) : option NeighboursCache :=
  insert_start start_peers 0 {| nc_count := 0; nc_next := 0; nc_indices := ∅; nc_values := ∅ |}.

(** [next_for_ping]: an error, no neighbour or a neighbour; out of fuel is a loop that
    does not end. *)
Inductive PingResult := PingError | PingFuel | PingNone | PingFound (neighbour : Neighbour).

Definition u64_sub (a b : N) : N := (a + two64 - b) mod two64.

Definition found (ret : option Neighbour) : PingResult := match ret with Some neighbour => PingFound neighbour | None => PingNone end.

Fixpoint ping_loop (fuel : nat) self (elapsed next started_from : N) (ret : option Neighbour) : PingResult * NeighboursCache :=
  match fuel with
  | O => (PingFuel, self)
  | S fuel' =>
      match nc_indices self !! next with
      | None => (PingError, self)
      | Some key_id =>
          match nc_values self !! key_id with
          | None => ping_loop fuel' self elapsed next started_from ret
          | Some neighbour =>
              let next := if u32_sub (nc_count self) 1 <=? next then 0 else next + 1 in
              let self := with_next self next in
              if u64_sub elapsed (nb_last_ping neighbour) <? 1000 then
                if next =? started_from then (found ret, self)
                else match ret with
                     | Some ret' => if nb_last_ping ret' <=? nb_last_ping neighbour then ping_loop fuel' self elapsed next started_from ret
                                    else (PingFound neighbour, self)
                     | None => (PingFound neighbour, self)
                     end
              else (PingFound neighbour, self)
          end
      end
  end.
Definition next_for_ping (fuel : nat) self (elapsed : N) : PingResult * NeighboursCache :=
  ping_loop fuel self elapsed (nc_next self) (nc_next self) None.
End cache.

(** ** All neighbours of an overlay *)
Record Neighbours := {
  ns_peers : NeighboursCache;
  ns_all_peers : gset N;
  ns_fail_attempts : N;
  ns_all_attempts : N;
  ns_deleted : list N;
}.

(** [rng.gen_range(0, bound)] *)
Definition gen_range (bound : N) (draws : list N) : N * list N :=
  match draws with [] => (0, []) | r :: draws => (r mod bound, draws) end.

Section neighbours.
Implicit Types (self : Neighbours) (peer : N).

Definition with_peers self (peers : NeighboursCache) : Neighbours :=
  {| ns_peers := peers; ns_all_peers := ns_all_peers self; ns_fail_attempts := ns_fail_attempts self; ns_all_attempts := ns_all_attempts self;
     ns_deleted := ns_deleted self |}.

Definition add self peer : option bool * Neighbours :=
  if MAX_NEIGHBOURS <=? nc_count (ns_peers self) then (Some false, self)
  else let '(r, peers) := insert_ex (ns_peers self) peer false in (r, with_peers self peers).

Definition contains_overlay_peer self peer : bool := bool_decide (peer ∈ ns_all_peers self).
Definition with_all_peers self (peers : gset N) : Neighbours :=
  {| ns_peers := ns_peers self; ns_all_peers := peers; ns_fail_attempts := ns_fail_attempts self; ns_all_attempts := ns_all_attempts self;
     ns_deleted := ns_deleted self |}.
Definition add_overlay_peer self peer : bool * Neighbours := (negb (contains_overlay_peer self peer), with_all_peers self ({[peer]} ∪ ns_all_peers self)).
Definition remove_overlay_peer self peer : Neighbours := with_all_peers self (ns_all_peers self ∖ {[peer]}).

(** [delete_public_peer] of the overlay is recorded. *)
Definition delete_public_peer self peer : Neighbours :=
  {| ns_peers := ns_peers self; ns_all_peers := ns_all_peers self; ns_fail_attempts := ns_fail_attempts self; ns_all_attempts := ns_all_attempts self;
     ns_deleted := ns_deleted self ++ [peer] |}.

(** The most unreliable peer ([a], with its measure [u]) and a random one ([b]). *)
Fixpoint scan_replaced (peers : list Neighbour) (cnt : N) (u : Z) (a b : option N) (draws : list N) : Z * option N * option N * list N :=
  match peers with
  | [] => (u, a, b, draws)
  | current :: peers' =>
      let un := nb_unreliability current in
      let '(u, a) := if (u <? un)%Z then (un, Some (nb_id current)) else (u, a) in
      if cnt =? 0 then scan_replaced peers' (cnt + 1) u a (Some (nb_id current)) draws
      else
        let '(r, draws) := gen_range cnt draws in
        scan_replaced peers' (cnt + 1) u a (if r =? 0 then Some (nb_id current) else b) draws
  end.

(** One peer that is not a neighbour yet: [ex] tells that the loop ends. *)
Definition got_neighbour self peer (draws : list N) : option bool * Neighbours * list N :=
  if nc_count (ns_peers self) =? MAX_NEIGHBOURS then
    let '(u, a, b, draws) := scan_replaced (get_iter (ns_peers self)) 0 0 None None draws in
    let unreliable := (STOP_UNRELIABILITY <? u)%Z in
    match (if unreliable then a else b) with
    | None => (None, self, draws)
    | Some deleted_peer =>
        match replace (ns_peers self) deleted_peer peer with
        | (None, peers) => (None, with_peers self peers, draws)
        | (Some _, peers) =>
            let self := with_peers self peers in
            if unreliable then (Some false, remove_overlay_peer (delete_public_peer self deleted_peer) deleted_peer, draws)
            else (Some true, self, draws)
        end
    end
  else
    match insert_ex (ns_peers self) peer false with
    | (None, peers) => (None, with_peers self peers, draws)
    | (Some _, peers) => (Some false, with_peers self peers, draws)
    end.

Fixpoint got_neighbours self (peers : list N) (draws : list N) : option unit * Neighbours * list N :=
  match peers with
  | [] => (Some (), self, draws)
  | peer :: peers' =>
      if cache_contains (ns_peers self) peer then got_neighbours self peers' draws
      else
        match got_neighbour self peer draws with
        | (None, self, draws) => (None, self, draws)
        | (Some true, self, draws) => (Some (), self, draws)
        | (Some false, self, draws) => got_neighbours self peers' draws
        end
  end.

(** *** Choice of a neighbour *)
Definition f64_of_u64 (n : N) : spec_float := binary_normalize 53 1024 (Z.of_N n) 0 false.
Definition f64_ratio (fail all : N) : spec_float := SFdiv 53 1024 (f64_of_u64 fail) (f64_of_u64 all).
(** [0.2] *)
Definition f64_fifth : spec_float := S754_finite false 7205759403792794 (-55).
Definition much_worse (node_stat peer_stat : spec_float) : bool :=
  SFltb (SFadd 53 1024 node_stat (SFmul 53 1024 node_stat f64_fifth)) peer_stat.

(** The measure with the penalties for old protocols. *)
Definition effective_unreliability (neighbour : Neighbour) : Z :=
  let unr := nb_unreliability neighbour in
  if (nb_proto_version neighbour <? PROTOCOL_VERSION)%Z then i32_wrap (unr + 4)
  else if (nb_proto_version neighbour =? PROTOCOL_VERSION)%Z && (nb_capabilities neighbour <? PROTOCOL_CAPABILITIES)%Z then i32_wrap (unr + 2)
  else unr.

(** [(1 << (FAIL_UNRELIABILITY - unr)) as i64], where the amount of the shift is taken
    modulo 32.  The amount 31, for which the [i32] is negative, needs a measure that wrapped
    around, after more than two billion failures of one neighbour; the model is for the
    others. *)
Definition choice_weight (unr : Z) : N := Z.to_N (Z.shiftl 1 ((FAIL_UNRELIABILITY - unr) mod 32)).

(** The loop of [choose_neighbour]: fines are paid, weights are summed up and the choice
    is replaced with the probability of the weight. *)
Fixpoint choose_loop (node_stat : spec_float) (neighbours : list Neighbour) (sum : N) (best : option Neighbour) (peers : NeighboursCache) (draws : list N)
  : option Neighbour * NeighboursCache * list N :=
  match neighbours with
  | [] => (best, peers, draws)
  | neighbour :: rest =>
      let unr := effective_unreliability neighbour in
      if (unr <=? FAIL_UNRELIABILITY)%Z then
        let worse := much_worse node_stat (f64_ratio (nb_fail_attempts neighbour) (nb_all_attempts neighbour)) in
        if worse && (0 <? nb_fines_points neighbour) then
          choose_loop node_stat rest sum best
            (with_value peers (nb_id neighbour)
               (with_statistics neighbour (nb_all_attempts neighbour) (nb_fail_attempts neighbour) (nb_fines_points neighbour - 1) (nb_active_check neighbour))) draws
        else
          let neighbour := if worse then with_statistics neighbour (nb_all_attempts neighbour) (nb_fail_attempts neighbour) (nb_fines_points neighbour) true else neighbour in
          let peers := if worse then with_value peers (nb_id neighbour) neighbour else peers in
          let w := choice_weight unr in
          let '(r, draws) := gen_range (sum + w) draws in
          choose_loop node_stat rest (sum + w) (if r <? w then Some neighbour else best) peers draws
      else choose_loop node_stat rest sum best peers draws
  end.

Definition choose_neighbour self (draws : list N) : option Neighbour * Neighbours * list N :=
  let count := nc_count (ns_peers self) in
  if count =? 0 then (None, self, draws) else
  match get_iter (ns_peers self) with
  | (neighbour :: _) as neighbours =>
      if count =? 1 then (Some neighbour, self, draws) else
      let '(best, peers, draws) := choose_loop (f64_ratio (ns_fail_attempts self) (ns_all_attempts self)) neighbours 0 None (ns_peers self) draws in
      (best, with_peers self peers, draws)
  | [] => (None, self, draws)
  end.

(** *** Statistics *)
Definition register_attempt (success : bool) (neighbour : Neighbour) : Neighbour :=
  let check := nb_active_check neighbour in
  with_statistics neighbour (u64_add (nb_all_attempts neighbour) 1)
    (if success then nb_fail_attempts neighbour else u64_add (nb_fail_attempts neighbour) 1)
    (if check && negb success then u32_add (nb_fines_points neighbour) FINES_POINTS_COUNT else nb_fines_points neighbour) false.

Definition update_neighbour_stats self peer (roundtrip : N) (success is_rldp is_register : bool) : Neighbours :=
  match nc_values (ns_peers self) !! peer with
  | None => self
  | Some neighbour =>
      let neighbour := if success then query_success neighbour roundtrip is_rldp else query_failed neighbour roundtrip is_rldp in
      if is_register then
        {| ns_peers := with_value (ns_peers self) peer (register_attempt success neighbour); ns_all_peers := ns_all_peers self;
           ns_fail_attempts := if success then ns_fail_attempts self else u64_add (ns_fail_attempts self) 1;
           ns_all_attempts := u64_add (ns_all_attempts self) 1; ns_deleted := ns_deleted self |}
      else with_peers self (with_value (ns_peers self) peer neighbour)
  end.

Definition got_neighbour_capabilities self peer (version capabilities : Z) : Neighbours :=
  match nc_values (ns_peers self) !! peer with
  | None => self
  | Some neighbour => with_peers self (with_value (ns_peers self) peer (update_proto_version neighbour version capabilities))
  end.
End neighbours.

(** ** Facts about neighbours

    The invariant of the cache (the indices below the count are the neighbours, each
    once), what its operations do, and the fairness of the weighted choice. *)

(** ** The invariant *)
Record cache_ok (c : NeighboursCache) : Prop := {
  co_count : nc_count c ≤ MAX_NEIGHBOURS;
  co_dense i : is_Some (nc_indices c !! i) ↔ i < nc_count c;
  co_inj i j p : nc_indices c !! i = Some p → nc_indices c !! j = Some p → i = j;
  co_values p : is_Some (nc_values c !! p) ↔ ∃ i, nc_indices c !! i = Some p;
  co_ids p v : nc_values c !! p = Some v → nb_id v = p;
  co_next : nc_next c = 0 ∨ nc_next c < nc_count c;
}.

Section cache.
Implicit Types (c : NeighboursCache) (p : N).

Lemma empty_cache_ok : cache_ok {| nc_count := 0; nc_next := 0; nc_indices := ∅; nc_values := ∅ |}.
Proof.
  split; simpl; try done; try by left.
  - intros i. rewrite lookup_empty. split; [by intros [? ?]|lia].
  - intros p. rewrite lookup_empty. split; [by intros [? ?]|by intros [? ?]].
Qed.

Lemma insert_ex_ok c p : cache_ok c → nc_count c < MAX_NEIGHBOURS → ∃ b, (insert_ex c p false).1 = Some b ∧ cache_ok (insert_ex c p false).2
  ∧ is_Some (nc_values (insert_ex c p false).2 !! p) ∧ (∀ i q, nc_indices c !! i = Some q → nc_indices (insert_ex c p false).2 !! i = Some q).
Proof.
  intros H Hlt. unfold insert_ex. rewrite (proj2 (N.leb_gt _ _)) by done. simpl. destruct (nc_values c !! p) as [v|] eqn:Hp; [exists false; eauto|].
  exists true. split; [done|]. assert (u32_add (nc_count c) 1 = nc_count c + 1) as Hc.
  { apply N.mod_small. unfold MAX_NEIGHBOURS in Hlt. unfold two32. lia. }
  assert (∀ i, nc_indices c !! i ≠ Some p) as Hnew.
  { intros i Hi. destruct (proj2 (co_values _ H p)) as [v Hv]; [by exists i|congruence]. }
  assert (nc_indices c !! nc_count c = None) as Hn.
  { destruct (nc_indices c !! nc_count c) eqn:E; [|done]. assert (nc_count c < nc_count c) by (apply (co_dense _ H); eauto). lia. }
  split; [|split; [simpl; rewrite lookup_insert_eq; eauto|]].
  - split; cbn [snd nc_count nc_next nc_indices nc_values with_value]; rewrite ?Hc.
    + unfold MAX_NEIGHBOURS in *. lia.
    + intros i. destruct (decide (i = nc_count c)) as [->|Hne]; [rewrite lookup_insert_eq; split; [lia|eauto]|].
      rewrite lookup_insert_ne by done. rewrite (co_dense _ H). lia.
    + intros i j q. destruct (decide (i = nc_count c)) as [->|Hi], (decide (j = nc_count c)) as [->|Hj]; rewrite ?lookup_insert_eq, ?lookup_insert_ne by done; try done.
      * intros [= <-] Hj'. by apply Hnew in Hj'.
      * intros Hi' [= <-]. by apply Hnew in Hi'.
      * apply (co_inj _ H).
    + intros q. destruct (decide (q = p)) as [->|Hq].
      * rewrite lookup_insert_eq. split; [|eauto]. intros _. exists (nc_count c). apply lookup_insert_eq.
      * rewrite lookup_insert_ne, (co_values _ H) by done. split; intros [i Hi].
        -- exists i. rewrite lookup_insert_ne; [done|]. intros <-. congruence.
        -- exists i. destruct (decide (i = nc_count c)) as [->|]; [rewrite lookup_insert_eq in Hi; congruence|by rewrite lookup_insert_ne in Hi].
    + intros q v. destruct (decide (q = p)) as [->|Hq]; [rewrite lookup_insert_eq; by intros [= <-]|rewrite lookup_insert_ne by done; apply (co_ids _ H)].
    + destruct (co_next _ H) as [->|?]; [by left|right; lia].
  - intros i q Hi. simpl. rewrite lookup_insert_ne; [done|]. intros <-. congruence.
Qed.

Lemma get_index_ok c p i : cache_ok c → nc_indices c !! i = Some p → get_index c p = Some i.
Proof.
  intros H Hi. unfold get_index. destruct (List.find _ _) as [[j q]|] eqn:E.
  - apply List.find_some in E as [Hin Hq]. simpl in Hq. breflect. subst q. apply list_elem_of_In, elem_of_map_to_list in Hin. simpl. f_equal. by apply (co_inj _ H j i p).
  - exfalso. apply elem_of_map_to_list in Hi. eapply List.find_none in E; [|apply list_elem_of_In; exact Hi]. simpl in E. breflect. done.
Qed.

Lemma replace_ok c old new i : cache_ok c → nc_indices c !! i = Some old → nc_values c !! new = None →
  (replace c old new).1 = Some true ∧ cache_ok (replace c old new).2 ∧ nc_count (replace c old new).2 = nc_count c
  ∧ nc_indices (replace c old new).2 = <[i := new]> (nc_indices c).
Proof.
  intros H Hi Hnew. unfold replace. rewrite (get_index_ok c old i) by done. unfold insert_ex. simpl. rewrite Hnew. simpl. split; [done|]. split; [|done].
  assert (∀ j, nc_indices c !! j ≠ Some new) as Hfresh.
  { intros j Hj. destruct (proj2 (co_values _ H new)) as [v Hv]; [by exists j|congruence]. }
  assert (old ≠ new) as Hne by (intros ->; by apply Hfresh in Hi).
  split; simpl.
  - apply H.
  - intros j. rewrite <- (co_dense _ H). destruct (decide (j = i)) as [->|?]; [rewrite lookup_insert_eq, Hi; split; eauto|by rewrite lookup_insert_ne].
  - intros j k q. destruct (decide (j = i)) as [->|Hj], (decide (k = i)) as [->|Hk]; rewrite ?lookup_insert_eq, ?lookup_insert_ne by done; try done.
    + intros [= <-] Hk'. by apply Hfresh in Hk'.
    + intros Hj' [= <-]. by apply Hfresh in Hj'.
    + apply (co_inj _ H).
  - intros q. destruct (decide (q = old)) as [->|Hq].
    + rewrite lookup_delete_eq. split; [by intros [? ?]|]. intros [j Hj]. destruct (decide (j = i)) as [->|Hji]; [rewrite lookup_insert_eq in Hj; congruence|].
      rewrite lookup_insert_ne in Hj by done. by destruct (Hji (co_inj _ H _ _ _ Hj Hi)).
    + rewrite lookup_delete_ne by done. destruct (decide (q = new)) as [->|Hqn].
      * rewrite lookup_insert_eq. split; [|eauto]. intros _. exists i. apply lookup_insert_eq.
      * rewrite lookup_insert_ne, (co_values _ H) by done. split; intros [j Hj].
        -- exists j. rewrite lookup_insert_ne; [done|]. intros ->. congruence.
        -- exists j. destruct (decide (j = i)) as [->|]; [rewrite lookup_insert_eq in Hj; congruence|by rewrite lookup_insert_ne in Hj].
  - intros q v Hv. apply lookup_delete_Some in Hv as [_ Hv]. apply lookup_insert_Some in Hv as [[<- <-]|[_ Hv]]; [done|by apply (co_ids _ H)].
  - apply H.
Qed.

Lemma with_value_ok c p v v' : cache_ok c → nc_values c !! p = Some v → nb_id v' = p → cache_ok (with_value c p v').
Proof.
  intros H Hp Hv. destruct H as [H1 H2 H3 H4 H5 H6]. split; simpl; try done.
  - intros q. destruct (decide (q = p)) as [->|?]; [rewrite lookup_insert_eq, <- H4, Hp; split; eauto|by rewrite lookup_insert_ne].
  - intros q w Hq. apply lookup_insert_Some in Hq as [[<- <-]|[_ Hq]]; [done|by apply H5].
Qed.

Lemma with_next_ok c n : cache_ok c → (n = 0 ∨ n < nc_count c) → cache_ok (with_next c n).
Proof. intros [H1 H2 H3 H4 H5 H6] Hn. by split. Qed.

(** ** Iteration *)
Lemma iterate_spec (k : nat) c i : cache_ok c → N.of_nat k + i = nc_count c → ∀ fuel, (k < fuel)%nat →
  length (iterate fuel c i) = k ∧ ∀ (j : nat) v, iterate fuel c i !! j = Some v ↔ ∃ p, nc_indices c !! (i + N.of_nat j) = Some p ∧ nc_values c !! p = Some v.
Proof.
  intros H. revert i. induction k as [|k IH]; intros i Hk [|fuel] Hf; [lia| |lia|]; simpl.
  - assert (nc_indices c !! i = None) as ->.
    { destruct (nc_indices c !! i) eqn:E; [|done]. assert (i < nc_count c) by (apply (co_dense _ H); eauto). lia. }
    split; [done|]. intros j v. rewrite lookup_nil. split; [done|]. intros (p & Hp & _). assert (i + N.of_nat j < nc_count c) by (apply (co_dense _ H); eauto). lia.
  - destruct (proj2 (co_dense _ H i)) as [p Hp]; [lia|]. rewrite Hp. destruct (proj2 (co_values _ H p)) as [v Hv]; [by exists i|]. rewrite Hv.
    destruct (IH (i + 1)) with (fuel := fuel) as [Hl Hj]; [lia|lia|]. split; [simpl; lia|]. intros [|j] w.
    + change (N.of_nat 0) with 0. rewrite N.add_0_r, Hp. cbn [lookup list_lookup]. split; [intros [= <-]; eauto|]. intros (q & [= <-] & Hq). congruence.
    + change ((v :: iterate fuel c (i + 1)) !! S j) with (iterate fuel c (i + 1) !! j). rewrite Hj. by replace (i + 1 + N.of_nat j) with (i + N.of_nat (S j)) by lia.
Qed.

Lemma cache_size c : cache_ok c → size (nc_indices c) = N.to_nat (nc_count c).
Proof.
  intros H. rewrite <- size_dom. assert (dom (nc_indices c) = list_to_set (N.of_nat <$> seq 0 (N.to_nat (nc_count c)))) as ->.
  { apply set_eq. intros i. rewrite elem_of_dom, (co_dense _ H), elem_of_list_to_set, list_elem_of_fmap. split.
    - intros Hi. exists (N.to_nat i). rewrite elem_of_seq. split; lia.
    - intros (j & -> & Hj). apply elem_of_seq in Hj. lia. }
  rewrite size_list_to_set; [by rewrite length_fmap, length_seq|]. apply NoDup_fmap_2; [intros ? ? ?; lia|apply NoDup_seq].
Qed.

Lemma get_iter_spec c : cache_ok c →
  length (get_iter c) = N.to_nat (nc_count c)
  ∧ ∀ (j : nat) v, get_iter c !! j = Some v ↔ ∃ p, nc_indices c !! N.of_nat j = Some p ∧ nc_values c !! p = Some v.
Proof.
  intros H. unfold get_iter. destruct (iterate_spec (N.to_nat (nc_count c)) c 0 H) with (fuel := S (size (nc_indices c))) as [Hl Hj]; [lia|rewrite cache_size by done; lia|].
  split; [done|]. intros j v. by rewrite Hj, N.add_0_l.
Qed.

Lemma get_iter_ids c (j : nat) v : cache_ok c → get_iter c !! j = Some v → nc_indices c !! N.of_nat j = Some (nb_id v) ∧ nc_values c !! nb_id v = Some v.
Proof.
  intros H Hj. apply (get_iter_spec c H) in Hj as (p & Hp & Hv). by rewrite (co_ids _ H _ _ Hv).
Qed.

Lemma get_iter_nodup c : cache_ok c → NoDup (nb_id <$> get_iter c).
Proof.
  intros H. apply NoDup_alt. intros j k p Hj Hk. rewrite list_lookup_fmap_Some in Hj, Hk. destruct Hj as (v & -> & Hj), Hk as (w & Hw & Hk).
  apply get_iter_ids in Hj as [Hj _], Hk as [Hk _]; [|done|done]. rewrite <- Hw in Hk. pose proof (co_inj _ H _ _ _ Hj Hk). lia.
Qed.
End cache.

(** ** Calls *)
Inductive NeighbourCall :=
| CallAdd (peer : N)
| CallGot (peers draws : list N)
| CallChoose (draws : list N)
| CallStats (peer roundtrip : N) (success is_rldp is_register : bool)
| CallCapabilities (peer : N) (version capabilities : Z)
| CallPing (elapsed : N)
| CallPinged (peer elapsed : N)
| CallOverlayPeer (peer : N) (present : bool).

(** [next_for_ping] returned, without an error. *)
Definition ping_succeeds (r : PingResult) : bool :=
  match r with PingError | PingFuel => false | PingNone | PingFound _ => true end.

(** The result tells whether the call succeeds. *)
Definition neighbour_call (self : Neighbours) (c : NeighbourCall) : bool * Neighbours :=
  match c with
  | CallAdd peer => let '(r, self) := add self peer in (bool_decide (is_Some r), self)
  | CallGot peers draws => let '(r, self, _) := got_neighbours self peers draws in (bool_decide (is_Some r), self)
  | CallChoose draws => let '(_, self, _) := choose_neighbour self draws in (true, self)
  | CallStats peer roundtrip success is_rldp is_register => (true, update_neighbour_stats self peer roundtrip success is_rldp is_register)
  | CallCapabilities peer version capabilities => (true, got_neighbour_capabilities self peer version capabilities)
  | CallPing elapsed => let '(r, peers) := next_for_ping 1 (ns_peers self) elapsed in (ping_succeeds r, with_peers self peers)
  | CallPinged peer elapsed =>
      (true, match nc_values (ns_peers self) !! peer with Some v => with_peers self (with_value (ns_peers self) peer (set_last_ping v elapsed)) | None => self end)
  | CallOverlayPeer peer present => (true, if present then (add_overlay_peer self peer).2 else remove_overlay_peer self peer)
  end.

Definition is_ping (c : NeighbourCall) : bool := match c with CallPing _ => true | _ => false end.

Definition Neighbours_new (start_peers : list N) : option Neighbours :=
  peers ← NeighboursCache_new start_peers;
  Some {| ns_peers := peers; ns_all_peers := ∅; ns_fail_attempts := 0; ns_all_attempts := 0; ns_deleted := [] |}.

Inductive neighbours_reachable : Neighbours → Prop :=
| neighbours_start start_peers self : Neighbours_new start_peers = Some self → neighbours_reachable self
| neighbours_call self c : neighbours_reachable self → neighbours_reachable (neighbour_call self c).2.

Section calls.
Implicit Types (self : Neighbours) (peer : N) (draws : list N).

Lemma insert_start_ok peers index c : cache_ok c → nc_count c ≤ index → ∃ c', insert_start peers index c = Some c' ∧ cache_ok c'.
Proof.
  revert index c. induction peers as [|p peers IH]; intros index c H Hle; simpl; [eauto|]. destruct (index <? MAX_NEIGHBOURS) eqn:E; breflect; [|by apply IH].
  destruct (insert_ex_ok c p H) as (b & Hb & Hok & _); [lia|]. destruct (insert_ex c p false) as [r c'] eqn:Ei. simpl in *. subst r. apply IH; [done|].
  unfold insert_ex in Ei. destruct (_ && _); [done|]. destruct (nc_values c !! p); injection Ei as <- <-; [lia|]. simpl. unfold u32_add.
  pose proof (N.Div0.mod_le (nc_count c + 1) two32). lia.
Qed.

(** The scan finds a neighbour. *)
Lemma scan_spec peers cnt u a b draws u' a' b' draws' : scan_replaced peers cnt u a b draws = (u', a', b', draws') →
  (b' = b ∨ ∃ v, v ∈ peers ∧ b' = Some (nb_id v)) ∧ (cnt = 0 → peers ≠ [] → is_Some b') ∧ (cnt ≠ 0 → is_Some b → is_Some b')
  ∧ (u' = u ∧ a' = a ∨ ∃ v, v ∈ peers ∧ a' = Some (nb_id v) ∧ u' = nb_unreliability v).
Proof.
  revert cnt u a b draws. induction peers as [|v peers IH]; intros cnt u a b draws H; simpl in H.
  { injection H as <- <- <- <-. split; [by left|]. split; [done|]. split; [done|]. by left. }
  destruct (if (u <? nb_unreliability v)%Z then (nb_unreliability v, Some (nb_id v)) else (u, a)) as [u1 a1] eqn:E1.
  assert (u1 = u ∧ a1 = a ∨ a1 = Some (nb_id v) ∧ u1 = nb_unreliability v) as Hu1 by (destruct (_ <? _)%Z; injection E1 as <- <-; auto).
  destruct (cnt =? 0) eqn:Ec; breflect.
  - apply IH in H as (B & _ & B2 & A). split; [right; destruct B as [->|(w & Hw & ->)]; [exists v|exists w]; set_solver|].
    split; [intros _ _; apply B2; [lia|eauto]|]. split; [intros _ _; apply B2; [lia|eauto]|].
    destruct A as [[-> ->]|(w & Hw & -> & ->)]; [destruct Hu1 as [[-> ->]|[-> ->]]; [by left|right; exists v; set_solver]|right; exists w; set_solver].
  - destruct (gen_range cnt draws) as [r ds]. apply IH in H as (B & _ & B2 & A). split.
    { destruct B as [->|(w & Hw & ->)]; [destruct (r =? 0); [right; exists v; set_solver|by left]|right; exists w; set_solver]. }
    split; [lia|]. split; [intros _ Hb; apply B2; [lia|]; by destruct (r =? 0)|].
    destruct A as [[-> ->]|(w & Hw & -> & ->)]; [destruct Hu1 as [[-> ->]|[-> ->]]; [by left|right; exists v; set_solver]|right; exists w; set_solver].
Qed.

(** The peer that is replaced in a full cache. *)
Definition replaced self draws : option N :=
  let '(u, a, b, _) := scan_replaced (get_iter (ns_peers self)) 0 0 None None draws in if (STOP_UNRELIABILITY <? u)%Z then a else b.

Lemma replaced_ok self draws : cache_ok (ns_peers self) → 0 < nc_count (ns_peers self) →
  ∃ old i, replaced self draws = Some old ∧ nc_indices (ns_peers self) !! i = Some old.
Proof.
  intros H Hpos. unfold replaced. destruct (scan_replaced _ _ _ _ _ _) as [[[u a] b] ds] eqn:E. apply scan_spec in E as (B & B1 & _ & A).
  destruct (get_iter_spec _ H) as [Hl _]. assert (get_iter (ns_peers self) ≠ []) as Hne by (intros Hn; rewrite Hn in Hl; simpl in Hl; lia).
  assert (∀ v, v ∈ get_iter (ns_peers self) → ∃ i, nc_indices (ns_peers self) !! i = Some (nb_id v)) as K.
  { intros v [j Hj]%list_elem_of_lookup. apply get_iter_ids in Hj as [Hj _]; eauto. }
  destruct (STOP_UNRELIABILITY <? u)%Z eqn:Eu.
  - apply Z.ltb_lt in Eu. destruct A as [[-> ->]|(v & Hv & -> & ->)]; [done|]. destruct (K v Hv) as [i Hi]. eauto.
  - destruct (B1 eq_refl Hne) as [x Hx]. destruct B as [->|(v & Hv & ->)]; [done|]. destruct (K v Hv) as [i Hi]. eauto.
Qed.

Lemma got_neighbour_ok self peer draws : cache_ok (ns_peers self) → cache_contains (ns_peers self) peer = false →
  ∃ ex, (got_neighbour self peer draws).1.1 = Some ex ∧ cache_ok (ns_peers (got_neighbour self peer draws).1.2)
    ∧ (nc_count (ns_peers self) = MAX_NEIGHBOURS → ∃ old i, replaced self draws = Some old ∧ nc_indices (ns_peers self) !! i = Some old
         ∧ nc_indices (ns_peers (got_neighbour self peer draws).1.2) = <[i := peer]> (nc_indices (ns_peers self))).
Proof.
  intros H Hc. unfold cache_contains in Hc. apply bool_decide_eq_false in Hc. rewrite <- eq_None_not_Some in Hc. unfold got_neighbour.
  destruct (nc_count (ns_peers self) =? MAX_NEIGHBOURS) eqn:E; breflect.
  - destruct (replaced_ok self draws H) as (old & i & Hr & Hi); [rewrite E; done|].
    destruct (replace_ok (ns_peers self) old peer i H Hi Hc) as (R1 & R2 & R3 & R4). unfold replaced in *.
    destruct (scan_replaced _ _ _ _ _ _) as [[[u a] b] ds]. rewrite Hr. destruct (replace (ns_peers self) old peer) as [r c]. simpl in *. subst r.
    destruct (_ <? _)%Z; eexists; (split; [done|]); (split; [done|]); intros _; exists old, i; done.
  - destruct (insert_ex_ok (ns_peers self) peer H) as (b & Hb & Hok & _); [pose proof (co_count _ H); lia|].
    destruct (insert_ex (ns_peers self) peer false) as [r c]. simpl in *. subst r. exists false. split; [done|]. split; [done|]. done.
Qed.

Lemma got_neighbours_ok self peers draws : cache_ok (ns_peers self) →
  (got_neighbours self peers draws).1.1 = Some () ∧ cache_ok (ns_peers (got_neighbours self peers draws).1.2).
Proof.
  revert self draws. induction peers as [|peer peers IH]; intros self draws H; simpl; [done|]. destruct (cache_contains (ns_peers self) peer) eqn:Hc; [by apply IH|].
  destruct (got_neighbour_ok self peer draws H Hc) as (ex & He & Hok & _). destruct (got_neighbour self peer draws) as [[r self'] ds]. simpl in *. subst r.
  destruct ex; [done|by apply IH].
Qed.

Lemma choose_loop_ok stat neighbours sum best c draws : cache_ok c → (∀ v, v ∈ neighbours → is_Some (nc_values c !! nb_id v)) →
  cache_ok (choose_loop stat neighbours sum best c draws).1.2.
Proof.
  revert sum best c draws. induction neighbours as [|v rest IH]; intros sum best c draws H Hv; simpl; [done|].
  assert (∀ w, nb_id w = nb_id v → cache_ok (with_value c (nb_id v) w) ∧ ∀ x, x ∈ rest → is_Some (nc_values (with_value c (nb_id v) w) !! nb_id x)) as K.
  { intros w Hw. destruct (Hv v) as [v0 Hv0]; [set_solver|]. split; [by eapply with_value_ok|]. intros x Hx. simpl. rewrite lookup_insert_is_Some.
    destruct (decide (nb_id v = nb_id x)); [by left|right; split; [done|apply Hv; set_solver]]. }
  assert (∀ x, x ∈ rest → is_Some (nc_values c !! nb_id x)) as Kr by (intros x Hx; apply Hv; set_solver).
  destruct (_ <=? _)%Z; [|by apply IH]. destruct (_ && _); [by apply IH; apply K|].
  destruct (gen_range _ _) as [r ds]. destruct (much_worse _ _); [apply IH; apply K; done|by apply IH].
Qed.

Lemma ping_ok c elapsed : cache_ok c → cache_ok (next_for_ping 1 c elapsed).2.
Proof.
  intros H. unfold next_for_ping. simpl. destruct (nc_indices c !! nc_next c) as [p|] eqn:Hp; [|done]. destruct (nc_values c !! p) as [v|]; [|done].
  assert (nc_next c < nc_count c) as Hlt by (apply (co_dense _ H); eauto).
  assert (u32_sub (nc_count c) 1 = nc_count c - 1) as Hs.
  { unfold u32_sub. pose proof (co_count _ H). unfold MAX_NEIGHBOURS in *. replace (nc_count c + two32 - 1) with (nc_count c - 1 + 1 * two32) by lia.
    rewrite N.Div0.mod_add. apply N.mod_small. unfold two32. lia. }
  rewrite Hs. assert (cache_ok (with_next c (if nc_count c - 1 <=? nc_next c then 0 else nc_next c + 1))) as Hok.
  { apply with_next_ok; [done|]. destruct (_ <=? _) eqn:E; breflect; [by left|right; lia]. }
  destruct (_ <? _); [|done]. by destruct (_ =? nc_next c).
Qed.

(** One turn of the loop answers, unless there is no neighbour at all. *)
Lemma ping_succeeds_spec c elapsed : cache_ok c → ping_succeeds (next_for_ping 1 c elapsed).1 = negb (nc_count c =? 0).
Proof.
  intros H. unfold next_for_ping. simpl. destruct (nc_count c =? 0) eqn:E; breflect; simpl.
  - destruct (nc_indices c !! nc_next c) as [p|] eqn:Hp; [|done].
    assert (nc_next c < nc_count c) by (apply (co_dense _ H); eauto). lia.
  - destruct (proj2 (co_dense _ H (nc_next c))) as [p Hp]; [destruct (co_next _ H); lia|]. rewrite Hp.
    destruct (proj2 (co_values _ H p)) as [v Hv]; [by exists (nc_next c)|]. rewrite Hv.
    destruct (_ <? _); [|done]. by destruct (_ =? nc_next c).
Qed.

Lemma neighbour_call_ok self c : cache_ok (ns_peers self) →
  (neighbour_call self c).1 = negb (is_ping c && (nc_count (ns_peers self) =? 0)) ∧ cache_ok (ns_peers (neighbour_call self c).2).
Proof.
  intros H. destruct c; simpl.
  - unfold add. destruct (_ <=? _) eqn:E; [done|]. breflect. destruct (insert_ex_ok (ns_peers self) peer H E) as (b & Hb & Hok & _).
    destruct (insert_ex (ns_peers self) peer false) as [r c]. simpl in *. by subst r.
  - destruct (got_neighbours_ok self peers draws H) as [Hr Hok]. destruct (got_neighbours self peers draws) as [[r self'] ds]. simpl in *. by subst r.
  - unfold choose_neighbour. destruct (_ =? 0); [done|]. destruct (get_iter (ns_peers self)) as [|v l] eqn:Ei; [done|]. destruct (_ =? 1); [done|].
    pose proof (choose_loop_ok (f64_ratio (ns_fail_attempts self) (ns_all_attempts self)) (v :: l) 0 None (ns_peers self) draws H) as K.
    destruct (choose_loop (f64_ratio (ns_fail_attempts self) (ns_all_attempts self)) (v :: l) 0 None (ns_peers self) draws) as [[best c] ds].
    cbn [fst snd] in *. split; [done|]. apply K. intros x Hx. rewrite <- Ei in Hx. apply list_elem_of_lookup in Hx as [j Hj].
    apply get_iter_ids in Hj as [_ Hj]; eauto.
  - split; [done|]. unfold update_neighbour_stats. destruct (nc_values (ns_peers self) !! peer) as [v|] eqn:Hv; [|done]. pose proof (co_ids _ H _ _ Hv) as Hid.
    assert (nb_id (if success then query_success v roundtrip is_rldp else query_failed v roundtrip is_rldp) = peer) as Hq.
    { destruct success; [unfold query_success; by destruct (_ <? _)%Z|exact Hid]. }
    destruct is_register; simpl; (eapply with_value_ok; [exact H|exact Hv|exact Hq]).
  - split; [done|]. unfold got_neighbour_capabilities. destruct (nc_values (ns_peers self) !! peer) as [v|] eqn:Hv; [|done].
    eapply with_value_ok; [done|exact Hv|]. simpl. by apply (co_ids _ H).
  - pose proof (ping_ok (ns_peers self) elapsed H) as K. pose proof (ping_succeeds_spec (ns_peers self) elapsed H) as K1.
    by destruct (next_for_ping 1 (ns_peers self) elapsed).
  - split; [done|]. destruct (nc_values (ns_peers self) !! peer) as [v|] eqn:Hv; [|done]. eapply with_value_ok; [done|exact Hv|]. simpl. by apply (co_ids _ H).
  - by destruct present.
Qed.

Lemma neighbours_reachable_ok self : neighbours_reachable self → cache_ok (ns_peers self).
Proof.
  induction 1 as [start self H|self c _ IH]; [|by apply neighbour_call_ok]. unfold Neighbours_new, NeighboursCache_new in H.
  destruct (insert_start_ok start 0 _ empty_cache_ok) as (c & Hc & Hok); [done|]. rewrite Hc in H. simpl in H. by injection H as <-.
Qed.
End calls.

(** ** The choice of a neighbour is fair

    Counting over all sequences of random numbers that the loop of [choose_neighbour] can
    draw: every eligible neighbour is chosen in exactly the share of them that its weight
    has in the sum of the weights. *)

(** ** Weighted choice from a list *)
Section pick.
Context {A : Type}.
Implicit Types (l : list (A * N)) (best : option A) (P : option A → bool).

Fixpoint pick (sum : N) best l (draws : list N) : option A :=
  match l with
  | [] => best
  | (x, w) :: l' => let '(r, draws) := gen_range (sum + w) draws in pick (sum + w) (if r <? w then Some x else best) l' draws
  end.

Definition below (n : N) : list N := N.of_nat <$> seq 0 (N.to_nat n).

(** All sequences that can be drawn. *)
Fixpoint all_draws (sum : N) (weights : list N) : list (list N) :=
  match weights with
  | [] => [[]]
  | w :: ws => flat_map (λ r, (λ ds, r :: ds) <$> all_draws (sum + w) ws) (below (sum + w))
  end.

Definition weight_sum (weights : list N) : N := foldr N.add 0 weights.

(** In how many of them the result satisfies [P]. *)
Fixpoint outcomes P (sum : N) best l (draws : list (list N)) : N :=
  match draws with [] => 0 | ds :: draws' => (if P (pick sum best l ds) then 1 else 0) + outcomes P sum best l draws' end.

Lemma outcomes_app P sum best l d1 d2 : outcomes P sum best l (d1 ++ d2) = outcomes P sum best l d1 + outcomes P sum best l d2.
Proof. induction d1 as [|ds d1 IH]; simpl; [done|]. rewrite IH. lia. Qed.

Lemma outcomes_cons P sum best x w l (r : N) draws : r < sum + w →
  outcomes P sum best ((x, w) :: l) ((λ ds, r :: ds) <$> draws) = outcomes P (sum + w) (if r <? w then Some x else best) l draws.
Proof. intros Hr. induction draws as [|ds draws IH]; [done|]. cbn [fmap list_fmap outcomes pick gen_range]. rewrite N.mod_small by done. by rewrite IH. Qed.

(** The first [w] numbers choose the new element, the others keep the choice. *)
Lemma outcomes_split P sum best x w l draws (k : nat) : (k ≤ N.to_nat (sum + w))%nat →
  outcomes P sum best ((x, w) :: l) (flat_map (λ r, (λ ds, r :: ds) <$> draws) (N.of_nat <$> seq 0 k))
  = N.min w (N.of_nat k) * outcomes P (sum + w) (Some x) l draws + (N.of_nat k - w) * outcomes P (sum + w) best l draws.
Proof.
  induction k as [|k IH]; intros Hk; [simpl; lia|]. rewrite seq_S, fmap_app, flat_map_app, outcomes_app, IH by lia. simpl. rewrite app_nil_r, outcomes_cons by lia.
  destruct (N.of_nat k <? w) eqn:E; breflect.
  - replace (N.min w (N.of_nat k)) with (N.of_nat k) by lia. replace (N.min w (N.of_nat (S k))) with (N.of_nat k + 1) by lia.
    replace (N.of_nat k - w) with 0 by lia. replace (N.of_nat (S k) - w) with 0 by lia. lia.
  - replace (N.min w (N.of_nat (S k))) with (N.min w (N.of_nat k)) by lia. replace (N.of_nat (S k) - w) with (N.of_nat k - w + 1) by lia. lia.
Qed.

Lemma outcomes_step P sum best x w l : outcomes P sum best ((x, w) :: l) (all_draws sum (w :: (snd <$> l)))
  = w * outcomes P (sum + w) (Some x) l (all_draws (sum + w) (snd <$> l)) + sum * outcomes P (sum + w) best l (all_draws (sum + w) (snd <$> l)).
Proof.
  cbn [all_draws]. unfold below. rewrite outcomes_split by done. rewrite N2Nat.id. f_equal; f_equal; lia.
Qed.

Lemma all_draws_length sum w ws : N.of_nat (length (all_draws sum (w :: ws))) = (sum + w) * N.of_nat (length (all_draws (sum + w) ws)).
Proof.
  cbn [all_draws]. unfold below. rewrite <- (N2Nat.id (sum + w)) at 2. generalize (all_draws (sum + w) ws). intros draws. induction (N.to_nat (sum + w)) as [|k IH]; [done|].
  rewrite seq_S, fmap_app, flat_map_app, length_app, Nat2N.inj_add, IH. simpl. rewrite app_nil_r, length_fmap. lia.
Qed.

Lemma outcomes_none P sum best l draws : P best = false → Forall (λ xw, P (Some xw.1) = false) l → outcomes P sum best l draws = 0.
Proof.
  intros Hb Hl. assert (∀ s b ds, P b = false → P (pick s b l ds) = false) as Hf.
  { clear Hb. induction l as [|[y v] l IH]; intros s b ds Hb; simpl; [done|]. apply Forall_cons_1 in Hl as [Hy Hl].
    destruct (gen_range (s + v) ds) as [r ds']. apply IH; [done|]. by destruct (r <? v). }
  induction draws as [|ds draws IHd]; simpl; [done|]. by rewrite Hf, IHd.
Qed.

(** The choice that is there survives in the share of the sum it stands for. *)
Lemma outcomes_keep P sum best l : P best = true → Forall (λ xw, P (Some xw.1) = false) l →
  outcomes P sum best l (all_draws sum (snd <$> l)) * (sum + weight_sum (snd <$> l)) = sum * N.of_nat (length (all_draws sum (snd <$> l))).
Proof.
  intros Hb. revert sum. induction l as [|[x w] l IH]; intros sum Hl; [simpl; rewrite Hb; lia|].
  apply Forall_cons_1 in Hl as [Hx Hl]. simpl in Hx.
  cbn [fmap list_fmap snd]. rewrite outcomes_step, (outcomes_none P (sum + w) (Some x) l), all_draws_length by done. cbn [weight_sum foldr]. fold (weight_sum (snd <$> l)).
  specialize (IH (sum + w) Hl). nia.
Qed.

(** An element is chosen in the share that its weight has. *)
Lemma outcomes_one P sum best l1 x w l2 : P best = false → P (Some x) = true →
  Forall (λ xw, P (Some xw.1) = false) l1 → Forall (λ xw, P (Some xw.1) = false) l2 →
  outcomes P sum best (l1 ++ (x, w) :: l2) (all_draws sum (snd <$> (l1 ++ (x, w) :: l2))) * (sum + weight_sum (snd <$> (l1 ++ (x, w) :: l2)))
  = w * N.of_nat (length (all_draws sum (snd <$> (l1 ++ (x, w) :: l2)))).
Proof.
  intros Hb Hx H1 H2. revert sum best Hb. induction l1 as [|[y v] l1 IH]; intros sum best Hb.
  - simpl ([] ++ _). cbn [fmap list_fmap snd]. rewrite outcomes_step, (outcomes_none P (sum + w) best l2) by done. rewrite all_draws_length. cbn [weight_sum foldr].
    fold (weight_sum (snd <$> l2)). pose proof (outcomes_keep P (sum + w) (Some x) l2 Hx H2) as K. nia.
  - apply Forall_cons_1 in H1 as [Hy H1]. simpl in Hy. specialize (IH H1). rewrite <- app_comm_cons. cbn [fmap list_fmap snd].
    set (l := l1 ++ (x, w) :: l2) in *. rewrite outcomes_step, all_draws_length. cbn [weight_sum foldr]. fold (weight_sum (snd <$> l)).
    pose proof (IH (sum + v) (Some y) Hy) as K1. pose proof (IH (sum + v) best Hb) as K2. nia.
Qed.
End pick.

(** ** The loop of [choose_neighbour] *)
Section choice.
Implicit Types (v : Neighbour) (self : Neighbours).

(** A neighbour takes part in the choice. *)
Definition takes_part (stat : spec_float) v : bool :=
  (effective_unreliability v <=? FAIL_UNRELIABILITY)%Z
  && negb (much_worse stat (f64_ratio (nb_fail_attempts v) (nb_all_attempts v)) && (0 <? nb_fines_points v)).

(** The candidates by key, with their weights. *)
Definition eligible (stat : spec_float) (neighbours : list Neighbour) : list (N * N) :=
  (λ v, (nb_id v, choice_weight (effective_unreliability v))) <$> List.filter (takes_part stat) neighbours.

Lemma choose_loop_pick stat neighbours sum best c draws :
  nb_id <$> (choose_loop stat neighbours sum best c draws).1.1 = pick sum (nb_id <$> best) (eligible stat neighbours) draws.
Proof.
  revert sum best c draws. induction neighbours as [|v rest IH]; intros sum best c draws; [done|]. unfold eligible. cbn [choose_loop List.filter]. unfold takes_part at 1.
  destruct (_ <=? FAIL_UNRELIABILITY)%Z; simpl; [|apply IH]. destruct (much_worse _ _); simpl.
  - destruct (0 <? nb_fines_points v); simpl; [apply IH|]. destruct (gen_range _ draws) as [r ds]. rewrite IH. unfold eligible. by destruct (r <? _).
  - destruct (gen_range _ draws) as [r ds]. rewrite IH. unfold eligible. by destruct (r <? _).
Qed.

Definition node_statistics self : spec_float := f64_ratio (ns_fail_attempts self) (ns_all_attempts self).
Definition candidates self : list (N * N) := eligible (node_statistics self) (get_iter (ns_peers self)).

Lemma choose_neighbour_pick self draws : cache_ok (ns_peers self) → 1 < nc_count (ns_peers self) →
  nb_id <$> (choose_neighbour self draws).1.1 = pick 0 None (candidates self) draws.
Proof.
  intros H Hc. unfold choose_neighbour, candidates. rewrite (proj2 (N.eqb_neq _ 0)), (proj2 (N.eqb_neq _ 1)) by lia.
  destruct (get_iter_spec _ H) as [Hl _]. destruct (get_iter (ns_peers self)) as [|v l]; [simpl in Hl; lia|].
  pose proof (choose_loop_pick (node_statistics self) (v :: l) 0 None (ns_peers self) draws) as K. simpl (nb_id <$> None) in K. rewrite <- K. unfold node_statistics.
  by destruct (choose_loop (f64_ratio (ns_fail_attempts self) (ns_all_attempts self)) (v :: l) 0 None (ns_peers self) draws) as [[best c] ds].
Qed.

Lemma candidates_nodup self : cache_ok (ns_peers self) → NoDup (fst <$> candidates self).
Proof.
  intros H. unfold candidates, eligible. rewrite <- list_fmap_compose. eapply sublist_NoDup; [by apply get_iter_nodup|].
  apply fmap_sublist. generalize (get_iter (ns_peers self)). intros l. induction l as [|v l IH]; simpl; [constructor|]. destruct (takes_part _ v); [by constructor|by constructor].
Qed.
End choice.
