(* ===== verification/Awaiters.v ===== *)
(** * Operations that are done once and awaited by many

    Models [src/types/awaiters_pool.rs]: callers of [do_or_wait] with the same key do an
    operation once, the others (and the callers of [wait]) wait for its result.  Callers
    run concurrently: a caller is a small program whose atomic steps are the accesses to
    the shared map, to the flag [is_started] and to the watch channel, and the steps of
    all callers interleave in any order.  The result of the operation, the answer of
    [check_complete] and timeouts are arbitrary. *)

From S2P Require Import Prelude.

Section pool.
Context {I R : Type} `{Countable I}.

(** The result of an operation: a value or an error message. *)
Inductive OpResult := OpOk (r : R) | OpErr (message : N).

(** [OperationAwaiters]: the flag and the last value of the channel. *)
Record OperationAwaiters := { is_started : bool; channel : option OpResult }.

Definition OperationAwaiters_new (started : bool) : OperationAwaiters := {| is_started := started; channel := None |}.

(** What a caller does next.  [addr] is the address of the awaiters it holds. *)
Inductive Caller :=
| DoLookup (id : I)                          (* top of the loop of [do_or_wait] *)
| DoSwap (id : I) (addr : nat)               (* found: swap the flag *)
| DoAdd (id : I)                             (* not found: add new awaiters *)
| Operating (id : I) (addr : nat)            (* [operation.await] *)
| Removing (id : I) (addr : nat) (r : OpResult)
| Sending (id : I) (addr : nat) (r : OpResult)
| WaitLookup (id : I)                        (* top of the loop of [wait] *)
| WaitAdd (id : I)
| Waiting (id : I) (addr : nat)              (* [wait_operation] *)
| Returned (id : I) (addr : nat) (r : OpResult)
| GaveUp (id : I).                           (* timeout, or the operation was found complete *)

Record AwaitersPool := {
  ops_awaiters : gmap I nat;
  awaiters : list OperationAwaiters;
  callers : list Caller;
}.
Implicit Types (self : AwaitersPool) (id : I) (addr n : nat) (r : OpResult).

Definition put_caller self n (c : Caller) : AwaitersPool :=
  {| ops_awaiters := ops_awaiters self; awaiters := awaiters self; callers := <[n := c]> (callers self) |}.

(** [add_object_to_map] with new awaiters: fails when there are some. *)
Definition add_awaiters self id (started : bool) : option (nat * AwaitersPool) :=
  match ops_awaiters self !! id with
  | Some _ => None
  | None => let addr := length (awaiters self) in
      Some (addr, {| ops_awaiters := <[id := addr]> (ops_awaiters self); awaiters := awaiters self ++ [OperationAwaiters_new started]; callers := callers self |})
  end.

Definition change_awaiters self addr (a : OperationAwaiters) : AwaitersPool :=
  {| ops_awaiters := ops_awaiters self; awaiters := <[addr := a]> (awaiters self); callers := callers self |}.

Definition remove_awaiters self id : AwaitersPool :=
  {| ops_awaiters := delete id (ops_awaiters self); awaiters := awaiters self; callers := callers self |}.

(** One step of caller [n]. *)
Inductive caller_step self n : AwaitersPool → Prop :=
| step_do_found id addr : callers self !! n = Some (DoLookup id) → ops_awaiters self !! id = Some addr →
    caller_step self n (put_caller self n (DoSwap id addr))
| step_do_absent id : callers self !! n = Some (DoLookup id) → ops_awaiters self !! id = None →
    caller_step self n (put_caller self n (DoAdd id))
| step_swap id addr a : callers self !! n = Some (DoSwap id addr) → awaiters self !! addr = Some a →
    caller_step self n (put_caller (change_awaiters self addr {| is_started := true; channel := channel a |}) n
                          (if is_started a then Waiting id addr else Operating id addr))
| step_do_added id addr self' : callers self !! n = Some (DoAdd id) → add_awaiters self id true = Some (addr, self') →
    caller_step self n (put_caller self' n (Operating id addr))
| step_do_again id : callers self !! n = Some (DoAdd id) → add_awaiters self id true = None →
    caller_step self n (put_caller self n (DoLookup id))
| step_operation id addr r : callers self !! n = Some (Operating id addr) →
    caller_step self n (put_caller self n (Removing id addr r))
| step_remove id addr r : callers self !! n = Some (Removing id addr r) →
    caller_step self n (put_caller (remove_awaiters self id) n (Sending id addr r))
| step_send id addr r a : callers self !! n = Some (Sending id addr r) → awaiters self !! addr = Some a →
    caller_step self n (put_caller (change_awaiters self addr {| is_started := is_started a; channel := Some r |}) n (Returned id addr r))
| step_wait_found id addr : callers self !! n = Some (WaitLookup id) → ops_awaiters self !! id = Some addr →
    caller_step self n (put_caller self n (Waiting id addr))
| step_wait_absent id : callers self !! n = Some (WaitLookup id) → ops_awaiters self !! id = None →
    caller_step self n (put_caller self n (WaitAdd id))
| step_wait_added id addr self' : callers self !! n = Some (WaitAdd id) → add_awaiters self id false = Some (addr, self') →
    caller_step self n (put_caller self' n (Waiting id addr))
| step_wait_again id : callers self !! n = Some (WaitAdd id) → add_awaiters self id false = None →
    caller_step self n (put_caller self n (WaitLookup id))
| step_changed id addr a r : callers self !! n = Some (Waiting id addr) → awaiters self !! addr = Some a → channel a = Some r →
    caller_step self n (put_caller self n (Returned id addr r))
| step_give_up id addr : callers self !! n = Some (Waiting id addr) →
    caller_step self n (put_caller self n (GaveUp id)).

Definition starting (c : Caller) : bool := match c with DoLookup _ | WaitLookup _ => true | _ => false end.

Inductive pool_run : AwaitersPool → Prop :=
| run_start cs : forallb starting cs = true → pool_run {| ops_awaiters := ∅; awaiters := []; callers := cs |}
| run_caller self n self' : pool_run self → caller_step self n self' → pool_run self'
| run_arrive self c : pool_run self → starting c = true →
    pool_run {| ops_awaiters := ops_awaiters self; awaiters := awaiters self; callers := callers self ++ [c] |}.

(** ** The invariant *)

(** The caller does the operation of the awaiters: it holds them alone. *)
Definition owns (c : Caller) : option (I * nat) :=
  match c with Operating id addr | Removing id addr _ | Sending id addr _ => Some (id, addr) | _ => None end.

(** The awaiters that a caller refers to. *)
Definition holds (c : Caller) : option (I * nat) :=
  match c with
  | DoSwap id addr | Operating id addr | Removing id addr _ | Sending id addr _ | Waiting id addr | Returned id addr _ => Some (id, addr)
  | _ => None
  end.

(** [key addr] is the key that the awaiters were made for. *)
Record pool_inv (key : nat → I) self : Prop := {
  pi_map id addr : ops_awaiters self !! id = Some addr → key addr = id ∧ ∃ a, awaiters self !! addr = Some a ∧ channel a = None;
  pi_holds n c id addr : callers self !! n = Some c → holds c = Some (id, addr) → key addr = id ∧ is_Some (awaiters self !! addr);
  pi_owner n n' c c' id addr : callers self !! n = Some c → callers self !! n' = Some c' → owns c = Some (id, addr) → owns c' = Some (id, addr) → n = n';
  pi_owned n c id addr : callers self !! n = Some c → owns c = Some (id, addr) →
    (∃ a, awaiters self !! addr = Some a ∧ is_started a = true ∧ channel a = None)
    ∧ (ops_awaiters self !! id = Some addr ↔ match c with Sending _ _ _ => False | _ => True end);
  pi_started addr a : awaiters self !! addr = Some a → is_started a = true → channel a = None →
    ∃ n c, callers self !! n = Some c ∧ owns c = Some (key addr, addr);
  pi_idle addr a : awaiters self !! addr = Some a → is_started a = false → ops_awaiters self !! key addr = Some addr ∧ channel a = None;
  pi_result n id addr r : callers self !! n = Some (Returned id addr r) → ∃ a, awaiters self !! addr = Some a ∧ channel a = Some r;
}.

Lemma put_lookup self n c m x : callers (put_caller self n c) !! m = Some x → m = n ∧ x = c ∨ m ≠ n ∧ callers self !! m = Some x.
Proof.
  simpl. intros Hm. apply list_lookup_insert_Some in Hm as [(-> & -> & _)|[? ?]]; [by left|right; by split].
Qed.

Lemma put_lookup_eq self n c c0 : callers self !! n = Some c0 → callers (put_caller self n c) !! n = Some c.
Proof. intros Hn. simpl. apply list_lookup_insert_eq. by eapply lookup_lt_Some. Qed.

Lemma put_lookup_ne self n c m : m ≠ n → callers (put_caller self n c) !! m = callers self !! m.
Proof. intros Hm. simpl. by apply list_lookup_insert_ne. Qed.

(** A caller that owns nothing moves on to where it owns nothing. *)
Lemma step_free key self n c c' : pool_inv key self → callers self !! n = Some c → owns c = None → owns c' = None →
  (∀ id addr, holds c' = Some (id, addr) → key addr = id ∧ is_Some (awaiters self !! addr)) →
  (∀ id addr r, c' = Returned id addr r → ∃ a, awaiters self !! addr = Some a ∧ channel a = Some r) → pool_inv key (put_caller self n c').
Proof.
  intros Hi Hn Ho Ho' Hh Hr. split.
  - apply (pi_map _ _ Hi).
  - intros m x id addr Hm Hx. apply put_lookup in Hm as [[-> ->]|[_ Hm]]; [by apply Hh|by eapply (pi_holds _ _ Hi)].
  - intros m m' x x' id addr Hm Hm' Hx Hx'. apply put_lookup in Hm as [[-> ->]|[? Hm]]; [congruence|].
    apply put_lookup in Hm' as [[-> ->]|[? Hm']]; [congruence|]. by eapply (pi_owner _ _ Hi).
  - intros m x id addr Hm Hx. apply put_lookup in Hm as [[-> ->]|[? Hm]]; [congruence|]. by eapply (pi_owned _ _ Hi).
  - intros addr a Ha Hs Hc. destruct (pi_started _ _ Hi addr a Ha Hs Hc) as (m & x & Hm & Hx). exists m, x. split; [|done].
    rewrite put_lookup_ne; [done|]. intros ->. congruence.
  - apply (pi_idle _ _ Hi).
  - intros m id addr r Hm. apply put_lookup in Hm as [[-> Hc]|[? Hm]]; [by eapply Hr|by eapply (pi_result _ _ Hi)].
Qed.

(** The owner of awaiters moves on and stays the owner. *)
Lemma step_own key self n c c' id addr : pool_inv key self → callers self !! n = Some c → owns c = Some (id, addr) → owns c' = Some (id, addr) →
  match c with Sending _ _ _ => False | _ => True end → match c' with Sending _ _ _ => False | _ => True end → pool_inv key (put_caller self n c').
Proof.
  intros Hi Hn Ho Ho' Hc Hc'. destruct (pi_owned _ _ Hi n c id addr Hn Ho) as [Ha Hmap].
  assert (holds c' = Some (id, addr)) as Hh by (by destruct c'; simpl in *).
  assert (holds c = Some (id, addr)) as Hh0 by (by destruct c; simpl in *).
  assert (∀ m x, callers (put_caller self n c') !! m = Some x → ∃ y, callers self !! m = Some y ∧ owns y = owns x ∧ holds x = holds y
    ∧ ((match y with Sending _ _ _ => False | _ => True end) ↔ (match x with Sending _ _ _ => False | _ => True end))) as K.
  { intros m x Hm. apply put_lookup in Hm as [[-> ->]|[_ Hm]]; [exists c; split; [done|]; split; [by rewrite Ho, Ho'|]; split; [by rewrite Hh, Hh0|]; by split|by exists x]. }
  split.
  - apply (pi_map _ _ Hi).
  - intros m x i ad Hm Hx. apply K in Hm as (y & Hm & _ & Hy & _). eapply (pi_holds _ _ Hi); [exact Hm|rewrite <- Hy; exact Hx].
  - intros m m' x x' i ad Hm Hm' Hx Hx'. apply K in Hm as (y & Hm & Hy & _), Hm' as (y' & Hm' & Hy' & _). eapply (pi_owner _ _ Hi); [exact Hm|exact Hm'|rewrite Hy; exact Hx|rewrite Hy'; exact Hx'].
  - intros m x i ad Hm Hx. apply K in Hm as (y & Hm & Hy & _ & Hs). rewrite <- Hs. eapply (pi_owned _ _ Hi); [exact Hm|rewrite Hy; exact Hx].
  - intros ad a Hda Hst Hch. destruct (pi_started _ _ Hi ad a Hda Hst Hch) as (m & x & Hm & Hx). destruct (decide (m = n)) as [->|Hne].
    + exists n, c'. split; [by eapply put_lookup_eq|]. congruence.
    + exists m, x. by rewrite put_lookup_ne.
  - apply (pi_idle _ _ Hi).
  - intros m i ad r Hm. apply put_lookup in Hm as [[-> <-]|[? Hm]]; [done|by eapply (pi_result _ _ Hi)].
Qed.

(** The flag of idle awaiters is set by the one who does the operation. *)
Lemma step_claim key self n id addr a : pool_inv key self → callers self !! n = Some (DoSwap id addr) → awaiters self !! addr = Some a → is_started a = false →
  pool_inv key (put_caller (change_awaiters self addr {| is_started := true; channel := channel a |}) n (Operating id addr)).
Proof.
  intros Hi Hn Ha Hs. destruct (pi_idle _ _ Hi addr a Ha Hs) as [Hmap Hch]. destruct (pi_holds _ _ Hi n _ id addr Hn eq_refl) as [Hk _]. rewrite Hk in Hmap. rewrite Hch.
  set (a' := {| is_started := true; channel := None |}). set (self1 := change_awaiters self addr a').
  assert (awaiters self1 !! addr = Some a') as Ha' by (apply list_lookup_insert_eq; by eapply lookup_lt_Some).
  assert (∀ x, x ≠ addr → awaiters self1 !! x = awaiters self !! x) as Hne by (intros x Hx; by apply list_lookup_insert_ne).
  assert (∀ m x, callers self !! m = Some x → owns x ≠ Some (id, addr)) as Hfree.
  { intros m x Hm Hx. destruct (pi_owned _ _ Hi m x id addr Hm Hx) as [(b & Hb & Hst & _) _]. congruence. }
  split.
  - intros i ad Hm. destruct (pi_map _ _ Hi i ad Hm) as [Hki (b & Hb & Hbc)]. split; [done|]. destruct (decide (ad = addr)) as [->|Hx]; [by exists a'|exists b; by rewrite <- Hne in Hb].
  - intros m x i ad Hm Hx. assert (∀ y, is_Some (awaiters self !! y) → is_Some (awaiters self1 !! y)) as K.
    { intros y. unfold self1. simpl. by rewrite list_lookup_insert_is_Some. }
    apply put_lookup in Hm as [[-> ->]|[_ Hm]]; [injection Hx as <- <-; split; [done|eauto]|]. destruct (pi_holds _ _ Hi m x i ad Hm Hx). auto.
  - intros m m' x x' i ad Hm Hm' Hx Hx'. apply put_lookup in Hm as [[-> ->]|[? Hm]], Hm' as [[-> ->]|[? Hm']]; [done| | |by eapply (pi_owner _ _ Hi)].
    + injection Hx as <- <-. destruct (Hfree _ _ Hm' Hx').
    + injection Hx' as <- <-. destruct (Hfree _ _ Hm Hx).
  - intros m x i ad Hm Hx. apply put_lookup in Hm as [[-> ->]|[? Hm]]; [injection Hx as <- <-; split; [by exists a'|by split]|].
    destruct (pi_owned _ _ Hi m x i ad Hm Hx) as [(b & Hb & Hbs & Hbc) Hbm]. split; [|exact Hbm].
    destruct (decide (ad = addr)) as [->|Hxx]; [congruence|]. exists b. by rewrite <- Hne in Hb.
  - intros ad b Hb Hbs Hbc. change (awaiters self1 !! ad = Some b) in Hb. destruct (decide (ad = addr)) as [->|Hxx].
    + exists n, (Operating id addr). split; [by eapply put_lookup_eq|]. simpl. by rewrite Hk.
    + rewrite (Hne ad Hxx) in Hb. destruct (pi_started _ _ Hi ad b Hb Hbs Hbc) as (m & x & Hm & Hx). exists m, x. split; [|done].
      rewrite put_lookup_ne; [done|]. intros ->. simpl in Hm. rewrite Hn in Hm. injection Hm as <-. done.
  - intros ad b Hb Hbs. change (awaiters self1 !! ad = Some b) in Hb. destruct (decide (ad = addr)) as [->|Hxx]; [rewrite Ha' in Hb; injection Hb as <-; done|]. rewrite (Hne ad Hxx) in Hb. by apply (pi_idle _ _ Hi).
  - intros m i ad r Hm. apply put_lookup in Hm as [[_ ?]|[? Hm]]; [done|]. destruct (pi_result _ _ Hi m i ad r Hm) as (b & Hb & Hbc).
    destruct (decide (ad = addr)) as [->|Hxx]; [congruence|]. exists b. by rewrite <- Hne in Hb.
Qed.

(** New awaiters are added by their owner, or by one who waits. *)
Definition with_key (key : nat → I) addr id : nat → I := λ x, if decide (x = addr) then id else key x.

Lemma step_new key self n c id (started : bool) addr self' : pool_inv key self → callers self !! n = Some c → holds c = None →
  add_awaiters self id started = Some (addr, self') →
  pool_inv (with_key key addr id) (put_caller self' n (if started then Operating id addr else Waiting id addr)).
Proof.
  intros Hi Hn Hh Hadd. unfold add_awaiters in Hadd. destruct (ops_awaiters self !! id) eqn:Hid; [done|]. injection Hadd as <- <-.
  set (addr := length (awaiters self)). set (c' := if started then Operating id addr else Waiting id addr).
  set (self1 := {| ops_awaiters := _; awaiters := _; callers := _ |}).
  assert (awaiters self1 !! addr = Some (OperationAwaiters_new started)) as Hnew by (unfold self1, addr; simpl; by rewrite lookup_app_r, Nat.sub_diag by lia).
  assert (∀ x a, awaiters self1 !! x = Some a → x = addr ∧ a = OperationAwaiters_new started ∨ x ≠ addr ∧ awaiters self !! x = Some a) as Hinv.
  { intros x a Hx. unfold self1 in Hx. simpl in Hx. apply lookup_app_Some in Hx as [Hx|[Hl Hx]].
    - right. split; [apply lookup_lt_Some in Hx; unfold addr; lia|done].
    - apply list_lookup_singleton_Some in Hx as [Hx <-]. left. split; [unfold addr; lia|done]. }
  assert (∀ x a, awaiters self !! x = Some a → x ≠ addr ∧ awaiters self1 !! x = Some a) as Hold.
  { intros x a Hx. split; [apply lookup_lt_Some in Hx; unfold addr; lia|]. unfold self1. simpl. by apply lookup_app_l_Some. }
  assert (∀ x, x ≠ addr → with_key key addr id x = key x) as Hkey by (intros x Hx; unfold with_key; by rewrite decide_False).
  assert (with_key key addr id addr = id) as Hkn by (unfold with_key; by rewrite decide_True).
  assert (∀ m x i ad, callers self !! m = Some x → holds x = Some (i, ad) → ad ≠ addr) as Hfree.
  { intros m x i ad Hm Hx. destruct (pi_holds _ _ Hi m x i ad Hm Hx) as [_ [a Ha]]. by apply Hold in Ha as [? _]. }
  assert (∀ x, owns x = None ∨ owns x = holds x) as Hoh by (intros []; simpl; auto).
  split.
  - intros i ad Hm. simpl in Hm. apply lookup_insert_Some in Hm as [[<- <-]|[Hne Hm]]; [split; [done|]; exists (OperationAwaiters_new started); by split|].
    destruct (pi_map _ _ Hi i ad Hm) as [Hk (a & Ha & Hc)]. apply Hold in Ha as [Hx Ha]. rewrite Hkey by done. split; [done|]. by exists a.
  - intros m x i ad Hm Hx. apply put_lookup in Hm as [[-> ->]|[_ Hm]].
    + assert (i = id ∧ ad = addr) as [-> ->] by (unfold c' in Hx; destruct started; simpl in Hx; by simplify_eq). split; [done|]. by exists (OperationAwaiters_new started).
    + destruct (pi_holds _ _ Hi m x i ad Hm Hx) as [Hk [a Ha]]. apply Hold in Ha as [Hne Ha]. rewrite Hkey by done. split; [done|by exists a].
  - intros m m' x x' i ad Hm Hm' Hx Hx'. apply put_lookup in Hm as [[-> ->]|[? Hm]], Hm' as [[-> ->]|[? Hm']]; [done| | |by eapply (pi_owner _ _ Hi)].
    + assert (ad = addr) as -> by (unfold c' in Hx; destruct started; simpl in Hx; by simplify_eq). destruct (Hoh x') as [E|E]; [congruence|].
      rewrite E in Hx'. by destruct (Hfree _ _ _ _ Hm' Hx').
    + assert (ad = addr) as -> by (unfold c' in Hx'; destruct started; simpl in Hx'; by simplify_eq). destruct (Hoh x) as [E|E]; [congruence|].
      rewrite E in Hx. by destruct (Hfree _ _ _ _ Hm Hx).
  - intros m x i ad Hm Hx. apply put_lookup in Hm as [[-> ->]|[? Hm]].
    + unfold c' in *. destruct started; [|done]. injection Hx as <- <-. split; [by exists (OperationAwaiters_new true)|]. split; [done|]. intros _. apply lookup_insert_eq.
    + destruct (pi_owned _ _ Hi m x i ad Hm Hx) as [(a & Ha & Hs & Hc) Hmap]. apply Hold in Ha as [Hne Ha]. split; [by exists a|]. simpl.
      destruct (decide (i = id)) as [->|Hii]; [|by rewrite lookup_insert_ne]. rewrite lookup_insert_eq, <- Hmap, Hid. split; [by intros [= <-]|done].
  - intros ad a Ha Hs Hc. apply Hinv in Ha as [[-> ->]|[Hne Ha]].
    + exists n, c'. split; [by eapply put_lookup_eq|]. rewrite Hkn. unfold c'. simpl in Hs. by rewrite Hs.
    + destruct (pi_started _ _ Hi ad a Ha Hs Hc) as (m & x & Hm & Hx). exists m, x. rewrite Hkey by done. split; [|done].
      rewrite put_lookup_ne; [done|]. intros ->. rewrite Hn in Hm. injection Hm as <-. destruct (Hoh c) as [E|E]; congruence.
  - intros ad a Ha Hs. apply Hinv in Ha as [[-> ->]|[Hne Ha]]; [rewrite Hkn; split; [apply lookup_insert_eq|done]|].
    rewrite Hkey by done. destruct (pi_idle _ _ Hi ad a Ha Hs) as [Hm Hc]. split; [|done]. simpl. rewrite lookup_insert_ne; [done|]. intros E. rewrite <- E in Hm. congruence.
  - intros m i ad r Hm. apply put_lookup in Hm as [[_ E]|[? Hm]]; [unfold c' in E; by destruct started|].
    destruct (pi_result _ _ Hi m i ad r Hm) as (a & Ha & Hc). apply Hold in Ha as [_ Ha]. by exists a.
Qed.

(** The owner removes its awaiters from the map, then sends the result. *)
Lemma step_removed key self n id addr r : pool_inv key self → callers self !! n = Some (Removing id addr r) →
  pool_inv key (put_caller (remove_awaiters self id) n (Sending id addr r)).
Proof.
  intros Hi Hn. destruct (pi_owned _ _ Hi n _ id addr Hn eq_refl) as [Ha Hmap]. destruct (pi_holds _ _ Hi n _ id addr Hn eq_refl) as [Hk _].
  assert (ops_awaiters self !! id = Some addr) as Hid by by apply Hmap.
  assert (∀ m x i ad, m ≠ n → callers self !! m = Some x → owns x = Some (i, ad) → i ≠ id ∨ match x with Sending _ _ _ => True | _ => False end) as Hother.
  { intros m x i ad Hm Hx Ho. destruct (decide (i = id)) as [->|]; [|by left]. right. destruct (pi_owned _ _ Hi m x id ad Hx Ho) as [_ Hx'].
    assert (match x with Sending _ _ _ => False | _ => True end → False) as K by (intros T; apply Hx' in T; rewrite Hid in T; injection T as <-; by apply Hm; eapply (pi_owner _ _ Hi m n x _ id addr Hx Hn Ho)).
    by destruct x; try destruct (K Logic.I). }
  split.
  - intros i ad Hm. simpl in Hm. apply lookup_delete_Some in Hm as [_ Hm]. by apply (pi_map _ _ Hi).
  - intros m x i ad Hm Hx. apply put_lookup in Hm as [[-> ->]|[_ Hm]]; [|by eapply (pi_holds _ _ Hi)]. injection Hx as <- <-. eapply (pi_holds _ _ Hi); [exact Hn|done].
  - intros m m' x x' i ad Hm Hm' Hx Hx'. apply put_lookup in Hm as [[-> ->]|[? Hm]], Hm' as [[-> ->]|[? Hm']]; [done| | |by eapply (pi_owner _ _ Hi)].
    + injection Hx as <- <-. by eapply (pi_owner _ _ Hi _ _ _ _ id addr Hn Hm').
    + injection Hx' as <- <-. by eapply (pi_owner _ _ Hi _ _ _ _ id addr Hm Hn).
  - intros m x i ad Hm Hx. simpl. apply put_lookup in Hm as [[-> ->]|[Hne Hm]].
    + injection Hx as <- <-. split; [done|]. by rewrite lookup_delete_eq.
    + destruct (pi_owned _ _ Hi m x i ad Hm Hx) as [Hb Hbm]. split; [done|]. destruct (Hother m x i ad Hne Hm Hx) as [Hi'|Hs].
      * by rewrite lookup_delete_ne.
      * destruct x; try done. destruct (decide (i = id)) as [->|?]; [by rewrite lookup_delete_eq|by rewrite lookup_delete_ne].
  - intros ad a Hd Hs Hc. destruct (pi_started _ _ Hi ad a Hd Hs Hc) as (m & x & Hm & Hx). destruct (decide (m = n)) as [->|Hne].
    + exists n, (Sending id addr r). split; [by eapply put_lookup_eq|]. simpl in Hm. rewrite Hn in Hm. by injection Hm as <-.
    + exists m, x. by rewrite put_lookup_ne.
  - intros ad a Hd Hs. destruct (pi_idle _ _ Hi ad a Hd Hs) as [Hm Hc]. split; [|done]. simpl. rewrite lookup_delete_ne; [done|]. intros E. rewrite <- E, Hid in Hm. injection Hm as <-.
    destruct Ha as (b & Hb & Hbs & _). simpl in Hd. congruence.
  - intros m i ad r' Hm. apply put_lookup in Hm as [[_ E]|[? Hm]]; [done|]. by eapply (pi_result _ _ Hi).
Qed.

Lemma step_sent key self n id addr r a : pool_inv key self → callers self !! n = Some (Sending id addr r) → awaiters self !! addr = Some a →
  pool_inv key (put_caller (change_awaiters self addr {| is_started := is_started a; channel := Some r |}) n (Returned id addr r)).
Proof.
  intros Hi Hn Ha. destruct (pi_owned _ _ Hi n _ id addr Hn eq_refl) as [(a0 & Ha0 & Hs & Hc) Hmap]. rewrite Ha in Ha0. injection Ha0 as <-.
  destruct (pi_holds _ _ Hi n _ id addr Hn eq_refl) as [Hk _]. rewrite Hs. set (a' := {| is_started := true; channel := Some r |}). set (self1 := change_awaiters self addr a').
  assert (awaiters self1 !! addr = Some a') as Ha' by (apply list_lookup_insert_eq; by eapply lookup_lt_Some).
  assert (∀ x, x ≠ addr → awaiters self1 !! x = awaiters self !! x) as Hne by (intros x Hx; by apply list_lookup_insert_ne).
  assert (∀ i, ops_awaiters self !! i ≠ Some addr) as Hout.
  { intros i Hm. destruct (pi_map _ _ Hi i addr Hm) as [Hki _]. rewrite Hk in Hki. subst i. by apply Hmap in Hm. }
  assert (∀ m x i, m ≠ n → callers self !! m = Some x → owns x ≠ Some (i, addr)) as Halone.
  { intros m x i Hm Hx Ho. assert (i = id) as ->.
    { destruct (pi_holds _ _ Hi m x i addr Hx) as [<- _]; [by destruct x|done]. }
    by apply Hm; eapply (pi_owner _ _ Hi m n x _ id addr Hx Hn Ho). }
  split.
  - intros i ad Hm. destruct (pi_map _ _ Hi i ad Hm) as [Hki (b & Hb & Hbc)]. split; [done|]. exists b. rewrite <- Hne in Hb; [done|]. intros ->. by apply Hout in Hm.
  - intros m x i ad Hm Hx. assert (∀ y, is_Some (awaiters self !! y) → is_Some (awaiters self1 !! y)) as K.
    { intros y. unfold self1. simpl. by rewrite list_lookup_insert_is_Some. }
    apply put_lookup in Hm as [[-> ->]|[_ Hm]]; [injection Hx as <- <-; split; [done|eauto]|]. destruct (pi_holds _ _ Hi m x i ad Hm Hx). auto.
  - intros m m' x x' i ad Hm Hm' Hx Hx'. apply put_lookup in Hm as [[-> ->]|[? Hm]], Hm' as [[-> ->]|[? Hm']]; [done|done|done|by eapply (pi_owner _ _ Hi)].
  - intros m x i ad Hm Hx. apply put_lookup in Hm as [[-> ->]|[Hnm Hm]]; [done|]. destruct (pi_owned _ _ Hi m x i ad Hm Hx) as [(b & Hb & Hbs & Hbc) Hbm].
    split; [|exact Hbm]. exists b. rewrite <- Hne in Hb; [done|]. intros ->. by apply (Halone m x i).
  - intros ad b Hb Hbs Hbc. change (awaiters self1 !! ad = Some b) in Hb. destruct (decide (ad = addr)) as [->|Hxx]; [rewrite Ha' in Hb; injection Hb as <-; done|].
    rewrite (Hne ad Hxx) in Hb. destruct (pi_started _ _ Hi ad b Hb Hbs Hbc) as (m & x & Hm & Hx). exists m, x. split; [|done].
    rewrite put_lookup_ne; [done|]. intros ->. rewrite Hn in Hm. injection Hm as <-. simpl in Hx. congruence.
  - intros ad b Hb Hbs. change (awaiters self1 !! ad = Some b) in Hb. destruct (decide (ad = addr)) as [->|Hxx]; [rewrite Ha' in Hb; injection Hb as <-; done|].
    rewrite (Hne ad Hxx) in Hb. by apply (pi_idle _ _ Hi).
  - intros m i ad r' Hm. apply put_lookup in Hm as [[_ [= -> -> ->]]|[? Hm]]; [by exists a'|]. destruct (pi_result _ _ Hi m i ad r' Hm) as (b & Hb & Hbc).
    exists b. rewrite <- Hne in Hb; [done|]. intros ->. congruence.
Qed.

Lemma caller_step_inv key self n self' : pool_inv key self → caller_step self n self' → ∃ key', pool_inv key' self'.
Proof.
  intros Hi Hs. destruct Hs as [id addr Hn Hm|id Hn Hm|id addr a Hn Ha|id addr s' Hn Hadd|id Hn Hadd|id addr r Hn|id addr r Hn|id addr r a Hn Ha
    |id addr Hn Hm|id Hn Hm|id addr s' Hn Hadd|id Hn Hadd|id addr a r Hn Ha Hc|id addr Hn].
  - exists key. eapply step_free; [done|exact Hn|done|done| |done]. intros i ad [= <- <-]. destruct (pi_map _ _ Hi id addr Hm) as [? (a & ? & _)]. eauto.
  - exists key. by eapply step_free.
  - exists key. destruct (is_started a) eqn:Est; [|by eapply step_claim]. destruct a as [st ch]. simpl in *. subst st.
    replace (change_awaiters self addr {| is_started := true; channel := ch |}) with self.
    + eapply step_free; [done|exact Hn|done|done| |done]. intros i ad [= <- <-]. eapply (pi_holds _ _ Hi); [exact Hn|done].
    + destruct self. unfold change_awaiters. simpl in *. f_equal. by rewrite list_insert_id.
  - eexists. eapply (step_new key self n _ id true); [done|exact Hn|done|exact Hadd].
  - exists key. by eapply step_free.
  - exists key. by eapply (step_own key self n _ _ id addr).
  - exists key. by eapply step_removed.
  - exists key. by eapply step_sent.
  - exists key. eapply step_free; [done|exact Hn|done|done| |done]. intros i ad [= <- <-]. destruct (pi_map _ _ Hi id addr Hm) as [? (a & ? & _)]. eauto.
  - exists key. by eapply step_free.
  - eexists. eapply (step_new key self n _ id false); [done|exact Hn|done|exact Hadd].
  - exists key. by eapply step_free.
  - exists key. eapply step_free; [done|exact Hn|done|done| |].
    + intros i ad [= <- <-]. eapply (pi_holds _ _ Hi); [exact Hn|done].
    + intros i ad r' [= <- <- <-]. by exists a.
  - exists key. by eapply step_free.
Qed.
Lemma starting_holds c : starting c = true → holds c = None ∧ owns c = None ∧ ∀ id addr r, c ≠ Returned id addr r.
Proof. by destruct c. Qed.

(** A caller that comes holds nothing. *)
Lemma arrive_inv key self c : pool_inv key self → starting c = true →
  pool_inv key {| ops_awaiters := ops_awaiters self; awaiters := awaiters self; callers := callers self ++ [c] |}.
Proof.
  intros Hi Hc. destruct (starting_holds c Hc) as (Hh & Ho & Hr).
  assert (∀ n x, (callers self ++ [c]) !! n = Some x → x = c ∨ callers self !! n = Some x) as K.
  { intros n x Hx. apply lookup_app_Some in Hx as [Hx|[_ Hx]]; [by right|]. apply list_lookup_singleton_Some in Hx as [_ <-]. by left. }
  split; simpl.
  - apply (pi_map _ _ Hi).
  - intros n x id addr Hn Hx. apply K in Hn as [->|Hn]; [congruence|by eapply (pi_holds _ _ Hi)].
  - intros n n' x x' id addr Hn Hn' Hx Hx'. apply K in Hn as [->|Hn]; [congruence|]. apply K in Hn' as [->|Hn']; [congruence|]. by eapply (pi_owner _ _ Hi).
  - intros n x id addr Hn Hx. apply K in Hn as [->|Hn]; [congruence|by eapply (pi_owned _ _ Hi)].
  - intros addr a Ha Hs Hch. destruct (pi_started _ _ Hi addr a Ha Hs Hch) as (n & x & Hn & Hx). exists n, x. split; [by apply lookup_app_l_Some|done].
  - apply (pi_idle _ _ Hi).
  - intros n id addr r Hn. apply K in Hn as [E|Hn]; [by destruct (Hr id addr r)|by eapply (pi_result _ _ Hi)].
Qed.

Lemma start_inv key cs : forallb starting cs = true → pool_inv key {| ops_awaiters := ∅; awaiters := []; callers := cs |}.
Proof.
  intros Hcs. assert (∀ n c, cs !! n = Some c → starting c = true) as K.
  { intros n c Hn. rewrite forallb_forall in Hcs. apply Hcs, list_elem_of_In. by eapply list_elem_of_lookup_2. }
  split; simpl; try done.
  - intros n c id addr Hn Hc. destruct (starting_holds c (K n c Hn)) as (Hh & _). congruence.
  - intros n n' c c' id addr Hn _ Hc. destruct (starting_holds c (K n c Hn)) as (_ & Ho & _). congruence.
  - intros n c id addr Hn Hc. destruct (starting_holds c (K n c Hn)) as (_ & Ho & _). congruence.
  - intros n id addr r Hn. by apply K in Hn.
Qed.

Lemma pool_run_inv (Hinh : Inhabited I) self : pool_run self → ∃ key, pool_inv key self.
Proof.
  intros Hr. induction Hr as [cs Hcs|self n self' _ [key IH] Hs|self c _ [key IH] Hc].
  - exists (λ _, inhabitant). by apply start_inv.
  - by eapply caller_step_inv.
  - exists key. by apply arrive_inv.
Qed.

(** The owner of awaiters can finish: in at most three steps its result is on the channel. *)
Definition some_step self self' : Prop := ∃ n, caller_step self n self'.

Lemma send_wakes self n m id id' addr r a : callers self !! n = Some (Sending id addr r) → callers self !! m = Some (Waiting id' addr) → awaiters self !! addr = Some a →
  ∃ self', rtc some_step self self' ∧ callers self' !! m = Some (Returned id' addr r).
Proof.
  intros Hn Hm Ha. assert (m ≠ n) as Hne by congruence. eexists. split.
  - eapply rtc_l; [exists n; eapply step_send; [exact Hn|exact Ha]|]. eapply rtc_l; [|apply rtc_refl]. exists m. eapply step_changed.
    + rewrite put_lookup_ne by done. exact Hm.
    + apply list_lookup_insert_eq. by eapply lookup_lt_Some.
    + done.
  - eapply put_lookup_eq. rewrite put_lookup_ne by done. exact Hm.
Qed.

Lemma remove_wakes self n m id id' addr r a : callers self !! n = Some (Removing id addr r) → callers self !! m = Some (Waiting id' addr) → awaiters self !! addr = Some a →
  ∃ self', rtc some_step self self' ∧ callers self' !! m = Some (Returned id' addr r).
Proof.
  intros Hn Hm Ha. assert (m ≠ n) as Hne by congruence.
  destruct (send_wakes (put_caller (remove_awaiters self id) n (Sending id addr r)) n m id id' addr r a) as (s & Hs & Hr).
  - by eapply put_lookup_eq.
  - by rewrite put_lookup_ne.
  - done.
  - exists s. split; [|done]. eapply rtc_l; [exists n; by apply step_remove|done].
Qed.

Lemma owner_wakes self n m c id id' addr a r0 : callers self !! n = Some c → owns c = Some (id, addr) →
  callers self !! m = Some (Waiting id' addr) → awaiters self !! addr = Some a →
  ∃ self' r, rtc some_step self self' ∧ callers self' !! m = Some (Returned id' addr r) ∧ match c with Operating _ _ => r = r0 | _ => True end.
Proof.
  intros Hn Ho Hm Ha. destruct c as [| | |i ad|i ad r|i ad r| | | | |]; try done; injection Ho as -> ->.
  - assert (m ≠ n) as Hne by congruence. destruct (remove_wakes (put_caller self n (Removing id addr r0)) n m id id' addr r0 a) as (s & Hs & Hr).
    + by eapply put_lookup_eq.
    + by rewrite put_lookup_ne.
    + done.
    + exists s, r0. split; [|done]. eapply rtc_l; [exists n; by apply step_operation|done].
  - destruct (remove_wakes self n m id id' addr r a Hn Hm Ha) as (s & ? & ?). by exists s, r.
  - destruct (send_wakes self n m id id' addr r a Hn Hm Ha) as (s & ? & ?). by exists s, r.
Qed.
End pool.
