(* ===== verification/Limits.v ===== *)
(** * Limits of a collated block

    Models [src/types/limits.rs]: the running estimate of the size of a block that is being
    collated.  The cells of the block are counted once per hash, in the order in which the
    collator registers messages; the limits themselves ([ton_block::BlockLimits]) and the
    usage tree ([ton_types::UsageTree]) are parameters. *)

From S2P Require Import Prelude.

(** [ton_types::Cell]: its representation hash, its length in bits and its references.  The
    cells that a collator registers are in memory, so that [reference(i)] is there for every
    [i] below [references_count()]. *)
Inductive Cell := mkCell (repr_hash : N) (bit_length : N) (references : list Cell).

Definition repr_hash (c : Cell) : N := let 'mkCell h _ _ := c in h.
Definition bit_length (c : Cell) : N := let 'mkCell _ b _ := c in b.
Definition references (c : Cell) : list Cell := let 'mkCell _ _ rs := c in rs.

Record Stats := { bits : N; cells : N; internal_refs : N; external_refs : N }.
Definition Stats_default : Stats := {| bits := 0; cells := 0; internal_refs := 0; external_refs := 0 |}.

Definition add_bits (s : Stats) (n : N) : Stats :=
  {| bits := u32_add (bits s) n; cells := cells s; internal_refs := internal_refs s; external_refs := external_refs s |}.
Definition add_cells (s : Stats) : Stats :=
  {| bits := bits s; cells := u32_add (cells s) 1; internal_refs := internal_refs s; external_refs := external_refs s |}.
Definition add_internal (s : Stats) : Stats :=
  {| bits := bits s; cells := cells s; internal_refs := u32_add (internal_refs s) 1; external_refs := external_refs s |}.
Definition add_external (s : Stats) : Stats :=
  {| bits := bits s; cells := cells s; internal_refs := internal_refs s; external_refs := u32_add (external_refs s) 1 |}.

Record CellStorageStats := {
  cells_seen : gset N;
  cells_stats : Stats;
  proof_seen : gset N;
  proof_stats : Stats;
}.
Definition CellStorageStats_default : CellStorageStats :=
  {| cells_seen := ∅; cells_stats := Stats_default; proof_seen := ∅; proof_stats := Stats_default |}.

Definition set_cells (self : CellStorageStats) (seen : gset N) (s : Stats) : CellStorageStats :=
  {| cells_seen := seen; cells_stats := s; proof_seen := proof_seen self; proof_stats := proof_stats self |}.
Definition set_proof (self : CellStorageStats) (seen : gset N) (s : Stats) : CellStorageStats :=
  {| cells_seen := cells_seen self; cells_stats := cells_stats self; proof_seen := seen; proof_stats := s |}.

(** [UsageTree::contains] of a tree, if there is one. *)
Definition UsageTree : Type := N → bool.

(** The first part of [traverse]: count a reference to the cell and, the first time, the cell. *)
Definition count_cell (self : CellStorageStats) (hash : N) (cells_stat : bool) : CellStorageStats * bool :=
  if cells_stat then
    let s := add_internal (cells_stats self) in
    if decide (hash ∈ cells_seen self) then (set_cells self (cells_seen self) s, false)
    else (set_cells self ({[hash]} ∪ cells_seen self) (add_cells s), true)
  else (self, false).

(** The second part: the same for the proof; the cells of the usage tree are external. *)
Definition count_proof (self : CellStorageStats) (hash : N) (proof_stat : bool) (usage_tree : option UsageTree) : CellStorageStats * bool :=
  if proof_stat then
    if match usage_tree with Some tree => tree hash | None => false end then
      (set_proof self (proof_seen self) (add_external (proof_stats self)), false)
    else
      let s := add_internal (proof_stats self) in
      if decide (hash ∈ proof_seen self) then (set_proof self (proof_seen self) s, false)
      else (set_proof self ({[hash]} ∪ proof_seen self) (add_cells s), true)
  else (self, false).

(** The third part: the bits of a cell that is counted. *)
Definition count_bits (self : CellStorageStats) (n : N) (cells_stat proof_stat : bool) : CellStorageStats :=
  let self := if cells_stat then set_cells self (cells_seen self) (add_bits (cells_stats self) n) else self in
  if proof_stat then set_proof self (proof_seen self) (add_bits (proof_stats self) n) else self.

Fixpoint traverse (self : CellStorageStats) (cell : Cell) (cells_stat proof_stat : bool) (usage_tree : option UsageTree) {struct cell} : CellStorageStats :=
  match cell with
  | mkCell hash len refs =>
      let '(self, cells_stat) := count_cell self hash cells_stat in
      let '(self, proof_stat) := count_proof self hash proof_stat usage_tree in
      if negb cells_stat && negb proof_stat then self
      else
        let self := count_bits self (len mod two32) cells_stat proof_stat in
        (fix go self refs := match refs with [] => self | r :: rest => go (traverse self r cells_stat proof_stat usage_tree) rest end) self refs
  end.

Definition add_cell (self : CellStorageStats) (cell : Cell) : CellStorageStats := traverse self cell true false None.
Definition add_proof (self : CellStorageStats) (cell : Cell) (usage_tree : UsageTree) : CellStorageStats := traverse self cell false true (Some usage_tree).

(** ** The status *)

(** [ParamLimitIndex] is ordered; its values are numbered in that order.  [ton_block]
    classifies a value against the limits of a block. *)
Class BlockLimits := {
  bytes_classify : N → N;
  gas_classify : N → N;
  lt_delta_classify : N → N;
  limits_fits : N → N → N → N → bool;
}.

Record BlockLimitStatus := {
  accounts : N;
  gas_used : N;
  lt_current : N;
  lt_start : N;
  in_msgs : N;
  out_msgs : N;
  out_msg_queue_ops : N;
  stats : CellStorageStats;
  transactions : N;
}.
Section status.
Implicit Types (self : BlockLimitStatus).

Definition with_limits : BlockLimitStatus :=
  {| accounts := 0; gas_used := 0; lt_current := 0; lt_start := two64 - 1; in_msgs := 0; out_msgs := 0; out_msg_queue_ops := 0;
     stats := CellStorageStats_default; transactions := 0 |}.

Definition add_gas_used self (gas : N) : BlockLimitStatus :=
  {| accounts := accounts self; gas_used := u32_add (gas_used self) gas; lt_current := lt_current self; lt_start := lt_start self; in_msgs := in_msgs self;
     out_msgs := out_msgs self; out_msg_queue_ops := out_msg_queue_ops self; stats := stats self; transactions := transactions self |}.

Definition add_transaction self (account : bool) : BlockLimitStatus :=
  {| accounts := if account then u32_add (accounts self) 1 else accounts self; gas_used := gas_used self; lt_current := lt_current self; lt_start := lt_start self;
     in_msgs := in_msgs self; out_msgs := out_msgs self; out_msg_queue_ops := out_msg_queue_ops self; stats := stats self; transactions := u32_add (transactions self) 1 |}.

Definition register_out_msg_queue_op self (root : option Cell) (usage_tree : UsageTree) (force : bool) : BlockLimitStatus :=
  let ops := u32_add (out_msg_queue_ops self) 1 in
  let st := if force || (N.land ops 63 =? 0)%N then match root with Some root => add_proof (stats self) root usage_tree | None => stats self end else stats self in
  {| accounts := accounts self; gas_used := gas_used self; lt_current := lt_current self; lt_start := lt_start self;
     in_msgs := in_msgs self; out_msgs := out_msgs self; out_msg_queue_ops := ops; stats := st; transactions := transactions self |}.

Definition register_in_msg_op self (msg_cell msg_dict : Cell) : BlockLimitStatus :=
  let n := u32_add (in_msgs self) 1 in
  let st := add_cell (stats self) msg_cell in
  let st := if (N.land n 63 =? 0)%N then add_cell st msg_dict else st in
  {| accounts := accounts self; gas_used := gas_used self; lt_current := lt_current self; lt_start := lt_start self;
     in_msgs := n; out_msgs := out_msgs self; out_msg_queue_ops := out_msg_queue_ops self; stats := st; transactions := transactions self |}.

Definition register_out_msg_op self (msg_cell msg_dict : Cell) : BlockLimitStatus :=
  let n := u32_add (out_msgs self) 1 in
  let st := add_cell (stats self) msg_cell in
  let st := if (N.land n 63 =? 0)%N then add_cell st msg_dict else st in
  {| accounts := accounts self; gas_used := gas_used self; lt_current := lt_current self; lt_start := lt_start self;
     in_msgs := in_msgs self; out_msgs := n; out_msg_queue_ops := out_msg_queue_ops self; stats := st; transactions := transactions self |}.

Definition update_lt self (lt : N) : BlockLimitStatus :=
  let current := N.max (lt_current self) lt in
  {| accounts := accounts self; gas_used := gas_used self; lt_current := current; lt_start := if (current <? lt_start self)%N then lt else lt_start self;
     in_msgs := in_msgs self; out_msgs := out_msgs self; out_msg_queue_ops := out_msg_queue_ops self; stats := stats self; transactions := transactions self |}.

Definition lt_delta self : N := (if (lt_start self <=? lt_current self)%N then lt_current self - lt_start self else 0) mod two32.

(** The sum in the order of the source; every addition and product wraps. *)
Definition estimate_block_size self (extra : option CellStorageStats) : N :=
  let c := cells_stats (stats self) in
  let p := proof_stats (stats self) in
  let plus (f : Stats → N) := match extra with Some e => u32_add (u32_add (f c) (f p)) (f (cells_stats e)) | None => u32_add (f c) (f p) end in
  let ret := u32_add 2000 (match extra with Some _ => 200 | None => 0 end) in
  u32_add (u32_add (u32_add (u32_add (u32_add (u32_add ret (N.shiftr (plus bits) 3)) (u32_mul (plus cells) 12)) (u32_mul (plus internal_refs) 3))
    (u32_mul (plus external_refs) 4)) (u32_mul (accounts self) 200)) (u32_mul (transactions self) 200).

Definition classify `{BlockLimits} self : N :=
  N.max (N.max (bytes_classify (estimate_block_size self None)) (gas_classify (gas_used self))) (lt_delta_classify (lt_delta self)).

Definition fits `{BlockLimits} self (level : N) : bool := limits_fits level (estimate_block_size self None) (gas_used self) (lt_delta self).

End status.

(** ** Cells are counted once

    The traversal of [Limits] against its specification: after any number of registered
    cells the statistics are sums over the distinct hashes below them. *)

(** A cell and the cells below it, with repetitions. *)
Fixpoint subcells (c : Cell) : list Cell := let 'mkCell _ _ refs := c in c :: concat (map subcells refs).

Definition hashes (cs : list Cell) : gset N := list_to_set (map repr_hash (concat (map subcells cs))).

Definition cell_size (c : Cell) : nat := length (subcells c).

Lemma subcells_eq c : subcells c = c :: concat (map subcells (references c)).
Proof. by destruct c. Qed.

Lemma hashes_nil : hashes [] = ∅.
Proof. done. Qed.

Lemma hashes_cons c cs : hashes (c :: cs) = hashes [c] ∪ hashes cs.
Proof. unfold hashes. simpl. rewrite app_nil_r, map_app. by rewrite list_to_set_app_L. Qed.

Lemma hashes_one c : hashes [c] = {[repr_hash c]} ∪ hashes (references c).
Proof. unfold hashes. simpl. rewrite app_nil_r, subcells_eq. done. Qed.

Lemma elem_of_subcells c : c ∈ subcells c.
Proof. rewrite subcells_eq. apply list_elem_of_here. Qed.

Lemma elem_of_concat_map {A B} (f : A → list B) l x : x ∈ concat (map f l) ↔ ∃ y, y ∈ l ∧ x ∈ f y.
Proof.
  induction l as [|a l IH]; simpl.
  - split; [intros []%elem_of_nil|intros (y & []%elem_of_nil & _)].
  - rewrite elem_of_app, IH. split.
    + intros [?|(y & ? & ?)]; [exists a|exists y]; split; try done; [apply list_elem_of_here|by apply list_elem_of_further].
    + intros (y & [->|?]%elem_of_cons & ?); [by left|right; by exists y].
Qed.

Lemma subcells_ref c r : r ∈ references c → ∀ x, x ∈ subcells r → x ∈ subcells c.
Proof. intros Hr x Hx. rewrite subcells_eq. apply list_elem_of_further. apply elem_of_concat_map. by exists r. Qed.

Lemma ref_size c r : r ∈ references c → (cell_size r < cell_size c)%nat.
Proof.
  intros Hr. unfold cell_size at 2. rewrite subcells_eq. simpl. apply list_elem_of_split in Hr as (l1 & l2 & ->).
  rewrite map_app, concat_app, length_app. simpl. rewrite length_app. unfold cell_size. lia.
Qed.

(** Below a cell are all the cells below those. *)
Lemma subcells_trans : ∀ n c x, (cell_size c < n)%nat → x ∈ subcells c → ∀ y, y ∈ subcells x → y ∈ subcells c.
Proof.
  induction n as [|n IH]; intros c x Hn Hx y Hy; [lia|]. rewrite subcells_eq in Hx. apply elem_of_cons in Hx as [->|Hx]; [done|].
  apply elem_of_concat_map in Hx as (r & Hr & Hx). pose proof (ref_size c r Hr). eapply subcells_ref; [done|]. eapply IH; [|done|done]. lia.
Qed.

Lemma elem_of_cell_hashes h c : h ∈ hashes [c] ↔ ∃ x, x ∈ subcells c ∧ repr_hash x = h.
Proof.
  unfold hashes. simpl. rewrite app_nil_r, elem_of_list_to_set. split.
  - intros (x & -> & Hx)%list_elem_of_fmap. by exists x.
  - intros (x & Hx & <-). apply list_elem_of_fmap. by exists x.
Qed.

Lemma cell_hashes_sub c x : x ∈ subcells c → hashes [x] ⊆ hashes [c].
Proof. intros Hx h. rewrite !elem_of_cell_hashes. intros (y & Hy & Hh). exists y. split; [|done]. by apply (subcells_trans (S (cell_size c)) c x); [lia|..]. Qed.

Lemma cell_hashes_ref c r : r ∈ references c → hashes [r] ⊆ hashes (references c).
Proof.
  intros Hr. induction (references c) as [|a l IH]; [by apply elem_of_nil in Hr|]. rewrite hashes_cons.
  apply elem_of_cons in Hr as [->|Hr]; [set_solver|specialize (IH Hr); set_solver].
Qed.

(** ** Sums over a set of hashes *)
Section sums.
(** The cell of a hash. *)
Context (cell_at : N → Cell).
Implicit Types (S T : gset N).

Definition total (f : Cell → N) S : N := foldr (λ h acc, f (cell_at h) + acc)%N 0%N (elements S).

Lemma total_perm f (l l' : list N) : l ≡ₚ l' → foldr (λ h acc, f (cell_at h) + acc)%N 0%N l = foldr (λ h acc, f (cell_at h) + acc)%N 0%N l'.
Proof. induction 1; simpl; lia. Qed.

Lemma total_app f (l l' : list N) :
  foldr (λ h acc, f (cell_at h) + acc)%N 0%N (l ++ l') = (foldr (λ h acc, f (cell_at h) + acc)%N 0%N l + foldr (λ h acc, f (cell_at h) + acc)%N 0%N l')%N.
Proof. induction l as [|h l IH]; simpl; lia. Qed.

Lemma total_union f S T : S ## T → total f (S ∪ T) = (total f S + total f T)%N.
Proof. intros HST. unfold total. rewrite <- total_app. apply total_perm. by apply elements_disj_union. Qed.

Lemma total_one f h : total f {[h]} = f (cell_at h).
Proof. unfold total. rewrite elements_singleton. simpl. lia. Qed.

Lemma total_empty f : total f ∅ = 0%N.
Proof. done. Qed.

Definition count_refs (c : Cell) : N := N.of_nat (length (references c)).

(** What is added to the statistics when the seen hashes grow by [T] and [k] references are followed. *)
Record adds (s s' : Stats) (T : gset N) (k : N) : Prop := {
  adds_bits : bits s' mod two32 = (bits s + total bit_length T) mod two32;
  adds_cells : cells s' mod two32 = (cells s + total (λ _, 1) T) mod two32;
  adds_internal : internal_refs s' mod two32 = (internal_refs s + k + total count_refs T) mod two32;
  adds_external : external_refs s' = external_refs s;
}.

Lemma disjoint_rest S T T' : S ∖ T ## T' ∖ (T ∪ S).
Proof. intros h [H1 H2]%elem_of_difference [H3 H4]%elem_of_difference. apply H4. apply elem_of_union. by right. Qed.

Lemma disjoint_one h S T : {[h]} ## S ∖ ({[h]} ∪ T).
Proof. intros x Hx [_ H4]%elem_of_difference. apply H4. apply elem_of_union. by left. Qed.

Lemma adds_nothing s : adds s s ∅ 0.
Proof. split; rewrite ?total_empty, ?N.add_0_r; done. Qed.

Lemma mod_chain a b c x y : b mod two32 = (a + x) mod two32 → c mod two32 = (b + y) mod two32 → c mod two32 = (a + (x + y)) mod two32.
Proof.
  intros Hb Hc. rewrite Hc, N.add_mod, Hb by done. rewrite <- N.add_mod by done. f_equal. lia.
Qed.

Lemma adds_trans s s1 s2 T T' k k' : T ## T' → adds s s1 T k → adds s1 s2 T' k' → adds s s2 (T ∪ T') (k + k').
Proof.
  intros Hd [B1 C1 I1 E1] [B2 C2 I2 E2]. split; rewrite ?(total_union _ _ _ Hd).
  - by eapply mod_chain.
  - by eapply mod_chain.
  - rewrite <- N.add_assoc in I1, I2. rewrite (mod_chain _ _ _ _ _ I1 I2). f_equal. lia.
  - congruence.
Qed.

(** A cell that is met for the first time; its own references are still to be followed. *)
Lemma adds_new s h len n : cell_at h = n → bit_length n mod two32 = len mod two32 →
  ∀ s', s' = add_bits (add_cells (add_internal s)) len →
  bits s' mod two32 = (bits s + total bit_length {[h]}) mod two32 ∧ cells s' mod two32 = (cells s + total (λ _, 1) {[h]}) mod two32
  ∧ internal_refs s' mod two32 = (internal_refs s + 1) mod two32 ∧ external_refs s' = external_refs s.
Proof.
  intros Hh Hl s' ->. rewrite !total_one, Hh. simpl. unfold u32_add. rewrite !N.mod_mod by done. split; [|done].
  rewrite (N.add_mod (bits s) len), <- Hl, <- N.add_mod by done. done.
Qed.

(** Every seen cell that is smaller than [n] is seen with all below it. *)
Definition seen_below (n : nat) S : Prop := ∀ h, h ∈ S → (cell_size (cell_at h) < n)%nat → hashes [cell_at h] ⊆ S.

Definition known (c : Cell) : Prop := ∀ x, x ∈ subcells c → cell_at (repr_hash x) = x.

Lemma known_ref c r : known c → r ∈ references c → known r.
Proof. intros Hk Hr x Hx. apply Hk. by eapply subcells_ref. Qed.

Lemma seen_below_grow n S c : known c → seen_below n S → seen_below n (S ∪ hashes [c]).
Proof.
  intros Hk HS h Hh Hn. apply elem_of_union in Hh as [Hh|Hh]; [specialize (HS h Hh Hn); set_solver|].
  apply elem_of_cell_hashes in Hh as (x & Hx & <-). rewrite (Hk x Hx). apply cell_hashes_sub in Hx. set_solver.
Qed.

(** What the traversal of a list of cells has to achieve. *)
Definition counted (self self' : CellStorageStats) (cs : list Cell) : Prop :=
  cells_seen self' = cells_seen self ∪ hashes cs
  ∧ adds (cells_stats self) (cells_stats self') (hashes cs ∖ cells_seen self) (N.of_nat (length cs))
  ∧ proof_seen self' = proof_seen self ∧ proof_stats self' = proof_stats self.

Lemma counted_nil self : counted self self [].
Proof. unfold counted. rewrite hashes_nil. split; [by rewrite (right_id_L ∅ (∪))|]. split; [|done]. rewrite (subseteq_empty_difference_L ∅ (cells_seen self)) by apply empty_subseteq. apply adds_nothing. Qed.

Lemma counted_cons self self1 self2 c cs : counted self self1 [c] → counted self1 self2 cs → counted self self2 (c :: cs).
Proof.
  intros (S1 & A1 & P1 & Q1) (S2 & A2 & P2 & Q2). unfold counted. rewrite (hashes_cons c cs). split; [by rewrite S2, S1, (assoc_L (∪))|]. split; [|by rewrite P2, Q2].
  replace ((hashes [c] ∪ hashes cs) ∖ cells_seen self) with ((hashes [c] ∖ cells_seen self) ∪ (hashes cs ∖ cells_seen self1)).
  - replace (N.of_nat (length (c :: cs))) with (N.of_nat (length [c]) + N.of_nat (length cs)) by (simpl; lia). apply adds_trans with (cells_stats self1); [rewrite S1; apply disjoint_rest|done..].
  - rewrite S1. clear. apply leibniz_equiv. intros h. rewrite !elem_of_union, !elem_of_difference, !elem_of_union.
    destruct (decide (h ∈ cells_seen self)), (decide (h ∈ hashes [c])), (decide (h ∈ hashes cs)); naive_solver.
Qed.

Lemma traverse_eq self h len refs u :
  traverse self (mkCell h len refs) true false u =
    (let s := add_internal (cells_stats self) in
     if decide (h ∈ cells_seen self) then set_cells self (cells_seen self) s
     else foldl (λ acc r, traverse acc r true false u) (set_cells self ({[h]} ∪ cells_seen self) (add_bits (add_cells s) (len mod two32))) refs).
Proof.
  simpl. destruct (decide (h ∈ cells_seen self)); [done|]. simpl. unfold count_bits, set_cells. simpl.
  generalize {| cells_seen := {[h]} ∪ cells_seen self; cells_stats := add_bits (add_cells (add_internal (cells_stats self))) (len mod two32);
                proof_seen := proof_seen self; proof_stats := proof_stats self |}.
  induction refs as [|r rest IH]; intros acc; [reflexivity|]. apply IH.
Qed.

Lemma traverse_list n self cs u :
  (∀ self c, c ∈ cs → seen_below n (cells_seen self) → counted self (traverse self c true false u) [c]) →
  (∀ c, c ∈ cs → known c) → seen_below n (cells_seen self) → counted self (foldl (λ acc r, traverse acc r true false u) self cs) cs.
Proof.
  revert self. induction cs as [|c cs IH]; intros self Hc Hk HS; [apply counted_nil|]. simpl.
  assert (counted self (traverse self c true false u) [c]) as H1 by (apply Hc; [apply list_elem_of_here|done]).
  eapply counted_cons; [exact H1|]. apply IH.
  - intros self' c' Hc'. apply Hc. by apply list_elem_of_further.
  - intros c' Hc'. apply Hk. by apply list_elem_of_further.
  - destruct H1 as (-> & _). apply seen_below_grow; [apply Hk, list_elem_of_here|done].
Qed.

Lemma traverse_counted : ∀ m n self c u, (cell_size c < m)%nat → (cell_size c < n)%nat → known c → seen_below n (cells_seen self) →
  counted self (traverse self c true false u) [c].
Proof.
  induction m as [|m IH]; intros n self c u Hm Hn Hk HS; [lia|]. destruct c as [h len refs] eqn:Ec.
  assert (cell_at h = c) as Hh by (rewrite Ec; apply (Hk (mkCell h len refs)), elem_of_subcells). rewrite <- Ec in *. rewrite Ec at 1. rewrite traverse_eq. simpl.
  destruct (decide (h ∈ cells_seen self)) as [Hin|Hnew].
  - assert (hashes [c] ⊆ cells_seen self) as Hsub by (rewrite <- Hh; apply HS; [done|by rewrite Hh]). unfold counted. simpl.
    split; [symmetry; rewrite union_comm_L; by apply subseteq_union_1_L|]. split; [|done]. rewrite (subseteq_empty_difference_L _ _ Hsub).
    split; simpl; rewrite ?total_empty, ?N.add_0_r; try done. unfold u32_add. by rewrite N.mod_mod.
  - set (self1 := set_cells self ({[h]} ∪ cells_seen self) _).
    assert (references c = refs) as Hrefs by by rewrite Ec.
    assert (counted self1 (foldl (λ acc r, traverse acc r true false u) self1 refs) refs) as (S1 & A1 & P1 & Q1).
    { apply (traverse_list (cell_size c)).
      - intros s r Hr HSr. rewrite <- Hrefs in Hr. pose proof (ref_size c r Hr). apply (IH (cell_size c)); [lia|lia|by eapply known_ref|done].
      - intros r Hr. rewrite <- Hrefs in Hr. by eapply known_ref.
      - intros h' Hh' Hlt. simpl in Hh'. apply elem_of_union in Hh' as [->%elem_of_singleton|Hh']; [rewrite Hh in Hlt; lia|].
        simpl. assert (cell_size (cell_at h') < n)%nat as Hlt' by lia. specialize (HS h' Hh' Hlt'). set_solver. }
    assert (repr_hash c = h) as Hrh by by rewrite Ec.
    unfold counted. rewrite hashes_one, Hrefs, Hrh. simpl in S1. split; [by rewrite S1, (assoc_L (∪)), (comm_L (∪) (cells_seen self))|]. split; [|by rewrite P1, Q1].
    destruct (adds_new (cells_stats self) h (len mod two32) c Hh) with (s' := cells_stats self1) as (B & C & In & Ex); [by rewrite Ec, N.mod_mod|done|].
    replace (({[h]} ∪ hashes refs) ∖ cells_seen self) with ({[h]} ∪ hashes refs ∖ cells_seen self1).
    + destruct A1 as [B1 C1 I1 E1]. assert ({[h]} ## hashes refs ∖ cells_seen self1) as Hd by apply disjoint_one.
      split; rewrite ?(total_union _ _ _ Hd).
      * by eapply mod_chain.
      * by eapply mod_chain.
      * rewrite <- N.add_assoc in I1. rewrite (mod_chain _ _ _ _ _ In I1), total_one, Hh. unfold count_refs at 2. rewrite Hrefs. f_equal. simpl. lia.
      * congruence.
    + clear -Hnew. apply leibniz_equiv. intros x. simpl. rewrite !elem_of_union, !elem_of_difference, !elem_of_union, elem_of_singleton.
      split; [intros [->|[? ?]]; tauto|intros [[->|?] ?]; [by left|]]. destruct (decide (x = h)); [by left|right; tauto].
Qed.

Lemma seen_below_all n S cs : (∀ c, c ∈ cs → known c) → S = hashes cs → seen_below n S.
Proof.
  intros Hk -> h Hh _. induction cs as [|c cs IH]; [by apply elem_of_empty in Hh|]. rewrite hashes_cons in Hh |- *.
  apply elem_of_union in Hh as [Hh|Hh].
  - apply elem_of_cell_hashes in Hh as (x & Hx & <-). rewrite (Hk c (list_elem_of_here c cs) x Hx). apply cell_hashes_sub in Hx. set_solver.
  - assert (hashes [cell_at h] ⊆ hashes cs) by (apply IH; [intros; apply Hk; by apply list_elem_of_further|done]). set_solver.
Qed.

(** The statistics of a collator that has registered the cells [roots]. *)
Record stats_of (self : CellStorageStats) (roots : list Cell) : Prop := {
  so_seen : cells_seen self = hashes roots;
  so_bits : bits (cells_stats self) = total bit_length (hashes roots) mod two32;
  so_cells : cells (cells_stats self) = N.of_nat (size (hashes roots)) mod two32;
  so_internal : internal_refs (cells_stats self) = (N.of_nat (length roots) + total count_refs (hashes roots)) mod two32;
  so_external : external_refs (cells_stats self) = 0;
}.

Definition small (s : Stats) : Prop := bits s < two32 ∧ cells s < two32 ∧ internal_refs s < two32.

Lemma u32_add_small a b : u32_add a b < two32.
Proof. by apply N.mod_lt. Qed.

Lemma traverse_small : ∀ m self c b p u, (cell_size c < m)%nat → small (cells_stats self) → small (cells_stats (traverse self c b p u)).
Proof.
  induction m as [|m IH]; intros self c b p u Hm Hs; [lia|]. destruct c as [h len refs]. simpl.
  assert (small (cells_stats (count_cell self h b).1)) as H1.
  { unfold count_cell. destruct b; [|done]. destruct Hs as (? & ? & ?). destruct (decide _); repeat split; simpl; try done; apply u32_add_small. }
  destruct (count_cell self h b) as [self1 b1]. simpl in H1.
  assert (cells_stats (count_proof self1 h p u).1 = cells_stats self1) as H2.
  { unfold count_proof. destruct p; [|done]. destruct (match u with Some _ => _ | None => _ end); [done|]. by destruct (decide _). }
  destruct (count_proof self1 h p u) as [self2 p2]. simpl in H2. rewrite <- H2 in H1. destruct (negb b1 && negb p2); [done|].
  assert (small (cells_stats (count_bits self2 (len mod two32) b1 p2))) as H3.
  { unfold count_bits. destruct H1 as (? & ? & ?). destruct b1, p2; repeat split; simpl; try done; apply u32_add_small. }
  assert (∀ r, r ∈ refs → (cell_size r < m)%nat) as Hr.
  { intros r Hr. pose proof (ref_size (mkCell h len refs) r Hr). lia. }
  generalize dependent (count_bits self2 (len mod two32) b1 p2). clear -IH Hr. induction refs as [|r rest IHr]; intros acc Hacc; [done|].
  apply IHr; [intros; apply Hr; by apply list_elem_of_further|]. apply IH; [apply Hr, list_elem_of_here|done].
Qed.

Lemma total_size S : total (λ _, 1) S = N.of_nat (size S).
Proof. unfold total, size, set_size. simpl. induction (elements S) as [|h l IH]; simpl; lia. Qed.

(** Registering one more cell. *)
Lemma add_cell_stats self roots c : known c → (∀ r, r ∈ roots → known r) → stats_of self roots → stats_of (add_cell self c) (roots ++ [c]).
Proof.
  intros Hk Hks [HS HB HC HI HE]. assert (seen_below (S (cell_size c)) (cells_seen self)) as Hbelow by (eapply seen_below_all; [exact Hks|done]).
  destruct (traverse_counted (S (cell_size c)) (S (cell_size c)) self c None) as (S1 & [B1 C1 I1 E1] & _); [lia|lia|done|done|].
  destruct (traverse_small (S (cell_size c)) self c true false None) as (B2 & C2 & I2); [lia| |].
  { unfold small. rewrite HB, HC, HI. repeat split; by apply N.mod_lt. }
  fold (add_cell self c) in *. rewrite HS in *.
  assert (hashes (roots ++ [c]) = hashes roots ∪ hashes [c]) as Happ.
  { clear. induction roots as [|r rs IHr]; [simpl; rewrite hashes_nil; set_solver|]. simpl. by rewrite (hashes_cons r (rs ++ [c])), (hashes_cons r rs), IHr, (assoc_L (∪)). }
  assert (∀ f, total f (hashes (roots ++ [c])) = total f (hashes roots) + total f (hashes [c] ∖ hashes roots)) as Htot.
  { intros f. rewrite <- total_union by (intros x ? [_ ?]%elem_of_difference; contradiction). rewrite Happ. f_equal. apply leibniz_equiv. intros x. rewrite !elem_of_union, elem_of_difference. destruct (decide (x ∈ hashes roots)); tauto. }
  split.
  - by rewrite S1.
  - rewrite N.mod_small in B1 by done. rewrite B1, HB, N.add_mod_idemp_l by done. by rewrite Htot.
  - rewrite N.mod_small in C1 by done. rewrite C1, HC, N.add_mod_idemp_l by done. by rewrite <- !total_size, Htot.
  - rewrite N.mod_small in I1 by done. rewrite I1, HI. rewrite <- N.add_assoc, N.add_mod_idemp_l by done. rewrite Htot, length_app. f_equal. simpl. lia.
  - by rewrite E1.
Qed.
End sums.

(** The proof of the message queue does not count for the cells. *)
Lemma add_proof_cells : ∀ m self c u, (cell_size c < m)%nat →
  cells_seen (traverse self c false true u) = cells_seen self ∧ cells_stats (traverse self c false true u) = cells_stats self.
Proof.
  induction m as [|m IH]; intros self c u Hm; [lia|]. destruct c as [h len refs]. cbn [traverse count_cell].
  assert (cells_seen (count_proof self h true u).1 = cells_seen self ∧ cells_stats (count_proof self h true u).1 = cells_stats self) as [H1 H2].
  { unfold count_proof. destruct (match u with Some tree => tree h | None => false end); [split; reflexivity|]. destruct (decide _); split; reflexivity. }
  destruct (count_proof self h true u) as [self1 p]. simpl in H1, H2. destruct p; simpl; [|done].
  assert (∀ r, r ∈ refs → (cell_size r < m)%nat) as Hr.
  { intros r Hr. pose proof (ref_size (mkCell h len refs) r Hr). lia. }
  cbn [count_bits]. rewrite <- H1, <- H2.
  change (cells_seen self1) with (cells_seen (set_proof self1 (proof_seen self1) (add_bits (proof_stats self1) (len mod two32)))).
  change (cells_stats self1) with (cells_stats (set_proof self1 (proof_seen self1) (add_bits (proof_stats self1) (len mod two32)))).
  generalize (set_proof self1 (proof_seen self1) (add_bits (proof_stats self1) (len mod two32))). clear -IH Hr.
  induction refs as [|r rest IHr]; intros acc; [done|].
  destruct (IHr (λ r' Hr', Hr r' (list_elem_of_further r' r rest Hr')) (traverse acc r false true u)) as [E1 E2].
  destruct (IH acc r u (Hr r (list_elem_of_here r rest))) as [E3 E4]. by rewrite E1, E2, E3, E4.
Qed.

(** ** What a collator does with the status *)
Inductive LimitCall :=
| AddGas (gas : N)
| AddTransaction (account : bool)
| OutMsgQueueOp (root : option Cell) (usage_tree : UsageTree) (force : bool)
| InMsgOp (msg_cell msg_dict : Cell)
| OutMsgOp (msg_cell msg_dict : Cell)
| UpdateLt (lt : N).

Definition limit_call (self : BlockLimitStatus) (call : LimitCall) : BlockLimitStatus :=
  match call with
  | AddGas gas => add_gas_used self gas
  | AddTransaction account => add_transaction self account
  | OutMsgQueueOp root tree force => register_out_msg_queue_op self root tree force
  | InMsgOp m d => register_in_msg_op self m d
  | OutMsgOp m d => register_out_msg_op self m d
  | UpdateLt lt => update_lt self lt
  end.

(** The cells that the calls register: every message, and the dictionary at every 64th. *)
Definition registered (nin nout : N) (call : LimitCall) : list Cell :=
  match call with
  | InMsgOp m d => m :: if N.land (u32_add nin 1) 63 =? 0 then [d] else []
  | OutMsgOp m d => m :: if N.land (u32_add nout 1) 63 =? 0 then [d] else []
  | _ => []
  end.

Fixpoint registered_by (nin nout : N) (calls : list LimitCall) : list Cell :=
  match calls with
  | [] => []
  | call :: rest => registered nin nout call ++
      registered_by (match call with InMsgOp _ _ => u32_add nin 1 | _ => nin end) (match call with OutMsgOp _ _ => u32_add nout 1 | _ => nout end) rest
  end.

Lemma limit_call_stats cell_at self roots call : stats_of cell_at (stats self) roots → (∀ r, r ∈ roots → known cell_at r) →
  (∀ r, r ∈ registered (in_msgs self) (out_msgs self) call → known cell_at r) →
  stats_of cell_at (stats (limit_call self call)) (roots ++ registered (in_msgs self) (out_msgs self) call).
Proof.
  intros Hs Hr Hc.
  assert (∀ m d b, (∀ r, r ∈ m :: (if b : bool then [d] else []) → known cell_at r) →
    stats_of cell_at (if b then add_cell (add_cell (stats self) m) d else add_cell (stats self) m) (roots ++ m :: if b then [d] else [])) as K.
  { intros m d b Hk. assert (stats_of cell_at (add_cell (stats self) m) (roots ++ [m])) as H1 by (apply add_cell_stats; [apply Hk, list_elem_of_here|done|done]).
    destruct b; [|done]. change (m :: [d]) with ([m] ++ [d]). rewrite (assoc_L (++)). apply add_cell_stats; [apply Hk; set_solver| |done].
    intros r [?|E%list_elem_of_singleton]%elem_of_app; [by apply Hr|subst r; apply Hk, list_elem_of_here]. }
  destruct call as [gas|acc|root tree force|m d|m d|lt]; cbn [limit_call registered] in *; rewrite ?app_nil_r; try exact Hs.
  - unfold register_out_msg_queue_op. cbn [stats]. destruct (force || _); [|done]. destruct root as [root|]; [|done].
    destruct (add_proof_cells (S (cell_size root)) (stats self) root (Some tree)) as [E1 E2]; [lia|]. unfold add_proof. by destruct Hs; split; rewrite ?E1, ?E2.
  - apply K. exact Hc.
  - apply K. exact Hc.
Qed.

Lemma run_stats cell_at calls : ∀ self roots, stats_of cell_at (stats self) roots → (∀ r, r ∈ roots → known cell_at r) →
  (∀ r, r ∈ registered_by (in_msgs self) (out_msgs self) calls → known cell_at r) →
  stats_of cell_at (stats (foldl limit_call self calls)) (roots ++ registered_by (in_msgs self) (out_msgs self) calls).
Proof.
  induction calls as [|call calls IH]; intros self roots Hs Hr Hc; simpl; [by rewrite app_nil_r|]. simpl in Hc.
  assert (in_msgs (limit_call self call) = match call with InMsgOp _ _ => u32_add (in_msgs self) 1 | _ => in_msgs self end) as <- by by destruct call.
  assert (out_msgs (limit_call self call) = match call with OutMsgOp _ _ => u32_add (out_msgs self) 1 | _ => out_msgs self end) as Ho by by destruct call.
  assert (in_msgs (limit_call self call) = match call with InMsgOp _ _ => u32_add (in_msgs self) 1 | _ => in_msgs self end) as Hin by by destruct call.
  rewrite <- Ho in *. rewrite <- Hin in Hc. rewrite (assoc_L (++)). apply IH.
  - apply limit_call_stats; [done|done|]. intros r ?. apply Hc, elem_of_app. by left.
  - intros r [?|?]%elem_of_app; [by apply Hr|]. apply Hc, elem_of_app. by left.
  - intros r ?. apply Hc, elem_of_app. by right.
Qed.
