(* ===== verification/Checks.v ===== *)
(** * Checks that fail, stop the thread or go on

    The checks of block headers, proofs and signatures of the node return a [Result]; some
    index a slice, which stops the thread when it is out of range, and one keeps a byte of
    flags that it changes on the way, also when it fails.  This file has the monad of such
    checks. *)

From S2P Require Import Prelude.

(** [Result<A>] of a function that may panic. *)
Inductive Res (A : Type) : Type :=
| Ok (a : A)
| Err
| Crash.
Arguments Ok {A} a.
Arguments Err {A}.
Arguments Crash {A}.

#[global] Instance Res_ret : MRet Res := λ A a, Ok a.
#[global] Instance Res_bind : MBind Res := λ A B f m, match m with Ok a => f a | Err => Err | Crash => Crash end.

(** [fail!] unless the condition holds. *)
Definition ensure (b : bool) : Res unit := if b then Ok () else Err.

(** [?] on an [Option] turned into a [Result] or on a [Result] of another crate. *)
Definition or_fail {A} (o : option A) : Res A := match o with Some a => Ok a | None => Err end.

(** Indexing. *)
Definition at_index {A} (l : list A) (i : nat) : Res A := match l !! i with Some a => Ok a | None => Crash end.

Section res.
Context {A B : Type}.
Implicit Types (m : Res A) (f : A → Res B).

Lemma Res_bind_Ok m f b : m ≫= f = Ok b ↔ ∃ a, m = Ok a ∧ f a = Ok b.
Proof. destruct m; simpl; split; try by intros (? & ? & ?). - eauto. - by intros (? & [= <-] & ?). - done. - done. Qed.

Lemma ensure_Ok b u : ensure b = Ok u ↔ b = true.
Proof. unfold ensure. destruct u, b; split; done. Qed.

Lemma or_fail_Ok (o : option A) a : or_fail o = Ok a ↔ o = Some a.
Proof. unfold or_fail. destruct o; split; intros [= ->]; done. Qed.

Lemma at_index_Ok (l : list A) i a : at_index l i = Ok a ↔ l !! i = Some a.
Proof. unfold at_index. destruct (l !! i); split; intros [= ->]; done. Qed.
End res.

(** Split [m ≫= f = Ok b] into the two runs, as long as it goes. *)
Ltac res_steps H :=
  repeat match type of H with
  | mbind _ _ = Ok _ => let a := fresh "x" in let E := fresh "E" in apply Res_bind_Ok in H; destruct H as (a & E & H);
      try (apply ensure_Ok in E); try (apply or_fail_Ok in E); try (apply at_index_Ok in E)
  end.

(** ** With flags

    A check that changes the flags of its caller. *)
Definition Flagged (A : Type) : Type := N → N * Res A.

#[global] Instance Flagged_ret : MRet Flagged := λ A a flags, (flags, Ok a).
#[global] Instance Flagged_bind : MBind Flagged := λ A B f m flags,
  let '(flags, r) := m flags in match r with Ok a => f a flags | Err => (flags, Err) | Crash => (flags, Crash) end.

(** A check that leaves the flags alone. *)
Definition plain {A} (r : Res A) : Flagged A := λ flags, (flags, r).

(** [*res_flags |= bits] *)
Definition set_flags (bits : N) : Flagged unit := λ flags, (N.lor flags bits, Ok ()).

(** [fail!] unless the condition holds, after setting flags. *)
Definition ensure_or_flag (b : bool) (bits : N) : Flagged unit := if b then plain (Ok ()) else λ flags, (N.lor flags bits, Err).

Section flagged.
Context {A B : Type}.

Lemma Flagged_bind_Ok (m : Flagged A) (f : A → Flagged B) flags flags' b :
  (m ≫= f) flags = (flags', Ok b) ↔ ∃ flags1 a, m flags = (flags1, Ok a) ∧ f a flags1 = (flags', Ok b).
Proof.
  unfold mbind, Flagged_bind. destruct (m flags) as [flags1 [a| |]]; split.
  - eauto.
  - by intros (? & ? & [= <- <-] & ?).
  - done.
  - by intros (? & ? & ? & ?).
  - done.
  - by intros (? & ? & ? & ?).
Qed.

Lemma plain_Ok (r : Res A) flags flags' a : plain r flags = (flags', Ok a) ↔ flags' = flags ∧ r = Ok a.
Proof. unfold plain. split; [by intros [= <- ->]|by intros [-> ->]]. Qed.

Lemma ensure_or_flag_Ok b bits flags flags' u : ensure_or_flag b bits flags = (flags', Ok u) ↔ flags' = flags ∧ b = true.
Proof. unfold ensure_or_flag, plain. destruct b, u; split; try done; [by intros [= <-]|by intros [-> _]|by intros [_ ?]]. Qed.
End flagged.

(** A check that does not crash. *)
Definition no_crash {A} (r : Res A) : Prop := r ≠ Crash.
Definition flagged_no_crash {A} (m : Flagged A) : Prop := ∀ flags, (m flags).2 ≠ Crash.

Lemma bind_no_crash {A B} (m : Res A) (f : A → Res B) : no_crash m → (∀ a, m = Ok a → no_crash (f a)) → no_crash (m ≫= f).
Proof. intros Hm Hf. destruct m as [a| |]; [by apply Hf|done|done]. Qed.

Lemma flagged_bind_no_crash {A B} (m : Flagged A) (f : A → Flagged B) :
  flagged_no_crash m → (∀ flags flags' a, m flags = (flags', Ok a) → (f a flags').2 ≠ Crash) → flagged_no_crash (m ≫= f).
Proof.
  intros Hm Hf flags. unfold mbind, Flagged_bind. specialize (Hm flags). specialize (Hf flags). destruct (m flags) as [flags1 [a| |]]; [by eapply Hf|done|done].
Qed.
