(* ===== verification/Signatures.v ===== *)
(** * Signatures of validators

    Models the parts of [src/validator/validator_utils.rs] that decide which validators are
    responsible for a shard and how much of their weight has signed a block.  Keys,
    signatures, dictionaries and [ValidatorSet] are types of other crates. *)

From S2P Require Import Prelude Checks.

(** ** Validators *)

(** [ValidatorDescr]: what is read of it.  [node_id_short] is [compute_node_id_short()]. *)
Record ValidatorDescr := { public_key : N; weight : N }.
#[global] Instance ValidatorDescr_eq_dec : EqDecision ValidatorDescr.
Proof. solve_decision. Defined.

(** A [CryptoSignaturePair]. *)
Record SigPair := { node_id_short : N; sign : list N }.

(** [BlockSignatures]: the entries of the dictionary in the order of its keys, [None] when an
    entry does not parse; the declared count and weight; the result of [HashmapE::count]. *)
Record BlockSignatures := {
  validator_list_hash_short : N;
  catchain_seqno : N;
  pure_count : N;
  pure_weight : N;
  pure_signatures : list (option SigPair);
  dict_count : N → option N;
}.

Class Validators := {
  ValidatorSet : Type;
  CatchainConfig : Type;
  ConfigParams : Type;
  (** the id of an ed25519 key *)
  key_id : N → N;
  verify_signature : N → list N → list N → bool;
  compute_node_id_short : ValidatorDescr → list N;
  vset_list : ValidatorSet → list ValidatorDescr;
  (** [ValidatorSet::new] with the times and the number of main validators of a given set *)
  vset_new : ValidatorSet → list ValidatorDescr → option ValidatorSet;
  calc_subset : ValidatorSet → CatchainConfig → N → Z → N → N → option (list ValidatorDescr * N);
  shard_validators_num : CatchainConfig → N;
  (** [config.workchains().len()]: absent when the parameter is absent *)
  workchains : ConfigParams → option (option N);
  (** a node id is a hash *)
  node_id_len v : length (compute_node_id_short v) = 32%nat;
}.

Section signatures.
Context {V : Validators}.

(** [collect::<HashMap<_, _>>()] *)
Definition validators_map (validators_list : list ValidatorDescr) : gmap N ValidatorDescr :=
  foldl (λ m desc, <[key_id (public_key desc) := desc]> m) ∅ validators_list.

(** The body of [iterate_slices]. *)
Definition count_signature (map : gmap N ValidatorDescr) (data : list N) (acc : N) (entry : option SigPair) : Res N :=
  sp ← or_fail entry;
  match map !! node_id_short sp with
  | Some vd => _ ← ensure (verify_signature (public_key vd) data (sign sp)); Ok (u64_add acc (weight vd))
  | None => Ok acc
  end.

Fixpoint iterate_slices (map : gmap N ValidatorDescr) (data : list N) (acc : N) (entries : list (option SigPair)) : Res N :=
  match entries with
  | [] => Ok acc
  | e :: rest => acc ← count_signature map data acc e; iterate_slices map data acc rest
  end.

Definition check_crypto_signatures (signatures : BlockSignatures) (validators_list : list ValidatorDescr) (data : list N) : Res N :=
  iterate_slices (validators_map validators_list) data 0 (pure_signatures signatures).

(** [validators.iter().map(|v| v.weight).sum()] *)
Definition sum_of_weights (validators_list : list ValidatorDescr) : N := foldl (λ acc v, u64_add acc (weight v)) 0 validators_list.

(** ** The validators of a shard *)
Definition calc_workchain_id_by_adnl_id (adnl_id : list N) : Res Z := b ← at_index adnl_id 0; Ok (Z.of_N (b mod 32) - 1)%Z.
Definition calc_workchain_id (descr : ValidatorDescr) : Res Z := calc_workchain_id_by_adnl_id (compute_node_id_short descr).

(** The loop over the validators with several workchains. *)
Fixpoint workchain_list (workchain_id count : Z) (l : list ValidatorDescr) : Res (list ValidatorDescr) :=
  match l with
  | [] => Ok []
  | descr :: rest =>
      id ← calc_workchain_id descr;
      r ← workchain_list workchain_id count rest;
      Ok (if (id =? workchain_id)%Z || (count <=? id)%Z then descr :: r else r)
  end.

Definition calc_subset_for_workchain (vset : ValidatorSet) (config : ConfigParams) (cc_config : CatchainConfig) (shard_pfx : N) (workchain_id : Z) (cc_seqno time : N)
  : Res (list ValidatorDescr * N) :=
  let len := match workchains config with Some len => len | None => Some 1 end in
  len ← or_fail len;
  match u32_as_i32 (len mod two32) with
  | 0%Z => Err
  | 1%Z => or_fail (calc_subset vset cc_config shard_pfx workchain_id cc_seqno time)
  | count =>
      list ← workchain_list workchain_id count (vset_list vset);
      _ ← ensure (shard_validators_num cc_config <=? N.of_nat (length list));
      vset ← or_fail (vset_new vset list);
      or_fail (calc_subset vset cc_config shard_pfx workchain_id cc_seqno time)
  end.

Lemma calc_workchain_id_Ok descr : ∃ z, calc_workchain_id descr = Ok z.
Proof.
  unfold calc_workchain_id, calc_workchain_id_by_adnl_id, at_index. pose proof (node_id_len descr) as Hl.
  destruct (compute_node_id_short descr) as [|b l]; [done|]. simpl. eauto.
Qed.

Lemma workchain_list_Ok wc count l : ∃ r, workchain_list wc count l = Ok r.
Proof. induction l as [|d l [r IH]]; simpl; [eauto|]. destruct (calc_workchain_id_Ok d) as [z ->]. simpl. rewrite IH. simpl. eauto. Qed.

Lemma calc_subset_no_crash vset config cc pfx wc cc_seqno time : calc_subset_for_workchain vset config cc pfx wc cc_seqno time ≠ Crash.
Proof.
  assert (∀ {A} (o : option A), or_fail o ≠ Crash) as Ko by (intros A []; done).
  unfold calc_subset_for_workchain. destruct (match workchains config with Some len => len | None => Some 1 end) as [len|]; [|done]. simpl.
  destruct (workchain_list_Ok wc (u32_as_i32 (len mod two32)) (vset_list vset)) as [r Hr].
  assert ((list ← workchain_list wc (u32_as_i32 (len mod two32)) (vset_list vset); _ ← ensure (shard_validators_num cc <=? N.of_nat (length list));
    vset ← or_fail (vset_new vset list); or_fail (calc_subset vset cc pfx wc cc_seqno time)) ≠ Crash) as K.
  { rewrite Hr. simpl. unfold ensure. destruct (_ <=? _); simpl; [|done]. destruct (vset_new vset r); simpl; [apply Ko|done]. }
  destruct (u32_as_i32 (len mod two32)) as [|[| |]|]; try done; apply Ko.
Qed.

Lemma check_crypto_no_crash s vs data : check_crypto_signatures s vs data ≠ Crash.
Proof.
  unfold check_crypto_signatures. generalize 0. induction (pure_signatures s) as [|e rest IH]; intros acc; simpl; [done|].
  unfold count_signature. destruct e as [sp|]; simpl; [|done]. destruct (validators_map vs !! node_id_short sp); simpl; [|apply IH].
  unfold ensure. destruct (verify_signature _ _ _); simpl; [apply IH|done].
Qed.

(** ** What the weight of a block's signatures says *)

(** The validators that have signed: [map] takes the node ids to validators. *)
Fixpoint signers (map : gmap N ValidatorDescr) (entries : list (option SigPair)) : list ValidatorDescr :=
  match entries with
  | Some sp :: rest => match map !! node_id_short sp with Some vd => vd :: signers map rest | None => signers map rest end
  | None :: rest => signers map rest
  | [] => []
  end.

Definition total_weight (l : list ValidatorDescr) : N := foldr (λ v acc, weight v + acc) 0 l.

Lemma iterate_weight map data entries : ∀ acc w, iterate_slices map data acc entries = Ok w →
  w mod two64 = (acc + total_weight (signers map entries)) mod two64
  ∧ ∀ vd, vd ∈ signers map entries → ∃ sp, Some sp ∈ entries ∧ map !! node_id_short sp = Some vd ∧ verify_signature (public_key vd) data (sign sp) = true.
Proof.
  induction entries as [|e rest IH]; intros acc w Hi; simpl in Hi.
  - injection Hi as <-. simpl. rewrite N.add_0_r. split; [done|]. by intros vd []%elem_of_nil.
  - apply Res_bind_Ok in Hi as (acc1 & He & Hi). destruct (IH acc1 w Hi) as [Hw Hs]. clear IH Hi.
    assert (∀ vd, vd ∈ signers map rest → ∃ sp, Some sp ∈ e :: rest ∧ map !! node_id_short sp = Some vd ∧ verify_signature (public_key vd) data (sign sp) = true) as Hs'.
    { intros vd Hvd. destruct (Hs vd Hvd) as (sp & Hp & ?). exists sp. split; [by apply list_elem_of_further|done]. }
    unfold count_signature in He. destruct e as [sp|]; [|done]. cbn [or_fail mbind Res_bind] in He. cbn [signers].
    destruct (map !! node_id_short sp) as [vd|] eqn:Hm; [|by injection He as <-].
    apply Res_bind_Ok in He as (u & Hv & He). injection He as <-. apply ensure_Ok in Hv. split.
    + rewrite Hw. unfold u64_add. rewrite N.add_mod_idemp_l by done. f_equal. simpl. lia.
    + intros vd' [->|Hvd']%elem_of_cons; [|by apply Hs']. exists sp. split; [apply list_elem_of_here|done].
Qed.

Lemma validators_map_lookup l k vd : validators_map l !! k = Some vd → vd ∈ l ∧ key_id (public_key vd) = k.
Proof.
  unfold validators_map. assert (∀ m : gmap N ValidatorDescr, foldl (λ m desc, <[key_id (public_key desc) := desc]> m) m l !! k = Some vd →
    m !! k = Some vd ∨ vd ∈ l ∧ key_id (public_key vd) = k) as K.
  { induction l as [|d l IH]; intros m Hm; simpl in Hm; [by left|]. destruct (IH _ Hm) as [Hk|[Hin Hk]]; [|right; split; [by apply list_elem_of_further|done]].
    apply lookup_insert_Some in Hk as [[Hk <-]|[_ Hk]]; [right; split; [apply list_elem_of_here|done]|by left]. }
  intros Hl. destruct (K ∅ Hl) as [Hn|?]; [|done]. by rewrite lookup_empty in Hn.
Qed.

Lemma signers_ids l entries vd : vd ∈ signers (validators_map l) entries → key_id (public_key vd) ∈ map node_id_short (omap id entries).
Proof.
  induction entries as [|[sp|] rest IH]; intros Hvd; simpl in *; [by apply elem_of_nil in Hvd| |by apply IH].
  destruct (validators_map l !! node_id_short sp) as [v|] eqn:Hm; [|apply list_elem_of_further; by apply IH].
  apply elem_of_cons in Hvd as [->|Hvd]; [|apply list_elem_of_further; by apply IH]. apply validators_map_lookup in Hm as [_ ->]. apply list_elem_of_here.
Qed.

(** Each validator is counted once when no node has signed twice. *)
Lemma signers_nodup l entries : NoDup (map node_id_short (omap id entries)) → NoDup (signers (validators_map l) entries).
Proof.
  induction entries as [|[sp|] rest IH]; intros Hnd; simpl in *; [constructor| |by apply IH].
  apply list.NoDup_cons in Hnd as [Hni Hnd]. destruct (validators_map l !! node_id_short sp) as [v|] eqn:Hm; [|by apply IH]. constructor; [|by apply IH].
  intros Hv%signers_ids. apply validators_map_lookup in Hm as [_ Hm]. rewrite Hm in Hv. contradiction.
Qed.

Lemma signers_validators l entries vd : vd ∈ signers (validators_map l) entries → vd ∈ l.
Proof.
  induction entries as [|[sp|] rest IH]; simpl; intros Hvd; [by apply elem_of_nil in Hvd| |by apply IH].
  destruct (validators_map l !! node_id_short sp) as [v|] eqn:Hm; [|by apply IH]. apply elem_of_cons in Hvd as [->|Hvd]; [|by apply IH].
  by apply validators_map_lookup in Hm as [? _].
Qed.

Lemma sum_of_weights_total l : ∀ acc, foldl (λ acc v, u64_add acc (weight v)) acc l mod two64 = (acc + total_weight l) mod two64.
Proof.
  induction l as [|v l IH]; intros acc; simpl; [by rewrite N.add_0_r|]. rewrite IH. unfold u64_add. rewrite N.add_mod_idemp_l by done. f_equal. lia.
Qed.
End signatures.
