(* ===== verification/BlockHeader.v ===== *)
(** * Block headers

    Models the parts of [src/block.rs] that read the identifiers of the previous blocks and of
    the masterchain block from a header.  Cells, [Block] and [BlockInfo] belong to other
    crates: a [Block] is what the parsers give, with [None] for a part that does not parse. *)

From S2P Require Import Prelude BlockId Checks.

(** The operations on shard identifiers. *)
Class ShardTree `{ShardIdents} := {
  masterchain : ShardIdent;
  masterchain_ok : shard_is_masterchain masterchain = true;
  shard_merge : ShardIdent → option ShardIdent;
  shard_split : ShardIdent → option (ShardIdent * ShardIdent);
  left_ancestor_mask : ShardIdent → option ShardIdent;
  right_ancestor_mask : ShardIdent → option ShardIdent;
  is_parent_for : ShardIdent → ShardIdent → bool;
  is_full : ShardIdent → bool;
  can_split : ShardIdent → bool;
}.

Record ExtBlkRef := { ref_seq_no : N; ref_root_hash : list N; ref_file_hash : list N }.

Inductive BlkPrevInfo :=
| PrevBlock (prev : ExtBlkRef)
| PrevBlocks (prev1 prev2 : option ExtBlkRef).

Section headers.
Context {SI : ShardIdents} {T : ShardTree}.

Record BlockInfo := {
  version : N;
  info_shard : ShardIdent;
  info_seq_no : N;
  after_split : bool;
  before_split : bool;
  after_merge : bool;
  key_block : bool;
  vert_seq_no : N;
  vert_seqno_incr : N;
  gen_utime : N;
  gen_catchain_seqno : N;
  gen_validator_list_hash_short : N;
  prev_key_block_seqno : N;
  read_prev_ref : option BlkPrevInfo;
  read_master_ref : option (option ExtBlkRef);
}.

Definition ref_id (shard : ShardIdent) (r : ExtBlkRef) : BlockIdExt :=
  {| shard_id := shard; seq_no := ref_seq_no r; root_hash := ref_root_hash r; file_hash := ref_file_hash r |}.

Record BlockPrevStuff := {
  mc_block_id : BlockIdExt;
  prev : list BlockIdExt;
  prev_after_split : bool;
}.

(** The identifiers of the previous blocks and the greatest of their numbers. *)
Definition read_prev (info : BlockInfo) : Res (list BlockIdExt * N) :=
  prev_ref ← or_fail (read_prev_ref info);
  match prev_ref with
  | PrevBlock r =>
      shard ← (if after_split info then or_fail (shard_merge (info_shard info)) else Ok (info_shard info));
      Ok ([ref_id shard r], ref_seq_no r)
  | PrevBlocks r1 r2 =>
      _ ← ensure (negb (after_split info));
      r1 ← or_fail r1;
      r2 ← or_fail r2;
      _ ← ensure (negb ((ref_seq_no r1 =? 0) || (ref_seq_no r2 =? 0)));
      '(shard1, shard2) ← or_fail (shard_split (info_shard info));
      Ok ([ref_id shard1 r1; ref_id shard2 r2], N.max (ref_seq_no r1) (ref_seq_no r2))
  end.

(** [block_root] has the hash [hash]; [info] is [block.read_info()].  The identifier of the
    block is returned when it is to be fetched, else [None] (the default identifier). *)
Definition construct_and_check_prev_stuff (hash : list N) (info : option BlockInfo) (id : BlockIdExt) (fetch_blkid : bool) : Res (option BlockIdExt * BlockPrevStuff) :=
  info ← or_fail info;
  _ ← ensure (version info =? 0);
  out_block_id ← (if fetch_blkid then Ok (Some {| shard_id := info_shard info; seq_no := info_seq_no info; root_hash := hash; file_hash := replicate 32 0 |})
    else
      _ ← ensure (bool_decide (shard_id id = info_shard info));
      _ ← ensure (seq_no id =? info_seq_no info);
      _ ← ensure (bool_decide (root_hash id = hash));
      Ok None);
  master_ref ← or_fail (read_master_ref info);
  _ ← ensure (negb (eqb (bool_decide (is_Some master_ref)) (shard_is_masterchain (info_shard info))));
  '(out_prev, prev_seqno) ← read_prev info;
  _ ← ensure (seq_no id =? u32_add prev_seqno 1);
  out_mc_block_id ← (if shard_is_masterchain (info_shard info) then at_index out_prev 0
    else master_ref ← or_fail master_ref; Ok (ref_id masterchain master_ref));
  _ ← ensure (negb (shard_is_masterchain (info_shard info) && negb (vert_seqno_incr info =? 0) && negb (key_block info)));
  Ok (out_block_id, {| mc_block_id := out_mc_block_id; prev := out_prev; prev_after_split := after_split info |}).

(** [BlockStuff::construct_prev_id] and [construct_master_id] of a block with that header. *)
Definition construct_prev_id (info : option BlockInfo) : Res (BlockIdExt * option BlockIdExt) :=
  header ← or_fail info;
  prev_ref ← or_fail (read_prev_ref header);
  match prev_ref with
  | PrevBlock r =>
      shard ← (if after_split header then or_fail (shard_merge (info_shard header)) else Ok (info_shard header));
      Ok (ref_id shard r, None)
  | PrevBlocks r1 r2 =>
      r1 ← or_fail r1;
      r2 ← or_fail r2;
      '(shard1, shard2) ← or_fail (shard_split (info_shard header));
      Ok (ref_id shard1 r1, Some (ref_id shard2 r2))
  end.

Definition construct_master_id (info : option BlockInfo) : Res BlockIdExt :=
  header ← or_fail info;
  master_ref ← or_fail (read_master_ref header);
  mc_id ← or_fail master_ref;
  Ok (ref_id masterchain mc_id).

(** ** Facts *)

(** There are one or two previous blocks; the greatest number is theirs. *)
Lemma read_prev_ok info l n : read_prev info = Ok (l, n) →
  (∃ p, l = [p] ∧ n = seq_no p ∧ (after_split info = false → shard_id p = info_shard info))
  ∨ (∃ p1 p2, l = [p1; p2] ∧ n = N.max (seq_no p1) (seq_no p2) ∧ shard_split (info_shard info) = Some (shard_id p1, shard_id p2)).
Proof.
  unfold read_prev. intros Hr. apply Res_bind_Ok in Hr as (pr & _ & Hr). destruct pr as [r|r1 r2].
  - left. apply Res_bind_Ok in Hr as (sh & Hsh & Hr). injection Hr as <- <-. exists (ref_id sh r). split; [done|]. split; [done|]. intros E. rewrite E in Hsh. by injection Hsh as <-.
  - right. apply Res_bind_Ok in Hr as (? & _ & Hr). apply Res_bind_Ok in Hr as (a1 & _ & Hr). apply Res_bind_Ok in Hr as (a2 & _ & Hr). apply Res_bind_Ok in Hr as (? & _ & Hr).
    apply Res_bind_Ok in Hr as ([s1 s2] & Hs & Hr). injection Hr as <- <-. apply or_fail_Ok in Hs. by exists (ref_id s1 a1), (ref_id s2 a2).
Qed.

(** What an accepted header says about a block with a known identifier. *)
Record header_ok (hash : list N) (info : BlockInfo) (id : BlockIdExt) (p : BlockPrevStuff) : Prop := {
  ho_version : version info = 0;
  ho_shard : info_shard info = shard_id id;
  ho_seq_no : info_seq_no info = seq_no id;
  ho_hash : hash = root_hash id;
  ho_prev : (∃ b, prev p = [b] ∧ seq_no id = u32_add (seq_no b) 1 ∧ (after_split info = false → shard_id b = shard_id id))
    ∨ (∃ b1 b2, prev p = [b1; b2] ∧ seq_no id = u32_add (N.max (seq_no b1) (seq_no b2)) 1 ∧ shard_split (shard_id id) = Some (shard_id b1, shard_id b2));
  ho_master : shard_is_masterchain (shard_id id) = false → shard_id (mc_block_id p) = masterchain;
}.

Lemma construct_and_check_ok hash info id o p : construct_and_check_prev_stuff hash (Some info) id false = Ok (o, p) → header_ok hash info id p.
Proof.
  unfold construct_and_check_prev_stuff. cbn [or_fail mbind Res_bind]. intros Hc.
  apply Res_bind_Ok in Hc as (? & Hv%ensure_Ok & Hc). apply Res_bind_Ok in Hc as (ob & Hid & Hc).
  apply Res_bind_Ok in Hid as (? & Hs%ensure_Ok & Hid). apply Res_bind_Ok in Hid as (? & Hn%ensure_Ok & Hid). apply Res_bind_Ok in Hid as (? & Hh%ensure_Ok & _).
  apply Res_bind_Ok in Hc as (mr & _ & Hc). apply Res_bind_Ok in Hc as (? & _ & Hc). apply Res_bind_Ok in Hc as ([l n] & Hp & Hc).
  apply Res_bind_Ok in Hc as (? & Hseq%ensure_Ok & Hc). apply Res_bind_Ok in Hc as (mc & Hmc & Hc). apply Res_bind_Ok in Hc as (? & _ & Hc). injection Hc as _ <-.
  breflect. apply bool_decide_eq_true_1 in Hs, Hh. split; try done; simpl.
  - apply read_prev_ok in Hp as [(b & -> & -> & Hb)|(b1 & b2 & -> & -> & Hb)]; [left; exists b; split; [done|]; split; [done|]; by rewrite Hs|right; exists b1, b2; by rewrite Hs].
  - rewrite Hs. intros Hm. rewrite Hm in Hmc. apply Res_bind_Ok in Hmc as (r & _ & Hmc). by injection Hmc as <-.
Qed.

Lemma construct_and_check_no_crash hash info id b : construct_and_check_prev_stuff hash info id b ≠ Crash.
Proof.
  unfold construct_and_check_prev_stuff, ensure, or_fail, at_index. destruct info as [info|]; [|done]. cbn [mbind Res_bind].
  destruct (version info =? 0); [|done]. cbn [mbind Res_bind].
  assert (∀ {A} (r : Res A) (f : A → Res (option BlockIdExt * BlockPrevStuff)), r ≠ Crash → (∀ a, f a ≠ Crash) → r ≫= f ≠ Crash) as K by (intros A r f Hr Hf; by destruct r; simpl).
  assert (read_prev info ≠ Crash ∧ ∀ l n, read_prev info = Ok (l, n) → is_Some (l !! 0%nat)) as [Hrp Hl].
  { split.
    - unfold read_prev, ensure, or_fail. destruct (read_prev_ref info) as [[r|r1 r2]|]; cbn [mbind Res_bind]; [|destruct (after_split info), r1, r2; simpl; try done|done].
      + destruct (after_split info); [|done]. by destruct (shard_merge (info_shard info)).
      + destruct (negb _); simpl; [|done]. by destruct (shard_split (info_shard info)) as [[]|].
    - intros l n [(p & -> & _)|(p1 & p2 & -> & _)]%read_prev_ok; by eexists. }
  apply K; [|intros ob].
  { destruct b; [done|]. repeat (match goal with |- context [if ?c then Ok () else Err] => destruct c; cbn [mbind Res_bind]; try done end). }
  apply K; [by destruct (read_master_ref info)|intros mr]. apply K; [by destruct (negb _)|intros ?].
  destruct (read_prev info) as [[l n]| |] eqn:E; [|done|done]. cbn [mbind Res_bind]. destruct (Hl l n eq_refl) as [p Hp].
  apply K; [by destruct (_ =? _)|intros ?]. apply K; [|intros mc; by destruct (negb _)].
  destruct (shard_is_masterchain (info_shard info)); [by rewrite Hp|by destruct mr].
Qed.
End headers.
