(* ===== verification/BlockProof.v ===== *)
(** * Proofs of blocks

    Models [src/block_proof.rs]: a proof of a masterchain block is a Merkle proof of its
    header with the signatures of the validators of the previous key block (or of the zero
    state); a proof link has no signatures.  The parsers of cells are parameters. *)

From S2P Require Import Prelude BlockId Checks Signatures BlockHeader.

(** Configuration parameters that a key block must have. *)
Class BlockConfigs `{Validators} := {
  (** [config.config(i)]: fails, absent or present *)
  config_param : ConfigParams → N → option bool;
  (** [Block::build_data_for_sign] of the root and file hash *)
  build_data_for_sign : list N → list N → list N;
}.

Section proofs.
Context {SI : ShardIdents} {T : ShardTree} {V : Validators} {BC : BlockConfigs}.

(** ** Virtual blocks: what can be read from a Merkle proof *)
Record McBlockExtra := { mc_config : option ConfigParams }.
Record BlockExtra := { created_by : N; read_custom : option (option McBlockExtra) }.
Record ValueFlow := { fees_collected : N; created : N }.
Record Block := {
  read_info : option BlockInfo;
  read_value_flow : option ValueFlow;
  read_state_update : option unit;
  read_extra : option BlockExtra;
  read_cur_validator_set_and_cc_conf : option (ValidatorSet * CatchainConfig);
}.

(** The virtualised root of a Merkle proof: its hash, and the block if it parses. *)
Record VirtRoot := { virt_hash : list N; virt_block : option Block }.

(** [BlockProof]: [proof_root] is the Merkle proof, [None] when it does not parse. *)
Record BlockProof := {
  proof_for : BlockIdExt;
  proof_root : option VirtRoot;
  proof_signatures : option BlockSignatures;
}.

Record BlockProofStuff := { proof : BlockProof; is_link : bool; proof_id : BlockIdExt }.
Implicit Types (self prev_key_block_proof : BlockProofStuff).

(** [parsed] is the proof that the data contain. *)
Definition BlockProofStuff_deserialize (block_id : BlockIdExt) (parsed : option BlockProof) (link : bool) : Res BlockProofStuff :=
  p ← or_fail parsed;
  _ ← ensure (bool_decide (proof_for p = block_id));
  _ ← ensure (negb (negb (is_masterchain block_id) && negb link));
  Ok {| proof := p; is_link := link; proof_id := block_id |}.

Definition BlockProofStuff_new (p : BlockProof) (link : bool) : Res BlockProofStuff :=
  _ ← ensure (negb (negb (is_masterchain (proof_for p)) && negb link));
  Ok {| proof := p; is_link := link; proof_id := proof_for p |}.

Definition virtualize_block self : Res (Block * list N) :=
  root ← or_fail (proof_root (proof self));
  _ ← ensure (bool_decide (root_hash (proof_for (proof self)) = virt_hash root));
  _ ← ensure (bool_decide (virt_hash root = root_hash (proof_id self)));
  block ← or_fail (virt_block root);
  Ok (block, virt_hash root).

Definition pre_check_block_proof self : Res (Block * BlockInfo) :=
  let id := proof_id self in
  _ ← ensure (negb (negb (is_masterchain id) && bool_decide (is_Some (proof_signatures (proof self)))));
  '(virt, hash) ← virtualize_block self;
  _ ← ensure (bool_decide (hash = root_hash id));
  info ← or_fail (read_info virt);
  _ ← or_fail (read_value_flow virt);
  _ ← or_fail (read_state_update virt);
  _ ← ensure (version info =? 0);
  _ ← ensure (info_seq_no info =? seq_no id);
  _ ← ensure (bool_decide (info_shard info = shard_id id));
  master_ref ← or_fail (read_master_ref info);
  _ ← ensure (eqb (bool_decide (is_Some master_ref)) (negb (shard_is_masterchain (info_shard info))));
  _ ← ensure (negb (is_masterchain id && (after_merge info || before_split info || after_split info)));
  _ ← ensure (negb (after_merge info && after_split info));
  _ ← ensure (negb (after_split info && is_full (info_shard info)));
  _ ← ensure (negb (after_merge info && negb (can_split (info_shard info))));
  _ ← ensure (negb (key_block info && negb (is_masterchain id)));
  Ok (virt, info).

Definition block_config (virt : Block) : Res ConfigParams :=
  extra ← or_fail (read_extra virt);
  custom ← or_fail (read_custom extra);
  mc_extra ← or_fail custom;
  or_fail (mc_config mc_extra).

Definition pre_check_key_block_proof (virt : Block) : Res unit :=
  config ← block_config virt;
  present ← or_fail (config_param config 34);
  _ ← ensure present;
  _ ← or_fail (config_param config 32);
  _ ← or_fail (config_param config 33);
  _ ← or_fail (config_param config 34);
  _ ← or_fail (config_param config 35);
  _ ← or_fail (config_param config 36);
  _ ← or_fail (config_param config 37);
  _ ← or_fail (config_param config 38);
  _ ← or_fail (config_param config 28);
  Ok ().

Definition signed_catchain_seqno self : N := match proof_signatures (proof self) with Some s => catchain_seqno s | None => 0 end.

Definition process_prev_key_block_proof self prev_key_block_proof (utime : N) : Res (list ValidatorDescr * N) :=
  '(virt_key_block, prev_key_block_info) ← pre_check_block_proof prev_key_block_proof;
  _ ← ensure (key_block prev_key_block_info);
  '(validator_set, cc_config) ← or_fail (read_cur_validator_set_and_cc_conf virt_key_block);
  config ← block_config virt_key_block;
  calc_subset_for_workchain validator_set config cc_config (shard_prefix_with_tag (shard_id (proof_id self))) (workchain_id (shard_id (proof_id self)))
    (signed_catchain_seqno self) utime.

Definition get_cur_validators_set self : Res (ValidatorSet * CatchainConfig) :=
  '(virt_key_block, prev_key_block_info) ← pre_check_block_proof self;
  _ ← ensure (key_block prev_key_block_info);
  or_fail (read_cur_validator_set_and_cc_conf virt_key_block).

Definition check_signatures self (validators_list : list ValidatorDescr) (list_hash_short : N) : Res unit :=
  signatures ← or_fail (proof_signatures (proof self));
  _ ← ensure (validator_list_hash_short signatures =? list_hash_short);
  let expected_count := pure_count signatures in
  count ← or_fail (dict_count signatures expected_count);
  _ ← ensure (expected_count =? count);
  let checked_data := build_data_for_sign (root_hash (proof_id self)) (file_hash (proof_id self)) in
  let total := sum_of_weights validators_list in
  w ← check_crypto_signatures signatures validators_list checked_data;
  _ ← ensure (w =? pure_weight signatures);
  ensure (u64_mul total 2 <? u64_mul w 3).

Definition check_with_prev_key_block_proof_ self prev_key_block_proof (virt : Block) (virt_info : BlockInfo) : Res unit :=
  _ ← ensure (is_masterchain (proof_id self));
  _ ← ensure (is_masterchain (proof_id prev_key_block_proof));
  info ← or_fail (read_info virt);
  _ ← ensure (seq_no (proof_id prev_key_block_proof) =? prev_key_block_seqno info);
  _ ← ensure (seq_no (proof_id prev_key_block_proof) <? seq_no (proof_id self));
  '(validators, validators_hash_short) ← process_prev_key_block_proof self prev_key_block_proof (gen_utime virt_info);
  _ ← (if key_block virt_info then pre_check_key_block_proof virt else Ok ());
  check_signatures self validators validators_hash_short.

Definition check_with_prev_key_block_proof self prev_key_block_proof : Res unit :=
  '(virt, virt_info) ← pre_check_block_proof self;
  check_with_prev_key_block_proof_ self prev_key_block_proof virt virt_info.

(** ** With a state of the masterchain *)
Record ShardStateStuff := {
  state_block_id : BlockIdExt;
  state_vset_and_cc : option (ValidatorSet * CatchainConfig);
  state_config_params : option ConfigParams;
}.

Definition process_given_state self (state : ShardStateStuff) (info : BlockInfo) : Res (list ValidatorDescr * N) :=
  _ ← ensure (is_masterchain (state_block_id state));
  _ ← ensure (is_masterchain (proof_id self));
  _ ← ensure (prev_key_block_seqno info <=? seq_no (state_block_id state));
  _ ← ensure (seq_no (state_block_id state) <=? seq_no (proof_id self));
  '(cur_validator_set, cc_config) ← or_fail (state_vset_and_cc state);
  config ← or_fail (state_config_params state);
  calc_subset_for_workchain cur_validator_set config cc_config (shard_prefix_with_tag (shard_id (proof_id self))) (workchain_id (shard_id (proof_id self)))
    (signed_catchain_seqno self) (gen_utime info).

Definition check_with_master_state_ self (master_state : ShardStateStuff) (virt : Block) (virt_info : BlockInfo) : Res unit :=
  _ ← (if key_block virt_info then pre_check_key_block_proof virt else Ok ());
  '(validators, validators_hash_short) ← process_given_state self master_state virt_info;
  check_signatures self validators validators_hash_short.

Definition check_with_master_state self (master_state : ShardStateStuff) : Res unit :=
  _ ← ensure (negb (is_link self));
  '(virt, virt_info) ← pre_check_block_proof self;
  check_with_master_state_ self master_state virt virt_info.

Definition check_proof_link self : Res unit :=
  _ ← ensure (is_link self);
  _ ← pre_check_block_proof self;
  Ok ().

(** What the engine gives: the zero state, and the proof of a masterchain block by its number. *)
Record Engine := {
  load_mc_zero_state : option ShardStateStuff;
  find_block_by_seq_no : N → option BlockIdExt;
  load_block_proof : BlockIdExt → option BlockProofStuff;
}.

Definition check_proof self (engine : Engine) : Res unit :=
  if is_link self then check_proof_link self
  else
    '(virt, virt_info) ← pre_check_block_proof self;
    if prev_key_block_seqno virt_info =? 0 then
      zerostate ← or_fail (load_mc_zero_state engine);
      check_with_master_state_ self zerostate virt virt_info
    else
      handle ← or_fail (find_block_by_seq_no engine (prev_key_block_seqno virt_info));
      prev_key_block_proof ← or_fail (load_block_proof engine handle);
      check_with_prev_key_block_proof_ self prev_key_block_proof virt virt_info.
End proofs.

(** ** What an accepted block proof says

    The checks of [BlockProof] in terms of the validators that have signed. *)

Section facts.
Context {SI : ShardIdents} {T : ShardTree} {V : Validators} {BC : BlockConfigs}.
Implicit Types (self : BlockProofStuff) (vs sg : list ValidatorDescr).

(** ** Weights *)
Lemma total_weight_app l l' : total_weight (l ++ l') = total_weight l + total_weight l'.
Proof. induction l as [|v l IH]; simpl; lia. Qed.

Lemma total_weight_perm l l' : l ≡ₚ l' → total_weight l = total_weight l'.
Proof. induction 1; simpl; lia. Qed.

Lemma total_weight_sub sg vs : NoDup sg → (∀ v, v ∈ sg → v ∈ vs) → total_weight sg <= total_weight vs.
Proof.
  intros Hnd Hsub. destruct (submseteq_Permutation sg vs) as [k Hk]; [by apply NoDup_submseteq|].
  rewrite (total_weight_perm _ _ Hk), total_weight_app. lia.
Qed.

(** More than two thirds of the weight of [vs] have signed the block [id]. *)
Record two_thirds_signed (id : BlockIdExt) vs sg : Prop := {
  ts_nodup : NoDup sg;
  ts_validators v : v ∈ sg → v ∈ vs;
  ts_signed v : v ∈ sg → ∃ s, verify_signature (public_key v) (build_data_for_sign (root_hash id) (file_hash id)) s = true;
  ts_weight : 2 * total_weight vs < 3 * total_weight sg;
}.

(** No node has two entries in the signatures of the proof. *)
Definition distinct_signers (s : BlockSignatures) : Prop := NoDup (map node_id_short (omap id (pure_signatures s))).

Lemma crypto_signatures_ok s vs data w : check_crypto_signatures s vs data = Ok w → distinct_signers s → total_weight vs < two64 →
  ∃ sg, NoDup sg ∧ (∀ v, v ∈ sg → v ∈ vs) ∧ (∀ v, v ∈ sg → ∃ x, verify_signature (public_key v) data x = true) ∧ w mod two64 = total_weight sg.
Proof.
  intros Hc Hd Ht. destruct (iterate_weight _ _ _ _ _ Hc) as [Hw Hs]. exists (signers (validators_map vs) (pure_signatures s)).
  pose proof (signers_nodup vs _ Hd) as Hnd. split; [done|]. split; [apply signers_validators|]. split.
  - intros v Hv. destruct (Hs v Hv) as (sp & _ & _ & ?). by exists (sign sp).
  - rewrite Hw. simpl. apply N.mod_small. eapply N.le_lt_trans; [apply (total_weight_sub _ vs); [done|apply signers_validators]|done].
Qed.

Lemma iterate_small map data entries : ∀ acc w, acc < two64 → iterate_slices map data acc entries = Ok w → w < two64.
Proof.
  induction entries as [|e rest IH]; intros acc w Ha Hi; simpl in Hi; [by injection Hi as <-|]. apply Res_bind_Ok in Hi as (acc1 & He & Hi).
  apply (IH acc1); [|done]. unfold count_signature in He. destruct e as [sp|]; [|done]. cbn [or_fail mbind Res_bind] in He.
  destruct (map !! node_id_short sp); [|by injection He as <-]. apply Res_bind_Ok in He as (? & _ & He). injection He as <-. by apply N.mod_lt.
Qed.

Lemma sum_of_weights_small vs : total_weight vs < two64 → sum_of_weights vs = total_weight vs.
Proof.
  intros Ht. assert (sum_of_weights vs < two64) as Hs.
  { unfold sum_of_weights. assert (∀ l acc, acc < two64 → foldl (λ acc v, u64_add acc (weight v)) acc l < two64) as K.
    { induction l as [|v l IH]; intros acc Ha; simpl; [done|]. apply IH. by apply N.mod_lt. }
    by apply K. }
  pose proof (sum_of_weights_total vs 0) as E. fold (sum_of_weights vs) in E. rewrite N.mod_small in E by done. rewrite E. by apply N.mod_small.
Qed.

Lemma check_signatures_ok self vs h : check_signatures self vs h = Ok () →
  ∃ s, proof_signatures (proof self) = Some s ∧ validator_list_hash_short s = h
    ∧ (distinct_signers s → 3 * total_weight vs < two64 → ∃ sg, two_thirds_signed (proof_id self) vs sg).
Proof.
  unfold check_signatures. intros Hc. apply Res_bind_Ok in Hc as (s & Hs%or_fail_Ok & Hc). apply Res_bind_Ok in Hc as (? & Hh%ensure_Ok & Hc).
  apply Res_bind_Ok in Hc as (? & _ & Hc). apply Res_bind_Ok in Hc as (? & _ & Hc). apply Res_bind_Ok in Hc as (w & Hw & Hc).
  apply Res_bind_Ok in Hc as (? & _ & Hc). apply ensure_Ok in Hc. breflect. exists s. split; [done|]. split; [done|]. intros Hd Ht.
  assert (total_weight vs < two64) as Ht' by lia. destruct (crypto_signatures_ok _ _ _ _ Hw Hd Ht') as (sg & Hnd & Hin & Hsig & Hws).
  assert (w < two64) as Hw64 by (eapply (iterate_small _ _ _ 0); [done|exact Hw]). rewrite N.mod_small in Hws by done. subst w.
  pose proof (total_weight_sub _ _ Hnd Hin) as Hle. rewrite sum_of_weights_small in Hc by done. unfold u64_mul in Hc.
  rewrite !N.mod_small in Hc by lia. exists sg. split; try done. lia.
Qed.

(** ** Where the validators come from *)
Inductive validators_from self (engine : Engine) (info : BlockInfo) vs (h : N) : Prop :=
| from_zero_state state vset cc config :
    prev_key_block_seqno info = 0 → load_mc_zero_state engine = Some state → state_vset_and_cc state = Some (vset, cc) → state_config_params state = Some config →
    calc_subset_for_workchain vset config cc (shard_prefix_with_tag (shard_id (proof_id self))) (workchain_id (shard_id (proof_id self)))
      (signed_catchain_seqno self) (gen_utime info) = Ok (vs, h) → validators_from self engine info vs h
| from_key_block handle key virt key_info vset cc config :
    prev_key_block_seqno info ≠ 0 → find_block_by_seq_no engine (prev_key_block_seqno info) = Some handle → load_block_proof engine handle = Some key →
    pre_check_block_proof key = Ok (virt, key_info) → key_block key_info = true → is_masterchain (proof_id key) = true →
    seq_no (proof_id key) = prev_key_block_seqno info → seq_no (proof_id key) < seq_no (proof_id self) →
    read_cur_validator_set_and_cc_conf virt = Some (vset, cc) → block_config virt = Ok config →
    calc_subset_for_workchain vset config cc (shard_prefix_with_tag (shard_id (proof_id self))) (workchain_id (shard_id (proof_id self)))
      (signed_catchain_seqno self) (gen_utime info) = Ok (vs, h) → validators_from self engine info vs h.

Lemma prev_key_block_ok self key virt info engine handle : check_with_prev_key_block_proof_ self key virt info = Ok () →
  read_info virt = Some info → prev_key_block_seqno info ≠ 0 →
  find_block_by_seq_no engine (prev_key_block_seqno info) = Some handle → load_block_proof engine handle = Some key →
  ∃ vs h, validators_from self engine info vs h ∧ check_signatures self vs h = Ok ().
Proof.
  unfold check_with_prev_key_block_proof_. intros Hc Hi Hz Hf Hl. apply Res_bind_Ok in Hc as (? & _ & Hc). apply Res_bind_Ok in Hc as (? & Hm%ensure_Ok & Hc).
  rewrite Hi in Hc. cbn [or_fail mbind Res_bind] in Hc. apply Res_bind_Ok in Hc as (? & Hs%ensure_Ok & Hc). apply Res_bind_Ok in Hc as (? & Hlt%ensure_Ok & Hc).
  apply Res_bind_Ok in Hc as ([vs h] & Hp & Hc). apply Res_bind_Ok in Hc as (? & _ & Hc). breflect. exists vs, h. split; [|done].
  unfold process_prev_key_block_proof in Hp. apply Res_bind_Ok in Hp as ([virt_key key_info] & Hpre & Hp). apply Res_bind_Ok in Hp as (? & Hk%ensure_Ok & Hp).
  apply Res_bind_Ok in Hp as ([vset cc] & Hv%or_fail_Ok & Hp). apply Res_bind_Ok in Hp as (config & Hcfg & Hp). by eapply from_key_block.
Qed.

Lemma zero_state_ok self state virt info engine : check_with_master_state_ self state virt info = Ok () →
  prev_key_block_seqno info = 0 → load_mc_zero_state engine = Some state →
  ∃ vs h, validators_from self engine info vs h ∧ check_signatures self vs h = Ok ().
Proof.
  unfold check_with_master_state_. intros Hc Hz Hl. apply Res_bind_Ok in Hc as (? & _ & Hc). apply Res_bind_Ok in Hc as ([vs h] & Hp & Hc). exists vs, h. split; [|done].
  unfold process_given_state in Hp. do 4 apply Res_bind_Ok in Hp as (? & _ & Hp). apply Res_bind_Ok in Hp as ([vset cc] & Hv%or_fail_Ok & Hp).
  apply Res_bind_Ok in Hp as (config & Hcfg%or_fail_Ok & Hp). by eapply from_zero_state.
Qed.

(** What the header of a checked proof says. *)
Record proof_header_ok self (virt : Block) (info : BlockInfo) : Prop := {
  ph_info : read_info virt = Some info;
  ph_root : ∃ root, proof_root (proof self) = Some root ∧ virt_hash root = root_hash (proof_id self) ∧ virt_block root = Some virt;
  ph_seq_no : info_seq_no info = seq_no (proof_id self);
  ph_shard : info_shard info = shard_id (proof_id self);
  ph_key : key_block info = true → is_masterchain (proof_id self) = true;
  ph_master : is_masterchain (proof_id self) = true → after_merge info = false ∧ before_split info = false ∧ after_split info = false;
  ph_link : is_masterchain (proof_id self) = false → proof_signatures (proof self) = None;
}.

Lemma pre_check_ok self virt info : pre_check_block_proof self = Ok (virt, info) → proof_header_ok self virt info.
Proof.
  unfold pre_check_block_proof. intros Hc. apply Res_bind_Ok in Hc as (? & Hl%ensure_Ok & Hc). apply Res_bind_Ok in Hc as ([virt' hash] & Hv & Hc).
  apply Res_bind_Ok in Hc as (? & Hh%ensure_Ok & Hc). apply Res_bind_Ok in Hc as (info' & Hi%or_fail_Ok & Hc).
  do 2 apply Res_bind_Ok in Hc as (? & _ & Hc). apply Res_bind_Ok in Hc as (? & _ & Hc). apply Res_bind_Ok in Hc as (? & Hs%ensure_Ok & Hc).
  apply Res_bind_Ok in Hc as (? & Hsh%ensure_Ok & Hc). do 2 apply Res_bind_Ok in Hc as (? & _ & Hc). apply Res_bind_Ok in Hc as (? & Hm%ensure_Ok & Hc).
  do 3 apply Res_bind_Ok in Hc as (? & _ & Hc). apply Res_bind_Ok in Hc as (? & Hk%ensure_Ok & Hc). injection Hc as -> ->.
  unfold virtualize_block in Hv. apply Res_bind_Ok in Hv as (root & Hr%or_fail_Ok & Hv). apply Res_bind_Ok in Hv as (? & _ & Hv). apply Res_bind_Ok in Hv as (? & Hrh%ensure_Ok & Hv).
  apply Res_bind_Ok in Hv as (b & Hb%or_fail_Ok & Hv). injection Hv as -> <-. apply bool_decide_eq_true_1 in Hh, Hsh, Hrh. breflect. split; try done.
  - by exists root.
  - intros Hkb. rewrite Hkb in Hk. by destruct (is_masterchain (proof_id self)).
  - intros Hmc. rewrite Hmc in Hm. by destruct (after_merge info), (before_split info), (after_split info).
  - intros Hmc. rewrite Hmc in Hl. by destruct (proof_signatures (proof self)).
Qed.

(** ** One validator that signs many times *)
Definition repeated (vd : ValidatorDescr) (x : list N) (k : nat) (h cc : N) : BlockSignatures :=
  {| validator_list_hash_short := h; catchain_seqno := cc; pure_count := N.of_nat k; pure_weight := N.of_nat k * weight vd;
     pure_signatures := replicate k (Some {| node_id_short := key_id (public_key vd); sign := x |}); dict_count := λ _, Some (N.of_nat k) |}.

Lemma iterate_repeated map data vd x k : ∀ acc, map !! key_id (public_key vd) = Some vd → verify_signature (public_key vd) data x = true →
  acc + N.of_nat k * weight vd < two64 →
  iterate_slices map data acc (replicate k (Some {| node_id_short := key_id (public_key vd); sign := x |})) = Ok (acc + N.of_nat k * weight vd).
Proof.
  induction k as [|k IH]; intros acc Hm Hv Hk; cbn [replicate iterate_slices]; [f_equal; lia|].
  unfold count_signature. cbn [or_fail mbind Res_bind node_id_short sign]. rewrite Hm, Hv. cbn [ensure mbind Res_bind].
  unfold u64_add. rewrite N.mod_small by lia. rewrite IH; [f_equal; lia|done|done|lia].
Qed.

Lemma repeated_accepted p link id vs h cc vd x k :
  validators_map vs !! key_id (public_key vd) = Some vd → verify_signature (public_key vd) (build_data_for_sign (root_hash id) (file_hash id)) x = true →
  3 * (N.of_nat k * weight vd) < two64 → 2 * total_weight vs < 3 * (N.of_nat k * weight vd) →
  check_signatures {| proof := {| proof_for := proof_for p; proof_root := proof_root p; proof_signatures := Some (repeated vd x k h cc) |}; is_link := link; proof_id := id |} vs h = Ok ().
Proof.
  intros Hm Hv Hk Ht. unfold check_signatures, check_crypto_signatures. cbn [proof proof_signatures proof_id or_fail mbind Res_bind repeated validator_list_hash_short pure_count dict_count pure_signatures pure_weight].
  rewrite N.eqb_refl. cbn [ensure mbind Res_bind]. rewrite N.eqb_refl. cbn [ensure mbind Res_bind].
  rewrite iterate_repeated by (try done; lia). cbn [mbind Res_bind]. rewrite N.add_0_l, N.eqb_refl. cbn [ensure mbind Res_bind].
  rewrite sum_of_weights_small by lia. unfold u64_mul. rewrite !N.mod_small by lia.
  replace (total_weight vs * 2 <? N.of_nat k * weight vd * 3) with true by (symmetry; apply N.ltb_lt; lia). done.
Qed.
End facts.
