(* ===== verification/TopBlockDescr.v ===== *)
(** * Descriptions of the last blocks of a shard

    Models [src/types/top_block_descr.rs]: a description has Merkle proofs of the last blocks
    of a shard, newest first, signed by the validators of the shard.  It is built by reading
    the chain of proofs and validated against the state of the masterchain. *)

From S2P Require Import Prelude BlockId Checks Signatures BlockHeader BlockProof.

(** [Mode] *)
Definition FAIL_NEW : N := 1.
Definition FAIL_TOO_NEW : N := 2.
Definition ALLOW_OLD : N := 4.
Definition ALLOW_NEXT_VSET : N := 8.
Definition SKIP_CHECK_SIG : N := 16.
Definition intersects (mode flag : N) : bool := negb (N.land mode flag =? 0).

Section descr.
Context {SI : ShardIdents} {T : ShardTree} {V : Validators} {BC : BlockConfigs}.

(** [ton_block::TopBlockDescr]: the chain is a list of Merkle proofs. *)
Record TopBlockDescr := {
  tbd_proof_for : BlockIdExt;
  tbd_signatures : option BlockSignatures;
  tbd_chain : list (option VirtRoot);
}.

Record TopBlockDescrStuff := {
  tbd : TopBlockDescr;
  descr_vert_seq_no : N;
  chain_mc_blk_ids : list BlockIdExt;
  chain_blk_ids : list BlockIdExt;
  descr_gen_utime : N;
  chain_fees : list (N * N);
  chain_head_prev : list BlockIdExt;
  creators : list N;
  is_fake : bool;
}.
Implicit Types (self : TopBlockDescrStuff).

(** What is read from one proof. *)
Record LinkInfo := {
  prev1_id : BlockIdExt;
  prev2_id : option BlockIdExt;
  link_mc_id : BlockIdExt;
  link_info : BlockInfo;
  link_funds : N * N;
  link_creator : N;
}.

(** [prev_stuff.prev.pop()], twice when there are two. *)
Definition pop_prev (l : list BlockIdExt) : Res (BlockIdExt * option BlockIdExt) :=
  match reverse l with
  | [] => Crash
  | [p] => Ok (p, None)
  | p2 :: p1 :: _ => Ok (p1, Some p2)
  end.

(** The checks against the signatures of the description. *)
Definition check_link_signatures (info : BlockInfo) (signatures : option BlockSignatures) : Res unit :=
  match signatures with
  | Some s =>
      _ ← ensure (gen_catchain_seqno info =? catchain_seqno s);
      ensure (gen_validator_list_hash_short info =? validator_list_hash_short s)
  | None => Ok ()
  end.

(** The checks against the next block, which was read before. *)
Definition check_next_link (info : BlockInfo) (mc_id : BlockIdExt) (next_info : option (BlockIdExt * BlockIdExt * BlockInfo)) : Res unit :=
  match next_info with
  | Some (_, next_mc_id, next_info) =>
      _ ← ensure (negb (seq_no next_mc_id <? seq_no mc_id));
      _ ← ensure (negb ((seq_no next_mc_id =? seq_no mc_id) && negb (bool_decide (next_mc_id = mc_id))));
      _ ← ensure (negb (before_split info));
      _ ← ensure (negb (gen_utime next_info <? gen_utime info));
      ensure (vert_seq_no next_info =? vert_seq_no info)
  | None => Ok ()
  end.

(** The checks of the links inside the chain and of its first block. *)
Definition check_link_prev (info : BlockInfo) (cur_id prev1 : BlockIdExt) (prev2 : option BlockIdExt) (is_head : bool) : Res unit :=
  if negb is_head then
    _ ← ensure (negb (after_split info || after_merge info));
    ensure (u32_add (seq_no prev1) 1 =? seq_no cur_id)
  else
    let max_prev := match prev2 with Some p2 => if seq_no p2 <? seq_no prev1 then prev1 else p2 | None => prev1 end in
    ensure (u32_add (seq_no max_prev) 1 =? seq_no cur_id).

Definition read_one_proof (cur_id : BlockIdExt) (proof_root : option VirtRoot) (is_head : bool) (signatures : option BlockSignatures)
    (next_info : option (BlockIdExt * BlockIdExt * BlockInfo)) : Res LinkInfo :=
  root ← or_fail proof_root;
  _ ← ensure (bool_decide (virt_hash root = root_hash cur_id));
  '(_, prev_stuff) ← construct_and_check_prev_stuff (virt_hash root) (virt_block root ≫= read_info) cur_id false;
  '(prev1, prev2) ← pop_prev (prev prev_stuff);
  let mc_id := mc_block_id prev_stuff in
  block ← or_fail (virt_block root);
  info ← or_fail (read_info block);
  value_flow ← or_fail (read_value_flow block);
  _ ← ensure (version info =? 0);
  extra ← or_fail (read_extra block);
  _ ← check_link_signatures info signatures;
  _ ← check_next_link info mc_id next_info;
  _ ← check_link_prev info cur_id prev1 prev2 is_head;
  Ok {| prev1_id := prev1; prev2_id := prev2; link_mc_id := mc_id; link_info := info; link_funds := (fees_collected value_flow, created value_flow);
        link_creator := created_by extra |}.

(** The loop of [new] over the rest of the chain: [cur_id] is the block to be read; the result
    is the read links, each with the identifier of its block. *)
Fixpoint read_chain (cur_id : BlockIdExt) (chain : list (option VirtRoot)) (signatures : option BlockSignatures)
    (next_info : option (BlockIdExt * BlockIdExt * BlockInfo)) : Res (list (BlockIdExt * LinkInfo)) :=
  match chain with
  | [] => Ok []
  | proof_root :: rest =>
      let is_head := match rest with [] => true | _ => false end in
      link ← read_one_proof cur_id proof_root is_head signatures next_info;
      links ← read_chain (prev1_id link) rest signatures (Some (cur_id, link_mc_id link, link_info link));
      Ok ((cur_id, link) :: links)
  end.

Definition TopBlockDescrStuff_new (d : TopBlockDescr) (fake : bool) : Res TopBlockDescrStuff :=
  _ ← ensure (negb (match tbd_signatures d with None => true | Some s => pure_count s =? 0 end && negb fake));
  links ← read_chain (tbd_proof_for d) (tbd_chain d) (tbd_signatures d) None;
  Ok {|
    tbd := d;
    descr_vert_seq_no := match links with (_, link) :: _ => vert_seq_no (link_info link) | [] => 0 end;
    chain_mc_blk_ids := map (λ '(_, link), link_mc_id link) links;
    chain_blk_ids := map fst links;
    descr_gen_utime := match links with (_, link) :: _ => gen_utime (link_info link) | [] => 0 end;
    chain_fees := map (λ '(_, link), link_funds link) links;
    chain_head_prev := match reverse links with (_, link) :: _ => prev1_id link :: match prev2_id link with Some p => [p] | None => [] end | [] => [] end;
    creators := map (λ '(_, link), link_creator link) links;
    is_fake := fake;
  |}.

Definition proof_for_id self : BlockIdExt := tbd_proof_for (tbd self).
Definition descr_size self : nat := length (chain_blk_ids self).

Definition get_prev_at self (index : nat) : list BlockIdExt :=
  match chain_blk_ids self !! index with
  | Some id => [id]
  | None => if decide (index = descr_size self) then chain_head_prev self else []
  end.

Definition get_creator_list self (count : nat) : Res (list N) :=
  _ ← ensure (bool_decide (count <= descr_size self)%nat);
  Ok (reverse (take count (creators self))).

(** ** Validation *)

(** [McShardRecord]: its shard is the shard of its block. *)
Record McShardRecord := { rec_block_id : BlockIdExt }.
Definition rec_shard (r : McShardRecord) : ShardIdent := shard_id (rec_block_id r).

(** [McStateExtra]: the operations that the validation uses, each of which may fail. *)
Record McStateExtra := {
  prev_blocks_get : N → option (option ExtBlkRef);
  find_shard : ShardIdent → option (option McShardRecord);
  calc_shard_cc_seqno : ShardIdent → option N;
  extra_config : ConfigParams;
  extra_validator_set : option ValidatorSet;
  extra_next_validator_set : option ValidatorSet;
  extra_catchain_config : option CatchainConfig;
}.

(** The loop over the masterchain blocks of the chain. *)
Fixpoint check_mc_ids (last_mc_block_id : BlockIdExt) (extra : McStateExtra) (next_mc_seqno : N) (ids : list BlockIdExt) : Flagged unit :=
  match ids with
  | [] => plain (Ok ())
  | mc_id :: rest =>
      _ ← ensure_or_flag (negb (next_mc_seqno <? seq_no mc_id)) 1;
      valid ← (if seq_no mc_id =? seq_no last_mc_block_id then plain (Ok (bool_decide (mc_id = last_mc_block_id)))
        else
          r ← plain (or_fail (prev_blocks_get extra (seq_no mc_id)));
          plain (Ok (match r with Some r => bool_decide (ref_root_hash r = root_hash mc_id) && bool_decide (ref_file_hash r = file_hash mc_id) | None => false end)));
      _ ← ensure_or_flag valid 1;
      check_mc_ids last_mc_block_id extra (seq_no mc_id) rest
  end.

(** The right descendant of a shard that was merged, else the shard itself. *)
Definition find_right self (extra : McStateExtra) (l_shard_descr : McShardRecord) : Flagged McShardRecord :=
  let pf := proof_for_id self in
  if negb (is_parent_for (shard_id pf) (rec_shard l_shard_descr)) then plain (Ok l_shard_descr)
  else
    r_shard_id ← plain (or_fail (right_ancestor_mask (shard_id pf)));
    r ← plain (or_fail (find_shard extra r_shard_id));
    r_shard_descr ← plain (or_fail r);
    _ ← ensure_or_flag (seq_no (rec_block_id r_shard_descr) <? seq_no pf) 1;
    plain (Ok r_shard_descr).

(** The chain continues the blocks that the masterchain knows. *)
Definition check_links self (l_id r_id : BlockIdExt) (prev0 prev2 : BlockIdExt) (clen : nat) : Flagged unit :=
  if bool_decide (clen < descr_size self)%nat then
    ancestor ← plain (at_index (chain_blk_ids self) clen);
    ensure_or_flag (bool_decide (ancestor = l_id)) 1
  else
    _ ← ensure_or_flag (bool_decide (prev0 = l_id)) 1;
    ensure_or_flag (bool_decide (prev2 = r_id)) 1.

(** The part of the validation that checks the signatures. *)
Definition check_validators self (extra : McStateExtra) (mode : N) (clen : nat) : Flagged Z :=
  let pf := proof_for_id self in
  cur_validator_set ← plain (or_fail (extra_validator_set extra));
  cc_config ← plain (or_fail (extra_catchain_config extra));
  cc_seqno ← plain (or_fail (calc_shard_cc_seqno extra (shard_id pf)));
  '(vals, hash_short) ← plain (calc_subset_for_workchain cur_validator_set (extra_config extra) cc_config
    (shard_prefix_with_tag (shard_id pf)) (workchain_id (shard_id pf)) cc_seqno 0);
  if intersects mode SKIP_CHECK_SIG then plain (Ok (Z.of_nat clen))
  else
    signatures ← plain (or_fail (tbd_signatures (tbd self)));
    vals ← (if (cc_seqno =? catchain_seqno signatures) && (hash_short =? validator_list_hash_short signatures) then
        _ ← set_flags 4; plain (Ok vals)
      else if intersects mode ALLOW_NEXT_VSET then
        next_validator_set ← plain (or_fail (extra_next_validator_set extra));
        '(next_vals, next_hash_short) ← plain (calc_subset_for_workchain next_validator_set (extra_config extra) cc_config
          (shard_prefix_with_tag (shard_id pf)) (workchain_id (shard_id pf)) cc_seqno 0);
        if (cc_seqno =? catchain_seqno signatures) && (next_hash_short =? validator_list_hash_short signatures) then
          _ ← set_flags 8; plain (Ok next_vals)
        else plain Err
      else plain Err);
    let checked_data := build_data_for_sign (root_hash pf) (file_hash pf) in
    let total := sum_of_weights vals in
    w ← (match check_crypto_signatures signatures vals checked_data with
         | Ok w => plain (Ok w)
         | Err => _ ← set_flags 33; plain Err
         | Crash => plain Crash
         end);
    _ ← ensure_or_flag (is_fake self || (u64_mul total 2 <? u64_mul w 3)) 33;
    _ ← set_flags 16;
    _ ← plain (ensure (is_fake self || (w =? pure_weight signatures)));
    plain (Ok (Z.of_nat clen)).

Definition validate_internal self (last_mc_block_id : BlockIdExt) (extra : McStateExtra) (state_vert_seq_no mode : N) : Flagged Z :=
  let pf := proof_for_id self in
  mc0 ← plain (at_index (chain_mc_blk_ids self) 0);
  if seq_no last_mc_block_id <? seq_no mc0 then
    let delta := seq_no mc0 - seq_no last_mc_block_id in
    if intersects mode FAIL_NEW || ((8 <? delta) && intersects mode FAIL_TOO_NEW) then plain Err else plain (Ok (-1)%Z)
  else
  _ ← plain (if state_vert_seq_no =? descr_vert_seq_no self then Ok ()
             else if descr_vert_seq_no self <? state_vert_seq_no then Err else ensure (negb (intersects mode FAIL_NEW)));
  _ ← check_mc_ids last_mc_block_id extra u32_max (chain_mc_blk_ids self);
  l_shard_id ← plain (or_fail (left_ancestor_mask (shard_id pf)));
  l ← plain (or_fail (find_shard extra l_shard_id));
  l_shard_descr ← plain (or_fail l);
  let l_id := rec_block_id l_shard_descr in
  _ ← ensure_or_flag (seq_no l_id <? seq_no pf) (if intersects mode ALLOW_OLD then 0 else 1);
  prev0 ← plain (at_index (chain_head_prev self) 0);
  if seq_no l_id <? seq_no prev0 then plain (if intersects mode FAIL_NEW then Err else Ok (-1)%Z)
  else
  r_shard_descr ← find_right self extra l_shard_descr;
  let r_id := rec_block_id r_shard_descr in
  prev2 ← plain (match chain_head_prev self !! 1%nat with Some p => Ok p | None => at_index (chain_head_prev self) 0 end);
  if seq_no r_id <? seq_no prev2 then plain (if intersects mode FAIL_NEW then Err else Ok (-1)%Z)
  else
  let clen := N.to_nat (u32_sub (seq_no pf) (N.max (seq_no l_id) (seq_no r_id))) in
  _ ← check_links self l_id r_id prev0 prev2 clen;
  check_validators self extra mode clen.

Definition prevalidate self (last_mc_block_id : BlockIdExt) (extra : McStateExtra) (state_vert_seq_no mode : N) : N * Res Z :=
  validate_internal self last_mc_block_id extra state_vert_seq_no mode 0.

(** [last_mc_state]: its block, the extra part of its state (if it reads) and its vertical number. *)
Definition validate self (last_mc_block_id : BlockIdExt) (custom : option (option McStateExtra)) (state_vert_seq_no : N) : Res Z :=
  custom ← or_fail custom;
  extra ← or_fail custom;
  (validate_internal self last_mc_block_id extra state_vert_seq_no ALLOW_NEXT_VSET 0).2.

(** ** Order *)
Definition cmp_shard_block_descr (a b : TopBlockDescrStuff) : comparison :=
  let a := proof_for_id a in
  let b := proof_for_id b in
  match Z.compare (workchain_id (shard_id a)) (workchain_id (shard_id b)) with
  | Eq => match N.compare (shard_prefix_with_tag (shard_id a)) (shard_prefix_with_tag (shard_id b)) with
          | Eq => N.compare (seq_no b) (seq_no a)
          | ord => ord
          end
  | ord => ord
  end.

(** ** Keys *)
Record TopBlockDescrId := { descr_shard : ShardIdent; cc_seqno : N }.

#[global] Instance TopBlockDescrId_eq_dec : EqDecision TopBlockDescrId.
Proof. solve_decision. Defined.
#[global] Instance TopBlockDescrId_countable : Countable TopBlockDescrId.
Proof. apply (inj_countable' (λ i, (descr_shard i, cc_seqno i)) (λ '(s, n), {| descr_shard := s; cc_seqno := n |})). by intros []. Defined.

(** [split_at] stops the thread when the bytes are too few. *)
Definition TopBlockDescrId_from_bytes (bytes : list N) : Res TopBlockDescrId :=
  match read_le 4 bytes with
  | None => Crash
  | Some (wc, rest) =>
      match read_le 8 rest with
      | None => Crash
      | Some (shard, rest) =>
          match read_le 4 rest with
          | None => Crash
          | Some (cc, _) => id ← or_fail (with_tagged_prefix (BlockId.u32_as_i32 wc) shard); Ok {| descr_shard := id; cc_seqno := cc |}
          end
      end
  end.

Definition TopBlockDescrId_to_bytes (self : TopBlockDescrId) : list N :=
  le_bytes 4 (BlockId.i32_as_u32 (workchain_id (descr_shard self))) ++ le_bytes 8 (shard_prefix_with_tag (descr_shard self)) ++ le_bytes 4 (cc_seqno self).

(** [Ord] of the keys. *)
Definition TopBlockDescrId_cmp (a b : TopBlockDescrId) : comparison :=
  let self_id := shard_prefix_with_tag (descr_shard a) in
  let other_id := shard_prefix_with_tag (descr_shard b) in
  if (self_id <? other_id) || ((self_id =? other_id) && (cc_seqno a <? cc_seqno b)) then Lt
  else if bool_decide (a = b) then Eq else Gt.
End descr.

(** ** What a validated description of shard blocks says *)

Section facts.
Context {SI : ShardIdents} {T : ShardTree} {V : Validators} {BC : BlockConfigs}.
Implicit Types (self : TopBlockDescrStuff) (links : list (BlockIdExt * LinkInfo)).

(** ** The chain *)

(** The greatest number of the blocks before a link. *)
Definition prev_seq (link : LinkInfo) : N := match prev2_id link with Some p => N.max (seq_no (prev1_id link)) (seq_no p) | None => seq_no (prev1_id link) end.

(** Two links that follow each other, the newer first. *)
Record follows (id : BlockIdExt) (link : LinkInfo) (id' : BlockIdExt) (link' : LinkInfo) : Prop := {
  fl_id : id' = prev1_id link;
  fl_seq : seq_no id = u32_add (seq_no id') 1;
  fl_mc : seq_no (link_mc_id link') <= seq_no (link_mc_id link);
  fl_mc_eq : seq_no (link_mc_id link') = seq_no (link_mc_id link) → link_mc_id link' = link_mc_id link;
  fl_utime : gen_utime (link_info link') <= gen_utime (link_info link);
  fl_vert : vert_seq_no (link_info link') = vert_seq_no (link_info link);
  fl_inner : after_split (link_info link) = false ∧ after_merge (link_info link) = false ∧ before_split (link_info link') = false;
}.

Inductive linked : list (BlockIdExt * LinkInfo) → Prop :=
| linked_nil : linked []
| linked_head id link : seq_no id = u32_add (prev_seq link) 1 → linked [(id, link)]
| linked_next id link id' link' rest : follows id link id' link' → linked ((id', link') :: rest) → linked ((id, link) :: (id', link') :: rest).

Lemma read_one_proof_ok cur root is_head sigs next link : read_one_proof cur root is_head sigs next = Ok link →
  check_next_link (link_info link) (link_mc_id link) next = Ok () ∧ check_link_prev (link_info link) cur (prev1_id link) (prev2_id link) is_head = Ok ().
Proof.
  unfold read_one_proof. intros Hr. apply Res_bind_Ok in Hr as (r & _ & Hr). apply Res_bind_Ok in Hr as (? & _ & Hr).
  apply Res_bind_Ok in Hr as ([o ps] & _ & Hr). apply Res_bind_Ok in Hr as ([p1 p2] & _ & Hr). do 5 apply Res_bind_Ok in Hr as (? & _ & Hr).
  apply Res_bind_Ok in Hr as (? & _ & Hr). apply Res_bind_Ok in Hr as ([] & Hn & Hr). apply Res_bind_Ok in Hr as ([] & Hp & Hr). injection Hr as <-. by split.
Qed.

Lemma check_next_ok info mc nid nmc ninfo : check_next_link info mc (Some (nid, nmc, ninfo)) = Ok () →
  seq_no mc <= seq_no nmc ∧ (seq_no mc = seq_no nmc → mc = nmc) ∧ before_split info = false ∧ gen_utime info <= gen_utime ninfo ∧ vert_seq_no info = vert_seq_no ninfo.
Proof.
  unfold check_next_link. intros Hc. apply Res_bind_Ok in Hc as (? & H1%ensure_Ok & Hc). apply Res_bind_Ok in Hc as (? & H2%ensure_Ok & Hc).
  apply Res_bind_Ok in Hc as (? & H3%ensure_Ok & Hc). apply Res_bind_Ok in Hc as (? & H4%ensure_Ok & Hc). apply ensure_Ok in Hc. breflect. split; [done|]. split; [|by split].
  intros E. rewrite E, N.eqb_refl in H2. simpl in H2. apply negb_false_iff in H2. by apply bool_decide_eq_true_1 in H2.
Qed.

Lemma check_prev_inner info cur p1 p2 : check_link_prev info cur p1 p2 false = Ok () → after_split info = false ∧ after_merge info = false ∧ seq_no cur = u32_add (seq_no p1) 1.
Proof. unfold check_link_prev. simpl. intros Hc. apply Res_bind_Ok in Hc as (? & H1%ensure_Ok & Hc). apply ensure_Ok in Hc. breflect. done. Qed.

Lemma check_prev_head info cur link : check_link_prev info cur (prev1_id link) (prev2_id link) true = Ok () → seq_no cur = u32_add (prev_seq link) 1.
Proof.
  unfold check_link_prev, prev_seq. simpl. intros Hc%ensure_Ok. breflect. rewrite <- Hc. destruct (prev2_id link) as [p2|]; [|done].
  destruct (N.ltb_spec (seq_no p2) (seq_no (prev1_id link))); f_equal; lia.
Qed.

Lemma read_chain_ok sigs chain : ∀ cur next links, read_chain cur chain sigs next = Ok links →
  length links = length chain ∧ linked links ∧ (∀ id link rest, links = (id, link) :: rest → id = cur ∧ check_next_link (link_info link) (link_mc_id link) next = Ok ()).
Proof.
  induction chain as [|root chain IH]; intros cur next links Hr; simpl in Hr.
  - injection Hr as <-. split; [done|]. split; [constructor|done].
  - apply Res_bind_Ok in Hr as (link & Hl & Hr). apply Res_bind_Ok in Hr as (links' & Hls & Hr). injection Hr as <-.
    destruct (IH _ _ _ Hls) as (Hlen & Hlk & Hhd). destruct (read_one_proof_ok _ _ _ _ _ _ Hl) as [Hn Hp]. split; [simpl; lia|]. split; [|by intros id link0 rest [= <- <- _]].
    destruct chain as [|root' chain'].
    + destruct links' as [|]; [|done]. constructor. by apply check_prev_head in Hp.
    + destruct links' as [|[id' link'] rest]; [done|]. destruct (Hhd id' link' rest eq_refl) as [-> Hn']. constructor; [|done].
      apply check_prev_inner in Hp as (Hs & Hm & Hq). apply check_next_ok in Hn' as (M1 & M2 & B & U & Vt). by split.
Qed.

(** The format of a header: two previous blocks are read only after a merge. *)
Definition header_format (info : BlockInfo) : Prop := ∀ r1 r2, read_prev_ref info = Some (PrevBlocks r1 r2) → after_merge info = true.

Definition chain_format (chain : list (option VirtRoot)) : Prop :=
  ∀ root block info, Some root ∈ chain → virt_block root = Some block → read_info block = Some info → header_format info.

(** Inside the chain the shard stays the same. *)
Lemma read_one_proof_shard cur root sigs next link : chain_format [root] → read_one_proof cur root false sigs next = Ok link →
  shard_id (prev1_id link) = shard_id cur.
Proof.
  intros Hfmt Hr. pose proof (read_one_proof_ok _ _ _ _ _ _ Hr) as [_ Hp]. apply check_prev_inner in Hp as (Hs & Hm & _).
  unfold read_one_proof in Hr. apply Res_bind_Ok in Hr as (r & Hroot%or_fail_Ok & Hr). apply Res_bind_Ok in Hr as (? & _ & Hr).
  apply Res_bind_Ok in Hr as ([o ps] & Hc & Hr). apply Res_bind_Ok in Hr as ([p1 p2] & Hpop & Hr). apply Res_bind_Ok in Hr as (block & Hb%or_fail_Ok & Hr).
  apply Res_bind_Ok in Hr as (info & Hi%or_fail_Ok & Hr). do 6 apply Res_bind_Ok in Hr as (? & _ & Hr). injection Hr as <-. simpl in *.
  assert (virt_block r ≫= read_info = Some info) as Hri by (rewrite Hb; exact Hi). rewrite Hri in Hc.
  pose proof (Hfmt r block info (ltac:(subst root; apply list_elem_of_here)) Hb Hi) as Hform.
  unfold construct_and_check_prev_stuff in Hc. cbn [or_fail mbind Res_bind] in Hc. apply Res_bind_Ok in Hc as (? & _ & Hc). apply Res_bind_Ok in Hc as (ob & Hid & Hc).
  apply Res_bind_Ok in Hid as (? & Hsh%ensure_Ok & _). apply bool_decide_eq_true_1 in Hsh. do 2 apply Res_bind_Ok in Hc as (? & _ & Hc).
  apply Res_bind_Ok in Hc as ([l n] & Hread & Hc). do 3 apply Res_bind_Ok in Hc as (? & _ & Hc). injection Hc as _ <-. simpl in Hpop.
  unfold read_prev in Hread. apply Res_bind_Ok in Hread as (pr & Hpr%or_fail_Ok & Hread). destruct pr as [xr|r1 r2]; [|by rewrite (Hform r1 r2 Hpr) in Hm].
  rewrite Hs in Hread. simpl in Hread. injection Hread as <- <-. simpl in Hpop. injection Hpop as <- _. by rewrite Hsh.
Qed.

Lemma read_chain_shard sigs chain : ∀ cur next links, chain_format chain → read_chain cur chain sigs next = Ok links →
  ∀ id link, (id, link) ∈ links → shard_id id = shard_id cur.
Proof.
  induction chain as [|root chain IH]; intros cur next links Hf Hr id link Hin; simpl in Hr; [injection Hr as <-; by apply list.elem_of_nil in Hin|].
  apply Res_bind_Ok in Hr as (link0 & Hl & Hr). apply Res_bind_Ok in Hr as (links' & Hls & Hr). injection Hr as <-. apply elem_of_cons in Hin as [[= -> _]|Hin]; [done|].
  destruct chain as [|root' chain']; [injection Hls as <-; by apply list.elem_of_nil in Hin|].
  rewrite (IH _ _ _ ltac:(intros r b i Hr; apply Hf; by apply list_elem_of_further) Hls id link Hin).
  eapply read_one_proof_shard; [|exact Hl]. intros r b i Hr%list_elem_of_singleton. subst root. apply Hf, list_elem_of_here.
Qed.

(** The numbers count down along the chain. *)
Lemma linked_seq links i id link id0 link0 : linked links → links !! 0%nat = Some (id0, link0) → links !! i = Some (id, link) →
  seq_no id0 mod two32 = (seq_no id + N.of_nat i) mod two32.
Proof.
  intros Hl. revert i id link id0 link0. induction Hl as [|id1 link1 _|id1 link1 id2 link2 rest Hf Hl IH]; intros i id link id0 link0 H0 Hi; [done| |].
  - destruct i; [|done]. rewrite H0 in Hi. injection Hi as <- _. by rewrite N.add_0_r.
  - injection H0 as <- <-. destruct i as [|i]; [injection Hi as <- _; by rewrite N.add_0_r|]. simpl in Hi.
    rewrite (fl_seq _ _ _ _ Hf). unfold u32_add. rewrite N.mod_mod by done. rewrite <- N.add_mod_idemp_l by done.
    rewrite (IH i id link id2 link2 eq_refl Hi), N.add_mod_idemp_l by done. f_equal. lia.
Qed.

Lemma linked_last links id link : linked (links ++ [(id, link)]) → seq_no id = u32_add (prev_seq link) 1.
Proof.
  induction links as [|[id1 link1] links IH]; simpl; intros Hl; [by inversion Hl|]. apply IH. inversion Hl as [|? ? ? E|? ? ? ? ? ? ? E]; subst; [by destruct links|done].
Qed.

(** The number of the newest block is that of the blocks before the chain plus its length. *)
Lemma linked_size links id0 link0 l id link : linked links → links !! 0%nat = Some (id0, link0) → links = l ++ [(id, link)] →
  seq_no id0 mod two32 = (prev_seq link + N.of_nat (length links)) mod two32.
Proof.
  intros Hl H0 E. assert (links !! length l = Some (id, link)) as Hi by (rewrite E, lookup_app_r, Nat.sub_diag by lia; done).
  rewrite (linked_seq _ _ _ _ _ _ Hl H0 Hi). rewrite E in Hl. rewrite (linked_last _ _ _ Hl). unfold u32_add.
  rewrite N.add_mod_idemp_l by done. f_equal. rewrite E, length_app. simpl. lia.
Qed.

(** ** The description *)
Definition first_prev_seq self : N := foldr (λ p acc, N.max (seq_no p) acc) 0 (chain_head_prev self).

Record descr_ok self : Prop := {
  do_first id : chain_blk_ids self !! 0%nat = Some id → id = proof_for_id self;
  do_mc_len : length (chain_mc_blk_ids self) = length (chain_blk_ids self);
  do_creators_len : length (creators self) = length (chain_blk_ids self);
  do_seq i id : chain_blk_ids self !! i = Some id → seq_no (proof_for_id self) mod two32 = (seq_no id + N.of_nat i) mod two32;
  do_prev : (0 < descr_size self)%nat → seq_no (proof_for_id self) mod two32 = (first_prev_seq self + N.of_nat (descr_size self)) mod two32;
  do_head : (0 < descr_size self)%nat → ∃ p, chain_head_prev self = [p] ∨ ∃ p2, chain_head_prev self = [p; p2];
  do_mc i j a b : chain_mc_blk_ids self !! i = Some a → chain_mc_blk_ids self !! j = Some b → (i <= j)%nat → seq_no b <= seq_no a;
}.

Lemma linked_mc links i j a b : linked links → map (λ '(_, link), link_mc_id link) links !! i = Some a → map (λ '(_, link), link_mc_id link) links !! j = Some b →
  (i <= j)%nat → seq_no b <= seq_no a.
Proof.
  intros Hl. revert i j a b. induction Hl as [|id1 link1 _|id1 link1 id2 link2 rest Hf Hl IH]; intros i j a b Hi Hj Hij; [done| |].
  - destruct i, j; try done. simpl in *. rewrite Hi in Hj. injection Hj as <-. lia.
  - destruct i as [|i], j as [|j]; [|..|]; try lia.
    + simpl in Hi, Hj. rewrite Hi in Hj. injection Hj as <-. lia.
    + injection Hi as <-. simpl in Hj. etransitivity; [|apply (fl_mc _ _ _ _ Hf)]. eapply (IH 0%nat j); [reflexivity|exact Hj|lia].
    + eapply (IH i j); [exact Hi|exact Hj|lia].
Qed.

Lemma new_descr_ok d fake self : TopBlockDescrStuff_new d fake = Ok self →
  tbd self = d ∧ is_fake self = fake ∧ descr_size self = length (tbd_chain d) ∧ descr_ok self.
Proof.
  unfold TopBlockDescrStuff_new. intros Hn. apply Res_bind_Ok in Hn as (? & _ & Hn). apply Res_bind_Ok in Hn as (links & Hl & Hn). injection Hn as <-.
  destruct (read_chain_ok _ _ _ _ _ Hl) as (Hlen & Hlk & Hhd). split; [done|]. split; [done|].
  assert (∀ links0, links = links0 → ∀ i id, map fst links !! i = Some id → ∃ id0 link0 link, links !! 0%nat = Some (id0, link0) ∧ id0 = tbd_proof_for d ∧ links !! i = Some (id, link)) as K.
  { intros _ _ i id Hi. rewrite list_lookup_fmap in Hi. destruct (links !! i) as [[id' link]|] eqn:E; [|done]. injection Hi as ->.
    destruct links as [|[id0 link0] rest]; [done|]. destruct (Hhd id0 link0 rest eq_refl) as [-> _]. by exists (tbd_proof_for d), link0, link. }
  specialize (K links eq_refl). unfold descr_size. simpl. rewrite length_map. split; [done|].
  assert (∀ id0 link0 rest, links = (id0, link0) :: rest → ∃ l id link, links = l ++ [(id, link)] ∧ reverse links = (id, link) :: reverse l) as Hlast.
  { intros id0 link0 rest ->. destruct (exists_last (l := (id0, link0) :: rest)) as (l & [id link] & E); [done|]. exists l, id, link. rewrite E. split; [done|]. by rewrite reverse_snoc. }
  split; unfold descr_size, proof_for_id, first_prev_seq; simpl; rewrite ?length_map.
  - intros id Hi. destruct (K 0%nat id Hi) as (id0 & link0 & link & H0 & -> & H1). rewrite H0 in H1. by injection H1 as -> _.
  - done.
  - done.
  - intros i id Hi. destruct (K i id Hi) as (id0 & link0 & link & H0 & <- & H1). by eapply linked_seq.
  - intros Hpos. destruct links as [|[id0 link0] rest] eqn:E; [simpl in Hpos; lia|]. destruct (Hlast id0 link0 rest eq_refl) as (l & id & link & El & ->).
    destruct (Hhd id0 link0 rest eq_refl) as [<- _]. rewrite (linked_size _ id0 link0 l id link Hlk eq_refl El). f_equal. f_equal. unfold prev_seq. destruct (prev2_id link); simpl; lia.
  - intros Hpos. destruct links as [|[id0 link0] rest] eqn:E; [simpl in Hpos; lia|]. destruct (Hlast id0 link0 rest eq_refl) as (l & id & link & _ & ->).
    exists (prev1_id link). destruct (prev2_id link) as [p2|]; [right; by exists p2|by left].
  - intros i j a b. by apply linked_mc.
Qed.

Lemma new_descr_shard d fake self : TopBlockDescrStuff_new d fake = Ok self → chain_format (tbd_chain d) →
  ∀ id, id ∈ chain_blk_ids self → shard_id id = shard_id (tbd_proof_for d).
Proof.
  unfold TopBlockDescrStuff_new. intros Hn Hf id Hid. apply Res_bind_Ok in Hn as (? & _ & Hn). apply Res_bind_Ok in Hn as (links & Hl & Hn). injection Hn as <-. simpl in Hid.
  apply list_elem_of_fmap in Hid as ([id' link] & -> & Hin). by eapply read_chain_shard.
Qed.

(** ** Validation *)

(** The chain continues the blocks [l] and [r] (one block unless the shards were merged): the
    blocks right before its newest [clen] blocks are these two. *)
Record continues self (l r : BlockIdExt) (clen : nat) : Prop := {
  co_pos : (0 < clen <= descr_size self)%nat;
  co_seq : seq_no (proof_for_id self) = N.max (seq_no l) (seq_no r) + N.of_nat clen;
  co_prev b : b ∈ get_prev_at self clen ↔ b = l ∨ b = r;
}.

(** The length of the new part of the chain. *)
Lemma clen_ok self l r prev0 prev2 : descr_ok self → (0 < descr_size self)%nat → N.of_nat (descr_size self) < two32 → seq_no (proof_for_id self) < two32 →
  chain_head_prev self !! 0%nat = Some prev0 → prev2 = default prev0 (chain_head_prev self !! 1%nat) →
  seq_no prev0 <= seq_no l → seq_no prev2 <= seq_no r → seq_no l < seq_no (proof_for_id self) → seq_no r < seq_no (proof_for_id self) →
  let clen := N.to_nat (u32_sub (seq_no (proof_for_id self)) (N.max (seq_no l) (seq_no r))) in
  (0 < clen <= descr_size self)%nat ∧ seq_no (proof_for_id self) = N.max (seq_no l) (seq_no r) + N.of_nat clen.
Proof.
  intros Hd Hpos Hsz Hpf H0 H2 L0 L2 Ll Lr clen. set (pf := seq_no (proof_for_id self)) in *. set (m := N.max (seq_no l) (seq_no r)) in *.
  assert (m < pf) as Hm by lia. assert (u32_sub pf m = pf - m) as Hsub.
  { unfold u32_sub. replace (pf + two32 - m) with (pf - m + 1 * two32) by (unfold two32 in *; lia). rewrite N.mod_add by done. apply N.mod_small. unfold two32 in *. lia. }
  assert (first_prev_seq self <= m) as Hfp.
  { destruct (do_head _ Hd Hpos) as (p & [E|(p2 & E)]); unfold first_prev_seq; rewrite E in *; simpl in *; injection H0 as ->; simpl in H2; subst prev2; simpl in *; lia. }
  pose proof (do_prev _ Hd Hpos) as Hs. fold pf in Hs. rewrite (N.mod_small pf) in Hs by done. unfold clen. rewrite Hsub.
  assert (pf = first_prev_seq self + N.of_nat (descr_size self)) as E.
  { destruct (N.lt_ge_cases (first_prev_seq self + N.of_nat (descr_size self)) two32) as [Hlt|Hge]; [by rewrite N.mod_small in Hs|].
    exfalso. replace (first_prev_seq self + N.of_nat (descr_size self)) with (first_prev_seq self + N.of_nat (descr_size self) - two32 + 1 * two32) in Hs by lia.
    rewrite N.mod_add, N.mod_small in Hs by (unfold two32 in *; lia). lia. }
  lia.
Qed.

Lemma get_prev_inside self i id : chain_blk_ids self !! i = Some id → get_prev_at self i = [id].
Proof. unfold get_prev_at. by intros ->. Qed.

Lemma get_prev_head self : get_prev_at self (descr_size self) = chain_head_prev self.
Proof. unfold get_prev_at. rewrite lookup_ge_None_2 by (unfold descr_size; lia). by rewrite decide_True. Qed.

(** The blocks of the shard that the masterchain knows: the one at the left end of the shard,
    and, when the shard was merged since, the one at its right end. *)
Definition known_blocks self (extra : McStateExtra) (l r : McShardRecord) : Prop :=
  (∃ s, left_ancestor_mask (shard_id (proof_for_id self)) = Some s ∧ find_shard extra s = Some (Some l)) ∧
  if is_parent_for (shard_id (proof_for_id self)) (rec_shard l) then
    ∃ s, right_ancestor_mask (shard_id (proof_for_id self)) = Some s ∧ find_shard extra s = Some (Some r)
  else r = l.

(** A masterchain block that the state knows. *)
Definition mc_known (mc : BlockIdExt) (extra : McStateExtra) (id : BlockIdExt) : Prop :=
  if seq_no id =? seq_no mc then id = mc
  else ∃ r, prev_blocks_get extra (seq_no id) = Some (Some r) ∧ ref_root_hash r = root_hash id ∧ ref_file_hash r = file_hash id.

(** The validators [vs] of the shard, of the current set or, where it is allowed, of the next
    one, computed from the configuration for the catchain number that the state and the
    signatures agree on. *)
Definition shard_validators (pf : BlockIdExt) (extra : McStateExtra) (mode : N) (s : BlockSignatures) (vs : list ValidatorDescr) : Prop :=
  ∃ vset cc_config, (extra_validator_set extra = Some vset ∨ intersects mode ALLOW_NEXT_VSET = true ∧ extra_next_validator_set extra = Some vset)
    ∧ extra_catchain_config extra = Some cc_config ∧ calc_shard_cc_seqno extra (shard_id pf) = Some (catchain_seqno s)
    ∧ calc_subset_for_workchain vset (extra_config extra) cc_config (shard_prefix_with_tag (shard_id pf)) (workchain_id (shard_id pf)) (catchain_seqno s) 0
      = Ok (vs, validator_list_hash_short s).

Lemma check_mc_ids_ok mc extra ids : ∀ next flags flags' u, check_mc_ids mc extra next ids flags = (flags', Ok u) → Forall (mc_known mc extra) ids.
Proof.
  induction ids as [|id ids IH]; intros next flags flags' u Hc; [constructor|]. cbn [check_mc_ids] in Hc. apply Flagged_bind_Ok in Hc as (? & ? & _ & Hc).
  apply Flagged_bind_Ok in Hc as (? & valid & Hv & Hc). apply Flagged_bind_Ok in Hc as (? & ? & He & Hc). apply ensure_or_flag_Ok in He as [_ ->]. constructor; [|by eapply IH].
  unfold mc_known. destruct (_ =? _); [apply plain_Ok in Hv as [_ [= Hv]]; by apply bool_decide_eq_true_1 in Hv|].
  apply Flagged_bind_Ok in Hv as (? & r & Hr & Hv). apply plain_Ok in Hr as [_ Hr%or_fail_Ok]. apply plain_Ok in Hv as [_ [= Hv]]. destruct r as [r|]; [|done].
  apply andb_true_iff in Hv as [H1%bool_decide_eq_true_1 H2%bool_decide_eq_true_1]. by exists r.
Qed.

(** Inside the chain the code checks the left block alone; that is enough, as the shard cannot
    have been merged there. *)
Lemma check_links_ok self l r prev0 prev2 clen flags flags' u : descr_ok self → (0 < descr_size self)%nat → (clen <= descr_size self)%nat →
  ((clen < descr_size self)%nat → chain_blk_ids self !! clen = Some l → r = l) →
  chain_head_prev self !! 0%nat = Some prev0 → prev2 = default prev0 (chain_head_prev self !! 1%nat) →
  check_links self l r prev0 prev2 clen flags = (flags', Ok u) → ∀ b, b ∈ get_prev_at self clen ↔ b = l ∨ b = r.
Proof.
  intros Hd Hpos Hle Hin H0 H2 Hc b. unfold check_links in Hc. case_bool_decide as Hlt.
  - apply Flagged_bind_Ok in Hc as (f1 & a & Ha & Hc). apply plain_Ok in Ha as [-> Ha%at_index_Ok]. apply ensure_or_flag_Ok in Hc as [-> Hc]. apply bool_decide_eq_true_1 in Hc. subst a.
    rewrite (Hin Hlt Ha), (get_prev_inside _ _ _ Ha). rewrite list_elem_of_singleton. tauto.
  - apply Flagged_bind_Ok in Hc as (f1 & a & Ha & Hc). apply ensure_or_flag_Ok in Ha as [-> Ha]. apply ensure_or_flag_Ok in Hc as [-> Hc]. apply bool_decide_eq_true_1 in Ha, Hc.
    replace clen with (descr_size self) by lia. rewrite get_prev_head. destruct (do_head _ Hd Hpos) as (p & [E|(p2 & E)]); rewrite E in *; simpl in *; injection H0 as ->; subst; simpl;
      rewrite ?elem_of_cons, ?list.elem_of_nil; naive_solver.
Qed.

Lemma find_right_ok self extra l r flags flags' : find_right self extra l flags = (flags', Ok r) →
  if is_parent_for (shard_id (proof_for_id self)) (rec_shard l) then
    (∃ s, right_ancestor_mask (shard_id (proof_for_id self)) = Some s ∧ find_shard extra s = Some (Some r)) ∧ seq_no (rec_block_id r) < seq_no (proof_for_id self)
  else r = l.
Proof.
  unfold find_right. destruct (is_parent_for _ _); simpl; intros Hf; [|by apply plain_Ok in Hf as [_ [= ->]]].
  apply Flagged_bind_Ok in Hf as (? & rs & Hrs & Hf). apply plain_Ok in Hrs as [_ Hrs%or_fail_Ok]. apply Flagged_bind_Ok in Hf as (? & o & Ho & Hf). apply plain_Ok in Ho as [_ Ho%or_fail_Ok].
  apply Flagged_bind_Ok in Hf as (? & r0 & Hr & Hf). apply plain_Ok in Hr as [_ ->%or_fail_Ok].
  apply Flagged_bind_Ok in Hf as (f2 & u & Hu & Hf). apply ensure_or_flag_Ok in Hu as [_ Hu]. apply plain_Ok in Hf as [_ [= ->]]. breflect. split; [by exists rs|done].
Qed.

(** The signatures of a description that is validated with the check of signatures. *)
Lemma check_validators_ok self extra mode clen flags flags' n : check_validators self extra mode clen flags = (flags', Ok n) →
  n = Z.of_nat clen ∧ (intersects mode SKIP_CHECK_SIG = false → is_fake self = false → ∃ s vs, tbd_signatures (tbd self) = Some s
    ∧ shard_validators (proof_for_id self) extra mode s vs
    ∧ (distinct_signers s → 3 * total_weight vs < two64 → ∃ sg, two_thirds_signed (proof_for_id self) vs sg)).
Proof.
  unfold check_validators. intros Hc. apply Flagged_bind_Ok in Hc as (? & vset & Hvset & Hc). apply plain_Ok in Hvset as [_ Hvset%or_fail_Ok].
  apply Flagged_bind_Ok in Hc as (? & cc & Hcc & Hc). apply plain_Ok in Hcc as [_ Hcc%or_fail_Ok]. apply Flagged_bind_Ok in Hc as (? & ccs & Hccs & Hc). apply plain_Ok in Hccs as [_ Hccs%or_fail_Ok].
  apply Flagged_bind_Ok in Hc as (f0 & [vals h] & Hsub & Hc). apply plain_Ok in Hsub as [_ Hsub].
  destruct (intersects mode SKIP_CHECK_SIG); [apply plain_Ok in Hc as [_ [= <-]]; by split|]. apply Flagged_bind_Ok in Hc as (f1 & s & Hs & Hc). apply plain_Ok in Hs as [_ Hs%or_fail_Ok].
  apply Flagged_bind_Ok in Hc as (f2 & vs & Hvs & Hc). apply Flagged_bind_Ok in Hc as (f3 & w & Hw & Hc). apply Flagged_bind_Ok in Hc as (f4 & ? & Ht & Hc). apply ensure_or_flag_Ok in Ht as [_ Ht].
  do 2 apply Flagged_bind_Ok in Hc as (? & ? & _ & Hc). apply plain_Ok in Hc as [_ [= <-]]. split; [done|]. intros _ Hf. exists s, vs. split; [done|]. split.
  { unfold shard_validators. destruct ((ccs =? catchain_seqno s) && (h =? validator_list_hash_short s)) eqn:E1 in Hvs.
    - apply Flagged_bind_Ok in Hvs as (? & ? & _ & Hvs). apply plain_Ok in Hvs as [_ [= ->]]. breflect. subst. exists vset, cc. split; [by left|done].
    - destruct (intersects mode ALLOW_NEXT_VSET); [|by apply plain_Ok in Hvs as [_ ?]]. apply Flagged_bind_Ok in Hvs as (? & nset & Hn & Hvs). apply plain_Ok in Hn as [_ Hn%or_fail_Ok].
      apply Flagged_bind_Ok in Hvs as (? & [nv nh] & Hnsub & Hvs). apply plain_Ok in Hnsub as [_ Hnsub]. destruct (_ && _) eqn:E2 in Hvs; [|by apply plain_Ok in Hvs as [_ ?]].
      apply Flagged_bind_Ok in Hvs as (? & ? & _ & Hvs). apply plain_Ok in Hvs as [_ [= ->]]. breflect. subst. exists nset, cc. split; [by right|done]. }
  intros Hd H3.
  destruct (check_crypto_signatures s vs _) as [w'| |] eqn:Hcs in Hw; [|apply Flagged_bind_Ok in Hw as (? & ? & _ & Hw); by apply plain_Ok in Hw as [_ ?]|by apply plain_Ok in Hw as [_ ?]].
  apply plain_Ok in Hw as [_ [= ->]]. rewrite Hf in Ht. simpl in Ht. breflect.
  assert (total_weight vs < two64) as H1 by lia. destruct (crypto_signatures_ok _ _ _ _ Hcs Hd H1) as (sg & Hnd & Hin & Hsig & Hws).
  assert (w < two64) as Hw64 by (eapply (iterate_small _ _ _ 0); [done|exact Hcs]). rewrite N.mod_small in Hws by done. subst w.
  pose proof (total_weight_sub _ _ Hnd Hin) as Hle. rewrite sum_of_weights_small in Ht by done. unfold u64_mul in Ht. rewrite !N.mod_small in Ht by lia. exists sg. split; try done. lia.
Qed.

Lemma validate_ok self mc extra vert mode flags flags' n : descr_ok self → N.of_nat (descr_size self) < two32 → seq_no (proof_for_id self) < two32 →
  (∀ id, id ∈ chain_blk_ids self → shard_id id = shard_id (proof_for_id self)) → (∀ s, is_parent_for s s = false) →
  validate_internal self mc extra vert mode flags = (flags', Ok n) → n ≠ (-1)%Z →
  ∃ l r clen, n = Z.of_nat clen ∧ known_blocks self extra l r ∧ continues self (rec_block_id l) (rec_block_id r) clen
    ∧ Forall (mc_known mc extra) (chain_mc_blk_ids self)
    ∧ (intersects mode SKIP_CHECK_SIG = false → is_fake self = false → ∃ s vs, tbd_signatures (tbd self) = Some s
      ∧ shard_validators (proof_for_id self) extra mode s vs
      ∧ (distinct_signers s → 3 * total_weight vs < two64 → ∃ sg, two_thirds_signed (proof_for_id self) vs sg)).
Proof.
  intros Hd Hsz Hpf Hshard Hirr Hv Hn. unfold validate_internal in Hv. apply Flagged_bind_Ok in Hv as (f0 & mc0 & H0 & Hv). apply plain_Ok in H0 as [-> H0%at_index_Ok].
  assert (0 < descr_size self)%nat as Hpos by (unfold descr_size; rewrite <- (do_mc_len _ Hd); apply lookup_lt_Some in H0; lia).
  destruct (seq_no mc <? seq_no mc0); [destruct (_ || _); apply plain_Ok in Hv as [_ Hv]; by simplify_eq|].
  apply Flagged_bind_Ok in Hv as (? & ? & _ & Hv). apply Flagged_bind_Ok in Hv as (? & ? & Hmc%check_mc_ids_ok & Hv).
  apply Flagged_bind_Ok in Hv as (? & ls & Hls & Hv). apply plain_Ok in Hls as [_ Hls%or_fail_Ok].
  apply Flagged_bind_Ok in Hv as (? & lo & Hlo & Hv). apply plain_Ok in Hlo as [_ Hlo%or_fail_Ok].
  apply Flagged_bind_Ok in Hv as (? & l & Hl & Hv). apply plain_Ok in Hl as [_ ->%or_fail_Ok].
  apply Flagged_bind_Ok in Hv as (? & ? & Hlt & Hv). apply ensure_or_flag_Ok in Hlt as [_ Hlt]. apply Flagged_bind_Ok in Hv as (? & prev0 & Hp0 & Hv). apply plain_Ok in Hp0 as [_ Hp0%at_index_Ok].
  destruct (seq_no (rec_block_id l) <? seq_no prev0) eqn:L0; [apply plain_Ok in Hv as [_ Hv]; destruct (intersects mode FAIL_NEW); by simplify_eq|].
  apply Flagged_bind_Ok in Hv as (? & r & Hr%find_right_ok & Hv). apply Flagged_bind_Ok in Hv as (? & prev2 & Hp2 & Hv). apply plain_Ok in Hp2 as [_ Hp2].
  destruct (seq_no (rec_block_id r) <? seq_no prev2) eqn:L2; [apply plain_Ok in Hv as [_ Hv]; destruct (intersects mode FAIL_NEW); by simplify_eq|].
  apply Flagged_bind_Ok in Hv as (? & ? & Hlk & Hv). apply check_validators_ok in Hv as [-> Hsig]. breflect.
  assert (prev2 = default prev0 (chain_head_prev self !! 1%nat)) as E2.
  { destruct (chain_head_prev self !! 1%nat); simpl; [by injection Hp2|]. apply at_index_Ok in Hp2. congruence. }
  assert (seq_no (rec_block_id r) < seq_no (proof_for_id self)) as Hrlt by (destruct (is_parent_for _ _); [apply Hr|by subst r]).
  destruct (clen_ok self (rec_block_id l) (rec_block_id r) prev0 prev2 Hd Hpos Hsz Hpf Hp0 E2 L0 L2 Hlt Hrlt) as [Hc1 Hc2].
  eexists l, r, _. split; [reflexivity|]. split; [|split; [|split; [exact Hmc|exact Hsig]]].
  - split; [by exists ls|]. destruct (is_parent_for _ _); [apply Hr|done].
  - split; [exact Hc1|exact Hc2|]. eapply (check_links_ok self _ _ prev0 prev2); [done|done|lia| |done|done|exact Hlk].
    intros _ Hin. unfold rec_shard in Hr. rewrite (Hshard (rec_block_id l)), Hirr in Hr; [by subst r|]. by eapply list_elem_of_lookup_2.
Qed.

(** ** The checks come to an end *)
Lemma or_fail_no_crash {A} (o : option A) flags : (plain (or_fail o) flags).2 ≠ Crash.
Proof. by destruct o. Qed.

Lemma ensure_or_flag_no_crash b bits flags : (ensure_or_flag b bits flags).2 ≠ Crash.
Proof. by destruct b. Qed.

Lemma Flagged_bind_crash {A B} (m : Flagged A) (f : A → Flagged B) flags :
  (m flags).2 ≠ Crash → (∀ flags' a, m flags = (flags', Ok a) → (f a flags').2 ≠ Crash) → ((m ≫= f) flags).2 ≠ Crash.
Proof. unfold mbind, Flagged_bind. destruct (m flags) as [f1 [a| |]]; intros Hm Hf; [by apply Hf|done|done]. Qed.

Lemma check_mc_ids_no_crash mc extra ids : ∀ next flags, (check_mc_ids mc extra next ids flags).2 ≠ Crash.
Proof.
  induction ids as [|id ids IH]; intros next flags; [done|]. cbn [check_mc_ids]. apply Flagged_bind_crash; [apply ensure_or_flag_no_crash|intros f1 ? _].
  apply Flagged_bind_crash; [|intros f2 v _; apply Flagged_bind_crash; [apply ensure_or_flag_no_crash|intros f3 ? _; apply IH]].
  destruct (_ =? _); [done|]. apply Flagged_bind_crash; [apply or_fail_no_crash|done].
Qed.

Lemma find_right_no_crash self extra l flags : (find_right self extra l flags).2 ≠ Crash.
Proof.
  unfold find_right. destruct (negb _); [done|]. do 3 (apply Flagged_bind_crash; [apply or_fail_no_crash|intros ? ? _]).
  apply Flagged_bind_crash; [apply ensure_or_flag_no_crash|done].
Qed.

Lemma check_links_no_crash self l r p0 p2 clen flags : (check_links self l r p0 p2 clen flags).2 ≠ Crash.
Proof.
  unfold check_links. case_bool_decide as Hlt.
  - apply Flagged_bind_crash; [|intros ? ? _; apply ensure_or_flag_no_crash]. unfold at_index, plain. destruct (lookup_lt_is_Some_2 (chain_blk_ids self) clen Hlt) as [x ->]. done.
  - apply Flagged_bind_crash; [apply ensure_or_flag_no_crash|intros ? ? _; apply ensure_or_flag_no_crash].
Qed.

Lemma check_validators_no_crash self extra mode clen flags : (check_validators self extra mode clen flags).2 ≠ Crash.
Proof.
  unfold check_validators. do 3 (apply Flagged_bind_crash; [apply or_fail_no_crash|intros ? ? _]). apply Flagged_bind_crash; [apply calc_subset_no_crash|intros ? [vals h] _].
  destruct (intersects mode SKIP_CHECK_SIG); [done|]. apply Flagged_bind_crash; [apply or_fail_no_crash|intros ? s _]. apply Flagged_bind_crash.
  - destruct (_ && _); [done|]. destruct (intersects mode ALLOW_NEXT_VSET); [|done]. apply Flagged_bind_crash; [apply or_fail_no_crash|intros ? nv _].
    apply Flagged_bind_crash; [apply calc_subset_no_crash|intros ? [nvals nh] _]. by destruct (_ && _).
  - intros ? vs _. apply Flagged_bind_crash.
    + pose proof (check_crypto_no_crash s vs (build_data_for_sign (root_hash (proof_for_id self)) (file_hash (proof_for_id self)))) as K. by destruct (check_crypto_signatures _ _ _).
    + intros ? w _. apply Flagged_bind_crash; [apply ensure_or_flag_no_crash|intros ? ? _]. apply Flagged_bind_crash; [done|intros ? ? _].
      apply Flagged_bind_crash; [unfold plain, ensure; by destruct (_ || _)|done].
Qed.

Lemma validate_no_crash self mc extra vert mode flags : descr_ok self → (0 < descr_size self)%nat → (validate_internal self mc extra vert mode flags).2 ≠ Crash.
Proof.
  intros Hd Hpos. assert (∃ mc0, chain_mc_blk_ids self !! 0%nat = Some mc0) as [mc0 H0] by (apply lookup_lt_is_Some_2; rewrite (do_mc_len _ Hd); exact Hpos).
  assert (∃ p0, chain_head_prev self !! 0%nat = Some p0) as [p0 Hp0] by (destruct (do_head _ Hd Hpos) as (p & [->|(p2 & ->)]); by exists p).
  unfold validate_internal. apply Flagged_bind_crash; [unfold plain, at_index; by rewrite H0|intros f0 ? _].
  destruct (_ <? _); [by destruct (_ || _)|]. apply Flagged_bind_crash; [unfold plain; simpl; destruct (_ =? _); [done|]; destruct (_ <? _); [done|]; unfold ensure; by destruct (negb _)|intros ? ? _].
  apply Flagged_bind_crash; [apply check_mc_ids_no_crash|intros ? ? _]. do 3 (apply Flagged_bind_crash; [apply or_fail_no_crash|intros ? ? _]).
  apply Flagged_bind_crash; [apply ensure_or_flag_no_crash|intros ? ? _]. apply Flagged_bind_crash; [unfold plain, at_index; by rewrite Hp0|intros ? p0' _].
  destruct (_ <? _); [by destruct (intersects mode FAIL_NEW)|]. apply Flagged_bind_crash; [apply find_right_no_crash|intros ? r _].
  apply Flagged_bind_crash; [unfold plain, at_index; rewrite Hp0; by destruct (chain_head_prev self !! 1%nat)|intros ? p2 _].
  destruct (_ <? _); [by destruct (intersects mode FAIL_NEW)|]. apply Flagged_bind_crash; [apply check_links_no_crash|intros ? ? _]. apply check_validators_no_crash.
Qed.

(** ** Keys *)
Lemma descr_id_roundtrip k rest : cc_seqno k < two32 → TopBlockDescrId_from_bytes (TopBlockDescrId_to_bytes k ++ rest) = Ok k.
Proof.
  intros Hc. destruct (i32_roundtrip _ (workchain_id_range (descr_shard k))) as [Hlt Hr]. unfold TopBlockDescrId_from_bytes, TopBlockDescrId_to_bytes.
  rewrite <- !app_assoc, read_le_app by done. rewrite read_le_app by apply shard_prefix_range. rewrite read_le_app by done. rewrite Hr, with_tagged_prefix_ok. simpl. by destruct k.
Qed.
End facts.
