(* ===== verification/ShardBlocks.v ===== *)
(** * The pool of shard blocks for the collator

    Models [src/shard_blocks.rs].  Calls of [process_shard_block] and [update_shard_blocks]
    run concurrently; their accesses to the shared map and to the channel of the storage
    worker are atomic steps, which interleave in any order, also with the engine, which applies
    masterchain states meanwhile.  [insert_with] of the lock-free map is atomic: it calls the
    closure again until its answer fits the value that is stored. *)

From S2P Require Import Prelude BlockId Checks Signatures BlockHeader BlockProof TopBlockDescr.

Section pool.
Context {SI : ShardIdents} {T : ShardTree} {V : Validators} {BC : BlockConfigs}.

Inductive StoreAction :=
| Save (id : TopBlockDescrId) (tsb : TopBlockDescrStuff)
| Remove (id : TopBlockDescrId).

Inductive ShardBlockProcessingResult :=
| Duplication
| MightBeAdded (tbds : TopBlockDescrStuff).

Record ShardBlocksPoolItem := { top_block : TopBlockDescrStuff; own : bool }.

(** The last masterchain state: what the validation reads of it. *)
Record McState := { mc_id : BlockIdExt; mc_custom : option (option McStateExtra); mc_vert_seq_no : N }.

Definition validate_with (st : McState) (t : TopBlockDescrStuff) : Res Z := validate t (mc_id st) (mc_custom st) (mc_vert_seq_no st).

(** The arguments of a call of [process_shard_block]. *)
Record Call := {
  call_id : BlockIdExt;
  call_cc_seqno : N;
  factory : Res TopBlockDescrStuff;
  call_own : bool;
  check_only : bool;
}.

(** The factory of [process_shard_block_raw]: [parsed] is what the data contain. *)
Definition raw_factory (fake : bool) (id : BlockIdExt) (parsed : option TopBlockDescr) (no_signatures : BlockSignatures) : Res TopBlockDescrStuff :=
  d ← (if fake then Ok {| tbd_proof_for := id; tbd_signatures := Some no_signatures; tbd_chain := [] |} else or_fail parsed);
  TopBlockDescrStuff_new d fake.

Definition call_key (c : Call) : TopBlockDescrId := {| descr_shard := shard_id (call_id c); cc_seqno := call_cc_seqno c |}.

(** Where a call is.  [start] is the number of masterchain states that were applied when the
    call began; it is not a value of the code. *)
Inductive Task :=
| Checking (c : Call) (start : nat) (tbds : option TopBlockDescrStuff)
| Making (c : Call) (start : nat) (tbds : option TopBlockDescrStuff)
| Loading (c : Call) (start : nat) (tbds : TopBlockDescrStuff)
| Validating (c : Call) (start : nat) (tbds : TopBlockDescrStuff) (st : McState)
| Inserting (c : Call) (start : nat) (tbds : TopBlockDescrStuff)
| Saving (c : Call) (start : nat) (tbds : TopBlockDescrStuff)
| Processed (c : Call) (result : Res ShardBlockProcessingResult)
| Updating (st : McState)
| RemovingBlock (st : McState) (key : TopBlockDescrId)
| Forgetting (st : McState) (key : TopBlockDescrId)
| UpdatePanicked
| Updated.

(** [applied]: the masterchain states that the engine has applied, the last one at the end. *)
Record ShardBlocksPool := {
  last_mc_seq_no : N;
  shard_blocks : gmap TopBlockDescrId ShardBlocksPoolItem;
  storage : list StoreAction;
  pool_is_fake : bool;
  tasks : list Task;
  applied : list McState;
}.
Implicit Types (self : ShardBlocksPool) (n : nat) (c : Call).

Definition ShardBlocksPool_new (blocks : gmap TopBlockDescrId TopBlockDescrStuff) (last_mc_seqno : N) (fake : bool) : ShardBlocksPool :=
  {| last_mc_seq_no := last_mc_seqno; shard_blocks := (λ b, {| top_block := b; own := false |}) <$> blocks; storage := []; pool_is_fake := fake; tasks := []; applied := [] |}.

Definition put_task self n (t : Task) : ShardBlocksPool :=
  {| last_mc_seq_no := last_mc_seq_no self; shard_blocks := shard_blocks self; storage := storage self; pool_is_fake := pool_is_fake self; tasks := <[n := t]> (tasks self);
     applied := applied self |}.
Definition set_blocks self (blocks : gmap TopBlockDescrId ShardBlocksPoolItem) : ShardBlocksPool :=
  {| last_mc_seq_no := last_mc_seq_no self; shard_blocks := blocks; storage := storage self; pool_is_fake := pool_is_fake self; tasks := tasks self; applied := applied self |}.
Definition send_to_storage self (action : StoreAction) : ShardBlocksPool :=
  {| last_mc_seq_no := last_mc_seq_no self; shard_blocks := shard_blocks self; storage := storage self ++ [action]; pool_is_fake := pool_is_fake self; tasks := tasks self;
     applied := applied self |}.
Definition set_last_mc self (seqno : N) : ShardBlocksPool :=
  {| last_mc_seq_no := seqno; shard_blocks := shard_blocks self; storage := storage self; pool_is_fake := pool_is_fake self; tasks := tasks self; applied := applied self |}.

(** The engine applies a masterchain state. *)
Definition engine_apply self (st : McState) : ShardBlocksPool :=
  {| last_mc_seq_no := last_mc_seq_no self; shard_blocks := shard_blocks self; storage := storage self; pool_is_fake := pool_is_fake self; tasks := tasks self;
     applied := applied self ++ [st] |}.

(** [engine.load_last_applied_mc_state()] *)
Definition load_last_applied_mc_state self : Res McState := or_fail (list.last (applied self)).

(** The stored block is at least as new as the block of the call. *)
Definition duplicated self c : bool :=
  match shard_blocks self !! call_key c with
  | Some item => seq_no (call_id c) <=? seq_no (proof_for_id (top_block item))
  | None => false
  end.

(** [insert_with]: [None] when the closure discards the new value. *)
Definition insert_newer self c (t : TopBlockDescrStuff) : option ShardBlocksPool :=
  if duplicated self c then None
  else Some (set_blocks self (<[call_key c := {| top_block := t; own := call_own c |}]> (shard_blocks self))).

(** What [validate] lets the call do: a panic ends it. *)
Definition after_validation c (start : nat) (t : TopBlockDescrStuff) (r : Res Z) : Task :=
  match r with
  | Ok _ => if check_only c then Saving c start t else Inserting c start t
  | Err => Processed c Err
  | Crash => Processed c Crash
  end.

(** One step of task [n]. *)
Inductive task_step self n : ShardBlocksPool → Prop :=
| step_duplication c start o : tasks self !! n = Some (Checking c start o) → duplicated self c = true →
    task_step self n (put_task self n (Processed c (Ok Duplication)))
| step_new_block c start o : tasks self !! n = Some (Checking c start o) → duplicated self c = false →
    task_step self n (put_task self n (Making c start o))
| step_make c start o : tasks self !! n = Some (Making c start o) →
    task_step self n (put_task self n
      match (match o with Some t => Ok t | None => factory c end) with
      | Ok t => if pool_is_fake self then after_validation c start t (Ok 0%Z) else Loading c start t
      | Err => Processed c Err
      | Crash => Processed c Crash
      end)
| step_load c start t : tasks self !! n = Some (Loading c start t) →
    task_step self n (put_task self n (match load_last_applied_mc_state self with Ok st => Validating c start t st | _ => Processed c Err end))
| step_load_fails c start t : tasks self !! n = Some (Loading c start t) →
    task_step self n (put_task self n (Processed c Err))
| step_validate c start t st : tasks self !! n = Some (Validating c start t st) →
    task_step self n (put_task self n (after_validation c start t (validate_with st t)))
| step_inserted c start t self' : tasks self !! n = Some (Inserting c start t) → insert_newer self c t = Some self' →
    task_step self n (put_task self' n (Saving c start t))
| step_retry c start t : tasks self !! n = Some (Inserting c start t) → insert_newer self c t = None →
    task_step self n (put_task self n (Checking c start (Some t)))
| step_save c start t : tasks self !! n = Some (Saving c start t) →
    task_step self n (put_task (send_to_storage self (Save (call_key c) t)) n (Processed c (Ok (MightBeAdded t))))
| step_visit st key item : tasks self !! n = Some (Updating st) → shard_blocks self !! key = Some item →
    task_step self n (put_task self n
      match validate_with st (top_block item) with Ok _ => Updating st | Err => RemovingBlock st key | Crash => UpdatePanicked end)
| step_remove st key : tasks self !! n = Some (RemovingBlock st key) →
    task_step self n (put_task (set_blocks self (delete key (shard_blocks self))) n (Forgetting st key))
| step_forget st key : tasks self !! n = Some (Forgetting st key) →
    task_step self n (put_task (send_to_storage self (Remove key)) n (Updating st))
| step_updated st : tasks self !! n = Some (Updating st) →
    task_step self n (put_task self n Updated).

(** A call comes in: the block of its description is the block it is called with. *)
Definition genuine c : Prop := ∀ t, factory c = Ok t → proof_for_id t = call_id c.

Definition add_task self (t : Task) : ShardBlocksPool :=
  {| last_mc_seq_no := last_mc_seq_no self; shard_blocks := shard_blocks self; storage := storage self; pool_is_fake := pool_is_fake self; tasks := tasks self ++ [t];
     applied := applied self |}.

(** [update_shard_blocks] stores the number before it looks at the blocks. *)
Inductive pool_step : ShardBlocksPool → ShardBlocksPool → Prop :=
| pool_task self n self' : task_step self n self' → pool_step self self'
| pool_apply self st : pool_step self (engine_apply self st)
| pool_process self c : genuine c → pool_step self (add_task self (Checking c (length (applied self)) None))
| pool_update self st : pool_step self (add_task (set_last_mc self (seq_no (mc_id st))) (Updating st)).

(** [get_shard_blocks]: the blocks in the order of the iteration. *)
Definition get_shard_blocks self (mc_seq_no : N) (only_own : bool) (order : list TopBlockDescrId) : Res (list TopBlockDescrStuff) :=
  _ ← ensure (mc_seq_no =? last_mc_seq_no self);
  Ok (omap (λ k, match shard_blocks self !! k with Some item => if negb only_own || own item then Some (top_block item) else None | None => None end) order).

(** ** The invariant *)

(** The description passed the validation against a masterchain state that was the last
    applied one when the number of applied states was [start] or later. *)
Definition validated self (start : nat) (t : TopBlockDescrStuff) : Prop :=
  ∃ k st z, applied self !! k = Some st ∧ (start <= S k)%nat ∧ validate_with st t = Ok z.

(** What holds of the description that a task holds. *)
Definition task_ok self (t : Task) : Prop :=
  match t with
  | Checking c start o | Making c start o => genuine c ∧ (start <= length (applied self))%nat ∧ ∀ b, o = Some b → factory c = Ok b
  | Loading c start b => genuine c ∧ (start <= length (applied self))%nat ∧ factory c = Ok b
  | Validating c start b st => genuine c ∧ (start <= length (applied self))%nat ∧ factory c = Ok b ∧ ∃ k, applied self !! k = Some st ∧ (start <= S k)%nat
  | Inserting c start b | Saving c start b =>
      genuine c ∧ (start <= length (applied self))%nat ∧ factory c = Ok b ∧ (pool_is_fake self = true ∨ validated self start b)
  | _ => True
  end.

Definition item_ok (initial : gmap TopBlockDescrId TopBlockDescrStuff) self key (t : TopBlockDescrStuff) : Prop :=
  initial !! key = Some t ∨ (shard_id (proof_for_id t) = descr_shard key ∧ (pool_is_fake self = true ∨ validated self 0 t)).

Record blocks_inv (initial : gmap TopBlockDescrId TopBlockDescrStuff) self : Prop := {
  bl_tasks n t : tasks self !! n = Some t → task_ok self t;
  bl_items key item : shard_blocks self !! key = Some item → item_ok initial self key (top_block item);
}.

Lemma put_task_lookup self n t m x : tasks (put_task self n t) !! m = Some x → x = t ∨ tasks self !! m = Some x.
Proof. simpl. intros Hm. apply list_lookup_insert_Some in Hm as [(_ & -> & _)|[_ ?]]; auto. Qed.

Lemma put_task_inv initial self n t : blocks_inv initial self → task_ok self t → blocks_inv initial (put_task self n t).
Proof. intros Hi Ht. split; [|apply (bl_items _ _ Hi)]. intros m x Hm. apply put_task_lookup in Hm as [->|Hm]; [done|by apply (bl_tasks _ _ Hi m)]. Qed.

Lemma insert_newer_blocks self c t self' : insert_newer self c t = Some self' →
  duplicated self c = false ∧ self' = set_blocks self (<[call_key c := {| top_block := t; own := call_own c |}]> (shard_blocks self)).
Proof. unfold insert_newer. destruct (duplicated self c); by intros [= <-]. Qed.

Lemma validated_weaken self start start' t : validated self start t → (start' <= start)%nat → validated self start' t.
Proof. intros (k & st & z & Hk & Hs & Hz) Hle. exists k, st, z. split; [done|]. split; [lia|done]. Qed.

Lemma after_validation_ok self c start t r : genuine c → (start <= length (applied self))%nat → factory c = Ok t →
  (∀ z, r = Ok z → pool_is_fake self = true ∨ validated self start t) → task_ok self (after_validation c start t r).
Proof. intros Hg Hs Hf Hv. unfold after_validation. destruct r as [z| |]; [|done|done]. specialize (Hv z eq_refl). by destruct (check_only c). Qed.

Lemma task_step_inv initial self n self' : blocks_inv initial self → task_step self n self' → blocks_inv initial self'.
Proof.
  intros Hi Hs. destruct Hs as [c i o Hn Hd|c i o Hn Hd|c i o Hn|c i t Hn|c i t Hn|c i t st Hn|c i t s Hn Hins|c i t Hn Hins|c i t Hn|st key item Hn Hk|st key Hn|st key Hn|st Hn];
    pose proof (bl_tasks _ _ Hi n _ Hn) as Ht; simpl in Ht.
  - by apply put_task_inv.
  - by apply put_task_inv.
  - apply put_task_inv; [done|]. destruct Ht as (Hg & Hle & Ho).
    assert (∀ t, (match o with Some t0 => Ok t0 | None => factory c end) = Ok t → factory c = Ok t) as Hf by (intros t E; destruct o as [b|]; [injection E as ->; by apply Ho|done]).
    destruct (match o with Some t0 => Ok t0 | None => factory c end) as [t| |]; [|done|done]. specialize (Hf t eq_refl).
    destruct (pool_is_fake self) eqn:Ef; [|done]. apply after_validation_ok; try done. auto.
  - apply put_task_inv; [done|]. destruct Ht as (Hg & Hle & Hf). unfold load_last_applied_mc_state. destruct (list.last (applied self)) as [st|] eqn:El; [|done]. simpl.
    split; [done|]. split; [done|]. split; [done|]. rewrite list.last_lookup in El. eexists. split; [exact El|lia].
  - by apply put_task_inv.
  - apply put_task_inv; [done|]. destruct Ht as (Hg & Hle & Hf & k & Hk & Hs). apply after_validation_ok; try done. intros z Hz. right. by exists k, st, z.
  - apply insert_newer_blocks in Hins as [_ ->]. destruct Ht as (Hg & Hle & Hf & Hv). apply put_task_inv; [|done]. split; [apply (bl_tasks _ _ Hi)|].
    intros key item Hk. simpl in Hk. apply lookup_insert_Some in Hk as [[<- <-]|[_ Hk]]; [|by apply (bl_items _ _ Hi)]. right. simpl. rewrite (Hg _ Hf). split; [done|].
    destruct Hv as [?|Hv]; [by left|right]. eapply validated_weaken; [exact Hv|lia].
  - apply put_task_inv; [done|]. destruct Ht as (Hg & Hle & Hf & Hv). split; [done|]. split; [done|]. by intros b [= <-].
  - apply put_task_inv; [|done]. split; [apply (bl_tasks _ _ Hi)|apply (bl_items _ _ Hi)].
  - apply put_task_inv; [done|]. by destruct (validate_with st (top_block item)).
  - apply put_task_inv; [|done]. split; [apply (bl_tasks _ _ Hi)|]. intros k item Hk. simpl in Hk. apply lookup_delete_Some in Hk as [_ Hk]. by apply (bl_items _ _ Hi).
  - apply put_task_inv; [|done]. split; [apply (bl_tasks _ _ Hi)|apply (bl_items _ _ Hi)].
  - by apply put_task_inv.
Qed.

Lemma add_task_inv initial self t : blocks_inv initial self → task_ok self t → blocks_inv initial (add_task self t).
Proof.
  intros Hi Ht. split; [|apply (bl_items _ _ Hi)]. intros m x Hm. simpl in Hm. apply lookup_app_Some in Hm as [Hm|[_ Hm]]; [by apply (bl_tasks _ _ Hi m)|].
  by apply list_lookup_singleton_Some in Hm as [_ <-].
Qed.

(** Applying a state keeps what is known of the states before. *)
Lemma validated_apply self st start t : validated self start t → validated (engine_apply self st) start t.
Proof. intros (k & st' & z & Hk & ?). exists k, st', z. split; [|done]. simpl. by apply lookup_app_l_Some. Qed.

Lemma task_ok_apply self st t : task_ok self t → task_ok (engine_apply self st) t.
Proof.
  destruct t; simpl; rewrite ?length_app; try done.
  - intros (? & ? & ?). split_and!; try done; lia.
  - intros (? & ? & ?). split_and!; try done; lia.
  - intros (? & ? & ?). split_and!; try done; lia.
  - intros (? & ? & ? & k & ? & ?). split_and!; try done; [lia|]. exists k. split; [by apply lookup_app_l_Some|done].
  - intros (? & ? & ? & Hv). split_and!; try done; [lia|]. destruct Hv as [?|?]; [by left|right; by apply validated_apply].
  - intros (? & ? & ? & Hv). split_and!; try done; [lia|]. destruct Hv as [?|?]; [by left|right; by apply validated_apply].
Qed.

Lemma engine_apply_inv initial self st : blocks_inv initial self → blocks_inv initial (engine_apply self st).
Proof.
  intros Hi. split; [intros n t Ht; by apply task_ok_apply, (bl_tasks _ _ Hi n)|]. intros key item Hk.
  destruct (bl_items _ _ Hi key item Hk) as [?|[? [?|?]]]; [by left|right; split; [done|by left]|right; split; [done|right; by apply validated_apply]].
Qed.

Lemma pool_step_inv initial self self' : blocks_inv initial self → pool_step self self' → blocks_inv initial self'.
Proof.
  intros Hi Hs. destruct Hs as [self n self' Hs|self st|self c Hc|self st].
  - by eapply task_step_inv.
  - by apply engine_apply_inv.
  - by apply add_task_inv.
  - apply add_task_inv; [|done]. split; [apply (bl_tasks _ _ Hi)|apply (bl_items _ _ Hi)].
Qed.

Lemma new_pool_inv blocks seqno fake : blocks_inv blocks (ShardBlocksPool_new blocks seqno fake).
Proof.
  split; [done|]. intros key item Hk. simpl in Hk. rewrite lookup_fmap in Hk. destruct (blocks !! key) as [b|] eqn:E; [|done]. injection Hk as <-. by left.
Qed.

Lemma pool_run_inv_blocks blocks seqno fake self : rtc pool_step (ShardBlocksPool_new blocks seqno fake) self → blocks_inv blocks self.
Proof.
  intros Hr. remember (ShardBlocksPool_new blocks seqno fake) as s eqn:E. assert (blocks_inv blocks s) as Hi by (rewrite E; apply new_pool_inv). clear E.
  induction Hr as [|s s1 s2 Hs _ IH]; [done|]. apply IH. by eapply pool_step_inv.
Qed.

(** A block is put in by a call, which validated it while it ran, and only in the place of an
    older one. *)
Lemma pool_step_newer initial self self' key item' : blocks_inv initial self → pool_step self self' →
  shard_blocks self' !! key = Some item' → shard_blocks self !! key ≠ Some item' →
  (∃ n c start, tasks self !! n = Some (Inserting c start (top_block item')) ∧ call_key c = key ∧ proof_for_id (top_block item') = call_id c
    ∧ (pool_is_fake self = true ∨ validated self start (top_block item')))
  ∧ (∀ item, shard_blocks self !! key = Some item → seq_no (proof_for_id (top_block item)) < seq_no (proof_for_id (top_block item'))).
Proof.
  intros Hi Hs Hk' Hne. destruct Hs as [self n self' Hs|self st|self c Hc|self st]; [|simpl in Hk'; congruence..].
  destruct Hs as [c i o Hn Hd|c i o Hn Hd|c i o Hn|c i t Hn|c i t Hn|c i t st Hn|c i t s Hn Hins|c i t Hn Hins|c i t Hn|st k item0 Hn H0|st k Hn|st k Hn|st Hn];
    try (exfalso; apply Hne; exact Hk').
  - apply insert_newer_blocks in Hins as [Hd ->]. destruct (bl_tasks _ _ Hi n _ Hn) as (Hg & _ & Hf & Hv). simpl in Hk'.
    apply lookup_insert_Some in Hk' as [[<- <-]|[_ Hk']]; [|congruence]. simpl in *. split; [by exists n, c, i; rewrite (Hg _ Hf)|].
    intros item Hk. unfold duplicated in Hd. rewrite Hk in Hd. breflect. by rewrite (Hg _ Hf).
  - simpl in Hk'. apply lookup_delete_Some in Hk' as [_ Hk']. congruence.
Qed.
End pool.
