(* ===== verification/ShardUpdates.v ===== *)
(** * Updates of the shard configuration

    Models [src/validating_utils.rs]: the checks that a collator and a validator make on a new
    shard block against the masterchain, and the update of the shard configuration of the
    masterchain by new shard blocks, with splits and merges.  The tree of shards
    ([ton_block::ShardHashes]) is a parameter with the laws of its operations. *)

From S2P Require Import Prelude BlockId Checks Signatures BlockHeader.

Definition supported_capabilities (create_stats bounce_msg_body report_version short_dequeue fast_storage_stat : N) : N :=
  N.lor (N.lor (N.lor (N.lor create_stats bounce_msg_body) report_version) short_dequeue) fast_storage_stat.
Definition supported_version : N := 11.

(** What [ton_block] provides: [FutureSplitMerge] and further operations on shards. *)
Class SplitMerge `{ShardTree} := {
  FutureSplitMerge : Type;
  #[global] FutureSplitMerge_eq_dec :: EqDecision FutureSplitMerge;
  fsm_absent : FutureSplitMerge;
  fsm_is_split : FutureSplitMerge → bool;
  fsm_is_merge : FutureSplitMerge → bool;
  fsm_is_none : FutureSplitMerge → bool;
  fsm_utime_of : FutureSplitMerge → N;
  fsm_utime_end_of : FutureSplitMerge → N;
  fsm_interval_of : FutureSplitMerge → N;
  sibling : ShardIdent → ShardIdent;
  INVALID_WORKCHAIN_ID : Z;
  MASTERCHAIN_ID : Z;
  parent_children p c s1 s2 : is_parent_for p c = true → shard_split p = Some (s1, s2) → c = s1 ∧ sibling c = s2 ∨ c = s2 ∧ sibling c = s1;
  parent_merge p c : is_parent_for p c = true → shard_merge c = Some p;
  parent_asym p c : is_parent_for p c = true → is_parent_for c p = false;
  split_prefixes p s1 s2 : shard_split p = Some (s1, s2) → shard_prefix_with_tag s1 < shard_prefix_with_tag s2;
  split_distinct p s1 s2 : shard_split p = Some (s1, s2) → s1 ≠ s2 ∧ s1 ≠ p ∧ s2 ≠ p;
}.

Section updates.
Context {SI : ShardIdents} {T : ShardTree} {SM : SplitMerge}.

Record ShardDescr := {
  descr_seq_no : N;
  descr_before_split : bool;
  descr_before_merge : bool;
  next_catchain_seqno : N;
  end_lt : N;
  descr_utime : N;
  split_merge_at : FutureSplitMerge;
}.

Record ShardRecord := { sr_shard : ShardIdent; sr_descr : ShardDescr; sr_block_id : BlockIdExt }.

(** [ShardHashes]: the shards are the leaves of trees, one for each workchain.  The block
    that is recorded for a shard is a block of that shard. *)
Class ShardHashesOps := {
  ShardHashes : Type;
  leaves : ShardHashes → gmap ShardIdent ShardRecord;
  has_workchain : ShardHashes → Z → option bool;
  get_shard : ShardHashes → ShardIdent → option (option ShardRecord);
  find_shard_of : ShardHashes → ShardIdent → option (option ShardRecord);
  calc_cc_seqno : ShardHashes → ShardIdent → option N;
  update_shard : ShardHashes → ShardIdent → ShardRecord → option ShardHashes;
  merge_shards : ShardHashes → ShardIdent → ShardRecord → option ShardHashes;
  split_shard : ShardHashes → ShardIdent → ShardRecord → ShardRecord → option ShardHashes;
  get_shard_leaf shards s r : get_shard shards s = Some (Some r) → leaves shards !! s = Some r;
  update_shard_leaf shards s r shards' : update_shard shards s r = Some shards' → is_Some (leaves shards !! s) ∧ leaves shards' = <[s := r]> (leaves shards);
  merge_shards_leaf shards s r shards' : merge_shards shards s r = Some shards' →
    ∃ s1 s2, shard_split s = Some (s1, s2) ∧ is_Some (leaves shards !! s1) ∧ is_Some (leaves shards !! s2)
      ∧ leaves shards' = <[s := r]> (delete s2 (delete s1 (leaves shards)));
  split_shard_leaf shards s r1 r2 shards' : split_shard shards s r1 r2 = Some shards' →
    ∃ s1 s2, shard_split s = Some (s1, s2) ∧ is_Some (leaves shards !! s)
      ∧ leaves shards' = <[s2 := r2]> (<[s1 := r1]> (delete s (leaves shards)));
}.
Context {SH : ShardHashesOps}.
Implicit Types (shards : ShardHashes) (new_info : ShardRecord) (old_blkids : list BlockIdExt).

Definition is_fsm_split (d : ShardDescr) : bool := fsm_is_split (split_merge_at d).
Definition is_fsm_merge (d : ShardDescr) : bool := fsm_is_merge (split_merge_at d).
Definition is_fsm_none (d : ShardDescr) : bool := fsm_is_none (split_merge_at d).
Definition fsm_utime (d : ShardDescr) : N := fsm_utime_of (split_merge_at d).
Definition fsm_utime_end (d : ShardDescr) : N := fsm_utime_end_of (split_merge_at d).
Definition fsm_interval (d : ShardDescr) : N := fsm_interval_of (split_merge_at d).

(** ** Checks of a new shard block *)
Definition check_prev_block_exact (listed prev : BlockIdExt) : Res unit := ensure (bool_decide (listed = prev)).

Definition check_prev_block (listed prev : BlockIdExt) (chk_chain_len : bool) : Res unit :=
  _ ← ensure (negb (seq_no prev <? seq_no listed));
  _ ← ensure (negb ((seq_no listed =? seq_no prev) && negb (bool_decide (listed = prev))));
  ensure (negb (chk_chain_len && (u32_add (seq_no listed) 8 <=? seq_no prev))).

(** What is read of the description of a workchain. *)
Record WorkchainInfo := { wc_active : bool; wc_basic : bool; enabled_since : N; accept_msgs : bool }.

(** The shard is listed: no split and no merge since. *)
Definition check_same_shard (shard : ShardIdent) (after_merge after_split before_split : bool) (prev_blocks : list BlockIdExt) shards (left : ShardRecord)
    (is_validate : bool) (now : N) : Res (N * bool * bool) :=
  let d := sr_descr left in
  _ ← ensure (negb (after_merge || after_split));
  prev0 ← at_index prev_blocks 0;
  _ ← check_prev_block (sr_block_id left) prev0 true;
  _ ← ensure (negb (descr_before_split d));
  _ ← (if descr_before_merge d then
         sib ← or_fail (get_shard shards (sibling shard));
         sib ← or_fail sib;
         ensure (negb (descr_before_merge (sr_descr sib)))
       else Ok ());
  if is_fsm_split d then
    if is_validate then Ok (u32_max, before_split, (fsm_utime d <=? now) && (now <? fsm_utime_end d))
    else if (fsm_utime d <=? now) && (u32_add now 13 <? fsm_utime_end d) then Ok (u32_sub (fsm_utime_end d) 11, true, false)
    else Ok (u32_max, before_split, false)
  else Ok (u32_max, before_split, false).

(** Two listed shards are merged into the shard. *)
Definition check_merged_shard (shard : ShardIdent) (after_merge after_split : bool) (prev_blocks : list BlockIdExt) shards (left : ShardRecord) : Res unit :=
  _ ← ensure (descr_before_merge (sr_descr left));
  r_shard ← or_fail (right_ancestor_mask shard);
  right ← or_fail (find_shard_of shards r_shard);
  right ← or_fail right;
  _ ← ensure (is_parent_for shard (sr_shard right));
  _ ← ensure (descr_before_merge (sr_descr right));
  _ ← ensure (negb after_split);
  prev0 ← at_index prev_blocks 0;
  if after_merge then
    _ ← check_prev_block_exact (sr_block_id left) prev0;
    prev1 ← at_index prev_blocks 1;
    check_prev_block_exact (sr_block_id right) prev1
  else
    let cseqno := N.max (descr_seq_no (sr_descr left)) (descr_seq_no (sr_descr right)) in
    _ ← ensure (negb (seq_no prev0 <=? cseqno));
    ensure (negb (u32_add cseqno 8 <=? seq_no prev0)).

(** The shard is a part of the listed shard. *)
Definition check_split_shard (after_merge after_split : bool) (prev_blocks : list BlockIdExt) (left : ShardRecord) : Res unit :=
  _ ← ensure (descr_before_split (sr_descr left));
  _ ← ensure (negb after_merge);
  prev0 ← at_index prev_blocks 0;
  if after_split then check_prev_block_exact (sr_block_id left) prev0 else check_prev_block (sr_block_id left) prev0 true.

(** [wc_info] is the description of the workchain in the configuration. *)
Definition check_this_shard_mc_info (shard : ShardIdent) (after_merge after_split before_split : bool) (prev_blocks : list BlockIdExt)
    (wc_info : option (option WorkchainInfo)) shards (is_validate : bool) (now : N) : Res (N * bool * bool) :=
  wc_info ← or_fail wc_info;
  wc_info ← or_fail wc_info;
  _ ← ensure (wc_active wc_info);
  _ ← ensure (wc_basic wc_info);
  _ ← ensure (negb (negb (enabled_since wc_info =? 0) && (now <? enabled_since wc_info)));
  known ← or_fail (has_workchain shards (workchain_id shard));
  _ ← (if (known : bool) then Ok () else _ ← at_index prev_blocks 0; Err);
  l_shard ← or_fail (left_ancestor_mask shard);
  left ← or_fail (find_shard_of shards l_shard);
  left ← or_fail left;
  '(now_upper_limit, before_split, split_allowed) ←
    (if bool_decide (sr_shard left = shard) then check_same_shard shard after_merge after_split before_split prev_blocks shards left is_validate now
     else if is_parent_for shard (sr_shard left) then _ ← check_merged_shard shard after_merge after_split prev_blocks shards left; Ok (u32_max, before_split, false)
     else if is_parent_for (sr_shard left) shard then _ ← check_split_shard after_merge after_split prev_blocks left; Ok (u32_max, before_split, false)
     else Err);
  _ ← ensure (negb (is_validate && before_split && negb split_allowed));
  Ok (now_upper_limit, before_split, accept_msgs wc_info).

(** ** Updates *)

(** One start block of an update: the record of its shard and the greatest catchain number. *)
Definition check_start_block shards new_info (before_split before_merge : bool) (shards_updated : option (gset ShardIdent)) (ob : BlockIdExt) (old_cc_seqno : N)
  : Res (ShardRecord * N) :=
  odef ← or_fail (default None (get_shard shards (shard_id ob)));
  let id := sr_block_id odef in
  let d := sr_descr odef in
  let nd := sr_descr new_info in
  _ ← ensure ((seq_no id =? seq_no ob) && bool_decide (root_hash id = root_hash ob) && bool_decide (file_hash id = file_hash ob));
  let old_cc_seqno := N.max old_cc_seqno (next_catchain_seqno d) in
  _ ← ensure (negb (match shards_updated with Some updated => bool_decide (shard_id ob ∈ updated) | None => false end));
  _ ← ensure (eqb (descr_before_split d) before_split);
  _ ← ensure (eqb (descr_before_merge d) before_merge);
  _ ← (if descr_before_split nd then
         _ ← ensure (negb (before_merge || before_split));
         _ ← ensure (negb (is_fsm_merge d || is_fsm_none d));
         ensure (negb ((descr_utime nd <? fsm_utime d) || (u32_add (fsm_utime d) (fsm_interval d) <=? descr_utime nd)))
       else Ok ());
  _ ← (if before_merge then
         _ ← ensure (negb (is_fsm_split d || is_fsm_none d));
         ensure (negb ((descr_utime nd <? fsm_utime d) || (u32_add (fsm_utime d) (fsm_interval d) <=? descr_utime nd)))
       else Ok ());
  Ok (odef, old_cc_seqno).

Fixpoint check_start_blocks shards new_info (before_split before_merge : bool) (shards_updated : option (gset ShardIdent)) (obs : list BlockIdExt)
    (ancestor : option ShardRecord) (old_cc_seqno : N) : Res (option ShardRecord * N) :=
  match obs with
  | [] => Ok (ancestor, old_cc_seqno)
  | ob :: rest =>
      '(odef, cc) ← check_start_block shards new_info before_split before_merge shards_updated ob old_cc_seqno;
      check_start_blocks shards new_info before_split before_merge shards_updated rest
        (if negb before_merge && negb before_split then Some odef else ancestor) cc
  end.

Definition may_update_shard_block_info shards new_info old_blkids (lt_limit : N) (shards_updated : option (gset ShardIdent)) : Res (bool * option ShardRecord) :=
  let wc := workchain_id (sr_shard new_info) in
  _ ← ensure (negb ((wc =? INVALID_WORKCHAIN_ID)%Z || (wc =? MASTERCHAIN_ID)%Z));
  known ← or_fail (has_workchain shards wc);
  _ ← ensure known;
  _ ← ensure (bool_decide (length old_blkids = 1%nat) || bool_decide (length old_blkids = 2%nat));
  old0 ← at_index old_blkids 0;
  let before_split := is_parent_for (shard_id old0) (sr_shard new_info) in
  let before_merge := bool_decide (length old_blkids = 2%nat) in
  _ ← (if before_merge then
         old1 ← at_index old_blkids 1;
         _ ← ensure (bool_decide (sibling (shard_id old0) = shard_id old1));
         ensure (is_parent_for (sr_shard new_info) (shard_id old0))
       else ensure (negb (negb (bool_decide (sr_shard new_info = shard_id old0)) && negb before_split)));
  '(ancestor, old_cc_seqno) ← check_start_blocks shards new_info before_split before_merge shards_updated old_blkids None 0;
  let expected := u32_add old_cc_seqno (if before_merge then 1 else 0) in
  _ ← ensure (expected =? next_catchain_seqno (sr_descr new_info));
  _ ← ensure (negb (lt_limit <=? end_lt (sr_descr new_info)));
  Ok (negb before_split, ancestor).

Definition with_split_merge (r : ShardRecord) (fsm : FutureSplitMerge) : ShardRecord :=
  let d := sr_descr r in
  {| sr_shard := sr_shard r; sr_block_id := sr_block_id r;
     sr_descr := {| descr_seq_no := descr_seq_no d; descr_before_split := descr_before_split d; descr_before_merge := descr_before_merge d;
                    next_catchain_seqno := next_catchain_seqno d; end_lt := end_lt d; descr_utime := descr_utime d; split_merge_at := fsm |} |}.

Definition mark_updated (shards_updated : option (gset ShardIdent)) (s : ShardIdent) : option (gset ShardIdent) := (λ u, {[s]} ∪ u) <$> shards_updated.

(** [!0] is the greatest logical time. *)
Definition update_shard_block_info shards new_info old_blkids (shards_updated : option (gset ShardIdent)) : Res (ShardHashes * option (gset ShardIdent)) :=
  '(res, ancestor) ← may_update_shard_block_info shards new_info old_blkids (two64 - 1) shards_updated;
  _ ← ensure res;
  let new_info := match ancestor with
    | Some a => if bool_decide (split_merge_at (sr_descr a) = fsm_absent) then new_info else with_split_merge new_info (split_merge_at (sr_descr a))
    | None => new_info
    end in
  shards' ← or_fail (if bool_decide (length old_blkids = 2%nat) then merge_shards shards (sr_shard new_info) new_info else update_shard shards (sr_shard new_info) new_info);
  Ok (shards', mark_updated shards_updated (sr_shard new_info)).

Definition update_shard_block_info2 shards (new_info1 new_info2 : ShardRecord) old_blkids (shards_updated : option (gset ShardIdent)) : Res (ShardHashes * option (gset ShardIdent)) :=
  '(res1, _) ← may_update_shard_block_info shards new_info1 old_blkids (two64 - 1) shards_updated;
  '(res2, _) ← may_update_shard_block_info shards new_info2 old_blkids (two64 - 1) shards_updated;
  _ ← ensure (negb (res1 || res2));
  let '(new_info1, new_info2) := if shard_prefix_with_tag (sr_shard new_info2) <? shard_prefix_with_tag (sr_shard new_info1) then (new_info2, new_info1) else (new_info1, new_info2) in
  parent ← or_fail (shard_merge (sr_shard new_info1));
  shards' ← or_fail (split_shard shards parent new_info1 new_info2);
  Ok (shards', mark_updated shards_updated (sr_shard new_info1)).
End updates.

(** ** What an update of the shard configuration changes *)

Section facts.
Context {SI : ShardIdents} {T : ShardTree} {SM : SplitMerge} {SH : ShardHashesOps}.
Implicit Types (shards : ShardHashes) (new_info : ShardRecord) (old_blkids : list BlockIdExt).

(** The start block is the one that is recorded for its shard, which was not updated before. *)
Record start_block_ok shards (updated : option (gset ShardIdent)) (before_split before_merge : bool) (ob : BlockIdExt) (r : ShardRecord) : Prop := {
  sb_leaf : leaves shards !! shard_id ob = Some r;
  sb_seq : seq_no (sr_block_id r) = seq_no ob;
  sb_root : root_hash (sr_block_id r) = root_hash ob;
  sb_file : file_hash (sr_block_id r) = file_hash ob;
  sb_new : ∀ u, updated = Some u → shard_id ob ∉ u;
  sb_split : descr_before_split (sr_descr r) = before_split;
  sb_merge : descr_before_merge (sr_descr r) = before_merge;
}.

Lemma check_start_block_ok shards new_info bs bm updated ob cc r cc' : check_start_block shards new_info bs bm updated ob cc = Ok (r, cc') →
  start_block_ok shards updated bs bm ob r ∧ cc' = N.max cc (next_catchain_seqno (sr_descr r)).
Proof.
  unfold check_start_block. intros Hc. apply Res_bind_Ok in Hc as (odef & Ho%or_fail_Ok & Hc). apply Res_bind_Ok in Hc as (? & Hid%ensure_Ok & Hc).
  apply Res_bind_Ok in Hc as (? & Hu%ensure_Ok & Hc). apply Res_bind_Ok in Hc as (? & Hs%ensure_Ok & Hc). apply Res_bind_Ok in Hc as (? & Hm%ensure_Ok & Hc).
  do 2 apply Res_bind_Ok in Hc as (? & _ & Hc). injection Hc as <- <-. split; [|done]. breflect.
  destruct (get_shard shards (shard_id ob)) as [o|] eqn:E; [|done]. simpl in Ho. subst o. apply get_shard_leaf in E.
  repeat match goal with H : bool_decide _ = true |- _ => apply bool_decide_eq_true_1 in H end. apply eqb_prop in Hs, Hm. split; try done.
  intros u ->. by apply bool_decide_eq_false_1 in Hu.
Qed.

Lemma check_start_blocks_ok shards new_info bs bm updated obs : ∀ anc cc anc' cc', check_start_blocks shards new_info bs bm updated obs anc cc = Ok (anc', cc') →
  ∃ rs, Forall2 (start_block_ok shards updated bs bm) obs rs ∧ cc' = foldr (λ r acc, N.max acc (next_catchain_seqno (sr_descr r))) cc (reverse rs)
    ∧ (anc' = anc ∨ ∃ r, r ∈ rs ∧ anc' = Some r).
Proof.
  induction obs as [|ob rest IH]; intros anc cc anc' cc' Hc; simpl in Hc.
  - injection Hc as <- <-. exists []. split; [constructor|]. split; [done|by left].
  - apply Res_bind_Ok in Hc as ([r cc1] & Hb & Hc). apply check_start_block_ok in Hb as [Hb ->]. destruct (IH _ _ _ _ Hc) as (rs & Hrs & -> & Hanc). exists (r :: rs).
    split; [by constructor|]. split; [rewrite reverse_cons, foldr_app; done|]. destruct Hanc as [->|(r' & Hr' & ->)]; [|right; exists r'; split; [by apply list_elem_of_further|done]].
    destruct (negb bm && negb bs); [right; exists r; split; [apply list_elem_of_here|done]|by left].
Qed.

(** What [may_update_shard_block_info] has found out. *)
Record may_update_ok shards new_info old_blkids (updated : option (gset ShardIdent)) (rs : list ShardRecord) (before_split : bool) : Prop := {
  mu_len : length old_blkids = 1%nat ∨ length old_blkids = 2%nat;
  mu_starts : Forall2 (start_block_ok shards updated before_split (bool_decide (length old_blkids = 2%nat))) old_blkids rs;
  mu_merge old0 old1 : old_blkids = [old0; old1] → sibling (shard_id old0) = shard_id old1 ∧ is_parent_for (sr_shard new_info) (shard_id old0) = true;
  mu_single old0 : old_blkids = [old0] → before_split = false → sr_shard new_info = shard_id old0;
  mu_parent old0 : head old_blkids = Some old0 → before_split = is_parent_for (shard_id old0) (sr_shard new_info);
  mu_cc : next_catchain_seqno (sr_descr new_info)
    = u32_add (foldr (λ r acc, N.max acc (next_catchain_seqno (sr_descr r))) 0 (reverse rs)) (if bool_decide (length old_blkids = 2%nat) then 1 else 0);
}.

Lemma may_update_spec shards new_info old_blkids lt updated res anc : may_update_shard_block_info shards new_info old_blkids lt updated = Ok (res, anc) →
  ∃ rs, may_update_ok shards new_info old_blkids updated rs (negb res) ∧ (anc = None ∨ ∃ r, r ∈ rs ∧ anc = Some r) ∧ end_lt (sr_descr new_info) < lt.
Proof.
  unfold may_update_shard_block_info. intros Hc. apply Res_bind_Ok in Hc as (? & _ & Hc). do 2 apply Res_bind_Ok in Hc as (? & _ & Hc).
  apply Res_bind_Ok in Hc as (? & Hl%ensure_Ok & Hc). apply Res_bind_Ok in Hc as (old0 & H0%at_index_Ok & Hc). apply Res_bind_Ok in Hc as (? & Hsh & Hc).
  apply Res_bind_Ok in Hc as ([anc' cc] & Hst & Hc). apply Res_bind_Ok in Hc as (? & Hcc%ensure_Ok & Hc). apply Res_bind_Ok in Hc as (? & Hlt%ensure_Ok & Hc). injection Hc as <- <-.
  apply check_start_blocks_ok in Hst as (rs & Hrs & -> & Hanc). breflect. rewrite negb_involutive. exists rs. split; [|split; [|done]].
  - split; try done.
    + apply orb_true_iff in Hl as [Hl|Hl]; apply bool_decide_eq_true_1 in Hl; auto.
    + intros a b ->. simpl in H0. injection H0 as <-. rewrite bool_decide_eq_true_2 in Hsh by done. apply Res_bind_Ok in Hsh as (o1 & E%at_index_Ok & Hsh). injection E as <-.
      apply Res_bind_Ok in Hsh as (? & Hs%ensure_Ok & Hp%ensure_Ok). by apply bool_decide_eq_true_1 in Hs.
    + intros a -> Hs. simpl in H0. injection H0 as <-. rewrite bool_decide_eq_false_2 in Hsh by done. apply ensure_Ok in Hsh. rewrite Hs in Hsh. simpl in Hsh.
      rewrite andb_true_r, negb_involutive in Hsh. by apply bool_decide_eq_true_1 in Hsh.
    + intros a Ha. destruct old_blkids as [|b l]; [done|]. simpl in *. congruence.
  - destruct Hanc as [->|?]; [by left|by right].
Qed.

(** The record that is stored differs from the new one in the planned split or merge at most. *)
Definition same_block (r r' : ShardRecord) : Prop :=
  sr_shard r' = sr_shard r ∧ sr_block_id r' = sr_block_id r ∧ next_catchain_seqno (sr_descr r') = next_catchain_seqno (sr_descr r) ∧ end_lt (sr_descr r') = end_lt (sr_descr r).

(** One new block: the shards of the start blocks make way for its shard, the others stay. *)
Record replaced_by shards shards' old_blkids new_info : Prop := {
  rb_new : ∃ r, leaves shards' !! sr_shard new_info = Some r ∧ same_block new_info r;
  rb_old s ob : ob ∈ old_blkids → s = shard_id ob → s ≠ sr_shard new_info → leaves shards' !! s = None;
  rb_other s : s ≠ sr_shard new_info → (∀ ob, ob ∈ old_blkids → shard_id ob ≠ s) → leaves shards' !! s = leaves shards !! s;
}.

Lemma merge_replaced shards shards' o0 o1 new_info r : same_block new_info r → sibling (shard_id o0) = shard_id o1 → is_parent_for (sr_shard new_info) (shard_id o0) = true →
  merge_shards shards (sr_shard new_info) r = Some shards' → replaced_by shards shards' [o0; o1] new_info.
Proof.
  intros Hr Hsib Hpar Hm. apply merge_shards_leaf in Hm as (s1 & s2 & Hsp & _ & _ & Hl). destruct (split_distinct _ _ _ Hsp) as (D12 & D1 & D2).
  assert ({[shard_id o0; shard_id o1]} = ({[s1; s2]} : gset ShardIdent)) as Hset.
  { destruct (parent_children _ _ _ _ Hpar Hsp) as [[E0 E]|[E0 E]]; rewrite Hsib in E; rewrite E0, E; [done|by rewrite (comm_L (∪))]. }
  assert (∀ s, (s = s1 ∨ s = s2) ↔ (s = shard_id o0 ∨ s = shard_id o1)) as Hin.
  { intros s. assert (s ∈ ({[shard_id o0; shard_id o1]} : gset ShardIdent) ↔ s ∈ ({[s1; s2]} : gset ShardIdent)) as K by by rewrite Hset. rewrite !elem_of_union, !elem_of_singleton in K. by symmetry. }
  split; rewrite Hl.
  - exists r. split; [apply lookup_insert_eq|done].
  - intros s ob Hob -> Hne. rewrite lookup_insert_ne by done. rewrite lookup_delete_None. destruct (proj2 (Hin (shard_id ob))) as [E|E].
    + apply elem_of_cons in Hob as [->|Hob%list_elem_of_singleton]; [by left|right; by rewrite Hob].
    + right. rewrite E. apply lookup_delete_eq.
    + by left.
  - intros s Hne Hno. rewrite lookup_insert_ne by done. assert (s ≠ s1 ∧ s ≠ s2) as [N1 N2].
    { split; intros ->; [destruct (proj1 (Hin s1)) as [E|E]|destruct (proj1 (Hin s2)) as [E|E]]; try auto; (eapply Hno; [|symmetry; exact E]; set_solver). }
    by rewrite !lookup_delete_ne.
Qed.

Lemma update_replaced shards shards' o0 new_info r : same_block new_info r → sr_shard new_info = shard_id o0 →
  update_shard shards (sr_shard new_info) r = Some shards' → replaced_by shards shards' [o0] new_info.
Proof.
  intros Hr Ho Hu. apply update_shard_leaf in Hu as [_ Hl]. split; rewrite Hl.
  - exists r. split; [apply lookup_insert_eq|done].
  - intros s ob ->%list_elem_of_singleton -> Hne. by rewrite Ho in Hne.
  - intros s Hne _. by rewrite lookup_insert_ne.
Qed.

Lemma update_info_spec shards new_info old_blkids updated shards' updated' : update_shard_block_info shards new_info old_blkids updated = Ok (shards', updated') →
  ∃ rs, may_update_ok shards new_info old_blkids updated rs false ∧ replaced_by shards shards' old_blkids new_info
    ∧ updated' = (λ u, {[sr_shard new_info]} ∪ u) <$> updated.
Proof.
  unfold update_shard_block_info. intros Hc. apply Res_bind_Ok in Hc as ([res anc] & Hm & Hc). apply Res_bind_Ok in Hc as (? & Hres%ensure_Ok & Hc). subst res.
  apply may_update_spec in Hm as (rs & Hm & _ & _). simpl in Hm. set (r := match anc with Some a => _ | None => new_info end) in Hc.
  assert (same_block new_info r) as Hr by (unfold r, same_block; destruct anc as [a|]; [destruct (bool_decide (split_merge_at (sr_descr a) = fsm_absent))|]; repeat split).
  apply Res_bind_Ok in Hc as (sh & Hsh%or_fail_Ok & Hc). injection Hc as <- <-. destruct Hr as (Hrs & Hrb). exists rs. split; [done|]. split; [|unfold mark_updated; by rewrite Hrs].
  rewrite Hrs in Hsh. assert (same_block new_info r) as Hr by by split. destruct (mu_len _ _ _ _ _ _ Hm) as [Hl|Hl].
  - destruct old_blkids as [|o0 [|]]; [done| |done]. rewrite bool_decide_eq_false_2 in Hsh by done. eapply update_replaced; [exact Hr|by eapply (mu_single _ _ _ _ _ _ Hm)|done].
  - destruct old_blkids as [|o0 [|o1 [|]]]; [done|done| |done]. rewrite bool_decide_eq_true_2 in Hsh by done. destruct (mu_merge _ _ _ _ _ _ Hm o0 o1 eq_refl). by eapply merge_replaced.
Qed.

(** ** New blocks stay near the masterchain *)

(** [prev] continues the listed block: it is that block or at most seven blocks after it. *)
Definition chain_after (listed prev : BlockIdExt) : Prop :=
  seq_no listed <= seq_no prev < seq_no listed + 8 ∧ (seq_no listed = seq_no prev → prev = listed).

(** What the masterchain lists, with room for eight more numbers. *)
Definition listed_ok shards : Prop :=
  ∀ s r, find_shard_of shards s = Some (Some r) → descr_seq_no (sr_descr r) = seq_no (sr_block_id r) ∧ seq_no (sr_block_id r) + 8 < two32.

(** The place of the new block after the blocks that the masterchain lists: the same shard,
    two shards that are merged into it, or the shard that is split. *)
Inductive near_masterchain shards (shard : ShardIdent) (after_merge after_split : bool) (prev_blocks : list BlockIdExt) (left : ShardRecord) : Prop :=
| near_same prev0 rest : sr_shard left = shard → after_merge = false → after_split = false →
    descr_before_split (sr_descr left) = false →
    (descr_before_merge (sr_descr left) = true → ∃ sib, get_shard shards (sibling shard) = Some (Some sib) ∧ descr_before_merge (sr_descr sib) = false) →
    prev_blocks = prev0 :: rest → chain_after (sr_block_id left) prev0 → near_masterchain shards shard after_merge after_split prev_blocks left
| near_merged r_shard right : sr_shard left ≠ shard → is_parent_for shard (sr_shard left) = true →
    right_ancestor_mask shard = Some r_shard → find_shard_of shards r_shard = Some (Some right) → is_parent_for shard (sr_shard right) = true →
    descr_before_merge (sr_descr left) = true → descr_before_merge (sr_descr right) = true → after_split = false →
    (after_merge = true → ∃ rest, prev_blocks = sr_block_id left :: sr_block_id right :: rest) →
    (after_merge = false → ∃ prev0 rest, prev_blocks = prev0 :: rest ∧ seq_no (sr_block_id left) < seq_no prev0 ∧ seq_no (sr_block_id right) < seq_no prev0
       ∧ seq_no prev0 < N.max (seq_no (sr_block_id left)) (seq_no (sr_block_id right)) + 8) →
    near_masterchain shards shard after_merge after_split prev_blocks left
| near_split prev0 rest : sr_shard left ≠ shard → is_parent_for (sr_shard left) shard = true → descr_before_split (sr_descr left) = true → after_merge = false →
    prev_blocks = prev0 :: rest → (if after_split then prev0 = sr_block_id left else chain_after (sr_block_id left) prev0) →
    near_masterchain shards shard after_merge after_split prev_blocks left.

(** A new block that announces a split is in the time that the masterchain planned for it. *)
Definition split_planned (shard : ShardIdent) (left : ShardRecord) (now : N) : Prop :=
  sr_shard left = shard ∧ is_fsm_split (sr_descr left) = true ∧ fsm_utime (sr_descr left) <= now < fsm_utime_end (sr_descr left).

Lemma at_head {A} (l : list A) x : l !! 0%nat = Some x → ∃ rest, l = x :: rest.
Proof. destruct l as [|y l]; [done|]. intros [= ->]. by exists l. Qed.

Lemma check_prev_ok listed prev u : seq_no listed + 8 < two32 → check_prev_block listed prev true = Ok u → chain_after listed prev.
Proof.
  unfold check_prev_block, chain_after. intros Hb Hc. apply Res_bind_Ok in Hc as (? & H1%ensure_Ok & Hc). apply Res_bind_Ok in Hc as (? & H2%ensure_Ok & Hc).
  apply ensure_Ok in Hc. simpl in Hc. breflect. unfold u32_add in Hc. rewrite N.mod_small in Hc by done. split; [done|].
  intros E. rewrite E, N.eqb_refl in H2. simpl in H2. apply negb_false_iff in H2. by apply bool_decide_eq_true_1 in H2.
Qed.

Lemma exact_ok listed prev u : check_prev_block_exact listed prev = Ok u → listed = prev.
Proof. intros Hc%ensure_Ok. by apply bool_decide_eq_true_1 in Hc. Qed.

Lemma check_same_near shard am asp bs prev_blocks shards left v now r : seq_no (sr_block_id left) + 8 < two32 → sr_shard left = shard →
  check_same_shard shard am asp bs prev_blocks shards left v now = Ok r →
  near_masterchain shards shard am asp prev_blocks left
  ∧ (v = true → r.1.2 = bs ∧ (r.2 = true → split_planned shard left now)).
Proof.
  unfold check_same_shard. intros Hb Hs Hc. apply Res_bind_Ok in Hc as (? & H1%ensure_Ok & Hc). apply Res_bind_Ok in Hc as (p0 & Hp%at_index_Ok & Hc).
  apply Res_bind_Ok in Hc as (? & H2 & Hc). apply Res_bind_Ok in Hc as (? & H3%ensure_Ok & Hc). apply Res_bind_Ok in Hc as (? & H4 & Hc).
  apply at_head in Hp as [rest Hp]. breflect. split.
  - eapply near_same; try done; [|by eapply check_prev_ok]. intros Hm. rewrite Hm in H4. apply Res_bind_Ok in H4 as (o & Ho%or_fail_Ok & H4).
    apply Res_bind_Ok in H4 as (sib & Hsib%or_fail_Ok & H4%ensure_Ok). subst o. breflect. by exists sib.
  - intros ->. unfold split_planned. destruct (is_fsm_split (sr_descr left)) eqn:Ef; injection Hc as <-; (split; [done|]); [|done]. simpl. intros. breflect. done.
Qed.

Lemma check_merged_near shard am asp prev_blocks shards left u : listed_ok shards → (∃ s, find_shard_of shards s = Some (Some left)) →
  sr_shard left ≠ shard → is_parent_for shard (sr_shard left) = true →
  check_merged_shard shard am asp prev_blocks shards left = Ok u → near_masterchain shards shard am asp prev_blocks left.
Proof.
  intros Hok [ls Hls] Hne Hpl. unfold check_merged_shard. intros Hc. apply Res_bind_Ok in Hc as (? & H1%ensure_Ok & Hc). apply Res_bind_Ok in Hc as (rs & Hrs%or_fail_Ok & Hc).
  apply Res_bind_Ok in Hc as (o & Ho%or_fail_Ok & Hc). apply Res_bind_Ok in Hc as (right & Hr%or_fail_Ok & Hc). subst o. apply Res_bind_Ok in Hc as (? & Hpr%ensure_Ok & Hc).
  apply Res_bind_Ok in Hc as (? & H2%ensure_Ok & Hc). apply Res_bind_Ok in Hc as (? & H3%ensure_Ok & Hc). apply Res_bind_Ok in Hc as (p0 & Hp%at_index_Ok & Hc).
  apply at_head in Hp as [rest Hp]. subst prev_blocks. breflect. apply (near_merged _ _ _ _ _ _ rs right); try done.
  - intros ->. apply Res_bind_Ok in Hc as (? & E0%exact_ok & Hc). apply Res_bind_Ok in Hc as (p1 & Hp1%at_index_Ok & E1%exact_ok). subst.
    simpl in Hp1. apply at_head in Hp1 as [rest' ->]. by exists rest'.
  - intros ->. apply Res_bind_Ok in Hc as (? & H4%ensure_Ok & Hc). apply ensure_Ok in Hc. destruct (Hok _ _ Hls) as [El Bl], (Hok _ _ Ho) as [Er Br].
    rewrite El, Er in *. breflect. unfold u32_add in Hc. rewrite N.mod_small in Hc by lia. exists p0, rest. split; [done|lia].
Qed.

Lemma check_split_near shard am asp prev_blocks shards left u : seq_no (sr_block_id left) + 8 < two32 →
  sr_shard left ≠ shard → is_parent_for (sr_shard left) shard = true →
  check_split_shard am asp prev_blocks left = Ok u → near_masterchain shards shard am asp prev_blocks left.
Proof.
  intros Hb Hne Hpar. unfold check_split_shard. intros Hc. apply Res_bind_Ok in Hc as (? & H1%ensure_Ok & Hc). apply Res_bind_Ok in Hc as (? & H2%ensure_Ok & Hc).
  apply Res_bind_Ok in Hc as (p0 & Hp%at_index_Ok & Hc). apply at_head in Hp as [rest Hp]. breflect. eapply near_split; try done.
  destruct asp; [by apply exact_ok in Hc|by eapply check_prev_ok].
Qed.

(** Two new blocks after a split: the shard makes way for its two parts. *)
Lemma update_info2_spec shards new1 new2 old_blkids updated shards' updated' : sr_shard new1 ≠ sr_shard new2 →
  update_shard_block_info2 shards new1 new2 old_blkids updated = Ok (shards', updated') →
  ∃ ob first, old_blkids = [ob] ∧ is_Some (leaves shards !! shard_id ob)
    ∧ leaves shards' = <[sr_shard new1 := new1]> (<[sr_shard new2 := new2]> (delete (shard_id ob) (leaves shards)))
    ∧ updated' = (λ u, {[first]} ∪ u) <$> updated
    ∧ (first = sr_shard new1 ∧ shard_split (shard_id ob) = Some (first, sr_shard new2) ∨ first = sr_shard new2 ∧ shard_split (shard_id ob) = Some (first, sr_shard new1)).
Proof.
  unfold update_shard_block_info2. intros Hne Hc. apply Res_bind_Ok in Hc as ([res1 anc1] & H1 & Hc). apply Res_bind_Ok in Hc as ([res2 anc2] & H2 & Hc).
  apply Res_bind_Ok in Hc as (? & Hres%ensure_Ok & Hc). apply negb_true_iff, orb_false_iff in Hres as [-> ->].
  apply may_update_spec in H1 as (rs1 & H1 & _), H2 as (rs2 & H2 & _). simpl in H1, H2.
  assert (∃ ob, old_blkids = [ob]) as [ob ->].
  { destruct (mu_len _ _ _ _ _ _ H1) as [Hl|Hl]; [destruct old_blkids as [|ob [|]]; [done|by exists ob|done]|]. exfalso. destruct old_blkids as [|o0 [|o1 [|]]]; [done|done| |done].
    destruct (mu_merge _ _ _ _ _ _ H1 o0 o1 eq_refl) as [_ Hp]. apply parent_asym in Hp. rewrite <- (mu_parent _ _ _ _ _ _ H1 o0 eq_refl) in Hp. done. }
  pose proof (mu_parent _ _ _ _ _ _ H1 ob eq_refl) as P1. pose proof (mu_parent _ _ _ _ _ _ H2 ob eq_refl) as P2. symmetry in P1, P2.
  set (pr := if _ <? _ then (new2, new1) else (new1, new2)) in Hc. assert ((pr = (new1, new2) ∨ pr = (new2, new1)) ∧ shard_prefix_with_tag (sr_shard pr.1) <= shard_prefix_with_tag (sr_shard pr.2)) as [Hpr Hord].
  { unfold pr. destruct (N.ltb_spec (shard_prefix_with_tag (sr_shard new2)) (shard_prefix_with_tag (sr_shard new1))); simpl; split; auto; lia. }
  clearbody pr. destruct pr as [a b]. simpl in Hord. assert (is_parent_for (shard_id ob) (sr_shard a) = true ∧ is_parent_for (shard_id ob) (sr_shard b) = true ∧ sr_shard a ≠ sr_shard b) as (Pa & Pb & Hab).
  { destruct Hpr as [[= -> ->]|[= -> ->]]; auto. }
  apply Res_bind_Ok in Hc as (parent & Hp%or_fail_Ok & Hc). rewrite (parent_merge _ _ Pa) in Hp. injection Hp as <-. apply Res_bind_Ok in Hc as (sh & Hs%or_fail_Ok & Hc). injection Hc as <- <-.
  apply split_shard_leaf in Hs as (s1 & s2 & Hsp & Hleaf & Hl). pose proof (split_prefixes _ _ _ Hsp) as Hpx. destruct (split_distinct _ _ _ Hsp) as (D12 & _ & _).
  assert (sr_shard a = s1 ∧ sr_shard b = s2) as [E1 E2].
  { destruct (parent_children _ _ _ _ Pa Hsp) as [[Ea _]|[Ea _]], (parent_children _ _ _ _ Pb Hsp) as [[Eb _]|[Eb _]]; rewrite Ea, Eb in *; try done. exfalso. lia. }
  exists ob, s1. split; [done|]. split; [done|]. rewrite Hl. subst s1 s2. unfold mark_updated. destruct Hpr as [[= -> ->]|[= -> ->]].
  - split; [by rewrite insert_insert_ne|]. split; [done|by left].
  - split; [done|]. split; [done|by right].
Qed.
End facts.
