(* ===== verification/Concrete.v ===== *)
(** * A concrete session

    Instances of the external interfaces and a session of four validators, on
    which the definitions run: a block is proposed, approved, voted for,
    precommitted and committed. *)

From S2P Require Import Prelude SessionDescription Vectors Candidates RoundAttempt Round RoundFacts RoundMerge SessionState SessionFacts SessionSafety ReceivedBlock CatchainCore SessionProcessor SessionChecks SessionBlocks SessionRun SessionReports SessionInvariant.

(** Keys are numbers; the signature of a block is the key and the root hash. *)
#[refine] Definition demo : External := {|
  PublicKey := N;
  public_key_id := λ k, k;
  ext_candidate_hash := λ src root file collated, 1 + src + 100 * root + 10000 * file + 1000000 * collated;
  ext_verify_block := λ k root file sig, bool_decide (sig = [k; root]);
  ext_verify_approve := λ k root file sig, bool_decide (sig = [k; root; 1]);
  ext_same_address := λ T E x y, @bool_decide (x = y) (E x y);
|}.
Proof. intros T E x y H. by apply bool_decide_eq_true in H. Defined.

Definition demo_node (k : N) : @SessionNode demo :=
  {| node_adnl_id := 100 + k; node_public_key := (k : @PublicKey demo); node_weight := 1 |}.

Definition demo_nodes : list (@SessionNode demo) := demo_node <$> [11; 12; 13; 14].

Definition demo_desc : @SessionDescription demo :=
  match SessionDescription_new SessionOptions_default demo_nodes 11 with
  | Done d => d
  | Panic => {| options := SessionOptions_default; sources := []; rev_sources := ∅;
                cutoff_weight := 0; total_weight := 0; self_idx := 0 |}
  end.

Lemma demo_desc_ok : desc_ok demo_desc.
Proof. split; vm_compute; try done; split; try done; lia. Qed.

(** Deliver messages [(source, attempt, message)] one after the other. *)
Fixpoint deliver (s : SessionState) (msgs : list (N * N * Message)) : outcome SessionState :=
  match msgs with
  | [] => Done s
  | (src, att, msg) :: msgs' => s' ← SessionState_apply_action demo_desc s src att msg; deliver s' msgs'
  end.

Definition demo_candidate : N := 1 + 11 + 100 * 7 + 10000 * 8 + 1000000 * 9.

Definition demo_propose : list (N * N * Message) :=
  [(0, 1030, SubmittedBlock 0 7 8 9);
   (0, 1030, ApprovedBlock 0 demo_candidate [11; 7; 1]);
   (1, 1030, ApprovedBlock 0 demo_candidate [12; 7; 1]);
   (2, 1030, ApprovedBlock 0 demo_candidate [13; 7; 1])].
Definition demo_vote : list (N * N * Message) :=
  [(0, 1030, Vote 0 1030 demo_candidate); (1, 1030, Vote 0 1030 demo_candidate);
   (2, 1030, Vote 0 1030 demo_candidate)].
Definition demo_precommit : list (N * N * Message) :=
  [(0, 1030, Precommit 0 1030 demo_candidate); (1, 1030, Precommit 0 1030 demo_candidate);
   (2, 1030, Precommit 0 1030 demo_candidate)].
Definition demo_commit : list (N * N * Message) :=
  [(0, 1031, Commit 0 demo_candidate [11; 7]); (1, 1031, Commit 0 demo_candidate [12; 7]);
   (2, 1031, Commit 0 demo_candidate [13; 7])].

Definition demo_init : SessionState := SessionState_create_empty demo_desc.
Definition demo_state (msgs : list (N * N * Message)) : SessionState :=
  match deliver demo_init msgs with Done s => s | Panic => demo_init end.

Definition demo_proposed : SessionState := Eval vm_compute in demo_state demo_propose.
Definition demo_voted : SessionState := Eval vm_compute in demo_state (demo_propose ++ demo_vote).
Definition demo_precommitted : SessionState :=
  Eval vm_compute in demo_state (demo_propose ++ demo_vote ++ demo_precommit).
Definition demo_committed : SessionState :=
  Eval vm_compute in demo_state (demo_propose ++ demo_vote ++ demo_precommit ++ demo_commit).

Lemma demo_committed_history : length (old_list demo_committed) = 1%nat.
Proof. reflexivity. Qed.

(** Messages of session members, delivered while the round number has room,
    lead to reachable states. *)
Fixpoint deliverable (s : SessionState) (msgs : list (N * N * Message)) : bool :=
  match msgs with
  | [] => true
  | (src, att, msg) :: msgs' =>
      (src <? 4) && (rs_sequence_number (current_round s) + 1 <? two32) &&
      match SessionState_apply_action demo_desc s src att msg with
      | Done s' => deliverable s' msgs'
      | Panic => false
      end
  end.

Lemma deliver_reachable s msgs s' :
  reachable demo_desc s → deliverable s msgs = true → deliver s msgs = Done s' → reachable demo_desc s'.
Proof.
  revert s. induction msgs as [|[[src att] msg] msgs IH]; intros s Hs Hd H; simpl in *; [by injection H as <-|].
  outcome_step H. rewrite E in Hd. breflect. eapply IH; [|done|done].
  eapply reach_action; [done| |unfold round_room; done|exact E].
  unfold is_node. change (length (sources demo_desc)) with 4%nat. lia.
Qed.

Lemma demo_reachable msgs s :
  deliverable demo_init msgs = true → deliver demo_init msgs = Done s → reachable demo_desc s.
Proof. apply deliver_reachable. apply reach_empty. Qed.

Lemma demo_committed_reachable : reachable demo_desc demo_committed.
Proof.
  apply (demo_reachable (demo_propose ++ demo_vote ++ demo_precommit ++ demo_commit)); vm_compute; reflexivity.
Qed.
Lemma demo_precommitted_reachable : reachable demo_desc demo_precommitted.
Proof. apply (demo_reachable (demo_propose ++ demo_vote ++ demo_precommit)); vm_compute; reflexivity. Qed.
Lemma demo_voted_reachable : reachable demo_desc demo_voted.
Proof. apply (demo_reachable (demo_propose ++ demo_vote)); vm_compute; reflexivity. Qed.
Lemma demo_proposed_reachable : reachable demo_desc demo_proposed.
Proof. apply (demo_reachable demo_propose); vm_compute; reflexivity. Qed.

Lemma demo_ok s : reachable demo_desc s → session_ok demo_desc s.
Proof. intros H. apply (reachable_good demo_desc s demo_desc_ok H). Qed.

(** A second history of round 0, in which the empty block is chosen. *)
Definition demo_skip_vote : list (N * N * Message) :=
  [(0, 1030, ApprovedBlock 0 0 []); (1, 1030, ApprovedBlock 0 0 []); (2, 1030, ApprovedBlock 0 0 []);
   (0, 1030, Vote 0 1030 0); (1, 1030, Vote 0 1030 0); (2, 1030, Vote 0 1030 0)].
Definition demo_skip_precommit : list (N * N * Message) :=
  [(0, 1030, Precommit 0 1030 0); (1, 1030, Precommit 0 1030 0); (2, 1030, Precommit 0 1030 0)].
Definition demo_skip_commit : list (N * N * Message) :=
  [(1, 1031, Commit 0 0 []); (2, 1031, Commit 0 0 []); (3, 1031, Commit 0 0 [])].

Definition demo_skip_voted : SessionState := Eval vm_compute in demo_state demo_skip_vote.
Definition demo_skip : SessionState := Eval vm_compute in demo_state (demo_skip_vote ++ demo_skip_precommit).
Definition demo_skip_committed : SessionState :=
  Eval vm_compute in demo_state (demo_skip_vote ++ demo_skip_precommit ++ demo_skip_commit).

Lemma demo_skip_voted_reachable : reachable demo_desc demo_skip_voted.
Proof. apply (demo_reachable demo_skip_vote); vm_compute; reflexivity. Qed.
Lemma demo_skip_reachable : reachable demo_desc demo_skip.
Proof. apply (demo_reachable (demo_skip_vote ++ demo_skip_precommit)); vm_compute; reflexivity. Qed.
Lemma demo_skip_committed_reachable : reachable demo_desc demo_skip_committed.
Proof.
  apply (demo_reachable (demo_skip_vote ++ demo_skip_precommit ++ demo_skip_commit)); vm_compute; reflexivity.
Qed.

(** A third history of round 0: node 0 submits another block, and nodes 1, 2
    and 3 commit it. *)
Definition demo_other_candidate : N := 1 + 11 + 100 * 17 + 10000 * 8 + 1000000 * 9.
Definition demo_other : list (N * N * Message) :=
  let c := demo_other_candidate in
  [(0, 1030, SubmittedBlock 0 17 8 9); (1, 1030, ApprovedBlock 0 c [12; 17; 1]);
   (2, 1030, ApprovedBlock 0 c [13; 17; 1]); (3, 1030, ApprovedBlock 0 c [14; 17; 1]);
   (1, 1030, Vote 0 1030 c); (2, 1030, Vote 0 1030 c); (3, 1030, Vote 0 1030 c);
   (1, 1030, Precommit 0 1030 c); (2, 1030, Precommit 0 1030 c); (3, 1030, Precommit 0 1030 c);
   (1, 1031, Commit 0 c [12; 17]); (2, 1031, Commit 0 c [13; 17]); (3, 1031, Commit 0 c [14; 17])].

Definition demo_other_committed : SessionState := Eval vm_compute in demo_state demo_other.

Lemma demo_other_committed_reachable : reachable demo_desc demo_other_committed.
Proof. apply (demo_reachable demo_other); vm_compute; reflexivity. Qed.

(** ** A concrete session processor

    An instance of the interfaces of the session processor and a run of it in the
    session of [Concrete]: the other validators decide to skip round 0, this node
    commits to it and the round ends. *)

(** Attempts last sixteen seconds. *)
Definition demo_clock (att : N) : Clock := {| clk_now := att * 16000; clk_ts := N.shiftl (att * 16) 32 |}.

(** Payloads are numbers of updates. *)
Definition demo_actions (k : N) : list Message :=
  match k with
  | 1 | 2 => [ApprovedBlock 0 0 []]
  | 3 => [ApprovedBlock 0 0 []; Vote 0 1030 0]
  | 4 => [Vote 0 1030 0]
  | 5 => [Vote 0 1030 0; Precommit 0 1030 0]
  | 6 | 7 => [Precommit 0 1030 0]
  | 8 | 9 | 10 => [Commit 0 0 []]
  | 11 => [Commit 0 0 []; Empty 0 1030]
  | _ => []
  end.
Definition demo_parse_update (data : list N) : option BlockUpdate :=
  match data with [k] => Some {| bu_ts := clk_ts (demo_clock 1030); bu_actions := demo_actions k; bu_state := 0 |} | _ => None end.

#[refine] Definition demo_session : @SessionExternal demo := {|
  ext_parse_update := demo_parse_update;
  ext_parse_candidate := λ data, match data with [src; root; body] => Some {| cd_src := src; cd_round := 0; cd_root_hash := root; cd_data := [body]; cd_collated_data := [] |} | _ => None end;
  ext_parse_query := λ data, None;
  ext_file_hash := λ data, match data with [] => 9 | x :: _ => x end;
  ext_sign_block := λ root file, Some [11; root];
  ext_sign_approve := λ root file, Some [11; root; 1];
  ext_random := λ k, k;
  ext_wait := λ n r, n + r;
  ext_map_order := map_to_list;
  ext_state_hash := λ s, rs_sequence_number (current_round s);
|}.
Proof. done. Defined.

Definition catchain_demo_block (k source : N) (prev : option CatchainBlock) (deps : list CatchainBlock) : CatchainBlock :=
  BlockImpl source 0 0%Z (1000 + k) [k] prev deps [] (k - 1).

Definition catchain_block_1 : CatchainBlock := catchain_demo_block 1 1 None [].
Definition catchain_block_2 : CatchainBlock := catchain_demo_block 2 2 None [catchain_block_1].
Definition catchain_block_3 : CatchainBlock := catchain_demo_block 3 3 None [catchain_block_2].
Definition catchain_block_4 : CatchainBlock := catchain_demo_block 4 1 (Some catchain_block_1) [catchain_block_3].
Definition catchain_block_5 : CatchainBlock := catchain_demo_block 5 2 (Some catchain_block_2) [catchain_block_4].
Definition catchain_block_6 : CatchainBlock := catchain_demo_block 6 3 (Some catchain_block_3) [catchain_block_5].
Definition catchain_block_7 : CatchainBlock := catchain_demo_block 7 1 (Some catchain_block_4) [catchain_block_6].
Definition catchain_block_8 : CatchainBlock := catchain_demo_block 8 2 (Some catchain_block_5) [catchain_block_7].
Definition catchain_block_9 : CatchainBlock := catchain_demo_block 9 3 (Some catchain_block_6) [catchain_block_8].

(** Requests one after the other. *)
Fixpoint serve_all {X : External} {E : SessionExternal} (d : SessionDescription) (self : SessionProcessor) (reqs : list SessionRequest) : option SessionProcessor :=
  match reqs with
  | [] => Some self
  | req :: reqs => match serve d 4 self req with Some (Done self') => serve_all d self' reqs | _ => None end
  end.

Definition demo_arrive : list SessionRequest :=
  ReqPreprocess (demo_clock 1030) <$> [catchain_block_1; catchain_block_2; catchain_block_3; catchain_block_4; catchain_block_5; catchain_block_6; catchain_block_7].
Definition demo_requests : list SessionRequest :=
  demo_arrive ++ [ReqStarted (demo_clock 1030); ReqProcess (demo_clock 1030) [catchain_block_7];
    ReqPreprocess (demo_clock 1031) catchain_block_8; ReqPreprocess (demo_clock 1031) catchain_block_9; ReqProcess (demo_clock 1031) [catchain_block_9]].

Definition demo_created : outcome (@SessionProcessor demo) := @SessionProcessor_create demo demo_session demo_desc (demo_clock 1030) demo_nodes.

(** ** Checks of the hypotheses about runs *)
Definition agree_check (l r : SessionState) : bool :=
  forallb (λ k, match decided l k, decided r k with Some bl, Some br => bool_decide (bl = br) | _, _ => true end)
    (seq 0 (S (length (old_list l) + N.to_nat (rs_sequence_number (current_round l))))).

Lemma agree_check_ok l r : agree_check l r = true → decisions_agree l r.
Proof.
  unfold agree_check. rewrite forallb_forall. intros H k bl br Hl Hr. specialize (H k). rewrite in_seq, Hl, Hr in H.
  assert (k < S (length (old_list l) + N.to_nat (rs_sequence_number (current_round l))))%nat as Hk.
  { revert Hl. unfold decided. destruct (old_list l !! k) eqn:E; [apply lookup_lt_Some in E; lia|]. destruct (_ =? _) eqn:Ek; breflect; [lia|done]. }
  apply bool_decide_eq_true in H; [done|lia].
Qed.

Definition round_room_check (s : SessionState) : bool := rs_sequence_number (current_round s) + 1 <? two32.
Definition call_check (call : StateCall) : bool :=
  match call with
  | MergeCall l r m => agree_check l r && round_room_check l && round_room_check r && round_room_check m
  | ActionCall s s' => round_room_check s && round_room_check s'
  end.

Lemma call_check_ok call : call_check call = true → call_ok call.
Proof.
  destruct call; simpl; unfold round_room_check, round_room; rewrite !andb_true_iff, !N.ltb_lt; [|done]. intros [[[H1 H2] H3] H4]. split; [by apply agree_check_ok|done].
Qed.

Lemma calm_check {X : External} (self : SessionProcessor) : forallb call_check (st_calls (sp_states self)) = true → calm self.
Proof. intros H. apply Forall_forall. intros x Hx. rewrite forallb_forall in H. by apply call_check_ok, H. Qed.

(** Requests of other validators' blocks before the start, and of blocks after it. *)
Definition allowed_check {X : External} (d : SessionDescription) (self : SessionProcessor) (req : SessionRequest) : bool :=
  match req with
  | ReqPreprocess _ block => (N.to_nat (cb_source_id block mod two32) <? length (sources d))%nat && negb (own_block d self block)
  | ReqProcess _ _ => sp_catchain_started self
  | ReqDecisionOk _ _ _ _ _ _ | ReqDecisionFail _ _ _ => false
  | _ => true
  end.
Fixpoint allowed_all {X : External} {E : SessionExternal} (d : SessionDescription) (self : SessionProcessor) (reqs : list SessionRequest) : bool :=
  match reqs with
  | [] => true
  | req :: reqs => allowed_check d self req && match serve d 4 self req with Some (Done self') => allowed_all d self' reqs | _ => true end
  end.

Lemma allowed_check_ok {X : External} (d : SessionDescription) self req : allowed_check d self req = true → allowed d self req.
Proof.
  destruct req; simpl; try done. rewrite andb_true_iff, negb_true_iff, Nat.ltb_lt. intros [H1 H2]. split; [exact H1|congruence].
Qed.

Lemma serve_all_run {X : External} {E : SessionExternal} (d : SessionDescription) self reqs self' :
  processor_run d self → allowed_all d self reqs = true → serve_all d self reqs = Some self' → processor_run d self'.
Proof.
  revert self. induction reqs as [|req reqs IH]; intros self R A H; simpl in *; [by injection H as <-|].
  apply andb_true_iff in A as [A1 A2]. destruct (serve d 4 self req) as [[self1|]|] eqn:E1; try done. eapply IH; [|exact A2|exact H].
  eapply run_serve; [exact R|by apply allowed_check_ok|exact E1].
Qed.

Definition default_processor : @SessionProcessor demo := match demo_created with Done self => self | Panic => {|
  sp_catchain_started := false; sp_states := {| st_block_to_state_map := []; st_real_state := demo_init; st_virtual_state := demo_init; st_calls := [] |};
  sp_current_round := 0; sp_timing := {| tm_requested_new_block := false; tm_requested_new_block_now := false; tm_next_awake_time := 0; tm_round_started_at := 0; tm_round_debug_at := 0; tm_draws := 0 |};
  sp_generation := {| gn_pending_generate := false; gn_generated := false; gn_sent_generated := false; gn_generated_block := 0 |};
  sp_approval := {| ap_pending_approve := ∅; ap_pending_reject := ∅; ap_rejected := ∅; ap_approved := ∅; ap_active_requests := ∅ |};
  sp_signing := {| sg_pending_sign := false; sg_signed := false; sg_signed_block := 0; sg_signature := [] |};
  sp_blocks := ∅; sp_slashing_stat := ∅; sp_events := [] |} end.
Definition demo_after (reqs : list SessionRequest) : @SessionProcessor demo :=
  default default_processor (@serve_all demo demo_session demo_desc default_processor reqs).

Lemma demo_after_run reqs : @allowed_all demo demo_session demo_desc default_processor reqs = true →
  is_Some (@serve_all demo demo_session demo_desc default_processor reqs) → @processor_run demo demo_session demo_desc (demo_after reqs).
Proof.
  intros A [self' H]. unfold demo_after. rewrite H. simpl. eapply serve_all_run; [|exact A|exact H]. 
  apply (@run_create demo demo_session demo_desc (demo_clock 1030) demo_nodes). vm_compute. reflexivity.
Qed.

Lemma demo_member : is_node demo_desc (self_idx demo_desc).
Proof. unfold is_node. vm_compute. lia. Qed.
