(* ===== verification/SessionTheorems.v ===== *)
(** * Properties of the session state

    Totality and invariant of the message handler, the implicit actions and the
    merge, finality of committed blocks, validity of commit certificates and
    safety under a minority of faulty weight, with concrete instances. *)

From S2P Require Import Prelude SessionDescription Vectors Candidates RoundAttempt Round RoundFacts RoundMerge SessionState SessionFacts SessionSafety Concrete.

Section properties.
Context {X : External}.
Implicit Types (d : SessionDescription) (s l r m : SessionState) (o : OldRoundState).

(** C1: the handler of incoming messages never panics: from a well-formed
    session state, any message of a session member (whatever its round, attempt,
    candidate and signature) gives a well-formed session state; every [assert!],
    [unwrap] and index of the handlers of the current round, its attempts and
    the finished rounds holds. *)
Theorem apply_action_safe d s (i att : N) msg :
  desc_ok d → session_ok d s → is_node d i → round_room s →
  ∃ s', SessionState_apply_action d s i att msg = Done s' ∧ session_ok d s'.
Proof.
  intros Hd Hs Hi Hb. destruct (session_apply_action_ok d s i att msg Hd Hs Hi Hb) as (s' & H & Hok & _). eauto.
Qed.

(** C2: merging two well-formed session states succeeds and gives a
    well-formed state as soon as the precommitted blocks agree when both are in
    the same round. *)
Theorem merge_safe d l r :
  desc_ok d → session_ok d l → session_ok d r → round_room l → round_room r →
  precommits_agree l r →
  ∃ m, merge d l r = Done m ∧ session_ok d m.
Proof.
  intros Hd Hl Hr Hbl Hbr Ha%precommits_agree_check. destruct (session_merge_ok d l r Hd Hl Hr Ha Hbl Hbr) as (m & H & Hok & _). eauto.
Qed.

(** C3: every reachable state (messages, implicit actions, merges of reachable
    states that agree on decided blocks) satisfies the session invariant, and
    all commit signatures it stores are valid signatures of the decided block. *)
Theorem reachable_invariant d s :
  desc_ok d → reachable d s → session_ok d s ∧ session_certs d s.
Proof. apply reachable_good. Qed.

(** C4: a committed block is final: along any sequence of steps of a validator
    (messages, implicit actions, merges with reachable states that agree on the
    decided blocks) the block of a finished round never changes, and its signatures are never lost. *)
Theorem committed_block_final d s s' (k : nat) o :
  desc_ok d → reachable d s → rtc (session_step d (reachable d)) s s' →
  old_list s !! k = Some o →
  ∃ o', old_list s' !! k = Some o' ∧ or_block o' = or_block o ∧
    SessionState_get_committed_block s' (N.of_nat k) = Done (Some (or_block o)) ∧
    (sig_flags (or_signatures o)) ≤ᶠ (sig_flags (or_signatures o')).
Proof.
  intros Hd Hs Hsteps. apply reachable_good in Hs as [Hok Hc]; [|done].
  revert o. induction Hsteps as [s|s1 s2 s3 Hstep _ IH]; intros o Ho.
  - exists o. split; [done|]. split; [done|]. split; [|apply Forall2_imp_refl].
    by apply get_committed_block_old.
  - destruct (session_step_ok d (reachable d) s1 s2 Hd) as (Hok2 & Hc2 & Hg); try done.
    { intros x Hx. by apply reachable_good. }
    destruct (Hg k o Ho) as (o1 & Ho1 & [_ Hb1 Hs1 _]).
    destruct (IH Hok2 Hc2 o1 Ho1) as (o' & Ho' & Hb' & Hget & Hs').
    exists o'. rewrite <- Hb1. split; [done|]. split; [done|]. split; [done|]. by eapply Forall2_imp_trans.
Qed.

(** C5: the block of a finished round of a reachable state carries a commit
    certificate: signatures of validators with more than two thirds of the
    total weight, every one of them valid for that block. *)
Theorem commit_certificate d s (k : nat) o :
  desc_ok d → reachable d s → old_list s !! k = Some o →
  2 * total_weight d < 3 * flag_weight (sources d) (sig_flags (or_signatures o)) ∧
  ∀ (i : nat) sig, or_signatures o !! i = Some (Some sig) →
    valid_commit d (or_block o) (N.of_nat i) (bcs_signature sig).
Proof.
  intros Hd Hs Ho. apply reachable_good in Hs as [Hok [_ Hc]]; [|done]. split.
  - pose proof (old_cert _ _ _ (sok_old _ _ Hok k o Ho)) as Hw. rewrite (desc_cutoff _ Hd) in Hw.
    pose proof (N.mod_lt (total_weight d * 2) 3 ltac:(lia)). pose proof (N.Div0.div_mod (total_weight d * 2) 3). lia.
  - apply Hc. by eapply list_elem_of_lookup_2.
Qed.

(** C6: safety: if the faulty validators weigh at most a third and every other
    validator commits to at most one block in the round ([commits i b]: node [i]
    issued a commit for [b] in this round; commits of such nodes are not forged,
    by their signature or, for the unsigned empty block, by that of the catchain
    block that carries them), then any two reachable states that finished the round committed
    the same block. *)
Theorem agreement d s1 s2 (k : nat) o1 o2 (faulty : list bool) (commits : nat → SentBlockPtr → Prop) :
  desc_ok d → reachable d s1 → reachable d s2 →
  old_list s1 !! k = Some o1 → old_list s2 !! k = Some o2 →
  length faulty = length (sources d) → 3 * flag_weight (sources d) faulty ≤ total_weight d →
  (∀ (i : nat) o sig, o = o1 ∨ o = o2 → faulty !! i = Some false → or_signatures o !! i = Some (Some sig) →
     valid_commit d (or_block o) (N.of_nat i) (bcs_signature sig) → commits i (or_block o)) →
  (∀ (i : nat) b1 b2, faulty !! i = Some false → commits i b1 → commits i b2 → b1 = b2) →
  or_block o1 = or_block o2.
Proof.
  intros Hd Hs1 Hs2 Ho1 Ho2 Hlen Hw Hforge Honest.
  apply reachable_good in Hs1 as [Hok1 [_ Hc1]], Hs2 as [Hok2 [_ Hc2]]; try done.
  destruct (honest_double_signer d (N.of_nat k) o1 o2 faulty) as (i & sig1 & sig2 & Hf & H1 & H2); try done.
  { by apply (sok_old _ _ Hok1). }
  { by apply (sok_old _ _ Hok2). }
  apply (Honest i); [done|eapply Hforge; [by left|done..|]|eapply Hforge; [by right|done..|]].
  - eapply Hc1; [by eapply list_elem_of_lookup_2|done].
  - eapply Hc2; [by eapply list_elem_of_lookup_2|done].
Qed.

(** C7: accountability: when two reachable states finished the same round with
    blocks of different contents (root and file hashes), neither of them the
    empty block, then validators with more than a third of the total weight
    are recorded in both, and each of them is exposed by the two records: the
    signatures stored under its number verify, with its one public key, on two
    different contents. The empty block is committed without a signature, so
    a conflict with it exposes nobody and is left out. *)
Theorem accountable_safety d s1 s2 (k : nat) o1 o2 b1 b2 :
  desc_ok d → reachable d s1 → reachable d s2 →
  old_list s1 !! k = Some o1 → old_list s2 !! k = Some o2 →
  or_block o1 = Some b1 → or_block o2 = Some b2 →
  SentBlock_get_id (Some b1) ≠ SKIP_ROUND_CANDIDATE_BLOCKID →
  SentBlock_get_id (Some b2) ≠ SKIP_ROUND_CANDIDATE_BLOCKID →
  (sb_root_hash b1, sb_file_hash b1) ≠ (sb_root_hash b2, sb_file_hash b2) →
  let both := zip_with andb (sig_flags (or_signatures o1)) (sig_flags (or_signatures o2)) in
  total_weight d < 3 * flag_weight (sources d) both ∧
  ∀ i : nat, both !! i = Some true → ∃ src sig1 sig2,
    sources d !! i = Some src ∧
    or_signatures o1 !! i = Some (Some sig1) ∧ or_signatures o2 !! i = Some (Some sig2) ∧
    double_signed (source_public_key src) (sb_root_hash b1, sb_file_hash b1, bcs_signature sig1)
      (sb_root_hash b2, sb_file_hash b2, bcs_signature sig2).
Proof.
  intros Hd Hs1 Hs2 Ho1 Ho2 Hb1 Hb2 Hn1 Hn2 Hdiff.
  apply reachable_good in Hs1 as [Hok1 [_ Hc1]], Hs2 as [Hok2 [_ Hc2]]; try done.
  split.
  - eapply double_signers; [done|by apply (sok_old _ _ Hok1)|by apply (sok_old _ _ Hok2)].
  - intros i Hi. apply lookup_zip_with_Some in Hi as (f1 & f2 & Hb & Hi1 & Hi2). destruct f1, f2; try done.
    apply sig_flags_lookup in Hi1 as [sig1 H1]. apply sig_flags_lookup in Hi2 as [sig2 H2].
    destruct (valid_commit_verifies d b1 i (bcs_signature sig1)) as (src & Hsrc & Hv1); [done| |].
    { rewrite <- Hb1. eapply Hc1; [by eapply list_elem_of_lookup_2|done]. }
    destruct (valid_commit_verifies d b2 i (bcs_signature sig2)) as (src2 & Hsrc2 & Hv2); [done| |].
    { rewrite <- Hb2. eapply Hc2; [by eapply list_elem_of_lookup_2|done]. }
    assert (src2 = src) as -> by congruence. exists src, sig1, sig2. done.
Qed.

(** C8: the loop of implicit actions terminates: five rounds of [make_one] are
    enough to reach a state that [make_one] does not change, without a panic,
    and the finished rounds are untouched. *)
Theorem make_all_terminates d s (i att : N) :
  desc_ok d → session_ok d s → is_node d i →
  ∃ s', SessionState_make_all 5 d s i att = Some (Done s') ∧ session_ok d s' ∧
    SessionState_make_one d s' i att = Done (s', false) ∧ old_rounds s' = old_rounds s.
Proof.
  intros Hd Hs Hi. pose proof (session_todo_bound d s i att).
  destruct (session_make_all_ok 5 d s i att Hd Hs Hi) as (s' & H1 & H2 & H3 & _ & H4); [lia|]. eauto 10.
Qed.

(** Two states in the same round whose precommitted blocks differ cannot be
    merged: the merge panics on its assertion instead of choosing one. *)
Theorem merge_conflict_panics d l r bl br :
  desc_ok d → session_ok d l → session_ok d r →
  rs_sequence_number (current_round l) = rs_sequence_number (current_round r) →
  precommitted_block (current_round l) = Some bl → precommitted_block (current_round r) = Some br →
  SentBlock_get_id bl ≠ SentBlock_get_id br →
  merge d l r = Panic.
Proof.
  intros Hd Hl Hr Hs Hbl Hbr Hne. apply session_merge_panics; [done..|].
  apply not_true_is_false. intros Ha%precommits_agree_check. by apply Hne, Ha.
Qed.

(** The merge keeps the history of both sides: every round finished on the
    left keeps its block, every round finished only on the right is taken over
    with its block, and the attempt clocks are the pointwise maximum. *)
Theorem merge_history d l r m :
  desc_ok d → session_ok d l → session_ok d r → round_room l → round_room r →
  precommits_agree l r → merge d l r = Done m →
  (∀ (k : nat) o, old_list l !! k = Some o → ∃ o', old_list m !! k = Some o' ∧ old_grows o o') ∧
  (∀ (k : nat) o, old_list l !! k = None → old_list r !! k = Some o →
     ∃ o', old_list m !! k = Some o' ∧ old_grows o o') ∧
  attempt_ids m = zip_with N.max (attempt_ids l) (attempt_ids r).
Proof.
  intros Hd Hl Hr Hbl Hbr Ha%precommits_agree_check Hm.
  destruct (session_merge_ok d l r Hd Hl Hr Ha Hbl Hbr) as (m' & H & _ & Hg & Hgr & Hids).
  rewrite Hm in H. injection H as <-. auto.
Qed.

(** The attempt clock of a node never goes back, is at least
    [MIN_ATTEMPT_ID], and a message moves the clock of its source only. *)
Theorem attempt_clock d s (i att : N) msg s' :
  desc_ok d → session_ok d s → is_node d i → round_room s →
  SessionState_apply_action d s i att msg = Done s' →
  ∃ cur cur', SessionState_get_ts s i = Done cur ∧ SessionState_get_ts s' i = Done cur' ∧
    cur ≤ cur' ∧ MIN_ATTEMPT_ID ≤ cur' ∧ att ≤ cur' ∧
    ∀ j, j ≠ i → SessionState_get_ts s' j = SessionState_get_ts s j.
Proof.
  intros Hd Hs Hi Hb H.
  destruct (session_apply_action_ok d s i att msg Hd Hs Hi Hb) as (s1 & H1 & _ & _ & cur & Hcur & Hids).
  rewrite H in H1. injection H1 as <-. exists cur, (clamp_attempt_id cur att).
  pose proof (clamp_attempt_id_bounds cur att) as (? & ? & ?).
  unfold SessionState_get_ts. setoid_rewrite Vector_at_index. rewrite Hids.
  split; [by apply index_Some|]. split.
  { apply index_Some, list_lookup_insert_eq. by eapply lookup_lt_Some. }
  do 3 (split; [done|]). intros j Hj. unfold index. rewrite list_lookup_insert_ne; [done|lia].
Qed.

(** A late commit for a finished round is recorded exactly when it names
    the committed block, its signature is valid and the node has none yet;
    otherwise the finished round is unchanged. *)
Theorem late_commit d (k : N) o (i cand : N) sig :
  old_ok d k o → is_node d i →
  ∃ o', OldRoundState_apply_committed_block_action d o i cand sig = Done o' ∧
    (cand = OldRoundState_get_block_id o ∧ valid_commit d (or_block o) i sig ∧
       or_signatures o !! N.to_nat i = Some None →
     or_signatures o' = <[N.to_nat i := BlockCandidateSignature_create sig]> (or_signatures o) ∧
     or_block o' = or_block o ∧ or_approve_signatures o' = or_approve_signatures o) ∧
    (~ (cand = OldRoundState_get_block_id o ∧ valid_commit d (or_block o) i sig ∧
       or_signatures o !! N.to_nat i = Some None) → o' = o).
Proof.
  intros Ho Hi. pose proof (old_sigs_len _ _ _ Ho) as Hlen. unfold is_node in Hi.
  unfold OldRoundState_apply_committed_block_action.
  destruct (cand =? OldRoundState_get_block_id o) eqn:E; breflect; cbn [negb]; [subst cand|exists o; naive_solver].
  destruct (old_check_commit d o i sig Hi) as (v & -> & Hv). run.
  destruct v; cbn [negb]; [|exists o; naive_solver].
  unfold OldRoundState_check_block_is_signed_by.
  destruct (Vector_at_lt (or_signatures o) i) as (sg & -> & Hsg); [lia|]. run.
  destruct sg as [sg|].
  - rewrite bool_decide_eq_true_2 by eauto. exists o. split; [done|]. split; [|done]. rewrite Hsg. naive_solver.
  - rewrite bool_decide_eq_false_2 by (by intros [??]). rewrite Vector_change_lt by lia.
    eexists. split; [done|]. split; [done|]. intros Hn. destruct Hn. naive_solver.
Qed.
End properties.

(** ** Concrete instances *)

(** The finished round of the concrete session and a fourth, late commit. *)
Definition demo_old : OldRoundState :=
  default {| or_sequence_number := 0; or_block := None; or_signatures := []; or_approve_signatures := [] |}
    (old_list demo_committed !! 0%nat).

Lemma demo_old_lookup : old_list demo_committed !! 0%nat = Some demo_old.
Proof. reflexivity. Qed.

Lemma demo_committed_ok : session_ok demo_desc demo_committed.
Proof. apply demo_ok, demo_committed_reachable. Qed.
Lemma demo_precommitted_ok : session_ok demo_desc demo_precommitted.
Proof. apply demo_ok, demo_precommitted_reachable. Qed.
Lemma demo_voted_ok : session_ok demo_desc demo_voted.
Proof. apply demo_ok, demo_voted_reachable. Qed.

Ltac demo_side :=
  first [ exact demo_desc_ok | exact demo_committed_ok | exact demo_precommitted_ok | exact demo_voted_ok
        | exact demo_committed_reachable | exact demo_precommitted_reachable | exact demo_old_lookup
        | apply precommits_agree_check; vm_compute; reflexivity
        | unfold is_node; vm_compute; lia | vm_compute; reflexivity ].

Lemma apply_action_safe_witness :
  ∃ s', SessionState_apply_action demo_desc demo_committed 3 1040 (Commit 0 demo_candidate [14; 7]) = Done s' ∧
    session_ok demo_desc s'.
Proof. apply (apply_action_safe demo_desc demo_committed 3 1040 (Commit 0 demo_candidate [14; 7])); demo_side. Defined.

Lemma merge_safe_witness :
  ∃ m, merge demo_desc demo_voted demo_precommitted = Done m ∧ session_ok demo_desc m.
Proof. apply (merge_safe demo_desc demo_voted demo_precommitted); demo_side. Defined.

Lemma reachable_invariant_witness : session_ok demo_desc demo_committed ∧ session_certs demo_desc demo_committed.
Proof. apply (reachable_invariant demo_desc demo_committed); demo_side. Defined.

(** A step after the round was finished: the late commit of the fourth node. *)
Definition demo_late : SessionState :=
  match SessionState_apply_action demo_desc demo_committed 3 1040 (Commit 0 demo_candidate [14; 7]) with
  | Done s => s | Panic => demo_committed end.

Lemma committed_block_final_witness :
  ∃ o', old_list demo_late !! 0%nat = Some o' ∧ or_block o' = or_block demo_old ∧
    SessionState_get_committed_block demo_late (N.of_nat 0) = Done (Some (or_block demo_old)) ∧
    (sig_flags (or_signatures demo_old)) ≤ᶠ (sig_flags (or_signatures o')).
Proof.
  apply (committed_block_final demo_desc demo_committed demo_late 0 demo_old).
  - demo_side.
  - demo_side.
  - apply rtc_once, (step_action demo_desc (reachable demo_desc) demo_committed 3 1040 (Commit 0 demo_candidate [14; 7]));
      demo_side.
  - demo_side.
Defined.

Lemma commit_certificate_witness :
  2 * total_weight demo_desc < 3 * flag_weight (sources demo_desc) (sig_flags (or_signatures demo_old)) ∧
  ∀ (i : nat) sig, or_signatures demo_old !! i = Some (Some sig) →
    valid_commit demo_desc (or_block demo_old) (N.of_nat i) (bcs_signature sig).
Proof. apply (commit_certificate demo_desc demo_committed 0 demo_old); demo_side. Defined.

Lemma agreement_witness : or_block demo_old = or_block demo_old.
Proof.
  apply (agreement demo_desc demo_committed demo_committed 0 demo_old demo_old [false; false; false; true]
    (λ _ b, b = or_block demo_old)).
  1-6: demo_side.
  - vm_compute. done.
  - intros i o sig [->| ->] _ _ _; done.
  - intros i b1 b2 _ -> ->. done.
Defined.

(** The same round finished with another block by nodes 1, 2 and 3. *)
Definition demo_other_old : OldRoundState :=
  default demo_old (old_list demo_other_committed !! 0%nat).
Definition demo_sent (o : OldRoundState) : SentBlock :=
  default {| sb_candidate_id := 0; sb_source_id := 0; sb_root_hash := 0; sb_file_hash := 0; sb_collated_data_file_hash := 0 |}
    (or_block o).

Lemma accountable_safety_witness :
  let both := zip_with andb (sig_flags (or_signatures demo_old)) (sig_flags (or_signatures demo_other_old)) in
  both = [false; true; true; false] ∧ total_weight demo_desc < 3 * flag_weight (sources demo_desc) both ∧
  ∃ src sig1 sig2, sources demo_desc !! 1%nat = Some src ∧
    or_signatures demo_old !! 1%nat = Some (Some sig1) ∧ or_signatures demo_other_old !! 1%nat = Some (Some sig2) ∧
    double_signed (source_public_key src) (7, 8, bcs_signature sig1) (17, 8, bcs_signature sig2).
Proof.
  destruct (accountable_safety demo_desc demo_committed demo_other_committed 0 demo_old demo_other_old
    (demo_sent demo_old) (demo_sent demo_other_old)) as [H1 H2];
    try (first [exact demo_other_committed_reachable|demo_side|vm_compute; discriminate]).
  split; [vm_compute; reflexivity|]. split; [exact H1|]. apply (H2 1%nat). vm_compute. reflexivity.
Defined.

Lemma make_all_terminates_witness :
  ∃ s', SessionState_make_all 5 demo_desc demo_voted 3 1030 = Some (Done s') ∧ session_ok demo_desc s' ∧
    SessionState_make_one demo_desc s' 3 1030 = Done (s', false) ∧ old_rounds s' = old_rounds demo_voted.
Proof. apply (make_all_terminates demo_desc demo_voted 3 1030); demo_side. Defined.

Lemma merge_conflict_panics_witness : merge demo_desc demo_precommitted demo_skip = Panic.
Proof. eapply (merge_conflict_panics demo_desc demo_precommitted demo_skip);
  first [apply demo_ok, demo_skip_reachable|demo_side|vm_compute; discriminate]. Defined.

Definition demo_merged : SessionState :=
  match merge demo_desc demo_voted demo_committed with Done m => m | Panic => demo_voted end.

Lemma merge_history_witness :
  (∀ (k : nat) o, old_list demo_voted !! k = Some o → ∃ o', old_list demo_merged !! k = Some o' ∧ old_grows o o') ∧
  (∀ (k : nat) o, old_list demo_voted !! k = None → old_list demo_committed !! k = Some o →
     ∃ o', old_list demo_merged !! k = Some o' ∧ old_grows o o') ∧
  attempt_ids demo_merged = zip_with N.max (attempt_ids demo_voted) (attempt_ids demo_committed).
Proof. apply (merge_history demo_desc demo_voted demo_committed demo_merged); demo_side. Defined.

Lemma attempt_clock_witness :
  ∃ cur cur', SessionState_get_ts demo_committed 3 = Done cur ∧ SessionState_get_ts demo_late 3 = Done cur' ∧
    cur ≤ cur' ∧ MIN_ATTEMPT_ID ≤ cur' ∧ 1040 ≤ cur' ∧
    ∀ j, j ≠ 3 → SessionState_get_ts demo_late j = SessionState_get_ts demo_committed j.
Proof.
  apply (attempt_clock demo_desc demo_committed 3 1040 (Commit 0 demo_candidate [14; 7]) demo_late); demo_side.
Defined.

Lemma late_commit_witness :
  ∃ o', OldRoundState_apply_committed_block_action demo_desc demo_old 3 demo_candidate [14; 7] = Done o' ∧
    (demo_candidate = OldRoundState_get_block_id demo_old ∧ valid_commit demo_desc (or_block demo_old) 3 [14; 7] ∧
       or_signatures demo_old !! N.to_nat 3 = Some None →
     or_signatures o' = <[N.to_nat 3 := BlockCandidateSignature_create [14; 7]]> (or_signatures demo_old) ∧
     or_block o' = or_block demo_old ∧ or_approve_signatures o' = or_approve_signatures demo_old) ∧
    (~ (demo_candidate = OldRoundState_get_block_id demo_old ∧ valid_commit demo_desc (or_block demo_old) 3 [14; 7] ∧
       or_signatures demo_old !! N.to_nat 3 = Some None) → o' = demo_old).
Proof.
  apply (late_commit demo_desc 0 demo_old 3 demo_candidate [14; 7]).
  - apply (sok_old _ _ demo_committed_ok 0%nat demo_old demo_old_lookup).
  - demo_side.
Defined.
