(* ===== verification/RoundTheorems.v ===== *)
(** * Properties of rounds, attempts and their building blocks

    Voting, locks and proposals inside a round, the weight checks, the sorted
    vectors behind candidates, votes and attempts, the rotation of block
    producers and the creation of a session description. *)

From stdpp Require Import sorting.
From S2P Require Import Prelude SessionDescription Vectors Candidates RoundAttempt Round RoundFacts AttemptSafety RoundMerge SessionState SessionFacts SessionSafety Actions Concrete.

Section attempt_properties.
Context {X : External}.
Implicit Types (d : SessionDescription) (a : RoundAttemptState) (r : RoundState) (v : VoteCandidate).

(** The default action of an attempt does exactly one of three things: if
    the node has not voted and the round gives it a block, it records the vote;
    otherwise, if the node has not precommitted and a block has a quorum of
    votes, it records the precommit; otherwise nothing changes. *)
Theorem default_action_spec d (ids : N → Prop) a (i att : N) ops choice :
  desc_ok d → attempt_ok d ids a → (N.to_nat i < length (sources d))%nat →
  op_choose_block_to_vote ops d i att (vote_for a) = Done choice →
  RoundAttemptState_apply_default_action d a i att ops = Done
    (match has_vote a (N.to_nat i), choice with
     | false, Some b => (with_vote d a b (N.to_nat i), true)
     | _, _ =>
         match has_precommit a (N.to_nat i), voted_block d a with
         | false, Some _ => (with_precommit a (N.to_nat i), true)
         | _, _ => (a, false)
         end
     end).
Proof. apply default_action_cases. Qed.

(** The action a validator creates announces what it does: without a
    precommitted block the created message belongs to the current round, and
    applying it to the attempt records exactly the announced vote or precommit,
    or nothing when the message is empty; with a precommitted block the message
    is empty. *)
Theorem created_action_faithful d (s : SessionState) (i att : N) :
  desc_ok d → session_ok d s → is_node d i → 0 < att → round_room s →
  let r := current_round s in
  let a := default (RoundAttemptState_create_empty d att) (find_key att (attempt_list r)) in
  ∃ msg, SessionState_create_action d s i att = Done (Some msg) ∧ get_round_id msg = rs_sequence_number r ∧
    (is_Some (precommitted_block r) → ∃ n k, msg = Empty n k) ∧
    (precommitted_block r = None → ∃ a',
       RoundAttemptState_apply_action d a i att msg (RoundState_ops r) = Done a' ∧
       match msg with
       | Vote _ _ candidate => ∃ b, SentBlock_get_id b = candidate ∧ a' = with_vote d a b (N.to_nat i)
       | Precommit _ _ candidate =>
           ∃ b, voted_block d a = Some b ∧ SentBlock_get_id b = candidate ∧ a' = with_precommit a (N.to_nat i)
       | Empty _ _ => a' = a
       | _ => False
       end).
Proof.
  intros Hd Hs Hi Hatt Hroom. cbn zeta. unfold round_room in Hroom. pose proof (sok_round _ _ Hs) as Hr.
  unfold SessionState_create_action. destruct (precommitted_block (current_round s)) as [b|] eqn:Ep.
  - eexists. unfold RoundState_create_action. rewrite Ep. split; [done|].
    split; [apply u32_i32_roundtrip; lia|]. split; [eauto|done].
  - destruct (round_create_action_ok d (current_round s) i att Hd Hr Hi Hatt Ep) as (choice & Hc & Hact).
    destruct (current_attempt_ok d (current_round s) att Hd Hr Hatt) as [Ha _].
    pose proof (default_action_cases d _ _ i att (RoundState_ops (current_round s)) choice Hd Ha Hi Hc) as Hda.
    revert Hda. generalize dependent (default (RoundAttemptState_create_empty d att) (find_key att (attempt_list (current_round s)))).
    intros a Hc Hact Ha Hda. eexists. split; [exact Hact|].
    unfold announced, RoundAttemptState_apply_action.
    destruct (has_vote a (N.to_nat i)), choice as [b|], (has_precommit a (N.to_nat i)), (voted_block d a) as [vb|] eqn:Ev;
      (split; [apply u32_i32_roundtrip; lia|]); rewrite Hda; naive_solver.
Qed.

(** Nobody votes twice: if every node has voted for at most one block of
    the attempt, this is still so after the default action, which every vote,
    precommit or empty message and every implicit action runs. *)
Theorem votes_stay_single d (ids : N → Prop) a (i att : N) ops choice a' made :
  desc_ok d → attempt_ok d ids a → (N.to_nat i < length (sources d))%nat →
  op_choose_block_to_vote ops d i att (vote_for a) = Done choice → single_votes a →
  RoundAttemptState_apply_default_action d a i att ops = Done (a', made) →
  single_votes a'.
Proof. apply default_action_single. Qed.

(** Agreement inside an attempt: when nobody voted twice, at most one
    block has a quorum of votes. *)
Theorem one_voted_block d (ids : N → Prop) a v1 v2 :
  desc_ok d → attempt_ok d ids a → single_votes a → v1 ∈ vote_list a → v2 ∈ vote_list a →
  VoteCandidate_check_block_is_voted d v1 = Done true → VoteCandidate_check_block_is_voted d v2 = Done true →
  v1 = v2.
Proof.
  intros Hd Ha Hs H1 H2 Hv1 Hv2.
  rewrite check_block_is_voted_ok in Hv1 by (done || by apply (att_voted_len _ _ _ Ha)).
  rewrite check_block_is_voted_ok in Hv2 by (done || by apply (att_voted_len _ _ _ Ha)).
  injection Hv1 as Hv1. injection Hv2 as Hv2. by eapply single_voted_block.
Qed.

(** Two blocks with a quorum of votes in one attempt expose double voters
    with more than a third of the weight. *)
Theorem double_voters d (ids : N → Prop) a v1 v2 :
  desc_ok d → attempt_ok d ids a → v1 ∈ vote_list a → v2 ∈ vote_list a →
  VoteCandidate_check_block_is_voted d v1 = Done true → VoteCandidate_check_block_is_voted d v2 = Done true →
  total_weight d < 3 * flag_weight (sources d) (zip_with andb (voted_by v1) (voted_by v2)).
Proof.
  intros Hd Ha H1 H2 Hv1 Hv2.
  rewrite check_block_is_voted_ok in Hv1 by (done || by apply (att_voted_len _ _ _ Ha)).
  rewrite check_block_is_voted_ok in Hv2 by (done || by apply (att_voted_len _ _ _ Ha)).
  injection Hv1 as Hv1. injection Hv2 as Hv2. by eapply two_voted_blocks.
Qed.

(** The lock rule: a node whose last precommit is in attempt [k] votes, in
    every attempt and whatever block is proposed, for the block that attempt [k]
    voted for. *)
Theorem lock_rule d r (i att : N) proposal lp k :
  desc_ok d → round_ok d r → sent_blocks r ≠ None →
  last_precommit r = Some lp → lp !! N.to_nat i = Some k → 0 < k →
  ∃ a b, RoundState_get_attempt (attempts r) k = Done (Some a) ∧
    RoundAttemptState_get_voted_block d a = Done (Some b) ∧
    RoundState_choose_block_to_vote d r i att proposal = Done (Some b).
Proof.
  intros Hd Hr Hsb Hlp Hk Hk0.
  destruct (locked_choice d r i att proposal lp k) as (a & b & Ha & Hb & Hch); try done.
  exists a, b. rewrite (round_get_attempt d) by done. rewrite Ha. split; [done|]. split; [|done].
  destruct (round_attempt_ok _ _ _ _ Hr Ha) as [Hok _]. by rewrite (get_voted_block_ok d (sent_id r)), Hb.
Qed.

(** Choosing a block to vote for never panics, and the block is one of the
    candidates of the round. *)
Theorem choose_block_to_vote_safe d r (i att : N) proposal :
  desc_ok d → round_ok d r → (N.to_nat i < length (sources d))%nat →
  (∀ b, proposal = Some b → ∃ c, RoundState_get_block r (SentBlock_get_id b) = Some c) →
  ∃ o, RoundState_choose_block_to_vote d r i att proposal = Done o ∧
    ∀ b, o = Some b → ∃ c, RoundState_get_block r (SentBlock_get_id b) = Some c.
Proof.
  intros Hd Hr Hi Hp.
  assert (Hiff : ∀ k, sent_id r k ↔ ∃ c, RoundState_get_block r k = Some c).
  { intros k. rewrite get_block_find. split.
    - intros (c & Hc & <-). exists c. apply (find_key_elem _ _ (rok_sent_sorted _ _ Hr) Hc).
    - intros [c [Hc Hk]%find_key_Some]. by exists c. }
  destruct (choose_block_to_vote_ok d r i att proposal Hd Hr Hi) as (o & Ho & Hids).
  { intros b Hb. apply Hiff. by apply Hp. }
  exists o. split; [done|]. intros b Hb. apply Hiff. by apply Hids.
Qed.

(** A generated proposal is accepted: when [check_need_generate_vote_for]
    holds, the message that [generate_vote_for] builds (for any random draw) is
    stored by the attempt as the proposal of an approved candidate. *)
Theorem generated_proposal_accepted d r (i att random : N) :
  desc_ok d → round_ok d r → 0 < max_round_attempts (options d) →
  RoundState_check_need_generate_vote_for d r i att = Done true →
  let a := default (RoundAttemptState_create_empty d att) (find_key att (attempt_list r)) in
  ∃ c msg, RoundState_generate_vote_for d r i att random = Done msg ∧ c ∈ sent_list r ∧
    BlockCandidate_check_block_is_approved d c = Done true ∧
    RoundAttemptState_apply_action d a i att msg (RoundState_ops r)
    = Done {| ra_sequence_number := ra_sequence_number a; votes := votes a;
              precommitted := precommitted a; vote_for := Some (bc_block c) |}.
Proof.
  intros Hd Hr Hmax Hneed. cbn zeta.
  destruct (generate_vote_for_ok d r i att random Hd Hr Hneed) as (c & Hgen & Hc & Hw).
  eexists c, _. split; [exact Hgen|]. split; [done|].
  pose proof (cand_len _ _ _ (rok_sent _ _ Hr c Hc)) as Hlen.
  split; [rewrite check_block_is_approved_ok by done; by rewrite (proj2 (N.leb_le _ _) Hw)|].
  unfold RoundState_check_need_generate_vote_for in Hneed. rewrite get_vote_for_author_ok in Hneed by done.
  run in Hneed.
  destruct (i =? att mod get_total_nodes d) eqn:Ei; cbn [negb] in Hneed; [|done]. breflect.
  destruct (bool_decide (is_Some (precommitted_block r))); [done|].
  apply bind_Done_inv in Hneed as (first & Hfirst & Hneed).
  rewrite (proj2 (N.ltb_lt _ _) Hmax), !andb_true_r in Hneed.
  destruct (first =? 0) eqn:Ef; [done|]. breflect. destruct (att <? _); [done|].
  rewrite (round_get_attempt d) in Hneed by done. run in Hneed.
  destruct (bool_decide _) eqn:Evf in Hneed; [done|]. apply bool_decide_eq_false in Evf.
  cbn [RoundAttemptState_apply_action]. apply (vote_for_accepted d r _ c i att first); try done.
  destruct (find_key att (attempt_list r)) as [a|]; simpl; [|done].
  destruct (vote_for a); [|done]. destruct Evf. by eexists.
Qed.

(** The candidates offered for approval are exactly the blocks that the
    node has not approved and whose source has sent no other block in the round,
    by increasing producer priority; the empty candidate comes last unless the
    node has approved it.  No slot index is out of range. *)
Theorem choose_blocks_to_approve_spec d r (i : N) :
  desc_ok d → round_ok d r → (N.to_nat i < length (sources d))%nat →
  ∃ chosen (skip : bool),
    RoundState_choose_blocks_to_approve d r i = Done ((bc_block <$> chosen) ++ if skip then [None] else []) ∧
    (∀ c, c ∈ chosen ↔ approvable (N.to_nat i) (sent_list r) c) ∧
    StronglySorted (λ c1 c2, candidate_priority d r c1 < candidate_priority d r c2)%Z chosen ∧
    (skip = false ↔ ∃ c, c ∈ sent_list r ∧ bc_block c = None ∧ approved_flags c !! N.to_nat i = Some true).
Proof. apply choose_blocks_to_approve_ok. Qed.

(** Merging two states of an attempt succeeds and keeps the votes of both
    sides. *)
Theorem attempt_merge_keeps_votes d (idsl idsr : N → Prop) (l r : RoundAttemptState) :
  desc_ok d → attempt_ok d idsl l → attempt_ok d idsr r →
  ra_sequence_number l = ra_sequence_number r →
  ∃ m, merge d l r = Done m ∧ attempt_ok d (λ k, idsl k ∨ idsr k) m ∧
    ra_sequence_number m = ra_sequence_number l ∧ votes_grow l m ∧ votes_grow r m.
Proof. apply attempt_merge_ok. Qed.

(** Merging two states of a round succeeds when the precommitted blocks
    agree; the result is well formed, stays in the same round and holds the
    commit signatures of both sides. *)
Theorem round_merge_safe d (l r : RoundState) :
  desc_ok d → round_ok d l → round_ok d r → rs_sequence_number l = rs_sequence_number r →
  RoundState_precommits_agree (precommitted_block l) (precommitted_block r) = true →
  ∃ m, merge d l r = Done m ∧ round_ok d m ∧ rs_sequence_number m = rs_sequence_number l ∧
    rs_signatures m = zip_with sig_join (rs_signatures l) (rs_signatures r).
Proof.
  intros Hd Hl Hr Hs Ha. destruct (round_merge_ok d l r Hd Hl Hr Hs Ha) as (m & ? & ? & ? & ? & _). eauto 10.
Qed.

(** The early-exit weight loops of approvals, votes, precommits and commit
    signatures compare the exact total weight of the flagged validators with
    the cutoff, without overflow. *)
Theorem weight_checks_exact d :
  desc_ok d →
  (∀ c, length (approved_by c) = length (sources d) →
     BlockCandidate_check_block_is_approved d c
     = Done (cutoff_weight d <=? flag_weight (sources d) (approved_flags c))) ∧
  (∀ v, length (voted_by v) = length (sources d) →
     VoteCandidate_check_block_is_voted d v = Done (cutoff_weight d <=? flag_weight (sources d) (voted_by v))) ∧
  (∀ ids a, attempt_ok d ids a →
     RoundAttemptState_check_attempt_is_precommitted d a
     = Done (cutoff_weight d <=? flag_weight (sources d) (precommitted a))) ∧
  (∀ r, length (rs_signatures r) = length (sources d) →
     RoundState_check_block_is_signed d r
     = Done (cutoff_weight d <=? flag_weight (sources d) (sig_flags (rs_signatures r)))).
Proof.
  intros Hd. split_and!; intros.
  - by apply check_block_is_approved_ok.
  - by apply check_block_is_voted_ok.
  - by eapply check_attempt_is_precommitted_ok.
  - by apply check_block_is_signed_ok.
Qed.

(** The binary search of [get_attempt] is a lookup by attempt number, and
    the index it computes is always in range. *)
Theorem get_attempt_lookup (w : option (list RoundAttemptState)) (k : N) :
  key_sorted (default [] w) → RoundState_get_attempt w k = Done (find_key k (default [] w)).
Proof. apply get_attempt_find. Qed.

(** The second "too early" check of the vote-for handler never rejects
    anything when [max_round_attempts] is positive: a proposal of the author of
    the attempt is stored although the attempt is still among those in which
    nodes vote by priority ([first + max_round_attempts > att], the condition
    under which [check_need_generate_vote_for] refuses to propose). *)
Theorem early_proposal_accepted d r a c (i att first : N) :
  desc_ok d → round_ok d r → 0 < max_round_attempts (options d) →
  c ∈ sent_list r → BlockCandidate_check_block_is_approved d c = Done true →
  vote_for a = None → get_vote_for_author d att = Done i →
  RoundState_get_first_attempt r i = Done first → first ≠ 0 →
  att < u32_add first (max_round_attempts (options d)) →
  RoundState_check_need_generate_vote_for d r i att ≠ Done true ∧
  RoundAttemptState_apply_vote_for_action d a i att (BlockCandidate_get_id c) (RoundState_ops r)
  = Done {| ra_sequence_number := ra_sequence_number a; votes := votes a;
            precommitted := precommitted a; vote_for := Some (bc_block c) |}.
Proof.
  intros Hd Hr Hmax Hc Happ Hvf Hauth Hfirst Hne Hearly.
  rewrite get_vote_for_author_ok in Hauth by done. injection Hauth as Hauth. split.
  - unfold RoundState_check_need_generate_vote_for. rewrite get_vote_for_author_ok by done. run.
    rewrite Hauth, N.eqb_refl. cbn [negb]. destruct (bool_decide _); [done|]. rewrite Hfirst. run.
    rewrite (proj2 (N.ltb_lt _ _) Hmax), (proj2 (N.ltb_lt _ _) Hearly). simpl. by destruct ((_ =? _) && _).
  - rewrite check_block_is_approved_ok in Happ by (done || apply (cand_len _ _ _ (rok_sent _ _ Hr c Hc))).
    injection Happ as Happ. breflect. by apply (vote_for_accepted d r a c i att first).
Qed.
End attempt_properties.

Section vector_properties.
Context {X : External} {T : Type} `{SortingPredicate T} `{PartialEqSound T} `{EqDecision T}.

(** Pushing into a sorted vector (binary search, then copying) keeps it
    sorted and behaves as inserting or replacing the item of that key. *)
Theorem sorted_push_spec (w : option (list T)) (v : T) :
  key_sorted (default [] w) →
  ∃ l, SortedVector_push w v = Done (Some l) ∧ key_sorted l ∧
    ∀ k, find_key k l = if sort_key v =? k then Some v else find_key k (default [] w).
Proof.
  intros Hs. exists (sorted_insert v (default [] w)). split; [by apply SortedVector_push_ok|].
  split; [by apply sorted_insert_sorted|]. intros k. by apply find_key_sorted_insert.
Qed.

(** Merging sorted vectors (with the pointer-equality shortcuts of
    [merge_impl]) keeps them sorted and joins them key by key, whatever the
    pointer comparison answers. *)
Theorem sorted_merge_spec (f : T → T → outcome T) (wl wr : option (list T)) :
  keeps_key f → (∀ x, f x x = Done x) →
  key_sorted (default [] wl) → key_sorted (default [] wr) →
  (∀ x y, x ∈ default [] wl → y ∈ default [] wr → sort_key x = sort_key y → ∃ z, f x y = Done z) →
  ∃ w, SortedVectorWrapper_merge f pool_ptr_eq wl wr = Done w ∧ key_sorted (default [] w) ∧
    ∀ k, merged_key f (find_key k (default [] wl)) (find_key k (default [] wr)) (find_key k (default [] w)).
Proof. apply sorted_wrapper_merge_ok. Qed.
End vector_properties.

Section description_properties.
Context {X : External}.
Implicit Types (d : SessionDescription).

(** Signature vectors of one session form a join semilattice under merge:
    merging succeeds, is idempotent, commutative and associative, and keeps
    every signer. *)
Theorem signatures_merge_semilattice d (a b c : BlockCandidateSignatureVectorPtr) :
  length a = length (sources d) → length b = length (sources d) → length c = length (sources d) →
  signatures_merge d a a = Done a ∧ signatures_merge d a b = signatures_merge d b a ∧
  (ab ← signatures_merge d a b; signatures_merge d ab c) = (bc ← signatures_merge d b c; signatures_merge d a bc) ∧
  ∃ ab, signatures_merge d a b = Done ab ∧ sig_flags ab = zip_with orb (sig_flags a) (sig_flags b).
Proof.
  intros Ha Hb Hc. rewrite !(signatures_merge_ok d) by congruence.
  split; [by rewrite zip_with_sig_join_idem|]. split; [f_equal; apply zip_with_comm'; apply sig_join_comm|].
  split; [|eexists; split; [done|by apply sig_flags_join; congruence]].
  simpl. rewrite !signatures_merge_ok by (rewrite ?length_zip_with; lia). f_equal. apply zip_with_sig_join_assoc.
Qed.

(** In every round the block producers rotate: priorities are between -1
    and the maximum, two nodes never share a non-negative priority, and every
    priority below the number of candidates and of nodes is taken. *)
Theorem producers_rotate d (round : N) :
  desc_ok d →
  (∀ i, i < get_total_nodes d → ∃ p, get_node_priority d i round = Done p ∧ (-1 ≤ p ≤ Z.of_N (get_max_priority d))%Z) ∧
  (∀ i j p, i < get_total_nodes d → j < get_total_nodes d → (0 ≤ p)%Z →
     get_node_priority d i round = Done p → get_node_priority d j round = Done p → i = j) ∧
  (∀ p, p < round_candidates (options d) → p < get_total_nodes d →
     ∃ i, i < get_total_nodes d ∧ get_node_priority d i round = Done (Z.of_N p)).
Proof.
  intros Hd. split_and!.
  - intros i Hi. destruct (get_node_priority d i round) as [p|] eqn:E.
    + exists p. split; [done|]. by eapply get_node_priority_bound.
    + by rewrite get_node_priority_rotation in E.
  - intros i j p Hi Hj Hp. rewrite !get_node_priority_rotation by done.
    intros [= Hpi] [= Hpj]. eapply (rotation_inj d round); try done. repeat case_match; lia.
  - intros p Hp Hn. destruct (rotation_surj d round p Hd Hn) as (i & Hi & Hrot). exists i. split; [done|].
    rewrite get_node_priority_rotation by done. rewrite Hrot. by rewrite (proj2 (N.ltb_lt _ _) Hp).
Qed.

(** A description created for a list of nodes that contains the local one
    is well formed: total weight and two-thirds cutoff are computed without
    overflow, the sources are the nodes in order, and source indices and key
    hashes are inverse to each other. *)
Theorem description_new_ok opts nodes local_id :
  (∃ node, node ∈ nodes ∧ public_key_id (node_public_key node) = local_id) →
  N.of_nat (length nodes) < 2147483648 → sum_node_weight nodes * 2 < two64 →
  0 < round_candidates opts < 2147483646 →
  ∃ d, SessionDescription_new opts nodes local_id = Done d ∧ desc_ok d ∧
    options d = opts ∧ sources d = source_of_node <$> nodes ∧
    (∃ s, sources d !! N.to_nat (self_idx d) = Some s ∧ source_id s = local_id) ∧
    (∀ k i, get_source_index d k = Done i → get_source_public_key_hash d i = Done k).
Proof. apply new_ok. Qed.
End description_properties.

(** ** Concrete instances *)
#[local] Existing Instance demo.

Definition demo_round : RoundState := current_round demo_voted.
Definition demo_attempt : RoundAttemptState :=
  default (RoundAttemptState_create_empty demo_desc 1030) (find_key 1030 (attempt_list demo_round)).
Definition demo_vote_candidate : VoteCandidate :=
  {| vc_block := Some {| sb_candidate_id := demo_candidate; sb_source_id := 0; sb_root_hash := 7;
                         sb_file_hash := 8; sb_collated_data_file_hash := 9 |};
     voted_by := [true; true; true; false] |}.

Lemma demo_round_ok : round_ok demo_desc demo_round.
Proof. apply sok_round, demo_ok, demo_voted_reachable. Qed.
Lemma demo_precommitted_round_ok : round_ok demo_desc (current_round demo_precommitted).
Proof. apply sok_round, demo_ok, demo_precommitted_reachable. Qed.
Lemma demo_proposed_round_ok : round_ok demo_desc (current_round demo_proposed).
Proof. apply sok_round, demo_ok, demo_proposed_reachable. Qed.
Lemma demo_attempt_ok : attempt_ok demo_desc (sent_id demo_round) demo_attempt.
Proof. apply (round_attempt_ok demo_desc demo_round 1030 demo_attempt demo_round_ok). vm_compute. reflexivity. Qed.
Lemma demo_vote_list : vote_list demo_attempt = [demo_vote_candidate].
Proof. vm_compute. reflexivity. Qed.
Lemma demo_vote_elem : demo_vote_candidate ∈ vote_list demo_attempt.
Proof. rewrite demo_vote_list. set_solver. Qed.
Lemma demo_single_votes : single_votes demo_attempt.
Proof. intros i v1 v2. rewrite demo_vote_list. set_solver. Qed.

Definition demo_choice : option SentBlockPtr := Some (vc_block demo_vote_candidate).

Ltac demo_side :=
  first [ exact demo_desc_ok | exact demo_round_ok | exact demo_precommitted_round_ok | exact demo_proposed_round_ok
        | exact demo_attempt_ok | exact demo_vote_elem | exact demo_single_votes
        | vm_compute; reflexivity | vm_compute; lia | vm_compute; done ].

Lemma default_action_spec_witness :
  RoundAttemptState_apply_default_action demo_desc demo_attempt 3 1030 (RoundState_ops demo_round) = Done
    (match has_vote demo_attempt (N.to_nat 3), demo_choice with
     | false, Some b => (with_vote demo_desc demo_attempt b (N.to_nat 3), true)
     | _, _ =>
         match has_precommit demo_attempt (N.to_nat 3), voted_block demo_desc demo_attempt with
         | false, Some _ => (with_precommit demo_attempt (N.to_nat 3), true)
         | _, _ => (demo_attempt, false)
         end
     end).
Proof. apply (default_action_spec demo_desc (sent_id demo_round)); demo_side. Defined.

Lemma created_action_faithful_witness :
  let r := current_round demo_voted in
  let a := default (RoundAttemptState_create_empty demo_desc 1030) (find_key 1030 (attempt_list r)) in
  ∃ msg, SessionState_create_action demo_desc demo_voted 3 1030 = Done (Some msg) ∧
    get_round_id msg = rs_sequence_number r ∧
    (is_Some (precommitted_block r) → ∃ n k, msg = Empty n k) ∧
    (precommitted_block r = None → ∃ a',
       RoundAttemptState_apply_action demo_desc a 3 1030 msg (RoundState_ops r) = Done a' ∧
       match msg with
       | Vote _ _ candidate => ∃ b, SentBlock_get_id b = candidate ∧ a' = with_vote demo_desc a b (N.to_nat 3)
       | Precommit _ _ candidate =>
           ∃ b, voted_block demo_desc a = Some b ∧ SentBlock_get_id b = candidate ∧ a' = with_precommit a (N.to_nat 3)
       | Empty _ _ => a' = a
       | _ => False
       end).
Proof.
  apply (created_action_faithful demo_desc demo_voted 3 1030);
    first [apply demo_ok, demo_voted_reachable|unfold is_node; vm_compute; lia|demo_side].
Defined.

Lemma choose_blocks_to_approve_spec_witness :
  ∃ chosen (skip : bool),
    RoundState_choose_blocks_to_approve demo_desc demo_round 3
    = Done ((bc_block <$> chosen) ++ if skip then [None] else []) ∧
    (∀ c, c ∈ chosen ↔ approvable (N.to_nat 3) (sent_list demo_round) c) ∧
    StronglySorted (λ c1 c2, candidate_priority demo_desc demo_round c1 < candidate_priority demo_desc demo_round c2)%Z
      chosen ∧
    (skip = false ↔ ∃ c, c ∈ sent_list demo_round ∧ bc_block c = None ∧ approved_flags c !! N.to_nat 3 = Some true).
Proof. apply (choose_blocks_to_approve_spec demo_desc demo_round 3); demo_side. Defined.

Lemma votes_stay_single_witness : single_votes (with_vote demo_desc demo_attempt (vc_block demo_vote_candidate) 3).
Proof.
  apply (votes_stay_single demo_desc (sent_id demo_round) demo_attempt 3 1030 (RoundState_ops demo_round)
    demo_choice _ true); demo_side.
Defined.

Lemma one_voted_block_witness : demo_vote_candidate = demo_vote_candidate.
Proof. apply (one_voted_block demo_desc (sent_id demo_round) demo_attempt); demo_side. Defined.

(** The attempt that results from merging two branches in which nodes 0, 1 and 2
    voted for different blocks. *)
Definition demo_skip_attempt : RoundAttemptState :=
  default (RoundAttemptState_create_empty demo_desc 1030) (find_key 1030 (attempt_list (current_round demo_skip_voted))).
Definition demo_double_attempt : RoundAttemptState :=
  match merge demo_desc demo_attempt demo_skip_attempt with Done a => a | Panic => demo_attempt end.
Definition demo_skip_candidate : VoteCandidate := {| vc_block := None; voted_by := [true; true; true; false] |}.

Lemma demo_double_attempt_ok :
  attempt_ok demo_desc (λ k, sent_id demo_round k ∨ sent_id (current_round demo_skip_voted) k) demo_double_attempt.
Proof.
  destruct (attempt_merge_ok demo_desc (sent_id demo_round) (sent_id (current_round demo_skip_voted))
    demo_attempt demo_skip_attempt) as (m & Hm & Hok & _).
  - exact demo_desc_ok.
  - exact demo_attempt_ok.
  - apply (round_attempt_ok demo_desc (current_round demo_skip_voted) 1030).
    + apply sok_round, demo_ok, demo_skip_voted_reachable.
    + vm_compute. reflexivity.
  - reflexivity.
  - unfold demo_double_attempt. by rewrite Hm.
Qed.

Lemma demo_double_votes : vote_list demo_double_attempt = [demo_skip_candidate; demo_vote_candidate].
Proof. vm_compute. reflexivity. Qed.

Lemma double_voters_witness :
  total_weight demo_desc <
    3 * flag_weight (sources demo_desc) (zip_with andb (voted_by demo_skip_candidate) (voted_by demo_vote_candidate)).
Proof.
  apply (double_voters demo_desc (λ k, sent_id demo_round k ∨ sent_id (current_round demo_skip_voted) k)
    demo_double_attempt); first [exact demo_double_attempt_ok|rewrite demo_double_votes; set_solver|demo_side].
Defined.

Lemma lock_rule_witness :
  ∃ a b, RoundState_get_attempt (attempts (current_round demo_precommitted)) 1030 = Done (Some a) ∧
    RoundAttemptState_get_voted_block demo_desc a = Done (Some b) ∧
    RoundState_choose_block_to_vote demo_desc (current_round demo_precommitted) 0 1050 (Some None) = Done (Some b).
Proof.
  apply (lock_rule demo_desc (current_round demo_precommitted) 0 1050 (Some None) [1030; 1030; 1030; 0] 1030); demo_side.
Defined.

Lemma choose_block_to_vote_safe_witness :
  ∃ o, RoundState_choose_block_to_vote demo_desc demo_round 3 1030 None = Done o ∧
    ∀ b, o = Some b → ∃ c, RoundState_get_block demo_round (SentBlock_get_id b) = Some c.
Proof. apply (choose_block_to_vote_safe demo_desc demo_round 3 1030 None); [demo_side..|by intros b ?]. Defined.

Lemma generated_proposal_accepted_witness :
  let r := current_round demo_proposed in
  let a := default (RoundAttemptState_create_empty demo_desc 1034) (find_key 1034 (attempt_list r)) in
  ∃ c msg, RoundState_generate_vote_for demo_desc r 2 1034 77 = Done msg ∧ c ∈ sent_list r ∧
    BlockCandidate_check_block_is_approved demo_desc c = Done true ∧
    RoundAttemptState_apply_action demo_desc a 2 1034 msg (RoundState_ops r)
    = Done {| ra_sequence_number := ra_sequence_number a; votes := votes a;
              precommitted := precommitted a; vote_for := Some (bc_block c) |}.
Proof. apply (generated_proposal_accepted demo_desc (current_round demo_proposed) 2 1034 77); demo_side. Defined.

Lemma attempt_merge_keeps_votes_witness :
  ∃ m, merge demo_desc demo_attempt demo_attempt = Done m ∧
    attempt_ok demo_desc (λ k, sent_id demo_round k ∨ sent_id demo_round k) m ∧
    ra_sequence_number m = ra_sequence_number demo_attempt ∧ votes_grow demo_attempt m ∧ votes_grow demo_attempt m.
Proof.
  apply (attempt_merge_keeps_votes demo_desc (sent_id demo_round) (sent_id demo_round)); demo_side.
Defined.

Lemma round_merge_safe_witness :
  ∃ m, merge demo_desc demo_round (current_round demo_precommitted) = Done m ∧ round_ok demo_desc m ∧
    rs_sequence_number m = rs_sequence_number demo_round ∧
    rs_signatures m = zip_with sig_join (rs_signatures demo_round) (rs_signatures (current_round demo_precommitted)).
Proof. apply (round_merge_safe demo_desc demo_round (current_round demo_precommitted)); demo_side. Defined.

Lemma weight_checks_exact_witness :
  VoteCandidate_check_block_is_voted demo_desc demo_vote_candidate
  = Done (cutoff_weight demo_desc <=? flag_weight (sources demo_desc) (voted_by demo_vote_candidate)).
Proof. destruct (weight_checks_exact demo_desc demo_desc_ok) as (_ & Hv & _). apply Hv. reflexivity. Defined.

Lemma demo_attempts_sorted : key_sorted (default [] (attempts demo_round)).
Proof. rewrite <- attempt_list_default. apply (rok_att_sorted _ _ demo_round_ok). Qed.

Lemma get_attempt_lookup_witness :
  RoundState_get_attempt (attempts demo_round) 1030 = Done (find_key 1030 (default [] (attempts demo_round))).
Proof. apply (get_attempt_lookup (attempts demo_round) 1030), demo_attempts_sorted. Defined.

Lemma sorted_push_spec_witness :
  ∃ l, SortedVector_push (attempts demo_round) demo_attempt = Done (Some l) ∧ key_sorted l ∧
    ∀ k, find_key k l = if sort_key demo_attempt =? k then Some demo_attempt
                        else find_key k (default [] (attempts demo_round)).
Proof. apply (sorted_push_spec (attempts demo_round) demo_attempt), demo_attempts_sorted. Defined.

Lemma sorted_merge_spec_witness :
  let w0 := attempts demo_round in
  ∃ w, SortedVectorWrapper_merge (merge demo_desc) pool_ptr_eq w0 w0 = Done w ∧ key_sorted (default [] w) ∧
    ∀ k, merged_key (merge demo_desc) (find_key k (default [] w0)) (find_key k (default [] w0)) (find_key k (default [] w)).
Proof.
  apply (sorted_merge_spec (merge demo_desc) (attempts demo_round) (attempts demo_round)).
  - apply RoundAttemptState_merge_keeps_key.
  - apply RoundAttemptState_merge_idem.
  - apply demo_attempts_sorted.
  - apply demo_attempts_sorted.
  - intros x y Hx Hy _. assert (Hl : default [] (attempts demo_round) = [demo_attempt]) by (vm_compute; reflexivity).
    rewrite Hl in Hx, Hy. apply list_elem_of_singleton in Hx as ->, Hy as ->.
    exists demo_attempt. apply RoundAttemptState_merge_idem.
Defined.

Lemma signatures_merge_semilattice_witness :
  let a := [None; BlockCandidateSignature_create [1]; None; None] in
  let b := [BlockCandidateSignature_create [3]; BlockCandidateSignature_create [0; 5]; None; None] in
  signatures_merge demo_desc a a = Done a ∧ signatures_merge demo_desc a b = signatures_merge demo_desc b a ∧
  (ab ← signatures_merge demo_desc a b; signatures_merge demo_desc ab b)
    = (bc ← signatures_merge demo_desc b b; signatures_merge demo_desc a bc) ∧
  ∃ ab, signatures_merge demo_desc a b = Done ab ∧ sig_flags ab = zip_with orb (sig_flags a) (sig_flags b).
Proof.
  apply (signatures_merge_semilattice demo_desc
    [None; BlockCandidateSignature_create [1]; None; None]
    [BlockCandidateSignature_create [3]; BlockCandidateSignature_create [0; 5]; None; None]
    [BlockCandidateSignature_create [3]; BlockCandidateSignature_create [0; 5]; None; None]); reflexivity.
Defined.

Lemma producers_rotate_witness : ∃ i, i < get_total_nodes demo_desc ∧ get_node_priority demo_desc i 5 = Done 2%Z.
Proof. destruct (producers_rotate demo_desc 5 demo_desc_ok) as (_ & _ & H). apply (H 2); reflexivity. Defined.

Lemma description_new_ok_witness :
  ∃ d, SessionDescription_new SessionOptions_default demo_nodes 11 = Done d ∧ desc_ok d ∧
    options d = SessionOptions_default ∧ sources d = source_of_node <$> demo_nodes ∧
    (∃ s, sources d !! N.to_nat (self_idx d) = Some s ∧ source_id s = 11) ∧
    (∀ k i, get_source_index d k = Done i → get_source_public_key_hash d i = Done k).
Proof.
  apply (description_new_ok SessionOptions_default demo_nodes 11).
  - exists (demo_node 11). split; [set_solver|done].
  - reflexivity.
  - reflexivity.
  - split; reflexivity.
Defined.

Definition demo_candidate_ptr : BlockCandidate :=
  default (BlockCandidate_create_unapproved demo_desc None)
    (RoundState_get_block (current_round demo_proposed) demo_candidate).

Lemma demo_candidate_sent : demo_candidate_ptr ∈ sent_list (current_round demo_proposed).
Proof. apply (find_key_Some demo_candidate). vm_compute. reflexivity. Qed.

Lemma early_proposal_accepted_witness :
  let r := current_round demo_proposed in
  let a := RoundAttemptState_create_empty demo_desc 1033 in
  RoundState_check_need_generate_vote_for demo_desc r 1 1033 ≠ Done true ∧
  RoundAttemptState_apply_vote_for_action demo_desc a 1 1033 (BlockCandidate_get_id demo_candidate_ptr) (RoundState_ops r)
  = Done {| ra_sequence_number := ra_sequence_number a; votes := votes a;
            precommitted := precommitted a; vote_for := Some (bc_block demo_candidate_ptr) |}.
Proof.
  apply (early_proposal_accepted demo_desc (current_round demo_proposed)
    (RoundAttemptState_create_empty demo_desc 1033) demo_candidate_ptr 1 1033 1030);
    first [exact demo_candidate_sent|demo_side].
Defined.
