(* ===== verification/SupportTheorems.v ===== *)
(** * Properties of the supporting components

    The catchain view of a source (received and delivered heights, forks and
    blame), the object caches, the slashing counters and the packing of flag
    vectors, with concrete instances. *)

From S2P Require Import Prelude ReceivedBlock ReceiverSource Cache Slashing VectorHash.

Section source_properties.
Context (serialize_fork : BlockDep * BlockDep → list N).
Implicit Types (self : ReceiverSource) (heap : BlockHeap) (receiver : Receiver).

(** A new block of a source that has no fork proof is either recorded at
    its height or, when another block with a different hash is known there,
    turns into a fork proof: two dependencies of the same source and height with
    different payload hashes; the source is blamed and the proof is queued for
    delivery.  The source stays well formed in both cases. *)
Theorem new_block_or_fork heap self (ref : N) block receiver :
  source_ok heap self → heap_hashes heap → heap !! ref = Some block → rb_source_id block = rsrc_id self →
  (0 ≤ rb_height block ≤ i32_max)%Z → fork_proof self = None →
  (∀ b, ReceiverSource_get_block heap self (rb_height block) = Some b → rb_hash b ≠ rb_hash block) →
  ∃ self' receiver',
    ReceiverSource_process_new_block serialize_fork heap self ref receiver = Done (self', receiver') ∧
    source_ok heap self' ∧
    (ReceiverSource_get_block heap self (rb_height block) = None →
       ReceiverSource_get_block heap self' (rb_height block) = Some block ∧ blamed self' = blamed self) ∧
    (∀ b, ReceiverSource_get_block heap self (rb_height block) = Some b →
       blamed self' = true ∧
       (∃ l r, fork_proof self' = Some (l, r) ∧ dep_src l = dep_src r ∧ dep_height l = dep_height r ∧
          dep_data_hash l ≠ dep_data_hash r) ∧
       length (pending_blocks receiver') = S (length (pending_blocks receiver))).
Proof.
  intros Hs Hh Href Hsrc Hheight Hp Hnew.
  destruct (process_new_block_ok serialize_fork heap self ref block receiver) as (self' & receiver' & H & Hok & H1 & H2);
    try done.
  exists self', receiver'. split; [done|]. split; [done|]. split; [auto|]. intros b Hb.
  destruct (H2 Hp b Hb) as (Hbl & Hfp & Hpend). split; [done|]. split.
  - eexists _, _. split; [exact Hfp|]. destruct (src_proof _ _ Hok _ _ Hfp) as (? & ? & ? & _). done.
  - rewrite Hpend, length_app. simpl. lia.
Qed.

(** After a block of an unblamed source was initialised (delivered), the
    received (delivered) height is the end of the contiguous run of initialised
    (delivered) blocks: the loop terminates, the height never decreases, every
    height passed is ready or is the one reported, and the next one is not ready. *)
Theorem heights_contiguous heap self (height : Z) :
  source_ok heap self → blamed self = false → is_Some (blocks self !! height) →
  (∃ self', ReceiverSource_block_received (S (size (blocks self))) heap self height = Some self' ∧
    source_ok heap self' ∧ (received_height self ≤ received_height self')%Z ∧
    (∀ x, (received_height self < x ≤ received_height self')%Z →
       x = height ∨ ready_at heap self ReceivedBlock_is_initialized x) ∧
    ~ ready_at heap self ReceivedBlock_is_initialized (received_height self' + 1)) ∧
  (∃ self', ReceiverSource_block_delivered (S (size (blocks self))) heap self height = Some self' ∧
    source_ok heap self' ∧ (delivered_height self ≤ delivered_height self')%Z ∧
    (∀ x, (delivered_height self < x ≤ delivered_height self')%Z →
       x = height ∨ ready_at heap self ReceivedBlock_is_delivered x) ∧
    ~ ready_at heap self ReceivedBlock_is_delivered (delivered_height self' + 1)).
Proof.
  intros Hs Hb Hh. split; [by apply block_received_ok|]. apply block_delivered_ok; [done|done|].
  by apply (src_heights _ _ Hs).
Qed.

(** [has_unreceived] never fails its assertion on an unblamed source, and
    tells whether a block above the received height is known. *)
Theorem has_unreceived_spec heap self :
  source_ok heap self → blamed self = false →
  ∃ b, ReceiverSource_has_unreceived heap self = Done b ∧
    (b = true ↔ ∃ h, is_Some (blocks self !! h) ∧ (received_height self < h)%Z).
Proof. apply has_unreceived_ok. Qed.

(** A second fork blames the source, fork identifiers are fresh, and the
    assertions of [add_fork] hold. *)
Theorem add_fork_spec heap self receiver :
  source_ok heap self → total_forks receiver + 1 < two64 →
  ∃ self' receiver', ReceiverSource_add_fork self receiver = Done (self', receiver', total_forks receiver + 1) ∧
    source_ok heap self' ∧ fork_ids self' = fork_ids self ++ [total_forks receiver + 1] ∧
    total_forks receiver' = total_forks receiver + 1 ∧
    (fork_ids self ≠ [] → blamed self' = true) ∧ (fork_ids self = [] → blamed self' = blamed self).
Proof. apply add_fork_ok. Qed.

(** Blaming records the smallest height reported for the fork and leaves
    the heights of the other forks alone. *)
Theorem blame_records_minimum heap self (fork : N) (height : Z) receiver :
  source_ok heap self →
  ∃ self' receiver', ReceiverSource_blame self fork height receiver = Done (self', receiver') ∧
    source_ok heap self' ∧ blamed self' = true ∧
    blamed_at self' (N.to_nat fork) = blame_min (blamed_at self (N.to_nat fork)) height ∧
    (∀ j : nat, j ≠ N.to_nat fork → blamed_at self' j = blamed_at self j).
Proof. apply blame_ok. Qed.
End source_properties.

Section cache_properties.
Context `{CO : CacheObject}.

(** Creating an object through the caches never fails its assertion,
    returns an object equal to the requested one, in the requested pool or in
    the persistent one, and keeps the caches well formed; a persistent object is
    shared: creating it again, in either pool, returns the same object and does
    not change the caches. *)
Theorem create_object_spec (cache : SessionCache) k (value : Obj k) pool :
  cache_ok cache →
  ∃ ptr cache', create_object k value pool cache = Done (ptr, cache') ∧ cache_ok cache' ∧
    ptr_value k ptr = value ∧ (ptr_pool k ptr = pool ∨ ptr_pool k ptr = Persistent) ∧
    (pool = Persistent → ∀ pool', create_object k value pool' cache' = Done (ptr, cache')).
Proof.
  intros Hok. destruct (create_object_ok cache k value pool Hok) as (ptr & cache' & Hc & ? & ? & ?).
  exists ptr, cache'. do 4 (split; [done|]). intros ->. by apply (create_persistent_shared cache).
Qed.
End cache_properties.

Section fifo_properties.
Context {Key : Type} `{Countable Key} {Value : Type}.

(** Flushing the FIFO cache, in any iteration order of the hash map, only
    drops expired items, adds none, and either leaves at least
    [min_flush_size - 1] items or drops at most one. *)
Theorem flush_spec (self : @FifoCache Key _ _ Value) (now : N) order :
  order ≡ₚ map_to_list (items self) →
  let self' := FifoCache_flush self now order in
  (∀ k item, items self' !! k = Some item → items self !! k = Some item) ∧
  (∀ k item, items self !! k = Some item → items self' !! k = None → expired self now item) ∧
  (min_flush_size self ≤ N.of_nat (size (items self')) + 1 ∨ (size (items self) ≤ size (items self') + 1)%nat).
Proof. apply flush_ok. Qed.
End fifo_properties.

(** Merging validator statistics does not depend on the iteration order of
    the hash map: it is the union of the two maps, common entries being merged
    metric by metric. *)
Theorem statistics_merge_union {PublicKey} (self other : gmap N (@Node PublicKey)) order :
  order ≡ₚ map_to_list other →
  ValidatorStat_merge self order = stat_union self other ∧
  ∀ k n1 n2 m, self !! k = Some n1 → other !! k = Some n2 → node_ok n1 → node_ok n2 →
    ∃ n, ValidatorStat_merge self order !! k = Some n ∧ metric_of n m = u64_add (metric_of n1 m) (metric_of n2 m).
Proof.
  intros Hord. rewrite (ValidatorStat_merge_union self other order Hord). split; [done|].
  intros k n1 n2 m H1 H2 Hn1 Hn2. exists (Node_merge n1 n2).
  split; [unfold stat_union; by rewrite lookup_union_with, H1, H2|]. by apply Node_merge_metric.
Qed.

(** The buffer hashed for a flag vector is computed without an index out of
    range, has the length rounded up to 32 bits, holds every flag at its bit and
    zeros after, so vectors of the same length are packed injectively. *)
Theorem flag_packing data :
  ∃ buffer, bool_vector_buffer data = Done buffer ∧
    N.of_nat (length buffer) * 8 = bool_elements_count (N.of_nat (length data)) ∧
    (∀ k b, data !! k = Some b → packed_bit buffer (N.of_nat k) = b) ∧
    (∀ j, N.of_nat (length data) ≤ j → packed_bit buffer j = false) ∧
    (∀ data', length data' = length data → bool_vector_buffer data' = Done buffer → data' = data).
Proof.
  destruct (bool_vector_buffer_ok data) as (buf & H & Hl & Hd & Ho). exists buf. split; [done|].
  do 3 (split; [done|]). intros data' Hlen H'. by eapply bool_vector_buffer_inj.
Qed.

(** ** Concrete instances *)
Definition demo_block (state : ReceivedBlockState) (height : Z) (hash : N) : ReceivedBlock :=
  ReceivedBlock_with_id state 0 hash (hash + 1000) 3 height [hash].

(** Blocks 1 and 2 of source 3, and another block at height 2. *)
Definition demo_heap : BlockHeap :=
  {[ 1 := demo_block Delivered 1 71; 2 := demo_block Initialized 2 72; 5 := demo_block Null 2 75 ]}.

Definition demo_source : ReceiverSource :=
  {| rsrc_id := 3; blamed := false; blocks := {[ 1%Z := 1; 2%Z := 2 ]}; delivered_height := 0;
     received_height := 1; fork_proof := None; fork_proof_serialized := None; fork_ids := [4];
     blamed_heights := [] |}.

Definition demo_receiver : Receiver := {| total_forks := 4; blame_notifications := []; pending_blocks := [] |}.
Definition demo_serialize (p : BlockDep * BlockDep) : list N := [dep_data_hash p.1; dep_data_hash p.2].

Lemma demo_source_ok : source_ok demo_heap demo_source.
Proof.
  split; simpl; try (unfold i32_max; lia); try done.
  - intros h ref [[<- <-]|[_ [<- <-]%lookup_singleton_Some]]%lookup_insert_Some; (eexists; split; [reflexivity|done]).
  - intros h [ref [[<- _]|[_ [<- _]%lookup_singleton_Some]]%lookup_insert_Some]; unfold i32_max; lia.
Qed.

Lemma demo_heap_lookup ref b : demo_heap !! ref = Some b →
  b = demo_block Delivered 1 71 ∨ b = demo_block Initialized 2 72 ∨ b = demo_block Null 2 75.
Proof.
  unfold demo_heap. intros [[_ <-]|[_ [[_ <-]|[_ [_ <-]%lookup_singleton_Some]]%lookup_insert_Some]]%lookup_insert_Some;
    auto.
Qed.

Lemma demo_heap_hashes : heap_hashes demo_heap.
Proof.
  intros r1 r2 b1 b2 H1 H2. apply demo_heap_lookup in H1 as [->|[->| ->]], H2 as [->|[->| ->]]; simpl; lia.
Qed.

Lemma new_block_or_fork_witness :
  ∃ self' receiver',
    ReceiverSource_process_new_block demo_serialize demo_heap demo_source 5 demo_receiver = Done (self', receiver') ∧
    source_ok demo_heap self' ∧
    (ReceiverSource_get_block demo_heap demo_source 2 = None →
       ReceiverSource_get_block demo_heap self' 2 = Some (demo_block Null 2 75) ∧ blamed self' = blamed demo_source) ∧
    (∀ b, ReceiverSource_get_block demo_heap demo_source 2 = Some b →
       blamed self' = true ∧
       (∃ l r, fork_proof self' = Some (l, r) ∧ dep_src l = dep_src r ∧ dep_height l = dep_height r ∧
          dep_data_hash l ≠ dep_data_hash r) ∧
       length (pending_blocks receiver') = S (length (pending_blocks demo_receiver))).
Proof.
  apply (new_block_or_fork demo_serialize demo_heap demo_source 5 (demo_block Null 2 75) demo_receiver).
  - exact demo_source_ok.
  - exact demo_heap_hashes.
  - reflexivity.
  - reflexivity.
  - simpl. unfold i32_max. lia.
  - reflexivity.
  - intros b Hb. vm_compute in Hb. injection Hb as <-. done.
Defined.

Lemma heights_contiguous_witness :
  (∃ self', ReceiverSource_block_received (S (size (blocks demo_source))) demo_heap demo_source 2 = Some self' ∧
    source_ok demo_heap self' ∧ (received_height demo_source ≤ received_height self')%Z ∧
    (∀ x, (received_height demo_source < x ≤ received_height self')%Z →
       x = 2%Z ∨ ready_at demo_heap demo_source ReceivedBlock_is_initialized x) ∧
    ~ ready_at demo_heap demo_source ReceivedBlock_is_initialized (received_height self' + 1)) ∧
  (∃ self', ReceiverSource_block_delivered (S (size (blocks demo_source))) demo_heap demo_source 2 = Some self' ∧
    source_ok demo_heap self' ∧ (delivered_height demo_source ≤ delivered_height self')%Z ∧
    (∀ x, (delivered_height demo_source < x ≤ delivered_height self')%Z →
       x = 2%Z ∨ ready_at demo_heap demo_source ReceivedBlock_is_delivered x) ∧
    ~ ready_at demo_heap demo_source ReceivedBlock_is_delivered (delivered_height self' + 1)).
Proof. apply (heights_contiguous demo_heap demo_source 2); [exact demo_source_ok|done|by exists 2]. Defined.

Lemma has_unreceived_spec_witness :
  ∃ b, ReceiverSource_has_unreceived demo_heap demo_source = Done b ∧
    (b = true ↔ ∃ h, is_Some (blocks demo_source !! h) ∧ (received_height demo_source < h)%Z).
Proof. apply (has_unreceived_spec demo_heap demo_source); [exact demo_source_ok|done]. Defined.

Lemma add_fork_spec_witness :
  ∃ self' receiver', ReceiverSource_add_fork demo_source demo_receiver
      = Done (self', receiver', total_forks demo_receiver + 1) ∧
    source_ok demo_heap self' ∧ fork_ids self' = fork_ids demo_source ++ [total_forks demo_receiver + 1] ∧
    total_forks receiver' = total_forks demo_receiver + 1 ∧
    (fork_ids demo_source ≠ [] → blamed self' = true) ∧ (fork_ids demo_source = [] → blamed self' = blamed demo_source).
Proof. apply (add_fork_spec demo_heap demo_source demo_receiver); [exact demo_source_ok|reflexivity]. Defined.

Lemma blame_records_minimum_witness :
  ∃ self' receiver', ReceiverSource_blame demo_source 4 9 demo_receiver = Done (self', receiver') ∧
    source_ok demo_heap self' ∧ blamed self' = true ∧
    blamed_at self' (N.to_nat 4) = blame_min (blamed_at demo_source (N.to_nat 4)) 9 ∧
    (∀ j : nat, j ≠ N.to_nat 4 → blamed_at self' j = blamed_at demo_source j).
Proof. apply (blame_records_minimum demo_heap demo_source 4 9 demo_receiver), demo_source_ok. Defined.

(** Two kinds of objects: numbers, hashed by value, and flags, which collide. *)
Definition demo_obj (k : bool) : Type := if k then N else bool.
Definition demo_hash (k : bool) : demo_obj k → N :=
  match k return demo_obj k → N with true => λ x, x | false => λ _, 7 end.
Definition demo_compare (k : bool) : demo_obj k → demo_obj k → bool :=
  match k return demo_obj k → demo_obj k → bool with true => N.eqb | false => Bool.eqb end.

#[refine] Definition demo_objects : CacheObject := {|
  Kind := bool; Obj := demo_obj; get_hash := demo_hash; compare := demo_compare |}.
Proof.
  - intros [] x y; [apply N.eqb_eq|apply Bool.eqb_prop].
  - intros [] x; [apply N.eqb_refl|apply eqb_reflx].
Defined.

Definition demo_cache : @SessionCache demo_objects :=
  {| persistent_objects_cache := ∅; temp_objects_cache := ∅ |}.

Lemma demo_cache_ok : cache_ok demo_cache.
Proof. split; intros i e; simpl; by rewrite lookup_empty. Qed.

Lemma create_object_spec_witness :
  ∃ ptr cache', create_object (CO := demo_objects) true 42 Persistent demo_cache = Done (ptr, cache') ∧ cache_ok cache' ∧
    ptr_value (CO := demo_objects) true ptr = 42 ∧
    (ptr_pool (CO := demo_objects) true ptr = Persistent ∨ ptr_pool (CO := demo_objects) true ptr = Persistent) ∧
    (Persistent = Persistent →
       ∀ pool', create_object (CO := demo_objects) true 42 pool' cache' = Done (ptr, cache')).
Proof. apply (create_object_spec demo_cache true 42 Persistent), demo_cache_ok. Defined.

Definition demo_fifo : @FifoCache N _ _ bool :=
  {| items := {[ 1 := (true, 10); 2 := (false, 95) ]}; min_flush_size := 1; expiration_time := 60 |}.

Lemma flush_spec_witness :
  let self' := FifoCache_flush demo_fifo 100 (map_to_list (items demo_fifo)) in
  (∀ k item, items self' !! k = Some item → items demo_fifo !! k = Some item) ∧
  (∀ k item, items demo_fifo !! k = Some item → items self' !! k = None → expired demo_fifo 100 item) ∧
  (min_flush_size demo_fifo ≤ N.of_nat (size (items self')) + 1 ∨
   (size (items demo_fifo) ≤ size (items self') + 1)%nat).
Proof. apply (flush_spec demo_fifo 100 (map_to_list (items demo_fifo))). reflexivity. Defined.

(** The configured minimum is not a lower bound: two items, a minimum of two, and
    the expired one is dropped. *)
Lemma flush_below_minimum :
  let self := {| items := {[ 1 := (true, 10); 2 := (false, 95) ]} : gmap N (bool * N);
                 min_flush_size := 2; expiration_time := 60 |} in
  size (items (FifoCache_flush self 100 (map_to_list (items self)))) = 1%nat.
Proof. vm_compute. reflexivity. Qed.

Definition demo_stat : gmap N (@Node N) := {[ 5 := {| sn_public_key := 5; metrics := [1; 2; 3; 4; 5; 6; 7; 8] |} ]}.

Lemma statistics_merge_union_witness :
  ValidatorStat_merge demo_stat (map_to_list demo_stat) = stat_union demo_stat demo_stat ∧
  ∀ k n1 n2 m, demo_stat !! k = Some n1 → demo_stat !! k = Some n2 → node_ok n1 → node_ok n2 →
    ∃ n, ValidatorStat_merge demo_stat (map_to_list demo_stat) !! k = Some n ∧
      metric_of n m = u64_add (metric_of n1 m) (metric_of n2 m).
Proof. apply (statistics_merge_union demo_stat demo_stat (map_to_list demo_stat)). reflexivity. Defined.
