(* ===== verification/CatchainTheorems.v ===== *)
(** * Properties of the catchain receiver *)

From S2P Require Import Prelude ReceivedBlock ReceiverSource BlockGraph BlockGraphFacts BlockInitialize BlockDelivery Catchain BlockValidation.

(** ** A concrete receiver

    Four sources; identifiers are hashed to numbers in base 1000, the signature
    [[1]] is valid and payloads are not fork proofs. *)
#[local] Instance demo_external : CatchainExternal := {|
  CatchainKey := N;
  key_id := λ k, k;
  get_hash_of_bytes := λ l, foldl (λ a x, a * 10 + x) 0 l;
  get_block_id_hash := λ id, bid_src id * 1000000 + Z.to_N (bid_height id) * 1000 + bid_data_hash id;
  verify_block_id := λ _ _ s, bool_decide (s = [1]);
  sign_block_id := λ _, Some [1];
  read_data := λ _, None;
  serialize_fork := λ p, [dep_data_hash p.1; dep_data_hash p.2];
|}.

Definition demo_cfg : ReceiverConfig :=
  {| cfg_incarnation := 99; cfg_max_deps := 4; cfg_source_keys := [11; 12; 13; 14]; cfg_local_idx := 0;
     cfg_allow_unsafe_self_blocks_resync := false; cfg_warn_enabled := false |}.

Definition demo_root : BlockDep := {| dep_src := 4; dep_data_hash := 99; dep_height := 0; dep_signature := [] |}.
Definition demo_dep (src height : Z) (data : N) : BlockDep :=
  {| dep_src := src; dep_data_hash := data; dep_height := height; dep_signature := [1] |}.
Definition demo_blk (src height : Z) (prev : BlockDep) (deps : list BlockDep) : Block :=
  {| blk_incarnation := 99; blk_src := src; blk_height := height; blk_prev := prev; blk_deps := deps;
     blk_signature := [1] |}.

Definition demo_get (o : outcome (Result N * ReceiverWorld)) : ReceiverWorld :=
  match o with Done (_, w) => w | Panic => Receiver_new demo_cfg end.
Definition demo_run (o : option (outcome ReceiverWorld)) : ReceiverWorld :=
  match o with Some (Done w) => w | _ => Receiver_new demo_cfg end.
Definition demo_id (src height : Z) (data : N) : BlockId :=
  {| bid_incarnation := 99; bid_src := 11 + Z.to_N src; bid_height := height; bid_data_hash := data |}.

(** Source 2 sends a block that depends on blocks of the sources 1 and 3, then
    source 1 its block; both are written and the second is delivered. *)
Definition demo_w1 : ReceiverWorld := Eval vm_compute in
  demo_get (receive_block demo_cfg (Receiver_new demo_cfg)
    (demo_blk 2 1 demo_root [demo_dep 1 1 5; demo_dep 3 1 7]) [6]).
Definition demo_w2 : ReceiverWorld := Eval vm_compute in
  demo_run (block_written_to_db demo_cfg 0 demo_w1 (demo_id 2 1 6)).
Definition demo_w3 : ReceiverWorld := Eval vm_compute in
  demo_get (receive_block demo_cfg demo_w2 (demo_blk 1 1 demo_root []) [5]).
Definition demo_w4 : ReceiverWorld := Eval vm_compute in
  demo_run (block_written_to_db demo_cfg 5 demo_w3 (demo_id 1 1 5)).

Lemma demo_w1_reachable : catchain_reachable demo_cfg demo_w1.
Proof.
  eapply catchain_next; [apply catchain_init|].
  eapply (step_receive_block _ _ (demo_blk 2 1 demo_root [demo_dep 1 1 5; demo_dep 3 1 7]) [6]). vm_compute. reflexivity.
Qed.

Lemma demo_w3_reachable : catchain_reachable demo_cfg demo_w3.
Proof.
  eapply (catchain_next _ demo_w2).
  - eapply (catchain_next _ demo_w1); [apply demo_w1_reachable|].
    eapply (step_block_written _ _ 0 (demo_id 2 1 6)); [vm_compute; reflexivity|vm_compute; reflexivity|done|].
    vm_compute. reflexivity.
  - eapply (step_receive_block _ _ (demo_blk 1 1 demo_root []) [5]). vm_compute. reflexivity.
Qed.

Lemma demo_step : catchain_step demo_cfg demo_w3 demo_w4.
Proof.
  eapply (step_block_written _ _ 5 (demo_id 1 1 5)); [vm_compute; reflexivity|vm_compute; reflexivity|done|].
  vm_compute. reflexivity.
Qed.

Section properties.
Context {X : CatchainExternal} (cfg : ReceiverConfig).
Implicit Types (w : ReceiverWorld) (block : Block) (payload : list N) (b : ReceivedBlock).

(** C13: delivery is causal and exactly once: in every reachable state there is an
    order of the delivered blocks, without repetitions, in which every block comes
    after its predecessor and all its dependencies (the root apart), and the
    events reported to the listener are those blocks in that order; and no step
    takes an event back. *)
Theorem catchain_causal_delivery w w' :
  cfg_max_deps cfg + 1 < two64 → catchain_reachable cfg w → catchain_step cfg w w' →
  rw_new_blocks w `prefix_of` rw_new_blocks w' ∧
  ∃ order : list N, NoDup order ∧
    (∀ r, r ∈ order ↔ r ≠ rw_root_block w' ∧ ∃ b, rw_heap w' !! r = Some b ∧ rb_state b = Delivered) ∧
    Forall2 (event_of (rw_heap w')) order (rw_new_blocks w') ∧
    ∀ i r b x, order !! i = Some r → rw_heap w' !! r = Some b → x ∈ parents b →
      x = rw_root_block w' ∨ ∃ j, (j < i)%nat ∧ order !! j = Some x.
Proof.
  intros Hmax Hw Hstep. destruct (catchain_reachable_ok cfg w Hmax Hw) as [HI Hlog].
  destruct (catchain_step_ok cfg w w' Hmax HI Hlog Hstep) as (_ & (order & [H1 H2 H3 H4]) & Hpre).
  split; [done|]. exists order. split_and!; try done. intros r. rewrite H2, delivered_at_Some. done.
Qed.

(** C14: the bookkeeping of dependencies in every reachable state: a block that
    waits counts exactly its undelivered parents and each of them knows it; it
    runs as soon as the count is zero and it is written; a delivered block other
    than the root has only delivered parents. *)
Theorem catchain_dependencies w r b :
  cfg_max_deps cfg + 1 < two64 → catchain_reachable cfg w → rw_heap w !! r = Some b →
  (rb_state b = Initialized →
     rb_pending_deps b = N.of_nat (length (filter (λ x, delivered_at (rw_heap w) x = false) (parents b))) ∧
     (∀ x, x ∈ parents b → ∃ p, rw_heap w !! x = Some p ∧ (rb_state p ≠ Delivered → r ∈ rb_rev_deps p)) ∧
     (rb_pending_deps b = 0 → rb_in_db b = true → r ∈ rw_blocks_to_run w)) ∧
  (rb_state b = Delivered → r ≠ rw_root_block w → is_Some (rb_prev b) ∧
     ∀ x, x ∈ parents b → ∃ p, rw_heap w !! x = Some p ∧ rb_state p = Delivered).
Proof.
  intros Hmax Hw Hb. destruct (catchain_reachable_ok cfg w Hmax Hw) as [HI _]. split.
  - intros Hs. pose proof (gr_cell _ _ _ _ _ _ _ _ _ HI r b ltac:(set_solver) Hb) as Hok. unfold cell_ok in Hok.
    rewrite Hs in Hok. destruct Hok as (_ & _ & Hpe & Hrev & _). split_and!.
    + rewrite Hpe. f_equal. unfold occ. simpl. rewrite Nat.add_0_r. done.
    + intros x Hx. destruct (gr_closed _ _ _ _ _ _ _ _ _ HI r b x Hb Hx) as [p Hp]. exists p. split; [done|].
      intros Hd. assert (Hdel : delivered_at (rw_heap w) x = false).
      { unfold delivered_at. rewrite Hp. by apply delivered_false. }
      apply occ_pos in Hx. rewrite <- (Hrev x Hdel) in Hx. apply occ_pos in Hx. unfold rev_at in Hx. by rewrite Hp in Hx.
    + intros Hz Hdb. eapply gr_ready; [exact HI|set_solver|done..].
  - intros Hs Hr. destruct (delivered_cell w r b HI Hb Hs) as [[? _]|(_ & Hp & Hall & _)]; [done|]. split; [done|].
    intros x Hx. by apply delivered_at_Some, Hall.
Qed.

(** The fork heights of a delivered block are exact: they bound the height of
    every delivered ancestor on its fork, and every positive entry is the height
    of an ancestor on that fork. *)
Theorem catchain_fork_heights w r b :
  cfg_max_deps cfg + 1 < two64 → catchain_reachable cfg w → rw_heap w !! r = Some b → rb_state b = Delivered →
  (∀ a c, ancestor (rw_heap w) r a → rw_heap w !! a = Some c → a ≠ rw_root_block w →
     (rb_height c ≤ default 0 (rb_forks_dep_heights b !! N.to_nat (rb_fork_id c)))%Z) ∧
  (∀ fork h, rb_forks_dep_heights b !! fork = Some h → (0 < h)%Z →
     ∃ a c, ancestor (rw_heap w) r a ∧ rw_heap w !! a = Some c ∧ N.to_nat (rb_fork_id c) = fork ∧ rb_height c = h).
Proof.
  intros Hmax Hw Hb Hs. destruct (catchain_reachable_ok cfg w Hmax Hw) as [HI (order & Hlog)].
  assert (Hd : delivered_at (rw_heap w) r = true) by (apply delivered_at_Some; eauto).
  assert (Hck : ∀ j, clock_at (rw_heap w) r j = clock b j).
  { intros j. unfold clock_at. by rewrite Hb, (proj2 (delivered_true b)). }
  split.
  - intros a c Ha Hc Hne. destruct (ancestor_delivered w r a HI Ha Hd) as [Hda Hle].
    apply delivered_at_Some in Hda as (c' & Hc' & Hsc). rewrite Hc in Hc'. injection Hc' as <-.
    destruct (delivered_cell w a c HI Hc Hsc) as [[? _]|(_ & _ & _ & Hcc)]; [done|].
    specialize (Hle (N.to_nat (rb_fork_id c))). rewrite Hck in Hle. unfold clock_at in Hle.
    rewrite Hc, (proj2 (delivered_true c)) in Hle by done. rewrite Hcc in Hle. unfold own_clock in Hle.
    rewrite decide_True in Hle by done. unfold clock in Hle. lia.
  - intros fork h Hh Hpos. assert (Hc : clock b fork = h) by (unfold clock; by rewrite Hh).
    destruct (decide (r = rw_root_block w)) as [->|Hne].
    { destruct (gr_root _ _ _ _ _ _ _ _ _ HI) as (c & Hrc & _ & _ & Hf). simplify_eq. by rewrite Hf in Hh. }
    assert (r ∈ order) as [i Hi]%list_elem_of_lookup by (by apply (dl_all _ _ _ _ Hlog)).
    destruct (clock_attained w order i r fork HI Hlog Hi) as (a & c & ? & ? & ? & Hhc & _); [rewrite Hck; lia|].
    exists a, c. split_and!; [done..|]. by rewrite Hhc, Hck.
Qed.

(** C16: the scheduler terminates: from a reachable state it needs at most as many
    iterations as there are queued blocks and blocks in memory. *)
Theorem catchain_scheduler_terminates w fuel :
  cfg_max_deps cfg + 1 < two64 → catchain_reachable cfg w →
  (length (rw_blocks_to_run w) + size (rw_heap w) ≤ fuel)%nat →
  ∃ o, run_scheduler cfg fuel w = Some o.
Proof.
  intros Hmax Hw Hf. destruct (catchain_reachable_ok cfg w Hmax Hw) as [HI Hlog].
  destruct (run_scheduler_inv cfg fuel w HI Hlog) as (o & Ho & _); [|eauto].
  unfold load. pose proof (load_stuck_size w). lia.
Qed.

(** C15: nothing that can be delivered is left behind: when the scheduler has
    returned, every written block whose parents are all delivered has been
    delivered or refused as ill. *)
Theorem catchain_scheduler_progress w fuel w' r b :
  cfg_max_deps cfg + 1 < two64 → catchain_reachable cfg w → run_scheduler cfg fuel w = Some (Done w') →
  rw_heap w' !! r = Some b → rb_in_db b = true → rb_state b ≠ Null →
  (∀ x, x ∈ parents b → delivered_at (rw_heap w') x = true) →
  rb_state b = Delivered ∨ rb_state b = Ill.
Proof.
  intros Hmax Hw Hrun Hb Hdb Hn Hall. destruct (catchain_reachable_ok cfg w Hmax Hw) as [HI Hlog].
  destruct (run_scheduler_done cfg _ _ _ HI Hlog Hrun) as (HI' & _ & Hq & _).
  destruct (rb_state b) eqn:Hs; [done|by right| |by left].
  destruct (idle_waits w' r b HI' Hq Hb Hs Hdb) as (x & Hx & Hd). rewrite Hall in Hd; done.
Qed.

(** Validation of an incoming block never panics once the source number of
    the block is known to be in range, and accepts exactly the valid blocks: the
    incarnation, the position in the chain of the source, at most one dependency
    per other source, and signatures of everything that is not known yet. *)
Theorem catchain_validation w block payload :
  NoDup (key_id <$> cfg_source_keys cfg) → block_i32 block →
  ∃ v, validate_block_with_payload cfg w block payload = Done v ∧ (v = true ↔ valid_block cfg w block payload).
Proof. intros Hkeys. by apply validate_spec. Qed.

(** A synchronisation requests at most sixteen blocks, all of them referenced
    by known blocks but not received yet, and delivers nothing. *)
Theorem catchain_synchronize_bounds w source_id hashes w' :
  synchronize_pending_deps w source_id = Done (hashes, w') →
  (length hashes ≤ 16)%nat ∧ rw_new_blocks w' = rw_new_blocks w ∧
  ∀ hash, hash ∈ hashes → ∃ r b, rw_heap w' !! r = Some b ∧ rb_state b = Null ∧ rb_hash b = hash.
Proof.
  intros H. destruct (synchronize_inv w source_id hashes w' H) as (_ & Hq & Hlen & Hall).
  split_and!; [done|apply (q_log _ _ Hq)|]. by apply list.Forall_forall.
Qed.

(** The identifier of an incoming block is computed before the block is
    validated, so a message whose source number is out of range stops the
    receiver instead of being refused. *)
Theorem receive_block_source_out_of_range w block payload :
  N.of_nat (length (cfg_source_keys cfg)) <= src_index (blk_src block) → receive_block cfg w block payload = Panic.
Proof.
  intros Hlen. unfold receive_block, Receiver_get_block_id, Receiver_get_source_public_key_hash, index.
  rewrite lookup_ge_None_2 by lia. done.
Qed.

(** A block that names the root among its dependencies passes validation (the
    root is a valid dependency), but stops the receiver before it is delivered:
    the root has no source. *)
Theorem root_dependency_panics B w self b prev deps :
  rw_heap w !! self = Some b → rb_state b = Initialized → rb_prev b = Some prev →
  rb_block_deps b = rw_root_block w :: deps →
  rb_source_id <$> rw_heap w !! rw_root_block w = Some (N.of_nat (length (rw_sources w))) →
  valid_dep cfg w {| dep_src := sources_count cfg; dep_data_hash := cfg_incarnation cfg; dep_height := 0;
                     dep_signature := [] |} ∧
  ReceivedBlock_pre_deliver cfg B w self = Panic.
Proof.
  intros Hb Hs Hp Hd Hroot. split; [left; done|]. unfold ReceivedBlock_pre_deliver, self_block. rewrite Hb.
  cbn [unwrap mbind outcome_bind]. rewrite bool_decide_eq_false_2 by congruence. rewrite bool_decide_eq_true_2 by done.
  cbn [assert_that mbind outcome_bind]. destruct (rb_pending_deps b =? 0); [|done]. destruct (rb_in_db b); [|done].
  cbn [assert_that mbind outcome_bind]. destruct (index (rw_sources w) (rb_source_id b)); [|done]. run. rewrite Hp, Hd.
  destruct (borrow_block_mut B w prev) as [p|]; [|done]. run. cbn [check_dependencies].
  destruct (self_block w self) as [?|]; [|done]. run. destruct (self_block w prev); [|done]. run.
  unfold borrow_block. destruct (assert_that _); [|done]. run. unfold self_block.
  destruct (rw_heap w !! rw_root_block w) as [c|] eqn:Ec; [|done]. cbn [unwrap mbind outcome_bind].
  injection Hroot as Hroot. unfold borrow_source_mut, index. rewrite lookup_ge_None_2 by lia. done.
Qed.

Lemma warn_with_prev_held B prev : cfg_warn_enabled cfg = true → warn_with_prev cfg (hold_block_mut prev B) prev = Panic.
Proof.
  intros Hw. unfold warn_with_prev. rewrite Hw. unfold assert_that. rewrite bool_decide_eq_false_2; [done|].
  simpl. set_solver.
Qed.

(** With warnings enabled no block is ever found ill for its dependencies: the
    message of the warning borrows the predecessor while it is mutably borrowed,
    so the check stops the receiver whenever it would refuse a dependency. *)
Theorem refused_dependency_panics B w self prev deps w' :
  cfg_warn_enabled cfg = true →
  check_dependencies cfg (hold_block_mut prev B) w self prev deps ≠ Done (true, w').
Proof.
  intros Hw. induction deps as [|dep deps IH]; cbn [check_dependencies]; [done|]. intros H.
  do 4 outcome_step H. destruct (check_dependency _ _ _) as [[]|]; [| | |by apply IH];
    rewrite warn_with_prev_held in H by done; done.
Qed.
End properties.

(** ** Instances *)
Lemma demo_max_deps : cfg_max_deps demo_cfg + 1 < two64.
Proof. done. Qed.

Lemma catchain_causal_delivery_witness :
  (nb_hash <$> rw_new_blocks demo_w4) = [12001005] ∧ rw_new_blocks demo_w3 `prefix_of` rw_new_blocks demo_w4.
Proof.
  split; [reflexivity|].
  exact (proj1 (catchain_causal_delivery demo_cfg demo_w3 demo_w4 demo_max_deps demo_w3_reachable demo_step)).
Defined.

Definition demo_block2 : ReceivedBlock := Eval vm_compute in default ReceivedBlock_new (rw_heap demo_w3 !! 1).

Lemma catchain_dependencies_witness :
  rb_state demo_block2 = Initialized ∧ rb_pending_deps demo_block2 = 2 ∧
  rb_pending_deps demo_block2 =
    N.of_nat (length (filter (λ x, delivered_at (rw_heap demo_w3) x = false) (parents demo_block2))).
Proof.
  split; [reflexivity|]. split; [reflexivity|].
  refine (proj1 (proj1 (catchain_dependencies demo_cfg demo_w3 1 demo_block2 demo_max_deps demo_w3_reachable _) _)).
  - vm_compute. reflexivity.
  - reflexivity.
Defined.

Lemma demo_w4_reachable : catchain_reachable demo_cfg demo_w4.
Proof. eapply catchain_next; [apply demo_w3_reachable|apply demo_step]. Qed.

Definition demo_block1 : ReceivedBlock := Eval vm_compute in default ReceivedBlock_new (rw_heap demo_w4 !! 2).

Lemma catchain_fork_heights_witness :
  rb_forks_dep_heights demo_block1 = [0%Z; 1%Z] ∧
  ∃ a c, ancestor (rw_heap demo_w4) 2 a ∧ rw_heap demo_w4 !! a = Some c ∧ N.to_nat (rb_fork_id c) = 1%nat ∧
    rb_height c = 1%Z.
Proof.
  split; [reflexivity|].
  refine (proj2 (catchain_fork_heights demo_cfg demo_w4 2 demo_block1 demo_max_deps demo_w4_reachable _ _) 1%nat 1%Z _ _);
    try (vm_compute; reflexivity).
Defined.

Lemma catchain_scheduler_terminates_witness :
  ∃ o, run_scheduler demo_cfg 10 demo_w4 = Some o.
Proof.
  apply (catchain_scheduler_terminates demo_cfg demo_w4 10 demo_max_deps demo_w4_reachable). vm_compute. lia.
Defined.

Lemma catchain_scheduler_progress_witness :
  rb_state demo_block1 = Delivered ∨ rb_state demo_block1 = Ill.
Proof.
  apply (catchain_scheduler_progress demo_cfg demo_w4 0 demo_w4 2 demo_block1 demo_max_deps demo_w4_reachable);
    [vm_compute; reflexivity|vm_compute; reflexivity|reflexivity|discriminate|].
  intros x. change (parents demo_block1) with [0]. intros Hx. apply list_elem_of_singleton in Hx as ->. reflexivity.
Defined.

Lemma demo_keys : NoDup (key_id <$> cfg_source_keys demo_cfg).
Proof. apply (bool_decide_unpack _). reflexivity. Qed.

Lemma catchain_validation_witness :
  ∃ v, validate_block_with_payload demo_cfg demo_w3 (demo_blk 3 1 demo_root [demo_dep 2 1 6]) [8] = Done v ∧
    (v = true ↔ valid_block demo_cfg demo_w3 (demo_blk 3 1 demo_root [demo_dep 2 1 6]) [8]).
Proof.
  apply (catchain_validation demo_cfg demo_w3 _ [8] demo_keys).
  unfold block_i32, dep_i32, i32, i32_max. simpl. split_and!; try lia. constructor; [|constructor]. simpl. lia.
Defined.

Definition demo_sync : list N := Eval vm_compute in
  match synchronize_pending_deps demo_w2 2 with Done (l, _) => l | Panic => [] end.

Definition demo_synced : ReceiverWorld := Eval vm_compute in
  match synchronize_pending_deps demo_w2 2 with Done (_, w) => w | Panic => demo_w2 end.

Lemma catchain_synchronize_bounds_witness : demo_sync = [12001005; 14001007] ∧ (length demo_sync ≤ 16)%nat.
Proof.
  split; [reflexivity|]. refine (proj1 (catchain_synchronize_bounds demo_w2 2 demo_sync demo_synced _)).
  vm_compute. reflexivity.
Defined.

Lemma receive_block_source_out_of_range_witness :
  receive_block demo_cfg demo_w3 (demo_blk 4 1 demo_root []) [5] = Panic.
Proof. apply (receive_block_source_out_of_range demo_cfg demo_w3 (demo_blk 4 1 demo_root []) [5]). vm_compute. congruence. Defined.

(** A block whose only dependency is the root is accepted and then stops the
    receiver. *)
Definition demo_rooted : ReceiverWorld := Eval vm_compute in
  match receive_block demo_cfg demo_w4 (demo_blk 3 1 demo_root [demo_root]) [7] with
  | Done (Ok r, w) => match mark_block_written w 14001007 with Done w => w | Panic => demo_w4 end
  | _ => demo_w4
  end.

Lemma root_dependency_panics_witness :
  run_scheduler demo_cfg 5 demo_rooted = Some Panic ∧
  ReceivedBlock_pre_deliver demo_cfg (hold_block_mut 3 no_borrows) demo_rooted 3 = Panic.
Proof.
  split; [vm_compute; reflexivity|].
  apply (root_dependency_panics demo_cfg (hold_block_mut 3 no_borrows) demo_rooted 3
    (default ReceivedBlock_new (rw_heap demo_rooted !! 3)) 0 []); vm_compute; reflexivity.
Defined.

(** The same receiver with warnings enabled. *)
Definition demo_warn_cfg : ReceiverConfig :=
  {| cfg_incarnation := 99; cfg_max_deps := 4; cfg_source_keys := [11; 12; 13; 14]; cfg_local_idx := 0;
     cfg_allow_unsafe_self_blocks_resync := false; cfg_warn_enabled := true |}.

(** Receive a block, write it and run the scheduler. *)
Definition demo_accept (cfg : ReceiverConfig) (w : ReceiverWorld) (block : Block) (payload : list N)
  : option (Result N * ReceiverWorld) :=
  match receive_block cfg w block payload with
  | Done (Ok r, w) =>
      match mark_block_written w (default 0 (rb_hash <$> rw_heap w !! r)) with
      | Done w => match run_scheduler cfg 10 w with Some (Done w) => Some (Ok r, w) | _ => None end
      | Panic => None
      end
  | Done (Err, w) => Some (Err, w)
  | Panic => None
  end.

Definition demo_world (o : option (Result N * ReceiverWorld)) : ReceiverWorld :=
  match o with Some (_, w) => w | None => Receiver_new demo_cfg end.

(** Source 1 sends two blocks, the second depends on a block of source 2; its third
    block depends on the same block again. *)
Definition demo_x2 : ReceiverWorld := Eval vm_compute in
  let w := demo_world (demo_accept demo_cfg demo_w4 (demo_blk 3 1 demo_root []) [7]) in
  demo_world (demo_accept demo_cfg w (demo_blk 1 2 (demo_dep 1 1 5) [demo_dep 2 1 6]) [1]).
Definition demo_x3_received : ReceiverWorld := Eval vm_compute in
  match receive_block demo_cfg demo_x2 (demo_blk 1 3 (demo_dep 1 2 1) [demo_dep 2 1 6]) [2] with
  | Done (Ok r, w) => match mark_block_written w 12003002 with Done w => w | Panic => demo_w4 end
  | _ => demo_w4
  end.

Lemma refused_dependency_panics_witness :
  check_dependencies demo_cfg (hold_block_mut 4 (hold_block_mut 5 no_borrows)) demo_x3_received 5 4 [1] ≠ Panic ∧
  check_dependencies demo_warn_cfg (hold_block_mut 4 (hold_block_mut 5 no_borrows)) demo_x3_received 5 4 [1]
    ≠ Done (true, demo_x3_received).
Proof.
  split; [by vm_compute|].
  by apply (refused_dependency_panics demo_warn_cfg (hold_block_mut 5 no_borrows) demo_x3_received 5 4 [1] demo_x3_received).
Defined.

(** The third block is refused and its source blamed.  Its successor is refused
    too, but stays among the blocks of the source and not among the known ones:
    receiving it again fails an assertion. *)
Definition demo_x3 : ReceiverWorld := Eval vm_compute in demo_run (run_scheduler demo_cfg 10 demo_x3_received).
Definition demo_x4 : ReceiverWorld := Eval vm_compute in
  demo_get (receive_block demo_cfg demo_x3 (demo_blk 1 4 (demo_dep 1 3 2) []) [3]).

Lemma refused_block_received_twice :
  receive_block demo_cfg demo_x3 (demo_blk 1 4 (demo_dep 1 3 2) []) [3] = Done (Err, demo_x4) ∧
  receive_block demo_cfg demo_x4 (demo_blk 1 4 (demo_dep 1 3 2) []) [3] = Panic.
Proof. split; vm_compute; reflexivity. Qed.

(** A block of source 2 waits for the third block: the refused block turns it ill
    while source 2 is mutably borrowed by the check. *)
Definition demo_y2 : ReceiverWorld := Eval vm_compute in
  demo_world (demo_accept demo_cfg demo_x2 (demo_blk 2 2 (demo_dep 2 1 6) [demo_dep 1 3 2]) [4]).
Definition demo_y3 : ReceiverWorld := Eval vm_compute in
  match receive_block demo_cfg demo_y2 (demo_blk 1 3 (demo_dep 1 2 1) [demo_dep 2 1 6]) [2] with
  | Done (Ok r, w) => match mark_block_written w 12003002 with Done w => w | Panic => demo_w4 end
  | _ => demo_w4
  end.

Lemma refused_block_with_dependent : run_scheduler demo_cfg 10 demo_y3 = Some Panic.
Proof. vm_compute. reflexivity. Qed.

(** Two blocks that depend on each other. *)
Definition demo_c1 : ReceiverWorld := Eval vm_compute in
  demo_world (demo_accept demo_cfg (Receiver_new demo_cfg) (demo_blk 1 1 demo_root [demo_dep 2 1 6]) [5]).
Definition demo_c2 : ReceiverWorld := Eval vm_compute in
  demo_world (demo_accept demo_cfg demo_c1 (demo_blk 2 1 demo_root [demo_dep 1 1 5]) [6]).

(** The dependencies of a block are not part of its identifier, so two valid
    blocks can depend on each other: both are accepted, none is ever delivered,
    and the search for missing blocks borrows the first one twice. *)
Theorem cyclic_dependencies_panic :
  demo_accept demo_cfg (Receiver_new demo_cfg) (demo_blk 1 1 demo_root [demo_dep 2 1 6]) [5] = Some (Ok 1, demo_c1) ∧
  demo_accept demo_cfg demo_c1 (demo_blk 2 1 demo_root [demo_dep 1 1 5]) [6] = Some (Ok 2, demo_c2) ∧
  ancestor (rw_heap demo_c2) 1 2 ∧ ancestor (rw_heap demo_c2) 2 1 ∧ rw_new_blocks demo_c2 = [] ∧
  synchronize_pending_deps demo_c2 1 = Panic.
Proof.
  split_and!; try (vm_compute; reflexivity).
  - eapply anc_parent; [vm_compute; reflexivity| |apply anc_refl]. vm_compute. set_solver.
  - eapply anc_parent; [vm_compute; reflexivity| |apply anc_refl]. vm_compute. set_solver.
Qed.
