(* ===== verification/CoreTheorems.v ===== *)
(** * Theorems about the catchain processor

    Requests never stop the processor; blocks reach the session once and in causal
    order; own blocks refer to every chosen block once; top blocks after a delivery, a
    choice and a blame. *)

From S2P Require Import Prelude ReceivedBlock CatchainCore CatchainUpdate CatchainRun CatchainSteps.

Section properties.
Context {R : RandomDraws}.
Implicit Types (self : CatchainProcessor) (block b p x : CatchainBlock) (now : N).

(** C17: whatever the receiver delivers and the session asks for, the processor goes on:
    every legal request (a new block has known dependencies, a block is created only
    when one was asked for) of a reachable processor returns, whatever is drawn; no
    assertion, missing description or index stops it and no loop runs forever. *)
Theorem requests_never_panic options sources self r :
  reach options sources self → legal self r → ∃ self', handle self r = Done self' ∧ reach options sources self'.
Proof.
  intros H G. destruct (handle_spec self r (reach_inv _ _ _ H) G) as (self' & E & _). exists self'. split; [done|]. by eapply reach_handle.
Qed.

(** C18: in every reachable processor the session has preprocessed every block at most
    once and after its predecessor and all its dependencies; and a block it was given
    to build on was preprocessed before and is given only once. *)
Theorem session_sees_causal_order options sources self :
  reach options sources self →
  NoDup (cb_hash <$> preprocessed_log (cp_events self))
  ∧ (∀ l1 x l2 p, preprocessed_log (cp_events self) = l1 ++ x :: l2 → p ∈ parents x → p ∈ l1)
  ∧ NoDup (cb_hash <$> chosen_log (cp_events self))
  ∧ ∀ e1 bs e2 x, cp_events self = e1 ++ ProcessBlocks bs :: e2 → x ∈ bs → x ∈ preprocessed_log e1.
Proof. intros H. destruct (ci_log _ (reach_inv _ _ _ H)) as [[L1 L2] _ L3 _ L4]. done. Qed.

(** C19: the blocks this node creates refer to the blocks that were chosen: unless
    created blocks are skipped, the dependencies of the created blocks, followed by
    those of the block that is being created, are all chosen blocks in order, each
    exactly once. *)
Theorem chosen_blocks_referred_once options sources self :
  reach options sources self → co_skip_processed_blocks (cp_options self) = false →
  added_log (cp_events self) ++ cp_process_deps self = cb_hash <$> chosen_log (cp_events self)
  ∧ NoDup (added_log (cp_events self) ++ cp_process_deps self).
Proof.
  intros H S. pose proof (reach_inv _ _ _ H) as I. pose proof (fi_deps _ (ci_flow _ I) S) as E. rewrite E. split; [done|]. apply I.
Qed.

(** The delivery of a block: it is registered with its parents; unless its source is
    blamed, exactly the blocks below it that were not preprocessed yet are preprocessed
    (so its own comes last of them) and it replaces its parents among the top blocks;
    a blamed source only hides its predecessor. *)
Theorem new_block_delivered options sources self now source_id fork_id hash height prev deps heights payload blamed :
  reach options sources self → legal self (OnNewBlock now source_id fork_id hash height prev deps heights payload) →
  cp_blamed_sources self !! N.to_nat source_id = Some blamed →
  ∃ self' bs, let block := new_block self source_id fork_id hash height prev heights payload bs in
    on_new_block self now source_id fork_id hash height prev deps heights payload = Done self'
    ∧ Forall2 (λ dep b, cp_blocks self !! dep = Some b) deps bs
    ∧ cp_blocks self' = <[hash := block]> (cp_blocks self)
    ∧ (∀ h, cp_top_blocks self' !! h = tops_after self blamed source_id hash prev deps block h)
    ∧ ∃ l, cp_events self' = cp_events self ++ (PreprocessBlock <$> l)
      ∧ ∀ x, x ∈ l ↔ blamed = false ∧ below x block ∧ marked bd_preprocessed self x = false.
Proof.
  intros H G B. destruct (on_new_block_spec self now source_id fork_id hash height prev deps heights payload (reach_inv _ _ _ H) G blamed B)
    as (self' & bs & E & _ & F). exists self', bs. by split.
Qed.

(** The blocks a new block is built on: at most [max_deps] different top blocks of
    good sources, all top blocks of good sources when they are fewer; they are no top
    blocks any more, and exactly they and the blocks below them become processed. *)
Theorem dependencies_chosen options sources self n :
  reach options sources self → cp_receiver_started self = true → cp_active_process self = false →
  ∃ self' bs, send_process_attempt n self = Done self' ∧ cp_active_process self' = true
    ∧ cp_process_deps self' = cb_hash <$> bs ∧ cp_events self' = cp_events self ++ [ProcessBlocks bs]
    ∧ NoDup (cb_hash <$> bs) ∧ N.of_nat (length bs) <= co_max_deps (cp_options self)
    ∧ (∀ b, b ∈ bs → cp_top_blocks self !! cb_hash b = Some b ∧ cp_top_blocks self' !! cb_hash b = None
         ∧ cp_blamed_sources self !! N.to_nat (cb_source_id b) = Some false)
    ∧ (N.of_nat (length bs) = co_max_deps (cp_options self)
       ∨ ∀ h b, cp_top_blocks self !! h = Some b → cp_blamed_sources self !! N.to_nat (cb_source_id b) = Some false → b ∈ bs)
    ∧ ∀ x, known self x → is_processed self' x = true ↔ is_processed self x = true ∨ ∃ b, b ∈ bs ∧ below x b.
Proof.
  intros H S A. destruct (attempt_spec n self (reach_inv _ _ _ H) S) as (self' & E & I' & C). rewrite A in C.
  destruct C as (bs & self1 & -> & C & L1 & L2). exists (chosen self1 bs), bs. pose proof (ch_frame _ _ _ C) as Fr.
  split_and!; [done|by rewrite Fr|done|by rewrite Fr|apply C|done|apply C| |apply C].
  destruct L2 as [T|?]; [right|by left]. intros h b Hb Bl. destruct (ch_left _ _ _ C h b Hb) as [Hl|[?|Bl']]; [|done|].
  - rewrite T in Hl. by rewrite lookup_empty in Hl.
  - simpl in Bl'. congruence.
Qed.

(** After a source is blamed the top blocks are exactly the last blocks of the
    other good sources that are not processed and that no good source refers to; to
    blame a source again changes nothing. *)
Theorem blame_recomputes_tops options sources self source_id blamed :
  reach options sources self → cp_blamed_sources self !! N.to_nat source_id = Some blamed →
  ∃ self', on_blame self source_id = Done self' ∧ (blamed = true → self' = self)
    ∧ (blamed = false → cp_blamed_sources self' = <[N.to_nat source_id := true]> (cp_blamed_sources self)
        ∧ cp_events self' = cp_events self
        ∧ ∀ h b, cp_top_blocks self' !! h = Some b ↔ ∃ i, is_top self' i b ∧ cb_hash b = h).
Proof.
  intros H B. destruct (on_blame_spec self source_id blamed (reach_inv _ _ _ H) B) as (self' & E & _ & F). by exists self'.
Qed.
End properties.

(** ** Instances *)
Lemma first_draw_ok (n : N) (m : gmap N CatchainBlock) : m ≠ ∅ → ∃ hash, head (map_to_list m).*1 = Some hash ∧ is_Some (m !! hash).
Proof.
  intros Ne. destruct (map_to_list m) as [|[h b] l] eqn:E; [by apply map_to_list_empty_iff in E|].
  exists h. split; [done|]. exists b. apply elem_of_map_to_list. rewrite E. apply list_elem_of_here.
Qed.
#[local] Instance first_draw : RandomDraws := {| draw n m := head (map_to_list m).*1; draw_ok := first_draw_ok |}.

Definition core_get (o : outcome CatchainProcessor) (self : CatchainProcessor) : CatchainProcessor := match o with Done s => s | Panic => self end.
Definition core_sources : list N := [11; 22; 33].
Definition core_s0 : CatchainProcessor := Eval vm_compute in
  core_get (CatchainProcessor_create CatchainOptions_default 0 core_sources 22)
    {| cp_options := CatchainOptions_default; cp_receiver_started := false; cp_next_block_generation_time := 0; cp_blocks := ∅;
       cp_block_descs := ∅; cp_top_blocks := ∅; cp_top_source_blocks := []; cp_sources := []; cp_blamed_sources := []; cp_process_deps := [];
       cp_local_idx := 0; cp_force_process := false; cp_active_process := false; cp_current_extra_id := 0; cp_events := [] |}.
Definition core_r1 : Request := OnNewBlock 5 0 0 101 1 900 [] [1%Z] [7].
Definition core_r2 : Request := OnNewBlock 6 2 1 301 1 900 [101] [1%Z; 1%Z] [8].
Definition core_r3 : Request := OnNewBlock 7 0 0 102 2 101 [] [2%Z] [9].
Definition core_s1 : CatchainProcessor := Eval vm_compute in core_get (handle core_s0 core_r1) core_s0.
Definition core_s2 : CatchainProcessor := Eval vm_compute in core_get (handle core_s1 core_r2) core_s1.
Definition core_s3 : CatchainProcessor := Eval vm_compute in core_get (handle core_s2 core_r3) core_s2.
Definition core_s4 : CatchainProcessor := Eval vm_compute in core_get (handle core_s3 (OnStarted 0)) core_s3.
Definition core_s5 : CatchainProcessor := Eval vm_compute in core_get (handle core_s4 (OnProcessedBlock 1 9 [5])) core_s4.

Ltac core_legal := split_and!; [vm_compute; reflexivity|vm_compute; reflexivity| |vm_compute; reflexivity].
Lemma core_s0_reach : reach CatchainOptions_default core_sources core_s0.
Proof. apply (reach_create _ _ 0 22). vm_compute. reflexivity. Qed.
Lemma core_r1_legal : legal core_s0 core_r1.
Proof. core_legal. intros dep H. by apply elem_of_nil in H. Qed.
Lemma core_s1_reach : reach CatchainOptions_default core_sources core_s1.
Proof. apply (reach_handle _ _ core_s0 core_r1); [apply core_s0_reach|apply core_r1_legal|vm_compute; reflexivity]. Qed.
Lemma core_r2_legal : legal core_s1 core_r2.
Proof. core_legal. intros dep ->%list_elem_of_singleton. vm_compute. by eexists. Qed.
Lemma core_s2_reach : reach CatchainOptions_default core_sources core_s2.
Proof. apply (reach_handle _ _ core_s1 core_r2); [apply core_s1_reach|apply core_r2_legal|vm_compute; reflexivity]. Qed.
Lemma core_r3_legal : legal core_s2 core_r3.
Proof. core_legal. intros dep H. by apply elem_of_nil in H. Qed.
Lemma core_s3_reach : reach CatchainOptions_default core_sources core_s3.
Proof. apply (reach_handle _ _ core_s2 core_r3); [apply core_s2_reach|apply core_r3_legal|vm_compute; reflexivity]. Qed.
Lemma core_s4_reach : reach CatchainOptions_default core_sources core_s4.
Proof. apply (reach_handle _ _ core_s3 (OnStarted 0)); [apply core_s3_reach|vm_compute; reflexivity|vm_compute; reflexivity]. Qed.
Lemma core_s5_reach : reach CatchainOptions_default core_sources core_s5.
Proof. apply (reach_handle _ _ core_s4 (OnProcessedBlock 1 9 [5])); [apply core_s4_reach|split; vm_compute; reflexivity|vm_compute; reflexivity]. Qed.

Lemma requests_never_panic_witness : ∃ self', handle core_s2 core_r3 = Done self' ∧ reach CatchainOptions_default core_sources self'.
Proof. apply requests_never_panic; [apply core_s2_reach|apply core_r3_legal]. Defined.

Lemma session_sees_causal_order_witness :
  cb_hash <$> preprocessed_log (cp_events core_s5) = [101; 301; 102] ∧ NoDup (cb_hash <$> preprocessed_log (cp_events core_s5)).
Proof. split; [vm_compute; reflexivity|]. apply (session_sees_causal_order CatchainOptions_default core_sources). apply core_s5_reach. Defined.

Lemma chosen_blocks_referred_once_witness :
  added_log (cp_events core_s5) = [102; 301] ∧ added_log (cp_events core_s5) ++ cp_process_deps core_s5 = cb_hash <$> chosen_log (cp_events core_s5).
Proof.
  split; [vm_compute; reflexivity|]. apply (chosen_blocks_referred_once CatchainOptions_default core_sources); [apply core_s5_reach|reflexivity].
Defined.

Lemma new_block_delivered_witness :
  ∃ self' bs, on_new_block core_s1 6 2 1 301 1 900 [101] [1%Z; 1%Z] [8] = Done self'
    ∧ cp_blocks self' = <[301 := new_block core_s1 2 1 301 1 900 [1%Z; 1%Z] [8] bs]> (cp_blocks core_s1).
Proof.
  destruct (new_block_delivered CatchainOptions_default core_sources core_s1 6 2 1 301 1 900 [101] [1%Z; 1%Z] [8] false)
    as (self' & bs & E & _ & B & _); [apply core_s1_reach|apply core_r2_legal|reflexivity|]. exists self', bs. split; [exact E|exact B].
Defined.

Definition core_r6 : Request := OnNewBlock 12 2 1 302 2 301 [102] [2%Z; 2%Z] [3].
Definition core_s6 : CatchainProcessor := Eval vm_compute in core_get (handle core_s5 core_r6) core_s5.
Lemma core_s6_reach : reach CatchainOptions_default core_sources core_s6.
Proof.
  apply (reach_handle _ _ core_s5 core_r6); [apply core_s5_reach| |vm_compute; reflexivity].
  core_legal. intros dep ->%list_elem_of_singleton. vm_compute. by eexists.
Qed.

Lemma dependencies_chosen_witness :
  (size (cp_top_blocks core_s6) = 1)%nat ∧ ∃ self' bs, send_process_attempt 3 core_s6 = Done self' ∧ cp_process_deps self' = cb_hash <$> bs.
Proof.
  split; [vm_compute; reflexivity|].
  destruct (dependencies_chosen CatchainOptions_default core_sources core_s6 3) as (self' & bs & E & _ & D & _);
    [apply core_s6_reach|reflexivity|reflexivity|]. exists self', bs. split; [exact E|exact D].
Defined.

Lemma blame_recomputes_tops_witness : ∃ self', on_blame core_s3 0 = Done self' ∧ cp_blamed_sources self' = [true; false; false].
Proof.
  destruct (blame_recomputes_tops CatchainOptions_default core_sources core_s3 0 false) as (self' & E & _ & H); [apply core_s3_reach|reflexivity|].
  exists self'. split; [exact E|]. apply H. reflexivity.
Defined.
