(* ===== verification/ProcessorTheorems.v ===== *)
(** * Theorems about the session processor

    Rounds are reported once and in order, commits are for decided blocks, the loop that
    creates actions ends unless the clock steps back, and the announced actions are those
    that were applied. *)

From S2P Require Import Prelude SessionDescription Vectors Candidates RoundAttempt Round RoundFacts SessionState SessionFacts SessionSafety ReceivedBlock CatchainCore Slashing Actions SessionProcessor SessionChecks SessionBlocks SessionFrames SessionActions SessionRun SessionReports SessionInvariant Concrete.

Section properties.
Context {X : External} {E : SessionExternal} (d : SessionDescription).
Implicit Types (self : SessionProcessor) (s : SessionState) (c : Clock).

(** C9: in every run in which the merged states agree on what is decided, the processor
    is in the round of its real state, and what it has told the listener are exactly the
    finished rounds of that state: one report for each, in the order of the rounds, with
    the hashes of the committed block or as skipped. *)
Theorem commits_reported_in_order self :
  desc_ok d → is_node d (self_idx d) → processor_run d self → calm self →
  sp_current_round self = get_current_round_sequence_number (real_state self)
  ∧ reports (sp_events self) = finished (real_state self)
  ∧ length (reports (sp_events self)) = N.to_nat (sp_current_round self).
Proof.
  intros Hd Hi R C. pose proof (run_ok d Hd Hi self R C) as P. split; [apply P|]. split; [apply P|].
  rewrite (po_reports _ _ P), finished_length, (po_round _ _ P). destruct (po_real _ _ P) as (Hs & _). unfold get_current_round_sequence_number.
  by rewrite (sok_count _ _ Hs), Nat2N.id.
Qed.

(** C10: in such a run all commits that this node announces for a round name the same
    candidate, and when the round is over this is the candidate that was reported: the
    node never signs two blocks of a round, nor a block that is not the one reported. *)
Theorem commits_name_reported_block self (u1 u2 : BlockUpdate) (round : Z) (id1 id2 : N) (sig1 sig2 : list N) :
  desc_ok d → is_node d (self_idx d) → processor_run d self → calm self →
  u1 ∈ own_updates (sp_events self) → u2 ∈ own_updates (sp_events self) →
  Commit round id1 sig1 ∈ bu_actions u1 → Commit round id2 sig2 ∈ bu_actions u2 →
  id1 = id2 ∧ ∀ block, reports (sp_events self) !! N.to_nat (i32_as_u32 round) = Some block →
    ∃ b, SentBlock_get_id b = id1 ∧ block = (i32_as_u32 round, (λ b, (sb_root_hash b, sb_file_hash b)) <$> b).
Proof.
  intros Hd Hi R C H1 H2 M1 M2. pose proof (run_ok d Hd Hi self R C) as P. pose proof (po_commits _ _ P) as Hc. rewrite Forall_forall in Hc.
  pose proof (proj1 (Forall_forall _ _) (Hc u1 (proj1 (list_elem_of_In _ _) H1)) _ (proj1 (list_elem_of_In _ _) M1)) as (b1 & D1 & I1).
  pose proof (proj1 (Forall_forall _ _) (Hc u2 (proj1 (list_elem_of_In _ _) H2)) _ (proj1 (list_elem_of_In _ _) M2)) as (b2 & D2 & I2).
  rewrite D1 in D2. injection D2 as <-. split; [congruence|]. intros block Hb. exists b1. split; [done|].
  rewrite (po_reports _ _ P) in Hb. unfold finished in Hb. rewrite list_lookup_imap in Hb. destruct (old_list _ !! _) as [o|] eqn:Ho; [|done].
  rewrite (decided_old _ _ _ Ho) in D1. injection D1 as <-. simpl in Hb. injection Hb as <-. unfold finished_round. by rewrite N2Nat.id.
Qed.

(** C12: the loop that creates the messages of a new block ends: when the attempt is not
    behind the clock that the state has for this node, at most four messages are created,
    the last of them the only empty one, and four turns are enough. *)
Theorem actions_terminate self c blocks ms (att : N) self1 :
  desc_ok d → is_node d (self_idx d) → processor_run d self → calm self1 →
  process_begin d c blocks self = Done (ms, att, self1) → in_time (real_state self1) (self_idx d) att →
  ∃ s' m0 (round attempt : Z) self2, action_loop d 4 (real_state self1) att ms self1 = Some (Done (s', ms ++ m0 ++ [Empty round attempt], self2))
    ∧ (length m0 ≤ 3)%nat ∧ forallb (λ m, negb (is_empty_action m)) m0 = true
    ∧ process_blocks d 4 c blocks self = Some (process_end d c (ms ++ m0 ++ [Empty round attempt]) (put_real s' self2)).
Proof.
  intros Hd Hi R C H T. destruct (process_begin_spec d Hd Hi _ _ _ _ _ _ H) as [A _].
  pose proof (run_ok d Hd Hi self R (calm_calls _ _ (ad_calls _ _ _ A) C)) as P.
  destruct (process_begin_good d Hd Hi _ _ _ _ _ _ P H C) as [(Hs & _ & Hroom) _]. pose proof (state_todo_bound d (real_state self1) (self_idx d) att).
  destruct (action_loop_ends d 4 (real_state self1) att ms self1 Hd Hs Hi Hroom T) as (s' & ms' & self2 & Hl & _ & _ & _ & _ & _ & m0 & n & k & -> & Hne & Hlen); [lia|].
  exists s', m0, n, k, self2. split; [done|]. rewrite length_app in Hlen. simpl in Hlen. split; [lia|]. split; [done|]. unfold process_blocks. by rewrite H, Hl.
Qed.

(** C11: the announced actions are those that were applied: replaying the actions of the
    new block on the state that its parents merge to, as everyone does who receives it,
    gives the state this node has after it, with the implicit actions added. *)
Theorem block_replayed self self' self0 fuel c (block : CatchainBlock) u receiver receiver0 base :
  desc_ok d → is_node d (self_idx d) → processor_run d self → sp_catchain_started self = true → calm self' →
  process_blocks d fuel c (cb_deps block) self = Some (Done self') → list.last (own_updates (sp_events self')) = Some u →
  merge_blocks d (cb_deps block) (put_requested false false (tm_draws (sp_timing self)) self) = Done self0 →
  cb_source_id block mod two32 = self_idx d → cb_payload block ≠ [] → ext_parse_update (cb_payload block) = Some u →
  base_state d receiver block = Done base → merge_deps d base (cb_deps block) receiver = Done (real_state self0, receiver0) →
  ∃ s receiver' att, get_attempt_sequence_number d (bu_ts u) = Done att
    ∧ make_all_state d (real_state self') (self_idx d) att = Done s ∧ compute_state d block receiver = Done (s, receiver').
Proof.
  intros Hd Hi R Hst C H Hu Hm Hsrc Hp Hparse Hbase Hdeps.
  pose proof (run_ok d Hd Hi self' (run_serve d fuel self (ReqProcess c (cb_deps block)) self' R Hst H) C) as P.
  destruct (process_blocks_actions d Hd Hi _ _ _ _ _ H) as (self1 & att & u' & Hm' & Hatt & Hts & Ha & Hups).
  rewrite Hm in Hm'. injection Hm' as <-. rewrite Hups, last_snoc in Hu. injection Hu as ->. rewrite <- Hts in Hatt.
  destruct (po_real _ _ P) as (Hs & _). pose proof (session_todo_bound d (real_state self') (self_idx d) att).
  destruct (session_make_all_ok 5 d (real_state self') (self_idx d) att Hd Hs Hi) as (s & Hall & _); [lia|].
  assert (make_all_state d (real_state self') (self_idx d) att = Done s) as Hmake by (unfold make_all_state; by rewrite Hall).
  destruct (apply_actions_all d _ _ _ _ _ receiver0 Ha) as [receiver' Hap]. exists s, receiver', att. split; [done|]. split; [done|].
  unfold compute_state. fold (base_state d receiver block). rewrite Hbase. run. rewrite Hdeps. run.
  replace ((length (cb_payload block) =? 0)%nat) with false by (by destruct (cb_payload block)). simpl. rewrite Hsrc.
  destruct (get_source_public_key_hash_ok d (self_idx d) Hi) as [k ->]. run. rewrite Hparse, Hatt. run. rewrite Hap. run. by rewrite Hmake.
Qed.
End properties.

#[local] Existing Instances demo demo_session.

(** A processor that has voted in attempt 1030. *)
Definition demo_voter : @SessionProcessor demo :=
  demo_after ((ReqPreprocess (demo_clock 1030) <$> [catchain_block_1; catchain_block_2; catchain_block_3])
    ++ [ReqStarted (demo_clock 1030); ReqProcess (demo_clock 1030) [catchain_block_3]]).

(** C39: the loop does not end when the clock steps back across the start of an attempt:
    a processor that has voted in attempt 1030 and is asked for a block by a clock that
    shows attempt 1029 creates the same vote forever (the vote is created for attempt
    1029 and applied to attempt 1030), whereas it returns when the clock stands still. *)
Theorem clock_step_back_diverges :
  processor_run demo_desc demo_voter
  ∧ (∃ self', process_blocks demo_desc 4 (demo_clock 1030) [] demo_voter = Some (Done self'))
  ∧ ∀ fuel, process_blocks demo_desc fuel (demo_clock 1029) [] demo_voter = None.
Proof.
  split; [apply demo_after_run; [vm_compute; reflexivity|vm_compute; eauto]|]. split; [vm_compute; eauto|]. intros fuel. unfold process_blocks.
  destruct (process_begin _ _ _ _) as [[[ms att] self1]|] eqn:H; [|vm_compute in H; discriminate].
  assert (∃ m, SessionState_create_action demo_desc (real_state self1) (self_idx demo_desc) att = Done (Some m) ∧ is_empty_action m = false
    ∧ SessionState_apply_action demo_desc (real_state self1) (self_idx demo_desc) att m = Done (real_state self1)) as (m & H1 & H2 & H3).
  { vm_compute in H. injection H as <- <- <-. exists (Vote 0 1029 0). vm_compute. done. }
  by rewrite (action_loop_forever demo_desc _ att m H1 H2 H3).
Qed.

(** ** Witnesses *)
Lemma demo_requests_run : processor_run demo_desc (demo_after demo_requests).
Proof. apply demo_after_run; [vm_compute; reflexivity|vm_compute; eauto]. Qed.

Lemma demo_requests_calm : calm (demo_after demo_requests).
Proof. apply calm_check. vm_compute. reflexivity. Qed.

(** Round 0 of the concrete run was skipped, and reported. *)
Lemma commits_reported_in_order_witness :
  sp_current_round (demo_after demo_requests) = 1 ∧ reports (sp_events (demo_after demo_requests)) = [(0, None)]
  ∧ length (reports (sp_events (demo_after demo_requests))) = N.to_nat (sp_current_round (demo_after demo_requests)).
Proof.
  split; [vm_compute; reflexivity|]. split; [vm_compute; reflexivity|].
  exact (proj2 (proj2 (commits_reported_in_order demo_desc (demo_after demo_requests) demo_desc_ok demo_member demo_requests_run demo_requests_calm))).
Defined.

(** The commit for the skipped round. *)
Lemma commits_name_reported_block_witness : ∃ u b : _, u ∈ own_updates (sp_events (demo_after demo_requests)) ∧ Commit 0 0 [] ∈ bu_actions u
  ∧ SentBlock_get_id b = 0 ∧ reports (sp_events (demo_after demo_requests)) !! 0%nat = Some (0, (λ b, (sb_root_hash b, sb_file_hash b)) <$> b).
Proof.
  assert (∃ u, own_updates (sp_events (demo_after demo_requests)) !! 0%nat = Some u ∧ bu_actions u !! 0%nat = Some (Commit 0 0 [])) as (u & Hu & Hm).
  { vm_compute. eauto. }
  apply list_elem_of_lookup_2 in Hu, Hm. exists u.
  destruct (commits_name_reported_block demo_desc (demo_after demo_requests) u u 0 0 0 [] [] demo_desc_ok demo_member demo_requests_run demo_requests_calm Hu Hu Hm Hm)
    as [_ H]. destruct (H (0, None)) as (b & Hb & He); [vm_compute; reflexivity|]. exists b. split; [done|]. split; [done|]. split; [done|]. transitivity (Some (0, None : option (N * N))); [vm_compute; reflexivity|]. f_equal. exact He.
Defined.

(** The block that the processor of the concrete run makes of block 7: its commit and the
    empty action; and what everyone makes of it. *)
Definition demo_before : @SessionProcessor demo := demo_after (demo_arrive ++ [ReqStarted (demo_clock 1030)]).
Definition demo_begun : list Message * N * SessionProcessor :=
  match process_begin demo_desc (demo_clock 1030) [catchain_block_7] demo_before with Done r => r | Panic => ([], 0, demo_before) end.

Lemma demo_before_run : processor_run demo_desc demo_before.
Proof. apply demo_after_run; [vm_compute; reflexivity|vm_compute; eauto]. Qed.

Lemma actions_terminate_witness : ∃ s' m0 (round attempt : Z) self2,
  action_loop demo_desc 4 (real_state demo_begun.2) 1030 demo_begun.1.1 demo_begun.2 = Some (Done (s', demo_begun.1.1 ++ m0 ++ [Empty round attempt], self2)) ∧ (length m0 ≤ 3)%nat.
Proof.
  destruct (actions_terminate demo_desc demo_before (demo_clock 1030) [catchain_block_7] demo_begun.1.1 1030 demo_begun.2)
    as (s' & m0 & n & k & self2 & H & Hl & _); [exact demo_desc_ok|exact demo_member|exact demo_before_run| | | |].
  - apply calm_check. vm_compute. reflexivity.
  - vm_compute. reflexivity.
  - exists (default 0 (attempt_ids (real_state demo_begun.2) !! 0%nat)). split; [vm_compute; reflexivity|]. split; apply N.leb_le; vm_compute; reflexivity.
  - exists s', m0, n, k, self2. split; [exact H|exact Hl].
Defined.

(** The same block, as it comes back to a node that has the blocks of the others. *)
Definition own_demo_block : CatchainBlock := catchain_demo_block 11 0 None [catchain_block_7].

Definition own_demo_update : BlockUpdate := default {| bu_ts := 0; bu_actions := []; bu_state := 0 |} (demo_parse_update [11]).

Lemma own_demo_block_made : ∃ self' self0 receiver0, process_blocks demo_desc 4 (demo_clock 1030) (cb_deps own_demo_block) demo_before = Some (Done self')
  ∧ calm self' ∧ list.last (own_updates (sp_events self')) = Some own_demo_update
  ∧ merge_blocks demo_desc (cb_deps own_demo_block) (put_requested false false (tm_draws (sp_timing demo_before)) demo_before) = Done self0
  ∧ merge_deps demo_desc demo_init (cb_deps own_demo_block) demo_before = Done (real_state self0, receiver0).
Proof.
  eexists _, _, _. split; [vm_compute; reflexivity|]. split; [apply calm_check; vm_compute; reflexivity|]. split; [vm_compute; reflexivity|]. split; vm_compute; reflexivity.
Qed.
Lemma demo_before_started : sp_catchain_started demo_before = true.
Proof. vm_compute. reflexivity. Qed.

Lemma block_replayed_witness : ∃ self' s receiver' att, process_blocks demo_desc 4 (demo_clock 1030) (cb_deps own_demo_block) demo_before = Some (Done self')
  ∧ make_all_state demo_desc (real_state self') (self_idx demo_desc) att = Done s ∧ compute_state demo_desc own_demo_block demo_before = Done (s, receiver').
Proof.
  destruct own_demo_block_made as (self' & self0 & receiver0 & H1 & H2 & H3 & H4 & H5).
  destruct (block_replayed demo_desc demo_before self' self0 4 (demo_clock 1030) own_demo_block own_demo_update demo_before receiver0 demo_init demo_desc_ok demo_member demo_before_run
    demo_before_started H2 H1 H3 H4 eq_refl) as (s & receiver' & att & _ & Hm & Hc); [discriminate|reflexivity|reflexivity|exact H5|].
  exists self', s, receiver', att. split; [exact H1|]. split; [exact Hm|exact Hc].
Defined.
