(* ===== verification/StorageTheorems.v ===== *)
(** * Properties of the storage *)

From S2P Require Import Prelude BlockId BlockMeta Package ArchiveSlice ArchiveFacts CellDb ShardStateDb ShardStateMachine ShardStateSafety StateGcResolver.

(** ** Packages *)

(** Entries appended one after the other. *)
Fixpoint append_entries (p : Package) (es : list PackageEntry) : outcome (option Package) :=
  match es with
  | [] => Done (Some p)
  | e :: es' =>
      '(res, p) ← Package_append_entry p e;
      match res with Some _ => append_entries p es' | None => Done None end
  end.

Lemma entries_bytes_cons e es : entries_bytes (e :: es) = fst (PackageEntry_write_to e) ++ entries_bytes es.
Proof. done. Qed.

Lemma append_entries_ok es p :
  package_ok p → pkg_read_only p = false → Forall entry_ok es →
  pkg_size p + N.of_nat (length (entries_bytes es)) < two64 →
  ∃ p', append_entries p es = Done (Some p') ∧ package_ok p' ∧ pkg_read_only p' = false ∧
    pkg_file p' = pkg_file p ++ entries_bytes es.
Proof.
  intros Hok Hro Hes. revert p Hok Hro. induction Hes as [|e es He _ IH]; intros p Hok Hro Hsz; cbn [append_entries].
  { exists p. by rewrite app_nil_r. }
  rewrite entries_bytes_cons, length_app in Hsz. pose proof (write_to_length e He) as [Hlen _].
  destruct (append_ok p e Hok Hro He) as (p1 & Happ & Hok1 & Hro1 & Hf1 & _); [lia|]. rewrite Happ. cbn [mbind outcome_bind].
  destruct (IH p1 Hok1 Hro1) as (p' & Hrun & Hok' & Hro' & Hf').
  { rewrite (po_size _ Hok1), Hf1, length_app. rewrite (po_size _ Hok) in Hsz. lia. }
  exists p'. split_and!; try done. by rewrite Hf', Hf1, entries_bytes_cons, app_assoc.
Qed.

(** C37: entries that are appended to a new package one after the other are read
    back in that order when the file is read from its start, and the package that is
    opened again from the file is the same. *)
Theorem package_roundtrip es :
  Forall entry_ok es → 4 + N.of_nat (length (entries_bytes es)) < two64 →
  ∃ p p', Package_open None false true = Some p ∧ append_entries p es = Done (Some p') ∧
    read_package (pkg_file p') = Some es ∧ Package_open (Some (pkg_file p')) false false = Some p'.
Proof.
  intros Hes Hsz. set (p := {| pkg_read_only := false; pkg_size := PKG_HEADER_SIZE; pkg_file := le_bytes 4 PKG_HEADER_MAGIC |}).
  assert (Hok : package_ok p) by (split; [done|by exists []]).
  destruct (append_entries_ok es p Hok eq_refl Hes Hsz) as (p' & Hrun & Hok' & Hro' & Hf'). exists p, p'.
  split; [done|]. split; [done|]. split; [rewrite Hf'; by apply read_package_ok|].
  rewrite open_again by done. rewrite <- Hro'. by destruct p'.
Qed.

Definition demo_entry : PackageEntry := {| entry_filename := [98; 49]; entry_data := [1; 2; 3] |}.

Lemma demo_entry_ok : entry_ok demo_entry.
Proof. split; [done|done|done|]. repeat constructor. Qed.

Lemma package_roundtrip_witness :
  ∃ p p', Package_open None false true = Some p ∧ append_entries p [demo_entry; demo_entry] = Done (Some p') ∧
    read_package (pkg_file p') = Some [demo_entry; demo_entry] ∧ Package_open (Some (pkg_file p')) false false = Some p'.
Proof.
  apply package_roundtrip; [|vm_compute; reflexivity]. constructor; [apply demo_entry_ok|]. constructor; [apply demo_entry_ok|constructor].
Defined.

(** ** Archive slices *)

(** An archive slice implements the map of the files that were added: in every
    reachable state each of them is read back as it was added; and when the node
    stops at any point of an addition, the slice opens again from what is on disk,
    with the same files. *)
Theorem archive_files_kept self fs :
  archive_reachable (self, fs) →
  (∀ key mc_seq_no e, fs !! key = Some (mc_seq_no, e) → ArchiveSlice_get_file self mc_seq_no key = Done (Some e)) ∧
  ∀ mc_seq_no filename data dbs disk,
    addable self mc_seq_no filename data → crash_image self mc_seq_no (file_entry filename data) dbs disk →
    ∃ self', ArchiveSlice_with_data disk dbs (as_archive_id self) (as_package_type self) false = Done (Some self') ∧
      archive_reachable (self', fs).
Proof.
  intros Hr. pose proof (archive_reachable_ok _ Hr) as [H Hm Hk Hf]. simpl in *. split; [done|].
  intros mc filename data dbs disk Had Hc. destruct (crash_recovers self mc (file_entry filename data) dbs disk H Hm) as (self' & Hw & _);
    [by apply Had|by apply Had|done|]. exists self'. split; [done|]. eapply archive_next; [exact Hr|]. by eapply step_crash.
Qed.

(** A file for a package that exists is added, whatever was added before: the
    call returns its data, and from then on the file is read back; a key that is
    already there keeps its file. *)
Theorem archive_add_file self fs mc_seq_no key filename data pos :
  archive_reachable (self, fs) → addable self mc_seq_no filename data → position self mc_seq_no = Some pos →
  ∃ self', ArchiveSlice_add_file self mc_seq_no key filename data = Done (Some data, self') ∧
    archive_reachable (self', match fs !! key with Some _ => fs | None => <[key := (mc_seq_no, file_entry filename data)]> fs end) ∧
    (fs !! key = None → ArchiveSlice_get_file self' mc_seq_no key = Done (Some (file_entry filename data))) ∧
    (∀ k, k ≠ key → ∀ mc e, fs !! k = Some (mc, e) → ArchiveSlice_get_file self' mc k = Done (Some e)).
Proof.
  intros Hr Had Hpos. pose proof (archive_reachable_ok _ Hr) as [H Hm Hk Hf]. simpl in *.
  assert (Hrun : ∃ self', ArchiveSlice_add_file self mc_seq_no key filename data = Done (Some data, self')).
  { unfold ArchiveSlice_add_file. case_bool_decide; [eauto|].
    destruct (choose_existing self mc_seq_no true pos H Hpos) as [-> [pi Hpi]]. cbn [mbind outcome_bind]. rewrite Hpi.
    cbn [unwrap mbind outcome_bind]. destruct (so_package _ H pos pi Hpi) as (Hpok & Hro & _). destruct Had as [_ He _ Hroom].
    pose proof (write_to_length _ He) as [_ Hsz]. change {| entry_filename := filename; entry_data := data |} with (file_entry filename data).
    destruct (append_ok (pi_package pi) _ Hpok Hro He) as (p' & -> & _).
    - specialize (Hroom _ _ Hpi). rewrite Hsz. destruct He as [Hn _ Hd _]. cbn [entry_filename entry_data file_entry] in *.
      unfold u32_max, two64, two32 in *. lia.
    - cbn [mbind outcome_bind]. eauto. }
  destruct Hrun as [self' Hrun]. exists self'. split; [done|].
  assert (Hr' : archive_reachable (self', match fs !! key with Some _ => fs | None => <[key := (mc_seq_no, file_entry filename data)]> fs end)).
  { eapply archive_next; [exact Hr|]. by eapply step_add. }
  split; [done|]. pose proof (archive_reachable_ok _ Hr') as [_ _ _ Hf']. simpl in Hf'. split.
  - intros Hn. rewrite Hn in Hf'. apply Hf'. by rewrite lookup_insert_eq.
  - intros k Hne mc e Hin. apply Hf'. destruct (fs !! key); [done|]. by rewrite lookup_insert_ne.
Qed.

(** A slice with one file. *)
Definition demo_slice_0 : ArchiveSlice := Eval vm_compute in
  match ArchiveSlice_with_data ∅ empty_dbs 20000 Blocks false with
  | Done (Some s) => s
  | _ => {| as_archive_id := 0; as_packages := []; as_sliced_mode := false; as_slice_size := 0; as_package_type := Blocks;
            as_finalized := false; as_dbs := empty_dbs; as_disk := ∅ |}
  end.
Definition demo_slice : ArchiveSlice := Eval vm_compute in
  match ArchiveSlice_add_file demo_slice_0 20005 7 (entry_filename demo_entry) (entry_data demo_entry) with
  | Done (_, s) => s
  | _ => demo_slice_0
  end.
Definition demo_files : gmap N (N * PackageEntry) := {[7 := (20005, demo_entry)]}.

Lemma demo_room self : length (as_packages self) = 1%nat →
  match as_packages self with pi :: _ => pkg_size (pi_package pi) <? 1000 | [] => false end = true →
  room self (8 + 65535 + two32).
Proof.
  intros Hlen Hsz i pi Hi. destruct (as_packages self) as [|q [|? ?]]; [done| |done]. destruct i; [|done]. injection Hi as ->.
  apply N.ltb_lt in Hsz. unfold two32, two64. lia.
Qed.

Lemma demo_slice_reachable : archive_reachable (demo_slice, demo_files).
Proof.
  apply (archive_next (demo_slice_0, ∅)).
  - apply (archive_new ∅ 20000); [done|intros s f; by rewrite lookup_empty|vm_compute; reflexivity].
  - replace demo_files with (match (∅ : files) !! 7 with Some _ => ∅ | None => <[7 := (20005, file_entry (entry_filename demo_entry)
      (entry_data demo_entry))]> (∅ : files) end) by (vm_compute; reflexivity).
    apply (step_add demo_slice_0 ∅ 20005 7 (entry_filename demo_entry) (entry_data demo_entry) (entry_data demo_entry)).
    + split; [done|apply demo_entry_ok|done|by apply demo_room].
    + vm_compute. reflexivity.
Qed.

Lemma demo_addable : addable demo_slice 20006 [97] [9; 9].
Proof. split; [done| |done|by apply demo_room]. split; [done|done|done|]. repeat constructor. Qed.

(** The node stops after five bytes of a second file. *)
Definition demo_crash_disk : gmap N (list N) := Eval vm_compute in
  match as_packages demo_slice with
  | pi :: _ => <[pi_seq_no pi := pkg_file (pi_package pi) ++ take 5 (fst (PackageEntry_write_to (file_entry [97] [9; 9])))]>
                 (slice_files demo_slice)
  | [] => ∅
  end.

Lemma demo_crash : crash_image demo_slice 20006 (file_entry [97] [9; 9]) (as_dbs demo_slice) demo_crash_disk.
Proof.
  apply (crash_appending _ _ _ _ _ 0 demo_slice); [vm_compute; reflexivity|].
  assert (Hpi : is_Some (as_packages demo_slice !! 0%nat)) by (vm_compute; eauto).
  destruct (as_packages demo_slice !! 0%nat) as [pi|] eqn:E; [|by destruct Hpi].
  pose proof (append_writing demo_slice 0 (file_entry [97] [9; 9]) 5 pi E) as Ha. vm_compute in E. injection E as <-.
  exact Ha.
Qed.

Lemma archive_files_kept_witness :
  ArchiveSlice_get_file demo_slice 20005 7 = Done (Some demo_entry) ∧
  ∃ self', ArchiveSlice_with_data demo_crash_disk (as_dbs demo_slice) 20000 Blocks false = Done (Some self') ∧
    archive_reachable (self', demo_files).
Proof.
  pose proof (archive_files_kept demo_slice demo_files demo_slice_reachable) as [H1 H2]. split.
  - apply H1. reflexivity.
  - exact (H2 20006 [97] [9; 9] (as_dbs demo_slice) demo_crash_disk demo_addable demo_crash).
Defined.

Lemma archive_add_file_witness :
  ∃ self', ArchiveSlice_add_file demo_slice 20006 8 [97] [9; 9] = Done (Some [9; 9], self') ∧
    ArchiveSlice_get_file self' 20006 8 = Done (Some (file_entry [97] [9; 9])) ∧
    ArchiveSlice_get_file self' 20005 7 = Done (Some demo_entry).
Proof.
  destruct (archive_add_file demo_slice demo_files 20006 8 [97] [9; 9] 0%nat demo_slice_reachable demo_addable ltac:(vm_compute; reflexivity))
    as (self' & H1 & _ & H2 & H3). exists self'. split; [done|]. split; [apply H2; reflexivity|]. apply H3; [done|reflexivity].
Defined.

(** ** Block handles *)

(** The meta data of a block is read back as it was written, except the flags
    that are not stored: of the flags of a handle only the mark that a block is being
    moved to the archive is lost. *)
Theorem block_meta_roundtrip m rest :
  meta_ok m →
  ∃ m', BlockMeta_deserialize (BlockMeta_serialize m ++ rest) = Some (m', rest) ∧
    BlockMeta_masterchain_ref_seq_no m' = BlockMeta_masterchain_ref_seq_no m ∧
    bm_gen_utime m' = bm_gen_utime m ∧ bm_gen_lt m' = bm_gen_lt m ∧
    (∀ flag, flag ∈ all_flags → flag ≠ FLAG_ARCHIVING → is_flag_set m' flag = is_flag_set m flag) ∧
    is_flag_set m' FLAG_ARCHIVING = false.
Proof. apply meta_roundtrip_flags. Qed.

Lemma block_meta_roundtrip_witness :
  ∃ m', BlockMeta_deserialize (BlockMeta_serialize (BlockMeta_with_data 66561 5 6 77) ++ [1]) = Some (m', [1]) ∧
    BlockMeta_masterchain_ref_seq_no m' = 77 ∧ is_flag_set m' FLAG_APPLIED = true ∧ is_flag_set m' FLAG_ARCHIVING = false.
Proof.
  destruct (block_meta_roundtrip (BlockMeta_with_data 66561 5 6 77) [1]) as (m' & H1 & H2 & _ & _ & H5 & H6); [done|].
  exists m'. split; [done|]. split; [exact H2|]. split; [|done]. rewrite H5; [reflexivity| |done].
  unfold all_flags. repeat (apply elem_of_cons; (left; reflexivity) || right).
Defined.

Section handles.
Context {I : ShardIdents}.

(** The masterchain reference of a shard block is set once; setting it again to
    the same number changes nothing; setting it to another number is an error, and
    leaves the bitwise or of both numbers behind. *)
Theorem masterchain_ref_set_once self n :
  is_masterchain (bh_id self) = false → n < two32 →
  let prev := BlockHandle_masterchain_ref_seq_no self in
  let '(res, self') := BlockHandle_set_masterchain_ref_seq_no self n in
  res = (if prev =? 0 then Some true else if prev =? n then Some false else None) ∧
  BlockHandle_masterchain_ref_seq_no self' = N.lor prev n ∧
  (res ≠ None → BlockHandle_masterchain_ref_seq_no self' = n) ∧
  BlockMeta_flags (bh_meta self') = BlockMeta_flags (bh_meta self).
Proof.
  intros Hid Hn prev. unfold BlockHandle_set_masterchain_ref_seq_no.
  destruct (set_ref_meta (bh_meta self) n Hn) as (Hset & Href & Hfl). rewrite Hset.
  assert (Hp : prev = BlockMeta_masterchain_ref_seq_no (bh_meta self)) by (unfold prev, BlockHandle_masterchain_ref_seq_no; by rewrite Hid).
  assert (Hnew : BlockHandle_masterchain_ref_seq_no {| bh_id := bh_id self; bh_meta := snd (fetch_or (bh_meta self) n) |} = N.lor prev n).
  { unfold BlockHandle_masterchain_ref_seq_no. cbn [bh_id bh_meta]. by rewrite Hid, Href, Hp. }
  rewrite <- Hp. destruct (N.eqb_spec prev 0) as [H0|]; [|destruct (N.eqb_spec prev n) as [Heq|]];
    split_and!; try done; rewrite Hnew; intros _.
  - by rewrite H0.
  - rewrite Heq. apply N.lor_diag.
Qed.
End handles.

(** Two shards: the masterchain and a workchain. *)
#[local] Instance demo_shards : ShardIdents.
Proof.
  refine {| ShardIdent := bool; workchain_id := λ s : bool, if s then (-1)%Z else 0%Z;
            shard_prefix_with_tag := λ _, 9223372036854775808; 
            with_tagged_prefix := λ w _, if (w =? -1)%Z then Some true else if (w =? 0)%Z then Some false else None;
            shard_is_masterchain := λ s, s; intersect_with := Bool.eqb |}; by intros [].
Defined.

Definition demo_block (n : N) : BlockIdExt :=
  {| shard_id := (false : @ShardIdent demo_shards); seq_no := n; root_hash := replicate 32 n; file_hash := replicate 32 n |}.

(** The reference 5 is replaced by 6: an error, and the reference is 7. *)
Lemma masterchain_ref_set_once_witness :
  let self := {| bh_id := demo_block 3; bh_meta := BlockMeta_with_data 1 0 0 5 |} in
  let '(res, self') := BlockHandle_set_masterchain_ref_seq_no self 6 in
  res = None ∧ BlockHandle_masterchain_ref_seq_no self' = 7.
Proof.
  pose proof (masterchain_ref_set_once {| bh_id := demo_block 3; bh_meta := BlockMeta_with_data 1 0 0 5 |} 6 eq_refl eq_refl) as H.
  cbv zeta in *. destruct (BlockHandle_set_masterchain_ref_seq_no _ 6) as [res self'] eqn:E. destruct H as (H1 & H2 & _).
  split; [exact H1|exact H2].
Defined.

(** ** Shard states *)
Section states.
Context {I : ShardIdents} {C : CellExternal} (known : Cell → Prop).

(** C25: whatever the order of the steps of puts and of the collector (a put loads the
    index, counts itself, looks up cell after cell, commits its cells, writes its entry
    and leaves; the collector marks, deletes the cells of a state and its entry, and
    ends), and in the middle of a collection too, every state whose entry was written
    and that is not given up to the collector is found, in the database its entry names,
    and its whole tree of cells loads.  Assumed are that no collection of a database
    starts while a put has loaded its index and not counted itself yet, that a state is
    put once, that the node restarts only while nothing is put or collected, that fewer
    than 2^32 puts run at a time, that writes to the databases succeed and that the
    hashes of cells do not collide. *)
Theorem states_kept m id c :
  universe known → machine_reachable known m → m_states m !! id = Some c →
  ∃ first, find_state (m_db m) id = Some (first, repr_hash c) ∧
    ShardStateDb_get (m_db m) id = Done (Some (storage_cell c)) ∧
    load_tree (depth c) (boc_db (m_db m) first) (repr_hash c) = Done (Some c).
Proof.
  intros U (E & T & HI)%(machine_reachable_ok known U) (first & HT & HE & Hn)%(mo_states _ _ _ _ HI).
  pose proof (find_state_ok known E T m id first c HI HE) as Hfind. exists first. split; [done|].
  destruct (mo_known _ _ _ _ HI id first c (or_introl HE)) as [Hc _].
  assert (Hst : stored (boc_db (m_db m) first) c).
  { apply (stored_cells T first (swept m first) _ id); [apply (mo_cells _ _ _ _ HI)|done|]. unfold swept, to_be_swept in *.
    destruct (m_gc m) as [run|] eqn:Er; [|apply disjoint_empty_r]. case_bool_decide as Hf; [subst first|apply disjoint_empty_r].
    destruct (mo_gc _ _ _ _ HI run Er) as [Hg _]. by apply (go_kept _ _ _ Hg id). }
  split.
  - unfold ShardStateDb_get. rewrite Hfind. unfold load_cell, MemoryDb_try_get. rewrite (Hst c (subcell_refl c)).
    apply storage_cell_roundtrip. by apply (un_fine _ U).
  - apply load_tree_ok; [done| |done]. intros x Hx. by apply (known_fine known U x c).
Qed.

(** C26: nothing else is stored: while no collection runs, every cell of the two
    databases belongs to a state whose entry was written and that is not given up, or
    to the state of a put that has committed its cells and is about to write its entry.
    As for C25, collections start when every put on its way to the database is counted,
    a state is put once, the node restarts only while nothing is put or collected (else
    the cells of a put without an entry would stay), fewer than 2^32 puts run at a time,
    writes succeed and the hashes of cells do not collide. *)
Theorem no_garbage m first h :
  universe known → machine_reachable known m → m_gc m = None → is_Some (boc_db (m_db m) first !! h) →
  (∃ id c, m_states m !! id = Some c ∧ find_state (m_db m) id = Some (first, repr_hash c) ∧ h ∈ hashes c) ∨
  (∃ task, task ∈ m_puts m ∧ pt_first task = first ∧ pt_stage task = Committed ∧ h ∈ hashes (pt_root task)).
Proof.
  intros U (E & T & HI)%(machine_reachable_ok known U) Hgc Hh.
  destruct (bo_garbage _ _ _ _ (mo_cells _ _ _ _ HI first) h Hh) as [_ (id & c & HT & Hin)].
  destruct (mo_recorded _ _ _ _ HI id first c HT) as [HE|Htask]; [left; exists id, c|right; by eexists].
  split_and!; [|by eapply find_state_ok|done]. apply (mo_states _ _ _ _ HI). exists first. split_and!; [done|done|].
  unfold to_be_swept. rewrite Hgc. apply not_elem_of_nil.
Qed.

(** A put in such a state comes to its end without an error, and a put nobody interrupts
    leads to a state of the runs, with the state it put. *)
Theorem put_completes m id c :
  universe known → machine_reachable known m → known c → block_id_ok id → shardstate_db (m_db m) !! id = None →
  id ∉ pt_id <$> m_puts m → N.of_nat (length (m_puts m)) + 1 < two32 →
  ∃ db, ShardStateDb_put (m_db m) id c = Done (Some db) ∧
    machine_reachable known {| m_db := db; m_puts := m_puts m; m_gc := m_gc m; m_states := <[id := c]> (m_states m) |}.
Proof.
  intros U Hm Hc Hid Hn Hni Hlen. destruct (put_succeeds known U m id c Hm Hc) as [db Hput]. exists db. split; [done|]. by apply (put_reachable known).
Qed.

(** A turn of the collector comes to its end, without running out of fuel: it
    leads to a reachable state, takes only states the resolver allows to take, and
    all those of the database it collects when the resolver has no errors and no
    writer is at work. *)
Theorem collector_turn m allow pairs utime :
  universe known → machine_reachable known m → m_gc m = None →
  (∀ first, collected_db (m_db m) = Some first → all_counted m first) →
  pairs ≡ₚ map_to_list (shardstate_db (m_db m)) →
  ∃ db states, gc_turn allow (m_db m) pairs utime = Done db ∧
    machine_reachable known {| m_db := db; m_puts := m_puts m; m_gc := None; m_states := states |} ∧
    collected allow utime (m_db m) (m_states m) states.
Proof. intros U. by apply (gc_turn_ok known U). Qed.
End states.

(** ** A collection on concrete states *)

(** Four cells. *)
#[local] Instance demo_cells : CellExternal.
Proof.
  refine {| CellData := bool * bool;
            cell_data_serialize := λ d, [(if d.1 then 2 else 0) + (if d.2 then 1 else 0)];
            cell_data_deserialize := λ input, match input with
              | x :: rest => Some ((2 <=? x, N.odd x), rest) | [] => None end;
            cell_data_hash := λ d, replicate 32 ((if d.1 then 2 else 0) + (if d.2 then 1 else 0)) |}; by intros [[] []].
Defined.

Definition demo_leaf : Cell := mk_cell (false, false) [] 8 1.
Definition demo_mid : Cell := mk_cell (false, true) [demo_leaf] 16 2.
Definition demo_root (b : bool) : Cell := mk_cell (true, b) [demo_mid] 24 3.
Definition demo_known (c : Cell) : Prop := c ∈ [demo_leaf; demo_mid; demo_root false; demo_root true].

Lemma demo_universe : universe demo_known.
Proof.
  unfold demo_known. split.
  - intros c r. rewrite !elem_of_cons, !elem_of_nil. intros [->|[->|[->|[->|[]]]]]; simpl; rewrite ?elem_of_cons, ?elem_of_nil; naive_solver.
  - intros c c'. rewrite !elem_of_cons, !elem_of_nil. intros [->|[->|[->|[->|[]]]]] [->|[->|[->|[->|[]]]]]; done.
  - intros c. rewrite !elem_of_cons, !elem_of_nil. intros [->|[->|[->|[->|[]]]]]; split; simpl; (lia || done).
Qed.

(** The result of an operation that succeeds. *)
Definition succeeds {A : Type} (o : outcome (option A)) : bool := match o with Done (Some _) => true | _ => false end.
Definition result {A : Type} (d : A) (o : outcome (option A)) : A := match o with Done (Some a) => a | _ => d end.

Lemma result_ok {A : Type} (d : A) o : succeeds o = true → o = Done (Some (result d o)).
Proof. by destruct o as [[a|]|]. Qed.

Definition demo_put (m : Machine) (id : BlockIdExt) (c : Cell) : Machine :=
  {| m_db := result (m_db m) (ShardStateDb_put (m_db m) id c); m_puts := m_puts m; m_gc := m_gc m;
     m_states := <[id := c]> (m_states m) |}.

Lemma demo_put_reachable m id c :
  machine_reachable demo_known m → demo_known c → block_id_ok id →
  bool_decide (shardstate_db (m_db m) !! id = None) = true → m_puts m = [] →
  succeeds (ShardStateDb_put (m_db m) id c) = true → machine_reachable demo_known (demo_put m id c).
Proof.
  intros Hm Hc Hid Hn%bool_decide_eq_true Hp Hput%(result_ok (m_db m)). apply (put_reachable demo_known); try done; rewrite Hp; [apply not_elem_of_nil|done].
Qed.

Lemma demo_block_ok n : n < two32 → block_id_ok (demo_block n).
Proof. intros Hn. split; [done|apply length_replicate..]. Qed.

(** Two states are put into the first database. *)
Definition demo_m0 : Machine := machine_start.
Definition demo_m1 : Machine := demo_put demo_m0 (demo_block 1) (demo_root false).
Definition demo_m2 : Machine := demo_put demo_m1 (demo_block 2) (demo_root true).

Lemma demo_known_root b : demo_known (demo_root b).
Proof. unfold demo_known. destruct b; set_solver. Qed.

Lemma demo_m1_reachable : machine_reachable demo_known demo_m1.
Proof.
  unfold demo_m1. apply demo_put_reachable; [apply rtc_refl|apply demo_known_root|by apply demo_block_ok|vm_compute; reflexivity|reflexivity|vm_compute; reflexivity].
Qed.

Lemma demo_m2_reachable : machine_reachable demo_known demo_m2.
Proof.
  unfold demo_m2. apply demo_put_reachable; [apply demo_m1_reachable|apply demo_known_root|by apply demo_block_ok|vm_compute; reflexivity|reflexivity|vm_compute; reflexivity].
Qed.

(** All states may be collected. *)
Definition demo_allow (_ : BlockIdExt) (_ : N) : option bool := Some true.
Definition demo_pairs : list (BlockIdExt * list N) := map_to_list (shardstate_db (m_db demo_m2)).

(** The collector marks a database, sweeps one state and ends. *)
Definition demo_run (self : ShardStateDb) (first : bool) : GcRun :=
  let r := result (∅, [], 0) (mark demo_allow demo_pairs (boc_db self first) (db_index first) 0) in
  {| gr_first := first; gr_to_sweep := r.1.2; gr_marked := r.1.1; gr_sweeped := ∅; gr_entry := None |}.
Definition demo_marking (m : Machine) (first : bool) : Machine :=
  {| m_db := m_db m; m_puts := m_puts m; m_gc := Some (demo_run (m_db m) first);
     m_states := filter (λ p, ¬ condemned (gr_to_sweep (demo_run (m_db m) first)) p.1) (m_states m) |}.
Definition demo_end (m : Machine) (run : GcRun) : Machine :=
  {| m_db := set_current (db_index (gr_first run)) (m_db m); m_puts := m_puts m; m_gc := None; m_states := m_states m |}.
Definition demo_sweep (m : Machine) (run : GcRun) : outcome (option (N * (ShardStateDb * gset CellId))) :=
  match gr_to_sweep run with
  | root :: _ => r ← sweep_root (m_db m) (gr_first run) root (gr_marked run) (gr_sweeped run); Done (Some r)
  | [] => Done None
  end.
Definition demo_sweeping (m : Machine) (run : GcRun) : Machine :=
  let r := result (0, (m_db m, ∅)) (demo_sweep m run) in
  {| m_db := r.2.1; m_puts := m_puts m;
     m_gc := Some {| gr_first := gr_first run; gr_to_sweep := tail (gr_to_sweep run); gr_marked := gr_marked run; gr_sweeped := r.2.2;
                    gr_entry := None |};
     m_states := m_states m |}.

Lemma demo_marking_reachable m first :
  machine_reachable demo_known m → m_gc m = None → bool_decide (collected_db (m_db m) = Some first) = true →
  boc_db_writers (m_db m) first = 0 → m_puts m = [] → demo_pairs = map_to_list (shardstate_db (m_db m)) →
  succeeds (mark demo_allow demo_pairs (boc_db (m_db m) first) (db_index first) 0) = true →
  machine_reachable demo_known (demo_marking m first).
Proof.
  intros Hm Hgc Hcol%bool_decide_eq_true Hw Hputs Hp Hok%(result_ok (∅, [], 0)). unfold demo_marking, demo_run.
  remember (result _ _) as r eqn:Er. clear Er. destruct r as [[marked ts] n]. eapply machine_next; [exact Hm|].
  eapply step_gc_mark; [done..| | |exact Hok]; [|by rewrite Hp]. intros _ task Hin. rewrite Hputs in Hin. destruct (not_elem_of_nil _ Hin).
Qed.

Lemma demo_end_reachable m run :
  machine_reachable demo_known m → m_gc m = Some run → length (gr_to_sweep run) = 0%nat → gr_entry run = None →
  machine_reachable demo_known (demo_end m run).
Proof. intros Hm Hr Hl%nil_length_inv He. eapply machine_next; [exact Hm|]. by apply step_gc_end. Qed.

Lemma demo_sweeping_reachable m run :
  machine_reachable demo_known m → m_gc m = Some run → gr_entry run = None → succeeds (demo_sweep m run) = true →
  machine_reachable demo_known (demo_sweeping m run).
Proof.
  intros Hm Hr He Hok%(result_ok (0, (m_db m, ∅))). unfold demo_sweeping. remember (result _ _) as r eqn:Er. clear Er.
  unfold demo_sweep in Hok. destruct (gr_to_sweep run) as [|[id h] rest] eqn:Ets; [done|]. unfold sweep_root in Hok. cbn [fst snd] in Hok.
  destruct (sweep_cells (m_db m) (gr_first run) h (gr_marked run) (gr_sweeped run)) as [[n [db sw]]|] eqn:Esw; [|done].
  cbn [mbind outcome_bind] in Hok. injection Hok as <-. cbn [fst snd tail].
  by apply (sweep_state_reachable demo_known m run id h rest n db sw).
Qed.

(** The first collection is about the second database and takes nothing; the second
    one gives up both states and sweeps one of them. *)
Definition demo_m3 : Machine := demo_end (demo_marking demo_m2 false) (demo_run (m_db demo_m2) false).
Definition demo_m4 : Machine := demo_marking demo_m3 true.
Definition demo_m5 : Machine := demo_sweeping demo_m4 (demo_run (m_db demo_m3) true).

Lemma demo_m3_reachable : machine_reachable demo_known demo_m3.
Proof.
  unfold demo_m3. apply demo_end_reachable; [|reflexivity|vm_compute; reflexivity|reflexivity].
  apply demo_marking_reachable; [apply demo_m2_reachable|reflexivity|vm_compute; reflexivity|vm_compute; reflexivity|reflexivity|reflexivity|vm_compute; reflexivity].
Qed.

Lemma demo_m5_reachable : machine_reachable demo_known demo_m5.
Proof.
  unfold demo_m5. apply demo_sweeping_reachable; [|reflexivity|reflexivity|vm_compute; reflexivity]. unfold demo_m4.
  apply demo_marking_reachable; [apply demo_m3_reachable|reflexivity|vm_compute; reflexivity|vm_compute; reflexivity|reflexivity|reflexivity|vm_compute; reflexivity].
Qed.

Lemma states_kept_witness :
  ∃ first, find_state (m_db demo_m2) (demo_block 2) = Some (first, repr_hash (demo_root true)) ∧
    load_tree 3 (boc_db (m_db demo_m2) first) (repr_hash (demo_root true)) = Done (Some (demo_root true)).
Proof.
  destruct (states_kept demo_known demo_m2 (demo_block 2) (demo_root true) demo_universe demo_m2_reachable) as (first & H1 & _ & H2).
  - unfold demo_m2, demo_put. cbn [m_states]. apply lookup_insert_eq.
  - exists first. split; [exact H1|exact H2].
Defined.

(** ** Runs given by a list of acts *)
Inductive StateAct :=
| AStart (n : N) (b : bool)
| APut
| AMark (first : bool)
| ASweepCells
| ASweepEntry
| AEnd.

Definition state_act (a : StateAct) (m : Machine) : option Machine :=
  match a with
  | AStart n b =>
      first ← put_choose (m_db m);
      if bool_decide (shardstate_db (m_db m) !! demo_block n = None) && bool_decide (demo_block n ∉ pt_id <$> m_puts m) &&
         (N.of_nat (length (m_puts m)) + 1 <? two32) && (n <? two32)
      then Some {| m_db := m_db m; m_puts := mk_task (demo_block n) (demo_root b) first Loaded :: m_puts m; m_gc := m_gc m; m_states := m_states m |}
      else None
  | APut =>
      match m_puts m with
      | task :: l =>
          match put_step (m_db m) task with
          | Done (db, next) => Some {| m_db := db; m_puts := option_list next ++ l; m_gc := m_gc m; m_states := states_after task (m_states m) |}
          | Panic => None
          end
      | [] => None
      end
  | AMark first =>
      match m_gc m, collected_db (m_db m), mark demo_allow (map_to_list (shardstate_db (m_db m))) (boc_db (m_db m) first) (db_index first) 0 with
      | None, Some first', Done (Some (marked, to_sweep, _)) =>
          if Bool.eqb first' first && (boc_db_writers (m_db m) first =? 0) then
            Some {| m_db := m_db m; m_puts := m_puts m;
                    m_gc := Some {| gr_first := first; gr_to_sweep := to_sweep; gr_marked := marked; gr_sweeped := ∅; gr_entry := None |};
                    m_states := filter (λ p, ¬ condemned to_sweep p.1) (m_states m) |}
          else None
      | _, _, _ => None
      end
  | ASweepCells =>
      run ← m_gc m;
      match gr_entry run, gr_to_sweep run with
      | None, (id, h) :: rest =>
          match sweep_cells (m_db m) (gr_first run) h (gr_marked run) (gr_sweeped run) with
          | Done (_, (db, sweeped)) =>
              Some {| m_db := db; m_puts := m_puts m;
                      m_gc := Some {| gr_first := gr_first run; gr_to_sweep := rest; gr_marked := gr_marked run; gr_sweeped := sweeped;
                                      gr_entry := Some id |};
                      m_states := m_states m |}
          | Panic => None
          end
      | _, _ => None
      end
  | ASweepEntry =>
      run ← m_gc m;
      id ← gr_entry run;
      Some {| m_db := sweep_entry (m_db m) id; m_puts := m_puts m;
              m_gc := Some {| gr_first := gr_first run; gr_to_sweep := gr_to_sweep run; gr_marked := gr_marked run;
                              gr_sweeped := gr_sweeped run; gr_entry := None |};
              m_states := m_states m |}
  | AEnd =>
      run ← m_gc m;
      match gr_to_sweep run, gr_entry run with
      | [], None => Some {| m_db := set_current (db_index (gr_first run)) (m_db m); m_puts := m_puts m; m_gc := None; m_states := m_states m |}
      | _, _ => None
      end
  end.

Lemma state_act_step timely a m m' :
  state_act a m = Some m' → match a with AMark first => timely = true → all_counted m first | _ => True end → machine_step demo_known timely m m'.
Proof.
  intros Ha Ht. destruct a; cbn [state_act] in Ha.
  - destruct (put_choose (m_db m)) as [first|] eqn:Ec; [|done]. cbn [mbind option_bind] in Ha.
    destruct (bool_decide (shardstate_db (m_db m) !! demo_block n = None)) eqn:E1; [|done].
    destruct (bool_decide (demo_block n ∉ pt_id <$> m_puts m)) eqn:E2; [|done].
    destruct (N.ltb_spec (N.of_nat (length (m_puts m)) + 1) two32); [|done]. destruct (N.ltb_spec n two32); [|done]. injection Ha as <-.
    apply bool_decide_eq_true in E1, E2. by apply step_put_load; [apply demo_known_root|apply demo_block_ok|..].
  - destruct (m_puts m) as [|task l] eqn:Ep; [done|]. destruct (put_step (m_db m) task) as [[db next]|] eqn:Es; [|done]. injection Ha as <-.
    by apply (step_put demo_known timely m [] task l).
  - destruct (m_gc m) eqn:Eg; [done|]. destruct (collected_db (m_db m)) as [f|] eqn:Ec; [|done].
    destruct (mark _ _ _ _ _) as [[[[marked ts] k]|]|] eqn:Em; [|done|done]. destruct (Bool.eqb f first) eqn:Ef; [|done]. apply Bool.eqb_prop in Ef as ->.
    destruct (N.eqb_spec (boc_db_writers (m_db m) first) 0); [|done]. injection Ha as <-. by eapply step_gc_mark.
  - destruct (m_gc m) as [run|] eqn:Eg; [|done]. cbn [mbind option_bind] in Ha. destruct (gr_entry run) eqn:Ee; [done|].
    destruct (gr_to_sweep run) as [|[id h] rest] eqn:Et; [done|]. destruct (sweep_cells _ _ _ _ _) as [[k [db sw]]|] eqn:Es; [|done].
    injection Ha as <-. by eapply step_gc_cells.
  - destruct (m_gc m) as [run|] eqn:Eg; [|done]. cbn [mbind option_bind] in Ha. destruct (gr_entry run) as [id|] eqn:Ee; [|done]. cbn [mbind option_bind] in Ha.
    injection Ha as <-. by eapply step_gc_entry.
  - destruct (m_gc m) as [run|] eqn:Eg; [|done]. cbn [mbind option_bind] in Ha. destruct (gr_to_sweep run) eqn:Et; [|done]. destruct (gr_entry run) eqn:Ee; [done|].
    injection Ha as <-. by eapply step_gc_end.
Qed.

Fixpoint state_acts (l : list StateAct) (m : Machine) : option Machine :=
  match l with [] => Some m | a :: l' => m' ← state_act a m; state_acts l' m' end.

Lemma state_acts_run timely l m m' :
  state_acts l m = Some m' → (timely = true → Forall (λ a, match a with AMark _ => False | _ => True end) l) → rtc (machine_step demo_known timely) m m'.
Proof.
  revert m. induction l as [|a l IH]; intros m Ha Ht; cbn [state_acts] in Ha; [by injection Ha as ->|].
  destruct (state_act a m) as [m1|] eqn:E1; [|done]. cbn [mbind option_bind] in Ha. eapply rtc_l.
  - eapply state_act_step; [exact E1|]. destruct a; try done. intros Hx. apply Ht in Hx. by inversion Hx.
  - apply IH; [exact Ha|]. intros Hx. apply Ht in Hx. by inversion Hx.
Qed.

Definition acted (l : list StateAct) (m : Machine) : Machine := default m (state_acts l m).

Lemma acted_ok l m : match state_acts l m with Some _ => true | None => false end = true → state_acts l m = Some (acted l m).
Proof. unfold acted. by destruct (state_acts l m). Qed.

Lemma is_none {A : Type} (o : option A) : match o with None => true | Some _ => false end = true → o = None.
Proof. by destruct o. Qed.

(** Another put has committed its cells, its entry is not written. *)
Definition demo_half : Machine := acted ([AStart 3 true] ++ replicate 4 APut) demo_m1.

Lemma demo_half_reachable : machine_reachable demo_known demo_half.
Proof.
  unfold machine_reachable, machine_run. etrans; [apply demo_m1_reachable|]. eapply state_acts_run.
  - apply acted_ok. vm_compute. reflexivity.
  - intros _. repeat constructor.
Qed.

(** In the run of the two puts the leaf belongs to both states; the cells of the put
    that is half done belong to no entry yet. *)
Lemma no_garbage_witness :
  (∃ id c, m_states demo_m2 !! id = Some c ∧ find_state (m_db demo_m2) id = Some (true, repr_hash c) ∧ repr_hash demo_leaf ∈ hashes c) ∧
  ((∃ id c, m_states demo_half !! id = Some c ∧ find_state (m_db demo_half) id = Some (true, repr_hash c) ∧ repr_hash (demo_root true) ∈ hashes c) ∨
   (∃ task, task ∈ m_puts demo_half ∧ pt_first task = true ∧ pt_stage task = Committed ∧ repr_hash (demo_root true) ∈ hashes (pt_root task))).
Proof.
  split.
  - destruct (no_garbage demo_known demo_m2 true (repr_hash demo_leaf) demo_universe demo_m2_reachable) as [H|(task & Hin & _)].
    + reflexivity.
    + apply (bool_decide_eq_true_1 (is_Some (boc_db (m_db demo_m2) true !! repr_hash demo_leaf))). vm_compute. reflexivity.
    + exact H.
    + destruct (not_elem_of_nil _ Hin).
  - apply (no_garbage demo_known demo_half true (repr_hash (demo_root true)) demo_universe demo_half_reachable).
    + apply is_none. vm_compute. reflexivity.
    + apply (bool_decide_eq_true_1 (is_Some (boc_db (m_db demo_half) true !! repr_hash (demo_root true)))). vm_compute. reflexivity.
Defined.

Lemma put_completes_witness :
  ∃ db, ShardStateDb_put (m_db demo_m1) (demo_block 2) (demo_root true) = Done (Some db) ∧
    machine_reachable demo_known {| m_db := db; m_puts := m_puts demo_m1; m_gc := m_gc demo_m1; m_states := <[demo_block 2 := demo_root true]> (m_states demo_m1) |}.
Proof.
  apply (put_completes demo_known demo_m1 (demo_block 2) (demo_root true) demo_universe demo_m1_reachable (demo_known_root true)).
  - apply demo_block_ok. reflexivity.
  - apply (bool_decide_eq_true_1 (shardstate_db (m_db demo_m1) !! demo_block 2 = None)). vm_compute. reflexivity.
  - apply not_elem_of_nil.
  - reflexivity.
Defined.

Lemma collector_turn_witness :
  ∃ db (states : gmap BlockIdExt Cell), gc_turn demo_allow (m_db demo_m3) demo_pairs 0 = Done db ∧ states !! demo_block 2 = None.
Proof.
  destruct (collector_turn demo_known demo_m3 demo_allow demo_pairs 0 demo_universe demo_m3_reachable) as (db & states & H1 & _ & H2);
    [reflexivity|intros first _ task Hin; destruct (not_elem_of_nil _ Hin)|reflexivity|].
  exists db, states. split; [exact H1|]. destruct (states !! demo_block 2) as [c|] eqn:E; [|done].
  pose proof (co_sub _ _ _ _ _ H2 _ _ E) as Hc.
  assert (Hf : bool_decide (find_state (m_db demo_m3) (demo_block 2) = Some (true, repr_hash (demo_root true))) = true)
    by (vm_compute; reflexivity). apply bool_decide_eq_true in Hf.
  destruct (states_kept demo_known demo_m3 (demo_block 2) c demo_universe demo_m3_reachable Hc) as (first & Hfind & _).
  rewrite <- E. apply (co_all _ _ _ _ _ H2 (demo_block 2) c true); [done|by intros; eexists|done| | |congruence].
  - apply (bool_decide_eq_true_1 (collected_db (m_db demo_m3) = Some true)). vm_compute. reflexivity.
  - vm_compute. reflexivity.
Defined.

(** A restart keeps the databases. *)
Definition restarted (self : ShardStateDb) : ShardStateDb :=
  ShardStateDb_with_dbs (shardstate_db self) (dynamic_boc_db_0 self) (dynamic_boc_db_1 self).

Definition demo_broken : ShardStateDb :=
  result (m_db demo_m5) (ShardStateDb_put (restarted (m_db demo_m5)) (demo_block 3) (demo_root false)).

(** C40: a collection that is interrupted between two states it sweeps breaks states
    that are put later: two states share a cell, both are given up, one is swept, and
    the node is started again.  A third state with the root of the state that was not
    swept is put without an error and its entry is found, but its tree does not
    load, because the shared cell is gone and the root was not written again. *)
Theorem interrupted_collection_breaks_states :
  machine_reachable demo_known demo_m5 ∧
  ShardStateDb_put (restarted (m_db demo_m5)) (demo_block 3) (demo_root false) = Done (Some demo_broken) ∧
  find_state demo_broken (demo_block 3) = Some (true, repr_hash (demo_root false)) ∧
  ∀ fuel, load_tree fuel (boc_db demo_broken true) (repr_hash (demo_root false)) = Done None.
Proof.
  split; [apply demo_m5_reachable|]. split; [apply result_ok; vm_compute; reflexivity|]. split.
  - apply (bool_decide_eq_true_1 (find_state demo_broken (demo_block 3) = Some (true, repr_hash (demo_root false)))). vm_compute. reflexivity.
  - intros fuel. apply (load_tree_missing _ (demo_root false) demo_mid []); [|  |reflexivity|].
    + apply (un_fine _ demo_universe). apply demo_known_root.
    + apply (bool_decide_eq_true_1 (boc_db demo_broken true !! repr_hash (demo_root false) = Some (cell_bytes (demo_root false)))).
      vm_compute. reflexivity.
    + apply (bool_decide_eq_true_1 (boc_db demo_broken true !! repr_hash demo_mid = None)). vm_compute. reflexivity.
Qed.

(** A put of block 2 loads the index and is delayed; the collector makes the other
    database the current one and marks the first: block 1 is given up.  The put counts
    itself and finds the cells it shares with block 1; they are swept; the put commits
    the rest and writes its entry. *)
Definition late_count : list StateAct :=
  [AStart 1 false] ++ replicate 7 APut ++ [AStart 2 true; AMark false; AEnd; AMark true] ++
  replicate 3 APut ++ [ASweepCells; ASweepEntry; AEnd] ++ replicate 3 APut.
Definition demo_late : Machine := acted late_count machine_start.

(** The assumption of timely collections is needed: in a run of the code in which a put
    counts itself after a collection has started, the state that was put is recorded, not
    given up, and does not load. *)
Theorem uncounted_put_breaks_state :
  machine_run demo_known false demo_late ∧ m_gc demo_late = None ∧ m_puts demo_late = [] ∧
  repr_hash <$> m_states demo_late !! demo_block 2 = Some (repr_hash (demo_root true)) ∧
  find_state (m_db demo_late) (demo_block 2) = Some (true, repr_hash (demo_root true)) ∧
  ∀ fuel, load_tree fuel (boc_db (m_db demo_late) true) (repr_hash (demo_root true)) = Done None.
Proof.
  split; [|split; [|split; [|split; [|split]]]].
  - apply (state_acts_run false late_count); [|done]. apply acted_ok. vm_compute. reflexivity.
  - apply is_none. vm_compute. reflexivity.
  - apply nil_length_inv. vm_compute. reflexivity.
  - apply (bool_decide_eq_true_1 (repr_hash <$> m_states demo_late !! demo_block 2 = Some (repr_hash (demo_root true)))). vm_compute. reflexivity.
  - apply (bool_decide_eq_true_1 (find_state (m_db demo_late) (demo_block 2) = Some (true, repr_hash (demo_root true)))). vm_compute. reflexivity.
  - intros fuel. apply (load_tree_missing _ (demo_root true) demo_mid []); [|  |reflexivity|].
    + apply (un_fine _ demo_universe). apply demo_known_root.
    + apply (bool_decide_eq_true_1 (boc_db (m_db demo_late) true !! repr_hash (demo_root true) = Some (cell_bytes (demo_root true)))).
      vm_compute. reflexivity.
    + apply (bool_decide_eq_true_1 (boc_db (m_db demo_late) true !! repr_hash demo_mid = None)). vm_compute. reflexivity.
Qed.

(** ** The resolver *)

(** The resolver gives up only old states: a masterchain state other than the
    zero state that is older than the oldest masterchain block some processed state
    refers to, or a shard state that is older than a top block of its shard, or of a
    shard that intersects it, in such a masterchain block. *)
Theorem resolver_gives_up_old_states {I : ShardIdents} self reports pairs id :
  resolver_reachable self reports → pairs ≡ₚ map_to_list (min_actual_ss self) →
  resolver_allow_state_gc self pairs id = true →
  if is_masterchain id then seq_no id ≠ 0 ∧ ∃ n, n ∈ re_min_refs reports ∧ seq_no id < n
  else ∃ mc ids top, (mc, ids) ∈ re_tops reports ∧ top ∈ ids ∧ seq_no id < seq_no top ∧
       (shard_id top = shard_id id ∨ intersect_with (shard_id id) (shard_id top) = true).
Proof. apply resolver_safe. Qed.

(** The state of block 100 refers to block 50, in which block 9 is the top block. *)
Lemma resolver_gives_up_old_states_witness :
  ∃ mc ids top, (mc, ids) ∈ [(50, [demo_block 9])] ∧ top ∈ ids ∧ 4 < seq_no top ∧
    (shard_id top = shard_id (demo_block 4) ∨ intersect_with (shard_id (demo_block 4)) (shard_id top) = true).
Proof.
  set (self := snd (advance AllowStateGcSmartResolver_new (demo_block 100) (λ _, Some 50) (λ _, Some [demo_block 9]))).
  apply (resolver_gives_up_old_states self {| re_min_refs := [50]; re_tops := [(50, [demo_block 9])] |}
    (map_to_list (min_actual_ss self)) (demo_block 4)); [|done|vm_compute; reflexivity].
  apply (resolver_next AllowStateGcSmartResolver_new {| re_min_refs := []; re_tops := [] |} (demo_block 100) (λ _, Some 50)
    (λ _, Some [demo_block 9]) (Some ())); [apply resolver_init|reflexivity].
Defined.
