(* ===== verification/ArchiveTheorems.v ===== *)
(** * Properties of the archive and of the files of blocks *)

From stdpp Require Import sorting.
From Stdlib Require Import ZifyBool.
From S2P Require Import Prelude BlockId BlockMeta Package ArchiveSlice ArchiveFacts EntryId FileMaps ArchiveManager ArchiveRun ArchiveGc InternalDb DbSafety.

From Stdlib Require String.
Import String.StringSyntax.

(** ** A concrete world for the witnesses *)
Definition upper_char (d : N) : N := if d <? 10 then 48 + d else 55 + d.
Definition hex_of_bytes (h : list N) : list N := b ← h; [upper_char (b / 16 mod 16); upper_char (b mod 16)].
Definition hex_digit (c : N) : N := if c <? 58 then c - 48 else c - 55.
Fixpoint bytes_of_hex (s : list N) : option (list N) :=
  match s with
  | [] => Some []
  | c :: d :: s' => h ← bytes_of_hex s'; Some (16 * hex_digit c + hex_digit d :: h)
  | _ => None
  end.

Lemma upper_char_ok d : d < 16 → is_upper_hex (upper_char d) = true ∧ hex_digit (upper_char d) = d.
Proof.
  intros Hd. unfold is_upper_hex, is_digit, hex_digit, upper_char. destruct (N.ltb_spec d 10) as [Hl|Hl]; split; first [lia|case_match eqn:E; lia].
Qed.

Lemma hex_of_bytes_cons b h : hex_of_bytes (b :: h) = upper_char (b / 16 mod 16) :: upper_char (b mod 16) :: hex_of_bytes h.
Proof. done. Qed.

Lemma hex_of_bytes_length h : length (hex_of_bytes h) = (2 * length h)%nat.
Proof. induction h as [|b h IH]; [done|]. rewrite hex_of_bytes_cons. simpl in *. lia. Qed.

Lemma hex_of_bytes_chars h : forallb is_upper_hex (hex_of_bytes h) = true.
Proof.
  induction h as [|b h IH]; [done|]. rewrite hex_of_bytes_cons. cbn [forallb]. rewrite IH.
  by rewrite !(fun d Hd => proj1 (upper_char_ok d Hd)) by (by apply N.mod_upper_bound).
Qed.

Lemma hex_bytes_roundtrip h : Forall byte_ok h → bytes_of_hex (hex_of_bytes h) = Some h.
Proof.
  induction 1 as [|b h Hb _ IH]; [done|]. rewrite hex_of_bytes_cons. cbn [bytes_of_hex]. rewrite IH. cbn [mbind option_bind].
  rewrite !(fun d Hd => proj2 (upper_char_ok d Hd)) by (by apply N.mod_upper_bound). do 2 f_equal.
  unfold byte_ok in Hb. rewrite (N.mod_small (b / 16)) by (by apply N.Div0.div_lt_upper_bound). symmetry. apply N.div_mod. done.
Qed.

(** Two shards, the masterchain and a workchain. *)
#[local] Instance two_shards : ShardIdents.
Proof.
  refine {| ShardIdent := bool; workchain_id := λ s : bool, if s then (-1)%Z else 0%Z;
            shard_prefix_with_tag := λ _, 9223372036854775808;
            with_tagged_prefix := λ w _, if (w =? -1)%Z then Some true else if (w =? 0)%Z then Some false else None;
            shard_is_masterchain := λ s, s; intersect_with := Bool.eqb |}; by intros [].
Defined.

#[local] Instance hex_formats : EntryFormats.
Proof.
  refine {| upper_hex := hex_of_bytes; u256_from_str := bytes_of_hex; PublicKey := unit; PublicKey_filename := λ _, [65];
            block_hash := λ id, seq_no id |}.
  - intros h Hh. by rewrite hex_of_bytes_length, Hh.
  - apply hex_of_bytes_chars.
  - intros h _. apply hex_bytes_roundtrip.
Defined.

#[local] Instance name_keys : OffsetKeys := λ e, foldl (λ acc c, acc * 256 + c) 0 (filename_short e).

#[local] Instance coded_links : LinkFormat.
Proof.
  refine {| link_serialize := λ id, [Npos (encode id)];
            link_deserialize := λ l, match l with [Npos p] => decode p | _ => None end |}.
  intros id. apply decode_encode.
Defined.

Definition mc_block (n : N) : BlockIdExt :=
  {| shard_id := (true : @ShardIdent two_shards); seq_no := n; root_hash := replicate 32 (n mod 256); file_hash := replicate 32 (n mod 256) |}.

(** ** Names *)
Section names.
Context {SI : ShardIdents} {F : EntryFormats}.

Lemma not_empty_name l : hd 0 l ≠ 101 → l ≠ bytes_of "empty".
Proof. by intros H ->. Qed.

(** The name of an archive entry is parsed back to the entry, for every kind of
    entry that has a parser. *)
Theorem entry_filename_roundtrip e : entry_id_ok e → from_filename (filename e) = Done (Some e).
Proof.
  intros He. unfold from_filename.
  destruct e; cbn [entry_id_ok] in He; try done; (rewrite decide_False by (by apply not_empty_name)); skip_prefixes;
    unfold filename; cbn [entry_name filename_prefix]; first [rewrite parse_ids_one by done|rewrite parse_ids_two by apply He]; done.
Qed.

(** The name of a persistent state that ends after its first block identifier is
    not refused with an error: the parser indexes the string out of its range. *)
Theorem truncated_state_name_panics id :
  named_ok id → from_filename (filename_prefix (EntryPersistentState id id) ++ [95] ++ BlockIdExt_filename id) = Panic.
Proof.
  intros Hid. unfold from_filename. rewrite decide_False by (by apply not_empty_name). skip_prefixes.
  cbn [filename_prefix]. rewrite parse_ids_short by done. done.
Qed.
End names.

(** ** The files of blocks *)
Section files.
Context {SI : ShardIdents} {F : EntryFormats} {K : OffsetKeys} {L : LinkFormat}.
Implicit Types (st : RunState) (id : BlockIdExt) (kind : FileKind) (data : list N).

(** What is not in the map does not load. *)
Lemma not_stored_misses st kind id meta :
  db_inv st → db_handles (rs_db st) !! id = Some meta → rs_stored st !! (kind, id) = None → load_file kind (rs_db st) (handle_of id meta) = Done None.
Proof.
  intros HI Em Est. pose proof (flag_stored st kind id meta HI Em) as Hf. rewrite Est, bool_decide_eq_false_2 in Hf by (by intros []).
  destruct (is_flag_set meta (kind_flag kind)) eqn:Ef.
  - rewrite load_file_get by done. cbn [andb] in Hf. apply negb_false_iff in Hf. destruct kind; try done. cbn [link_lost] in Hf. apply andb_true_iff in Hf as [_ Hmv].
    destruct (iv_moved _ HI id meta Em Hmv) as [data Hd]. pose proof (iv_files _ HI KData id data meta Hd Em) as Hr. rewrite Hmv in Hr.
    eapply (readable_misses (db_archive (rs_db st))); [apply (iv_manager _ HI)|exact Hmv|exact Hr|].
    intros (k' & id' & m' & Hs & Hm' & Hf' & Hk)%(iv_keys _ HI). revert Hk. by apply (lost_key st k' id' id meta).
  - destruct kind; cbn [load_file kind_flag] in *; unfold load_block_data_raw, load_block_proof_raw, has_data, has_proof, has_proof_link; cbn [handle_of bh_meta]; by rewrite Ef.
Qed.


(** Archiving loses a proof link: of a block with a proof and a proof link, both of which
    load, only the proof still loads when the block was archived, though the handle says
    that the link is there. *)
Theorem archived_link_lost st id handle d1 d2 :
  db_reachable st → load_block_handle (rs_db st) id = Some handle → archivable st handle →
  rs_stored st !! (KProof, id) = Some d1 → rs_stored st !! (KProofLink, id) = Some d2 →
  load_file KProofLink (rs_db st) handle = Done (Some d2) ∧
  ∃ db' handle', archive_block (rs_db st) id = Done (Some (), db') ∧ load_block_handle db' id = Some handle' ∧
    load_file KProof db' handle' = Done (Some d1) ∧ has_proof_link handle' = true ∧ load_file KProofLink db' handle' = Done None.
Proof.
  intros Hr Hl Hab H1 H2. pose proof (db_reachable_inv _ Hr) as HI. split.
  { destruct (inv_load st KProofLink id d2 HI H2) as (h & Hh & Hload). congruence. }
  destruct (archive_progress st id handle HI Hl Hab) as (db' & handle' & Hrun & Hl' & _). exists db', handle'. split; [done|]. split; [done|].
  pose proof (step_archive_inv st id handle db' HI Hl Hab Hrun) as HI'. set (st' := {| rs_db := db' |}) in HI'.
  assert (Hs1 : rs_stored st' !! (KProof, id) = Some d1) by (cbn [st' rs_stored]; rewrite archived_other by auto; done).
  assert (Hs2 : rs_stored st' !! (KProofLink, id) = None) by (cbn [st' rs_stored]; unfold archived_files; rewrite H1; apply lookup_delete_eq).
  unfold load_block_handle in Hl'. destruct (db_handles db' !! id) as [meta|] eqn:Em; [|done]. injection Hl' as <-. split_and!.
  - destruct (inv_load st' KProof id d1 HI' Hs1) as (h & Hh & Hload). unfold load_block_handle in Hh. cbn [st' rs_db] in Hh. rewrite Em in Hh. by injection Hh as <-.
  - by eapply (archived_link_flag st id handle db' meta d2).
  - exact (not_stored_misses st' KProofLink id meta HI' Em Hs2).
Qed.

(** Moving a block to the archive runs to its end and succeeds: when its turn has
    come and there is room, [archive_block] leaves the handle archived, with no
    panic on the way, and the run goes on from there. *)
Theorem archiving_succeeds st id handle :
  db_reachable st → load_block_handle (rs_db st) id = Some handle → archivable st handle →
  ∃ db' handle', archive_block (rs_db st) id = Done (Some (), db') ∧
    load_block_handle db' id = Some handle' ∧ is_archived handle' = true ∧
    db_reachable {| rs_db := db'; rs_first := rs_first st; rs_bound := N.max (rs_bound st) (get_mc_seq_no handle + 1);
                    rs_stored := archived_files (rs_stored st) id |}.
Proof.
  intros Hr Hl Hab. destruct (archive_progress st id handle (db_reachable_inv _ Hr) Hl Hab) as (db' & handle' & Hrun & Hl' & Ha).
  exists db', handle'. split_and!; try done. eapply db_next; [exact Hr|]. by eapply step_archive.
Qed.

(** What the invariant says of an archived file. *)
Lemma archived_file st kind id handle data :
  db_inv st → load_block_handle (rs_db st) id = Some handle → is_archived handle = true → rs_stored st !! (kind, id) = Some data →
  readable (db_archive (rs_db st)) handle (kind_entry kind id) data ∧ get_mc_seq_no handle < rs_bound st.
Proof.
  intros HI Hl Ha Hst. unfold load_block_handle in Hl. destruct (db_handles (rs_db st) !! id) as [meta|] eqn:Em; [|done]. injection Hl as <-.
  unfold is_archived in Ha. cbn [bh_meta] in Ha. pose proof (iv_files _ HI kind id data meta Hst Em) as Hav. rewrite Ha in Hav.
  split; [exact Hav|exact (iv_bound _ HI id meta Em Ha)].
Qed.

(** Other nodes get the archived files: the archive identifier of the number of an
    archived block leads to the package file, in pieces of any size, in which the
    entry of each file of the block is. *)
Theorem archived_packages_served st kind id handle data :
  db_reachable st → load_block_handle (rs_db st) id = Some handle → is_archived handle = true → is_key_block handle = false →
  get_mc_seq_no handle < two32 → rs_stored st !! (kind, id) = Some data →
  ∃ archive_id package offset, manager_get_archive_id (db_archive (rs_db st)) (get_mc_seq_no handle) = Some archive_id ∧
    (∀ start limit, manager_get_archive_slice (db_archive (rs_db st)) archive_id start limit =
       Done (Some (take (N.to_nat limit) (drop (N.to_nat start) (pkg_file package))))) ∧
    Package_read_entry package offset = Some (file_entry (filename (kind_entry kind id)) data).
Proof.
  intros HI%db_reachable_inv Hl Ha Hkey H32 Hst. destruct (archived_file st kind id handle data HI Hl Ha Hst) as [Hr _].
  unfold readable in Hr. rewrite Hkey in Hr. eapply found_served; [apply (mg_files _ _ _ (iv_manager _ HI))|done|exact Hr].
Qed.

(** C28: the collection of old archives takes only what is behind the front: it runs to
    its end, and the files of archived blocks from the front on, those of key blocks
    and those that are not archived yet still load. *)
Theorem collection_keeps_files shared st front kind id handle data :
  let am := ArchiveManager_gc shared (db_archive (rs_db st)) front in
  db_reachable st → load_block_handle (rs_db st) id = Some handle → rs_stored st !! (kind, id) = Some data →
  rs_bound st + ARCHIVE_SLICE_SIZE <= two32 →
  (is_archived handle = true → is_key_block handle = true ∨ N.max (rs_first st) front <= get_mc_seq_no handle) →
  fst (FileMap_gc shared (am_files (db_archive (rs_db st))) front) = Some () ∧
  manager_ok (N.max (rs_first st) front) (rs_bound st) am ∧
  load_file kind (with_archive (rs_db st) am) handle = Done (Some data).
Proof.
  intros am HI%db_reachable_inv Hl Hst H32 Hfront. pose proof (iv_manager _ HI) as [Hf Hk].
  destruct (gc_files shared _ _ _ front Hf H32) as (fm' & Hrun & Hf' & _ & Hfound).
  assert (Hok : manager_ok (N.max (rs_first st) front) (rs_bound st) am) by (unfold am, ArchiveManager_gc; rewrite Hrun; by split).
  rewrite Hrun. split_and!; [done|exact Hok|].
  pose proof (inv_load st kind id data HI Hst) as (h0 & Hl0 & Hload). assert (h0 = handle) as -> by congruence.
  assert (Hid : bh_id handle = id ∧ db_handles (rs_db st) !! id = Some (bh_meta handle)).
  { unfold load_block_handle in Hl. destruct (db_handles (rs_db st) !! id) as [m|]; [|done]. by injection Hl as <-. }
  destruct Hid as [Hid Hm]. assert (Hflag : is_flag_set (bh_meta handle) (kind_flag kind) = true).
  { destruct (proj1 (iv_flags _ HI kind id)) as (m & Hm' & Hfl & _); [by eexists|congruence]. }
  rewrite load_file_get, Hid in Hload by done. rewrite load_file_get, Hid by done. cbn [with_archive db_archive].
  destruct (is_archived handle) eqn:Ha.
  - destruct (archived_file st kind id handle data HI Hl Ha Hst) as [Hr Hb]. eapply readable_get; [exact Hok|done|]. unfold readable in *.
    destruct (is_key_block handle) eqn:Hkey; [exact Hr|]. destruct (Hfront eq_refl) as [?|Hge]; [done|].
    unfold am, ArchiveManager_gc. rewrite Hrun. by apply Hfound.
  - unfold manager_get_file in *. rewrite Ha in *. destruct kind; exact Hload.
Qed.

(** An archived file is looked for in the archive only. *)
Lemma archive_misses am bound handle e :
  map_ok Blocks bound (am_files am) → is_archived handle = true → is_key_block handle = false → ¬ in_manager am (offset_key e) →
  manager_get_file am handle e = Done None.
Proof.
  intros Hok Ha Hkey Hn. unfold manager_get_file. rewrite Ha, Hkey. unfold get_package_id.
  destruct (get_closest (am_files am) (get_mc_seq_no handle)) as [fd|] eqn:Ec; [|done].
  apply (get_closest_spec _ _ _ (mo_sorted _ _ _ Hok)) in Ec as (k & Hin & _).
  destruct (mo_slice _ _ _ Hok k fd Hin) as (_ & Hid & _). cbn [fmap option_fmap option_map]. rewrite Hid.
  rewrite (get_file_desc_found am Blocks bound k fd false) by done. cbn [mbind outcome_bind].
  destruct (not_in_manager _ _ Hn) as [Hf _]. unfold ArchiveSlice_get_file. by rewrite (Hf k fd Hin).
Qed.

(** A file that is stored for the first time when its block is archived already is
    lost: storing it succeeds and sets its flag, and loading it then fails. *)
Theorem late_file_lost st kind id handle info data r db' :
  db_reachable st → load_block_handle (rs_db st) id = Some handle → is_archived handle = true → is_key_block handle = false →
  rs_stored st !! (kind, id) = None →
  (∀ kind' id', is_Some (rs_stored st !! (kind', id')) → offset_key (kind_entry kind' id') ≠ offset_key (kind_entry kind id)) →
  store_block_file kind (rs_db st) id info data = (Some r, db') →
  ∃ handle', load_block_handle db' id = Some handle' ∧ is_flag_set (bh_meta handle') (kind_flag kind) = true ∧
    load_file kind db' handle' = Done None.
Proof.
  intros HI%db_reachable_inv Hl Ha Hkey Hst Hnames Hrun. unfold load_block_handle in Hl.
  destruct (db_handles (rs_db st) !! id) as [meta|] eqn:Em; [|done]. injection Hl as <-.
  assert (Hc : create_or_load_block_handle (rs_db st) id (Some info) None = (Some {| br_handle := handle_of id meta; br_status := Fetched |}, rs_db st))
    by (unfold create_or_load_block_handle, load_block_handle; by rewrite Em).
  pose proof (store_file_step st kind id info data r db' Hrun meta _ _ Hc eq_refl) as Hs.
  unfold store_file in Hs. cbn [handle_of bh_meta] in Hs. destruct (is_flag_set meta (kind_flag kind)) eqn:Hflag.
  { replace (check_file _ _ _) with true in Hs by (unfold check_file; fold (handle_of id meta) in Ha; by rewrite Ha). injection Hs as _ <-. exists (handle_of id meta).
    unfold load_block_handle. rewrite Em. split_and!; [done|exact Hflag|]. by apply (not_stored_misses st). }
  cbn [andb] in Hs. unfold manager_add_file in Hs.
  destruct (length data =? 0)%nat; [done|]. unfold handle_set_flag in Hs. cbn [handle_of bh_meta bh_id] in Hs.
  pose proof (set_flag_meta meta (kind_flag kind)) as Hset. destruct (set_flag meta (kind_flag kind)) as [changed meta'] eqn:Es.
  cbn [snd] in Hset. injection Hs as _ <-. exists (handle_of id meta').
  unfold load_block_handle. cbn [put_handle with_handles db_handles bh_id bh_meta]. rewrite lookup_insert_eq. split; [done|].
  assert (Hf' : is_flag_set meta' (kind_flag kind) = true) by (rewrite Hset by apply kind_flag_in; by rewrite N.eqb_refl). split; [exact Hf'|].
  rewrite load_file_get by done. cbn [handle_of bh_id with_archive with_handles put_handle db_archive].
  apply (archive_misses _ (rs_bound st)).
  - apply (mg_files _ _ _ (iv_manager _ HI)).
  - unfold is_archived in *. cbn [handle_of bh_meta] in *. rewrite Hset by first [apply kind_flag_in|apply moved_in]. by rewrite Ha, orb_true_r.
  - unfold is_key_block in *. cbn [handle_of bh_meta] in *. rewrite Hset by first [apply kind_flag_in|apply key_block_in].
    rewrite Hkey. by destruct kind.
  - intros (kind' & id' & m & Hs & _ & _ & Hk)%(iv_keys _ HI). by apply (Hnames kind' id').
Qed.
End files.

(** ** Archive maps *)

Lemma sorted_filter (P : N * FileDescription → Prop) `{!∀ x, Decision (P x)} l : StronglySorted key_lt l → StronglySorted key_lt (filter P l).
Proof.
  induction 1 as [|e l Hs IH He]; [by rewrite filter_nil; constructor|]. rewrite filter_cons. case_decide; [|done]. constructor; [done|].
  rewrite list.Forall_forall in *. intros x [_ Hx]%list_elem_of_filter. by apply He.
Qed.

Lemma last_closest l m k fd :
  StronglySorted key_lt l → list.last (filter (λ e, fst e <= m) l) = Some (k, fd) → closest l m k fd.
Proof.
  intros Hs Hl. pose proof (last_Some_elem_of _ _ Hl) as [Hk Hin]%list_elem_of_filter. split_and!; [done|done|].
  intros k' f' Hin' Hk'. apply last_Some in Hl as [l' Hl]. pose proof (sorted_filter (λ e, fst e <= m) l Hs) as Hf. rewrite Hl in Hf.
  assert (Hel : (k', f') ∈ l' ++ [(k, fd)]) by (rewrite <- Hl; by apply list_elem_of_filter).
  apply elem_of_app in Hel as [Hel|[= -> ->]%list_elem_of_singleton]; [|done].
  pose proof (StronglySorted_app_1_elem_of _ _ _ _ _ Hf Hel ltac:(by apply list_elem_of_singleton)) as Hlt. unfold key_lt in Hlt. cbn in Hlt. lia.
Qed.

(** The binary searches of a file map are lookups: [get] finds the slice under the
    very key, and [get_closest] the one under the largest key that is not above the
    number, if there is one. *)
Theorem file_map_lookups fm key :
  StronglySorted key_lt (fm_elements fm) →
  FileMap_get fm key = (list_to_map (fm_elements fm) : gmap N FileDescription) !! key ∧
  get_closest fm key = option_map snd (list.last (filter (λ e, fst e <= key) (fm_elements fm))).
Proof.
  intros Hs. split; apply option_eq; intros fd.
  - rewrite get_spec by done. apply elem_of_list_to_map. apply NoDup_alt. intros i j x Hi Hj. rewrite list_lookup_fmap in Hi, Hj.
    destruct (fm_elements fm !! i) as [[k1 f1]|] eqn:Ei; [|done]. destruct (fm_elements fm !! j) as [[k2 f2]|] eqn:Ej; [|done].
    simplify_eq/=. destruct (Nat.lt_trichotomy i j) as [Hlt|[?|Hgt]]; [|done|].
    + pose proof (sorted_lookup _ i j _ _ Hs Hlt Ei Ej) as H. cbn in H. lia.
    + pose proof (sorted_lookup _ j i _ _ Hs Hgt Ej Ei) as H. cbn in H. lia.
  - rewrite get_closest_spec by done. split.
    + intros (k & Hc). destruct (list.last (filter _ (fm_elements fm))) as [[k' f']|] eqn:El.
      * pose proof (last_closest _ _ _ _ Hs El) as Hc'. by destruct (closest_unique _ _ _ _ _ _ Hs Hc Hc') as [_ ->].
      * destruct Hc as (Hin & Hk & _). apply last_None in El. assert (Hf : (k, fd) ∈ filter (λ e, fst e <= key) (fm_elements fm)) by (by apply list_elem_of_filter).
        rewrite El in Hf. by apply not_elem_of_nil in Hf.
    + destruct (list.last (filter _ (fm_elements fm))) as [[k' f']|] eqn:El; [|done]. intros [= <-]. exists k'. by apply last_closest.
Qed.

(** A node that only has archives of key blocks does not serve them: the archive
    identifiers it gives out are already divided by the package size, and the
    request for the slice divides them again. *)
Theorem key_archives_not_served am bound m offset limit :
  fm_elements (am_files am) = [] → map_ok KeyBlocks bound (am_key_files am) → bound <= KEY_ARCHIVE_PACKAGE_SIZE →
  (∀ k fd, (k, fd) ∈ fm_elements (am_key_files am) → 0 < k) → is_Some (get_closest (am_key_files am) m) →
  ∃ archive_id, manager_get_archive_id am m = Some archive_id ∧ manager_get_archive_slice am archive_id offset limit = Done None.
Proof.
  intros Hno Hok Hb Hpos [fd Hc].
  pose proof (proj1 (get_closest_spec _ _ _ (mo_sorted _ _ _ Hok)) Hc) as (k & Hin & _).
  destruct (mo_slice _ _ _ Hok k fd Hin) as (Hs & _). pose proof (key_bound _ _ _ _ _ Hok Hin) as Hk.
  assert (Hnone : ∀ x, get_closest (am_files am) x = None ∧ FileMap_get (am_files am) x = None) by (intros x; unfold get_closest, FileMap_get, search; by rewrite Hno).
  exists k. split.
  - unfold manager_get_archive_id. rewrite (proj1 (Hnone m)), Hc. unfold get_archive_id. by rewrite (sa_mode _ _ _ Hs), (sa_id _ _ _ Hs).
  - unfold manager_get_archive_slice, get_file_desc. cbn [PackageId_for_block PackageId_for_key_block pid_id pid_package_type FileMaps_get mbind outcome_bind].
    rewrite (proj2 (Hnone _)). cbn [mbind outcome_bind].
    assert (Hz : as_u32 k / KEY_ARCHIVE_PACKAGE_SIZE = 0).
    { unfold as_u32. rewrite N.mod_small by (unfold KEY_ARCHIVE_PACKAGE_SIZE, two32 in *; lia). apply N.div_small. lia. }
    rewrite Hz. destruct (FileMap_get (am_key_files am) 0) as [f|] eqn:E; [|done].
    apply (get_spec _ _ _ (mo_sorted _ _ _ Hok)), Hpos in E. lia.
Qed.

(** ** A run *)
Definition block_7 : BlockInfo := {| bi_key_block := true; bi_gen_utime := 100; bi_start_lt := 5 |}.
Definition block_8 : BlockInfo := {| bi_key_block := false; bi_gen_utime := 103; bi_start_lt := 9 |}.

Definition start : RunState := {| rs_db := empty_db; rs_first := 7; rs_bound := 7; rs_stored := ∅ |}.
Definition run_store (st : RunState) (kind : FileKind) (id : BlockIdExt) (info : BlockInfo) (data : list N) : RunState :=
  {| rs_db := snd (store_block_file kind (rs_db st) id info data); rs_first := rs_first st; rs_bound := rs_bound st;
     rs_stored := match rs_stored st !! (kind, id) with Some _ => rs_stored st | None => <[(kind, id) := data]> (rs_stored st) end |}.
Definition run_archive (st : RunState) (id : BlockIdExt) : RunState :=
  {| rs_db := match archive_block (rs_db st) id with Done (_, db) => db | _ => rs_db st end; rs_first := rs_first st;
     rs_bound := N.max (rs_bound st) (seq_no id + 1); rs_stored := archived_files (rs_stored st) id |}.

Definition stored_7 : RunState :=
  run_store (run_store (run_store start KProofLink (mc_block 7) block_7 [9; 9]) KProof (mc_block 7) block_7 [4]) KData (mc_block 7) block_7 [1; 2; 3].
Definition after_7 : RunState := run_archive stored_7 (mc_block 7).
Definition stored_8 : RunState := run_store after_7 KData (mc_block 8) block_8 [5; 6].
Definition after_8 : RunState := run_archive stored_8 (mc_block 8).

Definition room_check (fm : FileMap) (n : N) : bool :=
  forallb (λ e : N * FileDescription, forallb (λ pi, pkg_size (pi_package pi) + n <? two64) (as_packages (fd_archive_slice (snd e)))) (fm_elements fm).

Lemma room_check_ok fm n : room_check fm n = true → maps_room fm n.
Proof.
  unfold room_check. rewrite forallb_forall. intros Hall k fd Hin i pi Hi. specialize (Hall (k, fd)). rewrite <- list_elem_of_In, forallb_forall in Hall.
  apply N.ltb_lt, (Hall Hin pi), list_elem_of_In. by eapply list_elem_of_lookup_2.
Qed.

Lemma all_kinds (kind : FileKind) : kind ∈ [KData; KProof; KProofLink].
Proof. destruct kind; repeat constructor. Qed.

(** Different names, decided. *)
Definition fresh_names (st : RunState) (kind : FileKind) (id : BlockIdExt) : bool :=
  forallb (λ e : BlockIdExt * BlockMeta, forallb (λ k, bool_decide ((k, fst e) = (kind, id)) || negb (is_flag_set (snd e) (kind_flag k)) ||
      (negb (bool_decide (filename_short (kind_entry k (fst e)) = filename_short (kind_entry kind id))) &&
       negb (offset_key (kind_entry k (fst e)) =? offset_key (kind_entry kind id)))) [KData; KProof; KProofLink]) (map_to_list (db_handles (rs_db st))).

Lemma fresh_names_ok st kind id kind' id' :
  fresh_names st kind id = true → flagged (rs_db st) kind' id' → (kind', id') ≠ (kind, id) →
  filename_short (kind_entry kind' id') ≠ filename_short (kind_entry kind id) ∧
  offset_key (kind_entry kind' id') ≠ offset_key (kind_entry kind id).
Proof.
  unfold fresh_names. rewrite forallb_forall. intros Hall (meta & Hm & Hf) Hne. specialize (Hall (id', meta)).
  rewrite <- list_elem_of_In, elem_of_map_to_list in Hall. specialize (Hall Hm). rewrite forallb_forall in Hall.
  specialize (Hall kind'). rewrite <- list_elem_of_In in Hall. cbn [fst snd] in Hall. specialize (Hall (all_kinds kind')).
  rewrite bool_decide_eq_false_2, Hf in Hall by done. cbn [orb negb] in Hall. apply andb_prop in Hall as [H1 H2].
  apply negb_true_iff, bool_decide_eq_false in H1. apply negb_true_iff, N.eqb_neq in H2. done.
Qed.

Lemma mc_block_ok n : n < two32 → block_id_ok (mc_block n).
Proof. by split. Qed.

Lemma run_store_reachable st kind id info data :
  db_reachable st → block_id_ok id → N.of_nat (length data) <= u32_max → Forall byte_ok data → fresh_names st kind id = true →
  (is_archived <$> load_block_handle (rs_db st) id) ≠ Some true → match fst (store_block_file kind (rs_db st) id info data) with Some _ => true | None => false end = true →
  db_reachable (run_store st kind id info data).
Proof.
  intros Hr Hid Hsize Hbytes Hnames Ha Hrun. destruct (fst (store_block_file kind (rs_db st) id info data)) as [r|] eqn:Er; [|done].
  eapply db_next; [exact Hr|]. unfold run_store. eapply (step_store st kind id info data r).
  - split; try done; [intros kind' id'; by apply fresh_names_ok|]. intros handle Hl Har. rewrite Hl in Ha. cbn in Ha. congruence.
  - rewrite <- Er. apply surjective_pairing.
Qed.

Lemma run_archive_reachable st id meta :
  db_reachable st → db_handles (rs_db st) !! id = Some meta → is_masterchain id = true → archivable st (handle_of id meta) →
  db_reachable (run_archive st id).
Proof.
  intros Hr Hm Hmc Hab. assert (Hl : load_block_handle (rs_db st) id = Some (handle_of id meta)) by (unfold load_block_handle; by rewrite Hm).
  destruct (archive_progress st id _ (db_reachable_inv _ Hr) Hl Hab) as (db' & handle' & Hrun & _).
  eapply db_next; [exact Hr|]. unfold run_archive. rewrite Hrun.
  assert (Hseq : seq_no id = get_mc_seq_no (handle_of id meta)) by (unfold get_mc_seq_no; cbn [handle_of bh_id]; by rewrite Hmc).
  rewrite Hseq. by eapply step_archive.
Qed.

Ltac run_store_tac :=
  apply run_store_reachable; [|apply mc_block_ok; vm_compute; reflexivity|vm_compute; discriminate|repeat constructor|vm_compute; reflexivity|
    vm_compute; discriminate|vm_compute; reflexivity].

Lemma stored_7_reachable : db_reachable stored_7.
Proof. unfold stored_7. do 3 run_store_tac. constructor. Qed.

Lemma stored_7_archivable : ∃ meta, db_handles (rs_db stored_7) !! mc_block 7 = Some meta ∧ archivable stored_7 (handle_of (mc_block 7) meta).
Proof.
  eexists. split; [vm_compute; reflexivity|]. split; [vm_compute; reflexivity..|by left|vm_compute; reflexivity|].
  split; apply room_check_ok; vm_compute; reflexivity.
Qed.

Lemma after_7_reachable : db_reachable after_7.
Proof.
  destruct stored_7_archivable as (meta & Hm & Hab). by apply (run_archive_reachable stored_7 _ meta stored_7_reachable Hm).
Qed.

Lemma stored_8_reachable : db_reachable stored_8.
Proof. unfold stored_8. run_store_tac. apply after_7_reachable. Qed.

Lemma stored_8_archivable : ∃ meta, db_handles (rs_db stored_8) !! mc_block 8 = Some meta ∧ archivable stored_8 (handle_of (mc_block 8) meta).
Proof.
  eexists. split; [vm_compute; reflexivity|]. split; [vm_compute; reflexivity..|by right|vm_compute; reflexivity|].
  split; apply room_check_ok; vm_compute; reflexivity.
Qed.

Lemma after_8_reachable : db_reachable after_8.
Proof.
  destruct stored_8_archivable as (meta & Hm & Hab). by apply (run_archive_reachable stored_8 _ meta stored_8_reachable Hm).
Qed.

(** ** Witnesses *)
Lemma mc_block_named n : n < two32 → named_ok (mc_block n).
Proof.
  intros Hn. assert (Hb : n mod 256 < 256) by (by apply N.mod_upper_bound). split; try done; apply Forall_replicate; exact Hb.
Qed.

Lemma entry_filename_roundtrip_witness :
  from_filename (filename (EntryPersistentState (mc_block 8) (mc_block 7))) = Done (Some (EntryPersistentState (mc_block 8) (mc_block 7))).
Proof. apply (entry_filename_roundtrip (EntryPersistentState (mc_block 8) (mc_block 7))). split; apply mc_block_named; reflexivity. Defined.

Lemma truncated_state_name_panics_witness :
  from_filename (filename_prefix (EntryPersistentState (mc_block 8) (mc_block 8)) ++ [95] ++ BlockIdExt_filename (mc_block 8)) = Panic.
Proof. apply (truncated_state_name_panics (mc_block 8)). apply mc_block_named. reflexivity. Defined.

Lemma stored_7_both : rs_stored stored_7 !! (KProof, mc_block 7) = Some [4] ∧ rs_stored stored_7 !! (KProofLink, mc_block 7) = Some [9; 9].
Proof. split; vm_compute; reflexivity. Qed.



Lemma load_handle_of db id meta : db_handles db !! id = Some meta → load_block_handle db id = Some (handle_of id meta).
Proof. intros Hm. unfold load_block_handle. by rewrite Hm. Qed.

Lemma archived_link_lost_witness :
  ∃ db' handle', archive_block (rs_db stored_7) (mc_block 7) = Done (Some (), db') ∧ load_block_handle db' (mc_block 7) = Some handle' ∧
    load_file KProof db' handle' = Done (Some [4]) ∧ has_proof_link handle' = true ∧ load_file KProofLink db' handle' = Done None.
Proof.
  destruct stored_7_archivable as (meta & Hm & Hab). destruct stored_7_both as [H1 H2].
  exact (proj2 (archived_link_lost stored_7 (mc_block 7) (handle_of (mc_block 7) meta) [4] [9; 9] stored_7_reachable
    (load_handle_of _ _ _ Hm) Hab H1 H2)).
Defined.

Lemma archiving_succeeds_witness :
  ∃ db' handle', archive_block (rs_db stored_8) (mc_block 8) = Done (Some (), db') ∧
    load_block_handle db' (mc_block 8) = Some handle' ∧ is_archived handle' = true.
Proof.
  destruct stored_8_archivable as (meta & Hm & Hab).
  destruct (archiving_succeeds stored_8 (mc_block 8) (handle_of (mc_block 8) meta) stored_8_reachable) as (db' & handle' & H1 & H2 & H3 & _).
  - unfold load_block_handle. rewrite Hm. reflexivity.
  - exact Hab.
  - exists db', handle'. split; [exact H1|]. split; [exact H2|exact H3].
Defined.

Definition handle_8 : BlockHandle :=
  match load_block_handle (rs_db after_8) (mc_block 8) with Some handle => handle | None => handle_of (mc_block 8) (BlockMeta_from_block block_8) end.

Lemma handle_8_loaded : load_block_handle (rs_db after_8) (mc_block 8) = Some handle_8.
Proof.
  assert (H : match load_block_handle (rs_db after_8) (mc_block 8) with Some _ => true | None => false end = true) by (vm_compute; reflexivity).
  unfold handle_8. destruct (load_block_handle (rs_db after_8) (mc_block 8)); [reflexivity|discriminate].
Qed.

Lemma archived_packages_served_witness :
  ∃ archive_id package offset, manager_get_archive_id (db_archive (rs_db after_8)) 8 = Some archive_id ∧
    (∀ start limit, manager_get_archive_slice (db_archive (rs_db after_8)) archive_id start limit =
       Done (Some (take (N.to_nat limit) (drop (N.to_nat start) (pkg_file package))))) ∧
    Package_read_entry package offset = Some (file_entry (filename (EntryBlock (mc_block 8))) [5; 6]).
Proof.
  apply (archived_packages_served after_8 KData (mc_block 8) handle_8 [5; 6] after_8_reachable handle_8_loaded); vm_compute; reflexivity.
Defined.

Lemma collection_keeps_files_witness :
  load_file KData (with_archive (rs_db after_8) (ArchiveManager_gc (λ _, false) (db_archive (rs_db after_8)) 8)) handle_8 = Done (Some [5; 6]).
Proof.
  apply (collection_keeps_files (λ _, false) after_8 8 KData (mc_block 8) handle_8 [5; 6] after_8_reachable handle_8_loaded).
  - vm_compute. reflexivity.
  - vm_compute. discriminate.
  - intros _. right. vm_compute. discriminate.
Defined.

Lemma late_file_lost_witness :
  ∃ handle', load_block_handle (snd (store_block_file KProof (rs_db after_8) (mc_block 8) block_8 [9])) (mc_block 8) = Some handle' ∧
    is_flag_set (bh_meta handle') (kind_flag KProof) = true ∧
    load_file KProof (snd (store_block_file KProof (rs_db after_8) (mc_block 8) block_8 [9])) handle' = Done None.
Proof.
  assert (Hr : match fst (store_block_file KProof (rs_db after_8) (mc_block 8) block_8 [9]) with Some _ => true | None => false end = true)
    by (vm_compute; reflexivity).
  destruct (fst (store_block_file KProof (rs_db after_8) (mc_block 8) block_8 [9])) as [r|] eqn:Er; [|discriminate].
  apply (late_file_lost after_8 KProof (mc_block 8) handle_8 block_8 [9] r _ after_8_reachable handle_8_loaded).
  - vm_compute. reflexivity.
  - vm_compute. reflexivity.
  - vm_compute. reflexivity.
  - intros kind' id' Hs. apply (fresh_names_ok after_8); [vm_compute; reflexivity|apply stored_flagged; [apply db_reachable_inv, after_8_reachable|exact Hs]|].
    intros Heq. injection Heq as -> ->. vm_compute in Hs. destruct Hs as [d Hd]. discriminate Hd.
  - rewrite <- Er. apply surjective_pairing.
Defined.

Definition two_slices : FileMap :=
  {| fm_storage := ∅; fm_elements := (λ k, (k, {| fd_id := PackageId_for_block k; fd_deleted := false;
       fd_archive_slice := {| as_archive_id := k; as_packages := []; as_sliced_mode := true; as_slice_size := 100; as_package_type := Blocks;
                              as_finalized := false; as_dbs := empty_dbs; as_disk := ∅ |} |})) <$> [7; 50];
     fm_disk := ∅; fm_dbs := ∅ |}.

(** The slice of number 60 is the one that starts at 50. *)
Lemma file_map_lookups_witness : as_archive_id <$> (fd_archive_slice <$> get_closest two_slices 60) = Some 50.
Proof.
  rewrite (proj2 (file_map_lookups two_slices 60 ltac:(repeat constructor))). vm_compute. reflexivity.
Defined.

(** A run that starts with the key block 200007; later its slices of blocks are gone. *)
Definition key_run : RunState :=
  run_store {| rs_db := empty_db; rs_first := 200007; rs_bound := 200007; rs_stored := ∅ |} KData (mc_block 200007) block_7 [1].
Definition key_archives : FileMap := am_key_files (db_archive (rs_db (run_archive key_run (mc_block 200007)))).

Lemma key_archives_ok : map_ok KeyBlocks 2 key_archives.
Proof.
  assert (Hr : db_reachable (run_archive key_run (mc_block 200007))).
  { eapply run_archive_reachable; [|vm_compute; reflexivity|done|].
    - unfold key_run. run_store_tac. constructor.
    - split; [vm_compute; reflexivity..|by left|vm_compute; reflexivity|split; apply room_check_ok; vm_compute; reflexivity]. }
  destruct (mg_keys _ _ _ (iv_manager _ (db_reachable_inv _ Hr))) as (kb & Hok & _ & Hle). fold key_archives in Hok.
  apply (map_ok_mono _ kb); [exact Hok|]. change (kb - 1 <= 1) in Hle. lia.
Qed.

Lemma key_archives_not_served_witness :
  let am := {| am_unapplied := ∅; am_files := empty_file_map; am_key_files := key_archives |} in
  ∃ archive_id, manager_get_archive_id am 200007 = Some archive_id ∧ manager_get_archive_slice am archive_id 0 100 = Done None.
Proof.
  apply (key_archives_not_served {| am_unapplied := ∅; am_files := empty_file_map; am_key_files := key_archives |} 2 200007 0 100).
  - reflexivity.
  - exact key_archives_ok.
  - vm_compute. discriminate.
  - intros k fd Hin. apply (list_elem_of_fmap_2 fst) in Hin. cbn [fst am_key_files] in Hin.
    assert (Hk : fst <$> fm_elements key_archives = [1]) by (vm_compute; reflexivity). rewrite Hk in Hin.
    apply list_elem_of_singleton in Hin as ->. reflexivity.
  - assert (H : match get_closest key_archives 200007 with Some _ => true | None => false end = true) by (vm_compute; reflexivity).
    cbn [am_key_files]. destruct (get_closest key_archives 200007) as [fd|]; [exists fd; reflexivity|discriminate].
Defined.
