(* ===== verification/DatabaseTheorems.v ===== *)
(** * Properties of the handle storage and of the block index *)

From S2P Require Import Prelude BlockId BlockMeta HandleStorage BlockIndex.

(** ** Handles *)
Section handles.
Context {SI : ShardIdents}.
Implicit Types (id : BlockIdExt) (s : BlockHandleStorage).


(** Loading a handle, when nobody interrupts it, takes at most nine steps (two turns of the
    loop), never fails, gives the meta data the block has, and the handle is the only one of
    its block that is in use. *)
Theorem load_handle_current s id k :
  hs_reachable s →
  let '(c, s') := load_handle (9 + k) s id in
  match c with
  | Returned (LoadFound addr) =>
      ∃ o, hs_heap s' !! addr = Some o ∧ ho_id o = id ∧ handle_view s id = Some (ho_meta o) ∧
      ∀ addr' o', hs_heap s' !! addr' = Some o' → ho_id o' = id → 0 < ho_refs o' → addr' = addr
  | Returned LoadNone => handle_view s id = None
  | _ => False
  end.
Proof.
  intros HI%hs_reachable_inv. pose proof (load_nine_steps s id k HI) as H. destruct (load_handle (9 + k) s id) as [c s'].
  unfold load_outcome in H. cbn [fst snd] in H. destruct c as [| | | | | | | |[addr| |]]; try done. destruct H as (o & Ho & Hid & Hp & Hv & HI'). exists o. split_and!; try done.
  intros a' o' Ho' Hid' Hp'. pose proof (hi_live _ HI' _ _ Ho Hp). pose proof (hi_live _ HI' _ _ Ho' Hp'). congruence.
Qed.

(** ** Runs of the storage *)
Inductive Act :=
| ActLoad (id : BlockIdExt)
| ActCall (n : nat)
| ActMark (addr flag : N)
| ActTake
| ActPut
| ActDrop (addr : N)
| ActDestroy (addr : N).

Definition owned_check s (addr : N) : bool := jobs_of s addr <? strong_count s addr.

Definition act s (a : Act) : option BlockHandleStorage :=
  match a with
  | ActLoad id => Some (add_caller s (LoadLook id))
  | ActCall n => if bool_decide (is_Some (hs_callers s !! n)) then Some (caller_step s n) else None
  | ActMark addr flag => if owned_check s addr && bool_decide (flag ∈ all_flags) then Some (update_handle s addr (λ m, set_flag m flag)) else None
  | ActTake => Some (storer_take true s)
  | ActPut => Some (storer_put true s)
  | ActDrop addr => if owned_check s addr then Some (drop_ref s addr) else None
  | ActDestroy addr => Some (destroy_handle s addr)
  end.
Fixpoint acts (l : list Act) s : option BlockHandleStorage :=
  match l with [] => Some s | a :: l' => s' ← act s a; acts l' s' end.

Lemma act_step s a s' : act s a = Some s' → hs_step false s s'.
Proof.
  destruct a; cbn [act]; intros H.
  - injection H as <-. constructor.
  - case_bool_decide as Hc; [|done]. injection H as <-. destruct Hc as [c Hc]. by econstructor.
  - destruct (owned_check s addr && _) eqn:E; [|done]. injection H as <-. apply andb_true_iff in E as [E1%N.ltb_lt E2%bool_decide_eq_true].
    constructor; [done|by apply set_flag_change].
  - injection H as <-. constructor.
  - injection H as <-. by constructor.
  - destruct (owned_check s addr) eqn:E; [|done]. injection H as <-. apply N.ltb_lt in E. by constructor.
  - injection H as <-. constructor.
Qed.

Lemma acts_run l s s' : acts l s = Some s' → rtc (hs_step false) s s'.
Proof.
  revert s. induction l as [|a l IH]; intros s; cbn [acts]; [by intros [= <-]|]. destruct (act s a) as [s1|] eqn:E; [|done]. cbn.
  intros H. eapply rtc_l; [by apply act_step in E|by apply IH].
Qed.
End handles.

(** ** The index *)
Section index.
Context {SI : ShardIdents} {SP : ShardPrefixes}.

(** C30: a block is found by its number exactly when it was added, whatever splits and
    merges its shards went through. *)
Theorem block_found_by_number self g account shard_at n :
  index_reachable self g → account_chain g account shard_at →
  match get_block_by_seq_no self account n with
  | Some id => ∃ e, account_entry g shard_at e ∧ id = le_block_id_ext e ∧ seq_no id = n
  | None => ∀ e, account_entry g shard_at e → entry_seq e ≠ n
  end.
Proof.
  intros Hr Hc. pose proof (get_block_ok _ _ _ _ _ _ true (number_chain self g account shard_at n Hr Hc)) as H.
  unfold get_block_by_seq_no. destruct (get_block self account _ _ true) as [id|]; cbn [lookup_ok] in H.
  - destruct H as (e & He & -> & [Heq|[? _]]); [|done]. exists e. split_and!; try done. by apply N.compare_eq_iff in Heq.
  - intros e He Heq. apply (H e He). by apply N.compare_eq_iff.
Qed.

(** A lookup by logical time gives the first block of the account's chain at or
    after the time, and fails only when all blocks are before it. *)
Theorem block_found_by_lt self g account shard_at lt :
  index_reachable self g → account_chain g account shard_at →
  (∀ a b, account_entry g shard_at a → account_entry g shard_at b → entry_seq a < entry_seq b → le_lt a < le_lt b) →
  match get_block_by_lt self account lt with
  | Some id => ∃ e, account_entry g shard_at e ∧ id = le_block_id_ext e ∧ lt <= le_lt e ∧
      ∀ e', account_entry g shard_at e' → lt <= le_lt e' → seq_no id <= entry_seq e'
  | None => ∀ e, account_entry g shard_at e → le_lt e < lt
  end.
Proof.
  intros Hr Hc Hlt. pose proof (get_block_ok _ _ _ _ _ _ false (measure_chain self g account shard_at ld_last_lt le_lt lt Hr Hc (λ _ _, eq_refl) Hlt)) as H.
  unfold get_block_by_lt. destruct (get_block self account _ _ false) as [id|]; cbn [lookup_ok] in H.
  - destruct H as (e & He & -> & [Heq|(_ & Hl & Hf)]).
    + apply N.compare_eq_iff in Heq. exists e. split_and!; [done|done|lia|]. intros e' He' Hle.
      destruct (N.le_gt_cases (entry_seq e) (entry_seq e')) as [|Hgt]; [done|]. pose proof (Hlt e' e He' He Hgt). lia.
    + rewrite N.compare_lt_iff in Hl. exists e. split_and!; [done|done|lia|]. intros e' He' Hle. apply (Hf e' He'). rewrite N.compare_gt_iff. lia.
  - intros e He. by apply N.compare_gt_iff, (H e He).
Qed.
End index.

(** ** Witnesses *)

(** One workchain that is whole or split once: [true] is the half of the account. *)
Definition split_prefix (s : bool) : N := if s then 4611686018427387904 else 9223372036854775808.
Lemma split_workchain_range (s : bool) : (- 2 ^ 31 <= 0 < 2 ^ 31)%Z.
Proof. done. Qed.
Lemma split_prefix_range s : split_prefix s < two64.
Proof. by destruct s. Qed.
Lemma split_prefix_ok s : Some (split_prefix s =? 4611686018427387904) = Some s.
Proof. by destruct s. Qed.

#[local] Instance split_shards : ShardIdents :=
  {| ShardIdent := bool; workchain_id := λ _, 0%Z; shard_prefix_with_tag := split_prefix;
     with_tagged_prefix := λ _ p, Some (p =? 4611686018427387904); shard_is_masterchain := λ _, false; intersect_with := λ _ _, true;
     workchain_id_range := split_workchain_range; shard_prefix_range := split_prefix_range; with_tagged_prefix_ok := split_prefix_ok |}.

#[local] Instance split_prefixes : ShardPrefixes := {| with_prefix_len := λ len _ _, Some (len =? 1); MAX_SPLIT_DEPTH := 1 |}.

Definition split_block (half : bool) (n : N) : BlockIdExt :=
  {| shard_id := (half : @ShardIdent split_shards); seq_no := n; root_hash := replicate 32 n; file_hash := replicate 32 n |}.
Definition split_handle (half : bool) (n lt : N) : BlockHandle := {| bh_id := split_block half n; bh_meta := BlockMeta_with_data 0 n lt 0 |}.

(** Blocks 1 and 2, then 3 and 4 of the half, then 5 after the merge. *)
Definition added_blocks : list BlockHandle :=
  [split_handle false 1 10; split_handle false 2 20; split_handle true 3 30; split_handle true 4 40; split_handle false 5 50].

Fixpoint add_blocks (handles : list BlockHandle) (self : BlockIndexDb) (g : ShardIdent → list LtDbEntry)
  : option (BlockIndexDb * (ShardIdent → list LtDbEntry)) :=
  match handles with
  | [] => Some (self, g)
  | handle :: handles' =>
      if N.of_nat (length (g (shard_id (bh_id handle)))) + 3 <? two32 then
        self ← add_handle self handle; add_blocks handles' self (history_add g handle)
      else None
  end.

Lemma add_blocks_reachable handles self g self' g' :
  index_reachable self g → add_blocks handles self g = Some (self', g') → index_reachable self' g'.
Proof.
  revert self g. induction handles as [|handle handles IH]; intros self g Hr; cbn [add_blocks]; [by intros [= <- <-]|].
  destruct (N.ltb_spec (N.of_nat (length (g (shard_id (bh_id handle)))) + 3) two32) as [Hl|]; [|done].
  destruct (add_handle self handle) as [self1|] eqn:Ea; [|done]. apply IH. by eapply index_add.
Qed.

Definition index_start : BlockIndexDb := {| lt_desc_db := ∅; lt_db := ∅ |}.
Definition split_run := add_blocks added_blocks index_start (λ _, []).
Definition split_index : BlockIndexDb := match split_run with Some p => fst p | None => index_start end.
Definition split_history : ShardIdent → list LtDbEntry := match split_run with Some p => snd p | None => λ _, [] end.
Definition whole_account : AccountIdPrefixFull := {| ap_workchain_id := 0; ap_prefix := 0 |}.
Definition account_shard (len : N) : ShardIdent := len =? 1.

Lemma split_reachable : index_reachable split_index split_history.
Proof.
  assert (Hrun : match split_run with Some _ => true | None => false end = true) by (vm_compute; reflexivity).
  unfold split_index, split_history. destruct split_run as [[self g]|] eqn:E; [|discriminate]. cbn [fst snd].
  apply (add_blocks_reachable added_blocks index_start (λ _, [])); [apply index_empty|exact E].
Qed.

Lemma split_lists :
  split_history false = entry_of <$> [split_handle false 1 10; split_handle false 2 20; split_handle false 5 50] ∧
  split_history true = entry_of <$> [split_handle true 3 30; split_handle true 4 40].
Proof. split; vm_compute; reflexivity. Qed.

Lemma split_entries e : account_entry split_history account_shard e → e ∈ entry_of <$> added_blocks.
Proof.
  intros (len & _ & He). destruct split_lists as [H1 H2]. unfold account_shard in He.
  destruct (len =? 1); [rewrite H2 in He|rewrite H1 in He]; apply list_elem_of_fmap in He as (h & -> & Hin); apply list_elem_of_fmap_2;
    revert Hin; unfold added_blocks; rewrite !elem_of_cons; tauto.
Qed.

(** The blocks have different numbers and ascending times. *)
Definition ascending (a b : LtDbEntry) : bool :=
  ((entry_seq a =? entry_seq b) && bool_decide (le_block_id_ext a = le_block_id_ext b) && (le_lt a =? le_lt b) && (le_unix_time a =? le_unix_time b))
  || ((entry_seq a <? entry_seq b) && (le_lt a <? le_lt b)) || ((entry_seq b <? entry_seq a) && (le_lt b <? le_lt a)).

Lemma added_ascending a b : a ∈ entry_of <$> added_blocks → b ∈ entry_of <$> added_blocks → ascending a b = true.
Proof.
  assert (Hall : forallb (λ a, forallb (ascending a) (entry_of <$> added_blocks)) (entry_of <$> added_blocks) = true) by (vm_compute; reflexivity).
  rewrite forallb_forall in Hall. intros Ha Hb. specialize (Hall a (proj1 (list_elem_of_In _ _) Ha)). rewrite forallb_forall in Hall.
  apply Hall. by apply list_elem_of_In.
Qed.

Lemma ascending_lt a b : ascending a b = true → entry_seq a < entry_seq b → le_lt a < le_lt b.
Proof. unfold ascending. rewrite !orb_true_iff, !andb_true_iff, !N.eqb_eq, !N.ltb_lt. lia. Qed.

Lemma ascending_eq a b : ascending a b = true → entry_seq a = entry_seq b → a = b.
Proof.
  unfold ascending. rewrite !orb_true_iff, !andb_true_iff, !N.eqb_eq, !N.ltb_lt, bool_decide_eq_true. intros [[H|H]|H] He; [|lia|lia].
  destruct H as [[[_ H1] H2] H3]. destruct a, b. cbn in *. by subst.
Qed.

Lemma split_chain : account_chain split_history whole_account account_shard.
Proof.
  split.
  - done.
  - intros e He%split_entries. assert (Hall : Forall (λ e, 0 < entry_seq e) (entry_of <$> added_blocks)) by (repeat constructor).
    rewrite list.Forall_forall in Hall. by apply Hall.
  - intros a b Ha%split_entries Hb%split_entries. by apply ascending_eq, added_ascending.
  - intros a b c Hb Hc. change (c <= 1) in Hc. lia.
Qed.

(** Block 4 is in the half shard, and the first block at time 35. *)
Lemma block_found_by_number_witness : get_block_by_seq_no split_index whole_account 4 = Some (split_block true 4).
Proof.
  pose proof (block_found_by_number split_index split_history whole_account account_shard 4 split_reachable split_chain) as H.
  destruct (get_block_by_seq_no split_index whole_account 4) as [id|].
  - destruct H as (e & He & -> & Hn). apply split_entries in He. assert (Hb : entry_of (split_handle true 4 40) ∈ entry_of <$> added_blocks) by (apply list_elem_of_fmap_2; set_solver).
    rewrite (ascending_eq e (entry_of (split_handle true 4 40))); [reflexivity|apply added_ascending; [exact He|exact Hb]|exact Hn].
  - exfalso. refine (H (entry_of (split_handle true 4 40)) _ eq_refl). exists 1. split; [vm_compute; discriminate|].
    destruct split_lists as [_ H2]. change (account_shard 1) with true. rewrite H2. apply list_elem_of_fmap_2. right. left.
Defined.

Lemma block_found_by_lt_witness :
  match get_block_by_lt split_index whole_account 35 with
  | Some id => ∃ e, account_entry split_history account_shard e ∧ id = le_block_id_ext e ∧ 35 <= le_lt e ∧
      ∀ e', account_entry split_history account_shard e' → 35 <= le_lt e' → seq_no id <= entry_seq e'
  | None => ∀ e, account_entry split_history account_shard e → le_lt e < 35
  end.
Proof.
  apply (block_found_by_lt split_index split_history whole_account account_shard 35 split_reachable split_chain).
  intros a b Ha Hb. apply ascending_lt, added_ascending; apply split_entries; assumption.
Defined.

(** A node that starts with one stored handle. *)
Definition old_meta : BlockMeta := BlockMeta_with_data 1 100 5 0.
Definition started : BlockHandleStorage := BlockHandleStorage_with_dbs {[ split_block false 7 := BlockMeta_serialize old_meta ]} ∅.

Lemma started_reachable : hs_reachable started.
Proof.
  apply hs_initial. intros id bytes [<- <-]%lookup_singleton_Some. exists old_meta. split; [by vm_compute|done].
Qed.






Lemma load_handle_current_witness :
  let '(c, s') := load_handle 9 started (split_block false 7) in
  match c with
  | Returned (LoadFound addr) =>
      ∃ o, hs_heap s' !! addr = Some o ∧ ho_id o = split_block false 7 ∧ handle_view started (split_block false 7) = Some (ho_meta o) ∧
      ∀ addr' o', hs_heap s' !! addr' = Some o' → ho_id o' = split_block false 7 → 0 < ho_refs o' → addr' = addr
  | Returned LoadNone => handle_view started (split_block false 7) = None
  | _ => False
  end.
Proof. apply (load_handle_current started (split_block false 7) 0 started_reachable). Defined.

(** One call has read the database; another call loads the handle, marks it, and it is
    stored, dropped and destroyed. *)
Definition overtaking : list Act :=
  [ActLoad (split_block false 7); ActCall 0; ActCall 0; ActLoad (split_block false 7); ActCall 1; ActCall 1; ActCall 1; ActMark 0 FLAG_PROOF; ActCall 2; ActTake; ActPut;
   ActDrop 0; ActDrop 0; ActDestroy 0].
Definition marked : BlockHandleStorage := default started (acts overtaking started).

(** The steps of [load_handle] are not safe to interleave: when the handle is loaded, marked,
    stored and dropped by others after a call has read the database, the handle that this call
    then adds has the old meta data, without the mark. *)
Theorem interrupted_load_is_stale :
  rtc (hs_step false) started marked ∧ (∃ m, handle_view marked (split_block false 7) = Some m ∧ is_flag_set m FLAG_PROOF = true) ∧
  hs_step false marked (caller_step marked 0) ∧ handle_view (caller_step marked 0) (split_block false 7) = Some old_meta ∧ is_flag_set old_meta FLAG_PROOF = false.
Proof.
  split_and!.
  - apply (acts_run overtaking). unfold marked. assert (match acts overtaking started with Some _ => true | None => false end = true) as E by (vm_compute; reflexivity).
    by destruct (acts overtaking started).
  - eexists. split; vm_compute; reflexivity.
  - apply (hs_call false marked 0 (LoadRead (split_block false 7) old_meta)); [vm_compute; reflexivity|done].
  - vm_compute. reflexivity.
  - vm_compute. reflexivity.
Qed.
