(* ===== verification/NodeTheorems.v ===== *)
(** * Theorems: pools of the node

    The pool of external messages, the neighbours in an overlay, operations that are awaited
    by many callers, and the estimate of the size of a block. *)

From Stdlib Require Import SpecFloat.
From S2P Require Import Prelude ExtMessages Neighbours Awaiters Limits.

(** ** External messages *)
Section messages.
Context {M : MessageExternal}.

(** C36: in every state of the pool that calls can lead to, a message has been postponed at
    most three times; when the collator asks to delay an active message, it is postponed until
    five seconds times the number of earlier delays have passed, and after the third delay it
    is dropped. *)
Theorem messages_postponed_thrice (self : gmap N MessageKeeper) (id now : N) (k : MessageKeeper) :
  pool_reachable self → self !! id = Some k →
  postponed_times k ≤ 3
  ∧ (fetch_active (atomic_storage k) = true → postponed_times k < 3 →
      ∃ k', delay_message now self id !! id = Some k' ∧ postponed_times k' = postponed_times k + 1
        ∧ fetch_active (atomic_storage k') = false ∧ fetch_reactivate_at (atomic_storage k') = u32_add now (5 * postponed_times k))
  ∧ (fetch_active (atomic_storage k) = true → postponed_times k = 3 → delay_message now self id !! id = None).
Proof.
  intros Hr Hk. pose proof (pool_reachable_ok _ Hr id k Hk) as Hok. split; [apply (ko_times _ Hok)|]. unfold delay_message. rewrite Hk. split; intros Ha Ht.
  - assert (can_postpone k = true) as Hc by (unfold can_postpone, postponed_times in *; rewrite Ha in Ht; apply N.leb_le; unfold MESSAGE_MAX_GENERATIONS; lia).
    rewrite Hc. destruct (postpone_spec k now Hok Hc Ha) as (_ & Ht' & Ha' & Hre). exists (postpone k now). rewrite lookup_insert_eq. done.
  - assert (can_postpone k = false) as Hc by (unfold can_postpone, postponed_times in *; rewrite Ha in Ht; apply N.leb_gt; unfold MESSAGE_MAX_GENERATIONS; lia).
    rewrite Hc. apply lookup_delete_eq.
Qed.

(** A collator gets exactly the messages for its shard that have not expired and are
    active or due to be active again; expired messages for the shard are dropped, the others
    stay. *)
Theorem messages_offered (self self' : gmap N MessageKeeper) (shard : ExtShard) (now : N) (order : list N) res :
  NoDup order → (∀ id, is_Some (self !! id) → id ∈ order) → get_messages self shard now order = (res, self') →
  (∀ message id, (message, id) ∈ res ↔ ∃ k, self !! id = Some k ∧ mk_message k = message ∧ due shard now k = true)
  ∧ (∀ id, self' !! id = self !! id ≫= visited shard now).
Proof.
  intros Hn Hall Hg. destruct (get_loop_spec shard now order self res self' Hn Hg) as [Hs Hr]. split.
  - intros message id. rewrite Hr. split; [by intros [_ ?]|]. intros (k & Hk & ?). split; [apply Hall; by eexists|by exists k].
  - intros id. rewrite Hs. destruct (decide (id ∈ order)); [done|]. destruct (self !! id) as [k|] eqn:E; [|done]. exfalso. by apply n, Hall.
Qed.
End messages.

(** ** Neighbours *)


Lemma outcomes_filter {A} (P : option A → bool) sum best l draws :
  outcomes P sum best l draws = N.of_nat (length (List.filter (λ ds, P (pick sum best l ds)) draws)).
Proof. induction draws as [|ds draws IH]; simpl; [done|]. rewrite IH. destruct (P _); simpl; lia. Qed.

Lemma filter_length_ext {A} (f g : A → bool) l : (∀ x, f x = g x) → length (List.filter f l) = length (List.filter g l).
Proof. intros H. induction l as [|x l IH]; simpl; [done|]. rewrite H. destruct (g x); simpl; by rewrite IH. Qed.

(** C33: the choice of a neighbour for a query is fair: over all sequences of random numbers,
    each candidate is chosen in exactly the share that its weight has in the sum of the
    weights of the candidates (as long as no neighbour's 32-bit measure of unreliability has
    wrapped around). *)
Theorem neighbour_choice_fair (self : Neighbours) (id w : N) :
  neighbours_reachable self → 1 < nc_count (ns_peers self) → (id, w) ∈ candidates self →
  let draws := all_draws 0 (snd <$> candidates self) in
  N.of_nat (length (List.filter (λ ds, bool_decide (nb_id <$> (choose_neighbour self ds).1.1 = Some id)) draws)) * weight_sum (snd <$> candidates self)
  = w * N.of_nat (length draws).
Proof.
  intros Hr Hc Hin draws. pose proof (neighbours_reachable_ok _ Hr) as Hok.
  rewrite (filter_length_ext _ (λ ds, bool_decide (pick 0 None (candidates self) ds = Some id))) by (intros ds; by rewrite choose_neighbour_pick).
  pose proof (outcomes_filter (λ o : option N, bool_decide (o = Some id)) 0 None (candidates self) draws) as <-.
  pose proof (candidates_nodup _ Hok) as Hnd. unfold draws. apply list_elem_of_split in Hin as (l1 & l2 & E). rewrite E in Hnd |- *.
  rewrite fmap_app in Hnd. apply list.NoDup_app in Hnd as (_ & Hd & Hnd). simpl in Hnd. apply list.NoDup_cons in Hnd as [Hni _].
  assert (bool_decide (Some id = Some id) = true) as Hid by by apply bool_decide_eq_true_2.
  pose proof (outcomes_one (λ o : option N, bool_decide (o = Some id)) 0 None l1 id w l2 eq_refl Hid) as K. rewrite N.add_0_l in K. apply K.
  - apply list.Forall_forall. intros [x v] Hx. simpl. apply bool_decide_eq_false_2. intros [= ->]. apply (Hd id); [apply list_elem_of_fmap; exists (id, v); split; [reflexivity|exact Hx]|simpl; apply list_elem_of_here].
  - apply list.Forall_forall. intros [x v] Hx. simpl. apply bool_decide_eq_false_2. intros [= ->]. apply Hni. apply list_elem_of_fmap. exists (id, v). split; [reflexivity|exact Hx].
Qed.

(** When there are two peers, the first is never the random one. *)
Lemma scan_skips_first v0 v1 rest draws u a b draws' : scan_replaced (v0 :: v1 :: rest) 0 0 None None draws = (u, a, b, draws') →
  NoDup (nb_id <$> v0 :: v1 :: rest) → (∀ v, v ∈ v0 :: v1 :: rest → (nb_unreliability v <= STOP_UNRELIABILITY)%Z) → (u <= STOP_UNRELIABILITY)%Z ∧ b ≠ Some (nb_id v0).
Proof.
  intros Hs Hnd Hu. split.
  - destruct (scan_spec _ _ _ _ _ _ _ _ _ _ Hs) as (_ & _ & _ & [[-> _]|(v & Hv & _ & ->)]); [done|by apply Hu].
  - cbn [scan_replaced] in Hs. destruct (if (0 <? nb_unreliability v0)%Z then _ else _) as [u1 a1]. rewrite N.eqb_refl in Hs. change (0 + 1 =? 0) with false in Hs. cbv iota in Hs.
    destruct (if (u1 <? nb_unreliability v1)%Z then _ else _) as [u2 a2].
    assert (∀ ds, (gen_range (0 + 1) ds).1 = 0) as H1 by (intros [|r ds]; [done|apply N.mod_1_r]).
    specialize (H1 draws). destruct (gen_range (0 + 1) draws) as [r ds]. simpl in H1. subst r. cbv zeta in Hs. rewrite N.eqb_refl in Hs.
    destruct (scan_spec _ _ _ _ _ _ _ _ _ _ Hs) as ([->|(v & Hv & ->)] & _); intros [= E]; cbn [fmap list_fmap] in Hnd; apply list.NoDup_cons in Hnd as [Hni _]; apply Hni.
    + rewrite <- E. apply list_elem_of_here.
    + rewrite <- E. apply list_elem_of_further. apply list_elem_of_fmap. by exists v.
Qed.

(** When the overlay reports a peer that is not a neighbour, there are sixteen neighbours
    and none of them is unreliable, some neighbour is replaced at random, but never the first:
    whatever numbers are drawn, the first neighbour stays ([gen_range(0, cnt)] is asked for
    the second neighbour with [cnt = 1] and can only answer zero). *)
Theorem first_neighbour_never_replaced (self : Neighbours) (peer : N) (draws : list N) :
  neighbours_reachable self → nc_count (ns_peers self) = MAX_NEIGHBOURS → cache_contains (ns_peers self) peer = false →
  (∀ v, v ∈ get_iter (ns_peers self) → (nb_unreliability v <= STOP_UNRELIABILITY)%Z) →
  nc_indices (ns_peers (got_neighbour self peer draws).1.2) !! 0 = nc_indices (ns_peers self) !! 0
  ∧ ∃ i, 0 < i ∧ nc_indices (ns_peers (got_neighbour self peer draws).1.2) !! i = Some peer.
Proof.
  intros Hr Hc Hp Hu. pose proof (neighbours_reachable_ok _ Hr) as Hok. destruct (got_neighbour_ok self peer draws Hok Hp) as (ex & _ & _ & Hrep).
  destruct (Hrep Hc) as (old & i & Hold & Hi & ->). assert (i ≠ 0) as Hi0.
  - intros ->. destruct (get_iter_spec _ Hok) as [Hl Hg]. rewrite Hc in Hl. unfold replaced in Hold. pose proof (get_iter_nodup _ Hok) as Hnd.
    destruct (get_iter (ns_peers self)) as [|v0 [|v1 rest]] eqn:E; [done|done|].
    destruct (scan_replaced (v0 :: v1 :: rest) 0 0 None None draws) as [[[u a] b] ds] eqn:Es. destruct (scan_skips_first _ _ _ _ _ _ _ _ Es Hnd Hu) as [Hu5 Hb].
    replace (STOP_UNRELIABILITY <? u)%Z with false in Hold by (symmetry; apply Z.ltb_ge; done). subst b. apply Hb. f_equal.
    assert (get_iter (ns_peers self) !! 0%nat = Some v0) as H0 by by rewrite E. apply get_iter_ids in H0 as [H0 _]; [|done]. change (N.of_nat 0) with 0 in H0. congruence.
  - split; [by rewrite lookup_insert_ne|]. exists i. split; [lia|]. apply lookup_insert_eq.
Qed.

(** With two or more neighbours the next one to ping is the one whose turn it is, however
    recently it was pinged: the code that looks for a neighbour that was not pinged within the
    last second never comes to a second round. *)
Theorem next_ping_round_robin (c : NeighboursCache) (elapsed : N) (fuel : nat) :
  cache_ok c → 1 < nc_count c →
  ∃ p v, nc_indices c !! nc_next c = Some p ∧ nc_values c !! p = Some v
    ∧ next_for_ping (S fuel) c elapsed = (PingFound v, with_next c (if nc_next c + 1 <? nc_count c then nc_next c + 1 else 0)).
Proof.
  intros Hok Hc. assert (nc_next c < nc_count c) as Hlt by (destruct (co_next _ Hok); lia). destruct (proj2 (co_dense _ Hok (nc_next c)) Hlt) as [p Hp].
  destruct (proj2 (co_values _ Hok p)) as [v Hv]; [by exists (nc_next c)|]. exists p, v. split; [done|]. split; [done|]. unfold next_for_ping. cbn [ping_loop]. rewrite Hp, Hv.
  assert (u32_sub (nc_count c) 1 = nc_count c - 1) as ->.
  { unfold u32_sub. pose proof (co_count _ Hok) as Hm. unfold MAX_NEIGHBOURS in *. replace (nc_count c + two32 - 1) with (nc_count c - 1 + 1 * two32) by lia.
    rewrite N.Div0.mod_add. apply N.mod_small. unfold two32. lia. }
  assert ((if nc_count c - 1 <=? nc_next c then 0 else nc_next c + 1) = (if nc_next c + 1 <? nc_count c then nc_next c + 1 else 0)) as ->.
  { destruct (N.leb_spec (nc_count c - 1) (nc_next c)), (N.ltb_spec (nc_next c + 1) (nc_count c)); try done; lia. }
  assert (((if nc_next c + 1 <? nc_count c then nc_next c + 1 else 0) =? nc_next c) = false) as Hne.
  { apply N.eqb_neq. destruct (N.ltb_spec (nc_next c + 1) (nc_count c)); lia. }
  cbv zeta. rewrite Hne. by destruct (_ <? 1000).
Qed.

(** ** Operations that many wait for *)
Section awaiting.
Context {I R : Type} `{Countable I} (Hinh : Inhabited I).
Implicit Types (self : AwaitersPool (I := I) (R := R)).

(** C31: in every interleaving of callers, at most one of them does the operation for a key at
    a time. *)
Theorem operation_exclusive self n n' id addr addr' : pool_run self →
  callers self !! n = Some (Operating id addr) → callers self !! n' = Some (Operating id addr') → n = n'.
Proof.
  intros Hr Hn Hn'. destruct (pool_run_inv Hinh _ Hr) as [key Hi]. destruct (pi_owned _ _ Hi n _ id addr Hn eq_refl) as [_ Hm].
  destruct (pi_owned _ _ Hi n' _ id addr' Hn' eq_refl) as [_ Hm']. pose proof (proj2 Hm Logic.I) as E. pose proof (proj2 Hm' Logic.I) as E'. rewrite E in E'. injection E' as <-.
  by eapply (pi_owner _ _ Hi n n').
Qed.

(** Whoever returns with the result of an operation returns with the same result, the
    one that the caller who did the operation has sent. *)
Theorem waiters_get_result self n n' id id' addr r r' : pool_run self →
  callers self !! n = Some (Returned id addr r) → callers self !! n' = Some (Returned id' addr r') → id = id' ∧ r = r'.
Proof.
  intros Hr Hn Hn'. destruct (pool_run_inv Hinh _ Hr) as [key Hi]. destruct (pi_holds _ _ Hi n _ id addr Hn eq_refl) as [<- _].
  destruct (pi_holds _ _ Hi n' _ id' addr Hn' eq_refl) as [<- _]. split; [done|].
  destruct (pi_result _ _ Hi n _ addr r Hn) as (a & Ha & Hc), (pi_result _ _ Hi n' _ addr r' Hn') as (a' & Ha' & Hc'). congruence.
Qed.

(** C32: no wake-up is lost: a caller that waits either waits for an operation that nobody has
    begun, which is then still in the map, so that the next caller of [do_or_wait] begins it;
    or the steps of the caller that does the operation lead to the waiting caller's return. *)
Theorem waiters_wake self n id addr (r0 : OpResult (R := R)) : pool_run self → callers self !! n = Some (Waiting id addr) →
  (∃ a, awaiters self !! addr = Some a ∧ is_started a = false ∧ ops_awaiters self !! id = Some addr)
  ∨ (∃ self' r, rtc some_step self self' ∧ callers self' !! n = Some (Returned id addr r)).
Proof.
  intros Hr Hn. destruct (pool_run_inv Hinh _ Hr) as [key Hi]. destruct (pi_holds _ _ Hi n _ id addr Hn eq_refl) as [Hk [a Ha]].
  destruct (is_started a) eqn:Es; [right|left; exists a; destruct (pi_idle _ _ Hi addr a Ha Es) as [Hm _]; by rewrite Hk in Hm].
  destruct (channel a) as [r|] eqn:Ec.
  - exists (put_caller self n (Returned id addr r)), r. split; [|by eapply put_lookup_eq]. eapply rtc_l; [|apply rtc_refl]. exists n. by eapply step_changed.
  - destruct (pi_started _ _ Hi addr a Ha Es Ec) as (m & c & Hm & Ho).
    destruct (owner_wakes self m n c (key addr) id addr a r0 Hm Ho Hn Ha) as (s & r & Hs & Hret & _). by exists s, r.
Qed.
End awaiting.

(** ** The size of a block *)

(** C35: whatever a collator registers, the cells of its block are counted once: the number of
    cells, the bits and the references of the estimate are sums over the distinct hashes below
    the registered messages and dictionaries (every 64th), modulo the width of the counters. *)
Theorem cells_counted_once (cell_at : N → Cell) (calls : list LimitCall) :
  (∀ r, r ∈ registered_by 0 0 calls → known cell_at r) →
  let s := stats (foldl limit_call with_limits calls) in
  let roots := registered_by 0 0 calls in
  cells_seen s = hashes roots
  ∧ cells (cells_stats s) = N.of_nat (size (hashes roots)) mod two32
  ∧ bits (cells_stats s) = total cell_at bit_length (hashes roots) mod two32
  ∧ internal_refs (cells_stats s) = (N.of_nat (length roots) + total cell_at count_refs (hashes roots)) mod two32.
Proof.
  intros Hk. destruct (run_stats cell_at calls with_limits []) as [H1 H2 H3 H4 _]; [by split|by intros r ?%elem_of_nil|exact Hk|]. simpl in *. done.
Qed.

(** ** Witnesses *)

(** Messages are numbers, for the shard of the same number. *)
Definition demo_external : MessageExternal :=
  {| ExtMessage := N; ExtShard := N; ExtAddress := N; ExtPrefix := N; ExtCell := N; ext_dst_ref := Some; ext_prefix := Some;
     ext_contains_full_prefix := N.eqb; ext_deserialize_tree_of_cells := λ data, Some (N.of_nat (length data)); ext_level := λ _, 0; ext_repr_depth := λ _, 1;
     ext_cell_hash := λ c, c; ext_construct_message := Some; ext_has_ext_in_header := λ _, true |}.

Definition demo_messages_pool : gmap N (@MessageKeeper demo_external) := pool_call ∅ (CallNew (M := demo_external) 7 (3 : N) 100).

Lemma demo_messages_reachable : pool_reachable (M := demo_external) demo_messages_pool.
Proof. apply pool_step, pool_empty. Qed.

Lemma messages_postponed_thrice_witness :
  ∃ k', delay_message (M := demo_external) 160 demo_messages_pool 7 !! 7 = Some k' ∧ postponed_times (M := demo_external) k' = 1.
Proof.
  destruct (messages_postponed_thrice (M := demo_external) demo_messages_pool 7 160 (MessageKeeper_new (M := demo_external) (3 : N) 100)) as (_ & Hd & _).
  - apply demo_messages_reachable.
  - reflexivity.
  - destruct Hd as (k' & Hk & Ht & _); [reflexivity|vm_compute; reflexivity|]. exists k'. split; [exact Hk|exact Ht].
Defined.

Lemma messages_offered_witness :
  (get_messages (M := demo_external) demo_messages_pool (3 : N) 160 [7]).2 !! 7 = Some (MessageKeeper_new (M := demo_external) (3 : N) 100).
Proof.
  destruct (messages_offered (M := demo_external) demo_messages_pool (get_messages (M := demo_external) demo_messages_pool (3 : N) 160 [7]).2 (3 : N) 160 [7]
    (get_messages (M := demo_external) demo_messages_pool (3 : N) 160 [7]).1) as [_ Hs].
  - apply NoDup_singleton.
  - intros id [k Hk]. unfold demo_messages_pool in Hk. simpl in Hk. unfold new_message in Hk. rewrite lookup_empty in Hk.
    apply lookup_insert_Some in Hk as [[<- _]|[_ Hk]]; [apply list_elem_of_here|]. by rewrite lookup_empty in Hk.
  - apply surjective_pairing.
  - rewrite Hs. vm_compute. reflexivity.
Defined.

(** Neighbours [1 .. n]. *)
Definition demo_neighbours (n : nat) : Neighbours :=
  match Neighbours_new (N.of_nat <$> seq 1 n) with
  | Some self => self
  | None => {| ns_peers := {| nc_count := 0; nc_next := 0; nc_indices := ∅; nc_values := ∅ |}; ns_all_peers := ∅; ns_fail_attempts := 0; ns_all_attempts := 0; ns_deleted := [] |}
  end.

Lemma demo_two_reachable : neighbours_reachable (demo_neighbours 2).
Proof. apply (neighbours_start (N.of_nat <$> seq 1 2)). vm_compute. reflexivity. Qed.

Lemma demo_sixteen_reachable : neighbours_reachable (demo_neighbours 16).
Proof. apply (neighbours_start (N.of_nat <$> seq 1 16)). vm_compute. reflexivity. Qed.



Lemma neighbour_choice_fair_witness :
  N.of_nat (length (List.filter (λ ds, bool_decide (nb_id <$> (choose_neighbour (demo_neighbours 2) ds).1.1 = Some 2)) (all_draws 0 (snd <$> candidates (demo_neighbours 2)))))
    * weight_sum (snd <$> candidates (demo_neighbours 2)) = 64 * N.of_nat (length (all_draws 0 (snd <$> candidates (demo_neighbours 2)))).
Proof.
  refine (neighbour_choice_fair (demo_neighbours 2) 2 64 demo_two_reachable _ _).
  - vm_compute. reflexivity.
  - assert (candidates (demo_neighbours 2) = [(1, 64); (2, 64)]) as E by (vm_compute; reflexivity). rewrite E. apply list_elem_of_further, list_elem_of_here.
Defined.

Lemma first_neighbour_never_replaced_witness :
  nc_indices (ns_peers (got_neighbour (demo_neighbours 16) 17 [3; 1; 4; 1; 5; 9; 2; 6]).1.2) !! 0 = Some 1.
Proof.
  destruct (first_neighbour_never_replaced (demo_neighbours 16) 17 [3; 1; 4; 1; 5; 9; 2; 6] demo_sixteen_reachable) as [E _].
  - vm_compute. reflexivity.
  - vm_compute. reflexivity.
  - intros v Hv. assert (forallb (λ v, (nb_unreliability v <=? STOP_UNRELIABILITY)%Z) (get_iter (ns_peers (demo_neighbours 16))) = true) as Hb by (vm_compute; reflexivity).
    rewrite forallb_forall in Hb. apply Z.leb_le, Hb. by apply list_elem_of_In.
  - rewrite E. vm_compute. reflexivity.
Defined.

Lemma next_ping_round_robin_witness :
  ∃ v, next_for_ping 1 (ns_peers (demo_neighbours 2)) 5 = (PingFound v, with_next (ns_peers (demo_neighbours 2)) 1).
Proof.
  destruct (next_ping_round_robin (ns_peers (demo_neighbours 2)) 5 0) as (p & v & _ & _ & E).
  - apply neighbours_reachable_ok, demo_two_reachable.
  - vm_compute. reflexivity.
  - exists v. rewrite E. f_equal.
Defined.

(** Two callers: the first does the operation, the second waits. *)
Module Demo.
Definition Pool := AwaitersPool (I := N) (R := N).
Definition start : Pool := {| ops_awaiters := ∅; awaiters := []; callers := [DoLookup 5; WaitLookup 5] |}.
Definition absent : Pool := put_caller start 0 (DoAdd 5).
Definition added : Pool := {| ops_awaiters := {[5 := 0%nat]}; awaiters := [OperationAwaiters_new true]; callers := [DoAdd 5; WaitLookup 5] |}.
Definition operating : Pool := put_caller added 0 (Operating 5 0).
Definition waiting : Pool := put_caller operating 1 (Waiting 5 0).
Definition removing : Pool := put_caller waiting 0 (Removing 5 0 (OpOk 42)).
Definition sending : Pool := put_caller (remove_awaiters removing 5) 0 (Sending 5 0 (OpOk 42)).
Definition sent : Pool := put_caller (change_awaiters sending 0 {| is_started := true; channel := Some (OpOk 42) |}) 0 (Returned 5 0 (OpOk 42)).
Definition finished : Pool := put_caller sent 1 (Returned 5 0 (OpOk 42)).
End Demo.

Lemma demo_waiting_run : pool_run Demo.waiting.
Proof.
  apply (run_caller Demo.operating 1 Demo.waiting); [|apply step_wait_found; reflexivity].
  apply (run_caller Demo.absent 0 Demo.operating); [|apply step_do_added; reflexivity].
  apply (run_caller Demo.start 0 Demo.absent); [|apply step_do_absent; reflexivity]. by apply run_start.
Qed.

Lemma demo_finished_run : pool_run Demo.finished.
Proof.
  apply (run_caller Demo.sent 1 Demo.finished); [|by eapply (step_changed Demo.sent 1 5 0 {| is_started := true; channel := Some (OpOk 42) |})].
  apply (run_caller Demo.sending 0 Demo.sent); [|by apply (step_send Demo.sending 0 5 0 (OpOk 42) (OperationAwaiters_new true))].
  apply (run_caller Demo.removing 0 Demo.sending); [|by apply step_remove]. apply (run_caller Demo.waiting 0 Demo.removing); [|by apply step_operation]. apply demo_waiting_run.
Qed.

Lemma operation_exclusive_witness : callers Demo.waiting !! 0%nat = Some (Operating 5 0) ∧ 0%nat = 0%nat.
Proof. split; [reflexivity|]. apply (operation_exclusive (I := N) (R := N) _ Demo.waiting 0 0 5 0 0 demo_waiting_run); reflexivity. Defined.

Lemma waiters_get_result_witness : 5 = 5 ∧ OpOk (R := N) 42 = OpOk 42.
Proof. apply (waiters_get_result (I := N) (R := N) _ Demo.finished 0 1 5 5 0 (OpOk 42) (OpOk 42) demo_finished_run); reflexivity. Defined.

Lemma waiters_wake_witness : ∃ self' r, rtc some_step Demo.waiting self' ∧ callers self' !! 1%nat = Some (Returned 5 0 r).
Proof.
  destruct (waiters_wake (I := N) (R := N) _ Demo.waiting 1 5 0 (OpOk 42) demo_waiting_run) as [(a & Ha & Hs & _)|Hw].
  - reflexivity.
  - vm_compute in Ha. injection Ha as <-. discriminate Hs.
  - exact Hw.
Defined.

(** A message cell with a shared child, registered twice. *)
Definition demo_leaf : Cell := mkCell 1 8 [].
Definition demo_cell : Cell := mkCell 2 16 [demo_leaf; demo_leaf].
Definition demo_cell_at (h : N) : Cell := if h =? 1 then demo_leaf else demo_cell.

Lemma cells_counted_once_witness :
  cells (cells_stats (stats (foldl limit_call with_limits [InMsgOp demo_cell demo_leaf; OutMsgOp demo_cell demo_leaf]))) = 2.
Proof.
  destruct (cells_counted_once demo_cell_at [InMsgOp demo_cell demo_leaf; OutMsgOp demo_cell demo_leaf]) as (_ & Hc & _).
  - intros r Hr x Hx. assert (r = demo_cell) as ->.
    { vm_compute in Hr. apply elem_of_cons in Hr as [->|Hr]; [reflexivity|]. by apply list_elem_of_singleton in Hr as ->. }
    simpl in Hx. repeat apply elem_of_cons in Hx as [->|Hx]; [reflexivity..|]. by apply elem_of_nil in Hx.
  - rewrite Hc. vm_compute. reflexivity.
Defined.
