(* ===== verification/ProofTheorems.v ===== *)
(** * Theorems: proofs of blocks and descriptions of shard blocks

    What a checked block proof and a validated description of shard blocks guarantee, and what
    the pool of descriptions keeps. *)

From S2P Require Import Prelude BlockId Checks Signatures BlockHeader BlockProof TopBlockDescr ShardBlocks.

Section theorems.
Context {SI : ShardIdents} {T : ShardTree} {V : Validators} {BC : BlockConfigs}.

(** C20: a proof (not a link) that [check_proof] accepts is a certificate: its header belongs to
    the block it is for, the validators are computed from the previous key block, which is an
    older masterchain block with the declared number, or from the zero state when there is
    none, and, when no node has two entries in its signatures and three times the total weight
    fits in 64 bits, more than two thirds of the weight of these validators have signed the
    hashes of the block. *)
Theorem proof_certificate (self : BlockProofStuff) (engine : Engine) : check_proof self engine = Ok () → is_link self = false →
  ∃ virt info vs h s, proof_header_ok self virt info ∧ validators_from self engine info vs h
    ∧ proof_signatures (proof self) = Some s ∧ validator_list_hash_short s = h
    ∧ (distinct_signers s → 3 * total_weight vs < two64 → ∃ sg, two_thirds_signed (proof_id self) vs sg).
Proof.
  intros Hc Hl. unfold check_proof in Hc. rewrite Hl in Hc. apply Res_bind_Ok in Hc as ([virt info] & Hp & Hc). pose proof (pre_check_ok _ _ _ Hp) as Hok.
  assert (∃ vs h, validators_from self engine info vs h ∧ check_signatures self vs h = Ok ()) as (vs & h & Hv & Hs).
  { destruct (prev_key_block_seqno info =? 0) eqn:E; breflect.
    - apply Res_bind_Ok in Hc as (st & Hst%or_fail_Ok & Hc). by eapply zero_state_ok.
    - apply Res_bind_Ok in Hc as (hd & Hh%or_fail_Ok & Hc). apply Res_bind_Ok in Hc as (key & Hk%or_fail_Ok & Hc). eapply prev_key_block_ok; try done. by apply (ph_info _ _ _ Hok). }
  destruct (check_signatures_ok _ _ _ Hs) as (s & Hsig & Hh & Hcert). by exists virt, info, vs, h, s.
Qed.

(** C38: the signatures of a block are not checked for repetitions: a single validator with more
    than a small part of the weight, whose one signature is entered often enough under different
    keys of the dictionary (no more than the 65536 that its 16 bit keys allow), passes the check
    of signatures for all validators. *)
Theorem one_validator_signs_alone (p : BlockProof) (link : bool) (id : BlockIdExt) (vs : list ValidatorDescr) (h cc : N) (vd : ValidatorDescr) (x : list N) :
  validators_map vs !! key_id (public_key vd) = Some vd → 2 * total_weight vs < 65536 * weight vd → 6 * total_weight vs + 9 * weight vd < two64 →
  verify_signature (public_key vd) (build_data_for_sign (root_hash id) (file_hash id)) x = true →
  ∃ k : nat, N.of_nat k <= 65536 ∧ check_signatures {| proof := {| proof_for := proof_for p; proof_root := proof_root p; proof_signatures := Some (repeated vd x k h cc) |};
                           is_link := link; proof_id := id |} vs h = Ok ()
    ∧ signers (validators_map vs) (pure_signatures (repeated vd x k h cc)) = replicate k vd.
Proof.
  intros Hm Hw Hs Hv. set (k := N.to_nat (2 * total_weight vs / weight vd + 1)). exists k. split; [|split].
  - unfold k. rewrite N2Nat.id. assert (2 * total_weight vs / weight vd < 65536) by (apply N.Div0.div_lt_upper_bound; lia). lia.
  - assert (weight vd ≠ 0) as Hw0 by lia. pose proof (N.div_mod (2 * total_weight vs) (weight vd) Hw0) as Hd. pose proof (N.mod_lt (2 * total_weight vs) (weight vd) Hw0) as Hlt.
    set (q := 2 * total_weight vs / weight vd) in *. assert ((q + 1) * weight vd = weight vd * q + weight vd) as E by (rewrite N.mul_add_distr_r, N.mul_1_l, (N.mul_comm q); reflexivity).
    set (m := (2 * total_weight vs) mod weight vd) in *. assert (N.of_nat k * weight vd = weight vd * q + weight vd) as Ek by (unfold k; by rewrite N2Nat.id).
    clearbody q m k. apply repeated_accepted; [done|done|..]; rewrite Ek; generalize dependent (weight vd * q); intros; lia.
  - unfold repeated. cbn [pure_signatures]. generalize k. intros j. induction j as [|j IH]; [done|]. cbn [replicate signers node_id_short]. by rewrite Hm, IH.
Qed.

(** When a description of shard blocks is accepted, its chain is one: it begins with the
    block that it is for, the numbers go down by one from block to block to those of the
    blocks before the chain (modulo the width), and the masterchain blocks never go forward. *)
Theorem descr_chain (d : TopBlockDescr) (fake : bool) (self : TopBlockDescrStuff) : TopBlockDescrStuff_new d fake = Ok self →
  descr_size self = length (tbd_chain d) ∧ proof_for_id self = tbd_proof_for d ∧ descr_ok self.
Proof. intros Hn. destruct (new_descr_ok _ _ _ Hn) as (Ht & _ & Hs & Hok). unfold proof_for_id. by rewrite Ht. Qed.

(** C21: a description that validates with a length continues exactly the blocks of the shard
    that the masterchain state knows: that many of its blocks are new, the blocks right before
    them are the known block at the left end of the shard and, when the shard was merged since,
    the known block at its right end, and every masterchain block that the chain refers to is
    one that the state knows.  If the description is not a fake and the check of signatures is
    not skipped, its signatures are for the validators of this shard, computed from the current
    validator set of the state (or the next one, where that is allowed) for its catchain
    number; and when no node has two entries and three times their weight fits in 64 bits, more
    than two thirds of their weight have signed the block.  The assertions of the code on the
    length hold.  It is assumed that headers have two previous blocks only after a merge (their
    format), that no shard is its own parent and that the chain has at most eight blocks. *)
Theorem validated_descr_continues (d : TopBlockDescr) (fake : bool) (self : TopBlockDescrStuff) (mc : BlockIdExt) (extra : McStateExtra) (vert mode flags flags' : N) (n : Z) :
  (∀ s, is_parent_for s s = false) → chain_format (tbd_chain d) →
  TopBlockDescrStuff_new d fake = Ok self → (length (tbd_chain d) <= 8)%nat → seq_no (tbd_proof_for d) < two32 →
  validate_internal self mc extra vert mode flags = (flags', Ok n) → n ≠ (-1)%Z →
  ∃ l r clen, n = Z.of_nat clen ∧ (0 < clen <= 8)%nat ∧ known_blocks self extra l r
    ∧ continues self (rec_block_id l) (rec_block_id r) clen
    ∧ Forall (mc_known mc extra) (chain_mc_blk_ids self)
    ∧ (intersects mode SKIP_CHECK_SIG = false → fake = false → ∃ s vs, tbd_signatures d = Some s
      ∧ shard_validators (tbd_proof_for d) extra mode s vs
      ∧ (distinct_signers s → 3 * total_weight vs < two64 → ∃ sg, two_thirds_signed (tbd_proof_for d) vs sg)).
Proof.
  intros Hirr Hfmt Hn Hlen Hseq Hv Hneg. pose proof (new_descr_shard _ _ _ Hn Hfmt) as Hshard. destruct (new_descr_ok _ _ _ Hn) as (<- & <- & Hs & Hok).
  destruct (validate_ok self mc extra vert mode flags flags' n Hok) as (l & r & clen & -> & Hk & Hco & Hmc & Hsig); [unfold two32; lia|done|done|done|done|done|].
  exists l, r, clen. split; [done|]. split; [destruct (co_pos _ _ _ _ Hco); lia|]. done.
Qed.

(** The validation of a description with a chain never stops the thread, whatever the
    state of the masterchain is: every index is in range. *)
Theorem validation_never_panics (d : TopBlockDescr) (fake : bool) (self : TopBlockDescrStuff) (mc : BlockIdExt) (extra : McStateExtra) (vert mode flags : N) :
  TopBlockDescrStuff_new d fake = Ok self → tbd_chain d ≠ [] → (validate_internal self mc extra vert mode flags).2 ≠ Crash.
Proof.
  intros Hn Hne. destruct (new_descr_ok _ _ _ Hn) as (_ & _ & Hs & Hok). apply validate_no_crash; [done|]. rewrite Hs. destruct (tbd_chain d); [done|simpl; lia].
Qed.

(** The order of the keys of the pool is no order: of two keys with the same prefix and
    catchain number in different workchains, each is greater than the other. *)
Theorem descr_keys_not_ordered (a b : TopBlockDescrId) :
  shard_prefix_with_tag (descr_shard a) = shard_prefix_with_tag (descr_shard b) → cc_seqno a = cc_seqno b →
  workchain_id (descr_shard a) ≠ workchain_id (descr_shard b) → TopBlockDescrId_cmp a b = Gt ∧ TopBlockDescrId_cmp b a = Gt.
Proof.
  intros Hp Hc Hw. unfold TopBlockDescrId_cmp. rewrite Hp, Hc, !N.ltb_irrefl, N.eqb_refl. simpl.
  rewrite !bool_decide_eq_false_2; [done|..]; intros ->; done.
Qed.

(** C22: in every interleaving of calls (each with a description of the block that it is called
    with), of updates and of the engine's applying masterchain states, what the pool holds under
    a key was there at the start, or is a block of that shard that was validated against a
    masterchain state that the engine had applied (unless the pool allows fakes).  And when a
    step puts another block under a key, a call does it that validated the block against a
    state that was the last applied one at the call's beginning or became it while the call ran,
    and the block is newer than the one it replaces.  The validation is that of the code, which
    also accepts a block that is too new for the state. *)
Theorem shard_blocks_newer (blocks : gmap TopBlockDescrId TopBlockDescrStuff) (seqno : N) (fake : bool) (self self' : ShardBlocksPool) :
  rtc ShardBlocks.pool_step (ShardBlocksPool_new blocks seqno fake) self → ShardBlocks.pool_step self self' →
  (∀ key item, shard_blocks self !! key = Some item →
    blocks !! key = Some (top_block item)
    ∨ (shard_id (proof_for_id (top_block item)) = descr_shard key
       ∧ (pool_is_fake self = true ∨ ∃ st z, st ∈ applied self ∧ validate_with st (top_block item) = Ok z)))
  ∧ (∀ key item', shard_blocks self' !! key = Some item' → shard_blocks self !! key ≠ Some item' →
    (∃ n c start, tasks self !! n = Some (Inserting c start (top_block item')) ∧ call_key c = key ∧ proof_for_id (top_block item') = call_id c
      ∧ (pool_is_fake self = true ∨ validated self start (top_block item')))
    ∧ ∀ item, shard_blocks self !! key = Some item → seq_no (proof_for_id (top_block item)) < seq_no (proof_for_id (top_block item'))).
Proof.
  intros Hr Hs. pose proof (pool_run_inv_blocks _ _ _ _ Hr) as Hi. split; [|intros key item'; by eapply pool_step_newer].
  intros key item Hk. destruct (bl_items _ _ Hi key item Hk) as [?|(Hsh & [?|(k & st & z & Hst & _ & Hz)])]; [by left|right; auto..].
  split; [done|]. right. exists st, z. split; [by eapply list_elem_of_lookup_2|done].
Qed.

(** A call that only checks a block stores it: the block is sent to the storage, from which
    the pool is loaded at the next start, though it is not put into the pool. *)
Theorem check_only_stores (self : ShardBlocksPool) (c : Call) (t : TopBlockDescrStuff) (st : McState) (z : Z) :
  genuine c → check_only c = true → factory c = Ok t → pool_is_fake self = false → list.last (applied self) = Some st → validate_with st t = Ok z →
  shard_blocks self !! call_key c = None →
  ∃ self', rtc ShardBlocks.pool_step self self' ∧ storage self' = storage self ++ [Save (call_key c) t] ∧ shard_blocks self' = shard_blocks self.
Proof.
  intros Hg Ho Hf Hfake Hst Hv Hk. set (n := length (tasks self)). set (i := length (applied self)). set (s1 := add_task self (Checking c i None)).
  assert (∀ s x y, tasks s = tasks self ++ [x] → tasks (put_task s n y) = tasks self ++ [y]) as Hput.
  { intros s x y E. simpl. rewrite E, insert_app_r_alt, Nat.sub_diag by (unfold n; lia). done. }
  assert (∀ s x, tasks s = tasks self ++ [x] → tasks s !! n = Some x) as Hget by (intros s x ->; unfold n; by rewrite lookup_app_r, Nat.sub_diag by lia).
  set (s2 := put_task s1 n (Making c i None)). assert (tasks s2 = tasks self ++ [Making c i None]) as E2 by by apply (Hput s1 (Checking c i None)).
  set (s3 := put_task s2 n (Loading c i t)). assert (tasks s3 = tasks self ++ [Loading c i t]) as E3 by by apply (Hput s2 (Making c i None)).
  set (s4 := put_task s3 n (Validating c i t st)). assert (tasks s4 = tasks self ++ [Validating c i t st]) as E4 by by apply (Hput s3 (Loading c i t)).
  set (s5 := put_task s4 n (Saving c i t)). assert (tasks s5 = tasks self ++ [Saving c i t]) as E5 by by apply (Hput s4 (Validating c i t st)).
  exists (put_task (send_to_storage s5 (Save (call_key c) t)) n (Processed c (Ok (MightBeAdded t)))). split; [|done].
  eapply rtc_l; [by apply (pool_process self c)|]. eapply rtc_l; [apply (pool_task s1 n s2), (step_new_block s1 n c i None); [by apply Hget|unfold duplicated; simpl; by rewrite Hk]|].
  eapply rtc_l; [|eapply rtc_l; [|eapply rtc_l; [|eapply rtc_l; [|apply rtc_refl]]]].
  - apply (pool_task s2 n s3). pose proof (step_make s2 n c i None (Hget _ _ E2)) as K. simpl in K. rewrite Hf, Hfake in K. exact K.
  - apply (pool_task s3 n s4). pose proof (step_load s3 n c i t (Hget _ _ E3)) as K. unfold load_last_applied_mc_state in K. simpl in K. rewrite Hst in K. exact K.
  - apply (pool_task s4 n s5). pose proof (step_validate s4 n c i t st (Hget _ _ E4)) as K. unfold after_validation in K. rewrite Hv, Ho in K. exact K.
  - apply (pool_task s5 n), (step_save s5 n c i t). by apply Hget.
Qed.
End theorems.

(** ** Witnesses

    The masterchain and one workchain, each with one shard; a key is its own id and its
    signature, and all validators of a set are responsible for every shard. *)
#[local] Instance two_chains : ShardIdents.
Proof.
  refine {| ShardIdent := bool; workchain_id := λ s : bool, if s then (-1)%Z else 0%Z; shard_prefix_with_tag := λ _, 9223372036854775808;
            with_tagged_prefix := λ w _, if (w =? -1)%Z then Some true else if (w =? 0)%Z then Some false else None;
            shard_is_masterchain := λ s, s; intersect_with := Bool.eqb |}; by intros [].
Defined.

#[local] Instance two_trees : ShardTree :=
  {| masterchain := (true : @ShardIdent two_chains); masterchain_ok := eq_refl; shard_merge := λ _, None; shard_split := λ _, None;
     left_ancestor_mask := Some; right_ancestor_mask := Some; is_parent_for := λ _ _, false; is_full := λ _, true; can_split := λ _, false |}.

#[local] Instance plain_validators : Validators.
Proof.
  refine {| ValidatorSet := list ValidatorDescr; CatchainConfig := unit; ConfigParams := unit; key_id := λ k, k;
            verify_signature := λ k data s, bool_decide (s = k :: data); compute_node_id_short := λ _, replicate 32 0; vset_list := λ l, l;
            vset_new := λ _ l, Some l; calc_subset := λ l _ _ _ cc _, Some (l, 100 + cc); shard_validators_num := λ _, 1; workchains := λ _, None |}.
  intros v. apply length_replicate.
Defined.

#[local] Instance plain_configs : BlockConfigs := {| config_param := λ _ _, Some true; build_data_for_sign := λ r f, r ++ f |}.

Definition demo_id (mc : bool) (n : N) : BlockIdExt := {| shard_id := (mc : @ShardIdent two_chains); seq_no := n; root_hash := [n]; file_hash := [n + 1] |}.
Definition demo_ref (n : N) : ExtBlkRef := {| ref_seq_no := n; ref_root_hash := [n]; ref_file_hash := [n + 1] |}.

Definition demo_info (mc : bool) (n : N) : BlockInfo :=
  {| version := 0; info_shard := (mc : @ShardIdent two_chains); info_seq_no := n; after_split := false; before_split := false; after_merge := false; key_block := false;
     vert_seq_no := 0; vert_seqno_incr := 0; gen_utime := 1000 + n; gen_catchain_seqno := 2; gen_validator_list_hash_short := 102; prev_key_block_seqno := 0;
     read_prev_ref := Some (PrevBlock (demo_ref (n - 1))); read_master_ref := Some (if mc then None else Some (demo_ref 3)) |}.

Definition demo_virt (mc : bool) (n : N) : VirtRoot :=
  {| virt_hash := [n]; virt_block := Some {| read_info := Some (demo_info mc n); read_value_flow := Some {| fees_collected := 0; created := 0 |};
       read_state_update := Some (); read_extra := Some {| created_by := 9; read_custom := Some (Some {| mc_config := Some (() : @ConfigParams plain_validators) |}) |};
       read_cur_validator_set_and_cc_conf := Some (([] : @ValidatorSet plain_validators), (() : @CatchainConfig plain_validators)) |} |}.

Definition demo_validators : list ValidatorDescr := [{| public_key := 11; weight := 10 |}; {| public_key := 12; weight := 3 |}].

Definition demo_signatures (n : N) : BlockSignatures :=
  {| validator_list_hash_short := 102; catchain_seqno := 2; pure_count := 1; pure_weight := 10;
     pure_signatures := [Some {| node_id_short := 11; sign := [11; n; n + 1] |}]; dict_count := λ _, Some 1 |}.

Definition demo_proof : BlockProofStuff :=
  {| proof := {| proof_for := demo_id true 7; proof_root := Some (demo_virt true 7); proof_signatures := Some (demo_signatures 7) |}; is_link := false; proof_id := demo_id true 7 |}.

Definition demo_engine : Engine :=
  {| load_mc_zero_state := Some {| state_block_id := demo_id true 0; state_vset_and_cc := Some ((demo_validators : @ValidatorSet plain_validators), ());
                                   state_config_params := Some (() : @ConfigParams plain_validators) |};
     find_block_by_seq_no := λ _, None; load_block_proof := λ _, None |}.

Lemma proof_certificate_witness : ∃ vs h info, validators_from demo_proof demo_engine info vs h.
Proof.
  destruct (proof_certificate demo_proof demo_engine) as (virt & info & vs & h & s & _ & Hv & _).
  - vm_compute. reflexivity.
  - reflexivity.
  - exists vs, h, info. exact Hv.
Defined.

Lemma one_validator_signs_alone_witness :
  ∃ k, check_signatures {| proof := {| proof_for := demo_id true 7; proof_root := None; proof_signatures := Some (repeated {| public_key := 12; weight := 3 |} [12; 7; 8] k 102 2) |};
                           is_link := false; proof_id := demo_id true 7 |} demo_validators 102 = Ok ().
Proof.
  destruct (one_validator_signs_alone {| proof_for := demo_id true 7; proof_root := None; proof_signatures := None |} false (demo_id true 7) demo_validators 102 2
    {| public_key := 12; weight := 3 |} [12; 7; 8]) as (k & _ & Hk & _).
  - vm_compute. reflexivity.
  - vm_compute. reflexivity.
  - vm_compute. reflexivity.
  - vm_compute. reflexivity.
  - exists k. exact Hk.
Defined.

(** A description of the blocks 6 and 5 of the workchain; the masterchain knows block 4. *)
Definition demo_descr : TopBlockDescr :=
  {| tbd_proof_for := demo_id false 6; tbd_signatures := Some (demo_signatures 6); tbd_chain := [Some (demo_virt false 6); Some (demo_virt false 5)] |}.

Definition demo_stuff : TopBlockDescrStuff :=
  match TopBlockDescrStuff_new demo_descr false with
  | Ok self => self
  | _ => {| tbd := demo_descr; descr_vert_seq_no := 0; chain_mc_blk_ids := []; chain_blk_ids := []; descr_gen_utime := 0; chain_fees := []; chain_head_prev := []; creators := []; is_fake := false |}
  end.

Lemma demo_stuff_new : TopBlockDescrStuff_new demo_descr false = Ok demo_stuff.
Proof.
  assert (match TopBlockDescrStuff_new demo_descr false with Ok _ => true | _ => false end = true) as E by (vm_compute; reflexivity).
  unfold demo_stuff. destruct (TopBlockDescrStuff_new demo_descr false); [reflexivity|discriminate E|discriminate E].
Qed.

Definition demo_extra : McStateExtra :=
  {| prev_blocks_get := λ n, Some (Some (demo_ref n)); find_shard := λ _, Some (Some {| rec_block_id := demo_id false 4 |}); calc_shard_cc_seqno := λ _, Some 2;
     extra_config := (() : @ConfigParams plain_validators); extra_validator_set := Some (demo_validators : @ValidatorSet plain_validators);
     extra_next_validator_set := None; extra_catchain_config := Some (() : @CatchainConfig plain_validators) |}.

Lemma descr_chain_witness : descr_size demo_stuff = 2%nat.
Proof. destruct (descr_chain demo_descr false demo_stuff demo_stuff_new) as [E _]. exact E. Defined.

Lemma demo_descr_format : chain_format (tbd_chain demo_descr).
Proof.
  intros root block info Hr Hb Hi r1 r2 Hp. simpl in Hr. rewrite !elem_of_cons, list.elem_of_nil in Hr.
  destruct Hr as [[= ->]|[[= ->]|[]]]; injection Hb as <-; injection Hi as <-; discriminate Hp.
Qed.

Lemma validated_descr_continues_witness :
  demo_id false 4 ∈ get_prev_at demo_stuff 2 ∧ ∃ sg, two_thirds_signed (demo_id false 6) demo_validators sg.
Proof.
  destruct (validated_descr_continues demo_descr false demo_stuff (demo_id true 8) demo_extra 0 ALLOW_NEXT_VSET 0 20 2) as (l & r & clen & Hn & _ & [(s & Hs & Hl) Hr] & Hc & _ & Hsig).
  - reflexivity.
  - exact demo_descr_format.
  - exact demo_stuff_new.
  - simpl. lia.
  - vm_compute. reflexivity.
  - vm_compute. reflexivity.
  - discriminate.
  - replace clen with 2%nat in Hc by lia. injection Hl as <-. split; [by apply (co_prev _ _ _ _ Hc); left|].
    destruct Hsig as (s0 & vs & [= <-] & (vset & cc & Hor & _ & _ & Hsub) & Hcert); [reflexivity|reflexivity|].
    destruct Hor as [[= <-]|[_ Hor]]; [|discriminate Hor]. change (Ok (demo_validators, 102) = Ok (vs, 102)) in Hsub. injection Hsub as <-. apply Hcert; [|vm_compute; reflexivity].
    unfold distinct_signers. simpl. apply NoDup_singleton.
Defined.

Lemma validation_never_panics_witness : (validate_internal demo_stuff (demo_id true 8) demo_extra 0 0 0).2 ≠ Crash.
Proof. apply (validation_never_panics demo_descr false demo_stuff (demo_id true 8) demo_extra 0 0 0 demo_stuff_new). discriminate. Defined.

Lemma descr_keys_not_ordered_witness :
  TopBlockDescrId_cmp {| descr_shard := (true : @ShardIdent two_chains); cc_seqno := 1 |} {| descr_shard := (false : @ShardIdent two_chains); cc_seqno := 1 |} = Gt.
Proof.
  destruct (descr_keys_not_ordered {| descr_shard := (true : @ShardIdent two_chains); cc_seqno := 1 |} {| descr_shard := (false : @ShardIdent two_chains); cc_seqno := 1 |}) as [E _].
  - reflexivity.
  - reflexivity.
  - discriminate.
  - exact E.
Defined.

Definition demo_call (only : bool) : Call := {| call_id := demo_id false 6; call_cc_seqno := 2; factory := Ok demo_stuff; call_own := false; check_only := only |}.
Definition demo_key : TopBlockDescrId := call_key (demo_call true).
Definition demo_state : McState := {| mc_id := demo_id true 8; mc_custom := Some (Some demo_extra); mc_vert_seq_no := 0 |}.

Lemma demo_call_genuine only : genuine (demo_call only).
Proof. intros t [= <-]. destruct (new_descr_ok _ _ _ demo_stuff_new) as (E & _). unfold proof_for_id. by rewrite E. Qed.

(** A description of the blocks 7, 6 and 5. *)
Definition demo_descr7 : TopBlockDescr :=
  {| tbd_proof_for := demo_id false 7; tbd_signatures := Some (demo_signatures 7); tbd_chain := [Some (demo_virt false 7); Some (demo_virt false 6); Some (demo_virt false 5)] |}.
Definition demo_stuff7 : TopBlockDescrStuff := match TopBlockDescrStuff_new demo_descr7 false with Ok self => self | _ => demo_stuff end.

Lemma demo_stuff7_new : TopBlockDescrStuff_new demo_descr7 false = Ok demo_stuff7.
Proof.
  assert (match TopBlockDescrStuff_new demo_descr7 false with Ok _ => true | _ => false end = true) as E by (vm_compute; reflexivity).
  unfold demo_stuff7. destruct (TopBlockDescrStuff_new demo_descr7 false); [reflexivity|discriminate E|discriminate E].
Qed.

Definition demo_call7 : Call := {| call_id := demo_id false 7; call_cc_seqno := 2; factory := Ok demo_stuff7; call_own := false; check_only := false |}.
Definition demo_pool0 : ShardBlocksPool := ShardBlocksPool_new {[demo_key := demo_stuff]} 8 false.
Definition demo_pool1 : ShardBlocksPool := add_task (engine_apply demo_pool0 demo_state) (Checking demo_call7 1 None).
Definition demo_pool (t : Task) : ShardBlocksPool := put_task demo_pool1 0 t.
Definition demo_inserted : ShardBlocksPool :=
  set_blocks (demo_pool (Inserting demo_call7 1 demo_stuff7)) (<[demo_key := {| top_block := demo_stuff7; own := false |}]> (shard_blocks demo_pool0)).

Lemma demo_pool_lookup : shard_blocks demo_pool0 !! demo_key = Some {| top_block := demo_stuff; own := false |}.
Proof. unfold demo_pool0. simpl. by rewrite lookup_fmap, lookup_singleton_eq. Qed.

Lemma demo_not_duplicated t : duplicated (demo_pool t) demo_call7 = false.
Proof.
  unfold duplicated. change (shard_blocks (demo_pool t)) with (shard_blocks demo_pool0). change (call_key demo_call7) with demo_key. rewrite demo_pool_lookup. vm_compute. reflexivity.
Qed.

Lemma demo_pool_run : rtc ShardBlocks.pool_step demo_pool0 (demo_pool (Inserting demo_call7 1 demo_stuff7)).
Proof.
  eapply rtc_l; [apply (pool_apply demo_pool0 demo_state)|]. eapply rtc_l; [apply (pool_process (engine_apply demo_pool0 demo_state) demo_call7)|].
  { intros t [= <-]. destruct (new_descr_ok _ _ _ demo_stuff7_new) as (E & _). unfold proof_for_id. by rewrite E. }
  eapply rtc_l; [apply (pool_task demo_pool1 0 (demo_pool (Making demo_call7 1 None))), (step_new_block demo_pool1 0 demo_call7 1 None eq_refl), (demo_not_duplicated (Checking demo_call7 1 None))|].
  eapply rtc_l; [apply (pool_task _ 0 (demo_pool (Loading demo_call7 1 demo_stuff7))), (step_make (demo_pool (Making demo_call7 1 None)) 0 demo_call7 1 None eq_refl)|].
  eapply rtc_l; [apply (pool_task _ 0 (demo_pool (Validating demo_call7 1 demo_stuff7 demo_state))), (step_load (demo_pool (Loading demo_call7 1 demo_stuff7)) 0 demo_call7 1 demo_stuff7 eq_refl)|].
  apply rtc_once, (pool_task _ 0). pose proof (step_validate (demo_pool (Validating demo_call7 1 demo_stuff7 demo_state)) 0 demo_call7 1 demo_stuff7 demo_state eq_refl) as K.
  assert (validate_with demo_state demo_stuff7 = Ok 3%Z) as Hv by (vm_compute; reflexivity). rewrite Hv in K. exact K.
Qed.

(** Block 7 takes the place of block 6. *)
Lemma shard_blocks_newer_witness :
  validated (demo_pool (Inserting demo_call7 1 demo_stuff7)) 1 demo_stuff7 ∧ seq_no (proof_for_id demo_stuff) < seq_no (proof_for_id demo_stuff7).
Proof.
  destruct (shard_blocks_newer {[demo_key := demo_stuff]} 8 false (demo_pool (Inserting demo_call7 1 demo_stuff7)) (put_task demo_inserted 0 (Saving demo_call7 1 demo_stuff7))) as [_ Hput].
  - exact demo_pool_run.
  - apply (pool_task _ 0), (step_inserted (demo_pool (Inserting demo_call7 1 demo_stuff7)) 0 demo_call7 1 demo_stuff7 demo_inserted eq_refl). unfold insert_newer. rewrite demo_not_duplicated. reflexivity.
  - destruct (Hput demo_key {| top_block := demo_stuff7; own := false |}) as [(n & c & start & Hn & _ & _ & Hv) Hnew].
    + apply lookup_insert_eq.
    + change (shard_blocks demo_pool0 !! demo_key ≠ Some {| top_block := demo_stuff7; own := false |}). rewrite demo_pool_lookup. discriminate.
    + apply list_lookup_singleton_Some in Hn as [_ [= <- <-]]. split; [destruct Hv as [Hv|Hv]; [discriminate Hv|exact Hv]|].
      exact (Hnew {| top_block := demo_stuff; own := false |} demo_pool_lookup).
Defined.

Lemma check_only_stores_witness : ∃ self', rtc ShardBlocks.pool_step (engine_apply (ShardBlocksPool_new ∅ 8 false) demo_state) self' ∧ storage self' = [Save demo_key demo_stuff].
Proof.
  destruct (check_only_stores (engine_apply (ShardBlocksPool_new ∅ 8 false) demo_state) (demo_call true) demo_stuff demo_state 2) as (s & Hs & Hst & _).
  - apply demo_call_genuine.
  - reflexivity.
  - reflexivity.
  - reflexivity.
  - reflexivity.
  - vm_compute. reflexivity.
  - reflexivity.
  - exists s. split; [exact Hs|exact Hst].
Defined.
