(* ===== verification/ShardTheorems.v ===== *)
(** * Theorems: the shard configuration of the masterchain

    What updates by new shard blocks change, and how far a shard may run ahead. *)

From S2P Require Import Prelude BlockId Checks Signatures BlockHeader ShardUpdates.

Section theorems.
Context {SI : ShardIdents} {T : ShardTree} {SM : SplitMerge} {SH : ShardHashesOps}.

(** C23: an accepted update of the shard configuration by one new block replaces exactly the
    blocks it starts from: each of them is the block recorded for its shard, in a shard that
    was not updated before, with matching split and merge flags; their shards make way for the
    shard of the new block, which is recorded with the catchain number after theirs; every
    other shard keeps its record. *)
Theorem shard_update_exact (shards shards' : ShardHashes) (new_info : ShardRecord) (old_blkids : list BlockIdExt) updated updated' :
  update_shard_block_info shards new_info old_blkids updated = Ok (shards', updated') →
  ∃ rs, Forall2 (start_block_ok shards updated false (bool_decide (length old_blkids = 2%nat))) old_blkids rs
    ∧ next_catchain_seqno (sr_descr new_info)
      = u32_add (foldr (λ r acc, N.max acc (next_catchain_seqno (sr_descr r))) 0 (reverse rs)) (if bool_decide (length old_blkids = 2%nat) then 1 else 0)
    ∧ replaced_by shards shards' old_blkids new_info
    ∧ (∀ u', updated' = Some u' → sr_shard new_info ∈ u').
Proof.
  intros Hu. destruct (update_info_spec _ _ _ _ _ _ Hu) as (rs & Hm & Hr & ->). exists rs. split; [apply (mu_starts _ _ _ _ _ _ Hm)|]. split; [apply (mu_cc _ _ _ _ _ _ Hm)|]. split; [done|].
  intros u' Hu'. destruct updated as [u|]; [|done]. injection Hu' as <-. set_solver.
Qed.

(** An accepted update by the two blocks after a split replaces the record of the split
    shard by those of its two parts and changes nothing else; only the first part is marked
    as updated, the second may be updated again by the same masterchain block. *)
Theorem shard_split_exact (shards shards' : ShardHashes) (new1 new2 : ShardRecord) (old_blkids : list BlockIdExt) updated updated' :
  sr_shard new1 ≠ sr_shard new2 → update_shard_block_info2 shards new1 new2 old_blkids updated = Ok (shards', updated') →
  ∃ ob first second, old_blkids = [ob] ∧ shard_split (shard_id ob) = Some (first, second) ∧ is_Some (leaves shards !! shard_id ob)
    ∧ (∀ s, leaves shards' !! s = if decide (s = sr_shard new1) then Some new1 else if decide (s = sr_shard new2) then Some new2
                              else if decide (s = shard_id ob) then None else leaves shards !! s)
    ∧ ((sr_shard new1, sr_shard new2) = (first, second) ∨ (sr_shard new2, sr_shard new1) = (first, second))
    ∧ (∀ u u', updated = Some u → updated' = Some u' → first ∈ u' ∧ (second ∈ u' → second ∈ u)).
Proof.
  intros Hne Hu. destruct (update_info2_spec _ _ _ _ _ _ _ Hne Hu) as (ob & first & -> & Hleaf & Hl & -> & Hsp).
  assert (∃ second, shard_split (shard_id ob) = Some (first, second) ∧ ((sr_shard new1, sr_shard new2) = (first, second) ∨ (sr_shard new2, sr_shard new1) = (first, second))) as (second & Hs & Hor).
  { destruct Hsp as [[-> Hs]|[-> Hs]]; [exists (sr_shard new2)|exists (sr_shard new1)]; auto. }
  destruct (split_distinct _ _ _ Hs) as (D12 & _ & _). exists ob, first, second. split; [done|]. split; [done|]. split; [done|]. split; [|split; [done|]].
  - intros s. rewrite Hl. destruct (decide (s = sr_shard new1)) as [->|N1]; [apply lookup_insert_eq|]. rewrite lookup_insert_ne by done.
    destruct (decide (s = sr_shard new2)) as [->|N2]; [apply lookup_insert_eq|]. rewrite lookup_insert_ne by done.
    destruct (decide (s = shard_id ob)) as [->|N3]; [apply lookup_delete_eq|by rewrite lookup_delete_ne].
  - intros u u' -> Hu'. injection Hu' as <-. split; [set_solver|]. intros [E%elem_of_singleton|?]%elem_of_union; [by destruct D12|done].
Qed.

(** C24: a collator and a validator accept a new shard block only near the masterchain, with
    [left] the record that the masterchain lists at the left end of the shard.  Either the
    masterchain lists the shard itself: the block is not the first after a split or merge, no
    split is under way, no merge with the sibling is under way, and the previous block is the
    listed one or at most seven blocks after it.  Or the masterchain still lists the two parts
    of the shard, [left] and the record at the right end, both ready to merge: the previous
    blocks are exactly these two (first block after the merge), or the previous block is after
    both and at most seven blocks after the later.  Or the masterchain still lists the shard
    of which this is a part, ready to split: the previous block is exactly the listed one
    (first block after the split), or at most seven blocks after it.  So no more than eight
    blocks of a shard are unregistered.  A validator accepts the announcement of a split only
    in the time planned for it.  The number in a record of the masterchain is that of its
    block, and eight more numbers fit in 32 bits. *)
Theorem new_block_near_masterchain (shard : ShardIdent) (after_merge after_split before_split : bool) (prev_blocks : list BlockIdExt) wc_info (shards : ShardHashes)
    (is_validate : bool) (now : N) res :
  listed_ok shards →
  check_this_shard_mc_info shard after_merge after_split before_split prev_blocks wc_info shards is_validate now = Ok res →
  ∃ l_shard left, left_ancestor_mask shard = Some l_shard ∧ find_shard_of shards l_shard = Some (Some left)
    ∧ near_masterchain shards shard after_merge after_split prev_blocks left
    ∧ (is_validate = true → before_split = true → split_planned shard left now).
Proof.
  intros Hok Hc. unfold check_this_shard_mc_info in Hc. do 7 apply Res_bind_Ok in Hc as (? & _ & Hc). apply Res_bind_Ok in Hc as (ls & Hls%or_fail_Ok & Hc).
  apply Res_bind_Ok in Hc as (o & Ho%or_fail_Ok & Hc). apply Res_bind_Ok in Hc as (left & Hl%or_fail_Ok & Hc). subst o. apply Res_bind_Ok in Hc as ([[lim bs] al] & Hk & Hc).
  apply Res_bind_Ok in Hc as (? & Hs%ensure_Ok & _). destruct (Hok _ _ Ho) as [_ Hb]. exists ls, left. split; [done|]. split; [done|].
  case_bool_decide as Hsame.
  { apply check_same_near in Hk as [Hn Hv]; [|done|done]. split; [done|]. intros -> ->. destruct (Hv eq_refl) as [Ebs Hp]. simpl in Ebs. subst bs. apply Hp.
    simpl. by destruct al. }
  destruct (is_parent_for shard (sr_shard left)) eqn:E1; [|destruct (is_parent_for (sr_shard left) shard) eqn:E2; [|done]]; apply Res_bind_Ok in Hk as (? & Hk & [= <- <- <-]);
    (split; [|by intros -> ->; discriminate Hs]).
  - eapply check_merged_near; eauto.
  - by eapply check_split_near.
Qed.
End theorems.

(** ** Witnesses

    The masterchain and a workchain that can be split once. *)
Inductive DemoShard := Mc | Whole | Left | Right.
#[local] Instance DemoShard_eq_dec : EqDecision DemoShard.
Proof. solve_decision. Defined.
#[local] Instance DemoShard_countable : Countable DemoShard.
Proof.
  apply (inj_countable' (λ s, match s with Mc => 0 | Whole => 1 | Left => 2 | Right => 3 end) (λ n, if n =? 0 then Mc else if n =? 1 then Whole else if n =? 2 then Left else Right)).
  by intros [].
Defined.

Definition demo_prefix (s : DemoShard) : N := match s with Mc | Whole => 0x8000000000000000 | Left => 0x4000000000000000 | Right => 0xC000000000000000 end.

#[local] Instance once_split : ShardIdents.
Proof.
  refine {| ShardIdent := DemoShard; workchain_id := λ s, match s with Mc => (-1)%Z | _ => 0%Z end; shard_prefix_with_tag := demo_prefix;
            with_tagged_prefix := λ w p, if (w =? -1)%Z then Some Mc else if p =? demo_prefix Whole then Some Whole else if p =? demo_prefix Left then Some Left else Some Right;
            shard_is_masterchain := λ s, match s with Mc => true | _ => false end;
            intersect_with := λ a b, bool_decide (a = b) || match a, b with Whole, Left | Whole, Right | Left, Whole | Right, Whole => true | _, _ => false end |}; by intros [].
Defined.

Definition demo_merge (s : DemoShard) : option DemoShard := match s with Left | Right => Some Whole | _ => None end.
Definition demo_split (s : DemoShard) : option (DemoShard * DemoShard) := match s with Whole => Some (Left, Right) | _ => None end.
Definition demo_parent (p c : DemoShard) : bool := match p, c with Whole, Left | Whole, Right => true | _, _ => false end.
Definition demo_full (s : DemoShard) : bool := match s with Mc | Whole => true | _ => false end.
(** The shards at the ends of the interval of a shard, one level deeper. *)
Definition demo_left (s : DemoShard) : option DemoShard := Some (match s with Whole => Left | s => s end).
Definition demo_right (s : DemoShard) : option DemoShard := Some (match s with Whole => Right | s => s end).
Definition demo_sibling (s : DemoShard) : DemoShard := match s with Left => Right | Right => Left | s => s end.

#[local] Instance once_split_tree : @ShardTree once_split :=
  {| masterchain := (Mc : @ShardIdent once_split); masterchain_ok := eq_refl; shard_merge := demo_merge; shard_split := demo_split;
     left_ancestor_mask := demo_left; right_ancestor_mask := demo_right; is_parent_for := demo_parent; is_full := demo_full; can_split := demo_full |}.

#[local] Instance no_plans : @SplitMerge once_split once_split_tree.
Proof.
  refine {| FutureSplitMerge := bool; fsm_absent := false; fsm_is_split := λ b, b; fsm_is_merge := λ _, false; fsm_is_none := negb; fsm_utime_of := λ _, 0;
            fsm_utime_end_of := λ _, 100; fsm_interval_of := λ _, 100; sibling := demo_sibling;
            INVALID_WORKCHAIN_ID := 0x80000000%Z; MASTERCHAIN_ID := (-1)%Z |}.
  - intros [] [] s1 s2; simpl; intros ? [= <- <-]; auto; done.
  - by intros [] [].
  - by intros [] [].
  - intros [] s1 s2; simpl; intros [= <- <-]; done.
  - intros [] s1 s2; simpl; intros [= <- <-]; done.
Defined.

(** The listed shard of which [s] is a part. *)
Definition demo_find (m : gmap DemoShard ShardRecord) (s : DemoShard) : option ShardRecord :=
  match m !! s with Some r => Some r | None => demo_merge s ≫= (m !!.) end.
Definition demo_merge_shards (m : gmap DemoShard ShardRecord) (s : DemoShard) (r : ShardRecord) : option (gmap DemoShard ShardRecord) :=
  match s, m !! Left, m !! Right with Whole, Some _, Some _ => Some (<[Whole := r]> (delete Right (delete Left m))) | _, _, _ => None end.
Definition demo_split_shard (m : gmap DemoShard ShardRecord) (s : DemoShard) (r1 r2 : ShardRecord) : option (gmap DemoShard ShardRecord) :=
  match s, m !! Whole with Whole, Some _ => Some (<[Right := r2]> (<[Left := r1]> (delete Whole m))) | _, _ => None end.
Definition demo_update_shard (m : gmap DemoShard ShardRecord) (s : DemoShard) (r : ShardRecord) : option (gmap DemoShard ShardRecord) :=
  match m !! s with Some _ => Some (<[s := r]> m) | None => None end.

Lemma demo_update_ok m s r m' : demo_update_shard m s r = Some m' → is_Some (m !! s) ∧ m' = <[s := r]> m.
Proof. unfold demo_update_shard. destruct (m !! s) as [x|]; intros [= <-]. split; [by exists x|done]. Qed.

Lemma demo_merge_ok m s r m' : demo_merge_shards m s r = Some m' →
  ∃ s1 s2, demo_split s = Some (s1, s2) ∧ is_Some (m !! s1) ∧ is_Some (m !! s2) ∧ m' = <[s := r]> (delete s2 (delete s1 m)).
Proof.
  unfold demo_merge_shards. destruct s; [done| |done|done]. destruct (m !! Left) as [x1|] eqn:E1; [|done]. destruct (m !! Right) as [x2|] eqn:E2; [|done]. intros [= <-].
  exists Left, Right. split; [done|]. split; [by exists x1|]. split; [by exists x2|done].
Qed.

Lemma demo_split_ok m s r1 r2 m' : demo_split_shard m s r1 r2 = Some m' →
  ∃ s1 s2, demo_split s = Some (s1, s2) ∧ is_Some (m !! s) ∧ m' = <[s2 := r2]> (<[s1 := r1]> (delete s m)).
Proof.
  unfold demo_split_shard. destruct s; [done| |done|done]. destruct (m !! Whole) as [x|] eqn:E; [|done]. intros [= <-]. exists Left, Right. split; [done|]. split; [by exists x|done].
Qed.

#[local] Instance map_shards : @ShardHashesOps once_split once_split_tree no_plans.
Proof.
  refine {| ShardHashes := gmap DemoShard ShardRecord; leaves := λ m, m; has_workchain := λ _ w, Some (bool_decide (w = 0%Z));
            get_shard := λ (m : gmap DemoShard ShardRecord) (s : DemoShard), Some (m !! s); find_shard_of := λ (m : gmap DemoShard ShardRecord) (s : DemoShard), Some (demo_find m s); calc_cc_seqno := λ _ _, Some 1;
            update_shard := demo_update_shard; merge_shards := demo_merge_shards; split_shard := demo_split_shard |}.
  - intros shards s r Hs. by injection Hs.
  - exact demo_update_ok.
  - exact demo_merge_ok.
  - exact demo_split_ok.
Defined.

Definition demo_shard_block (s : DemoShard) (n : N) : BlockIdExt := {| shard_id := (s : @ShardIdent once_split); seq_no := n; root_hash := [n]; file_hash := [n] |}.
Definition demo_record (s : DemoShard) (n cc : N) (bs bm : bool) : ShardRecord :=
  {| sr_shard := (s : @ShardIdent once_split); sr_block_id := demo_shard_block s n;
     sr_descr := {| descr_seq_no := n; descr_before_split := bs; descr_before_merge := bm; next_catchain_seqno := cc; end_lt := 10; descr_utime := 5; split_merge_at := (false : @FutureSplitMerge _ _ no_plans) |} |}.
Definition demo_shards (bs : bool) : gmap DemoShard ShardRecord := {[Whole := demo_record Whole 4 1 bs false]}.

Lemma shard_update_exact_witness :
  ∃ shards', update_shard_block_info (SH := map_shards) (demo_shards false) (demo_record Whole 6 1 false false) [demo_shard_block Whole 4] (Some ∅) = Ok shards'
    ∧ replaced_by (SH := map_shards) (demo_shards false) shards'.1 [demo_shard_block Whole 4] (demo_record Whole 6 1 false false).
Proof.
  assert (∃ p, update_shard_block_info (SH := map_shards) (demo_shards false) (demo_record Whole 6 1 false false) [demo_shard_block Whole 4] (Some ∅) = Ok p) as [[s u] E] by (eexists; reflexivity).
  destruct (shard_update_exact (SH := map_shards) (demo_shards false) s (demo_record Whole 6 1 false false) [demo_shard_block Whole 4] (Some ∅) u E) as (rs & _ & _ & Hr & _).
  exists (s, u). split; [exact E|exact Hr].
Defined.

Lemma shard_split_exact_witness :
  ∃ p, update_shard_block_info2 (SH := map_shards) (demo_shards true) (demo_record Left 6 1 false false) (demo_record Right 7 1 false false) [demo_shard_block Whole 4] (Some ∅) = Ok p
    ∧ leaves (ShardHashesOps := map_shards) p.1 !! (Right : DemoShard) = Some (demo_record Right 7 1 false false).
Proof.
  assert (∃ p, update_shard_block_info2 (SH := map_shards) (demo_shards true) (demo_record Left 6 1 false false) (demo_record Right 7 1 false false) [demo_shard_block Whole 4] (Some ∅) = Ok p)
    as [[s u] E] by (eexists; reflexivity).
  destruct (shard_split_exact (SH := map_shards) (demo_shards true) s (demo_record Left 6 1 false false) (demo_record Right 7 1 false false) [demo_shard_block Whole 4] (Some ∅) u) as (ob & f & sec & _ & _ & _ & Hl & _).
  - discriminate.
  - exact E.
  - exists (s, u). split; [exact E|]. exact (Hl (Right : DemoShard)).
Defined.

(** The masterchain lists two parts that are ready to merge, at blocks 4 and 6. *)
Definition demo_merging : gmap DemoShard ShardRecord := {[Left := demo_record Left 4 1 false true; Right := demo_record Right 6 1 false true]}.

Lemma demo_merging_find s : demo_find demo_merging s =
  match s with Left => Some (demo_record Left 4 1 false true) | Right => Some (demo_record Right 6 1 false true) | _ => None end.
Proof. by destruct s. Qed.

Lemma demo_merging_ok : listed_ok (SH := map_shards) demo_merging.
Proof.
  intros s r Hr. simpl in Hr. injection Hr as Hr. rewrite demo_merging_find in Hr. destruct s; try discriminate Hr; injection Hr as <-; done.
Qed.

(** The block after number 13 of the merged shard is accepted, and after 14 it is not: the
    block before it is between 7 and 13. *)
Lemma new_block_near_masterchain_witness :
  ∃ prev0 right, [demo_shard_block Whole 13] = [prev0] ∧ find_shard_of (ShardHashesOps := map_shards) demo_merging (Right : @ShardIdent once_split) = Some (Some right)
    ∧ 4 < seq_no prev0 ∧ seq_no (sr_block_id right) < seq_no prev0 < N.max 4 (seq_no (sr_block_id right)) + 8.
Proof.
  destruct (new_block_near_masterchain (SH := map_shards) (Whole : @ShardIdent once_split) false false false [demo_shard_block Whole 13]
    (Some (Some {| wc_active := true; wc_basic := true; enabled_since := 0; accept_msgs := true |})) demo_merging true 7 (u32_max, false, true)) as (l & left & Hs & Hf & Hn & _).
  - exact demo_merging_ok.
  - vm_compute. reflexivity.
  - injection Hs as <-. change (Some (demo_find demo_merging Left) = Some (Some left)) in Hf. rewrite demo_merging_find in Hf. injection Hf as <-.
    destruct Hn as [? ? Hn|rs right _ _ Hrs Hright _ _ _ _ _ Hch|? ? _ Hn]; [discriminate Hn| |discriminate Hn].
    injection Hrs as <-. destruct (Hch eq_refl) as (p0 & rest & [= <- <-] & H1 & H2 & H3). exists (demo_shard_block Whole 13), right. repeat split; done.
Defined.

Lemma far_block_rejected :
  check_this_shard_mc_info (SH := map_shards) (Whole : @ShardIdent once_split) false false false [demo_shard_block Whole 14]
    (Some (Some {| wc_active := true; wc_basic := true; enabled_since := 0; accept_msgs := true |})) demo_merging true 7 = Err.
Proof. vm_compute. reflexivity. Qed.
